(* ===== verification/_CoqProject ===== *)
-Q . S2P
Prelude.v
Wire.v
Framing.v
Gossip.v
StdModel.v
SqlModel.v
Content.v
Crypto.v
RosterCodec.v
Roster.v
RosterStore.v
Message.v
Frames.v
Hints.v
Engine.v
MediaBlob.v
MediaBitmap.v
MediaWire.v
MediaPull.v
MediaServe.v
MediaTransfer.v
RelayPolicy.v
RelayWire.v
RelayCursor.v
CarryQueue.v
OutboundQueue.v
RelayPass.v
RelayStore.v
RelayPassRun.v
PassMail.v
SprayPolicy.v
SyncStream.v
SyncStore.v
SyncRounds.v
Sealing.v
Groups.v
Timeline.v
SyncRecords.v
FriendCards.v
Authoring.v
InboundStore.v
SyncMerge.v
MeshReceive.v
SettingsSync.v
SyncConverge.v
Delivery.v
RelayMailbox.v
RelayDaemon.v
RelayQuota.v
RelayExchange.v
LinkQr.v
LinkCeremony.v
LinkVerdicts.v
LinkExchange.v
LinkBootstrap.v
LinkRoster.v
LinkActivation.v
Revocation.v
RelayRotation.v
