(* ===== verification/Prelude.v ===== *)
(** CruiseMesh core: a verification library.

    CruiseMesh is a messenger for people who share a ship's network and little
    else: devices exchange sealed envelopes over Bluetooth, over the local network
    and through relays, and every device carries envelopes for others.  The
    program's logic is two Rust crates: [core/src], used by the Android, iOS and
    desktop shells, and [relayd/src], the relay.  This library models the parts of
    them listed below as Rocq functions and proves what makes them correct.

    * The parts and their files

    - Bytes.  [Wire.v] models the bounds-checked cursor of [protocol.rs] (the
      other codecs declare cursors with the same operations) as a reader monad
      over a byte list and a position, the length-prefix writers, and the two
      rule sets every codec proof is made of: [parses_*] (reading back what was
      written) and [*_inv] (what a successful read implies about the input).
      [StdModel.v] models what the codecs use of the Rust standard library:
      UTF-8 validation, [char::is_whitespace], the [IpAddr] parser.
    - Links.  [Framing.v] models [framing.rs]: cutting a frame into Bluetooth
      fragments and the ordered reassembler.  [Frames.v] models the link frames of
      [protocol.rs] ([encode_hello] to [encode_transport_probe], [parse_frame]),
      the rule that a LAN endpoint hint names a local address literal, and the
      ids and recipient hints derived for envelope headers.  [Gossip.v] models
      [gossip.rs], the bounded set of seen message ids behind flood forwarding.
    - Message contents.  [Message.v] models the sealed bodies of [protocol.rs]:
      message bodies with their private extensions, receipts, profile syncs, and
      the tables over message kinds and capabilities.  [Content.v] models
      [content.rs], attachments and reactions.
    - Device rosters.  A person's devices are listed in a signed document.
      [RosterCodec.v] models its data, wire codec and signing pre-images,
      [Roster.v] its validation against the person root and the rule that decides
      what to do with an incoming one ([device_roster.rs]), and [RosterStore.v]
      the SQL tables that hold what is known of each contact and the one
      operation that changes them ([roster_store.rs], [contact_safety.rs],
      [revocation.rs], [apply_contact_roster] and [clear_roster_quarantine] of
      [store.rs]).
    - Mesh decisions.  [Hints.v] models [recipient_hints.rs]: the daily-rotating
      hints an id answers to, the hints a device fetches under, and how a row's hint
      relates to a person's own devices.  [Engine.v] models [engine.rs]: who may
      dispatch, the inbound gate, which relay rows may be acknowledged (and so
      deleted), the set of consumed hidden messages that licenses some of them,
      which carried copies a digest retires, fan-out rows, and the queries and
      statements of [store.rs] these use, over the tables of [engine_db].
    - Queues.  [SqlModel.v] models what the statements of [store.rs] use of SQL
      (row values, ordering, sums, the conversions of bound parameters).
      [CarryQueue.v] models the envelopes carried for others: admission, budgets
      and eviction, the ingestion of a fetched page.  [OutboundQueue.v] models
      what this device authored and still owes, and the rules by which a row
      leaves ([outbound_retirement.rs], the outbound tables of [store.rs]).
    - Relays.  [RelayPolicy.v] models pacing, back-off and fault classification
      ([session/relay_policy.rs], [relay_status.rs]) and the health of contacts'
      endpoints ([contact_relay_health.rs]); [RelayWire.v] the URL rules, delivery
      targets, limits and message bodies of [relay_wire.rs]; [RelayCursor.v] how
      far each mailbox has been read ([relay_cursor.rs] and its table).
      [RelayPass.v] models [session/relay_pass.rs], the state machine that
      uploads, announces, walks mailboxes and acknowledges, every stage and every
      exported call, as a state monad over the interface [PassStore];
      [RelayStore.v] implements that interface with the tables above.
      [RelayPassRun.v] proves what holds of any store (budget, termination, stale
      results, refusals) and [PassMail.v] what a run leaves in the concrete one.
    - The media plane.  [MediaBlob.v] models chunk geometry, sealing and naming
      ([media/blob.rs]), [MediaBitmap.v] the per-blob chunk bitmap and the walk
      over missing ranges ([media/bitmap.rs]), [MediaWire.v] the pull frames and
      the proof of manifest possession ([media/wire.rs]), [MediaPull.v] and
      [MediaServe.v] the requester's and the holder's state machines, and
      [MediaTransfer.v] the two joined by a link ([media/lan_pull.rs]).
    - The mesh's own mail.  [SprayPolicy.v] models when a peer is offered mail and
      how much ([spray_policy.rs]).  [Sealing.v] models [crypto.rs]: padding, signing,
      sealing and opening with the rules of both envelope versions.  [Groups.v] models
      [groups.rs], [Timeline.v] the display order ([causal_order.rs],
      [late_arrival.rs]), [FriendCards.v] the cards of [identity.rs].  [Authoring.v]
      models the transactions of [authoring.rs]; [InboundStore.v] the tables of
      [store.rs] a received body may change; [MeshReceive.v] and [Delivery.v] the
      inbound transaction of [session/mesh_receive.rs], from a frame to what it files.
    - A person's own devices.  [SyncStream.v] models digests, gaps and the plan of a
      round ([sync_stream.rs]), [SyncRecords.v] the signed and sealed records
      ([sync_record.rs]), [SyncStore.v] their tables, cursors and shared settings and
      [SyncMerge.v] what a record changes in the store ([sync_store.rs]);
      [SyncRounds.v] joins two devices, against an interface that says what the one
      that receives owes, and [SyncConverge.v] discharges it with the opening and the
      merge of the code; [SettingsSync.v] follows the shared settings.
    - Linking a device and removing one.  [LinkQr.v] models the offer a new device
      shows, [LinkCeremony.v] the two state machines that take it to a confirmed
      channel, [LinkBootstrap.v] the export a new device starts from, [LinkActivation.v]
      the window in which it authors and fetches nothing, the own roster and the fleet
      ([device_link/]).
      [LinkRoster.v] models the rosters that are minted on the way and by a removal,
      [Revocation.v] the removal itself and how it reaches the siblings
      ([revocation.rs]).  [LinkVerdicts.v] proves what holds of a ceremony whatever
      happens, [LinkExchange.v] that two honest devices finish one.
    - The relay.  [RelayMailbox.v] models the database of [relayd/src/lib.rs],
      [RelayDaemon.v] its requests and who may make them, [RelayQuota.v] what any of
      them leave of a family's quota; [RelayExchange.v] runs the
      phone's half ([RelayWire.v]) against it.  [RelayRotation.v] models
      [relay_rotation.rs], the journal and the publishing of a new member token.
    - [Crypto.v] names the third-party primitives (BLAKE2b, Ed25519) as a class
      with the laws their documentation promises, and gives a computable stand-in
      for concrete runs; [MediaBlob.v] does the same for XChaCha20-Poly1305,
      [Sealing.v] for X25519 and the sealed box, [LinkCeremony.v] and [LinkExchange.v]
      for the Noise crate.  Collision resistance and unforgeability are no laws of
      these classes.  A theorem that says who wrote something states what it takes of
      the writer's key: that it signed only what its holder wrote.

    * How the parts meet

    A message goes from [author_pairwise_message] ([Authoring.v]) to the outbound
    queue ([OutboundQueue.v]), from there on a link as a frame ([Frames.v],
    [Framing.v], allowed by [SprayPolicy.v]) or to a mailbox by a pass ([RelayPass.v],
    [RelayWire.v], [RelayMailbox.v]); [process_inbound_frame] ([MeshReceive.v]) opens
    it ([Sealing.v]) or carries it on ([CarryQueue.v]), and [deliver_inbound_body]
    ([Delivery.v]) files it.  Who is believed on the way is decided by the rosters
    ([Roster.v], [RosterStore.v], [Engine.v]).  What one device of a person filed, its
    siblings get as records ([SyncRecords.v], [SyncMerge.v]); which devices those are
    changes by the ceremonies ([LinkActivation.v], [Revocation.v]), whose state wraps
    the message store.

    * How the code is modelled

    An integer of width w is a [Z]; [in_u16] and its like state the type, and
    wrapping ([as_u32]), saturating and checked operations are written out where
    the code has them.  Bytes are [list byte]; a Rust [String] is its UTF-8 bytes.
    [Result] is [result] below, with the source's error values; messages of
    [Malformed] errors are kept as strings where the source has fixed ones.  A
    struct is a [Record], an enum an [Inductive] with the source's variants.
    [&mut self] is state passing: an operation returns the next state with its
    answer.  SQL tables are finite maps or lists of rows with the statements'
    effect written out ([RosterStore.v], [Engine.v]).  Every definition that
    models code is executable; the witnesses run them.

    Loops become structural recursion or recursion on fuel that provably
    suffices: [vouch_loop] ([Roster.v]) gets one more than the number of
    certificates, since every pass but the last vouches a new one;
    [read_extensions] ([Message.v]) gets the number of unread bytes
    ([read_extensions_fuel] shows more changes nothing); [ranges_loop] and
    [run_length] ([MediaBitmap.v]) get the chunk count and the window, which bound
    their passes ([ranges_loop_spec]); [carry_walk] ([Engine.v]) gets one more than
    the number of matching rows, as every page but the last offers one;
    [evict] ([Gossip.v]) recurses on the queue; [evict_while] ([CarryQueue.v])
    gets the length of the queue, since every turn removes a row; [base36_loop]
    ([RelayPass.v]) gets thirteen digits, enough for 64 bits; [advance_loop] gets
    [advance_fuel], which [advance_fuel_enough] bounds by the measure every turn
    lowers, so that a pass always answers ([pass_stays_within_budget]);
    [scheme_versions] ([FriendCards.v]) gets one more than the length of the text;
    [read_sections] ([LinkBootstrap.v]) one more than the number of bytes, as a
    section takes five at least, and [pieces] the length of the payload;
    [unpack_loop] ([Revocation.v]) the number of bytes.

    * What the theorems show

    - Codecs: what encodes decodes to itself; rosters, receipts and frames are
      also canonical (what decodes is the encoding of the result); a signing
      pre-image determines the document.
    - Reassembly: fragmented frames come out unchanged; whatever a hostile peer
      sends, a frame is emitted only as a complete in-order run.
    - Deduplication: the set refines a first-in-first-out window, so an id is
      reported new at most once per window.
    - Rosters: validation and acceptance are equivalent to declarative rules (the
      chain-of-trust loop to an inductive relation); over the tables, any sequence
      of gossip refines an abstract store, the held version only climbs, a buried
      device stays revoked, a fork stays quarantined until the person root speaks
      at a higher recovery epoch, and safety facts are written once.
    - Mesh decisions: a fetch set covers every live row for the person and the
      device; a device deletes from a relay exactly the rows it read and nobody
      else has to read, so a row fanned out to one device is deleted by that device
      only, and a row only seen again is deleted behind an earlier licensed
      consumption; a digest retires exactly the copies an authenticated peer holds;
      and paging through the carry queue offers every matching row exactly once.
      No hint is assumed unique: a theorem about another device's row names the
      hash collision it excludes.
    - Queues: the carry queue stays within its budget and never evicts family
      mail; eviction takes the oldest foreign rows; a fetched page is disposed of
      row by row and a replay changes nothing; an authored envelope leaves its
      queue only by a licensed exit - a receipt, a newer generation, its expiry, or this
      person deleting the chat; and the upload window is fair to recipients.
    - Relays: pacing and back-off follow their curves; mail is not posted where
      its reader does not look; what decodes is well formed; a mailbox's frontier
      never passes a page that was not processed; a pass answers every call, ends
      within its request budget, ignores stale results, stops at a refusal, and,
      run on the concrete store against arbitrary relays, loses no mail.
    - Media: blobs seal and open; the bitmap keeps its invariant and its walk
      returns the first missing chunks; over every sequence of calls a requester
      counts only requested, missing, authentic chunks as progress, and a holder
      never panics and serves only held chunks to a peer that proved possession of
      the manifest; both stay within their budgets; and the two of them complete a
      transfer, in at most three exchanges per missing chunk and one more.
    - Mail, end to end: what is sealed opens and what opens was written, for this
      recipient or group; what a device authors for one person, of every kind, is filed
      there as it was written ([authored_mail_is_filed]); a payload handed over was
      written by the sender it names (under version 1 perhaps for somebody else); a delivered body writes its sender's own thread only, and what
      one sender can make a device store is bounded.  Members of a group that saw the
      same updates agree on its members and rank, and on its name unless two updates of
      the winning rank carry different ones ([equal_rank_diverges]); a friend card crosses its link, and a card passed on was
      passed on by the friend it names.
    - Sync: a cursor ends a gap-free prefix whatever arrives; settings agree whatever
      the order, the relay credential where the same entries pass its gate; rounds bring
      a sibling level in as many rounds as records are missing, of records whose payloads
      merge ([mergeable]); an admitted record was signed by a device of the person.
    - The relay: it keeps what was posted until it is acknowledged, expired or its
      family deleted, under one id and within its quotas, whatever is posted, rotated or
      patched; a reader that walks its pages skips nothing; a request leaves other
      families alone, and a holder of a deposit token can only deposit and refresh what
      it posts again; a rotation is signed, moves the mail and cuts off the old
      tokens; and the phone's requests and the relay's answers understand each other.
      A rotation whose answer is lost is recovered from the journal, and the token it
      ends with reaches the person's other devices, whatever they were told before.
    - Linking and removal: a channel is ready only after the person confirmed its
      digits, whatever arrives, and a ceremony ends at its deadline; two honest devices
      finish; the export crosses the channel, and one that verifies was made for it;
      minted rosters are accepted by all who hold the roster they came from; a new
      device authors, fetches and acknowledges nothing until its roster is acknowledged; the fleet never goes back; a
      removal loses no retained record and reaches every sibling that survived it.

    * What is not modelled

    Of the core: gossip of rosters, the plans of a restore from a backup,
    the harvest of sync pages ([sync_outbound.rs] beyond the drafts), meetings and the
    shadow of a relay pass ([session/mesh_meet.rs], [session/relay_shadow.rs]), the
    media manifest and store, connection health and transport policy, which classify
    for the screen, captive portals and network names, and the store's drafts,
    searches, settings screens and migrations.  Of the relay: the rate limiter, the
    gate before authentication with its cache of hosted credentials, websockets, push
    delivery and migrations.  Within the parts modelled: protocol events and their
    actors (diagnostics that are written and never read), delivery metrics and
    shared drafts; JSON is a parameter (a class with the two directions the code
    calls), as is base64, with a computable instance for the witnesses; and a
    statement of the concrete store of [RelayStore.v] fails only where the code
    itself raises an error, not because SQLite does ([RelayPassRun.v] covers a
    store that fails at will).
    Key generation, the JSON and URL formats parsed by third-party crates and the
    platform shells are input and output or foreign code and stay outside; what a
    random generator gives is an argument of the operation that draws it.  Threads are
    not modelled: the shared objects of the parts above run each operation under one
    mutex or one SQL transaction, so an execution is the sequence of operations. *)
From Stdlib Require Export Strings.Byte.
From stdpp Require Import base numbers list gmap strings.

#[global] Open Scope Z_scope.
#[global] Set Default Goal Selector "!".

(** * Machine integers

    A Rust integer of width w is a [Z]; the range predicates below are the
    types, and the saturating, wrapping and checked operations are written
    out.  [in_u16 z] is the statement that [z] is a value of type [u16]. *)

Definition U8_MAX : Z := 255.
Definition U16_MAX : Z := 65535.
Definition U32_MAX : Z := 4294967295.
Definition U64_MAX : Z := 18446744073709551615.
Definition I64_MAX : Z := 9223372036854775807.
Definition I64_MIN : Z := -9223372036854775808.

Definition in_u8 (z : Z) : Prop := 0 <= z <= U8_MAX.
Definition in_u16 (z : Z) : Prop := 0 <= z <= U16_MAX.
Definition in_u32 (z : Z) : Prop := 0 <= z <= U32_MAX.
Definition in_u64 (z : Z) : Prop := 0 <= z <= U64_MAX.
Definition in_i64 (z : Z) : Prop := I64_MIN <= z <= I64_MAX.

(** [i64::saturating_add] / [saturating_sub] / [saturating_mul]. *)
Definition sat_i64 (z : Z) : Z := Z.max I64_MIN (Z.min I64_MAX z).
Definition i64_saturating_add (a b : Z) : Z := sat_i64 (a + b).
Definition i64_saturating_sub (a b : Z) : Z := sat_i64 (a - b).
Definition i64_saturating_mul (a b : Z) : Z := sat_i64 (a * b).

(** [u64::saturating_add] / [saturating_sub] / [saturating_mul]. *)
Definition sat_u64 (z : Z) : Z := Z.max 0 (Z.min U64_MAX z).
Definition u64_saturating_add (a b : Z) : Z := sat_u64 (a + b).
Definition u64_saturating_sub (a b : Z) : Z := sat_u64 (a - b).
Definition u64_saturating_mul (a b : Z) : Z := sat_u64 (a * b).

(** [u32::saturating_add] / [saturating_sub]. *)
Definition sat_u32 (z : Z) : Z := Z.max 0 (Z.min U32_MAX z).
Definition u32_saturating_add (a b : Z) : Z := sat_u32 (a + b).

(** [z as u32] and [z as u64]: the low bits. *)
Definition as_u32 (z : Z) : Z := z mod 4294967296.
Definition as_u64 (z : Z) : Z := z mod 18446744073709551616.

(** Two's complement reading of an unsigned 64-bit word. *)
Definition to_i64 (z : Z) : Z :=
  if z <=? I64_MAX then z else z - 18446744073709551616.

Ltac unfold_ints :=
  unfold i64_saturating_add, i64_saturating_sub, i64_saturating_mul,
    u64_saturating_add, u64_saturating_sub, u64_saturating_mul,
    u32_saturating_add, in_u8, in_u16, in_u32, in_u64, in_i64, sat_i64, sat_u64, sat_u32,
    to_i64, as_u32, as_u64, U8_MAX, U16_MAX, U32_MAX, U64_MAX, I64_MAX, I64_MIN in *.

(** [ints] closes linear goals on machine integers after unfolding the
    ranges and the saturating operations. *)
Ltac ints := unfold_ints; lia.

Lemma to_i64_id z : z <= I64_MAX -> to_i64 z = z.
Proof. intros H. unfold to_i64. by rewrite (proj2 (Z.leb_le _ _) H). Qed.

Lemma to_i64_le z : in_u64 z -> to_i64 z <= I64_MAX.
Proof. unfold to_i64. destruct (z <=? I64_MAX) eqn:E; ints. Qed.

Lemma as_u64_range z : in_u64 (as_u64 z).
Proof. unfold as_u64. pose proof (Z.mod_pos_bound z 18446744073709551616 ltac:(done)). ints. Qed.

Lemma sat_i64_range z : in_i64 (sat_i64 z).
Proof. ints. Qed.

Lemma sat_i64_id z : in_i64 z -> sat_i64 z = z.
Proof. ints. Qed.

Lemma sat_u64_range z : in_u64 (sat_u64 z).
Proof. ints. Qed.

Lemma sat_u64_id z : in_u64 z -> sat_u64 z = z.
Proof. ints. Qed.

(** * Bytes *)

Notation byte := Byte.byte.
Notation bytes := (list Byte.byte).

#[global] Instance byte_eq_decision : EqDecision byte := Byte.byte_eq_dec.

#[global] Program Instance byte_countable : Countable byte :=
  inj_countable Byte.to_N Byte.of_N Byte.of_to_N.

(** [b as u64], a value below 256. *)
Definition Z_of_byte (b : byte) : Z := Z.of_N (Byte.to_N b).

(** [z as u8]: the low eight bits. *)
Definition byte_of_Z (z : Z) : byte :=
  default x00 (Byte.of_N (Z.to_N (z mod 256))).

(** [slice.len()] as an integer. *)
Definition blen {A} (l : list A) : Z := Z.of_nat (length l).

Lemma Z_of_byte_range b : 0 <= Z_of_byte b < 256.
Proof.
  unfold Z_of_byte. pose proof (Byte.to_N_bounded b). lia.
Qed.

Lemma Z_of_byte_of_Z z : Z_of_byte (byte_of_Z z) = z mod 256.
Proof.
  pose proof (Z.mod_pos_bound z 256 ltac:(lia)) as Hr.
  unfold Z_of_byte, byte_of_Z.
  destruct (Byte.of_N (Z.to_N (z mod 256))) as [b|] eqn:E; simpl.
  - apply Byte.to_of_N in E. rewrite E. lia.
  - apply Byte.of_N_None_iff in E. lia.
Qed.

Lemma Z_of_byte_of_Z_small z : 0 <= z < 256 -> Z_of_byte (byte_of_Z z) = z.
Proof. intros H. rewrite Z_of_byte_of_Z. by apply Z.mod_small. Qed.

Lemma byte_of_Z_of_byte b : byte_of_Z (Z_of_byte b) = b.
Proof.
  unfold byte_of_Z. rewrite Z.mod_small by apply Z_of_byte_range.
  unfold Z_of_byte. rewrite N2Z.id, Byte.of_to_N. done.
Qed.

Lemma Z_of_byte_inj b1 b2 : Z_of_byte b1 = Z_of_byte b2 -> b1 = b2.
Proof. intros H. by rewrite <-(byte_of_Z_of_byte b1), H, byte_of_Z_of_byte. Qed.

Lemma blen_app {A} (l1 l2 : list A) : blen (l1 ++ l2) = blen l1 + blen l2.
Proof. unfold blen. rewrite length_app. lia. Qed.

Lemma blen_cons {A} (x : A) l : blen (x :: l) = 1 + blen l.
Proof. unfold blen. simpl. lia. Qed.

Lemma blen_nil {A} : blen (@nil A) = 0.
Proof. done. Qed.

Lemma blen_nonneg {A} (l : list A) : 0 <= blen l.
Proof. unfold blen. lia. Qed.

Lemma blen_zero {A} (l : list A) : blen l = 0 -> l = [].
Proof. unfold blen. destruct l; [done|simpl; lia]. Qed.

(** * Fixed-width big- and little-endian integers

    [be_bytes n z] is [z.to_be_bytes()] for an [8*n]-bit integer (the low
    bits, two's complement for a negative [z]); [be_value] reads one back. *)

Fixpoint be_bytes (n : nat) (z : Z) : bytes :=
  match n with
  | O => []
  | S m => byte_of_Z (z / 256 ^ Z.of_nat m) :: be_bytes m z
  end.

Fixpoint be_value (bs : bytes) : Z :=
  match bs with
  | [] => 0
  | b :: rest => Z_of_byte b * 256 ^ Z.of_nat (length rest) + be_value rest
  end.

Definition le_bytes (n : nat) (z : Z) : bytes := reverse (be_bytes n z).
Definition le_value (bs : bytes) : Z := be_value (reverse bs).

Lemma length_be_bytes n z : length (be_bytes n z) = n.
Proof. induction n; simpl; congruence. Qed.

Lemma blen_be_bytes n z : blen (be_bytes n z) = Z.of_nat n.
Proof. unfold blen. by rewrite length_be_bytes. Qed.

Lemma be_value_range bs : 0 <= be_value bs < 256 ^ Z.of_nat (length bs).
Proof.
  induction bs as [|b bs IH]; [simpl; lia|].
  cbn [be_value length]. pose proof (Z_of_byte_range b).
  rewrite Nat2Z.inj_succ, Z.pow_succ_r by lia. nia.
Qed.

Lemma be_value_be_bytes n z : be_value (be_bytes n z) = z mod 256 ^ Z.of_nat n.
Proof.
  induction n as [|n IH].
  { simpl. by rewrite Z.mod_1_r. }
  cbn [be_bytes be_value]. rewrite length_be_bytes, IH, Z_of_byte_of_Z.
  rewrite Nat2Z.inj_succ, Z.pow_succ_r, Z.mul_comm by lia.
  rewrite (Z.mul_comm 256).
  rewrite (Z.rem_mul_r z (256 ^ Z.of_nat n) 256) by (try apply Z.pow_nonzero; lia).
  lia.
Qed.

Lemma be_value_be_bytes_small n z :
  0 <= z < 256 ^ Z.of_nat n -> be_value (be_bytes n z) = z.
Proof. intros H. rewrite be_value_be_bytes. by apply Z.mod_small. Qed.

Lemma be_bytes_shift n z k : be_bytes n (z + k * 256 ^ Z.of_nat n) = be_bytes n z.
Proof.
  revert k. induction n as [|n IH]; intros k; [done|].
  cbn [be_bytes]. f_equal.
  - rewrite Nat2Z.inj_succ, Z.pow_succ_r by lia.
    replace (z + k * (256 * 256 ^ Z.of_nat n))
      with (z + (k * 256) * 256 ^ Z.of_nat n) by ring.
    rewrite Z.div_add by (apply Z.pow_nonzero; lia).
    apply Z_of_byte_inj. rewrite !Z_of_byte_of_Z. apply Z.mod_add. lia.
  - rewrite Nat2Z.inj_succ, Z.pow_succ_r by lia.
    replace (k * (256 * 256 ^ Z.of_nat n))
      with ((k * 256) * 256 ^ Z.of_nat n) by ring. apply IH.
Qed.

Lemma be_bytes_be_value bs : be_bytes (length bs) (be_value bs) = bs.
Proof.
  induction bs as [|b bs IH]; [done|].
  cbn [length be_bytes be_value]. pose proof (be_value_range bs).
  rewrite Z.div_add_l by (apply Z.pow_nonzero; lia).
  rewrite (Z.div_small (be_value bs)), Z.add_0_r by lia.
  rewrite byte_of_Z_of_byte. f_equal.
  rewrite Z.add_comm, be_bytes_shift. apply IH.
Qed.

Lemma to_i64_be_bytes z : in_i64 z -> to_i64 (be_value (be_bytes 8 z)) = z.
Proof.
  intros H. rewrite be_value_be_bytes. change (256 ^ Z.of_nat 8) with 18446744073709551616.
  unfold_ints. destruct (decide (0 <= z)) as [Hz|Hz].
  - rewrite Z.mod_small by lia. case_match; lia.
  - replace (z mod 18446744073709551616) with (z + 18446744073709551616)
      by (apply Z.mod_unique with (-1); lia).
    case_match; lia.
Qed.

Lemma le_value_le_bytes_small n z :
  0 <= z < 256 ^ Z.of_nat n -> le_value (le_bytes n z) = z.
Proof.
  intros H. unfold le_value, le_bytes. rewrite reverse_involutive.
  by apply be_value_be_bytes_small.
Qed.

Lemma length_le_bytes n z : length (le_bytes n z) = n.
Proof. unfold le_bytes. by rewrite length_reverse, length_be_bytes. Qed.

(** * Fallible computations

    [Result<T, E>] with its early-return [?] written as a monadic bind. *)

Inductive result (E A : Type) : Type :=
| Ok (a : A)
| Err (e : E).
Arguments Ok {E A} a.
Arguments Err {E A} e.

#[global] Instance result_ret {E} : MRet (result E) := fun A a => Ok a.
#[global] Instance result_bind {E} : MBind (result E) := fun A B f m =>
  match m with Ok a => f a | Err e => Err e end.
#[global] Instance result_fmap {E} : FMap (result E) := fun A B f m =>
  match m with Ok a => Ok (f a) | Err e => Err e end.

Definition is_ok {E A} (r : result E A) : bool :=
  match r with Ok _ => true | Err _ => false end.

(** [if cond { return Err(e); }] *)
Definition ensure {E} (b : bool) (e : E) : result E unit :=
  if b then Ok tt else Err e.

#[global] Instance result_eq_dec {E A} `{EqDecision E, EqDecision A} :
  EqDecision (result E A).
Proof. solve_decision. Defined.

Lemma result_bind_ok {E A B} (m : result E A) (f : A -> result E B) b :
  (m ≫= f) = Ok b <-> exists a, m = Ok a /\ f a = Ok b.
Proof. destruct m; naive_solver. Qed.

Lemma Ok_inj {E A} (a b : A) : @Ok E A a = Ok b -> a = b.
Proof. congruence. Qed.

Lemma ensure_ok {E} b (e : E) u : ensure b e = Ok u <-> b = true.
Proof. destruct b, u; naive_solver. Qed.

(** A fallible loop that collects its results. *)
Lemma result_mapM_ok {E A B} (f : A -> result E B) l k :
  mapM f l = Ok k <-> Forall2 (fun x y => f x = Ok y) l k.
Proof.
  revert k. induction l as [|x l IH]; intros k; simpl.
  - split; [intros [= <-]; constructor|by inversion 1].
  - split.
    + intros (y & Hy & (ys & Hys & Hk)%result_bind_ok)%result_bind_ok.
      apply Ok_inj in Hk as <-. constructor; [done|by apply IH].
    + inversion 1 as [|? y ? ys Hy Hys]; subst. apply IH in Hys.
      by rewrite Hy, Hys.
Qed.

(** ** Filters that keep everything or nothing *)

Lemma filter_all {A} (P : A -> Prop) `{forall x, Decision (P x)} l :
  Forall P l -> filter P l = l.
Proof. induction 1; [done|]. rewrite filter_cons_True by done. by f_equal. Qed.

Lemma filter_none {A} (P : A -> Prop) `{forall x, Decision (P x)} l :
  Forall (fun x => ~ P x) l -> filter P l = [].
Proof. induction 1; [done|]. by rewrite filter_cons_False by done. Qed.

Lemma filter_iff_in {A} (P Q : A -> Prop) `{forall x, Decision (P x)} `{forall x, Decision (Q x)} (l : list A) :
  (forall x, x ∈ l -> P x <-> Q x) -> filter P l = filter Q l.
Proof.
  induction l as [|x l IH]; intros Hx; [done|]. rewrite !filter_cons.
  rewrite IH by (intros; apply Hx; by right).
  destruct (decide (P x)) as [HP|HP]; [rewrite decide_True|rewrite decide_False]; try done;
    rewrite <-(Hx x) by left; done.
Qed.

Lemma nodup_key {A B} (f : A -> B) (l : list A) x y : NoDup (f <$> l) -> x ∈ l -> y ∈ l -> f x = f y -> x = y.
Proof.
  induction l as [|z l IH]; [by intros _ ?%not_elem_of_nil|]. cbn [fmap list_fmap].
  intros [Hz Hn]%NoDup_cons [->|Hx]%elem_of_cons [->|Hy]%elem_of_cons He; [done|..].
  - exfalso. apply Hz. rewrite He. by apply list_elem_of_fmap_2.
  - exfalso. apply Hz. rewrite <-He. by apply list_elem_of_fmap_2.
  - by apply IH.
Qed.

Lemma nodup_filter_fmap {A B} (f : A -> B) (P : A -> Prop) `{forall x, Decision (P x)} (l : list A) :
  NoDup (f <$> l) -> NoDup (f <$> filter P l).
Proof. intros Hn. eapply sublist_NoDup; [exact Hn|]. apply fmap_sublist, sublist_filter. Qed.

Lemma imap_const {A B} (f : A -> B) l : imap (fun _ x => f x) l = f <$> l.
Proof. induction l as [|x l IH]; [done|]. cbn. f_equal. exact IH. Qed.

Create HintDb mesh discriminated.
#[export] Hint Resolve blen_nonneg Z_of_byte_range sat_i64_range sat_u64_range : mesh.
#[export] Hint Rewrite @blen_app @blen_cons @blen_nil blen_be_bytes : mesh.

(** Linear goals about lengths of lists built by the writers. *)
Ltac lens := autorewrite with mesh in *; lia.

(** Invert every successful bind and guard in the context. *)
Ltac inv_ok :=
  repeat match goal with
  | H : (_ ≫= _) = Ok _ |- _ =>
      apply result_bind_ok in H; let a := fresh "a" in
      let Ha := fresh "Ha" in destruct H as (a & Ha & H)
  | H : ensure _ _ = Ok _ |- _ => apply ensure_ok in H
  | H : mret _ = Ok _ |- _ => unfold mret, result_ret in H
  | H : Ok _ = Ok _ |- _ => apply Ok_inj in H; subst
  | H : Err _ = Ok _ |- _ => discriminate H
  | H : Ok _ = Err _ |- _ => discriminate H
  end.

(** Booleans of the code to propositions, in hypotheses and goal. *)
Ltac bools :=
  repeat match goal with
  | H : _ && _ = true |- _ => apply andb_true_iff in H as [? ?]
  | H : _ || _ = false |- _ => apply orb_false_iff in H as [? ?]
  | H : negb _ = true |- _ => apply negb_true_iff in H
  | H : negb _ = false |- _ => apply negb_false_iff in H
  | H : bool_decide _ = true |- _ => apply bool_decide_eq_true in H
  | H : bool_decide _ = false |- _ => apply bool_decide_eq_false in H
  | H : (_ <=? _) = true |- _ => apply Z.leb_le in H
  | H : (_ <=? _) = false |- _ => apply Z.leb_gt in H
  | H : (_ <? _) = true |- _ => apply Z.ltb_lt in H
  | H : (_ <? _) = false |- _ => apply Z.ltb_ge in H
  | H : (_ =? _) = true |- _ => apply Z.eqb_eq in H
  | H : (_ =? _) = false |- _ => apply Z.eqb_neq in H
  end.
