(* ===== verification/Wire.v ===== *)
(** Byte-level reading and writing: the bounds-checked cursors and the
    length-prefix writers that every decoder and encoder of the core is made
    of, and the reasoning rules the codec files share.

    The sources declare four private cursors with the same operations
    ([protocol.rs], [content.rs], [sync_stream.rs], [device_roster.rs]); they
    differ in the error they report, which is the [Reader] class here. *)
From stdpp Require Import base numbers list gmap strings.
From S2P Require Import Prelude.

(** * Errors ([identity.rs], [media/mod.rs])

    The text of a message is kept without its interpolated numbers. *)

Inductive CoreError : Type :=
| InvalidFriendCard (msg : string)
| InvalidKeyLength (expected actual : Z)
| Store (msg : string)
| Crypto (msg : string)
| SignatureInvalid
| Malformed (msg : string)
| UnsupportedLink
| DeviceLinkOffer.

#[global] Instance CoreError_eq_dec : EqDecision CoreError.
Proof. solve_decision. Defined.

(** The two errors a cursor can raise. *)
Class Reader (E : Type) := { truncated : E; trailing : E }.

(** * The cursor *)

Record cursor : Type := mk_cursor { c_data : bytes; c_pos : nat }.

Definition reader (E A : Type) : Type := cursor -> result E (A * cursor).

#[global] Instance reader_ret {E} : MRet (reader E) := fun A a c => Ok (a, c).
#[global] Instance reader_bind {E} : MBind (reader E) := fun A B f p c =>
  match p c with Ok (a, c') => f a c' | Err e => Err e end.

(** A pure [Result] inside a decoder. *)
Definition lift {E A} (r : result E A) : reader E A := fun c =>
  match r with Ok a => Ok (a, c) | Err e => Err e end.

Definition guard_ {E} (b : bool) (e : E) : reader E unit := lift (ensure b e).

Definition fail_ {E A} (e : E) : reader E A := fun _ => Err e.

Module Cursor.
Section cursor.
Context {E : Type} `{Reader E}.

Definition new (data : bytes) : cursor := mk_cursor data 0.

Definition take (n : Z) : reader E bytes := fun c =>
  if Z.of_nat (c_pos c) + n <=? blen (c_data c) then
    Ok (firstn (Z.to_nat n) (skipn (c_pos c) (c_data c)),
        mk_cursor (c_data c) (c_pos c + Z.to_nat n))
  else Err truncated.

Definition take_u8 : reader E Z := b ← take 1; mret (be_value b).
Definition take_u16 : reader E Z := b ← take 2; mret (be_value b).
Definition take_u32 : reader E Z := b ← take 4; mret (be_value b).
Definition take_u64 : reader E Z := b ← take 8; mret (be_value b).
Definition take_i64 : reader E Z := b ← take 8; mret (to_i64 (be_value b)).

Definition take_bytes16 : reader E bytes := len ← take_u16; take len.
Definition take_bytes32 : reader E bytes := len ← take_u32; take len.

Definition is_finished : reader E bool := fun c =>
  Ok (bool_decide (c_pos c = length (c_data c)), c).

Definition take_remaining : reader E bytes := fun c =>
  Ok (skipn (c_pos c) (c_data c), mk_cursor (c_data c) (length (c_data c))).

Definition finish : reader E unit := fun c =>
  if decide (c_pos c = length (c_data c)) then Ok (tt, c) else Err trailing.

(** [for _ in 0..n { push(p()?) }] *)
Fixpoint take_many {A} (n : nat) (p : reader E A) : reader E (list A) :=
  match n with
  | O => mret []
  | S m => x ← p; xs ← take_many m p; mret (x :: xs)
  end.

(** Run a decoder on a whole buffer. *)
Definition run {A} (p : reader E A) (data : bytes) : result E A :=
  match p (new data) with Ok (a, _) => Ok a | Err e => Err e end.
End cursor.
End Cursor.

(** * Writers *)

Definition write_bytes16 (bs : bytes) : bytes := be_bytes 2 (blen bs) ++ bs.
Definition write_bytes32 (bs : bytes) : bytes := be_bytes 4 (blen bs) ++ bs.
Definition push_u8 (z : Z) : bytes := [byte_of_Z z].

(** * Reasoning about decoders

    [parses p r a r'] says that wherever the unread input is [r], the reader
    [p] succeeds with [a] and leaves [r'] unread.  Every decoder proof is a
    chain of the rules below. *)

Definition cursor_at (c : cursor) (r : bytes) : Prop :=
  (c_pos c <= length (c_data c))%nat /\ skipn (c_pos c) (c_data c) = r.

Definition parses {E A} (p : reader E A) (r : bytes) (a : A) (r' : bytes) : Prop :=
  forall c, cursor_at c r -> exists c', p c = Ok (a, c') /\ cursor_at c' r'.

Section rules.
Context {E : Type} `{Reader E}.

Lemma cursor_at_new bs : cursor_at (Cursor.new bs) bs.
Proof. split; simpl; [lia|done]. Qed.

Lemma cursor_at_pos c r : cursor_at c r -> length (c_data c) = (c_pos c + length r)%nat.
Proof. intros [Hle <-]. rewrite length_skipn. lia. Qed.

Lemma parses_ret {A} (a : A) r : parses (mret a : reader E A) r a r.
Proof. intros c Hc. by exists c. Qed.

Lemma parses_bind {A B} (p : reader E A) (k : A -> reader E B) r a r1 b r2 :
  parses p r a r1 -> parses (k a) r1 b r2 -> parses (p ≫= k) r b r2.
Proof.
  intros Hp Hk c Hc. destruct (Hp c Hc) as (c1 & E1 & Hc1).
  destruct (Hk c1 Hc1) as (c2 & E2 & Hc2). exists c2. split; [|done].
  unfold mbind, reader_bind. by rewrite E1.
Qed.

Lemma parses_lift {A} (x : result E A) a r : x = Ok a -> parses (lift x) r a r.
Proof. intros -> c Hc. by exists c. Qed.

Lemma parses_guard b (e : E) r : b = true -> parses (guard_ b e) r tt r.
Proof. intros ->. by apply parses_lift. Qed.

Lemma parses_take n bs r : blen bs = n -> parses (Cursor.take n) (bs ++ r) bs r.
Proof.
  intros Hn c Hc. pose proof (cursor_at_pos _ _ Hc) as Hl. rewrite length_app in Hl.
  destruct Hc as [Hle Hd]. unfold blen in Hn. unfold Cursor.take, blen.
  rewrite Hd. subst n. rewrite Nat2Z.id.
  rewrite (proj2 (Z.leb_le _ _)) by lia.
  rewrite take_app_length. eexists; split; [done|]. split; simpl; [lia|].
  rewrite <-drop_drop, Hd. by rewrite drop_app_length.
Qed.

Lemma parses_uint n z r :
  0 <= z < 256 ^ Z.of_nat n ->
  parses (b ← Cursor.take (Z.of_nat n); mret (be_value b)) (be_bytes n z ++ r) z r.
Proof.
  intros Hz. eapply parses_bind; [apply parses_take, blen_be_bytes|].
  rewrite be_value_be_bytes_small by done. apply parses_ret.
Qed.

Lemma parses_u8 z r : in_u8 z -> parses Cursor.take_u8 (push_u8 z ++ r) z r.
Proof.
  intros Hz. unfold push_u8, Cursor.take_u8.
  eapply parses_bind; [by apply parses_take|].
  cbn [be_value length]. rewrite Z_of_byte_of_Z_small by ints.
  change (Z.of_nat 0) with 0. rewrite Z.pow_0_r, Z.mul_1_r, Z.add_0_r. apply parses_ret.
Qed.

Lemma parses_u16 z r : in_u16 z -> parses Cursor.take_u16 (be_bytes 2 z ++ r) z r.
Proof. intros Hz. apply (parses_uint 2). change (256 ^ Z.of_nat 2) with 65536. ints. Qed.

Lemma parses_u32 z r : in_u32 z -> parses Cursor.take_u32 (be_bytes 4 z ++ r) z r.
Proof. intros Hz. apply (parses_uint 4). change (256 ^ Z.of_nat 4) with 4294967296. ints. Qed.

Lemma parses_u64 z r : in_u64 z -> parses Cursor.take_u64 (be_bytes 8 z ++ r) z r.
Proof.
  intros Hz. apply (parses_uint 8).
  change (256 ^ Z.of_nat 8) with 18446744073709551616. ints.
Qed.

Lemma parses_i64 z r : in_i64 z -> parses Cursor.take_i64 (be_bytes 8 z ++ r) z r.
Proof.
  intros Hz. eapply parses_bind; [apply parses_take, blen_be_bytes|].
  rewrite to_i64_be_bytes by done. apply parses_ret.
Qed.

Lemma parses_bytes16 bs r :
  blen bs <= U16_MAX -> parses Cursor.take_bytes16 (write_bytes16 bs ++ r) bs r.
Proof.
  intros Hl. unfold write_bytes16. rewrite <-app_assoc.
  eapply parses_bind; [apply parses_u16|by apply parses_take].
  pose proof (blen_nonneg bs). ints.
Qed.

Lemma parses_bytes32 bs r :
  blen bs <= U32_MAX -> parses Cursor.take_bytes32 (write_bytes32 bs ++ r) bs r.
Proof.
  intros Hl. unfold write_bytes32. rewrite <-app_assoc.
  eapply parses_bind; [apply parses_u32|by apply parses_take].
  pose proof (blen_nonneg bs). ints.
Qed.

Lemma parses_finish : parses Cursor.finish [] tt [].
Proof.
  intros c Hc. exists c. split; [|done]. unfold Cursor.finish.
  pose proof (cursor_at_pos _ _ Hc). simpl in *.
  rewrite decide_True by lia. done.
Qed.

Lemma parses_is_finished r :
  parses (E:=E) Cursor.is_finished r (bool_decide (r = [])) r.
Proof.
  intros c Hc. exists c. split; [|done]. unfold Cursor.is_finished.
  pose proof (cursor_at_pos _ _ Hc). do 3 f_equal.
  apply bool_decide_ext. destruct r; simpl in *; naive_solver lia.
Qed.

Lemma parses_remaining r : parses (E:=E) Cursor.take_remaining r r [].
Proof.
  intros c Hc. eexists. split.
  - unfold Cursor.take_remaining. by rewrite (proj2 Hc).
  - split; simpl; [lia|]. apply skipn_all.
Qed.

Lemma parses_many {A} (p : reader E A) (enc : A -> bytes) xs r :
  (forall x r, x ∈ xs -> parses p (enc x ++ r) x r) ->
  parses (Cursor.take_many (length xs) p) (concat (enc <$> xs) ++ r) xs r.
Proof.
  induction xs as [|x xs IH]; intros Hp; [apply parses_ret|].
  simpl. rewrite <-app_assoc.
  eapply parses_bind; [apply Hp; by left|].
  eapply parses_bind; [apply IH; intros; apply Hp; by right|]. apply parses_ret.
Qed.

(** The same with the count as the decoders hold it, an integer. *)
Lemma parses_counted {A} (p : reader E A) (enc : A -> bytes) xs r :
  (forall x r, x ∈ xs -> parses p (enc x ++ r) x r) ->
  parses (Cursor.take_many (Z.to_nat (blen xs)) p) (concat (enc <$> xs) ++ r) xs r.
Proof. unfold blen. rewrite Nat2Z.id. apply parses_many. Qed.

Lemma parses_many2 {A} (p : reader E A) xs es r :
  Forall2 (fun x e => forall r, parses p (e ++ r) x r) xs es ->
  parses (Cursor.take_many (length xs) p) (concat es ++ r) xs r.
Proof.
  induction 1 as [|x e xs es Hx _ IH]; [apply parses_ret|].
  simpl. rewrite <-app_assoc. eapply parses_bind; [apply Hx|].
  eapply parses_bind; [apply IH|]. apply parses_ret.
Qed.

Lemma parses_run {A} (p : reader E A) bs a r :
  parses p bs a r -> Cursor.run p bs = Ok a.
Proof.
  intros Hp. destruct (Hp _ (cursor_at_new bs)) as (c & Hc & _).
  unfold Cursor.run. by rewrite Hc.
Qed.

(** ** Inversion: what a successful read consumed *)

Lemma bind_inv {A B} (p : reader E A) (k : A -> reader E B) c b c' :
  (p ≫= k) c = Ok (b, c') -> exists a c1, p c = Ok (a, c1) /\ k a c1 = Ok (b, c').
Proof.
  unfold mbind, reader_bind. destruct (p c) as [[a c1]|e]; naive_solver.
Qed.

Lemma take_inv n c bs c' r :
  0 <= n -> cursor_at c r -> Cursor.take n c = Ok (bs, c') ->
  exists r', r = bs ++ r' /\ blen bs = n /\ cursor_at c' r'.
Proof.
  intros Hn Hc. pose proof (cursor_at_pos _ _ Hc) as Hl.
  destruct Hc as [Hle Hd]. unfold Cursor.take. case_match eqn:E1; [|done].
  bools. intros [= <- <-]. rewrite Hd in *. unfold blen in *.
  exists (skipn (Z.to_nat n) r). split_and!.
  - by rewrite take_drop.
  - rewrite length_firstn. lia.
  - split; simpl; [lia|]. by rewrite <-drop_drop, Hd.
Qed.

Lemma uint_inv n c z c' r :
  cursor_at c r -> (b ← Cursor.take (Z.of_nat n); mret (be_value b)) c = Ok (z, c') ->
  exists r', r = be_bytes n z ++ r' /\ 0 <= z < 256 ^ Z.of_nat n /\ cursor_at c' r'.
Proof.
  intros Hc (bs & c1 & E1 & E2)%bind_inv.
  apply (take_inv _ _ _ _ r) in E1 as (r' & -> & Hb & Hc1); [|lia|done].
  injection E2 as <- <-. assert (length bs = n) as <- by (unfold blen in Hb; lia).
  exists r'. rewrite be_bytes_be_value. split_and!; [done|apply be_value_range..|done].
Qed.

Lemma u8_inv c z c' r : cursor_at c r -> Cursor.take_u8 c = Ok (z, c') ->
  exists r', r = push_u8 z ++ r' /\ in_u8 z /\ cursor_at c' r'.
Proof.
  intros Hc (bs & c1 & E1 & E2)%bind_inv.
  apply (take_inv _ _ _ _ r) in E1 as (r' & -> & Hb & Hc1); [|lia|done].
  injection E2 as <- <-. destruct bs as [|b [|? ?]]; [done| |unfold blen in Hb; simpl in Hb; lia].
  exists r'. cbn [be_value length]. change (256 ^ Z.of_nat 0) with 1.
  rewrite Z.mul_1_r, Z.add_0_r. unfold push_u8. rewrite byte_of_Z_of_byte.
  pose proof (Z_of_byte_range b). split_and!; [done|ints..|done].
Qed.

Lemma u16_inv c z c' r : cursor_at c r -> Cursor.take_u16 c = Ok (z, c') ->
  exists r', r = be_bytes 2 z ++ r' /\ in_u16 z /\ cursor_at c' r'.
Proof.
  intros Hc (r' & -> & Hz & Hc')%(uint_inv 2 _ _ _ r); [|done].
  exists r'. change (256 ^ Z.of_nat 2) with 65536 in Hz. split_and!; [done|ints..|done].
Qed.

Lemma u32_inv c z c' r : cursor_at c r -> Cursor.take_u32 c = Ok (z, c') ->
  exists r', r = be_bytes 4 z ++ r' /\ in_u32 z /\ cursor_at c' r'.
Proof.
  intros Hc (r' & -> & Hz & Hc')%(uint_inv 4 _ _ _ r); [|done].
  exists r'. change (256 ^ Z.of_nat 4) with 4294967296 in Hz. split_and!; [done|ints..|done].
Qed.

Lemma u64_inv c z c' r : cursor_at c r -> Cursor.take_u64 c = Ok (z, c') ->
  exists r', r = be_bytes 8 z ++ r' /\ in_u64 z /\ cursor_at c' r'.
Proof.
  intros Hc (r' & -> & Hz & Hc')%(uint_inv 8 _ _ _ r); [|done].
  exists r'. change (256 ^ Z.of_nat 8) with 18446744073709551616 in Hz.
  split_and!; [done|ints..|done].
Qed.

Lemma i64_inv c z c' r : cursor_at c r -> Cursor.take_i64 c = Ok (z, c') ->
  exists r', r = be_bytes 8 z ++ r' /\ in_i64 z /\ cursor_at c' r'.
Proof.
  intros Hc (bs & c1 & E1 & E2)%bind_inv.
  apply (take_inv _ _ _ _ r) in E1 as (r' & -> & Hb & Hc1); [|lia|done].
  injection E2 as <- <-. exists r'.
  assert (length bs = 8%nat) as Hl by (unfold blen in Hb; lia).
  pose proof (be_value_range bs) as Hr. rewrite Hl in Hr.
  change (256 ^ Z.of_nat 8) with 18446744073709551616 in Hr.
  assert (be_bytes 8 (to_i64 (be_value bs)) = bs) as ->.
  { rewrite <-(be_bytes_be_value bs) at 2. rewrite Hl. unfold to_i64. case_match; [done|].
    rewrite <-(be_bytes_shift 8 (be_value bs) (-1)). f_equal. }
  split_and!; [done| |done]. unfold_ints. case_match eqn:Ec; bools; lia.
Qed.

Lemma bytes16_inv c bs c' r : cursor_at c r -> Cursor.take_bytes16 c = Ok (bs, c') ->
  exists r', r = write_bytes16 bs ++ r' /\ blen bs <= U16_MAX /\ cursor_at c' r'.
Proof.
  intros Hc (n & c1 & E1 & E2)%bind_inv.
  apply (u16_inv _ _ _ _ Hc) in E1 as (r1 & -> & Hn & Hc1).
  apply (take_inv _ _ _ _ r1) in E2 as (r2 & -> & Hb & Hc2); [|apply Hn|done].
  exists r2. unfold write_bytes16. rewrite Hb, app_assoc. split_and!; [done|apply Hn|done].
Qed.

Lemma bytes32_inv c bs c' r : cursor_at c r -> Cursor.take_bytes32 c = Ok (bs, c') ->
  exists r', r = write_bytes32 bs ++ r' /\ blen bs <= U32_MAX /\ cursor_at c' r'.
Proof.
  intros Hc (n & c1 & E1 & E2)%bind_inv.
  apply (u32_inv _ _ _ _ Hc) in E1 as (r1 & -> & Hn & Hc1).
  apply (take_inv _ _ _ _ r1) in E2 as (r2 & -> & Hb & Hc2); [|apply Hn|done].
  exists r2. unfold write_bytes32. rewrite Hb, app_assoc. split_and!; [done|apply Hn|done].
Qed.

Lemma remaining_inv c bs c' r : cursor_at c r ->
  Cursor.take_remaining (E:=E) c = Ok (bs, c') -> r = bs /\ cursor_at c' [].
Proof.
  intros Hc [= <- <-]. split; [by rewrite (proj2 Hc)|].
  split; simpl; [lia|apply skipn_all].
Qed.

Lemma is_finished_inv c b c' r : cursor_at c r ->
  Cursor.is_finished (E:=E) c = Ok (b, c') -> b = bool_decide (r = []) /\ c' = c.
Proof.
  intros Hc Hf. destruct (parses_is_finished r c Hc) as (c1 & E1 & _).
  rewrite Hf in E1. injection E1 as -> ->. split; [done|]. by injection Hf.
Qed.

(** A counted loop consumes the concatenation of its items' encodings. *)
Lemma many_inv {A} (p : reader E A) (enc : A -> bytes) (P : A -> Prop) n c xs c' r :
  (forall c x c' r, cursor_at c r -> p c = Ok (x, c') ->
     exists r', r = enc x ++ r' /\ P x /\ cursor_at c' r') ->
  cursor_at c r -> Cursor.take_many n p c = Ok (xs, c') ->
  exists r', r = concat (enc <$> xs) ++ r' /\ length xs = n /\ Forall P xs /\ cursor_at c' r'.
Proof.
  intros Hp. revert c xs r. induction n as [|n IH]; intros c xs r Hc; simpl.
  - intros [= <- <-]. exists r. split_and!; done || constructor.
  - intros (x & c1 & E1 & (xs1 & c2 & E2 & E3)%bind_inv)%bind_inv.
    injection E3 as <- <-. apply (Hp _ _ _ _ Hc) in E1 as (r1 & -> & Hx & Hc1).
    apply (IH _ _ _ Hc1) in E2 as (r2 & -> & Hl & Hf & Hc2).
    exists r2. simpl. rewrite app_assoc. split_and!; [done|by f_equal|by constructor|done].
Qed.

Lemma lift_inv {A} (x : result E A) c a c' :
  lift x c = Ok (a, c') -> x = Ok a /\ c' = c.
Proof. unfold lift. destruct x; naive_solver. Qed.

Lemma guard_inv b (e : E) c u c' : guard_ b e c = Ok (u, c') -> b = true /\ c' = c.
Proof. intros [H1 H2]%lift_inv. apply ensure_ok in H1. done. Qed.

Lemma run_inv {A} (p : reader E A) bs a :
  Cursor.run p bs = Ok a -> exists c', p (Cursor.new bs) = Ok (a, c').
Proof. unfold Cursor.run. destruct (p _) as [[? ?]|?]; naive_solver. Qed.

Lemma finish_inv c c' r u : cursor_at c r -> Cursor.finish c = Ok (u, c') -> r = [].
Proof.
  intros Hc. pose proof (cursor_at_pos _ _ Hc). unfold Cursor.finish.
  case_decide; [|done]. intros _. destruct r; [done|simpl in *; lia].
Qed.
End rules.

(** Invert every read of a successful decoding, threading the unread input. *)
Ltac read_inv :=
  repeat match goal with
  | H : mbind _ _ ?c = Ok _ |- _ =>
      let a := fresh "v" in let c1 := fresh "c" in let E1 := fresh "E" in
      apply bind_inv in H as (a & c1 & E1 & H)
  | H : mret _ _ = Ok _ |- _ => injection H as H; try subst
  | H : guard_ _ _ _ = Ok _ |- _ =>
      let E1 := fresh "G" in apply guard_inv in H as [E1 ->]
  | H : lift _ _ = Ok _ |- _ =>
      let E1 := fresh "G" in apply lift_inv in H as [E1 ->]
  | Hc : cursor_at ?c ?r, H : Cursor.finish ?c = Ok _ |- _ =>
      apply (finish_inv _ _ _ _ Hc) in H
  | Hc : cursor_at ?c ?r, H : Cursor.take_u8 ?c = Ok _ |- _ =>
      let r' := fresh "r" in let Hr := fresh "W" in let Hc' := fresh "Hc" in
      apply (u8_inv _ _ _ _ Hc) in H as (r' & -> & Hr & Hc')
  | Hc : cursor_at ?c ?r, H : Cursor.take_u16 ?c = Ok _ |- _ =>
      let r' := fresh "r" in let Hr := fresh "W" in let Hc' := fresh "Hc" in
      apply (u16_inv _ _ _ _ Hc) in H as (r' & -> & Hr & Hc')
  | Hc : cursor_at ?c ?r, H : Cursor.take_u32 ?c = Ok _ |- _ =>
      let r' := fresh "r" in let Hr := fresh "W" in let Hc' := fresh "Hc" in
      apply (u32_inv _ _ _ _ Hc) in H as (r' & -> & Hr & Hc')
  | Hc : cursor_at ?c ?r, H : Cursor.take_u64 ?c = Ok _ |- _ =>
      let r' := fresh "r" in let Hr := fresh "W" in let Hc' := fresh "Hc" in
      apply (u64_inv _ _ _ _ Hc) in H as (r' & -> & Hr & Hc')
  | Hc : cursor_at ?c ?r, H : Cursor.take_i64 ?c = Ok _ |- _ =>
      let r' := fresh "r" in let Hr := fresh "W" in let Hc' := fresh "Hc" in
      apply (i64_inv _ _ _ _ Hc) in H as (r' & -> & Hr & Hc')
  | Hc : cursor_at ?c ?r, H : Cursor.take_bytes16 ?c = Ok _ |- _ =>
      let r' := fresh "r" in let Hr := fresh "W" in let Hc' := fresh "Hc" in
      apply (bytes16_inv _ _ _ _ Hc) in H as (r' & -> & Hr & Hc')
  | Hc : cursor_at ?c ?r, H : Cursor.take_bytes32 ?c = Ok _ |- _ =>
      let r' := fresh "r" in let Hr := fresh "W" in let Hc' := fresh "Hc" in
      apply (bytes32_inv _ _ _ _ Hc) in H as (r' & -> & Hr & Hc')
  | Hc : cursor_at ?c ?r, H : Cursor.take ?n ?c = Ok _ |- _ =>
      let r' := fresh "r" in let Hr := fresh "W" in let Hc' := fresh "Hc" in
      apply (take_inv n _ _ _ r) in H as (r' & -> & Hr & Hc');
      [ | first [assumption | unfold_ints; lia | easy] | exact Hc ]
  | Hc : cursor_at ?c ?r, H : Cursor.take_remaining ?c = Ok _ |- _ =>
      let Hr := fresh "W" in let Hc' := fresh "Hc" in
      apply (remaining_inv _ _ _ _ Hc) in H as [Hr Hc']
  | Hc : cursor_at ?c ?r, H : Cursor.is_finished ?c = Ok _ |- _ =>
      apply (is_finished_inv _ _ _ _ Hc) in H as [-> ->]
  end.

Lemma write_bytes16_eq bs : write_bytes16 bs = be_bytes 2 (blen bs) ++ bs.
Proof. done. Qed.

Lemma write_bytes32_eq bs : write_bytes32 bs = be_bytes 4 (blen bs) ++ bs.
Proof. done. Qed.

Lemma push_u8_byte b : push_u8 (Z_of_byte b) = [b].
Proof. unfold push_u8. by rewrite byte_of_Z_of_byte. Qed.

Lemma push_u8_eq z : push_u8 z = [byte_of_Z z].
Proof. done. Qed.

Lemma length_push_u8 z : length (push_u8 z) = 1%nat.
Proof. done. Qed.

Lemma length_write_bytes16 bs : length (write_bytes16 bs) = (2 + length bs)%nat.
Proof. unfold write_bytes16. by rewrite length_app, length_be_bytes. Qed.

Lemma length_write_bytes32 bs : length (write_bytes32 bs) = (4 + length bs)%nat.
Proof. unfold write_bytes32. by rewrite length_app, length_be_bytes. Qed.

#[global] Opaque be_bytes push_u8 write_bytes16 write_bytes32.

(** One step of a decoder proof: the reader's first action is matched with the
    head of the encoding (after re-association of the appends). *)
Ltac parse_step :=
  rewrite <-?app_assoc;
  eapply parses_bind;
  [ first
    [ apply parses_u8 | apply parses_u16 | apply parses_u32 | apply parses_u64
    | apply parses_i64 | apply parses_bytes16 | apply parses_bytes32
    | apply parses_guard | apply parses_lift | apply parses_finish
    | apply parses_take | apply parses_remaining ] | ].
