(* ===== verification/Framing.v ===== *)
(** BLE link-layer fragmentation ([core/src/framing.rs], [core/src/limits.rs]).

    [fragment_ble_frame] cuts a frame into fragments with an [index16|total16]
    header; [accept] is one step of the ordered, one-frame-at-a-time
    reassembler.  Shown here: every fragmented frame is reassembled exactly,
    whatever the reassembler held before; every frame the reassembler emits is
    the concatenation of one contiguous run of fragments it was fed; the
    fragments fit the link; and every legal frame can be fragmented on any
    link whose payload is at least 13 bytes. *)
From stdpp Require Import base numbers list.
From S2P Require Import Prelude Wire.

(** * Limits ([limits.rs]) *)
Definition MAX_ENVELOPE_SEALED_BYTES : Z := 512 * 1024.
Definition ENVELOPE_FRAME_OVERHEAD : Z := 1 + 16 + 1 + 8 + 8.
Definition MAX_P2P_FRAME_BYTES : Z := ENVELOPE_FRAME_OVERHEAD + MAX_ENVELOPE_SEALED_BYTES.

Definition FRAGMENT_HEADER_SIZE : Z := 4.
Definition ATT_HEADER_OVERHEAD : Z := 3.
Definition DEFAULT_ATT_MTU : Z := 23.
Definition MAX_ATT_VALUE_LEN : Z := 512.
Definition MAX_FRAGMENTS : Z := U16_MAX.

(** [usize::div_ceil] *)
Definition div_ceil (a b : Z) : Z := (a + b - 1) / b.

(** * Fragmentation *)

Definition chunk_size_for (mtu_payload_size : Z) : Z :=
  Z.max (Z.max 0 (Z.min mtu_payload_size MAX_ATT_VALUE_LEN - FRAGMENT_HEADER_SIZE)) 1.

(** [frame[start..end]] *)
Definition slice (frame : bytes) (s e : Z) : bytes :=
  firstn (Z.to_nat (e - s)) (skipn (Z.to_nat s) frame).

Definition fragment_at (frame : bytes) (chunk_size total index : Z) : bytes :=
  let start := index * chunk_size in
  let end_ := Z.min (start + chunk_size) (blen frame) in
  be_bytes 2 index ++ be_bytes 2 total ++ slice frame start end_.

Definition fragment_ble_frame (frame : bytes) (mtu_payload_size : Z) : option (list bytes) :=
  if MAX_P2P_FRAME_BYTES <? blen frame then None else
  let chunk_size := chunk_size_for mtu_payload_size in
  let total := Z.max (div_ceil (blen frame) chunk_size) 1 in
  if MAX_FRAGMENTS <? total then None else
  Some ((fun i => fragment_at frame chunk_size total (Z.of_nat i)) <$> seq 0 (Z.to_nat total)).

(** * Reassembly *)

Record ReassemblyState : Type := mk_reassembly {
  r_buffer : option bytes;
  r_expected_total : Z;
  r_next_index : Z;
}.

Definition reassembly_default : ReassemblyState := mk_reassembly None 0 0.

Definition frag_index (f : bytes) : Z := be_value (firstn 2 f).
Definition frag_total (f : bytes) : Z := be_value (firstn 2 (skipn 2 f)).
Definition frag_payload (f : bytes) : bytes := skipn 4 f.

(** [BleFrameReassembler::accept] *)
Definition accept (state : ReassemblyState) (fragment : bytes)
  : option bytes * ReassemblyState :=
  if (blen fragment <? FRAGMENT_HEADER_SIZE) || (MAX_ATT_VALUE_LEN <? blen fragment)
  then (None, reassembly_default) else
  let index := frag_index fragment in
  let total := frag_total fragment in
  if (total =? 0) || (total <=? index) then (None, reassembly_default) else
  let state := if index =? 0 then mk_reassembly (Some []) total 0 else state in
  match r_buffer state with
  | None => (None, reassembly_default)
  | Some buffer =>
      if negb (index =? r_next_index state) || negb (total =? r_expected_total state)
      then (None, reassembly_default) else
      let payload := frag_payload fragment in
      if MAX_P2P_FRAME_BYTES <? blen buffer + blen payload
      then (None, reassembly_default) else
      let buffer := buffer ++ payload in
      let next_index := r_next_index state + 1 in
      if next_index <? r_expected_total state
      then (None, mk_reassembly (Some buffer) (r_expected_total state) next_index)
      else (Some buffer, mk_reassembly None (r_expected_total state) next_index)
  end.

(** Feeding a sequence of fragments, collecting what each step returned. *)
Fixpoint feed (state : ReassemblyState) (fs : list bytes)
  : list (option bytes) * ReassemblyState :=
  match fs with
  | [] => ([], state)
  | f :: fs => let '(o, state) := accept state f in
               let '(os, state) := feed state fs in (o :: os, state)
  end.

(** * Fragments *)

Lemma chunk_size_bounds mtu : 1 <= chunk_size_for mtu <= MAX_ATT_VALUE_LEN - FRAGMENT_HEADER_SIZE.
Proof. unfold chunk_size_for, MAX_ATT_VALUE_LEN, FRAGMENT_HEADER_SIZE. lia. Qed.

Lemma div_ceil_spec a b : 0 <= a -> 0 < b ->
  a <= div_ceil a b * b /\ (div_ceil a b - 1) * b < a + (if a =? 0 then 1 else 0).
Proof.
  intros Ha Hb. unfold div_ceil.
  pose proof (Z.div_mod (a + b - 1) b ltac:(lia)).
  pose proof (Z.mod_pos_bound (a + b - 1) b Hb).
  destruct (Z.eqb_spec a 0); nia.
Qed.

Section fragment_fields.
Context (frame : bytes) (c t i : Z).
Hypotheses (Hi : 0 <= i <= U16_MAX) (Ht : 0 <= t <= U16_MAX).

Lemma frag_index_at : frag_index (fragment_at frame c t i) = i.
Proof.
  unfold frag_index, fragment_at. cbn zeta.
  rewrite take_app_le, take_ge by (rewrite length_be_bytes; lia).
  apply be_value_be_bytes_small. change (256 ^ Z.of_nat 2) with 65536. ints.
Qed.

Lemma frag_total_at : frag_total (fragment_at frame c t i) = t.
Proof.
  unfold frag_total, fragment_at. cbn zeta.
  rewrite drop_app_ge, length_be_bytes, Nat.sub_diag, drop_0
    by (rewrite length_be_bytes; lia).
  rewrite take_app_le, take_ge by (rewrite length_be_bytes; lia).
  apply be_value_be_bytes_small. change (256 ^ Z.of_nat 2) with 65536. ints.
Qed.

Lemma frag_payload_at : frag_payload (fragment_at frame c t i) =
  slice frame (i * c) (Z.min (i * c + c) (blen frame)).
Proof.
  unfold frag_payload, fragment_at. cbn zeta. rewrite app_assoc.
  rewrite drop_app_ge by (rewrite length_app, !length_be_bytes; lia).
  rewrite length_app, !length_be_bytes. done.
Qed.
End fragment_fields.

Lemma slice_length frame s e :
  0 <= s -> s <= e -> e <= blen frame -> blen (slice frame s e) = e - s.
Proof.
  intros. unfold slice, blen in *. rewrite length_firstn, length_skipn. lia.
Qed.

(** The slices of a frame at a stride, up to [n] of them, are its prefix. *)
Lemma concat_slices (frame : bytes) c n :
  0 < c ->
  concat ((fun i => slice frame (Z.of_nat i * c)
                      (Z.min (Z.of_nat i * c + c) (blen frame))) <$> seq 0 n)
  = firstn (n * Z.to_nat c) frame.
Proof.
  intros Hc. induction n as [|n IH]; [done|].
  rewrite seq_S, fmap_app, concat_app, IH. simpl. rewrite app_nil_r.
  unfold slice, blen.
  replace (Z.to_nat (Z.of_nat n * c)) with (n * Z.to_nat c)%nat by nia.
  rewrite (Nat.add_comm (Z.to_nat c)), <-(take_take_drop frame (n * Z.to_nat c)).
  f_equal. destruct (decide (length frame <= n * Z.to_nat c + Z.to_nat c)%nat).
  - rewrite !take_ge; [done|rewrite length_drop; nia..].
  - f_equal. nia.
Qed.

(** * Reassembling what was fragmented *)

Section run.
Context (frame : bytes) (c t : Z).
Hypotheses (Hc : 1 <= c <= 508) (Hlen : blen frame <= MAX_P2P_FRAME_BYTES)
  (Ht : 1 <= t <= U16_MAX) (Hcover : blen frame <= t * c)
  (Hlast : (t - 1) * c <= blen frame).

Lemma fragment_at_length i : 0 <= i < t ->
  blen (fragment_at frame c t i) = 4 + Z.min c (blen frame - i * c).
Proof.
  intros Hi. unfold fragment_at. cbn zeta. rewrite !blen_app, !blen_be_bytes.
  rewrite slice_length by nia. lia.
Qed.

(** One step of the in-order run: [k] fragments consumed, fragment [k] next. *)
Lemma accept_in_order st k :
  (0 <= k)%Z -> k < t ->
  (k = 0 \/ st = mk_reassembly (Some (firstn (Z.to_nat (k * c)) frame)) t k) ->
  accept st (fragment_at frame c t k) =
  if k + 1 <? t
  then (None, mk_reassembly (Some (firstn (Z.to_nat ((k + 1) * c)) frame)) t (k + 1))
  else (Some frame, mk_reassembly None t (k + 1)).
Proof.
  intros Hk Hkt Hst. unfold accept.
  pose proof (fragment_at_length k ltac:(lia)) as Hfl.
  assert (0 <= blen frame - k * c) by nia.
  rewrite (proj2 (Z.ltb_ge (blen (fragment_at _ _ _ _)) _))
    by (unfold FRAGMENT_HEADER_SIZE; lia).
  rewrite (proj2 (Z.ltb_ge MAX_ATT_VALUE_LEN _))
    by (unfold MAX_ATT_VALUE_LEN; lia). simpl.
  rewrite frag_index_at, frag_total_at by ints.
  rewrite (proj2 (Z.eqb_neq t 0)), (proj2 (Z.leb_gt t k)) by lia. simpl.
  replace (if k =? 0 then mk_reassembly (Some []) t 0 else st)
    with (mk_reassembly (Some (firstn (Z.to_nat (k * c)) frame)) t k).
  2:{ destruct Hst as [ -> | -> ]; [done|]. destruct (Z.eqb_spec k 0) as [ -> | ]; [|done].
      done. }
  cbn [r_buffer r_expected_total r_next_index].
  rewrite !Z.eqb_refl. simpl. rewrite frag_payload_at.
  assert (firstn (Z.to_nat (k * c)) frame
    ++ slice frame (k * c) (Z.min (k * c + c) (blen frame))
    = firstn (Z.to_nat ((k + 1) * c)) frame) as Happ.
  { pose proof (concat_slices frame c (S (Z.to_nat k)) ltac:(lia)) as Hs.
    rewrite seq_S, fmap_app, concat_app, concat_slices in Hs by lia. simpl in Hs.
    rewrite app_nil_r, Z2Nat.id in Hs by lia.
    replace (Z.to_nat (k * c)) with (Z.to_nat k * Z.to_nat c)%nat by nia.
    rewrite Hs. f_equal. nia. }
  rewrite Happ, <-blen_app, Happ.
  rewrite (proj2 (Z.ltb_ge MAX_P2P_FRAME_BYTES _)).
  2:{ unfold blen in *. rewrite length_firstn. lia. }
  destruct (Z.ltb_spec (k + 1) t); [done|].
  rewrite take_ge; [done|]. unfold blen in *. nia.
Qed.

Lemma feed_in_order n st k :
  (0 <= k)%Z -> k + Z.of_nat n = t -> (0 < n)%nat ->
  (k = 0 \/ st = mk_reassembly (Some (firstn (Z.to_nat (k * c)) frame)) t k) ->
  exists st', r_buffer st' = None /\
    feed st ((fun i => fragment_at frame c t (Z.of_nat i)) <$> seq (Z.to_nat k) n)
    = (replicate (n - 1) None ++ [Some frame], st').
Proof.
  revert st k. induction n as [|n IH]; intros st k Hk Hn Hpos Hst; [lia|].
  cbn [seq]. rewrite fmap_cons. cbn [feed].
  rewrite (Z2Nat.id k) by lia. rewrite accept_in_order by (done || lia).
  destruct n as [|n].
  - rewrite (proj2 (Z.ltb_ge _ _)) by lia. simpl. eexists; split; [|done]. done.
  - rewrite (proj2 (Z.ltb_lt _ _)) by lia.
    destruct (IH (mk_reassembly (Some (firstn (Z.to_nat ((k + 1) * c)) frame)) t (k + 1))
                 (k + 1)) as (st' & Hb & Hf); [lia|lia|lia|by right|].
    replace (S (Z.to_nat k)) with (Z.to_nat (k + 1)) by lia.
    rewrite Hf. exists st'. split; [done|]. simpl. by rewrite Nat.sub_0_r.
Qed.
End run.

Lemma fragment_ble_frame_inv frame mtu fs :
  fragment_ble_frame frame mtu = Some fs ->
  exists c t, 1 <= c <= 508 /\ 1 <= t <= U16_MAX /\ blen frame <= MAX_P2P_FRAME_BYTES /\
    blen frame <= t * c /\ (t - 1) * c <= blen frame /\
    c = chunk_size_for mtu /\
    fs = (fun i => fragment_at frame c t (Z.of_nat i)) <$> seq 0 (Z.to_nat t).
Proof.
  unfold fragment_ble_frame. case_match eqn:E1; [done|]. cbn zeta.
  case_match eqn:E2; [done|]. intros [= <-]. bools.
  pose proof (chunk_size_bounds mtu) as Hc.
  unfold MAX_ATT_VALUE_LEN, FRAGMENT_HEADER_SIZE in Hc.
  pose proof (blen_nonneg frame).
  destruct (div_ceil_spec (blen frame) (chunk_size_for mtu)) as [Hd1 Hd2]; [lia..|].
  set (d := div_ceil (blen frame) (chunk_size_for mtu)) in *.
  assert (blen frame <= Z.max d 1 * chunk_size_for mtu /\
    (Z.max d 1 - 1) * chunk_size_for mtu <= blen frame) as [? ?].
  { destruct (Z.max_spec d 1) as [[? ->]|[? ->]]; [nia|].
    destruct (Z.eqb_spec (blen frame) 0); nia. }
  unfold MAX_FRAGMENTS in *.
  exists (chunk_size_for mtu), (Z.max d 1). split_and!; try done; lia.
Qed.

(** * Correctness of the pair *)

(** A frame cut by [fragment_ble_frame] and fed in order to the
    reassembler, whatever it held before, comes out unchanged at the last
    fragment and at no earlier one, and the reassembler is left empty. *)
Theorem ble_fragment_roundtrip frame mtu fs st :
  fragment_ble_frame frame mtu = Some fs ->
  exists st', feed st fs = (replicate (length fs - 1) None ++ [Some frame], st')
    /\ r_buffer st' = None.
Proof.
  intros (c & t & Hc & Ht & Hl & Hcov & Hlast & _ & ->)%fragment_ble_frame_inv.
  destruct (feed_in_order frame c t Hc Hl Ht Hcov Hlast (Z.to_nat t) st 0)
    as (st' & Hb & Hf); [lia|lia|lia|by left|].
  exists st'. split; [|done].
  rewrite length_fmap, length_seq. exact Hf.
Qed.

Lemma ble_fragment_roundtrip_witness :
  exists fs st', fragment_ble_frame [x01; x02; x03; x04; x05] 6 = Some fs /\
    feed (mk_reassembly (Some [xff]) 9 4) fs
    = (replicate (length fs - 1) None ++ [Some [x01; x02; x03; x04; x05]], st')
    /\ r_buffer st' = None.
Proof.
  eexists.
  destruct (ble_fragment_roundtrip [x01; x02; x03; x04; x05] 6 _
    (mk_reassembly (Some [xff]) 9 4) eq_refl) as (st' & H1 & H2).
  exists st'. split; [reflexivity|]. split; [exact H1|exact H2].
Defined.

(** * What the reassembler may emit *)

(** A run of fragments [0 .. n-1] of one frame of [t] fragments. *)
Definition is_run (t : Z) (fs : list bytes) : Prop :=
  forall i f, fs !! i = Some f -> frag_index f = Z.of_nat i /\ frag_total f = t.

(** The reassembler's state against the history of what it was fed: a partial
    buffer is the payload of the last [next_index] fragments, an in-order run. *)
Definition tracks (hist : list bytes) (st : ReassemblyState) : Prop :=
  match r_buffer st with
  | None => True
  | Some b => exists pre run, hist = pre ++ run /\ is_run (r_expected_total st) run /\
      Z.of_nat (length run) = r_next_index st /\ b = concat (frag_payload <$> run) /\
      blen b <= MAX_P2P_FRAME_BYTES /\ 0 <= r_next_index st <= r_expected_total st /\
      r_expected_total st <= U16_MAX
  end.

Lemma is_run_nil t : is_run t [].
Proof. intros i f. by rewrite lookup_nil. Qed.

Lemma is_run_snoc t fs f :
  is_run t fs -> frag_index f = Z.of_nat (length fs) -> frag_total f = t ->
  is_run t (fs ++ [f]).
Proof.
  intros Hr Hi Ht i g [Hg|[Hge Hg]]%lookup_app_Some; [by apply Hr|].
  destruct (i - length fs)%nat eqn:E; simpl in Hg; [|done].
  injection Hg as <-. split; [|done]. rewrite Hi. f_equal. lia.
Qed.

Lemma frag_fields_range f :
  0 <= frag_index f <= U16_MAX /\ 0 <= frag_total f <= U16_MAX.
Proof.
  unfold frag_index, frag_total.
  assert (forall l : bytes, 0 <= be_value (firstn 2 l) <= U16_MAX) as Hb; [|by split; apply Hb].
  intros l. pose proof (be_value_range (firstn 2 l)) as [Hr1 Hr2].
  assert (256 ^ Z.of_nat (length (firstn 2 l)) <= 256 ^ 2) as Hp.
  { apply Z.pow_le_mono_r; [lia|]. rewrite length_firstn. lia. }
  change (256 ^ 2) with 65536 in Hp. ints.
Qed.

Lemma accept_tracks hist st f o st' :
  tracks hist st -> accept st f = (o, st') ->
  tracks (hist ++ [f]) st' /\
  forall frame, o = Some frame ->
    exists pre run, hist ++ [f] = pre ++ run /\ run <> [] /\
      is_run (Z.of_nat (length run)) run /\ frame = concat (frag_payload <$> run) /\
      blen frame <= MAX_P2P_FRAME_BYTES.
Proof.
  intros Htr. unfold accept. pose proof (frag_fields_range f) as [Hri Hrt].
  case_match eqn:E1; [by intros [= <- <-]|]. cbn zeta.
  case_match eqn:E2; [by intros [= <- <-]|]. bools.
  set (st0 := if frag_index f =? 0 then _ else st).
  assert (tracks hist st0) as Htr0.
  { subst st0. case_match; [|done]. exists hist, []. rewrite app_nil_r.
    pose proof is_run_nil. unfold MAX_P2P_FRAME_BYTES, ENVELOPE_FRAME_OVERHEAD,
      MAX_ENVELOPE_SEALED_BYTES. cbn. split_and!; done || lia. }
  clearbody st0. destruct (r_buffer st0) as [b|] eqn:Eb; [|by intros [= <- <-]].
  unfold tracks in Htr0. rewrite Eb in Htr0.
  destruct Htr0 as (pre & run & -> & Hrun & Hlen & -> & Hb & Hn & Hmax).
  case_match eqn:E3; [by intros [= <- <-]|]. bools.
  case_match eqn:E4; [by intros [= <- <-]|]. bools.
  rewrite <-blen_app in E4.
  assert (concat (frag_payload <$> run) ++ frag_payload f
    = concat (frag_payload <$> (run ++ [f]))) as Hcat.
  { rewrite fmap_app, concat_app. simpl. by rewrite app_nil_r. }
  assert (is_run (r_expected_total st0) (run ++ [f])) as Hrun'
    by (apply is_run_snoc; [done|lia|lia]).
  rewrite <-app_assoc. case_match eqn:E5; bools; intros [= <- <-].
  - split; [|done]. exists pre, (run ++ [f]). cbn [r_buffer r_expected_total r_next_index].
    rewrite length_app. simpl. split_and!; try done; lia.
  - split; [done|]. intros frame [= <-]. exists pre, (run ++ [f]).
    split_and!; try done.
    + by destruct run.
    + replace (Z.of_nat (length (run ++ [f]))) with (r_expected_total st0); [done|].
      rewrite length_app. simpl. lia.
Qed.

Lemma feed_app st fs gs :
  feed st (fs ++ gs) =
  let '(os, st1) := feed st fs in let '(ps, st2) := feed st1 gs in (os ++ ps, st2).
Proof.
  revert st. induction fs as [|f fs IH]; intros st; simpl.
  - by destruct (feed st gs).
  - destruct (accept st f) as [o st1]. rewrite IH.
    destruct (feed st1 fs) as [os st2]. by destruct (feed st2 gs).
Qed.

Lemma feed_tracks hist st fs os st' :
  tracks hist st -> feed st fs = (os, st') -> tracks (hist ++ fs) st'.
Proof.
  revert hist st os. induction fs as [|f fs IH]; intros hist st os Htr; simpl.
  - intros [= <- <-]. by rewrite app_nil_r.
  - destruct (accept st f) as [o st1] eqn:Ea. destruct (feed st1 fs) as [os1 st2] eqn:Ef.
    intros [= <- <-]. apply accept_tracks with (hist := hist) in Ea as [Ht _]; [|done].
    rewrite cons_middle, app_assoc. by eapply IH.
Qed.

(** A fresh reassembler fed any byte strings whatever (lost, reordered,
    duplicated or hostile fragments included) emits a frame only when the
    fragments it was fed last are exactly the complete in-order run of one
    frame: indices 0 to n-1 under the one total n.  The frame is their payload
    and is within the peer frame limit. *)
Theorem ble_reassembly_sound fs f os frame st :
  feed reassembly_default (fs ++ [f]) = (os ++ [Some frame], st) ->
  exists pre run, fs ++ [f] = pre ++ run /\ run <> [] /\
    is_run (Z.of_nat (length run)) run /\
    frame = concat (frag_payload <$> run) /\ blen frame <= MAX_P2P_FRAME_BYTES.
Proof.
  rewrite feed_app. destruct (feed reassembly_default fs) as [os1 st1] eqn:E1.
  simpl. destruct (accept st1 f) as [o st2] eqn:E2. intros [= Hos <-].
  apply app_inj_tail in Hos as [_ ->].
  apply (feed_tracks []) in E1; [|done].
  apply (accept_tracks _ _ _ _ _ E1) in E2 as [_ H]. by apply H.
Qed.

Lemma ble_reassembly_sound_witness :
  exists pre run, [[xff; x00; x00]] ++ [[x00; x00; x00; x01; x2a]] = pre ++ run
    /\ run <> [] /\ is_run (Z.of_nat (length run)) run
    /\ [x2a] = concat (frag_payload <$> run) /\ blen [x2a] <= MAX_P2P_FRAME_BYTES.
Proof.
  apply (ble_reassembly_sound [[xff; x00; x00]] [x00; x00; x00; x01; x2a] [None] [x2a]
           (mk_reassembly None 1 1)).
  reflexivity.
Defined.

Lemma fragments_fit frame mtu fs f :
  fragment_ble_frame frame mtu = Some fs -> f ∈ fs ->
  FRAGMENT_HEADER_SIZE <= blen f <= MAX_ATT_VALUE_LEN /\ (5 <= mtu -> blen f <= mtu).
Proof.
  intros (c & t & Hc & Ht & Hl & Hcov & Hlast & Hcs & ->)%fragment_ble_frame_inv.
  intros (i & -> & Hi%elem_of_seq)%list_elem_of_fmap.
  rewrite fragment_at_length by (done || lia).
  unfold chunk_size_for, FRAGMENT_HEADER_SIZE, MAX_ATT_VALUE_LEN in *. nia.
Qed.

Lemma fragmentation_total frame mtu : blen frame <= MAX_P2P_FRAME_BYTES -> 13 <= mtu ->
  is_Some (fragment_ble_frame frame mtu).
Proof.
  unfold fragment_ble_frame. intros Hl Hm. rewrite (proj2 (Z.ltb_ge _ _)) by lia. cbn zeta.
  pose proof (blen_nonneg frame).
  assert (9 <= chunk_size_for mtu) as Hc
    by (unfold chunk_size_for, MAX_ATT_VALUE_LEN, FRAGMENT_HEADER_SIZE; lia).
  destruct (div_ceil_spec (blen frame) (chunk_size_for mtu)) as [_ Hd]; [lia..|].
  rewrite (proj2 (Z.ltb_ge _ _)); [by eexists|].
  unfold MAX_FRAGMENTS, U16_MAX, MAX_P2P_FRAME_BYTES, ENVELOPE_FRAME_OVERHEAD,
    MAX_ENVELOPE_SEALED_BYTES in *.
  destruct (Z.eqb_spec (blen frame) 0); nia.
Qed.

(** Every frame within the peer frame limit can be fragmented on any link whose
    payload is at least 13 bytes, so in particular at the default ATT MTU (at 12
    bytes a frame of the maximal size cannot), and each of its fragments fits one
    ATT value and the link's payload. *)
Theorem ble_fragmentation_fits frame mtu :
  (blen frame <= MAX_P2P_FRAME_BYTES -> 13 <= mtu ->
   exists fs, fragment_ble_frame frame mtu = Some fs /\
     Forall (fun f => FRAGMENT_HEADER_SIZE <= blen f <= Z.min mtu MAX_ATT_VALUE_LEN) fs) /\
  (blen frame = MAX_P2P_FRAME_BYTES -> fragment_ble_frame frame 12 = None).
Proof.
  split; [|intros Hl; unfold fragment_ble_frame; by rewrite Hl].
  intros Hl Hm. destruct (fragmentation_total frame mtu Hl Hm) as [fs Hfs]. exists fs. split; [done|].
  apply Forall_forall. intros f Hf. destruct (fragments_fit frame mtu fs f Hfs Hf). lia.
Qed.

Lemma ble_fragmentation_fits_witness :
  exists fs, fragment_ble_frame [x01] (DEFAULT_ATT_MTU - ATT_HEADER_OVERHEAD) = Some fs /\
    Forall (fun f => FRAGMENT_HEADER_SIZE <= blen f <= Z.min 20 MAX_ATT_VALUE_LEN) fs.
Proof.
  apply (proj1 (ble_fragmentation_fits [x01] (DEFAULT_ATT_MTU - ATT_HEADER_OVERHEAD)));
    unfold DEFAULT_ATT_MTU, ATT_HEADER_OVERHEAD; [vm_compute; discriminate|lia].
Defined.
