(* ===== verification/Gossip.v ===== *)
(** Flood deduplication ([core/src/gossip.rs]): the bounded seen-id set.

    The state is the source's [Inner]: a hash set for membership, a queue of
    insertion order for eviction, and the capacity.  Every public operation
    runs under one mutex, so an execution is a sequence of operations whatever
    threads issued them; [run] is that sequence.  The promise to callers is
    the abstract [Spec]: a first-in-first-out window of the last [capacity]
    distinct ids. *)
From stdpp Require Import base numbers list gmap.
From S2P Require Import Prelude.

Definition DEFAULT_CAPACITY : nat := 50000.

Record Inner : Type := mk_inner {
  seen : gset bytes;
  order : list bytes;
  capacity : nat;
}.

(** [Inner::new] *)
Definition inner_new (cap : nat) : Inner := mk_inner ∅ [] (Nat.max cap 1).

(** The eviction loop of [Inner::insert]: [while order.len() > capacity]. *)
Fixpoint evict (cap : nat) (s : gset bytes) (q : list bytes) : gset bytes * list bytes :=
  match q with
  | [] => (s, [])
  | evicted :: q' =>
      if decide (cap < length q)%nat then evict cap (s ∖ {[evicted]}) q' else (s, q)
  end.

(** [Inner::insert] *)
Definition inner_insert (st : Inner) (msg_id : bytes) : Inner :=
  let '(s, q) := evict (capacity st) ({[msg_id]} ∪ seen st) (order st ++ [msg_id]) in
  mk_inner s q (capacity st).

(** [SeenIds] operations *)
Definition check_and_record (st : Inner) (msg_id : bytes) : bool * Inner :=
  if decide (msg_id ∈ seen st) then (false, st) else (true, inner_insert st msg_id).

Definition contains (st : Inner) (msg_id : bytes) : bool :=
  bool_decide (msg_id ∈ seen st).

Definition record (st : Inner) (msg_id : bytes) : Inner :=
  if decide (msg_id ∈ seen st) then st else inner_insert st msg_id.

Definition len (st : Inner) : Z := blen (order st).
Definition is_empty (st : Inner) : bool := bool_decide (order st = []).

(** One locked call, and a sequence of them. *)
Inductive op : Type :=
| CheckAndRecord (msg_id : bytes)
| Contains (msg_id : bytes)
| Record_ (msg_id : bytes)
| Len.

Definition step (st : Inner) (o : op) : Inner :=
  match o with
  | CheckAndRecord id => snd (check_and_record st id)
  | Contains _ | Len => st
  | Record_ id => record st id
  end.

Definition run (st : Inner) (ops : list op) : Inner := foldl step st ops.

(** Does this call insert a new id? *)
Definition inserts (st : Inner) (o : op) : bool :=
  match o with
  | CheckAndRecord id | Record_ id => negb (contains st id)
  | Contains _ | Len => false
  end.

(** How many calls of a sequence insert a new id. *)
Fixpoint insertions (st : Inner) (ops : list op) : nat :=
  match ops with
  | [] => 0
  | o :: ops => ((if inserts st o then 1 else 0) + insertions (step st o) ops)%nat
  end.

(** * The specification: a window of the newest distinct ids *)
Module Spec.
Definition push (cap : nat) (w : list bytes) (id : bytes) : list bytes :=
  if decide (id ∈ w) then w
  else let w := w ++ [id] in skipn (length w - cap) w.

Definition step (cap : nat) (w : list bytes) (o : op) : list bytes :=
  match o with
  | CheckAndRecord id | Record_ id => push cap w id
  | Contains _ | Len => w
  end.
End Spec.

(** * The invariant *)

(** The hash set and the queue hold the same ids, the queue has no repeat, and
    the set is within its capacity. *)
Record inner_wf (st : Inner) : Prop := {
  wf_seen : seen st = list_to_set (order st);
  wf_nodup : NoDup (order st);
  wf_len : (length (order st) <= capacity st)%nat;
  wf_cap : (1 <= capacity st)%nat;
}.

Lemma inner_new_wf cap : inner_wf (inner_new cap).
Proof. split; simpl; [done|constructor|lia|lia]. Qed.

Lemma evict_spec cap q : NoDup q ->
  evict cap (list_to_set q) q
  = (list_to_set (skipn (length q - cap) q), skipn (length q - cap) q).
Proof.
  induction q as [|x q IH]; intros Hnd; [done|]. apply NoDup_cons in Hnd as [Hx Hq].
  cbn [evict length]. case_decide as Hd.
  - replace (S (length q) - cap)%nat with (S (length q - cap)) by lia. simpl.
    rewrite <-IH by done. f_equal. set_solver.
  - replace (S (length q) - cap)%nat with 0%nat by lia. done.
Qed.

Lemma inner_insert_order st id :
  inner_wf st -> id ∉ order st ->
  order (inner_insert st id) = Spec.push (capacity st) (order st) id /\
  seen (inner_insert st id) = list_to_set (order (inner_insert st id)) /\
  capacity (inner_insert st id) = capacity st.
Proof.
  intros [Hs Hnd Hl Hc] Hid. unfold inner_insert, Spec.push. rewrite decide_False by done.
  rewrite Hs. replace ({[id]} ∪ list_to_set (order st) : gset bytes)
    with (list_to_set (order st ++ [id]) : gset bytes) by set_solver.
  rewrite evict_spec; [done|]. apply NoDup_app. split_and!; [done|set_solver|apply NoDup_singleton].
Qed.

Lemma push_wf cap w id : NoDup w -> (length w <= cap)%nat -> (1 <= cap)%nat ->
  NoDup (Spec.push cap w id) /\ (length (Spec.push cap w id) <= cap)%nat.
Proof.
  intros Hnd Hl Hc. unfold Spec.push. case_decide as Hd; [done|]. cbn zeta. split.
  - apply (NoDup_app (firstn (length (w ++ [id]) - cap) (w ++ [id]))).
    rewrite take_drop. apply NoDup_app. split_and!; [done|set_solver|apply NoDup_singleton].
  - rewrite length_drop. lia.
Qed.

Lemma inner_insert_wf st id :
  inner_wf st -> id ∉ order st -> inner_wf (inner_insert st id).
Proof.
  intros Hwf Hid. destruct (inner_insert_order st id Hwf Hid) as (Ho & Hs & Hc).
  destruct (push_wf (capacity st) (order st) id) as [Hnd Hl]; [apply Hwf..|].
  split; [done| | |]; rewrite ?Hc, ?Ho; [done|done|apply Hwf].
Qed.

Lemma seen_order st id : inner_wf st -> id ∈ seen st <-> id ∈ order st.
Proof. intros [-> _ _ _]. by rewrite elem_of_list_to_set. Qed.

Lemma step_inserts st o : step st o =
  match o with
  | CheckAndRecord id | Record_ id =>
      if decide (id ∈ seen st) then st else inner_insert st id
  | Contains _ | Len => st
  end.
Proof. destruct o; simpl; unfold check_and_record, record; try case_decide; done. Qed.

Lemma step_refines st o : inner_wf st ->
  inner_wf (step st o) /\ order (step st o) = Spec.step (capacity st) (order st) o /\
  capacity (step st o) = capacity st.
Proof.
  intros Hwf. rewrite step_inserts. destruct o as [id|id|id|]; simpl; [|done| |done].
  all: case_decide as Hd; rewrite (seen_order _ _ Hwf) in Hd.
  all: unfold Spec.push; rewrite ?(decide_True _ _ Hd) by done; try done.
  all: pose proof (inner_insert_order _ _ Hwf Hd) as (Ho & _ & Hc).
  all: split_and!; [by apply inner_insert_wf|done|done].
Qed.

(** From any state satisfying the invariant (a fresh set in particular),
    every sequence of calls keeps the hash set and the eviction queue equal,
    duplicate-free and within capacity, and behaves as the first-in-first-out
    window of the specification. *)
Theorem seen_ids_refine_window st ops : inner_wf st ->
  inner_wf (run st ops) /\
  order (run st ops) = foldl (Spec.step (capacity st)) (order st) ops /\
  (length (order (run st ops)) <= capacity st)%nat.
Proof.
  intros Hwf. enough (inner_wf (run st ops) /\
    order (run st ops) = foldl (Spec.step (capacity st)) (order st) ops /\
    capacity (run st ops) = capacity st) as (H1 & H2 & H3).
  { split_and!; [done|done|]. rewrite <-H3. apply H1. }
  revert st Hwf. induction ops as [|o ops IH]; intros st Hwf; [done|].
  destruct (step_refines st o Hwf) as (Hw & Ho & Hc).
  destruct (IH _ Hw) as (H1 & H2 & H3). cbn [run foldl] in *.
  rewrite <-Ho, <-Hc. done.
Qed.

Lemma seen_ids_refine_window_witness :
  inner_wf (inner_new 2) /\
  order (run (inner_new 2) [CheckAndRecord [x01]; Record_ [x02]; CheckAndRecord [x03]])
  = [[x02]; [x03]].
Proof.
  split; [apply inner_new_wf|].
  rewrite (proj1 (proj2 (seen_ids_refine_window (inner_new 2)
    [CheckAndRecord [x01]; Record_ [x02]; CheckAndRecord [x03]] (inner_new_wf 2)))).
  vm_compute. reflexivity.
Defined.

(** * The deduplication window *)

(** [id] is retained with [n] younger ids behind it. *)
Definition retained (id : bytes) (n : nat) (w : list bytes) : Prop :=
  exists pre post, w = pre ++ id :: post /\ length post = n.

Lemma push_retained cap id n w id' :
  retained id n w -> (length w <= cap)%nat -> id' ∉ w -> (S n < cap)%nat ->
  retained id (S n) (Spec.push cap w id').
Proof.
  intros (pre & post & -> & Hp) Hl Hid Hn. unfold Spec.push.
  rewrite decide_False by done. cbn zeta.
  rewrite length_app in *. cbn [length] in *.
  exists (skipn (length (pre ++ id :: post) + 1 - cap) pre), (post ++ [id']).
  rewrite length_app in *. cbn [length] in *. split; [|rewrite length_app; simpl; lia].
  rewrite <-app_assoc. rewrite drop_app_le by lia. done.
Qed.

Lemma run_retained id n st ops :
  inner_wf st -> retained id n (order st) -> (n + insertions st ops < capacity st)%nat ->
  id ∈ seen (run st ops).
Proof.
  revert n st. induction ops as [|o ops IH]; intros n st Hwf Hr Hn.
  { destruct Hr as (pre & post & E & _). apply seen_order; [done|]. simpl. rewrite E. set_solver. }
  cbn [run foldl insertions] in *. destruct (step_refines st o Hwf) as (Hw & Ho & Hc).
  destruct (inserts st o) eqn:Ei.
  - apply (IH (S n)); [done| |rewrite Hc; lia]. rewrite Ho.
    destruct o as [id'|id'|id'|]; simpl in *; try done.
    all: bools; unfold contains in Ei; bools; rewrite (seen_order _ _ Hwf) in Ei.
    all: apply push_retained; [done|apply Hwf|done|lia].
  - apply (IH n); [done| |rewrite Hc; lia]. rewrite Ho.
    destruct o as [id'|id'|id'|]; simpl in *; try done.
    all: bools; unfold contains in Ei; bools; rewrite (seen_order _ _ Hwf) in Ei.
    all: unfold Spec.push; by rewrite decide_True.
Qed.

(** An id that [check_and_record] reported new is reported a duplicate on
    every later call, whatever calls come between, until at least as many
    other ids as the capacity (counting itself) have been newly inserted: the
    flood forwards each envelope at most once per window. *)
Theorem seen_ids_dedupe_window st id st1 ops :
  inner_wf st -> check_and_record st id = (true, st1) ->
  (insertions st1 ops < capacity st)%nat ->
  contains (run st1 ops) id = true /\
  check_and_record (run st1 ops) id = (false, run st1 ops).
Proof.
  intros Hwf Hc Hn. unfold check_and_record in Hc. case_decide as Hd; [done|].
  injection Hc as <-. rewrite (seen_order _ _ Hwf) in Hd.
  destruct (inner_insert_order st id Hwf Hd) as (Ho & _ & Hcap).
  assert (id ∈ seen (run (inner_insert st id) ops)) as Hin.
  { apply (run_retained id 0); [by apply inner_insert_wf| |rewrite Hcap; lia].
    rewrite Ho. unfold Spec.push. rewrite decide_False by done. cbn zeta.
    destruct Hwf as [_ _ Hl Hc1].
    exists (skipn (length (order st ++ [id]) - capacity st) (order st)), [].
    rewrite drop_app_le; [done|]. rewrite length_app. simpl. lia. }
  unfold contains, check_and_record. rewrite decide_True by done. by rewrite bool_decide_true.
Qed.

Lemma seen_ids_dedupe_window_witness :
  contains (run (inner_insert (inner_new 2) [x01]) [CheckAndRecord [x02]]) [x01] = true.
Proof.
  apply (seen_ids_dedupe_window (inner_new 2) [x01] (inner_insert (inner_new 2) [x01])
    [CheckAndRecord [x02]] (inner_new_wf 2)).
  - reflexivity.
  - vm_compute. lia.
Defined.

(** The non-mutating test agrees with the test-and-set: [contains] says
    no exactly when [check_and_record] would accept the id as new, and after
    [record] (whose repetition changes nothing) [contains] says yes, so a
    caller that checks first and records once the envelope is handled sees the
    decisions of the combined call. *)
Theorem seen_ids_check_then_record st id : inner_wf st ->
  fst (check_and_record st id) = negb (contains st id) /\
  snd (check_and_record st id) = record st id /\
  contains (record st id) id = true /\
  record (record st id) id = record st id.
Proof.
  intros Hwf.
  assert (id ∈ seen (record st id)) as Hin.
  { unfold record. case_decide as Hd; [done|].
    destruct (check_and_record st id) as [b st1] eqn:E.
    unfold check_and_record in E. rewrite decide_False in E by done. injection E as <- <-.
    rewrite (seen_order _ _ Hwf) in Hd.
    apply seen_order; [by apply inner_insert_wf|].
    destruct (inner_insert_order st id Hwf Hd) as (-> & _ & _).
    unfold Spec.push. rewrite decide_False by done. cbn zeta.
    destruct Hwf as [_ _ Hl Hc1]. rewrite drop_app_le; [set_solver|].
    rewrite length_app. simpl. lia. }
  split_and!.
  - unfold check_and_record, contains. case_decide; case_bool_decide; done.
  - unfold check_and_record, record. by case_decide.
  - unfold contains. by rewrite bool_decide_true.
  - unfold record at 1. by rewrite decide_True.
Qed.

Lemma seen_ids_check_then_record_witness :
  inner_wf (inner_new 3) /\ contains (record (inner_new 3) [x07]) [x07] = true.
Proof.
  split; [apply inner_new_wf|].
  apply (seen_ids_check_then_record (inner_new 3) [x07] (inner_new_wf 3)).
Defined.
