(* ===== verification/StdModel.v ===== *)
(** The parts of the Rust standard library the wire codecs call: UTF-8
    validation ([String::from_utf8], [str::chars]), [char::is_whitespace],
    [str::trim], [str::parse::<u64>] and the [IpAddr] parser.  A Rust [String] is its UTF-8 bytes. *)
From stdpp Require Import base numbers list sets sorting.
From S2P Require Import Prelude.

(** * UTF-8 *)

Definition is_cont (b : byte) : bool := (128 <=? Z_of_byte b) && (Z_of_byte b <=? 191).
Definition cont (b : byte) : Z := Z_of_byte b - 128.

(** The scalar values of a well-formed UTF-8 string, [None] when it is not
    (overlong forms, surrogates and values past U+10FFFF are not). *)
Fixpoint utf8_chars (s : bytes) : option (list Z) :=
  match s with
  | [] => Some []
  | b0 :: s1 =>
      let z0 := Z_of_byte b0 in
      if z0 <=? 127 then (fun cs => z0 :: cs) <$> utf8_chars s1 else
      match s1 with
      | [] => None
      | b1 :: s2 =>
          if negb (is_cont b1) then None else
          if (194 <=? z0) && (z0 <=? 223) then
            (fun cs => ((z0 - 192) * 64 + cont b1) :: cs) <$> utf8_chars s2 else
          match s2 with
          | [] => None
          | b2 :: s3 =>
              if negb (is_cont b2) then None else
              if (224 <=? z0) && (z0 <=? 239) then
                let z := (z0 - 224) * 4096 + cont b1 * 64 + cont b2 in
                if (2048 <=? z) && negb ((55296 <=? z) && (z <=? 57343))
                then (fun cs => z :: cs) <$> utf8_chars s3 else None else
              match s3 with
              | [] => None
              | b3 :: s4 =>
                  if negb (is_cont b3) then None else
                  if (240 <=? z0) && (z0 <=? 244) then
                    let z := (z0 - 240) * 262144 + cont b1 * 4096 + cont b2 * 64 + cont b3 in
                    if (65536 <=? z) && (z <=? 1114111)
                    then (fun cs => z :: cs) <$> utf8_chars s4 else None
                  else None
              end
          end
      end
  end.

(** [std::str::from_utf8(s).is_ok()] *)
Definition utf8_valid (s : bytes) : bool := bool_decide (is_Some (utf8_chars s)).

(** [char::is_whitespace]: the Unicode White_Space property. *)
Definition is_whitespace (c : Z) : bool :=
  ((9 <=? c) && (c <=? 13)) || (c =? 32) || (c =? 133) || (c =? 160) || (c =? 5760)
  || ((8192 <=? c) && (c <=? 8202)) || (c =? 8232) || (c =? 8233) || (c =? 8239)
  || (c =? 8287) || (c =? 12288).

Definition any_whitespace (s : bytes) : bool :=
  match utf8_chars s with
  | Some cs => existsb is_whitespace cs
  | None => false
  end.

(** [char::is_ascii_alphanumeric] *)
Definition is_ascii_alphanumeric (c : Z) : bool :=
  ((48 <=? c) && (c <=? 57)) || ((65 <=? c) && (c <=? 90)) || ((97 <=? c) && (c <=? 122)).

(** [char::encode_utf8]. *)
Definition encode_utf8 (c : Z) : bytes :=
  if c <=? 127 then [byte_of_Z c]
  else if c <=? 2047 then [byte_of_Z (192 + c / 64); byte_of_Z (128 + c mod 64)]
  else if c <=? 65535 then
    [byte_of_Z (224 + c / 4096); byte_of_Z (128 + c / 64 mod 64); byte_of_Z (128 + c mod 64)]
  else [byte_of_Z (240 + c / 262144); byte_of_Z (128 + c / 4096 mod 64);
        byte_of_Z (128 + c / 64 mod 64); byte_of_Z (128 + c mod 64)].

(** Drop the leading elements that satisfy [f], and the trailing ones. *)
Fixpoint drop_while {A} (f : A -> bool) (l : list A) : list A :=
  match l with
  | [] => []
  | x :: l' => if f x then drop_while f l' else l
  end.

Definition drop_while_end {A} (f : A -> bool) (l : list A) : list A :=
  reverse (drop_while f (reverse l)).

(** [str::trim]: the scalar values between the leading and the trailing white
    space, encoded again (bytes that are no [str] are left alone). *)
Definition trim (s : bytes) : bytes :=
  match utf8_chars s with
  | Some cs => concat (encode_utf8 <$> drop_while_end is_whitespace (drop_while is_whitespace cs))
  | None => s
  end.

(** [str::trim_end_matches(c)] for an ASCII [c]. *)
Definition trim_end_matches (c : byte) (s : bytes) : bytes :=
  drop_while_end (fun b => bool_decide (b = c)) s.

(** [str::parse::<u64>]: an optional [+], then decimal digits only, checked at
    every step. *)
Fixpoint parse_digits_u64 (acc : Z) (s : bytes) : option Z :=
  match s with
  | [] => Some acc
  | b :: s' =>
      let d := Z_of_byte b - 48 in
      if (0 <=? d) && (d <=? 9) && (acc * 10 + d <=? U64_MAX)
      then parse_digits_u64 (acc * 10 + d) s' else None
  end.

Definition parse_u64 (s : bytes) : option Z :=
  match s with
  | [] => None
  | b :: s' =>
      if decide (b = x2b) then match s' with [] => None | _ => parse_digits_u64 0 s' end
      else parse_digits_u64 0 s
  end.

(** [str::split_once(c)] for an ASCII [c]. *)
Fixpoint split_once (c : byte) (s : bytes) : option (bytes * bytes) :=
  match s with
  | [] => None
  | b :: s' => if decide (b = c) then Some ([], s')
               else (fun '(l, r) => (b :: l, r)) <$> split_once c s'
  end.

(** * IP address literals ([core::net::parser]) *)

Definition digit_value (radix : Z) (b : byte) : option Z :=
  let z := Z_of_byte b in
  let d := if (48 <=? z) && (z <=? 57) then z - 48
           else if (97 <=? z) && (z <=? 122) then z - 87
           else if (65 <=? z) && (z <=? 90) then z - 55 else 99 in
  if d <? radix then Some d else None.

(** The digit loop of [read_number]: value, digit count and rest; [None] when
    more than [max] digits are read. *)
Fixpoint read_digits (radix : Z) (max : nat) (acc : Z) (count : nat) (s : bytes)
  : option (Z * nat * bytes) :=
  match s with
  | [] => Some (acc, count, [])
  | b :: s' =>
      match digit_value radix b with
      | None => Some (acc, count, s)
      | Some d => if decide (S count <= max)%nat
                  then read_digits radix max (acc * radix + d) (S count) s' else None
      end
  end.

(** [read_number(radix, Some(max), allow_zero_prefix)] into a type of maximum
    [limit]. *)
Definition read_number (radix : Z) (max : nat) (allow_zero : bool) (limit : Z) (s : bytes)
  : option (Z * bytes) :=
  match read_digits radix max 0 0 s with
  | None => None
  | Some (v, count, rest) =>
      if decide (count = 0%nat) then None
      else if negb allow_zero && bool_decide (head s = Some x30) && (1 <? Z.of_nat count)
      then None
      else if v <=? limit then Some (v, rest) else None
  end.

Definition read_char (c : byte) (s : bytes) : option bytes :=
  match s with b :: s' => if decide (b = c) then Some s' else None | [] => None end.

(** [read_separator(sep, index, inner)] *)
Definition read_separator {A} (sep : byte) (index : nat) (inner : bytes -> option (A * bytes))
  (s : bytes) : option (A * bytes) :=
  match index with
  | O => inner s
  | S _ => s' ← read_char sep s; inner s'
  end.

Definition read_octet := read_number 10 3 false 255.

(** [read_ipv4_addr]: four dotted octets. *)
Definition read_ipv4_addr (s : bytes) : option ((Z * Z * Z * Z) * bytes) :=
  '(a, s) ← read_separator x2e 0 read_octet s;
  '(b, s) ← read_separator x2e 1 read_octet s;
  '(c, s) ← read_separator x2e 2 read_octet s;
  '(d, s) ← read_separator x2e 3 read_octet s;
  Some ((a, b, c, d), s).

(** [read_groups] over [limit] slots, from slot [i]: the groups read, whether
    an embedded IPv4 address ended them, and the rest. *)
Fixpoint read_groups (fuel limit i : nat) (acc : list Z) (s : bytes)
  : list Z * bool * bytes :=
  match fuel with
  | O => (acc, false, s)
  | S fuel =>
      match (if decide (i < limit - 1)%nat
             then read_separator x3a i read_ipv4_addr s else None) with
      | Some ((a, b, c, d), s') => (acc ++ [a * 256 + b; c * 256 + d], true, s')
      | None =>
          match read_separator x3a i (read_number 16 4 true U16_MAX) s with
          | Some (g, s') => read_groups fuel limit (S i) (acc ++ [g]) s'
          | None => (acc, false, s)
          end
      end
  end.

(** [read_ipv6_addr]: eight 16-bit segments, with one [::] run of zeros. *)
Definition read_ipv6_addr (s : bytes) : option (list Z * bytes) :=
  let '(head, head_ipv4, s1) := read_groups 8 8 0 [] s in
  if decide (length head = 8%nat) then Some (head, s1)
  else if head_ipv4 : bool then None
  else s2 ← read_char x3a s1; s3 ← read_char x3a s2;
       let limit := (8 - (length head + 1))%nat in
       let '(tail, _, s4) := read_groups limit limit 0 [] s3 in
       Some (head ++ replicate (8 - length head - length tail) 0 ++ tail, s4).

Inductive IpAddr : Type :=
| V4 (a b c d : Z)
| V6 (segments : list Z).

#[global] Instance IpAddr_eq_dec : EqDecision IpAddr.
Proof. solve_decision. Defined.

(** [literal.parse::<IpAddr>()]: the whole string, IPv4 tried first. *)
Definition parse_ip (s : bytes) : option IpAddr :=
  match read_ipv4_addr s with
  | Some ((a, b, c, d), rest) =>
      match rest with [] => Some (V4 a b c d) | _ => None end
  | None =>
      match read_ipv6_addr s with
      | Some (segs, []) => Some (V6 segs)
      | _ => None
      end
  end.

(** * Facts *)

Lemma utf8_chars_ascii s :
  Forall (fun b => Z_of_byte b <= 127) s -> utf8_chars s = Some (Z_of_byte <$> s).
Proof.
  induction 1 as [|b s Hb Hs IH]; [done|]. cbn [utf8_chars].
  rewrite (proj2 (Z.leb_le _ _)), IH by done. done.
Qed.

Lemma split_once_spec c s l r : split_once c s = Some (l, r) -> s = l ++ c :: r /\ c ∉ l.
Proof.
  revert l. induction s as [|b s IH]; intros l; [done|]. cbn [split_once].
  case_decide as Hb; [intros [= <- <-]; subst; split; [done|set_solver]|].
  destruct (split_once c s) as [[l' r']|]; [|done]. intros [= <- <-].
  destruct (IH l') as [-> Hn]; [done|]. split; [done|set_solver].
Qed.

(** ** Trimming *)

Lemma drop_while_suffix {A} (f : A -> bool) l : exists l', l = l' ++ drop_while f l /\ Forall (fun x => f x = true) l'.
Proof.
  induction l as [|x l (l' & Hl & Hf)]; [by exists []|]. cbn. destruct (f x) eqn:E.
  - exists (x :: l'). split; [cbn; by f_equal|by constructor].
  - by exists [].
Qed.

Lemma drop_while_head {A} (f : A -> bool) l x : head (drop_while f l) = Some x -> f x = false.
Proof. induction l as [|y l IH]; [done|]. cbn. destruct (f y) eqn:E; [done|]. by intros [= <-]. Qed.

Lemma drop_while_id {A} (f : A -> bool) l : Forall (fun x => f x = false) l -> drop_while f l = l.
Proof. intros H. destruct H as [|x l Hx]; [done|]. cbn. by rewrite Hx. Qed.

Lemma parse_digits_u64_range acc s v : 0 <= acc -> acc <= U64_MAX -> parse_digits_u64 acc s = Some v -> in_u64 v.
Proof.
  revert acc. induction s as [|b s IH]; intros acc H0 H1; cbn [parse_digits_u64].
  - intros [= <-]. ints.
  - case_match eqn:E; [|done]. bools. apply IH; lia.
Qed.

Lemma parse_u64_range s v : parse_u64 s = Some v -> in_u64 v.
Proof.
  unfold parse_u64. destruct s as [|b s]; [done|]. case_decide; [destruct s; [done|]|];
    apply parse_digits_u64_range; ints.
Qed.

(** ** Ranges of parsed addresses *)

Lemma digit_value_nonneg radix b d : digit_value radix b = Some d -> 0 <= d.
Proof.
  unfold digit_value. pose proof (Z_of_byte_range b). case_match; [|done].
  intros [= <-]. repeat case_match; bools; lia.
Qed.

Lemma read_digits_nonneg radix max s : 0 <= radix -> forall acc count v n rest,
  0 <= acc -> read_digits radix max acc count s = Some (v, n, rest) -> 0 <= v.
Proof.
  intros Hr. induction s as [|b s IH]; intros acc count v n rest Ha; cbn [read_digits].
  - by intros [= <- _ _].
  - destruct (digit_value radix b) as [d|] eqn:Hd; [|by intros [= <- _ _]].
    apply digit_value_nonneg in Hd. case_decide; [|done]. apply IH. nia.
Qed.

Lemma read_number_range radix max az limit s v rest : 0 <= radix ->
  read_number radix max az limit s = Some (v, rest) -> 0 <= v <= limit.
Proof.
  intros Hr. unfold read_number. destruct (read_digits radix max 0 0 s) as [[[w n] r]|] eqn:E; [|done].
  apply read_digits_nonneg in E; [|done|lia]. repeat case_match; try done. bools.
  by intros [= <- _].
Qed.

Lemma read_separator_some {A} sep i (inner : bytes -> option (A * bytes)) s x :
  read_separator sep i inner s = Some x -> exists s', inner s' = Some x.
Proof.
  destruct i; cbn; [eauto|]. destruct (read_char sep s) as [s'|]; cbn; [eauto|done].
Qed.

Lemma read_ipv4_range s a b c d rest : read_ipv4_addr s = Some ((a, b, c, d), rest) ->
  in_u8 a /\ in_u8 b /\ in_u8 c /\ in_u8 d.
Proof.
  unfold read_ipv4_addr, read_octet. intros H.
  repeat match type of H with
  | (_ ≫= _) = Some _ => let Hs := fresh "Hs" in apply bind_Some in H as ([? ?] & Hs & H);
      apply read_separator_some in Hs as [? Hs]; apply read_number_range in Hs; [|lia]; cbv beta iota in H
  end.
  injection H as <- <- <- <- _. done.
Qed.

Lemma read_groups_range fuel limit : forall i acc s l b rest,
  Forall in_u16 acc -> read_groups fuel limit i acc s = (l, b, rest) -> Forall in_u16 l.
Proof.
  induction fuel as [|fuel IH]; intros i acc s l b rest Ha; cbn [read_groups].
  { by intros [= <- _ _]. }
  destruct (if decide _ then _ else _) as [[[[[a b'] c] d] s']|] eqn:E4.
  - case_decide; [|done]. apply read_separator_some in E4 as [? E4].
    apply read_ipv4_range in E4 as (Ra & Rb & Rc & Rd).
    intros [= <- _ _]. apply Forall_app_2; [done|]. repeat constructor; ints.
  - clear E4. destruct (read_separator x3a i (read_number 16 4 true U16_MAX) s) as [[g s']|] eqn:Eg;
      [|by intros [= <- _ _]].
    apply read_separator_some in Eg as [? Eg]. apply read_number_range in Eg; [|lia].
    apply IH. apply Forall_app_2; [done|]. constructor; [exact Eg|constructor].
Qed.

Definition ip_typed (ip : IpAddr) : Prop :=
  match ip with
  | V4 a b c d => in_u8 a /\ in_u8 b /\ in_u8 c /\ in_u8 d
  | V6 segs => Forall in_u16 segs
  end.

Lemma parse_ip_typed s ip : parse_ip s = Some ip -> ip_typed ip.
Proof.
  unfold parse_ip. destruct (read_ipv4_addr s) as [[[[[a b] c] d] rest]|] eqn:E.
  - apply read_ipv4_range in E. destruct rest; [|done]. by intros [= <-].
  - destruct (read_ipv6_addr s) as [[segs [|]]|] eqn:E6; [|done..]. intros [= <-]. cbn.
    unfold read_ipv6_addr in E6. destruct (read_groups 8 8 0 [] s) as [[head h4] s1] eqn:Eg.
    apply read_groups_range in Eg; [|constructor]. case_decide; [by injection E6 as <- _|].
    destruct h4; [done|]. apply bind_Some in E6 as (s2 & _ & E6).
    apply bind_Some in E6 as (s3 & _ & E6).
    destruct (read_groups _ _ 0 [] s3) as [[tail t4] s4] eqn:Et.
    apply read_groups_range in Et; [|constructor]. injection E6 as <- _.
    repeat apply Forall_app_2; try done. apply Forall_replicate. ints.
Qed.

(** * The order of byte strings

    [Ord] on [Vec<u8>]: lexicographic, a prefix first. *)

Fixpoint bytes_le (a b : bytes) : Prop :=
  match a, b with
  | [], _ => True
  | _ :: _, [] => False
  | x :: a', y :: b' => Z_of_byte x < Z_of_byte y \/ (x = y /\ bytes_le a' b')
  end.

#[global] Instance bytes_le_dec : RelDecision bytes_le.
Proof.
  intros a. induction a as [|x a IH]; intros [|y b]; cbn; try (left; done) || (right; tauto).
  destruct (decide (Z_of_byte x < Z_of_byte y)); [left; by left|].
  destruct (decide (x = y)); [|right; tauto]. destruct (IH b); [left; by right|right; tauto].
Defined.

#[global] Instance bytes_le_total : Total bytes_le.
Proof.
  intros a. induction a as [|x a IH]; intros [|y b]; cbn; try tauto.
  destruct (Z.lt_trichotomy (Z_of_byte x) (Z_of_byte y)) as [?|[?%Z_of_byte_inj|?]]; [tauto| |tauto].
  destruct (IH b); [left|right]; by right.
Qed.

#[global] Instance bytes_le_trans : Transitive bytes_le.
Proof.
  intros a. induction a as [|x a IH]; intros [|y b] [|z c]; cbn; try tauto.
  intros [?|[-> ?]] [?|[-> ?]]; [left; lia|by left|by left|right; split; [done|by eapply IH]].
Qed.

#[global] Instance bytes_le_antisymm : AntiSymm eq bytes_le.
Proof.
  intros a. induction a as [|x a IH]; intros [|y b]; cbn; try tauto.
  intros [?|[-> H1]] [?|[Hy H2]]; [lia|subst; lia|lia|]. f_equal. by apply IH.
Qed.

Lemma bytes_le_refl a : bytes_le a a.
Proof. destruct (bytes_le_total a a); done. Qed.

(** [Vec::dedup]: the first of each run of equal neighbours. *)
Fixpoint dedup {A} `{EqDecision A} (l : list A) : list A :=
  match l with
  | [] => []
  | x :: l' => match l' with
               | y :: _ => if decide (x = y) then dedup l' else x :: dedup l'
               | [] => [x]
               end
  end.

Lemma elem_of_dedup {A} `{EqDecision A} (l : list A) x : x ∈ dedup l <-> x ∈ l.
Proof.
  induction l as [|y [|z l] IH]; [done|done|]. change (dedup (y :: z :: l)) with
    (if decide (y = z) then dedup (z :: l) else y :: dedup (z :: l)).
  case_decide as E; [subst; rewrite IH, !elem_of_cons; tauto|]. rewrite elem_of_cons, IH, (elem_of_cons (z :: l)). tauto.
Qed.

(** Sorting and then dropping neighbours gives the set, in order: a form that
    depends on the set alone. *)
Section sort_dedup.
Context {A : Type} `{EqDecision A} (R : relation A) `{!RelDecision R, !Transitive R, !Total R, !AntiSymm eq R}.

Lemma dedup_sorted l : StronglySorted R l -> StronglySorted (fun x y => R x y /\ x <> y) (dedup l).
Proof.
  induction l as [|y [|z l] IH]; [constructor|repeat constructor|]. intros [Hs Hf]%StronglySorted_inv.
  change (dedup (y :: z :: l)) with (if decide (y = z) then dedup (z :: l) else y :: dedup (z :: l)).
  specialize (IH Hs). case_decide as E; [done|]. constructor; [done|].
  apply Forall_forall. intros x Hx. rewrite elem_of_dedup in Hx. rewrite Forall_forall in Hf. split; [by apply Hf|].
  intros <-. apply E. apply (anti_symm R); [apply Hf; left|].
  apply StronglySorted_inv in Hs as [_ Hz]. rewrite Forall_forall in Hz.
  apply elem_of_cons in Hx as [Heq|Hx]; [by destruct E|by apply Hz].
Qed.

Lemma strict_sorted_unique l1 l2 :
  StronglySorted (fun x y => R x y /\ x <> y) l1 -> StronglySorted (fun x y => R x y /\ x <> y) l2 ->
  (forall x, x ∈ l1 <-> x ∈ l2) -> l1 = l2.
Proof.
  intros H1. revert l2. induction H1 as [|x l1 H1 IH Hx]; intros l2 H2 He.
  { destruct l2 as [|y l2]; [done|]. destruct (not_elem_of_nil y). apply He. left. }
  destruct H2 as [|y l2 H2 Hy]; [destruct (not_elem_of_nil x); apply He; left|].
  rewrite Forall_forall in Hx, Hy.
  assert (x = y) as <-.
  { pose proof (proj1 (He x) (list_elem_of_here _ _)) as [->|Hxy]%elem_of_cons; [done|].
    pose proof (proj2 (He y) (list_elem_of_here _ _)) as [->|Hyx]%elem_of_cons; [done|].
    apply (anti_symm R); [by apply Hx|by apply Hy]. }
  f_equal. apply IH; [done|]. intros z. pose proof (He z) as Hz. rewrite !elem_of_cons in Hz.
  split; intros Hin; [destruct (proj1 Hz (or_intror Hin)) as [->|?]|destruct (proj2 Hz (or_intror Hin)) as [->|?]];
    try done; [by destruct (Hx x Hin)|by destruct (Hy x Hin)].
Qed.

Lemma sort_dedup_set l1 l2 :
  dedup (merge_sort R l1) = dedup (merge_sort R l2) <-> (forall x, x ∈ l1 <-> x ∈ l2).
Proof.
  split.
  - intros He x. rewrite <-(merge_sort_Permutation R l1), <-(merge_sort_Permutation R l2) at 1.
    rewrite <-(elem_of_dedup (merge_sort R l1)), He. apply elem_of_dedup.
  - intros He. apply strict_sorted_unique; try (apply dedup_sorted, StronglySorted_merge_sort; apply _).
    intros x. rewrite !elem_of_dedup, !merge_sort_Permutation. apply He.
Qed.
End sort_dedup.

(** * Sublists *)

Lemma sublist_forall {A} (P : A -> Prop) l l' : l `sublist_of` l' -> Forall P l' -> Forall P l.
Proof. induction 1; [done|..]; intros [? ?]%Forall_cons; [constructor|]; auto. Qed.

Lemma sublist_sorted {A} (R : relation A) l1 l2 : l1 `sublist_of` l2 -> StronglySorted R l2 -> StronglySorted R l1.
Proof.
  induction 1 as [|x l1 l2 Hs IH|x l1 l2 Hs IH]; intros H; [constructor| |]; apply StronglySorted_inv in H as [H1 H2].
  - constructor; [by apply IH|]. by eapply sublist_forall.
  - by apply IH.
Qed.

Lemma omap_none {A B} (f : A -> option B) (l : list A) : (forall x, x ∈ l -> f x = None) -> omap f l = [].
Proof. induction l as [|x l IH]; cbn; intros H; [done|]. rewrite (H x) by left. apply IH. intros y Hy. apply H. by right. Qed.
