(* ===== verification/SqlModel.v ===== *)
(** What the store's queries use of SQL beyond filters and sorts: [LIMIT], and the
    upload queries' [ROW_NUMBER() OVER (PARTITION BY key ORDER BY ...)] that draws
    rows round-robin across recipients. *)
From stdpp Require Import base numbers list gmap sorting.
From S2P Require Import Prelude.

(** [LIMIT ?] bound to a [u64 as i64]; a negative limit is none. *)
Definition sql_limit {A} (limit : Z) (l : list A) : list A :=
  let limit := to_i64 limit in
  if limit <? 0 then l else take (Z.to_nat limit) l.

(** A stricter filter keeps fewer rows. *)
Lemma length_filter_lt {A} (P Q : A -> Prop) `{forall x, Decision (P x)} `{forall x, Decision (Q x)} l x :
  (forall y, P y -> Q y) -> x ∈ l -> Q x -> ~ P x -> (length (filter P l) < length (filter Q l))%nat.
Proof.
  intros HPQ Hin HQ HP.
  assert (forall l, (length (filter P l) <= length (filter Q l))%nat) as Hle.
  { clear Hin l. induction l as [|y l IH]; [done|]. rewrite !filter_cons.
    destruct (decide (P y)); [rewrite decide_True by auto; cbn; lia|]. case_decide; cbn; lia. }
  induction Hin as [y l|y z l Hy IH]; rewrite !filter_cons.
  - rewrite decide_False, decide_True by done. cbn [length]. specialize (Hle l). lia.
  - specialize (IH HQ HP). destruct (decide (P z)); [rewrite decide_True by auto; cbn [length]; lia|].
    case_decide; cbn [length]; lia.
Qed.

Section round_robin.
Context {A K : Type} `{EqDecision K} (key : A -> K).
Context (inner_le outer_le : A -> A -> Prop).
Context `{forall a b, Decision (inner_le a b)} `{forall a b, Decision (outer_le a b)}.

(** [ROW_NUMBER()] of a row in its partition: with the order antisymmetric on the
    rows, the count of the rows up to it. *)
Definition row_number (rows : list A) (r : A) : nat :=
  length (filter (fun x => key x = key r /\ inner_le x r) rows).

(** [ORDER BY recipient_rank ASC, ...] *)
Definition rank_le (a b : nat * A) : Prop := (a.1 < b.1)%nat \/ (a.1 = b.1 /\ outer_le a.2 b.2).

#[global] Instance rank_le_dec a b : Decision (rank_le a b).
Proof. unfold rank_le. apply _. Defined.

Definition ranked (rows : list A) : list (nat * A) := (fun r => (row_number rows r, r)) <$> rows.

Definition round_robin (limit : Z) (rows : list A) : list A :=
  sql_limit limit (snd <$> merge_sort rank_le (ranked rows)).

(** * Fairness *)

Context `{!Transitive outer_le} `{!Total outer_le}.

#[global] Instance rank_le_trans : Transitive rank_le.
Proof.
  intros a b c [?|[Hab Ho]] [?|[Hbc Ho']]; unfold rank_le; [lia..|]. right. split; [lia|by trans b.2].
Qed.

#[global] Instance rank_le_total : Total rank_le.
Proof.
  intros a b. unfold rank_le. destruct (decide (a.1 = b.1)) as [He|?]; [|lia].
  rewrite He. destruct (total outer_le a.2 b.2); auto.
Qed.

Lemma sql_limit_prefix limit (l : list A) : exists l', l = sql_limit limit l ++ l'.
Proof.
  unfold sql_limit. case_match; [exists []; by rewrite app_nil_r|]. eexists. symmetry. apply take_drop.
Qed.

Lemma round_robin_elem limit rows r : r ∈ round_robin limit rows -> r ∈ rows.
Proof.
  unfold round_robin. destruct (sql_limit_prefix limit (snd <$> merge_sort rank_le (ranked rows))) as [l' Hl].
  intros Hr. assert (r ∈ snd <$> merge_sort rank_le (ranked rows)) as Hr' by (rewrite Hl; set_solver).
  revert Hr'. rewrite (merge_sort_Permutation rank_le (ranked rows)). unfold ranked.
  rewrite <-list_fmap_compose. change (snd ∘ (fun r => (row_number rows r, r))) with (fun r : A => r).
  by rewrite list_fmap_id.
Qed.

(** A row left out comes after every row returned: no recipient's second row is
    offered while another's first waits. *)
Lemma round_robin_fair limit rows r x :
  r ∈ rows -> r ∉ round_robin limit rows -> x ∈ round_robin limit rows ->
  (row_number rows x <= row_number rows r)%nat.
Proof.
  unfold round_robin. set (sorted := merge_sort rank_le (ranked rows)).
  assert (StronglySorted rank_le sorted) as Hs by (apply StronglySorted_merge_sort; apply _).
  assert (forall p, p ∈ sorted -> p.1 = row_number rows p.2) as Hrank.
  { intros p. subst sorted. rewrite (merge_sort_Permutation rank_le (ranked rows)). unfold ranked.
    intros (y & -> & _)%list_elem_of_fmap. done. }
  assert (forall y, y ∈ rows -> y ∈ snd <$> sorted) as Hall.
  { intros y Hy. subst sorted. rewrite (merge_sort_Permutation rank_le (ranked rows)). unfold ranked.
    rewrite <-list_fmap_compose. change (snd ∘ (fun r => (row_number rows r, r))) with (fun r : A => r).
    by rewrite list_fmap_id. }
  unfold sql_limit. case_match; [intros Hr Hn; by destruct Hn; apply Hall|].
  set (n := Z.to_nat (to_i64 limit)). rewrite <-fmap_take. intros Hr Hn (px & -> & Hx)%list_elem_of_fmap.
  apply Hall, list_elem_of_fmap in Hr. destruct Hr as (pr & -> & Hr).
  rewrite <-(take_drop n sorted) in Hr, Hs. apply elem_of_app in Hr as [Hr|Hr].
  { destruct Hn. apply list_elem_of_fmap. eauto. }
  pose proof (StronglySorted_app_1_elem_of rank_le _ _ px pr Hs Hx Hr) as Hle.
  rewrite <-!Hrank.
  - destruct Hle; lia.
  - rewrite <-(take_drop n sorted). set_solver.
  - rewrite <-(take_drop n sorted). set_solver.
Qed.

Lemma ranked_rows rows : snd <$> ranked rows = rows.
Proof.
  unfold ranked. rewrite <-list_fmap_compose. change (snd ∘ (fun r => (row_number rows r, r))) with (fun r : A => r).
  apply list_fmap_id.
Qed.

Lemma row_number_one_unique `{!Total inner_le} rows x y : x ∈ rows -> y ∈ rows -> key x = key y ->
  (row_number rows x <= 1)%nat -> (row_number rows y <= 1)%nat -> x = y.
Proof.
  intros Hx Hy Hk H1 H2.
  assert (forall a b, a ∈ rows -> b ∈ rows -> key a = key b -> inner_le a b -> (row_number rows b <= 1)%nat -> a = b) as Hone.
  { intros a b Ha Hb Hab Hle Hn. unfold row_number in Hn. set (l := filter _ rows) in Hn.
    assert (a ∈ l) as Hal by (by apply list_elem_of_filter).
    assert (b ∈ l) as Hbl by (apply list_elem_of_filter; split; [split; [done|by destruct (total inner_le b b)]|done]).
    destruct l as [|z [|? ?]]; [by apply not_elem_of_nil in Hal| |cbn in Hn; lia].
    apply list_elem_of_singleton in Hal as ->, Hbl as ->. done. }
  destruct (total inner_le x y); [by apply Hone|symmetry; by apply Hone].
Qed.

(** With no more recipients than slots, everybody's first row is offered. *)
Lemma round_robin_first `{EqDecision A} `{!Total inner_le} limit rows r :
  NoDup rows -> 0 <= limit <= I64_MAX -> blen (remove_dups (key <$> rows)) <= limit ->
  r ∈ rows -> row_number rows r = 1%nat -> r ∈ round_robin limit rows.
Proof.
  intros Hnd Hlim Hkeys Hr Hone. destruct (decide (r ∈ round_robin limit rows)) as [?|Hout]; [done|exfalso].
  set (page := round_robin limit rows) in *.
  assert (Forall (fun x => row_number rows x <= 1)%nat page) as Hfirst.
  { apply Forall_forall. intros x Hx. rewrite <-Hone. by apply (round_robin_fair limit). }
  assert (snd <$> merge_sort rank_le (ranked rows) ≡ₚ rows) as Hperm
    by (rewrite (merge_sort_Permutation rank_le (ranked rows)); by rewrite ranked_rows).
  assert (blen page = limit /\ NoDup page) as [Hlen Hndp].
  { revert Hout. subst page. unfold round_robin, sql_limit.
    assert (to_i64 limit = limit) as -> by (unfold to_i64; by rewrite (proj2 (Z.leb_le _ _)) by lia).
    rewrite (proj2 (Z.ltb_ge limit 0)) by lia. generalize dependent (snd <$> merge_sort rank_le (ranked rows)).
    intros l Hl Hout. destruct (decide (length l <= Z.to_nat limit)%nat) as [Hle|Hgt].
    { destruct Hout. rewrite take_ge by done. by rewrite Hl. }
    split; [unfold blen; rewrite length_take; lia|]. rewrite <-Hl in Hnd. eapply sublist_NoDup; [exact Hnd|apply sublist_take]. }
  assert (NoDup (key <$> r :: page)) as Hndk.
  { apply NoDup_fmap_2_strong; [|by constructor]. rewrite Forall_forall in Hfirst.
    assert (forall x, x ∈ r :: page -> x ∈ rows /\ (row_number rows x <= 1)%nat) as Hall.
    { intros x [->|Hx]%elem_of_cons; [split; [done|lia]|]. split; [by apply (round_robin_elem limit)|auto]. }
    intros x y Hx Hy Hk. apply Hall in Hx as [Hx Hx1], Hy as [Hy Hy1]. by eapply row_number_one_unique. }
  assert ((key <$> r :: page) ⊆+ remove_dups (key <$> rows)) as Hsub.
  { apply NoDup_submseteq; [done|]. intros k (x & -> & Hx)%list_elem_of_fmap. apply elem_of_remove_dups, list_elem_of_fmap_2.
    apply elem_of_cons in Hx as [->|Hx]; [done|by apply (round_robin_elem limit)]. }
  apply submseteq_length in Hsub. rewrite length_fmap in Hsub. cbn [length] in Hsub. unfold blen in *. lia.
Qed.

End round_robin.
