(* ===== verification/Content.v ===== *)
(** Attachment and reaction payload codecs ([core/src/content.rs]).

    The decoders of this file return [Option] in the source; they run on the
    shared cursor with the unit error and forget it. *)
From stdpp Require Import base numbers list strings.
From S2P Require Import Prelude Wire StdModel.

Definition ATTACHMENT_WIRE_VERSION : Z := 1.
Definition ATTACHMENT_MAX_BLOB_BYTES : Z := 180 * 1024.
Definition REACTION_WIRE_VERSION : Z := 1.
Definition REACTION_MAX_EMOJI_BYTES : Z := 32.

Inductive AttachmentMediaType : Type := Image | Audio.

Record CoreAttachmentPayload : Type := mk_attachment {
  media_type : AttachmentMediaType;
  mime_type : bytes;
  duration_ms : Z;
  blob : bytes;
  caption : bytes;
}.

Record CoreMessageTarget : Type := mk_target {
  t_sender_user_id : bytes;
  t_lamport : Z;
  t_kind : Z;
}.

Record CoreReactionPayload : Type := mk_reaction {
  target : CoreMessageTarget;
  emoji : bytes;
}.

#[global] Instance unit_reader : Reader unit := {| truncated := tt; trailing := tt |}.

Definition to_option {E A} (r : result E A) : option A :=
  match r with Ok a => Some a | Err _ => None end.

Definition media_code (m : AttachmentMediaType) : Z :=
  match m with Image => 1 | Audio => 2 end.

Definition encode_attachment_payload (p : CoreAttachmentPayload) : result CoreError bytes :=
  _ ← ensure (negb ((duration_ms p <? 0) || (U32_MAX <? duration_ms p)))
        (Malformed "invalid attachment duration");
  _ ← ensure (negb (ATTACHMENT_MAX_BLOB_BYTES <? blen (blob p)))
        (Malformed "attachment blob is too large");
  _ ← ensure (negb ((U16_MAX <? blen (mime_type p)) || (U16_MAX <? blen (caption p))))
        (Malformed "attachment string is too long");
  Ok (push_u8 ATTACHMENT_WIRE_VERSION ++ push_u8 (media_code (media_type p))
      ++ write_bytes16 (mime_type p)
      ++ be_bytes 4 (duration_ms p) ++ be_bytes 4 (blen (blob p)) ++ blob p
      ++ write_bytes16 (caption p)).

(** [Cursor::read_string16] *)
Definition read_string16 (max_bytes : option Z) : reader unit bytes :=
  s ← Cursor.take_bytes16;
  _ ← guard_ (match max_bytes with Some m => blen s <=? m | None => true end) tt;
  _ ← guard_ (utf8_valid s) tt;
  mret s.

Definition read_media_type : reader unit AttachmentMediaType :=
  code ← Cursor.take_u8;
  if code =? 1 then mret Image else if code =? 2 then mret Audio else fail_ tt.

Definition read_attachment : reader unit CoreAttachmentPayload :=
  version ← Cursor.take_u8;
  _ ← guard_ (version =? ATTACHMENT_WIRE_VERSION) tt;
  media_type ← read_media_type;
  mime_type ← read_string16 None;
  duration_ms ← Cursor.take_u32;
  blob_len ← Cursor.take_u32;
  _ ← guard_ (negb (ATTACHMENT_MAX_BLOB_BYTES <? blob_len)) tt;
  blob ← Cursor.take blob_len;
  caption ← read_string16 None;
  mret (mk_attachment media_type mime_type duration_ms blob caption).

Definition decode_attachment_payload (bs : bytes) : option CoreAttachmentPayload :=
  to_option (Cursor.run read_attachment bs).

Definition encode_reaction_payload (p : CoreReactionPayload) : result CoreError bytes :=
  let sender := t_sender_user_id (target p) in
  _ ← ensure (negb (U16_MAX <? blen sender)) (Malformed "reaction sender id is too long");
  _ ← ensure (negb (REACTION_MAX_EMOJI_BYTES <? blen (emoji p)))
        (Malformed "reaction emoji is too long");
  Ok (push_u8 REACTION_WIRE_VERSION ++ write_bytes16 sender
      ++ be_bytes 8 (t_lamport (target p)) ++ push_u8 (t_kind (target p))
      ++ write_bytes16 (emoji p)).

Definition read_reaction_fields : reader unit CoreReactionPayload :=
  version ← Cursor.take_u8;
  _ ← guard_ (version =? REACTION_WIRE_VERSION) tt;
  sender_user_id ← Cursor.take_bytes16;
  lamport ← Cursor.take_u64;
  kind ← Cursor.take_u8;
  emoji ← read_string16 (Some REACTION_MAX_EMOJI_BYTES);
  mret (mk_reaction (mk_target sender_user_id lamport kind) emoji).

Definition read_reaction : reader unit CoreReactionPayload :=
  payload ← read_reaction_fields;
  finished ← Cursor.is_finished;
  _ ← guard_ finished tt;
  mret payload.

Definition decode_reaction_payload (bs : bytes) : option CoreReactionPayload :=
  to_option (Cursor.run read_reaction bs).

(** * Round trips *)

(** The Rust types of the fields: strings are UTF-8, integers are in range. *)
Definition attachment_typed (p : CoreAttachmentPayload) : Prop :=
  utf8_valid (mime_type p) = true /\ utf8_valid (caption p) = true.

Definition reaction_typed (p : CoreReactionPayload) : Prop :=
  in_u64 (t_lamport (target p)) /\ in_u8 (t_kind (target p)) /\ utf8_valid (emoji p) = true.

Lemma parses_string16 max s r :
  blen s <= U16_MAX -> utf8_valid s = true ->
  match max with Some m => blen s <= m | None => True end ->
  parses (read_string16 max) (write_bytes16 s ++ r) s r.
Proof.
  intros Hl Hu Hm. unfold read_string16. parse_step; [done|].
  parse_step. { destruct max; [by apply Z.leb_le|done]. }
  parse_step; [done|]. apply parses_ret.
Qed.

Lemma parses_media_type m r :
  parses read_media_type (push_u8 (media_code m) ++ r) m r.
Proof.
  unfold read_media_type. parse_step; [by destruct m|].
  destruct m; apply parses_ret.
Qed.

Lemma attachment_reads_back p bs extra :
  attachment_typed p -> encode_attachment_payload p = Ok bs ->
  decode_attachment_payload (bs ++ extra) = Some p.
Proof.
  intros [Hm Hc] He. unfold encode_attachment_payload in He. inv_ok. bools.
  unfold decode_attachment_payload. erewrite parses_run; [done|].
  unfold read_attachment. parse_step; [done|]. parse_step; [done|].
  rewrite <-?app_assoc. eapply parses_bind; [apply parses_media_type|].
  eapply parses_bind; [by apply parses_string16|].
  parse_step; [ints|]. parse_step; [pose proof (blen_nonneg (blob p));
    unfold ATTACHMENT_MAX_BLOB_BYTES in *; ints|].
  parse_step; [apply negb_true_iff, Z.ltb_ge; lia|].
  parse_step; [done|].
  rewrite <-?app_assoc. eapply parses_bind; [by apply parses_string16|].
  destruct p. apply parses_ret.
Qed.

Definition sample_attachment : CoreAttachmentPayload :=
  mk_attachment Audio [x61] 1500 [x01; x02; x03] [xc3; xa9].

Lemma reaction_reads_back p bs :
  reaction_typed p -> encode_reaction_payload p = Ok bs ->
  decode_reaction_payload bs = Some p /\
  forall b extra, decode_reaction_payload (bs ++ b :: extra) = None.
Proof.
  intros (Hl & Hk & He) Hb. unfold encode_reaction_payload in Hb. cbn zeta in Hb. inv_ok. bools.
  set (enc := push_u8 REACTION_WIRE_VERSION ++ _).
  assert (forall r, parses read_reaction_fields (enc ++ r) p r) as Hp.
  { intros r. subst enc. unfold read_reaction_fields.
    repeat (parse_step; [done|]). rewrite <-?app_assoc. eapply parses_bind.
    - apply parses_string16; [unfold REACTION_MAX_EMOJI_BYTES in *; ints|done|done].
    - destruct p as [[? ? ?] ?]. apply parses_ret. }
  unfold decode_reaction_payload, Cursor.run, read_reaction. split.
  - destruct (Hp [] _ (cursor_at_new _)) as (c & Hc & Hat). rewrite app_nil_r in Hc.
    destruct (parses_is_finished (E:=unit) [] c Hat) as (c' & E' & _).
    unfold mbind, reader_bind. by rewrite Hc, E'.
  - intros b extra. destruct (Hp (b :: extra) _ (cursor_at_new _)) as (c & Hc & Hat).
    destruct (parses_is_finished (E:=unit) _ c Hat) as (c' & E' & _).
    unfold mbind, reader_bind. by rewrite Hc, E'.
Qed.

Definition sample_reaction : CoreReactionPayload := mk_reaction (mk_target [x0a] 7 1) [x2b].

(** An attachment that encodes decodes to itself, with any extension bytes a
    later version may append after it; a reaction that encodes decodes to itself,
    and the same bytes with anything appended are refused. *)
Theorem content_roundtrip p q bs bs' extra b :
  attachment_typed p -> encode_attachment_payload p = Ok bs ->
  reaction_typed q -> encode_reaction_payload q = Ok bs' ->
  decode_attachment_payload (bs ++ extra) = Some p /\
  decode_reaction_payload bs' = Some q /\ decode_reaction_payload (bs' ++ b :: extra) = None.
Proof.
  intros Hp Hbs Hq Hbs'. destruct (reaction_reads_back q bs' Hq Hbs') as [Hr He].
  split_and!; [by apply attachment_reads_back|done|apply He].
Qed.

Lemma content_roundtrip_witness :
  exists bs bs', encode_attachment_payload sample_attachment = Ok bs /\
    encode_reaction_payload sample_reaction = Ok bs' /\
    decode_attachment_payload (bs ++ [xff]) = Some sample_attachment /\
    decode_reaction_payload bs' = Some sample_reaction /\
    decode_reaction_payload (bs' ++ [x00; xff]) = None.
Proof.
  eexists _, _. split; [reflexivity|]. split; [reflexivity|].
  apply (content_roundtrip sample_attachment sample_reaction _ _ [xff] x00).
  - split; vm_compute; reflexivity.
  - reflexivity.
  - split_and!; vm_compute; try (split; discriminate); reflexivity.
  - reflexivity.
Defined.
