(* ===== verification/Crypto.v ===== *)
(** The cryptographic primitives the core calls from third-party crates
    (BLAKE2b, Ed25519).  They are parameters of the model: the [Crypto] class
    names them, [CryptoLaws] states what their documentation promises. *)
From stdpp Require Import base numbers list.
From S2P Require Import Prelude Wire.

Class Crypto := {
  (** BLAKE2b with the given output length, of the concatenated updates. *)
  blake2b : nat -> bytes -> bytes;
  (** Does [VerifyingKey::from_bytes] accept these 32 bytes? *)
  ed25519_key_ok : bytes -> bool;
  (** [VerifyingKey::verify]: key, message, signature. *)
  ed25519_verify : bytes -> bytes -> bytes -> bool;
}.

Class CryptoLaws (C : Crypto) : Prop := {
  blake2b_length : forall n bs, length (blake2b n bs) = n;
}.

(** A computable stand-in for witnesses: the "hash" adds the input's bytes
    into its output's positions in turn; every key parses; a signature is valid
    when it starts with the signer's first byte. *)
Definition toy_add (n : nat) (acc : bytes) (ib : nat * byte) : bytes :=
  alter (fun x => byte_of_Z (Z_of_byte x + Z_of_byte ib.2)) (ib.1 mod n)%nat acc.

Definition toy_hash (n : nat) (bs : bytes) : bytes :=
  foldl (toy_add n) (replicate n x00) (imap pair bs).

Lemma length_toy_hash n bs : length (toy_hash n bs) = n.
Proof.
  unfold toy_hash. generalize (imap pair bs). intros l.
  assert (forall acc, length acc = n -> length (foldl (toy_add n) acc l) = n) as H.
  { induction l as [|ib l IH]; intros acc Ha; [done|]. cbn. apply IH. unfold toy_add.
    by rewrite length_alter. }
  apply H, length_replicate.
Qed.

Definition toy_crypto : Crypto := {|
  blake2b := toy_hash;
  ed25519_key_ok _ := true;
  ed25519_verify pk _ sig := bool_decide (head pk = head sig);
|}.

#[global] Instance toy_laws : CryptoLaws toy_crypto.
Proof. split. intros n bs. apply length_toy_hash. Qed.
