(* ===== verification/RosterCodec.v ===== *)
(** Device rosters: the data, the wire codec and the signing pre-images
    ([core/src/device_roster.rs]).  [Roster.v] holds the validation and
    acceptance rules. *)
From Stdlib Require String.
From stdpp Require Import base numbers list strings.
From S2P Require Import Prelude Wire Crypto.

Definition DEVICE_ID_LEN : Z := 16.
Definition LEGACY_DEVICE_ID : bytes := replicate 16 x00.
Definition KEY_LEN : Z := 32.
Definition SIGNATURE_LEN : Z := 64.
Definition ROSTER_HEAD_HASH_LEN : Z := 32.
Definition DEVICE_SOFT_CAP : Z := 8.
Definition DEVICE_HARD_CAP : Z := 16.
Definition DEVICE_CERT_FLAG_ROSTER_SIGNING : Z := 1.
Definition ROSTER_WIRE_VERSION : Z := 1.

(** [b"text\0"] *)
Definition domain (s : string) : bytes := String.list_byte_of_string s ++ [x00].

Definition DEVICE_CERT_SIGN_DOMAIN : bytes := domain "CruiseMesh device certificate v1".
Definition ROSTER_SIGN_DOMAIN : bytes := domain "CruiseMesh device roster v1".
Definition ROSTER_HEAD_HASH_DOMAIN : bytes := domain "CruiseMesh device roster head v1".
Definition DEVICE_HINT_NAMESPACE_DOMAIN : bytes := domain "CruiseMesh device hint namespace v1".

Record DeviceCert : Type := mk_cert {
  cert_person_id : bytes;
  device_sign_pk : bytes;
  device_agree_pk : bytes;
  added_epoch : Z;
  flags : Z;
  cert_signer_sign_pk : bytes;
  cert_signature : bytes;
}.

Record DeviceTombstone : Type := mk_tombstone {
  tomb_device_id : bytes;
  revoked_at_seq : Z;
}.

Record Roster : Type := mk_roster {
  person_id : bytes;
  recovery_epoch : Z;
  seq : Z;
  devices : list DeviceCert;
  tombstones : list DeviceTombstone;
  approving_device_id : bytes;
  inbox_key_generation : Z;
  signer_sign_pk : bytes;
  signature : bytes;
}.

Record RosterVersion : Type := mk_version { v_recovery_epoch : Z; v_seq : Z }.

#[global] Instance DeviceCert_eq_dec : EqDecision DeviceCert.
Proof. solve_decision. Defined.
#[global] Instance DeviceTombstone_eq_dec : EqDecision DeviceTombstone.
Proof. solve_decision. Defined.
#[global] Instance Roster_eq_dec : EqDecision Roster.
Proof. solve_decision. Defined.
#[global] Instance RosterVersion_eq_dec : EqDecision RosterVersion.
Proof. solve_decision. Defined.

Definition version (r : Roster) : RosterVersion :=
  mk_version (recovery_epoch r) (seq r).

(** * Signing pre-images *)

Definition push_len_prefixed (bs : bytes) : bytes := be_bytes 8 (blen bs) ++ bs.

Definition device_cert_body (c : DeviceCert) : bytes :=
  push_len_prefixed (cert_person_id c) ++ push_len_prefixed (device_sign_pk c)
  ++ push_len_prefixed (device_agree_pk c) ++ be_bytes 8 (added_epoch c)
  ++ be_bytes 4 (flags c) ++ push_len_prefixed (cert_signer_sign_pk c).

Definition device_cert_signed_bytes (c : DeviceCert) : bytes :=
  DEVICE_CERT_SIGN_DOMAIN ++ device_cert_body c.

Definition signed_cert_entry (c : DeviceCert) : bytes :=
  push_len_prefixed (device_cert_body c ++ push_len_prefixed (cert_signature c)).

Definition signed_tombstone_entry (t : DeviceTombstone) : bytes :=
  push_len_prefixed (tomb_device_id t) ++ be_bytes 8 (revoked_at_seq t).

Definition roster_signed_bytes (r : Roster) : bytes :=
  ROSTER_SIGN_DOMAIN
  ++ push_len_prefixed (person_id r) ++ be_bytes 8 (recovery_epoch r) ++ be_bytes 8 (seq r)
  ++ be_bytes 8 (blen (devices r)) ++ concat (signed_cert_entry <$> devices r)
  ++ be_bytes 8 (blen (tombstones r)) ++ concat (signed_tombstone_entry <$> tombstones r)
  ++ push_len_prefixed (approving_device_id r) ++ be_bytes 8 (inbox_key_generation r)
  ++ push_len_prefixed (signer_sign_pk r).

(** * The wire codec *)

Definition push_wire_bytes (bs : bytes) : result CoreError bytes :=
  _ ← ensure (negb (U16_MAX <? blen bs)) (Malformed "roster field is too long to encode");
  Ok (write_bytes16 bs).

Definition push_wire_count {A} (l : list A) : result CoreError bytes :=
  _ ← ensure (negb (U16_MAX <? blen l)) (Malformed "roster has too many entries to encode");
  Ok (be_bytes 2 (blen l)).

Definition encode_cert (c : DeviceCert) : result CoreError bytes :=
  a ← push_wire_bytes (cert_person_id c);
  b ← push_wire_bytes (device_sign_pk c);
  d ← push_wire_bytes (device_agree_pk c);
  e ← push_wire_bytes (cert_signer_sign_pk c);
  f ← push_wire_bytes (cert_signature c);
  Ok (a ++ b ++ d ++ be_bytes 8 (added_epoch c) ++ be_bytes 4 (flags c) ++ e ++ f).

Definition encode_tombstone (t : DeviceTombstone) : result CoreError bytes :=
  a ← push_wire_bytes (tomb_device_id t);
  Ok (a ++ be_bytes 8 (revoked_at_seq t)).

Definition core_encode_roster (r : Roster) : result CoreError bytes :=
  p ← push_wire_bytes (person_id r);
  dc ← push_wire_count (devices r);
  ds ← mapM encode_cert (devices r);
  tc ← push_wire_count (tombstones r);
  ts ← mapM encode_tombstone (tombstones r);
  ap ← push_wire_bytes (approving_device_id r);
  sk ← push_wire_bytes (signer_sign_pk r);
  sg ← push_wire_bytes (signature r);
  Ok (push_u8 ROSTER_WIRE_VERSION ++ p ++ be_bytes 8 (recovery_epoch r) ++ be_bytes 8 (seq r)
      ++ dc ++ concat ds ++ tc ++ concat ts ++ ap ++ be_bytes 8 (inbox_key_generation r)
      ++ sk ++ sg).

#[local] Instance roster_reader : Reader CoreError :=
  {| truncated := Malformed "truncated roster";
     trailing := Malformed "unexpected trailing bytes after the roster" |}.

Definition read_cert : reader CoreError DeviceCert :=
  person_id ← Cursor.take_bytes16;
  device_sign_pk ← Cursor.take_bytes16;
  device_agree_pk ← Cursor.take_bytes16;
  added_epoch ← Cursor.take_u64;
  flags ← Cursor.take_u32;
  signer_sign_pk ← Cursor.take_bytes16;
  signature ← Cursor.take_bytes16;
  mret (mk_cert person_id device_sign_pk device_agree_pk added_epoch flags signer_sign_pk
          signature).

Definition read_tombstone : reader CoreError DeviceTombstone :=
  device_id ← Cursor.take_bytes16;
  revoked_at_seq ← Cursor.take_u64;
  mret (mk_tombstone device_id revoked_at_seq).

Definition read_roster : reader CoreError Roster :=
  version ← Cursor.take_u8;
  _ ← guard_ (version =? ROSTER_WIRE_VERSION) (Malformed "unsupported roster wire version");
  person_id ← Cursor.take_bytes16;
  recovery_epoch ← Cursor.take_u64;
  seq ← Cursor.take_u64;
  device_count ← Cursor.take_u16;
  devices ← Cursor.take_many (Z.to_nat device_count) read_cert;
  tombstone_count ← Cursor.take_u16;
  tombstones ← Cursor.take_many (Z.to_nat tombstone_count) read_tombstone;
  approving_device_id ← Cursor.take_bytes16;
  inbox_key_generation ← Cursor.take_u64;
  signer_sign_pk ← Cursor.take_bytes16;
  signature ← Cursor.take_bytes16;
  _ ← Cursor.finish;
  mret (mk_roster person_id recovery_epoch seq devices tombstones approving_device_id
          inbox_key_generation signer_sign_pk signature).

Definition core_decode_roster (bs : bytes) : result CoreError Roster :=
  Cursor.run read_roster bs.

(** * Round trip *)

Definition cert_typed (c : DeviceCert) : Prop := in_u64 (added_epoch c) /\ in_u32 (flags c).
Definition tombstone_typed (t : DeviceTombstone) : Prop := in_u64 (revoked_at_seq t).
Definition roster_typed (r : Roster) : Prop :=
  in_u64 (recovery_epoch r) /\ in_u64 (seq r) /\ in_u64 (inbox_key_generation r) /\
  Forall cert_typed (devices r) /\ Forall tombstone_typed (tombstones r).

Lemma push_wire_bytes_ok bs o :
  push_wire_bytes bs = Ok o <-> o = write_bytes16 bs /\ blen bs <= U16_MAX.
Proof.
  unfold push_wire_bytes. split.
  - intros H. inv_ok. bools. done.
  - intros [-> Hl]. by rewrite (proj2 (Z.ltb_ge _ _)).
Qed.

Lemma push_wire_count_ok {A} (l : list A) o :
  push_wire_count l = Ok o <-> o = be_bytes 2 (blen l) /\ blen l <= U16_MAX.
Proof.
  unfold push_wire_count. split.
  - intros H. inv_ok. bools. done.
  - intros [-> Hl]. by rewrite (proj2 (Z.ltb_ge _ _)).
Qed.

Ltac wire_ok :=
  repeat match goal with
  | H : push_wire_bytes _ = Ok _ |- _ => apply push_wire_bytes_ok in H as [-> ?]
  | H : push_wire_count _ = Ok _ |- _ => apply push_wire_count_ok in H as [-> ?]
  end.

Lemma parses_cert c e r :
  cert_typed c -> encode_cert c = Ok e -> parses read_cert (e ++ r) c r.
Proof.
  intros [? ?] He. unfold encode_cert in He. inv_ok. wire_ok.
  unfold read_cert. repeat (parse_step; [done|]). destruct c. apply parses_ret.
Qed.

Lemma parses_tombstone t e r :
  tombstone_typed t -> encode_tombstone t = Ok e -> parses read_tombstone (e ++ r) t r.
Proof.
  intros ? He. unfold encode_tombstone in He. inv_ok. wire_ok.
  unfold read_tombstone. repeat (parse_step; [done|]). destruct t. apply parses_ret.
Qed.

Lemma parses_encoded {A} (p : reader CoreError A) (enc : A -> result CoreError bytes)
    (P : A -> Prop) xs es r :
  (forall x e r, P x -> enc x = Ok e -> parses p (e ++ r) x r) ->
  Forall P xs -> mapM enc xs = Ok es ->
  parses (Cursor.take_many (Z.to_nat (blen xs)) p) (concat es ++ r) xs r.
Proof.
  intros Hp HP Hm. unfold blen. rewrite Nat2Z.id. apply parses_many2.
  apply result_mapM_ok in Hm. revert HP.
  induction Hm as [|x e xs es Hx Hm IH]; intros HP; [constructor|].
  inversion HP; subst. constructor; [intros; by apply Hp|by apply IH].
Qed.

Lemma roster_reads_back r bs :
  roster_typed r -> core_encode_roster r = Ok bs -> core_decode_roster bs = Ok r.
Proof.
  intros (? & ? & ? & Hd & Ht) He. unfold core_encode_roster in He. inv_ok. wire_ok.
  pose proof (blen_nonneg (devices r)). pose proof (blen_nonneg (tombstones r)).
  unfold core_decode_roster. eapply parses_run with (r := []). unfold read_roster.
  do 5 (parse_step; [done|]). parse_step; [ints|].
  rewrite <-?app_assoc. eapply parses_bind;
    [by eapply (parses_encoded _ encode_cert cert_typed); [apply parses_cert|..]|].
  parse_step; [ints|]. rewrite <-?app_assoc. eapply parses_bind;
    [by eapply (parses_encoded _ encode_tombstone tombstone_typed); [apply parses_tombstone|..]|].
  do 3 (parse_step; [done|]). rewrite <-(app_nil_r (write_bytes16 (signature r))).
  parse_step; [done|]. parse_step. destruct r. apply parses_ret.
Qed.

Definition sample_roster : Roster :=
  mk_roster [x01] 2 3 [mk_cert [x01] [x0a] [x0b] 1 1 [x0c] [x0d]] [mk_tombstone [x0e] 5] [x0f] 7
    [x10] [x11].

(** ** A document has one encoding *)

Lemma cert_inv c x c' r : cursor_at c r -> read_cert c = Ok (x, c') ->
  exists r', r = default [] (match encode_cert x with Ok e => Some e | Err _ => None end) ++ r'
    /\ is_ok (encode_cert x) = true /\ cursor_at c' r'.
Proof.
  intros Hc H. unfold read_cert in H. read_inv. eexists. unfold encode_cert. cbn.
  unfold push_wire_bytes. rewrite !(proj2 (Z.ltb_ge _ _)) by done. cbn.
  rewrite <-!app_assoc. done.
Qed.

Lemma tombstone_inv c x c' r : cursor_at c r -> read_tombstone c = Ok (x, c') ->
  exists r', r = default [] (match encode_tombstone x with Ok e => Some e | Err _ => None end) ++ r'
    /\ is_ok (encode_tombstone x) = true /\ cursor_at c' r'.
Proof.
  intros Hc H. unfold read_tombstone in H. read_inv. eexists. unfold encode_tombstone. cbn.
  unfold push_wire_bytes. rewrite !(proj2 (Z.ltb_ge _ _)) by done. cbn.
  rewrite <-!app_assoc. done.
Qed.

Lemma mapM_all_ok {A} (enc : A -> result CoreError bytes) xs :
  Forall (fun x => is_ok (enc x) = true) xs ->
  mapM enc xs = Ok ((fun x => default [] (match enc x with Ok e => Some e | Err _ => None end)) <$> xs).
Proof.
  intros H. apply result_mapM_ok. induction H as [|x xs Hx _ IH]; simpl; constructor; [|done].
  by destruct (enc x).
Qed.

Lemma roster_one_encoding bs r :
  core_decode_roster bs = Ok r -> core_encode_roster r = Ok bs.
Proof.
  intros (c' & H)%run_inv. pose proof (cursor_at_new bs) as Hc0.
  unfold read_roster in H. read_inv.
  match goal with Hc : cursor_at ?c _, H : Cursor.take_many _ read_cert ?c = Ok _ |- _ =>
    apply (many_inv _ _ _ _ _ _ _ _ cert_inv Hc) in H as (rd & -> & Hld & Hfd & Hcd) end.
  read_inv.
  match goal with Hc : cursor_at ?c _, H : Cursor.take_many _ read_tombstone ?c = Ok _ |- _ =>
    apply (many_inv _ _ _ _ _ _ _ _ tombstone_inv Hc) in H as (rt & -> & Hlt & Hft & Hct) end.
  read_inv. subst. bools. subst. unfold core_encode_roster. cbn.
  rewrite (mapM_all_ok _ _ Hfd), (mapM_all_ok _ _ Hft).
  unfold push_wire_bytes, push_wire_count, blen in *. rewrite Hld, Hlt.
  rewrite !Z2Nat.id by (unfold in_u16 in *; lia).
  rewrite !(proj2 (Z.ltb_ge _ _)) by (done || (unfold in_u16 in *; lia)). cbn.
  by rewrite app_nil_r.
Qed.

Definition sample_roster_bytes : bytes :=
  match core_encode_roster sample_roster with Ok bs => bs | Err _ => [] end.

(** The roster decoder accepts exactly the encoder's output: a document decodes to
    what was encoded, and whatever bytes are accepted are the encoding of the
    document returned, so no two byte strings carry one roster. *)
Theorem roster_wire_exact bs r : roster_typed r ->
  core_decode_roster bs = Ok r <-> core_encode_roster r = Ok bs.
Proof. intros Ht. split; [apply roster_one_encoding|by apply roster_reads_back]. Qed.

Lemma roster_wire_exact_witness :
  core_encode_roster sample_roster = Ok sample_roster_bytes /\
  core_decode_roster sample_roster_bytes = Ok sample_roster.
Proof.
  split; [vm_compute; reflexivity|].
  apply (roster_wire_exact sample_roster_bytes sample_roster).
  - split_and!; repeat constructor; vm_compute; discriminate.
  - vm_compute. reflexivity.
Defined.

(** * The signing pre-image commits to the whole document

    [roster_signed_bytes] is shown injective by reading it back: a reader for
    the pre-image that recovers every field but the roster's own signature. *)

Definition take_len_prefixed : reader CoreError bytes := n ← Cursor.take_u64; Cursor.take n.

Definition read_signed_cert_body : reader CoreError DeviceCert :=
  p ← take_len_prefixed; sk ← take_len_prefixed; ak ← take_len_prefixed;
  ep ← Cursor.take_u64; fl ← Cursor.take_u32; ss ← take_len_prefixed;
  sg ← take_len_prefixed; _ ← Cursor.finish;
  mret (mk_cert p sk ak ep fl ss sg).

Definition read_signed_cert : reader CoreError DeviceCert :=
  framed ← take_len_prefixed; lift (Cursor.run read_signed_cert_body framed).

Definition read_signed_tombstone : reader CoreError DeviceTombstone :=
  d ← take_len_prefixed; q ← Cursor.take_u64; mret (mk_tombstone d q).

Definition read_signed_roster : reader CoreError Roster :=
  _ ← Cursor.take (blen ROSTER_SIGN_DOMAIN);
  p ← take_len_prefixed; ep ← Cursor.take_u64; sq ← Cursor.take_u64;
  dc ← Cursor.take_u64; ds ← Cursor.take_many (Z.to_nat dc) read_signed_cert;
  tc ← Cursor.take_u64; ts ← Cursor.take_many (Z.to_nat tc) read_signed_tombstone;
  ap ← take_len_prefixed; ig ← Cursor.take_u64; sk ← take_len_prefixed;
  mret (mk_roster p ep sq ds ts ap ig sk []).

(** A [Vec] is never longer than [usize::MAX]. *)
Definition vec_typed (bs : bytes) : Prop := blen bs <= U64_MAX.

Definition cert_vecs (c : DeviceCert) : Prop :=
  vec_typed (cert_person_id c) /\ vec_typed (device_sign_pk c) /\ vec_typed (device_agree_pk c) /\
  vec_typed (cert_signer_sign_pk c) /\ vec_typed (cert_signature c) /\
  vec_typed (device_cert_body c ++ push_len_prefixed (cert_signature c)).

Definition roster_vecs (r : Roster) : Prop :=
  vec_typed (person_id r) /\ vec_typed (approving_device_id r) /\ vec_typed (signer_sign_pk r) /\
  Forall cert_vecs (devices r) /\ Forall (fun t => vec_typed (tomb_device_id t)) (tombstones r) /\
  blen (devices r) <= U64_MAX /\ blen (tombstones r) <= U64_MAX.

Lemma parses_len_prefixed bs r :
  vec_typed bs -> parses take_len_prefixed (push_len_prefixed bs ++ r) bs r.
Proof.
  intros Hl. unfold take_len_prefixed, push_len_prefixed.
  parse_step; [unfold vec_typed in Hl; pose proof (blen_nonneg bs); ints|].
  by apply parses_take.
Qed.

Lemma parses_signed_cert c r : cert_typed c -> cert_vecs c ->
  parses read_signed_cert (signed_cert_entry c ++ r) c r.
Proof.
  intros [? ?] (? & ? & ? & ? & ? & ?). unfold read_signed_cert, signed_cert_entry.
  eapply parses_bind; [by apply parses_len_prefixed|]. apply parses_lift.
  eapply parses_run with (r := []). unfold read_signed_cert_body, device_cert_body.
  rewrite <-(app_nil_r (push_len_prefixed (cert_signature c))), <-?app_assoc.
  do 3 (eapply parses_bind; [by apply parses_len_prefixed|]).
  do 2 (parse_step; [done|]).
  do 2 (eapply parses_bind; [by apply parses_len_prefixed|]).
  parse_step. destruct c. apply parses_ret.
Qed.

Definition erase_signature (r : Roster) : Roster :=
  mk_roster (person_id r) (recovery_epoch r) (seq r) (devices r) (tombstones r)
    (approving_device_id r) (inbox_key_generation r) (signer_sign_pk r) [].

Lemma parses_signed_roster r : roster_typed r -> roster_vecs r ->
  parses read_signed_roster (roster_signed_bytes r) (erase_signature r) [].
Proof.
  intros (? & ? & ? & Hd & Ht) (? & ? & ? & Hvd & Hvt & ? & ?).
  pose proof (blen_nonneg (devices r)). pose proof (blen_nonneg (tombstones r)).
  unfold read_signed_roster, roster_signed_bytes.
  rewrite <-(app_nil_r (push_len_prefixed (signer_sign_pk r))).
  parse_step; [done|]. eapply parses_bind; [by apply parses_len_prefixed|].
  do 2 (parse_step; [done|]). parse_step; [ints|].
  eapply parses_bind.
  { apply parses_counted. intros c r' Hc.
    apply parses_signed_cert; [by eapply Forall_forall in Hd|by eapply Forall_forall in Hvd]. }
  parse_step; [ints|]. eapply parses_bind.
  { apply parses_counted. intros t r' Htm.
    unfold read_signed_tombstone, signed_tombstone_entry. rewrite <-app_assoc.
    eapply parses_bind; [apply parses_len_prefixed; by eapply Forall_forall in Hvt|].
    parse_step; [by eapply Forall_forall in Ht|]. destruct t. apply parses_ret. }
  eapply parses_bind; [by apply parses_len_prefixed|]. parse_step; [done|].
  eapply parses_bind; [by apply parses_len_prefixed|]. apply parses_ret.
Qed.

(** Two rosters with the same signing pre-image agree on every field but
    their own signature, certificates and their signatures included: a
    signature (and the head hash of the same bytes) commits to exactly one
    document. *)
Theorem roster_signed_bytes_injective r1 r2 :
  roster_typed r1 -> roster_vecs r1 -> roster_typed r2 -> roster_vecs r2 ->
  roster_signed_bytes r1 = roster_signed_bytes r2 -> erase_signature r1 = erase_signature r2.
Proof.
  intros Ht1 Hv1 Ht2 Hv2 Heq.
  pose proof (parses_run _ _ _ _ (parses_signed_roster r1 Ht1 Hv1)) as H1.
  pose proof (parses_run _ _ _ _ (parses_signed_roster r2 Ht2 Hv2)) as H2.
  rewrite Heq, H2 in H1. by apply Ok_inj in H1.
Qed.

Lemma roster_signed_bytes_injective_witness :
  erase_signature sample_roster =
  erase_signature (mk_roster [x01] 2 3 [mk_cert [x01] [x0a] [x0b] 1 1 [x0c] [x0d]]
    [mk_tombstone [x0e] 5] [x0f] 7 [x10] [xff]).
Proof.
  apply roster_signed_bytes_injective.
  1-4: split_and!; repeat (constructor || split); vm_compute; discriminate.
  vm_compute. reflexivity.
Defined.
