(* ===== verification/Roster.v ===== *)
(** Device rosters: validation against the person root and acceptance of an
    incoming roster ([core/src/device_roster.rs]).

    [validate] is shown equivalent to the declarative [roster_valid]; its
    chain check, a loop to a fixpoint, is shown to compute exactly the
    inductive [chains] relation.  [core_roster_accept] is specified by when it
    adopts a document and when it quarantines.  [RosterStore.v] lifts this to the
    tables and to sequences of gossip. *)
From stdpp Require Import base numbers list gmap strings.
From S2P Require Import Prelude Wire Crypto RosterCodec.

Inductive RosterRejection : Type :=
| PersonMismatch | MalformedField | ReservedDeviceId | DuplicateDevice
| CertSignatureInvalid | ChainBroken | RosterSignatureInvalid | SignerNotAuthorized
| ApprovingDeviceMissing | ApprovingRoleMismatch | GenesisNotRootSigned
| TombstonedDeviceActive | DeviceCapExceeded.

Inductive DeviceAddOutcome : Type := Added | AddedWithWarning | Refused.

Inductive RosterUpdateOutcome : Type := Accepted | Ignored | ForkQuarantined.

Inductive RosterUpdateReason : Type :=
| FirstRoster | Superseded | Rollback | IdempotentRepeat | ForkedContent
| PersonQuarantined | Invalid | RecoveryEpochRequiresRoot | TombstoneResurrected
| InboxGenerationRegressed | VersionJumpTooLarge.

#[global] Instance RosterRejection_eq_dec : EqDecision RosterRejection.
Proof. solve_decision. Defined.
#[global] Instance DeviceAddOutcome_eq_dec : EqDecision DeviceAddOutcome.
Proof. solve_decision. Defined.
#[global] Instance RosterUpdateOutcome_eq_dec : EqDecision RosterUpdateOutcome.
Proof. solve_decision. Defined.
#[global] Instance RosterUpdateReason_eq_dec : EqDecision RosterUpdateReason.
Proof. solve_decision. Defined.

Definition ROSTER_MAX_VERSION_JUMP : Z := 1000000.

Record RosterUpdateDecision : Type := mk_decision {
  outcome : RosterUpdateOutcome;
  reason : RosterUpdateReason;
  rejection : option RosterRejection;
  quarantined : bool;
  device_count_outcome : DeviceAddOutcome;
}.

Definition core_device_add_outcome (count : Z) : DeviceAddOutcome :=
  if DEVICE_HARD_CAP <? count then Refused
  else if DEVICE_SOFT_CAP <? count then AddedWithWarning
  else Added.

Definition is_len (bs : bytes) (n : Z) : bool := blen bs =? n.

(** [iter().position(|id| id == x)] *)
Fixpoint position (x : bytes) (l : list bytes) : option nat :=
  match l with
  | [] => None
  | y :: l => if decide (y = x) then Some 0%nat else S <$> position x l
  end.

Section roster.
Context {C : Crypto}.

(** [identity::derive_user_id] *)
Definition derive_user_id (sign_pk : bytes) : bytes := blake2b 16 sign_pk.

(** [DeviceCert::device_id] *)
Definition device_id (c : DeviceCert) : bytes := derive_user_id (device_sign_pk c).

(** [verify_raw], with [crypto::verifying_key_from_bytes] *)
Definition verify_raw (sign_pk signed_bytes sig : bytes) : result CoreError unit :=
  _ ← ensure (is_len sig SIGNATURE_LEN) SignatureInvalid;
  _ ← ensure (is_len sign_pk KEY_LEN) (InvalidKeyLength KEY_LEN (blen sign_pk));
  _ ← ensure (ed25519_key_ok sign_pk) (Wire.Crypto "invalid Ed25519 public key"%string);
  ensure (ed25519_verify sign_pk signed_bytes sig) SignatureInvalid.

(** * Validation *)

(** The certificate loop: shape, person, reserved and duplicate ids. *)
Fixpoint check_certs (person : bytes) (certs : list DeviceCert) (ids : list bytes)
  : result RosterRejection (list bytes) :=
  match certs with
  | [] => Ok ids
  | c :: certs =>
      _ ← ensure (is_len (device_sign_pk c) KEY_LEN && is_len (device_agree_pk c) KEY_LEN
                  && is_len (cert_signer_sign_pk c) KEY_LEN
                  && is_len (cert_signature c) SIGNATURE_LEN) MalformedField;
      _ ← ensure (bool_decide (cert_person_id c = person)) PersonMismatch;
      _ ← ensure (bool_decide (device_id c <> LEGACY_DEVICE_ID)) ReservedDeviceId;
      _ ← ensure (bool_decide (device_id c ∉ ids)) DuplicateDevice;
      check_certs person certs (ids ++ [device_id c])
  end.

(** The tombstone loop. *)
Fixpoint check_tombstones (device_ids : list bytes) (ts : list DeviceTombstone) (ids : list bytes)
  : result RosterRejection unit :=
  match ts with
  | [] => Ok tt
  | t :: ts =>
      _ ← ensure (is_len (tomb_device_id t) DEVICE_ID_LEN) MalformedField;
      _ ← ensure (bool_decide (tomb_device_id t ∉ ids)) DuplicateDevice;
      _ ← ensure (bool_decide (tomb_device_id t ∉ device_ids)) TombstonedDeviceActive;
      check_tombstones device_ids ts (ids ++ [tomb_device_id t])
  end.

(** Does the certificate carry the roster-signing flag? *)
Definition signs (c : DeviceCert) : bool :=
  negb (Z.land (flags c) DEVICE_CERT_FLAG_ROSTER_SIGNING =? 0).

Fixpoint check_roles (approving_index index : nat) (certs : list DeviceCert)
  : result RosterRejection unit :=
  match certs with
  | [] => Ok tt
  | c :: certs =>
      _ ← ensure (Bool.eqb (signs c) (bool_decide (index = approving_index))) ApprovingRoleMismatch;
      check_roles approving_index (S index) certs
  end.

Fixpoint check_cert_signatures (certs : list DeviceCert) : result RosterRejection unit :=
  match certs with
  | [] => Ok tt
  | c :: certs =>
      _ ← ensure (is_ok (verify_raw (cert_signer_sign_pk c) (device_cert_signed_bytes c)
                          (cert_signature c))) CertSignatureInvalid;
      check_cert_signatures certs
  end.

(** [reaches_root] for one certificate against the current vouched set. *)
Definition reaches_root (root : bytes) (certs : list DeviceCert) (vouched : list bool)
  (c : DeviceCert) : bool :=
  bool_decide (cert_signer_sign_pk c = root)
  || existsb (fun '(v, other) => v && bool_decide (device_id other = derive_user_id (cert_signer_sign_pk c)))
       (zip vouched certs).

(** One pass of the inner [for], in index order, on the vouched set in place. *)
Definition vouch_step (root : bytes) (certs : list DeviceCert) (st : list bool * bool) (i : nat)
  : list bool * bool :=
  let '(vouched, grew) := st in
  match vouched !! i, certs !! i with
  | Some false, Some c =>
      if reaches_root root certs vouched c then (<[i := true]> vouched, true) else st
  | _, _ => st
  end.

Definition vouch_pass (root : bytes) (certs : list DeviceCert) (vouched : list bool)
  : list bool * bool :=
  foldl (vouch_step root certs) (vouched, false) (List.seq 0 (length certs)).

(** The [loop]: passes until one does not grow the set. *)
Fixpoint vouch_loop (fuel : nat) (root : bytes) (certs : list DeviceCert) (vouched : list bool)
  : list bool :=
  match fuel with
  | O => vouched
  | S fuel => let '(vouched, grew) := vouch_pass root certs vouched in
              if grew : bool then vouch_loop fuel root certs vouched else vouched
  end.

(** Each growing pass vouches for one more certificate, so this many passes
    reach the fixpoint. *)
Definition vouched_set (root : bytes) (certs : list DeviceCert) : list bool :=
  vouch_loop (S (length certs)) root certs (replicate (length certs) false).

Definition validate (r : Roster) (root : bytes) : result RosterRejection unit :=
  _ ← ensure (is_len root KEY_LEN && is_len (person_id r) DEVICE_ID_LEN
              && is_len (approving_device_id r) DEVICE_ID_LEN
              && is_len (signer_sign_pk r) KEY_LEN
              && is_len (signature r) SIGNATURE_LEN) MalformedField;
  _ ← ensure (bool_decide (derive_user_id root = person_id r)) PersonMismatch;
  _ ← ensure (negb (bool_decide (core_device_add_outcome (as_u32 (blen (devices r))) = Refused)))
        DeviceCapExceeded;
  device_ids ← check_certs (person_id r) (devices r) [];
  _ ← check_tombstones device_ids (tombstones r) [];
  match position (approving_device_id r) device_ids with
  | None => Err ApprovingDeviceMissing
  | Some approving_index =>
      _ ← check_roles approving_index 0 (devices r);
      _ ← check_cert_signatures (devices r);
      _ ← ensure (forallb id (vouched_set root (devices r))) ChainBroken;
      let signed_by_root := bool_decide (signer_sign_pk r = root) in
      let signed_by_approver :=
        bool_decide ((device_sign_pk <$> devices r !! approving_index) = Some (signer_sign_pk r)) in
      _ ← ensure (signed_by_root || signed_by_approver) SignerNotAuthorized;
      _ ← ensure (negb ((seq r =? 0) && negb signed_by_root)) GenesisNotRootSigned;
      ensure (is_ok (verify_raw (signer_sign_pk r) (roster_signed_bytes r) (signature r)))
        RosterSignatureInvalid
  end.

Definition core_roster_validate (r : Roster) (root : bytes) : option RosterRejection :=
  match validate r root with Ok _ => None | Err e => Some e end.

(** * Acceptance *)

Definition roster_head_hash (r : Roster) : bytes :=
  blake2b 32 (ROSTER_HEAD_HASH_DOMAIN ++ roster_signed_bytes r).

Definition decision (o : RosterUpdateOutcome) (re : RosterUpdateReason) (q : bool)
  : RosterUpdateDecision := mk_decision o re None q Added.

Definition invalid (rej : RosterRejection) : RosterUpdateDecision :=
  mk_decision Ignored Invalid (Some rej) false Added.

(** The derived lexicographic order of [RosterVersion]. *)
Definition version_compare (a b : RosterVersion) : comparison :=
  match Z.compare (v_recovery_epoch a) (v_recovery_epoch b) with
  | Eq => Z.compare (v_seq a) (v_seq b)
  | c => c
  end.

Definition pierces_quarantine (stored : option Roster) (incoming : Roster) (root : bytes) : bool :=
  match stored with
  | None => false
  | Some stored =>
      bool_decide (person_id stored = person_id incoming)
      && (recovery_epoch stored <? recovery_epoch incoming)
      && bool_decide (signer_sign_pk incoming = root)
  end.

(** Is a stored tombstone kept and not re-activated by the incoming roster? *)
Definition tombstone_kept (incoming : Roster) (t : DeviceTombstone) : bool :=
  bool_decide (tomb_device_id t ∈ (tomb_device_id <$> tombstones incoming))
  && bool_decide (tomb_device_id t ∉ (device_id <$> devices incoming)).

Definition ordering_verdict (stored : option Roster) (stored_quarantined : bool)
  (incoming : Roster) (root : bytes) : RosterUpdateDecision :=
  if stored_quarantined && negb (pierces_quarantine stored incoming root)
  then decision ForkQuarantined PersonQuarantined true else
  match validate incoming root with
  | Err rej => invalid rej
  | Ok _ =>
  match stored with
  | None => decision Accepted FirstRoster false
  | Some stored =>
  if negb (bool_decide (person_id stored = person_id incoming)) then invalid PersonMismatch else
  match version_compare (version incoming) (version stored) with
  | Lt => decision Ignored Rollback false
  | Eq => if decide (roster_head_hash stored = roster_head_hash incoming)
          then decision Ignored IdempotentRepeat false
          else decision ForkQuarantined ForkedContent true
  | Gt =>
  if (ROSTER_MAX_VERSION_JUMP <? u64_saturating_sub (recovery_epoch incoming) (recovery_epoch stored))
     || ((recovery_epoch incoming =? recovery_epoch stored)
         && (ROSTER_MAX_VERSION_JUMP <? u64_saturating_sub (seq incoming) (seq stored)))
  then decision Ignored VersionJumpTooLarge false else
  if (recovery_epoch stored <? recovery_epoch incoming)
     && negb (bool_decide (signer_sign_pk incoming = root))
  then decision Ignored RecoveryEpochRequiresRoot false else
  if negb (forallb (tombstone_kept incoming) (tombstones stored))
  then decision Ignored TombstoneResurrected false else
  if (recovery_epoch incoming =? recovery_epoch stored)
     && (inbox_key_generation incoming <? inbox_key_generation stored)
  then decision Ignored InboxGenerationRegressed false else
  decision Accepted Superseded false
  end end end.

Definition with_count_outcome (d : RosterUpdateDecision) (o : DeviceAddOutcome)
  : RosterUpdateDecision :=
  mk_decision (outcome d) (reason d) (rejection d) (quarantined d) o.

Definition core_roster_accept (stored : option Roster) (stored_quarantined : bool)
  (incoming : Roster) (root : bytes) : RosterUpdateDecision :=
  with_count_outcome (ordering_verdict stored stored_quarantined incoming root)
    (core_device_add_outcome (as_u32 (blen (devices incoming)))).

Definition non_surfacing_device_count_outcome (o : DeviceAddOutcome) : DeviceAddOutcome :=
  match o with AddedWithWarning => Added | other => other end.

(** * The chain rule

    [chains root certs c]: certificate [c] is signed by the root, or by the
    key of a listed certificate that itself chains. *)

Inductive chains (root : bytes) (certs : list DeviceCert) : DeviceCert -> Prop :=
| chain_root c : c ∈ certs -> cert_signer_sign_pk c = root -> chains root certs c
| chain_via c other : c ∈ certs -> chains root certs other ->
    device_id other = derive_user_id (cert_signer_sign_pk c) -> chains root certs c.

Lemma chains_listed root certs c : chains root certs c -> c ∈ certs.
Proof. by destruct 1. Qed.

(** Every vouched index holds a certificate that chains. *)
Definition vouch_sound (root : bytes) (certs : list DeviceCert) (vouched : list bool) : Prop :=
  length vouched = length certs /\
  forall i c, vouched !! i = Some true -> certs !! i = Some c -> chains root certs c.

Lemma reaches_root_true root certs vouched c : reaches_root root certs vouched c = true <->
  cert_signer_sign_pk c = root \/
  exists j other, vouched !! j = Some true /\ certs !! j = Some other /\
    device_id other = derive_user_id (cert_signer_sign_pk c).
Proof.
  unfold reaches_root. rewrite orb_true_iff, bool_decide_eq_true, existsb_exists.
  apply or_iff_compat_l. split.
  - intros ([v other] & Hin & Hv). apply andb_true_iff in Hv as [-> Hv%bool_decide_eq_true].
    apply list_elem_of_In, list_elem_of_lookup in Hin as [j Hj].
    apply lookup_zip_Some in Hj as [? ?]. eauto.
  - intros (j & other & Hv & Ho & He). exists (true, other). split.
    + apply list_elem_of_In, list_elem_of_lookup. exists j. by apply lookup_zip_Some.
    + by rewrite bool_decide_true.
Qed.

Lemma vouch_step_sound root certs st i :
  vouch_sound root certs st.1 -> vouch_sound root certs (vouch_step root certs st i).1.
Proof.
  destruct st as [v g]. intros [Hlen Hs]. unfold vouch_step. cbn in *.
  destruct (v !! i) as [[|]|] eqn:Hv; try done.
  destruct (certs !! i) as [c|] eqn:Hc; [|done].
  destruct (reaches_root root certs v c) eqn:Hr; [|done].
  split; cbn; [by rewrite length_insert|]. intros j c' Hj Hc'.
  apply list_lookup_insert_Some in Hj as [(<- & _ & _)|[_ Hj]]; [|by eapply Hs].
  rewrite Hc in Hc'. injection Hc' as <-. apply list_elem_of_lookup_2 in Hc as Hin.
  apply reaches_root_true in Hr as [Hr|(j & o & Hj & Ho & He)]; [by constructor|].
  eapply chain_via; eauto.
Qed.

(** Set bits only grow, and a step that reports growth sets one more. *)
Definition count_true (v : list bool) : nat := length (List.filter id v).

Lemma count_true_insert v i : v !! i = Some false ->
  count_true (<[i := true]> v) = S (count_true v).
Proof.
  unfold count_true. revert i. induction v as [|b v IH]; intros [|i] Hi; simplify_eq/=; [done|].
  destruct b; cbn; by rewrite IH.
Qed.

Lemma count_true_le v : (count_true v <= length v)%nat.
Proof. apply List.filter_length_le. Qed.

Lemma vouch_step_cases root certs v g i :
  vouch_step root certs (v, g) i = (v, g) /\ 
    (forall c, v !! i = Some false -> certs !! i = Some c -> reaches_root root certs v c = false)
  \/ (exists v', vouch_step root certs (v, g) i = (v', true) /\ count_true v' = S (count_true v)).
Proof.
  unfold vouch_step. destruct (v !! i) as [[|]|] eqn:Hv; [left; by split| |left; by split].
  destruct (certs !! i) as [c|] eqn:Hc; [|left; by split].
  destruct (reaches_root root certs v c) eqn:Hr.
  - right. eexists. split; [done|]. by apply count_true_insert.
  - left. split; [done|]. congruence.
Qed.

Lemma vouch_fold root certs l : forall v g v' g',
  foldl (vouch_step root certs) (v, g) l = (v', g') ->
  (g' = false -> v' = v /\ forall i c, i ∈ l -> v !! i = Some false -> certs !! i = Some c ->
     reaches_root root certs v c = false)
  /\ (g = true -> g' = true)
  /\ (g = false -> g' = true -> (count_true v < count_true v')%nat)
  /\ (count_true v <= count_true v')%nat.
Proof.
  induction l as [|i l IH]; intros v g v' g' H.
  { injection H as <- <-. split_and!; [|done|congruence|done].
    intros _. split; [done|]. intros i c Hi. by apply not_elem_of_nil in Hi. }
  cbn [foldl] in H.
  destruct (vouch_step_cases root certs v g i) as [[E Hn]|(v1 & E & Hcount)];
    rewrite E in H; destruct (IH _ _ _ _ H) as (H1 & H2 & H3 & H4).
  - split_and!; [|done..]. intros Hg. destruct (H1 Hg) as [-> Hall].
    split; [done|]. intros j c [ -> | Hj]%elem_of_cons; eauto.
  - rewrite (H2 eq_refl) in *. split_and!; [done|done|lia|lia].
Qed.

Lemma vouch_pass_sound root certs v :
  vouch_sound root certs v -> vouch_sound root certs (vouch_pass root certs v).1.
Proof.
  intros H. unfold vouch_pass. generalize (List.seq 0 (length certs)). intros l.
  assert (Hs : vouch_sound root certs (v, false).1) by done. revert Hs.
  generalize (v, false). induction l as [|i l IH]; intros st Hs; [done|].
  cbn [foldl]. by apply IH, vouch_step_sound.
Qed.

(** A set closed under the rule. *)
Definition vouch_closed (root : bytes) (certs : list DeviceCert) (v : list bool) : Prop :=
  forall i c, certs !! i = Some c -> reaches_root root certs v c = true -> v !! i = Some true.

Lemma vouch_loop_spec root certs fuel : forall v,
  vouch_sound root certs v -> (length certs < fuel + count_true v)%nat ->
  vouch_sound root certs (vouch_loop fuel root certs v)
  /\ vouch_closed root certs (vouch_loop fuel root certs v).
Proof.
  induction fuel as [|fuel IH]; intros v Hs Hf.
  { pose proof (count_true_le v). destruct Hs as [Hl _]. lia. }
  cbn [vouch_loop]. pose proof (vouch_pass_sound root certs v Hs) as Hs'.
  destruct (vouch_pass root certs v) as [v' g] eqn:E. unfold vouch_pass in E.
  destruct (vouch_fold _ _ _ _ _ _ _ E) as (H1 & _ & H3 & _). destruct g.
  - apply IH; [done|]. specialize (H3 eq_refl eq_refl). lia.
  - destruct (H1 eq_refl) as [-> Hall]. split; [done|]. intros i c Hc Hr.
    assert (i < length certs)%nat as Hi by by eapply lookup_lt_Some.
    destruct (lookup_lt_is_Some_2 v i) as [[|] Hv]; [by destruct Hs as [-> _]|done|].
    rewrite (Hall i c) in Hr; [done| |done|done]. apply elem_of_seq. lia.
Qed.

Lemma vouched_set_spec root certs i c : certs !! i = Some c ->
  vouched_set root certs !! i = Some true <-> chains root certs c.
Proof.
  intros Hc. unfold vouched_set.
  destruct (vouch_loop_spec root certs (S (length certs)) (replicate (length certs) false))
    as [[Hl Hs] Hcl].
  { split; [apply length_replicate|]. intros j c' Hj. by apply lookup_replicate in Hj as [? _]. }
  { lia. }
  revert Hl Hs Hcl. generalize (vouch_loop (S (length certs)) root certs
    (replicate (length certs) false)). intros v Hl Hs Hcl.
  split; [eauto|]. intros Hch. revert i Hc.
  induction Hch as [c Hin Hr|c o Hin Ho IH He]; intros i Hc; apply (Hcl i c Hc), reaches_root_true.
  - by left.
  - right. apply chains_listed, list_elem_of_lookup in Ho as [j Hj].
    exists j, o. auto.
Qed.

Lemma vouched_set_all root certs :
  forallb id (vouched_set root certs) = true <-> Forall (chains root certs) certs.
Proof.
  assert (length (vouched_set root certs) = length certs) as Hl.
  { unfold vouched_set. apply (vouch_loop_spec root certs).
    - split; [apply length_replicate|]. intros j c' Hj. by apply lookup_replicate in Hj as [? _].
    - lia. }
  rewrite forallb_forall, Forall_lookup. split.
  - intros H i c Hc. apply (vouched_set_spec root certs i c Hc).
    destruct (lookup_lt_is_Some_2 (vouched_set root certs) i) as [b Hb].
    { rewrite Hl. by eapply lookup_lt_Some. }
    rewrite Hb. f_equal. apply H, list_elem_of_In. by eapply list_elem_of_lookup_2.
  - intros H b Hb%list_elem_of_In. apply list_elem_of_lookup in Hb as [i Hi].
    destruct (lookup_lt_is_Some_2 certs i) as [c Hc].
    { rewrite <-Hl. by eapply lookup_lt_Some. }
    pose proof (H i c Hc) as Hch. apply (vouched_set_spec root certs i c Hc) in Hch.
    rewrite Hi in Hch. by injection Hch as ->.
Qed.

(** * What a valid roster is *)

Definition cert_shape (c : DeviceCert) : Prop :=
  blen (device_sign_pk c) = KEY_LEN /\ blen (device_agree_pk c) = KEY_LEN
  /\ blen (cert_signer_sign_pk c) = KEY_LEN /\ blen (cert_signature c) = SIGNATURE_LEN.

(** [signed_by pk msg sig]: [sig] verifies under [pk]. *)
Definition signed_by (pk msg sig : bytes) : Prop := verify_raw pk msg sig = Ok tt.

Record roster_valid (r : Roster) (root : bytes) : Prop := {
  rv_root_len : blen root = KEY_LEN;
  rv_person_len : blen (person_id r) = DEVICE_ID_LEN;
  rv_approver_len : blen (approving_device_id r) = DEVICE_ID_LEN;
  rv_signer_len : blen (signer_sign_pk r) = KEY_LEN;
  rv_signature_len : blen (signature r) = SIGNATURE_LEN;
  rv_person : derive_user_id root = person_id r;
  rv_cap : as_u32 (blen (devices r)) <= DEVICE_HARD_CAP;
  rv_certs : Forall (fun c => cert_shape c /\ cert_person_id c = person_id r
               /\ device_id c <> LEGACY_DEVICE_ID) (devices r);
  rv_device_ids : NoDup (device_id <$> devices r);
  rv_tombstones : Forall (fun t => blen (tomb_device_id t) = DEVICE_ID_LEN
               /\ tomb_device_id t ∉ (device_id <$> devices r)) (tombstones r);
  rv_tombstone_ids : NoDup (tomb_device_id <$> tombstones r);
  rv_approver : approving_device_id r ∈ (device_id <$> devices r);
  rv_roles : Forall (fun c => signs c = bool_decide (device_id c = approving_device_id r)) (devices r);
  rv_cert_sigs : Forall (fun c => signed_by (cert_signer_sign_pk c) (device_cert_signed_bytes c)
               (cert_signature c)) (devices r);
  rv_chain : Forall (chains root (devices r)) (devices r);
  rv_signer : signer_sign_pk r = root \/ exists c, c ∈ devices r
               /\ device_id c = approving_device_id r /\ device_sign_pk c = signer_sign_pk r;
  rv_genesis : seq r = 0 -> signer_sign_pk r = root;
  rv_signed : signed_by (signer_sign_pk r) (roster_signed_bytes r) (signature r);
}.

Lemma is_len_true bs n : is_len bs n = true <-> blen bs = n.
Proof. apply Z.eqb_eq. Qed.

Lemma is_ok_unit {E} (r : result E unit) : is_ok r = true <-> r = Ok tt.
Proof. destruct r as [[]|]; naive_solver. Qed.

(** One guard of a validation loop. *)
Lemma ensure_bind_ok {E A} b (e : E) (k : unit -> result E A) a :
  (ensure b e ≫= k) = Ok a <-> b = true /\ k tt = Ok a.
Proof. destruct b; cbn; naive_solver. Qed.

Lemma check_certs_ok person certs ids out :
  check_certs person certs ids = Ok out <->
  out = ids ++ (device_id <$> certs)
  /\ Forall (fun c => cert_shape c /\ cert_person_id c = person /\ device_id c <> LEGACY_DEVICE_ID) certs
  /\ NoDup (device_id <$> certs) /\ (forall i, i ∈ ids -> i ∉ (device_id <$> certs)).
Proof.
  revert ids. induction certs as [|c certs IH]; intros ids.
  { cbn. rewrite app_nil_r. split; [intros [= <-]|by intros [-> _]].
    split_and!; [done|constructor..|]. intros i _. apply not_elem_of_nil. }
  cbn [check_certs]. rewrite !ensure_bind_ok, IH, !andb_true_iff, !is_len_true, !bool_decide_eq_true.
  rewrite Forall_cons. cbn [fmap list_fmap]. rewrite <-app_assoc, NoDup_cons. unfold cert_shape.
  split.
  - intros (Hs & Hp & Hl & Hd & -> & Hf & Hn & Hi). destruct_and!; split_and!; try done.
    + apply Hi. set_solver.
    + intros i Hin. specialize (Hi i ltac:(set_solver)). set_solver.
  - intros (-> & [[Hs [Hp Hl]] Hf] & [Hc Hn] & Hi). destruct_and!; split_and!; try done.
    + intros Hin. apply (Hi _ Hin). set_solver.
    + intros i [Hin| -> %list_elem_of_singleton]%elem_of_app; [|done].
      specialize (Hi i Hin). set_solver.
Qed.

Lemma check_tombstones_ok dids ts ids :
  check_tombstones dids ts ids = Ok tt <->
  Forall (fun t => blen (tomb_device_id t) = DEVICE_ID_LEN /\ tomb_device_id t ∉ dids) ts
  /\ NoDup (tomb_device_id <$> ts) /\ (forall i, i ∈ ids -> i ∉ (tomb_device_id <$> ts)).
Proof.
  revert ids. induction ts as [|t ts IH]; intros ids.
  { cbn. split; [|done]. intros _. split_and!; [constructor..|]. intros i _. apply not_elem_of_nil. }
  cbn [check_tombstones]. rewrite !ensure_bind_ok, IH, is_len_true, !bool_decide_eq_true.
  rewrite Forall_cons. cbn [fmap list_fmap]. rewrite NoDup_cons. split.
  - intros (Hl & Hn & Hd & Hf & Hnd & Hi). split_and!; try done.
    + apply Hi. set_solver.
    + intros i Hin. specialize (Hi i ltac:(set_solver)). set_solver.
  - intros ([[Hl Hd] Hf] & [Hn Hnd] & Hi). split_and!; try done.
    + intros Hin. apply (Hi _ Hin). set_solver.
    + intros i [Hin| -> %list_elem_of_singleton]%elem_of_app; [|done].
      specialize (Hi i Hin). set_solver.
Qed.

Lemma check_roles_ok a k certs :
  check_roles a k certs = Ok tt <->
  forall j c, certs !! j = Some c -> signs c = bool_decide ((k + j)%nat = a).
Proof.
  revert k. induction certs as [|c certs IH]; intros k; [by cbn; naive_solver|].
  cbn [check_roles]. rewrite ensure_bind_ok, eqb_true_iff, IH. split.
  - intros [Hc Hr] [|j] c' Hj; cbn in Hj.
    + injection Hj as <-. rewrite Hc. apply bool_decide_ext. lia.
    + rewrite (Hr j c' Hj). apply bool_decide_ext. lia.
  - intros H. split.
    + rewrite (H 0%nat c eq_refl). apply bool_decide_ext. lia.
    + intros j c' Hj. rewrite (H (S j) c' Hj). apply bool_decide_ext. lia.
Qed.

Lemma check_cert_signatures_ok certs :
  check_cert_signatures certs = Ok tt <->
  Forall (fun c => signed_by (cert_signer_sign_pk c) (device_cert_signed_bytes c)
                     (cert_signature c)) certs.
Proof.
  induction certs as [|c certs IH]; [by cbn; split; [constructor|]|].
  cbn [check_cert_signatures]. by rewrite ensure_bind_ok, is_ok_unit, Forall_cons, IH.
Qed.

Lemma position_spec x l :
  match position x l with Some i => l !! i = Some x | None => x ∉ l end.
Proof.
  induction l as [|y l IH]; cbn; [apply not_elem_of_nil|].
  case_decide as Hd; [by subst|].
  destruct (position x l); cbn; [done|]. set_solver.
Qed.

Lemma add_outcome_not_refused n : core_device_add_outcome n <> Refused <-> n <= DEVICE_HARD_CAP.
Proof. unfold core_device_add_outcome. repeat case_match; bools; split; try done; lia. Qed.

(** With distinct ids, the approver's index is the only one with its id. *)
Lemma approver_index certs (a : nat) x j c :
  NoDup (device_id <$> certs) -> (device_id <$> certs) !! a = Some x -> certs !! j = Some c ->
  j = a <-> device_id c = x.
Proof.
  intros Hn Ha Hj. assert ((device_id <$> certs) !! j = Some (device_id c)) as Hj'
    by by rewrite list_lookup_fmap, Hj.
  split; [intros ->; congruence|]. intros <-. by eapply NoDup_lookup.
Qed.

Lemma validate_sound r root : validate r root = Ok tt -> roster_valid r root.
Proof.
  unfold validate. rewrite !ensure_bind_ok, !andb_true_iff, !is_len_true, bool_decide_eq_true.
  rewrite negb_true_iff, bool_decide_eq_false, add_outcome_not_refused.
  intros (((((Hrl & Hpl) & Hal) & Hsl) & Hsig) & Hper & Hcap & H).
  apply result_bind_ok in H as (ids & (-> & Hc & Hnd & _)%check_certs_ok & H).
  apply result_bind_ok in H as ([] & (Ht & Htn & _)%check_tombstones_ok & H). cbn [app] in *.
  pose proof (position_spec (approving_device_id r) (device_id <$> devices r)) as Hpos.
  destruct (position _ _) as [a|]; [|done].
  apply result_bind_ok in H as ([] & Hro & H). rewrite check_roles_ok in Hro.
  apply result_bind_ok in H as ([] & Hcs%check_cert_signatures_ok & H).
  rewrite !ensure_bind_ok, vouched_set_all, orb_true_iff, !bool_decide_eq_true in H.
  rewrite ensure_ok, negb_true_iff, andb_false_iff, negb_false_iff, is_ok_unit in H.
  destruct H as (Hch & Hsign & Hgen & Hver). split; try done.
  - by eapply list_elem_of_lookup_2.
  - apply Forall_lookup. intros j c Hj. rewrite (Hro j c Hj). apply bool_decide_ext.
    by apply (approver_index (devices r)).
  - destruct Hsign as [Hr|Hap]; [by left|right].
    apply list_lookup_fmap_Some in Hpos as (c & Hx & Hca). rewrite Hca in Hap. cbn in Hap.
    exists c. split_and!; [by eapply list_elem_of_lookup_2|done|congruence].
  - rewrite bool_decide_eq_true, Z.eqb_neq in Hgen. intros H0. by destruct Hgen.
Qed.

Lemma validate_complete r root : roster_valid r root -> validate r root = Ok tt.
Proof.
  intros V. destruct V. unfold validate.
  rewrite !ensure_bind_ok, !andb_true_iff, !is_len_true, bool_decide_eq_true.
  rewrite negb_true_iff, bool_decide_eq_false, add_outcome_not_refused.
  split_and!; try done.
  assert (check_certs (person_id r) (devices r) [] = Ok (device_id <$> devices r)) as ->.
  { apply check_certs_ok. split_and!; try done. intros i Hi. by apply not_elem_of_nil in Hi. }
  assert (check_tombstones (device_id <$> devices r) (tombstones r) [] = Ok tt) as Ht.
  { apply check_tombstones_ok. split_and!; try done. intros i Hi. by apply not_elem_of_nil in Hi. }
  cbn [mbind result_bind]. rewrite Ht. cbn [mbind result_bind].
  pose proof (position_spec (approving_device_id r) (device_id <$> devices r)) as Hpos.
  destruct (position _ _) as [a|]; [|done].
  assert (check_roles a 0 (devices r) = Ok tt) as ->.
  { apply (check_roles_ok _ 0 _). intros j c Hj. rewrite Forall_lookup in rv_roles0.
    rewrite (rv_roles0 j c Hj). apply bool_decide_ext. symmetry. by apply (approver_index (devices r)). }
  cbn [mbind result_bind]. rewrite (proj2 (check_cert_signatures_ok _)) by done. cbn [mbind result_bind].
  rewrite !ensure_bind_ok, vouched_set_all, orb_true_iff, !bool_decide_eq_true.
  rewrite ensure_ok, negb_true_iff, andb_false_iff, negb_false_iff, is_ok_unit.
  split_and!; try done.
  - destruct rv_signer0 as [?|(c & Hc & Hid & Hpk)]; [by left|right].
    apply list_elem_of_lookup in Hc as [j Hj].
    assert (j = a) as -> by by apply (approver_index (devices r) a (approving_device_id r) j c).
    by rewrite Hj, <-Hpk.
  - rewrite bool_decide_eq_true, Z.eqb_neq. destruct (decide (seq r = 0)); [right|left]; auto.
Qed.

End roster.

(** C27: A roster is accepted by [core_roster_validate] exactly when it is valid
    by the declarative rules: well-formed lengths, the person's own id, the
    device cap, distinct device ids none of which is reserved or tombstoned,
    exactly the approving device carrying the signing flag, every certificate
    signed and chaining through listed certificates to the person root, and the
    document signed by the root or the approver (a genesis by the root only). *)
Theorem roster_validate_spec `{C : Crypto} (r : Roster) (root : bytes) :
  core_roster_validate r root = None <-> roster_valid r root.
Proof.
  unfold core_roster_validate. split.
  - destruct (validate r root) as [[]|] eqn:H; [|done]. intros _. by apply validate_sound.
  - intros V. by rewrite validate_complete.
Qed.

(** * Acceptance *)

Section acceptance.
Context `{C : Crypto}.

Definition version_lt (a b : RosterVersion) : Prop :=
  v_recovery_epoch a < v_recovery_epoch b \/
  (v_recovery_epoch a = v_recovery_epoch b /\ v_seq a < v_seq b).

(** The rules an update obeys against the roster it replaces. *)
Record supersedes (stored incoming : Roster) (root : bytes) : Prop := {
  sup_person : person_id stored = person_id incoming;
  sup_version : version_lt (version stored) (version incoming);
  sup_epoch_jump : recovery_epoch incoming - recovery_epoch stored <= ROSTER_MAX_VERSION_JUMP;
  sup_seq_jump : recovery_epoch incoming = recovery_epoch stored ->
    seq incoming - seq stored <= ROSTER_MAX_VERSION_JUMP;
  sup_root : recovery_epoch stored < recovery_epoch incoming -> signer_sign_pk incoming = root;
  sup_tombstones : Forall (fun t => tomb_device_id t ∈ (tomb_device_id <$> tombstones incoming)
    /\ tomb_device_id t ∉ (device_id <$> devices incoming)) (tombstones stored);
  sup_generation : recovery_epoch incoming = recovery_epoch stored ->
    inbox_key_generation stored <= inbox_key_generation incoming;
}.

(** The one document a quarantine lets through: the person root's, at a
    strictly higher recovery epoch than the stored roster. *)
Definition pierces (stored : option Roster) (incoming : Roster) (root : bytes) : Prop :=
  exists s, stored = Some s /\ person_id s = person_id incoming /\
    recovery_epoch s < recovery_epoch incoming /\ signer_sign_pk incoming = root.

Lemma pierces_quarantine_true stored incoming root :
  pierces_quarantine stored incoming root = true <-> pierces stored incoming root.
Proof.
  unfold pierces_quarantine, pierces. destruct stored as [s|]; [|naive_solver].
  rewrite !andb_true_iff, !bool_decide_eq_true, Z.ltb_lt. naive_solver.
Qed.

Lemma version_compare_lt a b : version_compare a b = Gt <-> version_lt b a.
Proof.
  unfold version_compare, version_lt.
  destruct (Z.compare_spec (v_recovery_epoch a) (v_recovery_epoch b));
    [rewrite Z.compare_gt_iff|..]; intuition (lia || discriminate).
Qed.

Lemma version_compare_eq a b : version_compare a b = Eq <-> a = b.
Proof.
  unfold version_compare. destruct a as [ea sa], b as [eb sb]; cbn.
  destruct (Z.compare_spec ea eb); [rewrite Z.compare_eq_iff|..]; naive_solver lia.
Qed.

Lemma jump_saturating a b : (ROSTER_MAX_VERSION_JUMP <? u64_saturating_sub a b) = false <->
  a - b <= ROSTER_MAX_VERSION_JUMP.
Proof. rewrite Z.ltb_ge. unfold ROSTER_MAX_VERSION_JUMP. ints. Qed.

Lemma tombstone_kept_true incoming t : tombstone_kept incoming t = true <->
  tomb_device_id t ∈ (tomb_device_id <$> tombstones incoming)
  /\ tomb_device_id t ∉ (device_id <$> devices incoming).
Proof. unfold tombstone_kept. by rewrite andb_true_iff, !bool_decide_eq_true. Qed.

Lemma tombstones_kept incoming ts : forallb (tombstone_kept incoming) ts = true <->
  Forall (fun t => tomb_device_id t ∈ (tomb_device_id <$> tombstones incoming)
    /\ tomb_device_id t ∉ (device_id <$> devices incoming)) ts.
Proof.
  rewrite forallb_forall, Forall_forall.
  by setoid_rewrite tombstone_kept_true; setoid_rewrite list_elem_of_In.
Qed.

(** Acceptance past the quarantine and validation gates. *)
Lemma supersede_ok stored incoming root :
  outcome (ordering_verdict (Some stored) false incoming root) = Accepted <->
  validate incoming root = Ok tt /\ supersedes stored incoming root.
Proof.
  unfold ordering_verdict. cbn [andb].
  destruct (validate incoming root) as [[]|]; [|naive_solver].
  destruct (bool_decide _) eqn:Hp; cbn [negb]; bools; [|split; [done|by intros [_ []]]].
  destruct (version_compare _ _) eqn:Hv.
  - split; [by case_decide|]. intros [_ [_ Hlt%version_compare_lt]]. congruence.
  - split; [done|]. intros [_ [_ Hlt%version_compare_lt]]. congruence.
  - apply version_compare_lt in Hv. destruct (_ || _) eqn:Hj; cbn [orb].
    { split; [done|]. intros [_ S]. exfalso. apply Bool.not_false_iff_true in Hj. apply Hj.
      rewrite orb_false_iff, andb_false_iff, !jump_saturating, Z.eqb_neq.
      split; [apply S|]. destruct (decide (recovery_epoch incoming = recovery_epoch stored));
        [right|by left]. by apply S. }
    rewrite orb_false_iff, andb_false_iff, !jump_saturating, Z.eqb_neq in Hj.
    destruct ((recovery_epoch stored <? recovery_epoch incoming) && _) eqn:Hr.
    { bools. split; [done|]. intros [_ S]. by destruct S as [_ _ _ _ Hroot _ _]; apply Hroot in H. }
    rewrite andb_false_iff, Z.ltb_ge, negb_false_iff, bool_decide_eq_true in Hr.
    destruct (forallb _ _) eqn:Ht; cbn [negb].
    2:{ split; [done|]. intros [_ S]. apply Bool.not_true_iff_false in Ht. destruct Ht.
        apply tombstones_kept, S. }
    apply tombstones_kept in Ht. destruct ((_ =? _) && _) eqn:Hg; bools.
    { split; [done|]. intros [_ S]. destruct S as [_ _ _ _ _ _ Hgen]. lia. }
    rewrite andb_false_iff, Z.eqb_neq, Z.ltb_ge in Hg.
    split; [|done]. intros _. split; [done|]. split; try done; naive_solver lia.
Qed.

Lemma quarantine_gate stored q incoming root :
  (q = true -> pierces stored incoming root) ->
  ordering_verdict stored q incoming root = ordering_verdict stored false incoming root.
Proof.
  intros H. unfold ordering_verdict. destruct q; [|done].
  by rewrite (proj2 (pierces_quarantine_true _ _ _) (H eq_refl)).
Qed.

Lemma quarantine_refuses stored incoming root :
  ~ pierces stored incoming root ->
  ordering_verdict stored true incoming root = decision ForkQuarantined PersonQuarantined true.
Proof.
  intros H. unfold ordering_verdict. rewrite <-pierces_quarantine_true in H.
  by apply Bool.not_true_iff_false in H as ->.
Qed.

#[global] Instance pierces_decision stored incoming root : Decision (pierces stored incoming root).
Proof.
  refine (cast_if (decide (pierces_quarantine stored incoming root = true)));
    abstract (by rewrite <-pierces_quarantine_true).
Defined.

Lemma accept_outcome_spec stored q incoming root :
  outcome (core_roster_accept stored q incoming root) = Accepted <->
  (q = true -> pierces stored incoming root) /\ roster_valid incoming root /\
  (forall s, stored = Some s -> supersedes s incoming root).
Proof.
  change (outcome (core_roster_accept stored q incoming root))
    with (outcome (ordering_verdict stored q incoming root)).
  destruct (decide (q = true /\ ~ pierces stored incoming root)) as [[-> Hn]|Hq].
  { rewrite quarantine_refuses by done. split; [done|]. by intros [? _]; destruct Hn; auto. }
  assert (q = true -> pierces stored incoming root) as Hp.
  { intros ->. destruct (decide (pierces stored incoming root)); [done|tauto]. }
  rewrite (quarantine_gate _ _ _ _ Hp). destruct stored as [s|].
  - rewrite supersede_ok. split; [|intros (_ & V & S); auto using validate_complete].
    intros [V S]. split_and!; [done|by apply validate_sound|]. naive_solver.
  - unfold ordering_verdict. cbn [andb]. split.
    + destruct (validate incoming root) as [[]|] eqn:V; [|done].
      intros _. split_and!; [done|by apply validate_sound|done].
    + intros (_ & V & _). by rewrite validate_complete.
Qed.

Lemma accept_fork_spec stored q incoming root :
  outcome (core_roster_accept stored q incoming root) = ForkQuarantined <->
  (q = true /\ ~ pierces stored incoming root) \/
  (q = false /\ roster_valid incoming root /\ exists s, stored = Some s /\
     person_id s = person_id incoming /\ version s = version incoming /\
     roster_head_hash s <> roster_head_hash incoming).
Proof.
  change (outcome (core_roster_accept stored q incoming root))
    with (outcome (ordering_verdict stored q incoming root)).
  destruct (decide (q = true /\ ~ pierces stored incoming root)) as [[-> Hn]|Hq].
  { rewrite quarantine_refuses by done. split; [by left|done]. }
  assert (q = true -> pierces stored incoming root) as Hp.
  { intros ->. destruct (decide (pierces stored incoming root)); [done|tauto]. }
  rewrite (quarantine_gate _ _ _ _ Hp). unfold ordering_verdict. cbn [andb].
  destruct (validate incoming root) as [[]|] eqn:V.
  2:{ split; [done|]. intros [?|(_ & Hv & _)]; [tauto|]. by rewrite validate_complete in V. }
  apply validate_sound in V. destruct stored as [s|];
    [|split; [done|]; intros [?|(_ & _ & s & ? & _)]; [tauto|done]].
  destruct (bool_decide _) eqn:Hpe; cbn [negb]; bools;
    [|split; [done|]; intros [?|(_ & _ & s' & [= <-] & ? & _)]; [tauto|done]].
  destruct (version_compare (version incoming) (version s)) eqn:Hv.
  - apply version_compare_eq in Hv. case_decide as Hh; cbn.
    + split; [done|]. intros [?|(_ & _ & s' & [= <-] & _ & _ & ?)]; [tauto|done].
    + split; [|done]. intros _. right.
      split; [|split; [done|by exists s]].
      destruct q; [|done]. destruct (Hp eq_refl) as (s' & [= <-] & _ & Hlt & _).
      injection Hv. lia.
  - split; [done|]. intros [?|(_ & _ & s' & [= <-] & _ & Hve & _)]; [tauto|].
    rewrite Hve in Hv. by rewrite (proj2 (version_compare_eq _ _)) in Hv.
  - split; [by repeat case_match|].
    intros [?|(_ & _ & s' & [= <-] & _ & Hve & _)]; [tauto|].
    rewrite Hve in Hv. by rewrite (proj2 (version_compare_eq _ _)) in Hv.
Qed.

Lemma accept_quarantine_bit stored q incoming root :
  quarantined (core_roster_accept stored q incoming root) = true <->
  outcome (core_roster_accept stored q incoming root) = ForkQuarantined.
Proof.
  unfold core_roster_accept, with_count_outcome, ordering_verdict, invalid, decision. cbn.
  by repeat case_match.
Qed.

End acceptance.

(** C5: An incoming roster replaces what is stored exactly when it is valid
    against the person root, supersedes the stored roster (same person, strictly
    higher version within the jump limit, no raised epoch without the root's
    signature, every stored burial kept and none re-activated, no inbox
    generation regression inside an epoch), and, for a quarantined person, is the
    root's own document at a higher recovery epoch. *)
Theorem roster_accept_spec `{C : Crypto} stored q incoming root :
  outcome (core_roster_accept stored q incoming root) = Accepted <->
  (q = true -> pierces stored incoming root) /\ roster_valid incoming root /\
  (forall s, stored = Some s -> supersedes s incoming root).
Proof. apply accept_outcome_spec. Qed.

(** A roster is answered with a fork quarantine exactly when the person is
    already quarantined and the document is not the root's at a higher epoch, or
    a valid document carries the stored version with different content; and the
    quarantine bit is set in exactly those answers. *)
Theorem roster_fork_spec `{C : Crypto} stored q incoming root :
  (outcome (core_roster_accept stored q incoming root) = ForkQuarantined <->
   (q = true /\ ~ pierces stored incoming root) \/
   (q = false /\ roster_valid incoming root /\ exists s, stored = Some s /\
     person_id s = person_id incoming /\ version s = version incoming /\
     roster_head_hash s <> roster_head_hash incoming))
  /\ (quarantined (core_roster_accept stored q incoming root) = true <->
      outcome (core_roster_accept stored q incoming root) = ForkQuarantined).
Proof. split; [apply accept_fork_spec|apply accept_quarantine_bit]. Qed.

(** * A concrete valid roster over [toy_crypto], for witnesses *)

Definition key (n : Z) : bytes := byte_of_Z n :: replicate 30 x00 ++ [byte_of_Z n].
Definition sig (n : Z) : bytes := byte_of_Z n :: replicate 63 x00.

Definition toy_root : bytes := key 7.
Definition toy_person : bytes := derive_user_id (C := toy_crypto) toy_root.
Definition toy_device (n : Z) : bytes := derive_user_id (C := toy_crypto) (key n).

(** Device 1 is certified by the root and approves; device 2 is certified by
    device 1; device 9 is buried. *)
Definition toy_roster_at (epoch sq : Z) (devs : list DeviceCert) (ts : list DeviceTombstone) : Roster :=
  mk_roster toy_person epoch sq devs ts (toy_device 1) 1 toy_root (sig 7).

Definition toy_cert1 : DeviceCert := mk_cert toy_person (key 1) (key 11) 0 1 toy_root (sig 7).
Definition toy_cert2 : DeviceCert := mk_cert toy_person (key 2) (key 12) 0 0 (key 1) (sig 1).
Definition toy_roster1 : Roster := toy_roster_at 0 1 [toy_cert1; toy_cert2] [].
Definition toy_roster2 : Roster := toy_roster_at 0 2 [toy_cert1] [mk_tombstone (toy_device 2) 2].

Lemma toy_roster1_valid : validate (C := toy_crypto) toy_roster1 toy_root = Ok tt.
Proof. vm_compute. reflexivity. Qed.

(** With a quarantined person, a document that only names the root as signer
    at a higher epoch, and does not validate, is answered [Ignored] with the
    quarantine bit cleared in the answer, although the person stays quarantined:
    the bit of the answer is not what is to be persisted. *)
Theorem roster_accept_clears_reported_bit `{C : Crypto} stored incoming root :
  pierces (Some stored) incoming root -> ~ roster_valid incoming root ->
  outcome (core_roster_accept (Some stored) true incoming root) = Ignored /\
  quarantined (core_roster_accept (Some stored) true incoming root) = false.
Proof.
  intros Hp Hv. unfold core_roster_accept. rewrite quarantine_gate by done.
  unfold ordering_verdict. cbn [andb].
  destruct (validate incoming root) as [[]|] eqn:V; [|done].
  by apply validate_sound in V.
Qed.

Lemma roster_accept_clears_reported_bit_witness :
  let forged := mk_roster toy_person 1 0 [] [] (toy_device 1) 1 toy_root (sig 7) in
  outcome (core_roster_accept (C := toy_crypto) (Some toy_roster1) true forged toy_root) = Ignored /\
  quarantined (core_roster_accept (C := toy_crypto) (Some toy_roster1) true forged toy_root) = false.
Proof.
  apply (roster_accept_clears_reported_bit (C := toy_crypto) toy_roster1).
  - exists toy_roster1. vm_compute. auto.
  - intros V%validate_complete. vm_compute in V. discriminate V.
Defined.
