(* ===== verification/RosterStore.v ===== *)
(** The contact-roster store: the tables that hold what this device knows of
    its contacts' devices, and the one operation that changes them
    ([core/src/roster_store.rs], [core/src/contact_safety.rs],
    [core/src/revocation.rs], and [apply_contact_roster] /
    [clear_roster_quarantine] of [core/src/store.rs]).

    The SQL tables are modelled row by row: a table with a one-column primary
    key is a finite map, one with a composite key or an ordering a list of rows
    whose insertion checks the key.  The abstract state is a map from person to
    the held roster and quarantine bit ([Abs]); [rep] relates the two and the
    refinement theorem carries the history properties down to the rows. *)
From stdpp Require Import base numbers list gmap strings.
From S2P Require Import Prelude Wire Crypto RosterCodec Roster.

(** * Rows *)

Record StoredRosterHeader : Type := mk_header {
  h_recovery_epoch : Z;
  h_seq : Z;
  h_approving_device_id : bytes;
  h_inbox_key_generation : Z;
  h_signer_sign_pk : bytes;
  h_signature : bytes;
  h_head_hash : bytes;
  h_quarantined : bool;
}.

Record device_row : Type := mk_row {
  row_person : bytes;
  row_device_id : bytes;
  row_ordinal : Z;
  row_sign_pk : option bytes;
  row_agree_pk : option bytes;
  row_added_epoch : option Z;
  row_flags : option Z;
  row_signer_sign_pk : option bytes;
  row_signature : option bytes;
  row_revoked_at_seq : option Z;
}.

(** The columns of [contacts] the roster operations read and write. *)
Record contact_row : Type := mk_contact { contact_sign_pk : bytes; contact_relay_epoch : Z }.

Inductive ContactSafetyReason : Type := DeviceRevoked | IdentityRecovered | RosterForked.

#[global] Instance ContactSafetyReason_eq_dec : EqDecision ContactSafetyReason.
Proof. solve_decision. Defined.

Record ContactSafetyChange : Type := mk_change {
  ch_reason : ContactSafetyReason;
  ch_device_ids : list bytes;
  ch_recovery_epoch : Z;
  ch_seq : Z;
}.

Record fact_row : Type := mk_fact {
  f_id : Z;
  f_person : bytes;
  f_reason : Z;
  f_recovery_epoch : Z;
  f_seq : Z;
  f_device_ids : bytes;
  f_acknowledged : bool;
}.

Record ContactSafetyFact : Type := mk_safety_fact {
  person_user_id : bytes;
  fact_reason : ContactSafetyReason;
  fact_device_ids : list bytes;
  fact_recovery_epoch : Z;
  fact_seq : Z;
  observed_seq : Z;
  acknowledged : bool;
}.

Record db : Type := mk_db {
  contacts : gmap bytes contact_row;
  contact_rosters : gmap bytes StoredRosterHeader;
  contact_devices : list device_row;
  contact_safety_facts : list fact_row;
  facts_sequence : Z;
}.

Definition with_rosters (d : db) (m : gmap bytes StoredRosterHeader) : db :=
  mk_db (contacts d) m (contact_devices d) (contact_safety_facts d) (facts_sequence d).
Definition with_devices (d : db) (l : list device_row) : db :=
  mk_db (contacts d) (contact_rosters d) l (contact_safety_facts d) (facts_sequence d).
Definition with_contacts (d : db) (m : gmap bytes contact_row) : db :=
  mk_db m (contact_rosters d) (contact_devices d) (contact_safety_facts d) (facts_sequence d).

Record ContactRosterState : Type := mk_state { held : option Roster; is_quarantined : bool }.

Inductive ContactDeviceState : Type := Unknown | Active | Revoked.

Section store.
Context `{C : Crypto}.

(** * Device rows *)

(** The row a certificate is written as, at its ordinal. *)
Definition cert_row (person : bytes) (ordinal : nat) (c : DeviceCert) : device_row :=
  mk_row person (device_id c) (Z.of_nat ordinal) (Some (device_sign_pk c)) (Some (device_agree_pk c))
    (Some (to_i64 (added_epoch c))) (Some (flags c)) (Some (cert_signer_sign_pk c))
    (Some (cert_signature c)) None.

Definition tombstone_row (person : bytes) (ordinal : nat) (t : DeviceTombstone) : device_row :=
  mk_row person (tomb_device_id t) (Z.of_nat ordinal) None None None None None None
    (Some (to_i64 (revoked_at_seq t))).

(** [INSERT INTO contact_devices], refused on the primary key. *)
Definition insert_row (rows : list device_row) (r : device_row) : result CoreError (list device_row) :=
  _ ← ensure (negb (existsb (fun x => bool_decide (row_person x = row_person r)
                                      && bool_decide (row_device_id x = row_device_id r)) rows))
        (Store "UNIQUE constraint failed");
  Ok (rows ++ [r]).

Fixpoint insert_rows (rows new : list device_row) : result CoreError (list device_row) :=
  match new with
  | [] => Ok rows
  | r :: new => rows ← insert_row rows r; insert_rows rows new
  end.

Definition delete_rows (person : bytes) (rows : list device_row) : list device_row :=
  filter (fun x => row_person x <> person) rows.

Definition rows_of (person : bytes) (rows : list device_row) : list device_row :=
  filter (fun x => row_person x = person) rows.

(** [ORDER BY revoked_at_seq IS NOT NULL ASC, ordinal ASC], as a stable
    insertion sort. *)
Definition row_le (a b : device_row) : bool :=
  let ra := bool_decide (is_Some (row_revoked_at_seq a)) in
  let rb := bool_decide (is_Some (row_revoked_at_seq b)) in
  if Bool.eqb ra rb then row_ordinal a <=? row_ordinal b else rb.

Fixpoint insert_sorted (r : device_row) (l : list device_row) : list device_row :=
  match l with
  | [] => [r]
  | x :: l => if row_le r x then r :: x :: l else x :: insert_sorted r l
  end.

Definition order_rows (l : list device_row) : list device_row := foldr insert_sorted [] l.

Definition cert_column {A} (v : option A) (field : string) : result CoreError A :=
  match v with
  | Some a => Ok a
  | None => Err (Store ("stored device certificate is missing " ++ field)%string)
  end.

(** One row read back: a tombstone or a certificate. *)
Definition read_row (person : bytes) (r : device_row)
  : result CoreError (DeviceTombstone + DeviceCert) :=
  match row_revoked_at_seq r with
  | Some q => Ok (inl (mk_tombstone (row_device_id r) (as_u64 q)))
  | None =>
      sk ← cert_column (row_sign_pk r) "device_sign_pk";
      ak ← cert_column (row_agree_pk r) "device_agree_pk";
      ss ← cert_column (row_signer_sign_pk r) "signer_sign_pk";
      sg ← cert_column (row_signature r) "signature";
      Ok (inr (mk_cert person sk ak (as_u64 (default 0 (row_added_epoch r)))
                 (as_u32 (default 0 (row_flags r))) ss sg))
  end.

Definition tombstones_of (l : list (DeviceTombstone + DeviceCert)) : list DeviceTombstone :=
  omap (fun x => match x with inl t => Some t | inr _ => None end) l.
Definition certs_of (l : list (DeviceTombstone + DeviceCert)) : list DeviceCert :=
  omap (fun x => match x with inl _ => None | inr c => Some c end) l.

(** * Loading, saving, healing *)

(** The row with no document, only the quarantine bit. *)
Definition quarantine_header : StoredRosterHeader := mk_header 0 0 [] 0 [] [] [] true.

Definition delete_person (d : db) (person : bytes) : db :=
  with_devices (with_rosters d (delete person (contact_rosters d)))
    (delete_rows person (contact_devices d)).

Definition self_heal_damaged_roster (d : db) (person : bytes) (q : bool) : db :=
  let d := delete_person d person in
  if q then with_rosters d (<[person := quarantine_header]> (contact_rosters d)) else d.

Definition load_state (d : db) (person : bytes) : result CoreError (ContactRosterState * db) :=
  match contact_rosters d !! person with
  | None => Ok (mk_state None false, d)
  | Some h =>
      if decide (h_head_hash h = []) then Ok (mk_state None (h_quarantined h), d) else
      entries ← mapM (read_row person) (order_rows (rows_of person (contact_devices d)));
      let r := mk_roster person (as_u64 (h_recovery_epoch h)) (as_u64 (h_seq h))
                 (certs_of entries) (tombstones_of entries) (h_approving_device_id h)
                 (as_u64 (h_inbox_key_generation h)) (h_signer_sign_pk h) (h_signature h) in
      if decide (roster_head_hash r = h_head_hash h)
      then Ok (mk_state (Some r) (h_quarantined h), d)
      else Ok (mk_state None (h_quarantined h), self_heal_damaged_roster d person (h_quarantined h))
  end.

Definition header_of (r : Roster) (q : bool) : StoredRosterHeader :=
  mk_header (to_i64 (recovery_epoch r)) (to_i64 (seq r)) (approving_device_id r)
    (to_i64 (inbox_key_generation r)) (signer_sign_pk r) (signature r) (roster_head_hash r) q.

Definition device_rows (r : Roster) : list device_row :=
  imap (cert_row (person_id r)) (devices r) ++ imap (tombstone_row (person_id r)) (tombstones r).

Definition save_roster (d : db) (r : Roster) (q : bool) : result CoreError db :=
  _ ← ensure (forallb (fun c => bool_decide (cert_person_id c = person_id r)) (devices r))
        (Store "device certificate names a different person than its roster");
  let d := with_rosters d (<[person_id r := header_of r q]> (contact_rosters d)) in
  rows ← insert_rows (delete_rows (person_id r) (contact_devices d)) (device_rows r);
  Ok (with_devices d rows).

(** [UPDATE contact_rosters SET quarantined = ?2 WHERE person_user_id = ?1] *)
Definition set_quarantined (d : db) (person : bytes) (q : bool) : db :=
  with_rosters d (alter (fun h => mk_header (h_recovery_epoch h) (h_seq h) (h_approving_device_id h)
    (h_inbox_key_generation h) (h_signer_sign_pk h) (h_signature h) (h_head_hash h) q)
    person (contact_rosters d)).

Definition mark_quarantined (d : db) (person : bytes) : db :=
  match contact_rosters d !! person with
  | Some _ => set_quarantined d person true
  | None => with_rosters d (<[person := quarantine_header]> (contact_rosters d))
  end.

Definition device_state (d : db) (person device : bytes) : ContactDeviceState :=
  match filter (fun x => row_person x = person /\ row_device_id x = device) (contact_devices d) with
  | [] => Unknown
  | x :: _ => match row_revoked_at_seq x with None => Active | Some _ => Revoked end
  end.

Definition active_device_ids (d : db) (person : bytes) : list bytes :=
  row_device_id <$> order_rows (filter (fun x => row_revoked_at_seq x = None)
                                  (rows_of person (contact_devices d))).

(** [sweep_orphaned_persons] *)
Definition sweep_orphaned_persons (d : db) : db :=
  with_devices
    (with_rosters d (filter (fun kv => is_Some (contacts d !! kv.1)) (contact_rosters d)))
    (filter (fun x => is_Some (contacts d !! row_person x)) (contact_devices d)).

(** * Safety facts *)

Definition reason_wire (r : ContactSafetyReason) : Z :=
  match r with DeviceRevoked => 1 | IdentityRecovered => 2 | RosterForked => 3 end.

Definition reason_from_wire (code : Z) : result CoreError ContactSafetyReason :=
  if code =? 1 then Ok DeviceRevoked else if code =? 2 then Ok IdentityRecovered
  else if code =? 3 then Ok RosterForked
  else Err (Store "stored contact safety fact has unknown reason code").

Definition encode_device_ids (ids : list bytes) : bytes := concat ids.

(** [chunks(DEVICE_ID_LEN)]; the length divided by the width bounds the steps. *)
Fixpoint chunks16 (fuel : nat) (bs : bytes) : list bytes :=
  match fuel, bs with
  | S fuel, _ :: _ => take 16 bs :: chunks16 fuel (drop 16 bs)
  | _, _ => []
  end.

Definition decode_device_ids (blob : bytes) : result CoreError (list bytes) :=
  _ ← ensure (blen blob mod DEVICE_ID_LEN =? 0)
        (Store "stored contact safety fact has a malformed device id list");
  Ok (chunks16 (length blob) blob).

Definition core_roster_newly_revoked (previous : option Roster) (current : Roster) : list bytes :=
  let known := match previous with Some p => tomb_device_id <$> tombstones p | None => [] end in
  tomb_device_id <$> filter (fun t => tomb_device_id t ∉ known) (tombstones current).

Definition core_roster_safety_changes (previous : option Roster) (incoming : Roster)
  (d : RosterUpdateDecision) : list ContactSafetyChange :=
  match previous with
  | None => []
  | Some previous =>
      match outcome d with
      | ForkQuarantined =>
          if decide (reason d = ForkedContent)
          then [mk_change RosterForked [] (recovery_epoch previous) (seq previous)] else []
      | Accepted =>
          (if recovery_epoch previous <? recovery_epoch incoming
           then [mk_change IdentityRecovered [] (recovery_epoch incoming) (seq incoming)] else [])
          ++ match core_roster_newly_revoked (Some previous) incoming with
             | [] => []
             | revoked => [mk_change DeviceRevoked revoked (recovery_epoch incoming) (seq incoming)]
             end
      | Ignored => []
      end
  end.

(** [INSERT OR IGNORE INTO contact_safety_facts], on its UNIQUE key. *)
Definition record_change (person : bytes) (d : db) (c : ContactSafetyChange) : db :=
  if existsb (fun f => bool_decide (f_person f = person)
                       && (f_reason f =? reason_wire (ch_reason c))
                       && (f_recovery_epoch f =? to_i64 (ch_recovery_epoch c))
                       && (f_seq f =? to_i64 (ch_seq c))) (contact_safety_facts d)
  then d
  else let id := facts_sequence d + 1 in
       mk_db (contacts d) (contact_rosters d) (contact_devices d)
         (contact_safety_facts d ++
            [mk_fact id person (reason_wire (ch_reason c)) (to_i64 (ch_recovery_epoch c))
               (to_i64 (ch_seq c)) (encode_device_ids (ch_device_ids c)) false]) id.

Definition record_changes (d : db) (person : bytes) (cs : list ContactSafetyChange) : db :=
  foldl (record_change person) d cs.

Definition acknowledge_contact_safety_facts (d : db) (person : bytes) (through : Z) : db * Z :=
  let hit f := bool_decide (f_person f = person) && (f_id f <=? to_i64 through)
               && negb (f_acknowledged f) in
  (mk_db (contacts d) (contact_rosters d) (contact_devices d)
     ((fun f => if hit f then mk_fact (f_id f) (f_person f) (f_reason f) (f_recovery_epoch f)
                              (f_seq f) (f_device_ids f) true else f) <$> contact_safety_facts d)
     (facts_sequence d),
   blen (List.filter hit (contact_safety_facts d))).

(** * Applying an incoming roster *)

Definition reset_relay_epoch (d : db) (person : bytes) : db :=
  with_contacts d (alter (fun c => mk_contact (contact_sign_pk c) 0) person (contacts d)).

Definition unsurfaced (d : RosterUpdateDecision) : RosterUpdateDecision :=
  with_count_outcome d (non_surfacing_device_count_outcome (device_count_outcome d)).

(** One transaction: an error leaves the tables as they were. *)
Definition apply_contact_roster (d : db) (incoming : Roster)
  : result CoreError (RosterUpdateDecision * db) :=
  let person := person_id incoming in
  match contacts d !! person with
  | None => Ok (mk_decision Ignored Invalid (Some PersonMismatch) false
                  (non_surfacing_device_count_outcome
                     (core_device_add_outcome (as_u32 (blen (devices incoming))))), d)
  | Some contact =>
      '(st, d) ← load_state d person;
      let previous := held st in
      let dec := unsurfaced (core_roster_accept previous (is_quarantined st) incoming
                               (contact_sign_pk contact)) in
      let d := record_changes d person (core_roster_safety_changes previous incoming dec) in
      match outcome dec with
      | Accepted =>
          d ← save_roster d incoming (quarantined dec);
          Ok (dec, match previous with
                   | Some p => if recovery_epoch p <? recovery_epoch incoming
                               then reset_relay_epoch d person else d
                   | None => d
                   end)
      | ForkQuarantined => Ok (dec, set_quarantined d person true)
      | Ignored => Ok (dec, d)
      end
  end.

Definition clear_roster_quarantine (d : db) (person : bytes) : result CoreError (bool * db) :=
  '(st, d) ← load_state d person;
  Ok (is_quarantined st, if is_quarantined st then set_quarantined d person false else d).

(** * The abstract store: what is held about each person *)

Notation astate := (gmap bytes ContactRosterState).

Definition abs_load (st : astate) (person : bytes) : ContactRosterState :=
  default (mk_state None false) (st !! person).

Definition abs_apply (roots : gmap bytes bytes) (st : astate) (incoming : Roster)
  : RosterUpdateDecision * astate :=
  let person := person_id incoming in
  match roots !! person with
  | None => (mk_decision Ignored Invalid (Some PersonMismatch) false
               (non_surfacing_device_count_outcome
                  (core_device_add_outcome (as_u32 (blen (devices incoming))))), st)
  | Some root =>
      let cur := abs_load st person in
      let dec := unsurfaced (core_roster_accept (held cur) (is_quarantined cur) incoming root) in
      (dec, match outcome dec with
            | Accepted => <[person := mk_state (Some incoming) false]> st
            | ForkQuarantined => <[person := mk_state (held cur) true]> st
            | Ignored => st
            end)
  end.

Definition abs_clear (st : astate) (person : bytes) : bool * astate :=
  let cur := abs_load st person in
  (is_quarantined cur,
   if is_quarantined cur then <[person := mk_state (held cur) false]> st else st).

(** What makes a roster's rows readable again. *)
Definition storable (r : Roster) : Prop :=
  roster_typed r /\ Forall (fun c => cert_person_id c = person_id r) (devices r)
  /\ NoDup ((device_id <$> devices r) ++ (tomb_device_id <$> tombstones r)).

(** The tables represent the abstract state. *)
Definition rep (d : db) (st : astate) : Prop := forall p,
  match st !! p with
  | None => contact_rosters d !! p = None /\ rows_of p (contact_devices d) = []
  | Some (mk_state None q) =>
      (exists h, contact_rosters d !! p = Some h /\ h_head_hash h = [] /\ h_quarantined h = q)
      /\ rows_of p (contact_devices d) = []
  | Some (mk_state (Some r) q) =>
      contact_rosters d !! p = Some (header_of r q)
      /\ rows_of p (contact_devices d) = device_rows r /\ person_id r = p /\ storable r
  end.

(** ** Rows read back as written *)

Lemma order_rows_id l :
  (forall i x y, l !! i = Some x -> l !! S i = Some y -> row_le x y = true) -> order_rows l = l.
Proof.
  induction l as [|x l IH]; intros H; [done|]. cbn. fold (order_rows l). rewrite IH.
  - destruct l as [|y l]; [done|]. cbn. by rewrite (H 0%nat x y).
  - intros i a b Ha Hb. by apply (H (S i)).
Qed.

Lemma device_rows_ordered r : order_rows (device_rows r) = device_rows r.
Proof.
  apply order_rows_id. intros i x y Hx Hy. unfold device_rows in *.
  apply lookup_app_Some in Hx as [Hx|[Hi Hx]]; apply lookup_app_Some in Hy as [Hy|[Hj Hy]];
    apply list_lookup_imap_Some in Hx as (? & _ & ->);
    apply list_lookup_imap_Some in Hy as (? & Hl & ->).
  - apply Z.leb_le. cbn. lia.
  - done.
  - apply lookup_lt_Some in Hl. rewrite length_imap in *. lia.
  - apply Z.leb_le. cbn. lia.
Qed.

Lemma as_u64_to_i64 z : in_u64 z -> as_u64 (to_i64 z) = z.
Proof.
  intros H. unfold_ints. case_match; bools; [by rewrite Z.mod_small by lia|].
  symmetry. apply Z.mod_unique with (-1); lia.
Qed.

Lemma as_u32_id z : in_u32 z -> as_u32 z = z.
Proof. intros H. unfold as_u32. apply Z.mod_small. ints. Qed.

Lemma mapM_read_rows person {A} (f : nat -> A -> device_row) (g : A -> DeviceTombstone + DeviceCert) l :
  (forall i x, x ∈ l -> read_row person (f i x) = Ok (g x)) ->
  mapM (read_row person) (imap f l) = Ok (g <$> l).
Proof.
  intros H. apply result_mapM_ok. revert f H. induction l as [|x l IH]; intros f H; cbn; constructor.
  - apply H. set_solver.
  - apply IH. intros i y Hy. apply H. set_solver.
Qed.

Lemma mapM_app_ok {E A B} (f : A -> result E B) l1 l2 k1 k2 :
  mapM f l1 = Ok k1 -> mapM f l2 = Ok k2 -> mapM f (l1 ++ l2) = Ok (k1 ++ k2).
Proof. rewrite !result_mapM_ok. apply Forall2_app. Qed.

Lemma read_device_rows r : storable r ->
  mapM (read_row (person_id r)) (device_rows r) = Ok ((inr <$> devices r) ++ (inl <$> tombstones r)).
Proof.
  intros ((_ & _ & _ & Hc & Ht) & Hp & _). rewrite Forall_forall in Hc. rewrite Forall_forall in Ht. rewrite Forall_forall in Hp.
  apply mapM_app_ok; apply mapM_read_rows; intros i x Hx.
  - destruct (Hc x Hx) as [He Hf]. cbn. rewrite as_u64_to_i64, as_u32_id by done.
    rewrite <-(Hp x Hx). by destruct x.
  - specialize (Ht x Hx). cbn. rewrite as_u64_to_i64 by done. by destruct x.
Qed.

Lemma omap_fmap_some {A B} (f : B -> option A) (g : A -> B) (l : list A) :
  (forall x, f (g x) = Some x) -> omap f (g <$> l) = l.
Proof. intros H. induction l; cbn; [done|]. rewrite H. by f_equal. Qed.

Lemma omap_fmap_none {A B D} (f : B -> option A) (g : D -> B) (l : list D) :
  (forall x, f (g x) = None) -> omap f (g <$> l) = [].
Proof. intros H. induction l; cbn; [done|]. by rewrite H. Qed.

Lemma split_entries cs ts :
  certs_of ((inr <$> cs) ++ (inl <$> ts)) = cs /\ tombstones_of ((inr <$> cs) ++ (inl <$> ts)) = ts.
Proof.
  unfold certs_of, tombstones_of. rewrite !omap_app.
  rewrite !omap_fmap_some, !omap_fmap_none by done. by rewrite app_nil_r.
Qed.

(** ** Rows written without a key conflict *)

Lemma insert_rows_fresh p base new :
  rows_of p base = [] -> Forall (fun x => row_person x = p) new -> NoDup (row_device_id <$> new) ->
  insert_rows base new = Ok (base ++ new).
Proof.
  intros Hb Hn Hd. assert (forall x, x ∈ base -> row_person x <> p) as Hfresh.
  { intros x Hx Hp. apply not_elem_of_nil with x. rewrite <-Hb. by apply list_elem_of_filter. }
  clear Hb. assert (forall x, x ∈ base -> row_person x = p ->
    row_device_id x ∉ (row_device_id <$> new)) as Hf by by intros x Hx ?%Hfresh.
  clear Hfresh. revert base Hf. induction new as [|r new IH]; intros base Hf; cbn [insert_rows].
  { by rewrite app_nil_r. }
  apply Forall_cons in Hn as [Hr Hn]. cbn [fmap list_fmap] in *. apply NoDup_cons in Hd as [Hnr Hd].
  unfold insert_row at 1. rewrite (proj2 (negb_true_iff _)).
  2:{ apply Bool.not_true_iff_false. rewrite existsb_exists. intros (x & Hx%list_elem_of_In & H).
      rewrite andb_true_iff, !bool_decide_eq_true in H. destruct H as [Hp Hi].
      apply (Hf x Hx); [congruence|]. set_solver. }
  cbn. rewrite (IH Hn Hd); [by rewrite <-app_assoc|].
  intros x [Hx|Hx]%elem_of_app Hp; [|set_solver]. specialize (Hf x Hx Hp). set_solver.
Qed.

Lemma device_rows_person r : Forall (fun x => row_person x = person_id r) (device_rows r).
Proof.
  apply Forall_lookup. intros i x Hx. unfold device_rows in Hx.
  apply lookup_app_Some in Hx as [Hx|[_ Hx]]; 
    by apply list_lookup_imap_Some in Hx as (? & _ & ->).
Qed.

Lemma device_rows_ids r :
  row_device_id <$> device_rows r = (device_id <$> devices r) ++ (tomb_device_id <$> tombstones r).
Proof.
  unfold device_rows. rewrite fmap_app, !fmap_imap. f_equal.
  - apply (imap_const (fun c => device_id c)).
  - apply (imap_const (fun t => tomb_device_id t)).
Qed.

Lemma rows_of_delete p l : rows_of p (delete_rows p l) = [].
Proof. unfold rows_of, delete_rows. apply filter_none, Forall_forall. intros x Hx%list_elem_of_filter. naive_solver. Qed.

Lemma rows_of_delete_ne p p' l : p <> p' -> rows_of p' (delete_rows p l) = rows_of p' l.
Proof.
  intros H. unfold rows_of, delete_rows. rewrite list_filter_filter. apply list_filter_iff. naive_solver.
Qed.

Lemma rows_of_app p l1 l2 : rows_of p (l1 ++ l2) = rows_of p l1 ++ rows_of p l2.
Proof. apply filter_app. Qed.

Lemma rows_of_device_rows p r :
  rows_of p (device_rows r) = if decide (person_id r = p) then device_rows r else [].
Proof.
  pose proof (device_rows_person r) as H. unfold rows_of. case_decide as Hp.
  - subst p. by apply filter_all.
  - apply filter_none. eapply Forall_impl; [exact H|]. cbn. congruence.
Qed.

(** ** Each operation refines its abstract counterpart *)

Context `{L : !CryptoLaws C}.

Lemma head_hash_nonempty r : roster_head_hash r <> [].
Proof.
  intros H. pose proof (blake2b_length 32 (ROSTER_HEAD_HASH_DOMAIN ++ roster_signed_bytes r)) as Hl.
  unfold roster_head_hash in H. by rewrite H in Hl.
Qed.

Lemma load_rep d st p : rep d st -> load_state d p = Ok (abs_load st p, d).
Proof.
  intros H. specialize (H p). unfold load_state, abs_load.
  destruct (st !! p) as [[[r|] q]|]; cbn [default].
  - destruct H as (-> & -> & Hp & Hs). cbn [header_of h_head_hash].
    rewrite decide_False by apply head_hash_nonempty.
    rewrite device_rows_ordered, <-Hp, read_device_rows by done.
    cbn [mbind result_bind]. destruct (split_entries (devices r) (tombstones r)) as [-> ->].
    destruct Hs as ((He & Hq & Hg & _) & _). cbn. rewrite !as_u64_to_i64 by done.
    by destruct r; cbn in *; rewrite decide_True.
  - destruct H as ((h & -> & Hh & Hq) & _). rewrite decide_True by done. by rewrite Hq.
  - by destruct H as (-> & _).
Qed.

Lemma valid_storable r root : roster_typed r -> roster_valid r root -> storable r.
Proof.
  intros Ht V. split_and!; [done| |].
  - eapply Forall_impl; [apply V|]. naive_solver.
  - apply NoDup_app. split_and!; [apply V| |apply V]. intros x Hx Ht'.
    apply list_elem_of_fmap in Ht' as (t & -> & Hin).
    destruct V as [_ _ _ _ _ _ _ _ _ Htomb _ _ _ _ _ _ _ _].
    rewrite Forall_forall in Htomb. by apply (Htomb t Hin).
Qed.

Lemma save_rep d st r q : rep d st -> storable r -> exists d',
  save_roster d r q = Ok d' /\ rep d' (<[person_id r := mk_state (Some r) q]> st)
  /\ contacts d' = contacts d.
Proof.
  intros H Hs. unfold save_roster. pose proof Hs as (Ht & Hp & Hn).
  rewrite (proj2 (forallb_forall _ _)).
  2:{ intros c Hc%list_elem_of_In. rewrite bool_decide_eq_true.
      rewrite Forall_forall in Hp. by apply Hp. }
  cbn [ensure mbind result_bind contact_devices with_rosters].
  rewrite (insert_rows_fresh (person_id r)).
  2:{ apply rows_of_delete. }
  2:{ apply device_rows_person. }
  2:{ by rewrite device_rows_ids. }
  cbn [mbind result_bind]. eexists. split; [done|]. split; [|done].
  intros p. cbn [contact_rosters contact_devices with_rosters with_devices].
  rewrite rows_of_app, rows_of_device_rows.
  destruct (decide (person_id r = p)) as [<-|Hne].
  - by rewrite !lookup_insert_eq, rows_of_delete.
  - rewrite !lookup_insert_ne, rows_of_delete_ne, app_nil_r by done. apply H.
Qed.

Lemma set_quarantined_rep d st p q s : rep d st -> st !! p = Some s ->
  rep (set_quarantined d p q) (<[p := mk_state (held s) q]> st).
Proof.
  intros H Hs p'. pose proof (H p') as Hp'. cbn.
  destruct (decide (p = p')) as [<-|Hne].
  - rewrite lookup_insert_eq, lookup_alter_eq. rewrite Hs in Hp'.
    destruct s as [[r|] q0]; cbn in *.
    + by destruct Hp' as (-> & ?).
    + destruct Hp' as ((h & -> & Hh & Hq) & ?). split; [|done]. eexists. by split_and!.
  - by rewrite lookup_insert_ne, lookup_alter_ne by done.
Qed.

Lemma record_changes_tables d p cs : let d' := record_changes d p cs in
  contacts d' = contacts d /\ contact_rosters d' = contact_rosters d
  /\ contact_devices d' = contact_devices d.
Proof.
  unfold record_changes. cbn. revert d. induction cs as [|c cs IH]; intros d; [done|].
  cbn [foldl]. destruct (IH (record_change p d c)) as (-> & -> & ->).
  unfold record_change. by case_match.
Qed.

Lemma rep_tables d d' st : rep d st -> contact_rosters d' = contact_rosters d ->
  contact_devices d' = contact_devices d -> rep d' st.
Proof. intros H Hr Hd p. rewrite Hr, Hd. apply H. Qed.

Definition roots (d : db) : gmap bytes bytes := contact_sign_pk <$> contacts d.

Lemma reset_relay_epoch_roots d p : roots (reset_relay_epoch d p) = roots d.
Proof.
  unfold roots, reset_relay_epoch. cbn. apply map_eq. intros p'. rewrite !lookup_fmap.
  destruct (decide (p = p')) as [<-|Hne]; [|by rewrite lookup_alter_ne].
  rewrite lookup_alter_eq. by destruct (contacts d !! p).
Qed.

(** A quarantine verdict is about someone already held. *)
Lemma fork_is_held st p incoming root :
  outcome (core_roster_accept (held (abs_load st p)) (is_quarantined (abs_load st p)) incoming root)
    = ForkQuarantined -> st !! p = Some (abs_load st p).
Proof.
  unfold abs_load. destruct (st !! p) as [s|]; [done|].
  cbn [default held is_quarantined]. intros [[? _]|(_ & _ & s & ? & _)]%accept_fork_spec; done.
Qed.

Lemma apply_refines d st incoming : rep d st -> roster_typed incoming -> exists d',
  apply_contact_roster d incoming = Ok ((abs_apply (roots d) st incoming).1, d')
  /\ rep d' (abs_apply (roots d) st incoming).2 /\ roots d' = roots d.
Proof.
  intros H Ht. unfold apply_contact_roster, abs_apply.
  unfold roots at 1 2. rewrite !lookup_fmap.
  destruct (contacts d !! person_id incoming) as [contact|] eqn:Hc; cbn [fmap option_fmap option_map];
    [|by exists d].
  rewrite load_rep with (st := st) by done. cbn [mbind result_bind].
  set (cur := abs_load st (person_id incoming)). cbn [fst snd].
  set (dec := unsurfaced _). set (cs := core_roster_safety_changes _ _ _).
  destruct (record_changes_tables d (person_id incoming) cs) as (Hk1 & Hk2 & Hk3).
  assert (rep (record_changes d (person_id incoming) cs) st) as H' by by eapply rep_tables.
  assert (roots (record_changes d (person_id incoming) cs) = roots d) as Hro
    by (unfold roots; by rewrite Hk1).
  revert H' Hro. generalize (record_changes d (person_id incoming) cs). intros d1 H1 Hro.
  change (outcome dec) with (outcome (core_roster_accept (held cur) (is_quarantined cur) incoming
    (contact_sign_pk contact))).
  destruct (outcome _) eqn:Ho.
  - assert (quarantined dec = false) as ->.
    { change (quarantined dec) with (quarantined (core_roster_accept (held cur)
        (is_quarantined cur) incoming (contact_sign_pk contact))).
      apply Bool.not_true_iff_false. rewrite accept_quarantine_bit. congruence. }
    apply accept_outcome_spec in Ho as (_ & V & _).
    destruct (save_rep d1 st incoming false H1) as (d2 & -> & H2 & Hc2);
      [by eapply valid_storable|]. cbn [mbind result_bind].
    assert (roots d2 = roots d) as Hr2 by (rewrite <-Hro; unfold roots; by rewrite Hc2).
    eexists. split; [done|]. destruct (held cur) as [p|]; [case_match|]; try done.
    split; [by eapply rep_tables|]. by rewrite reset_relay_epoch_roots.
  - exists d1. done.
  - eexists. split; [done|]. split; [|done]. apply set_quarantined_rep; [done|].
    by eapply fork_is_held.
Qed.

Lemma clear_refines d st p : rep d st -> exists d',
  clear_roster_quarantine d p = Ok ((abs_clear st p).1, d') /\ rep d' (abs_clear st p).2
  /\ roots d' = roots d.
Proof.
  intros H. unfold clear_roster_quarantine, abs_clear. rewrite load_rep with (st := st) by done.
  cbn [mbind result_bind fst snd]. destruct (is_quarantined (abs_load st p)) eqn:Hq.
  - eexists. split; [done|]. split; [|done]. apply set_quarantined_rep; [done|].
    unfold abs_load in *. by destruct (st !! p).
  - by exists d.
Qed.

(** ** Device lookups *)

Lemma rows_of_device p dev d :
  filter (fun x => row_person x = p /\ row_device_id x = dev) (contact_devices d)
  = filter (fun x => row_device_id x = dev) (rows_of p (contact_devices d)).
Proof. unfold rows_of. rewrite list_filter_filter. apply list_filter_iff. intros x. tauto. Qed.

Lemma device_rows_elem r x : x ∈ device_rows r <->
  (exists i c, devices r !! i = Some c /\ x = cert_row (person_id r) i c) \/
  (exists i t, tombstones r !! i = Some t /\ x = tombstone_row (person_id r) i t).
Proof.
  unfold device_rows. rewrite elem_of_app, !list_elem_of_lookup.
  setoid_rewrite list_lookup_imap_Some. naive_solver.
Qed.

Lemma device_state_rep d st p r dev : rep d st -> held (abs_load st p) = Some r ->
  (device_state d p dev = Active <-> dev ∈ (device_id <$> devices r)) /\
  (device_state d p dev = Revoked <-> dev ∈ (tomb_device_id <$> tombstones r)).
Proof.
  intros H Hr. specialize (H p). unfold abs_load in Hr.
  destruct (st !! p) as [[[r'|] q]|]; simplify_eq/=.
  destruct H as (_ & Hrows & _ & (_ & _ & Hn)). unfold device_state. rewrite rows_of_device, Hrows.
  apply NoDup_app in Hn as (_ & Hdisj & _).
  destruct (filter _ (device_rows r)) as [|x l] eqn:Hf.
  - assert (forall x, x ∈ device_rows r -> row_device_id x <> dev) as Hnone.
    { intros x Hx Hd. apply not_elem_of_nil with x. rewrite <-Hf. by apply list_elem_of_filter. }
    split; (split; [done|]); intros (y & -> & [j Hj]%list_elem_of_lookup)%list_elem_of_fmap; exfalso.
    + apply (Hnone (cert_row (person_id r) j y)); [|done]. apply device_rows_elem. eauto.
    + apply (Hnone (tombstone_row (person_id r) j y)); [|done]. apply device_rows_elem. eauto.
  - assert (x ∈ filter (fun x => row_device_id x = dev) (device_rows r)) as Hx by (rewrite Hf; left).
    apply list_elem_of_filter in Hx as [<- [(j & c & Hj & ->)|(j & t & Hj & ->)]%device_rows_elem]; cbn.
    + assert (device_id c ∈ (device_id <$> devices r)) as Hin
        by (apply list_elem_of_fmap; eauto using list_elem_of_lookup_2).
      split; [done|]. split; [done|]. intros Ht. by destruct (Hdisj _ Hin).
    + assert (tomb_device_id t ∈ (tomb_device_id <$> tombstones r)) as Hin
        by (apply list_elem_of_fmap; eauto using list_elem_of_lookup_2).
      split; [|done]. split; [done|]. intros Ht. by destruct (Hdisj _ Ht).
Qed.

(** * Histories *)

Inductive store_op : Type := Gossip (r : Roster) | ClearQuarantine (p : bytes).

Definition op_typed (op : store_op) : Prop :=
  match op with Gossip r => roster_typed r | ClearQuarantine _ => True end.

Definition run_op (d : db) (op : store_op) : result CoreError db :=
  match op with
  | Gossip r => '(_, d) ← apply_contact_roster d r; Ok d
  | ClearQuarantine p => '(_, d) ← clear_roster_quarantine d p; Ok d
  end.

Fixpoint run_ops (d : db) (ops : list store_op) : result CoreError db :=
  match ops with [] => Ok d | op :: ops => d ← run_op d op; run_ops d ops end.

Definition abs_op (rts : gmap bytes bytes) (st : astate) (op : store_op) : astate :=
  match op with Gossip r => (abs_apply rts st r).2 | ClearQuarantine p => (abs_clear st p).2 end.

(** What a load of the tables reports. *)
Definition loaded (d : db) (p : bytes) : ContactRosterState :=
  match load_state d p with Ok (s, _) => s | Err _ => mk_state None false end.

Lemma loaded_rep d st p : rep d st -> loaded d p = abs_load st p.
Proof. intros H. unfold loaded. by rewrite (load_rep d st). Qed.

Lemma run_ops_refines d st ops : rep d st -> Forall op_typed ops -> exists d',
  run_ops d ops = Ok d' /\ rep d' (foldl (abs_op (roots d)) st ops) /\ roots d' = roots d.
Proof.
  intros H Ht. revert d st H. induction Ht as [|op ops Ho _ IH]; intros d st H; [by exists d|].
  assert (exists d1, run_op d op = Ok d1 /\ rep d1 (abs_op (roots d) st op) /\ roots d1 = roots d)
    as (d1 & E1 & H1 & R1).
  { destruct op as [r|p]; cbn [run_op abs_op].
    - destruct (apply_refines d st r H Ho) as (d1 & -> & ? & ?). by exists d1.
    - destruct (clear_refines d st p H) as (d1 & -> & ? & ?). by exists d1. }
  cbn [run_ops foldl]. rewrite E1. cbn [mbind result_bind].
  destruct (IH d1 _ H1) as (d2 & -> & H2 & R2). exists d2. by rewrite R1 in *.
Qed.

(** One step leaves what is held about a person, or replaces it by a roster
    that supersedes it under that person's root. *)
Lemma abs_op_held rts st op p :
  held (abs_load (abs_op rts st op) p) = held (abs_load st p) \/
  exists r root, op = Gossip r /\ person_id r = p /\ rts !! p = Some root /\
    held (abs_load (abs_op rts st op) p) = Some r /\
    outcome (core_roster_accept (held (abs_load st p)) (is_quarantined (abs_load st p)) r root)
      = Accepted.
Proof.
  destruct op as [r|p']; cbn [abs_op].
  - unfold abs_apply. destruct (rts !! person_id r) as [root|] eqn:Hr; [|by left]. cbn [snd].
    unfold unsurfaced. cbn [outcome with_count_outcome].
    destruct (outcome (core_roster_accept _ _ _ _)) eqn:Ho; [| |].
    + destruct (decide (person_id r = p)) as [<-|Hne].
      * right. exists r, root. unfold abs_load. by rewrite lookup_insert_eq.
      * left. unfold abs_load. by rewrite lookup_insert_ne.
    + by left.
    + left. destruct (decide (person_id r = p)) as [<-|Hne]; unfold abs_load;
        [by rewrite lookup_insert_eq|by rewrite lookup_insert_ne].
  - left. unfold abs_clear. cbn. case_match; [|done]. unfold abs_load at 1.
    destruct (decide (p' = p)) as [<-|Hne]; [by rewrite lookup_insert_eq|by rewrite lookup_insert_ne].
Qed.

(** [r'] is [r], or a later roster of the same history. *)
Definition climbed (r r' : Roster) : Prop :=
  (r' = r \/ version_lt (version r) (version r')) /\
  (tomb_device_id <$> tombstones r) ⊆ (tomb_device_id <$> tombstones r').

Lemma climbed_refl r : climbed r r.
Proof. split; [by left|done]. Qed.

Lemma climbed_trans a b c : climbed a b -> climbed b c -> climbed a c.
Proof.
  intros [Hab Ht1] [Hbc Ht2]. split; [|set_solver].
  destruct Hab as [->|Hab]; [done|]. right. destruct Hbc as [->|Hbc]; [done|].
  unfold version_lt in *. lia.
Qed.

Lemma supersedes_climbed s r root : supersedes s r root -> climbed s r.
Proof.
  intros S. split; [right; apply S|]. intros x (t & -> & Hin)%list_elem_of_fmap.
  pose proof (sup_tombstones _ _ _ S) as Ht. rewrite Forall_forall in Ht. by apply Ht.
Qed.

Lemma abs_ops_climb rts ops : forall st p r, held (abs_load st p) = Some r ->
  exists r', held (abs_load (foldl (abs_op rts) st ops) p) = Some r' /\ climbed r r'.
Proof.
  induction ops as [|op ops IH]; intros st p r Hr; [by exists r; eauto using climbed_refl|].
  cbn [foldl]. destruct (abs_op_held rts st op p) as [E|(r1 & root & _ & _ & _ & E & Ha)].
  - apply IH. congruence.
  - apply accept_outcome_spec in Ha as (_ & _ & Hs). specialize (Hs r Hr).
    destruct (IH _ p r1 E) as (r' & ? & ?). exists r'.
    eauto using climbed_trans, supersedes_climbed.
Qed.

Definition is_gossip (op : store_op) : Prop := match op with Gossip _ => True | _ => False end.

(** A quarantined person stays so under gossip until the root speaks at a
    higher epoch. *)
Lemma abs_quarantine_sticky rts ops : Forall is_gossip ops -> forall st p,
  is_quarantined (abs_load st p) = true ->
  abs_load (foldl (abs_op rts) st ops) p = abs_load st p \/
  exists s r root, held (abs_load st p) = Some s /\ Gossip r ∈ ops /\ rts !! p = Some root /\
    roster_valid r root /\ signer_sign_pk r = root /\ recovery_epoch s < recovery_epoch r.
Proof.
  intros Hg. induction Hg as [|op ops Hop _ IH]; intros st p Hq; [by left|]. cbn [foldl].
  destruct op as [r|]; [|done]. cbn [abs_op].
  assert (abs_load (abs_apply rts st r).2 p = abs_load st p \/
    exists s root, held (abs_load st p) = Some s /\ rts !! p = Some root /\
      roster_valid r root /\ signer_sign_pk r = root /\ recovery_epoch s < recovery_epoch r) as Hstep.
  { unfold abs_apply. destruct (rts !! person_id r) as [root|] eqn:Hr; [|by left].
    unfold unsurfaced. cbn [outcome with_count_outcome snd].
    destruct (decide (person_id r = p)) as [<-|Hne].
    2:{ left. unfold abs_load. case_match; rewrite ?lookup_insert_ne by done; done. }
    destruct (outcome (core_roster_accept _ _ _ _)) eqn:Ho; [|by left|].
    - apply accept_outcome_spec in Ho as (Hp & V & _).
      destruct (Hp Hq) as (s & Hs & _ & He & Hsig). right. by exists s, root.
    - left. unfold abs_load at 1. rewrite lookup_insert_eq. cbn. rewrite <-Hq. by destruct (abs_load _ _). }
  destruct Hstep as [E|(s & root & ? & ? & ? & ? & ?)].
  - destruct (IH (abs_apply rts st r).2 p) as [E'|(s & r' & root & ? & ? & ?)]; [by rewrite E|left; congruence|].
    right. exists s, r', root. rewrite <-E.
    split; [done|]. split; [by right|done].
  - right. exists s, r, root. split; [done|]. split; [by left|done].
Qed.

End store.

(** The tables of a fresh store that knows these contacts. *)
Definition fresh_db (cs : gmap bytes contact_row) : db := mk_db cs ∅ [] [] 0.

Lemma fresh_rep `{C : Crypto} cs : rep (fresh_db cs) ∅.
Proof. intros p. by rewrite lookup_empty. Qed.

Definition toy_contacts : gmap bytes contact_row := {[ toy_person := mk_contact toy_root 5 ]}.
Definition toy_db : db := fresh_db toy_contacts.

Lemma toy_roster1_typed : roster_typed toy_roster1.
Proof. split_and!; repeat constructor; vm_compute; congruence. Qed.

Lemma toy_roster2_typed : roster_typed toy_roster2.
Proof. split_and!; repeat constructor; vm_compute; congruence. Qed.

(** C28: Applying a gossiped roster to the tables never fails, answers what the
    abstract store answers, and leaves tables that represent the abstract
    store's next state, in which loading anybody returns exactly what is held
    about them. *)
Theorem roster_store_refines {C : Crypto} {L : CryptoLaws C} d st incoming :
  rep d st -> roster_typed incoming -> exists d',
  apply_contact_roster d incoming = Ok ((abs_apply (roots d) st incoming).1, d')
  /\ rep d' (abs_apply (roots d) st incoming).2
  /\ forall p, load_state d' p = Ok (abs_load (abs_apply (roots d) st incoming).2 p, d').
Proof.
  intros Hr Ht. destruct (apply_refines d st incoming Hr Ht) as (d' & E & H' & _).
  exists d'. split_and!; [done|done|]. intros p. by apply load_rep.
Qed.

Lemma roster_store_refines_witness : exists d',
  apply_contact_roster (C := toy_crypto) toy_db toy_roster1 =
    Ok ((abs_apply (C := toy_crypto) (roots toy_db) ∅ toy_roster1).1, d')
  /\ rep (C := toy_crypto) d' (abs_apply (C := toy_crypto) (roots toy_db) ∅ toy_roster1).2
  /\ forall p, load_state (C := toy_crypto) d' p =
       Ok (abs_load (abs_apply (C := toy_crypto) (roots toy_db) ∅ toy_roster1).2 p, d').
Proof. apply (roster_store_refines (C := toy_crypto)); [apply fresh_rep|apply toy_roster1_typed]. Defined.

(** Over any sequence of gossiped rosters and manual quarantine clearings,
    a held roster is only ever replaced by one of a strictly higher version, and
    a device buried in it is reported revoked forever after. *)
Theorem roster_history_climbs {C : Crypto} {L : CryptoLaws C} d st ops p r :
  rep d st -> Forall op_typed ops -> held (loaded d p) = Some r ->
  exists d' r', run_ops d ops = Ok d' /\ held (loaded d' p) = Some r' /\
    (r' = r \/ version_lt (version r) (version r')) /\
    forall t, t ∈ tombstones r -> device_state d' p (tomb_device_id t) = Revoked.
Proof.
  intros Hr Ht Hh. rewrite (loaded_rep d st p Hr) in Hh.
  destruct (run_ops_refines d st ops Hr Ht) as (d' & E & H' & _).
  destruct (abs_ops_climb (roots d) ops st p r Hh) as (r' & Hr' & Hv & Hsub).
  exists d', r'. rewrite (loaded_rep _ _ p H'). split_and!; try done.
  intros t Hin. eapply (device_state_rep _ _ p r' _ H' Hr'). apply Hsub, list_elem_of_fmap. eauto.
Qed.

(** A store that holds [toy_roster2], where device 2 is buried. *)
Definition toy_db2 : db :=
  match run_ops (C := toy_crypto) toy_db [Gossip toy_roster1; Gossip toy_roster2] with
  | Ok d => d | Err _ => toy_db end.

Lemma toy_db2_rep : exists st, rep (C := toy_crypto) toy_db2 st.
Proof.
  assert (Forall op_typed [Gossip toy_roster1; Gossip toy_roster2]) as Ht.
  { repeat constructor; first [apply toy_roster1_typed|apply toy_roster2_typed]. }
  destruct (run_ops_refines (C := toy_crypto) toy_db ∅ _ (fresh_rep _) Ht) as (d' & E & H' & _).
  unfold toy_db2. rewrite E. eauto.
Qed.

Lemma roster_history_climbs_witness :
  exists d' r', run_ops (C := toy_crypto) toy_db2 [Gossip toy_roster1] = Ok d' /\
    held (loaded (C := toy_crypto) d' toy_person) = Some r' /\
    (r' = toy_roster2 \/ version_lt (version toy_roster2) (version r')) /\
    forall t, t ∈ tombstones toy_roster2 -> device_state d' toy_person (tomb_device_id t) = Revoked.
Proof.
  destruct toy_db2_rep as [st Hst].
  apply (roster_history_climbs (C := toy_crypto) toy_db2 st [Gossip toy_roster1]); [done| |].
  - repeat constructor; apply toy_roster1_typed.
  - vm_compute. reflexivity.
Defined.

(** C8: Once a contact's rosters are quarantined for a fork, no sequence of
    gossip changes what is held or lifts the quarantine, unless it contains a
    valid roster signed by the person root itself at a strictly higher recovery
    epoch than the one held. *)
Theorem roster_quarantine_sticky {C : Crypto} {L : CryptoLaws C} d st ops p :
  rep d st -> Forall op_typed ops -> Forall is_gossip ops ->
  is_quarantined (loaded d p) = true ->
  exists d', run_ops d ops = Ok d' /\
  (loaded d' p = loaded d p \/
   exists s r root, held (loaded d p) = Some s /\ Gossip r ∈ ops /\ roots d !! p = Some root /\
     roster_valid r root /\ signer_sign_pk r = root /\ recovery_epoch s < recovery_epoch r).
Proof.
  intros Hr Ht Hg Hq. rewrite (loaded_rep d st p Hr) in *.
  destruct (run_ops_refines d st ops Hr Ht) as (d' & E & H' & _).
  exists d'. split; [done|]. rewrite (loaded_rep _ _ p H'). by apply abs_quarantine_sticky.
Qed.

(** A fork of [toy_roster1]: the same version with other content. *)
Definition toy_fork : Roster := toy_roster_at 0 1 [toy_cert1] [].
Definition toy_fork_ops : list store_op := [Gossip toy_roster1; Gossip toy_fork].
Definition toy_db3 : db :=
  match run_ops (C := toy_crypto) toy_db toy_fork_ops with Ok d => d | Err _ => toy_db end.

Lemma toy_fork_ops_typed : Forall op_typed toy_fork_ops.
Proof. repeat constructor; vm_compute; congruence. Qed.

Lemma toy_db3_rep : exists st, rep (C := toy_crypto) toy_db3 st.
Proof.
  destruct (run_ops_refines (C := toy_crypto) toy_db ∅ _ (fresh_rep _) toy_fork_ops_typed)
    as (d' & E & H' & _).
  unfold toy_db3. rewrite E. eauto.
Qed.

Lemma roster_quarantine_sticky_witness :
  exists d', run_ops (C := toy_crypto) toy_db3 [Gossip toy_roster2] = Ok d' /\
  (loaded (C := toy_crypto) d' toy_person = loaded (C := toy_crypto) toy_db3 toy_person \/
   exists s r root, held (loaded (C := toy_crypto) toy_db3 toy_person) = Some s /\
     Gossip r ∈ [Gossip toy_roster2] /\ roots toy_db3 !! toy_person = Some root /\
     roster_valid (C := toy_crypto) r root /\ signer_sign_pk r = root /\
     recovery_epoch s < recovery_epoch r).
Proof.
  destruct toy_db3_rep as [st Hst].
  apply (roster_quarantine_sticky (C := toy_crypto) toy_db3 st); [done| | |].
  - repeat constructor; apply toy_roster2_typed.
  - repeat constructor.
  - vm_compute. reflexivity.
Defined.

(** * Safety facts are recorded once *)

Definition fact_key (f : fact_row) : bytes * Z * Z * Z :=
  (f_person f, f_reason f, f_recovery_epoch f, f_seq f).

(** Distinct keys, and observation numbers that grow with the table. *)
Definition facts_ok (d : db) : Prop :=
  NoDup (fact_key <$> contact_safety_facts d) /\ NoDup (f_id <$> contact_safety_facts d) /\
  Forall (fun f => f_id f <= facts_sequence d) (contact_safety_facts d).

Lemma record_change_facts_ok p d c : facts_ok d -> facts_ok (record_change p d c).
Proof.
  intros (Hk & Hi & Hs). unfold record_change. destruct (existsb _ _) eqn:He; [done|].
  unfold facts_ok. cbn [contact_safety_facts facts_sequence]. rewrite !fmap_app.
  split_and!.
  - apply NoDup_app. split_and!; [done| |apply NoDup_singleton].
    intros k Hin Hk'%list_elem_of_singleton. cbn in Hk'. subst k.
    apply list_elem_of_fmap in Hin as (f & Hf & Hin). apply Bool.not_true_iff_false in He.
    apply He, existsb_exists. exists f. split; [by apply list_elem_of_In|].
    injection Hf as Hf1 Hf2 Hf3 Hf4. rewrite bool_decide_true by done. cbn.
    rewrite <-Hf2, <-Hf3, <-Hf4, !Z.eqb_refl. done.
  - apply NoDup_app. split_and!; [done| |apply NoDup_singleton].
    intros k (f & -> & Hin)%list_elem_of_fmap Hk'%list_elem_of_singleton. cbn in Hk'.
    rewrite Forall_forall in Hs. specialize (Hs f Hin). lia.
  - apply Forall_app. split; [|by repeat constructor].
    eapply Forall_impl; [exact Hs|]. cbn. lia.
Qed.

Lemma record_changes_facts_ok p d cs : facts_ok d -> facts_ok (record_changes d p cs).
Proof.
  unfold record_changes. revert d. induction cs as [|c cs IH]; intros d H; [done|].
  cbn. by apply IH, record_change_facts_ok.
Qed.

Lemma facts_ok_tables d d' : contact_safety_facts d' = contact_safety_facts d ->
  facts_sequence d' = facts_sequence d -> facts_ok d -> facts_ok d'.
Proof. unfold facts_ok. by intros -> ->. Qed.

Lemma load_state_facts `{C : Crypto} d p s d' : load_state d p = Ok (s, d') ->
  contact_safety_facts d' = contact_safety_facts d /\ facts_sequence d' = facts_sequence d.
Proof.
  unfold load_state. case_match; [|by intros [= _ <-]]. case_decide; [by intros [= _ <-]|].
  intros (l & _ & Hl)%result_bind_ok. case_decide; [by injection Hl as _ <-|].
  injection Hl as _ <-. unfold self_heal_damaged_roster. by case_match.
Qed.

Lemma save_roster_facts `{C : Crypto} d r q d' : save_roster d r q = Ok d' ->
  contact_safety_facts d' = contact_safety_facts d /\ facts_sequence d' = facts_sequence d.
Proof.
  unfold save_roster. intros ([] & _ & H)%result_bind_ok.
  by apply result_bind_ok in H as (rows & _ & [= <-]).
Qed.

(** Whatever rosters are gossiped, each safety fact is written down once:
    no two facts share person, reason and version, and no two share an
    observation number. *)
Theorem safety_facts_recorded_once `{C : Crypto} d incoming dec d' :
  facts_ok d -> apply_contact_roster d incoming = Ok (dec, d') -> facts_ok d'.
Proof.
  intros Hok. unfold apply_contact_roster. destruct (contacts d !! _) as [contact|]; [|by intros [= _ <-]].
  intros ([st d1] & [Hl1 Hl2]%load_state_facts & H)%result_bind_ok.
  apply (facts_ok_tables _ _ Hl1 Hl2) in Hok. set (cs := core_roster_safety_changes _ _ _) in H.
  apply (record_changes_facts_ok (person_id incoming) d1 cs) in Hok. revert Hok H.
  generalize (record_changes d1 (person_id incoming) cs). intros d2 Hok H. destruct (outcome _).
  - apply result_bind_ok in H as (d3 & [E1 E2]%save_roster_facts & H).
    apply (facts_ok_tables _ _ E1 E2) in Hok. injection H as _ <-.
    destruct (held st); [case_match|]; done.
  - by injection H as _ <-.
  - by injection H as _ <-.
Qed.

Lemma safety_facts_recorded_once_witness : facts_ok toy_db2.
Proof.
  eapply (safety_facts_recorded_once (C := toy_crypto)
    (match run_ops (C := toy_crypto) toy_db [Gossip toy_roster1] with Ok d => d | Err _ => toy_db end)
    toy_roster2).
  - vm_compute. repeat constructor.
  - vm_compute. reflexivity.
Defined.
