(* ===== verification/Message.v ===== *)
(** Message bodies: the kinds and capabilities, and the sealed-body codecs for
    messages with their extensions, receipts and profile syncs
    ([core/src/protocol.rs]). *)
From stdpp Require Import base numbers list strings.
From S2P Require Import Prelude Wire StdModel Content RosterCodec.

(** * Kinds and capabilities *)

Definition KIND_TEXT : Z := 1.
Definition KIND_RECEIPT : Z := 2.
Definition KIND_FRIEND_REQUEST : Z := 3.
Definition KIND_GROUP_INVITE : Z := 4.
Definition KIND_PROFILE_SYNC : Z := 5.
Definition KIND_FRIEND_DIRECTORY : Z := 6.
Definition KIND_INTRODUCED_FRIEND_REQUEST : Z := 7.
Definition KIND_LAN_ENDPOINT_HINT : Z := 8.
Definition KIND_RELAY_UPDATE : Z := 9.
Definition KIND_SYNC_HISTORY : Z := 10.
Definition KIND_SYNC_WATERMARK : Z := 11.
Definition KIND_SYNC_CONTACTS : Z := 12.
Definition KIND_SYNC_OWN_ROSTER : Z := 13.
Definition KIND_SYNC_GROUPS : Z := 14.
Definition KIND_SYNC_SETTINGS : Z := 15.
Definition KIND_ATTACHMENT_MANIFEST : Z := 16.
Definition KIND_ATTACHMENT_CHUNK : Z := 17.
Definition KIND_REACTION : Z := 18.
Definition KIND_GROUP_METADATA_UPDATE : Z := 19.
Definition KIND_SYNC_DIGEST : Z := 20.
Definition KIND_ROSTER_GOSSIP : Z := 21.

Definition core_is_sync_record_kind (kind : Z) : bool :=
  existsb (Z.eqb kind)
    [KIND_SYNC_HISTORY; KIND_SYNC_WATERMARK; KIND_SYNC_CONTACTS; KIND_SYNC_OWN_ROSTER;
     KIND_SYNC_GROUPS; KIND_SYNC_SETTINGS; KIND_SYNC_DIGEST].

Definition CAP_ACKS_HIDDEN_KINDS : Z := 1.
Definition CAP_RELAY_UPDATE : Z := Z.shiftl 1 1.
Definition CAP_MULTI_DEVICE : Z := Z.shiftl 1 2.
Definition CAP_ROSTER_GOSSIP : Z := Z.shiftl 1 3.
Definition CAP_OWN_ROSTER_NOTICE : Z := Z.shiftl 1 4.

Definition core_own_capabilities : Z :=
  Z.lor CAP_ACKS_HIDDEN_KINDS (Z.lor CAP_RELAY_UPDATE (Z.lor CAP_MULTI_DEVICE
    (Z.lor CAP_ROSTER_GOSSIP CAP_OWN_ROSTER_NOTICE))).

Definition HIDDEN_SPRAY_KINDS : list Z :=
  [KIND_FRIEND_REQUEST; KIND_PROFILE_SYNC; KIND_FRIEND_DIRECTORY;
   KIND_INTRODUCED_FRIEND_REQUEST; KIND_RELAY_UPDATE; KIND_ROSTER_GOSSIP].

Definition core_is_hidden_spray_kind (kind : Z) : bool := existsb (Z.eqb kind) HIDDEN_SPRAY_KINDS.

Definition hidden_ack_capability (kind : Z) : option Z :=
  if kind =? KIND_RELAY_UPDATE then Some CAP_RELAY_UPDATE
  else if kind =? KIND_ROSTER_GOSSIP then Some CAP_ROSTER_GOSSIP
  else if existsb (Z.eqb kind) [KIND_FRIEND_REQUEST; KIND_PROFILE_SYNC; KIND_FRIEND_DIRECTORY;
                                KIND_INTRODUCED_FRIEND_REQUEST] then Some CAP_ACKS_HIDDEN_KINDS
  else None.

Definition core_kind_persists_msg_id_row (kind : Z) : bool :=
  existsb (Z.eqb kind)
    [KIND_TEXT; KIND_ATTACHMENT_MANIFEST; KIND_REACTION; KIND_GROUP_METADATA_UPDATE].

Definition RECEIPT_TYPE_DELIVERED : Z := 1.
Definition RECEIPT_TYPE_READ : Z := 2.
Definition GROUP_ID_LEN : Z := 16.
Definition MSG_ID_LEN : Z := 16.
Definition MESSAGE_EXTENSION_REPLY_TO_MSG_ID : Z := 1.
Definition MESSAGE_EXTENSION_SENDER_DEVICE_ID : Z := 32.
Definition MESSAGE_EXTENSION_SENDER_ROSTER_HEAD : Z := 33.
Definition PROFILE_SYNC_VERSION : Z := 2.
Definition PROFILE_SYNC_MAX_AVATAR_BYTES : Z := 64 * 1024.
Definition PROFILE_SYNC_MAX_NAME_BYTES : Z := 128.

(** The cursor's errors in [protocol.rs]. *)
#[global] Instance core_error_reader : Reader CoreError :=
  {| truncated := Malformed "truncated: need more byte(s)";
     trailing := Malformed "unexpected trailing byte(s) after decoding" |}.

(** * Receipts *)

Record ReceiptContent : Type := mk_receipt {
  rc_chat_id : bytes;
  rc_sender_user_id : bytes;
  rc_lamport : Z;
  receipt_type : Z;
  rc_group_id : option bytes;
}.

Definition validate_receipt_content (c : ReceiptContent) : result CoreError unit :=
  _ ← ensure ((receipt_type c =? RECEIPT_TYPE_DELIVERED) || (receipt_type c =? RECEIPT_TYPE_READ))
        (Malformed "invalid receipt type");
  _ ← ensure (rc_lamport c <=? I64_MAX) (Malformed "receipt lamport exceeds the supported range");
  match rc_group_id c with
  | Some g => ensure (blen g =? GROUP_ID_LEN) (Malformed "group receipt id must be exactly 16 bytes")
  | None => Ok tt
  end.

Definition receipt_bytes (c : ReceiptContent) : bytes :=
  write_bytes16 (rc_chat_id c) ++ write_bytes16 (rc_sender_user_id c)
  ++ be_bytes 8 (rc_lamport c) ++ push_u8 (receipt_type c)
  ++ match rc_group_id c with Some g => write_bytes16 g | None => [] end.

Definition encode_receipt_content (c : ReceiptContent) : result CoreError bytes :=
  _ ← validate_receipt_content c;
  _ ← ensure (negb ((U16_MAX <? blen (rc_chat_id c)) || (U16_MAX <? blen (rc_sender_user_id c))))
        (Malformed "receipt identity is too long");
  Ok (receipt_bytes c).

Definition read_receipt : reader CoreError ReceiptContent :=
  chat_id ← Cursor.take_bytes16;
  sender_user_id ← Cursor.take_bytes16;
  lamport ← Cursor.take_u64;
  ty ← Cursor.take_u8;
  finished ← Cursor.is_finished;
  group_id ← (if finished : bool then mret None
              else g ← Cursor.take_bytes16; mret (Some g));
  _ ← Cursor.finish;
  let content := mk_receipt chat_id sender_user_id lamport ty group_id in
  _ ← lift (validate_receipt_content content);
  mret content.

Definition decode_receipt_content (bs : bytes) : result CoreError ReceiptContent :=
  Cursor.run read_receipt bs.

(** * Message bodies *)

Record MessageBody : Type := mk_body {
  kind : Z;
  chat_id : bytes;
  lamport : Z;
  timestamp : Z;
  content : bytes;
}.

Record ExtendedMessageBody : Type := mk_extended {
  body : MessageBody;
  reply_to_msg_id : option bytes;
  sender_device_id : option bytes;
  sender_roster_head : option bytes;
}.

Definition validate_message_body_fields (kind : Z) (chat_id : bytes) (lamport : Z) (content : bytes)
  : result CoreError unit :=
  _ ← ensure (lamport <=? I64_MAX) (Malformed "message lamport exceeds the supported range");
  if kind =? KIND_RECEIPT then
    receipt ← decode_receipt_content content;
    ensure (bool_decide (rc_chat_id receipt = chat_id))
      (Malformed "receipt chat id does not match its message body")
  else if kind =? KIND_ATTACHMENT_MANIFEST then
    ensure (bool_decide (is_Some (decode_attachment_payload content)))
      (Malformed "invalid attachment payload")
  else if kind =? KIND_REACTION then
    ensure (bool_decide (is_Some (decode_reaction_payload content)))
      (Malformed "invalid reaction payload")
  else if kind =? KIND_ROSTER_GOSSIP then
    _ ← core_decode_roster content; Ok tt
  else Ok tt.

Definition message_bytes (b : MessageBody) : bytes :=
  push_u8 (kind b) ++ write_bytes16 (chat_id b) ++ be_bytes 8 (lamport b)
  ++ be_bytes 8 (timestamp b) ++ write_bytes32 (content b).

Definition encode_message_body (b : MessageBody) : result CoreError bytes :=
  _ ← validate_message_body_fields (kind b) (chat_id b) (lamport b) (content b);
  _ ← ensure (negb (U16_MAX <? blen (chat_id b))) (Malformed "message chat id is too long");
  _ ← ensure (negb (U32_MAX <? blen (content b))) (Malformed "message content is too long");
  Ok (message_bytes b).

(** One type-length-value extension. *)
Definition tlv (ty : Z) (value : bytes) : bytes := push_u8 ty ++ write_bytes16 value.

Definition push_extension (out : bytes) (extension_type : Z) (value : bytes) (expected_len : Z)
  (field : string) : result CoreError bytes :=
  _ ← ensure (blen value =? expected_len) (Malformed (field ++ " must be exactly its width")%string);
  Ok (out ++ push_u8 extension_type ++ be_bytes 2 expected_len ++ value).

Definition push_optional (out : bytes) (ty : Z) (value : option bytes) (expected_len : Z)
  (field : string) : result CoreError bytes :=
  match value with Some v => push_extension out ty v expected_len field | None => Ok out end.

Definition encode_message_body_extended (b : MessageBody) (reply device head : option bytes)
  : result CoreError bytes :=
  out ← encode_message_body b;
  out ← push_optional out MESSAGE_EXTENSION_REPLY_TO_MSG_ID reply MSG_ID_LEN "reply_to_msg_id";
  out ← push_optional out MESSAGE_EXTENSION_SENDER_DEVICE_ID device DEVICE_ID_LEN "sender_device_id";
  push_optional out MESSAGE_EXTENSION_SENDER_ROSTER_HEAD head ROSTER_HEAD_HASH_LEN "sender_roster_head".

Definition encode_message_body_with_reply (b : MessageBody) (reply : bytes) : result CoreError bytes :=
  encode_message_body_extended b (Some reply) None None.

(** The three extension slots of the decoding loop. *)
Record slots : Type := mk_slots { s_reply : option bytes; s_device : option bytes; s_head : option bytes }.

Definition take_extension (slot : option bytes) (value : bytes) (expected_len : Z) (field : string)
  : result CoreError (option bytes) :=
  _ ← ensure (blen value =? expected_len)
        (Malformed (field ++ " extension must be exactly its width")%string);
  _ ← ensure (bool_decide (slot = None)) (Malformed ("duplicate " ++ field ++ " extension")%string);
  Ok (Some value).

Definition place_extension (s : slots) (ty : Z) (value : bytes) : result CoreError slots :=
  if ty =? MESSAGE_EXTENSION_REPLY_TO_MSG_ID then
    v ← take_extension (s_reply s) value MSG_ID_LEN "reply-to";
    Ok (mk_slots v (s_device s) (s_head s))
  else if ty =? MESSAGE_EXTENSION_SENDER_DEVICE_ID then
    v ← take_extension (s_device s) value DEVICE_ID_LEN "sender device id";
    Ok (mk_slots (s_reply s) v (s_head s))
  else if ty =? MESSAGE_EXTENSION_SENDER_ROSTER_HEAD then
    v ← take_extension (s_head s) value ROSTER_HEAD_HASH_LEN "sender roster head";
    Ok (mk_slots (s_reply s) (s_device s) v)
  else Ok s.

(** [while !cursor.is_finished()]; every pass consumes at least three bytes, so
    the unread length bounds the passes. *)
Fixpoint read_extensions (fuel : nat) (s : slots) : reader CoreError slots :=
  match fuel with
  | O => fail_ truncated
  | S fuel =>
      finished ← Cursor.is_finished;
      if finished : bool then mret s else
      ty ← Cursor.take_u8;
      len ← Cursor.take_u16;
      value ← Cursor.take len;
      s ← lift (place_extension s ty value);
      read_extensions fuel s
  end.

Definition read_all_extensions : reader CoreError slots := fun c =>
  read_extensions (S (length (c_data c) - c_pos c)) (mk_slots None None None) c.

Definition read_message : reader CoreError ExtendedMessageBody :=
  kind ← Cursor.take_u8;
  chat_id ← Cursor.take_bytes16;
  lamport ← Cursor.take_u64;
  timestamp ← Cursor.take_i64;
  content ← Cursor.take_bytes32;
  s ← read_all_extensions;
  _ ← lift (validate_message_body_fields kind chat_id lamport content);
  mret (mk_extended (mk_body kind chat_id lamport timestamp content)
          (s_reply s) (s_device s) (s_head s)).

Definition decode_extended_message_body (bs : bytes) : result CoreError ExtendedMessageBody :=
  Cursor.run read_message bs.

Definition decode_message_body (bs : bytes) : result CoreError MessageBody :=
  extended ← decode_extended_message_body bs; Ok (body extended).

(** * Profile sync *)

Record ProfileSyncContent : Type := mk_profile {
  avatar_epoch : Z;
  name : bytes;
  avatar : bytes;
  friends_of_friends_version : Z;
  friends_of_friends_enabled : bool;
  friends_of_friends_revision : Z;
}.

Definition u8_of_bool (b : bool) : Z := if b then 1 else 0.

Definition encode_profile_sync_content (c : ProfileSyncContent) : result CoreError bytes :=
  _ ← ensure (negb (PROFILE_SYNC_MAX_NAME_BYTES <? blen (name c)))
        (Malformed "profile name exceeds 128 UTF-8 bytes");
  _ ← ensure (negb (PROFILE_SYNC_MAX_AVATAR_BYTES <? blen (avatar c)))
        (Malformed "profile avatar exceeds 65536 bytes");
  Ok (push_u8 PROFILE_SYNC_VERSION ++ be_bytes 8 (avatar_epoch c) ++ write_bytes16 (name c)
      ++ write_bytes32 (avatar c) ++ push_u8 (friends_of_friends_version c)
      ++ push_u8 (u8_of_bool (friends_of_friends_enabled c))
      ++ be_bytes 8 (friends_of_friends_revision c)).

Definition read_profile_tail (version : Z) : reader CoreError (Z * bool * Z) :=
  if 2 <=? version then
    v ← Cursor.take_u8;
    flag ← Cursor.take_u8;
    _ ← guard_ ((flag =? 0) || (flag =? 1)) (Malformed "invalid friends-of-friends enabled value");
    revision ← Cursor.take_u64;
    mret (v, flag =? 1, revision)
  else mret (0, false, 0).

Definition read_profile : reader CoreError ProfileSyncContent :=
  version ← Cursor.take_u8;
  _ ← guard_ ((version =? 1) || (version =? PROFILE_SYNC_VERSION))
        (Malformed "unknown profile-sync version");
  avatar_epoch ← Cursor.take_i64;
  name ← Cursor.take_bytes16;
  _ ← guard_ (negb (PROFILE_SYNC_MAX_NAME_BYTES <? blen name))
        (Malformed "profile name exceeds 128 UTF-8 bytes");
  _ ← guard_ (utf8_valid name) (Malformed "invalid utf-8");
  avatar_len ← Cursor.take_u32;
  _ ← guard_ (negb (PROFILE_SYNC_MAX_AVATAR_BYTES <? avatar_len)) (Malformed "profile avatar too large");
  avatar ← Cursor.take avatar_len;
  '(v, e, r) ← read_profile_tail version;
  _ ← Cursor.finish;
  mret (mk_profile avatar_epoch name avatar v e r).

Definition decode_profile_sync_content (bs : bytes) : result CoreError ProfileSyncContent :=
  Cursor.run read_profile bs.

(** * The kind tables agree *)

Definition all_kinds : list Z := Z.of_nat <$> List.seq 0 256.

(** The tables over message kinds agree: a kind has a capability to be
    acknowledged under exactly when it is a hidden spray kind, this build
    advertises that capability, and no hidden or sync kind is one whose rows
    carry a message id. *)
Theorem kind_tables_agree k : in_u8 k ->
  core_is_hidden_spray_kind k = bool_decide (is_Some (hidden_ack_capability k)) /\
  (forall cap, hidden_ack_capability k = Some cap -> Z.land core_own_capabilities cap = cap) /\
  (core_is_hidden_spray_kind k = true -> core_kind_persists_msg_id_row k = false) /\
  (core_is_sync_record_kind k = true ->
     core_kind_persists_msg_id_row k = false /\ core_is_hidden_spray_kind k = false).
Proof.
  intros Hk.
  assert (Forall (fun k => core_is_hidden_spray_kind k = bool_decide (is_Some (hidden_ack_capability k)) /\
    match hidden_ack_capability k with
    | Some cap => Z.land core_own_capabilities cap = cap | None => True end /\
    (core_is_hidden_spray_kind k && core_kind_persists_msg_id_row k = false) /\
    (core_is_sync_record_kind k && (core_kind_persists_msg_id_row k || core_is_hidden_spray_kind k)
       = false)) all_kinds) as Hall by (vm_compute; repeat constructor).
  rewrite Forall_forall in Hall. destruct (Hall k) as (H1 & H2 & H3 & H4).
  { apply list_elem_of_fmap. exists (Z.to_nat k). split; [unfold in_u8 in Hk; lia|].
    apply elem_of_seq. ints. }
  split_and!; [done| | |].
  - intros cap Hc. by rewrite Hc in H2.
  - intros Hs. by rewrite Hs in H3.
  - intros Hs. rewrite Hs in H4. by apply orb_false_iff in H4.
Qed.

Lemma kind_tables_agree_witness :
  core_is_hidden_spray_kind KIND_ROSTER_GOSSIP =
    bool_decide (is_Some (hidden_ack_capability KIND_ROSTER_GOSSIP)).
Proof. apply kind_tables_agree. vm_compute. split; discriminate. Defined.

(** * Receipts round-trip *)

Definition receipt_typed (c : ReceiptContent) : Prop :=
  in_u64 (rc_lamport c) /\ in_u8 (receipt_type c).

Lemma parses_receipt c : receipt_typed c -> validate_receipt_content c = Ok tt ->
  blen (rc_chat_id c) <= U16_MAX -> blen (rc_sender_user_id c) <= U16_MAX ->
  parses read_receipt (receipt_bytes c) c [].
Proof.
  intros [Hl Ht] Hv Hc Hs. unfold receipt_bytes, read_receipt.
  do 4 (parse_step; [done|]).
  destruct c as [ci su la ty [g|]]; cbn [rc_group_id rc_chat_id rc_sender_user_id rc_lamport receipt_type] in *.
  - eapply parses_bind; [apply parses_is_finished|]. rewrite bool_decide_false.
    2:{ intros Hn%(f_equal length). by rewrite length_write_bytes16 in Hn. }
    assert (blen g = GROUP_ID_LEN) as Hg.
    { unfold validate_receipt_content in Hv. cbn in Hv. inv_ok. by bools. }
    eapply parses_bind.
    { eapply parses_bind; [|apply parses_ret]. rewrite <-(app_nil_r (write_bytes16 g)).
      apply parses_bytes16. rewrite Hg. done. }
    parse_step. eapply parses_bind; [by apply parses_lift|]. apply parses_ret.
  - eapply parses_bind; [apply parses_is_finished|]. rewrite bool_decide_true by done.
    eapply parses_bind; [apply parses_ret|].
    parse_step. eapply parses_bind; [by apply parses_lift|]. apply parses_ret.
Qed.

Lemma receipt_encoded c bs : encode_receipt_content c = Ok bs <->
  bs = receipt_bytes c /\ validate_receipt_content c = Ok tt /\
  blen (rc_chat_id c) <= U16_MAX /\ blen (rc_sender_user_id c) <= U16_MAX.
Proof.
  unfold encode_receipt_content. split.
  - intros H. inv_ok. bools. destruct a. done.
  - intros (-> & -> & ? & ?). cbn. by rewrite !(proj2 (Z.ltb_ge _ _)) by done.
Qed.

Lemma receipt_read_inv c x c' r : cursor_at c r -> read_receipt c = Ok (x, c') ->
  encode_receipt_content x = Ok r /\ receipt_typed x.
Proof.
  intros Hc H. unfold read_receipt in H. read_inv.
  destruct (bool_decide (_ = [])) eqn:Hf; bools; read_inv; subst; cbn;
    (split; [|done]); apply receipt_encoded; unfold receipt_bytes; cbn;
    repeat match goal with u : unit |- _ => destruct u end; rewrite ?app_nil_r; done.
Qed.

(** Receipts have one encoding and it reads back: a receipt encodes to given
    bytes exactly when those bytes decode to it. *)
Theorem receipt_codec_exact c bs : receipt_typed c ->
  encode_receipt_content c = Ok bs <-> decode_receipt_content bs = Ok c.
Proof.
  intros Ht. unfold decode_receipt_content. split.
  - intros (-> & ? & ? & ?)%receipt_encoded. eapply parses_run. by apply parses_receipt.
  - intros (c' & H)%run_inv. by apply (receipt_read_inv _ _ _ bs) in H as [? _];
      [|apply cursor_at_new].
Qed.

Definition sample_receipt : ReceiptContent :=
  mk_receipt [x01] [x02; x03] 9 RECEIPT_TYPE_READ (Some (replicate 16 x05)).

Lemma receipt_codec_exact_witness :
  encode_receipt_content sample_receipt = Ok (receipt_bytes sample_receipt) <->
  decode_receipt_content (receipt_bytes sample_receipt) = Ok sample_receipt.
Proof. apply receipt_codec_exact. split; vm_compute; split; discriminate. Defined.

(** * Extensions *)

Definition ext_typed (e : Z * bytes) : Prop := in_u8 e.1 /\ blen e.2 <= U16_MAX.

Definition tlv_bytes (l : list (Z * bytes)) : bytes := concat ((fun e => tlv e.1 e.2) <$> l).

Fixpoint place_all (s : slots) (l : list (Z * bytes)) : result CoreError slots :=
  match l with [] => Ok s | e :: l => s ← place_extension s e.1 e.2; place_all s l end.

Lemma place_all_app s l1 l2 s1 : place_all s l1 = Ok s1 -> place_all s (l1 ++ l2) = place_all s1 l2.
Proof.
  revert s. induction l1 as [|e l1 IH]; intros s; [by intros [= <-]|]. cbn.
  intros (s' & -> & H)%result_bind_ok. cbn. by apply IH.
Qed.

Lemma length_tlv ty v : length (tlv ty v) = (3 + length v)%nat.
Proof. unfold tlv. by rewrite length_app, length_push_u8, length_write_bytes16. Qed.

Lemma parses_extensions l : Forall ext_typed l -> forall fuel s s',
  place_all s l = Ok s' -> (length l < fuel)%nat ->
  parses (read_extensions fuel s) (tlv_bytes l) s' [].
Proof.
  induction 1 as [|[ty v] l [Hty Hv] _ IH]; intros fuel s s' Hp Hf; (destruct fuel as [|fuel]; [lia|]).
  - injection Hp as <-. cbn [read_extensions].
    eapply parses_bind; [apply parses_is_finished|]. rewrite bool_decide_true by done. apply parses_ret.
  - cbn in Hp, Hf, Hty, Hv. apply result_bind_ok in Hp as (s1 & E1 & Hp). cbn [read_extensions].
    change (tlv_bytes ((ty, v) :: l)) with (tlv ty v ++ tlv_bytes l).
    eapply parses_bind; [apply parses_is_finished|]. rewrite bool_decide_false.
    2:{ intros Hn%(f_equal length). by rewrite length_app, length_tlv in Hn. }
    unfold tlv. rewrite write_bytes16_eq. parse_step; [done|].
    parse_step; [pose proof (blen_nonneg v); ints|]. parse_step; [done|].
    parse_step; [done|]. apply IH; [done|lia].
Qed.

Lemma length_tlv_bytes l : (length l <= length (tlv_bytes l))%nat.
Proof.
  induction l as [|[ty v] l IH]; [done|].
  change (tlv_bytes ((ty, v) :: l)) with (tlv ty v ++ tlv_bytes l).
  rewrite length_app, length_tlv. cbn. lia.
Qed.

Lemma parses_all_extensions l s : Forall ext_typed l ->
  place_all (mk_slots None None None) l = Ok s ->
  parses read_all_extensions (tlv_bytes l) s [].
Proof.
  intros Hl Hs c Hc. apply (parses_extensions l Hl _ _ _ Hs); [|done].
  pose proof (cursor_at_pos _ _ Hc). pose proof (length_tlv_bytes l). lia.
Qed.

(** The loop's fuel never runs out: more of it changes nothing. *)
Lemma read_extensions_fuel f1 : forall f2 s c r, cursor_at c r ->
  (length r < f1)%nat -> (length r < f2)%nat -> read_extensions f1 s c = read_extensions f2 s c.
Proof.
  induction f1 as [|f1 IH]; intros [|f2] s c r Hc H1 H2; try lia. cbn [read_extensions].
  unfold mbind, reader_bind. destruct (parses_is_finished (E:=CoreError) r c Hc) as (c0 & E0 & Hc0).
  rewrite E0. destruct (bool_decide (r = [])); [done|].
  destruct (Cursor.take_u8 c0) as [[ty c1]|] eqn:E1; [|done].
  apply (u8_inv _ _ _ _ Hc0) in E1 as (r1 & -> & _ & Hc1).
  destruct (Cursor.take_u16 c1) as [[n c2]|] eqn:E2; [|done].
  apply (u16_inv _ _ _ _ Hc1) in E2 as (r2 & -> & Hn & Hc2).
  destruct (Cursor.take n c2) as [[v c3]|] eqn:E3; [|done].
  apply (take_inv _ _ _ _ r2) in E3 as (r3 & -> & _ & Hc3); [|apply Hn|done].
  unfold lift. destruct (place_extension s ty v) as [s'|]; [|done].
  rewrite !length_app, length_push_u8, length_be_bytes in *. apply (IH f2 s' c3 r3 Hc3); lia.
Qed.

(** ** Message bodies *)

Definition body_typed (b : MessageBody) : Prop :=
  in_u8 (kind b) /\ in_u64 (lamport b) /\ in_i64 (timestamp b).

(** The extensions a body is written with, in their fixed order. *)
Definition ext (ty : Z) (v : option bytes) : list (Z * bytes) :=
  match v with Some v => [(ty, v)] | None => [] end.

Definition extensions (reply device head : option bytes) : list (Z * bytes) :=
  ext MESSAGE_EXTENSION_REPLY_TO_MSG_ID reply ++ ext MESSAGE_EXTENSION_SENDER_DEVICE_ID device
  ++ ext MESSAGE_EXTENSION_SENDER_ROSTER_HEAD head.

Lemma push_optional_ok out ty v n field out' :
  push_optional out ty v n field = Ok out' <->
  out' = out ++ tlv_bytes (ext ty v) /\ match v with Some v => blen v = n | None => True end.
Proof.
  destruct v as [v|]; cbn [push_optional ext].
  - unfold push_extension, tlv_bytes. cbn. unfold tlv. rewrite write_bytes16_eq, app_nil_r. split.
    + intros H. inv_ok. bools. by subst.
    + intros [-> <-]. by rewrite Z.eqb_refl.
  - unfold tlv_bytes. cbn. rewrite app_nil_r. naive_solver.
Qed.

Lemma tlv_bytes_app l1 l2 : tlv_bytes (l1 ++ l2) = tlv_bytes l1 ++ tlv_bytes l2.
Proof. unfold tlv_bytes. by rewrite fmap_app, concat_app. Qed.

Definition opt_len (v : option bytes) (n : Z) : Prop :=
  match v with Some v => blen v = n | None => True end.

Lemma extended_encoded b reply device head bs :
  encode_message_body_extended b reply device head = Ok bs ->
  bs = message_bytes b ++ tlv_bytes (extensions reply device head) /\
  validate_message_body_fields (kind b) (chat_id b) (lamport b) (content b) = Ok tt /\
  blen (chat_id b) <= U16_MAX /\ blen (content b) <= U32_MAX /\
  opt_len reply MSG_ID_LEN /\ opt_len device DEVICE_ID_LEN /\ opt_len head ROSTER_HEAD_HASH_LEN.
Proof.
  unfold encode_message_body_extended, encode_message_body. intros H. inv_ok. bools.
  apply push_optional_ok in Ha0 as [-> ?]. apply push_optional_ok in Ha1 as [-> ?].
  apply push_optional_ok in H as [-> ?]. destruct a2.
  unfold extensions. rewrite !tlv_bytes_app, <-!app_assoc. done.
Qed.

Lemma place_known reply device head :
  opt_len reply MSG_ID_LEN -> opt_len device DEVICE_ID_LEN -> opt_len head ROSTER_HEAD_HASH_LEN ->
  place_all (mk_slots None None None) (extensions reply device head) = Ok (mk_slots reply device head).
Proof.
  intros Hr Hd Hh. unfold extensions.
  destruct reply as [r|], device as [d|], head as [h|]; cbn in *;
    unfold take_extension; rewrite ?Hr, ?Hd, ?Hh; done.
Qed.

Definition unknown_ext (e : Z * bytes) : Prop :=
  e.1 <> MESSAGE_EXTENSION_REPLY_TO_MSG_ID /\ e.1 <> MESSAGE_EXTENSION_SENDER_DEVICE_ID
  /\ e.1 <> MESSAGE_EXTENSION_SENDER_ROSTER_HEAD.

Lemma place_unknown s l : Forall unknown_ext l -> place_all s l = Ok s.
Proof.
  induction 1 as [|[ty v] l (H1 & H2 & H3) _ IH]; [done|]. cbn in *. unfold place_extension.
  by rewrite !(proj2 (Z.eqb_neq _ _)) by done.
Qed.

Lemma extensions_typed reply device head :
  opt_len reply MSG_ID_LEN -> opt_len device DEVICE_ID_LEN -> opt_len head ROSTER_HEAD_HASH_LEN ->
  Forall ext_typed (extensions reply device head).
Proof.
  intros Hr Hd Hh. unfold extensions, ext_typed, ext.
  repeat apply Forall_app_2; case_match; repeat constructor; cbn in *;
    try rewrite Hr; try rewrite Hd; try rewrite Hh; vm_compute; discriminate.
Qed.

(** A message body that encodes, with any of its private extensions, decodes
    to itself with the same extensions, and any well-formed extensions of unknown
    type appended by a newer build are skipped. *)
Theorem message_body_roundtrip b reply device head bs later :
  body_typed b -> encode_message_body_extended b reply device head = Ok bs ->
  Forall ext_typed later -> Forall unknown_ext later ->
  decode_extended_message_body (bs ++ tlv_bytes later) = Ok (mk_extended b reply device head).
Proof.
  intros (Hk & Hl & Ht) (-> & Hv & Hc & Hco & Hr & Hd & Hh)%extended_encoded Hlt Hlu.
  unfold decode_extended_message_body. eapply parses_run. unfold read_message, message_bytes.
  rewrite <-app_assoc, <-tlv_bytes_app. repeat (parse_step; [done|]).
  eapply parses_bind.
  - apply parses_all_extensions; [by apply Forall_app_2; [apply extensions_typed|]|].
    erewrite place_all_app; [by apply place_unknown|by apply place_known].
  - parse_step; [done|]. cbn. destruct b. apply parses_ret.
Qed.

Definition sample_body : MessageBody := mk_body KIND_TEXT [x01; x02] 5 (-7) [x68; x69].

Lemma message_body_roundtrip_witness :
  exists bs, encode_message_body_extended sample_body (Some (replicate 16 x09)) None None = Ok bs /\
  decode_extended_message_body (bs ++ tlv_bytes [(200, [x01])]) =
    Ok (mk_extended sample_body (Some (replicate 16 x09)) None None).
Proof.
  eexists. split; [vm_compute; reflexivity|].
  apply (message_body_roundtrip sample_body).
  - repeat split; vm_compute; discriminate.
  - vm_compute. reflexivity.
  - repeat constructor; vm_compute; discriminate.
  - repeat constructor; vm_compute; discriminate.
Defined.

(** * Profiles *)

Definition profile_typed (c : ProfileSyncContent) : Prop :=
  in_i64 (avatar_epoch c) /\ utf8_valid (name c) = true /\ in_u8 (friends_of_friends_version c)
  /\ in_u64 (friends_of_friends_revision c).

(** A profile sync that encodes decodes to itself. *)
Theorem profile_sync_roundtrip c bs : profile_typed c ->
  encode_profile_sync_content c = Ok bs -> decode_profile_sync_content bs = Ok c.
Proof.
  intros (He & Hn & Hv & Hr) Hb. unfold encode_profile_sync_content in Hb. inv_ok. bools.
  unfold decode_profile_sync_content. eapply parses_run. unfold read_profile.
  rewrite write_bytes32_eq. pose proof (blen_nonneg (avatar c)).
  unfold PROFILE_SYNC_MAX_NAME_BYTES, PROFILE_SYNC_MAX_AVATAR_BYTES in *.
  parse_step; [done|]. parse_step; [done|]. parse_step; [done|].
  parse_step; [ints|]. parse_step; [apply negb_true_iff, Z.ltb_ge; lia|]. parse_step; [done|].
  parse_step; [ints|]. parse_step; [apply negb_true_iff, Z.ltb_ge; lia|]. parse_step; [done|].
  eapply parses_bind with (r1 := []) (a := (_, _, _)).
  - unfold read_profile_tail. cbn [Z.leb PROFILE_SYNC_VERSION Z.compare Pos.compare Pos.compare_cont].
    parse_step; [done|]. parse_step; [by destruct (friends_of_friends_enabled c)|].
    parse_step; [by destruct (friends_of_friends_enabled c)|].
    rewrite <-(app_nil_r (be_bytes 8 _)). parse_step; [done|]. apply parses_ret.
  - parse_step. destruct c as [? ? ? ? [|] ?]; apply parses_ret.
Qed.

Lemma profile_sync_roundtrip_witness :
  exists bs, encode_profile_sync_content (mk_profile (-1) [x61] [x01] 1 true 3) = Ok bs /\
  decode_profile_sync_content bs = Ok (mk_profile (-1) [x61] [x01] 1 true 3).
Proof.
  eexists. split; [vm_compute; reflexivity|]. apply profile_sync_roundtrip.
  - repeat split; vm_compute; try discriminate; reflexivity.
  - vm_compute. reflexivity.
Defined.
