(* ===== verification/Frames.v ===== *)
(** Link frames: the encoders and [parse_frame], the local-address rule for LAN
    endpoint hints, and the derived ids and hints of envelope headers
    ([core/src/protocol.rs], [core_device_namespace_id] of
    [core/src/device_roster.rs]). *)
From Stdlib Require String.
From stdpp Require Import base numbers list strings.
From S2P Require Import Prelude Wire StdModel Framing Crypto RosterCodec Message.

Definition FRAME_TYPE_HELLO : Z := 1.
Definition FRAME_TYPE_ENVELOPE : Z := 2.
Definition FRAME_TYPE_DIGEST : Z := 3.
Definition FRAME_TYPE_LAN_ENDPOINT : Z := 4.
Definition FRAME_TYPE_TRANSPORT_PROBE : Z := 5.
Definition FRAME_TYPE_HELLO2 : Z := 6.
Definition FRAME_TYPE_OWN_ROSTER : Z := 7.
Definition HELLO2_USER_ID_LEN : Z := 16.
Definition RECIPIENT_HINT_LEN : Z := 8.
Definition LAN_INSTANCE_TOKEN_LEN : Z := 8.
Definition LAN_ENDPOINT_VERSION : Z := 1.
Definition LAN_ENDPOINT_CONTENT_VERSION : Z := 1.
Definition TRANSPORT_PROBE_VERSION : Z := 1.
Definition MAX_LAN_HOST_BYTES : Z := U8_MAX.
Definition MAX_LAN_HOST_ZONE_BYTES : Z := 32.
Definition MS_PER_DAY : Z := 24 * 60 * 60 * 1000.
Definition DEFAULT_HOP_TTL : Z := 7.
Definition DEFAULT_EXPIRY_MS : Z := 7 * 24 * 60 * 60 * 1000.

(** * Local addresses *)

(** [Ipv4Addr::is_private] and [is_link_local], and 100.64/10 *)
Definition is_local_ipv4 (a b : Z) : bool :=
  ((a =? 10) || ((a =? 172) && (16 <=? b) && (b <=? 31)) || ((a =? 192) && (b =? 168)))
  || ((a =? 169) && (b =? 254))
  || ((a =? 100) && ((64 <=? b) && (b <=? 127))).

Definition segment0 (segments : list Z) : Z := hd 0 segments.

Definition is_ipv6_link_local (segments : list Z) : bool :=
  Z.land (segment0 segments) 65472 =? 65152.

Definition is_local_ipv6 (segments : list Z) : bool :=
  is_ipv6_link_local segments || (Z.land (segment0 segments) 65024 =? 64512).

Definition zone_char (b : byte) : bool :=
  is_ascii_alphanumeric (Z_of_byte b)
  || bool_decide (b = x2d) || bool_decide (b = x5f) || bool_decide (b = x2e).

Definition plausible_zone (zone : bytes) : bool :=
  negb (bool_decide (zone = [])) && (blen zone <=? MAX_LAN_HOST_ZONE_BYTES) && forallb zone_char zone.

(** [host.split_once('%')] *)
Definition split_zone (host : bytes) : bytes * option bytes :=
  match split_once x25 host with
  | Some (literal, zone) => (literal, Some zone)
  | None => (host, None)
  end.

Definition is_local_lan_host (host : bytes) : bool :=
  let '(literal, zone) := split_zone host in
  if match zone with Some z => negb (plausible_zone z) | None => false end then false else
  match parse_ip literal with
  | Some (V4 a b _ _) => bool_decide (zone = None) && is_local_ipv4 a b
  | Some (V6 s) => (bool_decide (zone = None) || is_ipv6_link_local s) && is_local_ipv6 s
  | None => false
  end.

Definition is_reachable_lan_host (host : bytes) : bool :=
  if negb (is_local_lan_host host) then false else
  match parse_ip (split_zone host).1 with
  | Some (V6 s) => negb (is_ipv6_link_local s)
  | Some (V4 _ _ _ _) => true
  | None => false
  end.

Definition validate_lan_endpoint_fields (instance_token host : bytes) (port : Z)
  : result CoreError unit :=
  _ ← ensure (blen instance_token =? LAN_INSTANCE_TOKEN_LEN)
        (Malformed "LAN instance token must be 8 bytes");
  _ ← ensure (negb (port =? 0)) (Malformed "LAN endpoint port must be non-zero");
  _ ← ensure (negb (bool_decide (host = []) || (MAX_LAN_HOST_BYTES <? blen host) || any_whitespace host))
        (Malformed "LAN endpoint host is empty, too long, or contains whitespace");
  ensure (is_local_lan_host host) (Malformed "LAN endpoint host must be a local network address").

(** * Sealed LAN endpoint hints *)

Record LanEndpointContent : Type := mk_lan_content {
  lc_instance_token : bytes;
  lc_network_id : bytes;
  lc_host : bytes;
  lc_port : Z;
  lc_expires_at_ms : Z;
}.

Definition encode_lan_endpoint_content (c : LanEndpointContent) : result CoreError bytes :=
  _ ← validate_lan_endpoint_fields (lc_instance_token c) (lc_host c) (lc_port c);
  _ ← ensure (negb (32 <? blen (lc_network_id c))) (Malformed "LAN network id exceeds 32 bytes");
  Ok (push_u8 LAN_ENDPOINT_CONTENT_VERSION ++ lc_instance_token c ++ be_bytes 2 (lc_port c)
      ++ be_bytes 8 (lc_expires_at_ms c) ++ push_u8 (blen (lc_network_id c)) ++ lc_network_id c
      ++ push_u8 (blen (lc_host c)) ++ lc_host c).

Definition read_lan_content : reader CoreError LanEndpointContent :=
  version ← Cursor.take_u8;
  _ ← guard_ (version =? LAN_ENDPOINT_CONTENT_VERSION)
        (Malformed "unsupported LAN endpoint content version");
  instance_token ← Cursor.take LAN_INSTANCE_TOKEN_LEN;
  port ← Cursor.take_u16;
  expires_at_ms ← Cursor.take_i64;
  network_id_len ← Cursor.take_u8;
  _ ← guard_ (negb (32 <? network_id_len)) (Malformed "LAN network id exceeds 32 bytes");
  network_id ← Cursor.take network_id_len;
  host_len ← Cursor.take_u8;
  host ← Cursor.take host_len;
  _ ← guard_ (utf8_valid host) (Malformed "LAN endpoint host is not UTF-8");
  _ ← Cursor.finish;
  _ ← lift (validate_lan_endpoint_fields instance_token host port);
  mret (mk_lan_content instance_token network_id host port expires_at_ms).

Definition decode_lan_endpoint_content (bs : bytes) : result CoreError LanEndpointContent :=
  Cursor.run read_lan_content bs.

(** * Frames *)

Record DigestEntry : Type := mk_entry { sender_user_id : bytes; through_lamport : Z }.

Inductive Frame : Type :=
| Hello (user_id : bytes)
| Hello2 (user_id : bytes) (capabilities : Z)
| OwnRoster (document : bytes)
| Envelope (msg_id : bytes) (hop_ttl expiry : Z) (recipient_hint sealed : bytes)
| Digest (chat_id : bytes) (entries : list DigestEntry) (recent_msg_ids : list bytes)
| LanEndpoint (instance_token host : bytes) (port : Z)
| TransportProbe (nonce : Z) (response : bool).

Definition encode_hello (user_id : bytes) : bytes := push_u8 FRAME_TYPE_HELLO ++ user_id.

Definition encode_hello2 (user_id : bytes) (capabilities : Z) : result CoreError bytes :=
  _ ← ensure (blen user_id =? HELLO2_USER_ID_LEN) (Malformed "HELLO2 user_id must be 16 bytes");
  Ok (push_u8 FRAME_TYPE_HELLO2 ++ user_id ++ le_bytes 4 capabilities).

Definition encode_own_roster (document : bytes) : result CoreError bytes :=
  _ ← ensure (negb (bool_decide (document = []))) (Malformed "own roster notice carries no document");
  _ ← ensure (negb (MAX_P2P_FRAME_BYTES <? blen document + 1))
        (Malformed "own roster notice exceeds the frame limit");
  Ok (push_u8 FRAME_TYPE_OWN_ROSTER ++ document).

Definition encode_envelope_frame (msg_id : bytes) (hop_ttl expiry : Z) (recipient_hint sealed : bytes)
  : bytes :=
  push_u8 FRAME_TYPE_ENVELOPE ++ msg_id ++ push_u8 hop_ttl ++ be_bytes 8 expiry
  ++ recipient_hint ++ sealed.

Definition USIZE_MAX : Z := U64_MAX.

(** The checked capacity sum. *)
Definition digest_capacity (chat_id : bytes) (entries : list DigestEntry) (ids : list bytes) : Z :=
  1 + 2 + blen chat_id + 2
  + foldr (fun e n => 2 + blen (sender_user_id e) + 8 + n) 0 entries
  + 2 + blen ids * MSG_ID_LEN.

Definition digest_entry_bytes (e : DigestEntry) : bytes :=
  write_bytes16 (sender_user_id e) ++ be_bytes 8 (through_lamport e).

Definition encode_digest (chat_id : bytes) (entries : list DigestEntry) (recent_msg_ids : list bytes)
  : result CoreError bytes :=
  _ ← ensure (negb (U16_MAX <? blen chat_id)) (Malformed "digest chat_id is too long");
  _ ← ensure (negb (U16_MAX <? blen entries)) (Malformed "digest contains too many entries");
  _ ← ensure (negb (U16_MAX <? blen recent_msg_ids))
        (Malformed "digest contains too many recent message ids");
  _ ← ensure (forallb (fun e => negb (U16_MAX <? blen (sender_user_id e))) entries)
        (Malformed "digest sender_user_id is too long");
  _ ← ensure (forallb (fun id => blen id =? MSG_ID_LEN) recent_msg_ids)
        (Malformed "digest msg_id must be exactly 16 bytes");
  _ ← ensure (digest_capacity chat_id entries recent_msg_ids <=? USIZE_MAX)
        (Malformed "digest frame is too large");
  Ok (push_u8 FRAME_TYPE_DIGEST ++ write_bytes16 chat_id ++ be_bytes 2 (blen entries)
      ++ concat (digest_entry_bytes <$> entries) ++ be_bytes 2 (blen recent_msg_ids)
      ++ concat recent_msg_ids).

Definition encode_lan_endpoint (instance_token host : bytes) (port : Z) : result CoreError bytes :=
  _ ← validate_lan_endpoint_fields instance_token host port;
  Ok (push_u8 FRAME_TYPE_LAN_ENDPOINT ++ push_u8 LAN_ENDPOINT_VERSION ++ instance_token
      ++ be_bytes 2 port ++ push_u8 (blen host) ++ host).

Definition encode_transport_probe (nonce : Z) (response : bool) : bytes :=
  push_u8 FRAME_TYPE_TRANSPORT_PROBE ++ push_u8 TRANSPORT_PROBE_VERSION
  ++ push_u8 (u8_of_bool response) ++ be_bytes 8 nonce.

(** ** Parsing *)

Definition parse_hello (rest : bytes) : result CoreError Frame :=
  _ ← ensure (negb (bool_decide (rest = []))) (Malformed "HELLO frame missing user_id");
  Ok (Hello rest).

Definition parse_hello2 (rest : bytes) : result CoreError Frame :=
  _ ← ensure (negb (blen rest <? HELLO2_USER_ID_LEN + 4))
        (Malformed "HELLO2 frame too short for user_id + capabilities");
  Ok (Hello2 (take 16 rest) (le_value (take 4 (drop 16 rest)))).

Definition parse_own_roster (rest : bytes) : result CoreError Frame :=
  _ ← ensure (negb (bool_decide (rest = []))) (Malformed "own roster notice missing document");
  Ok (OwnRoster rest).

Definition read_envelope : reader CoreError Frame :=
  msg_id ← Cursor.take MSG_ID_LEN;
  hop_ttl ← Cursor.take_u8;
  expiry ← Cursor.take_i64;
  recipient_hint ← Cursor.take RECIPIENT_HINT_LEN;
  sealed ← Cursor.take_remaining;
  _ ← guard_ (negb (bool_decide (sealed = []))) (Malformed "envelope frame missing sealed payload");
  _ ← guard_ (negb (MAX_ENVELOPE_SEALED_BYTES <? blen sealed))
        (Malformed "sealed envelope exceeds its limit");
  mret (Envelope msg_id hop_ttl expiry recipient_hint sealed).

Definition read_digest_entry : reader CoreError DigestEntry :=
  sender_user_id ← Cursor.take_bytes16;
  through_lamport ← Cursor.take_u64;
  mret (mk_entry sender_user_id through_lamport).

Definition read_digest : reader CoreError Frame :=
  chat_id ← Cursor.take_bytes16;
  entry_count ← Cursor.take_u16;
  entries ← Cursor.take_many (Z.to_nat entry_count) read_digest_entry;
  recent_msg_id_count ← Cursor.take_u16;
  recent_msg_ids ← Cursor.take_many (Z.to_nat recent_msg_id_count) (Cursor.take MSG_ID_LEN);
  _ ← Cursor.finish;
  mret (Digest chat_id entries recent_msg_ids).

Definition read_lan_endpoint : reader CoreError Frame :=
  version ← Cursor.take_u8;
  _ ← guard_ (version =? LAN_ENDPOINT_VERSION) (Malformed "unsupported LAN endpoint version");
  instance_token ← Cursor.take LAN_INSTANCE_TOKEN_LEN;
  port ← Cursor.take_u16;
  host_len ← Cursor.take_u8;
  host ← Cursor.take host_len;
  _ ← Cursor.finish;
  _ ← guard_ (utf8_valid host) (Malformed "LAN endpoint host is not UTF-8");
  _ ← lift (validate_lan_endpoint_fields instance_token host port);
  mret (LanEndpoint instance_token host port).

Definition read_probe : reader CoreError Frame :=
  version ← Cursor.take_u8;
  _ ← guard_ (version =? TRANSPORT_PROBE_VERSION) (Malformed "unsupported transport probe version");
  flag ← Cursor.take_u8;
  _ ← guard_ ((flag =? 0) || (flag =? 1)) (Malformed "invalid transport probe response flag");
  nonce ← Cursor.take_u64;
  _ ← Cursor.finish;
  mret (TransportProbe nonce (flag =? 1)).

Definition parse_frame (bs : bytes) : result CoreError Frame :=
  _ ← ensure (negb (MAX_P2P_FRAME_BYTES <? blen bs)) (Malformed "frame exceeds its limit");
  match bs with
  | [] => Err (Malformed "empty frame: missing frame-type byte")
  | t :: rest =>
      let frame_type := Z_of_byte t in
      if frame_type =? FRAME_TYPE_HELLO then parse_hello rest
      else if frame_type =? FRAME_TYPE_HELLO2 then parse_hello2 rest
      else if frame_type =? FRAME_TYPE_OWN_ROSTER then parse_own_roster rest
      else if frame_type =? FRAME_TYPE_ENVELOPE then Cursor.run read_envelope rest
      else if frame_type =? FRAME_TYPE_DIGEST then Cursor.run read_digest rest
      else if frame_type =? FRAME_TYPE_LAN_ENDPOINT then Cursor.run read_lan_endpoint rest
      else if frame_type =? FRAME_TYPE_TRANSPORT_PROBE then Cursor.run read_probe rest
      else Err (Malformed "unknown frame type byte")
  end.

(** * Derived ids and hints *)

Section ids.
Context `{C : Crypto}.

(** [timestamp_ms.div_euclid(MS_PER_DAY)] *)
Definition day_number (timestamp_ms : Z) : Z := timestamp_ms / MS_PER_DAY.

Definition compute_recipient_hint (recipient_user_id : bytes) (timestamp_ms : Z) : bytes :=
  blake2b 8 (recipient_user_id ++ be_bytes 8 (day_number timestamp_ms)).

Definition FANOUT_PROLOGUE : bytes := String.list_byte_of_string "cruisemesh group fanout v1".
Definition DEVICE_FANOUT_PROLOGUE : bytes := String.list_byte_of_string "cruisemesh device fanout v1".

Definition fanout_msg_id (original_msg_id member_user_id : bytes) : bytes :=
  blake2b 16 (FANOUT_PROLOGUE ++ original_msg_id ++ member_user_id).

(** The id that stands for "no device". *)
Definition is_legacy_device (device_id : bytes) : bool :=
  negb (blen device_id =? DEVICE_ID_LEN) || bool_decide (device_id = LEGACY_DEVICE_ID).

Definition device_fanout_msg_id (original_msg_id device_id : bytes) : bytes :=
  if is_legacy_device device_id then original_msg_id
  else blake2b 16 (DEVICE_FANOUT_PROLOGUE ++ original_msg_id ++ device_id).

Definition core_device_namespace_id (person_id device_id : bytes) : bytes :=
  if is_legacy_device device_id then person_id
  else blake2b 16 (DEVICE_HINT_NAMESPACE_DOMAIN ++ push_len_prefixed person_id
                   ++ push_len_prefixed device_id).

Definition default_expiry (timestamp_ms : Z) : Z := i64_saturating_add timestamp_ms DEFAULT_EXPIRY_MS.

End ids.

(** * Frames round-trip *)

(** The encoder of each frame. *)
Definition encode_frame (f : Frame) : result CoreError bytes :=
  match f with
  | Hello u => Ok (encode_hello u)
  | Hello2 u c => encode_hello2 u c
  | OwnRoster d => encode_own_roster d
  | Envelope m h e r s => Ok (encode_envelope_frame m h e r s)
  | Digest c es ids => encode_digest c es ids
  | LanEndpoint t h p => encode_lan_endpoint t h p
  | TransportProbe n r => Ok (encode_transport_probe n r)
  end.

(** What a parsed frame promises its consumer. *)
Definition frame_wf (f : Frame) : Prop :=
  match f with
  | Hello u => u <> []
  | Hello2 u c => blen u = HELLO2_USER_ID_LEN /\ in_u32 c
  | OwnRoster d => d <> []
  | Envelope m h e r s => blen m = MSG_ID_LEN /\ in_u8 h /\ in_i64 e /\ blen r = RECIPIENT_HINT_LEN
      /\ s <> [] /\ blen s <= MAX_ENVELOPE_SEALED_BYTES
  | Digest c es ids => Forall (fun e => in_u64 (through_lamport e)) es
  | LanEndpoint t h p => in_u16 p /\ p <> 0 /\ utf8_valid h = true /\ is_local_lan_host h = true
  | TransportProbe n _ => in_u64 n
  end.

Lemma lan_fields_ok token host port u :
  validate_lan_endpoint_fields token host port = Ok u <->
  blen token = LAN_INSTANCE_TOKEN_LEN /\ port <> 0 /\ host <> [] /\ blen host <= MAX_LAN_HOST_BYTES
  /\ any_whitespace host = false /\ is_local_lan_host host = true.
Proof.
  unfold validate_lan_endpoint_fields. split.
  - intros H. inv_ok. bools. done.
  - intros (-> & ? & ? & ? & -> & ->). rewrite Z.eqb_refl, (proj2 (Z.eqb_neq _ _)) by done.
    rewrite bool_decide_false, (proj2 (Z.ltb_ge _ _)) by done. by destruct u.
Qed.

Lemma parses_digest_entry e r : in_u64 (through_lamport e) -> blen (sender_user_id e) <= U16_MAX ->
  parses read_digest_entry (digest_entry_bytes e ++ r) e r.
Proof.
  intros Hl Hs. unfold read_digest_entry, digest_entry_bytes. repeat (parse_step; [done|]).
  destruct e. apply parses_ret.
Qed.

Lemma parses_digest c es ids :
  Forall (fun e => in_u64 (through_lamport e) /\ blen (sender_user_id e) <= U16_MAX) es ->
  Forall (fun i => blen i = MSG_ID_LEN) ids ->
  blen c <= U16_MAX -> blen es <= U16_MAX -> blen ids <= U16_MAX ->
  parses read_digest (write_bytes16 c ++ be_bytes 2 (blen es) ++ concat (digest_entry_bytes <$> es)
    ++ be_bytes 2 (blen ids) ++ concat ids) (Digest c es ids) [].
Proof.
  intros Hes Hids Hc He Hi. unfold read_digest. parse_step; [done|].
  parse_step; [pose proof (blen_nonneg es); ints|].
  eapply parses_bind.
  { apply parses_counted. intros x r Hx. rewrite Forall_forall in Hes.
    by apply parses_digest_entry; apply Hes. }
  parse_step; [pose proof (blen_nonneg ids); ints|].
  rewrite <-(app_nil_r (concat ids)). rewrite <-(list_fmap_id ids) at 2.
  eapply parses_bind.
  { apply (parses_counted _ id). intros x r Hx. rewrite Forall_forall in Hids.
    by apply parses_take, Hids. }
  parse_step. apply parses_ret.
Qed.

Lemma parse_frame_typed ty rest f : in_u8 ty -> blen rest + 1 <= MAX_P2P_FRAME_BYTES ->
  parse_frame (push_u8 ty ++ rest) = f <->
  (if ty =? FRAME_TYPE_HELLO then parse_hello rest
   else if ty =? FRAME_TYPE_HELLO2 then parse_hello2 rest
   else if ty =? FRAME_TYPE_OWN_ROSTER then parse_own_roster rest
   else if ty =? FRAME_TYPE_ENVELOPE then Cursor.run read_envelope rest
   else if ty =? FRAME_TYPE_DIGEST then Cursor.run read_digest rest
   else if ty =? FRAME_TYPE_LAN_ENDPOINT then Cursor.run read_lan_endpoint rest
   else if ty =? FRAME_TYPE_TRANSPORT_PROBE then Cursor.run read_probe rest
   else Err (Malformed "unknown frame type byte")) = f.
Proof.
  intros Hty Hl. rewrite push_u8_eq. unfold parse_frame. cbn [app].
  rewrite (proj2 (Z.ltb_ge _ _)) by (rewrite blen_cons; lia). cbn [ensure negb mbind result_bind].
  rewrite Z_of_byte_of_Z_small by ints. done.
Qed.

Lemma parses_envelope m h e r s : frame_wf (Envelope m h e r s) ->
  parses read_envelope (m ++ push_u8 h ++ be_bytes 8 e ++ r ++ s) (Envelope m h e r s) [].
Proof.
  intros (Hm & Hh & He & Hr & Hs & Hl). unfold read_envelope.
  repeat (parse_step; [done|]). parse_step.
  parse_step; [by rewrite bool_decide_false|].
  parse_step; [by apply negb_true_iff, Z.ltb_ge|]. apply parses_ret.
Qed.

Lemma parses_lan_endpoint t h p : frame_wf (LanEndpoint t h p) ->
  validate_lan_endpoint_fields t h p = Ok tt ->
  parses read_lan_endpoint (push_u8 LAN_ENDPOINT_VERSION ++ t ++ be_bytes 2 p ++ push_u8 (blen h) ++ h)
    (LanEndpoint t h p) [].
Proof.
  intros (Hp & _ & Hu & _) Hv. pose proof Hv as (Ht & _ & _ & Hl & _)%lan_fields_ok.
  rewrite <-(app_nil_r h) at 2. unfold read_lan_endpoint.
  do 4 (parse_step; [done|]). parse_step; [pose proof (blen_nonneg h); split; [lia|exact Hl]|].
  do 4 (parse_step; try done). apply parses_ret.
Qed.

Lemma parses_probe n r : in_u64 n ->
  parses read_probe (push_u8 TRANSPORT_PROBE_VERSION ++ push_u8 (u8_of_bool r) ++ be_bytes 8 n)
    (TransportProbe n r) [].
Proof.
  intros Hn. rewrite <-(app_nil_r (be_bytes 8 n)). unfold read_probe.
  do 2 (parse_step; [done|]). parse_step; [by destruct r|]. parse_step; [by destruct r|].
  parse_step; [done|]. parse_step. destruct r; apply parses_ret.
Qed.

(** A well-formed frame that encodes within the frame limit parses back to
    itself, whichever of the seven frame types it is. *)
Theorem frame_roundtrip f bs : frame_wf f -> encode_frame f = Ok bs ->
  blen bs <= MAX_P2P_FRAME_BYTES -> parse_frame bs = Ok f.
Proof.
  intros Hwf He Hlen.
  destruct f as [u|u c|d|m h e r s|c es ids|t h p|n r]; cbn [encode_frame frame_wf] in *;
    unfold encode_hello2, encode_own_roster, encode_digest, encode_lan_endpoint in He; inv_ok; bools;
    try unfold encode_hello, encode_envelope_frame, encode_transport_probe in *;
    (apply parse_frame_typed; [done|rewrite blen_app in Hlen; change (blen (push_u8 _)) with 1 in Hlen; lia|]);
    cbn [Z.eqb Pos.eqb FRAME_TYPE_HELLO FRAME_TYPE_HELLO2 FRAME_TYPE_OWN_ROSTER FRAME_TYPE_ENVELOPE
         FRAME_TYPE_DIGEST FRAME_TYPE_LAN_ENDPOINT FRAME_TYPE_TRANSPORT_PROBE].
  - unfold parse_hello. by rewrite bool_decide_false.
  - destruct Hwf as [Hu Hc]. unfold parse_hello2.
    assert (length u = 16%nat) as Hu' by (unfold blen, HELLO2_USER_ID_LEN in Hu; lia).
    rewrite (proj2 (Z.ltb_ge _ _)).
    2:{ rewrite blen_app, Hu. unfold blen. rewrite length_le_bytes. done. }
    cbn [ensure negb mbind result_bind]. do 2 f_equal.
    + by rewrite <-Hu', take_app_length.
    + rewrite <-Hu', drop_app_length, take_ge by (by rewrite length_le_bytes).
      apply le_value_le_bytes_small. unfold_ints. lia.
  - unfold parse_own_roster. by rewrite bool_decide_false.
  - eapply parses_run. by apply parses_envelope.
  - eapply parses_run. apply parses_digest; try done.
    + rewrite forallb_forall in Ha2. rewrite Forall_forall in *. intros e He. split; [by apply Hwf|].
      apply list_elem_of_In, Ha2 in He. by bools.
    + rewrite forallb_forall in Ha3. rewrite Forall_forall. intros i Hi.
      apply list_elem_of_In, Ha3 in Hi. by bools.
  - eapply parses_run. destruct a. by apply parses_lan_endpoint.
  - eapply parses_run. by apply parses_probe.
Qed.

Definition sample_envelope : Frame :=
  Envelope (replicate 16 x01) 7 1000 (replicate 8 x02) [x03; x04].

Lemma frame_roundtrip_witness :
  exists bs, encode_frame sample_envelope = Ok bs /\ parse_frame bs = Ok sample_envelope.
Proof.
  eexists. split; [reflexivity|]. apply (frame_roundtrip sample_envelope); [|reflexivity|].
  - repeat split; vm_compute; congruence.
  - vm_compute. discriminate.
Defined.

(** ** Every accepted frame is the encoding of what was parsed *)

Lemma take_msg_id_inv c i c' r : cursor_at c r -> Cursor.take (E:=CoreError) MSG_ID_LEN c = Ok (i, c') ->
  exists r', r = id i ++ r' /\ blen i = MSG_ID_LEN /\ cursor_at c' r'.
Proof. intros Hc H. read_inv. eauto. Qed.

Lemma digest_entry_inv c e c' r : cursor_at c r -> read_digest_entry c = Ok (e, c') ->
  exists r', r = digest_entry_bytes e ++ r'
    /\ (in_u64 (through_lamport e) /\ blen (sender_user_id e) <= U16_MAX) /\ cursor_at c' r'.
Proof.
  intros Hc H. unfold read_digest_entry in H. read_inv. eexists. unfold digest_entry_bytes. cbn.
  by rewrite <-app_assoc.
Qed.

Lemma envelope_inv rest f : Cursor.run read_envelope rest = Ok f ->
  frame_wf f /\ encode_frame f = Ok (push_u8 FRAME_TYPE_ENVELOPE ++ rest).
Proof.
  intros (c' & H)%run_inv. pose proof (cursor_at_new rest) as Hc. unfold read_envelope in H.
  unfold MSG_ID_LEN, RECIPIENT_HINT_LEN in H. read_inv. bools. subst. cbn [frame_wf encode_frame].
  done.
Qed.

Lemma capacity_small c es ids : blen c <= U16_MAX -> blen es <= U16_MAX -> blen ids <= U16_MAX ->
  Forall (fun e => in_u64 (through_lamport e) /\ blen (sender_user_id e) <= U16_MAX) es ->
  digest_capacity c es ids <= USIZE_MAX.
Proof.
  intros Hc He Hi Hes. unfold digest_capacity.
  assert (foldr (fun e n => 2 + blen (sender_user_id e) + 8 + n) 0 es <= 65545 * blen es) as Hf.
  { induction Hes as [|e es [_ H] _ IH]; [done|]. cbn [foldr]. rewrite blen_cons in *.
    specialize (IH ltac:(lia)). unfold U16_MAX in H. lia. }
  unfold USIZE_MAX, MSG_ID_LEN. unfold_ints. lia.
Qed.

Lemma digest_inv rest f : Cursor.run read_digest rest = Ok f ->
  frame_wf f /\ encode_frame f = Ok (push_u8 FRAME_TYPE_DIGEST ++ rest).
Proof.
  intros (c' & H)%run_inv. pose proof (cursor_at_new rest) as Hc. unfold read_digest in H. read_inv.
  apply (many_inv _ digest_entry_bytes _ _ _ _ _ _ digest_entry_inv Hc1) in E1 as (r1' & -> & Hl & Hes & Hc1').
  read_inv.
  apply (many_inv _ id _ _ _ _ _ _ take_msg_id_inv Hc2) in E3 as (r2' & -> & Hl2 & Hids & Hc2').
  read_inv. subst. rewrite list_fmap_id, app_nil_r. cbn [frame_wf encode_frame].
  assert (blen v1 = v0) as Hv0 by (unfold blen; rewrite Hl; unfold in_u16 in *; lia).
  assert (blen v3 = v2) as Hv2 by (unfold blen; rewrite Hl2; unfold in_u16 in *; lia).
  split; [eapply Forall_impl; [exact Hes|]; naive_solver|].
  unfold encode_digest. rewrite !(proj2 (Z.ltb_ge _ _)) by ints. cbn [negb ensure mbind result_bind].
  rewrite (proj2 (forallb_forall _ _)), (proj2 (forallb_forall _ _)), (proj2 (Z.leb_le _ _)).
  - cbn. by rewrite Hv0, Hv2.
  - apply capacity_small; try done; ints.
  - intros e He%list_elem_of_In. rewrite Forall_forall in Hes.
    apply negb_true_iff, Z.ltb_ge. by apply Hes.
  - intros i Hi%list_elem_of_In. rewrite Forall_forall in Hids. by apply Z.eqb_eq, Hids.
Qed.

Lemma lan_endpoint_inv rest f : Cursor.run read_lan_endpoint rest = Ok f ->
  frame_wf f /\ encode_frame f = Ok (push_u8 FRAME_TYPE_LAN_ENDPOINT ++ rest).
Proof.
  intros (c' & H)%run_inv. pose proof (cursor_at_new rest) as Hc.
  unfold read_lan_endpoint, LAN_INSTANCE_TOKEN_LEN in H. read_inv. bools. subst.
  repeat match goal with u : unit |- _ => destruct u end. cbn [frame_wf encode_frame].
  unfold encode_lan_endpoint. rewrite G1. cbn [mbind result_bind].
  apply lan_fields_ok in G1 as (? & ? & ? & ? & ? & ?). rewrite app_nil_r. done.
Qed.

Lemma probe_inv rest f : Cursor.run read_probe rest = Ok f ->
  frame_wf f /\ encode_frame f = Ok (push_u8 FRAME_TYPE_TRANSPORT_PROBE ++ rest).
Proof.
  intros (c' & H)%run_inv. pose proof (cursor_at_new rest) as Hc. unfold read_probe in H. read_inv.
  bools. subst. cbn [frame_wf encode_frame]. split; [done|]. unfold encode_transport_probe.
  rewrite app_nil_r. match goal with H : _ || _ = true |- _ => apply orb_true_iff in H as [H|H] end;
    bools; subst; done.
Qed.

Lemma byte_type t z : Z_of_byte t = z -> push_u8 z = [t].
Proof. intros <-. apply push_u8_byte. Qed.

(** A frame that parses is well formed, and its bytes are its encoding. *)
Lemma parse_frame_inv bs f : parse_frame bs = Ok f ->
  frame_wf f /\ exists enc extra, encode_frame f = Ok enc /\ bs = enc ++ extra /\
    match f with Hello2 _ _ => True | _ => extra = [] end.
Proof.
  unfold parse_frame. intros ([] & Hlen%ensure_ok & H)%result_bind_ok.
  destruct bs as [|t rest]; [done|]. bools. rewrite blen_cons in Hlen.
  assert (forall ty, Z_of_byte t = ty -> forall enc,
    frame_wf f /\ encode_frame f = Ok (push_u8 ty ++ enc) -> enc = rest ->
    frame_wf f /\ exists enc extra, encode_frame f = Ok enc /\ t :: rest = enc ++ extra /\
      match f with Hello2 _ _ => True | _ => extra = [] end) as Hexact.
  { intros ty Hty enc [Hw He] ->. split; [done|]. exists (t :: rest), [].
    rewrite app_nil_r. rewrite (byte_type _ _ Hty) in He. split_and!; [done|done|by destruct f]. }
  repeat match type of H with (if ?b then _ else _) = _ => destruct b eqn:? end; bools; [..|done].
  - unfold parse_hello in H. inv_ok. bools. by eapply Hexact; [eassumption|split|].
  - unfold parse_hello2 in H. inv_ok. bools. split.
    + cbn. unfold blen, HELLO2_USER_ID_LEN in *. split; [rewrite length_take; lia|].
      unfold le_value. pose proof (be_value_range (reverse (take 4 (drop 16 rest)))) as Hr.
      rewrite length_reverse, length_take, length_drop in Hr.
      replace (4 `min` (length rest - 16))%nat with 4%nat in Hr by lia.
      change (256 ^ Z.of_nat 4) with 4294967296 in Hr. ints.
    + exists (push_u8 FRAME_TYPE_HELLO2 ++ take 16 rest ++ take 4 (drop 16 rest)), (drop 20 rest).
      cbn [encode_frame]. unfold encode_hello2, blen, HELLO2_USER_ID_LEN in *.
      rewrite length_take. replace (Z.of_nat (16 `min` length rest)) with 16 by lia.
      cbn [Z.eqb Pos.eqb ensure mbind result_bind]. split_and!; [|  |done].
      * unfold le_bytes, le_value. do 4 f_equal.
        assert (length (reverse (take 4 (drop 16 rest))) = 4%nat) as Hl4
          by (rewrite length_reverse, length_take, length_drop; lia).
        pose proof (be_bytes_be_value (reverse (take 4 (drop 16 rest)))) as Hb. rewrite Hl4 in Hb.
        rewrite Hb. apply reverse_involutive.
      * erewrite byte_type by eassumption. rewrite <-!app_assoc. cbn [app]. f_equal.
        rewrite <-(take_drop 16 rest) at 1. f_equal. rewrite <-(take_drop 4 (drop 16 rest)) at 1.
        by rewrite drop_drop.
  - unfold parse_own_roster in H. inv_ok. bools. eapply Hexact; [eassumption| |done]. split; [done|].
    cbn [encode_frame]. unfold encode_own_roster. rewrite bool_decide_false by done. cbn.
    by rewrite (proj2 (Z.ltb_ge _ _)) by lia.
  - by eapply Hexact; [eassumption|apply envelope_inv|].
  - by eapply Hexact; [eassumption|apply digest_inv|].
  - by eapply Hexact; [eassumption|apply lan_endpoint_inv|].
  - by eapply Hexact; [eassumption|apply probe_inv|].
Qed.

(** Whatever bytes arrive, a frame [parse_frame] accepts is well formed
    (ids and hints of their widths, a non-empty sealed payload under the cap, a
    local literal address and non-zero port for a LAN hint), and the bytes are
    exactly its encoding, up to the extension bytes HELLO2 tolerates. *)
Theorem parse_frame_exact bs f : parse_frame bs = Ok f ->
  frame_wf f /\ exists enc extra, encode_frame f = Ok enc /\ bs = enc ++ extra /\
    match f with Hello2 _ _ => True | _ => extra = [] end.
Proof. apply parse_frame_inv. Qed.

Lemma parse_frame_exact_witness :
  frame_wf (TransportProbe 5 true) /\ exists enc extra,
    encode_frame (TransportProbe 5 true) = Ok enc /\
    [x05; x01; x01; x00; x00; x00; x00; x00; x00; x00; x05] = enc ++ extra /\ extra = [].
Proof. apply (parse_frame_exact _ (TransportProbe 5 true)). vm_compute. reflexivity. Defined.

(** * What a LAN hint may point at *)

(** [s & mask], for a mask of the top [m] of [k + m] bits. *)
Lemma land_high k m s : 0 <= k -> 0 <= m -> 0 <= s < 2 ^ (k + m) ->
  Z.land s (Z.shiftl (Z.ones m) k) = 2 ^ k * (s / 2 ^ k).
Proof.
  intros Hk Hm Hs.
  assert (Z.land s (Z.shiftl (Z.ones m) k) = Z.shiftl (Z.land (Z.shiftr s k) (Z.ones m)) k) as ->.
  { apply Z.bits_inj'. intros n Hn. rewrite Z.land_spec.
    destruct (decide (n < k)).
    - rewrite !Z.shiftl_spec_low by done. apply andb_false_r.
    - rewrite !Z.shiftl_spec, Z.land_spec, Z.shiftr_spec by lia. by replace (n - k + k) with n by lia. }
  rewrite Z.land_ones, Z.shiftr_div_pow2, Z.shiftl_mul_pow2 by done.
  rewrite Z.mod_small; [lia|]. split; [apply Z.div_pos; lia|].
  apply Z.div_lt_upper_bound; [lia|]. rewrite <-Z.pow_add_r by done. lia.
Qed.

(** The private, link-local and shared IPv4 ranges; the link-local and
    unique-local IPv6 ranges. *)
Definition link_local (ip : IpAddr) : Prop :=
  match ip with V4 a b _ _ => a = 169 /\ b = 254 | V6 s => 65152 <= hd 0 s <= 65215 end.

Definition local_ip (ip : IpAddr) : Prop :=
  match ip with
  | V4 a b _ _ => a = 10 \/ (a = 172 /\ 16 <= b <= 31) \/ (a = 192 /\ b = 168)
                  \/ (a = 169 /\ b = 254) \/ (a = 100 /\ 64 <= b <= 127)
  | V6 s => 65152 <= hd 0 s <= 65215 \/ 64512 <= hd 0 s <= 65023
  end.

Lemma hd_u16 s : Forall in_u16 s -> 0 <= hd 0 s < 2 ^ 16.
Proof. destruct 1; cbn; ints. Qed.

Lemma ipv6_link_local_range s : Forall in_u16 s ->
  is_ipv6_link_local s = true <-> 65152 <= hd 0 s <= 65215.
Proof.
  intros Hs%hd_u16. unfold is_ipv6_link_local, segment0. rewrite Z.eqb_eq.
  replace 65472 with (Z.shiftl (Z.ones 10) 6) by done. rewrite land_high; [|lia|lia|exact Hs].
  change (2 ^ 6) with 64. Z.to_euclidean_division_equations. lia.
Qed.

Lemma ipv6_local_range s : Forall in_u16 s ->
  is_local_ipv6 s = true <-> 65152 <= hd 0 s <= 65215 \/ 64512 <= hd 0 s <= 65023.
Proof.
  intros Hs. unfold is_local_ipv6. rewrite orb_true_iff, ipv6_link_local_range by done.
  apply or_iff_compat_l. apply hd_u16 in Hs. unfold segment0. rewrite Z.eqb_eq.
  replace 65024 with (Z.shiftl (Z.ones 7) 9) by done. rewrite land_high; [|lia|lia|exact Hs].
  change (2 ^ 9) with 512. Z.to_euclidean_division_equations. lia.
Qed.

Lemma ipv4_local_range a b : is_local_ipv4 a b = true <->
  a = 10 \/ (a = 172 /\ 16 <= b <= 31) \/ (a = 192 /\ b = 168)
  \/ (a = 169 /\ b = 254) \/ (a = 100 /\ 64 <= b <= 127).
Proof. unfold is_local_ipv4. lia. Qed.

(** A host passes [is_local_lan_host] exactly when it is an address literal
    in a local range, optionally followed by a plausible zone that is only
    allowed on an IPv6 link-local address; a name or a public address never
    passes, and the publishable hosts are those that are not IPv6 link-local. *)
Theorem local_lan_host_spec host :
  (is_local_lan_host host = true <->
   exists ip, parse_ip (split_zone host).1 = Some ip /\ local_ip ip /\
     forall z, (split_zone host).2 = Some z ->
       plausible_zone z = true /\ exists s, ip = V6 s /\ link_local ip) /\
  (is_reachable_lan_host host = true <->
   is_local_lan_host host = true /\
   forall s, parse_ip (split_zone host).1 = Some (V6 s) -> ~ link_local (V6 s)).
Proof.
  assert (is_local_lan_host host = true <->
   exists ip, parse_ip (split_zone host).1 = Some ip /\ local_ip ip /\
     forall z, (split_zone host).2 = Some z ->
       plausible_zone z = true /\ exists s, ip = V6 s /\ link_local ip) as Hlocal.
  { unfold is_local_lan_host. destruct (split_zone host) as [lit zone]. cbn [fst snd].
    destruct (parse_ip lit) as [ip|] eqn:Hp.
    2:{ split; [by destruct zone as [z|]; [destruct (plausible_zone z)|]|by intros (? & ? & _)]. }
    apply parse_ip_typed in Hp as Hty. destruct zone as [z|].
    - destruct (plausible_zone z) eqn:Hz; cbn [negb].
      2:{ split; [done|]. intros (? & _ & _ & H). destruct (H z eq_refl) as [? _]. congruence. }
      destruct ip as [a b c d|s].
      + split; [done|]. intros (? & [= <-] & _ & H). by destruct (H z eq_refl) as [_ (? & ? & _)].
      + cbn in Hty. rewrite bool_decide_false by done. cbn [orb].
        rewrite andb_true_iff, ipv6_link_local_range, ipv6_local_range by done. split.
        * intros [H1 H2]. exists (V6 s). split_and!; [done|done|]. intros z' [= <-]. eauto.
        * intros (? & [= <-] & Hl & H). destruct (H z eq_refl) as [_ (s' & _ & Hs)]. done.
    - destruct ip as [a b c d|s]; rewrite bool_decide_true by done; cbn [andb orb].
      + rewrite ipv4_local_range. split; [|intros (? & [= <-] & H & _); exact H].
        intros H. exists (V4 a b c d). split; [done|]. split; [exact H|done].
      + rewrite ipv6_local_range by done.
        split; [|intros (? & [= <-] & H & _); exact H].
        intros H. exists (V6 s). split; [done|]. split; [exact H|done]. }
  split; [exact Hlocal|]. unfold is_reachable_lan_host.
  destruct (is_local_lan_host host) eqn:Hl; cbn [negb]; [|split; [done|by intros [? _]]].
  destruct (proj1 Hlocal eq_refl) as (ip & Hp & _). rewrite Hp. apply parse_ip_typed in Hp as Hty.
  destruct ip as [a b c d|s].
  - split; [|done]. intros _. by split.
  - cbn in Hty. rewrite negb_true_iff, <-Bool.not_true_iff_false, ipv6_link_local_range by done.
    split; [intros H; split; [done|by intros ? [= <-]]|]. intros [_ H]. by apply H.
Qed.
