(* ===== verification/Hints.v ===== *)
(** Recipient hints ([core/src/recipient_hints.rs]): which daily-rotating hints an
    id answers to, which hints a device fetches under, and how a fetched row's hint
    relates to the person's own devices.

    Of the store these functions read the groups, the contacts, this device's
    fleet and whether the linking gate lets the device advertise ([routing]).
    BLAKE2b is a parameter: nothing here assumes hints of different ids to differ,
    so statements about another device's rows name the collision they exclude. *)
From stdpp Require Import base numbers list gmap strings sets.
From S2P Require Import Prelude Wire Crypto RosterCodec Message Frames.

Definition CARRY_HINT_SKEW_DAYS : Z := 1.
Definition CARRY_HINT_DAY_WINDOW_DAYS : Z := DEFAULT_EXPIRY_MS / MS_PER_DAY + CARRY_HINT_SKEW_DAYS.
Definition PRESENCE_HINT_DAY_WINDOW_DAYS : Z := 3.
Definition PUSH_HINT_FORWARD_DAYS : Z := 1.
Definition RELAY_MAX_FETCH_HINTS : Z := 256.
Definition HINTS_PER_ID_FETCH : Z := CARRY_HINT_DAY_WINDOW_DAYS + 1.
Definition HINTS_PER_ID_PUSH : Z := HINTS_PER_ID_FETCH + PUSH_HINT_FORWARD_DAYS.

Record Group : Type := mk_group {
  group_id : bytes;
  group_name : bytes;
  member_user_ids : list bytes;
  group_key : bytes;
  group_metadata_revision : Z;
  group_metadata_changed_by : bytes;
}.

Record OwnDeviceFleet : Type := mk_fleet { own_device_id : option bytes; device_ids : list bytes }.

(** What the store holds of routing: [list_groups], [list_contacts] (user ids),
    [own_device_fleet], and the linking gate's answers. *)
Record routing : Type := mk_routing {
  rt_groups : list Group;
  rt_contacts : list bytes;
  rt_fleet : OwnDeviceFleet;
  rt_advertise : bool;
  rt_ack : bool;
}.

Inductive FleetHint : Type := OwnDevice | PersonShared | Sibling | Foreign.

#[global] Instance FleetHint_eq_dec : EqDecision FleetHint.
Proof. solve_decision. Defined.

Record FleetHints : Type := mk_fleet_hints {
  fh_own : gset bytes;
  fh_person_shared : gset bytes;
  fh_sibling : gset bytes;
}.

Definition classify (f : FleetHints) (hint : bytes) : FleetHint :=
  if bool_decide (hint ∈ fh_own f) then OwnDevice
  else if bool_decide (hint ∈ fh_sibling f) then Sibling
  else if bool_decide (hint ∈ fh_person_shared f) then PersonShared
  else Foreign.

Section hints.
Context `{C : Crypto}.

(** [-forward_days..=window_days], as days ago *)
Definition hints_over_range (user_id : bytes) (now_ms window_days forward_days : Z) : list bytes :=
  (fun days_ago => compute_recipient_hint user_id (now_ms - days_ago * MS_PER_DAY))
    <$> seqZ (- forward_days) (window_days + forward_days + 1).

Definition hints_over_window (user_id : bytes) (now_ms window_days : Z) : list bytes :=
  hints_over_range user_id now_ms window_days 0.

Definition recent_hints_for (user_id : bytes) (now_ms : Z) : list bytes :=
  hints_over_window user_id now_ms CARRY_HINT_DAY_WINDOW_DAYS.

Definition device_hints_over_range (person_id device_id : bytes) (now_ms forward_days : Z) : list bytes :=
  hints_over_range (core_device_namespace_id person_id device_id) now_ms
    CARRY_HINT_DAY_WINDOW_DAYS forward_days.

Definition recent_device_hints_for (person_id device_id : bytes) (now_ms : Z) : list bytes :=
  device_hints_over_range person_id device_id now_ms 0.

Definition recent_presence_hints_for (user_id : bytes) (now_ms : Z) : list bytes :=
  hints_over_window user_id now_ms PRESENCE_HINT_DAY_WINDOW_DAYS.

(** The filter with its growing set of hints already kept. *)
Fixpoint dedupe_from (seen : gset bytes) (hints : list bytes) : list bytes :=
  match hints with
  | [] => []
  | h :: hints => if bool_decide (h ∈ seen) then dedupe_from seen hints
                  else h :: dedupe_from ({[h]} ∪ seen) hints
  end.

Definition dedupe_hints (hints : list bytes) : list bytes := dedupe_from ∅ hints.

Definition member_group_ids (st : routing) (own_user_id : bytes) : list bytes :=
  group_id <$> List.filter (fun g => existsb (fun m => bool_decide (m = own_user_id)) (member_user_ids g))
    (rt_groups st).

Definition proxy_contact_ids (st : routing) (own_user_id : bytes) : list bytes :=
  List.filter (fun c => negb (bool_decide (c = own_user_id))) (rt_contacts st).

Definition own_device_namespace_ids (st : routing) (own_user_id : bytes) : list bytes :=
  match own_device_id (rt_fleet st) with
  | Some device_id => [core_device_namespace_id own_user_id device_id]
  | None => []
  end.

Definition relay_hint_source_ids (st : routing) (own_user_id : bytes) : list bytes :=
  [own_user_id] ++ own_device_namespace_ids st own_user_id ++ member_group_ids st own_user_id
  ++ proxy_contact_ids st own_user_id.

Definition own_fleet_hints (st : routing) (own_person_id : bytes) (now_ms : Z) : FleetHints :=
  let fleet := rt_fleet st in
  let own_id := default LEGACY_DEVICE_ID (own_device_id fleet) in
  let own : gset bytes := list_to_set (device_hints_over_range own_person_id own_id now_ms 0) in
  let person : gset bytes :=
    list_to_set (hints_over_window own_person_id now_ms CARRY_HINT_DAY_WINDOW_DAYS) in
  if blen (device_ids fleet) <? 2 then mk_fleet_hints (own ∪ person) ∅ ∅
  else mk_fleet_hints own person
         (list_to_set (concat ((fun d => device_hints_over_range own_person_id d now_ms 0)
            <$> List.filter (fun d => negb (bool_decide (d = own_id))) (device_ids fleet)))).

Definition relay_hint_groups (st : routing) (own_user_id : bytes) (now_ms forward_days : Z)
  (include_proxy : bool) : list (list bytes) :=
  if negb (rt_advertise st) then [] else
  let over id := hints_over_range id now_ms CARRY_HINT_DAY_WINDOW_DAYS forward_days in
  [over own_user_id]
  ++ (match own_device_id (rt_fleet st) with
      | Some device_id => [device_hints_over_range own_user_id device_id now_ms forward_days]
      | None => []
      end)
  ++ (over <$> member_group_ids st own_user_id)
  ++ (if include_proxy then over <$> proxy_contact_ids st own_user_id else []).

(** The loop of [clamp_hint_groups], with the hints taken so far. *)
Fixpoint clamp_from (hints : list bytes) (groups : list (list bytes)) : list bytes :=
  match groups with
  | [] => hints
  | group :: groups =>
      if RELAY_MAX_FETCH_HINTS <? blen hints + blen group then hints
      else clamp_from (hints ++ group) groups
  end.

Definition clamp_hint_groups (groups : list (list bytes)) : list bytes := clamp_from [] groups.

Definition relay_self_hints (st : routing) (own_user_id : bytes) (now_ms : Z) : list bytes :=
  clamp_hint_groups (relay_hint_groups st own_user_id now_ms 0 false).

Definition relay_self_push_hints (st : routing) (own_user_id : bytes) (now_ms : Z) : list bytes :=
  clamp_hint_groups (relay_hint_groups st own_user_id now_ms PUSH_HINT_FORWARD_DAYS false).

Definition relay_proxy_hints (st : routing) (own_user_id : bytes) (now_ms : Z) : list bytes :=
  if negb (rt_advertise st) then [] else
  clamp_hint_groups ((fun id => hints_over_range id now_ms CARRY_HINT_DAY_WINDOW_DAYS 0)
    <$> proxy_contact_ids st own_user_id).

Definition relay_fetch_hints (st : routing) (own_user_id : bytes) (now_ms : Z) : list bytes :=
  dedupe_hints (clamp_hint_groups (relay_hint_groups st own_user_id now_ms 0 true)).

Definition relay_fetch_push_hints (st : routing) (own_user_id : bytes) (now_ms : Z) : list bytes :=
  dedupe_hints (clamp_hint_groups (relay_hint_groups st own_user_id now_ms PUSH_HINT_FORWARD_DAYS true)).

Definition delivery_hints_for_peer (st : routing) (peer_user_id : bytes) (now_ms : Z) : list bytes :=
  if negb (rt_advertise st) then [] else
  hints_over_window peer_user_id now_ms CARRY_HINT_DAY_WINDOW_DAYS
  ++ concat ((fun g => hints_over_window (group_id g) now_ms CARRY_HINT_DAY_WINDOW_DAYS)
       <$> List.filter (fun g => bool_decide (peer_user_id ∈ member_user_ids g)) (rt_groups st)).

Definition groups_matching_hint (st : routing) (hint : bytes) (now_ms : Z) : list Group :=
  List.filter (fun g => bool_decide (hint ∈ hints_over_window (group_id g) now_ms CARRY_HINT_DAY_WINDOW_DAYS))
    (rt_groups st).

Definition group_matching_hint (st : routing) (hint : bytes) (now_ms : Z) : option Group :=
  head (groups_matching_hint st hint now_ms).

Definition core_is_own_fanout_hint (recipient_hint own_user_id : bytes) (now_ms : Z) : bool :=
  existsb (fun days_ago => bool_decide
      (compute_recipient_hint own_user_id (now_ms - days_ago * MS_PER_DAY) = recipient_hint))
    (seqZ 0 (CARRY_HINT_DAY_WINDOW_DAYS + 1)).

Definition hint_matches_known_target (st : routing) (hint : bytes) (now_ms : Z) : bool :=
  existsb (fun c => bool_decide (hint ∈ hints_over_window c now_ms CARRY_HINT_DAY_WINDOW_DAYS))
    (rt_contacts st)
  || bool_decide (is_Some (group_matching_hint st hint now_ms)).

Definition group_open_candidates (st : routing) (hint own_user_id : bytes) (now_ms : Z) : list Group :=
  let candidates := groups_matching_hint st hint now_ms in
  if core_is_own_fanout_hint hint own_user_id now_ms then
    foldl (fun cs g => if existsb (fun c => bool_decide (group_id c = group_id g)) cs then cs else cs ++ [g])
      candidates (rt_groups st)
  else candidates.

End hints.

(** * The day window *)

Section window.
Context `{C : Crypto}.

Lemma day_shift t k : day_number (t - k * MS_PER_DAY) = day_number t - k.
Proof.
  unfold day_number. replace (t - k * MS_PER_DAY) with (t + (- k) * MS_PER_DAY) by lia.
  rewrite Z.div_add by done. lia.
Qed.

Lemma hint_by_day id t t' : day_number t = day_number t' ->
  compute_recipient_hint id t = compute_recipient_hint id t'.
Proof. intros H. unfold compute_recipient_hint. by rewrite H. Qed.

Lemma elem_of_hints id now w f h : h ∈ hints_over_range id now w f <->
  exists k, - f <= k <= w /\ h = compute_recipient_hint id (now - k * MS_PER_DAY).
Proof.
  unfold hints_over_range. rewrite list_elem_of_fmap. split.
  - intros (k & -> & Hk%elem_of_seqZ). exists k. split; [lia|done].
  - intros (k & Hk & ->). exists k. split; [done|]. apply elem_of_seqZ. lia.
Qed.

(** A hint made at [t] is in the window of [now] when its day is. *)
Lemma hint_in_range id t now w f : - f <= day_number now - day_number t <= w ->
  compute_recipient_hint id t ∈ hints_over_range id now w f.
Proof.
  intros Hd. apply elem_of_hints. exists (day_number now - day_number t). split; [done|].
  apply hint_by_day. rewrite day_shift. lia.
Qed.

(** An envelope made at [t] that is live at [now], give or take a day of skew. *)
Definition live (t now : Z) : Prop :=
  day_number t <= day_number now /\ now < t + DEFAULT_EXPIRY_MS + CARRY_HINT_SKEW_DAYS * MS_PER_DAY.

Lemma live_window t now : live t now ->
  0 <= day_number now - day_number t <= CARRY_HINT_DAY_WINDOW_DAYS.
Proof.
  unfold live, day_number. intros [Hd Hl]. split; [lia|].
  change CARRY_HINT_DAY_WINDOW_DAYS with 8. change DEFAULT_EXPIRY_MS with (7 * MS_PER_DAY) in Hl.
  change CARRY_HINT_SKEW_DAYS with 1 in Hl. unfold MS_PER_DAY in *. Z.to_euclidean_division_equations. lia.
Qed.

Lemma live_hint id t now f : 0 <= f -> live t now ->
  compute_recipient_hint id t ∈ hints_over_range id now CARRY_HINT_DAY_WINDOW_DAYS f.
Proof. intros Hf Hl%live_window. apply hint_in_range. lia. Qed.

(** ** Fetch sets *)

Lemma blen_hints id now w f : 0 <= w + f + 1 -> blen (hints_over_range id now w f) = w + f + 1.
Proof. intros H. unfold hints_over_range, blen. rewrite length_fmap, length_seqZ. lia. Qed.

Lemma clamp_from_spec groups : forall hints, blen hints <= RELAY_MAX_FETCH_HINTS ->
  blen (clamp_from hints groups) <= RELAY_MAX_FETCH_HINTS /\
  exists k, clamp_from hints groups = hints ++ concat (take k groups).
Proof.
  induction groups as [|g groups IH]; intros hints Hl; cbn [clamp_from].
  { split; [done|]. exists 0%nat. cbn. by rewrite app_nil_r. }
  case_match eqn:E.
  - split; [done|]. exists 0%nat. cbn. by rewrite app_nil_r.
  - apply Z.ltb_ge in E. destruct (IH (hints ++ g)) as [Hb (k & Hk)]; [lens|].
    split; [done|]. rewrite Hk. exists (S k). cbn. by rewrite app_assoc.
Qed.

Lemma clamp_keeps hints groups h : h ∈ hints -> h ∈ clamp_from hints groups.
Proof.
  revert hints. induction groups as [|g' groups IH]; intros hints Hh; [done|]. cbn [clamp_from].
  case_match; [done|]. apply IH. set_solver.
Qed.

Lemma elem_of_dedupe hints : forall seen h, h ∈ dedupe_from seen hints <-> h ∈ hints /\ h ∉ seen.
Proof.
  induction hints as [|x hints IH]; intros seen h; cbn [dedupe_from]; [set_solver|].
  case_bool_decide; rewrite ?elem_of_cons, IH; [set_solver|]. destruct (decide (h = x)); set_solver.
Qed.

Lemma dedupe_nodup hints : forall seen, NoDup (dedupe_from seen hints).
Proof.
  induction hints as [|x hints IH]; intros seen; cbn [dedupe_from]; [constructor|].
  case_bool_decide; [done|]. constructor; [|done]. rewrite elem_of_dedupe. set_solver.
Qed.

Lemma length_dedupe hints : forall seen, blen (dedupe_from seen hints) <= blen hints.
Proof.
  induction hints as [|x hints IH]; intros seen; cbn [dedupe_from]; [done|].
  pose proof (IH seen). pose proof (IH ({[x]} ∪ seen)). case_bool_decide; lens.
Qed.

(** The first two ids of a fetch set, the person and this device, always fit. *)
Lemma own_hints_kept st own now f proxy h : 0 <= f <= PUSH_HINT_FORWARD_DAYS -> rt_advertise st = true ->
  h ∈ hints_over_range own now CARRY_HINT_DAY_WINDOW_DAYS f \/
  (exists d, own_device_id (rt_fleet st) = Some d /\ h ∈ device_hints_over_range own d now f) ->
  h ∈ clamp_hint_groups (relay_hint_groups st own now f proxy).
Proof.
  unfold PUSH_HINT_FORWARD_DAYS. intros Hf Ha Hh. unfold clamp_hint_groups, relay_hint_groups. rewrite Ha. cbn [negb app].
  assert (forall id, blen (hints_over_range id now CARRY_HINT_DAY_WINDOW_DAYS f) = 9 + f) as Hlen.
  { intros id. rewrite blen_hints; change CARRY_HINT_DAY_WINDOW_DAYS with 8; lia. }
  cbn [clamp_from app]. rewrite Hlen. change (blen []) with 0. unfold RELAY_MAX_FETCH_HINTS.
  rewrite (proj2 (Z.ltb_ge _ _)) by lia. destruct Hh as [Hh|(d & Hd & Hh)]; [by apply clamp_keeps|].
  rewrite Hd. cbn [app clamp_from]. unfold device_hints_over_range at 1. unfold RELAY_MAX_FETCH_HINTS.
  rewrite !Hlen, (proj2 (Z.ltb_ge _ _)) by lia. apply clamp_keeps. set_solver.
Qed.

Lemma fetch_len st own now f proxy :
  blen (dedupe_hints (clamp_hint_groups (relay_hint_groups st own now f proxy))) <= RELAY_MAX_FETCH_HINTS.
Proof.
  pose proof (length_dedupe (clamp_hint_groups (relay_hint_groups st own now f proxy)) ∅).
  destruct (clamp_from_spec (relay_hint_groups st own now f proxy) []) as [? _]; [done|].
  unfold dedupe_hints, clamp_hint_groups in *. lia.
Qed.

End window.

(** * Claims *)

(** What a device asks a relay for has no duplicates, fits the relay's limit,
    and (while the device may advertise) covers every row addressed to the person
    or to this very device whose envelope is still live, a day of clock skew
    included; and the push subscription covers the same rows. *)
Theorem fetch_finds_own_mail `{C : Crypto} st own t now :
  rt_advertise st = true -> live t now ->
  NoDup (relay_fetch_hints st own now) /\ blen (relay_fetch_hints st own now) <= RELAY_MAX_FETCH_HINTS /\
  compute_recipient_hint own t ∈ relay_fetch_hints st own now /\
  compute_recipient_hint own t ∈ relay_fetch_push_hints st own now /\
  forall d, own_device_id (rt_fleet st) = Some d ->
    compute_recipient_hint (core_device_namespace_id own d) t ∈ relay_fetch_hints st own now.
Proof.
  intros Ha Hl. unfold relay_fetch_hints, relay_fetch_push_hints.
  split_and!; [apply dedupe_nodup|apply fetch_len|..].
  - apply elem_of_dedupe. split; [|set_solver]. apply own_hints_kept; [done|done|left]. by apply live_hint.
  - apply elem_of_dedupe. split; [|set_solver]. apply own_hints_kept; [done|done|left]. by apply live_hint.
  - intros d Hd. apply elem_of_dedupe. split; [|set_solver]. apply own_hints_kept; [done|done|right].
    exists d. split; [done|]. by apply live_hint.
Qed.

Lemma fetch_finds_own_mail_witness :
  let st := mk_routing [] [] (mk_fleet (Some (replicate 16 x05)) [replicate 16 x05; replicate 16 x06]) true true in
  compute_recipient_hint (C := toy_crypto)
    (core_device_namespace_id (C := toy_crypto) (replicate 16 x01) (replicate 16 x05)) 1000
    ∈ relay_fetch_hints (C := toy_crypto) st (replicate 16 x01) 500000000.
Proof.
  intros st. apply (fetch_finds_own_mail (C := toy_crypto) st (replicate 16 x01) 1000 500000000).
  - reflexivity.
  - split; vm_compute; [discriminate|reflexivity].
  - reflexivity.
Defined.
