(* ===== verification/Engine.v ===== *)
(** The shared mesh decisions ([core/src/engine.rs]): who may dispatch, what an
    inbound envelope's header admits, which relay copies may be acknowledged (and
    so deleted), which carried copies a peer's digest retires, and how an envelope
    fans out to devices and members.

    Of the message store these functions read and write the tables of [engine_db];
    SQL queries are written out, with their [WHERE], [ORDER BY] and [LIMIT]
    ([core/src/store.rs]).  The contact rosters are those of [RosterStore]. *)
From stdpp Require Import base numbers list gmap strings sets sorting.
From S2P Require Import Prelude Wire Crypto RosterCodec Roster RosterStore Message Frames Hints.

Definition DIGEST_ADVERTISED_MSG_IDS_LIMIT : Z := 512.
Definition DIGEST_ADVERTISED_CARRIED_SHARE : Z := 256.
Definition MAX_CARRY_FUTURE_MS : Z := 30 * MS_PER_DAY.
Definition CONSUMED_HIDDEN_MSG_ID_LIMIT : Z := 20000.

Inductive CoreInboundGate : Type := GateDispatch | GateSeen | GateExpired | GateRejected.

Inductive CoreInboundDisposition : Type := Consumed | Carried | Expired | Seen | Rejected | Failed.

#[global] Instance CoreInboundDisposition_eq_dec : EqDecision CoreInboundDisposition.
Proof. solve_decision. Defined.

Record CoreRelayEnvelopeDisposition : Type := mk_item {
  it_relay_id : Z;
  it_msg_id : bytes;
  it_disposition : CoreInboundDisposition;
  it_recipient_hint : bytes;
}.

Record MessageOrigin : Type := mk_origin { mo_chat_id : bytes; mo_sender_user_id : bytes }.

Record CarriedEnvelope : Type := mk_carried {
  ce_msg_id : bytes;
  ce_hop_ttl : Z;
  ce_expiry : Z;
  ce_recipient_hint : bytes;
  ce_sealed : bytes;
}.

Record OutboundEnvelope : Type := mk_outbound {
  oe_msg_id : bytes;
  oe_recipient_user_id : bytes;
  oe_chat_id : bytes;
  oe_sender_user_id : bytes;
  oe_kind : Z;
  oe_lamport : Z;
  oe_timestamp : Z;
  oe_hop_ttl : Z;
  oe_expiry : Z;
  oe_recipient_hint : bytes;
  oe_sealed : bytes;
}.

Record CoreGroupFanoutRow : Type := mk_fanout {
  fo_msg_id : bytes;
  fo_hop_ttl : Z;
  fo_expiry : Z;
  fo_recipient_hint : bytes;
  fo_sealed : bytes;
}.

(** * Tables *)

(** A row of [messages], in order of its [id]: the columns the queries here and in the
    later files read (not the reply target and the arrival, which only screens show). *)
Record message_row : Type := mk_mrow {
  mr_msg_id : option bytes;
  mr_chat_id : bytes;
  mr_sender : bytes;
  mr_device : bytes;
  mr_lamport : Z;
  mr_timestamp : Z;
  mr_kind : Z;
  mr_payload : bytes;
}.

(** A row of [message_conflicts], in order of its [id]: the branch that lost its stream
    position, and the fingerprints of both. *)
Record conflict_row : Type := mk_conflict {
  cf_row : message_row;
  cf_existing_fingerprint : bytes;
  cf_incoming_fingerprint : bytes;
  cf_first_seen_at : Z;
  cf_last_seen_at : Z;
  cf_seen_count : Z;
}.

(** A row of [carried_envelopes]: the columns read here ([received_at] and the
    envelope's). *)
Record carried_row : Type := mk_crow { cr_envelope : CarriedEnvelope; cr_received_at : Z }.

Record engine_db : Type := mk_edb {
  e_routing : routing;
  e_rosters : RosterStore.db;
  e_messages : list message_row;
  e_conflicts : list conflict_row;
  e_hidden : gmap bytes Z;
  e_carried : list carried_row;
}.

Definition with_hidden (d : engine_db) (h : gmap bytes Z) : engine_db :=
  mk_edb (e_routing d) (e_rosters d) (e_messages d) (e_conflicts d) h (e_carried d).

Definition with_messages (d : engine_db) (m : list message_row) : engine_db :=
  mk_edb (e_routing d) (e_rosters d) m (e_conflicts d) (e_hidden d) (e_carried d).

Definition with_carried (d : engine_db) (c : list carried_row) : engine_db :=
  mk_edb (e_routing d) (e_rosters d) (e_messages d) (e_conflicts d) (e_hidden d) c.

(** [BLOB] comparison: byte by byte, a proper prefix first. *)
Fixpoint blob_leb (a b : bytes) : bool :=
  match a, b with
  | [], _ => true
  | _ :: _, [] => false
  | x :: a, y :: b =>
      if Z_of_byte x <? Z_of_byte y then true
      else if Z_of_byte y <? Z_of_byte x then false else blob_leb a b
  end.

(** [SELECT ... FROM (messages UNION ALL conflicts) ORDER BY source, id LIMIT 1] *)
Definition message_origin_by_msg_id (d : engine_db) (msg_id : bytes) : option MessageOrigin :=
  (fun r => mk_origin (mr_chat_id r) (mr_sender r))
    <$> head (filter (fun r => mr_msg_id r = Some msg_id) (e_messages d ++ (cf_row <$> e_conflicts d))).

(** ** The consumed-hidden set *)

Definition consumed_hidden_msg_id_recorded (d : engine_db) (msg_id : bytes) (now_ms : Z) : bool :=
  match e_hidden d !! msg_id with Some expiry => now_ms <? expiry | None => false end.

Definition prune_expired_consumed_hidden_msg_ids (d : engine_db) (now_ms : Z) : engine_db * Z :=
  let kept := filter (fun kv => ~ (kv.2 <= now_ms)) (e_hidden d) in
  (with_hidden d kept, Z.of_nat (size (e_hidden d)) - Z.of_nat (size kept)).

(** [ORDER BY expiry_ms DESC, msg_id ASC] *)
Definition hidden_le (a b : bytes * Z) : Prop :=
  b.2 < a.2 \/ (a.2 = b.2 /\ blob_leb a.1 b.1 = true).

#[global] Instance hidden_le_dec a b : Decision (hidden_le a b).
Proof. unfold hidden_le. apply _. Defined.

Definition insert_consumed_hidden_msg_id_capped (d : engine_db) (msg_id : bytes) (expiry_ms limit : Z)
  : engine_db * bool :=
  let expiry := match e_hidden d !! msg_id with Some old => Z.max old expiry_ms | None => expiry_ms end in
  let rows := <[msg_id := expiry]> (e_hidden d) in
  let rows := if limit <? Z.of_nat (size rows)
              then list_to_map (take (Z.to_nat limit) (merge_sort hidden_le (map_to_list rows)))
              else rows in
  (with_hidden d rows, bool_decide (is_Some (rows !! msg_id))).

Definition insert_consumed_hidden_msg_id (d : engine_db) (msg_id : bytes) (expiry_ms : Z) : engine_db * bool :=
  insert_consumed_hidden_msg_id_capped d msg_id expiry_ms CONSUMED_HIDDEN_MSG_ID_LIMIT.

(** ** The carry queue *)

(** [ORDER BY received_at ASC, msg_id ASC] *)
Definition carried_le (a b : carried_row) : Prop :=
  cr_received_at a < cr_received_at b \/
  (cr_received_at a = cr_received_at b /\
   blob_leb (ce_msg_id (cr_envelope a)) (ce_msg_id (cr_envelope b)) = true).

#[global] Instance carried_le_dec a b : Decision (carried_le a b).
Proof. unfold carried_le. apply _. Defined.

Record CoreCarriedCursor : Type := mk_cursor { cu_received_at : Z; cu_msg_id : bytes }.

Record CoreCarriedSyncPage : Type := mk_page {
  pg_rows : list CarriedEnvelope;
  pg_next : option CoreCarriedCursor;
  pg_exhausted : bool;
}.

Definition cursor_of (r : carried_row) : CoreCarriedCursor :=
  mk_cursor (cr_received_at r) (ce_msg_id (cr_envelope r)).

(** The resume predicate: strictly after the cursor's row. *)
Definition after_cursor (after : option CoreCarriedCursor) (r : carried_row) : bool :=
  match after with
  | None => true
  | Some c =>
      (cu_received_at c <? cr_received_at r)
      || ((cr_received_at r =? cu_received_at c)
          && blob_leb (cu_msg_id c) (ce_msg_id (cr_envelope r))
          && negb (bool_decide (ce_msg_id (cr_envelope r) = cu_msg_id c)))
  end.

(** The loop over the query's rows: [used] bytes and [n] rows so far. *)
Fixpoint page_loop (budget_bytes max_rows used n : Z) (next : option CoreCarriedCursor)
  (rows : list carried_row) : CoreCarriedSyncPage :=
  match rows with
  | [] => mk_page [] next true
  | r :: rows =>
      let size := blen (ce_sealed (cr_envelope r)) in
      if max_rows <=? n then mk_page [] next false
      else if (0 <? used) && (budget_bytes <? u64_saturating_add used size) then mk_page [] next false
      else if (used =? 0) && (budget_bytes <? size)
      then mk_page [cr_envelope r] (Some (cursor_of r)) false
      else let page := page_loop budget_bytes max_rows (u64_saturating_add used size) (n + 1)
                         (Some (cursor_of r)) rows in
           mk_page (cr_envelope r :: pg_rows page) (pg_next page) (pg_exhausted page)
  end.

(** The rows the query selects, in its order. *)
Definition carried_query (d : engine_db) (hints : list bytes) (now_ms : Z)
  (after : option CoreCarriedCursor) : list carried_row :=
  merge_sort carried_le
    (filter (fun r => now_ms < ce_expiry (cr_envelope r) /\ ce_recipient_hint (cr_envelope r) ∈ hints
                      /\ after_cursor after r = true) (e_carried d)).

Definition carried_envelopes_for_hints_page (d : engine_db) (hints : list bytes)
  (now_ms budget_bytes max_rows : Z) (after : option CoreCarriedCursor) : CoreCarriedSyncPage :=
  if bool_decide (hints = []) || (budget_bytes =? 0) || (max_rows =? 0)
  then mk_page [] None (bool_decide (hints = []))
  else page_loop budget_bytes max_rows 0 0 None (carried_query d hints now_ms after).

Definition carried_envelopes_for_hints (d : engine_db) (hints : list bytes) (now_ms : Z)
  : list CarriedEnvelope :=
  pg_rows (carried_envelopes_for_hints_page d hints now_ms U64_MAX U32_MAX None).

Definition remove_carried_envelope (d : engine_db) (msg_id : bytes) : engine_db * bool :=
  let kept := filter (fun r => ce_msg_id (cr_envelope r) <> msg_id) (e_carried d) in
  (with_carried d kept, blen kept <? blen (e_carried d)).

Definition prune_expired_carried (d : engine_db) (now_ms : Z) : engine_db * Z :=
  let kept := filter (fun r => ~ (ce_expiry (cr_envelope r) <= now_ms)) (e_carried d) in
  (with_carried d kept, blen (e_carried d) - blen kept).

(** [ORDER BY received_at DESC, msg_id DESC LIMIT limit] *)
Definition carried_msg_ids_desc (d : engine_db) (limit : Z) : list bytes :=
  take (Z.to_nat limit) ((fun r => ce_msg_id (cr_envelope r)) <$> reverse (merge_sort carried_le (e_carried d))).

(** [WHERE msg_id IS NOT NULL ORDER BY id DESC LIMIT limit] *)
Definition recent_consumed_msg_ids (d : engine_db) (limit : Z) : list bytes :=
  take (Z.to_nat limit) (omap mr_msg_id (reverse (e_messages d))).

(** * Decisions *)

Definition core_pairwise_sender_authorized (kind : Z) (sender_is_contact sender_is_self : bool) : bool :=
  if core_is_sync_record_kind kind then sender_is_self else
  let recognized := existsb (Z.eqb kind)
    [KIND_TEXT; KIND_RECEIPT; KIND_FRIEND_REQUEST; KIND_GROUP_INVITE; KIND_PROFILE_SYNC;
     KIND_FRIEND_DIRECTORY; KIND_INTRODUCED_FRIEND_REQUEST; KIND_LAN_ENDPOINT_HINT;
     KIND_RELAY_UPDATE; KIND_ROSTER_GOSSIP; KIND_ATTACHMENT_MANIFEST; KIND_REACTION] in
  recognized && (sender_is_contact || sender_is_self
    || existsb (Z.eqb kind) [KIND_FRIEND_REQUEST; KIND_INTRODUCED_FRIEND_REQUEST]).

Definition core_inbound_gate (is_new_msg_id : bool) (hop_ttl expiry_ms now_ms : Z) : CoreInboundGate :=
  if negb is_new_msg_id then GateSeen
  else if expiry_ms <=? now_ms then GateExpired
  else if (DEFAULT_HOP_TTL <? hop_ttl) || (i64_saturating_add now_ms MAX_CARRY_FUTURE_MS <? expiry_ms)
  then GateRejected else GateDispatch.

Definition core_should_ack_inbound (disposition : CoreInboundDisposition) : bool :=
  bool_decide (disposition = Consumed).

Definition core_relay_ack_ids (items : list CoreRelayEnvelopeDisposition) : list Z :=
  it_relay_id <$> List.filter (fun i => core_should_ack_inbound (it_disposition i)) items.

Definition core_consumed_seen_is_ackable (origin : option MessageOrigin) (own_user_id : bytes) : bool :=
  match origin with
  | Some origin => bool_decide (mo_sender_user_id origin <> own_user_id)
                   && bool_decide (mo_chat_id origin = mo_sender_user_id origin)
  | None => false
  end.

Definition core_consumed_seen_is_ackable_with_hidden (origin : option MessageOrigin) (own_user_id : bytes)
  (recorded_consumed_hidden hint_is_own_self_hint : bool) : bool :=
  match origin with
  | Some _ => core_consumed_seen_is_ackable origin own_user_id
  | None => recorded_consumed_hidden && hint_is_own_self_hint
  end.

Definition core_hello_identity_matches (current : option bytes) (hello : bytes) : bool :=
  match current with None => true | Some current => bool_decide (current = hello) end.

(** The selection loop of one recipient's queue; [None] for the budget once it
    has stopped the whole walk. *)
Fixpoint select_queue (known : gset bytes) (now_ms budget_bytes used : Z) (pending : list OutboundEnvelope)
  : list OutboundEnvelope * option Z :=
  match pending with
  | [] => ([], Some used)
  | e :: pending =>
      if (oe_expiry e <=? now_ms) || bool_decide (oe_msg_id e ∈ known)
      then select_queue known now_ms budget_bytes used pending
      else if budget_bytes <? u64_saturating_add used (blen (oe_sealed e)) then ([], None)
      else let '(sel, used') := select_queue known now_ms budget_bytes (used + blen (oe_sealed e)) pending in
           (e :: sel, used')
  end.

Fixpoint select_recipients (known : gset bytes) (now_ms budget_bytes used : Z)
  (by_recipient : list (list OutboundEnvelope)) : list OutboundEnvelope :=
  match by_recipient with
  | [] => []
  | pending :: rest =>
      let '(sel, used') := select_queue known now_ms budget_bytes used pending in
      sel ++ match used' with
             | None => []
             | Some used' => select_recipients known now_ms budget_bytes used' rest
             end
  end.

Definition select_own_outbound (by_recipient : list (list OutboundEnvelope)) (known : gset bytes)
  (now_ms budget_bytes : Z) : list OutboundEnvelope :=
  select_recipients known now_ms budget_bytes 0 by_recipient.

Record OutgoingReceiptEnvelope : Type := mk_outgoing_receipt {
  re_msg_id : bytes;
  re_recipient_user_id : bytes;
  re_chat_id : bytes;
  re_sender_user_id : bytes;
  re_receipt_type : Z;
  re_through_lamport : Z;
  re_timestamp : Z;
  re_hop_ttl : Z;
  re_expiry : Z;
  re_recipient_hint : bytes;
  re_sealed : bytes;
}.

Fixpoint select_receipts (peer : bytes) (known : gset bytes) (now_ms budget_bytes used : Z)
  (pending : list OutgoingReceiptEnvelope) : list OutgoingReceiptEnvelope :=
  match pending with
  | [] => []
  | e :: pending =>
      if bool_decide (re_recipient_user_id e = peer) || (re_expiry e <=? now_ms)
         || bool_decide (re_msg_id e ∈ known)
      then select_receipts peer known now_ms budget_bytes used pending
      else if budget_bytes <? u64_saturating_add used (blen (re_sealed e)) then []
      else e :: select_receipts peer known now_ms budget_bytes (used + blen (re_sealed e)) pending
  end.

Definition select_own_receipts (pending : list OutgoingReceiptEnvelope) (peer : bytes) (known : gset bytes)
  (now_ms budget_bytes : Z) : list OutgoingReceiptEnvelope :=
  select_receipts peer known now_ms budget_bytes 0 pending.

Definition core_digest_advertised_msg_ids (d : engine_db) : list bytes :=
  let carried := carried_msg_ids_desc d DIGEST_ADVERTISED_CARRIED_SHARE in
  let remaining := u64_saturating_sub DIGEST_ADVERTISED_MSG_IDS_LIMIT (blen carried) in
  if remaining =? 0 then carried else carried ++ recent_consumed_msg_ids d remaining.

Section engine.
Context `{C : Crypto}.

Definition core_group_fanout_rows (original_msg_id : bytes) (members : list bytes) (hop_ttl expiry : Z)
  (sealed : bytes) (envelope_timestamp_ms : Z) : list CoreGroupFanoutRow :=
  (fun m => mk_fanout (fanout_msg_id original_msg_id m) hop_ttl expiry
              (compute_recipient_hint m envelope_timestamp_ms) sealed) <$> members.

Definition core_group_fanout_rows_for_carried (original_msg_id : bytes) (members : list bytes)
  (hop_ttl expiry : Z) (sealed : bytes) : list CoreGroupFanoutRow :=
  core_group_fanout_rows original_msg_id members hop_ttl expiry sealed (expiry - DEFAULT_EXPIRY_MS).

Definition core_device_fanout_rows (original_msg_id person_id : bytes) (devices : list bytes)
  (hop_ttl expiry : Z) (sealed : bytes) (envelope_timestamp_ms : Z) : list CoreGroupFanoutRow :=
  (fun device => mk_fanout (device_fanout_msg_id original_msg_id device) hop_ttl expiry
     (compute_recipient_hint (core_device_namespace_id person_id device) envelope_timestamp_ms) sealed)
    <$> devices.

Definition core_outbound_relay_rows (d : engine_db) (e : OutboundEnvelope) (own_user_id : bytes)
  (own_sibling_sealed : option bytes) : result CoreError (list CoreGroupFanoutRow) :=
  if negb (rt_advertise (e_routing d)) then Ok [] else
  if existsb (fun g => bool_decide (group_id g = oe_recipient_user_id e)) (rt_groups (e_routing d))
  then Err (Store "core_outbound_relay_rows is for 1:1 envelopes only; a group-addressed envelope fans out per member through core_group_fanout_rows") else
  let recipient_devices := active_device_ids (e_rosters d) (oe_recipient_user_id e) in
  let rows :=
    if blen recipient_devices <? 2
    then [mk_fanout (oe_msg_id e) (oe_hop_ttl e) (oe_expiry e) (oe_recipient_hint e) (oe_sealed e)]
    else core_device_fanout_rows (oe_msg_id e) (oe_recipient_user_id e) recipient_devices
           (oe_hop_ttl e) (oe_expiry e) (oe_sealed e) (oe_timestamp e) in
  Ok (match own_sibling_sealed with
      | None => rows
      | Some sealed =>
          let fleet := rt_fleet (e_routing d) in
          let siblings := List.filter (fun id => negb (bool_decide (Some id = own_device_id fleet)))
                            (device_ids fleet) in
          rows ++ core_device_fanout_rows (oe_msg_id e) own_user_id siblings
                    (oe_hop_ttl e) (oe_expiry e) sealed (oe_timestamp e)
      end).

(** The recent-day hints of every imported group. *)
Definition legacy_group_hints (st : routing) (now_ms : Z) : gset bytes :=
  list_to_set (concat ((fun g => hints_over_window (group_id g) now_ms CARRY_HINT_DAY_WINDOW_DAYS)
    <$> rt_groups st)).

(** One turn of the loop: is this item acknowledged? *)
Definition acks_item (d : engine_db) (own_user_id : bytes) (now_ms : Z)
  (i : CoreRelayEnvelopeDisposition) : bool :=
  if bool_decide (it_recipient_hint i ∈ legacy_group_hints (e_routing d) now_ms) then false else
  let fleet_hint := classify (own_fleet_hints (e_routing d) own_user_id now_ms) (it_recipient_hint i) in
  if bool_decide (fleet_hint = PersonShared) || bool_decide (fleet_hint = Sibling) then false else
  if core_should_ack_inbound (it_disposition i) then true else
  if bool_decide (it_disposition i = Seen) then
    let origin := message_origin_by_msg_id d (it_msg_id i) in
    let '(recorded_hidden, hint_is_own) :=
      match origin with
      | None => (consumed_hidden_msg_id_recorded d (it_msg_id i) now_ms,
                 bool_decide (fleet_hint = OwnDevice))
      | Some _ => (false, false)
      end in
    core_consumed_seen_is_ackable_with_hidden origin own_user_id recorded_hidden hint_is_own
  else false.

Definition core_relay_ack_ids_with_consumed (d : engine_db) (items : list CoreRelayEnvelopeDisposition)
  (own_user_id : bytes) (now_ms : Z) : list Z :=
  if negb (rt_ack (e_routing d)) then []
  else it_relay_id <$> List.filter (acks_item d own_user_id now_ms) items.

Definition core_record_consumed_hidden_msg_id (d : engine_db) (msg_id : bytes) (kind : Z)
  (recipient_hint : bytes) (expiry_ms : Z) (own_user_id : bytes) (now_ms : Z) : engine_db * bool :=
  if bool_decide (msg_id = []) || bool_decide (recipient_hint = []) || bool_decide (own_user_id = [])
  then (d, false)
  else if core_kind_persists_msg_id_row kind then (d, false)
  else if expiry_ms <=? now_ms then (d, false)
  else if negb (bool_decide (classify (own_fleet_hints (e_routing d) own_user_id now_ms) recipient_hint
                             = OwnDevice)) then (d, false)
  else if negb (bool_decide (groups_matching_hint (e_routing d) recipient_hint now_ms = [])) then (d, false)
  else insert_consumed_hidden_msg_id d msg_id
         (Z.min expiry_ms (i64_saturating_add now_ms MAX_CARRY_FUTURE_MS)).

Definition core_confirm_carried_deliveries (d : engine_db) (peer_user_id : bytes)
  (peer_known_msg_ids : list bytes) (peer_authenticated : bool) (now_ms : Z) : engine_db * Z :=
  if negb peer_authenticated then (d, 0)
  else if negb (rt_ack (e_routing d)) then (d, 0)
  else if bool_decide (peer_known_msg_ids = []) then (d, 0)
  else
    let peer_hints := (fun days_ago => compute_recipient_hint peer_user_id (now_ms - days_ago * MS_PER_DAY))
                        <$> seqZ 0 (CARRY_HINT_DAY_WINDOW_DAYS + 1) in
    let candidates := carried_envelopes_for_hints d peer_hints now_ms in
    let known : gset bytes := list_to_set peer_known_msg_ids in
    foldl (fun '(d, removed) c =>
             if bool_decide (ce_msg_id c ∈ known) then
               let '(d', gone) := remove_carried_envelope d (ce_msg_id c) in
               (d', if gone : bool then removed + 1 else removed)
             else (d, removed))
      (d, 0) candidates.

End engine.

(** * Acknowledgements *)

Section acks.
Context `{C : Crypto}.

(** The hint is one that [id] answers to over the carry window. *)
Definition answers (id : bytes) (now : Z) (h : bytes) : Prop :=
  exists k, 0 <= k <= CARRY_HINT_DAY_WINDOW_DAYS /\ h = compute_recipient_hint id (now - k * MS_PER_DAY).

Definition me (st : routing) : bytes := default LEGACY_DEVICE_ID (own_device_id (rt_fleet st)).

(** The person has other devices. *)
Definition linked (st : routing) : Prop := 2 <= blen (device_ids (rt_fleet st)).

(** The hint names this very device, or the person whose only device it is. *)
Definition names_me (st : routing) (own : bytes) (now : Z) (h : bytes) : Prop :=
  answers (core_device_namespace_id own (me st)) now h \/ (~ linked st /\ answers own now h).

(** Someone else reads this row too: a group, the person's other devices, or one of them. *)
Definition has_other_reader (st : routing) (own : bytes) (now : Z) (h : bytes) : Prop :=
  (exists g, g ∈ rt_groups st /\ answers (group_id g) now h) \/
  (linked st /\ ~ names_me st own now h /\
   (answers own now h \/
    exists dev, dev ∈ device_ids (rt_fleet st) /\ dev <> me st /\
                answers (core_device_namespace_id own dev) now h)).

(** The device read the row's envelope and nobody else has to. *)
Definition sole_consumer (d : engine_db) (own : bytes) (now : Z) (i : CoreRelayEnvelopeDisposition) : Prop :=
  ~ has_other_reader (e_routing d) own now (it_recipient_hint i) /\
  (it_disposition i = Consumed \/
   it_disposition i = Seen /\
   match message_origin_by_msg_id d (it_msg_id i) with
   | Some o => mo_sender_user_id o <> own /\ mo_chat_id o = mo_sender_user_id o
   | None => names_me (e_routing d) own now (it_recipient_hint i) /\
             exists e, e_hidden d !! it_msg_id i = Some e /\ now < e
   end).

Lemma elem_of_window id now h : h ∈ hints_over_range id now CARRY_HINT_DAY_WINDOW_DAYS 0 <-> answers id now h.
Proof. rewrite elem_of_hints. done. Qed.

Lemma elem_of_group_hints st now h : h ∈ legacy_group_hints st now <->
  exists g, g ∈ rt_groups st /\ answers (group_id g) now h.
Proof.
  unfold legacy_group_hints. rewrite elem_of_list_to_set, list_elem_of_In, List.in_concat. split.
  - intros (l & (g & -> & Hg)%list_elem_of_In%list_elem_of_fmap & Hh%list_elem_of_In%elem_of_window). by exists g.
  - intros (g & Hg & Hh). exists (hints_over_window (group_id g) now CARRY_HINT_DAY_WINDOW_DAYS).
    rewrite <-!list_elem_of_In. split; [apply list_elem_of_fmap; by exists g|by apply elem_of_window].
Qed.

Lemma elem_of_own st own now h : h ∈ fh_own (own_fleet_hints st own now) <-> names_me st own now h.
Proof.
  unfold own_fleet_hints, names_me, linked, me. destruct (Z.ltb_spec (blen (device_ids (rt_fleet st))) 2); cbn [fh_own].
  - rewrite elem_of_union, !elem_of_list_to_set. unfold hints_over_window, device_hints_over_range.
    rewrite !elem_of_window. split; [intros [?|?]; [by left|right; split; [lia|done]]|tauto].
  - rewrite elem_of_list_to_set. unfold device_hints_over_range. rewrite elem_of_window.
    split; [by left|]. intros [?|[? _]]; [done|lia].
Qed.

Lemma elem_of_sibling st own now h : h ∈ fh_sibling (own_fleet_hints st own now) <->
  linked st /\ exists dev, dev ∈ device_ids (rt_fleet st) /\ dev <> me st /\
                           answers (core_device_namespace_id own dev) now h.
Proof.
  unfold own_fleet_hints, linked, me. destruct (Z.ltb_spec (blen (device_ids (rt_fleet st))) 2) as [Hlt|Hge]; cbn [fh_sibling].
  { split; [set_solver|lia]. }
  rewrite elem_of_list_to_set, list_elem_of_In, List.in_concat. split.
  - intros (l & (dev & -> & Hd)%list_elem_of_In%list_elem_of_fmap & Hh%list_elem_of_In%elem_of_window).
    apply list_elem_of_In, List.filter_In in Hd as [Hd Hne]. bools. apply list_elem_of_In in Hd. split; [done|]. by exists dev.
  - intros (_ & dev & Hd & Hne & Hh). exists (device_hints_over_range own dev now 0).
    rewrite <-!list_elem_of_In. split; [|by apply elem_of_window].
    apply list_elem_of_fmap. exists dev. split; [done|]. apply list_elem_of_In, List.filter_In.
    split; [by apply list_elem_of_In|]. by rewrite bool_decide_false.
Qed.

Lemma elem_of_shared st own now h : h ∈ fh_person_shared (own_fleet_hints st own now) <-> linked st /\ answers own now h.
Proof.
  unfold own_fleet_hints, linked. destruct (Z.ltb_spec (blen (device_ids (rt_fleet st))) 2); cbn [fh_person_shared].
  - split; [set_solver|lia].
  - rewrite elem_of_list_to_set. unfold hints_over_window. rewrite elem_of_window. tauto.
Qed.

(** The two ways [classify] is read. *)
Lemma classify_own st own now h : classify (own_fleet_hints st own now) h = OwnDevice <-> names_me st own now h.
Proof. rewrite <-elem_of_own. unfold classify. repeat case_bool_decide; naive_solver. Qed.

Lemma classify_shared st own now h :
  classify (own_fleet_hints st own now) h = PersonShared \/
  classify (own_fleet_hints st own now) h = Sibling <->
  linked st /\ ~ names_me st own now h /\
  (answers own now h \/ exists dev, dev ∈ device_ids (rt_fleet st) /\ dev <> me st /\
                                    answers (core_device_namespace_id own dev) now h).
Proof.
  transitivity (h ∉ fh_own (own_fleet_hints st own now) /\
    (h ∈ fh_person_shared (own_fleet_hints st own now) \/ h ∈ fh_sibling (own_fleet_hints st own now))).
  - unfold classify. repeat case_bool_decide; naive_solver.
  - rewrite elem_of_own, elem_of_shared, elem_of_sibling. tauto.
Qed.

Lemma acks_item_spec d own now i : acks_item d own now i = true <-> sole_consumer d own now i.
Proof.
  unfold acks_item, sole_consumer, has_other_reader.
  rewrite <-(elem_of_group_hints (e_routing d)), <-classify_shared.
  pose proof (classify_own (e_routing d) own now (it_recipient_hint i)) as Hown.
  set (place := classify _ _) in *. case_bool_decide as Hg; [split; [done|tauto]|].
  destruct (decide (place = PersonShared \/ place = Sibling)) as [Hp|Hp].
  { assert (bool_decide (place = PersonShared) || bool_decide (place = Sibling) = true) as ->.
    { apply orb_true_iff. rewrite !bool_decide_eq_true. done. }
    split; [done|]. tauto. }
  rewrite !bool_decide_false by tauto. cbn [orb]. unfold core_should_ack_inbound.
  destruct (decide (it_disposition i = Consumed)) as [Hc|Hc].
  { rewrite bool_decide_true by done. tauto. }
  rewrite bool_decide_false by done. destruct (decide (it_disposition i = Seen)) as [Hs|Hs].
  2:{ rewrite bool_decide_false by done. split; [done|tauto]. }
  rewrite bool_decide_true by done. unfold core_consumed_seen_is_ackable_with_hidden.
  destruct (message_origin_by_msg_id d (it_msg_id i)) as [o|]; cbn [core_consumed_seen_is_ackable].
  - rewrite andb_true_iff, !bool_decide_eq_true. tauto.
  - rewrite andb_true_iff, bool_decide_eq_true, Hown. unfold consumed_hidden_msg_id_recorded.
    destruct (e_hidden d !! it_msg_id i) as [e|].
    + rewrite Z.ltb_lt. split; [intros [? ?]; split; [tauto|]; right; split; [done|]; split; [done|]; by exists e|].
      intros (_ & [?|(_ & ? & e' & [= <-] & ?)]); done.
    + split; [by intros [? _]|]. by intros (_ & [?|(_ & _ & e' & [=] & _)]).
Qed.

Lemma acked_spec d items own now id :
  id ∈ core_relay_ack_ids_with_consumed d items own now <->
  rt_ack (e_routing d) = true /\ exists i, i ∈ items /\ it_relay_id i = id /\ sole_consumer d own now i.
Proof.
  unfold core_relay_ack_ids_with_consumed. destruct (rt_ack (e_routing d)); cbn [negb].
  - rewrite list_elem_of_fmap. split.
    + intros (i & -> & [Hi Ha]%list_elem_of_In%List.filter_In). split; [done|]. exists i.
      split; [by apply list_elem_of_In|]. split; [done|]. by apply acks_item_spec.
    + intros [_ (i & Hi & <- & Hs)]. exists i. split; [done|]. apply list_elem_of_In, List.filter_In.
      split; [by apply list_elem_of_In|by apply acks_item_spec].
  - split; [by intros ?%not_elem_of_nil|by intros [? _]].
Qed.

Lemma answers_live id t now : live t now -> answers id now (compute_recipient_hint id t).
Proof. intros Hl. apply elem_of_window. by apply live_hint. Qed.

Lemma answers_dec id now h : answers id now h <->
  bool_decide (h ∈ hints_over_range id now CARRY_HINT_DAY_WINDOW_DAYS 0) = true.
Proof. by rewrite bool_decide_eq_true, elem_of_window. Qed.

(** [d] is the store of [dev], one of the person's devices [ds]. *)
Definition fleet_of (d : engine_db) (dev : bytes) (ds : list bytes) : Prop :=
  rt_fleet (e_routing d) = mk_fleet (Some dev) ds.

Lemma me_fleet d dev ds : fleet_of d dev ds -> me (e_routing d) = dev.
Proof. unfold fleet_of, me. by intros ->. Qed.

Lemma linked_fleet d dev ds : fleet_of d dev ds -> 2 <= blen ds -> linked (e_routing d).
Proof. unfold fleet_of, linked. by intros ->. Qed.

End acks.

(** ** The consumed-hidden set *)

Section hidden.
Context `{C : Crypto}.

Lemma list_to_map_size (l : list (bytes * Z)) :
  (size (list_to_map l : gmap bytes Z) <= length l)%nat.
Proof.
  induction l as [|[k v] l IH]; [done|]. rewrite list_to_map_cons, map_size_insert. cbn [length].
  destruct (_ !! k); cbn; lia.
Qed.

(** What an insertion leaves: old rows, and the new one with its expiry. *)
Lemma insert_hidden_spec d m e limit : 0 <= limit ->
  let '(d', present) := insert_consumed_hidden_msg_id_capped d m e limit in
  e_routing d' = e_routing d /\
  Z.of_nat (size (e_hidden d')) <= limit /\
  (forall m' e', e_hidden d' !! m' = Some e' -> e_hidden d !! m' = Some e' \/ (m' = m /\ e' = e)) /\
  (present = true <-> is_Some (e_hidden d' !! m)).
Proof.
  intros Hl. unfold insert_consumed_hidden_msg_id_capped.
  set (x := match e_hidden d !! m with Some old => Z.max old e | None => e end).
  assert (forall m' e', <[m := x]> (e_hidden d) !! m' = Some e' ->
    e_hidden d !! m' = Some e' \/ (m' = m /\ e' = e)) as Hin.
  { intros m' e' [[<- <-]|[? ?]]%lookup_insert_Some; [|by left]. unfold x.
    destruct (e_hidden d !! m) as [old|]; [|by right].
    destruct (Z.max_spec old e) as [[_ ->]|[_ ->]]; [by right|by left]. }
  cbn [e_routing e_hidden with_hidden]. split_and!; [done| | |by rewrite bool_decide_eq_true].
  - case_match eqn:E; bools; [|lia]. pose proof (list_to_map_size (take (Z.to_nat limit) (merge_sort hidden_le (map_to_list (<[m:=x]> (e_hidden d)))))) as Hs.
    rewrite length_take in Hs. lia.
  - case_match; [|done]. intros m' e' Hm%elem_of_list_to_map_2. apply Hin.
    apply elem_of_map_to_list. rewrite <-(merge_sort_Permutation hidden_le). by eapply subseteq_take.
Qed.
(** A call to [core_record_consumed_hidden_msg_id]. *)
Record record_call : Type := mk_call {
  rc_msg_id : bytes; rc_kind : Z; rc_hint : bytes; rc_expiry : Z; rc_own : bytes; rc_now : Z;
}.

(** What happens to the set over time: records, prunings, and changes to everything
    else (routing, messages, rosters, the carry queue). *)
Inductive hidden_event : Type :=
| EvRecord (c : record_call)
| EvPrune (now : Z)
| EvElsewhere (other : engine_db).

Definition hidden_step (d : engine_db) (ev : hidden_event) : engine_db :=
  match ev with
  | EvRecord c => (core_record_consumed_hidden_msg_id d (rc_msg_id c) (rc_kind c) (rc_hint c)
                     (rc_expiry c) (rc_own c) (rc_now c)).1
  | EvPrune now => (prune_expired_consumed_hidden_msg_ids d now).1
  | EvElsewhere other => with_hidden other (e_hidden d)
  end.

Definition hidden_run (d : engine_db) (evs : list hidden_event) : engine_db := foldl hidden_step d evs.

(** The call may remember its message: no message row ever will, it is live, and the
    row it came in named this device and no group. *)
Definition licensed (d : engine_db) (c : record_call) : Prop :=
  core_kind_persists_msg_id_row (rc_kind c) = false /\ rc_now c < rc_expiry c /\
  names_me (e_routing d) (rc_own c) (rc_now c) (rc_hint c) /\
  groups_matching_hint (e_routing d) (rc_hint c) (rc_now c) = [].

(** Until when a licensed call is remembered. *)
Definition remembered_until (c : record_call) : Z :=
  Z.min (rc_expiry c) (i64_saturating_add (rc_now c) MAX_CARRY_FUTURE_MS).

Lemma record_hidden_spec d c :
  let d' := hidden_step d (EvRecord c) in
  e_hidden d' = e_hidden d \/
  licensed d c /\ Z.of_nat (size (e_hidden d')) <= CONSUMED_HIDDEN_MSG_ID_LIMIT /\
  forall m e, e_hidden d' !! m = Some e ->
    e_hidden d !! m = Some e \/ (m = rc_msg_id c /\ e = remembered_until c).
Proof.
  cbn [hidden_step]. unfold core_record_consumed_hidden_msg_id.
  destruct (_ || _); [by left|]. destruct (core_kind_persists_msg_id_row _) eqn:Ek; [by left|].
  destruct (Z.leb_spec (rc_expiry c) (rc_now c)) as [Hx|Hx]; [by left|].
  case_bool_decide as Hp; cbn [negb]; [|by left]. case_bool_decide as Hg; cbn [negb]; [|by left].
  unfold insert_consumed_hidden_msg_id. fold (remembered_until c).
  pose proof (insert_hidden_spec d (rc_msg_id c) (remembered_until c) CONSUMED_HIDDEN_MSG_ID_LIMIT) as H.
  destruct (insert_consumed_hidden_msg_id_capped _ _ _ _) as [d' present]. right.
  destruct H as (_ & Hs & Hin & _); [done|]. unfold licensed. rewrite <-classify_own. by split_and!.
Qed.

(** Each remembered id was licensed by some call of the history. *)
Lemma hidden_history evs : forall d, e_hidden d = ∅ ->
  Z.of_nat (size (e_hidden (hidden_run d evs))) <= CONSUMED_HIDDEN_MSG_ID_LIMIT /\
  forall m e, e_hidden (hidden_run d evs) !! m = Some e ->
  exists before c after, evs = before ++ EvRecord c :: after /\ rc_msg_id c = m /\
    e = remembered_until c /\ licensed (hidden_run d before) c.
Proof.
  induction evs as [|ev evs IH] using rev_ind; intros d Hd.
  { cbn. rewrite Hd. split; [done|]. intros m e. by rewrite lookup_empty. }
  destruct (IH d Hd) as [Hs Hold]. unfold hidden_run in *. rewrite foldl_app. cbn [foldl].
  set (d1 := foldl hidden_step d evs) in *.
  assert (forall m e, e_hidden d1 !! m = Some e -> exists before c after, evs ++ [ev] = before ++ EvRecord c :: after /\
    rc_msg_id c = m /\ e = remembered_until c /\ licensed (foldl hidden_step d before) c) as Hold'.
  { intros m e (b & c & a & -> & ?)%Hold. exists b, c, (a ++ [ev]). by rewrite <-app_assoc. }
  destruct ev as [c|now|other].
  - destruct (record_hidden_spec d1 c) as [->|(Hlic & Hs' & Hin)]; [done|].
    split; [done|]. intros m e [?|[-> ->]]%Hin; [by apply Hold'|]. by exists evs, c, [].
  - cbn [hidden_step prune_expired_consumed_hidden_msg_ids fst e_hidden with_hidden]. split.
    + etrans; [|exact Hs]. apply inj_le. apply map_subseteq_size, map_filter_subseteq.
    + intros m e [? _]%map_lookup_filter_Some. by apply Hold'.
  - done.
Qed.

End hidden.

(** * Confirmed deliveries *)

Notation row_id r := (ce_msg_id (cr_envelope r)).

(** [msg_id BLOB PRIMARY KEY], and sizes a page walk can count. *)
Record carried_ok (d : engine_db) : Prop := {
  ck_key : NoDup ((fun r => row_id r) <$> e_carried d);
  ck_rows : blen (e_carried d) <= U32_MAX;
  ck_sizes : Forall (fun r => blen (ce_sealed (cr_envelope r)) <= U64_MAX) (e_carried d);
}.

Lemma page_loop_unlimited rows : Forall (fun r => blen (ce_sealed (cr_envelope r)) <= U64_MAX) rows ->
  forall used n next, 0 <= n -> n + blen rows <= U32_MAX ->
  pg_rows (page_loop U64_MAX U32_MAX used n next rows) = cr_envelope <$> rows.
Proof.
  induction 1 as [|r rows Hr _ IH]; intros used n next Hn Hl; [done|]. rewrite blen_cons in Hl.
  pose proof (blen_nonneg rows). cbn [page_loop fmap list_fmap]. rewrite (proj2 (Z.leb_gt _ _)) by lia.
  rewrite (proj2 (Z.ltb_ge U64_MAX (u64_saturating_add _ _))) by ints. rewrite andb_false_r.
  rewrite (proj2 (Z.ltb_ge U64_MAX (blen _))) by done. rewrite andb_false_r.
  cbn [pg_rows]. rewrite IH by lia. done.
Qed.

Lemma carried_query_perm d hints now after : carried_query d hints now after ≡ₚ
  filter (fun r => now < ce_expiry (cr_envelope r) /\ ce_recipient_hint (cr_envelope r) ∈ hints
                   /\ after_cursor after r = true) (e_carried d).
Proof. apply merge_sort_Permutation. Qed.

Lemma carried_for_hints_elem d hints now e : carried_ok d ->
  e ∈ carried_envelopes_for_hints d hints now <->
  exists r, r ∈ e_carried d /\ cr_envelope r = e /\ now < ce_expiry e /\ ce_recipient_hint e ∈ hints.
Proof.
  intros [_ Hrows Hsizes]. unfold carried_envelopes_for_hints, carried_envelopes_for_hints_page.
  case_bool_decide as Hh; [subst; cbn; split; [by intros ?%not_elem_of_nil|]; by intros (r & _ & _ & _ & ?%not_elem_of_nil)|].
  cbn [orb Z.eqb U64_MAX U32_MAX]. pose proof (carried_query_perm d hints now None) as Hperm.
  rewrite page_loop_unlimited.
  - rewrite list_elem_of_fmap. setoid_rewrite Hperm. setoid_rewrite list_elem_of_filter. split.
    + intros (r & -> & (? & ? & _) & ?). by exists r.
    + intros (r & ? & <- & ? & ?). exists r. by split_and!.
  - rewrite Hperm. apply Forall_forall. intros r [_ Hr]%list_elem_of_filter.
    rewrite Forall_forall in Hsizes. by apply Hsizes.
  - done.
  - unfold blen in *. rewrite (Permutation_length Hperm).
    pose proof (length_filter (fun r => now < ce_expiry (cr_envelope r) /\
      ce_recipient_hint (cr_envelope r) ∈ hints /\ after_cursor None r = true) (e_carried d)). lia.
Qed.

Lemma remove_spec d id : NoDup ((fun r => row_id r) <$> e_carried d) ->
  let '(d', gone) := remove_carried_envelope d id in
  e_carried d' = filter (fun r => row_id r <> id) (e_carried d) /\
  e_routing d' = e_routing d /\
  blen (e_carried d) = blen (e_carried d') + (if gone then 1 else 0).
Proof.
  intros Hn. unfold remove_carried_envelope. cbn [e_carried with_carried e_routing].
  split; [done|]. split; [done|]. revert Hn. generalize (e_carried d). intros l.
  assert (NoDup ((fun r => row_id r) <$> l) ->
    blen l = blen (filter (fun r => row_id r <> id) l)
             + (if bool_decide (id ∈ (fun r => row_id r) <$> l) then 1 else 0)) as H.
  { induction l as [|r l IH]; [done|]. cbn [fmap list_fmap]. intros [Hr Hn]%NoDup_cons. specialize (IH Hn).
    rewrite filter_cons. destruct (decide (row_id r = id)) as [<-|Hne].
    - rewrite decide_False by tauto. rewrite bool_decide_false in IH by done.
      rewrite bool_decide_true by left. rewrite blen_cons. lia.
    - rewrite decide_True by done. rewrite !blen_cons.
      rewrite (bool_decide_ext _ (id ∈ (fun r => row_id r) <$> l)) by (rewrite elem_of_cons; naive_solver). lia. }
  intros Hn. specialize (H Hn). destruct (Z.ltb_spec (blen (filter (fun r => row_id r <> id) l)) (blen l));
    case_bool_decide; lia.
Qed.

(** What the fold over candidates [cs] leaves. *)
Lemma confirm_fold (known : gset bytes) cs : forall d removed, NoDup ((fun r => row_id r) <$> e_carried d) ->
  let '(d', removed') := foldl (fun '(d, removed) c =>
      if bool_decide (ce_msg_id c ∈ known) then
        let '(d', gone) := remove_carried_envelope d (ce_msg_id c) in
        (d', if gone : bool then removed + 1 else removed)
      else (d, removed)) (d, removed) cs in
  e_carried d' = filter (fun r => ~ (row_id r ∈ known /\ row_id r ∈ ce_msg_id <$> cs)) (e_carried d) /\
  e_routing d' = e_routing d /\ removed' - removed = blen (e_carried d) - blen (e_carried d').
Proof.
  induction cs as [|c cs IH]; intros d removed Hn; cbn [foldl fmap list_fmap].
  { split_and!; [|done|lia]. symmetry. apply filter_all, Forall_forall.
    intros r _ [_ ?%not_elem_of_nil]. done. }
  case_bool_decide as Hk.
  - pose proof (remove_spec d (ce_msg_id c) Hn) as Hr.
    destruct (remove_carried_envelope d (ce_msg_id c)) as [d1 gone]. destruct Hr as (Hc1 & Hr1 & Hl1).
    assert (NoDup ((fun r => row_id r) <$> e_carried d1)) as Hn1.
    { rewrite Hc1. by apply nodup_filter_fmap. }
    specialize (IH d1 (if gone then removed + 1 else removed) Hn1).
    destruct (foldl _ _ cs) as [d2 removed2]. destruct IH as (Hc2 & Hr2 & Hl2).
    split_and!; [|congruence|destruct gone; lia]. rewrite Hc2, Hc1, list_filter_filter.
    apply list_filter_iff. intros r. rewrite elem_of_cons. split.
    + intros [H1 H2] [H3 [H4|H4]]; tauto.
    + intros H1. split; [tauto|]. intros H2. apply H1. rewrite H2. tauto.
  - specialize (IH d removed Hn). destruct (foldl _ _ cs) as [d2 removed2]. destruct IH as (Hc2 & Hr2 & Hl2).
    split_and!; [|done|done]. rewrite Hc2. apply list_filter_iff. intros r. rewrite elem_of_cons. split.
    + intros H1 [H2 [H3|H3]]; [|tauto]. apply Hk. by rewrite <-H3.
    + tauto.
Qed.

(** A row a peer's digest retires: addressed to the peer, live, and held by it. *)
Definition retired `{C : Crypto} (peer : bytes) (known : list bytes) (now : Z) (r : carried_row) : Prop :=
  row_id r ∈ known /\ now < ce_expiry (cr_envelope r) /\
  ce_recipient_hint (cr_envelope r) ∈ recent_hints_for peer now.

#[global] Instance retired_dec `{C : Crypto} peer known now r : Decision (retired peer known now r).
Proof. unfold retired. apply _. Defined.

Lemma confirm_carried `{C : Crypto} d peer known now : carried_ok d -> rt_ack (e_routing d) = true ->
  let '(d', removed) := core_confirm_carried_deliveries d peer known true now in
  e_carried d' = filter (fun r => ~ retired peer known now r) (e_carried d) /\
  removed = blen (e_carried d) - blen (e_carried d').
Proof.
  intros K Ha. unfold core_confirm_carried_deliveries. rewrite Ha. cbn [negb].
  case_bool_decide as Hk.
  { subst. split; [|lia]. symmetry. apply filter_all, Forall_forall. intros r _ [?%not_elem_of_nil _]. done. }
  set (cs := carried_envelopes_for_hints d _ now).
  pose proof (confirm_fold (list_to_set known) cs d 0 (ck_key d K)) as H.
  destruct (foldl _ _ cs) as [d' removed]. destruct H as (Hc & _ & Hl). split; [|lia].
  rewrite Hc. apply filter_iff_in. intros r Hr. apply not_iff_compat.
  unfold retired. rewrite elem_of_list_to_set. split.
  - intros [Hk' (e & He & Hin)%list_elem_of_fmap]. split; [done|].
    apply (carried_for_hints_elem d _ now e K) in Hin as (r' & Hr' & <- & ? & ?).
    by rewrite (nodup_key _ _ r r' (ck_key d K) Hr Hr' He).
  - intros (Hk' & Hx & Hh). split; [done|]. apply list_elem_of_fmap. exists (cr_envelope r).
    split; [done|]. apply (carried_for_hints_elem d _ now _ K). by exists r.
Qed.

(** ** The key order of blobs *)

Lemma blob_leb_refl a : blob_leb a a = true.
Proof. induction a as [|x a IH]; [done|]. cbn. by rewrite Z.ltb_irrefl. Qed.

Lemma blob_leb_total a b : blob_leb a b = true \/ blob_leb b a = true.
Proof.
  revert b. induction a as [|x a IH]; intros [|y b]; cbn; auto.
  destruct (Z.ltb_spec (Z_of_byte x) (Z_of_byte y)), (Z.ltb_spec (Z_of_byte y) (Z_of_byte x)); auto.
Qed.

Lemma blob_leb_trans a b c : blob_leb a b = true -> blob_leb b c = true -> blob_leb a c = true.
Proof.
  revert b c. induction a as [|x a IH]; intros [|y b] [|z c]; cbn; try done.
  destruct (Z.ltb_spec (Z_of_byte x) (Z_of_byte y)), (Z.ltb_spec (Z_of_byte y) (Z_of_byte z)),
    (Z.ltb_spec (Z_of_byte x) (Z_of_byte z)), (Z.ltb_spec (Z_of_byte y) (Z_of_byte x)),
    (Z.ltb_spec (Z_of_byte z) (Z_of_byte y)), (Z.ltb_spec (Z_of_byte z) (Z_of_byte x)); try done; try lia.
  apply IH.
Qed.

Lemma blob_leb_antisym a b : blob_leb a b = true -> blob_leb b a = true -> a = b.
Proof.
  revert b. induction a as [|x a IH]; intros [|y b]; cbn; try done.
  destruct (Z.ltb_spec (Z_of_byte x) (Z_of_byte y)), (Z.ltb_spec (Z_of_byte y) (Z_of_byte x)); try done; try lia.
  intros H1 H2. f_equal; [apply Z_of_byte_inj; lia|by apply IH].
Qed.

#[global] Instance carried_le_trans : Transitive carried_le.
Proof.
  intros a b c [Hab|[Hab Hab']] [Hbc|[Hbc Hbc']]; unfold carried_le; [left; lia..|].
  right. split; [lia|]. by eapply blob_leb_trans.
Qed.

#[global] Instance carried_le_total : Total carried_le.
Proof.
  intros a b. unfold carried_le. destruct (blob_leb_total (row_id a) (row_id b)); lia || tauto || idtac.
  - destruct (Z.lt_trichotomy (cr_received_at a) (cr_received_at b)) as [?|[?|?]]; tauto.
  - destruct (Z.lt_trichotomy (cr_received_at a) (cr_received_at b)) as [?|[?|?]]; auto.
Qed.

#[global] Instance hidden_le_trans : Transitive hidden_le.
Proof.
  intros a b c [Hab|[Hab Hab']] [Hbc|[Hbc Hbc']]; unfold hidden_le; [left; lia..|].
  right. split; [lia|]. by eapply blob_leb_trans.
Qed.

#[global] Instance hidden_le_total : Total hidden_le.
Proof.
  intros a b. unfold hidden_le.
  destruct (blob_leb_total a.1 b.1), (Z.lt_trichotomy a.2 b.2) as [?|[?|?]]; auto.
Qed.

(** ** Paging through the carry queue *)

(** Strictly after a row, for the resume predicate, is strictly after it in the order. *)
Lemma after_cursor_spec r x : after_cursor (Some (cursor_of r)) x = true <->
  carried_le r x /\ row_id x <> row_id r \/ cr_received_at r < cr_received_at x.
Proof.
  unfold after_cursor, cursor_of, carried_le. cbn [cu_received_at cu_msg_id].
  rewrite orb_true_iff, !andb_true_iff, Z.ltb_lt, Z.eqb_eq, negb_true_iff, bool_decide_eq_false.
  split; [|naive_solver lia]. intros [?|[[? ?] ?]]; [tauto|]. left. split; [right; split; [lia|done]|done].
Qed.

Lemma carried_le_antisym a b : carried_le a b -> carried_le b a -> row_id a = row_id b.
Proof. intros [?|[? ?]] [?|[? ?]]; [lia..|]. by apply blob_leb_antisym. Qed.

Lemma resume_filter pre r post : StronglySorted carried_le (pre ++ r :: post) ->
  NoDup ((fun x => row_id x) <$> pre ++ r :: post) ->
  filter (fun x => after_cursor (Some (cursor_of r)) x = true) (pre ++ r :: post) = post.
Proof.
  intros (Hpre & _ & Hs)%StronglySorted_app Hn. inversion Hs as [|? ? Hs' Hr]; subst.
  rewrite fmap_app, fmap_cons in Hn.
  apply NoDup_app in Hn as (_ & Hdis & [Hnr _]%NoDup_cons).
  rewrite filter_app, filter_cons_False, filter_none, app_nil_l; [apply filter_all| |].
  - apply Forall_forall. intros x Hx. apply after_cursor_spec. left.
    rewrite Forall_forall in Hr. split; [by apply Hr|]. intros He. apply Hnr. rewrite <-He.
    by apply (list_elem_of_fmap_2 (fun x => row_id x)).
  - apply Forall_forall. intros x Hx Ha%after_cursor_spec.
    assert (carried_le x r) as Hxr by (apply Hpre; [done|left]).
    destruct Ha as [[Hle Hne]|Hlt]; [by apply Hne, carried_le_antisym|].
    destruct Hxr; lia.
  - intros [[_ ?]|?]%after_cursor_spec; [done|lia].
Qed.

Lemma after_cursor_trans c r x : after_cursor (Some c) r = true ->
  after_cursor (Some (cursor_of r)) x = true -> after_cursor (Some c) x = true.
Proof.
  destruct c as [t id]. rewrite !(after_cursor_spec (mk_crow (mk_carried id 0 0 [] []) t)), after_cursor_spec.
  generalize (mk_crow (mk_carried id 0 0 [] []) t). intros c.
  intros [[[?|[? H1]] H2]|?] [[[?|[? H3]] H4]|?]; [right; lia|right; lia|right; lia|right; lia| |right; lia..].
  left. split; [right; split; [lia|by eapply blob_leb_trans]|].
  intros He. apply H2. apply blob_leb_antisym; [by rewrite <-He|done].
Qed.

(** Resuming after a row the query returned gives the rows it listed behind that row. *)
Lemma carried_query_resume d hints now after pre r post : carried_ok d ->
  carried_query d hints now after = pre ++ r :: post ->
  carried_query d hints now (Some (cursor_of r)) = post.
Proof.
  intros K Hq. pose proof (carried_query_perm d hints now after) as Hp.
  assert (NoDup ((fun x => row_id x) <$> pre ++ r :: post)) as Hn.
  { rewrite <-Hq, Hp. apply nodup_filter_fmap, K. }
  assert (StronglySorted carried_le (pre ++ r :: post)) as Hs.
  { rewrite <-Hq. apply StronglySorted_merge_sort; apply _. }
  assert (carried_query d hints now (Some (cursor_of r)) ≡ₚ post) as Hperm.
  { rewrite carried_query_perm, <-(resume_filter pre r post Hs Hn) at 1. rewrite <-Hq, Hp.
    rewrite list_filter_filter. erewrite filter_iff_in; [reflexivity|]. intros x Hx. split; [|tauto].
    intros (H1 & H2 & H3). split_and!; try done. destruct after as [c|]; [|done].
    assert (r ∈ carried_query d hints now (Some c)) as Hr by (rewrite Hq; set_solver).
    rewrite carried_query_perm in Hr. apply list_elem_of_filter in Hr as [(_ & _ & Hr) _].
    eapply after_cursor_trans; eassumption. }
  apply (StronglySorted_unique_strong carried_le); [|apply StronglySorted_merge_sort; apply _| |exact Hperm].
  - intros x y Hx Hy H1 H2. rewrite Hperm in Hx.
    eapply (nodup_key (fun x => row_id x)); [exact Hn|set_solver..|]. by apply carried_le_antisym.
  - apply StronglySorted_app in Hs as (_ & _ & Hs). by inversion Hs.
Qed.

(** Bytes a list of envelopes occupies. *)
Definition sealed_bytes (es : list CarriedEnvelope) : Z := foldr (fun e n => blen (ce_sealed e) + n) 0 es.

Lemma sealed_bytes_nonneg es : 0 <= sealed_bytes es.
Proof.
  induction es as [|e es IH]; [done|]. unfold sealed_bytes in *. cbn [foldr].
  apply Z.add_nonneg_nonneg; auto with mesh.
Qed.

(** The limits of a page after [used] bytes: its rows, and its bytes unless all but
    the last envelope are empty (an oversized envelope is offered alone). *)
Definition page_fits (budget max_rows used n : Z) (es : list CarriedEnvelope) : Prop :=
  n + blen es <= max_rows /\
  (es = [] \/ used + sealed_bytes es <= budget \/ used + sealed_bytes (removelast es) = 0).

Lemma page_fits_nil budget max_rows used n : n <= max_rows -> page_fits budget max_rows used n [].
Proof. intros H. split; [lens|by left]. Qed.

Lemma page_fits_cons budget max_rows used n e es : budget < U64_MAX -> 0 <= used ->
  u64_saturating_add used (blen (ce_sealed e)) <= budget ->
  page_fits budget max_rows (u64_saturating_add used (blen (ce_sealed e))) (n + 1) es ->
  page_fits budget max_rows used n (e :: es).
Proof.
  intros Hb Hu Hs [Hl Hbytes]. pose proof (blen_nonneg (ce_sealed e)).
  split; [lens|]. right. destruct es as [|e' es]; [left; cbn; ints|].
  pose proof (sealed_bytes_nonneg (removelast (e' :: es))).
  destruct Hbytes as [?|[Hb'|Hb']]; [done|left|right];
    cbn [sealed_bytes foldr removelast] in *; fold sealed_bytes in *; ints.
Qed.

(** A page is a prefix of the rows, within its limits, and never empty when there
    are rows. *)
Lemma page_loop_spec budget max_rows rows : budget < U64_MAX -> forall used n next, 0 <= used -> n <= max_rows ->
  let page := page_loop budget max_rows used n next rows in
  page_fits budget max_rows used n (pg_rows page) /\
  exists pre post, rows = pre ++ post /\ pg_rows page = cr_envelope <$> pre /\
    pg_next page = match last pre with Some r => Some (cursor_of r) | None => next end /\
    (pg_exhausted page = true -> post = []) /\
    (pg_exhausted page = false -> used = 0 -> n < max_rows -> pre <> []).
Proof.
  intros Hb. induction rows as [|r rows IH]; intros used n next Hu Hn; cbn [page_loop].
  { split; [by apply page_fits_nil|]. by exists [], []. }
  pose proof (blen_nonneg (ce_sealed (cr_envelope r))) as Hsz.
  set (size := blen (ce_sealed (cr_envelope r))) in *.
  destruct (Z.leb_spec max_rows n) as [Hm|Hm].
  { split; [by apply page_fits_nil|]. exists [], (r :: rows). cbn. split_and!; try done. lia. }
  destruct ((0 <? used) && (budget <? u64_saturating_add used size)) eqn:E1.
  { bools. split; [by apply page_fits_nil|]. exists [], (r :: rows). cbn. split_and!; try done. lia. }
  destruct ((used =? 0) && (budget <? size)) eqn:E2.
  { bools. split; [split; [unfold blen; cbn; lia|]; right; right; cbn; lia|]. by exists [r], rows. }
  destruct (IH (u64_saturating_add used size) (n + 1) (Some (cursor_of r)))
    as (Hfit & pre & post & -> & Hr & Hx & He & _); [ints|lia|].
  cbn [pg_rows pg_next pg_exhausted]. split.
  - apply page_fits_cons; [done|done| |done]. fold size.
    apply andb_false_iff in E1, E2. rewrite Z.ltb_ge in E1, E2. rewrite Z.ltb_ge in E1. rewrite Z.eqb_neq in E2. ints.
  - exists (r :: pre), post. rewrite Hr, Hx, last_cons. split_and!; try done. by destruct (last pre).
Qed.

(** A peer that pages through the queue until a page says there is no more. *)
Fixpoint carry_walk (fuel : nat) (d : engine_db) (hints : list bytes) (now budget max_rows : Z)
  (after : option CoreCarriedCursor) : list CoreCarriedSyncPage :=
  match fuel with
  | O => []
  | S fuel =>
      let page := carried_envelopes_for_hints_page d hints now budget max_rows after in
      page :: if pg_exhausted page then [] else carry_walk fuel d hints now budget max_rows (pg_next page)
  end.

Lemma carry_walk_spec d hints now budget max_rows : carried_ok d -> hints <> [] ->
  0 < budget < U64_MAX -> 0 < max_rows ->
  forall fuel after, (length (carried_query d hints now after) < fuel)%nat ->
  let pages := carry_walk fuel d hints now budget max_rows after in
  concat (pg_rows <$> pages) = cr_envelope <$> carried_query d hints now after /\
  (pg_exhausted <$> last pages) = Some true /\
  Forall (fun p => page_fits budget max_rows 0 0 (pg_rows p)) pages.
Proof.
  intros K Hh Hb Hm. induction fuel as [|fuel IH]; intros after Hf; [lia|]. cbn [carry_walk].
  unfold carried_envelopes_for_hints_page. rewrite bool_decide_false by done.
  rewrite (proj2 (Z.eqb_neq budget 0)), (proj2 (Z.eqb_neq max_rows 0)) by lia. cbn [orb].
  destruct (page_loop_spec budget max_rows (carried_query d hints now after) ltac:(lia) 0 0 None)
    as (Hfit & pre & post & Hq & Hr & Hx & He & Hne); [lia..|].
  set (page := page_loop _ _ _ _ _ _) in *. destruct (pg_exhausted page) eqn:E.
  - rewrite He in Hq by done. rewrite app_nil_r in Hq. cbn. rewrite app_nil_r, Hr, Hq, E.
    split_and!; [done|done|by constructor].
  - specialize (Hne eq_refl eq_refl Hm). destruct (last_is_Some pre) as [_ [r Hlast]]; [done|].
    rewrite Hlast in Hx. apply last_Some in Hlast as [pre' ->]. rewrite <-app_assoc in Hq.
    pose proof (carried_query_resume d hints now after pre' r post K Hq) as Hnext. rewrite Hx.
    destruct (IH (Some (cursor_of r))) as (Hc & Hl & Hall).
    { rewrite Hnext. rewrite Hq, length_app in Hf. cbn in Hf. lia. }
    cbn [fmap list_fmap concat]. split_and!.
    + cbn [fmap list_fmap] in Hc. rewrite Hc, Hnext, Hr, Hq, <-fmap_app, <-app_assoc. done.
    + rewrite last_cons. by destruct (last _).
    + by constructor.
Qed.

(** * Claims *)

(** The rows a device deletes from a relay are exactly those of an open linking
    gate that it read and nobody else has to read: not a group's shared row, on a
    person with several devices neither the person's shared row nor a sibling's,
    and then only a row consumed now, or seen before and either stored as a 1:1
    message of someone else or remembered as a consumed hidden kind addressed to
    this device.  A row carried, expired, rejected or failed is never deleted. *)
Theorem relay_acks_sole_consumer `{C : Crypto} d items own now id :
  id ∈ core_relay_ack_ids_with_consumed d items own now <->
  rt_ack (e_routing d) = true /\
  exists i, i ∈ items /\ it_relay_id i = id /\ sole_consumer d own now i.
Proof. apply acked_spec. Qed.

(** Of the rows an envelope fans out to, one per device of a person, the row of
    one device is deleted by that device once it consumed it, and by no sibling,
    whatever the sibling made of it (its inbox key opens the row too). The row's
    hint is assumed not to be a group's nor to collide with the sibling's own. *)
Theorem device_row_one_deleter `{C : Crypto} d d' own ds dev dev' k row mid ttl exp sealed t now relay items items' :
  core_device_fanout_rows mid own ds ttl exp sealed t !! k = Some row -> ds !! k = Some dev ->
  fleet_of d dev ds -> fleet_of d' dev' ds -> dev <> dev' -> 2 <= blen ds -> live t now ->
  rt_ack (e_routing d) = true ->
  (forall g, g ∈ rt_groups (e_routing d) -> ~ answers (group_id g) now (fo_recipient_hint row)) ->
  ~ answers (core_device_namespace_id own dev') now (fo_recipient_hint row) ->
  mk_item relay (fo_msg_id row) Consumed (fo_recipient_hint row) ∈ items ->
  (forall i, i ∈ items' -> it_relay_id i = relay -> it_recipient_hint i = fo_recipient_hint row) ->
  relay ∈ core_relay_ack_ids_with_consumed d items own now /\
  relay ∉ core_relay_ack_ids_with_consumed d' items' own now.
Proof.
  intros Hrow Hdev Hf Hf' Hne Hlen Hl Ha Hg Hcol Hin Hall.
  unfold core_device_fanout_rows in Hrow. rewrite list_lookup_fmap, Hdev in Hrow. injection Hrow as <-.
  cbn [fo_recipient_hint fo_msg_id] in *.
  pose proof (answers_live (core_device_namespace_id own dev) t now Hl) as Hans. split.
  - apply acked_spec. split; [done|]. eexists. split; [exact Hin|]. split; [done|]. split; [|by left].
    cbn [it_recipient_hint]. intros [(g & Hg1 & Hg2)|(_ & Hn & _)]; [by eapply Hg|]. apply Hn. left.
    by rewrite (me_fleet d dev ds Hf).
  - intros (_ & i & Hi & Hid & Hno & _)%acked_spec. apply Hno. rewrite (Hall i Hi Hid). right.
    pose proof (linked_fleet d' dev' ds Hf' Hlen) as Hlk. split; [done|]. split.
    + intros [Hm|[? _]]; [|done]. rewrite (me_fleet d' dev' ds Hf') in Hm. done.
    + right. exists dev. rewrite (me_fleet d' dev' ds Hf'), Hf'. split; [|done]. by eapply list_elem_of_lookup_2.
Qed.

(** Over any history of the store, the set of remembered hidden message ids stays
    within its limit, and each of its entries was licensed by a call of the
    history: a live envelope of a kind that leaves no message row, in a row that
    named this device and no group, remembered no longer than it lives or 30 days.
    So a row that was only seen before and left no message row is deleted only
    behind such a consumption of the same message. *)
Theorem hidden_ack_licensed `{C : Crypto} d0 evs items own now id :
  e_hidden d0 = ∅ ->
  let d := hidden_run d0 evs in
  Z.of_nat (size (e_hidden d)) <= CONSUMED_HIDDEN_MSG_ID_LIMIT /\
  (id ∈ core_relay_ack_ids_with_consumed d items own now ->
   exists i, i ∈ items /\ it_relay_id i = id /\
     (it_disposition i = Consumed \/ is_Some (message_origin_by_msg_id d (it_msg_id i)) \/
      exists before c after, evs = before ++ EvRecord c :: after /\ rc_msg_id c = it_msg_id i /\
        now < remembered_until c /\ licensed (hidden_run d0 before) c)).
Proof.
  intros Hd d. destruct (hidden_history evs d0 Hd) as [Hs Hh]. split; [done|].
  intros (_ & i & Hi & Hid & _ & Hw)%acked_spec. exists i. split_and!; [done..|].
  destruct Hw as [?|[_ Hw]]; [by left|right].
  destruct (message_origin_by_msg_id d (it_msg_id i)) as [o|]; [by left; eexists|right].
  destruct Hw as (_ & e & He & Hlt). apply Hh in He as (b & c & a & -> & Hm & -> & Hlic). by exists b, c, a.
Qed.

(** A peer's digest retires carried copies only when the link has proved who the
    peer is and the linking gate is open, and then exactly the live copies
    addressed to that peer that the peer says it holds: copies for anyone else
    stay, in order, and the answer counts the removed ones. *)
Theorem confirm_retires_exactly `{C : Crypto} d peer known authenticated now : carried_ok d ->
  let '(d', removed) := core_confirm_carried_deliveries d peer known authenticated now in
  e_carried d' =
    filter (fun r => ~ (authenticated = true /\ rt_ack (e_routing d) = true /\ retired peer known now r)) (e_carried d) /\
  removed = blen (e_carried d) - blen (e_carried d').
Proof.
  intros K. destruct authenticated; [destruct (rt_ack (e_routing d)) eqn:Ha|].
  - pose proof (confirm_carried d peer known now K Ha) as H.
    destruct (core_confirm_carried_deliveries _ _ _ _ _) as [d' removed]. destruct H as [Hc Hr].
    split; [|done]. rewrite Hc. apply list_filter_iff. tauto.
  - unfold core_confirm_carried_deliveries. rewrite Ha. cbn [negb]. split; [|lia].
    symmetry. apply filter_all, Forall_forall. naive_solver.
  - unfold core_confirm_carried_deliveries. cbn [negb]. split; [|lia].
    symmetry. apply filter_all, Forall_forall. naive_solver.
Qed.

(** Paging through the copies carried for a peer, each page resuming at the cursor
    of the one before, ends within one page more than there are rows and offers
    every live matching row exactly once, oldest first, each page within its row
    limit and its byte budget (an oversized envelope goes alone). *)
Theorem carry_walk_complete d hints now budget max_rows : carried_ok d -> hints <> [] ->
  0 < budget < U64_MAX -> 0 < max_rows ->
  let rows := carried_query d hints now None in
  let pages := carry_walk (S (length rows)) d hints now budget max_rows None in
  concat (pg_rows <$> pages) = cr_envelope <$> rows /\
  StronglySorted carried_le rows /\
  rows ≡ₚ filter (fun r => now < ce_expiry (cr_envelope r) /\ ce_recipient_hint (cr_envelope r) ∈ hints) (e_carried d) /\
  pg_exhausted <$> last pages = Some true /\
  Forall (fun p => page_fits budget max_rows 0 0 (pg_rows p)) pages.
Proof.
  intros K Hh Hb Hm rows pages.
  destruct (carry_walk_spec d hints now budget max_rows K Hh Hb Hm (S (length rows)) None) as (Hc & Hl & Hf); [apply Nat.lt_succ_diag_r|].
  split_and!; [done| | |done|done].
  - apply StronglySorted_merge_sort; apply _.
  - unfold rows. rewrite carried_query_perm. erewrite list_filter_iff; [done|]. intros r. cbn. tauto.
Qed.

(** * Witnesses *)

Definition toy_person : bytes := replicate 16 x01.
Definition toy_dev (b : byte) : bytes := replicate 16 b.

Definition toy_store (own : byte) : engine_db :=
  mk_edb (mk_routing [] [] (mk_fleet (Some (toy_dev own)) [toy_dev x05; toy_dev x06]) true true)
    (fresh_db ∅) [] [] ∅
    ((fun '(i, at_ms) => mk_crow (mk_carried [i] 3 900 [x09] (replicate 100 i)) at_ms)
       <$> [(x02, 7); (x01, 7); (x03, 5); (x04, 8)]).

Definition toy_row : CoreGroupFanoutRow :=
  default (mk_fanout [] 0 0 [] [])
    (core_device_fanout_rows (C := toy_crypto) [x07] toy_person [toy_dev x05; toy_dev x06] 3 900 [x08] 1000 !! 0%nat).

Definition toy_items : list CoreRelayEnvelopeDisposition :=
  [mk_item 70 (fo_msg_id toy_row) Consumed (fo_recipient_hint toy_row)].

Lemma device_row_one_deleter_witness :
  70 ∈ core_relay_ack_ids_with_consumed (C := toy_crypto) (toy_store x05) toy_items toy_person 500000000 /\
  70 ∉ core_relay_ack_ids_with_consumed (C := toy_crypto) (toy_store x06) toy_items toy_person 500000000.
Proof.
  apply (device_row_one_deleter (C := toy_crypto) (toy_store x05) (toy_store x06) toy_person
    [toy_dev x05; toy_dev x06] (toy_dev x05) (toy_dev x06) 0 toy_row [x07] 3 900 [x08] 1000 500000000 70).
  - vm_compute. reflexivity.
  - reflexivity.
  - reflexivity.
  - reflexivity.
  - discriminate.
  - vm_compute. discriminate.
  - split; vm_compute; [discriminate|reflexivity].
  - reflexivity.
  - intros g Hg. by apply not_elem_of_nil in Hg.
  - rewrite (answers_dec (C := toy_crypto)). vm_compute. discriminate.
  - left.
  - intros i [->|Hi%not_elem_of_nil]%elem_of_cons; [reflexivity|done].
Defined.

(** A hidden kind is consumed, then its relay copy is seen again. *)
Definition toy_call : record_call :=
  mk_call [x07] KIND_RECEIPT (fo_recipient_hint toy_row) 600000000 toy_person 500000000.

Definition toy_seen : list CoreRelayEnvelopeDisposition :=
  [mk_item 71 [x07] Seen (fo_recipient_hint toy_row); mk_item 72 [x08] Seen (fo_recipient_hint toy_row)].

Lemma hidden_ack_licensed_witness :
  core_relay_ack_ids_with_consumed (C := toy_crypto)
    (hidden_run (C := toy_crypto) (toy_store x05) [EvRecord toy_call; EvPrune 500000000]) toy_seen toy_person 500000001 = [71] /\
  Z.of_nat (size (e_hidden (hidden_run (C := toy_crypto) (toy_store x05) [EvRecord toy_call; EvPrune 500000000])))
    <= CONSUMED_HIDDEN_MSG_ID_LIMIT.
Proof.
  split; [vm_compute; reflexivity|].
  apply (hidden_ack_licensed (C := toy_crypto) (toy_store x05) [EvRecord toy_call; EvPrune 500000000]
    toy_seen toy_person 500000001 71). reflexivity.
Defined.

Lemma toy_store_ok own : carried_ok (toy_store own).
Proof.
  split; [apply (bool_decide_eq_true_1 _); by vm_compute|by vm_compute|].
  apply (bool_decide_eq_true_1 _). by vm_compute.
Qed.

Definition toy_confirm : engine_db * Z :=
  core_confirm_carried_deliveries (C := toy_crypto)
    (with_carried (toy_store x05)
       [mk_crow (mk_carried [x01] 3 900 (compute_recipient_hint (C := toy_crypto) (toy_dev x0a) 0) [x00]) 1;
        mk_crow (mk_carried [x02] 3 900 (compute_recipient_hint (C := toy_crypto) (toy_dev x0b) 0) [x00]) 2])
    (toy_dev x0a) [[x01]; [x02]] true 500.

Lemma confirm_retires_exactly_witness :
  toy_confirm.2 = 1 /\ (fun r => row_id r) <$> e_carried toy_confirm.1 = [[x02]] /\
  toy_confirm.2 = 2 - blen (e_carried toy_confirm.1).
Proof.
  split; [vm_compute; reflexivity|]. split; [vm_compute; reflexivity|].
  assert (carried_ok (with_carried (toy_store x05)
       [mk_crow (mk_carried [x01] 3 900 (compute_recipient_hint (C := toy_crypto) (toy_dev x0a) 0) [x00]) 1;
        mk_crow (mk_carried [x02] 3 900 (compute_recipient_hint (C := toy_crypto) (toy_dev x0b) 0) [x00]) 2])) as K.
  { split; [apply (bool_decide_eq_true_1 _); by vm_compute|by vm_compute|].
    apply (bool_decide_eq_true_1 _). by vm_compute. }
  pose proof (confirm_retires_exactly (C := toy_crypto) _ (toy_dev x0a) [[x01]; [x02]] true 500 K) as H.
  fold toy_confirm in H. destruct toy_confirm as [d' removed]. exact (proj2 H).
Defined.

Lemma carry_walk_complete_witness :
  let pages := carry_walk 5 (toy_store x05) [[x09]] 500 250 9 None in
  (fun p => ce_msg_id <$> pg_rows p) <$> pages = [[[x03]; [x01]]; [[x02]; [x04]]] /\
  pg_exhausted <$> last pages = Some true.
Proof.
  split; [vm_compute; reflexivity|].
  refine (proj1 (proj2 (proj2 (proj2 (carry_walk_complete (toy_store x05) [[x09]] 500 250 9 _ _ _ _))))).
  - apply toy_store_ok.
  - discriminate.
  - by vm_compute.
  - by vm_compute.
Defined.
