(* ===== verification/MediaBlob.v ===== *)
(** The blob plane's identity layer: chunk geometry, per-chunk sealing and the
    encrypt-then-name digest ([core/src/media/blob.rs], [core/src/media/mod.rs]).

    XChaCha20-Poly1305 is a third-party crate: it is the [Aead] parameter, with
    [AeadLaws] stating what its documentation promises. *)
From Stdlib Require String.
From stdpp Require Import base numbers list strings.
From S2P Require Import Prelude Wire Crypto.

Definition MEDIA_BLOB_MAX_BYTES : Z := 128 * 1024 * 1024.
Definition MEDIA_CHUNK_PLAINTEXT_BYTES : Z := 256 * 1024.
Definition MEDIA_AEAD_TAG_BYTES : Z := 16.
Definition MEDIA_CHUNK_CIPHERTEXT_BYTES : Z := MEDIA_CHUNK_PLAINTEXT_BYTES + MEDIA_AEAD_TAG_BYTES.
Definition BLOB_ID_LEN : Z := 32.
Definition BLOB_KEY_LEN : Z := 32.

Inductive MediaError : Type :=
| EmptyBlob
| BlobTooLarge (actual max : Z)
| MediaMalformed (msg : string)
| ChunkAuthFailed (index : Z)
| DigestMismatch
| MediaStore (msg : string).

#[global] Instance MediaError_eq_dec : EqDecision MediaError.
Proof. solve_decision. Defined.

Class Aead := {
  (** [encrypt]: key, nonce, associated data, message. *)
  aead_seal : bytes -> bytes -> bytes -> bytes -> option bytes;
  aead_open : bytes -> bytes -> bytes -> bytes -> option bytes;
}.

Class AeadLaws (A : Aead) : Prop := {
  aead_seal_total : forall k n a m, blen m <= MEDIA_CHUNK_PLAINTEXT_BYTES ->
    exists c, aead_seal k n a m = Some c;
  aead_seal_length : forall k n a m c, aead_seal k n a m = Some c ->
    blen c = blen m + MEDIA_AEAD_TAG_BYTES;
  aead_open_seal : forall k n a m c, aead_seal k n a m = Some c -> aead_open k n a c = Some m;
}.

(** * Geometry *)

Record BlobGeometry : Type := mk_geometry {
  plaintext_bytes : Z;
  ciphertext_bytes : Z;
  g_chunk_count : Z;
  chunk_plaintext_bytes : Z;
  chunk_ciphertext_bytes : Z;
}.

(** [n.div_ceil(d)] *)
Definition z_div_ceil (n d : Z) : Z := (n + d - 1) / d.

Definition for_plaintext_len (n : Z) : result MediaError BlobGeometry :=
  if n =? 0 then Err EmptyBlob
  else if MEDIA_BLOB_MAX_BYTES <? n then Err (BlobTooLarge n MEDIA_BLOB_MAX_BYTES)
  else let chunk_count := z_div_ceil n MEDIA_CHUNK_PLAINTEXT_BYTES in
       Ok (mk_geometry n (n + chunk_count * MEDIA_AEAD_TAG_BYTES) (as_u32 chunk_count)
             MEDIA_CHUNK_PLAINTEXT_BYTES MEDIA_CHUNK_CIPHERTEXT_BYTES).

Definition chunk_plaintext_len (g : BlobGeometry) (index : Z) : option Z :=
  if g_chunk_count g <=? index then None
  else let start := index * chunk_plaintext_bytes g in
       Some (Z.min (plaintext_bytes g - start) (chunk_plaintext_bytes g)).

Definition chunk_ciphertext_len (g : BlobGeometry) (index : Z) : option Z :=
  (fun len => len + MEDIA_AEAD_TAG_BYTES) <$> chunk_plaintext_len g index.

Definition chunk_ciphertext_offset (g : BlobGeometry) (index : Z) : option Z :=
  if index <? g_chunk_count g then Some (index * chunk_ciphertext_bytes g) else None.

(** * Sealing and opening *)

Definition ascii (s : string) : bytes := String.list_byte_of_string s.
Definition CHUNK_AAD_DOMAIN : bytes := ascii "cruisemesh.media.blob/v1".
Definition NONCE_PREFIX : bytes := ascii "cmblob01".

Definition chunk_nonce (index : Z) : bytes := NONCE_PREFIX ++ replicate 8 x00 ++ be_bytes 8 index.

Definition chunk_aad (g : BlobGeometry) (index : Z) : bytes :=
  CHUNK_AAD_DOMAIN ++ be_bytes 4 (g_chunk_count g) ++ be_bytes 8 (plaintext_bytes g)
  ++ be_bytes 4 index.

(** [&bytes[start..start + len]] *)
Definition sub (bs : bytes) (start len : Z) : bytes := take (Z.to_nat len) (drop (Z.to_nat start) bs).

Record SealedBlob : Type := mk_sealed { blob_id : bytes; geometry : BlobGeometry; ciphertext : bytes }.

(** [BlobId::from_slice] and [BlobKey::from_slice]; the message's byte count is
    left out. *)
Definition blob_id_from_slice (bs : bytes) : result MediaError bytes :=
  _ ← ensure (blen bs =? BLOB_ID_LEN) (MediaMalformed "blob id length"); Ok bs.

Definition blob_key_from_slice (bs : bytes) : result MediaError bytes :=
  _ ← ensure (blen bs =? BLOB_KEY_LEN) (MediaMalformed "blob key length"); Ok bs.

Section blob.
Context `{C : Crypto} `{A : Aead}.

Definition seal_chunk (key : bytes) (g : BlobGeometry) (index : Z) (plaintext : bytes)
  : result MediaError bytes :=
  match chunk_plaintext_len g index with
  | None => Err (MediaMalformed "chunk index is past the end")
  | Some expected =>
      _ ← ensure (blen plaintext =? expected) (MediaMalformed "chunk is not its geometry's length");
      match aead_seal key (chunk_nonce index) (chunk_aad g index) plaintext with
      | Some c => Ok c
      | None => Err (MediaMalformed "chunk would not seal")
      end
  end.

Definition open_chunk (key : bytes) (g : BlobGeometry) (index : Z) (ct : bytes)
  : result MediaError bytes :=
  match chunk_ciphertext_len g index with
  | None => Err (MediaMalformed "chunk index is past the end")
  | Some expected =>
      _ ← ensure (blen ct =? expected) (ChunkAuthFailed index);
      match aead_open key (chunk_nonce index) (chunk_aad g index) ct with
      | Some p => Ok p
      | None => Err (ChunkAuthFailed index)
      end
  end.

(** [0..chunk_count] *)
Definition indices (n : Z) : list Z := Z.of_nat <$> List.seq 0 (Z.to_nat n).

(** The streaming digest: its state is what it has been fed. *)
Record BlobIdHasher : Type := mk_hasher { hasher_fed : bytes }.

Definition hasher_new : BlobIdHasher := mk_hasher [].

Definition hasher_update (h : BlobIdHasher) (bs : bytes) : BlobIdHasher := mk_hasher (hasher_fed h ++ bs).

Definition hasher_finish (h : BlobIdHasher) : bytes := blake2b 32 (hasher_fed h).

Definition blob_id_for_ciphertext (ct : bytes) : bytes :=
  hasher_finish (hasher_update hasher_new ct).

Definition seal_blob (key plaintext : bytes) : result MediaError SealedBlob :=
  g ← for_plaintext_len (blen plaintext);
  sealed ← mapM (fun index =>
      match chunk_plaintext_len g index with
      | Some len => seal_chunk key g index (sub plaintext (index * chunk_plaintext_bytes g) len)
      | None => Err (MediaMalformed "index is inside chunk_count")
      end) (indices (g_chunk_count g));
  let ct := concat sealed in
  Ok (mk_sealed (blob_id_for_ciphertext ct) g ct).

Definition verify_assembled (id : bytes) (g : BlobGeometry) (ct : bytes) : result MediaError unit :=
  _ ← ensure (blen ct =? ciphertext_bytes g) DigestMismatch;
  ensure (bool_decide (blob_id_for_ciphertext ct = id)) DigestMismatch.

Definition open_blob (key id : bytes) (g : BlobGeometry) (ct : bytes) : result MediaError bytes :=
  _ ← verify_assembled id g ct;
  opened ← mapM (fun index =>
      match chunk_ciphertext_offset g index, chunk_ciphertext_len g index with
      | Some offset, Some len => open_chunk key g index (sub ct offset len)
      | _, _ => Err (MediaMalformed "index is inside chunk_count")
      end) (indices (g_chunk_count g));
  Ok (concat opened).

(** Feeding the chunks one by one, in order, digests their concatenation. *)
Lemma hasher_stream (chunks : list bytes) :
  hasher_finish (foldl hasher_update hasher_new chunks) = blob_id_for_ciphertext (concat chunks).
Proof.
  unfold blob_id_for_ciphertext, hasher_finish. f_equal. cbn.
  assert (forall h, hasher_fed (foldl hasher_update h chunks) = hasher_fed h ++ concat chunks) as H.
  { induction chunks as [|c cs IH]; intros h; cbn [foldl concat]; [by rewrite app_nil_r|].
    rewrite IH. cbn [hasher_update hasher_fed]. by rewrite app_assoc. }
  apply (H hasher_new).
Qed.

End blob.

(** * Geometry facts *)

Record geometry_ok (g : BlobGeometry) : Prop := {
  gk_plain : 0 < plaintext_bytes g <= MEDIA_BLOB_MAX_BYTES;
  gk_chunk : chunk_plaintext_bytes g = MEDIA_CHUNK_PLAINTEXT_BYTES;
  gk_cchunk : chunk_ciphertext_bytes g = MEDIA_CHUNK_CIPHERTEXT_BYTES;
  gk_cover : (g_chunk_count g - 1) * MEDIA_CHUNK_PLAINTEXT_BYTES < plaintext_bytes g
               <= g_chunk_count g * MEDIA_CHUNK_PLAINTEXT_BYTES;
  gk_cipher : ciphertext_bytes g = plaintext_bytes g + g_chunk_count g * MEDIA_AEAD_TAG_BYTES;
}.

Lemma z_div_ceil_bounds n d : 0 < d -> (z_div_ceil n d - 1) * d < n <= z_div_ceil n d * d.
Proof. intros Hd. unfold z_div_ceil. Z.to_euclidean_division_equations. nia. Qed.

Lemma for_plaintext_len_ok n g : 0 <= n -> for_plaintext_len n = Ok g ->
  geometry_ok g /\ plaintext_bytes g = n.
Proof.
  intros Hn. unfold for_plaintext_len. repeat case_match; [done..|]. bools. intros [= <-].
  pose proof (z_div_ceil_bounds n MEDIA_CHUNK_PLAINTEXT_BYTES ltac:(done)) as Hb.
  assert (as_u32 (z_div_ceil n MEDIA_CHUNK_PLAINTEXT_BYTES) = z_div_ceil n MEDIA_CHUNK_PLAINTEXT_BYTES) as Hu.
  { apply Z.mod_small. unfold MEDIA_CHUNK_PLAINTEXT_BYTES, MEDIA_BLOB_MAX_BYTES in *. lia. }
  split; [|done]. split; cbn; rewrite ?Hu; try done. lia.
Qed.

Section geometry.
Context (g : BlobGeometry) (G : geometry_ok g).

Lemma chunk_count_pos : 1 <= g_chunk_count g <= 512.
Proof.
  destruct G. unfold MEDIA_CHUNK_PLAINTEXT_BYTES, MEDIA_BLOB_MAX_BYTES in *. lia.
Qed.

Lemma chunk_len_in i : 0 <= i < g_chunk_count g -> exists n,
  chunk_plaintext_len g i = Some n /\ 0 < n <= MEDIA_CHUNK_PLAINTEXT_BYTES /\
  n = Z.min (plaintext_bytes g - i * MEDIA_CHUNK_PLAINTEXT_BYTES) MEDIA_CHUNK_PLAINTEXT_BYTES /\
  (i + 1 < g_chunk_count g -> n = MEDIA_CHUNK_PLAINTEXT_BYTES).
Proof.
  intros Hi. unfold chunk_plaintext_len. rewrite (proj2 (Z.leb_gt _ _)) by lia.
  eexists. split; [done|]. destruct G. rewrite gk_chunk0.
  unfold MEDIA_CHUNK_PLAINTEXT_BYTES in *. split_and!; try lia.
Qed.

End geometry.

(** * A sealed blob opens to its plaintext *)

Lemma indices_lookup n i x : indices n !! i = Some x <-> x = Z.of_nat i /\ Z.of_nat i < n.
Proof.
  unfold indices. rewrite list_lookup_fmap, fmap_Some. split.
  - intros (j & [-> Hj]%lookup_seq & ->). lia.
  - intros [-> Hi]. exists i. split; [|done]. apply lookup_seq. lia.
Qed.

Lemma elem_of_indices n x : x ∈ indices n <-> 0 <= x < n.
Proof.
  rewrite list_elem_of_lookup. setoid_rewrite indices_lookup. split.
  - intros (i & -> & ?). lia.
  - intros H. exists (Z.to_nat x). lia.
Qed.

Lemma length_indices n : length (indices n) = Z.to_nat n.
Proof. unfold indices. by rewrite length_fmap, length_seq. Qed.

Lemma mapM_total {E X Y} (f : X -> result E Y) l :
  (forall x, x ∈ l -> exists y, f x = Ok y) -> exists k, mapM f l = Ok k.
Proof.
  induction l as [|x l IH]; intros H; [by exists []|].
  destruct (H x ltac:(left)) as [y Hy]. destruct IH as [k Hk]; [intros; apply H; by right|].
  exists (y :: k). cbn. by rewrite Hy, Hk.
Qed.

(** Piece [i] of a concatenation whose earlier pieces all have length [n]. *)
Lemma sub_concat (cs : list bytes) (n i : nat) c :
  cs !! i = Some c -> (forall j x, (j < i)%nat -> cs !! j = Some x -> length x = n) ->
  take (length c) (drop (i * n) (concat cs)) = c.
Proof.
  revert i. induction cs as [|x cs IH]; intros i Hi Hl; [done|]. destruct i as [|i].
  - injection Hi as <-. cbn. by rewrite drop_0, take_app_length.
  - cbn [concat]. replace (S i * n)%nat with (length x + i * n)%nat
      by (rewrite (Hl 0%nat x); [lia|lia|done]).
    rewrite <-drop_drop, drop_app_length. apply IH; [done|].
    intros j y Hj Hy. apply (Hl (S j)); [lia|done].
Qed.

(** Consecutive slices of [n] bytes make up the prefix they cover. *)
Lemma blob_slices (p : bytes) (n k : nat) :
  concat ((fun i => take n (drop (i * n) p)) <$> List.seq 0 k) = take (k * n) p.
Proof.
  induction k as [|k IH]; [done|]. rewrite seq_S, fmap_app, concat_app, IH. cbn [fmap list_fmap concat].
  rewrite app_nil_r, Nat.add_0_l. replace (S k * n)%nat with (k * n + n)%nat by lia.
  by rewrite take_take_drop.
Qed.

Lemma take_length_take (l : bytes) n : take (length (take n l)) l = take n l.
Proof.
  rewrite length_take. destruct (Nat.min_spec n (length l)) as [[_ ->]|[H ->]]; [done|].
  by rewrite !take_ge by lia.
Qed.

(** The chunk size as a list length. *)
Definition chunk_nat : nat := Z.to_nat MEDIA_CHUNK_PLAINTEXT_BYTES.

(** The plaintext of chunk [index]. *)
Definition piece (p : bytes) (index : Z) : bytes :=
  take chunk_nat (drop (Z.to_nat index * chunk_nat) p).

Section roundtrip.
Context `{C : Crypto} `{A : Aead} `{L : !AeadLaws A}.
Context (key p : bytes) (g : BlobGeometry) (G : geometry_ok g) (Hp : plaintext_bytes g = blen p).

Lemma sub_piece index n : 0 <= index < g_chunk_count g -> chunk_plaintext_len g index = Some n ->
  sub p (index * chunk_plaintext_bytes g) n = piece p index /\ blen (piece p index) = n.
Proof.
  intros Hi Hn. destruct (chunk_len_in g G index Hi) as (n' & Hn' & Hb & He & _).
  rewrite Hn in Hn'. injection Hn' as <-. rewrite (gk_chunk g G).
  assert (length (piece p index) = Z.to_nat n) as Hl.
  { unfold piece. rewrite length_take, length_drop. unfold blen, chunk_nat in *. lia. }
  split; [|unfold blen; lia]. unfold sub.
  replace (Z.to_nat (index * MEDIA_CHUNK_PLAINTEXT_BYTES)) with (Z.to_nat index * chunk_nat)%nat
    by (unfold chunk_nat; lia).
  rewrite <-Hl. unfold piece. apply take_length_take.
Qed.

Lemma concat_pieces : concat (piece p <$> indices (g_chunk_count g)) = p.
Proof.
  unfold indices. rewrite <-list_fmap_compose.
  rewrite (list_fmap_ext _ (fun i => take chunk_nat (drop (i * chunk_nat) p))).
  - rewrite blob_slices. apply take_ge. destruct G. unfold blen, chunk_nat in *. lia.
  - intros i x _. unfold piece. cbn [compose]. by rewrite Nat2Z.id.
Qed.

(** A chunk that was sealed opens to its piece, and is as long as it should be. *)
Lemma open_sealed index c n : 0 <= index < g_chunk_count g -> chunk_plaintext_len g index = Some n ->
  seal_chunk key g index (sub p (index * chunk_plaintext_bytes g) n) = Ok c ->
  open_chunk key g index c = Ok (piece p index) /\ blen c = n + MEDIA_AEAD_TAG_BYTES.
Proof.
  intros Hi Hn. destruct (sub_piece index n Hi Hn) as [-> Hl]. unfold seal_chunk, open_chunk.
  unfold chunk_ciphertext_len. rewrite Hn, Hl, Z.eqb_refl. cbn [ensure mbind result_bind fmap option_fmap option_map].
  destruct (aead_seal _ _ _ _) as [c'|] eqn:Hs; [|done]. intros [= ->].
  pose proof (aead_seal_length _ _ _ _ _ Hs) as Hc. rewrite Hl in Hc.
  rewrite Hc, Z.eqb_refl. cbn [ensure mbind result_bind]. by rewrite (aead_open_seal _ _ _ _ _ Hs).
Qed.

Lemma seal_piece_total index n : 0 <= index < g_chunk_count g -> chunk_plaintext_len g index = Some n ->
  exists c, seal_chunk key g index (sub p (index * chunk_plaintext_bytes g) n) = Ok c.
Proof.
  intros Hi Hn. destruct (sub_piece index n Hi Hn) as [-> Hl]. unfold seal_chunk.
  rewrite Hn, Hl, Z.eqb_refl. cbn [ensure mbind result_bind fmap option_fmap option_map].
  destruct (aead_seal_total key (chunk_nonce index) (chunk_aad g index) (piece p index)) as [c ->];
    [|by exists c].
  destruct (chunk_len_in g G index Hi) as (n' & Hn' & ? & _). rewrite Hn in Hn'. injection Hn' as <-. lia.
Qed.

(** What [seal_blob] does for one index. *)
Definition seal_index (index : Z) : result MediaError bytes :=
  match chunk_plaintext_len g index with
  | Some len => seal_chunk key g index (sub p (index * chunk_plaintext_bytes g) len)
  | None => Err (MediaMalformed "index is inside chunk_count")
  end.

Lemma concat_lengths (h : Z -> bytes) k (l : list Z) (cs : list bytes) :
  Forall2 (fun i c => blen c = blen (h i) + k) l cs ->
  blen (concat cs) = blen (concat (h <$> l)) + blen l * k.
Proof.
  induction 1 as [|i c l cs Hc _ IH]; [done|]. cbn [fmap list_fmap concat].
  rewrite !blen_app, blen_cons, Hc, IH. lia.
Qed.

Context (cs : list bytes)
  (Hcs : Forall2 (fun i c => seal_index i = Ok c) (indices (g_chunk_count g)) cs).

Lemma sealed_at i c : cs !! i = Some c -> 0 <= Z.of_nat i < g_chunk_count g /\ exists n,
  chunk_plaintext_len g (Z.of_nat i) = Some n /\ blen c = n + MEDIA_AEAD_TAG_BYTES /\
  open_chunk key g (Z.of_nat i) c = Ok (piece p (Z.of_nat i)).
Proof.
  intros Hc. destruct (Forall2_lookup_r _ _ _ _ _ Hcs Hc) as (x & [-> Hx]%indices_lookup & Hs).
  assert (0 <= Z.of_nat i < g_chunk_count g) as Hi by lia. split; [done|].
  destruct (chunk_len_in g G _ Hi) as (n & Hn & _). exists n. unfold seal_index in Hs. rewrite Hn in Hs.
  destruct (open_sealed _ _ _ Hi Hn Hs). done.
Qed.

Lemma ciphertext_total : blen (concat cs) = ciphertext_bytes g.
Proof.
  rewrite (concat_lengths (piece p) MEDIA_AEAD_TAG_BYTES (indices (g_chunk_count g))).
  - rewrite concat_pieces, <-Hp, (gk_cipher g G). unfold blen. rewrite length_indices.
    pose proof (chunk_count_pos g G). lia.
  - apply Forall2_same_length_lookup. split; [by eapply Forall2_length|].
    intros i x c [-> _]%indices_lookup Hc. destruct (sealed_at i c Hc) as (Hi & n & Hn & -> & _).
    by destruct (sub_piece _ n Hi Hn) as [_ ->].
Qed.

Lemma ciphertext_chunk i c n : cs !! i = Some c -> chunk_plaintext_len g (Z.of_nat i) = Some n ->
  sub (concat cs) (Z.of_nat i * chunk_ciphertext_bytes g) (n + MEDIA_AEAD_TAG_BYTES) = c.
Proof.
  intros Hc Hn. destruct (sealed_at i c Hc) as (Hi & n' & Hn' & Hl & _).
  rewrite Hn in Hn'. injection Hn' as <-. unfold sub. rewrite (gk_cchunk g G).
  replace (Z.to_nat (n + MEDIA_AEAD_TAG_BYTES)) with (length c) by (unfold blen in Hl; lia).
  replace (Z.to_nat (Z.of_nat i * MEDIA_CHUNK_CIPHERTEXT_BYTES))
    with (i * Z.to_nat MEDIA_CHUNK_CIPHERTEXT_BYTES)%nat by lia.
  apply sub_concat; [done|]. intros j x Hj Hx.
  destruct (sealed_at j x Hx) as (Hj' & m & Hm & Hlx & _).
  destruct (chunk_len_in g G _ Hj') as (m' & Hm' & _ & _ & Hfull).
  rewrite Hm in Hm'. injection Hm' as <-. rewrite Hfull in Hlx by lia.
  unfold MEDIA_CHUNK_CIPHERTEXT_BYTES. unfold blen in Hlx. lia.
Qed.

Lemma open_concat : open_blob key (blob_id_for_ciphertext (concat cs)) g (concat cs) = Ok p.
Proof.
  unfold open_blob, verify_assembled. rewrite ciphertext_total, Z.eqb_refl.
  cbn [ensure mbind result_bind]. rewrite bool_decide_true by done. cbn [ensure].
  rewrite (proj2 (result_mapM_ok _ _ (piece p <$> indices (g_chunk_count g)))).
  - cbn [mbind result_bind]. by rewrite concat_pieces.
  - apply Forall2_fmap_r, Forall_Forall2_diag, Forall_lookup. intros i x [-> Hi]%indices_lookup.
    destruct (Forall2_lookup_l _ _ _ i (Z.of_nat i) Hcs) as (c & Hc & _); [by apply indices_lookup|].
    destruct (sealed_at i c Hc) as (_ & n & Hn & Hl & Ho).
    unfold chunk_ciphertext_offset, chunk_ciphertext_len. rewrite (proj2 (Z.ltb_lt _ _)), Hn by lia.
    cbn [fmap option_fmap option_map]. by rewrite (ciphertext_chunk i c n Hc Hn).
Qed.

End roundtrip.

(** A blob within the size limits seals, and the sealed ciphertext, presented
    with the id it was named by, opens to exactly the plaintext; an empty or
    oversized plaintext is refused. *)
Theorem blob_roundtrip `{C : Crypto} `{A : Aead} (L : AeadLaws A) (key p : bytes) :
  (0 < blen p <= MEDIA_BLOB_MAX_BYTES -> exists s, seal_blob key p = Ok s /\
     open_blob key (blob_id s) (geometry s) (ciphertext s) = Ok p) /\
  (p = [] -> seal_blob key p = Err EmptyBlob) /\
  (MEDIA_BLOB_MAX_BYTES < blen p -> seal_blob key p = Err (BlobTooLarge (blen p) MEDIA_BLOB_MAX_BYTES)).
Proof.
  split; [|split].
  - intros Hp. destruct (for_plaintext_len (blen p)) as [g|] eqn:Hg.
    2:{ exfalso. revert Hg. unfold for_plaintext_len. rewrite (proj2 (Z.eqb_neq _ _)) by lia.
        by rewrite (proj2 (Z.ltb_ge _ _)) by lia. }
    destruct (for_plaintext_len_ok _ _ (blen_nonneg p) Hg) as [G HG].
    unfold seal_blob. rewrite Hg. cbn [mbind result_bind].
    destruct (mapM_total (seal_index key p g) (indices (g_chunk_count g))) as [cs Hcs].
    { intros i Hi%elem_of_indices. destruct (chunk_len_in g G i Hi) as (n & Hn & _).
      unfold seal_index. rewrite Hn. by apply (seal_piece_total key p g G HG). }
    change (mapM _ _) with (mapM (seal_index key p g) (indices (g_chunk_count g))).
    rewrite Hcs. cbn [mbind result_bind]. eexists. split; [done|]. cbn [blob_id geometry ciphertext].
    apply result_mapM_ok in Hcs. by apply (open_concat key p g G HG).
  - intros ->. done.
  - intros Hp. unfold seal_blob, for_plaintext_len.
    rewrite (proj2 (Z.eqb_neq _ _)), (proj2 (Z.ltb_lt _ _)); [done|unfold MEDIA_BLOB_MAX_BYTES in *; lia..].
Qed.

(** A computable stand-in for witnesses: the tag is sixteen zero bytes. *)
Definition toy_tag : bytes := replicate 16 x00.

Definition toy_aead : Aead := {|
  aead_seal _ _ _ m := Some (m ++ toy_tag);
  aead_open _ _ _ c := if decide (drop (length c - 16) c = toy_tag)
                       then Some (take (length c - 16) c) else None;
|}.

#[global] Instance toy_aead_laws : AeadLaws toy_aead.
Proof.
  split.
  - intros k n a m _. by exists (m ++ toy_tag).
  - intros k n a m c [= <-]. by rewrite blen_app.
  - intros k n a m c [= <-]. cbn [aead_open toy_aead].
    replace (length (m ++ toy_tag) - 16)%nat with (length m)
      by (rewrite length_app; unfold toy_tag; rewrite length_replicate; lia).
    by rewrite drop_app_length, take_app_length, decide_True.
Qed.

Lemma blob_roundtrip_witness :
  exists s, seal_blob (C := toy_crypto) (A := toy_aead) [x07] [x01; x02; x03] = Ok s /\
    open_blob (C := toy_crypto) (A := toy_aead) [x07] (blob_id s) (geometry s) (ciphertext s)
      = Ok [x01; x02; x03].
Proof. apply (blob_roundtrip (C := toy_crypto) toy_aead_laws [x07] [x01; x02; x03]). done. Defined.
