(* ===== verification/MediaBitmap.v ===== *)
(** The per-blob chunk bitmap and its missing-range walk
    ([core/src/media/bitmap.rs]).

    Bits are most-significant-first in a byte vector, with a running count of
    the set ones.  The invariant [bitmap_ok] ties the count to the bits, and the
    walk is specified by the ordered list of missing chunks. *)
From stdpp Require Import base numbers list strings sets.
From S2P Require Import Prelude Wire MediaBlob.

Record ChunkRange : Type := mk_range { r_start : Z; r_count : Z }.

Definition end_exclusive (r : ChunkRange) : Z := r_start r + r_count r.

Definition range_contains (r : ChunkRange) (index : Z) : bool :=
  (r_start r <=? index) && (index <? end_exclusive r).

Record ChunkBitmap : Type := mk_bitmap { chunk_count : Z; present : Z; bits : bytes }.

Definition byte_len (n : Z) : Z := z_div_ceil n 8.

Definition bit_position (index : Z) : nat * Z :=
  (Z.to_nat (index / 8), Z.shiftl 1 (7 - index mod 8)).

Definition bitmap_empty (n : Z) : result MediaError ChunkBitmap :=
  _ ← ensure (negb (n =? 0)) (MediaMalformed "a blob has at least one chunk");
  Ok (mk_bitmap n 0 (replicate (Z.to_nat (byte_len n)) x00)).

(** [u8::count_ones] *)
Definition count_ones (b : byte) : Z :=
  blen (List.filter (Z.testbit (Z_of_byte b)) [0; 1; 2; 3; 4; 5; 6; 7]).

(** The subtraction and the shift wrap, as they do in a release build. *)
Definition trailing_bits (n : Z) : Z := as_u32 (as_u32 (byte_len n * 8) - n).

Definition from_bytes (n : Z) (bs : bytes) : result MediaError ChunkBitmap :=
  _ ← ensure (negb (n =? 0)) (MediaMalformed "a blob has at least one chunk");
  let expected := byte_len n in
  _ ← ensure (blen bs =? expected) (MediaMalformed "bitmap is not its chunk count's length");
  let trailing := trailing_bits n in
  let mask := Z.shiftl 1 (trailing mod 8) - 1 in
  _ ← ensure (negb ((0 <? trailing)
                    && negb (Z.land (Z_of_byte (default x00 (bs !! Z.to_nat (expected - 1)))) mask =? 0)))
        (MediaMalformed "bitmap sets bits past the last chunk");
  Ok (mk_bitmap n (foldr (fun b s => count_ones b + s) 0 bs) bs).

Definition as_bytes (b : ChunkBitmap) : bytes := bits b.

Definition is_complete (b : ChunkBitmap) : bool := present b =? chunk_count b.

(** An out-of-range byte cannot be read: [bitmap_ok] keeps the vector long
    enough for every index below the count. *)
Definition bit_test (bs : bytes) (index : Z) : bool :=
  let '(byte, bit) := bit_position index in
  match bs !! byte with
  | Some x => negb (Z.land (Z_of_byte x) bit =? 0)
  | None => false
  end.

Definition has (b : ChunkBitmap) (index : Z) : bool :=
  if chunk_count b <=? index then false else bit_test (bits b) index.

(** [set]: the bitmap after it, and whether it changed anything. *)
Definition set (b : ChunkBitmap) (index : Z) : ChunkBitmap * bool :=
  if (chunk_count b <=? index) || has b index then (b, false) else
  let '(byte, bit) := bit_position index in
  (mk_bitmap (chunk_count b) (present b + 1)
     (alter (fun x => byte_of_Z (Z.lor (Z_of_byte x) bit)) byte (bits b)), true).

Definition clear (b : ChunkBitmap) (index : Z) : ChunkBitmap * bool :=
  if (chunk_count b <=? index) || negb (has b index) then (b, false) else
  let '(byte, bit) := bit_position index in
  (mk_bitmap (chunk_count b) (present b - 1)
     (alter (fun x => byte_of_Z (Z.land (Z_of_byte x) (Z.lxor 255 bit))) byte (bits b)), true).

Definition merge_step (other : ChunkBitmap) (st : ChunkBitmap * Z) (index : Z) : ChunkBitmap * Z :=
  let '(b, gained) := st in
  if has other index then
    let '(b, changed) := set b index in (b, if changed : bool then gained + 1 else gained)
  else st.

Definition merge (b other : ChunkBitmap) : result MediaError (ChunkBitmap * Z) :=
  _ ← ensure (chunk_count other =? chunk_count b)
        (MediaMalformed "cannot merge bitmaps of different blobs");
  Ok (foldl (merge_step other) (b, 0) (seqZ 0 (chunk_count b))).

(** The inner [while]: how many missing chunks follow [index], at most [budget]. *)
Fixpoint run_length (fuel : nat) (b : ChunkBitmap) (index budget : Z) : Z :=
  match fuel with
  | O => 0
  | S fuel =>
      if (index <? chunk_count b) && negb (has b index) && (0 <? budget)
      then 1 + run_length fuel b (index + 1) (budget - 1) else 0
  end.

(** The outer [while], with [taken] ranges collected so far.  Each pass moves
    the index, so the chunk count bounds the passes. *)
Fixpoint ranges_loop (fuel : nat) (b : ChunkBitmap) (max_ranges index budget taken : Z)
  : list ChunkRange :=
  match fuel with
  | O => []
  | S fuel =>
      if (index <? chunk_count b) && (0 <? budget) && (taken <? max_ranges) then
        if has b index then ranges_loop fuel b max_ranges (index + 1) budget taken
        else let count := run_length (Z.to_nat budget) b index budget in
             mk_range index count
             :: ranges_loop fuel b max_ranges (index + count) (budget - count) (taken + 1)
      else []
  end.

Definition missing_ranges (b : ChunkBitmap) (max_chunks max_ranges : Z) : list ChunkRange :=
  if (max_chunks =? 0) || (max_ranges =? 0) then []
  else ranges_loop (S (Z.to_nat (chunk_count b))) b max_ranges 0 max_chunks 0.

(** * Bits *)

Definition bit_at (bs : bytes) (index : Z) : bool :=
  match bs !! Z.to_nat (index / 8) with
  | Some x => Z.testbit (Z_of_byte x) (7 - index mod 8)
  | None => false
  end.

Lemma bit_range index : 0 <= 7 - index mod 8 < 8.
Proof. pose proof (Z.mod_pos_bound index 8). lia. Qed.

Lemma land_bit x k : 0 <= k -> negb (Z.land x (Z.shiftl 1 k) =? 0) = Z.testbit x k.
Proof.
  intros Hk. rewrite Z.shiftl_1_l.
  assert (Z.land x (2 ^ k) = if Z.testbit x k then 2 ^ k else 0) as ->.
  { apply Z.bits_inj'. intros n Hn. rewrite Z.land_spec, Z.pow2_bits_eqb by done.
    destruct (Z.eqb_spec k n) as [->|Hne].
    - rewrite andb_true_r. destruct (Z.testbit x n); [by rewrite Z.pow2_bits_true|by rewrite Z.bits_0].
    - rewrite andb_false_r. destruct (Z.testbit x k); [|by rewrite Z.bits_0].
      by rewrite Z.pow2_bits_false. }
  destruct (Z.testbit x k); [|done]. apply negb_true_iff, Z.eqb_neq. lia.
Qed.

Lemma bit_test_at bs index : bit_test bs index = bit_at bs index.
Proof.
  unfold bit_test, bit_at, bit_position. destruct (bs !! _); [|done].
  apply land_bit. pose proof (bit_range index). lia.
Qed.

Lemma testbit_byte z k : 0 <= k < 8 -> Z.testbit (Z_of_byte (byte_of_Z z)) k = Z.testbit z k.
Proof.
  intros Hk. rewrite Z_of_byte_of_Z. change 256 with (2 ^ 8). apply Z.mod_pow2_bits_low. lia.
Qed.

Lemma same_bit i j : 0 <= i -> 0 <= j -> Z.to_nat (i / 8) = Z.to_nat (j / 8) ->
  7 - i mod 8 = 7 - j mod 8 -> i = j.
Proof. intros. Z.to_euclidean_division_equations. lia. Qed.

(** Updating the byte of bit [i] changes bit [i] alone. *)
Lemma bit_at_alter (f : Z -> Z -> Z) (v : bool) bs i j :
  (forall x, f x (Z.shiftl 1 (7 - i mod 8)) = f x (2 ^ (7 - i mod 8))) ->
  (forall x k, 0 <= k < 8 -> Z.testbit (f x (2 ^ (7 - i mod 8))) k =
     if k =? 7 - i mod 8 then v else Z.testbit x k) ->
  0 <= i < 8 * blen bs -> 0 <= j ->
  bit_at (alter (fun x => byte_of_Z (f (Z_of_byte x) (Z.shiftl 1 (7 - i mod 8)))) (Z.to_nat (i / 8)) bs) j
  = if j =? i then v else bit_at bs j.
Proof.
  intros Hsh Hf Hi Hj. unfold bit_at.
  destruct (decide (Z.to_nat (i / 8) = Z.to_nat (j / 8))) as [E|E].
  - rewrite <-E, list_lookup_alter_eq.
    assert (Z.to_nat (i / 8) < length bs)%nat as Hlt
      by (unfold blen in Hi; Z.to_euclidean_division_equations; lia).
    destruct (lookup_lt_is_Some_2 _ _ Hlt) as [x Hx]. rewrite Hx. cbn.
    rewrite testbit_byte, Hsh, Hf by apply bit_range.
    destruct (Z.eqb_spec j i) as [->|Hne]; [by rewrite Z.eqb_refl|].
    rewrite (proj2 (Z.eqb_neq _ _)); [done|]. intros H. apply Hne. symmetry.
    apply same_bit; [lia|done|done|done].
  - rewrite list_lookup_alter_ne by done. destruct (Z.eqb_spec j i) as [->|Hne]; done.
Qed.

Lemma set_bit bs i j : 0 <= i < 8 * blen bs -> 0 <= j ->
  bit_at (alter (fun x => byte_of_Z (Z.lor (Z_of_byte x) (bit_position i).2)) (bit_position i).1 bs) j
  = if j =? i then true else bit_at bs j.
Proof.
  intros Hi Hj. apply (bit_at_alter Z.lor); [intros; by rewrite Z.shiftl_1_l| |done|done].
  intros x k Hk. rewrite Z.lor_spec, Z.pow2_bits_eqb by (pose proof (bit_range i); lia).
  rewrite Z.eqb_sym. destruct (k =? _); [apply orb_true_r|apply orb_false_r].
Qed.

Lemma clear_bit bs i j : 0 <= i < 8 * blen bs -> 0 <= j ->
  bit_at (alter (fun x => byte_of_Z (Z.land (Z_of_byte x) (Z.lxor 255 (bit_position i).2)))
    (bit_position i).1 bs) j
  = if j =? i then false else bit_at bs j.
Proof.
  intros Hi Hj. apply (bit_at_alter (fun x m => Z.land x (Z.lxor 255 m)));
    [intros; by rewrite Z.shiftl_1_l| |done|done].
  intros x k Hk. rewrite Z.land_spec, Z.lxor_spec, Z.pow2_bits_eqb by (pose proof (bit_range i); lia).
  change 255 with (Z.ones 8). rewrite Z.ones_spec_low by lia.
  rewrite Z.eqb_sym. destruct (k =? _); [apply andb_false_r|apply andb_true_r].
Qed.

(** * The invariant *)

Definition count_bits (bs : bytes) (n : Z) : Z := blen (List.filter (bit_at bs) (seqZ 0 n)).

Record bitmap_ok (b : ChunkBitmap) : Prop := {
  bk_count : 0 < chunk_count b <= U32_MAX - 7;
  bk_len : blen (bits b) = byte_len (chunk_count b);
  bk_padding : forall i, chunk_count b <= i < 8 * blen (bits b) -> bit_at (bits b) i = false;
  bk_present : present b = count_bits (bits b) (chunk_count b);
}.

Lemma byte_len_bounds n : n <= 8 * byte_len n < n + 8.
Proof. unfold byte_len. pose proof (z_div_ceil_bounds n 8 ltac:(lia)). lia. Qed.

Lemma count_flip {A} (f g : A -> bool) l i : NoDup l -> i ∈ l -> f i = false -> g i = true ->
  (forall j, j ∈ l -> j <> i -> g j = f j) ->
  blen (List.filter g l) = blen (List.filter f l) + 1.
Proof.
  intros Hn. induction Hn as [|x l Hx Hn IH]; intros Hi Hf Hg Hj; [by apply not_elem_of_nil in Hi|].
  cbn [List.filter]. apply elem_of_cons in Hi as [->|Hi].
  - rewrite Hf, Hg, blen_cons. rewrite (List.filter_ext_in g f); [lia|].
    intros j Hjl%list_elem_of_In. apply Hj; [by right|]. intros ->. done.
  - assert (g x = f x) as -> by (apply Hj; [left|by intros ->]).
    specialize (IH Hi Hf Hg). destruct (f x); rewrite ?blen_cons, IH; try lia;
      intros; apply Hj; [by right|done|by right|done].
Qed.

Lemma has_bit b i : 0 <= i < chunk_count b -> has b i = bit_at (bits b) i.
Proof. intros Hi. unfold has. rewrite (proj2 (Z.leb_gt _ _)) by lia. apply bit_test_at. Qed.

Lemma has_out b i : chunk_count b <= i -> has b i = false.
Proof. intros Hi. unfold has. by rewrite (proj2 (Z.leb_le _ _)). Qed.

Section ops.
Context (b : ChunkBitmap) (B : bitmap_ok b).

Lemma in_bits i : 0 <= i < chunk_count b -> 0 <= i < 8 * blen (bits b).
Proof. rewrite (bk_len b B). pose proof (byte_len_bounds (chunk_count b)). lia. Qed.

Lemma blen_alter (f : byte -> byte) i (l : bytes) : blen (alter f i l) = blen l.
Proof. unfold blen. by rewrite length_alter. Qed.

Lemma set_spec i : 0 <= i ->
  bitmap_ok (set b i).1 /\ chunk_count (set b i).1 = chunk_count b /\
  (forall j, 0 <= j -> has (set b i).1 j = has b j || ((j =? i) && (i <? chunk_count b))) /\
  (set b i).2 = (i <? chunk_count b) && negb (has b i).
Proof.
  intros Hi. unfold set. destruct (Z.leb_spec (chunk_count b) i) as [Ho|Ho]; cbn [orb].
  { rewrite (proj2 (Z.ltb_ge _ _)) by done. split_and!; [done|done| |done].
    intros j _. by rewrite andb_false_r, orb_false_r. }
  rewrite (proj2 (Z.ltb_lt _ _)) by done. destruct (has b i) eqn:Hh.
  { split_and!; [done|done| |done]. intros j _. rewrite andb_true_r.
    destruct (Z.eqb_spec j i) as [->|]; [by rewrite Hh|by rewrite orb_false_r]. }
  pose proof (in_bits i ltac:(lia)) as Hib. destruct (bit_position i) as [p m] eqn:Ep.
  pose proof (set_bit (bits b) i) as Hs. rewrite Ep in Hs. cbn [fst snd] in Hs |- *.
  split_and!; [|done| |done].
  - split; cbn [chunk_count present bits]; rewrite ?blen_alter; try apply B.
    + intros j Hj. rewrite Hs by lia. rewrite (proj2 (Z.eqb_neq _ _)) by lia. by apply B.
    + rewrite (bk_present b B). symmetry. apply (count_flip _ _ _ i).
      * apply NoDup_seqZ.
      * apply elem_of_seqZ. lia.
      * by rewrite has_bit in Hh by lia.
      * by rewrite Hs, Z.eqb_refl by lia.
      * intros j Hj%elem_of_seqZ Hne. rewrite Hs by lia. by rewrite (proj2 (Z.eqb_neq _ _)).
  - intros j Hj. rewrite andb_true_r. destruct (Z.leb_spec (chunk_count b) j).
    + rewrite !has_out by done. destruct (Z.eqb_spec j i); [lia|done].
    + rewrite !has_bit by (cbn; lia). cbn [bits]. rewrite Hs by lia.
      destruct (j =? i); by rewrite ?orb_true_r, ?orb_false_r.
Qed.

Lemma clear_spec i : 0 <= i ->
  bitmap_ok (clear b i).1 /\ chunk_count (clear b i).1 = chunk_count b /\
  (forall j, 0 <= j -> has (clear b i).1 j = has b j && negb (j =? i)) /\
  (clear b i).2 = has b i.
Proof.
  intros Hi. unfold clear. destruct (Z.leb_spec (chunk_count b) i) as [Ho|Ho]; cbn [orb fst snd].
  { split_and!; [done|done| |by rewrite has_out]. intros j _.
    destruct (Z.eqb_spec j i) as [->|]; [by rewrite has_out|by rewrite andb_true_r]. }
  destruct (has b i) eqn:Hh; cbn [negb fst snd].
  2:{ split_and!; [done|done| |done]. intros j _.
      destruct (Z.eqb_spec j i) as [->|]; [by rewrite Hh|by rewrite andb_true_r]. }
  pose proof (in_bits i ltac:(lia)) as Hib. destruct (bit_position i) as [p m] eqn:Ep.
  pose proof (clear_bit (bits b) i) as Hs. rewrite Ep in Hs. cbn [fst snd] in Hs |- *.
  split_and!; [|done| |done].
  - split; cbn [chunk_count present bits]; rewrite ?blen_alter; try apply B.
    + intros j Hj. rewrite Hs by lia. destruct (j =? i); [done|by apply B].
    + rewrite (bk_present b B). unfold count_bits.
      rewrite (count_flip (bit_at (alter (fun x => byte_of_Z (Z.land (Z_of_byte x) (Z.lxor 255 m))) p (bits b)))
        (bit_at (bits b)) _ i); [lia|apply NoDup_seqZ|apply elem_of_seqZ; lia| | |].
      * by rewrite Hs, Z.eqb_refl by lia.
      * by rewrite has_bit in Hh by lia.
      * intros j Hj%elem_of_seqZ Hne. rewrite Hs by lia. by rewrite (proj2 (Z.eqb_neq _ _)).
  - intros j Hj. destruct (Z.leb_spec (chunk_count b) j); [by rewrite !has_out|].
    rewrite !has_bit by (cbn; lia). cbn [bits]. rewrite Hs by lia.
    destruct (j =? i); by rewrite ?andb_true_r, ?andb_false_r.
Qed.

(** The running count reaches the chunk count exactly when every bit is set. *)
Lemma complete_spec : is_complete b = true <-> forall i, 0 <= i < chunk_count b -> has b i = true.
Proof.
  unfold is_complete. rewrite Z.eqb_eq, (bk_present b B). unfold count_bits.
  assert (blen (seqZ 0 (chunk_count b)) = chunk_count b) as Hl.
  { unfold blen. rewrite length_seqZ. pose proof (bk_count b B). lia. }
  rewrite <-Hl at 2. split.
  - intros Hc i Hi. rewrite has_bit by done. revert Hc i Hi.
    assert (forall l : list Z, blen (List.filter (bit_at (bits b)) l) = blen l ->
      forall i, i ∈ l -> bit_at (bits b) i = true) as H.
    { induction l as [|x l IH]; intros Hc i Hi; [by apply not_elem_of_nil in Hi|].
      cbn [List.filter] in Hc.
      assert (blen (List.filter (bit_at (bits b)) l) <= blen l) as Hle.
      { unfold blen. pose proof (List.filter_length_le (bit_at (bits b)) l). lia. }
      destruct (bit_at (bits b) x) eqn:Hx; rewrite !blen_cons in Hc; [|lia].
      apply elem_of_cons in Hi as [->|Hi]; [done|]. apply IH; [lia|done]. }
    intros Hc i Hi. apply (H _ Hc), elem_of_seqZ. lia.
  - intros Hall. f_equal. apply forallb_filter_id, forallb_forall.
    intros i Hi%list_elem_of_In%elem_of_seqZ. rewrite <-has_bit by lia. apply Hall. lia.
Qed.

End ops.

(** ** Merging *)

Lemma set_count_step b i : (set b i).2 = false -> (set b i).1 = b.
Proof. unfold set. destruct ((_ <=? _) || _); [done|]. by destruct (bit_position i). Qed.

Lemma set_present b i : present (set b i).1 = present b + (if (set b i).2 then 1 else 0).
Proof.
  unfold set. destruct ((_ <=? _) || _); [cbn; lia|]. by destruct (bit_position i).
Qed.

Lemma merge_fold other l : Forall (fun i => 0 <= i) l -> forall b gained, bitmap_ok b ->
  chunk_count other = chunk_count b ->
  let r := foldl (merge_step other) (b, gained) l in
  bitmap_ok r.1 /\ chunk_count r.1 = chunk_count b /\ r.2 - gained = present r.1 - present b /\
  forall j, 0 <= j -> has r.1 j = has b j || (bool_decide (j ∈ l) && has other j).
Proof.
  induction 1 as [|i l Hi _ IH]; intros b gained B Hc.
  { cbn. split_and!; try done; [lia|]. intros j _. rewrite bool_decide_false by apply not_elem_of_nil.
    by rewrite orb_false_r. }
  cbn [foldl merge_step]. destruct (has other i) eqn:Ho.
  - destruct (set_spec b B i Hi) as (B' & Hc' & Hh & Hch). pose proof (set_present b i) as Hp.
    destruct (set b i) as [b' ch]. cbn [fst snd] in *.
    destruct (IH b' (if ch then gained + 1 else gained) B') as (H1 & H2 & H3 & H4); [congruence|].
    cbn zeta in *. split_and!; [done|congruence|destruct ch; lia|].
    intros j Hj. rewrite H4, Hh by done. destruct (Z.eqb_spec j i) as [->|Hne].
    + rewrite (bool_decide_true (i ∈ i :: l)) by left. rewrite Ho. cbn.
      destruct (Z.ltb_spec i (chunk_count b)); [by rewrite !orb_true_r|].
      rewrite has_out in Ho by lia. done.
    + cbn. rewrite orb_false_r. do 2 f_equal. apply bool_decide_ext. set_solver.
  - destruct (IH b gained B Hc) as (H1 & H2 & H3 & H4). split_and!; try done.
    intros j Hj. rewrite H4 by done. destruct (decide (j = i)) as [->|Hne].
    + by rewrite Ho, !andb_false_r.
    + do 2 f_equal. apply bool_decide_ext. set_solver.
Qed.

(** ** Loading *)

Lemma bit_at_tail x bs j : 0 <= j -> bit_at (x :: bs) (8 + j) = bit_at bs j.
Proof.
  intros Hj. unfold bit_at. replace ((8 + j) / 8) with (1 + j / 8) by
    (rewrite <-Z.div_add_l by lia; f_equal; lia).
  replace ((8 + j) mod 8) with (j mod 8) by (rewrite <-(Z.mod_add j 1 8) by lia; f_equal; lia).
  replace (Z.to_nat (1 + j / 8)) with (S (Z.to_nat (j / 8))); [done|].
  pose proof (Z.div_pos j 8). lia.
Qed.

Lemma bit_at_head x bs i : 0 <= i < 8 -> bit_at (x :: bs) i = Z.testbit (Z_of_byte x) (7 - i).
Proof. intros Hi. unfold bit_at. by rewrite Z.div_small, Z.mod_small by lia. Qed.

Lemma count_byte x bs : blen (List.filter (bit_at (x :: bs)) (seqZ 0 8)) = count_ones x.
Proof.
  rewrite (List.filter_ext_in _ (fun i => Z.testbit (Z_of_byte x) (7 - i))).
  2:{ intros i Hi%list_elem_of_In%elem_of_seqZ. apply bit_at_head. lia. }
  unfold count_ones. generalize (Z.testbit (Z_of_byte x)). intros f.
  change (seqZ 0 8) with [7 - 7; 7 - 6; 7 - 5; 7 - 4; 7 - 3; 7 - 2; 7 - 1; 7 - 0].
  cbn [List.filter].
  change (7 - (7 - 7)) with 7. change (7 - (7 - 6)) with 6. change (7 - (7 - 5)) with 5.
  change (7 - (7 - 4)) with 4. change (7 - (7 - 3)) with 3. change (7 - (7 - 2)) with 2.
  change (7 - (7 - 1)) with 1. change (7 - (7 - 0)) with 0.
  by destruct (f 0), (f 1), (f 2), (f 3), (f 4), (f 5), (f 6), (f 7).
Qed.

Lemma filter_fmap_list {A B} (f : B -> bool) (g : A -> B) l :
  List.filter f (g <$> l) = g <$> List.filter (fun x => f (g x)) l.
Proof. induction l as [|x l IH]; [done|]. cbn. destruct (f (g x)); cbn; by rewrite IH. Qed.

Lemma count_all_bits bs : foldr (fun b s => count_ones b + s) 0 bs = count_bits bs (8 * blen bs).
Proof.
  induction bs as [|x bs IH]; [done|]. cbn [foldr]. rewrite IH, blen_cons. unfold count_bits.
  pose proof (blen_nonneg bs). replace (8 * (1 + blen bs)) with (8 + 8 * blen bs) by lia.
  rewrite seqZ_app by lia. rewrite List.filter_app, blen_app, count_byte. f_equal.
  replace (seqZ (0 + 8) (8 * blen bs)) with (Z.add 8 <$> seqZ 0 (8 * blen bs))
    by (rewrite fmap_add_seqZ; f_equal; lia).
  rewrite filter_fmap_list. unfold blen at 1 3. rewrite length_fmap. do 2 f_equal. apply List.filter_ext_in.
  intros j Hj%list_elem_of_In%elem_of_seqZ. symmetry. apply bit_at_tail. lia.
Qed.

Lemma count_bits_padded bs n : 0 <= n <= 8 * blen bs ->
  (forall i, n <= i < 8 * blen bs -> bit_at bs i = false) ->
  count_bits bs (8 * blen bs) = count_bits bs n.
Proof.
  intros Hn Hp. unfold count_bits. replace (8 * blen bs) with (n + (8 * blen bs - n)) by lia.
  rewrite seqZ_app, List.filter_app, blen_app by lia.
  assert (List.filter (bit_at bs) (seqZ (0 + n) (8 * blen bs - n)) = []) as ->.
  { rewrite (List.filter_ext_in _ (fun _ => false)); [apply List.filter_false|].
    intros i Hi%list_elem_of_In%elem_of_seqZ. apply Hp. lia. }
  apply Z.add_0_r.
Qed.

Lemma trailing_bits_exact n : 0 < n <= U32_MAX - 7 -> trailing_bits n = 8 * byte_len n - n.
Proof.
  intros Hn. pose proof (byte_len_bounds n). unfold trailing_bits, as_u32.
  rewrite (Z.mod_small (byte_len n * 8)) by ints. rewrite Z.mod_small by lia. lia.
Qed.

(** The mask test is the padding condition. *)
Lemma padding_spec n bs : 0 < n <= U32_MAX - 7 -> blen bs = byte_len n ->
  negb ((0 <? trailing_bits n) &&
    negb (Z.land (Z_of_byte (default x00 (bs !! Z.to_nat (byte_len n - 1))))
            (Z.shiftl 1 (trailing_bits n mod 8) - 1) =? 0)) = true <->
  forall i, n <= i < 8 * blen bs -> bit_at bs i = false.
Proof.
  intros Hn Hl. rewrite trailing_bits_exact by done. pose proof (byte_len_bounds n) as Hb.
  rewrite Z.mod_small by lia. set (t := 8 * byte_len n - n) in *.
  rewrite negb_true_iff, andb_false_iff, negb_false_iff, Z.ltb_ge, Z.eqb_eq.
  replace (Z.shiftl 1 t - 1) with (Z.ones t) by (unfold Z.ones; lia).
  destruct (lookup_lt_is_Some_2 bs (Z.to_nat (byte_len n - 1))) as [x Hx].
  { unfold blen in Hl. lia. }
  rewrite Hx. cbn [default from_option id].
  assert (forall i, n <= i < 8 * blen bs -> bit_at bs i = Z.testbit (Z_of_byte x) (7 - i mod 8)
    /\ 0 <= 7 - i mod 8 < t) as Hat.
  { intros i Hi. unfold bit_at. replace (i / 8) with (byte_len n - 1)
      by (Z.to_euclidean_division_equations; lia).
    rewrite Hx. split; [done|]. Z.to_euclidean_division_equations. lia. }
  split.
  - intros [H|H] i Hi; destruct (Hat i Hi) as [-> Ht]; [lia|].
    apply (f_equal (fun z => Z.testbit z (7 - i mod 8))) in H.
    rewrite Z.land_spec, Z.ones_spec_low, andb_true_r, Z.bits_0 in H by lia. done.
  - intros H. right. apply Z.bits_inj'. intros k Hk. rewrite Z.land_spec, Z.bits_0.
    destruct (decide (k < t)); [|by rewrite Z.ones_spec_high, andb_false_r by lia].
    set (i := 8 * byte_len n - 1 - k).
    assert (n <= i < 8 * blen bs) as Hi by lia. specialize (H i Hi).
    destruct (Hat i Hi) as [Hbit Hr]. rewrite Hbit in H.
    assert (7 - i mod 8 = k) as Ek by (subst i; clear - l Hb Hk; Z.to_euclidean_division_equations; lia).
    rewrite Ek in H. by rewrite H.
Qed.

Lemma from_bytes_ok n bs b : 0 < n <= U32_MAX - 7 ->
  from_bytes n bs = Ok b <-> bitmap_ok b /\ chunk_count b = n /\ as_bytes b = bs.
Proof.
  intros Hn. unfold from_bytes. rewrite (proj2 (Z.eqb_neq n 0)) by lia.
  cbn [ensure negb mbind result_bind]. split.
  - intros ([] & Hl%ensure_ok & ([] & Hp%ensure_ok & H)%result_bind_ok)%result_bind_ok.
    apply Z.eqb_eq in Hl. rewrite (padding_spec n bs Hn Hl) in Hp.
    injection H as <-. split; [|done]. split; cbn [chunk_count bits present]; try done.
    rewrite count_all_bits. apply count_bits_padded; [|done].
    rewrite Hl. pose proof (byte_len_bounds n). lia.
  - intros (B & Hc & Hb). destruct b as [n' pr bs']. unfold as_bytes in Hb. cbn in Hc, Hb. subst n' bs'.
    pose proof (bk_len _ B) as Hl. cbn [bits chunk_count] in Hl.
    rewrite Hl, Z.eqb_refl. cbn [ensure negb mbind result_bind].
    rewrite (proj2 (padding_spec n bs Hn Hl)) by apply (bk_padding _ B).
    cbn [ensure mbind result_bind]. do 2 f_equal. rewrite count_all_bits.
    rewrite (bk_present _ B : pr = _). cbn [bits chunk_count].
    apply count_bits_padded; [|apply (bk_padding _ B)].
    rewrite Hl. pose proof (byte_len_bounds n). lia.
Qed.

(** * The missing-range walk *)

(** The chunks a range names, and the missing chunks from an index on. *)
Definition expand (r : ChunkRange) : list Z := seqZ (r_start r) (r_count r).

Definition missing_from (b : ChunkBitmap) (i : Z) : list Z :=
  List.filter (fun j => negb (has b j)) (seqZ i (chunk_count b - i)).

Lemma missing_from_end b i : chunk_count b <= i -> missing_from b i = [].
Proof. intros H. unfold missing_from. by rewrite seqZ_nil by lia. Qed.

Lemma missing_from_step b i : i < chunk_count b ->
  missing_from b i = if has b i then missing_from b (i + 1) else i :: missing_from b (i + 1).
Proof.
  intros H. unfold missing_from. rewrite seqZ_cons by lia. cbn [List.filter].
  replace (Z.pred (chunk_count b - i)) with (chunk_count b - (i + 1)) by lia.
  by destruct (has b i).
Qed.

Lemma run_length_spec b fuel : forall i budget, 0 <= budget -> budget <= Z.of_nat fuel ->
  let c := run_length fuel b i budget in
  0 <= c <= budget /\ missing_from b i = seqZ i c ++ missing_from b (i + c) /\
  (i < chunk_count b -> has b i = false -> 0 < budget -> 0 < c).
Proof.
  induction fuel as [|fuel IH]; intros i budget Hb Hf; cbn [run_length].
  { split_and!; [lia..| |lia]. by rewrite Z.add_0_r. }
  destruct ((i <? chunk_count b) && negb (has b i) && (0 <? budget)) eqn:E.
  - bools. destruct (IH (i + 1) (budget - 1)) as (Hc & Hm & _); [lia|lia|].
    set (c := run_length fuel b (i + 1) (budget - 1)) in *. split_and!; [lia..| |lia].
    rewrite missing_from_step by done.
    match goal with H : has b i = false |- _ => rewrite H end.
    rewrite Hm, (seqZ_cons i) by lia. cbn [app]. f_equal.
    replace (Z.succ i) with (i + 1) by lia. replace (Z.pred (1 + c)) with c by lia.
    by replace (i + (1 + c)) with (i + 1 + c) by lia.
  - split_and!; [lia..| |].
    + by rewrite Z.add_0_r.
    + intros H1 H2 H3. rewrite H2 in E. cbn in E. rewrite !(proj2 (Z.ltb_lt _ _)) in E by done. done.
Qed.

Definition covers (b : ChunkBitmap) (i max_chunks max_ranges : Z) (rs : list ChunkRange) : Prop :=
  blen rs <= max_ranges /\ Forall (fun r => 0 < r_count r) rs /\
  exists k : nat, concat (expand <$> rs) = take k (missing_from b i) /\ Z.of_nat k <= max_chunks /\
    (k <= length (missing_from b i))%nat /\
    (Z.of_nat k = max_chunks \/ k = length (missing_from b i) \/ blen rs = max_ranges).

Lemma covers_stop b i mc mr : 0 <= mc -> 0 <= mr ->
  chunk_count b <= i \/ mc = 0 \/ mr = 0 -> covers b i mc mr [].
Proof.
  intros Hc Hr H. split_and!; [done|constructor|]. exists 0%nat. cbn. split_and!; [done|lia|lia|].
  destruct H as [H|[H|H]]; [|lia|by right; right]. rewrite missing_from_end by done. by right; left.
Qed.

Lemma ranges_loop_spec b max_ranges fuel : forall i budget taken,
  0 <= budget -> taken <= max_ranges -> chunk_count b - i < Z.of_nat fuel ->
  covers b i budget (max_ranges - taken) (ranges_loop fuel b max_ranges i budget taken).
Proof.
  induction fuel as [|fuel IH]; intros i budget taken Hb Ht Hf; cbn [ranges_loop].
  { apply covers_stop; lia. }
  destruct ((i <? chunk_count b) && (0 <? budget) && (taken <? max_ranges)) eqn:E.
  2:{ apply covers_stop; [lia..|]. rewrite !andb_false_iff, !Z.ltb_ge in E. lia. }
  bools. destruct (has b i) eqn:Hh.
  - pose proof (IH (i + 1) budget taken Hb Ht ltac:(lia)) as H'. unfold covers in *.
    rewrite missing_from_step, Hh by done. exact H'.
  - destruct (run_length_spec b (Z.to_nat budget) i budget Hb ltac:(lia)) as (Hc & Hm & Hpos).
    set (c := run_length (Z.to_nat budget) b i budget) in *. specialize (Hpos ltac:(done) Hh ltac:(done)).
    destruct (IH (i + c) (budget - c) (taken + 1)) as (Hl & Hfo & k & Hk & Hkb & Hkl & Hstop); [lia..|].
    assert (length (seqZ i c) = Z.to_nat c) as Hlc by apply length_seqZ.
    unfold covers. rewrite Hm, length_app, Hlc, blen_cons. split_and!; [lia|by constructor|].
    exists (Z.to_nat c + k)%nat. split_and!; [|lia|lia|lia].
    cbn [fmap list_fmap concat]. rewrite Hk, <-Hlc, take_app_add. done.
Qed.

Lemma missing_ranges_covers b max_chunks max_ranges : 0 <= max_chunks -> 0 <= max_ranges ->
  0 < chunk_count b -> covers b 0 max_chunks max_ranges (missing_ranges b max_chunks max_ranges).
Proof.
  intros Hc Hr Hn. unfold missing_ranges. destruct ((max_chunks =? 0) || (max_ranges =? 0)) eqn:E.
  - apply covers_stop; [done..|]. apply orb_true_iff in E as [E|E]; bools; auto.
  - pose proof (ranges_loop_spec b max_ranges (S (Z.to_nat (chunk_count b))) 0 max_chunks 0) as H.
    rewrite !Z.sub_0_r in H. apply H; lia.
Qed.

(** While something is missing, the walk finds it. *)
Lemma missing_ranges_progress b max_chunks max_ranges : bitmap_ok b ->
  0 < max_chunks -> 0 < max_ranges -> is_complete b = false -> missing_ranges b max_chunks max_ranges <> [].
Proof.
  intros B Hc Hr Hn He. destruct (missing_ranges_covers b max_chunks max_ranges) as (_ & _ & k & Hk & _ & Hl & Hs);
    [lia|lia|apply B|]. rewrite He in *. cbn in Hk, Hs.
  assert (missing_from b 0 = []) as Hm.
  { destruct Hs as [Hs|[Hs|Hs]]; [|subst k; by rewrite take_ge in Hk|unfold blen in Hs; cbn in Hs; lia].
    destruct k; [lia|]. by destruct (missing_from b 0). }
  apply Bool.not_true_iff_false in Hn. apply Hn, (complete_spec b B). intros i Hi.
  destruct (has b i) eqn:Hh; [done|]. exfalso. apply (List.in_nil (a := i)). rewrite <-Hm.
  apply List.filter_In. split; [|by rewrite Hh]. apply list_elem_of_In, elem_of_seqZ. lia.
Qed.

(** * Claims *)

(** The bitmap's operations preserve its invariant, and do what they say:
    [set] adds exactly its chunk and reports whether it was new, [clear] removes
    exactly its chunk, [merge] is the union and counts what it gained, and the
    bitmap is complete exactly when every chunk is present. *)
Theorem bitmap_operations b other i : bitmap_ok b -> 0 <= i ->
  (bitmap_ok (set b i).1 /\
   (forall j, 0 <= j -> has (set b i).1 j = has b j || ((j =? i) && (i <? chunk_count b))) /\
   (set b i).2 = (i <? chunk_count b) && negb (has b i)) /\
  (bitmap_ok (clear b i).1 /\
   (forall j, 0 <= j -> has (clear b i).1 j = has b j && negb (j =? i))) /\
  (chunk_count other = chunk_count b -> exists b' gained, merge b other = Ok (b', gained) /\
     bitmap_ok b' /\ gained = present b' - present b /\
     forall j, 0 <= j -> has b' j = has b j || has other j) /\
  (is_complete b = true <-> forall j, 0 <= j < chunk_count b -> has b j = true).
Proof.
  intros B Hi. destruct (set_spec b B i Hi) as (? & _ & ? & ?).
  destruct (clear_spec b B i Hi) as (? & _ & ? & _).
  split; [done|]. split; [done|]. split; [|by apply complete_spec].
  intros Hc. unfold merge. rewrite Hc, Z.eqb_refl. cbn [ensure mbind result_bind].
  destruct (merge_fold other (seqZ 0 (chunk_count b))) with (b := b) (gained := 0)
    as (M1 & M2 & M3 & M4); [apply Forall_seqZ; lia|done|done|].
  destruct (foldl _ _ _) as [b' gained]. cbn [fst snd] in *. exists b', gained.
  split_and!; [done|done|lia|]. intros j Hj. rewrite M4 by done.
  destruct (Z.leb_spec (chunk_count b) j).
  - rewrite (has_out other j) by lia. by rewrite andb_false_r.
  - by rewrite bool_decide_true by (apply elem_of_seqZ; lia).
Qed.

(** A persisted bitmap loads exactly when it is the bytes of a consistent
    bitmap of that chunk count (length, padding and count included), so storing
    and loading is the identity. *)
Theorem bitmap_persistence n bs b : 0 < n <= U32_MAX - 7 ->
  from_bytes n bs = Ok b <-> bitmap_ok b /\ chunk_count b = n /\ as_bytes b = bs.
Proof. apply from_bytes_ok. Qed.

(** The ranges a request asks for are, in order, the first missing chunks:
    never a present one, never more than the window or the range limit, never an
    empty range, and fewer than the window only when everything missing is asked
    for or the range limit is reached. *)
Theorem missing_ranges_spec b max_chunks max_ranges : bitmap_ok b -> 0 <= max_chunks -> 0 <= max_ranges ->
  covers b 0 max_chunks max_ranges (missing_ranges b max_chunks max_ranges).
Proof. intros B Hc Hr. apply missing_ranges_covers; [done..|]. apply B. Qed.

(** Ten chunks, of which 0 and 3 are present. *)
Definition sample_bitmap : ChunkBitmap := mk_bitmap 10 2 [x90; x00].

Lemma sample_bitmap_ok : bitmap_ok sample_bitmap.
Proof. apply (from_bytes_ok 10 [x90; x00]); [done|]. vm_compute. reflexivity. Qed.

Lemma bitmap_operations_witness :
  bitmap_ok (set sample_bitmap 4).1 /\ (set sample_bitmap 4).2 = true /\ bitmap_ok (clear sample_bitmap 4).1.
Proof.
  destruct (bitmap_operations sample_bitmap sample_bitmap 4 sample_bitmap_ok ltac:(lia))
    as ((H1 & _ & H2) & (H3 & _) & _).
  split; [exact H1|]. split; [rewrite H2; vm_compute; reflexivity|exact H3].
Defined.

Lemma bitmap_persistence_witness :
  from_bytes 10 [x90; x00] = Ok sample_bitmap <->
  bitmap_ok sample_bitmap /\ chunk_count sample_bitmap = 10 /\ as_bytes sample_bitmap = [x90; x00].
Proof. apply bitmap_persistence. unfold U32_MAX. lia. Defined.

Lemma missing_ranges_spec_witness : covers sample_bitmap 0 4 8 (missing_ranges sample_bitmap 4 8).
Proof. apply missing_ranges_spec; [apply sample_bitmap_ok|lia|lia]. Defined.
