(* ===== verification/MediaWire.v ===== *)
(** The LAN pull sub-channel: its frames, and the proof of manifest possession
    a fetch carries ([core/src/media/wire.rs]). *)
From stdpp Require Import base numbers list strings.
From S2P Require Import Prelude Wire Crypto MediaBlob MediaBitmap.

Definition PULL_NONCE_LEN : Z := 16.
Definition PULL_PROOF_LEN : Z := 32.
Definition PULL_MAX_RANGES_PER_FETCH : Z := 8.
Definition PROOF_DOMAIN : bytes := ascii "cruisemesh.media.pull-proof/v1".
Definition FRAME_OPEN : Z := 1.
Definition FRAME_CHALLENGE : Z := 2.
Definition FRAME_FETCH : Z := 3.
Definition FRAME_CHUNK : Z := 4.
Definition FRAME_BATCH_DONE : Z := 5.
Definition FRAME_REFUSED : Z := 6.
Definition FRAME_CLOSE : Z := 7.

Inductive RefusalReason : Type := NotHeld | ProofInvalid | BadRequest | ServeBudgetSpent | Busy.

#[global] Instance RefusalReason_eq_dec : EqDecision RefusalReason.
Proof. solve_decision. Defined.

Inductive PullFrame : Type :=
| Open (blob_id : bytes)
| Challenge (nonce : bytes) (chunks_held : Z)
| Fetch (proof : bytes) (ranges : list ChunkRange)
| Chunk (index : Z) (ct : bytes)
| BatchDone (chunks_served : Z)
| Refused (reason : RefusalReason)
| Close.

Section proof.
Context `{C : Crypto}.

Definition pull_proof (key blob_id nonce : bytes) : bytes :=
  blake2b 32 (PROOF_DOMAIN ++ blob_id ++ nonce ++ key).

(** The accumulated xor of the comparison loop. *)
Definition xor_diff (a b : bytes) : Z :=
  foldl (fun d '(x, y) => Z.lor d (Z.lxor (Z_of_byte x) (Z_of_byte y))) 0 (zip a b).

Definition verify_pull_proof (key blob_id nonce presented : bytes) : bool :=
  xor_diff (pull_proof key blob_id nonce) presented =? 0.

End proof.

(** * Codec *)

Definition reason_code (r : RefusalReason) : Z :=
  match r with NotHeld => 1 | ProofInvalid => 2 | BadRequest => 3 | ServeBudgetSpent => 4 | Busy => 5 end.

Definition encode_range (r : ChunkRange) : result MediaError bytes :=
  _ ← ensure (negb (r_count r =? 0)) (MediaMalformed "an empty chunk range");
  Ok (be_bytes 4 (r_start r) ++ be_bytes 4 (r_count r)).

Definition encode_pull_frame (f : PullFrame) : result MediaError bytes :=
  match f with
  | Open blob_id => Ok (push_u8 FRAME_OPEN ++ blob_id)
  | Challenge nonce chunks_held => Ok (push_u8 FRAME_CHALLENGE ++ nonce ++ be_bytes 4 chunks_held)
  | Fetch proof ranges =>
      _ ← ensure (negb (bool_decide (ranges = []) || (PULL_MAX_RANGES_PER_FETCH <? as_u32 (blen ranges))))
            (MediaMalformed "a fetch carries 1..=8 ranges");
      rs ← mapM encode_range ranges;
      Ok (push_u8 FRAME_FETCH ++ proof ++ push_u8 (blen ranges) ++ concat rs)
  | Chunk index ct =>
      _ ← ensure (negb (bool_decide (ct = []) || (MEDIA_CHUNK_CIPHERTEXT_BYTES <? blen ct)))
            (MediaMalformed "a chunk frame carries one chunk's ciphertext");
      Ok (push_u8 FRAME_CHUNK ++ be_bytes 4 index ++ be_bytes 4 (blen ct) ++ ct)
  | BatchDone chunks_served => Ok (push_u8 FRAME_BATCH_DONE ++ be_bytes 4 chunks_served)
  | Refused reason => Ok (push_u8 FRAME_REFUSED ++ push_u8 (reason_code reason))
  | Close => Ok (push_u8 FRAME_CLOSE)
  end.

(** The reads at growing offsets of [decode_pull_frame] are reads of a cursor;
    [exact] is its end-of-input check.  Which field a read fell short in is not
    kept in the error. *)
#[local] Instance media_reader : Reader MediaError :=
  {| truncated := MediaMalformed "pull frame: short"; trailing := MediaMalformed "pull frame: trailing bytes" |}.

Definition pull_malformed {A} (what : string) : reader MediaError A :=
  fail_ (MediaMalformed ("pull frame: " ++ what)%string).

Definition read_range : reader MediaError ChunkRange :=
  start ← Cursor.take_u32;
  count ← Cursor.take_u32;
  _ ← guard_ (negb (count =? 0)) (MediaMalformed "pull frame: empty chunk range");
  mret (mk_range start count).

Definition read_reason : reader MediaError RefusalReason :=
  code ← Cursor.take_u8;
  if code =? 1 then mret NotHeld else if code =? 2 then mret ProofInvalid
  else if code =? 3 then mret BadRequest else if code =? 4 then mret ServeBudgetSpent
  else if code =? 5 then mret Busy else pull_malformed "unknown refusal reason".

Definition read_pull_body (tag : Z) : reader MediaError PullFrame :=
  if tag =? FRAME_OPEN then
    blob_id ← Cursor.take BLOB_ID_LEN; _ ← Cursor.finish; mret (Open blob_id)
  else if tag =? FRAME_CHALLENGE then
    nonce ← Cursor.take PULL_NONCE_LEN;
    chunks_held ← Cursor.take_u32;
    _ ← Cursor.finish; mret (Challenge nonce chunks_held)
  else if tag =? FRAME_FETCH then
    proof ← Cursor.take PULL_PROOF_LEN;
    count ← Cursor.take_u8;
    _ ← guard_ (negb ((count =? 0) || (PULL_MAX_RANGES_PER_FETCH <? count)))
          (MediaMalformed "pull frame: range count out of bounds");
    ranges ← Cursor.take_many (Z.to_nat count) read_range;
    _ ← Cursor.finish; mret (Fetch proof ranges)
  else if tag =? FRAME_CHUNK then
    index ← Cursor.take_u32;
    len ← Cursor.take_u32;
    _ ← guard_ (negb ((len =? 0) || (MEDIA_CHUNK_CIPHERTEXT_BYTES <? len)))
          (MediaMalformed "pull frame: chunk length out of bounds");
    ct ← Cursor.take len;
    _ ← Cursor.finish; mret (Chunk index ct)
  else if tag =? FRAME_BATCH_DONE then
    n ← Cursor.take_u32; _ ← Cursor.finish; mret (BatchDone n)
  else if tag =? FRAME_REFUSED then
    reason ← read_reason; _ ← Cursor.finish; mret (Refused reason)
  else if tag =? FRAME_CLOSE then
    _ ← Cursor.finish; mret Close
  else pull_malformed "unknown frame type".

Definition decode_pull_frame (bs : bytes) : result MediaError PullFrame :=
  match bs with
  | [] => Err (MediaMalformed "pull frame: empty")
  | t :: rest => Cursor.run (read_pull_body (Z_of_byte t)) rest
  end.

(** * Theorems *)

Lemma lor_zero a b : 0 <= a -> 0 <= b -> Z.lor a b = 0 <-> a = 0 /\ b = 0.
Proof. intros Ha Hb. split; [apply Z.lor_eq_0_iff|]. by intros [-> ->]. Qed.

Lemma xor_diff_zero a b : length a = length b -> xor_diff a b = 0 <-> a = b.
Proof.
  unfold xor_diff. intros Hl.
  assert (forall d, 0 <= d -> foldl (fun d '(x, y) => Z.lor d (Z.lxor (Z_of_byte x) (Z_of_byte y))) d (zip a b) = 0
    <-> d = 0 /\ a = b) as H.
  { revert b Hl. induction a as [|x a IH]; intros [|y b] Hl d Hd; try done; [cbn; naive_solver|].
    cbn [zip zip_with foldl]. injection Hl as Hl.
    assert (0 <= Z.lxor (Z_of_byte x) (Z_of_byte y)) as Hx.
    { apply Z.lxor_nonneg. pose proof (Z_of_byte_range x). pose proof (Z_of_byte_range y). lia. }
    rewrite (IH b Hl) by (apply Z.lor_nonneg; lia). rewrite lor_zero by done.
    rewrite Z.lxor_eq_0_iff. split.
    - intros [[? ?%Z_of_byte_inj] ?]. by subst.
    - intros [? [= -> ->]]. done. }
  rewrite H by done. naive_solver.
Qed.

(** The constant-time comparison accepts exactly the proof derived from the
    blob's key, id and the session's nonce. *)
Theorem pull_proof_exact `{C : Crypto} (L : CryptoLaws C) key blob_id nonce presented :
  blen presented = PULL_PROOF_LEN ->
  verify_pull_proof key blob_id nonce presented = true <-> presented = pull_proof key blob_id nonce.
Proof.
  intros Hp. unfold verify_pull_proof. rewrite Z.eqb_eq, xor_diff_zero; [by split; intros ->|].
  unfold pull_proof. rewrite blake2b_length. unfold blen, PULL_PROOF_LEN in Hp. lia.
Qed.

Lemma pull_proof_exact_witness :
  verify_pull_proof (C := toy_crypto) [x01] [x02] [x03] (replicate 32 x00) = true <->
  replicate 32 x00 = pull_proof (C := toy_crypto) [x01] [x02] [x03].
Proof. apply (pull_proof_exact (C := toy_crypto) toy_laws). reflexivity. Defined.

Definition range_typed (r : ChunkRange) : Prop := in_u32 (r_start r) /\ in_u32 (r_count r).

(** The fixed widths and ranges of a frame's fields. *)
Definition pull_frame_typed (f : PullFrame) : Prop :=
  match f with
  | Open id => blen id = BLOB_ID_LEN
  | Challenge nonce held => blen nonce = PULL_NONCE_LEN /\ in_u32 held
  | Fetch proof ranges => blen proof = PULL_PROOF_LEN /\ Forall range_typed ranges
      /\ blen ranges <= U32_MAX
  | Chunk index ct => in_u32 index
  | BatchDone n => in_u32 n
  | Refused _ | Close => True
  end.

Definition range_bytes (r : ChunkRange) : bytes := be_bytes 4 (r_start r) ++ be_bytes 4 (r_count r).

Lemma encode_range_ok r e : encode_range r = Ok e <-> e = range_bytes r /\ r_count r <> 0.
Proof.
  unfold encode_range. split.
  - intros H. inv_ok. by bools.
  - intros [-> H]. by rewrite (proj2 (Z.eqb_neq _ _)).
Qed.

Lemma encode_ranges_ok rs es : mapM encode_range rs = Ok es <->
  es = range_bytes <$> rs /\ Forall (fun r => r_count r <> 0) rs.
Proof.
  rewrite result_mapM_ok. split.
  - induction 1 as [|r e rs es He%encode_range_ok _ [-> IH]]; [by split|].
    destruct He as [-> He]. split; [done|by constructor].
  - intros [-> H]. apply Forall2_fmap_r, Forall_Forall2_diag.
    eapply Forall_impl; [exact H|]. intros r Hr. by apply encode_range_ok.
Qed.

Lemma parses_range r rest : range_typed r -> r_count r <> 0 ->
  parses read_range (range_bytes r ++ rest) r rest.
Proof.
  intros [Hs Hc] Hn. unfold read_range, range_bytes. parse_step; [done|]. parse_step; [done|].
  parse_step; [by apply negb_true_iff, Z.eqb_neq|]. destruct r. apply parses_ret.
Qed.

Lemma decode_tagged tag body f : in_u8 tag -> parses (read_pull_body tag) body f [] ->
  decode_pull_frame (push_u8 tag ++ body) = Ok f.
Proof.
  intros Ht Hp. rewrite push_u8_eq. cbn [app decode_pull_frame].
  rewrite Z_of_byte_of_Z_small by ints. by eapply parses_run.
Qed.

(** A pull frame that encodes decodes to itself. *)
Theorem pull_frame_roundtrip f bs : pull_frame_typed f ->
  encode_pull_frame f = Ok bs -> decode_pull_frame bs = Ok f.
Proof.
  intros Ht He. destruct f as [id|nonce held|proof ranges|index ct|n|reason|]; cbn [encode_pull_frame pull_frame_typed] in *.
  - injection He as <-. apply decode_tagged; [done|]. unfold read_pull_body. cbn.
    rewrite <-(app_nil_r id) at 1. parse_step; [done|]. parse_step. apply parses_ret.
  - injection He as <-. destruct Ht. apply decode_tagged; [done|]. unfold read_pull_body. cbn.
    rewrite <-(app_nil_r (be_bytes 4 held)). parse_step; [done|]. parse_step; [done|].
    parse_step. apply parses_ret.
  - destruct Ht as (Hp & Hr & Hlen). inv_ok. bools.
    match goal with H : mapM _ _ = Ok _ |- _ => apply encode_ranges_ok in H as [-> Hnz] end.
    unfold as_u32 in *. pose proof (blen_nonneg ranges).
    assert (0 < blen ranges) by (destruct ranges; [done|rewrite blen_cons; pose proof (blen_nonneg ranges); lia]).
    assert (blen ranges <= 8) as H8.
    { match goal with H : _ mod _ <= _ |- _ => rewrite Z.mod_small in H by ints; exact H end. }
    apply decode_tagged; [done|]. unfold read_pull_body. cbn.
    match goal with |- parses _ (_ ++ _ ++ ?c) _ _ => rewrite <-(app_nil_r c) end.
    parse_step; [done|]. parse_step; [ints|].
    parse_step; [apply negb_true_iff, orb_false_iff; split; [apply Z.eqb_neq|apply Z.ltb_ge]; unfold PULL_MAX_RANGES_PER_FETCH; lia|].
    eapply parses_bind; [apply parses_counted|parse_step; apply parses_ret].
    intros r rest Hin. rewrite Forall_forall in Hr, Hnz. apply parses_range; auto.
  - inv_ok. bools. pose proof (blen_nonneg ct). unfold MEDIA_CHUNK_CIPHERTEXT_BYTES, MEDIA_CHUNK_PLAINTEXT_BYTES, MEDIA_AEAD_TAG_BYTES in *.
    apply decode_tagged; [done|]. unfold read_pull_body. cbn. rewrite <-(app_nil_r ct) at 2.
    parse_step; [done|]. parse_step; [ints|].
    parse_step. { apply negb_true_iff, orb_false_iff. split; [apply Z.eqb_neq|apply Z.ltb_ge; unfold MEDIA_CHUNK_CIPHERTEXT_BYTES, MEDIA_CHUNK_PLAINTEXT_BYTES, MEDIA_AEAD_TAG_BYTES; lia].
      intros Hz%blen_zero. done. }
    parse_step; [done|]. parse_step. apply parses_ret.
  - injection He as <-. apply decode_tagged; [done|]. unfold read_pull_body. cbn.
    rewrite <-(app_nil_r (be_bytes 4 n)). parse_step; [done|]. parse_step. apply parses_ret.
  - injection He as <-. apply decode_tagged; [done|]. unfold read_pull_body. cbn.
    rewrite <-(app_nil_r (push_u8 _)). eapply parses_bind.
    { unfold read_reason. parse_step; [by destruct reason|]. destruct reason; apply parses_ret. }
    parse_step. apply parses_ret.
  - injection He as <-. rewrite <-(app_nil_r (push_u8 _)). apply decode_tagged; [done|].
    unfold read_pull_body. cbn. parse_step. apply parses_ret.
Qed.

Lemma pull_frame_roundtrip_witness :
  exists bs, encode_pull_frame (Fetch (replicate 32 x05) [mk_range 3 2]) = Ok bs /\
    decode_pull_frame bs = Ok (Fetch (replicate 32 x05) [mk_range 3 2]).
Proof.
  eexists. split; [vm_compute; reflexivity|]. apply pull_frame_roundtrip.
  - split; [reflexivity|]. split; [|unfold blen; cbn [length]; ints].
    constructor; [|constructor]. split; cbn [r_start r_count]; ints.
  - vm_compute. reflexivity.
Defined.
