(* ===== verification/MediaPull.v ===== *)
(** The requester's half of a LAN blob transfer ([core/src/media/lan_pull.rs],
    [PullSession]).

    The state machine is written as functions from a state and an input to the
    next state and the emitted action.  [PullEvent] lists the calls a driver may
    make, in any order and with any argument, and the theorems hold of every
    sequence of them: a chunk becomes progress only when it was asked for, was
    missing and opened under the blob's key; budgets bound what is asked for and
    what is accepted; and a finished session stays finished.  Counters wrap at
    their width as they do in a release build. *)
From stdpp Require Import base numbers list strings sets.
From coqutil Require Import Datatypes.RecordSetters.
From S2P Require Import Prelude Wire Crypto MediaBlob MediaBitmap MediaWire.
Import TriangleBracketNotations.

Definition PULL_MAX_REQUESTS : Z := 64.
Definition PULL_MAX_SESSION_BYTES : Z := 48 * 1024 * 1024.
Definition PULL_WINDOW_CHUNKS : Z := 16.
Definition PULL_DEADLINE_MS : Z := 60000.

Record PullBudgets : Type := mk_pull_budgets {
  pb_max_requests : Z;
  pb_max_bytes : Z;
  pb_window_chunks : Z;
  pb_max_ranges : Z;
  pb_deadline_ms : Z;
}.

Definition default_pull_budgets : PullBudgets :=
  mk_pull_budgets PULL_MAX_REQUESTS PULL_MAX_SESSION_BYTES PULL_WINDOW_CHUNKS
    PULL_MAX_RANGES_PER_FETCH PULL_DEADLINE_MS.

Inductive PullOutcome : Type :=
| PullComplete | PullNothingMissing | PullBudgetSpent | PullDeadlineReached
| PullRefused (reason : RefusalReason)
| PullProtocolError | PullTransportFailed | PullCancelled.

Record AcceptedChunk : Type := mk_accepted { ac_index : Z; ac_ciphertext : bytes }.

Record PullSummary : Type := mk_pull_summary {
  sm_blob_id : bytes;
  sm_outcome : PullOutcome;
  sm_requests_issued : Z;
  sm_chunks_accepted : Z;
  sm_chunks_rejected : Z;
  sm_chunks_duplicate : Z;
  sm_bytes_received : Z;
  sm_chunks_present_at_end : Z;
  sm_chunk_count : Z;
  sm_stale_results_ignored : Z;
  sm_started_at_ms : Z;
  sm_ended_at_ms : Z;
}.

Inductive PullActionKind : Type :=
| Send (frame : PullFrame)
| Await
| Finish (close_frame : PullFrame) (summary : PullSummary)
| Finished (summary : PullSummary).

Record PullAction : Type := mk_action { action_id : Z; action_kind : PullActionKind }.

Inductive PullTransportError : Type := TransportTimeout | ConnectionLost | TransportCancelled | OtherError.

Inductive PullResult : Type :=
| FrameResult (id : Z) (frame : PullFrame)
| TransportErrorResult (id : Z) (error : PullTransportError).

Record PullPlan : Type := mk_plan {
  pl_blob_id : bytes;
  pl_blob_key : bytes;
  pl_geometry : BlobGeometry;
  pl_bitmap : ChunkBitmap;
  pl_budgets : PullBudgets;
}.

Record PullSession : Type := mk_pull {
  ps_plan : PullPlan;
  ps_started : bool;
  ps_started_at_ms : Z;
  ps_now_ms : Z;
  ps_next_action_id : Z;
  ps_outstanding : option PullAction;
  ps_nonce : option bytes;
  ps_proof : option bytes;
  ps_outstanding_ranges : list ChunkRange;
  ps_accepted : list AcceptedChunk;
  ps_finished : option PullSummary;
  ps_requests_issued : Z;
  ps_chunks_accepted : Z;
  ps_chunks_rejected : Z;
  ps_chunks_duplicate : Z;
  ps_bytes_received : Z;
  ps_stale_results_ignored : Z;
}.

(** [counter += 1] on a [u32] and on a [u64] *)
Definition inc32 (n : Z) : Z := as_u32 (n + 1).
Definition inc64 (n : Z) : Z := as_u64 (n + 1).

Definition ps_bitmap (s : PullSession) : ChunkBitmap := pl_bitmap (ps_plan s).
Definition ps_budgets (s : PullSession) : PullBudgets := pl_budgets (ps_plan s).

Definition pull_new (plan : PullPlan) : PullSession :=
  mk_pull plan false 0 0 1 None None None [] [] None 0 0 0 0 0 0.

Definition pull_past_deadline (s : PullSession) : bool :=
  pb_deadline_ms (ps_budgets s) <=? i64_saturating_sub (ps_now_ms s) (ps_started_at_ms s).

Definition pull_snapshot (s : PullSession) (outcome : PullOutcome) : PullSummary :=
  mk_pull_summary (pl_blob_id (ps_plan s)) outcome (ps_requests_issued s) (ps_chunks_accepted s)
    (ps_chunks_rejected s) (ps_chunks_duplicate s) (ps_bytes_received s) (present (ps_bitmap s))
    (chunk_count (ps_bitmap s)) (ps_stale_results_ignored s) (ps_started_at_ms s) (ps_now_ms s).

Definition pull_finish (outcome : PullOutcome) (s : PullSession) : PullSession * PullAction :=
  let summary := pull_snapshot s outcome in
  (s <| ps_finished := Some summary |> <| ps_outstanding_ranges := [] |>
     <| ps_next_action_id ::= inc64 |> <| ps_outstanding := None |>,
   mk_action (ps_next_action_id s) (Finish Close summary)).

Definition pull_emit (kind : PullActionKind) (s : PullSession) : PullSession * PullAction :=
  let action := mk_action (ps_next_action_id s) kind in
  (s <| ps_next_action_id ::= inc64 |> <| ps_outstanding := Some action |>, action).

Definition pull_restate (s : PullSession) : PullSession * PullAction :=
  (s, match ps_finished s with
      | Some summary => mk_action (ps_next_action_id s) (Finished summary)
      | None => match ps_outstanding s with
                | Some action => mk_action (action_id action) Await
                | None => mk_action 0 Await
                end
      end).

Definition pull_summary (s : PullSession) : PullSummary :=
  match ps_finished s with Some summary => summary | None => pull_snapshot s PullCancelled end.

Definition next_fetch (s : PullSession) : PullSession * PullAction :=
  let b := ps_budgets s in
  if is_complete (ps_bitmap s) then pull_finish PullComplete s
  else if pb_max_requests b <=? ps_requests_issued s then pull_finish PullBudgetSpent s
  else if pb_max_bytes b <=? ps_bytes_received s then pull_finish PullBudgetSpent s
  else if pull_past_deadline s then pull_finish PullDeadlineReached s
  else
    let ranges := missing_ranges (ps_bitmap s) (pb_window_chunks b) (pb_max_ranges b) in
    if bool_decide (ranges = []) then pull_finish PullComplete s
    else match ps_proof s with
         | None => pull_finish PullProtocolError s
         | Some proof =>
             pull_emit (Send (Fetch proof ranges))
               (s <| ps_outstanding_ranges := ranges |> <| ps_requests_issued ::= inc32 |>)
         end.

Definition after_chunk (s : PullSession) : PullSession * PullAction :=
  if pb_max_bytes (ps_budgets s) <? ps_bytes_received s then pull_finish PullBudgetSpent s
  else if pull_past_deadline s then pull_finish PullDeadlineReached s
  else pull_restate s.

Section session.
Context `{C : Crypto} `{A : Aead}.

Definition apply_chunk (index : Z) (ct : bytes) (s : PullSession) : PullSession * PullAction :=
  let s := s <| ps_bytes_received ::= fun n => u64_saturating_add n (blen ct) |> in
  let requested := existsb (fun range => range_contains range index) (ps_outstanding_ranges s) in
  if negb requested then after_chunk (s <| ps_chunks_rejected ::= inc32 |>)
  else if has (ps_bitmap s) index then after_chunk (s <| ps_chunks_duplicate ::= inc32 |>)
  else match open_chunk (pl_blob_key (ps_plan s)) (pl_geometry (ps_plan s)) index ct with
       | Ok _ =>
           after_chunk (s <| ps_plan -> pl_bitmap ::= fun b => (set b index).1 |>
             <| ps_chunks_accepted ::= inc32 |>
             <| ps_accepted ::= fun l => l ++ [mk_accepted index ct] |>)
       | Err _ => after_chunk (s <| ps_chunks_rejected ::= inc32 |>)
       end.

Definition apply_frame (frame : PullFrame) (s : PullSession) : PullSession * PullAction :=
  match frame with
  | Challenge nonce chunks_held =>
      if bool_decide (is_Some (ps_nonce s)) then pull_finish PullProtocolError s
      else if chunks_held =? 0 then pull_finish (PullRefused NotHeld) s
      else next_fetch (s <| ps_nonce := Some nonce |>
        <| ps_proof := Some (pull_proof (pl_blob_key (ps_plan s)) (pl_blob_id (ps_plan s)) nonce) |>)
  | Chunk index ct => apply_chunk index ct s
  | BatchDone _ =>
      let s := s <| ps_outstanding_ranges := [] |> in
      if is_complete (ps_bitmap s) then pull_finish PullComplete s else next_fetch s
  | Refused reason => pull_finish (PullRefused reason) s
  | Close => pull_finish (if is_complete (ps_bitmap s) then PullComplete else PullTransportFailed) s
  | Open _ | Fetch _ _ => pull_finish PullProtocolError s
  end.

Definition pull_start (now_ms : Z) (s : PullSession) : PullSession * PullAction :=
  if bool_decide (is_Some (ps_finished s)) || ps_started s then pull_restate s
  else
    let s := s <| ps_started := true |> <| ps_started_at_ms := now_ms |> <| ps_now_ms := now_ms |> in
    if is_complete (ps_bitmap s) then pull_finish PullNothingMissing s
    else pull_emit (Send (Open (pl_blob_id (ps_plan s)))) s.

Definition result_id (r : PullResult) : Z :=
  match r with FrameResult id _ | TransportErrorResult id _ => id end.

Definition pull_resume (result : PullResult) (now_ms : Z) (s : PullSession) : PullSession * PullAction :=
  if bool_decide (is_Some (ps_finished s)) then pull_restate s
  else
    let s := s <| ps_now_ms := now_ms |> in
    match ps_outstanding s with
    | None => pull_restate (s <| ps_stale_results_ignored ::= inc32 |>)
    | Some action =>
        if negb (result_id result =? action_id action)
        then pull_restate (s <| ps_stale_results_ignored ::= inc32 |>)
        else if pull_past_deadline s then pull_finish PullDeadlineReached s
        else match result with
             | TransportErrorResult _ TransportCancelled => pull_finish PullCancelled s
             | TransportErrorResult _ _ => pull_finish PullTransportFailed s
             | FrameResult _ frame => apply_frame frame s
             end
    end.

Definition pull_cancel (now_ms : Z) (s : PullSession) : PullSession * PullSummary :=
  let s := s <| ps_now_ms := now_ms |> in
  let s := match ps_finished s with None => (pull_finish PullCancelled s).1 | Some _ => s end in
  (s, pull_summary s).

Definition take_accepted (s : PullSession) : PullSession * list AcceptedChunk :=
  (s <| ps_accepted := [] |>, ps_accepted s).

(** * Any driver *)

Inductive PullEvent : Type :=
| EvStart (now_ms : Z)
| EvResume (result : PullResult) (now_ms : Z)
| EvCancel (now_ms : Z)
| EvTake.

(** One call, and the chunks it hands to the driver. *)
Definition pull_event (e : PullEvent) (s : PullSession) : PullSession * list AcceptedChunk :=
  match e with
  | EvStart now => ((pull_start now s).1, [])
  | EvResume r now => ((pull_resume r now s).1, [])
  | EvCancel now => ((pull_cancel now s).1, [])
  | EvTake => take_accepted s
  end.

(** The session after a sequence of calls, with all the chunks handed over. *)
Definition pull_run (plan : PullPlan) (es : list PullEvent) : PullSession * list AcceptedChunk :=
  foldl (fun '(s, taken) e => let '(s', out) := pull_event e s in (s', taken ++ out))
    (pull_new plan, []) es.

End session.

(** Compute the fields of an updated session, in terms of those of [s]. *)
Ltac fields s :=
  cbn; unfold constant;
  fold (ps_plan s); fold (ps_started s); fold (ps_started_at_ms s); fold (ps_now_ms s);
  fold (ps_next_action_id s); fold (ps_outstanding s); fold (ps_nonce s); fold (ps_proof s);
  fold (ps_outstanding_ranges s); fold (ps_accepted s); fold (ps_finished s);
  fold (ps_requests_issued s); fold (ps_chunks_accepted s); fold (ps_chunks_rejected s);
  fold (ps_chunks_duplicate s); fold (ps_bytes_received s); fold (ps_stale_results_ignored s);
  fold (pl_bitmap (ps_plan s)).

(** * The invariant *)

Lemma present_bounds b : bitmap_ok b -> 0 <= present b <= chunk_count b.
Proof.
  intros B. rewrite (bk_present b B). unfold count_bits, blen. split; [lia|].
  pose proof (List.filter_length_le (bit_at (bits b)) (seqZ 0 (chunk_count b))) as H.
  rewrite length_seqZ in H. pose proof (bk_count b B). lia.
Qed.

Lemma elem_of_missing b i : i ∈ missing_from b 0 <-> 0 <= i < chunk_count b /\ has b i = false.
Proof.
  unfold missing_from. rewrite list_elem_of_In, List.filter_In, <-list_elem_of_In, elem_of_seqZ, negb_true_iff.
  split; intros [? ?]; (split; [lia|done]).
Qed.

(** What a request asks for is missing. *)
Lemma requested_missing b mc mr r i : 0 < chunk_count b -> 0 <= mc -> 0 <= mr ->
  r ∈ missing_ranges b mc mr -> range_contains r i = true ->
  0 <= i < chunk_count b /\ has b i = false.
Proof.
  intros Hb Hc Hr Hin Hi. apply elem_of_missing.
  destruct (missing_ranges_covers b mc mr Hc Hr Hb) as (_ & _ & k & Hk & _).
  assert (i ∈ concat (expand <$> missing_ranges b mc mr)) as H.
  { apply list_elem_of_In, List.in_concat. exists (expand r).
    rewrite <-!list_elem_of_In. split; [by apply list_elem_of_fmap_2|].
    unfold expand, range_contains, end_exclusive in *. bools. apply elem_of_seqZ. lia. }
  rewrite Hk in H. by apply elem_of_take in H as (j & ? & _); apply list_elem_of_lookup_2 in H.
Qed.

Section invariant.
Context `{C : Crypto} `{A : Aead}.
Context (plan : PullPlan).

(** A chunk the session may count as progress. *)
Definition authentic (c : AcceptedChunk) : Prop :=
  0 <= ac_index c < chunk_count (pl_bitmap plan) /\ has (pl_bitmap plan) (ac_index c) = false /\
  exists p, open_chunk (pl_blob_key plan) (pl_geometry plan) (ac_index c) (ac_ciphertext c) = Ok p.

Definition asked (b : ChunkBitmap) (r : ChunkRange) : Prop :=
  forall i, range_contains r i = true -> 0 <= i < chunk_count b.

(** The session [s], having handed over and still holding the chunks [log]. *)
Record pull_inv (log : list AcceptedChunk) (s : PullSession) : Prop := {
  pi_plan : (ps_plan s) <| pl_bitmap := pl_bitmap plan |> = plan;
  pi_bitmap : bitmap_ok (ps_bitmap s);
  pi_count : chunk_count (ps_bitmap s) = chunk_count (pl_bitmap plan);
  pi_has : forall i, 0 <= i -> has (ps_bitmap s) i =
             has (pl_bitmap plan) i || bool_decide (i ∈ ac_index <$> log);
  pi_log : Forall authentic log /\ NoDup (ac_index <$> log);
  pi_present : present (ps_bitmap s) = present (pl_bitmap plan) + blen log;
  pi_accepted : ps_chunks_accepted s = blen log;
  pi_proof : ps_proof s = pull_proof (pl_blob_key plan) (pl_blob_id plan) <$> ps_nonce s;
  pi_ranges : Forall (asked (ps_bitmap s)) (ps_outstanding_ranges s);
  pi_idle : ps_outstanding_ranges s <> [] -> is_Some (ps_nonce s);
  pi_over : is_Some (ps_finished s) -> ps_outstanding s = None /\ ps_outstanding_ranges s = [];
  pi_summary : forall sm, ps_finished s = Some sm ->
    sm_outcome sm = PullComplete \/ sm_outcome sm = PullNothingMissing ->
    is_complete (ps_bitmap s) = true;
}.

Record budgets_ok (b : PullBudgets) : Prop := {
  bo_requests : in_u32 (pb_max_requests b);
  bo_bytes : in_u64 (pb_max_bytes b);
  bo_window : 0 < pb_window_chunks b;
  bo_ranges : 0 < pb_max_ranges b;
}.

Context (B : bitmap_ok (pl_bitmap plan)) (K : budgets_ok (pl_budgets plan)).

Lemma plan_fields log s : pull_inv log s ->
  pl_blob_id (ps_plan s) = pl_blob_id plan /\ pl_blob_key (ps_plan s) = pl_blob_key plan /\
  pl_geometry (ps_plan s) = pl_geometry plan /\ ps_budgets s = pl_budgets plan.
Proof. intros [Hp _ _ _ _ _ _ _ _ _ _ _]. unfold ps_budgets. destruct plan. by injection Hp. Qed.

Lemma pull_new_inv : pull_inv [] (pull_new plan).
Proof.
  split; cbn; try done.
  - by destruct plan.
  - intros i _. by rewrite orb_false_r.
  - split; constructor.
  - unfold ps_bitmap, blen. cbn. lia.
Qed.

(** Fields the invariant does not read may change. *)
Lemma pull_finish_inv log s outcome : pull_inv log s ->
  (outcome = PullComplete \/ outcome = PullNothingMissing -> is_complete (ps_bitmap s) = true) ->
  pull_inv log (pull_finish outcome s).1.
Proof.
  intros [] Ho. split; fields s; try done. intros sm [= <-]. done.
Qed.

Lemma emit_inv log s kind : pull_inv log s -> ps_finished s = None -> pull_inv log (pull_emit kind s).1.
Proof.
  intros [] Hf. split; fields s; try done. rewrite Hf. by intros [? ?].
Qed.

Lemma next_fetch_inv log s : pull_inv log s -> ps_finished s = None -> pull_inv log (next_fetch s).1.
Proof.
  intros I Hf. pose proof I as []. unfold next_fetch.
  destruct (is_complete (ps_bitmap s)) eqn:Hc; [by apply pull_finish_inv|].
  repeat (case_match; [apply pull_finish_inv; [done|by intros [?|?]]|]).
  destruct (plan_fields _ _ I) as (_ & _ & _ & ->). destruct K.
  case_bool_decide as He.
  { exfalso. by apply (missing_ranges_progress (ps_bitmap s) (pb_window_chunks (pl_budgets plan))
      (pb_max_ranges (pl_budgets plan))). }
  destruct (ps_proof s) as [proof|] eqn:Hp; [|apply pull_finish_inv; [done|by intros [?|?]]].
  apply emit_inv; [|done]. split; fields s; try done.
  - congruence.
  - apply Forall_forall. intros r Hr i Hi.
    destruct (requested_missing (ps_bitmap s) (pb_window_chunks (pl_budgets plan))
      (pb_max_ranges (pl_budgets plan)) r i) as [? _]; [apply pi_bitmap0|lia|lia|done..].
  - intros _. symmetry in pi_proof0. apply fmap_Some in pi_proof0 as (n & -> & _). by eexists.
  - rewrite Hf. by intros [? ?].
  - intros sm Hsm. congruence.
Qed.

Lemma after_chunk_inv log s : pull_inv log s -> pull_inv log (after_chunk s).1.
Proof.
  intros I. unfold after_chunk. repeat (case_match; [apply pull_finish_inv; [done|by intros [?|?]]|]). done.
Qed.

(** A requested, missing chunk that opens joins the bitmap and the log. *)
Lemma accept_inv log s index ct p n : pull_inv log s -> ps_finished s = None ->
  existsb (fun range => range_contains range index) (ps_outstanding_ranges s) = true ->
  has (ps_bitmap s) index = false -> open_chunk (pl_blob_key plan) (pl_geometry plan) index ct = Ok p ->
  pull_inv (log ++ [mk_accepted index ct])
    (s <| ps_bytes_received := n |> <| ps_plan -> pl_bitmap ::= fun b => (set b index).1 |>
       <| ps_chunks_accepted ::= inc32 |> <| ps_accepted ::= fun l => l ++ [mk_accepted index ct] |>).
Proof.
  intros [] Hf (r & Hr & Hri)%existsb_exists Hh Ho.
  assert (0 <= index < chunk_count (ps_bitmap s)) as Hi.
  { rewrite Forall_forall in pi_ranges0. eapply pi_ranges0; [by apply list_elem_of_In|done]. }
  destruct (set_spec _ pi_bitmap0 index ltac:(lia)) as (Bs & Hcs & Hhs & Hchg).
  pose proof (set_present (ps_bitmap s) index) as Hpr. rewrite Hchg, Hh, (proj2 (Z.ltb_lt _ _)) in Hpr by lia.
  cbn in Hpr. destruct pi_log0 as [Hauth Hnd].
  assert (has (pl_bitmap plan) index = false /\ index ∉ ac_index <$> log) as [Hh0 Hnew].
  { rewrite pi_has0 in Hh by lia. apply orb_false_iff in Hh as [? ?%bool_decide_eq_false]. done. }
  pose proof (present_bounds _ Bs). pose proof (present_bounds _ B). pose proof (bk_count _ B).
  split; unfold ps_bitmap in *; fields s; try done; try congruence.
  - intros i Hge. rewrite Hhs, pi_has0, fmap_app by done. rewrite (proj2 (Z.ltb_lt index _)), andb_true_r by lia.
    cbn. rewrite <-orb_assoc. f_equal. destruct (Z.eqb_spec i index) as [->|Hne].
    + rewrite orb_true_r. symmetry. apply bool_decide_eq_true. set_solver.
    + rewrite orb_false_r. apply bool_decide_ext. set_solver.
  - rewrite fmap_app. split.
    + apply Forall_app. split; [done|]. apply Forall_singleton. split; [cbn; lia|]. split; [done|]. by exists p.
    + apply NoDup_app. split; [done|]. split; [set_solver|apply NoDup_singleton].
  - rewrite Hpr, blen_app. change (blen [_]) with 1. lia.
  - rewrite pi_accepted0, blen_app. change (blen [_]) with 1. unfold inc32, as_u32.
    rewrite Z.mod_small; [done|]. pose proof (blen_nonneg log). ints.
  - eapply Forall_impl; [exact pi_ranges0|]. intros r' Hr' i Hri'. rewrite Hcs. by apply Hr'.
Qed.

(** The chunks handed over already and those still held make up the log. *)
Definition held_inv (taken : list AcceptedChunk) (s : PullSession) : Prop :=
  pull_inv (taken ++ ps_accepted s) s.

Lemma finish_held taken s outcome : held_inv taken s ->
  (outcome = PullComplete \/ outcome = PullNothingMissing -> is_complete (ps_bitmap s) = true) ->
  held_inv taken (pull_finish outcome s).1.
Proof. apply pull_finish_inv. Qed.

Lemma finish_held_other taken s outcome : held_inv taken s ->
  outcome <> PullComplete -> outcome <> PullNothingMissing -> held_inv taken (pull_finish outcome s).1.
Proof. intros I ? ?. apply finish_held; [done|by intros [?|?]]. Qed.

Lemma accepted_unchanged s :
  (forall kind, ps_accepted (pull_emit kind s).1 = ps_accepted s) /\
  ps_accepted (next_fetch s).1 = ps_accepted s /\ ps_accepted (after_chunk s).1 = ps_accepted s.
Proof. unfold next_fetch, after_chunk. split_and!; [done| |]; by repeat case_match. Qed.

Lemma next_fetch_held taken s : held_inv taken s -> ps_finished s = None -> held_inv taken (next_fetch s).1.
Proof. intros I Hf. unfold held_inv. destruct (accepted_unchanged s) as (_ & -> & _). by apply next_fetch_inv. Qed.

Lemma after_chunk_held taken s : held_inv taken s -> held_inv taken (after_chunk s).1.
Proof. intros I. unfold held_inv. destruct (accepted_unchanged s) as (_ & _ & ->). by apply after_chunk_inv. Qed.

(** Counters and the clock are not part of the invariant. *)
Ltac same_inv s := match goal with I : held_inv _ s |- _ => destruct I; split; fields s; done end.

Lemma apply_chunk_held taken s index ct : held_inv taken s -> ps_finished s = None ->
  held_inv taken (apply_chunk index ct s).1.
Proof.
  intros I Hf. destruct (plan_fields _ _ I) as (_ & Hk & Hg & _). unfold apply_chunk.
  case_match eqn:Hreq; [apply after_chunk_held; same_inv s|]. apply negb_false_iff in Hreq.
  case_match eqn:Hh; [apply after_chunk_held; same_inv s|].
  case_match eqn:Ho; apply after_chunk_held; [|same_inv s].
  change (open_chunk (pl_blob_key (ps_plan s)) (pl_geometry (ps_plan s)) index ct = Ok a) in Ho.
  rewrite Hk, Hg in Ho.
  pose proof (accept_inv _ s index ct _ (u64_saturating_add (ps_bytes_received s) (blen ct)) I Hf Hreq Hh Ho) as I'.
  unfold held_inv. rewrite <-app_assoc in I'. exact I'.
Qed.

Lemma apply_frame_held taken s frame : held_inv taken s -> ps_finished s = None ->
  held_inv taken (apply_frame frame s).1.
Proof.
  intros I Hf. destruct (plan_fields _ _ I) as (Hid & Hk & _). destruct frame; cbn [apply_frame].
  - by apply finish_held_other.
  - case_bool_decide; [by apply finish_held_other|]. case_match; [by apply finish_held_other|].
    apply next_fetch_held; [|done]. destruct I. split; fields s; try done. by rewrite Hid, Hk.
  - by apply finish_held_other.
  - by apply apply_chunk_held.
  - assert (held_inv taken (s <| ps_outstanding_ranges := [] |>)) as I'.
    { destruct I. split; fields s; try done. rewrite Hf. by intros [? ?]. }
    case_match eqn:Hc; [by apply finish_held|by apply next_fetch_held].
  - by apply finish_held_other.
  - apply finish_held; [done|]. destruct (is_complete (ps_bitmap s)); [done|by intros [?|?]].
Qed.

Lemma event_held taken s e : held_inv taken s ->
  held_inv (taken ++ (pull_event e s).2) (pull_event e s).1.
Proof.
  intros I. destruct e as [now|r now|now|]; cbn [pull_event fst snd]; rewrite ?app_nil_r.
  - unfold pull_start. case_bool_decide as Hf; [done|]. destruct (ps_started s); [done|].
    apply eq_None_not_Some in Hf.
    set (s' := s <| ps_started := true |> <| ps_started_at_ms := now |> <| ps_now_ms := now |>).
    assert (held_inv taken s') as I' by same_inv s. cbn [orb]. case_match; [by apply finish_held|].
    by apply (emit_inv (taken ++ ps_accepted s')).
  - unfold pull_resume. case_bool_decide as Hf; [done|]. apply eq_None_not_Some in Hf.
    set (s' := s <| ps_now_ms := now |>). assert (held_inv taken s') as I' by same_inv s.
    case_match; [|same_inv s]. case_match; [same_inv s|]. case_match; [by apply finish_held_other|].
    case_match; [by apply apply_frame_held|]. case_match; by apply finish_held_other.
  - unfold pull_cancel. cbn [fst]. set (s' := s <| ps_now_ms := now |>).
    assert (held_inv taken s') as I' by same_inv s. case_match; [done|by apply finish_held_other].
  - unfold held_inv. rewrite <-app_assoc. unfold held_inv in I. destruct I. split; fields s; by rewrite ?app_nil_r.
Qed.

Lemma run_held es : held_inv (pull_run plan es).2 (pull_run plan es).1.
Proof.
  unfold pull_run. assert (held_inv [] (pull_new plan)) as H by apply pull_new_inv. revert H.
  generalize (pull_new plan), (@nil AcceptedChunk).
  induction es as [|e es IH]; intros s taken I; [done|]. cbn [foldl].
  pose proof (event_held taken s e I). by destruct (pull_event e s); apply IH.
Qed.

End invariant.

(** * Budgets *)

Section budgets.
Context `{C : Crypto} `{A : Aead}.
Context (plan : PullPlan) (K : budgets_ok (pl_budgets plan)).

(** Spending within the budgets, give or take [slack] bytes. *)
Record within (slack : Z) (s : PullSession) : Prop := {
  wi_budgets : ps_budgets s = pl_budgets plan;
  wi_requests : 0 <= ps_requests_issued s <= pb_max_requests (pl_budgets plan);
  wi_bytes : 0 <= ps_bytes_received s <= pb_max_bytes (pl_budgets plan) + slack;
}.

(** The last chunk of a session is the one that may exceed its byte budget. *)
Definition spent (s : PullSession) : Prop :=
  within MEDIA_CHUNK_CIPHERTEXT_BYTES s /\ (ps_finished s = None -> within 0 s).

Lemma within_slack s : within 0 s -> within MEDIA_CHUNK_CIPHERTEXT_BYTES s.
Proof. intros []. split; [done..|]. unfold MEDIA_CHUNK_CIPHERTEXT_BYTES, MEDIA_CHUNK_PLAINTEXT_BYTES, MEDIA_AEAD_TAG_BYTES. lia. Qed.

Lemma spent_within s : within 0 s -> spent s.
Proof. split; [by apply within_slack|done]. Qed.

Lemma finish_spent s outcome : within MEDIA_CHUNK_CIPHERTEXT_BYTES s -> spent (pull_finish outcome s).1.
Proof. intros []. split; [|done]. split; unfold ps_budgets in *; fields s; done. Qed.

Lemma emit_spent kind s : within 0 s -> spent (pull_emit kind s).1.
Proof. intros []. apply spent_within. split; unfold ps_budgets in *; fields s; done. Qed.

Lemma next_fetch_spent s : within 0 s -> spent (next_fetch s).1.
Proof.
  intros W. pose proof (within_slack s W). unfold next_fetch.
  case_match; [by apply finish_spent|]. case_match eqn:Hr; [by apply finish_spent|].
  repeat (case_match; [by apply finish_spent|]). case_match; [|by apply finish_spent].
  destruct W, K. apply Z.leb_gt in Hr. rewrite wi_budgets0 in Hr.
  apply emit_spent. split; unfold ps_budgets in *; fields s; try done.
  unfold inc32, as_u32. rewrite Z.mod_small by ints. lia.
Qed.

Lemma after_chunk_spent s : within MEDIA_CHUNK_CIPHERTEXT_BYTES s -> spent (after_chunk s).1.
Proof.
  intros W. unfold after_chunk. case_match eqn:Hb; [by apply finish_spent|].
  case_match; [by apply finish_spent|]. split; [done|]. intros _.
  destruct W. apply Z.ltb_ge in Hb. rewrite wi_budgets0 in Hb. split; fields s; try done. lia.
Qed.

Lemma apply_chunk_spent index ct s : blen ct <= MEDIA_CHUNK_CIPHERTEXT_BYTES ->
  within 0 s -> spent (apply_chunk index ct s).1.
Proof.
  intros Hl []. destruct K. pose proof (blen_nonneg ct). unfold apply_chunk.
  assert (0 <= u64_saturating_add (ps_bytes_received s) (blen ct)
    <= pb_max_bytes (pl_budgets plan) + MEDIA_CHUNK_CIPHERTEXT_BYTES) by ints.
  repeat case_match; apply after_chunk_spent; split; unfold ps_budgets in *; fields s; done.
Qed.

(** A chunk frame carries at most one chunk's ciphertext, as the decoder checks. *)
Definition event_bounded (e : PullEvent) : Prop :=
  match e with
  | EvResume (FrameResult _ (Chunk _ ct)) _ => blen ct <= MEDIA_CHUNK_CIPHERTEXT_BYTES
  | _ => True
  end.

Ltac same_within s := match goal with W : within _ s |- _ =>
  destruct W; split; unfold ps_budgets in *; fields s; done end.

Lemma apply_frame_spent frame s : within 0 s ->
  (forall i ct, frame = Chunk i ct -> blen ct <= MEDIA_CHUNK_CIPHERTEXT_BYTES) ->
  spent (apply_frame frame s).1.
Proof.
  intros W Hl. pose proof (within_slack s W) as W'. destruct frame; cbn [apply_frame]; try by apply finish_spent.
  - repeat (case_match; [by apply finish_spent|]). apply next_fetch_spent. same_within s.
  - apply apply_chunk_spent; [by eapply Hl|done].
  - case_match; [apply finish_spent; same_within s|]. apply next_fetch_spent. same_within s.
Qed.

Lemma event_spent e s : event_bounded e -> spent s -> spent (pull_event e s).1.
Proof.
  intros He S. pose proof S as [W1 W0]. destruct e as [now|r now|now|]; cbn [pull_event fst].
  - unfold pull_start. case_bool_decide as Hf; [done|]. apply eq_None_not_Some in Hf. specialize (W0 Hf).
    destruct (ps_started s); [done|]. cbn [orb].
    case_match; [apply finish_spent|apply emit_spent]; same_within s.
  - unfold pull_resume. case_bool_decide as Hf; [done|]. apply eq_None_not_Some in Hf. specialize (W0 Hf).
    case_match; [|apply spent_within; same_within s]. case_match; [apply spent_within; same_within s|].
    case_match; [apply finish_spent; same_within s|]. case_match.
    + apply apply_frame_spent; [same_within s|]. intros i ct ->. by subst.
    + case_match; apply finish_spent; same_within s.
  - unfold pull_cancel. cbn [fst]. case_match eqn:Hf; [|apply finish_spent; same_within s].
    split; [same_within s|]. intros Hn. congruence.
  - split; [same_within s|]. intros Hn. specialize (W0 Hn). same_within s.
Qed.

Lemma run_spent es : Forall event_bounded es -> spent (pull_run plan es).1.
Proof.
  intros Hes. unfold pull_run. assert (spent (pull_new plan)) as H.
  { apply spent_within. destruct K. split; cbn; [done|ints..]. }
  revert H. generalize (pull_new plan), (@nil AcceptedChunk).
  induction Hes as [|e es He _ IH]; intros s taken S; [done|]. cbn [foldl].
  pose proof (event_spent e s He S). by destruct (pull_event e s); apply IH.
Qed.

End budgets.

(** * A finished session *)

Lemma finished_event `{C : Crypto} `{A : Aead} e s sm : ps_finished s = Some sm ->
  ps_finished (pull_event e s).1 = Some sm /\ ps_plan (pull_event e s).1 = ps_plan s /\
  (pull_event e s).2 ++ ps_accepted (pull_event e s).1 = ps_accepted s.
Proof.
  intros Hf. destruct e as [now|r now|now|]; cbn [pull_event fst snd app].
  - unfold pull_start. by rewrite Hf.
  - unfold pull_resume. by rewrite Hf.
  - unfold pull_cancel. cbn. fold (ps_finished s). by rewrite Hf.
  - fields s. by rewrite app_nil_r.
Qed.

(** [pull_run] continued from any session. *)
Definition pull_continue `{C : Crypto} `{A : Aead} (st : PullSession * list AcceptedChunk)
  (es : list PullEvent) : PullSession * list AcceptedChunk :=
  foldl (fun '(s, taken) e => let '(s', out) := pull_event e s in (s', taken ++ out)) st es.

Lemma finished_run `{C : Crypto} `{A : Aead} es : forall s taken sm, ps_finished s = Some sm ->
  let '(s', taken') := pull_continue (s, taken) es in
  ps_finished s' = Some sm /\ ps_plan s' = ps_plan s /\ taken' ++ ps_accepted s' = taken ++ ps_accepted s.
Proof.
  induction es as [|e es IH]; intros s taken sm Hf; [done|]. cbn [pull_continue foldl].
  destruct (finished_event e s sm Hf) as (Hf' & Hp & Ha).
  destruct (pull_event e s) as [s1 out]. cbn [fst snd] in *.
  specialize (IH s1 (taken ++ out) sm Hf'). unfold pull_continue in IH.
  destruct (foldl _ _ es) as [s' taken']. destruct IH as (H1 & H2 & H3).
  split_and!; [done|congruence|]. by rewrite H3, <-app_assoc, Ha.
Qed.

(** * Claims *)

(** Whatever a driver and a peer do, in any order, the chunks a session
    accepts (already handed over or still held) were missing, lie inside the blob,
    open under the blob's key at their own index, and are accepted once; the
    bitmap stays consistent and is the initial one plus exactly those chunks. *)
Theorem pull_progress_authentic `{C : Crypto} `{A : Aead} plan es :
  bitmap_ok (pl_bitmap plan) -> budgets_ok (pl_budgets plan) ->
  let '(s, taken) := pull_run plan es in
  let log := taken ++ ps_accepted s in
  Forall (authentic plan) log /\ NoDup (ac_index <$> log) /\
  bitmap_ok (ps_bitmap s) /\ present (ps_bitmap s) = present (pl_bitmap plan) + blen log /\
  forall i, 0 <= i -> has (ps_bitmap s) i = has (pl_bitmap plan) i || bool_decide (i ∈ ac_index <$> log).
Proof.
  intros B K. pose proof (run_held plan B K es) as I. destruct (pull_run plan es) as [s taken].
  destruct I. by destruct pi_log0.
Qed.

(** A session stays within its budgets whatever its peer sends: it never
    issues more fetches than allowed, and the bytes it takes exceed the byte budget
    by less than one chunk, and only in the step that ends the session. *)
Theorem pull_within_budgets `{C : Crypto} `{A : Aead} plan es :
  budgets_ok (pl_budgets plan) -> Forall event_bounded es ->
  let s := (pull_run plan es).1 in
  ps_requests_issued s <= pb_max_requests (pl_budgets plan) /\
  ps_bytes_received s <= pb_max_bytes (pl_budgets plan) + MEDIA_CHUNK_CIPHERTEXT_BYTES /\
  (ps_finished s = None -> ps_bytes_received s <= pb_max_bytes (pl_budgets plan)).
Proof.
  intros K Hes. destruct (run_spent plan K es Hes) as [[_ ? ?] H0]. split_and!; [lia|lia|].
  intros Hf. destruct (H0 Hf). lia.
Qed.

(** When a session reports that the blob is complete, every chunk was
    present from the start or was authenticated by this session. *)
Theorem pull_complete_sound `{C : Crypto} `{A : Aead} plan es s taken sm :
  bitmap_ok (pl_bitmap plan) -> budgets_ok (pl_budgets plan) ->
  pull_run plan es = (s, taken) -> ps_finished s = Some sm ->
  sm_outcome sm = PullComplete \/ sm_outcome sm = PullNothingMissing ->
  forall i, 0 <= i < chunk_count (pl_bitmap plan) -> has (pl_bitmap plan) i = true \/
    exists ct p, mk_accepted i ct ∈ taken ++ ps_accepted s /\
      open_chunk (pl_blob_key plan) (pl_geometry plan) i ct = Ok p.
Proof.
  intros B K Hrun Hf Ho i Hi. pose proof (run_held plan B K es) as I. rewrite Hrun in I. destruct I.
  pose proof (proj1 (complete_spec _ pi_bitmap0) (pi_summary0 sm Hf Ho) i ltac:(rewrite pi_count0; done)) as Hh.
  rewrite pi_has0 in Hh by lia. apply orb_true_iff in Hh as [Hh|Hh]; [by left|right].
  apply bool_decide_eq_true, list_elem_of_fmap in Hh as ([i' ct] & -> & Hin).
  destruct pi_log0 as [Hauth _]. rewrite Forall_forall in Hauth.
  destruct (Hauth _ Hin) as (_ & _ & p & Hp). by exists ct, p.
Qed.

(** A finished session is final: no further call changes its summary, its
    bitmap or the chunks it accepted, and cancelling or resuming it again only
    reports. *)
Theorem pull_finished_final `{C : Crypto} `{A : Aead} plan es es' sm :
  ps_finished (pull_run plan es).1 = Some sm ->
  let '(s, taken) := pull_run plan es in
  let '(s', taken') := pull_run plan (es ++ es') in
  ps_finished s' = Some sm /\ ps_bitmap s' = ps_bitmap s /\
  taken' ++ ps_accepted s' = taken ++ ps_accepted s.
Proof.
  intros Hf. unfold pull_run. rewrite foldl_app. fold (pull_run plan es).
  destruct (pull_run plan es) as [s taken]. cbn [fst] in Hf.
  pose proof (finished_run es' s taken sm Hf) as H. unfold pull_continue in H.
  destruct (foldl _ _ es') as [s' taken']. destruct H as (? & Hp & ?). unfold ps_bitmap. by rewrite Hp.
Qed.

(** ** Witnesses: a two-chunk blob, fetched one chunk at a time *)

Definition toy_geometry : BlobGeometry := mk_geometry 2 34 2 1 17.
Definition toy_bitmap : ChunkBitmap := mk_bitmap 2 0 [x00].

Definition toy_plan : PullPlan :=
  mk_plan (replicate 32 x01) [x07] toy_geometry toy_bitmap (mk_pull_budgets 5 100 1 1 60000).

(** A stray chunk, the two chunks with a forgery between them, and a repeat. *)
Definition toy_events : list PullEvent :=
  [EvStart 0; EvResume (FrameResult 1 (Challenge (replicate 16 x02) 2)) 1;
   EvResume (FrameResult 2 (Chunk 1 (x05 :: toy_tag))) 2;
   EvResume (FrameResult 2 (Chunk 0 (replicate 17 x06))) 2;
   EvResume (FrameResult 2 (Chunk 0 (x06 :: toy_tag))) 2;
   EvResume (FrameResult 1 Close) 2;
   EvTake; EvResume (FrameResult 2 (BatchDone 1)) 3;
   EvResume (FrameResult 3 (Chunk 1 (x05 :: toy_tag))) 4].

Lemma toy_bitmap_ok : bitmap_ok toy_bitmap.
Proof.
  split; cbn [chunk_count bits toy_bitmap present]; try reflexivity; [ints|].
  intros i Hi. unfold blen in Hi. cbn in Hi. unfold bit_at.
  replace (i / 8) with 0 by (symmetry; apply Z.div_small; lia). cbn. apply Z.testbit_0_l.
Qed.

Lemma toy_budgets_ok : budgets_ok (pl_budgets toy_plan).
Proof. split; cbn; ints. Qed.

Lemma pull_progress_authentic_witness :
  Forall (authentic (A := toy_aead) toy_plan)
    ((pull_run (C := toy_crypto) (A := toy_aead) toy_plan toy_events).2
       ++ ps_accepted (pull_run (C := toy_crypto) (A := toy_aead) toy_plan toy_events).1) /\
  (pull_run (C := toy_crypto) (A := toy_aead) toy_plan toy_events).2 = [mk_accepted 0 (x06 :: toy_tag)].
Proof.
  split; [|vm_compute; reflexivity].
  pose proof (pull_progress_authentic (C := toy_crypto) (A := toy_aead) toy_plan toy_events
    toy_bitmap_ok toy_budgets_ok) as H.
  destruct (pull_run (C := toy_crypto) (A := toy_aead) toy_plan toy_events). exact (proj1 H).
Defined.

Lemma pull_within_budgets_witness :
  ps_requests_issued (pull_run (C := toy_crypto) (A := toy_aead) toy_plan toy_events).1 = 2 /\
  ps_requests_issued (pull_run (C := toy_crypto) (A := toy_aead) toy_plan toy_events).1 <= 5.
Proof.
  split; [vm_compute; reflexivity|].
  refine (proj1 (pull_within_budgets (C := toy_crypto) (A := toy_aead) toy_plan toy_events toy_budgets_ok _)).
  repeat (constructor; [cbn [event_bounded]; try exact I; vm_compute; discriminate|]). constructor.
Defined.

Lemma pull_complete_sound_witness :
  exists ct p, mk_accepted 1 ct ∈
      (pull_run (C := toy_crypto) (A := toy_aead) toy_plan
         (toy_events ++ [EvResume (FrameResult 3 (BatchDone 1)) 5])).2 ++
      ps_accepted (pull_run (C := toy_crypto) (A := toy_aead) toy_plan
         (toy_events ++ [EvResume (FrameResult 3 (BatchDone 1)) 5])).1 /\
    open_chunk (A := toy_aead) [x07] toy_geometry 1 ct = Ok p.
Proof.
  destruct (pull_complete_sound (C := toy_crypto) (A := toy_aead) toy_plan
    (toy_events ++ [EvResume (FrameResult 3 (BatchDone 1)) 5])
    (pull_run (C := toy_crypto) (A := toy_aead) toy_plan
         (toy_events ++ [EvResume (FrameResult 3 (BatchDone 1)) 5])).1
    (pull_run (C := toy_crypto) (A := toy_aead) toy_plan
         (toy_events ++ [EvResume (FrameResult 3 (BatchDone 1)) 5])).2
    (pull_summary (pull_run (C := toy_crypto) (A := toy_aead) toy_plan
         (toy_events ++ [EvResume (FrameResult 3 (BatchDone 1)) 5])).1)
    toy_bitmap_ok toy_budgets_ok) with (i := 1) as [H|H].
  - vm_compute. reflexivity.
  - vm_compute. reflexivity.
  - left. vm_compute. reflexivity.
  - cbn. lia.
  - vm_compute in H. discriminate H.
  - exact H.
Defined.

Lemma pull_finished_final_witness :
  let es := [EvStart 0; EvCancel 5] in
  ps_finished (pull_run (C := toy_crypto) (A := toy_aead) toy_plan (es ++ toy_events)).1
  = ps_finished (pull_run (C := toy_crypto) (A := toy_aead) toy_plan es).1.
Proof.
  intros es. pose proof (pull_finished_final (C := toy_crypto) (A := toy_aead) toy_plan es toy_events
    (pull_summary (pull_run (C := toy_crypto) (A := toy_aead) toy_plan es).1) eq_refl) as H.
  destruct (pull_run (C := toy_crypto) (A := toy_aead) toy_plan (es ++ toy_events)) as [s' t'].
  change (pull_run toy_plan es) with (pull_run (C := toy_crypto) (A := toy_aead) toy_plan es) in H.
  cbn [fst]. destruct H as (-> & _). vm_compute. reflexivity.
Defined.

(** A driver that takes nothing between batches holds more chunks than the
    transfer window: only the byte budget bounds what is held. *)
Lemma accepted_exceeds_window :
  pb_window_chunks (pl_budgets toy_plan)
  < blen (ps_accepted (pull_run (C := toy_crypto) (A := toy_aead) toy_plan
            (List.filter (fun e => match e with EvTake => false | _ => true end) toy_events)).1).
Proof. vm_compute. reflexivity. Qed.
