(* ===== verification/MediaServe.v ===== *)
(** The holder's half of a LAN blob transfer ([core/src/media/lan_pull.rs],
    [ServeSession]).

    An [expect] of the source is [None] here, so that a call that returns
    [Some] did not panic; the invariant shows no sequence of calls panics.  The
    driver's calls come in any order, and the theorems hold of every sequence of
    them: only held chunks inside the blob's geometry are read or sent, and only
    after a fetch carrying the proof of manifest possession. *)
From stdpp Require Import base numbers list strings sets.
From coqutil Require Import Datatypes.RecordSetters.
From S2P Require Import Prelude Wire Crypto MediaBlob MediaBitmap MediaWire MediaPull.
Import TriangleBracketNotations.

Definition SERVE_MAX_CHUNKS : Z := 512.
Definition SERVE_MAX_SESSION_BYTES : Z := 48 * 1024 * 1024.
Definition SERVE_MAX_FETCHES : Z := 64.

Record ServeBudgets : Type := mk_serve_budgets {
  sb_max_fetches : Z;
  sb_max_chunks : Z;
  sb_max_bytes : Z;
  sb_deadline_ms : Z;
}.

Definition default_serve_budgets : ServeBudgets :=
  mk_serve_budgets SERVE_MAX_FETCHES SERVE_MAX_CHUNKS SERVE_MAX_SESSION_BYTES PULL_DEADLINE_MS.

Inductive ServeOutcome : Type :=
| ServeClosed
| ServeRefused (reason : RefusalReason)
| ServeSpent | ServeDeadlineReached | ServeProtocolError | ServeCancelled.

Record ServeSummary : Type := mk_serve_summary {
  ss_blob_id : bytes;
  ss_outcome : ServeOutcome;
  ss_fetches_answered : Z;
  ss_chunks_served : Z;
  ss_bytes_served : Z;
  ss_chunks_skipped_not_held : Z;
  ss_proof_failures : Z;
  ss_started_at_ms : Z;
  ss_ended_at_ms : Z;
}.

Inductive ServeActionKind : Type :=
| Reply (frame : PullFrame)
| ReadChunk (index offset len : Z)
| Idle
| ServeFinished (summary : ServeSummary).

Record ServeAction : Type := mk_serve_action { sa_id : Z; sa_kind : ServeActionKind }.

Record ServePlan : Type := mk_serve_plan {
  sp_blob_id : bytes;
  sp_blob_key : bytes;
  sp_geometry : BlobGeometry;
  sp_held : ChunkBitmap;
  sp_budgets : ServeBudgets;
}.

Record ServeSession : Type := mk_serve {
  sv_plan : ServePlan;
  sv_nonce : bytes;
  sv_started_at_ms : Z;
  sv_now_ms : Z;
  sv_next_action_id : Z;
  sv_opened : bool;
  sv_challenged : bool;
  sv_queue : list Z;
  sv_serving : option Z;
  sv_finished : option ServeSummary;
  sv_fetches_answered : Z;
  sv_batch_done_sent : bool;
  sv_chunks_served : Z;
  sv_bytes_served : Z;
  sv_chunks_skipped : Z;
  sv_proof_failures : Z;
}.

Definition sv_budgets (s : ServeSession) : ServeBudgets := sp_budgets (sv_plan s).

Definition serve_new (plan : ServePlan) (nonce : bytes) (now_ms : Z) : ServeSession :=
  mk_serve plan nonce now_ms now_ms 1 false false [] None None 0 false 0 0 0 0.

Definition serve_past_deadline (s : ServeSession) : bool :=
  sb_deadline_ms (sv_budgets s) <=? i64_saturating_sub (sv_now_ms s) (sv_started_at_ms s).

Definition serve_snapshot (s : ServeSession) (outcome : ServeOutcome) : ServeSummary :=
  mk_serve_summary (sp_blob_id (sv_plan s)) outcome (sv_fetches_answered s) (sv_chunks_served s)
    (sv_bytes_served s) (sv_chunks_skipped s) (sv_proof_failures s) (sv_started_at_ms s) (sv_now_ms s).

Definition serve_summary (s : ServeSession) : ServeSummary :=
  match sv_finished s with Some summary => summary | None => serve_snapshot s ServeCancelled end.

Definition serve_emit (kind : ServeActionKind) (s : ServeSession) : ServeSession * ServeAction :=
  (s <| sv_next_action_id ::= inc64 |>, mk_serve_action (sv_next_action_id s) kind).

Definition finished_action (s : ServeSession) : ServeSession * ServeAction :=
  serve_emit (ServeFinished (serve_summary s)) s.

Definition refuse (reason : RefusalReason) (outcome : ServeOutcome) (s : ServeSession)
  : ServeSession * ServeAction :=
  serve_emit (Reply (Refused reason))
    (s <| sv_finished := Some (serve_snapshot s outcome) |> <| sv_queue := [] |> <| sv_serving := None |>).

Definition restate_read (s : ServeSession) : option (ServeSession * ServeAction) :=
  index ← sv_serving s;
  offset ← chunk_ciphertext_offset (sp_geometry (sv_plan s)) index;
  len ← chunk_ciphertext_len (sp_geometry (sv_plan s)) index;
  Some (serve_emit (ReadChunk index offset len) s).

Definition serve_next (now_ms : Z) (s : ServeSession) : option (ServeSession * ServeAction) :=
  if bool_decide (is_Some (sv_finished s)) then Some (finished_action s) else
  let s := s <| sv_now_ms := now_ms |> in
  if bool_decide (is_Some (sv_serving s)) then restate_read s else
  match sv_queue s with
  | [] =>
      if sv_challenged s && (0 <? sv_fetches_answered s) && negb (sv_batch_done_sent s) then
        Some (serve_emit (Reply (BatchDone (sv_chunks_served s))) (s <| sv_batch_done_sent := true |>))
      else Some (serve_emit Idle s)
  | index :: rest =>
      if serve_past_deadline s then Some (refuse ServeBudgetSpent ServeDeadlineReached s)
      else if (sb_max_chunks (sv_budgets s) <=? sv_chunks_served s)
              || (sb_max_bytes (sv_budgets s) <=? sv_bytes_served s)
      then Some (refuse ServeBudgetSpent ServeSpent s)
      else restate_read (s <| sv_queue := rest |> <| sv_serving := Some index |>)
  end.

Definition serve_provide_chunk (index : Z) (ct : bytes) (now_ms : Z) (s : ServeSession)
  : option (ServeSession * ServeAction) :=
  if bool_decide (is_Some (sv_finished s)) then Some (finished_action s) else
  let s := s <| sv_now_ms := now_ms |> in
  if negb (bool_decide (sv_serving s = Some index)) then serve_next now_ms s
  else if negb (bool_decide (chunk_ciphertext_len (sp_geometry (sv_plan s)) index = Some (as_u32 (blen ct))))
  then Some (refuse NotHeld ServeProtocolError s)
  else Some (serve_emit (Reply (Chunk index ct))
         (s <| sv_serving := None |> <| sv_chunks_served ::= inc32 |>
            <| sv_bytes_served ::= fun n => u64_saturating_add n (blen ct) |>)).

(** The inner loop over one range: what joins the queue, and how many skipped. *)
Definition queue_range (held : ChunkBitmap) (r : ChunkRange) (st : list Z * Z) : list Z * Z :=
  foldl (fun '(queue, skipped) index =>
           if has held index then (queue ++ [index], skipped) else (queue, inc32 skipped))
    st (expand r).

(** The outer loop: the skip count so far, and the queue unless a range is bad. *)
Fixpoint queue_ranges (plan : ServePlan) (ranges : list ChunkRange) (st : list Z * Z) : Z * option (list Z) :=
  match ranges with
  | [] => (st.2, Some st.1)
  | r :: rest =>
      if (r_count r =? 0) || (g_chunk_count (sp_geometry plan) <? end_exclusive r) then (st.2, None)
      else queue_ranges plan rest (queue_range (sp_held plan) r st)
  end.

Section session.
Context `{C : Crypto}.

Definition apply_fetch (proof : bytes) (ranges : list ChunkRange) (s : ServeSession)
  : option (ServeSession * ServeAction) :=
  if negb (sv_challenged s) then Some (refuse BadRequest ServeProtocolError s)
  else if negb (verify_pull_proof (sp_blob_key (sv_plan s)) (sp_blob_id (sv_plan s)) (sv_nonce s) proof)
  then Some (refuse ProofInvalid (ServeRefused ProofInvalid) (s <| sv_proof_failures ::= inc32 |>))
  else if sb_max_fetches (sv_budgets s) <=? sv_fetches_answered s
  then Some (refuse ServeBudgetSpent ServeSpent s)
  else if bool_decide (ranges = []) || (PULL_MAX_RANGES_PER_FETCH <? as_u32 (blen ranges))
  then Some (refuse BadRequest ServeProtocolError s)
  else
    let '(skipped, queued) := queue_ranges (sv_plan s) ranges ([], sv_chunks_skipped s) in
    let s := s <| sv_chunks_skipped := skipped |> in
    match queued with
    | None => Some (refuse BadRequest ServeProtocolError s)
    | Some queue =>
        serve_next (sv_now_ms s)
          (s <| sv_fetches_answered ::= inc32 |> <| sv_batch_done_sent := false |> <| sv_queue := queue |>)
    end.

Definition serve_on_frame (frame : PullFrame) (now_ms : Z) (s : ServeSession)
  : option (ServeSession * ServeAction) :=
  if bool_decide (is_Some (sv_finished s)) then Some (finished_action s) else
  let s := s <| sv_now_ms := now_ms |> in
  if serve_past_deadline s then Some (refuse ServeBudgetSpent ServeDeadlineReached s) else
  match frame with
  | Open blob_id =>
      if sv_opened s then Some (refuse BadRequest ServeProtocolError s) else
      let s := s <| sv_opened := true |> in
      if negb (bool_decide (blob_id = sp_blob_id (sv_plan s))) || (present (sp_held (sv_plan s)) =? 0)
      then Some (refuse NotHeld (ServeRefused NotHeld) s)
      else Some (serve_emit (Reply (Challenge (sv_nonce s) (present (sp_held (sv_plan s)))))
                   (s <| sv_challenged := true |>))
  | Fetch proof ranges => apply_fetch proof ranges s
  | Close => Some (finished_action (s <| sv_finished := Some (serve_snapshot s ServeClosed) |>))
  | Challenge _ _ | Chunk _ _ | BatchDone _ | Refused _ =>
      Some (refuse BadRequest ServeProtocolError s)
  end.

Definition serve_cancel (now_ms : Z) (s : ServeSession) : ServeSession * ServeSummary :=
  let s := s <| sv_now_ms := now_ms |> in
  let s := match sv_finished s with
           | None => s <| sv_finished := Some (serve_snapshot s ServeCancelled) |>
           | Some _ => s
           end in
  (s, serve_summary s).

End session.

(** * Any driver *)

Inductive ServeEvent : Type :=
| SvFrame (frame : PullFrame) (now_ms : Z)
| SvProvide (index : Z) (ct : bytes) (now_ms : Z)
| SvNext (now_ms : Z)
| SvCancel (now_ms : Z).

Definition serve_event `{C : Crypto} (e : ServeEvent) (s : ServeSession)
  : option (ServeSession * list ServeAction) :=
  let one o := '(s', a) ← o; Some (s', [a]) in
  match e with
  | SvFrame frame now => one (serve_on_frame frame now s)
  | SvProvide index ct now => one (serve_provide_chunk index ct now s)
  | SvNext now => one (serve_next now s)
  | SvCancel now => Some ((serve_cancel now s).1, [])
  end.

(** The session after a sequence of calls and all the actions they returned;
    [None] if a call panicked. *)
Fixpoint serve_run `{C : Crypto} (es : list ServeEvent) (s : ServeSession)
  : option (ServeSession * list ServeAction) :=
  match es with
  | [] => Some (s, [])
  | e :: es =>
      '(s1, out) ← serve_event e s;
      '(s2, rest) ← serve_run es s1;
      Some (s2, out ++ rest)
  end.

(** Compute the fields of an updated session, in terms of those of [s]. *)
Ltac sfields s :=
  cbn; unfold constant;
  fold (sv_plan s); fold (sv_nonce s); fold (sv_started_at_ms s); fold (sv_now_ms s);
  fold (sv_next_action_id s); fold (sv_opened s); fold (sv_challenged s); fold (sv_queue s);
  fold (sv_serving s); fold (sv_finished s); fold (sv_fetches_answered s);
  fold (sv_batch_done_sent s); fold (sv_chunks_served s); fold (sv_bytes_served s);
  fold (sv_chunks_skipped s); fold (sv_proof_failures s).

(** * What a fetch queues *)

Definition range_ok (plan : ServePlan) (r : ChunkRange) : Prop :=
  0 < r_count r /\ end_exclusive r <= g_chunk_count (sp_geometry plan).

Definition requested_held (plan : ServePlan) (ranges : list ChunkRange) : list Z :=
  List.filter (has (sp_held plan)) (concat (expand <$> ranges)).

Lemma queue_range_queue held r st :
  (queue_range held r st).1 = st.1 ++ List.filter (has held) (expand r).
Proof.
  unfold queue_range. revert st. induction (expand r) as [|i l IH]; intros [q k]; [by rewrite app_nil_r|].
  cbn [foldl List.filter]. rewrite IH. destruct (has held i); cbn [fst]; [|done]. by rewrite <-app_assoc.
Qed.

(** The queue is the held chunks of the requested ranges, in order, provided
    every range is non-empty and inside the blob. *)
Lemma queue_ranges_some plan ranges : forall st queue, Forall range_typed ranges ->
  (queue_ranges plan ranges st).2 = Some queue <->
  Forall (range_ok plan) ranges /\ queue = st.1 ++ requested_held plan ranges.
Proof.
  unfold requested_held. induction ranges as [|r ranges IH]; intros st queue Ht; cbn [queue_ranges].
  { cbn. rewrite app_nil_r. split; [intros [= <-]; by split|by intros [_ ->]]. }
  apply Forall_cons in Ht as [[_ Hc] Ht]. cbn [fmap list_fmap concat]. rewrite List.filter_app, app_assoc.
  rewrite Forall_cons. unfold range_ok at 1. case_match eqn:E; cbn [snd].
  - split; [done|]. intros [[[? ?] _] _]. apply orb_true_iff in E as [E|E]; bools; lia.
  - apply orb_false_iff in E as [? ?]. bools. rewrite (IH _ _ Ht), queue_range_queue. unfold in_u32 in Hc.
    split; [intros [? ?]; split_and!; try done; lia|by intros [[_ ?] ?]].
Qed.

(** * The invariant *)

Record serve_budgets_ok (b : ServeBudgets) : Prop := {
  so_fetches : in_u32 (sb_max_fetches b);
  so_chunks : in_u32 (sb_max_chunks b);
  so_bytes : in_u64 (sb_max_bytes b);
}.

(** Frames as they come from the wire, reads of at most [u32] length. *)
Definition serve_event_typed (e : ServeEvent) : Prop :=
  match e with
  | SvFrame frame _ => pull_frame_typed frame
  | SvProvide _ ct _ => blen ct <= U32_MAX
  | _ => True
  end.

Section invariant.
Context `{C : Crypto}.
Context (plan : ServePlan) (nonce : bytes).
Context (G : geometry_ok (sp_geometry plan)) (K : serve_budgets_ok (sp_budgets plan)).

(** A fetch among [es] proved possession of the manifest and asked for [i]. *)
Definition granted (es : list ServeEvent) (i : Z) : Prop :=
  exists proof ranges now r, SvFrame (Fetch proof ranges) now ∈ es /\
    verify_pull_proof (sp_blob_key plan) (sp_blob_id plan) nonce proof = true /\
    r ∈ ranges /\ range_contains r i = true.

Definition servable (es : list ServeEvent) (i : Z) : Prop :=
  0 <= i < g_chunk_count (sp_geometry plan) /\ has (sp_held plan) i = true /\ granted es i.

Definition allowed (es : list ServeEvent) (a : ServeAction) : Prop :=
  match sa_kind a with
  | Reply (Chunk i ct) => servable es i /\ chunk_ciphertext_len (sp_geometry plan) i = Some (blen ct)
  | ReadChunk i offset len => servable es i /\
      chunk_ciphertext_offset (sp_geometry plan) i = Some offset /\
      chunk_ciphertext_len (sp_geometry plan) i = Some len
  | Reply (Challenge n held) => (exists now, SvFrame (Open (sp_blob_id plan)) now ∈ es) /\
      n = nonce /\ held = present (sp_held plan) /\ held <> 0
  | _ => True
  end.

Record serve_inv (es : list ServeEvent) (s : ServeSession) : Prop := {
  si_plan : sv_plan s = plan;
  si_nonce : sv_nonce s = nonce;
  si_queue : Forall (servable es) (sv_queue s);
  si_serving : forall i, sv_serving s = Some i ->
    servable es i /\ sv_bytes_served s < sb_max_bytes (sp_budgets plan);
  si_fetches : 0 <= sv_fetches_answered s <= sb_max_fetches (sp_budgets plan);
  si_chunks : 0 <= sv_chunks_served s /\
    sv_chunks_served s + (if sv_serving s then 1 else 0) <= sb_max_chunks (sp_budgets plan);
  si_bytes : 0 <= sv_bytes_served s < sb_max_bytes (sp_budgets plan) + MEDIA_CHUNK_CIPHERTEXT_BYTES;
}.

(** A call that returns keeps the invariant and returns an allowed action. *)
Definition call_ok (es : list ServeEvent) (o : option (ServeSession * ServeAction)) : Prop :=
  exists s' a, o = Some (s', a) /\ serve_inv es s' /\ allowed es a.

Ltac same_serve s := match goal with I : serve_inv _ s |- _ =>
  destruct I; split; sfields s; try done; cbn; try lia end.

Lemma emit_ok es s kind : serve_inv es s -> (forall id, allowed es (mk_serve_action id kind)) ->
  call_ok es (Some (serve_emit kind s)).
Proof. intros I Ha. do 2 eexists. split; [done|]. split; [same_serve s|apply Ha]. Qed.

Lemma finished_ok es s : serve_inv es s -> call_ok es (Some (finished_action s)).
Proof. intros I. by apply emit_ok. Qed.

Lemma refuse_ok es s reason outcome : serve_inv es s -> call_ok es (Some (refuse reason outcome s)).
Proof.
  intros I. apply emit_ok; [|done]. destruct I. split; sfields s; try done.
  destruct (sv_serving s); lia.
Qed.

Lemma restate_ok es s : serve_inv es s -> is_Some (sv_serving s) -> call_ok es (restate_read s).
Proof.
  intros I [i Hi]. unfold restate_read. rewrite Hi. cbn [mbind option_bind].
  pose proof I as [Hp _ _ Hs _ _ _]. destruct (Hs i Hi) as [Hsv _]. pose proof Hsv as (Hr & _ & _).
  destruct (chunk_len_in _ G i Hr) as (n & Hn & _). rewrite Hp. unfold chunk_ciphertext_offset.
  rewrite (proj2 (Z.ltb_lt _ _)) by lia. unfold chunk_ciphertext_len. rewrite Hn. cbn [mbind option_bind fmap option_fmap option_map].
  apply emit_ok; [done|]. intros id. cbn. split; [done|]. unfold chunk_ciphertext_offset, chunk_ciphertext_len.
  by rewrite (proj2 (Z.ltb_lt _ _)), Hn by lia.
Qed.

Lemma next_ok es s now : serve_inv es s -> call_ok es (serve_next now s).
Proof.
  intros I. unfold serve_next. case_bool_decide; [by apply finished_ok|].
  set (s' := s <| sv_now_ms := now |>). assert (serve_inv es s') as I' by same_serve s. clearbody s'.
  case_bool_decide as Hs; [by apply restate_ok|]. apply eq_None_not_Some in Hs.
  destruct (sv_queue s') as [|i rest] eqn:Hq.
  - case_match; [|by apply emit_ok]. apply emit_ok; [|done]. same_serve s'.
  - case_match; [by apply refuse_ok|]. case_match eqn:Hb; [by apply refuse_ok|].
    apply orb_false_iff in Hb as [Hb1%Z.leb_gt Hb2%Z.leb_gt].
    pose proof I' as [Hp _ Hqu _ _ Hch _]. unfold sv_budgets in *. rewrite Hp in Hb1, Hb2.
    rewrite Hq in Hqu. apply Forall_cons in Hqu as [Hi Hrest].
    apply restate_ok; [|by eexists]. same_serve s'. by intros j [= <-].
Qed.

Lemma provide_ok es s index ct now : blen ct <= U32_MAX -> serve_inv es s ->
  call_ok es (serve_provide_chunk index ct now s).
Proof.
  intros Hl I. unfold serve_provide_chunk. case_bool_decide; [by apply finished_ok|].
  set (s' := s <| sv_now_ms := now |>). assert (serve_inv es s') as I' by same_serve s. clearbody s'.
  case_bool_decide as Hs; cbn [negb]; [|by apply next_ok].
  case_bool_decide as Hlen; cbn [negb]; [|by apply refuse_ok].
  pose proof (blen_nonneg ct) as H0. unfold as_u32 in Hlen. rewrite Z.mod_small in Hlen by ints.
  pose proof I' as [Hp _ _ Hsv _ Hch Hby]. destruct (Hsv _ Hs) as [Hi Hbytes]. rewrite Hs in Hch. rewrite Hp in Hlen.
  assert (blen ct <= MEDIA_CHUNK_CIPHERTEXT_BYTES) as Hct.
  { destruct Hi as [Hr _]. destruct (chunk_len_in _ G index Hr) as (n & Hn & Hnb & _).
    unfold chunk_ciphertext_len in Hlen. rewrite Hn in Hlen. injection Hlen as <-.
    unfold MEDIA_CHUNK_CIPHERTEXT_BYTES. lia. }
  apply emit_ok; [|done]. destruct K. same_serve s'.
  - unfold inc32, as_u32. rewrite Z.mod_small by ints. lia.
  - ints.
Qed.

(** Everything a valid fetch queues may be served. *)
Lemma queued_servable es proof ranges now : Forall range_typed ranges ->
  SvFrame (Fetch proof ranges) now ∈ es ->
  verify_pull_proof (sp_blob_key plan) (sp_blob_id plan) nonce proof = true ->
  Forall (range_ok plan) ranges -> Forall (servable es) (requested_held plan ranges).
Proof.
  intros Ht Hin Hv Hok. apply Forall_forall. intros i [Hi Hh]%list_elem_of_In%List.filter_In.
  apply List.in_concat in Hi as (l & (r & -> & Hr)%list_elem_of_In%list_elem_of_fmap & Hi).
  rewrite Forall_forall in Ht, Hok. destruct (Ht r Hr) as [Hs _]. destruct (Hok r Hr) as [_ He].
  unfold expand in Hi. apply list_elem_of_In, elem_of_seqZ in Hi.
  assert (range_contains r i = true) as Hc.
  { unfold range_contains, end_exclusive. apply andb_true_iff. split; [apply Z.leb_le|apply Z.ltb_lt]; lia. }
  unfold end_exclusive, in_u32 in *. split; [lia|]. split; [done|].
  by exists proof, ranges, now, r.
Qed.

Lemma fetch_ok es s proof ranges now : Forall range_typed ranges ->
  SvFrame (Fetch proof ranges) now ∈ es -> serve_inv es s -> call_ok es (apply_fetch proof ranges s).
Proof.
  intros Ht Hin I. pose proof I as [Hp Hn _ _ Hf _ _]. unfold apply_fetch.
  case_match; [by apply refuse_ok|]. case_match eqn:Hv; [apply refuse_ok; same_serve s|].
  apply negb_false_iff in Hv. rewrite Hp, Hn in Hv. case_match eqn:Hb; [by apply refuse_ok|].
  apply Z.leb_gt in Hb. unfold sv_budgets in Hb. rewrite Hp in Hb.
  case_match; [by apply refuse_ok|]. rewrite Hp.
  destruct (queue_ranges plan ranges ([], sv_chunks_skipped s)) as [skipped queued] eqn:Hq.
  destruct queued as [queue|]; [|apply refuse_ok; same_serve s].
  pose proof (queue_ranges_some plan ranges ([], sv_chunks_skipped s) queue Ht) as Hsome.
  rewrite Hq in Hsome. destruct (proj1 Hsome eq_refl) as [Hok ->].
  pose proof (queued_servable es proof ranges now Ht Hin Hv Hok) as Hsv. destruct K.
  apply next_ok. same_serve s. unfold inc32, as_u32. rewrite Z.mod_small by ints. lia.
Qed.

Lemma frame_ok es s frame now : pull_frame_typed frame -> SvFrame frame now ∈ es -> serve_inv es s ->
  call_ok es (serve_on_frame frame now s).
Proof.
  intros Ht Hin I. unfold serve_on_frame. case_bool_decide; [by apply finished_ok|].
  set (s' := s <| sv_now_ms := now |>). assert (serve_inv es s') as I' by same_serve s. clearbody s'.
  case_match; [by apply refuse_ok|]. destruct frame; try by apply refuse_ok.
  - case_match; [by apply refuse_ok|]. case_match eqn:Hh; [apply refuse_ok; same_serve s'|].
    apply orb_false_iff in Hh as [Hid%negb_false_iff%bool_decide_eq_true Hpr%Z.eqb_neq].
    apply emit_ok; [same_serve s'|]. intros id. pose proof I' as [Hp Hn _ _ _ _ _]. cbn in Hid, Hpr |- *.
    fold (sv_plan s') in Hid, Hpr. fold (sv_plan s'). fold (sv_nonce s'). rewrite Hp in Hid, Hpr.
    rewrite Hp, Hn. subst. split_and!; try done. by exists now.
  - apply (fetch_ok es s' proof ranges now); [apply Ht|done|done].
  - apply finished_ok. same_serve s'.
Qed.

Lemma serve_inv_mono es es' s : es ⊆ es' -> serve_inv es s -> serve_inv es' s.
Proof.
  intros Hsub []. assert (forall i, servable es i -> servable es' i) as Hm.
  { intros i (? & ? & proof & ranges & now & r & ? & ?). split; [done|]. split; [done|].
    exists proof, ranges, now, r. split; [by apply Hsub|done]. }
  split; try done.
  - eapply Forall_impl; [done|apply Hm].
  - intros i Hi. destruct (si_serving0 i Hi). split; [by apply Hm|done].
Qed.

Lemma event_ok es s e : serve_event_typed e -> e ∈ es -> serve_inv es s ->
  exists s' out, serve_event e s = Some (s', out) /\ serve_inv es s' /\ Forall (allowed es) out.
Proof.
  intros Ht Hin I. assert (forall o, call_ok es o -> exists s' out,
    ('(s', a) ← o; Some (s', [a])) = Some (s', out) /\ serve_inv es s' /\ Forall (allowed es) out) as Hone.
  { intros o (s' & a & -> & ? & ?). by exists s', [a]; rewrite Forall_singleton. }
  destruct e as [frame now|index ct now|now|now]; cbn [serve_event].
  - by apply Hone, frame_ok.
  - by apply Hone, provide_ok.
  - by apply Hone, next_ok.
  - exists (serve_cancel now s).1, []. split; [done|]. split; [|constructor]. unfold serve_cancel. cbn [fst].
    set (s' := s <| sv_now_ms := now |>). assert (serve_inv es s') as I' by same_serve s. clearbody s'.
    case_match; [done|]. same_serve s'.
Qed.

Lemma new_inv es now : serve_inv es (serve_new plan nonce now).
Proof.
  destruct K. split; cbn; try done; [ints..|].
  unfold MEDIA_CHUNK_CIPHERTEXT_BYTES, MEDIA_CHUNK_PLAINTEXT_BYTES, MEDIA_AEAD_TAG_BYTES. ints.
Qed.

Lemma serve_run_snoc es e s s1 out s2 out2 : serve_run es s = Some (s1, out) ->
  serve_event e s1 = Some (s2, out2) -> serve_run (es ++ [e]) s = Some (s2, out ++ out2).
Proof.
  intros Hr He. revert s out Hr. induction es as [|x es IH]; intros s out Hr; cbn [app serve_run] in *.
  - injection Hr as <- <-. rewrite He. cbn. by rewrite app_nil_r.
  - destruct (serve_event x s) as [[s0 o0]|]; [|done]. cbn [mbind option_bind] in *.
    destruct (serve_run es s0) as [[s3 rest]|] eqn:Hes; [|done]. injection Hr as <- <-.
    rewrite (IH s0 rest Hes). cbn [mbind option_bind]. by rewrite app_assoc.
Qed.

Lemma serve_run_inv now es : Forall serve_event_typed es ->
  exists s out, serve_run es (serve_new plan nonce now) = Some (s, out) /\ serve_inv es s.
Proof.
  induction es as [|e es IH] using rev_ind; intros Ht.
  { do 2 eexists. split; [done|apply new_inv]. }
  apply Forall_app in Ht as [Ht He]. apply Forall_cons in He as [He _].
  destruct (IH Ht) as (s & out & Hr & I).
  destruct (event_ok (es ++ [e]) s e He) as (s2 & out2 & He2 & I2 & _); [set_solver| |].
  { eapply serve_inv_mono; [|done]. set_solver. }
  exists s2, (out ++ out2). split; [by eapply serve_run_snoc|done].
Qed.

End invariant.

(** * Claims *)

(** No sequence of frames and driver calls makes the holder panic, and what
    it does next is always authorised by what came before: a chunk is read or sent
    only if it is inside the blob, held, of its exact size, and asked for by an
    earlier or current fetch that proved possession of the manifest under this
    session's nonce; the challenge goes only to whoever named this blob. *)
Theorem serve_authorised `{C : Crypto} plan nonce now es e :
  geometry_ok (sp_geometry plan) -> serve_budgets_ok (sp_budgets plan) ->
  Forall serve_event_typed (es ++ [e]) ->
  exists s out s' out', serve_run es (serve_new plan nonce now) = Some (s, out) /\
    serve_event e s = Some (s', out') /\ Forall (allowed plan nonce (es ++ [e])) out'.
Proof.
  intros G K [Ht He]%Forall_app. apply Forall_cons in He as [He _].
  destruct (serve_run_inv plan nonce G K now es Ht) as (s & out & Hr & I).
  destruct (event_ok plan nonce G K (es ++ [e]) s e He) as (s' & out' & Hs & _ & Ho); [set_solver| |].
  { eapply serve_inv_mono; [|done]. set_solver. }
  by exists s, out, s', out'.
Qed.

(** The holder stays within its budgets whatever the peer sends: it answers
    no more fetches and serves no more chunks than allowed, and the bytes it serves
    stay below its byte budget plus one chunk. *)
Theorem serve_within_budgets `{C : Crypto} plan nonce now es :
  geometry_ok (sp_geometry plan) -> serve_budgets_ok (sp_budgets plan) -> Forall serve_event_typed es ->
  exists s out, serve_run es (serve_new plan nonce now) = Some (s, out) /\
    sv_fetches_answered s <= sb_max_fetches (sp_budgets plan) /\
    sv_chunks_served s <= sb_max_chunks (sp_budgets plan) /\
    sv_bytes_served s < sb_max_bytes (sp_budgets plan) + MEDIA_CHUNK_CIPHERTEXT_BYTES.
Proof.
  intros G K Ht. destruct (serve_run_inv plan nonce G K now es Ht) as (s & out & Hr & []).
  exists s, out. split_and!; [done|lia| |lia]. destruct (sv_serving s); lia.
Qed.

(** ** Witnesses: a one-chunk blob under the default budgets *)

Definition one_geometry : BlobGeometry := mk_geometry 3 19 1 262144 262160.

Definition one_splan : ServePlan :=
  mk_serve_plan (replicate 32 x01) [x07] one_geometry (mk_bitmap 1 1 [x80]) default_serve_budgets.
Definition one_read (i : Z) : bytes := [x01; x02; x03] ++ toy_tag.

Lemma one_geometry_ok : geometry_ok one_geometry.
Proof. split; vm_compute; try done; split; done. Qed.

Lemma default_serve_budgets_ok : serve_budgets_ok default_serve_budgets.
Proof. split; vm_compute; split; discriminate. Qed.

(** The opening and a fetch of the only chunk. *)
Definition one_fetch : list ServeEvent :=
  [SvFrame (Open (replicate 32 x01)) 1;
   SvFrame (Fetch (pull_proof (C := toy_crypto) [x07] (replicate 32 x01) (replicate 16 x09)) [mk_range 0 1]) 2].

Lemma one_fetch_typed : Forall serve_event_typed (one_fetch ++ [SvProvide 0 (one_read 0) 3]).
Proof.
  repeat constructor; cbn -[Z.le]; unfold blen, range_typed; cbn; ints.
Qed.

Lemma serve_authorised_witness :
  exists s out s' out',
    serve_run (C := toy_crypto) one_fetch (serve_new one_splan (replicate 16 x09) 0) = Some (s, out) /\
    serve_event (C := toy_crypto) (SvProvide 0 (one_read 0) 3) s = Some (s', out') /\
    Forall (allowed (C := toy_crypto) one_splan (replicate 16 x09)
      (one_fetch ++ [SvProvide 0 (one_read 0) 3])) out' /\
    (sa_kind <$> out') = [Reply (Chunk 0 (one_read 0))].
Proof.
  destruct (serve_authorised (C := toy_crypto) one_splan (replicate 16 x09) 0 one_fetch
    (SvProvide 0 (one_read 0) 3) one_geometry_ok default_serve_budgets_ok one_fetch_typed)
    as (s & out & s' & out' & H1 & H2 & H3).
  exists s, out, s', out'. split; [exact H1|]. split; [exact H2|]. split; [exact H3|].
  vm_compute in H1. injection H1 as <- <-. vm_compute in H2. injection H2 as <- <-. vm_compute. reflexivity.
Defined.

Lemma serve_within_budgets_witness :
  exists s out,
    serve_run (C := toy_crypto) (one_fetch ++ [SvProvide 0 (one_read 0) 3])
      (serve_new one_splan (replicate 16 x09) 0) = Some (s, out) /\
    sv_chunks_served s = 1 /\ sv_chunks_served s <= 512.
Proof.
  destruct (serve_within_budgets (C := toy_crypto) one_splan (replicate 16 x09) 0
    (one_fetch ++ [SvProvide 0 (one_read 0) 3]) one_geometry_ok default_serve_budgets_ok one_fetch_typed)
    as (s & out & H1 & _ & H2 & _).
  exists s, out. split; [exact H1|]. split; [|exact H2].
  vm_compute in H1. injection H1 as <- <-. reflexivity.
Defined.
