(* ===== verification/MediaTransfer.v ===== *)
(** A requester and a holder joined by a link: the two state machines of
    [core/src/media/lan_pull.rs] driven against each other, one exchange at a
    time, as its drivers do.

    The link delivers every frame and the holder's store returns every chunk it
    is asked for; the clock moves as it likes within both deadlines.  Under
    budgets that cover the blob the transfer completes, within a number of
    exchanges linear in what was missing. *)
From stdpp Require Import base numbers list strings sets.
From coqutil Require Import Datatypes.RecordSetters.
From S2P Require Import Prelude Wire Crypto MediaBlob MediaBitmap MediaWire MediaPull MediaServe.
Import TriangleBracketNotations.

Record Link : Type := mk_link {
  lk_pull : PullSession;
  lk_serve : ServeSession;
  (** what the holder's last call asked of its driver *)
  lk_pending : ServeAction;
}.

Section link.
Context `{C : Crypto} `{A : Aead}.
(** The holder's store. *)
Context (read : Z -> bytes).

(** Carry out the pending action: a read is answered from the store, a reply is
    delivered and the requester's answer to it is delivered back. *)
Definition link_step (now : Z) (l : Link) : option Link :=
  let '(mk_link p s a) := l in
  match sa_kind a with
  | ReadChunk i _ _ =>
      '(s', a') ← serve_provide_chunk i (read i) now s; Some (mk_link p s' a')
  | Reply f =>
      match ps_outstanding p with
      | None => Some l
      | Some act =>
          let '(p', pa) := pull_resume (FrameResult (action_id act) f) now p in
          '(s', a') ← match action_kind pa with
                      | Send f' | Finish f' _ => serve_on_frame f' now s
                      | Await | Finished _ => serve_next now s
                      end;
          Some (mk_link p' s' a')
      end
  | Idle | ServeFinished _ => Some l
  end.

Fixpoint link_run (nows : list Z) (l : Link) : option Link :=
  match nows with
  | [] => Some l
  | now :: nows => l' ← link_step now l; link_run nows l'
  end.

Definition link_start (plan : PullPlan) (now : Z) (s : ServeSession) : option Link :=
  let '(p, pa) := pull_start now (pull_new plan) in
  match action_kind pa with
  | Send f => '(s', a) ← serve_on_frame f now s; Some (mk_link p s' a)
  | _ => None
  end.

End link.

(** Arithmetic with the chunk sizes. *)
Ltac media_ints :=
  unfold MEDIA_CHUNK_CIPHERTEXT_BYTES, MEDIA_CHUNK_PLAINTEXT_BYTES, MEDIA_AEAD_TAG_BYTES in *; ints.

(** * What one fetch asks for *)

Lemma missing_count b : bitmap_ok b -> blen (missing_from b 0) = chunk_count b - present b.
Proof.
  intros B. rewrite (bk_present b B). unfold count_bits, missing_from. rewrite Z.sub_0_r.
  rewrite (List.filter_ext_in (fun j => negb (has b j)) (fun j => negb (bit_at (bits b) j))).
  2:{ intros j Hj%list_elem_of_In%elem_of_seqZ. by rewrite has_bit by lia. }
  pose proof (List.filter_length (bit_at (bits b)) (seqZ 0 (chunk_count b))) as H.
  rewrite length_seqZ in H. unfold blen. pose proof (bk_count b B). lia.
Qed.

Lemma missing_nodup b : NoDup (missing_from b 0).
Proof. unfold missing_from. apply NoDup_ListNoDup, List.NoDup_filter, NoDup_ListNoDup, NoDup_seqZ. Qed.

Lemma expand_many rs : Forall (fun r => 0 < r_count r) rs -> blen rs <= blen (concat (expand <$> rs)).
Proof.
  induction 1 as [|r rs Hr _ IH]; [done|]. cbn [fmap list_fmap concat]. rewrite blen_cons, blen_app.
  unfold expand at 1. unfold blen at 2. rewrite length_seqZ. unfold blen in *. lia.
Qed.

Lemma elem_of_expanded rs j : j ∈ concat (expand <$> rs) ->
  existsb (fun range => range_contains range j) rs = true.
Proof.
  intros (l & (r & -> & Hr)%list_elem_of_In%list_elem_of_fmap & Hj)%list_elem_of_In%List.in_concat.
  apply existsb_exists. exists r. split; [by apply list_elem_of_In|].
  apply list_elem_of_In, elem_of_seqZ in Hj. unfold range_contains, end_exclusive.
  apply andb_true_iff. split; [apply Z.leb_le|apply Z.ltb_lt]; lia.
Qed.

(** A request for the missing chunks [q] of [b]: valid ranges, few enough, each
    chunk once, and as many as the window allows. *)
Record request_ok (b : ChunkBitmap) (w mr : Z) (rs : list ChunkRange) (q : list Z) : Prop := {
  rq_expand : concat (expand <$> rs) = q;
  rq_typed : Forall range_typed rs;
  rq_inside : Forall (fun r => 0 < r_count r /\ end_exclusive r <= chunk_count b) rs;
  rq_few : blen rs <= mr;
  rq_some : rs <> [] /\ q <> [];
  rq_nodup : NoDup q;
  rq_missing : Forall (fun j => 0 <= j < chunk_count b /\ has b j = false /\
     existsb (fun range => range_contains range j) rs = true) q;
  rq_enough : blen q = chunk_count b - present b \/ Z.min w mr <= blen q;
}.

Lemma missing_ranges_request b w mr : bitmap_ok b -> 0 < w -> 0 < mr -> is_complete b = false ->
  request_ok b w mr (missing_ranges b w mr) (concat (expand <$> missing_ranges b w mr)).
Proof.
  intros B Hw Hm Hc. pose proof (bk_count b B) as Hn.
  pose proof (missing_ranges_progress b w mr B Hw Hm Hc) as Hne.
  destruct (missing_ranges_covers b w mr) as (Hfew & Hpos & k & Hk & Hkw & Hkl & Hstop); [lia..|].
  assert (forall r i, r ∈ missing_ranges b w mr -> range_contains r i = true -> 0 <= i < chunk_count b) as Hin.
  { intros r i Hr Hi. by destruct (requested_missing b w mr r i) as [? _]; [lia..|done|done|]. }
  assert (forall r, r ∈ missing_ranges b w mr -> 0 < r_count r /\ 0 <= r_start r /\ end_exclusive r <= chunk_count b) as Hr.
  { intros r Hr. rewrite Forall_forall in Hpos. specialize (Hpos r Hr). pose proof (Hin r (r_start r) Hr) as H1.
    pose proof (Hin r (end_exclusive r - 1) Hr) as H2. unfold range_contains, end_exclusive in *.
    rewrite andb_true_iff, Z.leb_le, Z.ltb_lt in H1, H2. lia. }
  pose proof (expand_many _ Hpos) as Hmany.
  split; [done|..].
  - apply Forall_forall. intros r Hrr%Hr. unfold end_exclusive in Hrr. split; ints.
  - apply Forall_forall. intros r Hrr%Hr. lia.
  - done.
  - split; [done|]. intros Hq. rewrite Hq in Hmany. destruct (missing_ranges b w mr); [done|].
    rewrite blen_cons in Hmany. unfold blen in Hmany. cbn in Hmany. lia.
  - rewrite Hk. eapply sublist_NoDup; [apply missing_nodup|apply sublist_take].
  - apply Forall_forall. intros j Hj. pose proof (elem_of_expanded _ _ Hj) as He. rewrite Hk in Hj.
    apply elem_of_take in Hj as (m & Hj & _). apply list_elem_of_lookup_2, elem_of_missing in Hj as [? ?]. done.
  - assert (blen (concat (expand <$> missing_ranges b w mr)) = Z.of_nat k) as ->.
    { rewrite Hk. unfold blen. rewrite length_take. lia. }
    rewrite <-(missing_count b B). unfold blen in *. rewrite Hk, length_take in Hmany. lia.
Qed.

(** * The phases of a transfer *)

Lemma pull_proof_len `{C : Crypto} {L : CryptoLaws C} key id nonce :
  blen (pull_proof key id nonce) = PULL_PROOF_LEN.
Proof. unfold pull_proof, blen. by rewrite blake2b_length. Qed.

Section transfer.
Context `{C : Crypto} `{A : Aead} (L : CryptoLaws C).
Context (read : Z -> bytes) (plan : PullPlan) (splan : ServePlan) (nonce : bytes) (t0 ts : Z).

Notation n := (chunk_count (pl_bitmap plan)).
Notation key := (pl_blob_key plan).
Notation g := (pl_geometry plan).
Notation CT := MEDIA_CHUNK_CIPHERTEXT_BYTES.

(** The least a fetch asks for while that much is missing. *)
Definition batch : Z := Z.min (pb_window_chunks (pl_budgets plan)) (pb_max_ranges (pl_budgets plan)).

(** Both ends hold the same manifest, the holder has every chunk, and the
    budgets cover the blob. *)
Record agreed : Prop := {
  ag_id : sp_blob_id splan = pl_blob_id plan;
  ag_key : sp_blob_key splan = key;
  ag_geometry : sp_geometry splan = g;
  ag_geometry_ok : geometry_ok g;
  ag_bitmap : bitmap_ok (pl_bitmap plan);
  ag_count : n = g_chunk_count g;
  ag_held : bitmap_ok (sp_held splan);
  ag_held_count : chunk_count (sp_held splan) = n;
  ag_complete : is_complete (sp_held splan) = true;
  ag_read : forall i, 0 <= i < n -> exists p, open_chunk key g i (read i) = Ok p;
  ag_window : 0 < pb_window_chunks (pl_budgets plan);
  ag_ranges : 0 < pb_max_ranges (pl_budgets plan) <= PULL_MAX_RANGES_PER_FETCH;
  ag_requests : n <= pb_max_requests (pl_budgets plan) * batch;
  ag_bytes : n * CT <= pb_max_bytes (pl_budgets plan);
  ag_fetches : n <= sb_max_fetches (sp_budgets splan) * batch;
  ag_chunks : n <= sb_max_chunks (sp_budgets splan);
  ag_serve_bytes : n * CT <= sb_max_bytes (sp_budgets splan);
}.

Context (AG : agreed).

(** A clock reading within both deadlines. *)
Definition timely (now : Z) : Prop :=
  i64_saturating_sub now t0 < pb_deadline_ms (pl_budgets plan) /\
  i64_saturating_sub now ts < sb_deadline_ms (sp_budgets splan).

(** Chunks gained by this session, and chunks still missing. *)
Definition gained (p : PullSession) : Z := present (ps_bitmap p) - present (pl_bitmap plan).
Definition missing (p : PullSession) : Z := n - present (ps_bitmap p).

(** The requester, after the challenge. *)
Record pull_ready (p : PullSession) : Prop := {
  pr_plan : (ps_plan p) <| pl_bitmap := pl_bitmap plan |> = plan;
  pr_bitmap : bitmap_ok (ps_bitmap p);
  pr_count : chunk_count (ps_bitmap p) = n;
  pr_start : ps_started_at_ms p = t0;
  pr_finished : ps_finished p = None;
  pr_outstanding : is_Some (ps_outstanding p);
  pr_nonce : ps_nonce p = Some nonce;
  pr_proof : ps_proof p = Some (pull_proof key (pl_blob_id plan) nonce);
  pr_gained : 0 <= gained p;
  pr_bytes : 0 <= ps_bytes_received p <= gained p * CT;
}.

(** The holder, having served [k] chunks in [r] batches. *)
Record serve_ready (r k : Z) (s : ServeSession) : Prop := {
  sr_plan : sv_plan s = splan;
  sr_nonce : sv_nonce s = nonce;
  sr_start : sv_started_at_ms s = ts;
  sr_finished : sv_finished s = None;
  sr_challenged : sv_challenged s = true;
  sr_fetches : sv_fetches_answered s = r;
  sr_chunks : sv_chunks_served s = k;
  sr_bytes : 0 <= sv_bytes_served s <= k * CT;
}.

(** The holder waits for its driver to read [i], with [q] to follow. *)
Record serving (i : Z) (q : list Z) (l : Link) : Prop := {
  sg_pull : pull_ready (lk_pull l);
  sg_serve : serve_ready (ps_requests_issued (lk_pull l)) (gained (lk_pull l)) (lk_serve l);
  sg_read : exists offset len, sa_kind (lk_pending l) = ReadChunk i offset len;
  sg_serving : sv_serving (lk_serve l) = Some i;
  sg_queue : sv_queue (lk_serve l) = q;
  sg_batch : sv_batch_done_sent (lk_serve l) = false;
  sg_missing : Forall (fun j => 0 <= j < n /\ has (ps_bitmap (lk_pull l)) j = false /\
     existsb (fun range => range_contains range j) (ps_outstanding_ranges (lk_pull l)) = true) (i :: q);
  sg_nodup : NoDup (i :: q);
  sg_requests : 0 < ps_requests_issued (lk_pull l) <= n;
  sg_account : blen (i :: q) = missing (lk_pull l) \/
     ps_requests_issued (lk_pull l) * batch <= gained (lk_pull l) + blen (i :: q);
}.

(** The batch is over and its end is on the link. *)
Record batch_end (l : Link) : Prop := {
  be_pull : pull_ready (lk_pull l);
  be_serve : serve_ready (ps_requests_issued (lk_pull l)) (gained (lk_pull l)) (lk_serve l);
  be_reply : exists k, sa_kind (lk_pending l) = Reply (BatchDone k);
  be_idle : sv_serving (lk_serve l) = None;
  be_requests : 0 <= ps_requests_issued (lk_pull l);
  be_account : missing (lk_pull l) = 0 \/ ps_requests_issued (lk_pull l) * batch <= gained (lk_pull l);
}.

Record transferred (l : Link) : Prop := {
  tr_finished : exists sm, ps_finished (lk_pull l) = Some sm /\ sm_outcome sm = PullComplete;
  tr_complete : is_complete (ps_bitmap (lk_pull l)) = true;
  tr_over : exists sm, sa_kind (lk_pending l) = ServeFinished sm;
}.

(** ** The holder's store *)

Lemma read_len i : 0 <= i < n ->
  chunk_ciphertext_len g i = Some (blen (read i)) /\ 0 <= blen (read i) <= CT.
Proof.
  intros Hi. destruct (ag_read AG i Hi) as [pt Ho]. pose proof (ag_geometry_ok AG) as G.
  rewrite (ag_count AG) in Hi. destruct (chunk_len_in g G i Hi) as (m & Hm & Hb & _).
  unfold open_chunk in Ho. unfold chunk_ciphertext_len in *. rewrite Hm in Ho |- *.
  cbn [fmap option_fmap option_map] in *. apply result_bind_ok in Ho as ([] & Hl%ensure_ok & _).
  apply Z.eqb_eq in Hl. rewrite Hl. split; [done|]. media_ints.
Qed.

Lemma held_all i : 0 <= i < n -> has (sp_held splan) i = true.
Proof.
  intros Hi. apply (complete_spec _ (ag_held AG)); [apply AG|]. by rewrite (ag_held_count AG).
Qed.

(** ** The holder's steps *)

Lemma serve_deadline r k s now : serve_ready r k s -> timely now ->
  serve_past_deadline (s <| sv_now_ms := now |>) = false.
Proof.
  intros [] [_ Ht]. unfold serve_past_deadline, sv_budgets. sfields s. rewrite sr_plan0, sr_start0.
  apply Z.leb_gt. done.
Qed.

Ltac same_ready s := match goal with R : serve_ready _ _ s |- _ =>
  destruct R; split; sfields s; try done end.

Lemma provide_step r k s i now : serve_ready r k s -> sv_serving s = Some i -> 0 <= i < n ->
  0 <= k < n -> exists s' a, serve_provide_chunk i (read i) now s = Some (s', a) /\
    sa_kind a = Reply (Chunk i (read i)) /\ serve_ready r (k + 1) s' /\ sv_serving s' = None /\
    sv_queue s' = sv_queue s /\ sv_batch_done_sent s' = sv_batch_done_sent s.
Proof.
  intros R Hs Hi Hk. destruct (read_len i Hi) as [Hl Hb]. pose proof R as [].
  pose proof (chunk_count_pos g (ag_geometry_ok AG)) as Hn. rewrite <-(ag_count AG) in Hn.
  unfold serve_provide_chunk. rewrite bool_decide_false by (rewrite sr_finished0; by intros [? ?]).
  sfields s. rewrite Hs, bool_decide_true by done. cbn [negb]. rewrite sr_plan0, (ag_geometry AG), Hl.
  assert (as_u32 (blen (read i)) = blen (read i)) as ->
    by (apply Z.mod_small; media_ints).
  rewrite bool_decide_true by done. cbn [negb]. do 2 eexists. split; [done|]. split; [done|].
  split; [|done]. same_ready s.
  - rewrite sr_chunks0. unfold inc32, as_u32. apply Z.mod_small. lia.
  - media_ints.
Qed.

Lemma next_read_step r k s i q now : serve_ready r k s -> sv_serving s = None -> sv_queue s = i :: q ->
  0 <= i < n -> 0 <= k < n -> timely now -> exists s' a offset len, serve_next now s = Some (s', a) /\
    sa_kind a = ReadChunk i offset len /\ serve_ready r k s' /\ sv_serving s' = Some i /\
    sv_queue s' = q /\ sv_batch_done_sent s' = sv_batch_done_sent s.
Proof.
  intros R Hs Hq Hi Hk Ht. pose proof (serve_deadline r k s now R Ht) as Hd. pose proof R as [].
  destruct (read_len i Hi) as [Hl Hb]. unfold serve_next.
  rewrite bool_decide_false by (rewrite sr_finished0; by intros [? ?]). rewrite Hd.
  sfields s. rewrite Hs, bool_decide_false by (by intros [? ?]). rewrite Hq.
  pose proof (ag_chunks AG). pose proof (ag_serve_bytes AG).
  unfold sv_budgets. sfields s. rewrite sr_plan0, sr_chunks0.
  rewrite (proj2 (Z.leb_gt _ k)), (proj2 (Z.leb_gt _ (sv_bytes_served s)))
    by media_ints.
  cbn [orb]. unfold restate_read. sfields s. rewrite (ag_geometry AG), Hl.
  unfold chunk_ciphertext_offset. rewrite (proj2 (Z.ltb_lt _ _)) by (rewrite <-(ag_count AG); lia).
  cbn [mbind option_bind]. do 4 eexists. split; [done|]. split; [done|]. split; [|done]. same_ready s.
Qed.

Lemma next_done_step r k s now : serve_ready r k s -> sv_serving s = None -> sv_queue s = [] ->
  sv_batch_done_sent s = false -> 0 < r -> exists s' a, serve_next now s = Some (s', a) /\
    sa_kind a = Reply (BatchDone k) /\ serve_ready r k s' /\ sv_serving s' = None.
Proof.
  intros R Hs Hq Hb Hr. pose proof R as []. unfold serve_next.
  rewrite bool_decide_false by (rewrite sr_finished0; by intros [? ?]).
  sfields s. rewrite Hs, bool_decide_false by (by intros [? ?]). rewrite Hq, sr_challenged0, sr_fetches0, Hb.
  rewrite (proj2 (Z.ltb_lt _ _)) by done. cbn [andb negb].
  do 2 eexists. split; [done|]. split; [cbn; by rewrite <-sr_chunks0|]. split; [same_ready s|done].
Qed.

(** ** The requester's steps *)

Lemma ready_fields p : pull_ready p ->
  pl_blob_id (ps_plan p) = pl_blob_id plan /\ pl_blob_key (ps_plan p) = key /\
  pl_geometry (ps_plan p) = g /\ ps_budgets p = pl_budgets plan.
Proof. intros [Hp]. unfold ps_budgets. destruct plan. by injection Hp. Qed.

Lemma deadline_ready p : pull_ready p -> timely (ps_now_ms p) -> pull_past_deadline p = false.
Proof.
  intros R [Ht _]. destruct (ready_fields p R) as (_ & _ & _ & Hb). destruct R.
  unfold pull_past_deadline. rewrite Hb, pr_start0. by apply Z.leb_gt.
Qed.

Lemma resume_ready p act f now : pull_ready p -> timely now -> ps_outstanding p = Some act ->
  let p1 := p <| ps_now_ms := now |> in
  pull_resume (FrameResult (action_id act) f) now p = apply_frame f p1 /\ pull_ready p1 /\ timely (ps_now_ms p1).
Proof.
  intros R Ht Ho p1. assert (pull_ready p1) as R1 by (destruct R; split; subst p1; unfold ps_bitmap, gained, ps_bitmap in *; fields p; done).
  split; [|done]. unfold pull_resume. rewrite bool_decide_false by (rewrite (pr_finished p R); by intros [? ?]).
  fold p1. pose proof (deadline_ready p1 R1 Ht) as Hd. rewrite Hd.
  change (ps_outstanding p1) with (ps_outstanding p). rewrite Ho. cbn [result_id].
  by rewrite Z.eqb_refl.
Qed.

Lemma gained_bound p : pull_ready p -> gained p <= n - present (pl_bitmap plan) /\ 0 <= present (pl_bitmap plan).
Proof.
  intros []. unfold gained. pose proof (present_bounds _ pr_bitmap0). pose proof (present_bounds _ (ag_bitmap AG)). lia.
Qed.

Lemma chunk_step p i : pull_ready p -> timely (ps_now_ms p) -> 0 <= i < n -> has (ps_bitmap p) i = false ->
  existsb (fun range => range_contains range i) (ps_outstanding_ranges p) = true ->
  exists p' id, apply_frame (Chunk i (read i)) p = (p', mk_action id Await) /\ pull_ready p' /\
    gained p' = gained p + 1 /\ ps_requests_issued p' = ps_requests_issued p /\
    ps_outstanding_ranges p' = ps_outstanding_ranges p /\ ps_now_ms p' = ps_now_ms p /\
    forall j, 0 <= j -> has (ps_bitmap p') j = has (ps_bitmap p) j || (j =? i).
Proof.
  intros R Ht Hi Hh Hreq. pose proof R as [].
  destruct (ready_fields p R) as (_ & Hk & Hg & Hb). destruct (ag_read AG i Hi) as [pt Hopen].
  destruct (read_len i Hi) as [_ Hlen]. destruct (set_spec _ pr_bitmap0 i ltac:(lia)) as (Bs & Hcs & Hhs & Hchg).
  pose proof (set_present (ps_bitmap p) i) as Hpr.
  rewrite Hchg, Hh, (proj2 (Z.ltb_lt _ _)) in Hpr by lia. cbn in Hpr.
  pose proof (ag_bytes AG). destruct (gained_bound p R) as [Hgb Hg0].
  cbn [apply_frame]. unfold apply_chunk. fields p. rewrite Hreq. cbn [negb].
  match goal with |- context [has (ps_bitmap ?x) i] => change (ps_bitmap x) with (ps_bitmap p) end.
  rewrite Hh, Hk, Hg, Hopen.
  match goal with |- context [after_chunk ?x] => set (p' := x) end.
  assert (gained p' = gained p + 1) as Hgain.
  { unfold gained, ps_bitmap in *. subst p'. fields p. rewrite Hpr. lia. }
  assert (0 <= gained p') by lia.
  assert (gained p' <= n) as Hle.
  { unfold gained. pose proof (present_bounds _ Bs). unfold ps_bitmap in *. subst p'. fields p. lia. }
  assert (0 <= ps_bytes_received p' <= gained p' * CT) as Hby.
  { rewrite Hgain. subst p'. fields p. media_ints. }
  assert (pull_ready p') as R'.
  { split; subst p'; unfold ps_bitmap in *; fields p; try done. by rewrite Hcs. }
  exists p'. unfold after_chunk. destruct (ready_fields p' R') as (_ & _ & _ & ->).
  rewrite (proj2 (Z.ltb_ge _ _)) by media_ints. rewrite (deadline_ready p' R' Ht).
  unfold pull_restate. rewrite (pr_finished p' R'). destruct (pr_outstanding p' R') as [act ->].
  exists (action_id act). split_and!; try done. intros j Hj. unfold ps_bitmap in *. subst p'. fields p.
  by rewrite Hhs, (proj2 (Z.ltb_lt i _)), andb_true_r by lia.
Qed.

(** A count of batches that has earned its chunks is below any sufficient budget. *)
Lemma batches_left r k budget : r * batch <= k -> k < n -> n <= budget * batch -> r < budget.
Proof. intros. unfold batch in *. pose proof (ag_window AG). pose proof (ag_ranges AG). nia. Qed.

Lemma incomplete_gained p : pull_ready p -> is_complete (ps_bitmap p) = false ->
  gained p < n /\ 0 < missing p.
Proof.
  intros R Hc. destruct (gained_bound p R). destruct R. apply Z.eqb_neq in Hc. unfold gained, missing in *.
  pose proof (present_bounds _ pr_bitmap0). lia.
Qed.

Lemma next_fetch_step p : pull_ready p -> timely (ps_now_ms p) -> is_complete (ps_bitmap p) = false ->
  0 <= ps_requests_issued p -> ps_requests_issued p * batch <= gained p ->
  exists p' id rs q, next_fetch p =
      (p', mk_action id (Send (Fetch (pull_proof key (pl_blob_id plan) nonce) rs))) /\
    request_ok (ps_bitmap p) (pb_window_chunks (pl_budgets plan)) (pb_max_ranges (pl_budgets plan)) rs q /\
    pull_ready p' /\ ps_bitmap p' = ps_bitmap p /\ ps_outstanding_ranges p' = rs /\
    ps_requests_issued p' = ps_requests_issued p + 1 /\ ps_now_ms p' = ps_now_ms p /\
    ps_requests_issued p + 1 <= n.
Proof.
  intros R Ht Hc Hr0 Hr. destruct (incomplete_gained p R Hc) as [Hg _].
  destruct (ready_fields p R) as (_ & _ & _ & Hb). pose proof R as [].
  pose proof (ag_window AG) as Hw. pose proof (ag_ranges AG) as Hm.
  pose proof (batches_left _ _ _ Hr Hg (ag_requests AG)) as Hleft.
  pose proof (chunk_count_pos g (ag_geometry_ok AG)) as Hn. rewrite <-(ag_count AG) in Hn.
  assert (ps_requests_issued p < n) as Hrn by (unfold batch in *; nia).
  pose proof (missing_ranges_request (ps_bitmap p) (pb_window_chunks (pl_budgets plan))
    (pb_max_ranges (pl_budgets plan)) pr_bitmap0 Hw ltac:(lia) Hc) as Q.
  pose proof (ag_bytes AG). unfold next_fetch. rewrite Hc, Hb, (deadline_ready p R Ht), pr_proof0.
  rewrite (proj2 (Z.leb_gt _ (ps_requests_issued p))) by done.
  rewrite (proj2 (Z.leb_gt _ (ps_bytes_received p))) by media_ints.
  rewrite bool_decide_false by apply (rq_some _ _ _ _ _ Q).
  do 4 eexists. split; [done|]. split; [exact Q|]. split; [|split_and!; try done; [|lia]].
  - split; unfold ps_bitmap, gained, ps_bitmap in *; fields p; done.
  - fields p. unfold inc32, as_u32. apply Z.mod_small. lia.
Qed.

Lemma serve_fetch_step r k s now p rs q : serve_ready r k s -> sv_serving s = None -> timely now ->
  pull_ready p -> is_complete (ps_bitmap p) = false -> k = gained p -> 0 <= r -> r * batch <= k ->
  request_ok (ps_bitmap p) (pb_window_chunks (pl_budgets plan)) (pb_max_ranges (pl_budgets plan)) rs q ->
  exists s' a i q' offset len, q = i :: q' /\
    serve_on_frame (Fetch (pull_proof key (pl_blob_id plan) nonce) rs) now s = Some (s', a) /\
    sa_kind a = ReadChunk i offset len /\ serve_ready (r + 1) k s' /\ sv_serving s' = Some i /\
    sv_queue s' = q' /\ sv_batch_done_sent s' = false.
Proof.
  intros R Hs Ht P Hc -> Hr0 Hr Q. pose proof (serve_deadline _ _ s now R Ht) as Hd.
  destruct (incomplete_gained p P Hc) as [Hg _]. pose proof (pr_gained p P) as Hg0.
  pose proof (batches_left _ _ _ Hr Hg (ag_fetches AG)) as Hleft.
  pose proof (ag_window AG). pose proof (ag_ranges AG).
  pose proof (chunk_count_pos g (ag_geometry_ok AG)) as Hn. rewrite <-(ag_count AG) in Hn.
  assert (r < n) as Hrn by (unfold batch in *; nia).
  pose proof R as []. pose proof Q as [Hex Htyped Hin Hfew [Hrs Hq] Hnd Hmiss _].
  rewrite (pr_count p P) in Hin, Hmiss.
  unfold serve_on_frame. rewrite bool_decide_false by (rewrite sr_finished0; by intros [? ?]).
  rewrite Hd. unfold apply_fetch. sfields s. rewrite sr_challenged0. cbn [negb].
  rewrite sr_plan0, sr_nonce0, (ag_key AG), (ag_id AG).
  rewrite (proj2 (pull_proof_exact L _ _ _ _ (pull_proof_len _ _ _)) eq_refl). cbn [negb].
  unfold sv_budgets. sfields s. rewrite sr_fetches0, (proj2 (Z.leb_gt _ r)) by done.
  rewrite bool_decide_false by done.
  assert (as_u32 (blen rs) = blen rs) as ->.
  { apply Z.mod_small. pose proof (blen_nonneg rs). unfold PULL_MAX_RANGES_PER_FETCH in *. lia. }
  rewrite (proj2 (Z.ltb_ge _ _)) by lia. cbn [orb].
  destruct (queue_ranges splan rs ([], sv_chunks_skipped s)) as [skipped queued] eqn:Eq.
  assert (queued = Some q) as ->.
  { change queued with (skipped, queued).2. rewrite <-Eq. apply queue_ranges_some; [done|].
    split.
    - unfold range_ok. by rewrite (ag_geometry AG), <-(ag_count AG).
    - cbn [fst app]. unfold requested_held. rewrite Hex. symmetry. apply forallb_filter_id, forallb_forall.
      intros j Hj%list_elem_of_In. rewrite Forall_forall in Hmiss. destruct (Hmiss j Hj) as [? _]. by apply held_all. }
  destruct q as [|i q']; [done|]. apply Forall_cons in Hmiss as [(Hi & _) _].
  match goal with |- context [serve_next ?t ?x] => set (s1 := x); change t with now end.
  assert (serve_ready (r + 1) (gained p) s1) as R1.
  { split; subst s1; sfields s; try done. unfold inc32, as_u32. apply Z.mod_small. lia. }
  destruct (next_read_step (r + 1) (gained p) s1 i q' now R1) as (s' & a & offset & len & H'); try done.
  exists s', a, i, q', offset, len. split; [done|]. destruct H' as (? & ? & ? & ? & ? & Hb). done.
Qed.

Lemma missing_incomplete p i : pull_ready p -> 0 <= i < n -> has (ps_bitmap p) i = false ->
  is_complete (ps_bitmap p) = false.
Proof.
  intros P Hi Hh. apply Bool.not_true_iff_false. intros Hc. rewrite (complete_spec _ (pr_bitmap p P)) in Hc.
  rewrite Hc in Hh; [done|by rewrite (pr_count p P)].
Qed.

(** ** The link's steps *)

Lemma serving_step i q l t1 t2 : serving i q l -> timely t1 -> timely t2 ->
  exists l', link_run read [t1; t2] l = Some l' /\ missing (lk_pull l') = missing (lk_pull l) - 1 /\
    match q with [] => batch_end l' | i' :: q' => serving i' q' l' end.
Proof.
  intros S H1 H2. destruct l as [p s a]. pose proof S as [P R (offset & len & Ha) Hs Hq Hb Hm Hnd Hreq Hacc].
  cbn [lk_pull lk_serve lk_pending] in *. apply Forall_cons in Hm as [(Hi & Hh & Hr) Hm].
  apply NoDup_cons in Hnd as [Hni Hnd].
  destruct (incomplete_gained p P (missing_incomplete p i P Hi Hh)) as [Hg _]. pose proof (pr_gained p P) as Hg0.
  cbn [link_run link_step]. rewrite Ha.
  destruct (provide_step _ _ s i t1 R Hs Hi ltac:(lia)) as (s1 & a1 & -> & Ha1 & R1 & Hs1 & Hq1 & Hb1).
  cbn [mbind option_bind link_step]. rewrite Ha1. destruct (pr_outstanding p P) as [act Hact]. rewrite Hact.
  destruct (resume_ready p act (Chunk i (read i)) t2 P H2 Hact) as (-> & P1 & Ht1).
  destruct (chunk_step _ i P1 Ht1 Hi Hh Hr) as (p2 & id & -> & P2 & Hg2 & Hreq2 & Hor2 & _ & Hhas).
  cbn [action_kind]. change (gained (p <| ps_now_ms := t2 |>)) with (gained p) in Hg2.
  change (ps_requests_issued (p <| ps_now_ms := t2 |>)) with (ps_requests_issued p) in Hreq2.
  change (ps_outstanding_ranges (p <| ps_now_ms := t2 |>)) with (ps_outstanding_ranges p) in Hor2.
  change (ps_bitmap (p <| ps_now_ms := t2 |>)) with (ps_bitmap p) in Hhas.
  assert (missing p2 = missing p - 1) as Hmiss by (unfold missing, gained in *; lia).
  rewrite blen_cons in Hacc. destruct q as [|i' q'].
  - destruct (next_done_step _ _ s1 t2 R1 Hs1) as (s2 & a2 & -> & Ha2 & R2 & Hs2); [congruence..|lia|].
    cbn [mbind option_bind]. eexists. split; [done|]. split; [done|].
    split; cbn [lk_pull lk_serve lk_pending]; rewrite ?Hreq2, ?Hg2; try done; [by eexists|lia|].
    rewrite Hmiss. change (blen []) with 0 in Hacc. lia.
  - apply Forall_cons in Hm as [Hi' Hm]. assert (gained p + 1 < n) as Hlt.
    { destruct Hi' as (Hi' & Hhi' & _). destruct (incomplete_gained p2 P2) as [? _]; [|lia].
      apply (missing_incomplete p2 i'); [done|done|]. rewrite Hhas, Hhi' by lia.
      apply Z.eqb_neq. intros ->. apply Hni. left. }
    destruct (next_read_step _ _ s1 i' q' t2 R1 Hs1) as (s2 & a2 & off2 & len2 & -> & Ha2 & R2 & Hs2 & Hq2 & Hb2);
      [congruence|apply Hi'|lia|done|].
    cbn [mbind option_bind]. eexists. split; [done|]. split; [done|].
    split; cbn [lk_pull lk_serve lk_pending]; rewrite ?Hreq2, ?Hg2, ?Hor2; try done; [by do 2 eexists|congruence| |].
    + assert (Forall (fun j => j <> i) (i' :: q')) as Hne.
      { apply Forall_forall. intros j Hj ->. done. }
      apply Forall_forall. intros j Hj. rewrite Forall_forall in Hne, Hm.
      rewrite Hhas, (proj2 (Z.eqb_neq j i)), orb_false_r by (try apply Hne; try done; set_solver by lia).
      apply elem_of_cons in Hj as [->|Hj]; [done|by apply Hm].
    + rewrite Hmiss. lia.
Qed.

Lemma closing_step now s : serve_ready (sv_fetches_answered s) (sv_chunks_served s) s -> timely now ->
  exists s' a sm, serve_on_frame Close now s = Some (s', a) /\ sa_kind a = ServeFinished sm.
Proof.
  intros R Ht. pose proof (serve_deadline _ _ s now R Ht) as Hd. destruct R. unfold serve_on_frame.
  rewrite bool_decide_false by (rewrite sr_finished0; by intros [? ?]). rewrite Hd. by do 3 eexists.
Qed.

(** The requester asks for more, and the holder starts reading. *)
Lemma fetch_exchange p1 s now : pull_ready p1 -> timely (ps_now_ms p1) -> timely now ->
  is_complete (ps_bitmap p1) = false -> 0 <= ps_requests_issued p1 ->
  ps_requests_issued p1 * batch <= gained p1 ->
  serve_ready (ps_requests_issued p1) (gained p1) s -> sv_serving s = None ->
  exists p' id f s' a i q, next_fetch p1 = (p', mk_action id (Send f)) /\
    serve_on_frame f now s = Some (s', a) /\ serving i q (mk_link p' s' a) /\
    missing p' = missing p1.
Proof.
  intros P Ht Hnow Hc Hr0 Hacc R Hs.
  destruct (next_fetch_step p1 P Ht Hc Hr0 Hacc) as (p' & id & rs & q & -> & Q & P' & Hbm & Hrs & Hreq & _ & Hle).
  destruct (serve_fetch_step _ _ s now p1 rs q R Hs Hnow P Hc eq_refl Hr0 Hacc Q)
    as (s' & a & i & q' & off & len & -> & Hf & Ha & R' & Hs' & Hq' & Hb').
  exists p', id, (Fetch (pull_proof key (pl_blob_id plan) nonce) rs), s', a, i, q'.
  split; [done|]. split; [done|]. destruct Q as [_ _ _ _ _ Hnd Hm Henough]. rewrite (pr_count p1 P) in Hm, Henough.
  assert (gained p' = gained p1 /\ missing p' = missing p1) as [Hg Hmi] by (unfold gained, missing; by rewrite Hbm).
  split; [|done]. split; cbn [lk_pull lk_serve lk_pending]; rewrite ?Hreq, ?Hg, ?Hmi, ?Hbm, ?Hrs; try done.
  - by do 2 eexists.
  - lia.
  - destruct Henough as [He|He]; [left; exact He|right]. fold batch in He. lia.
Qed.

Lemma batch_end_step l now : batch_end l -> timely now ->
  exists l', link_step read now l = Some l' /\
    (missing (lk_pull l) = 0 -> transferred l') /\
    (missing (lk_pull l) <> 0 -> missing (lk_pull l') = missing (lk_pull l) /\ exists i q, serving i q l').
Proof.
  intros E Ht. destruct l as [p s a]. pose proof E as [P R (k & Ha) Hs Hr Hacc]. cbn [lk_pull lk_serve lk_pending] in *.
  cbn [link_step]. rewrite Ha. destruct (pr_outstanding p P) as [act Hact]. rewrite Hact.
  destruct (resume_ready p act (BatchDone k) now P Ht Hact) as (-> & P1 & Ht1).
  set (p1 := (p <| ps_now_ms := now |>) <| ps_outstanding_ranges := [] |>).
  assert (pull_ready p1) as P1' by (destruct P1; split; done).
  assert (is_complete (ps_bitmap p1) = (missing p =? 0)) as Hmc.
  { change (ps_bitmap p1) with (ps_bitmap p). unfold is_complete, missing. rewrite (pr_count p P).
    apply Bool.eq_true_iff_eq. rewrite !Z.eqb_eq. lia. }
  cbn [apply_frame]. fold p1. destruct (Z.eqb_spec (missing p) 0) as [Hm|Hm]; rewrite Hmc.
  - cbn [pull_finish action_kind]. destruct (closing_step now s) as (s' & a' & sm & -> & Hsm); [|done|].
    { destruct R. split; try done. by rewrite sr_chunks0. }
    cbn [mbind option_bind]. eexists. split; [done|]. split; [|done]. intros _.
    split; cbn [lk_pull lk_pending]; [by eexists|exact Hmc|by eexists].
  - destruct (fetch_exchange p1 s now P1') as (p' & id & f & s' & a' & i & q & -> & Hf & S & Hmi); try done.
    { by destruct Hacc. }
    cbn [action_kind]. rewrite Hf. cbn [mbind option_bind]. eexists. split; [done|]. split; [done|].
    intros _. split; [exact Hmi|by exists i, q].
Qed.

(** ** The whole transfer *)

Lemma link_run_app nows nows' l :
  link_run read (nows ++ nows') l = (l' ← link_run read nows l; link_run read nows' l').
Proof.
  revert l. induction nows as [|t nows IH]; intros l; [done|]. cbn [app link_run].
  destruct (link_step read t l) as [l1|]; [apply IH|done].
Qed.

Definition ends_well (nows : list Z) (l : Link) : Prop :=
  exists l', link_run read nows l = Some l' /\ transferred l'.

Lemma transferred_stays nows l : transferred l -> ends_well nows l.
Proof.
  intros T. exists l. split; [|done]. induction nows as [|t nows IH]; [done|]. cbn [link_run].
  destruct T as [_ _ (sm & Ha)]. destruct l as [p s a]. cbn [lk_pending] in Ha. cbn [link_step].
  by rewrite Ha.
Qed.

Lemma serving_missing i q l : serving i q l -> 0 < missing (lk_pull l).
Proof.
  intros [P _ _ _ _ _ Hm _ _ _]. apply Forall_cons in Hm as [(Hi & Hh & _) _].
  apply incomplete_gained; [done|by eapply missing_incomplete].
Qed.

(** Two exchanges per chunk and one per batch. *)
Lemma ends_well_from m : forall l nows, Forall timely nows -> missing (lk_pull l) = Z.of_nat m ->
  ((exists i q, serving i q l) -> (3 * m <= length nows)%nat -> ends_well nows l) /\
  (batch_end l -> (3 * m + 1 <= length nows)%nat -> ends_well nows l).
Proof.
  induction m as [m IH] using lt_wf_ind.
  assert (forall l nows, Forall timely nows -> missing (lk_pull l) = Z.of_nat m ->
    (exists i q, serving i q l) -> (3 * m <= length nows)%nat -> ends_well nows l) as HS.
  { intros l nows Ht Hm (i & q & S) Hlen. pose proof (serving_missing i q l S) as Hpos.
    destruct nows as [|t1 [|t2 nows]]; cbn [length] in Hlen; [lia..|].
    apply Forall_cons in Ht as [H1 [H2 Ht]%Forall_cons].
    destruct (serving_step i q l t1 t2 S H1 H2) as (l' & Hl' & Hm' & Hnext).
    destruct (IH (m - 1)%nat ltac:(lia) l' nows Ht ltac:(lia)) as [IHs IHe].
    assert (ends_well nows l') as (l2 & Hl2 & T).
    { destruct q as [|i' q']; [apply IHe; [done|lia]|apply IHs; [by exists i', q'|lia]]. }
    exists l2. split; [|done]. change (t1 :: t2 :: nows) with ([t1; t2] ++ nows).
    by rewrite link_run_app, Hl'. }
  intros l nows Ht Hm. split; [by apply HS|]. intros E Hlen. destruct nows as [|t nows]; cbn [length] in Hlen; [lia|].
  apply Forall_cons in Ht as [H1 Ht]. destruct (batch_end_step l t E H1) as (l' & Hl' & Hdone & Hmore).
  assert (ends_well nows l') as (l2 & Hl2 & T).
  { destruct (decide (m = 0%nat)) as [->|Hne]; [apply transferred_stays, Hdone; lia|].
    destruct (Hmore ltac:(lia)) as [Hm' HS']. apply HS; [done|lia|done|lia]. }
  exists l2. split; [|done]. cbn [link_run]. by rewrite Hl'.
Qed.

(** After the opening, the challenge is on the link. *)
Lemma start_link : is_complete (pl_bitmap plan) = false -> timely t0 ->
  exists p s a act, link_start plan t0 (serve_new splan nonce ts) = Some (mk_link p s a) /\
    sa_kind a = Reply (Challenge nonce n) /\ serve_ready 0 0 s /\ sv_serving s = None /\
    p = (pull_new plan) <| ps_started := true |> <| ps_started_at_ms := t0 |> <| ps_now_ms := t0 |>
          <| ps_next_action_id := 2 |> <| ps_outstanding := Some act |>.
Proof.
  intros Hc [_ Ht]. unfold link_start, pull_start. cbn. unfold ps_bitmap. cbn. rewrite Hc. cbn.
  pose proof (ag_held_count AG) as Hn. pose proof (ag_complete AG) as Hh. apply Z.eqb_eq in Hh.
  pose proof (bk_count _ (ag_bitmap AG)).
  unfold serve_on_frame, serve_past_deadline, sv_budgets. cbn. rewrite (proj2 (Z.leb_gt _ _)) by done.
  rewrite (ag_id AG), bool_decide_true, Hh, Hn, (proj2 (Z.eqb_neq _ _)) by (done || lia). cbn.
  do 4 eexists. split; [done|]. split; [done|]. split; [|by split].
  split; done.
Qed.

Lemma challenge_step t : is_complete (pl_bitmap plan) = false -> timely t0 -> timely t ->
  exists l0 l, link_start plan t0 (serve_new splan nonce ts) = Some l0 /\
    link_step read t l0 = Some l /\ missing (lk_pull l) = n - present (pl_bitmap plan) /\
    exists i q, serving i q l.
Proof.
  intros Hc Ht0 Ht. destruct (start_link Hc Ht0) as (p & s & a & act & -> & Ha & R & Hs & ->).
  match goal with |- context [Some ?l] => exists l end.
  pose proof (bk_count _ (ag_bitmap AG)) as Hn.
  set (p1 := mk_pull plan true t0 t 2 (Some act) (Some nonce)
    (Some (pull_proof key (pl_blob_id plan) nonce)) [] [] None 0 0 0 0 0 0).
  assert (pull_ready p1) as P1.
  { split; cbn; try done; try apply AG; [by destruct plan|..];
      unfold gained, ps_bitmap; cbn; rewrite Z.sub_diag; done. }
  destruct (fetch_exchange p1 s t P1) as (p' & id & f & s' & a' & i & q & Hnf & Hf & S & Hm); try done.
  { unfold gained, ps_bitmap. cbn. lia. }
  { unfold gained, ps_bitmap. cbn. by rewrite Z.sub_diag. }
  exists (mk_link p' s' a'). split; [done|]. split; [|split; [exact Hm|by exists i, q]].
  cbn [link_step]. rewrite Ha. change (ps_outstanding _) with (Some act). cbn match.
  assert (pull_resume (FrameResult (action_id act) (Challenge nonce n)) t
    ((pull_new plan) <| ps_started := true |> <| ps_started_at_ms := t0 |> <| ps_now_ms := t0 |>
          <| ps_next_action_id := 2 |> <| ps_outstanding := Some act |>) = next_fetch p1) as ->.
  { unfold pull_resume, pull_past_deadline, ps_budgets. cbn. rewrite Z.eqb_refl. cbn.
    destruct Ht as [Ht _]. rewrite (proj2 (Z.leb_gt _ _)) by exact Ht. cbn.
    by rewrite (proj2 (Z.eqb_neq _ _)) by lia. }
  rewrite Hnf. cbn [action_kind]. by rewrite Hf.
Qed.

End transfer.

(** The default budgets cover every blob of at most 191 chunks (just under
    48 MiB) in one session. *)
Lemma default_budgets_suffice m : m <= 191 ->
  m <= pb_max_requests default_pull_budgets
         * Z.min (pb_window_chunks default_pull_budgets) (pb_max_ranges default_pull_budgets) /\
  m * MEDIA_CHUNK_CIPHERTEXT_BYTES <= pb_max_bytes default_pull_budgets /\
  m <= sb_max_fetches default_serve_budgets
         * Z.min (pb_window_chunks default_pull_budgets) (pb_max_ranges default_pull_budgets) /\
  m <= sb_max_chunks default_serve_budgets /\
  m * MEDIA_CHUNK_CIPHERTEXT_BYTES <= sb_max_bytes default_serve_budgets.
Proof.
  intros Hm. unfold MEDIA_CHUNK_CIPHERTEXT_BYTES, MEDIA_CHUNK_PLAINTEXT_BYTES, MEDIA_AEAD_TAG_BYTES.
  cbn. unfold PULL_MAX_REQUESTS, PULL_WINDOW_CHUNKS, PULL_MAX_RANGES_PER_FETCH, PULL_MAX_SESSION_BYTES,
    SERVE_MAX_FETCHES, SERVE_MAX_CHUNKS, SERVE_MAX_SESSION_BYTES. lia.
Qed.

(** * Claims *)

(** C13: Two devices that hold the same manifest, one of them with every chunk,
    complete the transfer: with budgets that cover the blob and a clock that stays
    within both deadlines, the requester ends complete, with every chunk present,
    after at most three exchanges per missing chunk and one for the challenge. *)
Theorem transfer_completes `{C : Crypto} `{A : Aead} (L : CryptoLaws C) read plan splan nonce t0 ts nows :
  agreed read plan splan -> is_complete (pl_bitmap plan) = false ->
  timely plan splan t0 ts t0 -> Forall (timely plan splan t0 ts) nows ->
  3 * (chunk_count (pl_bitmap plan) - present (pl_bitmap plan)) + 1 <= blen nows ->
  exists l0 l sm, link_start plan t0 (serve_new splan nonce ts) = Some l0 /\
    link_run read nows l0 = Some l /\
    ps_finished (lk_pull l) = Some sm /\ sm_outcome sm = PullComplete /\
    is_complete (ps_bitmap (lk_pull l)) = true.
Proof.
  intros AG Hc Ht0 Ht Hlen. pose proof (present_bounds _ (ag_bitmap _ _ _ AG)) as Hp.
  destruct nows as [|t nows]; [unfold blen in Hlen; cbn in Hlen; lia|].
  rewrite blen_cons in Hlen. apply Forall_cons in Ht as [Ht1 Ht].
  destruct (challenge_step L read plan splan nonce t0 ts AG t Hc Ht0 Ht1) as (l0 & l1 & Hl0 & Hl1 & Hm & S).
  destruct (ends_well_from L read plan splan nonce t0 ts AG
    (Z.to_nat (chunk_count (pl_bitmap plan) - present (pl_bitmap plan))) l1 nows Ht) as [HS _]; [lia|].
  destruct (HS S) as (l & Hl & [(sm & Hf & Ho) Hcl _]); [unfold blen in Hlen; lia|].
  exists l0, l, sm. split; [done|]. split; [|done]. cbn [link_run]. by rewrite Hl1.
Qed.

(** ** Witness: a one-chunk blob under the default budgets *)

Definition one_plan : PullPlan :=
  mk_plan (replicate 32 x01) [x07] one_geometry (mk_bitmap 1 0 [x00]) default_pull_budgets.

Lemma one_bitmap_ok p b : from_bytes 1 [b] = Ok (mk_bitmap 1 p [b]) -> bitmap_ok (mk_bitmap 1 p [b]).
Proof. intros H. apply from_bytes_ok in H; [apply H|ints]. Qed.

Lemma one_agreed : agreed (A := toy_aead) one_read one_plan one_splan.
Proof.
  pose proof (default_budgets_suffice 1 ltac:(lia)) as (? & ? & ? & ? & ?).
  split; try done.
  - by apply one_bitmap_ok.
  - by apply one_bitmap_ok.
  - intros i Hi. cbn in Hi. assert (i = 0) as -> by lia. eexists. vm_compute. reflexivity.
Qed.

Lemma transfer_completes_witness :
  exists l0 l sm,
    link_start (C := toy_crypto) one_plan 0 (serve_new one_splan (replicate 16 x09) 0) = Some l0 /\
    link_run (C := toy_crypto) (A := toy_aead) one_read [1; 2; 3; 4] l0 = Some l /\
    ps_finished (lk_pull l) = Some sm /\ sm_outcome sm = PullComplete /\
    is_complete (ps_bitmap (lk_pull l)) = true.
Proof.
  apply (transfer_completes (C := toy_crypto) (A := toy_aead) toy_laws one_read one_plan one_splan
    (replicate 16 x09) 0 0 [1; 2; 3; 4] one_agreed).
  - reflexivity.
  - split; vm_compute; reflexivity.
  - repeat (constructor; [split; vm_compute; reflexivity|]). constructor.
  - vm_compute. discriminate.
Defined.
