(* ===== verification/RelayPolicy.v ===== *)
(** How a phone treats the relays it talks to ([core/src/relay_status.rs],
    [core/src/session/relay_policy.rs], [core/src/contact_relay_health.rs] and the
    relay-health columns of [contacts] in [core/src/store.rs]).

    A family shares one request budget, so pacing, the quiet window after a 429,
    the pending rerun and the health a pass earns are decided here and nowhere
    else.  A mutex-guarded counter of the source is a state threaded through its
    operations. *)
From stdpp Require Import base numbers list gmap strings sorting.
From S2P Require Import Prelude StdModel Wire Crypto.

(** * Classified rejections ([relay_status.rs]) *)

Inductive CoreRelayFault : Type :=
| PassExpired | PassSuspended | TokenRejected | MailboxFull | MessageTooLarge
| RateLimited | MsgIdConflict | Outage.

#[global] Instance CoreRelayFault_eq_dec : EqDecision CoreRelayFault.
Proof. solve_decision. Defined.

Definition str (s : string) : bytes := String.list_byte_of_string s.

(** The stable code of the body wins over the status. *)
Definition relay_classify_http_error (http_status : Z) (relay_code : option bytes) : CoreRelayFault :=
  if bool_decide (relay_code = Some (str "family_expired")) then PassExpired
  else if bool_decide (relay_code = Some (str "family_suspended")) then PassSuspended
  else if bool_decide (relay_code = Some (str "family_quota_exceeded")) then MailboxFull
  else if bool_decide (relay_code = Some (str "envelope_too_large")) then MessageTooLarge
  else if bool_decide (relay_code = Some (str "rate_limited")) then RateLimited
  else if bool_decide (relay_code = Some (str "msg_id_conflict")) then MsgIdConflict
  else if (http_status =? 401) || (http_status =? 403) then TokenRejected
  else if http_status =? 507 then MailboxFull
  else if http_status =? 413 then MessageTooLarge
  else if http_status =? 429 then RateLimited
  else if http_status =? 409 then MsgIdConflict
  else Outage.

Definition relay_fault_is_transient (fault : CoreRelayFault) : bool :=
  match fault with
  | RateLimited | MsgIdConflict | Outage => true
  | PassExpired | PassSuspended | TokenRejected | MailboxFull | MessageTooLarge => false
  end.

Definition relay_fault_rank (fault : CoreRelayFault) : Z :=
  match fault with
  | PassSuspended => 7 | PassExpired => 6 | TokenRejected => 5 | MailboxFull => 4
  | MessageTooLarge => 3 | RateLimited => 2 | Outage => 1 | MsgIdConflict => 0
  end.

Definition DEFAULT_SECONDS : Z := 30.
Definition MAX_SECONDS : Z := 60.

Definition relay_retry_after_ms (retry_after_header : option bytes) : Z :=
  let seconds := default DEFAULT_SECONDS ((trim <$> retry_after_header) ≫= parse_u64) in
  Z.max 1 (Z.min MAX_SECONDS seconds) * 1000.

(** * Network cost policy ([relay_policy.rs]) *)

Inductive CoreRelayRoaming : Type := RoamingYes | RoamingNo | RoamingUnknown.

Inductive CoreRelayNetworkVerdict : Type := Permitted | DeferredRoaming | DeferredConstrained.

Definition core_relay_network_permitted (roaming : CoreRelayRoaming)
  (constrained user_allows_roaming : bool) : CoreRelayNetworkVerdict :=
  match roaming, user_allows_roaming with
  | RoamingYes, false => DeferredRoaming
  | _, _ => if constrained then DeferredConstrained else Permitted
  end.

(** * Pacing *)

Definition FAMILY_RELAY_REQUEST_INTERVAL_MS : Z := 500.
Definition FAMILY_RELAY_BACKOFF_BASE_MS : Z := 1000.
Definition FAMILY_RELAY_BACKOFF_CAP_MS : Z := 60000.
Definition FAMILY_RELAY_JITTER_WINDOW_MS : Z := 1000.
Definition FAMILY_RELAY_BACKOFF_MAX_EXPONENT : Z := 6.
Definition FAMILY_RELAY_JITTER_CONTEXT : bytes := str "cruisemesh family relay backoff jitter v1".

Record CoreFamilyRelayPacer : Type := mk_pacer {
  interval_ms : Z;
  next_request_at_ms : Z;
}.

Definition with_interval_ms (interval_ms : Z) : CoreFamilyRelayPacer :=
  mk_pacer (Z.max interval_ms 0) 0.

Definition new_pacer : CoreFamilyRelayPacer := with_interval_ms FAMILY_RELAY_REQUEST_INTERVAL_MS.

(** Claims the next slot; answers the wait before it. *)
Definition reserve (p : CoreFamilyRelayPacer) (now_ms : Z) : CoreFamilyRelayPacer * Z :=
  let request_at_ms := Z.max now_ms (next_request_at_ms p) in
  (mk_pacer (interval_ms p) (i64_saturating_add request_at_ms (interval_ms p)),
   i64_saturating_sub request_at_ms now_ms).

(** * Backoff *)

Section backoff.
Context `{C : Crypto}.

Definition core_family_relay_jitter_ms (identity_public_bytes : bytes) : Z :=
  be_value (blake2b 8 (FAMILY_RELAY_JITTER_CONTEXT
                       ++ be_bytes 8 (blen identity_public_bytes) ++ identity_public_bytes))
  mod (FAMILY_RELAY_JITTER_WINDOW_MS + 1).

Definition core_family_relay_backoff_delay_ms (retry_after_ms consecutive_rate_limits jitter_ms : Z) : Z :=
  let exponent := Z.min (Z.max 0 (consecutive_rate_limits - 1)) FAMILY_RELAY_BACKOFF_MAX_EXPONENT in
  let exponential_ms := Z.min (Z.shiftl FAMILY_RELAY_BACKOFF_BASE_MS exponent) FAMILY_RELAY_BACKOFF_CAP_MS in
  let floor_ms := Z.max retry_after_ms exponential_ms in
  u64_saturating_add floor_ms jitter_ms.

Definition core_family_relay_backoff_cap_ms : Z := FAMILY_RELAY_BACKOFF_CAP_MS.

(** [CoreFamilyRelayBackoff]: the count of consecutive 429s. *)
Record CoreFamilyRelayBackoff : Type := mk_backoff { consecutive_rate_limits : Z }.

Definition new_backoff : CoreFamilyRelayBackoff := mk_backoff 0.

Definition on_rate_limited (b : CoreFamilyRelayBackoff) (retry_after_ms : Z) (identity_public_bytes : bytes)
  : CoreFamilyRelayBackoff * Z :=
  let consecutive := u32_saturating_add (consecutive_rate_limits b) 1 in
  (mk_backoff consecutive,
   core_family_relay_backoff_delay_ms retry_after_ms consecutive
     (core_family_relay_jitter_ms identity_public_bytes)).

Definition on_successful_pass (b : CoreFamilyRelayBackoff) : CoreFamilyRelayBackoff := mk_backoff 0.

End backoff.

(** * Pending rerun and pass health *)

Inductive CoreRelayRerunAction : Type := RunAgain | ScheduleRateLimitRetry | Stop.

#[global] Instance CoreRelayRerunAction_eq_dec : EqDecision CoreRelayRerunAction.
Proof. solve_decision. Defined.

Definition core_relay_rerun_action (pending_requested can_sync : bool) (backoff_remaining_ms : Z)
  : CoreRelayRerunAction :=
  if negb pending_requested || negb can_sync then Stop
  else if 0 <? backoff_remaining_ms then ScheduleRateLimitRetry
  else RunAgain.

Inductive CoreRelayPassHealth : Type :=
| HealthOk | QuotaFull | HealthMessageTooLarge | HealthRateLimited | HealthExpired | ExpiredReadOnly
| HealthSuspended | HealthTokenRejected | Failing.

#[global] Instance CoreRelayPassHealth_eq_dec : EqDecision CoreRelayPassHealth.
Proof. solve_decision. Defined.

Definition core_worse_relay_fault (current : option CoreRelayFault) (observed : CoreRelayFault)
  : CoreRelayFault :=
  match current with
  | None => observed
  | Some current => if relay_fault_rank current <? relay_fault_rank observed then observed else current
  end.

Definition core_relay_pass_health (fault : option CoreRelayFault)
  (own_relay_succeeded any_relay_succeeded : bool) : CoreRelayPassHealth :=
  match fault with
  | Some MailboxFull => QuotaFull
  | Some MessageTooLarge => HealthMessageTooLarge
  | Some RateLimited => HealthRateLimited
  | Some PassExpired =>
      if own_relay_succeeded && any_relay_succeeded then ExpiredReadOnly else HealthExpired
  | _ =>
      if own_relay_succeeded && any_relay_succeeded then HealthOk
      else match fault with
           | Some PassSuspended => HealthSuspended
           | Some TokenRejected => HealthTokenRejected
           | _ => Failing
           end
  end.

(** * The exported conformance tables

    The rows the Rust, Android and Swift suites all read. *)

Record CoreRelayBackoffVector : Type := backoff_vector {
  bv_name : string;
  bv_retry_after_ms : Z;
  bv_consecutive_rate_limits : Z;
  bv_jitter_ms : Z;
  bv_expected_delay_ms : Z;
}.

Definition core_family_relay_backoff_vectors : list CoreRelayBackoffVector :=
  [backoff_vector "first-429-base-window" 0 1 0 1000;
   backoff_vector "second-429-doubles" 0 2 0 2000;
   backoff_vector "third-429-doubles-again" 0 3 0 4000;
   backoff_vector "seventh-429-reaches-the-cap" 0 7 0 60000;
   backoff_vector "hundredth-429-still-capped" 1000 100 0 60000;
   backoff_vector "saturating-count-still-capped" 0 U32_MAX 0 60000;
   backoff_vector "retry-after-floor-beats-base" 15000 1 0 15000;
   backoff_vector "exponential-beats-a-small-retry-after" 1000 6 0 32000;
   backoff_vector "retry-after-above-the-cap-still-wins" 90000 100 0 90000;
   backoff_vector "zero-count-reads-as-the-first" 0 0 0 1000;
   backoff_vector "jitter-adds-on-top-of-the-floor" 15000 1 999 15999;
   backoff_vector "jitter-adds-on-top-of-the-cap" 0 7 1000 61000;
   backoff_vector "absurd-retry-after-saturates" U64_MAX 1 1000 U64_MAX].

Record CoreRelayPacerVector : Type := pacer_vector {
  pv_name : string;
  pv_now_ms : Z;
  pv_expected_wait_ms : Z;
}.

(** Applied in order to one pacer. *)
Definition core_family_relay_pacer_vectors : list CoreRelayPacerVector :=
  [pacer_vector "first-request-goes-now" 10000 0;
   pacer_vector "second-request-waits-a-full-interval" 10000 500;
   pacer_vector "third-request-waits-out-the-queue-not-the-interval" 10250 750;
   pacer_vector "a-lapsed-reservation-costs-nothing" 12000 0;
   pacer_vector "and-paces-again-from-there" 12000 500].

Record CoreRelayRerunVector : Type := rerun_vector {
  rv_name : string;
  rv_pending_requested : bool;
  rv_can_sync : bool;
  rv_backoff_remaining_ms : Z;
  rv_expected : CoreRelayRerunAction;
}.

Definition core_family_relay_rerun_vectors : list CoreRelayRerunVector :=
  [rerun_vector "pending-nudge-outside-any-window-runs" true true 0 RunAgain;
   rerun_vector "an-elapsed-window-is-no-window" true true (-5000) RunAgain;
   rerun_vector "one-millisecond-of-window-still-defers" true true 1 ScheduleRateLimitRetry;
   rerun_vector "the-storm-case-defers" true true 30000 ScheduleRateLimitRetry;
   rerun_vector "no-nudge-releases-the-worker" false true 0 Stop;
   rerun_vector "no-nudge-inside-a-window-also-releases" false true 9999 Stop;
   rerun_vector "a-nudge-is-dropped-when-syncing-is-impossible" true false 0 Stop;
   rerun_vector "impossible-and-rate-limited-still-stops" true false 30000 Stop].

Record CoreRelayHealthVector : Type := health_vector {
  hv_name : string;
  hv_fault : option CoreRelayFault;
  hv_own_relay_succeeded : bool;
  hv_any_relay_succeeded : bool;
  hv_expected : CoreRelayPassHealth;
}.

Definition core_family_relay_health_vectors : list CoreRelayHealthVector :=
  [health_vector "clean-pass" None true true HealthOk;
   health_vector "own-relay-failed-unstructured" None false true Failing;
   health_vector "nothing-answered" None false false Failing;
   health_vector "quota-full-beats-a-successful-poll" (Some MailboxFull) true true QuotaFull;
   health_vector "oversized-envelope-beats-a-successful-poll" (Some MessageTooLarge) true true HealthMessageTooLarge;
   health_vector "rate-limited-beats-a-successful-poll" (Some RateLimited) true true HealthRateLimited;
   health_vector "expiry-in-grace-beats-a-successful-poll" (Some PassExpired) true true ExpiredReadOnly;
   health_vector "expiry-past-the-grace-window" (Some PassExpired) false false HealthExpired;
   health_vector "expiry-with-only-someone-elses-relay-answering" (Some PassExpired) false true HealthExpired;
   health_vector "suspension-cannot-co-occur-with-a-good-poll" (Some PassSuspended) true true HealthOk;
   health_vector "suspension" (Some PassSuspended) false false HealthSuspended;
   health_vector "token-rejected" (Some TokenRejected) false false HealthTokenRejected;
   health_vector "outage-is-plain-failure" (Some Outage) false false Failing].

(** * A contact's endpoint ([contact_relay_health.rs]) *)

Definition CONTACT_RELAY_STALE_STREAK : Z := 2.
Definition CONTACT_RELAY_RECHECK_MS : Z := 6 * 60 * 60 * 1000.
Definition CONTACT_RELAY_UNREACHABLE_STREAK : Z := 2.
Definition CONTACT_RELAY_UNREACHABLE_STALE_STREAK : Z := 4.
Definition CONTACT_RELAY_UNREACHABLE_REST_MS : Z := 30 * 60 * 1000.

Definition contact_relay_fault_is_authoritative (fault : CoreRelayFault) : bool :=
  match fault with
  | TokenRejected | PassExpired | PassSuspended => true
  | RateLimited | MailboxFull | MessageTooLarge | MsgIdConflict | Outage => false
  end.

Definition core_contact_relay_is_stale (reject_streak : Z) : bool :=
  CONTACT_RELAY_STALE_STREAK <=? reject_streak.

Definition probe_due (marked_at_ms now_ms window_ms : Z) : bool :=
  if (marked_at_ms <=? 0) || (now_ms <? marked_at_ms) then true
  else window_ms <=? now_ms - marked_at_ms.

Definition core_contact_relay_recheck_due (rejected_at_ms now_ms : Z) : bool :=
  probe_due rejected_at_ms now_ms CONTACT_RELAY_RECHECK_MS.

Definition core_contact_relay_endpoint_usable (reject_streak rejected_at_ms now_ms : Z) : bool :=
  if negb (core_contact_relay_is_stale reject_streak) then true
  else core_contact_relay_recheck_due rejected_at_ms now_ms.

Definition core_contact_relay_streak_delta (fault : CoreRelayFault) : Z :=
  if contact_relay_fault_is_authoritative fault then 1 else 0.

Definition core_contact_relay_unreachable_delta (other_relay_answered : bool) : Z :=
  if other_relay_answered then 1 else 0.

Definition core_contact_relay_unreachable_endpoint_usable (unreachable_streak rested_at_ms now_ms : Z) : bool :=
  if unreachable_streak <? CONTACT_RELAY_UNREACHABLE_STREAK then true
  else probe_due rested_at_ms now_ms CONTACT_RELAY_UNREACHABLE_REST_MS.

Definition core_contact_relay_unreachable_is_stale (unreachable_streak : Z) : bool :=
  CONTACT_RELAY_UNREACHABLE_STALE_STREAK <=? unreachable_streak.

(** ** The relay-health columns of [contacts] ([store.rs])

    An [UPDATE ... WHERE user_id = ?1] changes the one row there is, or none;
    the answers carry what the statement's follow-up [SELECT] reads. *)

Record contact_health_row : Type := mk_contact_health {
  relay_reject_streak : Z;
  relay_rejected_at : Z;
  relay_unreachable_endpoint_key : option bytes;
  relay_unreachable_streak : Z;
  relay_unreachable_at : Z;
}.

Definition healthy_row : contact_health_row := mk_contact_health 0 0 None 0 0.

Notation contact_table := (gmap bytes contact_health_row).

Definition note_contact_relay_rejected (t : contact_table) (user_id : bytes) (now_ms : Z)
  : contact_table * Z :=
  let t' := alter (fun r => mk_contact_health (relay_reject_streak r + 1) now_ms
                              (relay_unreachable_endpoint_key r) (relay_unreachable_streak r)
                              (relay_unreachable_at r)) user_id t in
  (t', default 0 (relay_reject_streak <$> t' !! user_id)).

Definition clear_contact_relay_rejection (t : contact_table) (user_id : bytes) : contact_table :=
  alter (fun r => if relay_reject_streak r =? 0 then r
                  else mk_contact_health 0 0 (relay_unreachable_endpoint_key r)
                         (relay_unreachable_streak r) (relay_unreachable_at r)) user_id t.

(** [CASE WHEN relay_unreachable_endpoint_key = ?2]: a NULL key equals nothing. *)
Definition note_contact_relay_unreachable (t : contact_table) (user_id endpoint_key : bytes) (now_ms : Z)
  : result CoreError (contact_table * Z) :=
  match endpoint_key with
  | [] => Err (Malformed "contact relay endpoint key must not be empty")
  | _ =>
      let t' := alter (fun r => mk_contact_health (relay_reject_streak r) (relay_rejected_at r)
                                  (Some endpoint_key)
                                  (if decide (relay_unreachable_endpoint_key r = Some endpoint_key)
                                   then relay_unreachable_streak r + 1 else 1)
                                  now_ms) user_id t in
      Ok (t', default 0 (relay_unreachable_streak <$> t' !! user_id))
  end.

Definition clear_contact_relay_unreachable (t : contact_table) (user_id : bytes) : contact_table :=
  alter (fun r => if relay_unreachable_streak r =? 0 then r
                  else mk_contact_health (relay_reject_streak r) (relay_rejected_at r) None 0 0) user_id t.

(** The two listings, as the maps their readers build from them: the rows
    carrying a streak, with the streak and when it last advanced. *)
Definition list_contact_relay_rejections (t : contact_table) : gmap bytes (Z * Z) :=
  omap (fun r => if 0 <? relay_reject_streak r
                 then Some (relay_reject_streak r, relay_rejected_at r) else None) t.

Definition list_contact_relay_unreachable (t : contact_table) : gmap bytes (bytes * Z * Z) :=
  omap (fun r => if 0 <? relay_unreachable_streak r
                 then (fun k => (k, relay_unreachable_streak r, relay_unreachable_at r))
                        <$> relay_unreachable_endpoint_key r
                 else None) t.

(** * The pacer never grants two slots closer than its interval *)

(** The slots a sequence of calls is granted: the call's clock plus the wait. *)
Fixpoint granted_slots (p : CoreFamilyRelayPacer) (nows : list Z) : list Z :=
  match nows with
  | [] => []
  | now :: nows' => let '(p', wait) := reserve p now in (now + wait) :: granted_slots p' nows'
  end.

(** What [with_interval_ms] establishes and [reserve] keeps. *)
Definition pacer_ok (p : CoreFamilyRelayPacer) : Prop :=
  0 <= interval_ms p <= I64_MAX /\ 0 <= next_request_at_ms p <= I64_MAX.

Lemma reserve_spec p now :
  pacer_ok p -> 0 <= now <= I64_MAX ->
  let '(p', wait) := reserve p now in
  pacer_ok p' /\ interval_ms p' = interval_ms p /\ 0 <= wait
  /\ now + wait = Z.max now (next_request_at_ms p)
  /\ next_request_at_ms p' = Z.min I64_MAX (now + wait + interval_ms p).
Proof. unfold pacer_ok, reserve. cbn. ints. Qed.

Lemma granted_after p nows slot :
  pacer_ok p -> Forall (fun now => 0 <= now <= I64_MAX) nows ->
  slot ∈ granted_slots p nows -> next_request_at_ms p <= slot.
Proof.
  intros Hp Hn. revert p Hp. induction Hn as [|now nows Hnow Hns IH]; intros p Hp; [by intros ?%not_elem_of_nil|].
  cbn [granted_slots]. pose proof (reserve_spec p now Hp Hnow) as Hr.
  destruct (reserve p now) as [p' wait]. destruct Hr as (Hp' & Hi & Hw & Hs & Hnext).
  intros [->|Hin]%elem_of_cons; [lia|]. specialize (IH p' Hp' Hin).
  destruct Hp as [[??] [??]]. unfold I64_MAX in *. lia.
Qed.

Lemma granted_spacing p nows :
  pacer_ok p -> Forall (fun now => 0 <= now <= I64_MAX) nows ->
  StronglySorted (fun s1 s2 => Z.min I64_MAX (s1 + interval_ms p) <= s2) (granted_slots p nows).
Proof.
  intros Hp Hn. revert p Hp. induction Hn as [|now nows Hnow Hns IH]; intros p Hp; [constructor|].
  cbn [granted_slots]. pose proof (reserve_spec p now Hp Hnow) as Hr.
  destruct (reserve p now) as [p' wait]. destruct Hr as (Hp' & Hi & Hw & Hs & Hnext).
  constructor; [rewrite <-Hi; by apply IH|]. apply Forall_forall. intros s2 Hs2.
  apply (granted_after p' nows) in Hs2; [lia|done..].
Qed.

Lemma granted_tight p nows :
  pacer_ok p -> Forall (fun now => 0 <= now <= I64_MAX) nows ->
  Forall2 (fun now slot => now <= slot /\
    (slot = now \/ slot = next_request_at_ms p
     \/ exists s, s ∈ granted_slots p nows /\ slot = Z.min I64_MAX (s + interval_ms p))) nows (granted_slots p nows).
Proof.
  intros Hp Hn. revert p Hp. induction Hn as [|now nows Hnow Hns IH]; intros p Hp; [constructor|].
  cbn [granted_slots]. pose proof (reserve_spec p now Hp Hnow) as Hr.
  destruct (reserve p now) as [p' wait]. destruct Hr as (Hp' & Hi & Hw & Hs & Hnext).
  constructor; [split; lia|]. eapply Forall2_impl; [exact (IH p' Hp')|].
  rewrite Hi, Hnext. intros n s [Hle [->|[->|(s' & Hs' & ->)]]]; (split; [done|]).
  - by left.
  - right; right. eexists. split; [left|done].
  - right; right. exists s'. split; [by right|done].
Qed.

(** However fast and from however many callers requests come, the slots the
    deployed pacer grants are at least half a second apart (up to the end of the
    clock), none is before its caller asked, and none is later than needed: a slot is
    the caller's own instant or exactly one interval after another slot. *)
Theorem pacer_spaces_requests nows :
  Forall (fun now => 0 <= now <= I64_MAX) nows ->
  let slots := granted_slots new_pacer nows in
  StronglySorted (fun s1 s2 => Z.min I64_MAX (s1 + 500) <= s2) slots /\
  Forall2 (fun now slot => now <= slot /\
    (slot = now \/ exists s, s ∈ slots /\ slot = Z.min I64_MAX (s + 500))) nows slots.
Proof.
  intros Hn. assert (pacer_ok new_pacer) as Hp by (split; vm_compute; split; discriminate).
  split; [by apply (granted_spacing new_pacer)|].
  pose proof (granted_tight new_pacer nows Hp Hn) as Ht.
  revert Ht. generalize (granted_slots new_pacer nows) at 1 3. intros slots Ht.
  induction Ht as [|now slot nows' slots' [Hle Hd] _ IH]; [constructor|]. apply Forall_cons in Hn as [Hn1 Hn].
  constructor; [|by apply IH]. split; [done|]. cbn [next_request_at_ms new_pacer with_interval_ms] in Hd.
  destruct Hd as [->|[->|Hd]]; [by left|left; lia|by right].
Qed.

Lemma pacer_spaces_requests_witness :
  let slots := granted_slots new_pacer [10000; 10000; 10250; 12000; 12000] in
  slots = [10000; 10500; 11000; 12000; 12500] /\
  StronglySorted (fun s1 s2 => Z.min I64_MAX (s1 + 500) <= s2) slots.
Proof.
  split; [reflexivity|]. apply (pacer_spaces_requests [10000; 10000; 10250; 12000; 12000]).
  repeat constructor; vm_compute; discriminate.
Defined.

(** * The quiet window after a 429 *)

Section quiet_window.
Context `{C : Crypto} {L : CryptoLaws C}.

Lemma jitter_range id : 0 <= core_family_relay_jitter_ms id <= FAMILY_RELAY_JITTER_WINDOW_MS.
Proof.
  unfold core_family_relay_jitter_ms, FAMILY_RELAY_JITTER_WINDOW_MS.
  match goal with |- 0 <= ?x mod _ <= _ => pose proof (Z.mod_pos_bound x (1000 + 1) ltac:(lia)) end. lia.
Qed.

Lemma doubling_capped a : 6 <= a -> Z.min (1000 * 2 ^ a) 60000 = 60000.
Proof. intros Ha. pose proof (Z.pow_le_mono_r 2 6 a ltac:(lia) Ha). change (2 ^ 6) with 64 in *. lia. Qed.

(** Clamping the exponent changes no answer: the clamped shift already reaches
    the cap. *)
Lemma backoff_exponential k :
  0 <= k ->
  Z.min (Z.shiftl FAMILY_RELAY_BACKOFF_BASE_MS (Z.min (Z.max 0 (k - 1)) FAMILY_RELAY_BACKOFF_MAX_EXPONENT))
        FAMILY_RELAY_BACKOFF_CAP_MS
  = Z.min (FAMILY_RELAY_BACKOFF_BASE_MS * 2 ^ Z.max 0 (k - 1)) FAMILY_RELAY_BACKOFF_CAP_MS.
Proof.
  intros Hk. rewrite Z.shiftl_mul_pow2 by (unfold FAMILY_RELAY_BACKOFF_MAX_EXPONENT; lia).
  unfold FAMILY_RELAY_BACKOFF_MAX_EXPONENT, FAMILY_RELAY_BACKOFF_BASE_MS, FAMILY_RELAY_BACKOFF_CAP_MS.
  destruct (decide (Z.max 0 (k - 1) <= 6)) as [Hs|Hs]; [by rewrite (Z.min_l _ 6)|].
  by rewrite (Z.min_r _ 6), !doubling_capped by lia.
Qed.

(** What one engine observes between passes. *)
Inductive backoff_event : Type :=
| SawRateLimit (retry_after_ms : Z) (identity_public_bytes : bytes)
| PassSucceeded.

Definition backoff_step (b : CoreFamilyRelayBackoff) (e : backoff_event) : CoreFamilyRelayBackoff :=
  match e with
  | SawRateLimit r id => (on_rate_limited b r id).1
  | PassSucceeded => on_successful_pass b
  end.

Definition backoff_run (h : list backoff_event) : CoreFamilyRelayBackoff :=
  foldl backoff_step new_backoff h.

(** The 429s since the last successful pass. *)
Fixpoint refusals (k : Z) (h : list backoff_event) : Z :=
  match h with
  | [] => k
  | SawRateLimit _ _ :: h' => refusals (k + 1) h'
  | PassSucceeded :: h' => refusals 0 h'
  end.

Lemma refusals_nonneg k h : 0 <= k -> 0 <= refusals k h.
Proof. revert k. induction h as [|[]]; cbn; intros k Hk; [done| |]; naive_solver lia. Qed.

Lemma backoff_run_count k h :
  0 <= k ->
  consecutive_rate_limits (foldl backoff_step (mk_backoff (Z.min U32_MAX k)) h) = Z.min U32_MAX (refusals k h).
Proof.
  revert k. induction h as [|[r id|] h IH]; intros k Hk; [done| |]; cbn [foldl backoff_step refusals].
  - unfold on_rate_limited; cbn. rewrite <-IH by lia. do 3 f_equal. ints.
  - change (on_successful_pass (mk_backoff (Z.min U32_MAX k))) with (mk_backoff (Z.min U32_MAX 0)). apply IH. lia.
Qed.

(** After any history, the next 429 earns exactly the larger of the server's
    window and the doubling term (one second, doubled per refusal since the last
    successful pass, at most a minute), plus this identity's stable offset of at most
    a second, saturating at the integer's width.  So the advertised window is a
    floor, refusals only widen the wait, and neither the saturating counter nor the
    clamped exponent ever changes an answer. *)
Theorem backoff_window h retry_after_ms id :
  in_u64 retry_after_ms ->
  let wait := (on_rate_limited (backoff_run h) retry_after_ms id).2 in
  let doubling := Z.min (1000 * 2 ^ refusals 0 h) 60000 in
  wait = Z.min U64_MAX (Z.max retry_after_ms doubling + core_family_relay_jitter_ms id)
  /\ retry_after_ms <= wait <= Z.max retry_after_ms 60000 + 1000.
Proof.
  intros Hr. pose proof (jitter_range id) as Hj. pose proof (refusals_nonneg 0 h ltac:(lia)) as H0.
  unfold backoff_run. change new_backoff with (mk_backoff (Z.min U32_MAX 0)). cbn zeta.
  unfold on_rate_limited, core_family_relay_backoff_delay_ms. cbn [snd].
  rewrite backoff_run_count by lia.
  rewrite backoff_exponential by ints.
  assert (Z.min (FAMILY_RELAY_BACKOFF_BASE_MS
           * 2 ^ Z.max 0 (u32_saturating_add (Z.min U32_MAX (refusals 0 h)) 1 - 1)) FAMILY_RELAY_BACKOFF_CAP_MS
          = Z.min (1000 * 2 ^ refusals 0 h) 60000) as ->.
  { unfold FAMILY_RELAY_BACKOFF_BASE_MS, FAMILY_RELAY_BACKOFF_CAP_MS.
    destruct (decide (refusals 0 h < U32_MAX)) as [Hs|Hs].
    - do 3 f_equal. ints.
    - rewrite !doubling_capped; [done|ints..]. }
  pose proof (Z.pow_pos_nonneg 2 (refusals 0 h) ltac:(lia) H0) as Hp.
  unfold FAMILY_RELAY_JITTER_WINDOW_MS in Hj.
  split; [ints|]. revert Hp Hr Hj. generalize (2 ^ refusals 0 h) (core_family_relay_jitter_ms id). ints.
Qed.

End quiet_window.

Lemma backoff_window_witness :
  (on_rate_limited (C := toy_crypto)
     (backoff_run (C := toy_crypto) [SawRateLimit 1000 [x01]; PassSucceeded; SawRateLimit 1000 [x01]; SawRateLimit 1000 [x01]])
     1000 [x01]).2
  = Z.min U64_MAX (Z.max 1000 4000 + core_family_relay_jitter_ms (C := toy_crypto) [x01]).
Proof.
  refine (proj1 (backoff_window (C := toy_crypto)
    [SawRateLimit 1000 [x01]; PassSucceeded; SawRateLimit 1000 [x01]; SawRateLimit 1000 [x01]] 1000 [x01] _)).
  vm_compute; split; discriminate.
Defined.

(** * The advertised window, the fold and the tables *)

Lemma relay_retry_after_range h :
  1000 <= relay_retry_after_ms h <= 60000 /\ (exists k, relay_retry_after_ms h = 1000 * k).
Proof. unfold relay_retry_after_ms, MAX_SECONDS. split; [lia|]. eexists. apply Z.mul_comm. Qed.

Lemma relay_fault_rank_inj f g : relay_fault_rank f = relay_fault_rank g -> f = g.
Proof. by destruct f, g. Qed.

(** The fault a pass ends up reporting. *)
Definition fold_faults (faults : list CoreRelayFault) : option CoreRelayFault :=
  foldl (fun acc f => Some (core_worse_relay_fault acc f)) None faults.

Definition worst_of (faults : list CoreRelayFault) (f : CoreRelayFault) : Prop :=
  f ∈ faults /\ forall g, g ∈ faults -> relay_fault_rank g <= relay_fault_rank f.

Lemma fold_faults_some acc faults :
  exists f, foldl (fun acc f => Some (core_worse_relay_fault acc f)) (Some acc) faults = Some f
            /\ worst_of (acc :: faults) f.
Proof.
  revert acc. induction faults as [|g faults IH]; intros acc; cbn.
  - exists acc. split; [done|]. split; [left|]. intros g [->|Hg%not_elem_of_nil]%elem_of_cons; [lia|done].
  - destruct (IH (if relay_fault_rank acc <? relay_fault_rank g then g else acc)) as (f & -> & Hin & Hmax).
    exists f. split; [done|]. pose proof (Hmax _ (list_elem_of_here _ _)) as Hh. split.
    + destruct (relay_fault_rank acc <? _); set_solver.
    + intros x. rewrite !elem_of_cons. destruct (Z.ltb_spec (relay_fault_rank acc) (relay_fault_rank g));
        intros [->|[->|Hx]]; first [lia|apply Hmax; by right].
Qed.

(** The fold reports the worst fault seen, whatever order they came in, and
    nothing when there was none. *)
Lemma fold_faults_worst faults f : fold_faults faults = Some f <-> worst_of faults f.
Proof.
  unfold fold_faults. destruct faults as [|g faults]; cbn; [split; [done|]; by intros [[]%not_elem_of_nil]|].
  destruct (fold_faults_some g faults) as (f' & -> & Hw). split; [by intros [= <-]|].
  intros [Hin Hmax]. f_equal. destruct Hw as [Hin' Hmax']. apply relay_fault_rank_inj.
  pose proof (Hmax _ Hin'). pose proof (Hmax' _ Hin). lia.
Qed.

(** The code agrees with every row of the conformance tables the Rust, Android
    and Swift suites share: the backoff curve, a pacer sequence applied in order to
    one pacer, the rerun decisions and the pass health fold. *)
Theorem relay_vectors_conform :
  Forall (fun v => core_family_relay_backoff_delay_ms (bv_retry_after_ms v) (bv_consecutive_rate_limits v)
                     (bv_jitter_ms v) = bv_expected_delay_ms v) core_family_relay_backoff_vectors
  /\ (fun v => pv_now_ms v + pv_expected_wait_ms v) <$> core_family_relay_pacer_vectors
     = granted_slots new_pacer (pv_now_ms <$> core_family_relay_pacer_vectors)
  /\ Forall (fun v => core_relay_rerun_action (rv_pending_requested v) (rv_can_sync v)
                        (rv_backoff_remaining_ms v) = rv_expected v) core_family_relay_rerun_vectors
  /\ Forall (fun v => core_relay_pass_health (hv_fault v) (hv_own_relay_succeeded v)
                        (hv_any_relay_succeeded v) = hv_expected v) core_family_relay_health_vectors.
Proof. split_and!; [repeat constructor|reflexivity|repeat constructor..]. Qed.

(** * Streaks of a contact's endpoint *)

(** What a pass can learn about a contact's endpoint: an HTTP rejection, an
    accepted post, silence while another relay answered. *)
Inductive contact_event : Type :=
| EndpointRejected (fault : CoreRelayFault) (now_ms : Z)
| EndpointAccepted.

Definition contact_step (u : bytes) (t : contact_table) (e : contact_event) : contact_table :=
  match e with
  | EndpointRejected fault now_ms =>
      if 0 <? core_contact_relay_streak_delta fault then (note_contact_relay_rejected t u now_ms).1 else t
  | EndpointAccepted => clear_contact_relay_rejection t u
  end.

(** Authoritative rejections since the last accepted post, newest last. *)
Fixpoint rejections (k : Z) (h : list contact_event) : Z :=
  match h with
  | [] => k
  | EndpointRejected fault _ :: h' =>
      rejections (if contact_relay_fault_is_authoritative fault then k + 1 else k) h'
  | EndpointAccepted :: h' => rejections 0 h'
  end.

Lemma contact_step_streak u t r e :
  t !! u = Some r ->
  exists r', contact_step u t e !! u = Some r' /\
    relay_reject_streak r' = rejections (relay_reject_streak r) [e].
Proof.
  intros Hr. destruct e as [fault now|]; cbn [contact_step rejections].
  - unfold core_contact_relay_streak_delta. destruct (contact_relay_fault_is_authoritative fault); cbn.
    + eexists. rewrite lookup_alter, decide_True, Hr by done. by cbn.
    + eauto.
  - eexists. unfold clear_contact_relay_rejection. rewrite lookup_alter, decide_True, Hr by done.
    split; [done|]. case_match eqn:E; bools; done.
Qed.

Lemma contact_steps_streak u t r h :
  t !! u = Some r ->
  exists r', foldl (contact_step u) t h !! u = Some r' /\
    relay_reject_streak r' = rejections (relay_reject_streak r) h.
Proof.
  revert t r. induction h as [|e h IH]; intros t r Hr; [eauto|]. cbn [foldl].
  destruct (contact_step_streak u t r e Hr) as (r1 & Hr1 & Hs1).
  destruct (IH _ _ Hr1) as (r2 & Hr2 & Hs2). exists r2. split; [done|]. rewrite Hs2, Hs1. by destruct e.
Qed.

Lemma rejections_app k h1 h2 : rejections k (h1 ++ h2) = rejections (rejections k h1) h2.
Proof. revert k. induction h1 as [|[f n|] h1 IH]; intros k; cbn; [done|apply IH..]. Qed.
