(* ===== verification/RelayWire.v ===== *)
(** Talking to a relay ([core/src/relay_wire.rs]): endpoint rules, tokens, which
    mailbox a message is posted to, and the checks on request and response bodies.

    base64url ([data_encoding]) and JSON ([serde_json]) are third-party crates:
    classes name what is used of them, with base64's documented laws; a computable
    base64url is given for concrete runs. *)
From stdpp Require Import base numbers list strings pretty sorting.
From S2P Require Import Prelude StdModel Wire Crypto RelayPolicy.

(** * Strings *)

(** [str::split_once(pattern)] at the first occurrence of a string. *)
Fixpoint split_once_str (pat s : bytes) : option (bytes * bytes) :=
  if bool_decide (take (length pat) s = pat) then Some ([], drop (length pat) s)
  else match s with
       | [] => None
       | b :: s' => (fun '(l, r) => (b :: l, r)) <$> split_once_str pat s'
       end.

(** [str::rsplit_once(c)]. *)
Definition rsplit_once (c : byte) (s : bytes) : option (bytes * bytes) :=
  (fun '(l, r) => (reverse r, reverse l)) <$> split_once c (reverse s).

(** [s.split(seps).next()]: the part before the first separator. *)
Fixpoint split_first (seps : list byte) (s : bytes) : bytes :=
  match s with
  | [] => []
  | b :: s' => if decide (b ∈ seps) then [] else b :: split_first seps s'
  end.

Definition to_ascii_lowercase_byte (b : byte) : byte :=
  let z := Z_of_byte b in if (65 <=? z) && (z <=? 90) then byte_of_Z (z + 32) else b.

Definition to_ascii_lowercase (s : bytes) : bytes := to_ascii_lowercase_byte <$> s.

Definition eq_ignore_ascii_case (s t : bytes) : bool :=
  bool_decide (to_ascii_lowercase s = to_ascii_lowercase t).

Definition starts_with (p s : bytes) : bool := bool_decide (take (length p) s = p).

Definition strip_prefix (p s : bytes) : option bytes :=
  if starts_with p s then Some (drop (length p) s) else None.

(** [s.parse::<Ipv4Addr>()]: the whole string. *)
Definition parse_ipv4 (s : bytes) : option (Z * Z * Z * Z) :=
  match read_ipv4_addr s with Some (a, []) => Some a | _ => None end.

Definition ipv4_is_loopback (a : Z * Z * Z * Z) : bool := a.1.1.1 =? 127.

(** * Relay URLs *)

Definition SCHEME_SEP : bytes := str "://".
Definition ANDROID_EMULATOR_HOST : bytes := str "10.0.2.2".

Definition is_loopback_relay_host (host : bytes) : bool :=
  let host := trim_end_matches x2e host in
  eq_ignore_ascii_case host (str "localhost")
  || bool_decide (host = str "::1")
  || bool_decide (host = ANDROID_EMULATOR_HOST)
  || match parse_ipv4 host with Some ip => ipv4_is_loopback ip | None => false end.

Definition after_scheme (url : bytes) : bytes :=
  match split_once_str SCHEME_SEP url with Some (_, rest) => rest | None => url end.

Definition relay_url_host (url : bytes) : bytes :=
  let authority := split_first [x2f; x3f; x23] (after_scheme url) in
  let host_port := match rsplit_once x40 authority with Some (_, h) => h | None => authority end in
  match strip_prefix [x5b] host_port with
  | Some rest => split_first [x5d] rest
  | None => match rsplit_once x3a host_port with Some (h, _) => h | None => host_port end
  end.

Definition relay_url_transport_is_secure (url : bytes) : bool :=
  match split_once_str SCHEME_SEP url with
  | Some (scheme, _) =>
      if decide (scheme = str "https") then true
      else if decide (scheme = str "http") then is_loopback_relay_host (relay_url_host url)
      else false
  | None => false
  end.

Definition normalize_relay_url (value : bytes) : bytes :=
  let trimmed := trim_end_matches x2f (trim value) in
  match trimmed with
  | [] => []
  | _ =>
      let candidate :=
        match split_once_str SCHEME_SEP trimmed with
        | Some (scheme, rest) => to_ascii_lowercase scheme ++ SCHEME_SEP ++ rest
        | None => str "https://" ++ trimmed
        end in
      if relay_url_transport_is_secure candidate then candidate else []
  end.

Definition relay_url_is_insecure (value : bytes) : bool :=
  negb (bool_decide (trim_end_matches x2f (trim value) = []))
  && bool_decide (normalize_relay_url value = []).

Definition relay_host_only (url : bytes) : bytes := split_first [x2f; x3f; x23] (after_scheme url).

(** * base64url without padding *)

Class Base64 := {
  b64_encode : bytes -> bytes;
  b64_decode_opt : bytes -> option bytes;
}.

(** The URL-safe alphabet. *)
Definition b64_char (b : byte) : bool :=
  is_ascii_alphanumeric (Z_of_byte b) || bool_decide (b = x2d) || bool_decide (b = x5f).

Class Base64Laws (B : Base64) : Prop := {
  b64_round_trip : forall bs, b64_decode_opt (b64_encode bs) = Some bs;
  b64_length : forall bs, blen (b64_encode bs) = (blen bs * 4 + 2) / 3;
  b64_alphabet : forall bs, Forall (fun b => b64_char b = true) (b64_encode bs);
}.

(** * Tokens and endpoints *)

Definition RELAY_DEPOSIT_TOKEN_PREFIX : bytes := str "cmdep1-".
Definition RELAY_DEPOSIT_TOKEN_CONTEXT : bytes := str "cruisemesh relay deposit token v1".

Record RelayEndpoint : Type := mk_endpoint { ep_url : bytes; ep_token : bytes }.

#[global] Instance RelayEndpoint_eq_dec : EqDecision RelayEndpoint.
Proof. solve_decision. Defined.

Definition relay_token_is_deposit (token : bytes) : bool :=
  starts_with RELAY_DEPOSIT_TOKEN_PREFIX (trim token).

Definition relay_endpoint_from (url token : option bytes) : option RelayEndpoint :=
  let url := normalize_relay_url (default [] url) in
  let token := trim (default [] token) in
  if bool_decide (url = []) || bool_decide (token = []) then None else Some (mk_endpoint url token).

Record GroupRelayMember : Type := mk_group_member {
  gm_relay_url : option bytes;
  gm_relay_token : option bytes;
  gm_endpoint_usable : bool;
  gm_endpoint_answering : bool;
}.

Inductive ContactDelivery : Type :=
| SharedMailbox
| OwnMailbox (host : bytes)
| NearbyOnly.

#[global] Instance ContactDelivery_eq_dec : EqDecision ContactDelivery.
Proof. solve_decision. Defined.

Inductive ComposerReach : Type :=
| Fine | RepliesCannotReachMe | TheyCannotBeReached | NeitherDirectionWorks.

Definition composer_reach (delivery : ContactDelivery)
  (own_relay_configured contact_nearby added_while_nearby : bool) : ComposerReach :=
  if contact_nearby || added_while_nearby then Fine
  else match own_relay_configured, bool_decide (delivery = NearbyOnly) with
       | false, true => NeitherDirectionWorks
       | false, false => RepliesCannotReachMe
       | true, true => TheyCannotBeReached
       | true, false => Fine
       end.

Section endpoints.
Context `{C : Crypto} `{B : Base64}.

Definition relay_deposit_token_for (member_token : bytes) : bytes :=
  let member := trim member_token in
  if bool_decide (member = []) || starts_with RELAY_DEPOSIT_TOKEN_PREFIX member then member
  else RELAY_DEPOSIT_TOKEN_PREFIX ++ b64_encode (blake2b 32 (RELAY_DEPOSIT_TOKEN_CONTEXT ++ member)).

Definition resolved_contact_relay (contact_relay_url contact_relay_token fallback_url fallback_token : option bytes)
  : option RelayEndpoint :=
  let contact := relay_endpoint_from contact_relay_url contact_relay_token in
  let fallback := relay_endpoint_from fallback_url fallback_token in
  match contact, fallback with
  | Some contact, Some fallback =>
      if bool_decide (ep_url contact = ep_url fallback)
         && relay_token_is_deposit (ep_token contact)
         && bool_decide (relay_deposit_token_for (ep_token fallback) = ep_token contact)
      then Some fallback else Some contact
  | Some contact, None => Some contact
  | None, fallback => fallback
  end.

Definition relay_contact_shares_own_family
  (contact_relay_url contact_relay_token own_relay_url own_relay_token : option bytes) : bool :=
  match relay_endpoint_from contact_relay_url contact_relay_token,
        relay_endpoint_from own_relay_url own_relay_token with
  | Some contact, Some own =>
      bool_decide (ep_url contact = ep_url own)
      && (bool_decide (ep_token contact = ep_token own)
          || bool_decide (ep_token contact = relay_deposit_token_for (ep_token own)))
  | _, _ => false
  end.

Definition resolved_contact_poll_relay (contact_relay_url contact_relay_token fallback_url fallback_token : option bytes)
  : option RelayEndpoint :=
  match resolved_contact_relay contact_relay_url contact_relay_token fallback_url fallback_token with
  | Some endpoint => if relay_token_is_deposit (ep_token endpoint) then None else Some endpoint
  | None => None
  end.

Definition card_is_another_familys_deposit (contact own : RelayEndpoint) : bool :=
  relay_token_is_deposit (ep_token contact)
  && negb (bool_decide (relay_deposit_token_for (ep_token own) = ep_token contact)).

Definition resolved_contact_delivery_relay
  (contact_relay_url contact_relay_token fallback_url fallback_token : option bytes)
  (contact_endpoint_usable : bool) : option RelayEndpoint :=
  if contact_endpoint_usable
  then resolved_contact_relay contact_relay_url contact_relay_token fallback_url fallback_token
  else
    match relay_endpoint_from fallback_url fallback_token with
    | None => None
    | Some fallback =>
        match relay_endpoint_from contact_relay_url contact_relay_token with
        | Some contact =>
            if bool_decide (ep_url contact = ep_url fallback) then None
            else if card_is_another_familys_deposit contact fallback then None
            else Some fallback
        | None => Some fallback
        end
    end.

(** The walk over the membership; [blocked] is [any_member_blocks_fallback]. *)
Fixpoint group_target_loop (fallback_url fallback_token : option bytes) (own : option RelayEndpoint)
  (blocked : bool) (members : list GroupRelayMember) : option RelayEndpoint :=
  match members with
  | [] => if blocked then None else own
  | m :: members' =>
      let continue := group_target_loop fallback_url fallback_token own in
      if negb (gm_endpoint_answering m) then continue true members'
      else
        let foreign :=
          negb (gm_endpoint_usable m)
          && match relay_endpoint_from (gm_relay_url m) (gm_relay_token m), own with
             | Some card, Some own => card_is_another_familys_deposit card own
             | _, _ => false
             end in
        if foreign then continue true members'
        else match resolved_contact_delivery_relay (gm_relay_url m) (gm_relay_token m)
                     fallback_url fallback_token (gm_endpoint_usable m) with
             | Some endpoint => Some endpoint
             | None => continue blocked members'
             end
  end.

Definition core_group_fanout_relay_target (members : list GroupRelayMember)
  (fallback_url fallback_token : option bytes) : option RelayEndpoint :=
  group_target_loop fallback_url fallback_token (relay_endpoint_from fallback_url fallback_token)
    false members.

Definition resolved_contact_delivery_poll_relay
  (contact_relay_url contact_relay_token fallback_url fallback_token : option bytes)
  (contact_endpoint_usable : bool) : option RelayEndpoint :=
  if negb contact_endpoint_usable then None
  else resolved_contact_poll_relay contact_relay_url contact_relay_token fallback_url fallback_token.

Definition contact_delivery
  (contact_relay_url contact_relay_token own_relay_url own_relay_token : option bytes) : ContactDelivery :=
  match relay_endpoint_from contact_relay_url contact_relay_token with
  | None => NearbyOnly
  | Some contact =>
      let shared :=
        match relay_endpoint_from own_relay_url own_relay_token with
        | Some own =>
            bool_decide (ep_url own = ep_url contact)
            && (bool_decide (ep_token contact = ep_token own)
                || bool_decide (ep_token contact = relay_deposit_token_for (ep_token own)))
        | None => false
        end in
      if shared then SharedMailbox else OwnMailbox (relay_host_only (ep_url contact))
  end.

End endpoints.

(** * Request and response bodies *)

Definition RELAY_MAX_SEALED_BYTES : Z := 512 * 1024.
Definition RELAY_FETCH_MAX_ROWS : Z := 256.
Definition RELAY_MAX_RESPONSE_BODY_BYTES : Z := 12 * 1024 * 1024.
Definition RELAY_FETCH_MAX_DECODED_BYTES : Z := RELAY_MAX_RESPONSE_BODY_BYTES.
Definition RELAY_MAX_PRESENCE_ROWS : Z := 256.

Definition relay_fetch_shrunk_limit (current_limit : Z) : option Z :=
  let current := Z.min current_limit RELAY_FETCH_MAX_ROWS in
  if current <=? 1 then None else Some (Z.max (current / 2) 1).

Record CoreRelayFetchedEnvelope : Type := mk_fetched {
  fe_id : Z;
  fe_msg_id : bytes;
  fe_hop_ttl : Z;
  fe_recipient_hint : bytes;
  fe_sealed : bytes;
  fe_expiry_ms : Z;
}.

Record CoreRelayFetchPage : Type := mk_fetch_page {
  fp_envelopes : list CoreRelayFetchedEnvelope;
  fp_next_cursor : Z;
}.

Record CoreRelayPresence : Type := mk_presence { rp_hint : bytes; rp_last_seen_ms : Z }.

Record CoreRelayPresencePage : Type := mk_presence_page {
  pp_now_ms : Z;
  pp_presence : list CoreRelayPresence;
}.

(** The JSON structs. *)
Record EnvelopeWire : Type := mk_envelope_wire {
  ew_id : Z;
  ew_msg_id : bytes;
  ew_hop_ttl : Z;
  ew_recipient_hint : bytes;
  ew_sealed : bytes;
  ew_expiry_ms : Z;
}.

Record PostEnvelopeWire : Type := mk_post_wire {
  pw_msg_id : bytes;
  pw_hop_ttl : Z;
  pw_recipient_hint : bytes;
  pw_sealed : bytes;
  pw_expiry_ms : Z;
}.

Record FetchResponse : Type := mk_fetch_response {
  fr_envelopes : list EnvelopeWire;
  fr_next_cursor : Z;
}.

Record PresenceRequest : Type := mk_presence_request {
  pq_announce : list bytes;
  pq_query : list bytes;
}.

Record PresenceWire : Type := mk_presence_wire { prw_hint : bytes; prw_last_seen_ms : Z }.

Record PresenceResponse : Type := mk_presence_response {
  pr_now_ms : Z;
  pr_presence : list PresenceWire;
}.

Record RotateFamilyRequest : Type := mk_rotate_request {
  rq_new_token : bytes;
  rq_rotation_pk : bytes;
  rq_rotation_sig : bytes;
}.

Record RotateFamilyResponse : Type := mk_rotate_response {
  rr_family_token : bytes;
  rr_deposit_token : bytes;
  rr_envelopes_moved : Z;
  rr_rotated : bool;
}.

Record CoreRelayRotation : Type := mk_rotation {
  rot_family_token : bytes;
  rot_deposit_token : bytes;
  rot_envelopes_moved : Z;
  rot_rotated : bool;
}.

Record FamilyStatusResponse : Type := mk_family_status_response {
  fs_plan : option bytes;
  fs_expires_ms : option Z;
  fs_state : bytes;
}.

Inductive CoreFamilyPassState : Type := PassActive | PassGrace | PassStateSuspended | PassUnknown.

#[global] Instance CoreFamilyPassState_eq_dec : EqDecision CoreFamilyPassState.
Proof. solve_decision. Defined.

Record CoreFamilyStatus : Type := mk_family_status {
  cfs_plan : option bytes;
  cfs_expires_ms : option Z;
  cfs_state : CoreFamilyPassState;
}.

(** [serde_json] on those structs; an error is its description. *)
Class RelayJson := {
  post_envelope_to_json : PostEnvelopeWire -> result string bytes;
  ack_to_json : list Z -> result string bytes;
  presence_to_json : PresenceRequest -> result string bytes;
  rotate_to_json : RotateFamilyRequest -> result string bytes;
  post_of_json : bytes -> result string Z;
  fetch_of_json : bytes -> result string FetchResponse;
  presence_of_json : bytes -> result string PresenceResponse;
  rotate_of_json : bytes -> result string RotateFamilyResponse;
  status_of_json : bytes -> result string FamilyStatusResponse;
}.

Definition relay_json {A} (r : result string A) : result CoreError A :=
  match r with Ok a => Ok a | Err e => Err (Malformed ("invalid relay JSON: " ++ e)) end.

Definition relay_validate_envelope_sizes (msg_id_len hint_len sealed_len : Z) : result CoreError unit :=
  ensure (msg_id_len =? 16) (Malformed "relay msg_id must be 16 bytes");;
  ensure (hint_len =? 8) (Malformed "relay recipient hint must be 8 bytes");;
  ensure (negb (sealed_len =? 0)) (Malformed "relay sealed payload cannot be empty");;
  ensure (sealed_len <=? RELAY_MAX_SEALED_BYTES) (Malformed "relay sealed payload is too large").

Definition validate_envelope (msg_id hint sealed : bytes) : result CoreError unit :=
  relay_validate_envelope_sizes (blen msg_id) (blen hint) (blen sealed).

Definition validate_hint (hint : bytes) : result CoreError unit :=
  ensure (blen hint =? 8) (Malformed "relay recipient hint must be 8 bytes").

(** [decoded_len.saturating_mul(4).saturating_add(2) / 3] *)
Definition max_b64_len (decoded_len : Z) : Z := u64_saturating_add (u64_saturating_mul decoded_len 4) 2 / 3.

Definition validate_b64_len (value : bytes) (decoded_len : Z) (field : string) : result CoreError unit :=
  ensure (blen value =? max_b64_len decoded_len) (Malformed (field ++ " has invalid encoded length")).

Definition validate_response_body (body : bytes) : result CoreError unit :=
  ensure (blen body <=? RELAY_MAX_RESPONSE_BODY_BYTES) (Malformed "relay response body is too large").

Definition FAMILY_ROTATION_SIGN_DOMAIN : bytes := str "CruiseMesh family token rotation v1" ++ [x00].

Definition family_rotation_field (field : bytes) : bytes := be_bytes 2 (Z.min (blen field) U16_MAX) ++ field.

Definition family_rotation_signing_bytes (current_token new_token : bytes) : bytes :=
  FAMILY_ROTATION_SIGN_DOMAIN ++ family_rotation_field current_token ++ family_rotation_field new_token.

Definition relay_pass_delivery_through_ms (status : CoreFamilyStatus) (now_ms : Z) : option Z :=
  if decide (cfs_state status = PassStateSuspended) then None
  else match cfs_expires_ms status with
       | Some expires => if now_ms <? expires then Some expires else None
       | None => None
       end.

Section bodies.
Context `{C : Crypto} `{B : Base64} `{J : RelayJson}.

Definition b64_decode (value : bytes) : result CoreError bytes :=
  match b64_decode_opt value with Some b => Ok b | None => Err (Malformed "invalid relay base64url") end.

Definition relay_encode_post_envelope (msg_id : bytes) (hop_ttl : Z) (recipient_hint sealed : bytes) (expiry_ms : Z)
  : result CoreError bytes :=
  validate_envelope msg_id recipient_hint sealed;;
  relay_json (post_envelope_to_json
    (mk_post_wire (b64_encode msg_id) hop_ttl (b64_encode recipient_hint) (b64_encode sealed) expiry_ms)).

Definition relay_decode_post_response (body : bytes) : result CoreError Z :=
  validate_response_body body;;
  id ← relay_json (post_of_json body);
  ensure (negb (id <? 0)) (Malformed "relay id cannot be negative");;
  Ok id.

(** [hints.join(",")] *)
Fixpoint join (sep : bytes) (l : list bytes) : bytes :=
  match l with
  | [] => []
  | [x] => x
  | x :: l' => x ++ sep ++ join sep l'
  end.

Definition relay_build_fetch_path (hints : list bytes) (after_id limit : Z) : result CoreError bytes :=
  ensure (negb ((limit =? 0) || (RELAY_FETCH_MAX_ROWS <? limit))) (Malformed "relay fetch limit is out of range");;
  ensure (negb (after_id <? 0)) (Malformed "relay cursor cannot be negative");;
  mapM validate_hint hints;;
  Ok (str "/envelopes?hints=" ++ join (str ",") (b64_encode <$> hints)
      ++ str "&after=" ++ str (pretty after_id) ++ str "&limit=" ++ str (pretty limit)).

(** One turn of the loop over the page's rows. *)
Definition decode_fetched (item : EnvelopeWire) (decoded_bytes : Z) (previous_id : option Z)
  : result CoreError (CoreRelayFetchedEnvelope * Z) :=
  ensure (negb ((ew_id item <? 0)
                || match previous_id with Some previous => ew_id item <=? previous | None => false end))
    (Malformed "relay envelope ids must be non-negative and increasing");;
  validate_b64_len (ew_msg_id item) 16 "relay msg_id";;
  validate_b64_len (ew_recipient_hint item) 8 "relay recipient hint";;
  ensure (negb (bool_decide (ew_sealed item = [])
                || (max_b64_len RELAY_MAX_SEALED_BYTES <? blen (ew_sealed item))))
    (Malformed "relay sealed payload is too large");;
  msg_id ← b64_decode (ew_msg_id item);
  recipient_hint ← b64_decode (ew_recipient_hint item);
  sealed ← b64_decode (ew_sealed item);
  validate_envelope msg_id recipient_hint sealed;;
  let decoded_bytes := decoded_bytes + blen sealed in
  ensure (decoded_bytes <=? U64_MAX) (Malformed "relay fetch page payload size overflow");;
  ensure (decoded_bytes <=? RELAY_FETCH_MAX_DECODED_BYTES) (Malformed "relay fetch page payload is too large");;
  Ok (mk_fetched (ew_id item) msg_id (ew_hop_ttl item) recipient_hint sealed (ew_expiry_ms item), decoded_bytes).

Fixpoint decode_fetched_all (items : list EnvelopeWire) (decoded_bytes : Z) (previous_id : option Z)
  : result CoreError (list CoreRelayFetchedEnvelope * option Z) :=
  match items with
  | [] => Ok ([], previous_id)
  | item :: items' =>
      '(e, decoded_bytes) ← decode_fetched item decoded_bytes previous_id;
      '(es, last) ← decode_fetched_all items' decoded_bytes (Some (ew_id item));
      Ok (e :: es, last)
  end.

Definition relay_decode_fetch_page (body : bytes) : result CoreError CoreRelayFetchPage :=
  validate_response_body body;;
  wire ← relay_json (fetch_of_json body);
  ensure (blen (fr_envelopes wire) <=? RELAY_FETCH_MAX_ROWS)
    (Malformed "relay fetch page contains too many envelopes");;
  ensure (negb (fr_next_cursor wire <? 0)) (Malformed "relay cursor cannot be negative");;
  '(envelopes, last) ← decode_fetched_all (fr_envelopes wire) 0 None;
  ensure (match last with Some last_id => fr_next_cursor wire =? last_id | None => true end)
    (Malformed "relay cursor does not match the fetch page");;
  Ok (mk_fetch_page envelopes (fr_next_cursor wire)).

Definition relay_encode_ack_request (ids : list Z) : result CoreError bytes :=
  ensure (negb (existsb (fun id => id <? 0) ids)) (Malformed "relay id cannot be negative");;
  relay_json (ack_to_json ids).

Definition relay_encode_presence_request (announce query : list bytes) : result CoreError bytes :=
  mapM validate_hint (announce ++ query);;
  relay_json (presence_to_json (mk_presence_request (b64_encode <$> announce) (b64_encode <$> query))).

Definition decode_presence (item : PresenceWire) : result CoreError CoreRelayPresence :=
  hint ← b64_decode (prw_hint item);
  validate_hint hint;;
  Ok (mk_presence hint (prw_last_seen_ms item)).

Definition relay_decode_presence_page (body : bytes) : result CoreError CoreRelayPresencePage :=
  validate_response_body body;;
  wire ← relay_json (presence_of_json body);
  ensure (blen (pr_presence wire) <=? RELAY_MAX_PRESENCE_ROWS)
    (Malformed "relay presence page contains too many entries");;
  presence ← mapM decode_presence (pr_presence wire);
  Ok (mk_presence_page (pr_now_ms wire) presence).

Definition relay_decode_rotate_response (body expected_token : bytes) : result CoreError CoreRelayRotation :=
  validate_response_body body;;
  wire ← relay_json (rotate_of_json body);
  ensure (bool_decide (rr_family_token wire = expected_token))
    (Malformed "the relay rotated to a different token than the one requested");;
  ensure (bool_decide (rr_deposit_token wire = relay_deposit_token_for (rr_family_token wire)))
    (Malformed "the relay's deposit token does not attenuate from the rotated member token");;
  Ok (mk_rotation (rr_family_token wire) (rr_deposit_token wire) (rr_envelopes_moved wire) (rr_rotated wire)).

Definition relay_decode_family_status (body : bytes) : result CoreError CoreFamilyStatus :=
  validate_response_body body;;
  wire ← relay_json (status_of_json body);
  Ok (mk_family_status (fs_plan wire) (fs_expires_ms wire)
        (if decide (fs_state wire = str "active") then PassActive
         else if decide (fs_state wire = str "grace") then PassGrace
         else if decide (fs_state wire = str "suspended") then PassStateSuspended
         else PassUnknown)).

(** The signature over both tokens; the Ed25519 signer is a parameter. *)
Section rotate.
Variable ed25519_sign : bytes -> bytes -> bytes.
Variable ed25519_public : bytes -> bytes.

Definition relay_encode_rotate_request (current_token new_token person_root_sign_sk : bytes)
  : result CoreError bytes :=
  ensure (negb (relay_token_is_deposit new_token))
    (Malformed "a family's member token may not be deposit-class");;
  ensure (negb (bool_decide (trim new_token = []) || bool_decide (trim current_token = [])))
    (Malformed "a family token cannot be empty");;
  let new_token := trim new_token in
  ensure (blen person_root_sign_sk =? 32) (InvalidKeyLength 32 (blen person_root_sign_sk));;
  let signature := ed25519_sign person_root_sign_sk (family_rotation_signing_bytes current_token new_token) in
  relay_json (rotate_to_json
    (mk_rotate_request new_token (b64_encode (ed25519_public person_root_sign_sk)) (b64_encode signature))).

End rotate.

End bodies.

(** * Facts about the string operations *)

Lemma split_once_str_spec pat s l r : split_once_str pat s = Some (l, r) -> s = l ++ pat ++ r.
Proof.
  revert l. induction s as [|b s IH]; intros l; cbn [split_once_str].
  - case_bool_decide as Hp; [|done]. intros [= <- <-]. rewrite <-Hp at 2. by destruct pat.
  - case_bool_decide as Hp; [intros [= <- <-]; cbn [app]; rewrite <-Hp at 1; by rewrite take_drop|].
    destruct (split_once_str pat s) as [[l' r']|]; [|done]. intros [= <- <-]. cbn. f_equal. by apply IH.
Qed.

Lemma encode_utf8_ascii b : Z_of_byte b <= 127 -> encode_utf8 (Z_of_byte b) = [b].
Proof. intros Hb. unfold encode_utf8. by rewrite (proj2 (Z.leb_le _ _)), byte_of_Z_of_byte by done. Qed.

Lemma encode_utf8_ascii_all s :
  Forall (fun b => Z_of_byte b <= 127) s -> concat (encode_utf8 <$> (Z_of_byte <$> s)) = s.
Proof. induction 1 as [|b s Hb Hs IH]; [done|]. cbn. rewrite encode_utf8_ascii by done. cbn. by f_equal. Qed.

(** A printable ASCII string without white space is left alone. *)
Definition plain_byte (b : byte) : Prop := 33 <= Z_of_byte b <= 126.

Lemma plain_not_whitespace b : plain_byte b -> is_whitespace (Z_of_byte b) = false.
Proof.
  unfold plain_byte, is_whitespace. lia.
Qed.

Lemma trim_plain s : Forall plain_byte s -> trim s = s.
Proof.
  intros Hs. assert (Forall (fun b => Z_of_byte b <= 127) s) as Ha
    by (eapply Forall_impl; [exact Hs|unfold plain_byte; cbn; lia]).
  unfold trim. rewrite utf8_chars_ascii by done.
  assert (Forall (fun c => is_whitespace c = false) (Z_of_byte <$> s)) as Hw
    by (apply Forall_fmap; eapply Forall_impl; [exact Hs|apply plain_not_whitespace]).
  unfold drop_while_end. rewrite (drop_while_id is_whitespace (Z_of_byte <$> s)) by done.
  rewrite drop_while_id by (by apply Forall_reverse). rewrite reverse_involutive. by apply encode_utf8_ascii_all.
Qed.

Lemma b64_char_plain b : b64_char b = true -> plain_byte b.
Proof.
  unfold b64_char, is_ascii_alphanumeric, plain_byte. intros H.
  destruct (decide (b = x2d)) as [->|]; [vm_compute; split; discriminate|].
  destruct (decide (b = x5f)) as [->|]; [vm_compute; split; discriminate|].
  rewrite (bool_decide_eq_false_2 (b = x2d)), (bool_decide_eq_false_2 (b = x5f)), !orb_false_r in H by done. lia.
Qed.

Lemma starts_with_app p s : starts_with p (p ++ s) = true.
Proof. unfold starts_with. apply bool_decide_eq_true. by rewrite take_app_length. Qed.

(** * Cleartext never carries a token *)

(** What an endpoint's URL may be. *)
Definition secure_url (u : bytes) : Prop :=
  (exists rest, u = str "https://" ++ rest)
  \/ ((exists rest, u = str "http://" ++ rest) /\ is_loopback_relay_host (relay_url_host u) = true).

Lemma transport_secure_sound u : relay_url_transport_is_secure u = true -> secure_url u.
Proof.
  unfold relay_url_transport_is_secure. destruct (split_once_str SCHEME_SEP u) as [[sch rest]|] eqn:E; [|done].
  apply split_once_str_spec in E. case_decide as H1; [intros _; left; exists rest; by subst|].
  case_decide as H2; [|done]. intros Hl. right. split; [exists rest; by subst|done].
Qed.

Lemma normalize_secure v : normalize_relay_url v <> [] -> secure_url (normalize_relay_url v).
Proof.
  unfold normalize_relay_url. destruct (trim_end_matches x2f (trim v)) as [|b t]; [done|].
  case_match eqn:E; [|done]. intros _. by apply transport_secure_sound.
Qed.

Lemma endpoint_from_some url token e :
  relay_endpoint_from url token = Some e ->
  secure_url (ep_url e) /\ ep_token e <> [] /\ ep_token e = trim (default [] token).
Proof.
  unfold relay_endpoint_from. case_match eqn:E; [done|]. intros [= <-]. bools.
  split; [by apply normalize_secure|done].
Qed.

Section routing.
Context `{C : Crypto} {L : CryptoLaws C} `{B : Base64} {BL : Base64Laws B}.

(** ** Deposit tokens *)

Lemma deposit_token_plain bs : Forall plain_byte (RELAY_DEPOSIT_TOKEN_PREFIX ++ b64_encode bs).
Proof.
  apply Forall_app. split; [repeat constructor; vm_compute; discriminate|].
  eapply Forall_impl; [apply b64_alphabet|apply b64_char_plain].
Qed.

(** Attenuating twice is attenuating once, and what is attenuated is recognised
    as post-only. *)
Lemma deposit_token_deposit t :
  trim t <> [] -> trim (relay_deposit_token_for t) = relay_deposit_token_for t ->
  relay_token_is_deposit (relay_deposit_token_for t) = true.
Proof.
  intros Ht Htr. unfold relay_token_is_deposit. rewrite Htr. unfold relay_deposit_token_for.
  rewrite (bool_decide_eq_false_2 (trim t = [])) by done. cbn [orb].
  destruct (starts_with RELAY_DEPOSIT_TOKEN_PREFIX (trim t)) eqn:E; [done|]. apply starts_with_app.
Qed.

Lemma deposit_token_derived t :
  trim t <> [] -> relay_token_is_deposit t = false ->
  trim (relay_deposit_token_for t) = relay_deposit_token_for t
  /\ relay_token_is_deposit (relay_deposit_token_for t) = true
  /\ relay_deposit_token_for (relay_deposit_token_for t) = relay_deposit_token_for t.
Proof.
  intros Ht Hd. unfold relay_token_is_deposit in Hd.
  assert (relay_deposit_token_for t = RELAY_DEPOSIT_TOKEN_PREFIX
            ++ b64_encode (blake2b 32 (RELAY_DEPOSIT_TOKEN_CONTEXT ++ trim t))) as He.
  { unfold relay_deposit_token_for. by rewrite (bool_decide_eq_false_2 (trim t = [])), Hd. }
  assert (trim (relay_deposit_token_for t) = relay_deposit_token_for t) as Htr
    by (rewrite He; apply trim_plain, deposit_token_plain).
  split_and!; [done|by apply deposit_token_deposit|].
  assert (starts_with RELAY_DEPOSIT_TOKEN_PREFIX (relay_deposit_token_for t) = true) as Hs
    by (rewrite He; apply starts_with_app).
  unfold relay_deposit_token_for at 1. rewrite Htr, Hs, orb_true_r. done.
Qed.

(** ** Where a post goes *)

(** A one-to-one post goes to the card's own endpoint while it is usable, and to
    our mailbox only when nothing says the contact reads elsewhere. *)
Lemma delivery_relay_cases cu ct fu ft usable e :
  resolved_contact_delivery_relay cu ct fu ft usable = Some e ->
  (relay_endpoint_from cu ct = Some e /\ usable = true)
  \/ (relay_endpoint_from fu ft = Some e /\
      match relay_endpoint_from cu ct with
      | None => True
      | Some card => card_is_another_familys_deposit card e = false
      end).
Proof.
  unfold resolved_contact_delivery_relay, resolved_contact_relay, card_is_another_familys_deposit.
  destruct usable.
  - destruct (relay_endpoint_from cu ct) as [card|], (relay_endpoint_from fu ft) as [own|] eqn:Eo;
      [|intros [= <-]; by left|intros [= <-]; by right|done].
    case_match eqn:E; intros [= <-]; [|by left]. bools. right. split; [done|].
    rewrite bool_decide_eq_true_2 by done. by rewrite andb_false_r.
  - destruct (relay_endpoint_from fu ft) as [own|]; [|done].
    destruct (relay_endpoint_from cu ct) as [card|]; [|intros [= <-]; by right].
    case_bool_decide; [done|]. case_match eqn:E; [done|]. intros [= <-]. by right.
Qed.

(** A member whose written-off card is another family's. *)
Definition strandable (own : RelayEndpoint) (m : GroupRelayMember) : Prop :=
  gm_endpoint_usable m = false /\
  exists card, relay_endpoint_from (gm_relay_url m) (gm_relay_token m) = Some card
               /\ card_is_another_familys_deposit card own = true.

Lemma group_loop_cases fu ft own blocked members e :
  relay_endpoint_from fu ft = own ->
  group_target_loop fu ft own blocked members = Some e ->
  (exists m, m ∈ members /\ gm_endpoint_answering m = true /\
     resolved_contact_delivery_relay (gm_relay_url m) (gm_relay_token m) fu ft (gm_endpoint_usable m) = Some e)
  \/ (own = Some e /\ blocked = false /\
      forall m, m ∈ members -> gm_endpoint_answering m = true /\ ~ strandable e m).
Proof.
  intros Hown. revert blocked. induction members as [|m members IH]; intros blocked; cbn [group_target_loop].
  { destruct blocked; [done|]. intros ->. right. split_and!; [done..|]. by intros m ?%not_elem_of_nil. }
  assert (forall b, group_target_loop fu ft own b members = Some e -> b = true ->
    exists m0, m0 ∈ m :: members /\ gm_endpoint_answering m0 = true /\
     resolved_contact_delivery_relay (gm_relay_url m0) (gm_relay_token m0) fu ft (gm_endpoint_usable m0) = Some e) as Hb.
  { intros b Hl ->. destruct (IH true Hl) as [(m0 & ? & ?)|(_ & [=] & _)]. exists m0. split; [by right|done]. }
  destruct (gm_endpoint_answering m) eqn:Ea; cbn [negb]; [|intros Hl; left; by eapply Hb].
  case_match eqn:Ef; [intros Hl; left; by eapply Hb|].
  destruct (resolved_contact_delivery_relay _ _ _ _ _) as [e'|] eqn:Er.
  { intros [= ->]. left. exists m. split; [by left|done]. }
  intros Hl. destruct (IH _ Hl) as [(m0 & ? & ?)|(Ho & Hbl & Hall)]; [left; exists m0; split; [by right|done]|].
  right. split_and!; [done..|]. intros m0 [->|Hm0]%elem_of_cons; [|by apply Hall]. split; [done|].
  intros (Hu & card & Hc & Hd). rewrite Hu, Hc, Ho, Hd in Ef. done.
Qed.

(** A message is never posted to our own mailbox in place of one its reader
    polls elsewhere.  One-to-one: a contact whose card carries another family's
    deposit token is posted to at the card's endpoint or not at all.  Group: the one
    mailbox chosen is that of an answering member, by the same rule, or else our
    own, and then no member is resting for silence and none has a written-off card
    of another family. *)
Theorem posts_never_strand cu ct fu ft usable own members :
  relay_endpoint_from fu ft = Some own ->
  (forall card e, relay_endpoint_from cu ct = Some card -> card_is_another_familys_deposit card own = true ->
     resolved_contact_delivery_relay cu ct fu ft usable = Some e -> e = card /\ usable = true)
  /\ (forall e, core_group_fanout_relay_target members fu ft = Some e ->
        (exists m, m ∈ members /\ gm_endpoint_answering m = true /\
           resolved_contact_delivery_relay (gm_relay_url m) (gm_relay_token m) fu ft (gm_endpoint_usable m) = Some e)
        \/ (e = own /\ forall m, m ∈ members -> gm_endpoint_answering m = true /\ ~ strandable own m)).
Proof.
  intros Ho. split.
  - intros card e Hc Hd Hr. destruct (delivery_relay_cases _ _ _ _ _ _ Hr) as [[Hc' ->]|[Ho' Hx]].
    + rewrite Hc in Hc'. by injection Hc' as ->.
    + rewrite Hc in Hx. rewrite Ho in Ho'. injection Ho' as <-. congruence.
  - intros e He. apply group_loop_cases in He; [|done]. rewrite Ho in He.
    destruct He as [?|(Ho' & _ & ?)]; [by left|]. injection Ho' as ->. by right.
Qed.

End routing.

(** * A computable base64url *)

Definition b64_letters : bytes := str "ABCDEFGHIJKLMNOPQRSTUVWXYZabcdefghijklmnopqrstuvwxyz0123456789-_".

Definition b64_digit (z : Z) : byte := default x00 (b64_letters !! Z.to_nat z).

Definition b64_value (b : byte) : option Z := (fun p => Z.of_nat p.1) <$> list_find (fun x => x = b) b64_letters.

Fixpoint real_b64_encode (bs : bytes) : bytes :=
  match bs with
  | [] => []
  | [a] => let a := Z_of_byte a in [b64_digit (a / 4); b64_digit (a mod 4 * 16)]
  | [a; b] => let a := Z_of_byte a in let b := Z_of_byte b in
      [b64_digit (a / 4); b64_digit (a mod 4 * 16 + b / 16); b64_digit (b mod 16 * 4)]
  | a :: b :: c :: rest =>
      let a := Z_of_byte a in let b := Z_of_byte b in let c := Z_of_byte c in
      b64_digit (a / 4) :: b64_digit (a mod 4 * 16 + b / 16) :: b64_digit (b mod 16 * 4 + c / 64)
      :: b64_digit (c mod 64) :: real_b64_encode rest
  end.

(** Trailing bits must be zero. *)
Fixpoint real_b64_decode (s : bytes) : option bytes :=
  match s with
  | [] => Some []
  | [_] => None
  | [w; x] => w ← b64_value w; x ← b64_value x;
      if x mod 16 =? 0 then Some [byte_of_Z (w * 4 + x / 16)] else None
  | [w; x; y] => w ← b64_value w; x ← b64_value x; y ← b64_value y;
      if y mod 4 =? 0 then Some [byte_of_Z (w * 4 + x / 16); byte_of_Z (x mod 16 * 16 + y / 4)] else None
  | w :: x :: y :: z :: rest => w ← b64_value w; x ← b64_value x; y ← b64_value y; z ← b64_value z;
      bs ← real_b64_decode rest;
      Some (byte_of_Z (w * 4 + x / 16) :: byte_of_Z (x mod 16 * 16 + y / 4)
            :: byte_of_Z (y mod 4 * 64 + z) :: bs)
  end.

Definition real_b64 : Base64 := {| b64_encode := real_b64_encode; b64_decode_opt := real_b64_decode |}.

Lemma b64_digit_facts z :
  0 <= z < 64 -> b64_value (b64_digit z) = Some z /\ b64_char (b64_digit z) = true.
Proof.
  intros Hz. assert (Forall (fun z => b64_value (b64_digit z) = Some z /\ b64_char (b64_digit z) = true) (seqZ 0 64))
    as H by (repeat constructor). rewrite Forall_forall in H. apply H, elem_of_seqZ. lia.
Qed.

Lemma byte_of_Z_eq b z : z = Z_of_byte b -> byte_of_Z z = b.
Proof. intros ->. apply byte_of_Z_of_byte. Qed.

(** The sextets of a group are in range, and put back together. *)
Ltac sextets :=
  repeat match goal with
  | b : byte |- _ => lazymatch goal with
      | H : 0 <= Z_of_byte b < 256 |- _ => fail
      | _ => pose proof (Z_of_byte_range b) end
  end;
  repeat match goal with
  | |- context [b64_value (b64_digit ?z)] =>
      rewrite (proj1 (b64_digit_facts z ltac:(Z.to_euclidean_division_equations; lia)))
  end.

Lemma list_ind3 {A} (P : list A -> Prop) :
  P [] -> (forall a, P [a]) -> (forall a b, P [a; b]) -> (forall a b c l, P l -> P (a :: b :: c :: l)) -> forall l, P l.
Proof.
  intros H0 H1 H2 H3. fix IH 1. intros [|a [|b [|c l]]]; [exact H0|apply H1|apply H2|apply H3, IH].
Qed.

Lemma real_b64_round_trip bs : real_b64_decode (real_b64_encode bs) = Some bs.
Proof.
  induction bs as [|a|a b|a b c bs IH] using list_ind3; [done|..]; cbn [real_b64_encode real_b64_decode]; sextets;
    cbn [mbind option_bind].
  - rewrite (proj2 (Z.eqb_eq _ 0)) by (Z.to_euclidean_division_equations; lia).
    do 2 f_equal. apply byte_of_Z_eq. Z.to_euclidean_division_equations; lia.
  - rewrite (proj2 (Z.eqb_eq _ 0)) by (Z.to_euclidean_division_equations; lia).
    do 2 f_equal; [|f_equal]; apply byte_of_Z_eq; Z.to_euclidean_division_equations; lia.
  - rewrite IH. cbn [mbind option_bind].
    do 2 f_equal; [|f_equal; [|f_equal]]; apply byte_of_Z_eq; Z.to_euclidean_division_equations; lia.
Qed.

Lemma real_b64_length bs : blen (real_b64_encode bs) = (blen bs * 4 + 2) / 3.
Proof.
  induction bs as [|a|a b|a b c bs IH] using list_ind3; [done..|]. cbn [real_b64_encode].
  rewrite !blen_cons, IH. pose proof (blen_nonneg bs). Z.to_euclidean_division_equations; lia.
Qed.

Lemma real_b64_alphabet bs : Forall (fun b => b64_char b = true) (real_b64_encode bs).
Proof.
  induction bs as [|a|a b|a b c bs IH] using list_ind3; cbn [real_b64_encode]; repeat constructor; [..|exact IH];
    sextets; apply b64_digit_facts; Z.to_euclidean_division_equations; lia.
Qed.

#[global] Instance real_b64_laws : Base64Laws real_b64.
Proof. split; [exact real_b64_round_trip|exact real_b64_length|exact real_b64_alphabet]. Qed.

(** Two cards of the same relay, and another family's, for a concrete run. *)
Definition own_url : option bytes := Some (str " HTTPS://relay.example/ ").
Definition own_token : option bytes := Some (str "member-secret").
Definition foreign_card : RelayEndpoint :=
  mk_endpoint (str "https://other.example")
    (relay_deposit_token_for (C := toy_crypto) (B := real_b64) (str "another family")).

Lemma posts_never_strand_witness :
  let m := mk_group_member (Some (ep_url foreign_card)) (Some (ep_token foreign_card)) false true in
  resolved_contact_delivery_relay (C := toy_crypto) (B := real_b64) (gm_relay_url m) (gm_relay_token m)
    own_url own_token true = Some foreign_card
  /\ core_group_fanout_relay_target (C := toy_crypto) (B := real_b64) [m] own_url own_token = None
  /\ relay_endpoint_from own_url own_token = Some (mk_endpoint (str "https://relay.example") (str "member-secret")).
Proof.
  pose proof (posts_never_strand (C := toy_crypto) (B := real_b64)
    (Some (ep_url foreign_card)) (Some (ep_token foreign_card)) own_url own_token true
    (mk_endpoint (str "https://relay.example") (str "member-secret")) [] ltac:(vm_compute; reflexivity)) as [H _].
  specialize (H foreign_card foreign_card ltac:(vm_compute; reflexivity) ltac:(vm_compute; reflexivity)).
  split_and!; vm_compute; reflexivity.
Defined.

(** * Decoded pages are well formed *)

(** A row a page may hold. *)
Definition wf_fetched (e : CoreRelayFetchedEnvelope) : Prop :=
  0 <= fe_id e /\ blen (fe_msg_id e) = 16 /\ blen (fe_recipient_hint e) = 8
  /\ 1 <= blen (fe_sealed e) <= RELAY_MAX_SEALED_BYTES.

(** What a decoded page promises its consumers: at most 256 rows of legal sizes,
    in strictly increasing id order, at most 12 MiB in all, and a cursor that is
    the last row's id. *)
Record wf_page (p : CoreRelayFetchPage) : Prop := {
  wf_rows : Forall wf_fetched (fp_envelopes p);
  wf_count : blen (fp_envelopes p) <= RELAY_FETCH_MAX_ROWS;
  wf_ids : StronglySorted Z.lt (fe_id <$> fp_envelopes p);
  wf_bytes : foldr Z.add 0 ((fun e => blen (fe_sealed e)) <$> fp_envelopes p) <= RELAY_FETCH_MAX_DECODED_BYTES;
  wf_cursor : 0 <= fp_next_cursor p;
  wf_cursor_last : forall e, last (fp_envelopes p) = Some e -> fp_next_cursor p = fe_id e;
}.

Section decode.
Context `{B : Base64} `{J : RelayJson}.

Lemma validate_envelope_ok m h s u :
  validate_envelope m h s = Ok u -> blen m = 16 /\ blen h = 8 /\ 1 <= blen s <= RELAY_MAX_SEALED_BYTES.
Proof.
  unfold validate_envelope, relay_validate_envelope_sizes. intros H. inv_ok. bools.
  pose proof (blen_nonneg s). lia.
Qed.

Lemma decode_fetched_ok item db prev e db' :
  decode_fetched item db prev = Ok (e, db') ->
  wf_fetched e /\ fe_id e = ew_id item /\ db' = db + blen (fe_sealed e) /\ db' <= RELAY_FETCH_MAX_DECODED_BYTES
  /\ (forall p, prev = Some p -> p < fe_id e).
Proof.
  unfold decode_fetched. intros H. inv_ok. injection H as <- <-. bools.
  match goal with Hv : validate_envelope _ _ _ = _ |- _ => apply validate_envelope_ok in Hv end.
  unfold wf_fetched; cbn. split_and!; try done; try lia. intros p ->. bools. lia.
Qed.

Lemma decode_fetched_all_ok items db prev es lst :
  decode_fetched_all items db prev = Ok (es, lst) ->
  Forall wf_fetched es /\ length es = length items
  /\ StronglySorted Z.lt (fe_id <$> es)
  /\ (forall p, prev = Some p -> Forall (fun e => p < fe_id e) es)
  /\ (es = [] \/ db + foldr Z.add 0 ((fun e => blen (fe_sealed e)) <$> es) <= RELAY_FETCH_MAX_DECODED_BYTES)
  /\ lst = match last es with Some e => Some (fe_id e) | None => prev end.
Proof.
  revert db prev es. induction items as [|item items IH]; intros db prev es; cbn [decode_fetched_all]; intros H.
  { injection H as <- <-. split_and!; try done; [constructor|left; done]. }
  inv_ok. destruct a as [e db']. inv_ok. destruct a as [es' lst']. inv_ok. injection H as <- <-.
  apply decode_fetched_ok in Ha as (Hwf & Hid & Hdb & Hmax & Hprev).
  apply IH in Ha0 as (Hwfs & Hlen & Hsort & Hgt & Hsum & Hlast). specialize (Hgt _ eq_refl).
  split_and!.
  - by constructor.
  - cbn. by rewrite Hlen.
  - cbn. constructor; [done|]. apply Forall_fmap. rewrite Hid. exact Hgt.
  - intros p Hp. constructor; [by apply Hprev|]. specialize (Hprev _ Hp). rewrite Hid in Hprev.
    eapply Forall_impl; [exact Hgt|cbn; lia].
  - right. cbn. destruct Hsum as [->|Hsum]; cbn; lia.
  - rewrite Hlast. destruct es' as [|e' es']; [cbn; by rewrite Hid|]. rewrite last_cons_cons.
    destruct (last (e' :: es')) eqn:El; [done|]. by apply last_None in El.
Qed.

Lemma decode_page_wf body page : relay_decode_fetch_page body = Ok page -> wf_page page.
Proof.
  unfold relay_decode_fetch_page. intros H. inv_ok. destruct a3 as [es lst]. inv_ok. bools.
  match goal with Hd : decode_fetched_all _ _ _ = _ |- _ =>
    apply decode_fetched_all_ok in Hd as (Hwf & Hlen & Hsort & _ & Hsum & Hlast) end.
  constructor; cbn [fp_envelopes fp_next_cursor]; try done.
  - unfold blen in *. by rewrite Hlen.
  - destruct Hsum as [->|Hsum]; [vm_compute; discriminate|lia].
  - intros e He. rewrite He in Hlast. subst lst. bools. done.
Qed.

(** Whatever bytes a relay answers a fetch with, a page that decodes is well
    formed: at most 256 rows of legal sizes in strictly increasing id order, at most
    12 MiB of payload, and the cursor is the last row's id. *)
Theorem decoded_page_wf body page : relay_decode_fetch_page body = Ok page -> wf_page page.
Proof. apply decode_page_wf. Qed.

End decode.

(** JSON that answers every fetch with one page, for concrete runs. *)
Definition one_page_json (page : FetchResponse) : RelayJson := {|
  post_envelope_to_json _ := Ok []; ack_to_json _ := Ok []; presence_to_json _ := Ok [];
  rotate_to_json _ := Ok []; post_of_json _ := Ok 0; fetch_of_json _ := Ok page;
  presence_of_json _ := Err "none"%string; rotate_of_json _ := Err "none"%string;
  status_of_json _ := Err "none"%string |}.

Definition wire_row (id : Z) : EnvelopeWire :=
  mk_envelope_wire id (real_b64_encode (replicate 16 x01)) 3 (real_b64_encode (replicate 8 x02))
    (real_b64_encode [x0a; x0b]) 99.

Lemma decoded_page_wf_witness :
  exists page, relay_decode_fetch_page (B := real_b64)
                 (J := one_page_json (mk_fetch_response [wire_row 4; wire_row 9] 9)) [] = Ok page
    /\ blen (fp_envelopes page) = 2 /\ wf_page page.
Proof.
  eexists. split; [vm_compute; reflexivity|]. split; [reflexivity|].
  refine (decoded_page_wf (B := real_b64) (J := one_page_json (mk_fetch_response [wire_row 4; wire_row 9] 9)) [] _ _).
  vm_compute; reflexivity.
Defined.

(** * Shrinking a page that is too big *)

(** The limits a caller asks with, halving after every oversized answer. *)
Fixpoint shrink_chain (fuel : nat) (limit : Z) : list Z :=
  match fuel with
  | O => []
  | S fuel => match relay_fetch_shrunk_limit limit with
              | Some l => l :: shrink_chain fuel l
              | None => []
              end
  end.

Lemma last_cons_default {A} (x d : A) l : List.last (x :: l) d = List.last l x.
Proof.
  revert x d. induction l as [|y l IH]; intros x d; [done|].
  change (List.last (y :: l) d = List.last (y :: l) x). by rewrite (IH y d), (IH y x).
Qed.

Lemma shrunk_limit_spec limit l :
  relay_fetch_shrunk_limit limit = Some l -> 1 <= l /\ 2 * l <= Z.min limit 256 /\ l <= 128.
Proof.
  unfold relay_fetch_shrunk_limit, RELAY_FETCH_MAX_ROWS. case_match eqn:E; [done|]. bools. intros [= <-].
  Z.to_euclidean_division_equations. lia.
Qed.

Lemma shrink_chain_length fuel k limit :
  0 <= k -> Z.min limit 256 < 2 ^ (k + 1) -> Z.of_nat (length (shrink_chain fuel limit)) <= k.
Proof.
  revert k limit. induction fuel as [|fuel IH]; intros k limit Hk Hl; [cbn; lia|]. cbn [shrink_chain].
  destruct (relay_fetch_shrunk_limit limit) as [l|] eqn:E; [|cbn; lia]. apply shrunk_limit_spec in E as (H1 & H2 & H3).
  destruct (decide (k = 0)) as [->|Hk0]; [change (2 ^ (0 + 1)) with 2 in Hl; lia|].
  cbn [length]. rewrite Nat2Z.inj_succ. specialize (IH (k - 1) l ltac:(lia)).
  replace (k - 1 + 1) with k in IH by lia. rewrite Z.pow_add_r in Hl by lia. change (2 ^ 1) with 2 in Hl. lia.
Qed.

(** Halving the row limit of a page that came back too big ends: from any limit
    at most eight smaller limits are tried, however long one keeps asking; each is
    one [relay_build_fetch_path] accepts; and asking stops only at a single row. *)
Theorem shrinking_terminates fuel limit :
  let chain := shrink_chain fuel limit in
  (length chain <= 8)%nat
  /\ Forall (fun l => 1 <= l <= RELAY_FETCH_MAX_ROWS) chain
  /\ (1 <= limit -> (8 < fuel)%nat -> List.last chain (Z.min limit RELAY_FETCH_MAX_ROWS) = 1).
Proof.
  cbn zeta. split_and!.
  - pose proof (shrink_chain_length fuel 8 limit ltac:(lia)) as H. change (2 ^ (8 + 1)) with 512 in H. lia.
  - revert limit. induction fuel as [|fuel IH]; intros limit; [constructor|]. cbn [shrink_chain].
    destruct (relay_fetch_shrunk_limit limit) as [l|] eqn:E; [|constructor].
    apply shrunk_limit_spec in E. constructor; [unfold RELAY_FETCH_MAX_ROWS; lia|apply IH].
  - intros H1 Hf.
    assert (forall fuel k limit, 1 <= limit -> 0 <= k -> Z.min limit 256 < 2 ^ (k + 1) -> k < Z.of_nat fuel ->
      List.last (shrink_chain fuel limit) (Z.min limit RELAY_FETCH_MAX_ROWS) = 1) as Hgen.
    { clear. induction fuel as [|fuel IH]; intros k limit H1 Hk Hl Hf; [lia|]. cbn [shrink_chain].
      destruct (relay_fetch_shrunk_limit limit) as [l|] eqn:E.
      - apply shrunk_limit_spec in E as (Hl1 & Hl2 & Hl3).
        destruct (decide (k = 0)) as [->|Hk0]; [change (2 ^ (0 + 1)) with 2 in Hl; lia|].
        rewrite <-(IH (k - 1) l) by (replace (k - 1 + 1) with k by lia; rewrite Z.pow_add_r in Hl by lia;
          change (2 ^ 1) with 2 in Hl; lia).
        replace (Z.min l RELAY_FETCH_MAX_ROWS) with l by (unfold RELAY_FETCH_MAX_ROWS; lia).
        apply last_cons_default.
      - unfold relay_fetch_shrunk_limit in E. case_match eqn:E'; [|done]. bools. cbn. unfold RELAY_FETCH_MAX_ROWS in *. lia. }
    apply (Hgen fuel 8); [done|lia|change (2 ^ (8 + 1)) with 512; lia|lia].
Qed.

Lemma shrinking_terminates_witness :
  shrink_chain 20 256 = [128; 64; 32; 16; 8; 4; 2; 1]
  /\ List.last (shrink_chain 20 256) (Z.min 256 RELAY_FETCH_MAX_ROWS) = 1.
Proof. split; [reflexivity|]. apply (shrinking_terminates 20 256); lia. Defined.
