(* ===== verification/RelayCursor.v ===== *)
(** Where a walk over a relay mailbox got to ([core/src/relay_cursor.rs] and the
    tables [relay_fetch_cursors] and [relay_hint_source_state] of
    [core/src/store.rs]).

    A mailbox has two cursors: the frontier, the highest id behind which every row
    was processed, and the progress of the sweep under way.  The table is a finite
    map from the mailbox's key to its row; each statement's effect is written
    out, a missing row reading as zeros. *)
From stdpp Require Import base numbers list gmap strings sorting.
From S2P Require Import Prelude StdModel Wire Crypto RelayPolicy RelayWire Hints.

(** * The policy *)

Definition RELAY_CURSOR_KEY_CONTEXT : bytes := str "cruisemesh relay fetch cursor key v1".
Definition RELAY_HINT_SOURCE_DIGEST_CONTEXT : bytes := str "cruisemesh relay hint source set v1".
Definition RELAY_SWEEP_INTERVAL_MS : Z := 6 * 60 * 60 * 1000.
Definition RELAY_MAILBOX_MAX_PAGES_PER_PASS : Z := 4.
Definition RELAY_MAILBOX_MAX_ENVELOPES_PER_PASS : Z := 512.
Definition RELAY_MAILBOX_CONTINUATION_DELAY_MS : Z := 1000.

Inductive RelayMailboxWalkAction : Type := ContinueWalk | YieldAndScheduleContinuation.

#[global] Instance RelayMailboxWalkAction_eq_dec : EqDecision RelayMailboxWalkAction.
Proof. solve_decision. Defined.

Definition relay_mailbox_walk_action (pages_fetched envelopes_fetched : Z) : RelayMailboxWalkAction :=
  if (RELAY_MAILBOX_MAX_PAGES_PER_PASS <=? pages_fetched)
     || (RELAY_MAILBOX_MAX_ENVELOPES_PER_PASS <=? envelopes_fetched)
  then YieldAndScheduleContinuation else ContinueWalk.

Definition relay_sweep_due (swept_this_session : bool)
  (last_sweep_at_ms sweep_progress_after_id now_ms : Z) : bool :=
  if 0 <? sweep_progress_after_id then true
  else if last_sweep_at_ms <=? 0 then negb swept_this_session
  else if now_ms <? last_sweep_at_ms then true
  else RELAY_SWEEP_INTERVAL_MS <=? now_ms - last_sweep_at_ms.

Definition relay_pass_start_cursor (sweeping : bool) (persisted_after_id sweep_progress_after_id : Z) : Z :=
  if sweeping then Z.max sweep_progress_after_id 0 else Z.max persisted_after_id 0.

Definition relay_sweep_restart_from_zero (sweep_progress_after_id sweep_started_at_ms now_ms : Z) : bool :=
  if sweep_progress_after_id <=? 0 then false
  else if (sweep_started_at_ms <=? 0) || (now_ms <? sweep_started_at_ms) then true
  else RELAY_SWEEP_INTERVAL_MS <=? now_ms - sweep_started_at_ms.

Definition relay_cursor_advance (persisted_after_id page_next_cursor : Z) (page_fully_processed : bool) : Z :=
  let persisted := Z.max persisted_after_id 0 in
  if negb page_fully_processed || (page_next_cursor <=? persisted) then persisted else page_next_cursor.

Definition relay_frontier_after_completed_sweep (persisted_after_id swept_through_id : Z) : Z :=
  let persisted := Z.max persisted_after_id 0 in
  let swept := Z.max swept_through_id 0 in
  if (swept <=? 0) || (persisted <=? swept) then persisted else swept.

Definition relay_fetch_walk_continues (page_envelope_count after_id page_next_cursor : Z) : bool :=
  (0 <? page_envelope_count) && (after_id <? page_next_cursor).

(** ** Names of mailboxes and of hint sources *)

(** What is hashed: the sorted set of ids, each with its length in front. *)
Definition hint_source_preimage (source_ids : list bytes) : bytes :=
  RELAY_HINT_SOURCE_DIGEST_CONTEXT
  ++ concat ((fun id => be_bytes 8 (blen id) ++ id) <$> dedup (merge_sort bytes_le source_ids)).

Section names.
Context `{C : Crypto} `{B : Base64}.

Definition relay_cursor_key (relay_url relay_token : bytes) : bytes :=
  let url := normalize_relay_url relay_url in
  let token := trim relay_token in
  if bool_decide (url = []) || bool_decide (token = []) then []
  else b64_encode (blake2b 32 (RELAY_CURSOR_KEY_CONTEXT ++ url ++ [x00] ++ token)).

Definition relay_hint_source_digest (source_ids : list bytes) : bytes :=
  b64_encode (blake2b 32 (hint_source_preimage source_ids)).

End names.

(** * The cursor table *)

Record RelayFetchCursor : Type := mk_cursor_row {
  after_id : Z;
  last_sweep_at_ms : Z;
  sweep_after_id : Z;
  sweep_started_at_ms : Z;
}.

Definition no_cursor : RelayFetchCursor := mk_cursor_row 0 0 0 0.

(** The two tables. *)
Record cursor_db : Type := mk_cursor_db {
  cursors : gmap bytes RelayFetchCursor;
  hint_source_digest : option bytes;
}.

(** The row the queries read, zeros when there is none. *)
Definition row_of (db : cursor_db) (config_key : bytes) : RelayFetchCursor :=
  default no_cursor (cursors db !! config_key).

Definition put_row (db : cursor_db) (config_key : bytes) (r : RelayFetchCursor) : cursor_db :=
  mk_cursor_db (<[config_key := r]> (cursors db)) (hint_source_digest db).

Definition relay_fetch_cursor (db : cursor_db) (config_key : bytes) : RelayFetchCursor :=
  match config_key with [] => no_cursor | _ => row_of db config_key end.

Definition advance_relay_fetch_cursor (db : cursor_db) (config_key : bytes)
  (page_next_cursor : Z) (page_fully_processed : bool) : cursor_db * Z :=
  match config_key with
  | [] => (db, 0)
  | _ =>
      let r := row_of db config_key in
      let advanced := relay_cursor_advance (after_id r) page_next_cursor page_fully_processed in
      if advanced =? after_id r then (db, after_id r)
      else (put_row db config_key
              (mk_cursor_row advanced (last_sweep_at_ms r) (sweep_after_id r) (sweep_started_at_ms r)),
            advanced)
  end.

Definition advance_relay_sweep_cursor (db : cursor_db) (config_key : bytes)
  (page_next_cursor : Z) (page_fully_processed : bool) (now_ms : Z) : cursor_db * Z :=
  match config_key with
  | [] => (db, 0)
  | _ =>
      let r := row_of db config_key in
      let persisted := sweep_after_id r in
      let advanced := relay_cursor_advance persisted page_next_cursor page_fully_processed in
      if advanced =? persisted then (db, persisted)
      else
        let started := if persisted <=? 0 then now_ms else sweep_started_at_ms r in
        (put_row db config_key (mk_cursor_row (after_id r) (last_sweep_at_ms r) advanced started), advanced)
  end.

Definition reset_relay_sweep_progress (db : cursor_db) (config_key : bytes) (now_ms : Z) : cursor_db :=
  match config_key with
  | [] => db
  | _ => mk_cursor_db
           (alter (fun r => mk_cursor_row (after_id r) (last_sweep_at_ms r) 0 now_ms) config_key (cursors db))
           (hint_source_digest db)
  end.

Definition note_relay_sweep_completed (db : cursor_db) (config_key : bytes)
  (now_ms swept_through_id : Z) : cursor_db * bool :=
  match config_key with
  | [] => (db, false)
  | _ =>
      let persisted := after_id (row_of db config_key) in
      let repaired := relay_frontier_after_completed_sweep persisted swept_through_id in
      (put_row db config_key (mk_cursor_row repaired now_ms 0 0), repaired <? persisted)
  end.

Definition clear_relay_fetch_cursors (db : cursor_db) : cursor_db :=
  mk_cursor_db ∅ (hint_source_digest db).

Section hint_sources.
Context `{C : Crypto} `{B : Base64}.

(** The digest write and the reset are one transaction. *)
Definition note_relay_hint_sources (db : cursor_db) (st : routing) (own_user_id : bytes) : cursor_db * bool :=
  let digest := relay_hint_source_digest (relay_hint_source_ids st own_user_id) in
  if decide (hint_source_digest db = Some digest) then (db, false)
  else
    let invalidates := bool_decide (is_Some (hint_source_digest db)) in
    (mk_cursor_db
       (if invalidates then (fun r => mk_cursor_row 0 (last_sweep_at_ms r) 0 0) <$> cursors db else cursors db)
       (Some digest),
     invalidates).

End hint_sources.

(** * The hashed form names the set *)

Definition frame_id (id : bytes) : bytes := be_bytes 8 (blen id) ++ id.

Lemma frames_inj l1 l2 :
  Forall (fun id => in_u64 (blen id)) l1 -> Forall (fun id => in_u64 (blen id)) l2 ->
  concat (frame_id <$> l1) = concat (frame_id <$> l2) -> l1 = l2.
Proof.
  intros H1. revert l2. induction H1 as [|x l1 Hx H1 IH]; intros l2 H2 He.
  { destruct l2 as [|y l2]; [done|]. apply (f_equal length) in He. cbn in He.
    unfold frame_id in He. rewrite !length_app, length_be_bytes in He. lia. }
  destruct H2 as [|y l2 Hy H2].
  { apply (f_equal length) in He. cbn in He. unfold frame_id in He.
    rewrite !length_app, length_be_bytes in He. lia. }
  cbn [fmap list_fmap concat] in He. unfold frame_id at 1 3 in He. rewrite <-!app_assoc in He.
  apply app_inj_1 in He as [Hlen He]; [|by rewrite !length_be_bytes].
  apply (f_equal be_value) in Hlen.
  rewrite !be_value_be_bytes_small in Hlen by (unfold_ints; change (256 ^ Z.of_nat 8) with 18446744073709551616; lia).
  apply app_inj_1 in He as [-> He]; [|unfold blen in Hlen; lia]. f_equal. by apply IH.
Qed.

(** The pre-image is the same exactly for the same set of ids: order, duplicates
    and where one id ends and the next begins do not matter. *)
Lemma hint_source_preimage_set l1 l2 :
  Forall (fun id => in_u64 (blen id)) l1 -> Forall (fun id => in_u64 (blen id)) l2 ->
  hint_source_preimage l1 = hint_source_preimage l2 <-> (forall x, x ∈ l1 <-> x ∈ l2).
Proof.
  intros H1 H2. rewrite <-(sort_dedup_set bytes_le). unfold hint_source_preimage. split.
  - intros He%app_inv_head. apply frames_inj; [..|exact He]; apply Forall_forall; intros x;
      rewrite elem_of_dedup, merge_sort_Permutation; revert x; by apply Forall_forall.
  - by intros ->.
Qed.

Section names_laws.
Context `{C : Crypto} {L : CryptoLaws C} `{B : Base64} {BL : Base64Laws B}.

Lemma b64_encode_inj a b : b64_encode a = b64_encode b -> a = b.
Proof. intros He. apply (f_equal b64_decode_opt) in He. rewrite !b64_round_trip in He. by injection He. Qed.

(** A device that noted its hint sources under one set of ids, and notes them
    again, invalidates nothing while the set is the same, in whatever order the
    tables list it; and when the set has changed (and the two pre-images do not
    collide) it sends every remembered walk back to the start, frontier and sweep
    progress both, while keeping when each mailbox was last swept. *)
Theorem hint_change_restarts_walks db st own st' own' :
  let db1 := (note_relay_hint_sources db st own).1 in
  let ids := relay_hint_source_ids st own in
  let ids' := relay_hint_source_ids st' own' in
  Forall (fun id => in_u64 (blen id)) (ids ++ ids') ->
  ((forall x, x ∈ ids <-> x ∈ ids') -> note_relay_hint_sources db1 st' own' = (db1, false))
  /\ (~ (forall x, x ∈ ids <-> x ∈ ids') ->
      (blake2b 32 (hint_source_preimage ids) = blake2b 32 (hint_source_preimage ids') ->
       hint_source_preimage ids = hint_source_preimage ids') ->
      let '(db2, invalidated) := note_relay_hint_sources db1 st' own' in
      invalidated = true /\ forall k,
        relay_fetch_cursor db2 k = mk_cursor_row 0 (last_sweep_at_ms (relay_fetch_cursor db1 k)) 0 0).
Proof.
  cbn zeta. intros [Hi Hi']%Forall_app.
  assert (hint_source_digest (note_relay_hint_sources db st own).1
          = Some (relay_hint_source_digest (relay_hint_source_ids st own))) as Hd.
  { unfold note_relay_hint_sources. by case_decide. }
  revert Hd. generalize (note_relay_hint_sources db st own).1. intros db1 Hd.
  split.
  - intros Hs. unfold note_relay_hint_sources. rewrite decide_True; [done|]. rewrite Hd. f_equal.
    unfold relay_hint_source_digest. do 2 f_equal. by apply hint_source_preimage_set.
  - intros Hns Hnc. unfold note_relay_hint_sources. rewrite decide_False.
    + rewrite Hd, bool_decide_eq_true_2 by eauto. split; [done|].
      intros [|b k]; [done|]. unfold relay_fetch_cursor, row_of. cbn [cursors].
      rewrite lookup_fmap. by destruct (cursors db1 !! (b :: k)).
    + rewrite Hd. intros [= He%b64_encode_inj]. apply Hns. by apply hint_source_preimage_set, Hnc.
Qed.

End names_laws.

Lemma hint_change_restarts_walks_witness :
  let st := mk_routing [] [[x02]] (mk_fleet None []) true true in
  let st' := mk_routing [] [[x02]; [x03]] (mk_fleet None []) true true in
  let db := mk_cursor_db {[ [x0a] := mk_cursor_row 40 7 9 8 ]} None in
  let db1 := (note_relay_hint_sources (C := toy_crypto) (B := real_b64) db st [x01]).1 in
  let r := note_relay_hint_sources (C := toy_crypto) (B := real_b64) db1 st' [x01] in
  r.2 = true /\ relay_fetch_cursor r.1 [x0a] = mk_cursor_row 0 7 0 0.
Proof.
  intros st st' db db1 r.
  pose proof (hint_change_restarts_walks (C := toy_crypto) (B := real_b64) db st [x01] st' [x01]) as H.
  cbn zeta in H. destruct H as [_ H].
  - change (Forall (fun id => in_u64 (blen id)) [[x01]; [x02]; [x01]; [x02]; [x03]]).
    repeat constructor; vm_compute; discriminate.
  - assert (~ (forall x, x ∈ relay_hint_source_ids (C := toy_crypto) st [x01]
                       <-> x ∈ relay_hint_source_ids (C := toy_crypto) st' [x01])) as Hn.
    { intros Hx. destruct (Hx [x03]) as [_ Hx']. change ([x03] ∈ [[x01]; [x02]; [x03]] -> [x03] ∈ [[x01]; [x02]]) in Hx'.
      assert ([x03] ∈ [[x01]; [x02]]) as Hin by (apply Hx'; set_solver). set_solver. }
    specialize (H Hn ltac:(vm_compute; discriminate)). subst r.
    fold db1 in H. destruct (note_relay_hint_sources (C := toy_crypto) (B := real_b64) db1 st' [x01]) as [db2 inv].
    destruct H as [-> H]. split; [done|]. rewrite H. vm_compute. reflexivity.
Defined.

(** * How the frontier moves *)

(** Every call that writes the tables. *)
Inductive cursor_op : Type :=
| PageDone (key : bytes) (next_cursor : Z) (fully_processed : bool)
| SweepPage (key : bytes) (next_cursor : Z) (fully_processed : bool) (now_ms : Z)
| SweepReset (key : bytes) (now_ms : Z)
| SweepDone (key : bytes) (now_ms swept_through_id : Z)
| HintSources (st : routing) (own_user_id : bytes)
| ClearAll.

Section moves.
Context `{C : Crypto} `{B : Base64}.

Definition cursor_step (db : cursor_db) (op : cursor_op) : cursor_db :=
  match op with
  | PageDone k c full => (advance_relay_fetch_cursor db k c full).1
  | SweepPage k c full now => (advance_relay_sweep_cursor db k c full now).1
  | SweepReset k now => reset_relay_sweep_progress db k now
  | SweepDone k now swept => (note_relay_sweep_completed db k now swept).1
  | HintSources st own => (note_relay_hint_sources db st own).1
  | ClearAll => clear_relay_fetch_cursors db
  end.

Definition cursor_run (db : cursor_db) (ops : list cursor_op) : cursor_db := foldl cursor_step db ops.

Definition frontier (db : cursor_db) (k : bytes) : Z := after_id (relay_fetch_cursor db k).

Lemma row_of_put db k r k' : row_of (put_row db k r) k' = if decide (k = k') then r else row_of db k'.
Proof. unfold row_of, put_row. cbn [cursors]. rewrite lookup_insert. by case_decide. Qed.

Lemma frontier_row db k : k <> [] -> frontier db k = after_id (row_of db k).
Proof. by destruct k. Qed.

Lemma frontier_put db k r k' :
  k' <> [] -> frontier (put_row db k r) k' = if decide (k = k') then after_id r else frontier db k'.
Proof. intros Hk. rewrite !frontier_row, row_of_put by done. by case_decide. Qed.

(** Each way the frontier of [k] can move. *)
Inductive frontier_move (db : cursor_db) (k : bytes) (f f' : Z) : cursor_op -> Prop :=
| move_none op : f' = f -> frontier_move db k f f' op
| move_up : f < f' -> frontier_move db k f f' (PageDone k f' true)
| move_sweep now : 0 < f' < f -> frontier_move db k f f' (SweepDone k now f')
| move_hints st own : f' = 0 -> (note_relay_hint_sources db st own).2 = true ->
    frontier_move db k f f' (HintSources st own)
| move_clear : f' = 0 -> frontier_move db k f f' ClearAll.

Lemma cursor_step_moves db op k :
  0 <= frontier db k -> frontier_move db k (frontier db k) (frontier (cursor_step db op) k) op.
Proof.
  intros H0. destruct k as [|b k0]; [by apply move_none|]. set (k := b :: k0) in *.
  assert (k <> []) as Hk by done. destruct op as [k' c full|k' c full now|k' now|k' now swept|st own|].
  - cbn [cursor_step]. unfold advance_relay_fetch_cursor. destruct k' as [|b' k']; [by apply move_none|].
    case_match eqn:E; [by apply move_none|]. bools. cbn [fst]. rewrite frontier_put by done. case_decide as Hd; [|by apply move_none].
    rewrite Hd in E. rewrite <-frontier_row in E by done. rewrite Hd, <-frontier_row by done. cbn [after_id].
    unfold relay_cursor_advance in *. destruct full; cbn [negb orb] in *.
    + destruct (c <=? Z.max (frontier db k) 0) eqn:Ec; bools; [apply move_none; lia|]. apply move_up. lia.
    + apply move_none. lia.
  - cbn [cursor_step]. unfold advance_relay_sweep_cursor. destruct k' as [|b' k']; [by apply move_none|].
    case_match eqn:E; [by apply move_none|]. apply move_none. cbn [fst]. rewrite frontier_put by done.
    case_decide as Hd; [|done]. cbn [after_id]. by rewrite Hd, <-frontier_row.
  - apply move_none. cbn [cursor_step]. unfold reset_relay_sweep_progress. destruct k' as [|b' k']; [done|].
    rewrite !frontier_row by done. unfold row_of. cbn [cursors]. rewrite lookup_alter.
    case_decide as Hd; [|done]. rewrite Hd. by destruct (cursors db !! k).
  - cbn [cursor_step]. unfold note_relay_sweep_completed. destruct k' as [|b' k']; [by apply move_none|]. cbn [fst].
    rewrite frontier_put by done. case_decide as Hd; [|by apply move_none]. rewrite Hd, <-frontier_row by done. cbn [after_id].
    unfold relay_frontier_after_completed_sweep.
    case_match eqn:E; [apply move_none; lia|]. bools.
    replace (Z.max swept 0) with swept by lia. apply move_sweep. lia.
  - cbn [cursor_step]. destruct (note_relay_hint_sources db st own) as [db2 inv] eqn:En. pose proof En as En'.
    unfold note_relay_hint_sources in En. case_decide as Hd; [injection En as <- <-; by apply move_none|].
    injection En as <- <-. cbn [fst]. case_bool_decide as Hs.
    + apply move_hints; [|by rewrite En'; cbn]. rewrite frontier_row by done. unfold row_of. cbn [cursors].
      rewrite lookup_fmap. by destruct (cursors db !! k).
    + by apply move_none.
  - apply move_clear. done.
Qed.

(** A page of [k] that the walk read through to the end, at or past [f]. *)
Definition licensed (ops : list cursor_op) (k : bytes) (f : Z) : Prop :=
  f = 0 \/ exists c, PageDone k c true ∈ ops /\ f <= c.

Lemma cursor_run_licensed db ops k :
  0 <= frontier db k -> frontier db k = 0 ->
  0 <= frontier (cursor_run db ops) k /\ licensed ops k (frontier (cursor_run db ops) k).
Proof.
  intros H0 Hz. induction ops as [|op ops IH] using rev_ind; [split; [done|by left]|].
  destruct IH as [IH0 IHl]. unfold cursor_run in *. rewrite foldl_app. cbn [foldl].
  set (db1 := foldl cursor_step db ops) in *.
  assert (forall f, f <= frontier db1 k -> 0 < f -> licensed (ops ++ [op]) k f) as Hle.
  { intros f Hf Hp. destruct IHl as [?|(c & Hc & ?)]; [lia|]. right. exists c. split; [set_solver|lia]. }
  pose proof (cursor_step_moves db1 op k IH0) as Hm. revert Hm.
  generalize (frontier (cursor_step db1 op) k). intros f' Hm.
  destruct Hm as [op' Hf|Hf|now Hf|st own Hf _|Hf].
  - rewrite Hf. split; [done|]. destruct (decide (frontier db1 k = 0)) as [->|]; [by left|apply Hle; lia].
  - split; [lia|]. right. eexists. split; [apply elem_of_app; right; by apply list_elem_of_singleton|done].
  - split; [lia|]. apply Hle; lia.
  - rewrite Hf. split; [lia|by left].
  - rewrite Hf. split; [lia|by left].
Qed.

(** However pages, sweeps, resets and membership changes interleave, a mailbox's
    frontier never runs ahead of what was processed: it is at most the cursor of
    some page of that mailbox that was processed through to its end.  One operation
    raises it only to such a page's cursor, and lowers it only when a completed sweep
    proved a lower top, when the hint sources changed, or when it is cleared. *)
Theorem frontier_never_skips ops op k :
  let db := cursor_run (mk_cursor_db ∅ None) ops in
  let f := frontier db k in
  0 <= f /\ licensed ops k f /\ frontier_move db k f (frontier (cursor_step db op) k) op.
Proof.
  cbn zeta. assert (frontier (mk_cursor_db ∅ None) k = 0) as Hz by (by destruct k).
  destruct (cursor_run_licensed (mk_cursor_db ∅ None) ops k) as [H0 Hl]; [lia|done|].
  split_and!; [done..|]. by apply cursor_step_moves.
Qed.

End moves.
