(* ===== verification/CarryQueue.v ===== *)
(** The carry queue: other people's mail a device holds until it can hand it on
    ([carried_envelopes] in [core/src/store.rs]).

    The table is the list of its rows, [msg_id] and the content digest being unique
    among them.  Admission ([enqueue_carried_envelope], [enqueue_relay_carried_envelope])
    and the ingestion of a fetched relay page ([ingest_relay_page]) insert a row and
    then make it fit the byte budgets by evicting the oldest rows that are not the
    family's, or take it out again.  Each runs in one SQL transaction: the model
    returns the new rows with the result, and an error that rolls the transaction
    back returns the old ones.

    [carry_stays_within_budget] is the invariant over every operation,
    [eviction_oldest_first] the exact set of rows an admission drops and
    [ingest_page_spec] what a page leaves behind.  The eviction loops run on fuel, one
    step per row of the table, which suffices ([evict_while_stops]).  [SUM] is exact:
    the column's sum is assumed to fit SQLite's integers ([Vec] lengths do). *)
From stdpp Require Import base numbers list gmap strings sorting.
From coqutil Require Import Datatypes.RecordSetters.
From S2P Require Import Prelude StdModel SqlModel Wire Crypto Message Frames Hints Engine RelayWire.
Import TriangleBracketNotations.

Definition CARRIED_CONTENT_DIGEST_LEN : nat := 32.
Definition DEFAULT_TOTAL_CARRY_BUDGET_BYTES : Z := 64 * 1024 * 1024.

Definition CARRY_ADMISSION_CAPACITY_ERROR : string :=
  "carry admission rejected: applicable byte budget cannot fit row".

(** A row of [carried_envelopes]. *)
Record carry_row : Type := mk_carry {
  ca_row : carried_row;
  ca_is_family : bool;
  ca_size_bytes : Z;
  ca_from_relay : bool;
  ca_content_digest : option bytes;
  ca_relay_uploaded_to : option bytes;
}.

Notation ca_envelope r := (cr_envelope (ca_row r)).
Notation ca_msg_id r := (ce_msg_id (ca_envelope r)).
Notation ca_expiry r := (ce_expiry (ca_envelope r)).

#[global] Instance CarriedEnvelope_eq_dec : EqDecision CarriedEnvelope.
Proof. solve_decision. Defined.
#[global] Instance carried_row_eq_dec : EqDecision carried_row.
Proof. solve_decision. Defined.
#[global] Instance carry_row_eq_dec : EqDecision carry_row.
Proof. solve_decision. Defined.

Record CarriedBudgetEnforcement : Type := mk_enforcement {
  cb_evicted_rows : Z;
  cb_evicted_bytes : Z;
  cb_total_bytes : Z;
  cb_within_budget : bool;
}.

(** [ORDER BY received_at ASC, msg_id ASC] *)
Definition carry_le (a b : carry_row) : Prop := carried_le (ca_row a) (ca_row b).

#[global] Instance carry_le_dec a b : Decision (carry_le a b).
Proof. unfold carry_le. apply _. Defined.

(** [SUM(size_bytes)], of all rows, of the family's and of the others. *)
Definition sum_sizes (q : list carry_row) : Z := foldr Z.add 0 (ca_size_bytes <$> q).
Definition family_rows (q : list carry_row) : list carry_row := filter (fun r => ca_is_family r = true) q.
Definition foreign_rows (q : list carry_row) : list carry_row := filter (fun r => ca_is_family r = false) q.

(** [DELETE FROM carried_envelopes WHERE msg_id = ?1] *)
Definition delete_carried (msg_id : bytes) (q : list carry_row) : list carry_row :=
  filter (fun r => ca_msg_id r <> msg_id) q.

(** [DELETE FROM carried_envelopes WHERE expiry <= ?1] *)
Definition delete_expired_carried (now_ms : Z) (q : list carry_row) : list carry_row :=
  filter (fun r => ~ (ca_expiry r <= now_ms)) q.

Definition carry_conflict (r r' : carry_row) : bool :=
  bool_decide (ca_msg_id r = ca_msg_id r')
  || bool_decide (is_Some (ca_content_digest r) /\ ca_content_digest r = ca_content_digest r').

(** [INSERT OR IGNORE INTO carried_envelopes] *)
Definition insert_carried (r : carry_row) (q : list carry_row) : list carry_row * bool :=
  if existsb (carry_conflict r) q then (q, false) else (q ++ [r], true).

Definition validate_carried_envelope (envelope : CarriedEnvelope) (now_ms : Z) : result CoreError unit :=
  if DEFAULT_HOP_TTL <? ce_hop_ttl envelope then Err (Malformed "carried envelope hop_ttl exceeds 7")
  else if (ce_expiry envelope <=? now_ms)
          || (i64_saturating_add now_ms MAX_CARRY_FUTURE_MS <? ce_expiry envelope)
  then Err (Malformed "carried envelope expiry is outside the accepted window")
  else Ok tt.

(** * Budgets *)

Definition oldest_foreign (protected_msg_id : option bytes) (q : list carry_row) : option carry_row :=
  head (merge_sort carry_le
    (filter (fun r => ca_is_family r = false /\ Some (ca_msg_id r) <> protected_msg_id) q)).

(** The locals of [enforce_carried_budgets_protecting], with the table. *)
Record eviction : Type := mk_eviction {
  ev_queue : list carry_row;
  ev_foreign_total : Z;
  ev_total : Z;
  ev_evicted_rows : Z;
  ev_evicted_bytes : Z;
}.

(** One turn of either [while] loop; [None] is its [break]. *)
Definition evict_one (protected_msg_id : option bytes) (e : eviction) : option eviction :=
  match oldest_foreign protected_msg_id (ev_queue e) with
  | None => None
  | Some r =>
      let size := ca_size_bytes r in
      Some {| ev_queue := delete_carried (ca_msg_id r) (ev_queue e);
              ev_foreign_total := i64_saturating_sub (ev_foreign_total e) size;
              ev_total := i64_saturating_sub (ev_total e) size;
              ev_evicted_rows := i64_saturating_add (ev_evicted_rows e) 1;
              ev_evicted_bytes := i64_saturating_add (ev_evicted_bytes e) (Z.max size 0) |}
  end.

Fixpoint evict_while (over : eviction -> bool) (protected_msg_id : option bytes) (fuel : nat) (e : eviction)
  : eviction :=
  match fuel with
  | O => e
  | S fuel =>
      if over e then
        match evict_one protected_msg_id e with
        | None => e
        | Some e' => evict_while over protected_msg_id fuel e'
        end
      else e
  end.

Definition enforce_carried_budgets_protecting (q : list carry_row)
  (foreign_budget_bytes total_budget_bytes : Z) (protected_msg_id : option bytes)
  : list carry_row * CarriedBudgetEnforcement :=
  let foreign_budget_bytes := Z.max foreign_budget_bytes 0 in
  let total_budget_bytes := Z.max total_budget_bytes 0 in
  let e0 := mk_eviction q (sum_sizes (foreign_rows q)) (sum_sizes q) 0 0 in
  let e1 := evict_while (fun e => foreign_budget_bytes <? ev_foreign_total e) protected_msg_id (length q) e0 in
  let e2 := evict_while (fun e => total_budget_bytes <? ev_total e) protected_msg_id (length q) e1 in
  (ev_queue e2,
   {| cb_evicted_rows := ev_evicted_rows e2;
      cb_evicted_bytes := ev_evicted_bytes e2;
      cb_total_bytes := Z.max (ev_total e2) 0;
      cb_within_budget := (ev_foreign_total e2 <=? foreign_budget_bytes) && (ev_total e2 <=? total_budget_bytes) |}).

Definition carried_admission_can_fit (q : list carry_row) (is_family : bool)
  (incoming_bytes foreign_budget_bytes total_budget_bytes : Z) : bool :=
  let family_bytes := sum_sizes (family_rows q) in
  let total_budget_bytes := Z.max total_budget_bytes 0 in
  if is_family then family_bytes <=? total_budget_bytes
  else (incoming_bytes <=? Z.max foreign_budget_bytes 0)
       && (i64_saturating_add family_bytes incoming_bytes <=? total_budget_bytes).

Definition finalize_carried_admission (q : list carry_row) (msg_id : bytes) (is_family : bool)
  (incoming_bytes foreign_budget_bytes total_budget_bytes : Z) : list carry_row * result CoreError bool :=
  if negb (carried_admission_can_fit q is_family incoming_bytes foreign_budget_bytes total_budget_bytes)
  then (delete_carried msg_id q, Ok false)
  else
    let '(q', pressure) :=
      enforce_carried_budgets_protecting q foreign_budget_bytes total_budget_bytes (Some msg_id) in
    if negb (cb_within_budget pressure)
    then (q', Err (Store "carry admission feasibility/enforcement mismatch"))
    else (q', Ok true).

(** * Admission *)

Section carry.
Context `{C : Crypto}.

Definition carried_content_digest (recipient_hint sealed : bytes) : bytes :=
  blake2b CARRIED_CONTENT_DIGEST_LEN (recipient_hint ++ sealed).

Definition new_carry_row (envelope : CarriedEnvelope) (is_family from_relay : bool) (received_at_ms : Z)
  : carry_row :=
  {| ca_row := mk_crow envelope received_at_ms;
     ca_is_family := is_family;
     ca_size_bytes := blen (ce_sealed envelope);
     ca_from_relay := from_relay;
     ca_content_digest := Some (carried_content_digest (ce_recipient_hint envelope) (ce_sealed envelope));
     ca_relay_uploaded_to := None |}.

(** The transaction both admissions run: insert, delete what has expired, fit. *)
Definition admit_carried (q : list carry_row) (row : carry_row) (now_ms foreign_budget_bytes total_budget_bytes : Z)
  : list carry_row * result CoreError bool :=
  let '(q1, changed) := insert_carried row q in
  if negb changed then (q, Ok false) else
  let q2 := delete_expired_carried now_ms q1 in
  match finalize_carried_admission q2 (ca_msg_id row) (ca_is_family row) (ca_size_bytes row)
          foreign_budget_bytes total_budget_bytes with
  | (_, Err e) => (q, Err e)
  | (q3, Ok true) => (q3, Ok true)
  | (q3, Ok false) => (q3, Err (Store CARRY_ADMISSION_CAPACITY_ERROR))
  end.

Definition enqueue_carried_envelope_with_budgets (q : list carry_row) (envelope : CarriedEnvelope)
  (is_family : bool) (received_at_ms foreign_budget_bytes total_budget_bytes : Z)
  : list carry_row * result CoreError bool :=
  match validate_carried_envelope envelope received_at_ms with
  | Err e => (q, Err e)
  | Ok _ => admit_carried q (new_carry_row envelope is_family false received_at_ms) received_at_ms
              foreign_budget_bytes total_budget_bytes
  end.

Definition enqueue_relay_carried_envelope_with_budget (q : list carry_row) (envelope : CarriedEnvelope)
  (now_ms total_budget_bytes : Z) : list carry_row * result CoreError bool :=
  match validate_carried_envelope envelope now_ms with
  | Err e => (q, Err e)
  | Ok _ => admit_carried q (new_carry_row envelope true true now_ms) now_ms I64_MAX total_budget_bytes
  end.

Definition enqueue_carried_envelope (q : list carry_row) (envelope : CarriedEnvelope) (is_family : bool)
  (received_at_ms foreign_budget_bytes : Z) : list carry_row * result CoreError bool :=
  enqueue_carried_envelope_with_budgets q envelope is_family received_at_ms foreign_budget_bytes
    DEFAULT_TOTAL_CARRY_BUDGET_BYTES.

Definition enqueue_relay_carried_envelope (q : list carry_row) (envelope : CarriedEnvelope) (now_ms : Z)
  : list carry_row * result CoreError bool :=
  enqueue_relay_carried_envelope_with_budget q envelope now_ms DEFAULT_TOTAL_CARRY_BUDGET_BYTES.

(** ** The digest migration *)

(** The loop over the rows without a digest, oldest first: the digests seen, the
    rows to update with theirs and the rows to delete. *)
Fixpoint digest_legacy (seen : list bytes) (legacy : list carry_row)
  : list (bytes * bytes) * list bytes :=
  match legacy with
  | [] => ([], [])
  | r :: legacy =>
      let digest := carried_content_digest (ce_recipient_hint (ca_envelope r)) (ce_sealed (ca_envelope r)) in
      if bool_decide (digest ∈ seen) then
        let '(updates, deletes) := digest_legacy seen legacy in (updates, ca_msg_id r :: deletes)
      else
        let '(updates, deletes) := digest_legacy (digest :: seen) legacy in
        ((ca_msg_id r, digest) :: updates, deletes)
  end.

Definition assign_digest (updates : list (bytes * bytes)) (r : carry_row) : carry_row :=
  match list_find (fun u => u.1 = ca_msg_id r) updates with
  | Some (_, u) => {| ca_row := ca_row r; ca_is_family := ca_is_family r; ca_size_bytes := ca_size_bytes r;
                      ca_from_relay := ca_from_relay r; ca_content_digest := Some u.2;
                      ca_relay_uploaded_to := ca_relay_uploaded_to r |}
  | None => r
  end.

Definition migrate_carried_content_digests (q : list carry_row) : list carry_row :=
  let seen := omap ca_content_digest q in
  let legacy := merge_sort carry_le (filter (fun r => ca_content_digest r = None) q) in
  let '(updates, deletes) := digest_legacy seen legacy in
  let q := assign_digest updates <$> q in
  let q := filter (fun r => ca_msg_id r ∉ deletes) q in
  (enforce_carried_budgets_protecting q I64_MAX DEFAULT_TOTAL_CARRY_BUDGET_BYTES None).1.

(** * A fetched relay page *)

Definition relay_row_already_known (d : engine_db) (q : list carry_row) (msg_id : bytes) : bool :=
  existsb (fun r => bool_decide (mr_msg_id r = Some msg_id)) (e_messages d)
  || bool_decide (is_Some (e_hidden d !! msg_id))
  || existsb (fun r => bool_decide (ca_msg_id r = msg_id)) q.

Definition carried_of_fetched (envelope : CoreRelayFetchedEnvelope) : CarriedEnvelope :=
  {| ce_msg_id := fe_msg_id envelope;
     ce_hop_ttl := fe_hop_ttl envelope;
     ce_expiry := fe_expiry_ms envelope;
     ce_recipient_hint := fe_recipient_hint envelope;
     ce_sealed := fe_sealed envelope |}.

(** The row stored for it: one hop spent ([u8::saturating_sub]). *)
Definition fetched_row (envelope : CoreRelayFetchedEnvelope) (now_ms : Z) : carry_row :=
  new_carry_row
    {| ce_msg_id := fe_msg_id envelope;
       ce_hop_ttl := Z.max 0 (fe_hop_ttl envelope - 1);
       ce_expiry := fe_expiry_ms envelope;
       ce_recipient_hint := fe_recipient_hint envelope;
       ce_sealed := fe_sealed envelope |} true true now_ms.

(** One row of the page: the table after it and its disposition. *)
Definition ingest_row (d : engine_db) (q : list carry_row) (now_ms : Z) (envelope : CoreRelayFetchedEnvelope)
  : list carry_row * result CoreError CoreInboundDisposition :=
  if fe_expiry_ms envelope <=? now_ms then (q, Ok Expired)
  else if negb (is_ok (validate_carried_envelope (carried_of_fetched envelope) now_ms)) then (q, Ok Rejected)
  else if relay_row_already_known d q (fe_msg_id envelope) then (q, Ok Seen)
  else
    let row := fetched_row envelope now_ms in
    let '(q1, inserted) := insert_carried row q in
    if inserted then
      match finalize_carried_admission q1 (fe_msg_id envelope) true (ca_size_bytes row)
              I64_MAX DEFAULT_TOTAL_CARRY_BUDGET_BYTES with
      | (q2, Ok true) => (q2, Ok Carried)
      | (q2, Ok false) => (q2, Ok Failed)
      | (q2, Err e) => (q2, Err e)
      end
    else (q1, Ok Seen).

Fixpoint ingest_rows (d : engine_db) (q : list carry_row) (now_ms : Z) (envelopes : list CoreRelayFetchedEnvelope)
  : list carry_row * result CoreError (list CoreRelayEnvelopeDisposition) :=
  match envelopes with
  | [] => (q, Ok [])
  | envelope :: envelopes =>
      match ingest_row d q now_ms envelope with
      | (q1, Err e) => (q1, Err e)
      | (q1, Ok disposition) =>
          match ingest_rows d q1 now_ms envelopes with
          | (q2, Err e) => (q2, Err e)
          | (q2, Ok items) =>
              (q2, Ok (mk_item (fe_id envelope) (fe_msg_id envelope) disposition (fe_recipient_hint envelope)
                         :: items))
          end
      end
  end.

Record CoreRelayPageIngest : Type := mk_ingest {
  ig_rows : list CoreRelayEnvelopeDisposition;
  ig_rows_returned : Z;
  ig_rows_ingested : Z;
  ig_rows_already_known : Z;
  ig_rows_expired : Z;
  ig_rows_rejected : Z;
  ig_fully_processed : bool;
}.

Definition count_disposition (disposition : CoreInboundDisposition) (items : list CoreRelayEnvelopeDisposition) : Z :=
  blen (filter (fun i => it_disposition i = disposition) items).

Definition ingest_relay_page (d : engine_db) (q : list carry_row) (envelopes : list CoreRelayFetchedEnvelope)
  (now_ms : Z) : list carry_row * result CoreError CoreRelayPageIngest :=
  if bool_decide (envelopes = []) then (q, Ok (mk_ingest [] 0 0 0 0 0 true)) else
  match ingest_rows d (delete_expired_carried now_ms q) now_ms envelopes with
  | (_, Err e) => (q, Err e)
  | (q', Ok items) =>
      (q', Ok {| ig_rows := items;
                 ig_rows_returned := as_u32 (blen envelopes);
                 ig_rows_ingested := count_disposition Carried items;
                 ig_rows_already_known := count_disposition Seen items;
                 ig_rows_expired := count_disposition Expired items;
                 ig_rows_rejected := count_disposition Rejected items;
                 ig_fully_processed := forallb (fun i => bool_decide (it_disposition i <> Failed)) items |})
  end.

(** * Upload markers *)

Definition with_uploaded_to (url : option bytes) (r : carry_row) : carry_row :=
  {| ca_row := ca_row r; ca_is_family := ca_is_family r; ca_size_bytes := ca_size_bytes r;
     ca_from_relay := ca_from_relay r; ca_content_digest := ca_content_digest r; ca_relay_uploaded_to := url |}.

(** [UPDATE ... SET relay_uploaded_to = ?2 WHERE msg_id = ?1 AND relay_uploaded_to IS NULL] *)
Definition mark_carried_envelope_relay_uploaded (q : list carry_row) (msg_id relay_url : bytes)
  : list carry_row * bool :=
  let hit r := bool_decide (ca_msg_id r = msg_id /\ ca_relay_uploaded_to r = None) in
  ((fun r => if hit r then with_uploaded_to (Some relay_url) r else r) <$> q, existsb hit q).

Definition clear_carried_relay_upload_markers (q : list carry_row) : list carry_row * Z :=
  (with_uploaded_to None <$> q, blen (filter (fun r => is_Some (ca_relay_uploaded_to r)) q)).

(** ** Relay-upload candidates *)

(** [(hint, recipient)] for every hint a carried envelope could be addressed by. *)
Definition carried_hint_recipients (rt : routing) (now_ms : Z) : list (bytes * bytes) :=
  (rt_contacts rt ≫= fun user_id => (fun hint => (hint, user_id)) <$> recent_hints_for user_id now_ms)
  ++ (rt_groups rt ≫= fun group =>
        match find (fun id => bool_decide (id ∈ rt_contacts rt)) (member_user_ids group) with
        | None => []
        | Some member => (fun hint => (hint, member)) <$> recent_hints_for (group_id group) now_ms
        end).

(** The join with [carried_hint_map]: [INSERT OR IGNORE] keeps a hint's first entry. *)
Definition hint_recipient (hint_map : list (bytes * bytes)) (hint : bytes) : option bytes :=
  snd <$> find (fun m => bool_decide (m.1 = hint)) hint_map.

(** [m.recipient_user_id IS NULL OR m.recipient_user_id NOT IN (...)] *)
Definition not_skipped (skip : list bytes) (recipient : option bytes) : bool :=
  match recipient with None => true | Some u => bool_decide (u ∉ skip) end.

Definition family_carried_envelopes (rt : routing) (q : list carry_row) (limit now_ms : Z)
  (skip_recipient_user_ids : list bytes) : list CarriedEnvelope :=
  let hint_map := carried_hint_recipients rt now_ms in
  let recipient r := hint_recipient hint_map (ce_recipient_hint (ca_envelope r)) in
  let candidates := filter (fun r => ca_is_family r = true /\ ca_from_relay r = false
                       /\ ca_relay_uploaded_to r = None /\ now_ms < ca_expiry r
                       /\ not_skipped skip_recipient_user_ids (recipient r) = true) q in
  (fun r => ca_envelope r)
    <$> round_robin (fun r => default [] (recipient r)) carry_le carry_le limit candidates.

End carry.

(** * Sums and deletions *)

#[global] Instance carry_le_trans : Transitive carry_le.
Proof. intros a b c. unfold carry_le. apply transitivity. Qed.
#[global] Instance carry_le_total : Total carry_le.
Proof. intros a b. unfold carry_le. apply (total carried_le). Qed.

Notation carry_ids q := ((fun r => ca_msg_id r) <$> q).

Definition evictable (protected_msg_id : option bytes) (r : carry_row) : Prop :=
  ca_is_family r = false /\ Some (ca_msg_id r) <> protected_msg_id.

(** The table: [msg_id] is its key, digests are unique, and the size column is the
    sealed length. *)
Record carry_ok (q : list carry_row) : Prop := {
  co_key : NoDup (carry_ids q);
  co_digest : NoDup (omap ca_content_digest q);
  co_size : Forall (fun r => ca_size_bytes r = blen (ce_sealed (ca_envelope r))) q;
}.

Lemma sum_sizes_app q1 q2 : sum_sizes (q1 ++ q2) = sum_sizes q1 + sum_sizes q2.
Proof. unfold sum_sizes. induction q1 as [|r q1 IH]; cbn in *; lia. Qed.

Lemma sum_sizes_cons r q : sum_sizes (r :: q) = ca_size_bytes r + sum_sizes q.
Proof. done. Qed.

Lemma sum_sizes_split q : sum_sizes q = sum_sizes (family_rows q) + sum_sizes (foreign_rows q).
Proof.
  unfold family_rows, foreign_rows. induction q as [|r q IH]; [done|]. rewrite !filter_cons.
  destruct (ca_is_family r); [rewrite decide_True, decide_False by done|rewrite decide_False, decide_True by done];
    rewrite !sum_sizes_cons; lia.
Qed.

Definition sizes_nonneg (q : list carry_row) : Prop := Forall (fun r => 0 <= ca_size_bytes r) q.

Lemma sum_sizes_nonneg q : sizes_nonneg q -> 0 <= sum_sizes q.
Proof. unfold sum_sizes. induction 1; cbn in *; lia. Qed.

Lemma sum_sizes_filter (P : carry_row -> Prop) `{forall r, Decision (P r)} q :
  sizes_nonneg q -> sum_sizes (filter P q) <= sum_sizes q.
Proof.
  induction 1 as [|r q Hr Hq IH]; [done|]. rewrite filter_cons. case_decide; rewrite ?sum_sizes_cons; lia.
Qed.

Lemma sizes_nonneg_filter (P : carry_row -> Prop) `{forall r, Decision (P r)} q :
  sizes_nonneg q -> sizes_nonneg (filter P q).
Proof. unfold sizes_nonneg. rewrite !Forall_forall. intros Hq r [_ Hr]%list_elem_of_filter. auto. Qed.

Lemma carry_ok_nonneg q : carry_ok q -> sizes_nonneg q.
Proof.
  intros [_ _ Hs]. eapply Forall_impl; [exact Hs|]. cbn. intros r ->. apply blen_nonneg.
Qed.

Lemma omap_sublist_filter (P : carry_row -> Prop) `{forall r, Decision (P r)} q :
  sublist (omap ca_content_digest (filter P q)) (omap ca_content_digest q).
Proof.
  induction q as [|r q IH]; [done|]. rewrite filter_cons. cbn.
  case_decide; cbn; destruct (ca_content_digest r); [by constructor|done|by constructor|done].
Qed.

Lemma carry_ok_filter (P : carry_row -> Prop) `{forall r, Decision (P r)} q :
  carry_ok q -> carry_ok (filter P q).
Proof.
  intros [Hk Hd Hs]. split.
  - by apply nodup_filter_fmap.
  - eapply sublist_NoDup; [exact Hd|apply omap_sublist_filter].
  - rewrite Forall_forall in *. intros r [_ Hr]%list_elem_of_filter. auto.
Qed.

#[export] Hint Resolve sizes_nonneg_filter carry_ok_filter carry_ok_nonneg : mesh.

Lemma delete_carried_row q r : NoDup (carry_ids q) -> r ∈ q ->
  delete_carried (ca_msg_id r) q = filter (fun x => x <> r) q.
Proof.
  intros Hn Hr. apply filter_iff_in. intros x Hx. split; [by intros Hne ->|].
  intros Hne He. apply Hne. by eapply (nodup_key (fun x => ca_msg_id x)).
Qed.

Lemma sum_sizes_delete q r : NoDup (carry_ids q) -> r ∈ q ->
  sum_sizes (delete_carried (ca_msg_id r) q) = sum_sizes q - ca_size_bytes r.
Proof.
  intros Hn Hr. rewrite delete_carried_row by done. apply NoDup_fmap_1 in Hn. clear -Hn Hr.
  induction q as [|x q IH]; [by apply not_elem_of_nil in Hr|]. apply NoDup_cons in Hn as [Hx Hn].
  rewrite filter_cons. destruct (decide (x = r)) as [->|Hne].
  - rewrite decide_False by tauto. rewrite filter_all; [rewrite sum_sizes_cons; lia|].
    apply Forall_forall. intros y Hy ->. done.
  - rewrite decide_True by done. apply elem_of_cons in Hr as [->|Hr]; [done|].
    rewrite !sum_sizes_cons, IH by done. lia.
Qed.

Lemma filter_comm {A} (P Q : A -> Prop) `{forall x, Decision (P x)} `{forall x, Decision (Q x)} (l : list A) :
  filter P (filter Q l) = filter Q (filter P l).
Proof. rewrite !list_filter_filter. apply list_filter_iff. tauto. Qed.

Lemma foreign_rows_delete id q : foreign_rows (delete_carried id q) = delete_carried id (foreign_rows q).
Proof. apply filter_comm. Qed.

Lemma family_rows_delete q r : NoDup (carry_ids q) -> r ∈ q -> ca_is_family r = false ->
  family_rows (delete_carried (ca_msg_id r) q) = family_rows q.
Proof.
  intros Hn Hr Hf. unfold family_rows, delete_carried. rewrite filter_comm. apply filter_all, Forall_forall.
  intros x [Hx Hxq]%list_elem_of_filter He. assert (x = r) as -> by (by eapply (nodup_key (fun x => ca_msg_id x))).
  congruence.
Qed.

Lemma nodup_ids_filter (P : carry_row -> Prop) `{forall r, Decision (P r)} q :
  NoDup (carry_ids q) -> NoDup (carry_ids (filter P q)).
Proof. by apply nodup_filter_fmap. Qed.

#[export] Hint Resolve nodup_ids_filter : mesh.

(** * Eviction *)

Lemma oldest_foreign_some pr q r : oldest_foreign pr q = Some r ->
  r ∈ q /\ evictable pr r /\ forall x, x ∈ q -> evictable pr x -> carry_le r x.
Proof.
  unfold oldest_foreign. set (l := filter _ q). intros Hh.
  assert (StronglySorted carry_le (merge_sort carry_le l)) as Hs by (apply StronglySorted_merge_sort; apply _).
  pose proof (merge_sort_Permutation carry_le l) as Hp.
  destruct (merge_sort carry_le l) as [|y s]; [done|]. injection Hh as ->.
  assert (r ∈ l) as Hr by (rewrite <-Hp; left). subst l. apply list_elem_of_filter in Hr as [He Hr].
  split_and!; [done|done|]. intros x Hx Hex.
  assert (x ∈ r :: s) as Hxs by (rewrite Hp; by apply list_elem_of_filter).
  apply elem_of_cons in Hxs as [->|Hxs]; [destruct (total carry_le r r); done|].
  inversion Hs as [|? ? _ Hall]; subst. rewrite Forall_forall in Hall. auto.
Qed.

Lemma oldest_foreign_none pr q : oldest_foreign pr q = None -> forall x, x ∈ q -> ~ evictable pr x.
Proof.
  unfold oldest_foreign. set (l := filter _ q). intros Hh x Hx He.
  pose proof (merge_sort_Permutation carry_le l) as Hp.
  destruct (merge_sort carry_le l); [|done].
  assert (x ∈ l) as Hl by (by apply list_elem_of_filter). rewrite <-Hp in Hl. by apply not_elem_of_nil in Hl.
Qed.

(** The rows [es] evicted one after the other from [q], each the oldest that may be
    and each under pressure, leaving [q']. *)
Inductive evicted (pr : option bytes) (over : list carry_row -> Prop)
  : list carry_row -> list carry_row -> list carry_row -> Prop :=
| evicted_none q : evicted pr over q [] q
| evicted_next q r es q' :
    over q -> oldest_foreign pr q = Some r ->
    evicted pr over (delete_carried (ca_msg_id r) q) es q' -> evicted pr over q (r :: es) q'.

Lemma evicted_app pr over q es1 q1 es2 q2 :
  evicted pr over q es1 q1 -> evicted pr over q1 es2 q2 -> evicted pr over q (es1 ++ es2) q2.
Proof. induction 1; [done|]. intros H2. econstructor; eauto. Qed.

Lemma evicted_mono pr (over over' : list carry_row -> Prop) q es q' :
  (forall q, over q -> over' q) -> evicted pr over q es q' -> evicted pr over' q es q'.
Proof. intros Ho. induction 1; econstructor; eauto. Qed.

Lemma evicted_family pr over q es q' : NoDup (carry_ids q) -> evicted pr over q es q' ->
  family_rows q' = family_rows q.
Proof.
  intros Hn. induction 1 as [|q r es q' _ Hr _ IH]; [done|]. apply oldest_foreign_some in Hr as (Hr & [Hf _] & _).
  rewrite IH by (by apply nodup_ids_filter). by apply family_rows_delete.
Qed.

(** Exactly which rows go. *)
Lemma evicted_spec pr over q es q' : NoDup (carry_ids q) -> evicted pr over q es q' ->
  q' = filter (fun r => r ∉ es) q /\ NoDup es /\ Forall (fun r => r ∈ q /\ evictable pr r) es /\
  StronglySorted carry_le es /\
  (forall x y, x ∈ es -> y ∈ q' -> evictable pr y -> carry_le x y) /\
  (forall es1 x es2, es = es1 ++ x :: es2 -> over (filter (fun r => r ∉ es1) q)).
Proof.
  intros Hn. induction 1 as [q|q r es q' Ho Hr Hev IH].
  { split_and!; try by constructor.
    - symmetry. apply filter_all, Forall_forall. set_solver.
    - intros x y Hx. by apply not_elem_of_nil in Hx.
    - intros es1 x es2 He. by destruct es1. }
  pose proof (oldest_foreign_some _ _ _ Hr) as (Hrq & Her & Hmin).
  destruct IH as (-> & Hnd & Hall & Hs & Hle & Hover); [by apply nodup_ids_filter|].
  rewrite delete_carried_row in * by done. rewrite Forall_forall in Hall.
  assert (forall x, x ∈ es -> x <> r /\ x ∈ q /\ evictable pr x) as Hes.
  { intros x Hx. apply Hall in Hx as [[? ?]%list_elem_of_filter ?]. done. }
  assert (forall l, filter (fun x => x ∉ l) (filter (fun x => x <> r) q) = filter (fun x => x ∉ r :: l) q) as Hff.
  { intros l. rewrite list_filter_filter. apply list_filter_iff. intros x. set_solver. }
  split_and!.
  - by rewrite Hff.
  - constructor; [|done]. intros Hx. by apply Hes in Hx as [? _].
  - apply Forall_forall. intros x [->|Hx]%elem_of_cons; [done|]. by apply Hes in Hx as [_ ?].
  - constructor; [done|]. apply Forall_forall. intros x Hx. apply Hes in Hx as (_ & ? & ?). auto.
  - intros x y [->|Hx]%elem_of_cons Hy Hey; [|by apply Hle].
    apply list_elem_of_filter in Hy as [_ [_ Hy]%list_elem_of_filter]. auto.
  - intros [|x0 es1] x es2 He; injection He as <- He.
    + rewrite filter_all; [done|]. apply Forall_forall. set_solver.
    + rewrite <-Hff. eauto.
Qed.

(** The running totals are the table's. *)
Record ev_exact (e : eviction) : Prop := {
  ex_key : NoDup (carry_ids (ev_queue e));
  ex_sizes : sizes_nonneg (ev_queue e);
  ex_foreign : ev_foreign_total e = sum_sizes (foreign_rows (ev_queue e));
  ex_total : ev_total e = sum_sizes (ev_queue e);
  ex_range : sum_sizes (ev_queue e) <= I64_MAX;
}.

Lemma length_delete_carried q r : r ∈ q -> (length (delete_carried (ca_msg_id r) q) < length q)%nat.
Proof.
  induction 1 as [r q|r x q Hr IH]; unfold delete_carried; rewrite filter_cons; cbn [length].
  - rewrite decide_False by tauto. pose proof (length_filter (fun x => ca_msg_id x <> ca_msg_id r) q). lia.
  - case_decide; cbn [length]; unfold delete_carried in IH; lia.
Qed.

Lemma evict_one_exact pr e e' : ev_exact e -> evict_one pr e = Some e' ->
  exists r, oldest_foreign pr (ev_queue e) = Some r /\ ev_queue e' = delete_carried (ca_msg_id r) (ev_queue e)
            /\ ev_exact e'.
Proof.
  intros [Hk Hs Hf Ht Hr]. unfold evict_one. destruct (oldest_foreign pr (ev_queue e)) as [r|] eqn:Ho; [|done].
  intros [= <-]. exists r. split_and!; [done|done|]. apply oldest_foreign_some in Ho as (Hq & [Hff _] & _).
  assert (sum_sizes (foreign_rows (delete_carried (ca_msg_id r) (ev_queue e)))
    = sum_sizes (foreign_rows (ev_queue e)) - ca_size_bytes r) as Hfd.
  { rewrite foreign_rows_delete. apply sum_sizes_delete; [by apply nodup_ids_filter|by apply list_elem_of_filter]. }
  pose proof (sum_sizes_delete _ _ Hk Hq) as Htd.
  assert (sizes_nonneg (delete_carried (ca_msg_id r) (ev_queue e))) as Hs' by (by apply sizes_nonneg_filter).
  pose proof (sum_sizes_nonneg _ Hs'). pose proof (sum_sizes_nonneg _ (sizes_nonneg_filter _ _ Hs' : sizes_nonneg (foreign_rows _))).
  pose proof (sum_sizes_filter (fun r => ca_is_family r = false) _ Hs) as Hle.
  change (filter _ (ev_queue e)) with (foreign_rows (ev_queue e)) in Hle.
  unfold sizes_nonneg in Hs. rewrite Forall_forall in Hs. pose proof (Hs r Hq).
  split; cbn [ev_queue ev_foreign_total ev_total]; [by apply nodup_ids_filter|done|..|lia].
  - unfold i64_saturating_sub. rewrite sat_i64_id by ints. lia.
  - unfold i64_saturating_sub. rewrite sat_i64_id by ints. lia.
Qed.

(** The loop evicts under its condition, and stops when it no longer holds or when
    there is nothing to evict: the fuel suffices. *)
Lemma evict_while_stops over pr fuel e : ev_exact e -> (length (ev_queue e) <= fuel)%nat ->
  let e' := evict_while over pr fuel e in
  ev_exact e' /\
  (exists es, evicted pr (fun q => exists x, ev_exact x /\ over x = true /\ ev_queue x = q)
                (ev_queue e) es (ev_queue e')) /\
  (over e' = false \/ oldest_foreign pr (ev_queue e') = None).
Proof.
  cbn zeta. revert e. induction fuel as [|fuel IH]; intros e He Hl; cbn [evict_while].
  { split_and!; [done|exists []; constructor|]. right. destruct (ev_queue e); [done|cbn in Hl; lia]. }
  destruct (over e) eqn:Ho; [|split_and!; [done|exists []; constructor|by left]].
  destruct (evict_one pr e) as [e'|] eqn:H1.
  - destruct (evict_one_exact _ _ _ He H1) as (r & Hr & Hq & He').
    pose proof (oldest_foreign_some _ _ _ Hr) as (Hin & _). pose proof (length_delete_carried _ _ Hin).
    destruct (IH e' He') as (Hx & [es Hes] & Hstop); [rewrite Hq; lia|].
    split_and!; [done| |done]. exists (r :: es). econstructor; [by exists e|exact Hr|by rewrite <-Hq].
  - split_and!; [done|exists []; constructor|]. right. unfold evict_one in H1.
    by destruct (oldest_foreign pr (ev_queue e)).
Qed.

(** The pressure under which a row is evicted. *)
Definition over_budget (foreign_budget_bytes total_budget_bytes : Z) (q : list carry_row) : Prop :=
  Z.max foreign_budget_bytes 0 < sum_sizes (foreign_rows q) \/ Z.max total_budget_bytes 0 < sum_sizes q.

Lemma evicted_incl pr over q es q' : NoDup (carry_ids q) -> evicted pr over q es q' -> forall x, x ∈ q' -> x ∈ q.
Proof. intros Hn He x. destruct (evicted_spec _ _ _ _ _ Hn He) as (-> & _). by intros [_ ?]%list_elem_of_filter. Qed.

Lemma enforce_spec q fb tb pr : carry_ok q -> sum_sizes q <= I64_MAX ->
  let '(q', pressure) := enforce_carried_budgets_protecting q fb tb pr in
  exists es, evicted pr (over_budget fb tb) q es q' /\
    cb_within_budget pressure = bool_decide (sum_sizes (foreign_rows q') <= Z.max fb 0 /\ sum_sizes q' <= Z.max tb 0) /\
    (sum_sizes (foreign_rows q') <= Z.max fb 0 \/ forall x, x ∈ q' -> ~ evictable pr x) /\
    (sum_sizes q' <= Z.max tb 0 \/ forall x, x ∈ q' -> ~ evictable pr x).
Proof.
  intros Hok Hr. unfold enforce_carried_budgets_protecting. set (e0 := mk_eviction _ _ _ _ _).
  assert (ev_exact e0) as He0 by (split; [by apply co_key|by apply carry_ok_nonneg|done..]).
  destruct (evict_while_stops (fun e => Z.max fb 0 <? ev_foreign_total e) pr (length q) e0 He0 (le_n _))
    as (He1 & [es1 Hes1] & Hst1). set (e1 := evict_while _ pr (length q) e0) in *. clearbody e1.
  change (ev_queue e0) with q in Hes1.
  assert (forall x, x ∈ ev_queue e1 -> x ∈ q) as Hin by (eapply evicted_incl; [by apply co_key|exact Hes1]).
  destruct (evicted_spec _ _ _ _ _ (co_key _ Hok) Hes1) as (Hq1 & _).
  destruct (evict_while_stops (fun e => Z.max tb 0 <? ev_total e) pr (length q) e1 He1)
    as (He2 & [es2 Hes2] & Hst2); [rewrite Hq1; apply length_filter|].
  set (e2 := evict_while _ pr (length q) e1) in *. clearbody e2.
  destruct (evicted_spec _ _ _ _ _ (ex_key _ He1) Hes2) as (Hq2 & _).
  exists (es1 ++ es2). split_and!.
  - eapply evicted_app; eapply evicted_mono; [|exact Hes1| |exact Hes2];
      intros x (e & He & Ho & <-); apply Z.ltb_lt in Ho; [left; by rewrite <-ex_foreign|right; by rewrite <-ex_total].
  - cbn [cb_within_budget]. rewrite (ex_foreign _ He2), (ex_total _ He2).
    apply eq_true_iff_eq. rewrite andb_true_iff, !Z.leb_le, bool_decide_eq_true. done.
  - destruct Hst1 as [Hs|Hs].
    + left. apply Z.ltb_ge in Hs. rewrite (ex_foreign _ He1) in Hs. etrans; [|exact Hs].
      rewrite Hq2. unfold foreign_rows. rewrite filter_comm. apply sum_sizes_filter, sizes_nonneg_filter, ex_sizes, He1.
    + right. intros x Hx. eapply oldest_foreign_none; [exact Hs|]. eapply evicted_incl; [apply ex_key, He1|exact Hes2|done].
  - destruct Hst2 as [Hs|Hs]; [left; apply Z.ltb_ge in Hs; by rewrite (ex_total _ He2) in Hs|].
    right. by apply oldest_foreign_none.
Qed.

(** * Admission *)

(** The room a row needs once every other foreign row is gone. *)
Definition fits (row : carry_row) (q : list carry_row) (fb tb : Z) : Prop :=
  if ca_is_family row then sum_sizes (family_rows q) <= Z.max tb 0
  else ca_size_bytes row <= Z.max fb 0 /\ sum_sizes (family_rows q) + ca_size_bytes row <= Z.max tb 0.

#[global] Instance fits_dec row q fb tb : Decision (fits row q fb tb).
Proof. unfold fits. destruct (ca_is_family row); apply _. Defined.

Lemma foreign_only_protected q row : NoDup (carry_ids q) -> row ∈ q -> ca_is_family row = false ->
  (forall x, x ∈ q -> ~ evictable (Some (ca_msg_id row)) x) -> sum_sizes (foreign_rows q) = ca_size_bytes row.
Proof.
  intros Hn Hr Hf Hall.
  pose proof (sum_sizes_delete (foreign_rows q) row (nodup_ids_filter _ _ Hn)) as Hs.
  rewrite <-foreign_rows_delete in Hs.
  assert (foreign_rows (delete_carried (ca_msg_id row) q) = []) as Hnil.
  { apply filter_none, Forall_forall. intros x [Hne Hx]%list_elem_of_filter Hfx.
    apply (Hall x Hx). split; [done|congruence]. }
  rewrite Hnil in Hs. change (sum_sizes []) with 0 in Hs. specialize (Hs (proj2 (list_elem_of_filter _ _ _) (conj Hf Hr))). lia.
Qed.

Lemma no_foreign_left q pr row : row ∈ q -> ca_is_family row = true -> NoDup (carry_ids q) -> pr = Some (ca_msg_id row) ->
  (forall x, x ∈ q -> ~ evictable pr x) -> foreign_rows q = [].
Proof.
  intros Hr Hf Hn -> Hall. apply filter_none, Forall_forall. intros x Hx Hfx. apply (Hall x Hx). split; [done|].
  intros [= He]. assert (x = row) as -> by (by eapply (nodup_key (fun x => ca_msg_id x))). congruence.
Qed.

Lemma finalize_spec q row fb tb : carry_ok q -> row ∈ q -> sum_sizes q <= I64_MAX ->
  match finalize_carried_admission q (ca_msg_id row) (ca_is_family row) (ca_size_bytes row) fb tb with
  | (q', Ok true) => fits row q fb tb /\ sum_sizes (foreign_rows q') <= Z.max fb 0 /\ sum_sizes q' <= Z.max tb 0 /\
      exists es, evicted (Some (ca_msg_id row)) (over_budget fb tb) q es q'
  | (q', Ok false) => ~ fits row q fb tb /\ q' = delete_carried (ca_msg_id row) q
  | (_, Err _) => False
  end.
Proof.
  intros Hok Hin Hr. pose proof (carry_ok_nonneg _ Hok) as Hnn. pose proof (co_key _ Hok) as Hk.
  pose proof (sum_sizes_nonneg _ (sizes_nonneg_filter _ _ Hnn : sizes_nonneg (family_rows q))) as Hfam0.
  pose proof (sum_sizes_split q) as Hsplit.
  assert (carried_admission_can_fit q (ca_is_family row) (ca_size_bytes row) fb tb
          = bool_decide (fits row q fb tb)) as Hfit.
  { apply eq_true_iff_eq. rewrite bool_decide_eq_true. unfold carried_admission_can_fit, fits.
    destruct (ca_is_family row) eqn:Hf; [by rewrite Z.leb_le|].
    assert (0 <= ca_size_bytes row <= sum_sizes (foreign_rows q)) as Hsz.
    { split; [unfold sizes_nonneg in Hnn; rewrite Forall_forall in Hnn; auto|].
      pose proof (sum_sizes_delete (foreign_rows q) row (nodup_ids_filter _ _ Hk)) as Hs.
        specialize (Hs (proj2 (list_elem_of_filter _ _ _) (conj Hf Hin))).
        pose proof (sum_sizes_nonneg (delete_carried (ca_msg_id row) (foreign_rows q))
          (sizes_nonneg_filter _ _ (sizes_nonneg_filter _ _ Hnn))). lia. }
      rewrite andb_true_iff, !Z.leb_le. unfold i64_saturating_add.
      rewrite sat_i64_id by ints. done. }
  unfold finalize_carried_admission. rewrite Hfit. case_bool_decide as Hfits; cbn [negb]; [|done].
  pose proof (enforce_spec q fb tb (Some (ca_msg_id row)) Hok Hr) as He.
  destruct (enforce_carried_budgets_protecting q fb tb (Some (ca_msg_id row))) as [q' pressure].
  destruct He as (es & Hev & Hw & Hf & Ht).
  pose proof (evicted_spec _ _ _ _ _ Hk Hev) as (Hq' & _ & Hes & _).
  assert (row ∈ q') as Hrow.
  { rewrite Hq'. apply list_elem_of_filter. split; [|done]. intros Hx. rewrite Forall_forall in Hes.
    by destruct (Hes row Hx) as [_ [_ ?]]. }
  assert (NoDup (carry_ids q')) as Hk' by (rewrite Hq'; by apply nodup_ids_filter).
  pose proof (evicted_family _ _ _ _ _ Hk Hev) as Hfam. pose proof (sum_sizes_split q') as Hsplit'. rewrite Hfam in Hsplit'.
  assert ((forall x, x ∈ q' -> ~ evictable (Some (ca_msg_id row)) x) ->
    sum_sizes (foreign_rows q') <= Z.max fb 0 /\ sum_sizes q' <= Z.max tb 0) as Hnone.
  { intros Hn. unfold fits in Hfits. destruct (ca_is_family row) eqn:Hfr.
    - rewrite (no_foreign_left q' _ row) in * by done. change (sum_sizes []) with 0 in *. lia.
    - rewrite (foreign_only_protected q' row) in * by done. lia. }
  assert (sum_sizes (foreign_rows q') <= Z.max fb 0 /\ sum_sizes q' <= Z.max tb 0) as [Hwf Hwt].
  { destruct Hf as [Hf|Hf]; [|by apply Hnone]. destruct Ht as [Ht|Ht]; [done|by apply Hnone]. }
  rewrite Hw, bool_decide_true by done. cbn [negb]. split_and!; [done..|by exists es].
Qed.

Lemma existsb_conflict_false r q : existsb (carry_conflict r) q = false ->
  ca_msg_id r ∉ carry_ids q /\ (is_Some (ca_content_digest r) -> forall x, x ∈ q -> ca_content_digest x <> ca_content_digest r).
Proof.
  intros He. assert (forall x, x ∈ q -> carry_conflict r x = false) as Hall.
  { intros x Hx. destruct (carry_conflict r x) eqn:Hc; [|done]. rewrite <-He. symmetry. apply existsb_exists.
    exists x. by rewrite <-list_elem_of_In. }
  unfold carry_conflict in Hall. split.
  - intros (x & Hid & Hx)%list_elem_of_fmap. specialize (Hall x Hx). rewrite bool_decide_true in Hall by done. done.
  - intros Hs x Hx Hd. specialize (Hall x Hx). apply orb_false_iff in Hall as [_ Hall].
    by rewrite bool_decide_true in Hall by done.
Qed.

Lemma insert_carried_ok r q : carry_ok q -> is_Some (ca_content_digest r) ->
  ca_size_bytes r = blen (ce_sealed (ca_envelope r)) -> existsb (carry_conflict r) q = false -> carry_ok (q ++ [r]).
Proof.
  intros [Hk Hd Hs] Hdig Hsz (Hid & Hdd)%existsb_conflict_false. split.
  - rewrite fmap_app. apply NoDup_app. split_and!; [done| |apply NoDup_singleton].
    intros x Hx [= ->]%list_elem_of_singleton. done.
  - rewrite omap_app. apply NoDup_app. split_and!; [done| |destruct Hdig as [dg Hdg]; cbn; rewrite Hdg; apply NoDup_singleton].
    intros x (y & Hy & Hx)%list_elem_of_omap (y' & [= ->]%list_elem_of_singleton & Hx')%list_elem_of_omap.
    apply (Hdd Hdig y Hy). congruence.
  - apply Forall_app. split; [done|by constructor].
Qed.

Lemma delete_expired_app now q row : now < ca_expiry row ->
  delete_expired_carried now (q ++ [row]) = delete_expired_carried now q ++ [row].
Proof. intros H. unfold delete_expired_carried. by rewrite filter_app, filter_cons_True by lia. Qed.

Lemma existsb_filter_false {A} (f : A -> bool) (P : A -> Prop) `{forall x, Decision (P x)} l :
  existsb f l = false -> existsb f (filter P l) = false.
Proof.
  induction l as [|x l IH]; [done|]. cbn [existsb]. intros [Hx Hl]%orb_false_iff. rewrite filter_cons.
  case_decide; [cbn [existsb]; rewrite Hx|]; auto.
Qed.

Lemma delete_fresh q row : ca_msg_id row ∉ carry_ids q -> delete_carried (ca_msg_id row) (q ++ [row]) = q.
Proof.
  intros Hn. unfold delete_carried. rewrite filter_app, filter_cons_False, app_nil_r by tauto.
  apply filter_all, Forall_forall. intros x Hx He. apply Hn, list_elem_of_fmap. by exists x.
Qed.

Lemma admit_spec q row now fb tb :
  carry_ok q -> is_Some (ca_content_digest row) -> ca_size_bytes row = blen (ce_sealed (ca_envelope row)) ->
  now < ca_expiry row -> sum_sizes q + ca_size_bytes row <= I64_MAX ->
  let live := delete_expired_carried now q in
  match admit_carried q row now fb tb with
  | (q', Ok true) =>
      existsb (carry_conflict row) q = false /\ fits row (live ++ [row]) fb tb /\ carry_ok (live ++ [row]) /\
      sum_sizes (foreign_rows q') <= Z.max fb 0 /\ sum_sizes q' <= Z.max tb 0 /\
      exists es, evicted (Some (ca_msg_id row)) (over_budget fb tb) (live ++ [row]) es q'
  | (q', Ok false) => existsb (carry_conflict row) q = true /\ q' = q
  | (q', Err e) => existsb (carry_conflict row) q = false /\ ~ fits row (live ++ [row]) fb tb /\ q' = live /\
                   e = Store CARRY_ADMISSION_CAPACITY_ERROR
  end.
Proof.
  intros Hok Hd Hs Hx Hsum live. unfold admit_carried, insert_carried.
  destruct (existsb (carry_conflict row) q) eqn:Hc; [done|]. cbn [negb]. rewrite delete_expired_app by done.
  fold live. assert (carry_ok (live ++ [row])) as Hlok.
  { apply insert_carried_ok; [by apply carry_ok_filter|done|done|by apply existsb_filter_false]. }
  assert (sum_sizes (live ++ [row]) <= I64_MAX) as Hl.
  { rewrite sum_sizes_app. change (sum_sizes [row]) with (ca_size_bytes row + 0).
    pose proof (sum_sizes_filter (fun r => ~ (ca_expiry r <= now)) q (carry_ok_nonneg _ Hok)) as Hle.
    change (filter _ q) with live in Hle. lia. }
  pose proof (finalize_spec (live ++ [row]) row fb tb Hlok ltac:(set_solver) Hl) as Hf.
  destruct (finalize_carried_admission (live ++ [row]) _ _ _ fb tb) as [q' [[]|e]]; [|destruct Hf as [Hnf ->]|done].
  - destruct Hf as (? & ? & ? & ?). by split_and!.
  - split_and!; [done|done| |done]. apply delete_fresh.
    intros (x & Hid & Hxl)%list_elem_of_fmap. apply existsb_conflict_false in Hc as [Hc _]. apply Hc.
    apply list_elem_of_fmap. exists x. split; [done|]. by apply list_elem_of_filter in Hxl as [_ ?].
Qed.

Lemma validate_carried_ok e now : validate_carried_envelope e now = Ok tt ->
  now < ce_expiry e /\ ce_hop_ttl e <= DEFAULT_HOP_TTL.
Proof. unfold validate_carried_envelope. repeat case_match; intros; bools; [done..|]. lia. Qed.

Section properties.
Context `{C : Crypto}.

(** What admitting a carried envelope does, exactly.  It is refused unread when
    its header is out of range, and nothing changes; it is no news when its id or its
    content is already held, and nothing changes; it is refused when it could not fit
    even with every other foreign row gone, and then only expired rows leave.
    Otherwise it is held, both budgets are met, no family row and not the row itself
    was evicted, the rows evicted are the oldest foreign ones, and each went while a
    budget was still exceeded. *)
Theorem eviction_oldest_first q envelope is_family now fb tb :
  carry_ok q -> sum_sizes q + blen (ce_sealed envelope) <= I64_MAX ->
  let row := new_carry_row envelope is_family false now in
  let live := delete_expired_carried now q in
  match enqueue_carried_envelope_with_budgets q envelope is_family now fb tb with
  | (q', Ok true) =>
      validate_carried_envelope envelope now = Ok tt /\ existsb (carry_conflict row) q = false /\
      fits row (live ++ [row]) fb tb /\
      sum_sizes (foreign_rows q') <= Z.max fb 0 /\ sum_sizes q' <= Z.max tb 0 /\
      exists es, q' = filter (fun r => r ∉ es) (live ++ [row]) /\
        Forall (fun r => r ∈ live /\ ca_is_family r = false) es /\ NoDup es /\ StronglySorted carry_le es /\
        (forall x y, x ∈ es -> y ∈ q' -> ca_is_family y = false -> y <> row -> carry_le x y) /\
        (forall es1 x es2, es = es1 ++ x :: es2 ->
           over_budget fb tb (filter (fun r => r ∉ es1) (live ++ [row])))
  | (q', Ok false) =>
      validate_carried_envelope envelope now = Ok tt /\ existsb (carry_conflict row) q = true /\ q' = q
  | (q', Err e) =>
      (validate_carried_envelope envelope now = Err e /\ q' = q) \/
      (validate_carried_envelope envelope now = Ok tt /\ existsb (carry_conflict row) q = false /\
       ~ fits row (live ++ [row]) fb tb /\ q' = live /\ e = Store CARRY_ADMISSION_CAPACITY_ERROR)
  end.
Proof.
  intros Hok Hsum row live. unfold enqueue_carried_envelope_with_budgets.
  destruct (validate_carried_envelope envelope now) as [[]|e] eqn:Hv; [|by left].
  pose proof (validate_carried_ok _ _ Hv) as [Hx _].
  pose proof (admit_spec q row now fb tb Hok ltac:(by eexists) eq_refl Hx Hsum) as Ha. fold live in Ha. fold row.
  destruct (admit_carried q row now fb tb) as [q' [[]|e]].
  - destruct Ha as (Hc & Hf & Hlok & Hb1 & Hb2 & es & Hev). split_and!; [done..|].
    destruct (evicted_spec _ _ _ _ _ (co_key _ Hlok) Hev) as (Hq & Hnd & Hall & Hs & Hle & Ho). exists es.
    assert (forall y, y ∈ live ++ [row] -> y <> row -> ca_is_family y = false -> evictable (Some (ca_msg_id row)) y) as Hevi.
    { intros y Hy Hne Hfy. split; [done|]. intros [= He]. apply Hne.
      eapply (nodup_key (fun x => ca_msg_id x)); [apply co_key, Hlok|done|set_solver|done]. }
    split_and!; [done| |done|done| |done].
    + rewrite Forall_forall in *. intros r Hr. destruct (Hall r Hr) as [Hin [Hfr Hne]]. split; [|done].
      apply elem_of_app in Hin as [?|[= ->]%list_elem_of_singleton]; [done|by destruct Hne].
    + intros x y Hxe Hy Hfy Hne. apply Hle; [done|done|]. apply Hevi; [|done|done].
      rewrite Hq in Hy. by apply list_elem_of_filter in Hy as [_ ?].
  - by destruct Ha as [? ?].
  - right. by destruct Ha as (? & ? & ? & ?).
Qed.

(** * Ingestion *)

(** A table within the queue's budget, and an envelope SQLite can still sum. *)
Definition queue_ok (q : list carry_row) : Prop := carry_ok q /\ sum_sizes q <= DEFAULT_TOTAL_CARRY_BUDGET_BYTES.
Definition summable (sealed : bytes) : Prop := blen sealed <= I64_MAX - DEFAULT_TOTAL_CARRY_BUDGET_BYTES.

Lemma queue_ok_filter (P : carry_row -> Prop) `{forall r, Decision (P r)} q : queue_ok q -> queue_ok (filter P q).
Proof.
  intros [Hok Hs]. split; [by apply carry_ok_filter|]. pose proof (sum_sizes_filter P q (carry_ok_nonneg _ Hok)). lia.
Qed.

Lemma evicted_carry_ok pr over q es q' : carry_ok q -> evicted pr over q es q' -> carry_ok q'.
Proof.
  intros Hok Hev. destruct (evicted_spec _ _ _ _ _ (co_key _ Hok) Hev) as (-> & _). by apply carry_ok_filter.
Qed.

(** What a row of a page leaves: [kept] is the foreign mail that may have gone. *)
Definition row_effect (q q' : list carry_row) (now : Z) (e : CoreRelayFetchedEnvelope)
  (disposition : CoreInboundDisposition) : Prop :=
  family_rows q' = family_rows q ++ (if decide (disposition = Carried) then [fetched_row e now] else []) /\
  (disposition <> Carried -> q' = q) /\
  (forall x, x ∈ foreign_rows q' -> x ∈ foreign_rows q).

Lemma ingest_row_ok d q now e : queue_ok q -> summable (fe_sealed e) ->
  exists disposition, (ingest_row d q now e).2 = Ok disposition /\
    let q' := (ingest_row d q now e).1 in
    queue_ok q' /\ row_effect q q' now e disposition /\
    (disposition = Expired <-> fe_expiry_ms e <= now) /\
    (disposition = Rejected <-> now < fe_expiry_ms e /\ is_ok (validate_carried_envelope (carried_of_fetched e) now) = false).
Proof.
  intros [Hok Hs] Hsm. unfold ingest_row, row_effect.
  destruct (Z.leb_spec (fe_expiry_ms e) now) as [Hx|Hx].
  { exists Expired. split_and!; try done; [by rewrite decide_False, app_nil_r by done|split; [done|]; lia]. }
  destruct (validate_carried_envelope (carried_of_fetched e) now) as [[]|err] eqn:Hv; cbn [is_ok negb].
  2: { exists Rejected. split_and!; try done; [by rewrite decide_False, app_nil_r by done|split; [done|]; lia]. }
  destruct (relay_row_already_known d q (fe_msg_id e)) eqn:Hk.
  { exists Seen. split_and!; try done; [by rewrite decide_False, app_nil_r by done|split; [done|]; lia|split; [done|]; by intros [_ ?]]. }
  unfold insert_carried. set (row := fetched_row e now).
  destruct (existsb (carry_conflict row) q) eqn:Hc.
  { exists Seen. split_and!; try done; [by rewrite decide_False, app_nil_r by done|split; [done|]; lia|split; [done|]; by intros [_ ?]]. }
  assert (carry_ok (q ++ [row])) as Hlok by (by apply insert_carried_ok; [|eexists| |]).
  assert (sum_sizes (q ++ [row]) <= I64_MAX) as Hl.
  { rewrite sum_sizes_app. change (sum_sizes [row]) with (blen (fe_sealed e) + 0). unfold summable in Hsm. lia. }
  pose proof (finalize_spec (q ++ [row]) row I64_MAX DEFAULT_TOTAL_CARRY_BUDGET_BYTES Hlok ltac:(set_solver) Hl) as Hf.
  change (ca_msg_id row) with (fe_msg_id e) in Hf. change (ca_is_family row) with true in Hf.
  destruct (finalize_carried_admission (q ++ [row]) _ _ _ _ _) as [q' [[]|err]]; [|destruct Hf as [_ ->]|done].
  - destruct Hf as (_ & _ & Ht & es & Hev). exists Carried.
    change (Z.max DEFAULT_TOTAL_CARRY_BUDGET_BYTES 0) with DEFAULT_TOTAL_CARRY_BUDGET_BYTES in Ht.
    split_and!; try done; [split; [by eapply evicted_carry_ok|done]|..|split; [done|lia]|split; [done|]; by intros [_ ?]].
    + cbn [fst]. rewrite (evicted_family _ _ _ _ _ (co_key _ Hlok) Hev), decide_True by done.
      unfold family_rows. by rewrite filter_app.
    + intros x [Hxf Hxq]%list_elem_of_filter. apply list_elem_of_filter. split; [done|].
      apply (evicted_incl _ _ _ _ _ (co_key _ Hlok) Hev) in Hxq. apply elem_of_app in Hxq as [?|Hxr]; [done|].
      apply list_elem_of_singleton in Hxr as ->. done.
  - assert (delete_carried (fe_msg_id e) (q ++ [row]) = q) as Hdel.
    { apply (delete_fresh q row). by apply existsb_conflict_false in Hc as [? _]. }
    cbn [fst snd]. rewrite Hdel. exists Failed.
    split_and!; try done; [by rewrite decide_False, app_nil_r by done|split; [done|lia]|split; [done|]; by intros [_ ?]].
Qed.

Definition carried_in (page : list CoreRelayFetchedEnvelope) (items : list CoreRelayEnvelopeDisposition) (now : Z)
  : list carry_row :=
  zip page items ≫= fun '(e, i) => if decide (it_disposition i = Carried) then [fetched_row e now] else [].

(** The disposition a row of the page must have. *)
Definition item_of (now : Z) (e : CoreRelayFetchedEnvelope) (i : CoreRelayEnvelopeDisposition) : Prop :=
  it_relay_id i = fe_id e /\ it_msg_id i = fe_msg_id e /\ it_recipient_hint i = fe_recipient_hint e /\
  it_disposition i <> Consumed /\
  (it_disposition i = Expired <-> fe_expiry_ms e <= now) /\
  (it_disposition i = Rejected <->
     now < fe_expiry_ms e /\ is_ok (validate_carried_envelope (carried_of_fetched e) now) = false).

Lemma ingest_row_not_consumed d q now e q' : ingest_row d q now e <> (q', Ok Consumed).
Proof. unfold ingest_row. repeat case_match; naive_solver. Qed.

Lemma ingest_rows_ok d now page : forall q, queue_ok q -> Forall (fun e => summable (fe_sealed e)) page ->
  exists items q', ingest_rows d q now page = (q', Ok items) /\ queue_ok q' /\ Forall2 (item_of now) page items /\
    family_rows q' = family_rows q ++ carried_in page items now /\
    (forall x, x ∈ foreign_rows q' -> x ∈ foreign_rows q).
Proof.
  induction page as [|e page IH]; intros q Hq Hall; cbn [ingest_rows].
  { exists [], q. split_and!; try done. by rewrite app_nil_r. }
  inversion Hall as [|? ? He Hall']; subst. destruct (ingest_row_ok d q now e Hq He) as (disp & Hd & Hq1 & (Hf & _ & Hfo) & Hx & Hr).
  pose proof (ingest_row_not_consumed d q now e (ingest_row d q now e).1) as Hnc.
  destruct (ingest_row d q now e) as [q1 r]. cbn [fst snd] in *. subst r.
  destruct (IH q1 Hq1 Hall') as (items & q' & -> & Hq' & Hitems & Hfam & Hfor).
  eexists _, q'. split; [reflexivity|]. split_and!; [done| | |auto].
  - constructor; [|done]. split_and!; try done. cbn. intros ->. done.
  - rewrite Hfam, Hf, <-app_assoc. done.
Qed.

(** Ingesting a fetched page never fails and leaves exactly this behind: the rows
    answer the page's envelopes one by one, never as consumed, expired and refused
    ones told apart by the public header; the family's unexpired rows all stay, in
    order, followed by one relay-sourced row with a hop spent per envelope answered
    [Carried]; what else is in the table was there before; the budget holds; and the
    page counts as fully processed exactly when no row failed. *)
Theorem ingest_page_spec d q page now :
  queue_ok q -> page <> [] -> Forall (fun e => summable (fe_sealed e)) page ->
  exists ig q', ingest_relay_page d q page now = (q', Ok ig) /\
    queue_ok q' /\
    Forall2 (item_of now) page (ig_rows ig) /\
    family_rows q' = family_rows (delete_expired_carried now q) ++ carried_in page (ig_rows ig) now /\
    (forall x, x ∈ foreign_rows q' -> x ∈ foreign_rows (delete_expired_carried now q)) /\
    (ig_fully_processed ig = true <-> Forall (fun i => it_disposition i <> Failed) (ig_rows ig)) /\
    ig_rows_ingested ig = blen (carried_in page (ig_rows ig) now).
Proof.
  intros Hq Hne Hall. unfold ingest_relay_page. rewrite bool_decide_false by done.
  destruct (ingest_rows_ok d now page (delete_expired_carried now q) (queue_ok_filter _ _ Hq) Hall)
    as (items & q' & -> & Hq' & Hitems & Hfam & Hfor).
  eexists _, q'. split; [reflexivity|]. cbn [ig_rows ig_fully_processed ig_rows_ingested]. split_and!; [done..| |].
  - rewrite forallb_forall, Forall_forall. setoid_rewrite list_elem_of_In. setoid_rewrite bool_decide_eq_true. done.
  - unfold count_disposition, carried_in. clear -Hitems. induction Hitems as [|e i page items _ _ IH]; [done|].
    cbn [zip zip_with mbind list_bind]. rewrite filter_cons, blen_app, <-IH. case_decide; rewrite ?blen_cons, ?blen_nil; lia.
Qed.

(** * Replays *)

(** The envelope changes nothing any more. *)
Definition settled (d : engine_db) (now : Z) (q : list carry_row) (e : CoreRelayFetchedEnvelope) : Prop :=
  (ingest_row d q now e).1 = q /\ (ingest_row d q now e).2 <> Ok Carried.

(** [q2] holds what [q1] does. *)
Definition grown (q1 q2 : list carry_row) : Prop :=
  (forall x, x ∈ q1 -> x ∈ q2) /\ sum_sizes (family_rows q1) <= sum_sizes (family_rows q2).

Lemma known_grown d q1 q2 id : grown q1 q2 -> relay_row_already_known d q1 id = true -> relay_row_already_known d q2 id = true.
Proof.
  intros [Hg _]. unfold relay_row_already_known. rewrite !orb_true_iff, !existsb_exists.
  intros [?|(x & Hx & He)]; [by left|]. right. exists x. rewrite <-list_elem_of_In in *. auto.
Qed.

Lemma conflict_grown row q1 q2 : grown q1 q2 -> existsb (carry_conflict row) q1 = true -> existsb (carry_conflict row) q2 = true.
Proof.
  intros [Hg _]. rewrite !existsb_exists. intros (x & Hx & He). exists x. rewrite <-list_elem_of_In in *. auto.
Qed.

Lemma settled_after d q now e q2 : queue_ok q -> summable (fe_sealed e) -> queue_ok q2 ->
  grown (ingest_row d q now e).1 q2 -> settled d now q2 e.
Proof.
  intros Hq Hsm Hq2 Hg. destruct (ingest_row_ok d q2 now e Hq2 Hsm) as (disp & Hd & _ & (Hf & Hsame & _) & _).
  unfold settled. rewrite Hd. cut (disp <> Carried); [intros Hn; split; [by apply Hsame|congruence]|]. intros ->.
  revert Hd. unfold ingest_row in Hg |- *.
  destruct (fe_expiry_ms e <=? now); [done|]. destruct (is_ok (validate_carried_envelope _ _)); cbn [negb] in *; [|done].
  destruct (relay_row_already_known d q (fe_msg_id e)) eqn:Hk; [by rewrite (known_grown _ _ _ _ Hg Hk)|].
  destruct (relay_row_already_known d q2 (fe_msg_id e)) eqn:Hk2; [done|].
  unfold insert_carried in *. set (row := fetched_row e now) in *.
  destruct (existsb (carry_conflict row) q) eqn:Hc; [by rewrite (conflict_grown _ _ _ Hg Hc)|].
  destruct (existsb (carry_conflict row) q2) eqn:Hc2; [done|]. destruct Hq as [Hok Hs], Hq2 as [Hok2 Hs2].
  assert (forall q0, carry_ok q0 -> existsb (carry_conflict row) q0 = false -> carry_ok (q0 ++ [row])) as Hins
    by (intros; by apply insert_carried_ok; [|eexists| |]).
  assert (forall q0, sum_sizes q0 <= DEFAULT_TOTAL_CARRY_BUDGET_BYTES -> sum_sizes (q0 ++ [row]) <= I64_MAX) as Hsum.
  { intros q0 H0. rewrite sum_sizes_app. change (sum_sizes [row]) with (blen (fe_sealed e) + 0). unfold summable in Hsm. lia. }
  pose proof (finalize_spec (q ++ [row]) row I64_MAX DEFAULT_TOTAL_CARRY_BUDGET_BYTES (Hins _ Hok Hc) ltac:(set_solver) (Hsum _ Hs)) as Hf1.
  pose proof (finalize_spec (q2 ++ [row]) row I64_MAX DEFAULT_TOTAL_CARRY_BUDGET_BYTES (Hins _ Hok2 Hc2) ltac:(set_solver) (Hsum _ Hs2)) as Hf2.
  change (ca_msg_id row) with (fe_msg_id e) in Hf1, Hf2. change (ca_is_family row) with true in Hf1, Hf2.
  destruct (finalize_carried_admission (q2 ++ [row]) _ _ _ _ _) as [q2' [[]|err]]; [|done..]. intros _.
  destruct Hf2 as [Hfit2 _]. unfold fits in Hfit2. change (ca_is_family row) with true in Hfit2. cbn iota in Hfit2.
  destruct (finalize_carried_admission (q ++ [row]) _ _ _ _ _) as [q' [[]|err]]; [| |done].
  - destruct Hf1 as (_ & _ & _ & es & Hev). cbn [fst] in Hg. destruct Hg as [Hg _].
    assert (row ∈ q2) as Hr.
    { apply Hg. destruct (evicted_spec _ _ _ _ _ (co_key _ (Hins _ Hok Hc)) Hev) as (-> & _ & Hes & _).
      apply list_elem_of_filter. split; [|set_solver]. intros Hx. rewrite Forall_forall in Hes. by destruct (Hes _ Hx) as [_ [? _]]. }
    apply existsb_conflict_false in Hc2 as [Hc2 _]. apply Hc2, list_elem_of_fmap. by exists row.
  - destruct Hf1 as [Hnf ->]. apply Hnf. unfold fits. change (ca_is_family row) with true. cbn iota.
    cbn [fst] in Hg. change (fe_msg_id e) with (ca_msg_id row) in Hg. rewrite (delete_fresh q row) in Hg by (by apply existsb_conflict_false in Hc as [? _]). destruct Hg as [_ Hg].
    unfold family_rows in *. rewrite filter_app, sum_sizes_app in *. lia.
Qed.

Lemma elem_of_split_family q x : x ∈ q <-> x ∈ family_rows q \/ x ∈ foreign_rows q.
Proof.
  unfold family_rows, foreign_rows. rewrite !list_elem_of_filter. destruct (ca_is_family x); naive_solver.
Qed.

Lemma ingest_rows_settles d now page : forall q q' items, queue_ok q -> Forall (fun e => summable (fe_sealed e)) page ->
  ingest_rows d q now page = (q', Ok items) -> (forall x, x ∈ foreign_rows q -> x ∈ q') ->
  Forall (settled d now q') page.
Proof.
  induction page as [|e page IH]; intros q q' items Hq Hall Hi Hfor; [constructor|].
  inversion Hall as [|? ? He Hall']; subst. cbn [ingest_rows] in Hi.
  destruct (ingest_row_ok d q now e Hq He) as (disp & Hd & Hq1 & (Hf & _ & Hfo) & _).
  pose proof (fun q2 => settled_after d q now e q2 Hq He) as Hset.
  destruct (ingest_row d q now e) as [q1 r]. cbn [fst snd] in *. subst r.
  destruct (ingest_rows_ok d now page q1 Hq1 Hall') as (items1 & q1' & Hi1 & Hq' & _ & Hfam & _).
  rewrite Hi1 in Hi. injection Hi as <- <-. constructor.
  - apply Hset; [done|]. split.
    + intros x [Hx|Hx]%elem_of_split_family; [|auto]. apply elem_of_split_family. left. rewrite Hfam. set_solver.
    + rewrite Hfam, sum_sizes_app. cut (0 <= sum_sizes (carried_in page items1 now)); [lia|].
      apply sum_sizes_nonneg. unfold sizes_nonneg. apply Forall_forall. intros x Hx.
      assert (x ∈ family_rows q1') as Hxq by (rewrite Hfam; set_solver). apply list_elem_of_filter in Hxq as [_ Hxq].
      destruct Hq' as [Hok _]. apply carry_ok_nonneg in Hok. unfold sizes_nonneg in Hok. rewrite Forall_forall in Hok. auto.
  - eapply IH; [exact Hq1|done|exact Hi1|auto].
Qed.

Lemma ingest_rows_settled d now page q q' items : Forall (settled d now q) page ->
  ingest_rows d q now page = (q', Ok items) -> q' = q /\ count_disposition Carried items = 0.
Proof.
  intros Hall. revert q' items. induction Hall as [|e page [Hsame Hnc] _ IH]; intros q' items; cbn [ingest_rows].
  { by intros [= <- <-]. }
  destruct (ingest_row d q now e) as [q1 [disp|err]]; [|done]. cbn [fst snd] in *. subst q1.
  destruct (ingest_rows d q now page) as [q2 [items2|err]]; [|done]. destruct (IH q2 items2 eq_refl) as [-> Hc].
  intros [= <- <-]. split; [done|]. unfold count_disposition in *. rewrite filter_cons.
  cbn [it_disposition]. rewrite decide_False by congruence. done.
Qed.

Lemma ingested_unexpired d now page q q' items : queue_ok q -> Forall (fun e => summable (fe_sealed e)) page ->
  Forall (fun r => now < ca_expiry r) q -> ingest_rows d q now page = (q', Ok items) ->
  Forall (fun r => now < ca_expiry r) q'.
Proof.
  intros Hq Hall Hlive Hi. destruct (ingest_rows_ok d now page q Hq Hall) as (items' & q'' & Hi' & _ & Hitems & Hfam & Hfor).
  rewrite Hi in Hi'. injection Hi' as <- <-. rewrite Forall_forall in *.
  intros x [Hx|Hx]%elem_of_split_family; [|apply Hfor, list_elem_of_filter in Hx as [_ ?]; auto].
  rewrite Hfam in Hx. apply elem_of_app in Hx as [Hx|Hx]; [apply list_elem_of_filter in Hx as [_ ?]; auto|].
  revert Hx. unfold carried_in. intros ([e i] & Hx & Hz)%list_elem_of_bind. case_decide as Hc; [|by apply not_elem_of_nil in Hx].
  apply list_elem_of_singleton in Hx as ->. cbn.
  assert (exists e' i', (e, i) = (e', i') /\ item_of now e' i') as (? & ? & [= <- <-] & Hit).
  { clear -Hitems Hz. induction Hitems as [|e' i' page items Hi _ IH]; [by apply not_elem_of_nil in Hz|].
    cbn [zip zip_with] in Hz. apply elem_of_cons in Hz as [->|Hz]; [by exists e', i'|auto]. }
  destruct Hit as (_ & _ & _ & _ & Hexp & _). destruct (Z.lt_ge_cases now (fe_expiry_ms e)) as [?|Hle]; [done|].
  apply Hexp in Hle. congruence.
Qed.

(** A replayed page applies nothing: when ingesting it displaced no foreign mail,
    ingesting it again changes no row and reports none ingested, also when rows failed
    for want of room. *)
Theorem page_replay_idempotent d q page now q' ig :
  queue_ok q -> Forall (fun e => summable (fe_sealed e)) page ->
  ingest_relay_page d q page now = (q', Ok ig) ->
  (forall x, x ∈ foreign_rows (delete_expired_carried now q) -> x ∈ q') ->
  exists ig', ingest_relay_page d q' page now = (q', Ok ig') /\ ig_rows_ingested ig' = 0.
Proof.
  intros Hq Hall. unfold ingest_relay_page. case_bool_decide as Hne.
  { intros [= <- <-] _. by eexists. }
  pose proof (queue_ok_filter (fun r => ~ (ca_expiry r <= now)) q Hq) as Hlive.
  change (filter _ q) with (delete_expired_carried now q) in Hlive.
  destruct (ingest_rows_ok d now page _ Hlive Hall) as (items & q1 & Hi & Hq1 & _). rewrite Hi.
  intros [= <- _] Hkept. pose proof (ingest_rows_settles _ _ _ _ _ _ Hlive Hall Hi Hkept) as Hset.
  assert (delete_expired_carried now q1 = q1) as ->.
  { apply filter_all. eapply Forall_impl; [eapply ingested_unexpired; [exact Hlive|done| |exact Hi]|cbn; intros; lia].
    apply Forall_forall. intros x [Hx _]%list_elem_of_filter. lia. }
  destruct (ingest_rows_ok d now page q1 Hq1 Hall) as (items' & q2 & Hi' & _). rewrite Hi'.
  destruct (ingest_rows_settled _ _ _ _ _ _ Hset Hi') as [-> Hc]. eexists. split; [reflexivity|done].
Qed.

(** * Every operation of the table *)

Inductive carry_op : Type :=
| OpEnqueue (envelope : CarriedEnvelope) (is_family : bool) (received_at_ms foreign_budget_bytes : Z)
| OpEnqueueRelay (envelope : CarriedEnvelope) (now_ms : Z)
| OpIngest (d : engine_db) (page : list CoreRelayFetchedEnvelope) (now_ms : Z)
| OpRemove (msg_id : bytes)
| OpPrune (now_ms : Z)
| OpMarkUploaded (msg_id relay_url : bytes)
| OpClearMarkers.

Definition carry_step (q : list carry_row) (op : carry_op) : list carry_row :=
  match op with
  | OpEnqueue e fam now fb => (enqueue_carried_envelope q e fam now fb).1
  | OpEnqueueRelay e now => (enqueue_relay_carried_envelope q e now).1
  | OpIngest d page now => (ingest_relay_page d q page now).1
  | OpRemove id => delete_carried id q
  | OpPrune now => delete_expired_carried now q
  | OpMarkUploaded id url => (mark_carried_envelope_relay_uploaded q id url).1
  | OpClearMarkers => (clear_carried_relay_upload_markers q).1
  end.

Definition carry_run (ops : list carry_op) : list carry_row := foldl carry_step [] ops.

Definition op_summable (op : carry_op) : Prop :=
  match op with
  | OpEnqueue e _ _ _ | OpEnqueueRelay e _ => summable (ce_sealed e)
  | OpIngest _ page _ => Forall (fun e => summable (fe_sealed e)) page
  | _ => True
  end.

(** The two ways mail of the family leaves. *)
Definition op_drops (op : carry_op) (r : carry_row) : Prop :=
  match op with
  | OpRemove id => ca_msg_id r = id
  | OpPrune now | OpEnqueue _ _ now _ | OpEnqueueRelay _ now | OpIngest _ _ now => ca_expiry r <= now
  | _ => False
  end.

Definition kept_in (q' : list carry_row) (r : carry_row) : Prop :=
  exists r', r' ∈ q' /\ ca_row r' = ca_row r /\ ca_is_family r' = true.

Lemma remark_ok (f : carry_row -> carry_row) q :
  (forall r, ca_row (f r) = ca_row r /\ ca_is_family (f r) = ca_is_family r /\
             ca_size_bytes (f r) = ca_size_bytes r /\ ca_content_digest (f r) = ca_content_digest r) ->
  queue_ok q -> queue_ok (f <$> q).
Proof.
  intros Hf [[Hk Hd Hs] Hb]. split; [split|].
  - rewrite <-list_fmap_compose. erewrite list_fmap_ext; [exact Hk|]. intros i x _. cbn. by destruct (Hf x) as [-> _].
  - assert (omap ca_content_digest (f <$> q) = omap ca_content_digest q) as ->; [|done].
    clear -Hf. induction q as [|r q IH]; [done|]. cbn. destruct (Hf r) as (_ & _ & _ & ->). by rewrite IH.
  - apply Forall_fmap. eapply Forall_impl; [exact Hs|]. cbn. intros r Hr. destruct (Hf r) as (-> & _ & -> & _). done.
  - unfold sum_sizes in *. rewrite <-list_fmap_compose. erewrite list_fmap_ext; [exact Hb|].
    intros i x _. cbn. by destruct (Hf x) as (_ & _ & -> & _).
Qed.

Lemma kept_self q q' r : r ∈ q -> ca_is_family r = true -> (forall x, x ∈ family_rows q -> x ∈ q') -> kept_in q' r.
Proof. intros Hr Hf Hin. exists r. split; [|done]. apply Hin. by apply list_elem_of_filter. Qed.

Lemma live_or_expired q now r : r ∈ q -> ca_expiry r <= now \/ r ∈ delete_expired_carried now q.
Proof.
  intros Hr. destruct (Z.le_gt_cases (ca_expiry r) now); [by left|right]. apply list_elem_of_filter. split; [lia|done].
Qed.

Lemma admit_step q row now fb : queue_ok q -> summable (ce_sealed (ca_envelope row)) ->
  is_Some (ca_content_digest row) -> ca_size_bytes row = blen (ce_sealed (ca_envelope row)) -> now < ca_expiry row ->
  let q' := (admit_carried q row now fb DEFAULT_TOTAL_CARRY_BUDGET_BYTES).1 in
  queue_ok q' /\ forall r, r ∈ q -> ca_is_family r = true -> kept_in q' r \/ ca_expiry r <= now.
Proof.
  intros Hq Hsm Hd Hs Hx. cbn zeta. unfold summable in Hsm. pose proof Hq as [Hok Hb].
  pose proof (admit_spec q row now fb DEFAULT_TOTAL_CARRY_BUDGET_BYTES Hok Hd Hs Hx ltac:(lia)) as Ha.
  destruct (admit_carried q row now fb DEFAULT_TOTAL_CARRY_BUDGET_BYTES) as [q' [[]|e]]; cbn [fst].
  - destruct Ha as (_ & _ & Hlok & _ & Ht & es & Hev). split.
    { split; [by eapply evicted_carry_ok|exact Ht]. }
    intros r Hr Hf. destruct (live_or_expired q now r Hr) as [?|Hl]; [by right|left].
    apply (kept_self (delete_expired_carried now q)); [done|done|]. intros x Hxf.
    assert (x ∈ family_rows q') as Hxq; [|by apply list_elem_of_filter in Hxq as [_ ?]].
    rewrite (evicted_family _ _ _ _ _ (co_key _ Hlok) Hev). unfold family_rows in *. rewrite filter_app. set_solver.
  - destruct Ha as [_ ->]. split; [done|]. intros r Hr Hf. left. by exists r.
  - destruct Ha as (_ & _ & -> & _). split; [by apply queue_ok_filter|].
    intros r Hr Hf. destruct (live_or_expired q now r Hr) as [?|Hl]; [by right|left]. by exists r.
Qed.

Lemma carry_step_ok q op : queue_ok q -> op_summable op ->
  queue_ok (carry_step q op) /\
  forall r, r ∈ q -> ca_is_family r = true -> kept_in (carry_step q op) r \/ op_drops op r.
Proof.
  intros Hq Ho. assert (forall r, r ∈ q -> ca_is_family r = true -> kept_in q r) as Hrefl by (intros r ? ?; by exists r).
  destruct op as [e fam now fb|e now|d page now|id|now|id url|]; cbn [carry_step op_summable op_drops] in *.
  - unfold enqueue_carried_envelope, enqueue_carried_envelope_with_budgets.
    destruct (validate_carried_envelope e now) as [[]|err] eqn:Hv; [|cbn [fst]; auto].
    apply validate_carried_ok in Hv as [Hx _]. apply admit_step; [done|done|by eexists|done|done].
  - unfold enqueue_relay_carried_envelope, enqueue_relay_carried_envelope_with_budget.
    destruct (validate_carried_envelope e now) as [[]|err] eqn:Hv; [|cbn [fst]; auto].
    apply validate_carried_ok in Hv as [Hx _]. apply admit_step; [done|done|by eexists|done|done].
  - destruct (decide (page = [])) as [->|Hne]; [cbn; auto|]. unfold ingest_relay_page. rewrite bool_decide_false by done.
    destruct (ingest_rows_ok d now page (delete_expired_carried now q) (queue_ok_filter _ _ Hq) Ho)
      as (items & q' & -> & Hq' & _ & Hfam & _). cbn [fst]. split; [done|].
    intros r Hr Hf. destruct (live_or_expired q now r Hr) as [?|Hl]; [by right|left].
    apply (kept_self (delete_expired_carried now q)); [done|done|]. intros x Hx.
    apply elem_of_split_family. left. rewrite Hfam. set_solver.
  - split; [by apply queue_ok_filter|]. intros r Hr Hf.
    destruct (decide (ca_msg_id r = id)) as [?|?]; [by right|left]. exists r. split; [by apply list_elem_of_filter|done].
  - split; [by apply queue_ok_filter|]. intros r Hr Hf.
    destruct (live_or_expired q now r Hr) as [?|Hl]; [by right|left]. by exists r.
  - split; [apply remark_ok; [|done]; intros r; by case_match|].
    intros r Hr Hf. left. unfold kept_in. cbn [fst mark_carried_envelope_relay_uploaded].
    eexists. split; [by apply list_elem_of_fmap_2|]. by case_match.
  - split; [apply remark_ok; [|done]; intros r; done|].
    intros r Hr Hf. left. eexists. split; [by apply list_elem_of_fmap_2|done].
Qed.

Lemma carry_run_ok ops : Forall op_summable ops -> queue_ok (carry_run ops).
Proof.
  unfold carry_run. assert (queue_ok []) as H0 by (repeat split; try constructor; done). revert H0.
  generalize (@nil carry_row). induction ops as [|op ops IH]; intros q Hq Hall; [done|].
  inversion Hall; subst. cbn [foldl]. apply IH; [|done]. by apply carry_step_ok.
Qed.

(** C20: however mail is admitted, fetched, pruned, removed and marked, the queue has
    one row per id and per content, each of the size recorded for it, and holds no
    more than its 64 MiB; and a family row, with its envelope and its place in the
    order, survives every next operation but its own removal and its expiry: pressure
    never evicts it. *)
Theorem carry_stays_within_budget ops op : Forall op_summable (ops ++ [op]) ->
  queue_ok (carry_run ops) /\
  forall r, r ∈ carry_run ops -> ca_is_family r = true -> kept_in (carry_step (carry_run ops) op) r \/ op_drops op r.
Proof.
  intros [Hops Hop]%Forall_app. inversion Hop; subst. pose proof (carry_run_ok ops Hops) as Hq.
  split; [done|]. by apply carry_step_ok.
Qed.

End properties.

(** * Witnesses *)

Definition toy_mail (id : byte) (size : nat) (expiry : Z) : CarriedEnvelope :=
  mk_carried [id] 3 expiry [id] (replicate size id).

Definition toy_queue : list carry_row :=
  [new_carry_row (C := toy_crypto) (toy_mail x01 3 1000) false false 1;
   new_carry_row (C := toy_crypto) (toy_mail x02 4 1000) true false 2;
   new_carry_row (C := toy_crypto) (toy_mail x03 2 1000) false false 3;
   new_carry_row (C := toy_crypto) (toy_mail x04 2 10) true false 4].

Lemma toy_queue_ok : queue_ok toy_queue.
Proof.
  split; [split|].
  - apply (bool_decide_unpack _). vm_compute. exact I.
  - apply (bool_decide_unpack _). vm_compute. exact I.
  - repeat (constructor; [reflexivity|]). constructor.
  - apply Z.leb_le. vm_compute. reflexivity.
Defined.

(** A foreign row of 3 bytes arrives with 6 bytes for foreign mail: the oldest foreign
    row goes, the expired one too. *)
Lemma eviction_oldest_first_witness :
  exists q', enqueue_carried_envelope_with_budgets (C := toy_crypto) toy_queue (toy_mail x05 3 2000) false 20 6 100
             = (q', Ok true) /\
    ((fun r => ca_msg_id r) <$> q') = [[x02]; [x03]; [x05]] /\ sum_sizes (foreign_rows q') <= 6.
Proof.
  pose proof (eviction_oldest_first (C := toy_crypto) toy_queue (toy_mail x05 3 2000) false 20 6 100
    (proj1 toy_queue_ok) ltac:(apply Z.leb_le; vm_compute; reflexivity)) as H. cbn zeta in H.
  destruct (enqueue_carried_envelope_with_budgets (C := toy_crypto) toy_queue (toy_mail x05 3 2000) false 20 6 100)
    as [q' r] eqn:He.
  assert (r = Ok true) as -> by (change r with (q', r).2; rewrite <-He; vm_compute; reflexivity).
  exists q'. split; [reflexivity|]. split; [|apply H].
  change q' with (q', @Ok CoreError bool true).1. rewrite <-He. vm_compute. reflexivity.
Defined.

Definition toy_page : list CoreRelayFetchedEnvelope :=
  [mk_fetched 7 [x06] 3 [x06] [x06; x06] 500; mk_fetched 8 [x02] 3 [x02] [x02] 500;
   mk_fetched 9 [x07] 9 [x07] [x07] 500; mk_fetched 10 [x08] 3 [x08] [x08] 15].

Definition toy_engine_db : engine_db :=
  mk_edb (mk_routing [] [] (mk_fleet None []) true true) (RosterStore.mk_db ∅ ∅ [] [] 0) [] [] ∅ [].

(** A new row is carried, a held one seen, one with too many hops refused, one out of
    date expired; the table's expired row goes. *)
Lemma ingest_page_spec_witness :
  exists q' ig, ingest_relay_page (C := toy_crypto) toy_engine_db toy_queue toy_page 20 = (q', Ok ig) /\
    (it_disposition <$> ig_rows ig) = [Carried; Seen; Rejected; Expired] /\ ig_fully_processed ig = true /\
    ((fun r => ca_msg_id r) <$> family_rows q') = [[x02]; [x06]].
Proof.
  destruct (ingest_page_spec (C := toy_crypto) toy_engine_db toy_queue toy_page 20 toy_queue_ok ltac:(discriminate))
    as (ig & q' & He & _ & _ & Hfam & _ & Hp & _).
  { repeat (constructor; [apply Z.leb_le; vm_compute; reflexivity|]). constructor. }
  exists q', ig. split; [exact He|].
  assert (ig_rows ig = [mk_item 7 [x06] Carried [x06]; mk_item 8 [x02] Seen [x02];
                        mk_item 9 [x07] Rejected [x07]; mk_item 10 [x08] Expired [x08]]) as Hi.
  { apply (f_equal snd) in He. vm_compute in He. injection He as <-. reflexivity. }
  rewrite Hfam, Hi. split; [reflexivity|]. split; [|vm_compute; reflexivity].
  apply Hp. rewrite Hi. repeat (constructor; [discriminate|]). constructor.
Defined.

Lemma page_replay_idempotent_witness :
  exists q' ig', ingest_relay_page (C := toy_crypto) toy_engine_db q' toy_page 20 = (q', Ok ig') /\
    ig_rows_ingested ig' = 0 /\ ((fun r => ca_msg_id r) <$> q') = [[x01]; [x02]; [x03]; [x06]].
Proof.
  destruct (ingest_relay_page (C := toy_crypto) toy_engine_db toy_queue toy_page 20) as [q' [ig|e]] eqn:He.
  2: { exfalso. apply (f_equal snd) in He. vm_compute in He. discriminate. }
  pose proof (f_equal fst He) as Hq. cbn [fst] in Hq. exists q'.
  destruct (page_replay_idempotent (C := toy_crypto) toy_engine_db toy_queue toy_page 20 q' ig toy_queue_ok) as (ig' & Hr & Hz).
  - repeat (constructor; [apply Z.leb_le; vm_compute; reflexivity|]). constructor.
  - exact He.
  - rewrite <-Hq. intros x Hx. vm_compute in Hx |- *.
    repeat (apply elem_of_cons in Hx as [->|Hx]; [repeat ((left; reflexivity) || right)|]). by apply not_elem_of_nil in Hx.
  - exists ig'. split; [exact Hr|]. split; [exact Hz|]. rewrite <-Hq. vm_compute. reflexivity.
Defined.

Lemma carry_stays_within_budget_witness :
  queue_ok (carry_run (C := toy_crypto) [OpEnqueue (toy_mail x01 3 900) true 5 0; OpIngest toy_engine_db toy_page 20]) /\
  exists r, r ∈ carry_run (C := toy_crypto) [OpEnqueue (toy_mail x01 3 900) true 5 0; OpIngest toy_engine_db toy_page 20] /\
    ca_msg_id r = [x01] /\
    kept_in (carry_step (C := toy_crypto)
      (carry_run (C := toy_crypto) [OpEnqueue (toy_mail x01 3 900) true 5 0; OpIngest toy_engine_db toy_page 20]) (OpPrune 800)) r.
Proof.
  destruct (carry_stays_within_budget (C := toy_crypto)
    [OpEnqueue (toy_mail x01 3 900) true 5 0; OpIngest toy_engine_db toy_page 20] (OpPrune 800)) as [Hq Hk].
  { repeat constructor; apply Z.leb_le; vm_compute; reflexivity. }
  split; [exact Hq|]. exists (new_carry_row (C := toy_crypto) (toy_mail x01 3 900) true false 5).
  assert (new_carry_row (C := toy_crypto) (toy_mail x01 3 900) true false 5
    ∈ carry_run (C := toy_crypto) [OpEnqueue (toy_mail x01 3 900) true 5 0; OpIngest toy_engine_db toy_page 20]) as Hin
    by (vm_compute; left).
  split; [exact Hin|]. split; [reflexivity|]. destruct (Hk _ Hin eq_refl) as [?|Hd]; [done|]. change (900 <= 800) in Hd. lia.
Defined.
