(* ===== verification/OutboundQueue.v ===== *)
(** The outbound queue: what this device authored and still owes, and what leaves the
    queue when ([core/src/outbound_retirement.rs], the outbound tables of
    [core/src/store.rs], and the queueing half of [core/src/authoring.rs]).

    Tables are lists of rows in insertion order, keyed tables finite maps.  A row leaves by
    itself on one of three grounds: a delivered receipt that covers a row the relay lane has
    carried, a newer generation of a snapshot kind, and expiry; and it goes with its chat
    when this person deletes the contact or the group.  [outbound_leaves_licensed] states that
    there is no other way; [upload_page_fair] that the relay uploader's window cannot be
    taken over by one recipient.  [Authoring.v] builds on these tables.  The delivery metrics
    ([record_delivered_evidence]) and the shared drafts are not modelled, nor is the scrub of
    a restored backup, which empties the queue or drops what has expired. *)
From stdpp Require Import base numbers list gmap strings sorting.
From coqutil Require Import Datatypes.RecordSetters.
From S2P Require Import Prelude StdModel SqlModel Wire Crypto Message Frames Hints Engine.
Import TriangleBracketNotations.

(** * Tables *)

(** A row of [outbound_envelopes]. *)
Record outbound_row : Type := mk_orow {
  or_dedupe_key : bytes;
  or_envelope : OutboundEnvelope;
  or_queued_at : Z;
  or_relay_posted_at : option Z;
}.

(** A row of [outgoing_receipt_envelopes]. *)
Record receipt_row : Type := mk_rrow {
  rr_envelope : OutgoingReceiptEnvelope;
  rr_queued_at : Z;
  rr_relay_posted_at : option Z;
}.

(** A row of [outbound_fanout_posted]. *)
Record fanout_row : Type := mk_frow {
  fr_msg_id : bytes;
  fr_member : bytes;
  fr_relay_url : bytes;
  fr_posted_at : Z;
}.

(** [receipts]: through which lamport, and over which transport, keyed by chat, sender
    and receipt type; [authored_lamport_watermarks] by chat and sender. *)
Record outbound_db : Type := mk_odb {
  od_engine : engine_db;
  od_outbound : list outbound_row;
  od_receipts : gmap (bytes * bytes * Z) (Z * option Z);
  od_receipt_envelopes : list receipt_row;
  od_fanout : list fanout_row;
  od_watermarks : gmap (bytes * bytes) Z;
}.

Notation or_msg_id r := (oe_msg_id (or_envelope r)).
Notation or_recipient r := (oe_recipient_user_id (or_envelope r)).
Notation or_chat r := (oe_chat_id (or_envelope r)).
Notation or_sender r := (oe_sender_user_id (or_envelope r)).

(** The [lamport] column: [u64 as i64]. *)
Definition or_lamport (r : outbound_row) : Z := to_i64 (oe_lamport (or_envelope r)).

Definition is_contact (d : outbound_db) (id : bytes) : bool :=
  bool_decide (id ∈ rt_contacts (e_routing (od_engine d))).

Definition is_group (d : outbound_db) (id : bytes) : bool :=
  bool_decide (id ∈ group_id <$> rt_groups (e_routing (od_engine d))).

(** [EXISTS (SELECT 1 FROM messages m WHERE ...)] *)
Definition has_message (d : outbound_db) (r : outbound_row) : bool :=
  existsb (fun m => bool_decide (mr_chat_id m = or_chat r) && bool_decide (mr_sender m = or_sender r)
                    && (mr_lamport m =? or_lamport r)) (e_messages (od_engine d)).

(** * Policy *)

Definition LAN_ENDPOINT_HINT_EXPIRY_MS : Z := 30 * 60 * 1000.

Definition authored_delivery_lifetime_ms (kind : Z) : Z :=
  if kind =? KIND_LAN_ENDPOINT_HINT then LAN_ENDPOINT_HINT_EXPIRY_MS else DEFAULT_EXPIRY_MS.

Definition authored_expiry (kind routing_timestamp_ms : Z) : Z :=
  i64_saturating_add routing_timestamp_ms (authored_delivery_lifetime_ms kind).

Definition supersedes_queued_generations (kind : Z) : bool :=
  existsb (Z.eqb kind)
    [KIND_PROFILE_SYNC; KIND_FRIEND_DIRECTORY; KIND_LAN_ENDPOINT_HINT; KIND_RELAY_UPDATE;
     KIND_SYNC_DIGEST; KIND_ROSTER_GOSSIP].

Definition covered_by_delivered_watermark (lamport delivered_through : Z) : bool :=
  (0 <? delivered_through) && (lamport <=? delivered_through).

(** The [WHERE] clause of [RETIRE_COVERED_SQL]. *)
Definition retire_covered_where (d : outbound_db) (chat sender : bytes) (through : Z) (r : outbound_row) : bool :=
  bool_decide (or_recipient r = chat) && bool_decide (or_chat r = chat) && bool_decide (or_sender r = sender)
  && (or_lamport r <=? through) && bool_decide (is_Some (or_relay_posted_at r))
  && is_contact d chat && negb (is_group d chat) && has_message d r.

Definition COVERED_AWAITING_RELAY (d : outbound_db) (r : outbound_row) : bool :=
  bool_decide (or_recipient r = or_chat r)
  && match od_receipts d !! (or_chat r, or_sender r, RECEIPT_TYPE_DELIVERED) with
     | Some (through, _) => or_lamport r <=? through
     | None => false
     end
  && is_contact d (or_chat r) && negb (is_group d (or_chat r)) && has_message d r.

(** The [WHERE] clause of [RETIRE_SUPERSEDED_SQL]. *)
Definition retire_superseded_where (d : outbound_db) (recipient sender : bytes) (kind lamport : Z) (r : outbound_row)
  : bool :=
  bool_decide (or_recipient r = recipient) && bool_decide (or_chat r = recipient)
  && bool_decide (or_sender r = sender) && (oe_kind (or_envelope r) =? kind) && (or_lamport r <? lamport)
  && negb (is_group d recipient).

(** [DELETE FROM outbound_envelopes WHERE ...], with the number of rows gone. *)
Definition delete_outbound (where_ : outbound_row -> bool) (d : outbound_db) : outbound_db * Z :=
  (d <| od_outbound := List.filter (fun r => negb (where_ r)) (od_outbound d) |>,
   blen (List.filter where_ (od_outbound d))).

Definition retire_receipt_covered (d : outbound_db) (chat_id sender_user_id : bytes) (through_lamport : Z)
  : outbound_db * Z :=
  if through_lamport =? 0 then (d, 0)
  else delete_outbound (retire_covered_where d chat_id sender_user_id (to_i64 through_lamport)) d.

(** [receipts.through_lamport], 0 when there is none; [.max(0) as u64]. *)
Definition delivered_watermark (d : outbound_db) (chat_id sender_user_id : bytes) : Z :=
  match od_receipts d !! (chat_id, sender_user_id, RECEIPT_TYPE_DELIVERED) with
  | Some (through, _) => Z.max through 0
  | None => 0
  end.

Definition retire_covered_after_relay_post (d : outbound_db) (msg_id : bytes) : outbound_db * Z :=
  match find (fun r => bool_decide (or_msg_id r = msg_id) && bool_decide (or_recipient r = or_chat r)
                       && is_contact d (or_chat r)) (od_outbound d) with
  | None => (d, 0)
  | Some r => retire_receipt_covered d (or_chat r) (or_sender r) (delivered_watermark d (or_chat r) (or_sender r))
  end.

Definition retire_superseded (d : outbound_db) (recipient_user_id chat_id sender_user_id : bytes) (kind lamport : Z)
  : outbound_db * Z :=
  if negb (supersedes_queued_generations kind) || negb (bool_decide (recipient_user_id = chat_id)) then (d, 0)
  else delete_outbound (retire_superseded_where d recipient_user_id sender_user_id kind (to_i64 lamport)) d.

Definition backfill_rejoins_the_queue (d : outbound_db) (envelope : OutboundEnvelope) : bool :=
  if supersedes_queued_generations (oe_kind envelope) then false
  else negb (covered_by_delivered_watermark (oe_lamport envelope)
               (delivered_watermark d (oe_chat_id envelope) (oe_sender_user_id envelope))).

(** The sweep at every open, driven from [receipts]. *)
Definition sweep_step (acc : outbound_db * Z) (covered : bytes * bytes * Z) : outbound_db * Z :=
  let '(d, removed) := acc in
  let '(chat_id, sender_user_id, through) := covered in
  if through <=? 0 then (d, removed)
  else let '(d', n) := retire_receipt_covered d chat_id sender_user_id (as_u64 through) in (d', removed + n).

Definition sweep_receipt_covered (d : outbound_db) : outbound_db * Z :=
  let covered := omap (fun '((chat, sender, type), (through, _)) =>
      if (type =? RECEIPT_TYPE_DELIVERED) && (0 <? through) then Some (chat, sender, through) else None)
    (map_to_list (od_receipts d)) in
  foldl sweep_step (d, 0) covered.

(** * Receipts *)

Definition validate_sqlite_u64 (field : string) (value : Z) : result CoreError unit :=
  if I64_MAX <? value then Err (Malformed (field +:+ " exceeds the supported range")) else Ok tt.

Definition validate_receipt_watermark (receipt_type through_lamport : Z) : result CoreError unit :=
  if negb (receipt_type =? RECEIPT_TYPE_DELIVERED) && negb (receipt_type =? RECEIPT_TYPE_READ)
  then Err (Malformed "invalid receipt type")
  else validate_sqlite_u64 "receipt watermark" through_lamport.

(** [INSERT ... ON CONFLICT DO UPDATE]: the highest watermark, with the transport that
    brought it. *)
Definition upsert_receipt (old : option (Z * option Z)) (through : Z) (via_transport : option Z) : Z * option Z :=
  match old with
  | None => (through, via_transport)
  | Some (old_through, old_via) =>
      (Z.max old_through through,
       if bool_decide (is_Some via_transport)
          && ((old_through <? through) || ((through =? old_through) && bool_decide (old_via = None)))
       then via_transport else old_via)
  end.

Definition record_receipt (d : outbound_db) (chat_id sender_user_id : bytes) (receipt_type through_lamport : Z)
  (via_transport : option Z) : outbound_db * result CoreError unit :=
  match validate_receipt_watermark receipt_type through_lamport with
  | Err e => (d, Err e)
  | Ok _ =>
      let k := (chat_id, sender_user_id, receipt_type) in
      let row := upsert_receipt (od_receipts d !! k) (to_i64 through_lamport) via_transport in
      let d := d <| od_receipts ::= <[k := row]> |> in
      if receipt_type =? RECEIPT_TYPE_DELIVERED
      then ((retire_receipt_covered d chat_id sender_user_id (Z.max row.1 0)).1, Ok tt)
      else (d, Ok tt)
  end.

Definition receipt_through (d : outbound_db) (chat_id sender_user_id : bytes) (receipt_type : Z) : Z :=
  match od_receipts d !! (chat_id, sender_user_id, receipt_type) with
  | Some (through, _) => as_u64 through
  | None => 0
  end.

(** * The relay uploader's queries and stamps *)

(** [ORDER BY queued_at ASC, msg_id ASC] *)
Definition outbound_le (a b : outbound_row) : Prop :=
  or_queued_at a < or_queued_at b \/
  (or_queued_at a = or_queued_at b /\ blob_leb (or_msg_id a) (or_msg_id b) = true).

#[global] Instance outbound_le_dec a b : Decision (outbound_le a b).
Proof. unfold outbound_le. apply _. Defined.

(** [ORDER BY covered ASC, queued_at ASC, msg_id ASC], inside one recipient. *)
Definition upload_le (d : outbound_db) (a b : outbound_row) : Prop :=
  (COVERED_AWAITING_RELAY d a = false /\ COVERED_AWAITING_RELAY d b = true) \/
  (COVERED_AWAITING_RELAY d a = COVERED_AWAITING_RELAY d b /\ outbound_le a b).

#[global] Instance upload_le_dec d a b : Decision (upload_le d a b).
Proof. unfold upload_le. apply _. Defined.

Definition upload_candidates (d : outbound_db) (now_ms : Z) (skip : list bytes) : list outbound_row :=
  filter (fun r => or_relay_posted_at r = None /\ now_ms < oe_expiry (or_envelope r) /\ or_recipient r ∉ skip)
    (od_outbound d).

Definition upload_page (d : outbound_db) (limit now_ms : Z) (skip : list bytes) : list outbound_row :=
  round_robin (fun r => or_recipient r) (upload_le d) outbound_le limit (upload_candidates d now_ms skip).

Definition pending_relay_outbound_envelopes (d : outbound_db) (limit now_ms : Z)
  (skip_recipient_user_ids : list bytes) : list OutboundEnvelope :=
  if negb (rt_advertise (e_routing (od_engine d))) then []
  else or_envelope <$> upload_page d limit now_ms skip_recipient_user_ids.

Definition mark_outbound_envelope_relay_posted (d : outbound_db) (msg_id : bytes) (posted_at_ms : Z)
  : outbound_db * bool :=
  let changed := existsb (fun r => bool_decide (or_msg_id r = msg_id)) (od_outbound d) in
  let d := d <| od_outbound ::= fmap (fun r => if bool_decide (or_msg_id r = msg_id)
                                       then r <| or_relay_posted_at := Some posted_at_ms |> else r) |> in
  if changed then ((retire_covered_after_relay_post d msg_id).1, true) else (d, false).

Definition prune_expired_outbound_envelopes (d : outbound_db) (now_ms : Z) : outbound_db * Z :=
  delete_outbound (fun r => oe_expiry (or_envelope r) <=? now_ms) d.

Definition lamport_le (a b : outbound_row) : Prop := or_lamport a <= or_lamport b.

#[global] Instance lamport_le_dec a b : Decision (lamport_le a b).
Proof. unfold lamport_le. apply _. Defined.

Definition outbound_envelopes_after (d : outbound_db) (chat_id sender_user_id : bytes) (after_lamport : Z)
  : list OutboundEnvelope :=
  or_envelope <$> merge_sort lamport_le
    (filter (fun r => or_chat r = chat_id /\ or_sender r = sender_user_id /\ to_i64 after_lamport < or_lamport r)
       (od_outbound d)).

(** ** Group fan-out markers *)

Definition relay_fanout_posted_members (d : outbound_db) (msg_id relay_url : bytes) : list bytes :=
  fr_member <$> filter (fun f => fr_msg_id f = msg_id /\ fr_relay_url f = relay_url) (od_fanout d).

Definition mark_relay_fanout_row_posted (d : outbound_db) (msg_id member_user_id relay_url : bytes) (now_ms : Z)
  : outbound_db * bool :=
  if existsb (fun f => bool_decide (fr_msg_id f = msg_id /\ fr_member f = member_user_id /\ fr_relay_url f = relay_url))
       (od_fanout d)
  then (d, false)
  else (d <| od_fanout ::= (fun l => l ++ [mk_frow msg_id member_user_id relay_url now_ms]) |>, true).

Definition prune_relay_fanout_markers (d : outbound_db) : outbound_db * Z :=
  let unposted := (fun r => or_msg_id r) <$> filter (fun r => or_relay_posted_at r = None) (od_outbound d) in
  let kept := filter (fun f => fr_msg_id f ∈ unposted) (od_fanout d) in
  (d <| od_fanout := kept |>, blen (od_fanout d) - blen kept).

Definition clear_relay_fanout_markers (d : outbound_db) : outbound_db * Z :=
  (d <| od_fanout := [] |>, blen (od_fanout d)).

(** ** A contact's endpoint moves *)

(** The mail the move strands is offered again. *)
Definition clear_posted_to (user_id : bytes) (d : outbound_db) : outbound_db :=
  d <| od_outbound ::= fmap (fun r => if decide (oe_recipient_user_id (or_envelope r) = user_id)
                                      then mk_orow (or_dedupe_key r) (or_envelope r) (or_queued_at r) None else r) |>
    <| od_receipt_envelopes ::= fmap (fun r => if decide (re_recipient_user_id (rr_envelope r) = user_id)
                                               then mk_rrow (rr_envelope r) (rr_queued_at r) None else r) |>.

(** ** A contact or a group is deleted *)

(** What both delete of the chat: [DELETE FROM ... WHERE chat_id = ?1] on messages,
    conflicts, receipts, queued receipts and queued envelopes.  (They also clear the chat's
    receipts sent, group receipts and consumed lamports, which are tables of other files, or of none.)
    The watermarks of what was authored survive. *)
Definition delete_chat (chat_id : bytes) (d : outbound_db) : outbound_db :=
  d <| od_engine ::= (fun e => mk_edb (e_routing e) (e_rosters e) (filter (fun m => mr_chat_id m <> chat_id) (e_messages e))
                                 (filter (fun c => mr_chat_id (cf_row c) <> chat_id) (e_conflicts e)) (e_hidden e) (e_carried e)) |>
    <| od_receipts ::= filter (fun kv => kv.1.1.1 <> chat_id) |>
    <| od_receipt_envelopes ::= filter (fun r => re_chat_id (rr_envelope r) <> chat_id) |>
    <| od_outbound ::= filter (fun r => or_chat r <> chat_id) |>.

(** The contact, its chat, and what is held about its devices.  (Its discovery policy,
    its provenance with the block that deleting an introduced contact leaves, and the
    friend suggestions are tables of other files, or of none.) *)
Definition delete_contact (d : outbound_db) (user_id : bytes) : outbound_db * bool :=
  let e := od_engine d in
  let rosters := RosterStore.delete_person (e_rosters e) user_id in
  let rosters := RosterStore.mk_db (delete user_id (RosterStore.contacts rosters)) (RosterStore.contact_rosters rosters)
                   (RosterStore.contact_devices rosters)
                   (filter (fun f => RosterStore.f_person f <> user_id) (RosterStore.contact_safety_facts rosters))
                   (RosterStore.facts_sequence rosters) in
  let rt := e_routing e in
  let routing := mk_routing (rt_groups rt) (filter (fun c => c <> user_id) (rt_contacts rt)) (rt_fleet rt) (rt_advertise rt) (rt_ack rt) in
  (delete_chat user_id (d <| od_engine := mk_edb routing rosters (e_messages e) (e_conflicts e) (e_hidden e) (e_carried e) |>),
   is_contact d user_id).

(** The group with its members, and its chat. *)
Definition delete_group (d : outbound_db) (gid : bytes) : outbound_db * bool :=
  let e := od_engine d in
  let rt := e_routing e in
  let routing := mk_routing (filter (fun g => group_id g <> gid) (rt_groups rt)) (rt_contacts rt) (rt_fleet rt) (rt_advertise rt) (rt_ack rt) in
  (delete_chat gid (d <| od_engine := mk_edb routing (e_rosters e) (e_messages e) (e_conflicts e) (e_hidden e) (e_carried e) |>),
   is_group d gid).

(** ** Outgoing receipts *)

Notation rr_key r := (re_chat_id (rr_envelope r), re_sender_user_id (rr_envelope r), re_receipt_type (rr_envelope r)).

(** One sealed receipt per watermark: a higher one replaces it and is unposted again. *)
Definition upsert_outgoing_receipt_envelope (d : outbound_db) (envelope : OutgoingReceiptEnvelope) (queued_at_ms : Z)
  : outbound_db * result CoreError bool :=
  match validate_receipt_watermark (re_receipt_type envelope) (re_through_lamport envelope) with
  | Err e => (d, Err e)
  | Ok _ =>
      let new := mk_rrow envelope queued_at_ms None in
      let mine r := bool_decide (rr_key r = rr_key new) in
      match find mine (od_receipt_envelopes d) with
      | Some current =>
          if to_i64 (re_through_lamport envelope) <=? to_i64 (re_through_lamport (rr_envelope current))
          then (d, Ok false)
          else if existsb (fun r => negb (mine r) && bool_decide (re_msg_id (rr_envelope r) = re_msg_id envelope))
                    (od_receipt_envelopes d)
          then (d, Err (Store "UNIQUE constraint failed: outgoing_receipt_envelopes.msg_id"))
          else (d <| od_receipt_envelopes ::= fmap (fun r => if mine r then new else r) |>, Ok true)
      | None =>
          if existsb (fun r => bool_decide (re_msg_id (rr_envelope r) = re_msg_id envelope)) (od_receipt_envelopes d)
          then (d, Err (Store "UNIQUE constraint failed: outgoing_receipt_envelopes.msg_id"))
          else (d <| od_receipt_envelopes ::= (fun l => l ++ [new]) |>, Ok true)
      end
  end.

Definition receipt_le (a b : receipt_row) : Prop :=
  rr_queued_at a < rr_queued_at b \/
  (rr_queued_at a = rr_queued_at b /\ blob_leb (re_msg_id (rr_envelope a)) (re_msg_id (rr_envelope b)) = true).

#[global] Instance receipt_le_dec a b : Decision (receipt_le a b).
Proof. unfold receipt_le. apply _. Defined.

Definition pending_relay_outgoing_receipt_envelopes (d : outbound_db) (limit now_ms : Z)
  (skip_recipient_user_ids : list bytes) : list OutgoingReceiptEnvelope :=
  rr_envelope <$> round_robin (fun r => re_recipient_user_id (rr_envelope r)) receipt_le receipt_le limit
    (filter (fun r => rr_relay_posted_at r = None /\ now_ms < re_expiry (rr_envelope r)
                      /\ re_recipient_user_id (rr_envelope r) ∉ skip_recipient_user_ids) (od_receipt_envelopes d)).

Definition mark_outgoing_receipt_envelope_relay_posted (d : outbound_db) (msg_id : bytes) (posted_at_ms : Z)
  : outbound_db * bool :=
  let hit r := bool_decide (re_msg_id (rr_envelope r) = msg_id) in
  (d <| od_receipt_envelopes ::= fmap (fun r => if hit r then r <| rr_relay_posted_at := Some posted_at_ms |> else r) |>,
   existsb hit (od_receipt_envelopes d)).

Definition prune_expired_outgoing_receipt_envelopes (d : outbound_db) (now_ms : Z) : outbound_db * Z :=
  let expired r := re_expiry (rr_envelope r) <=? now_ms in
  (d <| od_receipt_envelopes ::= List.filter (fun r => negb (expired r)) |>,
   blen (List.filter expired (od_receipt_envelopes d))).

(** * Queueing *)

(** [(len as u16).to_be_bytes()] *)
Definition write_bytes16_local (bs : bytes) : bytes := be_bytes 2 (blen bs) ++ bs.

Definition outbound_message_dedupe_key (chat_id sender_user_id : bytes) (kind lamport : Z) (recipient_user_id : bytes)
  : bytes :=
  [x01] ++ write_bytes16_local chat_id ++ write_bytes16_local sender_user_id ++ [byte_of_Z kind]
  ++ be_bytes 8 lamport ++ write_bytes16_local recipient_user_id.

(** [INSERT OR IGNORE]: [msg_id] and the dedupe key are unique. *)
Definition queue_outbound_row (d : outbound_db) (envelope : OutboundEnvelope) (queued_at_ms : Z) : outbound_db :=
  let key := outbound_message_dedupe_key (oe_chat_id envelope) (oe_sender_user_id envelope) (oe_kind envelope)
               (oe_lamport envelope) (oe_recipient_user_id envelope) in
  if existsb (fun r => bool_decide (or_dedupe_key r = key) || bool_decide (or_msg_id r = oe_msg_id envelope))
       (od_outbound d)
  then d
  else d <| od_outbound ::= (fun l => l ++ [mk_orow key envelope queued_at_ms None]) |>.

(** * What leaves *)

(** The stored delivered receipt covers the row, its plaintext stays, and it is mail to
    one person. *)
Definition covered (d : outbound_db) (r : outbound_row) : Prop :=
  or_recipient r = or_chat r /\ is_contact d (or_chat r) = true /\ is_group d (or_chat r) = false /\
  has_message d r = true /\
  exists through via, od_receipts d !! (or_chat r, or_sender r, RECEIPT_TYPE_DELIVERED) = Some (through, via)
                      /\ 0 < through /\ or_lamport r <= through.

Definition posted (r : outbound_row) : Prop := is_Some (or_relay_posted_at r).

Definition receipts_ok (d : outbound_db) : Prop := map_Forall (fun _ row => in_i64 row.1) (od_receipts d).

Definition with_outbound (d : outbound_db) (l : list outbound_row) : outbound_db := d <| od_outbound := l |>.

(** [d'] is [d] without exactly the rows [gone]. *)
Definition shrunk (gone : outbound_row -> Prop) (d d' : outbound_db) : Prop :=
  exists f, (forall r, f r = false <-> gone r) /\ d' = with_outbound d (List.filter f (od_outbound d)).

Lemma shrunk_none (gone : outbound_row -> Prop) d : (forall r, ~ gone r) -> shrunk gone d d.
Proof.
  intros H. exists (fun _ => true). split; [intros r; split; [done|by intros ?%H]|].
  rewrite (forallb_filter_id (fun _ => true)) by (by apply forallb_forall). by destruct d.
Qed.

Lemma shrunk_trans g1 g2 d d1 d2 : shrunk g1 d d1 -> shrunk g2 d1 d2 -> shrunk (fun r => g1 r \/ g2 r) d d2.
Proof.
  intros (f1 & H1 & ->) (f2 & H2 & ->). exists (fun r => f1 r && f2 r). split.
  - intros r. rewrite andb_false_iff, H1, H2. done.
  - change (od_outbound (with_outbound d (List.filter f1 (od_outbound d)))) with (List.filter f1 (od_outbound d)).
    assert (List.filter f2 (List.filter f1 (od_outbound d)) = List.filter (fun r => f1 r && f2 r) (od_outbound d)) as ->.
    { generalize (od_outbound d). induction l as [|x l IH]; [done|]. cbn. destruct (f1 x); cbn; [|done].
      by destruct (f2 x); rewrite IH. }
    done.
Qed.

Lemma shrunk_iff (g1 g2 : outbound_row -> Prop) d d' : (forall r, g1 r <-> g2 r) -> shrunk g1 d d' -> shrunk g2 d d'.
Proof. intros Hg (f & Hf & ->). exists f. split; [|done]. intros r. by rewrite Hf. Qed.

Lemma shrunk_elem gone d d' r : shrunk gone d d' -> r ∈ od_outbound d' <-> r ∈ od_outbound d /\ ~ gone r.
Proof.
  intros (f & Hf & ->). change (od_outbound (with_outbound d ?l)) with l.
  rewrite !list_elem_of_In, filter_In, <-Hf. destruct (f r); naive_solver.
Qed.

Lemma delete_outbound_shrunk where_ d : shrunk (fun r => where_ r = true) d (delete_outbound where_ d).1.
Proof. exists (fun r => negb (where_ r)). split; [intros r; apply negb_false_iff|done]. Qed.

Lemma covered_with_outbound d l r : covered (with_outbound d l) r <-> covered d r.
Proof. done. Qed.

Lemma retire_where_spec d chat sender t via r :
  od_receipts d !! (chat, sender, RECEIPT_TYPE_DELIVERED) = Some (t, via) -> 0 < t ->
  retire_covered_where d chat sender t r = true <->
  (or_chat r = chat /\ or_sender r = sender) /\ posted r /\ covered d r.
Proof.
  intros Ht Hpos. unfold retire_covered_where, covered, posted.
  rewrite !andb_true_iff, !bool_decide_eq_true, Z.leb_le, negb_true_iff. split.
  - intros [[[[[[[Hr Hc] Hs] Hl] Hp] Hco] Hg] Hm]. rewrite <-Hc, <-Hs in Ht. rewrite Hc. split_and!; auto.
    exists t, via. rewrite <-Hc. auto.
  - intros ([Hc Hs] & Hp & Hr & Hco & Hg & Hm & t' & v' & Ht' & _ & Hl). subst chat sender.
    assert (t' = t) by congruence. subst. split_and!; auto; lia.
Qed.

Lemma retire_receipt_covered_shrunk d chat sender t via :
  receipts_ok d -> od_receipts d !! (chat, sender, RECEIPT_TYPE_DELIVERED) = Some (t, via) ->
  shrunk (fun r => (or_chat r = chat /\ or_sender r = sender) /\ posted r /\ covered d r) d
    (retire_receipt_covered d chat sender (Z.max t 0)).1.
Proof.
  intros Hok Ht. unfold retire_receipt_covered. destruct (Z.eqb_spec (Z.max t 0) 0) as [H0|H0].
  - apply shrunk_none. intros r ([<- <-] & _ & _ & _ & _ & _ & t' & v' & Ht' & Hp & _). rewrite Ht in Ht'.
    injection Ht' as <- <-. lia.
  - pose proof (Hok _ _ Ht) as Hr. cbn in Hr. rewrite Z.max_l by lia.
    assert (to_i64 t = t) as -> by (revert Hr; unfold to_i64; ints || (intros; case_match; ints)).
    eapply shrunk_iff; [|apply delete_outbound_shrunk]. intros r. cbn. by apply retire_where_spec with via; [|lia].
Qed.

#[global] Instance OutboundEnvelope_eq_dec : EqDecision OutboundEnvelope.
Proof. solve_decision. Defined.
#[global] Instance outbound_row_eq_dec : EqDecision outbound_row.
Proof. solve_decision. Defined.

(** The writes to [outbound_envelopes]. *)
Inductive outbound_op : Type :=
| QueueRow (envelope : OutboundEnvelope) (queued_at_ms : Z)
| RecordReceipt (chat_id sender_user_id : bytes) (receipt_type through_lamport : Z) (via_transport : option Z)
| MarkPosted (msg_id : bytes) (posted_at_ms : Z)
| PruneOutbound (now_ms : Z)
| SweepCovered
| Supersede (recipient chat_id sender_user_id : bytes) (kind lamport : Z)
| ClearPosted (user_id : bytes)
| DeleteContact (user_id : bytes)
| DeleteGroup (gid : bytes)
| Elsewhere (engine : engine_db).

(** The writes this device's queue is made of; [Elsewhere] is any write to the other
    tables, which may add contacts, groups and messages. *)
Definition own_write (op : outbound_op) : Prop := match op with Elsewhere _ => False | _ => True end.

Definition outbound_step (d : outbound_db) (op : outbound_op) : outbound_db :=
  match op with
  | QueueRow e at_ms => queue_outbound_row d e at_ms
  | RecordReceipt chat sender type through via => (record_receipt d chat sender type through via).1
  | MarkPosted id at_ms => (mark_outbound_envelope_relay_posted d id at_ms).1
  | PruneOutbound now => (prune_expired_outbound_envelopes d now).1
  | SweepCovered => (sweep_receipt_covered d).1
  | Supersede recipient chat sender kind lamport => (retire_superseded d recipient chat sender kind lamport).1
  | ClearPosted user_id => clear_posted_to user_id d
  | DeleteContact user_id => (delete_contact d user_id).1
  | DeleteGroup gid => (delete_group d gid).1
  | Elsewhere engine => d <| od_engine := engine |>
  end.

(** The row with its stamps aside. *)
Definition same_mail (r r' : outbound_row) : Prop :=
  or_envelope r' = or_envelope r /\ or_dedupe_key r' = or_dedupe_key r /\ or_queued_at r' = or_queued_at r.

(** The licence a row needs to leave under an operation that ends in [d']. *)
Definition licensed_exit (d' : outbound_db) (op : outbound_op) (r : outbound_row) : Prop :=
  match op with
  | QueueRow _ _ | ClearPosted _ | Elsewhere _ => False
  | DeleteContact id | DeleteGroup id => or_chat r = id
  | PruneOutbound now => oe_expiry (or_envelope r) <= now
  | RecordReceipt _ _ _ _ _ | SweepCovered => posted r /\ covered d' r
  | MarkPosted id _ => (posted r \/ or_msg_id r = id) /\ covered d' r
  | Supersede recipient chat sender kind lamport =>
      supersedes_queued_generations kind = true /\ recipient = chat /\ is_group d' recipient = false /\
      or_recipient r = recipient /\ or_chat r = recipient /\ or_sender r = sender /\
      oe_kind (or_envelope r) = kind /\ or_lamport r < to_i64 lamport
  end.

Record outbound_ok (d : outbound_db) : Prop := {
  oo_ids : NoDup ((fun r => or_msg_id r) <$> od_outbound d);
  oo_keys : NoDup (or_dedupe_key <$> od_outbound d);
  oo_receipts : receipts_ok d;
}.

(** Nothing is queued that has nothing left to wait for. *)
Definition no_settled_row (d : outbound_db) : Prop := forall r, r ∈ od_outbound d -> posted r -> ~ covered d r.

Lemma list_filter_sublist {A} (f : A -> bool) (l : list A) : sublist (List.filter f l) l.
Proof. induction l as [|x l IH]; [constructor|]. cbn. destruct (f x); by constructor. Qed.

Lemma shrunk_ok gone d d' : shrunk gone d d' -> outbound_ok d -> outbound_ok d'.
Proof.
  intros (f & _ & ->) [Hi Hk Hr]. split; [| |exact Hr]; cbn [od_outbound with_outbound].
  - eapply sublist_NoDup; [exact Hi|]. apply fmap_sublist, list_filter_sublist.
  - eapply sublist_NoDup; [exact Hk|]. apply fmap_sublist, list_filter_sublist.
Qed.

Lemma shrunk_covered gone d d' r : shrunk gone d d' -> covered d' r <-> covered d r.
Proof. by intros (f & _ & ->). Qed.

Lemma shrunk_settled gone d d' : shrunk gone d d' -> no_settled_row d -> no_settled_row d'.
Proof.
  intros Hs Hn r Hr Hp. rewrite (shrunk_covered _ _ _ _ Hs). apply (shrunk_elem _ _ _ _ Hs) in Hr as [Hr _]. auto.
Qed.

Lemma shrunk_leaves gone d d' r : shrunk gone d d' -> r ∈ od_outbound d ->
  (exists r', r' ∈ od_outbound d' /\ same_mail r r') \/ gone r.
Proof.
  intros Hs Hr. destruct (decide (r ∈ od_outbound d')) as [?|Hn]; [left; by exists r|right].
  destruct Hs as (f & Hf & ->). apply Hf. destruct (f r) eqn:He; [|done]. destruct Hn.
  change (r ∈ List.filter f (od_outbound d)). rewrite list_elem_of_In, filter_In, <-list_elem_of_In. done.
Qed.

(** Rows of one map differ from another's in their stamps only. *)
Lemma covered_same_mail d r r' : same_mail r r' -> covered d r' <-> covered d r.
Proof. intros (He & _). unfold covered, has_message, or_lamport. by rewrite He. Qed.

Definition step_ok (d : outbound_db) (op : outbound_op) : Prop :=
  let d' := outbound_step d op in
  outbound_ok d' /\ (no_settled_row d -> no_settled_row d') /\
  forall r, r ∈ od_outbound d -> (exists r', r' ∈ od_outbound d' /\ same_mail r r') \/ licensed_exit d' op r.

Lemma shrunk_step d op gone : outbound_ok d -> shrunk gone d (outbound_step d op) ->
  (forall r, gone r -> licensed_exit (outbound_step d op) op r) -> step_ok d op.
Proof.
  intros Hok Hs Hg. split_and!; [by eapply shrunk_ok|by eapply shrunk_settled|].
  intros r Hr. destruct (shrunk_leaves _ _ _ _ Hs Hr); auto.
Qed.

Lemma queue_step d e at_ms : outbound_ok d -> step_ok d (QueueRow e at_ms).
Proof.
  intros Hok. unfold step_ok. cbn [outbound_step licensed_exit]. unfold queue_outbound_row.
  set (key := outbound_message_dedupe_key _ _ _ _ _).
  destruct (existsb _ (od_outbound d)) eqn:He.
  { split_and!; [done|done|]. intros r Hr. left. by exists r. }
  assert (forall r, r ∈ od_outbound d -> or_dedupe_key r <> key /\ or_msg_id r <> oe_msg_id e) as Hnew.
  { intros r Hr. rewrite <-not_true_iff_false, existsb_exists in He. split; intros Hx; apply He; exists r;
      (split; [by apply list_elem_of_In|]); apply orb_true_iff; [left|right]; by apply bool_decide_eq_true. }
  set (new := mk_orow key e at_ms None). change (od_outbound (d <| od_outbound ::= _ |>)) with (od_outbound d ++ [new]).
  destruct Hok as [Hi Hk Hr]. split_and!; [split; [..|exact Hr]|..]; cbn [od_outbound].
  - change (NoDup ((fun r => or_msg_id r) <$> (od_outbound d ++ [new]))). rewrite fmap_app. apply NoDup_app. split_and!; [done| |apply NoDup_singleton].
    intros x (r & -> & Hin)%list_elem_of_fmap [= Hx]%list_elem_of_singleton. by destruct (Hnew r Hin).
  - change (NoDup (or_dedupe_key <$> (od_outbound d ++ [new]))). rewrite fmap_app. apply NoDup_app. split_and!; [done| |apply NoDup_singleton].
    intros x (r & -> & Hin)%list_elem_of_fmap [= Hx]%list_elem_of_singleton. by destruct (Hnew r Hin).
  - intros Hn r [Hin|Hin]%elem_of_app Hp; [by apply Hn|]. apply list_elem_of_singleton in Hin as ->. by destruct Hp.
  - intros r Hin. left. exists r. split; [set_solver|done].
Qed.

Lemma receipts_ok_insert d k row : receipts_ok d -> in_i64 row.1 -> receipts_ok (d <| od_receipts ::= <[k := row]> |>).
Proof. intros Hd Hr. apply map_Forall_insert_2; done. Qed.

Lemma upsert_receipt_range old through via : (forall o, old = Some o -> in_i64 o.1) -> in_i64 through ->
  in_i64 (upsert_receipt old through via).1.
Proof.
  intros Ho Ht. unfold upsert_receipt. destruct old as [[t v]|]; [|done]. specialize (Ho _ eq_refl). cbn in *. ints.
Qed.

Lemma validate_receipt_ok type through : validate_receipt_watermark type through = Ok tt ->
  (type = RECEIPT_TYPE_DELIVERED \/ type = RECEIPT_TYPE_READ) /\ through <= I64_MAX.
Proof.
  unfold validate_receipt_watermark, validate_sqlite_u64. destruct (Z.eqb_spec type RECEIPT_TYPE_DELIVERED);
    destruct (Z.eqb_spec type RECEIPT_TYPE_READ); cbn [negb andb]; [..|done]; case_match; intros; bools; try done; auto.
Qed.

(** A receipt filed under another key covers what it did. *)
Lemma covered_other_receipt d k row r : (or_chat r, or_sender r, RECEIPT_TYPE_DELIVERED) <> k ->
  covered (d <| od_receipts ::= <[k := row]> |>) r <-> covered d r.
Proof.
  intros Hk. unfold covered.
  change (od_receipts (d <| od_receipts ::= <[k := row]> |>)) with (<[k := row]> (od_receipts d)).
  rewrite lookup_insert_ne by done. done.
Qed.

Lemma receipt_step d chat sender type through via : in_u64 through -> outbound_ok d ->
  step_ok d (RecordReceipt chat sender type through via).
Proof.
  intros Hu Hok. unfold step_ok. cbn [outbound_step licensed_exit]. unfold record_receipt.
  destruct (validate_receipt_watermark type through) as [[]|e] eqn:Hv.
  2: { split_and!; [done|done|]. intros r Hr. left. by exists r. }
  apply validate_receipt_ok in Hv as [Htype Hle]. rewrite (to_i64_id through) by done.
  set (k := (chat, sender, type)). set (row := upsert_receipt (od_receipts d !! k) through via).
  set (d1 := d <| od_receipts ::= <[k := row]> |>).
  assert (outbound_ok d1) as Hok1.
  { destruct Hok as [Hi Hk Hr]. split; [exact Hi|exact Hk|]. apply receipts_ok_insert; [done|].
    apply upsert_receipt_range; [|ints]. intros o Ho. by apply (Hr k). }
  destruct (Z.eqb_spec type RECEIPT_TYPE_DELIVERED) as [->|Hne].
  - assert (od_receipts d1 !! (chat, sender, RECEIPT_TYPE_DELIVERED) = Some (row.1, row.2)) as Hl.
    { change (od_receipts d1) with (<[k := row]> (od_receipts d)). rewrite lookup_insert_eq. by destruct row. }
    pose proof (retire_receipt_covered_shrunk d1 chat sender row.1 row.2 (oo_receipts _ Hok1) Hl) as Hs.
    cbn [fst]. split_and!; [by eapply shrunk_ok| |].
    + intros Hn r Hr Hp Hc. rewrite (shrunk_covered _ _ _ _ Hs) in Hc. apply (shrunk_elem _ _ _ _ Hs) in Hr as [Hr Hg].
      destruct (decide ((or_chat r, or_sender r) = (chat, sender))) as [[= Hc1 Hc2]|Hd]; [tauto|].
      apply (Hn r Hr Hp). apply (covered_other_receipt d k row); [unfold k; congruence|done].
    + intros r Hr. destruct (shrunk_leaves _ _ _ _ Hs Hr) as [?|(_ & Hp & Hc)]; [by left|right].
      split; [done|]. by rewrite (shrunk_covered _ _ _ _ Hs).
  - cbn [fst]. split_and!; [done| |intros r Hr; left; by exists r].
    intros Hn r Hr Hp Hc. apply (Hn r Hr Hp). apply (covered_other_receipt d k row); [unfold k; congruence|done].
Qed.

Lemma posted_step d id at_ms : outbound_ok d -> step_ok d (MarkPosted id at_ms).
Proof.
  intros Hok. unfold step_ok. cbn [outbound_step licensed_exit]. unfold mark_outbound_envelope_relay_posted.
  set (stamp r := if bool_decide (or_msg_id r = id) then r <| or_relay_posted_at := Some at_ms |> else r).
  assert (forall r, same_mail r (stamp r)) as Hsame by (intros r; unfold stamp; by case_bool_decide).
  set (d1 := with_outbound d (stamp <$> od_outbound d)).
  change (d <| od_outbound ::= fmap stamp |>) with d1.
  assert (outbound_ok d1) as Hok1.
  { destruct Hok as [Hi Hk Hr]. split; [| |exact Hr]; change (od_outbound d1) with (stamp <$> od_outbound d);
      rewrite <-list_fmap_compose.
    - erewrite list_fmap_ext; [exact Hi|]. intros i r _. destruct (Hsame r) as (He & _). exact (f_equal oe_msg_id He).
    - erewrite list_fmap_ext; [exact Hk|]. intros i r _. by destruct (Hsame r) as (_ & Hd & _). }
  assert (forall r, r ∈ od_outbound d -> stamp r ∈ od_outbound d1) as Hin by (intros r Hr; by apply list_elem_of_fmap_2).
  assert (forall r, r ∈ od_outbound d -> exists r', r' ∈ od_outbound d1 /\ same_mail r r') as Hkept
    by (intros r Hr; exists (stamp r); auto).
  assert (forall r', r' ∈ od_outbound d1 -> posted r' -> no_settled_row d -> covered d1 r' -> or_msg_id r' = id) as Hold.
  { intros r' (r & -> & Hr)%list_elem_of_fmap Hp Hn Hc. unfold stamp in *. case_bool_decide as Hid; [done|]. by destruct (Hn r Hr Hp). }
  destruct (existsb _ (od_outbound d)) eqn:He; cbn [fst].
  2: { split_and!; [done| |auto]. intros Hn r' Hr' Hp Hc. pose proof (Hold r' Hr' Hp Hn Hc) as Hid.
       apply list_elem_of_fmap in Hr' as (r & -> & Hr). rewrite <-not_true_iff_false, existsb_exists in He. apply He.
       exists r. split; [by apply list_elem_of_In|]. apply bool_decide_eq_true. by destruct (Hsame r) as (<- & _). }
  unfold retire_covered_after_relay_post.
  destruct (find _ (od_outbound d1)) as [r0|] eqn:Hf.
  2: { split_and!; [done| |auto]. intros Hn r' Hr' Hp Hc. pose proof (Hold r' Hr' Hp Hn Hc) as Hid.
       apply find_none with (x := r') in Hf; [|by apply list_elem_of_In]. destruct Hc as (Hrc & Hco & _). cbn [fst] in Hco.
       rewrite !bool_decide_true, Hco in Hf by done. done. }
  apply find_some in Hf as [Hr0 Hx]. rewrite !andb_true_iff, !bool_decide_eq_true in Hx. destruct Hx as [[Hid0 _] _].
  rewrite <-list_elem_of_In in Hr0.
  destruct (od_receipts d1 !! (or_chat r0, or_sender r0, RECEIPT_TYPE_DELIVERED)) as [[t via]|] eqn:Hl.
  - pose proof (retire_receipt_covered_shrunk d1 _ _ t via (oo_receipts _ Hok1) Hl) as Hs.
    assert (delivered_watermark d1 (or_chat r0) (or_sender r0) = Z.max t 0) as -> by (unfold delivered_watermark; by rewrite Hl).
    split_and!; [by eapply shrunk_ok| |].
    + intros Hn r' Hr' Hp Hc. rewrite (shrunk_covered _ _ _ _ Hs) in Hc. apply (shrunk_elem _ _ _ _ Hs) in Hr' as [Hr' Hg].
      assert (r' = r0) as ->.
      { eapply (nodup_key (fun r => or_msg_id r)); [apply oo_ids, Hok1|done|done|]. rewrite (Hold r' Hr' Hp Hn Hc). done. }
      tauto.
    + intros r Hr. destruct (shrunk_leaves _ _ _ _ Hs (Hin r Hr)) as [(r' & Hr' & Hm)|(_ & Hp & Hc)].
      { left. exists r'. split; [done|]. destruct (Hsame r) as (? & ? & ?), Hm as (? & ? & ?). repeat split; congruence. }
      right. rewrite (shrunk_covered _ _ _ _ Hs). split; [|by apply (covered_same_mail d1 r (stamp r))].
      unfold stamp in Hp. case_bool_decide; auto.
  - assert (delivered_watermark d1 (or_chat r0) (or_sender r0) = 0) as -> by (unfold delivered_watermark; by rewrite Hl).
    unfold retire_receipt_covered. rewrite Z.eqb_refl. cbn [fst]. split_and!; [done| |auto].
    intros Hn r' Hr' Hp Hc. assert (r' = r0) as ->.
    { eapply (nodup_key (fun r => or_msg_id r)); [apply oo_ids, Hok1|done|done|]. rewrite (Hold r' Hr' Hp Hn Hc). done. }
    destruct Hc as (_ & _ & _ & _ & t & v & Ht & _). congruence.
Qed.

Lemma prune_step d now : outbound_ok d -> step_ok d (PruneOutbound now).
Proof.
  intros Hok. eapply shrunk_step; [done|apply delete_outbound_shrunk|]. cbn. intros r Hr. by apply Z.leb_le.
Qed.

Lemma supersede_step d recipient chat sender kind lamport : outbound_ok d ->
  step_ok d (Supersede recipient chat sender kind lamport).
Proof.
  intros Hok. unfold step_ok. cbn [outbound_step licensed_exit]. unfold retire_superseded.
  destruct (supersedes_queued_generations kind) eqn:Hk; cbn [negb orb].
  2: { cbn [fst]. split_and!; [done|done|]. intros r Hr. left. by exists r. }
  case_bool_decide as Hc; cbn [negb]; [|cbn [fst]; split_and!; [done|done|]; intros r Hr; left; by exists r].
  subst chat. pose proof (delete_outbound_shrunk (retire_superseded_where d recipient sender kind (to_i64 lamport)) d) as Hs.
  split_and!; [by eapply shrunk_ok|by eapply shrunk_settled|]. intros r Hr.
  destruct (shrunk_leaves _ _ _ _ Hs Hr) as [?|Hg]; [by left|right]. unfold retire_superseded_where in Hg.
  rewrite !andb_true_iff, !bool_decide_eq_true, negb_true_iff, Z.eqb_eq, Z.ltb_lt in Hg.
  destruct Hg as [[[[[? ?] ?] ?] ?] ?]. by split_and!.
Qed.

Lemma sweep_fold l : forall d removed, receipts_ok d ->
  (forall c s t, (c, s, t) ∈ l -> 0 < t /\ exists via, od_receipts d !! (c, s, RECEIPT_TYPE_DELIVERED) = Some (t, via)) ->
  shrunk (fun r => (exists c s t, (c, s, t) ∈ l /\ or_chat r = c /\ or_sender r = s) /\ posted r /\ covered d r) d
    (foldl sweep_step (d, removed) l).1.
Proof.
  induction l as [|[[c s] t] l IH]; intros d removed Hok Hl; cbn [foldl].
  { apply shrunk_none. intros r [(? & ? & ? & []%not_elem_of_nil & _) _]. }
  destruct (Hl c s t ltac:(left)) as [Hpos [via Hv]]. pose proof (Hok _ _ Hv) as Hr. cbn in Hr.
  unfold sweep_step at 2. rewrite (proj2 (Z.leb_gt t 0)) by done.
  assert (as_u64 t = Z.max t 0) as -> by (rewrite Z.max_l by lia; apply Z.mod_small; revert Hr; ints).
  pose proof (retire_receipt_covered_shrunk d c s t via Hok Hv) as Hs.
  destruct (retire_receipt_covered d c s (Z.max t 0)) as [d1 n]. cbn [fst] in Hs.
  assert (od_receipts d1 = od_receipts d) as Hrd by (by destruct Hs as (? & _ & ->)).
  eapply shrunk_iff; [|eapply shrunk_trans; [exact Hs|apply IH]].
  - intros r. cbn. setoid_rewrite (shrunk_covered _ _ _ r Hs). setoid_rewrite elem_of_cons. split.
    + intros [(Hc & Hp & Hcov)|((c' & s' & t' & Hin & Hc) & Hp & Hcov)];
        (split; [|done]); [exists c, s, t|exists c', s', t']; auto.
    + intros ((c' & s' & t' & [Heq|Hin] & Hc) & Hp & Hcov); [left|right]; [injection Heq as -> -> ->; auto|].
      split; [by exists c', s', t'|done].
  - unfold receipts_ok. by rewrite Hrd.
  - intros c' s' t' Hin. rewrite Hrd. apply Hl. by right.
Qed.

Lemma sweep_shrunk d : receipts_ok d -> shrunk (fun r => posted r /\ covered d r) d (sweep_receipt_covered d).1.
Proof.
  intros Hok. unfold sweep_receipt_covered. set (l := omap _ _).
  assert (forall c s t, (c, s, t) ∈ l <-> 0 < t /\ exists via, od_receipts d !! (c, s, RECEIPT_TYPE_DELIVERED) = Some (t, via)) as Hl.
  { intros c s t. unfold l. rewrite list_elem_of_omap. split.
    - intros ([[[c' s'] ty] [t' via]] & Hin & He). apply elem_of_map_to_list in Hin.
      destruct (Z.eqb_spec ty RECEIPT_TYPE_DELIVERED) as [->|?]; [|done]. destruct (Z.ltb_spec 0 t'); [|done].
      injection He as <- <- <-. eauto.
    - intros [Hp [via Hv]]. exists ((c, s, RECEIPT_TYPE_DELIVERED), (t, via)). split; [by apply elem_of_map_to_list|].
      rewrite Z.eqb_refl, (proj2 (Z.ltb_lt 0 t) Hp). done. }
  eapply shrunk_iff; [|apply sweep_fold; [done|intros; by apply Hl]].
  intros r. cbn. split; [by intros [_ ?]|]. intros [Hp Hc]. split; [|done].
  destruct Hc as (_ & _ & _ & _ & t & via & Hv & Ht & _). exists (or_chat r), (or_sender r), t. split; [|done].
  apply Hl. eauto.
Qed.

Lemma sweep_settles d : outbound_ok d -> no_settled_row (outbound_step d SweepCovered).
Proof.
  intros Hok r Hr Hp Hc. pose proof (sweep_shrunk d (oo_receipts _ Hok)) as Hs.
  cbn [outbound_step] in *. rewrite (shrunk_covered _ _ _ _ Hs) in Hc. apply (shrunk_elem _ _ _ _ Hs) in Hr as [_ Hg]. tauto.
Qed.

Lemma cleared_step d user_id : outbound_ok d -> step_ok d (ClearPosted user_id).
Proof.
  intros Hok. set (clear r := if decide (or_recipient r = user_id) then mk_orow (or_dedupe_key r) (or_envelope r) (or_queued_at r) None else r).
  assert (forall r, same_mail r (clear r)) as Hsame by (intros r; unfold clear; by case_decide).
  set (d' := outbound_step d (ClearPosted user_id)). assert (od_outbound d' = clear <$> od_outbound d) as Ho by done.
  assert (forall r, covered d' r <-> covered d r) as Hc by done.
  split_and!.
  - destruct Hok as [Hi Hk Hr]. split; [| |exact Hr]; change (od_outbound (outbound_step d (ClearPosted user_id))) with (clear <$> od_outbound d);
      rewrite <-list_fmap_compose.
    + erewrite list_fmap_ext; [exact Hi|]. intros i r _. destruct (Hsame r) as (He & _). exact (f_equal oe_msg_id He).
    + erewrite list_fmap_ext; [exact Hk|]. intros i r _. by destruct (Hsame r) as (_ & Hd & _).
  - intros Hn r' Hr'. change (r' ∈ clear <$> od_outbound d) in Hr'. apply list_elem_of_fmap in Hr' as (r & -> & Hr). intros Hp Hcov.
    unfold clear in Hp, Hcov. case_decide; [by destruct Hp|]. by apply (Hn r).
  - intros r Hr. left. exists (clear r). split; [|done]. change (clear r ∈ clear <$> od_outbound d). by apply list_elem_of_fmap_2.
Qed.

(** A chat that is deleted takes its rows along; what is left is covered by what is
    left. *)
Lemma deleted_chat_step d d1 id op :
  outbound_step d op = delete_chat id d1 -> (forall r, or_chat r = id -> licensed_exit (outbound_step d op) op r) ->
  od_outbound d1 = od_outbound d -> od_receipts d1 = od_receipts d -> e_messages (od_engine d1) = e_messages (od_engine d) ->
  (forall c, is_contact d1 c = true -> is_contact d c = true) -> (forall c, c <> id -> is_group d1 c = false -> is_group d c = false) ->
  outbound_ok d -> step_ok d op.
Proof.
  intros Hop Hlic Ho Hr Hm Hct Hg [Hi Hk Hok]. unfold step_ok. rewrite Hop in *. set (d' := delete_chat id d1).
  assert (od_outbound d' = filter (fun r => or_chat r <> id) (od_outbound d)) as Ho' by (unfold d', delete_chat; cbn; by rewrite <- Ho).
  assert (od_receipts d' = filter (fun kv => kv.1.1.1 <> id) (od_receipts d)) as Hr' by (unfold d', delete_chat; cbn; by rewrite <- Hr).
  split_and!.
  - split; [rewrite Ho'; eapply sublist_NoDup; [exact Hi|apply fmap_sublist, sublist_filter]
           |rewrite Ho'; eapply sublist_NoDup; [exact Hk|apply fmap_sublist, sublist_filter]|].
    unfold receipts_ok. rewrite Hr'. intros k row [Hk' _]%map_lookup_filter_Some. by apply (Hok k).
  - intros Hn r. rewrite Ho', list_elem_of_filter. intros [Hid Hin] Hp (E & Hc & Hgr & Hmsg & t & via & Ht & Hpos & Hle).
    apply (Hn r Hin Hp). split_and!; [done|by apply Hct|by apply Hg| |].
    + unfold has_message in *. apply existsb_exists in Hmsg as (m & Hm1 & Hm2). apply existsb_exists. exists m. split; [|done].
      rewrite <- Hm. apply list_elem_of_In. apply list_elem_of_In in Hm1. by apply (list_elem_of_filter _ _ _) in Hm1 as [_ ?].
    + rewrite Hr' in Ht. apply map_lookup_filter_Some in Ht as [Ht _]. eauto.
  - intros r Hin. destruct (decide (or_chat r = id)) as [E|Hne]; [right; by apply Hlic|left]. exists r. split; [|done].
    rewrite Ho'. by apply list_elem_of_filter.
Qed.

Lemma delete_contact_step d user_id : outbound_ok d -> step_ok d (DeleteContact user_id).
Proof.
  eapply deleted_chat_step; try done. intros c. unfold is_contact. cbn. rewrite !bool_decide_eq_true, list_elem_of_filter. tauto.
Qed.

Lemma delete_group_step d gid : outbound_ok d -> step_ok d (DeleteGroup gid).
Proof.
  eapply deleted_chat_step; try done. intros c Hne. unfold is_group. cbn. rewrite !bool_decide_eq_false, !list_elem_of_fmap. intros H (g & -> & Hg).
  apply H. exists g. split; [done|]. by apply list_elem_of_filter.
Qed.

(** Writes elsewhere leave the queue as it is. *)
Lemma elsewhere_step d engine : outbound_ok d ->
  outbound_ok (outbound_step d (Elsewhere engine)) /\ od_outbound (outbound_step d (Elsewhere engine)) = od_outbound d.
Proof. by intros [Hi Hk Hr]. Qed.

Definition op_typed (op : outbound_op) : Prop :=
  match op with RecordReceipt _ _ _ through _ => in_u64 through | _ => True end.

Lemma outbound_step_ok d op : outbound_ok d -> op_typed op -> own_write op -> step_ok d op.
Proof.
  intros Hok Ht Hown. destruct op; [by apply queue_step|by apply receipt_step|by apply posted_step|by apply prune_step| |by apply supersede_step
    |by apply cleared_step|by apply delete_contact_step|by apply delete_group_step|done].
  eapply shrunk_step; [done|by apply sweep_shrunk; apply oo_receipts|]. intros r [Hp Hc]. split; [done|].
  cbn [outbound_step]. rewrite (shrunk_covered _ _ _ _ (sweep_shrunk d (oo_receipts _ Hok))). done.
Qed.

Definition outbound_run (d : outbound_db) (ops : list outbound_op) : outbound_db := foldl outbound_step d ops.

(** Every write, wherever it goes: the keys stay unique, and what leaves has a licence. *)
Lemma outbound_step_licensed d op : outbound_ok d -> op_typed op ->
  outbound_ok (outbound_step d op)
  /\ forall r, r ∈ od_outbound d -> (exists r', r' ∈ od_outbound (outbound_step d op) /\ same_mail r r') \/ licensed_exit (outbound_step d op) op r.
Proof.
  intros Hok Ht. assert (own_write op \/ exists engine, op = Elsewhere engine) as [Hown|[engine ->]] by (destruct op; by eauto || by left).
  - by destruct (outbound_step_ok d op Hok Ht Hown) as (? & _ & ?).
  - destruct (elsewhere_step d engine Hok) as [Hok' Ho]. split; [done|]. intros r Hr. left. exists r. by rewrite Ho.
Qed.

Lemma outbound_run_ok ops : forall d, outbound_ok d -> Forall op_typed ops -> outbound_ok (outbound_run d ops).
Proof.
  induction ops as [|op ops IH]; intros d Hok Ht; [done|]. inversion Ht; subst. cbn [outbound_run foldl].
  apply IH; [|done]. by apply outbound_step_licensed.
Qed.

Lemma outbound_run_settled ops : forall d, outbound_ok d -> no_settled_row d -> Forall op_typed ops -> Forall own_write ops ->
  no_settled_row (outbound_run d ops).
Proof.
  induction ops as [|op ops IH]; intros d Hok Hn Ht Hw; [done|]. inversion Ht; subst. inversion Hw; subst. cbn [outbound_run foldl].
  destruct (outbound_step_ok d op Hok) as (Hok' & Hn' & _); [done..|]. by apply IH; auto.
Qed.

(** C14: the outbound queue, opened (with its sweep) over any stored rows and receipts
    and then driven by any writes, in any order, to it and to the tables beside it.  Its keys stay unique.  At
    every write a queued row stays, with its envelope, unless it has expired, or is
    superseded by a newer generation of the same snapshot kind to the same person, or
    is mail to one contact, with its plaintext stored, posted to the relay, and at or
    below the delivered watermark, or the write is this person deleting the contact or the group
    whose chat the row is part of.  Group mail never leaves on a receipt.  And the queue never holds a row that has
    been posted to the relay and is covered by the stored delivered receipt, as long as nothing
    is written beside it (a contact added later can make a row covered); the next sweep removes those too.  Outside the
    statement is the scrub of a database that is restored from a backup. *)
Theorem outbound_leaves_licensed d ops op : outbound_ok d -> Forall op_typed (ops ++ [op]) ->
  let now := outbound_run (outbound_step d SweepCovered) ops in
  outbound_ok now /\ (Forall own_write ops -> no_settled_row now) /\ no_settled_row (outbound_step now SweepCovered) /\
  forall r, r ∈ od_outbound now ->
    (exists r', r' ∈ od_outbound (outbound_step now op) /\ same_mail r r') \/
    licensed_exit (outbound_step now op) op r.
Proof.
  intros Hok [Hops Hop]%Forall_app now. inversion Hop; subst.
  destruct (outbound_step_ok d SweepCovered Hok I I) as (Hok0 & _).
  pose proof (outbound_run_ok ops _ Hok0 Hops) as Hok1. fold now in Hok1.
  split_and!; [done|intros Hw; by apply outbound_run_settled; [|by apply sweep_settles|..]|by apply sweep_settles|].
  by apply outbound_step_licensed.
Qed.

(** * Fairness of the uploader *)

#[global] Instance outbound_le_trans : Transitive outbound_le.
Proof.
  intros a b c [Hab|[Hab Hab']] [Hbc|[Hbc Hbc']]; unfold outbound_le; [left; lia..|].
  right. split; [lia|]. by eapply blob_leb_trans.
Qed.

#[global] Instance outbound_le_total : Total outbound_le.
Proof.
  intros a b. unfold outbound_le. destruct (Z.lt_trichotomy (or_queued_at a) (or_queued_at b)) as [?|[?|?]]; [auto| |auto].
  destruct (blob_leb_total (or_msg_id a) (or_msg_id b)); auto.
Qed.

#[global] Instance upload_le_total d : Total (upload_le d).
Proof.
  intros a b. unfold upload_le. destruct (COVERED_AWAITING_RELAY d a), (COVERED_AWAITING_RELAY d b); auto;
    destruct (total outbound_le a b); auto.
Qed.

(** A row's place in its recipient's queue: 1 for the first. *)
Definition upload_rank (d : outbound_db) (now_ms : Z) (skip : list bytes) (r : outbound_row) : nat :=
  row_number (fun r => or_recipient r) (upload_le d) (upload_candidates d now_ms skip) r.

(** The relay uploader's window.  It offers only unposted, unexpired rows of
    recipients that are not skipped; a row left out is no earlier in its recipient's
    queue than any row offered is in its own, so one recipient's backlog never starves
    another; and with a slot per recipient, every recipient's first row is offered.  In a recipient's queue the rows
    its receipt already covers come last. *)
Theorem upload_page_fair d limit now skip : outbound_ok d -> 0 <= limit <= I64_MAX ->
  let page := upload_page d limit now skip in
  (forall r, r ∈ page -> r ∈ od_outbound d /\ or_relay_posted_at r = None /\ now < oe_expiry (or_envelope r)
                         /\ or_recipient r ∉ skip) /\
  (forall r x, r ∈ upload_candidates d now skip -> r ∉ page -> x ∈ page ->
     (upload_rank d now skip x <= upload_rank d now skip r)%nat) /\
  (blen (remove_dups ((fun r => or_recipient r) <$> upload_candidates d now skip)) <= limit ->
   forall r, r ∈ upload_candidates d now skip -> upload_rank d now skip r = 1%nat -> r ∈ page) /\
  (forall r x, r ∈ upload_candidates d now skip -> x ∈ upload_candidates d now skip ->
     or_recipient r = or_recipient x -> COVERED_AWAITING_RELAY d r = false -> COVERED_AWAITING_RELAY d x = true ->
     (upload_rank d now skip r < upload_rank d now skip x)%nat).
Proof.
  intros Hok Hlim page. assert (NoDup (upload_candidates d now skip)) as Hnd.
  { apply NoDup_filter. destruct Hok as [Hi _ _]. by eapply NoDup_fmap_1. }
  split_and!.
  - intros r Hr. apply round_robin_elem, list_elem_of_filter in Hr as ((? & ? & ?) & ?); [done|apply _..].
  - intros r x Hr Hout Hx. exact (round_robin_fair _ (upload_le d) outbound_le limit _ r x Hr Hout Hx).
  - intros Hk r Hr Hone. exact (round_robin_first _ (upload_le d) outbound_le limit _ r Hnd Hlim Hk Hr Hone).
  - intros r x Hr Hx Hk Hc Hc'. unfold upload_rank, row_number. set (P y := or_recipient y = or_recipient r /\ upload_le d y r).
    set (Q y := or_recipient y = or_recipient x /\ upload_le d y x).
    assert (forall y, P y -> Q y) as HPQ.
    { intros y [Hy Hle]. split; [congruence|]. destruct Hle as [[? ?]|[He _]]; [congruence|]. left. split; congruence. }
    assert (Q x) as Hqx by (split; [done|]; by destruct (total (upload_le d) x x)).
    assert (~ P x) as Hpx by (intros [_ [[? ?]|[? _]]]; congruence).
    by apply (length_filter_lt P Q _ x).
Qed.

(** * Witnesses *)

Definition toy_mail_to (to id : byte) (lamport : Z) : OutboundEnvelope :=
  mk_outbound [id] [to] [to] [x09] KIND_TEXT lamport 100 7 1000 [to] [id].

Definition toy_message (chat : byte) (lamport : Z) : message_row :=
  mk_mrow None [chat] [x09] [] lamport 100 KIND_TEXT [].

(** Two contacts; three letters queued to the first and one to the second. *)
Definition toy_outbound : outbound_db :=
  foldl (fun d '(to, id, lamport, at_ms) => queue_outbound_row d (toy_mail_to to id lamport) at_ms)
    {| od_engine := mk_edb (mk_routing [] [[x05]; [x06]] (mk_fleet None []) true true) (RosterStore.mk_db ∅ ∅ [] [] 0)
                      [toy_message x05 1; toy_message x05 2; toy_message x05 3; toy_message x06 1] [] ∅ [];
       od_outbound := []; od_receipts := ∅; od_receipt_envelopes := []; od_fanout := []; od_watermarks := ∅ |}
    [(x05, x01, 1, 10); (x05, x02, 2, 11); (x05, x03, 3, 12); (x06, x04, 1, 20)].

Lemma toy_outbound_ok : outbound_ok toy_outbound.
Proof.
  split; [apply (bool_decide_unpack _); vm_compute; exact I|apply (bool_decide_unpack _); vm_compute; exact I|].
  intros k row Hk. change (od_receipts toy_outbound) with (∅ : gmap (bytes * bytes * Z) (Z * option Z)) in Hk.
  by rewrite lookup_empty in Hk.
Defined.

(** The first letter is posted, then the contact's receipt arrives for two: the posted
    one leaves, the other stays until the relay has had it. *)
Lemma outbound_leaves_licensed_witness :
  let d := outbound_run (outbound_step toy_outbound SweepCovered) [MarkPosted [x01] 50] in
  let d' := outbound_step d (RecordReceipt [x05] [x09] RECEIPT_TYPE_DELIVERED 2 None) in
  ((fun r => or_msg_id r) <$> od_outbound d') = [[x02]; [x03]; [x04]] /\
  (exists r, r ∈ od_outbound d /\ or_msg_id r = [x01] /\ covered d' r) /\ no_settled_row d.
Proof.
  pose proof (outbound_leaves_licensed toy_outbound [MarkPosted [x01] 50]
    (RecordReceipt [x05] [x09] RECEIPT_TYPE_DELIVERED 2 None) toy_outbound_ok) as H.
  cbn zeta in H |- *. destruct H as (_ & Hn & _ & Hl).
  { repeat constructor. - vm_compute. discriminate. - vm_compute. discriminate. }
  split; [vm_compute; reflexivity|]. split; [|apply Hn; by repeat constructor].
  set (d := outbound_run (outbound_step toy_outbound SweepCovered) [MarkPosted [x01] 50]) in *.
  destruct (od_outbound d) as [|r l] eqn:Ho; [vm_compute in Ho; discriminate|].
  assert (or_msg_id r = [x01]) as Hid by (vm_compute in Ho; injection Ho as <- _; reflexivity).
  exists r. split; [by left|]. split; [exact Hid|].
  destruct (Hl r ltac:(by left)) as [(r' & Hr' & He & _)|[_ Hc]]; [exfalso|exact Hc].
  apply (list_elem_of_fmap_2 (fun r => or_msg_id r)) in Hr'. rewrite He, Hid in Hr'. revert Hr'.
  apply (bool_decide_unpack _). vm_compute. exact I.
Defined.

(** With two slots, each of the two recipients gets one. *)
Lemma upload_page_fair_witness :
  (forall r, r ∈ upload_candidates toy_outbound 30 [] -> upload_rank toy_outbound 30 [] r = 1%nat ->
     r ∈ upload_page toy_outbound 2 30 []) /\
  ((fun r => or_msg_id r) <$> upload_page toy_outbound 2 30 []) = [[x01]; [x04]].
Proof.
  split; [|vm_compute; reflexivity].
  destruct (upload_page_fair toy_outbound 2 30 [] toy_outbound_ok ltac:(vm_compute; split; discriminate)) as (_ & _ & H & _).
  apply H. apply Z.leb_le. vm_compute. reflexivity.
Defined.
