(* ===== verification/RelayPass.v ===== *)
(** One relay pass ([core/src/session/relay_pass.rs], [CoreRelayPass]).

    A pass is a sans-IO state machine: [start] and [resume_http] return the next
    request for a driver to perform, and the driver hands the result back.  The
    state is a record; an operation is a function in a state monad over that record
    and the message store.  The store is a type with the operations the pass calls
    ([PassStore]); every one of them may fail, and may change the store even then,
    so that what holds of the pass holds whatever the store does.  [RelayStore.v]
    gives the store's tables and operations.

    The stage loop of [advance] runs on fuel, [advance_fuel], which suffices
    ([advance_some]).  Diagnostics are not modelled: the protocol-event notes
    and the pseudonyms ([actor]) they carry.  The pass id's process-wide suffix is
    an argument of [new_pass]. *)
From stdpp Require Import base numbers list gmap strings.
From coqutil Require Import Datatypes.RecordSetters.
From S2P Require Import Prelude StdModel Wire Crypto Message Frames Hints Engine RelayPolicy RelayWire RelayCursor CarryQueue.
Import TriangleBracketNotations.

(** * Budgets and configuration *)

Definition RELAY_PASS_MAX_REQUESTS : Z := 192.
Definition RELAY_PASS_MAX_ENVELOPES : Z := 1024.
Definition RELAY_PASS_MAX_RESPONSE_BYTES : Z := 24 * 1024 * 1024.
Definition RELAY_PASS_MAX_RECEIPT_UPLOADS : Z := 24.
Definition RELAY_PASS_MAX_AUTHORED_UPLOADS : Z := 24.
Definition RELAY_PASS_MAX_CARRIED_UPLOADS : Z := 48.
Definition RELAY_PASS_MAX_PRESENCE_PROBES : Z := 8.
Definition RELAY_CROSS_FAMILY_PRESENCE_MIN_INTERVAL_MS : Z := 15 * 60 * 1000.
Definition RELAY_PASS_DEADLINE_MS : Z := 20000.
Definition CONNECTION_PRESENCE_ONLINE_WINDOW_MS : Z := 150000.

Definition RELAY_PRESENCE_RECENCY_ACTIVE : bytes := str "active".
Definition RELAY_PRESENCE_RECENCY_RECENT : bytes := str "recent".
Definition RELAY_PRESENCE_RECENCY_DAY : bytes := str "day".
Definition RELAY_PRESENCE_RECENCY_OLDER : bytes := str "older".

Definition relay_presence_recency (age_ms : Z) : bytes :=
  if age_ms <=? CONNECTION_PRESENCE_ONLINE_WINDOW_MS then RELAY_PRESENCE_RECENCY_ACTIVE
  else if age_ms <=? RELAY_CROSS_FAMILY_PRESENCE_MIN_INTERVAL_MS then RELAY_PRESENCE_RECENCY_RECENT
  else if age_ms <=? 24 * 60 * 60 * 1000 then RELAY_PRESENCE_RECENCY_DAY
  else RELAY_PRESENCE_RECENCY_OLDER.

Definition relay_presence_recency_age_ms (recency : bytes) : Z :=
  if decide (recency = RELAY_PRESENCE_RECENCY_ACTIVE) then 0
  else if decide (recency = RELAY_PRESENCE_RECENCY_RECENT) then CONNECTION_PRESENCE_ONLINE_WINDOW_MS + 1
  else if decide (recency = RELAY_PRESENCE_RECENCY_DAY) then RELAY_CROSS_FAMILY_PRESENCE_MIN_INTERVAL_MS + 1
  else 24 * 60 * 60 * 1000 + 1.

Record CoreRelayPassBudgets : Type := mk_pass_budgets {
  max_requests : Z;
  max_envelopes : Z;
  max_response_bytes : Z;
  max_receipt_uploads : Z;
  max_authored_uploads : Z;
  max_carried_uploads : Z;
  deadline_ms : Z;
}.

Definition default_pass_budgets : CoreRelayPassBudgets :=
  mk_pass_budgets RELAY_PASS_MAX_REQUESTS RELAY_PASS_MAX_ENVELOPES RELAY_PASS_MAX_RESPONSE_BYTES
    RELAY_PASS_MAX_RECEIPT_UPLOADS RELAY_PASS_MAX_AUTHORED_UPLOADS RELAY_PASS_MAX_CARRIED_UPLOADS
    RELAY_PASS_DEADLINE_MS.

Record CoreRelayEndpointConfig : Type := mk_endpoint_config { ec_url : bytes; ec_token : bytes }.

Record CoreRelayContactConfig : Type := mk_contact_config {
  cc_user_id : bytes;
  cc_relay_url : option bytes;
  cc_relay_token : option bytes;
  cc_endpoint_usable : bool;
  cc_endpoint_answering : bool;
}.

Record CoreRelayPassPlan : Type := mk_plan {
  pl_own : option CoreRelayEndpointConfig;
  pl_contacts : list CoreRelayContactConfig;
  pl_own_user_id : bytes;
  pl_fetch_hints : list bytes;
  pl_presence_announce : list bytes;
  pl_presence_query : list bytes;
  pl_own_endpoint_changed : bool;
  pl_swept_this_session : bool;
  pl_consecutive_rate_limits : Z;
  pl_quiet_until_ms : Z;
  pl_budgets : CoreRelayPassBudgets;
}.

(** * Actions *)

Inductive CoreRelayOperation : Type := PostEnvelope | FetchPage | AckPage | OpPresence.

Record CoreRelayHeader : Type := mk_header { hd_name : bytes; hd_value : bytes }.

Record CoreRelayHttpRequest : Type := mk_request {
  rq_operation : CoreRelayOperation;
  rq_method : bytes;
  rq_base_url : bytes;
  rq_path : bytes;
  rq_headers : list CoreRelayHeader;
  rq_body : bytes;
  rq_max_response_bytes : Z;
  rq_response_headers_wanted : list bytes;
}.

(** In the order of the stages. *)
Inductive CoreRelayStage : Type :=
| PruneAndRepair | Announce | UploadReceipts | UploadAuthored | UploadCarried
| RewalkDecision | Presence | MailboxWalk | CommitEvidence | StageFinish.

#[global] Instance CoreRelayStage_eq_dec : EqDecision CoreRelayStage.
Proof. solve_decision. Defined.

(** The derived order. *)
Definition stage_rank (s : CoreRelayStage) : Z :=
  match s with
  | PruneAndRepair => 0 | Announce => 1 | UploadReceipts => 2 | UploadAuthored => 3 | UploadCarried => 4
  | RewalkDecision => 5 | Presence => 6 | MailboxWalk => 7 | CommitEvidence => 8 | StageFinish => 9
  end.

Inductive CoreRelayPassOutcome : Type :=
| PassCompleted | PassRateLimited | PassBudgetYield | PassCancelled | PassNoConfigs
| PassRefusedQuietWindow | PassStoreFailed.

#[global] Instance CoreRelayPassOutcome_eq_dec : EqDecision CoreRelayPassOutcome.
Proof. solve_decision. Defined.

Inductive CoreRelayProgressReason : Type := CursorAdvanced | RowsIngested | UploadsMarked | QuietWindowExtended.

Record CoreRelayContinuation : Type := mk_continuation {
  cn_not_before_ms : Z;
  cn_reason : CoreRelayProgressReason;
}.

Record CoreRelayPassSummary : Type := mk_summary {
  su_pass_id : bytes;
  su_started_at_ms : Z;
  su_finished_at_ms : Z;
  su_outcome : CoreRelayPassOutcome;
  su_health : CoreRelayPassHealth;
  su_stage_reached : CoreRelayStage;
  su_requests_issued : Z;
  su_envelopes_processed : Z;
  su_response_bytes_read : Z;
  su_receipt_uploads : Z;
  su_authored_uploads : Z;
  su_carried_uploads : Z;
  su_carried_rows_marked : Z;
  su_rows_ingested : Z;
  su_rows_acked : Z;
  su_frontier_advances : Z;
  su_frontiers_held : Z;
  su_stale_results_ignored : Z;
  su_configs_walked : Z;
  su_configs_faulted : Z;
  su_silence_committed : Z;
  su_silence_discarded : Z;
  su_budgets : CoreRelayPassBudgets;
  su_quiet_until_ms : Z;
  su_continuation : option CoreRelayContinuation;
}.

Inductive CoreRelayActionKind : Type :=
| KindHttp (request : CoreRelayHttpRequest)
| KindSleep (until_ms : Z)
| KindNotStarted
| KindFinished (summary : CoreRelayPassSummary).

Record CoreRelayAction : Type := mk_action {
  ac_pass_id : bytes;
  ac_action_id : Z;
  ac_stage : CoreRelayStage;
  ac_kind : CoreRelayActionKind;
}.

Inductive CoreRelayTransportError : Type :=
| ErrTimeout | ErrConnectionFailed | ErrTls | ErrBodyTooLarge | ErrCancelled | ErrOther.

#[global] Instance CoreRelayTransportError_eq_dec : EqDecision CoreRelayTransportError.
Proof. solve_decision. Defined.

Record CoreRelayHttpResult : Type := mk_http_result {
  hr_pass_id : bytes;
  hr_action_id : Z;
  hr_status : Z;
  hr_headers : list CoreRelayHeader;
  hr_body : bytes;
  hr_error : option CoreRelayTransportError;
  hr_completed_at_ms : Z;
}.

Record CoreRelayPresenceObservation : Type := mk_observation {
  ob_user_id : bytes;
  ob_hint : bytes;
  ob_age_ms : Z;
  ob_observed_at_ms : Z;
}.

Record CoreRelayProjection : Type := mk_projection {
  pj_ingested : list CoreRelayFetchedEnvelope;
  pj_presence : list CoreRelayPresenceObservation;
}.

(** * The state *)

Inductive UploadLane : Type := LaneReceipt | LaneAuthored | LaneCarried.

Record FanoutRow : Type := mk_fanout_row {
  fn_envelope_msg_id : bytes;
  fn_member_user_id : bytes;
  fn_members_owed : Z;
}.

Record PendingUpload : Type := mk_upload {
  up_lane : UploadLane;
  up_msg_id : bytes;
  up_hop_ttl : Z;
  up_recipient_hint : bytes;
  up_sealed : bytes;
  up_expiry_ms : Z;
  up_endpoint : RelayEndpoint;
  up_contact_user_id : option bytes;
  up_fanout : option FanoutRow;
}.

Record WalkState : Type := mk_walk {
  wk_sweeping : bool;
  wk_after_id : Z;
  wk_limit : Z;
  wk_pages : Z;
  wk_envelopes : Z;
  wk_swept_through : Z;
  wk_done : bool;
}.

Record WalkConfig : Type := mk_walk_config {
  wc_contact_user_id : option bytes;
  wc_endpoint : RelayEndpoint;
  wc_cursor_key : bytes;
  wc_presence_done : bool;
  wc_answered : bool;
  wc_attempted : bool;
  wc_walk : option WalkState;
}.

Definition is_own (c : WalkConfig) : bool := bool_decide (wc_contact_user_id c = None).

Record PresenceProbe : Type := mk_probe { pb_user_id : bytes; pb_endpoint : RelayEndpoint }.

Inductive ActionIntent : Type :=
| IntentUpload (upload : PendingUpload)
| IntentPresence (config : nat)
| IntentPresenceProbe (probe : nat)
| IntentFetch (config : nat) (after_id limit : Z)
| IntentAck (config : nat) (page_next_cursor rows ack_ids : Z).

Record Outstanding : Type := mk_outstanding {
  os_action_id : Z;
  os_stage : CoreRelayStage;
  os_request : CoreRelayHttpRequest;
  os_intent : ActionIntent;
}.

Inductive SilenceEvidence : Type := SilenceCommit | SilenceDiscard.

Record Progress : Type := mk_progress {
  pg_cursor_advanced : bool;
  pg_rows_ingested : bool;
  pg_uploads_marked : bool;
}.

Definition progress_reason (p : Progress) : option CoreRelayProgressReason :=
  if pg_cursor_advanced p then Some CursorAdvanced
  else if pg_rows_ingested p then Some RowsIngested
  else if pg_uploads_marked p then Some UploadsMarked else None.

Record PassState : Type := mk_pass {
  p_plan : CoreRelayPassPlan;
  p_pass_id : bytes;
  p_started : bool;
  p_started_at_ms : Z;
  p_now_ms : Z;
  p_next_action_id : Z;
  p_outstanding : option Outstanding;
  p_stage : CoreRelayStage;
  p_finished : option CoreRelayPassSummary;
  p_uploads : list PendingUpload;
  p_configs : list WalkConfig;
  p_config_index : nat;
  p_probes : list PresenceProbe;
  p_probe_index : nat;
  p_presence_probes_issued : Z;
  p_requests_issued : Z;
  p_envelopes_processed : Z;
  p_response_bytes_read : Z;
  p_receipt_uploads : Z;
  p_authored_uploads : Z;
  p_carried_uploads : Z;
  p_carried_rows_marked : Z;
  p_rows_ingested : Z;
  p_rows_acked : Z;
  p_frontier_advances : Z;
  p_frontiers_held : Z;
  p_stale_results_ignored : Z;
  p_configs_walked : Z;
  p_configs_faulted : Z;
  p_silence_committed : Z;
  p_silence_discarded : Z;
  p_own_relay_succeeded : bool;
  p_any_relay_succeeded : bool;
  p_worst_fault : option CoreRelayFault;
  p_rejections : list bytes;
  p_rejection_recoveries : list bytes;
  p_recoveries : list bytes;
  p_quiet_until_ms : Z;
  p_rate_limited : bool;
  p_budget_yield : bool;
  p_cancelled : bool;
  p_store_failed : bool;
  p_stopped_at : option CoreRelayStage;
  p_progress : Progress;
  p_projection : CoreRelayProjection;
}.

(** [CoreRelayPass::new]; [pass_id] is what [derive_pass_id] made of the
    requested one. *)
Definition new_pass (plan : CoreRelayPassPlan) (pass_id : bytes) : PassState :=
  mk_pass plan pass_id false 0 0 1 None PruneAndRepair None [] [] 0 [] 0 0 0 0 0 0 0 0 0 0 0 0 0 0 0 0 0 0
    false false None [] [] [] 0 false false false false None (mk_progress false false false) (mk_projection [] []).

(** ** The pass id *)

Definition is_opaque_byte (b : byte) : bool :=
  let z := Z_of_byte b in
  ((97 <=? z) && (z <=? 122)) || ((48 <=? z) && (z <=? 57)) || bool_decide (b = x5f) || bool_decide (b = x2d).

Definition is_opaque_id (text : bytes) : bool :=
  negb (bool_decide (text = [])) && (blen text <=? 24) && forallb is_opaque_byte text.

Definition BASE36_DIGITS : bytes := str "0123456789abcdefghijklmnopqrstuvwxyz".

(** The digit loop; a [u64] has at most thirteen base-36 digits. *)
Fixpoint base36_loop (fuel : nat) (value : Z) (suffix : bytes) : bytes :=
  match fuel with
  | O => suffix
  | S fuel =>
      let suffix := default x00 (BASE36_DIGITS !! Z.to_nat (value mod 36)) :: suffix in
      if 0 <? value / 36 then base36_loop fuel (value / 36) suffix else suffix
  end.

(** [derive_pass_id], for the value [sequence] of the process-wide counter. *)
Definition derive_pass_id (sequence : Z) (requested : bytes) : bytes :=
  let suffix := base36_loop 13 sequence [] in
  let root := if is_opaque_id requested then requested else str "p" in
  let room := u64_saturating_sub 24 (blen suffix + 1) in
  let root := take (Z.to_nat (Z.min (blen root) room)) root in
  root ++ str "-" ++ suffix.

(** * Requests *)

Definition CRLF_RETRY_AFTER : bytes := str "Retry-After".

Definition auth_headers (token : bytes) (has_body : bool) : list CoreRelayHeader :=
  [mk_header (str "Authorization") (str "Bearer " ++ token)]
  ++ (if has_body then [mk_header (str "Content-Type") (str "application/json")] else [])
  ++ [mk_header (str "Accept") (str "application/json")].

Definition header_value (headers : list CoreRelayHeader) (name : bytes) : option bytes :=
  hd_value <$> List.find (fun h => eq_ignore_ascii_case (hd_name h) name) headers.

(** The [code] field of an error body, by [serde_json]. *)
Class ErrorJson := { error_code_of_json : bytes -> option (option bytes) }.

Definition relay_error_code `{EJ : ErrorJson} (body : bytes) : option bytes :=
  if bool_decide (body = []) || (4096 <? blen body) then None
  else match error_code_of_json body with Some code => code | None => None end.

Section requests.
Context `{C : Crypto} `{B : Base64} `{J : RelayJson}.

Definition relay_request (op : CoreRelayOperation) (method : bytes) (endpoint : RelayEndpoint)
  (path body : bytes) (has_body : bool) : CoreRelayHttpRequest :=
  mk_request op method (ep_url endpoint) path (auth_headers (ep_token endpoint) has_body) body
    RELAY_MAX_RESPONSE_BODY_BYTES [CRLF_RETRY_AFTER].

Definition ok_of {E A} (r : result E A) : option A := match r with Ok a => Some a | Err _ => None end.

Definition shadow_upload_request (endpoint : RelayEndpoint) (msg_id : bytes) (hop_ttl : Z)
  (recipient_hint sealed : bytes) (expiry_ms : Z) : option CoreRelayHttpRequest :=
  body ← ok_of (relay_encode_post_envelope msg_id hop_ttl recipient_hint sealed expiry_ms);
  Some (relay_request PostEnvelope (str "POST") endpoint (str "/envelopes") body true).

Definition shadow_upload_encodable (msg_id recipient_hint : bytes) (sealed_len : Z) : bool :=
  is_ok (relay_validate_envelope_sizes (blen msg_id) (blen recipient_hint) sealed_len).

Definition build_fetch_request (endpoint : RelayEndpoint) (hints : list bytes) (after_id limit : Z)
  : option CoreRelayHttpRequest :=
  path ← ok_of (relay_build_fetch_path hints after_id limit);
  Some (relay_request FetchPage (str "GET") endpoint path [] false).

Definition build_ack_request (endpoint : RelayEndpoint) (ack_ids : list Z) : option CoreRelayHttpRequest :=
  body ← ok_of (relay_encode_ack_request ack_ids);
  Some (relay_request AckPage (str "POST") endpoint (str "/envelopes/ack") body true).

Definition build_presence_request (endpoint : RelayEndpoint) (announce query : list bytes)
  : option CoreRelayHttpRequest :=
  body ← ok_of (relay_encode_presence_request announce query);
  Some (relay_request OpPresence (str "POST") endpoint (str "/presence") body true).

(** ** Which endpoint a recipient's rows go to *)

Definition own_url_of (own : option CoreRelayEndpointConfig) : option bytes := ec_url <$> own.
Definition own_token_of (own : option CoreRelayEndpointConfig) : option bytes := ec_token <$> own.

Definition shadow_upload_endpoint_for (contacts : list CoreRelayContactConfig)
  (own : option CoreRelayEndpointConfig) (recipient : bytes) : option RelayEndpoint :=
  match List.find (fun c => bool_decide (cc_user_id c = recipient)) contacts with
  | None => resolved_contact_relay None None (own_url_of own) (own_token_of own)
  | Some contact =>
      if negb (cc_endpoint_answering contact) then None
      else resolved_contact_delivery_relay (cc_relay_url contact) (cc_relay_token contact)
             (own_url_of own) (own_token_of own) (cc_endpoint_usable contact)
  end.

Definition unpostable_recipients (contacts : list CoreRelayContactConfig)
  (own : option CoreRelayEndpointConfig) : list bytes :=
  cc_user_id <$> List.filter (fun c =>
    bool_decide (shadow_upload_endpoint_for contacts own (cc_user_id c) = None)) contacts.

Definition own_endpoint (p : PassState) : option RelayEndpoint :=
  own ← pl_own (p_plan p);
  resolved_contact_relay None None (Some (ec_url own)) (Some (ec_token own)).

Definition is_own_endpoint (p : PassState) (endpoint : RelayEndpoint) : bool :=
  match own_endpoint p with
  | None => false
  | Some own =>
      bool_decide (resolved_contact_relay None None (Some (ep_url endpoint)) (Some (ep_token endpoint)) = Some own)
  end.

Definition card_owner (p : PassState) (endpoint : RelayEndpoint) (recipient : bytes) : option bytes :=
  if is_own_endpoint p endpoint then None else Some recipient.

Definition intent_used_own_credential (p : PassState) (intent : ActionIntent) : bool :=
  match intent with
  | IntentUpload upload => is_own_endpoint p (up_endpoint upload)
  | IntentPresence config | IntentFetch config _ _ | IntentAck config _ _ _ =>
      match p_configs p !! config with Some c => is_own c | None => false end
  | IntentPresenceProbe _ => false
  end.

Definition is_contact (p : PassState) (user_id : bytes) : bool :=
  existsb (fun c => bool_decide (cc_user_id c = user_id)) (pl_contacts (p_plan p)).

End requests.

Definition over_budget (p : PassState) : bool :=
  let b := pl_budgets (p_plan p) in
  if (max_requests b <=? p_requests_issued p) || (max_envelopes b <=? p_envelopes_processed p)
     || (max_response_bytes b <=? p_response_bytes_read p) then true
  else (0 <? deadline_ms b) && (deadline_ms b <=? i64_saturating_sub (p_now_ms p) (p_started_at_ms p)).

(** * The store a pass works on *)

Class PassStore (S : Type) := {
  st_prune_expired_outbound_envelopes : Z -> S -> S * result CoreError Z;
  st_prune_expired_outgoing_receipt_envelopes : Z -> S -> S * result CoreError Z;
  st_prune_expired_carried : Z -> S -> S * result CoreError Z;
  st_prune_expired_consumed_hidden_msg_ids : Z -> S -> S * result CoreError Z;
  st_prune_relay_fanout_markers : S -> S * result CoreError Z;
  st_clear_carried_relay_upload_markers : S -> S * result CoreError Z;
  st_clear_relay_fanout_markers : S -> S * result CoreError Z;
  st_pending_relay_outgoing_receipt_envelopes :
    Z -> Z -> list bytes -> S -> result CoreError (list OutgoingReceiptEnvelope);
  st_pending_relay_outbound_envelopes : Z -> Z -> list bytes -> S -> result CoreError (list OutboundEnvelope);
  st_family_carried_envelopes : Z -> Z -> list bytes -> S -> result CoreError (list CarriedEnvelope);
  st_get_group : bytes -> S -> result CoreError (option Group);
  st_is_user_blocked : bytes -> S -> result CoreError bool;
  st_relay_fanout_posted_members : bytes -> bytes -> S -> result CoreError (list bytes);
  st_mark_relay_fanout_row_posted : bytes -> bytes -> bytes -> Z -> S -> S * result CoreError bool;
  st_mark_outbound_envelope_relay_posted : bytes -> Z -> S -> S * result CoreError bool;
  st_mark_outgoing_receipt_envelope_relay_posted : bytes -> Z -> S -> S * result CoreError bool;
  st_mark_carried_envelope_relay_uploaded : bytes -> bytes -> S -> S * result CoreError bool;
  st_note_relay_hint_sources : bytes -> S -> S * result CoreError bool;
  st_relay_fetch_cursor : bytes -> S -> result CoreError RelayFetchCursor;
  st_advance_relay_fetch_cursor : bytes -> Z -> bool -> S -> S * result CoreError Z;
  st_advance_relay_sweep_cursor : bytes -> Z -> bool -> Z -> S -> S * result CoreError Z;
  st_reset_relay_sweep_progress : bytes -> Z -> S -> S * result CoreError unit;
  st_note_relay_sweep_completed : bytes -> Z -> Z -> S -> S * result CoreError bool;
  st_contact_presence_probe_due : bytes -> Z -> Z -> S -> result CoreError bool;
  st_mark_contact_presence_probed : bytes -> Z -> S -> S * result CoreError unit;
  st_record_contact_presence : bytes -> bytes -> Z -> S -> S * result CoreError unit;
  st_ingest_relay_page : list CoreRelayFetchedEnvelope -> Z -> S -> S * result CoreError CoreRelayPageIngest;
  st_core_relay_ack_ids_with_consumed :
    list CoreRelayEnvelopeDisposition -> bytes -> Z -> S -> result CoreError (list Z);
  st_note_contact_relay_rejected : bytes -> Z -> S -> S * result CoreError Z;
  st_clear_contact_relay_rejection : bytes -> S -> S * result CoreError unit;
  st_note_contact_relay_unreachable : bytes -> bytes -> Z -> S -> S * result CoreError Z;
  st_clear_contact_relay_unreachable : bytes -> S -> S * result CoreError unit;
}.

(** * The monad *)

Definition pm (S A : Type) : Type := PassState -> S -> A * (PassState * S).

#[global] Instance pm_ret {S} : MRet (pm S) := fun A a p s => (a, (p, s)).
#[global] Instance pm_bind {S} : MBind (pm S) := fun A B f m p s => let '(a, (p', s')) := m p s in f a p' s'.

Definition gets {S A} (f : PassState -> A) : pm S A := fun p s => (f p, (p, s)).
Definition modify {S} (f : PassState -> PassState) : pm S unit := fun p s => (tt, (f p, s)).
Definition asks {S A} (f : S -> A) : pm S A := fun p s => (f s, (p, s)).
Definition call {S A} (f : S -> S * A) : pm S A := fun p s => let '(s', a) := f s in (a, (p, s')).
Definition when {S} (b : bool) (m : pm S unit) : pm S unit := if b then m else mret tt.

(** [for x in l] *)
Fixpoint for_each {S A} (l : list A) (f : A -> pm S unit) : pm S unit :=
  match l with
  | [] => mret tt
  | x :: l' => f x;; for_each l' f
  end.

Definition inc_u32 (z : Z) : Z := u32_saturating_add z 1.

(** * Operations *)

Section pass.
Context `{C : Crypto} `{B : Base64} `{J : RelayJson} `{EJ : ErrorJson} {S : Type} `{PS : PassStore S}.

Notation M := (pm S).

Definition ignore {A} (m : M A) : M unit := m;; mret tt.

(** [self.configs.get_mut(i)] and its walk; nothing happens out of range. *)
Definition on_config (i : nat) (f : WalkConfig -> WalkConfig) : M unit :=
  modify (fun p => p <| p_configs ::= alter f i |>).

Definition on_walk (i : nat) (f : WalkState -> WalkState) : M unit :=
  on_config i (fun c => c <| wc_walk ::= fmap f |>).

Definition walk_of (i : nat) : M (option WalkState) :=
  gets (fun p => p_configs p !! i ≫= wc_walk).

Definition walk_is_done : WalkState -> WalkState := fun w => w <| wk_done := true |>.

Definition done_walk : WalkState := mk_walk false 0 0 0 0 0 true.

(** ** Finishing *)

Definition fail_store : M unit :=
  failed ← gets p_store_failed;
  if (failed : bool) then mret tt else
  modify (fun p => p <| p_store_failed := true |> <| p_uploads := [] |>
                     <| p_stopped_at := Some (p_stage p) |> <| p_stage := StageFinish |>).

Definition continuation_of (p : PassState) (outcome : CoreRelayPassOutcome) (now_ms : Z)
  : option CoreRelayContinuation :=
  if p_rate_limited p && (pl_quiet_until_ms (p_plan p) <? p_quiet_until_ms p)
  then Some (mk_continuation (p_quiet_until_ms p) QuietWindowExtended)
  else if bool_decide (outcome = PassCancelled) || bool_decide (outcome = PassRefusedQuietWindow) then None
  else if p_budget_yield p
  then mk_continuation (i64_saturating_add now_ms RELAY_MAILBOX_CONTINUATION_DELAY_MS)
         <$> progress_reason (p_progress p)
  else None.

Definition summary_of (p : PassState) (outcome : CoreRelayPassOutcome) (now_ms : Z) : CoreRelayPassSummary :=
  {| su_pass_id := p_pass_id p;
     su_started_at_ms := p_started_at_ms p;
     su_finished_at_ms := now_ms;
     su_outcome := outcome;
     su_health := core_relay_pass_health (p_worst_fault p) (p_own_relay_succeeded p) (p_any_relay_succeeded p);
     su_stage_reached := default (p_stage p) (p_stopped_at p);
     su_requests_issued := p_requests_issued p;
     su_envelopes_processed := p_envelopes_processed p;
     su_response_bytes_read := p_response_bytes_read p;
     su_receipt_uploads := p_receipt_uploads p;
     su_authored_uploads := p_authored_uploads p;
     su_carried_uploads := p_carried_uploads p;
     su_carried_rows_marked := p_carried_rows_marked p;
     su_rows_ingested := p_rows_ingested p;
     su_rows_acked := p_rows_acked p;
     su_frontier_advances := p_frontier_advances p;
     su_frontiers_held := p_frontiers_held p;
     su_stale_results_ignored := p_stale_results_ignored p;
     su_configs_walked := p_configs_walked p;
     su_configs_faulted := p_configs_faulted p;
     su_silence_committed := p_silence_committed p;
     su_silence_discarded := p_silence_discarded p;
     su_budgets := pl_budgets (p_plan p);
     su_quiet_until_ms := p_quiet_until_ms p;
     su_continuation := continuation_of p outcome now_ms |}.

Definition finish (outcome : CoreRelayPassOutcome) (now_ms : Z) : M CoreRelayPassSummary :=
  finished ← gets p_finished;
  match finished with
  | Some summary => mret summary
  | None =>
      summary ← gets (fun p => summary_of p outcome now_ms);
      modify (fun p => p <| p_finished := Some summary |> <| p_outstanding := None |>);;
      mret summary
  end.

(** ** Evidence about contacts' endpoints *)

Definition push_new (user_id : bytes) (l : list bytes) : list bytes :=
  if bool_decide (user_id ∈ l) then l else l ++ [user_id].

Definition note_contact_rejection (user_id : bytes) : M unit :=
  modify (fun p => p <| p_rejection_recoveries ::= List.filter (fun seen => negb (bool_decide (seen = user_id))) |>
                     <| p_rejections ::= push_new user_id |>).

Definition note_contact_rejection_recovery (user_id : bytes) : M unit :=
  modify (fun p => p <| p_rejections ::= List.filter (fun seen => negb (bool_decide (seen = user_id))) |>
                     <| p_recoveries ::= push_new user_id |>
                     <| p_rejection_recoveries ::= push_new user_id |>).

(** The silence of this pass: contact endpoints attempted and never answered. *)
Definition provisional_silence (p : PassState) : list (bytes * bytes) :=
  omap (fun c => match wc_contact_user_id c with
                 | Some user_id =>
                     if wc_answered c || negb (wc_attempted c) || bool_decide (wc_cursor_key c = [])
                     then None else Some (user_id, wc_cursor_key c)
                 | None => None
                 end) (p_configs p).

Definition commit_evidence (now_ms : Z) (silence : SilenceEvidence) : M unit :=
  provisional ← gets provisional_silence;
  rejections ← gets p_rejections;
  modify (fun p => p <| p_rejections := [] |>);;
  for_each rejections (fun u => ignore (call (st_note_contact_relay_rejected u now_ms)));;
  rejection_recoveries ← gets p_rejection_recoveries;
  modify (fun p => p <| p_rejection_recoveries := [] |>);;
  for_each rejection_recoveries (fun u => ignore (call (st_clear_contact_relay_rejection u)));;
  recoveries ← gets p_recoveries;
  modify (fun p => p <| p_recoveries := [] |>);;
  for_each recoveries (fun u => ignore (call (st_clear_contact_relay_unreachable u)));;
  let discard := modify (fun p => p <| p_silence_discarded ::= (fun n => u32_saturating_add n (blen provisional)) |>) in
  match silence with
  | SilenceDiscard => discard
  | SilenceCommit =>
      own ← gets p_own_relay_succeeded;
      if (own : bool) then
        for_each provisional (fun uk =>
          r ← call (st_note_contact_relay_unreachable uk.1 uk.2 now_ms);
          when (is_ok r) (modify (fun p => p <| p_silence_committed ::= inc_u32 |>)))
      else discard
  end.

(** ** Emitting *)

Definition emit (stage : CoreRelayStage) (request : CoreRelayHttpRequest) (intent : ActionIntent)
  : M CoreRelayAction :=
  action_id ← gets p_next_action_id;
  modify (fun p => p <| p_next_action_id ::= (fun n => u64_saturating_add n 1) |>
                     <| p_requests_issued ::= inc_u32 |>
                     <| p_outstanding := Some (mk_outstanding action_id stage request intent) |>);;
  pass_id ← gets p_pass_id;
  mret (mk_action pass_id action_id stage (KindHttp request)).

(** ** Stages 0 and 1 *)

Definition run_prune : M unit :=
  now ← gets p_now_ms;
  ignore (call (st_prune_expired_outbound_envelopes now));;
  ignore (call (st_prune_expired_outgoing_receipt_envelopes now));;
  ignore (call (st_prune_expired_carried now));;
  ignore (call (st_prune_expired_consumed_hidden_msg_ids now));;
  ignore (call st_prune_relay_fanout_markers).

Definition run_announce : M unit :=
  changed ← gets (fun p => pl_own_endpoint_changed (p_plan p));
  if negb changed then mret tt else
  cleared ← call st_clear_carried_relay_upload_markers;
  if negb (is_ok cleared) then fail_store else
  fanout ← call st_clear_relay_fanout_markers;
  if negb (is_ok fanout) then fail_store else mret tt.

(** ** Stages 2 to 4: uploads *)

Definition push_upload (u : PendingUpload) : M unit :=
  modify (fun p => p <| p_uploads ::= (fun l => l ++ [u]) |>).

Definition skip_recipients (p : PassState) : list bytes :=
  unpostable_recipients (pl_contacts (p_plan p)) (pl_own (p_plan p)).

Definition upload_endpoint_for (p : PassState) (recipient : bytes) : option RelayEndpoint :=
  shadow_upload_endpoint_for (pl_contacts (p_plan p)) (pl_own (p_plan p)) recipient.

Definition load_receipt_uploads : M unit :=
  limit ← gets (fun p => max_receipt_uploads (pl_budgets (p_plan p)));
  now ← gets p_now_ms;
  skip ← gets skip_recipients;
  rows ← asks (st_pending_relay_outgoing_receipt_envelopes limit now skip);
  match rows with
  | Err _ => mret tt
  | Ok rows =>
      for_each rows (fun row =>
        target ← gets (fun p => upload_endpoint_for p (re_recipient_user_id row));
        match target with
        | None => mret tt
        | Some endpoint =>
            owner ← gets (fun p => card_owner p endpoint (re_recipient_user_id row));
            push_upload (mk_upload LaneReceipt (re_msg_id row) (re_hop_ttl row) (re_recipient_hint row)
                           (re_sealed row) (re_expiry row) endpoint owner None)
        end)
  end.

(** The members of a group that are contacts, with what their cards say. *)
Definition group_members (p : PassState) (group : Group) : list (bytes * GroupRelayMember) :=
  omap (fun m =>
    (fun c => (m, mk_group_member (cc_relay_url c) (cc_relay_token c) (cc_endpoint_usable c) (cc_endpoint_answering c)))
      <$> List.find (fun c => bool_decide (cc_user_id c = m)) (pl_contacts (p_plan p)))
    (member_user_ids group).

Definition group_card_owner (p : PassState) (members : list (bytes * GroupRelayMember)) (endpoint : RelayEndpoint)
  : option bytes :=
  if is_own_endpoint p endpoint then None
  else fst <$> List.find (fun im =>
         bool_decide (resolved_contact_delivery_relay (gm_relay_url im.2) (gm_relay_token im.2)
                        (own_url_of (pl_own (p_plan p))) (own_token_of (pl_own (p_plan p)))
                        (gm_endpoint_usable im.2) = Some endpoint))
         (List.filter (fun im => gm_endpoint_answering im.2) members).

(** The queueing loop over the fan-out rows; [room] is what is left of the
    budget.  Returns how many were queued. *)
Fixpoint queue_fanout (envelope_msg_id : bytes) (members_owed : Z) (endpoint : RelayEndpoint)
  (owner : option bytes) (already : list bytes) (room queued : Z)
  (rows : list (bytes * CoreGroupFanoutRow)) : M Z :=
  match rows with
  | [] => mret queued
  | (member, row) :: rows' =>
      let continue := queue_fanout envelope_msg_id members_owed endpoint owner already room in
      if room <=? queued then mret queued
      else if bool_decide (member ∈ already) then continue queued rows'
      else
        push_upload (mk_upload LaneAuthored (fo_msg_id row) (fo_hop_ttl row) (fo_recipient_hint row)
                       (fo_sealed row) (fo_expiry row) endpoint owner
                       (Some (mk_fanout_row envelope_msg_id member members_owed)));;
        continue (queued + 1) rows'
  end.

Definition load_group_fanout (envelope : OutboundEnvelope) (group : Group) (room : Z) : M Z :=
  members ← gets (fun p => group_members p group);
  target ← gets (fun p => core_group_fanout_relay_target (snd <$> members)
                            (own_url_of (pl_own (p_plan p))) (own_token_of (pl_own (p_plan p))));
  match target with
  | None => mret 0
  | Some endpoint =>
      owner ← gets (fun p => group_card_owner p members endpoint);
      recipients ← asks (fun s => List.filter (fun m =>
        negb (match st_is_user_blocked m s with Ok b => b | Err _ => false end)) (member_user_ids group));
      if bool_decide (recipients = []) then mret 0 else
      already ← asks (fun s => match st_relay_fanout_posted_members (oe_msg_id envelope) (ep_url endpoint) s with
                               | Ok l => l | Err _ => [] end);
      if forallb (fun m => bool_decide (m ∈ already)) recipients then
        now ← gets p_now_ms;
        marked ← call (st_mark_outbound_envelope_relay_posted (oe_msg_id envelope) now);
        when (match marked with Ok b => b | Err _ => false end)
          (modify (fun p => p <| p_progress ::= (fun g => g <| pg_uploads_marked := true |>) |>));;
        mret 0
      else
        queue_fanout (oe_msg_id envelope) (blen recipients) endpoint owner already room 0
          (zip recipients (core_group_fanout_rows (oe_msg_id envelope) recipients (oe_hop_ttl envelope)
             (oe_expiry envelope) (oe_sealed envelope) (oe_timestamp envelope)))
  end.

(** The loop over the pending rows, [queued] of [budget] used. *)
Fixpoint load_authored_rows (budget queued : Z) (rows : list OutboundEnvelope) : M unit :=
  match rows with
  | [] => mret tt
  | row :: rows' =>
      if budget <=? queued then mret tt else
      contact ← gets (fun p => is_contact p (oe_recipient_user_id row));
      group ← asks (fun s => if (contact : bool) then None
                             else match st_get_group (oe_recipient_user_id row) s with
                                  | Ok g => g | Err _ => None end);
      match group with
      | Some group =>
          n ← load_group_fanout row group (budget - queued);
          load_authored_rows budget (queued + n) rows'
      | None =>
          target ← gets (fun p => upload_endpoint_for p (oe_recipient_user_id row));
          match target with
          | None => load_authored_rows budget queued rows'
          | Some endpoint =>
              owner ← gets (fun p => card_owner p endpoint (oe_recipient_user_id row));
              push_upload (mk_upload LaneAuthored (oe_msg_id row) (oe_hop_ttl row) (oe_recipient_hint row)
                             (oe_sealed row) (oe_expiry row) endpoint owner None);;
              load_authored_rows budget (queued + 1) rows'
          end
      end
  end.

Definition load_authored_uploads : M unit :=
  budget ← gets (fun p => max_authored_uploads (pl_budgets (p_plan p)));
  now ← gets p_now_ms;
  skip ← gets skip_recipients;
  rows ← asks (st_pending_relay_outbound_envelopes budget now skip);
  match rows with
  | Err _ => mret tt
  | Ok rows => load_authored_rows budget 0 rows
  end.

Definition load_carried_uploads : M unit :=
  own ← gets (fun p => pl_own (p_plan p));
  match own with
  | None => mret tt
  | Some own =>
      limit ← gets (fun p => max_carried_uploads (pl_budgets (p_plan p)));
      now ← gets p_now_ms;
      rows ← asks (st_family_carried_envelopes limit now []);
      match rows with
      | Err _ => mret tt
      | Ok rows =>
          for_each rows (fun row =>
            push_upload (mk_upload LaneCarried (ce_msg_id row) (ce_hop_ttl row) (ce_recipient_hint row)
                           (ce_sealed row) (ce_expiry row) (mk_endpoint (ec_url own) (ec_token own)) None None))
      end
  end.

(** The first queued upload that encodes, and the queue behind it. *)
Fixpoint next_upload (uploads : list PendingUpload) : option (PendingUpload * CoreRelayHttpRequest) * list PendingUpload :=
  match uploads with
  | [] => (None, [])
  | u :: uploads' =>
      match shadow_upload_request (up_endpoint u) (up_msg_id u) (up_hop_ttl u) (up_recipient_hint u)
              (up_sealed u) (up_expiry_ms u) with
      | Some request => (Some (u, request), uploads')
      | None => next_upload uploads'
      end
  end.

Definition emit_next_upload : M (option CoreRelayAction) :=
  next ← gets (fun p => next_upload (p_uploads p));
  modify (fun p => p <| p_uploads := next.2 |>);;
  match next.1 with
  | None => mret None
  | Some (upload, request) =>
      stage ← gets p_stage;
      action ← emit stage request (IntentUpload upload);
      mret (Some action)
  end.

(** ** Stage 5: which mailboxes to walk *)

Definition run_rewalk_decision : M unit :=
  own_user_id ← gets (fun p => pl_own_user_id (p_plan p));
  ignore (call (st_note_relay_hint_sources own_user_id)).

Definition walk_config (contact_user_id : option bytes) (endpoint : RelayEndpoint) : WalkConfig :=
  mk_walk_config contact_user_id endpoint (relay_cursor_key (ep_url endpoint) (ep_token endpoint))
    false false false None.

Definition has_endpoint (configs : list WalkConfig) (endpoint : RelayEndpoint) : bool :=
  existsb (fun c => bool_decide (ep_url (wc_endpoint c) = ep_url endpoint)
                    && bool_decide (ep_token (wc_endpoint c) = ep_token endpoint)) configs.

Definition poll_relay_of (p : PassState) (c : CoreRelayContactConfig) : option RelayEndpoint :=
  resolved_contact_poll_relay (cc_relay_url c) (cc_relay_token c)
    (own_url_of (pl_own (p_plan p))) (own_token_of (pl_own (p_plan p))).

Fixpoint add_contact_configs (p : PassState) (configs : list WalkConfig)
  (contacts : list CoreRelayContactConfig) : list WalkConfig :=
  match contacts with
  | [] => configs
  | contact :: contacts' =>
      let keep := add_contact_configs p configs contacts' in
      if negb (cc_endpoint_usable contact) || negb (cc_endpoint_answering contact) then keep
      else match poll_relay_of p contact with
           | None => keep
           | Some endpoint =>
               if has_endpoint configs endpoint then keep
               else add_contact_configs p (configs ++ [walk_config (Some (cc_user_id contact)) endpoint]) contacts'
           end
  end.

Definition walk_configs (p : PassState) : list WalkConfig :=
  let configs := match pl_own (p_plan p) with
                 | Some own => [walk_config None (mk_endpoint (ec_url own) (ec_token own))]
                 | None => []
                 end in
  add_contact_configs p configs (pl_contacts (p_plan p)).

Definition build_walk_configs : M unit := modify (fun p => p <| p_configs := walk_configs p |>).

Fixpoint add_probes (p : PassState) (probes : list PresenceProbe) (contacts : list CoreRelayContactConfig)
  : list PresenceProbe :=
  match contacts with
  | [] => probes
  | contact :: contacts' =>
      let keep := add_probes p probes contacts' in
      if negb (cc_endpoint_usable contact) then keep
      else match poll_relay_of p contact with
           | Some _ => keep
           | None =>
               match resolved_contact_relay (cc_relay_url contact) (cc_relay_token contact) None None with
               | None => keep
               | Some endpoint =>
                   if existsb (fun b => bool_decide (pb_user_id b = cc_user_id contact)) probes then keep
                   else add_probes p (probes ++ [mk_probe (cc_user_id contact) endpoint]) contacts'
               end
           end
  end.

Definition build_presence_probes : M unit :=
  modify (fun p => p <| p_probes := add_probes p [] (pl_contacts (p_plan p)) |> <| p_probe_index := 0%nat |>).

(** ** Stage 6: presence *)

Definition emit_presence : M (option CoreRelayAction) :=
  index ← gets p_config_index;
  config ← gets (fun p => p_configs p !! index);
  match config with
  | None => mret None
  | Some config =>
      if wc_presence_done config then mret None else
      on_config index (fun c => c <| wc_presence_done := true |>);;
      if negb (is_own config) then mret None else
      announce ← gets (fun p => pl_presence_announce (p_plan p));
      query ← gets (fun p => pl_presence_query (p_plan p));
      if bool_decide (announce = []) && bool_decide (query = []) then mret None else
      match build_presence_request (wc_endpoint config) announce query with
      | None => mret None
      | Some request => action ← emit Presence request (IntentPresence index); mret (Some action)
      end
  end.

(** The probe loop, over the probes from [index] on. *)
Fixpoint probe_loop (index : nat) (probes : list PresenceProbe) : M (option CoreRelayAction) :=
  match probes with
  | [] => mret None
  | probe :: probes' =>
      issued ← gets p_presence_probes_issued;
      if RELAY_PASS_MAX_PRESENCE_PROBES <=? issued then mret None else
      modify (fun p => p <| p_probe_index := (index + 1)%nat |>);;
      now ← gets p_now_ms;
      due ← asks (fun s => match st_contact_presence_probe_due (pb_user_id probe) now
                                   RELAY_CROSS_FAMILY_PRESENCE_MIN_INTERVAL_MS s with
                           | Ok b => b | Err _ => false end);
      if negb due then probe_loop (index + 1)%nat probes' else
      let query := recent_presence_hints_for (pb_user_id probe) now in
      if bool_decide (query = []) then probe_loop (index + 1)%nat probes' else
      match build_presence_request (pb_endpoint probe) [] query with
      | None => probe_loop (index + 1)%nat probes'
      | Some request =>
          ignore (call (st_mark_contact_presence_probed (pb_user_id probe) now));;
          modify (fun p => p <| p_presence_probes_issued ::= inc_u32 |>);;
          action ← emit Presence request (IntentPresenceProbe index);
          mret (Some action)
      end
  end.

Definition emit_presence_probe : M (option CoreRelayAction) :=
  index ← gets p_probe_index;
  probes ← gets (fun p => drop index (p_probes p));
  probe_loop index probes.

(** The smallest age a page shows. *)
Definition min_age (page : CoreRelayPresencePage) : option Z :=
  match (fun row => i64_saturating_sub (pp_now_ms page) (rp_last_seen_ms row)) <$> pp_presence page with
  | [] => None
  | a :: ages => Some (foldl Z.min a ages)
  end.

Definition observe_presence (o : CoreRelayPresenceObservation) : M unit :=
  modify (fun p => p <| p_projection ::= (fun j => j <| pj_presence ::= (fun l => l ++ [o]) |>) |>).

Definition apply_presence_probe (probe : nat) (result : CoreRelayHttpResult) : M unit :=
  modify (fun p => p <| p_any_relay_succeeded := true |>);;
  entry ← gets (fun p => p_probes p !! probe);
  match entry with
  | None => mret tt
  | Some entry =>
      let recency := match relay_decode_presence_page (hr_body result) with
                     | Ok page => relay_presence_recency <$> min_age page
                     | Err _ => None
                     end in
      match recency with
      | None => mret tt
      | Some recency =>
          now ← gets p_now_ms;
          ignore (call (st_record_contact_presence (pb_user_id entry) recency now));;
          observe_presence (mk_observation (pb_user_id entry) [] (relay_presence_recency_age_ms recency) now)
      end
  end.

(** ** Stage 7: the walk *)

Definition start_walk (index : nat) (config : WalkConfig) : M unit :=
  let key := wc_cursor_key config in
  cursor ← asks (fun s => match st_relay_fetch_cursor key s with Ok c => c | Err _ => no_cursor end);
  now ← gets p_now_ms;
  swept ← gets (fun p => pl_swept_this_session (p_plan p));
  let sweeping := relay_sweep_due swept (last_sweep_at_ms cursor) (sweep_after_id cursor) now in
  let restart := sweeping && relay_sweep_restart_from_zero (sweep_after_id cursor) (sweep_started_at_ms cursor) now in
  when restart (ignore (call (st_reset_relay_sweep_progress key now)));;
  let sweep_progress := if restart then 0 else sweep_after_id cursor in
  let after := relay_pass_start_cursor sweeping (after_id cursor) sweep_progress in
  on_config index (fun c => c <| wc_walk := Some (mk_walk sweeping after RELAY_FETCH_MAX_ROWS 0 0 after false) |>).

Definition emit_walk_step : M (option CoreRelayAction) :=
  index ← gets p_config_index;
  config ← gets (fun p => p_configs p !! index);
  match config with
  | None => mret None
  | Some config =>
      match wc_walk config with None => start_walk index config | Some _ => mret tt end;;
      walk ← walk_of index;
      match walk with
      | None => mret None
      | Some walk =>
          if wk_done walk then mret None else
          hints ← gets (fun p => pl_fetch_hints (p_plan p));
          if bool_decide (hints = []) then on_walk index walk_is_done;; mret None else
          match build_fetch_request (wc_endpoint config) hints (wk_after_id walk) (wk_limit walk) with
          | None => on_walk index walk_is_done;; mret None
          | Some request =>
              on_config index (fun c => c <| wc_attempted := true |>);;
              action ← emit MailboxWalk request (IntentFetch index (wk_after_id walk) (wk_limit walk));
              mret (Some action)
          end
      end
  end.

(** The cursor moves, or the walk stops here. *)
Definition commit_page (config : nat) (page_next_cursor : Z) (fully_processed : bool) : M unit :=
  entry ← gets (fun p => p_configs p !! config);
  match entry with
  | None => mret tt
  | Some entry =>
      let key := wc_cursor_key entry in
      let sweeping := match wc_walk entry with Some w => wk_sweeping w | None => false end in
      before ← asks (fun s => match st_relay_fetch_cursor key s with
                              | Ok c => if sweeping then sweep_after_id c else after_id c
                              | Err _ => 0 end);
      now ← gets p_now_ms;
      moved ← (if sweeping then call (st_advance_relay_sweep_cursor key page_next_cursor fully_processed now)
               else call (st_advance_relay_fetch_cursor key page_next_cursor fully_processed));
      let after := match moved with Ok a => a | Err _ => before end in
      if before <? after then
        modify (fun p => p <| p_frontier_advances ::= inc_u32 |>
                           <| p_progress ::= (fun g => g <| pg_cursor_advanced := true |>) |>);;
        on_walk config (fun w => w <| wk_after_id := after |> <| wk_swept_through ::= Z.max after |>);;
        walk ← walk_of config;
        let action := match walk with
                      | Some w => relay_mailbox_walk_action (wk_pages w) (wk_envelopes w)
                      | None => YieldAndScheduleContinuation
                      end in
        match action with
        | YieldAndScheduleContinuation =>
            on_walk config walk_is_done;; modify (fun p => p <| p_budget_yield := true |>)
        | ContinueWalk => mret tt
        end
      else
        modify (fun p => p <| p_frontiers_held ::= inc_u32 |>);;
        on_walk config walk_is_done
  end.

Definition hold_frontier_if_ack_failed (intent : ActionIntent) : M unit :=
  match intent with
  | IntentAck config page_next_cursor _ _ => commit_page config page_next_cursor false
  | _ => mret tt
  end.

Definition worsen (fault : CoreRelayFault) : M unit :=
  modify (fun p => p <| p_worst_fault ::= (fun w => Some (core_worse_relay_fault w fault)) |>).

Definition fold_fault (intent : ActionIntent) (fault : CoreRelayFault) : M unit :=
  own ← gets (fun p => intent_used_own_credential p intent);
  when (bool_decide (fault = RateLimited) || own) (worsen fault).

Definition mark_answered (config : nat) : M unit :=
  modify (fun p => p <| p_any_relay_succeeded := true |>);;
  entry ← gets (fun p => p_configs p !! config);
  match entry with
  | None => mret tt
  | Some entry =>
      on_config config (fun c => c <| wc_answered := true |>);;
      when (is_own entry) (modify (fun p => p <| p_own_relay_succeeded := true |>));;
      match wc_contact_user_id entry with
      | Some user_id => modify (fun p => p <| p_recoveries ::= push_new user_id |>)
      | None => mret tt
      end
  end.

(** Rows this pass carried for the first time. *)
Definition newly_carried (fetched : list CoreRelayFetchedEnvelope) (rows : list CoreRelayEnvelopeDisposition)
  : list CoreRelayFetchedEnvelope :=
  List.filter (fun e => existsb (fun r => bool_decide (it_disposition r = Carried)
                                          && bool_decide (it_msg_id r = fe_msg_id e)) rows) fetched.

Definition apply_ingested (config : nat) (page : CoreRelayFetchPage) (ingest : CoreRelayPageIngest) : M unit :=
  modify (fun p => p <| p_rows_ingested ::= (fun n => u32_saturating_add n (ig_rows_ingested ingest)) |>);;
  when (0 <? ig_rows_ingested ingest) (
    modify (fun p => p <| p_progress ::= (fun g => g <| pg_rows_ingested := true |>) |>);;
    modify (fun p => p <| p_projection ::= (fun j => j <| pj_ingested ::= (fun l =>
              l ++ newly_carried (fp_envelopes page) (ig_rows ingest)) |>) |>));;
  on_walk config (fun w => w <| wk_swept_through ::= Z.max (fp_next_cursor page) |>);;
  own_user_id ← gets (fun p => pl_own_user_id (p_plan p));
  now ← gets p_now_ms;
  ack_ids ← asks (fun s => match st_core_relay_ack_ids_with_consumed (ig_rows ingest) own_user_id now s with
                           | Ok ids => ids | Err _ => [] end);
  if bool_decide (ack_ids = []) then commit_page config (fp_next_cursor page) (ig_fully_processed ingest) else
  spent ← gets (fun p => max_requests (pl_budgets (p_plan p)) <=? p_requests_issued p);
  if (spent : bool) then
    modify (fun p => p <| p_budget_yield := true |>);;
    commit_page config (fp_next_cursor page) false
  else
    entry ← gets (fun p => p_configs p !! config);
    match entry with
    | None => mret tt
    | Some entry =>
        match build_ack_request (wc_endpoint entry) ack_ids with
        | None => commit_page config (fp_next_cursor page) false
        | Some request =>
            ignore (emit MailboxWalk request
              (IntentAck config (fp_next_cursor page) (blen (fp_envelopes page)) (blen ack_ids)))
        end
    end.

Definition apply_fetch (config : nat) (after : Z) (result : CoreRelayHttpResult) : M unit :=
  match relay_decode_fetch_page (hr_body result) with
  | Err _ => worsen Outage;; on_walk config walk_is_done
  | Ok page =>
      let rows := as_u32 (blen (fp_envelopes page)) in
      let continues := relay_fetch_walk_continues rows after (fp_next_cursor page) in
      modify (fun p => p <| p_envelopes_processed ::= (fun n => u32_saturating_add n rows) |>);;
      on_walk config (fun w => w <| wk_pages ::= inc_u32 |> <| wk_envelopes ::= (fun n => u32_saturating_add n rows) |>);;
      if rows =? 0 then
        walk ← walk_of config;
        entry ← gets (fun p => p_configs p !! config);
        now ← gets p_now_ms;
        match walk, entry with
        | Some walk, Some entry =>
            when (wk_sweeping walk)
              (ignore (call (st_note_relay_sweep_completed (wc_cursor_key entry) now (wk_swept_through walk))))
        | _, _ => mret tt
        end;;
        on_walk config walk_is_done
      else if negb continues then
        on_walk config walk_is_done;;
        modify (fun p => p <| p_frontiers_held ::= inc_u32 |>)
      else
        now ← gets p_now_ms;
        ingest ← call (st_ingest_relay_page (fp_envelopes page) now);
        match ingest with
        | Err _ =>
            on_walk config walk_is_done;;
            modify (fun p => p <| p_frontiers_held ::= inc_u32 |>)
        | Ok ingest => apply_ingested config page ingest
        end
  end.

(** ** Applying results *)

Definition mark_fanout_row (endpoint : RelayEndpoint) (fanout : FanoutRow) : M (result CoreError bool) :=
  now ← gets p_now_ms;
  recorded ← call (st_mark_relay_fanout_row_posted (fn_envelope_msg_id fanout) (fn_member_user_id fanout)
                     (ep_url endpoint) now);
  match recorded with
  | Err e => mret (Err e)
  | Ok recorded =>
      landed ← asks (st_relay_fanout_posted_members (fn_envelope_msg_id fanout) (ep_url endpoint));
      match landed with
      | Err e => mret (Err e)
      | Ok landed =>
          if blen landed <? fn_members_owed fanout then mret (Ok recorded) else
          marked ← call (st_mark_outbound_envelope_relay_posted (fn_envelope_msg_id fanout) now);
          match marked with
          | Err e => mret (Err e)
          | Ok marked => mret (Ok (marked || recorded))
          end
      end
  end.

Definition apply_upload_accepted (upload : PendingUpload) : M unit :=
  modify (fun p => p <| p_any_relay_succeeded := true |>);;
  own ← gets (fun p => is_own_endpoint p (up_endpoint upload));
  when own (modify (fun p => p <| p_own_relay_succeeded := true |>));;
  match up_contact_user_id upload with
  | Some user_id => note_contact_rejection_recovery user_id
  | None => mret tt
  end;;
  now ← gets p_now_ms;
  marker ← match up_lane upload with
           | LaneReceipt =>
               modify (fun p => p <| p_receipt_uploads ::= inc_u32 |>);;
               call (st_mark_outgoing_receipt_envelope_relay_posted (up_msg_id upload) now)
           | LaneAuthored =>
               modify (fun p => p <| p_authored_uploads ::= inc_u32 |>);;
               match up_fanout upload with
               | Some fanout => mark_fanout_row (up_endpoint upload) fanout
               | None => call (st_mark_outbound_envelope_relay_posted (up_msg_id upload) now)
               end
           | LaneCarried =>
               modify (fun p => p <| p_carried_uploads ::= inc_u32 |>);;
               marked ← call (st_mark_carried_envelope_relay_uploaded (up_msg_id upload) (ep_url (up_endpoint upload)));
               when (match marked with Ok b => b | Err _ => false end)
                 (modify (fun p => p <| p_carried_rows_marked ::= inc_u32 |>));;
               mret marked
           end;
  match marker with
  | Err _ => fail_store
  | Ok marked => when marked (modify (fun p => p <| p_progress ::= (fun g => g <| pg_uploads_marked := true |>) |>))
  end.

Definition apply_success (intent : ActionIntent) (result : CoreRelayHttpResult) : M unit :=
  match intent with
  | IntentUpload upload => apply_upload_accepted upload
  | IntentPresence config =>
      mark_answered config;;
      match relay_decode_presence_page (hr_body result) with
      | Err _ => mret tt
      | Ok page =>
          now ← gets p_now_ms;
          for_each (pp_presence page) (fun row =>
            observe_presence (mk_observation [] (rp_hint row)
              (Z.max (i64_saturating_sub (pp_now_ms page) (rp_last_seen_ms row)) 0) now))
      end
  | IntentPresenceProbe probe => apply_presence_probe probe result
  | IntentFetch config after _ => mark_answered config;; apply_fetch config after result
  | IntentAck config page_next_cursor _ ack_ids =>
      mark_answered config;;
      modify (fun p => p <| p_rows_acked ::= (fun n => u32_saturating_add n (as_u32 ack_ids)) |>);;
      commit_page config page_next_cursor true
  end.

Definition apply_transport_error (intent : ActionIntent) (error : CoreRelayTransportError) : M unit :=
  when (bool_decide (error = ErrCancelled)) (modify (fun p => p <| p_cancelled := true |>));;
  fold_fault intent Outage;;
  hold_frontier_if_ack_failed intent;;
  match intent with
  | IntentUpload upload =>
      modify (fun p => p <| p_uploads ::= List.filter (fun q =>
        negb (bool_decide (ep_url (up_endpoint q) = ep_url (up_endpoint upload)))) |>)
  | IntentPresenceProbe _ => mret tt
  | IntentPresence config =>
      modify (fun p => p <| p_configs_faulted ::= inc_u32 |>);;
      on_config config (fun c => c <| wc_walk := None |>)
  | IntentFetch config _ _ | IntentAck config _ _ _ =>
      modify (fun p => p <| p_configs_faulted ::= inc_u32 |>);;
      on_walk config walk_is_done
  end.

Definition apply_oversize (intent : ActionIntent) : M unit :=
  match intent with
  | IntentFetch config after limit =>
      match relay_fetch_shrunk_limit limit with
      | Some smaller => on_walk config (fun w => w <| wk_limit := smaller |> <| wk_after_id := after |>)
      | None => on_walk config walk_is_done;; fold_fault intent Outage
      end
  | _ => apply_transport_error intent ErrBodyTooLarge
  end.

Definition abort_for_rate_limit (retry_after_ms : Z) : M unit :=
  modify (fun p => p <| p_rate_limited := true |>);;
  plan ← gets p_plan;
  now ← gets p_now_ms;
  let delay := core_family_relay_backoff_delay_ms retry_after_ms
                 (u32_saturating_add (pl_consecutive_rate_limits plan) 1)
                 (core_family_relay_jitter_ms (pl_own_user_id plan)) in
  let quiet_until := i64_saturating_add now (Z.min delay I64_MAX) in
  modify (fun p => p <| p_quiet_until_ms ::= Z.max quiet_until |> <| p_uploads := [] |>
                     <| p_configs ::= fmap (fun c => c <| wc_walk := Some (match wc_walk c with
                                                                       | Some w => walk_is_done w
                                                                       | None => done_walk end) |>
                                                       <| wc_presence_done := true |>) |>);;
  modify (fun p => p <| p_config_index := length (p_configs p) |> <| p_probe_index := length (p_probes p) |>
                     <| p_stopped_at := Some (p_stage p) |> <| p_stage := CommitEvidence |>).

(** After a classified rejection that is not a 429. *)
Definition apply_rejection (intent : ActionIntent) (fault : CoreRelayFault) : M unit :=
  let reject user_id := when (contact_relay_fault_is_authoritative fault) (note_contact_rejection user_id) in
  match intent with
  | IntentUpload upload =>
      when (negb (bool_decide (fault = MessageTooLarge)) && negb (bool_decide (fault = MsgIdConflict)))
        (modify (fun p => p <| p_uploads ::= List.filter (fun q =>
           if decide (fault = Outage)
           then negb (bool_decide (ep_url (up_endpoint q) = ep_url (up_endpoint upload)))
           else negb (bool_decide (up_endpoint q = up_endpoint upload))) |>));;
      match up_contact_user_id upload with Some user_id => reject user_id | None => mret tt end
  | IntentPresenceProbe _ => mret tt
  | IntentPresence config | IntentFetch config _ _ | IntentAck config _ _ _ =>
      modify (fun p => p <| p_configs_faulted ::= inc_u32 |>);;
      entry ← gets (fun p => p_configs p !! config);
      match entry ≫= wc_contact_user_id with Some user_id => reject user_id | None => mret tt end;;
      match intent with
      | IntentPresence _ => on_config config (fun c => c <| wc_walk := None |>)
      | _ => on_config config (fun c => c <| wc_walk := Some (match wc_walk c with
                                                          | Some w => walk_is_done w
                                                          | None => done_walk end) |>)
      end
  end.

Definition apply (intent : ActionIntent) (result : CoreRelayHttpResult) : M unit :=
  modify (fun p => p <| p_response_bytes_read ::= (fun n => u64_saturating_add n (blen (hr_body result))) |>);;
  match hr_error result with
  | Some ErrBodyTooLarge => apply_oversize intent
  | Some error => apply_transport_error intent error
  | None =>
      let status := hr_status result in
      if (200 <=? status) && (status <? 300) then apply_success intent result else
      let fault := relay_classify_http_error status (relay_error_code (hr_body result)) in
      fold_fault intent fault;;
      hold_frontier_if_ack_failed intent;;
      if decide (fault = RateLimited)
      then abort_for_rate_limit (relay_retry_after_ms (header_value (hr_headers result) CRLF_RETRY_AFTER))
      else apply_rejection intent fault
  end.

(** ** The stage loop *)

Definition finished_action (p : PassState) (summary : CoreRelayPassSummary) : CoreRelayAction :=
  mk_action (p_pass_id p) 0 StageFinish (KindFinished summary).

Definition set_stage (s : CoreRelayStage) : M unit := modify (fun p => p <| p_stage := s |>).

Definition pass_outcome (p : PassState) : CoreRelayPassOutcome :=
  if p_store_failed p then PassStoreFailed
  else if p_cancelled p then PassCancelled
  else if p_rate_limited p then PassRateLimited
  else if p_budget_yield p then PassBudgetYield
  else if bool_decide (length (p_configs p) = 0%nat) && (p_requests_issued p =? 0)
          && match pl_own (p_plan p) with None => true | Some _ => false end
  then PassNoConfigs else PassCompleted.

Definition cut_if_over_budget : M unit :=
  over ← gets (fun p => (stage_rank (p_stage p) <? stage_rank CommitEvidence) && over_budget p);
  when over (modify (fun p => p <| p_budget_yield := true |> <| p_uploads := [] |>
                                <| p_stopped_at := Some (p_stage p) |> <| p_stage := CommitEvidence |>)).

(** One turn of the loop: an action to return, or [None] to go round again. *)
Definition advance_step : M (option CoreRelayAction) :=
  cut_if_over_budget;;
  stage ← gets p_stage;
  match stage with
  | PruneAndRepair => run_prune;; set_stage Announce;; mret None
  | Announce =>
      run_announce;;
      failed ← gets p_store_failed;
      if (failed : bool) then mret None
      else set_stage UploadReceipts;; load_receipt_uploads;; mret None
  | UploadReceipts =>
      action ← emit_next_upload;
      match action with
      | Some action => mret (Some action)
      | None => set_stage UploadAuthored;; load_authored_uploads;; mret None
      end
  | UploadAuthored =>
      action ← emit_next_upload;
      match action with
      | Some action => mret (Some action)
      | None => set_stage UploadCarried;; load_carried_uploads;; mret None
      end
  | UploadCarried =>
      action ← emit_next_upload;
      match action with
      | Some action => mret (Some action)
      | None => set_stage RewalkDecision;; mret None
      end
  | RewalkDecision =>
      run_rewalk_decision;; build_walk_configs;; build_presence_probes;;
      modify (fun p => p <| p_config_index := 0%nat |> <| p_stage := Presence |>);; mret None
  | Presence =>
      past ← gets (fun p => bool_decide (length (p_configs p) <= p_config_index p)%nat);
      if (past : bool) then
        action ← emit_presence_probe;
        match action with
        | Some action => mret (Some action)
        | None => set_stage CommitEvidence;; mret None
        end
      else
        action ← emit_presence;
        match action with
        | Some action => mret (Some action)
        | None => set_stage MailboxWalk;; mret None
        end
  | MailboxWalk =>
      action ← emit_walk_step;
      match action with
      | Some action => mret (Some action)
      | None =>
          modify (fun p => p <| p_configs_walked ::= inc_u32 |> <| p_config_index ::= (fun i => (i + 1)%nat) |>
                             <| p_stage := Presence |>);; mret None
      end
  | CommitEvidence =>
      now ← gets p_now_ms;
      commit_evidence now SilenceCommit;; set_stage StageFinish;; mret None
  | StageFinish =>
      outcome ← gets pass_outcome;
      now ← gets p_now_ms;
      summary ← finish outcome now;
      action ← gets (fun p => finished_action p summary);
      mret (Some action)
  end.

Fixpoint advance_loop (fuel : nat) : M (option CoreRelayAction) :=
  match fuel with
  | O => mret None
  | Datatypes.S fuel =>
      action ← advance_step;
      match action with
      | Some action => mret (Some action)
      | None => advance_loop fuel
      end
  end.

(** Enough for every stage once and for two turns per mailbox, built or still
    to be built. *)
Definition advance_fuel (p : PassState) : nat :=
  (2 * (length (pl_contacts (p_plan p)) + length (p_configs p)) + 16)%nat.

Definition restate (p : PassState) : option CoreRelayAction :=
  match p_outstanding p with
  | Some o => Some (mk_action (p_pass_id p) (os_action_id o) (os_stage o) (KindHttp (os_request o)))
  | None => finished_action p <$> p_finished p
  end.

Definition advance : M (option CoreRelayAction) :=
  finished ← gets p_finished;
  started ← gets p_started;
  outstanding ← gets p_outstanding;
  match finished with
  | Some summary => gets (fun p => Some (finished_action p summary))
  | None =>
      if negb started then gets (fun p => Some (mk_action (p_pass_id p) 0 (p_stage p) KindNotStarted)) else
      match outstanding with
      | Some _ => gets restate
      | None => fuel ← gets advance_fuel; advance_loop fuel
      end
  end.

Definition restate_or_advance : M (option CoreRelayAction) :=
  action ← gets restate;
  match action with
  | Some action => mret (Some action)
  | None => advance
  end.

(** ** The exported calls *)

Definition start (now_ms : Z) : M (option CoreRelayAction) :=
  again ← gets (fun p => bool_decide (is_Some (p_finished p)) || p_started p);
  if (again : bool) then restate_or_advance else
  modify (fun p => p <| p_started := true |> <| p_started_at_ms := now_ms |> <| p_now_ms := now_ms |>);;
  quiet ← gets (fun p => pl_quiet_until_ms (p_plan p));
  if now_ms <? quiet then
    modify (fun p => p <| p_quiet_until_ms := quiet |>);;
    summary ← finish PassRefusedQuietWindow now_ms;
    mret (Some (mk_action (su_pass_id summary) 0 StageFinish (KindSleep quiet)))
  else advance.

Definition result_matches (p : PassState) (result : CoreRelayHttpResult) : bool :=
  match p_outstanding p with
  | Some o => (os_action_id o =? hr_action_id result) && bool_decide (p_pass_id p = hr_pass_id result)
  | None => false
  end.

Definition resume_http (result : CoreRelayHttpResult) : M (option CoreRelayAction) :=
  finished ← gets p_finished;
  match finished with
  | Some _ =>
      modify (fun p => p <| p_stale_results_ignored ::= inc_u32 |>);;
      modify (fun p => p <| p_finished ::= fmap (fun su => su <| su_stale_results_ignored := p_stale_results_ignored p |>) |>);;
      gets (fun p => (fun su => mk_action (su_pass_id su) 0 StageFinish (KindFinished su)) <$> p_finished p)
  | None =>
      matches ← gets (fun p => result_matches p result);
      if negb matches then
        modify (fun p => p <| p_stale_results_ignored ::= inc_u32 |>);;
        started ← gets p_started;
        if negb started then gets (fun p => Some (mk_action (p_pass_id p) 0 (p_stage p) KindNotStarted))
        else restate_or_advance
      else
        outstanding ← gets p_outstanding;
        modify (fun p => p <| p_outstanding := None |> <| p_now_ms ::= Z.max (hr_completed_at_ms result) |>);;
        match outstanding with
        | Some o => apply (os_intent o) result
        | None => mret tt
        end;;
        advance
  end.

Definition cancel (now_ms : Z) : M CoreRelayPassSummary :=
  finished ← gets p_finished;
  match finished with
  | Some summary => mret summary
  | None =>
      modify (fun p => p <| p_now_ms ::= Z.max now_ms |> <| p_cancelled := true |>
                         <| p_stopped_at := Some (p_stage p) |> <| p_outstanding := None |>);;
      now ← gets p_now_ms;
      commit_evidence now SilenceDiscard;;
      finish PassCancelled now
  end.

Definition pass_summary : M (option CoreRelayPassSummary) := gets p_finished.

Definition take_projection : M CoreRelayProjection :=
  projection ← gets p_projection;
  modify (fun p => p <| p_projection := mk_projection [] [] |>);;
  mret projection.

End pass.
