(* ===== verification/RelayPassRun.v ===== *)
(** The relay pass is bounded and ends ([core/src/session/relay_pass.rs]).

    What every operation of [RelayPass.v] leaves alone, how many requests one turn
    can ask for, and from these: over any sequence of calls, whatever the store and
    the relays answer, a pass stays within its request budget, ignores results it
    is not waiting for, and finishes once its requests are answered. *)
From stdpp Require Import base numbers list gmap strings.
From coqutil Require Import Datatypes.RecordSetters.
From S2P Require Import Prelude StdModel SqlModel Wire Crypto Message Frames Hints Engine RelayPolicy RelayWire RelayCursor.
From S2P Require Import CarryQueue OutboundQueue RelayPass RelayStore.
Import TriangleBracketNotations.

(** * What an operation leaves alone *)

(** [pres f m]: running [m] does not change [f] of the state. *)
Definition pres {S A T} (f : PassState -> T) (m : pm S A) : Prop := forall p s, f (m p s).2.1 = f p.

Create HintDb pass discriminated.

Section pres.
Context {S : Type} {T : Type} (f : PassState -> T).

Lemma pres_ret {A} (a : A) : pres (S := S) f (mret a).
Proof. done. Qed.

Lemma pres_gets {A} (g : PassState -> A) : pres (S := S) f (gets g).
Proof. done. Qed.

Lemma pres_asks {A} (g : S -> A) : pres f (asks g).
Proof. done. Qed.

Lemma pres_call {A} (g : S -> S * A) : pres f (call g).
Proof. intros p s. unfold call. by destruct (g s). Qed.

Lemma pres_modify (g : PassState -> PassState) : (forall p, f (g p) = f p) -> pres (S := S) f (modify g).
Proof. intros Hg p s. apply Hg. Qed.

Lemma pres_bind {A B} (m : pm S A) (k : A -> pm S B) : pres f m -> (forall a, pres f (k a)) -> pres f (m ≫= k).
Proof.
  intros Hm Hk p s. unfold mbind, pm_bind. specialize (Hm p s). destruct (m p s) as [a [p' s']].
  rewrite <-Hm. apply Hk.
Qed.

Lemma pres_when b (m : pm S unit) : pres f m -> pres f (when b m).
Proof. by destruct b. Qed.

Lemma pres_ignore {A} (m : pm S A) : pres f m -> pres f (ignore m).
Proof. intros Hm. apply pres_bind; [done|]. intros a. apply pres_ret. Qed.

Lemma pres_for_each {A} (l : list A) (k : A -> pm S unit) : (forall a, pres f (k a)) -> pres f (for_each l k).
Proof. intros Hk. induction l as [|a l IH]; [apply pres_ret|]. apply pres_bind; [apply Hk|done]. Qed.

End pres.

Lemma pres_via {S A T T'} (f : PassState -> T) (g : T -> T') (m : pm S A) : pres f m -> pres (fun p => g (f p)) m.
Proof. intros Hm p s. by rewrite Hm. Qed.

(** Structural steps of a [pres] goal; lemmas about named operations come from
    the hint database. *)
Ltac pres_step :=
  lazymatch goal with
  | |- pres _ (mret _) => apply pres_ret
  | |- pres _ (gets _) => apply pres_gets
  | |- pres _ (asks _) => apply pres_asks
  | |- pres _ (call _) => apply pres_call
  | |- pres _ (modify _) => solve [auto with pass | apply pres_modify; intros ?; reflexivity]
  | |- pres _ (mbind _ _) => apply pres_bind; [|intros ?]
  | |- pres _ (when _ _) => apply pres_when
  | |- pres _ (ignore _) => apply pres_ignore
  | |- pres _ (for_each _ _) => apply pres_for_each; intros ?
  | |- pres _ (match ?x with _ => _ end) => destruct x
  | |- pres _ _ => solve [auto with pass]
  end.
Ltac pres := repeat pres_step.

(** ** The frame: who the pass is, what it asked, whether it is over *)

Record pass_frame : Type := mk_frame {
  fr_plan : CoreRelayPassPlan;
  fr_pass_id : bytes;
  fr_started : bool;
  fr_finished : option CoreRelayPassSummary;
  fr_outstanding : option Outstanding;
  fr_requests : Z;
  fr_next_action_id : Z;
}.

Definition frame (p : PassState) : pass_frame :=
  mk_frame (p_plan p) (p_pass_id p) (p_started p) (p_finished p) (p_outstanding p) (p_requests_issued p)
    (p_next_action_id p).

(** The frame, where the stage loop is, and whether the store has failed. *)
Definition full (p : PassState) : pass_frame * (CoreRelayStage * nat * nat * bool) :=
  (frame p, (p_stage p, p_config_index p, length (p_configs p), p_store_failed p)).

Lemma pres_full_frame {S A} (m : pm S A) : pres full m -> pres frame m.
Proof. apply (pres_via full fst). Qed.

Section frames.
Context `{C : Crypto} `{B : Base64} `{J : RelayJson} `{EJ : ErrorJson} {S : Type} `{PS : PassStore S}.

Lemma pres_on_config i f : pres full (on_config (S := S) i f).
Proof.
  apply pres_modify. intros p. unfold full, frame. cbn. unfold constant. by rewrite length_alter.
Qed.

Lemma pres_on_walk i f : pres full (on_walk (S := S) i f).
Proof. apply pres_on_config. Qed.

Hint Resolve pres_on_config pres_on_walk : pass.

Lemma pres_push_upload u : pres full (push_upload (S := S) u).
Proof. apply pres_modify. reflexivity. Qed.

Hint Resolve pres_push_upload : pass.

Lemma pres_commit_evidence now e : pres full (commit_evidence now e).
Proof. unfold commit_evidence. pres. Qed.

Lemma pres_run_prune : pres full run_prune.
Proof. unfold run_prune. pres. Qed.

Lemma pres_load_receipt_uploads : pres full load_receipt_uploads.
Proof. unfold load_receipt_uploads. pres. Qed.

Lemma pres_queue_fanout e owed ep ow al room q rows : pres full (queue_fanout (S := S) e owed ep ow al room q rows).
Proof. revert q. induction rows as [|[m r] rows IH]; intros q; cbn [queue_fanout]; pres. Qed.

Hint Resolve pres_commit_evidence pres_run_prune pres_load_receipt_uploads pres_queue_fanout : pass.

Lemma pres_load_group_fanout e g room : pres full (load_group_fanout e g room).
Proof. unfold load_group_fanout. pres. Qed.

Hint Resolve pres_load_group_fanout : pass.

Lemma pres_load_authored_rows b q rows : pres full (load_authored_rows b q rows).
Proof. revert q. induction rows as [|r rows IH]; intros q; cbn [load_authored_rows]; pres. Qed.

Hint Resolve pres_load_authored_rows : pass.

Lemma pres_load_authored_uploads : pres full load_authored_uploads.
Proof. unfold load_authored_uploads. pres. Qed.

Lemma pres_load_carried_uploads : pres full load_carried_uploads.
Proof. unfold load_carried_uploads. pres. Qed.

Lemma pres_start_walk i c : pres full (start_walk i c).
Proof. unfold start_walk. pres. Qed.

Hint Resolve pres_load_authored_uploads pres_load_carried_uploads pres_start_walk : pass.

Lemma pres_commit_page i c b : pres full (commit_page i c b).
Proof. unfold commit_page, walk_of. pres. Qed.

Hint Resolve pres_commit_page : pass.

Lemma pres_fold_fault i f : pres full (fold_fault (S := S) i f).
Proof. unfold fold_fault, worsen. pres. Qed.

Lemma pres_mark_answered i : pres full (mark_answered (S := S) i).
Proof. unfold mark_answered. pres. Qed.

Lemma pres_hold i : pres full (hold_frontier_if_ack_failed i).
Proof. unfold hold_frontier_if_ack_failed. pres. Qed.

Lemma pres_apply_presence_probe i r : pres full (apply_presence_probe i r).
Proof. unfold apply_presence_probe, observe_presence. pres. Qed.

Hint Resolve pres_fold_fault pres_mark_answered pres_hold pres_apply_presence_probe : pass.

Lemma pres_apply_transport_error i e : pres full (apply_transport_error i e).
Proof. unfold apply_transport_error. pres. Qed.

Hint Resolve pres_apply_transport_error : pass.

Lemma pres_apply_oversize i : pres full (apply_oversize i).
Proof. unfold apply_oversize. pres. Qed.

Lemma pres_apply_rejection i f : pres full (apply_rejection (S := S) i f).
Proof. unfold apply_rejection, note_contact_rejection. pres. Qed.

Lemma pres_fail_store : pres frame (fail_store (S := S)).
Proof. unfold fail_store. pres. Qed.

Lemma pres_mark_fanout_row e r : pres full (mark_fanout_row e r).
Proof. unfold mark_fanout_row. pres. Qed.

Lemma pres_abort r : pres frame (abort_for_rate_limit (S := S) r).
Proof. unfold abort_for_rate_limit. pres. Qed.

Hint Resolve pres_apply_oversize pres_apply_rejection pres_fail_store pres_mark_fanout_row pres_abort
  pres_full_frame : pass.

Lemma pres_apply_upload_accepted u : pres frame (apply_upload_accepted u).
Proof. unfold apply_upload_accepted, note_contact_rejection_recovery. pres. Qed.

Hint Resolve pres_apply_upload_accepted : pass.

(** ** Asking at most once *)

(** One request more, and it is the outstanding one. *)
Definition asked (fr fr' : pass_frame) : Prop :=
  exists o, os_action_id o = fr_next_action_id fr /\
    fr' = mk_frame (fr_plan fr) (fr_pass_id fr) (fr_started fr) (fr_finished fr) (Some o)
            (inc_u32 (fr_requests fr)) (u64_saturating_add (fr_next_action_id fr) 1).

Definition asks_once {A} (m : pm S A) : Prop :=
  forall p s, frame (m p s).2.1 = frame p
    \/ (asked (frame p) (frame (m p s).2.1) /\ p_store_failed (m p s).2.1 = p_store_failed p).

(** ... and only while the request budget lasts. *)
Definition asks_within {A} (m : pm S A) : Prop :=
  forall p s, frame (m p s).2.1 = frame p
    \/ (p_requests_issued p < max_requests (pl_budgets (p_plan p)) /\ asked (frame p) (frame (m p s).2.1)
        /\ p_store_failed (m p s).2.1 = p_store_failed p).

Lemma emit_asks stage request intent p s :
  asked (frame p) (frame (emit (S := S) stage request intent p s).2.1)
  /\ restate (emit (S := S) stage request intent p s).2.1 = Some (emit (S := S) stage request intent p s).1.
Proof. split; [|reflexivity]. eexists (mk_outstanding (p_next_action_id p) stage request intent). split; reflexivity. Qed.

Lemma within_pres {A} (m : pm S A) : pres frame m -> asks_within m.
Proof. intros Hm p s. left. apply Hm. Qed.

Lemma within_bind {A D} (m : pm S A) (k : A -> pm S D) :
  pres full m -> (forall a, asks_within (k a)) -> asks_within (m ≫= k).
Proof.
  intros Hm Hk p s. unfold mbind, pm_bind. specialize (Hm p s). destruct (m p s) as [a [p' s']]. cbn in Hm.
  pose proof (Hk a p' s') as Hk'. unfold full in Hm. injection Hm as H1 H2 H3 H4 H5 H6 H7 H8 H9 H10 H11.
  assert (frame p' = frame p) as Hf by (unfold frame; congruence).
  rewrite H1, H6, H11, Hf in Hk'. exact Hk'.
Qed.

(** The budget guard in front of an acknowledgement. *)
Lemma within_guard {A} (m1 m2 : pm S A) :
  pres frame m1 -> asks_once m2 ->
  asks_within (gets (fun p => max_requests (pl_budgets (p_plan p)) <=? p_requests_issued p)
                 ≫= fun spent => if (spent : bool) then m1 else m2).
Proof.
  intros H1 H2 p s. unfold mbind, pm_bind, gets. destruct (_ <=? _) eqn:E; bools; [left; apply H1|].
  destruct (H2 p s); [by left|by right].
Qed.

Lemma apply_ingested_within config page ingest : asks_within (apply_ingested config page ingest).
Proof.
  unfold apply_ingested.
  repeat (apply within_bind; [solve [pres]|intros ?]).
  destruct (bool_decide _); [apply within_pres; pres|].
  apply within_guard; [pres|]. intros p s. unfold mbind, pm_bind, gets.
  destruct (p_configs p !! config) as [entry|]; [|by left].
  destruct (build_ack_request _ _) as [request|]; [|left; apply pres_full_frame, pres_commit_page].
  right. split; [apply (emit_asks _ _ _ p s)|reflexivity].
Qed.

Lemma apply_within intent result : asks_within (apply intent result).
Proof.
  unfold apply. apply within_bind; [pres|intros _].
  destruct (hr_error result) as [e|]; [destruct e; apply within_pres; pres|].
  destruct (_ && _); [|apply within_pres; pres].
  unfold apply_success. destruct intent as [u|i|i|i after lim|i c n k].
  - apply within_pres. pres.
  - apply within_pres. unfold observe_presence. pres.
  - apply within_pres. pres.
  - apply within_bind; [pres|intros _]. unfold apply_fetch, worsen, walk_of.
    destruct (relay_decode_fetch_page _) as [page|]; [|apply within_pres; pres].
    do 2 (apply within_bind; [pres|intros _]).
    destruct (_ =? 0); [apply within_pres; pres|]. destruct (negb _); [apply within_pres; pres|].
    do 2 (apply within_bind; [pres|intros ?]). destruct a0; [apply apply_ingested_within|apply within_pres; pres].
  - apply within_pres. pres.
Qed.

(** ** Emitting steps *)

(** Either an action was emitted, and it is the outstanding one, or nothing of
    the frame or the loop's place changed. *)
Definition emits (m : pm S (option CoreRelayAction)) : Prop :=
  forall p s, match (m p s).1 with
              | Some action => asked (frame p) (frame (m p s).2.1) /\ restate (m p s).2.1 = Some action
                               /\ p_store_failed (m p s).2.1 = p_store_failed p
              | None => full (m p s).2.1 = full p
              end.

Lemma emits_bind {A} (m : pm S A) k : pres full m -> (forall a, emits (k a)) -> emits (m ≫= k).
Proof.
  intros Hm Hk p s. unfold mbind, pm_bind. specialize (Hm p s). destruct (m p s) as [a [p' s']]. cbn in Hm.
  pose proof (Hk a p' s') as Hk'. rewrite <-Hm.
  assert (frame p = frame p') as -> by (change ((full p).1 = (full p').1); by rewrite Hm).
  assert (p_store_failed p = p_store_failed p') as -> by (change ((full p).2.2 = (full p').2.2); by rewrite Hm).
  exact Hk'.
Qed.

Lemma emits_none : emits (mret None).
Proof. done. Qed.

Lemma emits_emit stage request intent :
  emits (action ← emit stage request intent; mret (Some action)).
Proof.
  intros p s. pose proof (emit_asks stage request intent p s) as [H1 H2]. split; [exact H1|split; [exact H2|reflexivity]].
Qed.

Hint Resolve emits_none emits_emit : pass.

Ltac emits_step :=
  lazymatch goal with
  | |- emits (mret None) => apply emits_none
  | |- emits (mbind _ (emit _ _ _)) => apply emits_emit
  | |- emits (mbind _ _) => apply emits_bind; [solve [pres]|intros ?]
  | |- emits (match ?x with _ => _ end) => destruct x
  | |- emits _ => solve [auto with pass]
  end.

Lemma emits_next_upload : emits emit_next_upload.
Proof. unfold emit_next_upload. repeat emits_step. Qed.

Lemma emits_presence : emits emit_presence.
Proof. unfold emit_presence. repeat emits_step. Qed.

Lemma emits_probe_loop i l : emits (probe_loop i l).
Proof. revert i. induction l as [|b l IH]; intros i; cbn [probe_loop]; repeat emits_step. Qed.

Hint Resolve emits_probe_loop : pass.

Lemma emits_presence_probe : emits emit_presence_probe.
Proof. unfold emit_presence_probe. repeat emits_step. Qed.

Lemma emits_walk_step : emits emit_walk_step.
Proof. unfold emit_walk_step, walk_of. repeat emits_step. Qed.


(** ** Postconditions *)

(** What holds of an operation's answer and the state it leaves. *)
Definition post {A} (m : pm S A) (p : PassState) (s : S) (Q : A -> PassState -> Prop) : Prop :=
  Q (m p s).1 (m p s).2.1.

Lemma post_bind {A D} (m : pm S A) (k : A -> pm S D) p s Q :
  post m p s (fun a p' => forall s', post (k a) p' s' Q) -> post (m ≫= k) p s Q.
Proof. unfold post, mbind, pm_bind. destruct (m p s) as [a [p' s']]. cbn. intros H. apply H. Qed.

Lemma post_ret {A} (a : A) p s (Q : A -> PassState -> Prop) : Q a p -> post (mret a) p s Q.
Proof. done. Qed.

Lemma post_gets {A} (f : PassState -> A) p s (Q : A -> PassState -> Prop) : Q (f p) p -> post (gets f) p s Q.
Proof. done. Qed.

Lemma post_modify f p s (Q : unit -> PassState -> Prop) : Q tt (f p) -> post (modify f) p s Q.
Proof. done. Qed.

Lemma post_pres {A T} (f : PassState -> T) (m : pm S A) p s (Q : A -> PassState -> Prop) :
  pres f m -> (forall a p', f p' = f p -> Q a p') -> post m p s Q.
Proof. intros Hm HQ. apply HQ, Hm. Qed.

Lemma post_emits m p s (Q : option CoreRelayAction -> PassState -> Prop) :
  emits m ->
  (forall action p', asked (frame p) (frame p') -> restate p' = Some action ->
     p_store_failed p' = p_store_failed p -> Q (Some action) p') ->
  (forall p', full p' = full p -> Q None p') -> post m p s Q.
Proof.
  intros Hm H1 H2. specialize (Hm p s). unfold post. revert Hm.
  destruct (m p s).1 as [a|]; [intros (? & ? & ?); by apply H1|apply H2].
Qed.

(** ** One turn of the stage loop *)

(** Turns left: two per mailbox still to walk, one per stage. *)
Definition measure_of (stage : CoreRelayStage) (contacts configs index : nat) : nat :=
  let late := (configs - index)%nat in
  let early := (2 * contacts + 5)%nat in
  match stage with
  | PruneAndRepair => early + 6
  | Announce => early + 5
  | UploadReceipts => early + 4
  | UploadAuthored => early + 3
  | UploadCarried => early + 2
  | RewalkDecision => early + 1
  | Presence => 2 * late + 3
  | MailboxWalk => if decide (late = 0%nat) then 4 else 2 * late + 2
  | CommitEvidence => 2
  | StageFinish => 1
  end%nat.

Definition loop_measure (p : PassState) : nat :=
  measure_of (p_stage p) (length (pl_contacts (p_plan p))) (length (p_configs p)) (p_config_index p).

(** Over, with this action as its answer. *)
Definition ended (p p' : PassState) (action : CoreRelayAction) : Prop :=
  exists su, frame p' = mk_frame (p_plan p) (p_pass_id p) (p_started p) (Some su) None (p_requests_issued p)
                          (p_next_action_id p)
             /\ restate p' = Some action.

(** A request was asked for, within the budget, and is the answer. *)
Definition asked_within (p p' : PassState) (action : CoreRelayAction) : Prop :=
  p_requests_issued p < max_requests (pl_budgets (p_plan p))
  /\ asked (frame p) (frame p') /\ restate p' = Some action /\ p_store_failed p' = false.

Definition turn (p : PassState) (answer : option CoreRelayAction) (p' : PassState) : Prop :=
  match answer with
  | Some action => asked_within p p' action \/ ended p p' action
  | None => frame p' = frame p /\ (loop_measure p' < loop_measure p)%nat
            /\ (p_store_failed p' = p_store_failed p \/ p_stage p' = StageFinish)
  end.

Lemma add_contact_configs_length p configs contacts :
  (length (add_contact_configs p configs contacts) <= length configs + length contacts)%nat.
Proof.
  revert configs. induction contacts as [|c cs IH]; intros configs; cbn [add_contact_configs length]; [lia|].
  repeat case_match; try (etrans; [apply IH|]; lia).
  etrans; [apply IH|]. rewrite length_app. cbn. lia.
Qed.

Lemma walk_configs_length p : (length (walk_configs p) <= 1 + length (pl_contacts (p_plan p)))%nat.
Proof.
  unfold walk_configs. etrans; [apply add_contact_configs_length|]. destruct (pl_own (p_plan p)); cbn; lia.
Qed.

(** The pieces a turn is made of, in the form the case analysis uses them. *)
Lemma frame_eqs p p' :
  frame p' = frame p ->
  p_plan p' = p_plan p /\ p_finished p' = p_finished p /\ p_outstanding p' = p_outstanding p
  /\ p_requests_issued p' = p_requests_issued p.
Proof. unfold frame. intros [=]. done. Qed.

Lemma full_eqs p p' :
  full p' = full p ->
  frame p' = frame p /\ p_stage p' = p_stage p /\ p_config_index p' = p_config_index p
  /\ length (p_configs p') = length (p_configs p) /\ p_store_failed p' = p_store_failed p.
Proof. unfold full. intros H. split; [congruence|]. injection H. done. Qed.

Lemma cut_spec p s :
  post cut_if_over_budget p s (fun _ p' =>
    frame p' = frame p /\
    ((p' = p /\ (stage_rank (p_stage p) < 8 -> over_budget p = false))
     \/ (p_stage p' = CommitEvidence /\ stage_rank (p_stage p) < 8))).
Proof.
  unfold cut_if_over_budget. apply post_bind, post_gets. intros s'.
  destruct (_ && _) eqn:E; cbn [when].
  - apply post_modify. split; [done|]. right. bools. done.
  - apply post_ret. split; [done|]. left. split; [done|]. intros Hr.
    apply andb_false_iff in E as [E|E]; [bools; cbn in *; lia|done].
Qed.

Lemma within_budget p : over_budget p = false -> p_requests_issued p < max_requests (pl_budgets (p_plan p)).
Proof. unfold over_budget. case_match eqn:E; [done|]. intros _. bools. done. Qed.

(** The measure in the state [q], seen from [p]. *)
Lemma measure_full p q :
  full q = full p ->
  forall st, measure_of st (length (pl_contacts (p_plan q))) (length (p_configs q)) (p_config_index q)
           = measure_of st (length (pl_contacts (p_plan p))) (length (p_configs p)) (p_config_index p).
Proof.
  intros (Hfr & Hs & Hi & Hl & _)%full_eqs st. apply frame_eqs in Hfr as (Hpl & _). by rewrite Hpl, Hi, Hl.
Qed.

(** The rest of a turn that only moves on. *)
Definition moves_on (p : PassState) (m : pm S (option CoreRelayAction)) : Prop :=
  forall p' s, full p' = full p ->
    post m p' s (fun a q => a = None /\ frame q = frame p /\ (loop_measure q < loop_measure p)%nat
                            /\ p_store_failed q = p_store_failed p).

Lemma moves_turn p m s : moves_on p m -> post m p s (turn p).
Proof. intros Hm. specialize (Hm p s eq_refl). revert Hm. unfold post. intros (-> & ? & ? & ?). cbn. tauto. Qed.

(** An emitting stage: its answer, or the next stage. *)
Lemma turn_emit m k p s :
  emits m -> p_requests_issued p < max_requests (pl_budgets (p_plan p)) -> p_store_failed p = false -> moves_on p k ->
  post (action ← m; match action with Some action => mret (Some action) | None => k end) p s (turn p).
Proof.
  intros Hm Hb Hsf Hk. apply post_bind, post_emits; [done|..].
  - intros action p' Ha Hr Hs s'. apply post_ret. left. rewrite Hsf in Hs. split_and!; done.
  - intros p' Hf s'. specialize (Hk p' s' Hf). revert Hk. unfold post. intros (-> & ? & ? & ?). cbn. tauto.
Qed.

(** Moving to a later stage and loading its work. *)
Lemma moves_next p st (m : pm S unit) :
  pres full m ->
  (measure_of st (length (pl_contacts (p_plan p))) (length (p_configs p)) (p_config_index p) < loop_measure p)%nat ->
  moves_on p (set_stage st;; m;; mret None).
Proof.
  intros Hm Hlt p' s Hf. apply post_bind, post_modify. intros s'.
  apply post_bind. eapply post_pres; [exact Hm|]. intros _ q Hq s''. apply post_ret. split; [done|].
  pose proof (full_eqs _ _ Hq) as (Hfr & Hs & _ & _ & Hsf).
  pose proof (full_eqs _ _ Hf) as (Hfr' & _ & _ & _ & Hsf'). split; [rewrite Hfr; exact Hfr'|].
  split; [|rewrite Hsf; exact Hsf'].
  unfold loop_measure at 1. rewrite Hs, (measure_full _ _ Hq).
  change (p_stage (p' <| p_stage := st |>)) with st.
  change (p_plan (p' <| p_stage := st |>)) with (p_plan p').
  change (p_configs (p' <| p_stage := st |>)) with (p_configs p').
  change (p_config_index (p' <| p_stage := st |>)) with (p_config_index p').
  by rewrite (measure_full _ _ Hf).
Qed.

Lemma moves_set p st :
  (measure_of st (length (pl_contacts (p_plan p))) (length (p_configs p)) (p_config_index p) < loop_measure p)%nat ->
  moves_on p (set_stage st;; mret None).
Proof.
  intros Hlt p' s Hf. exact (moves_next p st (mret tt) (pres_ret _ _) Hlt p' s Hf).
Qed.

Lemma moves_bind {A} p (m : pm S A) k : pres full m -> (forall a, moves_on p (k a)) -> moves_on p (m ≫= k).
Proof.
  intros Hm Hk p' s Hf. apply post_bind. eapply post_pres; [exact Hm|]. intros a q Hq s'. apply Hk. by rewrite Hq.
Qed.

Lemma measure_early p : stage_rank (p_stage p) < 8 -> (2 < loop_measure p)%nat.
Proof. unfold loop_measure. destruct (p_stage p); cbn; intros; try lia. case_decide; lia. Qed.

(** Below, [lm] computes the measures of two stages. *)
Ltac lm := unfold loop_measure, measure_of;
  repeat match goal with H : p_stage _ = _ |- _ => rewrite H end; repeat case_decide; lia.

Lemma moves_commit p now : (1 < loop_measure p)%nat -> moves_on p (commit_evidence now SilenceCommit;; set_stage StageFinish;; mret None).
Proof. intros Hlt. apply moves_bind; [apply pres_commit_evidence|]. intros _. by apply moves_set. Qed.

(** A failed store leaves the pass at its last stage. *)
Definition failed_last (p : PassState) : Prop := p_store_failed p = true -> p_stage p = StageFinish.

Lemma fail_store_last p s :
  p_store_failed p = false -> post fail_store p s (fun _ q => frame q = frame p /\ p_store_failed q = true /\ p_stage q = StageFinish).
Proof. intros Hs. unfold fail_store. apply post_bind, post_gets. intros s'. rewrite Hs. by apply post_modify. Qed.

(** Announcing leaves everything in place, or the store failed and the pass is at
    its last stage. *)
Lemma run_announce_spec p s :
  p_store_failed p = false ->
  post run_announce p s (fun _ q =>
    full q = full p \/ (frame q = frame p /\ p_store_failed q = true /\ p_stage q = StageFinish)).
Proof.
  intros Hs. unfold run_announce. apply post_bind, post_gets. intros s1. destruct (negb _); [apply post_ret; by left|].
  apply post_bind. eapply (post_pres full); [apply pres_call|]. intros r q Hq s2.
  assert (forall q s, full q = full p -> post fail_store q s (fun _ q' =>
    full q' = full p \/ (frame q' = frame p /\ p_store_failed q' = true /\ p_stage q' = StageFinish))) as Hfail.
  { intros q0 s0 (Hfr & _ & _ & _ & Hs0)%full_eqs.
    pose proof (fail_store_last q0 s0 ltac:(congruence)) as Hl. revert Hl. unfold post. rewrite Hfr. tauto. }
  destruct (negb (is_ok r)); [by apply Hfail|].
  apply post_bind. eapply (post_pres full); [apply pres_call|]. intros r' q' Hq' s3.
  destruct (negb (is_ok r')); [apply Hfail; congruence|]. apply post_ret. left. congruence.
Qed.

Lemma turn_announce p s :
  p_stage p = Announce -> p_store_failed p = false ->
  post (run_announce;; failed ← gets p_store_failed;
        if (failed : bool) then mret None
        else set_stage UploadReceipts;; load_receipt_uploads;; mret None) p s (turn p).
Proof.
  intros Hst Hsf. apply post_bind. pose proof (run_announce_spec p s Hsf) as Ha. revert Ha. unfold post at 1 2.
  intros Ha s'. apply post_bind, post_gets. intros s''. destruct Ha as [Hf|(Hfr & Hs & Hfin)].
  - pose proof (full_eqs _ _ Hf) as (_ & _ & _ & _ & Hs). rewrite Hs, Hsf.
    assert (moves_on p (set_stage UploadReceipts;; load_receipt_uploads;; mret None)) as Hm
      by (apply moves_next; [apply pres_load_receipt_uploads|lm]).
    specialize (Hm _ s'' Hf). revert Hm. unfold post. intros (-> & ? & ? & ?). cbn. tauto.
  - rewrite Hs. apply post_ret. split_and!; [done| |by right].
    unfold loop_measure, measure_of. rewrite Hfin, Hst. lia.
Qed.

Lemma turn_rewalk p s :
  p_stage p = RewalkDecision ->
  post (run_rewalk_decision;; build_walk_configs;; build_presence_probes;;
        modify (fun p => p <| p_config_index := 0%nat |> <| p_stage := Presence |>);; mret None) p s (turn p).
Proof.
  intros Hst. apply post_bind. eapply (post_pres full); [unfold run_rewalk_decision; pres|]. intros _ q Hq s1.
  apply post_bind, post_modify. intros s2. apply post_bind, post_modify. intros s3.
  apply post_bind, post_modify. intros s4. apply post_ret.
  pose proof (full_eqs _ _ Hq) as (Hfr & _ & _ & _ & Hs). split_and!; [exact Hfr| |left; exact Hs].
  unfold loop_measure at 1. change (measure_of Presence (length (pl_contacts (p_plan q))) (length (walk_configs q)) 0 < loop_measure p)%nat.
  pose proof (walk_configs_length q) as Hw. apply frame_eqs in Hfr as (Hpl & _). rewrite Hpl in Hw |- *.
  unfold loop_measure. rewrite Hst. cbn. lia.
Qed.

Lemma turn_walk p s :
  p_stage p = MailboxWalk -> p_requests_issued p < max_requests (pl_budgets (p_plan p)) -> p_store_failed p = false ->
  post (action ← emit_walk_step;
        match action with
        | Some action => mret (Some action)
        | None =>
            modify (fun p => p <| p_configs_walked ::= inc_u32 |> <| p_config_index ::= (fun i => (i + 1)%nat) |>
                               <| p_stage := Presence |>);; mret None
        end) p s (turn p).
Proof.
  intros Hst Hb Hsf. apply turn_emit; [apply emits_walk_step|done|done|]. intros q s' Hq.
  apply post_bind, post_modify. intros s''. apply post_ret.
  pose proof (full_eqs _ _ Hq) as (Hfr & _ & Hi & Hl & Hs). split_and!; [done|exact Hfr| |exact Hs].
  unfold loop_measure at 1.
  change (measure_of Presence (length (pl_contacts (p_plan q))) (length (p_configs q)) (p_config_index q + 1) < loop_measure p)%nat.
  rewrite Hi, Hl. unfold loop_measure. rewrite Hst. cbn. case_decide; lia.
Qed.

Lemma turn_finish p s :
  p_finished p = None ->
  post (outcome ← gets pass_outcome; now ← gets p_now_ms; summary ← finish outcome now;
        action ← gets (fun p => finished_action p summary); mret (Some action)) p s (turn p).
Proof.
  intros Hfin. apply post_bind, post_gets. intros s1. apply post_bind, post_gets. intros s2.
  apply post_bind. unfold finish. apply post_bind, post_gets. intros s3. rewrite Hfin.
  apply post_bind, post_gets. intros s4. apply post_bind, post_modify. intros s5. apply post_ret. intros s6.
  apply post_bind, post_gets. intros s7. apply post_ret. right. eexists. split; reflexivity.
Qed.

Lemma advance_step_turn p s :
  p_finished p = None -> failed_last p -> post advance_step p s (turn p).
Proof.
  intros Hfin Hfl. unfold advance_step. apply post_bind. pose proof (cut_spec p s) as Hc. revert Hc.
  unfold post at 1 2. intros [Hfr Hc] s1. apply post_bind, post_gets. intros s2.
  destruct Hc as [[-> Hov]|[Hst Hlt]].
  - assert (stage_rank (p_stage p) < 8 -> p_store_failed p = false) as Hsf.
    { intros Hr. destruct (p_store_failed p) eqn:E; [|done]. rewrite (Hfl E) in Hr. cbn in Hr. lia. }
    assert (stage_rank (p_stage p) < 8 -> p_requests_issued p < max_requests (pl_budgets (p_plan p))) as Hb
      by (intros Hr; by apply within_budget, Hov).
    destruct (p_stage p) eqn:Hst; cbn [stage_rank] in Hsf, Hb.
    + apply moves_turn, moves_bind; [apply pres_run_prune|]. intros _. apply moves_set. lm.
    + apply turn_announce; [done|]. by apply Hsf.
    + apply turn_emit; [apply emits_next_upload|by apply Hb|by apply Hsf|]. apply moves_next; [apply pres_load_authored_uploads|lm].
    + apply turn_emit; [apply emits_next_upload|by apply Hb|by apply Hsf|]. apply moves_next; [apply pres_load_carried_uploads|lm].
    + apply turn_emit; [apply emits_next_upload|by apply Hb|by apply Hsf|]. apply moves_set. lm.
    + by apply turn_rewalk.
    + apply post_bind, post_gets. intros s3. case_bool_decide as Hp; apply turn_emit; try (by apply Hb); try (by apply Hsf).
      * apply emits_presence_probe.
      * apply moves_set. lm.
      * apply emits_presence.
      * apply moves_set. lm.
    + apply turn_walk; [done|by apply Hb|by apply Hsf].
    + apply post_bind, post_gets. intros s3. apply moves_turn, moves_commit. lm.
    + by apply turn_finish.
  - rewrite Hst. apply post_bind, post_gets. intros s3. apply post_bind.
    eapply (post_pres full); [apply pres_commit_evidence|]. intros _ q Hq s4.
    apply post_bind, post_modify. intros s5. apply post_ret.
    pose proof (full_eqs _ _ Hq) as (Hfq & _). split_and!; [|exact (Nat.lt_trans 1 2 _ ltac:(lia) (measure_early p Hlt))|by right].
    change (frame q = frame p). by rewrite Hfq.
Qed.

(** The loop's fuel suffices: it ends in a request within the budget, or in the
    end of the pass. *)
Lemma advance_loop_answers fuel p s :
  p_finished p = None -> failed_last p -> (loop_measure p <= fuel)%nat ->
  post (advance_loop fuel) p s (fun answer p' =>
    exists action, answer = Some action /\ (asked_within p p' action \/ ended p p' action)).
Proof.
  revert p s. induction fuel as [|fuel IH]; intros p s Hfin Hfl Hm.
  { exfalso. revert Hm. unfold loop_measure, measure_of. destruct (p_stage p); repeat case_decide; lia. }
  cbn [advance_loop]. apply post_bind. pose proof (advance_step_turn p s Hfin Hfl) as Ht. revert Ht.
  unfold post at 1 2. intros Ht s'. destruct (advance_step p s).1 as [action|].
  { apply post_ret. exists action. split; [done|exact Ht]. }
  destruct Ht as (Hfr & Hlt & Hs). set (q := (advance_step p s).2.1) in *.
  pose proof (frame_eqs _ _ Hfr) as (Hpl & Hf' & _ & Hrq).
  specialize (IH q s' ltac:(congruence)). revert IH. unfold post. intros IH.
  destruct IH as (action & Hans & Hact); [|lia|].
  - unfold failed_last. destruct Hs as [Hs|Hs]; [|done]. rewrite Hs. intros Hx. specialize (Hfl Hx).
    exfalso. revert Hlt. unfold loop_measure. rewrite Hfl. unfold measure_of. destruct (p_stage q); repeat case_decide; lia.
  - exists action. split; [exact Hans|]. destruct Hact as [(Hb & Ha & Hr & Hx)|(su & Hend & Hr)].
    + left. split_and!; [by rewrite <-Hrq, <-Hpl|by rewrite <-Hfr|done|done].
    + right. exists su. split; [|done]. rewrite Hend. unfold frame in Hfr. by injection Hfr as -> -> -> _ _ -> ->.
Qed.

(** ** Whole calls *)

(** The frame of a pass that is over differs in nothing else. *)
Lemma ended_frame p p' action : ended p p' action -> p_plan p' = p_plan p /\ is_Some (p_finished p')
  /\ p_outstanding p' = None /\ p_requests_issued p' = p_requests_issued p /\ p_next_action_id p' = p_next_action_id p
  /\ p_pass_id p' = p_pass_id p.
Proof. intros (su & Hf & _). unfold frame in Hf. injection Hf as -> -> _ -> -> -> ->. by eauto 10. Qed.

Lemma asked_frame p p' : asked (frame p) (frame p') ->
  p_plan p' = p_plan p /\ p_finished p' = p_finished p /\ p_started p' = p_started p
  /\ p_requests_issued p' = inc_u32 (p_requests_issued p)
  /\ p_next_action_id p' = u64_saturating_add (p_next_action_id p) 1
  /\ p_pass_id p' = p_pass_id p
  /\ exists o, p_outstanding p' = Some o /\ os_action_id o = p_next_action_id p.
Proof. intros (o & Ho & Hf). unfold frame in Hf. injection Hf as -> -> -> -> Hout -> ->. cbn in Ho. by eauto 10. Qed.

Lemma advance_fuel_enough p : (loop_measure p <= advance_fuel p)%nat.
Proof. unfold loop_measure, measure_of, advance_fuel. destruct (p_stage p); repeat case_decide; lia. Qed.

Lemma advance_answers p s :
  p_finished p = None -> p_started p = true -> p_outstanding p = None -> failed_last p ->
  post advance p s (fun answer p' =>
    exists action, answer = Some action /\ (asked_within p p' action \/ ended p p' action)).
Proof.
  intros Hf Hs Ho Hfl. unfold advance. do 3 (apply post_bind, post_gets; intros ?). rewrite Hf, Hs, Ho. cbn [negb].
  apply post_bind, post_gets. intros ?. apply advance_loop_answers; [done|done|apply advance_fuel_enough].
Qed.

(** A store failure while a result is applied leaves the pass at its last stage. *)
Definition fails_last {A} (m : pm S A) : Prop :=
  forall p s, p_store_failed p = false -> post m p s (fun _ q => failed_last q).

Lemma pres_full_failed {A} (m : pm S A) : pres full m -> pres p_store_failed m.
Proof. apply (pres_via full (fun x => x.2.2)). Qed.

Lemma fails_pres {A} (m : pm S A) : pres p_store_failed m -> fails_last m.
Proof. intros Hm p s Hp. eapply post_pres; [exact Hm|]. intros a q Hq. unfold failed_last. congruence. Qed.

Lemma fails_bind {A D} (m : pm S A) (k : A -> pm S D) :
  pres p_store_failed m -> (forall a, fails_last (k a)) -> fails_last (m ≫= k).
Proof.
  intros Hm Hk p s Hp. apply post_bind. eapply post_pres; [exact Hm|]. intros a q Hq s'. apply Hk. congruence.
Qed.

Hint Resolve pres_full_failed : pass.

Lemma apply_fails_last intent result : fails_last (apply intent result).
Proof.
  unfold apply. apply fails_bind; [pres|intros _].
  destruct (hr_error result) as [e|]; [destruct e; apply fails_pres; pres|].
  destruct (_ && _).
  - destruct intent as [u|i|i|i after lim|i c n k]; cbn [apply_success].
    + unfold apply_upload_accepted, note_contact_rejection_recovery.
      do 5 (apply fails_bind; [solve [pres]|intros ?]). apply fails_bind; [pres|intros marker].
      destruct marker as [b|]; [apply fails_pres; pres|]. intros p s Hp.
      pose proof (fail_store_last p s Hp) as Hl. revert Hl. unfold post, failed_last. tauto.
    + apply fails_pres. unfold observe_presence. pres.
    + apply fails_pres. pres.
    + apply fails_pres. unfold apply_fetch, worsen, walk_of, apply_ingested. pres.
      unfold emit. pres.
    + apply fails_pres. pres.
  - do 2 (apply fails_bind; [solve [pres]|intros ?]). case_decide; apply fails_pres; [|pres].
    unfold abort_for_rate_limit. pres.
Qed.

(** * The invariant of a pass *)

Definition request_budget (p : PassState) : Z := max_requests (pl_budgets (p_plan p)).

(** Between calls a pass is fresh, waiting for exactly one result, or over. *)
Record pass_inv (p : PassState) : Prop := {
  inv_requests : 0 <= p_requests_issued p <= request_budget p;
  inv_budget : request_budget p <= U32_MAX;
  inv_ids : p_next_action_id p = p_requests_issued p + 1;
  inv_over : is_Some (p_finished p) -> p_outstanding p = None;
  inv_live : p_finished p = None -> p_store_failed p = false /\
    match p_outstanding p with
    | Some o => p_started p = true /\ os_action_id o = p_requests_issued p
    | None => p_started p = false /\ p_requests_issued p = 0
    end;
}.

Lemma new_pass_inv plan id : in_u32 (max_requests (pl_budgets plan)) -> pass_inv (new_pass plan id).
Proof. intros H. split; try done; cbn; unfold request_budget; cbn; ints. Qed.

(** The state after asking: one more request, and it is the one waited for. *)
Lemma asked_inv p p' :
  0 <= p_requests_issued p -> p_requests_issued p < request_budget p -> request_budget p <= U32_MAX ->
  p_next_action_id p = p_requests_issued p + 1 ->
  p_finished p = None -> p_started p = true -> p_store_failed p' = false ->
  asked (frame p) (frame p') -> pass_inv p' /\ p_requests_issued p' = p_requests_issued p + 1 /\ p_plan p' = p_plan p.
Proof.
  intros H0 Hb Hm Hn Hf Hs Hsf (Hpl & Hf' & Hs' & Hr & Hn' & _ & o & Ho & Hid)%asked_frame.
  assert (p_requests_issued p' = p_requests_issued p + 1) as Hr' by (rewrite Hr; unfold inc_u32; ints).
  split; [|done]. unfold request_budget in *. split; unfold request_budget; rewrite ?Hpl.
  - lia.
  - done.
  - rewrite Hn', Hr', Hn. ints.
  - rewrite Hf', Hf. by intros [? [=]].
  - intros _. rewrite Ho. split_and!; [done|congruence|]. by rewrite Hr', Hid, Hn.
Qed.

Lemma ended_inv p p' action :
  0 <= p_requests_issued p <= request_budget p -> request_budget p <= U32_MAX ->
  p_next_action_id p = p_requests_issued p + 1 ->
  ended p p' action -> pass_inv p' /\ is_Some (p_finished p') /\ p_plan p' = p_plan p.
Proof.
  intros H0 Hm Hn (Hpl & Hf & Ho & Hr & Hn' & _)%ended_frame. split; [|done].
  unfold request_budget in *. split; unfold request_budget; rewrite ?Hpl, ?Hr, ?Hn'; try done.
  intros Hx. destruct Hf as [su Hf]. congruence.
Qed.

(** What a call that makes progress leaves: over, or one request on. *)
Definition progressed (p p' : PassState) : Prop :=
  pass_inv p' /\ p_plan p' = p_plan p
  /\ (is_Some (p_finished p') \/ p_requests_issued p' = p_requests_issued p + 1).

Lemma advance_progress p s :
  0 <= p_requests_issued p <= request_budget p -> request_budget p <= U32_MAX ->
  p_next_action_id p = p_requests_issued p + 1 ->
  p_finished p = None -> p_started p = true -> p_outstanding p = None -> failed_last p ->
  post advance p s (fun answer p' => is_Some answer /\ progressed p p').
Proof.
  intros H0 Hm Hn Hf Hs Ho Hfl. pose proof (advance_answers p s Hf Hs Ho Hfl) as Ha. revert Ha. unfold post.
  intros (action & -> & [(Hb & Hask & _ & Hsf)|Hend]); (split; [by eauto|]).
  - destruct (asked_inv _ _ (proj1 H0) Hb Hm Hn Hf Hs Hsf Hask) as (? & ? & ?). split_and!; [done..|by right].
  - destruct (ended_inv _ _ _ H0 Hm Hn Hend) as (? & ? & ?). split_and!; [done..|by left].
Qed.

(** ** A result the pass is waiting for *)

Lemma resume_matching result p s :
  pass_inv p -> p_finished p = None -> result_matches p result = true ->
  post (resume_http result) p s (fun answer p' => is_Some answer /\ progressed p p').
Proof.
  intros Hi Hf Hma. destruct Hi as [H0 Hm Hn _ Hlive]. destruct (Hlive Hf) as [Hsf Ho]. clear Hlive.
  unfold resume_http. apply post_bind, post_gets. intros s1. rewrite Hf.
  apply post_bind, post_gets. intros s2. rewrite Hma. cbn [negb]. apply post_bind, post_gets. intros s3.
  apply post_bind, post_modify. intros s4. unfold result_matches in Hma.
  destruct (p_outstanding p) as [o|] eqn:Hout; [|done]. destruct Ho as [Hst Hid].
  match goal with |- post _ ?q _ _ => set (q1 := q) end.
  assert (frame q1 = mk_frame (p_plan p) (p_pass_id p) (p_started p) (p_finished p) None (p_requests_issued p) (p_next_action_id p)
          /\ p_store_failed q1 = false) as [Hq1 Hsf1] by (split; [reflexivity|exact Hsf]).
  clearbody q1. unfold frame in Hq1. injection Hq1 as Hpl Hpid Hst1 Hfin1 Hout1 Hr1 Hn1.
  apply post_bind. pose proof (apply_within (os_intent o) result q1 s4) as Hw.
  pose proof (apply_fails_last (os_intent o) result q1 s4 Hsf1) as Hfl. revert Hw Hfl. unfold post at 1 2.
  generalize (apply (os_intent o) result q1 s4).2.1. intros q2 Hw Hfl s5.
  destruct Hw as [Hfr|(Hb & Hask & Hsf2)].
  - unfold frame in Hfr. injection Hfr as Hpl2 Hpid2 Hst2 Hfin2 Hout2 Hr2 Hn2.
    unfold request_budget in *.
    assert (post advance q2 s5 (fun answer p' => is_Some answer /\ progressed q2 p')) as Hadv.
    { apply advance_progress; unfold request_budget; rewrite ?Hpl2, ?Hpl, ?Hr2, ?Hr1, ?Hn2, ?Hn1; congruence || done. }
    revert Hadv. unfold post, progressed. rewrite Hpl2, Hpl, Hr2, Hr1. done.
  - assert (p_requests_issued q1 < request_budget q1) as Hb' by exact Hb.
    assert (0 <= p_requests_issued q1) as H01 by (rewrite Hr1; lia).
    assert (request_budget q1 <= U32_MAX) as Hm1 by (unfold request_budget in *; by rewrite Hpl).
    destruct (asked_inv q1 q2 H01 Hb' Hm1) as (Hi2 & Hr2 & Hpl2); [congruence..|done|].
    pose proof (asked_frame _ _ Hask) as (_ & Hf2 & Hst2 & _ & _ & _ & o2 & Ho2 & _).
    unfold advance. do 3 (apply post_bind, post_gets; intros ?). rewrite Hf2, Hfin1, Hf, Hst2, Hst1, Hst, Ho2. cbn [negb].
    apply post_gets. unfold restate. rewrite Ho2. split; [by eauto|].
    split_and!; [done|congruence|right; lia].
Qed.

(** ** The other calls *)

Lemma restate_live p : pass_inv p -> p_started p = true -> is_Some (restate p).
Proof.
  intros [_ _ _ _ Hl] Hs. unfold restate. destruct (p_outstanding p) as [o|] eqn:Ho; [by eauto|].
  destruct (p_finished p) as [su|] eqn:Hf; [by eauto|]. destruct (Hl eq_refl) as [_ [Hx _]]. congruence.
Qed.

Lemma restate_finished p : is_Some (p_finished p) -> is_Some (restate p).
Proof. intros [su Hf]. unfold restate. destruct (p_outstanding p); [by eauto|]. rewrite Hf. by eauto. Qed.

Lemma restate_or_advance_same p s a : restate p = Some a -> restate_or_advance p s = (Some a, (p, s)).
Proof. intros Hr. unfold restate_or_advance, mbind, pm_bind, gets. by rewrite Hr. Qed.

Lemma finish_frame outcome now p s :
  p_finished p = None ->
  post (finish outcome now) p s (fun _ q => exists su, frame q =
    mk_frame (p_plan p) (p_pass_id p) (p_started p) (Some su) None (p_requests_issued p) (p_next_action_id p)).
Proof.
  intros Hf. unfold finish. apply post_bind, post_gets. intros s1. rewrite Hf.
  apply post_bind, post_gets. intros s2. apply post_bind, post_modify. intros s3. apply post_ret. by eexists.
Qed.

Lemma over_inv p q su :
  0 <= p_requests_issued p <= request_budget p -> request_budget p <= U32_MAX ->
  p_next_action_id p = p_requests_issued p + 1 ->
  frame q = mk_frame (p_plan p) (p_pass_id p) (p_started p) (Some su) None (p_requests_issued p) (p_next_action_id p) ->
  pass_inv q /\ is_Some (p_finished q) /\ p_plan q = p_plan p.
Proof.
  intros H0 Hm Hn Hf. unfold frame in Hf. injection Hf as Hpl Hpid Hst Hfin Hout Hr Hnx. split; [|by eauto].
  unfold request_budget in *. split; unfold request_budget; rewrite ?Hpl, ?Hr, ?Hnx; try done. congruence.
Qed.

Lemma start_fresh now p s :
  pass_inv p -> p_finished p = None -> p_started p = false ->
  post (start now) p s (fun answer p' => is_Some answer /\ progressed p p').
Proof.
  intros Hi Hf Hs. pose proof Hi as [H0 Hm Hn _ Hl]. destruct (Hl Hf) as [Hsf Ho]. clear Hl.
  unfold start. apply post_bind, post_gets. intros s1. rewrite Hs.
  rewrite (bool_decide_eq_false_2 (is_Some (p_finished p))) by (rewrite Hf; by intros [? [=]]). cbn [orb].
  assert (p_outstanding p = None) as Ho'.
  { destruct (p_outstanding p); [|done]. destruct Ho as [? _]; congruence. }
  apply post_bind, post_modify. intros s2. apply post_bind, post_gets. intros s3.
  match goal with |- post _ ?q _ _ => set (q1 := q) end.
  assert (frame q1 = mk_frame (p_plan p) (p_pass_id p) true None None (p_requests_issued p) (p_next_action_id p)
          /\ p_store_failed q1 = false) as [Hq1 Hsf1].
  { split; [|exact Hsf]. unfold frame. rewrite <-Hf, <-Ho'. reflexivity. }
  clearbody q1. unfold frame in Hq1. injection Hq1 as Hpl Hpid Hst1 Hfin1 Hout1 Hr1 Hn1.
  destruct (now <? _).
  - apply post_bind, post_modify. intros s4. apply post_bind.
    match goal with |- post _ ?q _ _ => set (q2 := q) end.
    assert (p_requests_issued q2 = p_requests_issued p /\ p_plan q2 = p_plan p /\ p_finished q2 = None
            /\ p_next_action_id q2 = p_next_action_id p) as (Hr2 & Hpl2 & Hf2 & Hn2) by (split_and!; assumption).
    clearbody q2. pose proof (finish_frame PassRefusedQuietWindow now q2 s4 Hf2) as Hfin. revert Hfin. unfold post at 1 2.
    intros [su Hfin] s5. apply post_ret. split; [by eauto|].
    edestruct (over_inv q2) as (Hi2 & Hs2 & Hp2); [..|exact Hfin|].
    + unfold request_budget in *. by rewrite Hpl2, Hr2.
    + unfold request_budget in *. by rewrite Hpl2.
    + by rewrite Hr2, Hn2.
    + split_and!; [done|congruence|by left].
  - assert (post advance q1 s3 (fun answer p' => is_Some answer /\ progressed q1 p')) as Ha.
    { apply advance_progress; unfold request_budget in *; rewrite ?Hpl, ?Hr1, ?Hn1; try done.
      unfold failed_last. congruence. }
    revert Ha. unfold post, progressed. rewrite Hpl, Hr1. done.
Qed.

(** ** Any sequence of calls *)

Inductive pass_call : Type :=
| CallStart (now_ms : Z)
| CallResume (result : CoreRelayHttpResult)
| CallCancel (now_ms : Z)
| CallTake.

Definition answered {A} (o : option A) : bool := match o with Some _ => true | None => false end.

(** One call: whether it answered (that is, ended), and the state and store it
    leaves. *)
Definition pass_step (c : pass_call) : pm S bool :=
  match c with
  | CallStart now => answer ← start now; mret (answered answer)
  | CallResume result => answer ← resume_http result; mret (answered answer)
  | CallCancel now => cancel now;; mret true
  | CallTake => take_projection;; mret true
  end.

Fixpoint pass_run (calls : list pass_call) : pm S bool :=
  match calls with
  | [] => mret true
  | c :: calls' => ok ← pass_step c; rest ← pass_run calls'; mret (ok && rest)
  end.

Lemma answered_some {A} (o : option A) : is_Some o -> answered o = true.
Proof. by intros [x ->]. Qed.

(** A result nobody waits for. *)
Lemma resume_stale result p s :
  pass_inv p -> p_finished p = None -> p_started p = true -> result_matches p result = false ->
  exists a, restate p = Some a /\
    resume_http result p s = (Some a, (p <| p_stale_results_ignored ::= inc_u32 |>, s)).
Proof.
  intros Hi Hf Hs Hm. destruct (restate_live p Hi Hs) as [a Ha]. exists a. split; [done|].
  unfold resume_http. unfold mbind at 1, pm_bind at 1, gets at 1. rewrite Hf.
  unfold mbind at 1, pm_bind at 1, gets at 1. rewrite Hm. cbn [negb].
  unfold mbind at 1, pm_bind at 1, modify at 1. unfold mbind at 1, pm_bind at 1, gets at 1.
  change (p_started (p <| p_stale_results_ignored ::= inc_u32 |>)) with (p_started p). rewrite Hs. cbn [negb].
  apply restate_or_advance_same. rewrite <-Ha. reflexivity.
Qed.

Lemma stale_inv p : pass_inv p -> pass_inv (p <| p_stale_results_ignored ::= inc_u32 |>).
Proof. intros [H0 Hm Hn Ho Hl]. split; assumption. Qed.

Lemma resume_finished result p s su :
  p_finished p = Some su ->
  exists su', su' = su <| su_stale_results_ignored := inc_u32 (p_stale_results_ignored p) |> /\
    resume_http result p s
    = (Some (mk_action (su_pass_id su) 0 StageFinish (KindFinished su')),
       (p <| p_stale_results_ignored ::= inc_u32 |> <| p_finished := Some su' |>, s)).
Proof.
  intros Hf. eexists. split; [reflexivity|]. unfold resume_http.
  unfold mbind at 1, pm_bind at 1, gets at 1. rewrite Hf.
  unfold mbind at 1, pm_bind at 1, modify at 1. unfold mbind at 1, pm_bind at 1, modify at 1, gets.
  destruct p. cbn in Hf. subst. reflexivity.
Qed.

Lemma start_again now p s :
  bool_decide (is_Some (p_finished p)) || p_started p = true -> start now p s = restate_or_advance p s.
Proof. intros H. unfold start. unfold mbind at 1, pm_bind at 1, gets at 1. by rewrite H. Qed.

Lemma cancel_again now p s su : p_finished p = Some su -> cancel now p s = (su, (p, s)).
Proof. intros H. unfold cancel. unfold mbind at 1, pm_bind at 1, gets at 1. by rewrite H. Qed.

Lemma resume_unstarted result p s :
  p_finished p = None -> p_started p = false -> result_matches p result = false ->
  resume_http result p s = (Some (mk_action (p_pass_id p) 0 (p_stage p) KindNotStarted),
                            (p <| p_stale_results_ignored ::= inc_u32 |>, s)).
Proof.
  intros Hf Hs Hm. unfold resume_http. unfold mbind at 1, pm_bind at 1, gets at 1. rewrite Hf.
  unfold mbind at 1, pm_bind at 1, gets at 1. rewrite Hm. cbn [negb].
  unfold mbind at 1, pm_bind at 1, modify at 1. unfold mbind at 1, pm_bind at 1, gets at 1.
  change (p_started (p <| p_stale_results_ignored ::= inc_u32 |>)) with (p_started p). rewrite Hs. reflexivity.
Qed.

Lemma pass_step_ok c p s :
  pass_inv p ->
  post (pass_step c) p s (fun ok q =>
    ok = true /\ pass_inv q /\ p_plan q = p_plan p /\
    (is_Some (p_finished p) -> is_Some (p_finished q) /\ p_requests_issued q = p_requests_issued p)).
Proof.
  intros Hi. destruct c as [now|result|now|]; cbn [pass_step]; apply post_bind.
  - destruct (p_started p || bool_decide (is_Some (p_finished p))) eqn:Hag.
    + assert (is_Some (restate p)) as [a Ha].
      { apply orb_true_iff in Hag as [Hag|Hag]; [by apply restate_live|bools; by apply restate_finished]. }
      rewrite orb_comm in Hag. unfold post at 1. rewrite (start_again now p s Hag), (restate_or_advance_same _ _ _ Ha).
      intros s'. by split_and!.
    + bools. pose proof (start_fresh now p s Hi ltac:(destruct (p_finished p); [exfalso; eauto|done]) ltac:(done)) as Hst.
      revert Hst. unfold post. intros [Ha (Hq & Hpl & _)] s'. cbn. split_and!; [by apply answered_some|done..|done].
  - destruct (p_finished p) as [su|] eqn:Hf.
    + destruct (resume_finished result p s su Hf) as (su' & _ & He). unfold post at 1. rewrite He.
      intros s'. split_and!; [done| |done|intros _; split; [by eexists|done]].
      destruct Hi as [H0 Hm Hn Ho Hl]. split; try assumption; [|done]. intros _. apply Ho. by rewrite Hf.
    + destruct (result_matches p result) eqn:Hm.
      * pose proof (resume_matching result p s Hi Hf Hm) as Hst. revert Hst. unfold post.
        intros [Ha (Hq & Hpl & _)] s'. cbn. split_and!; [by apply answered_some|done..|by intros [? [=]]].
      * destruct (p_started p) eqn:Hs.
        { destruct (resume_stale result p s Hi Hf Hs Hm) as (a & _ & He). unfold post at 1. rewrite He. intros s'.
          split_and!; [done|by apply stale_inv|done|by intros [? [=]]]. }
        unfold post at 1. rewrite (resume_unstarted result p s Hf Hs Hm).
        intros s'. split_and!; [done|by apply stale_inv|done|by intros [? [=]]].
  - destruct (p_finished p) as [su|] eqn:Hf.
    + unfold post at 1. rewrite (cancel_again now p s su Hf). intros s'. rewrite <-Hf. by split_and!.
    + unfold cancel. apply post_bind, post_gets. intros s1. rewrite Hf.
      apply post_bind, post_modify. intros s2. apply post_bind, post_gets. intros s3.
      apply post_bind. eapply (post_pres full); [apply pres_commit_evidence|]. intros _ q Hq s4.
      apply full_eqs in Hq as (Hq & _). unfold frame in Hq. injection Hq as Hpl Hpid Hst Hfin Hout Hr Hn.
      assert (p_finished q = None) as Hfq by (rewrite Hfin; exact Hf). clear Hfin.
      assert (p_plan q = p_plan p) as Hpl' by exact Hpl.
      assert (p_requests_issued q = p_requests_issued p) as Hr' by exact Hr.
      assert (p_next_action_id q = p_next_action_id p) as Hn' by exact Hn.
      pose proof (finish_frame PassCancelled (p_now_ms (p <| p_now_ms ::= Z.max now |>)) q s4 Hfq) as Hfin.
      revert Hfin. unfold post at 1 2. intros [su Hfin] s5. apply post_ret.
      destruct Hi as [H0 Hm Hni _ _]. edestruct (over_inv q) as (Hi2 & Hs2 & Hp2); [..|exact Hfin|].
      * unfold request_budget in *. by rewrite Hpl', Hr'.
      * unfold request_budget in *. by rewrite Hpl'.
      * by rewrite Hr', Hn'.
      * split_and!; [done|done|exact (eq_trans Hp2 Hpl')|by intros [? [=]]].
  - apply post_bind, post_gets. intros s1. apply post_bind, post_modify. intros s2. apply post_ret. intros s3.
    apply post_ret. split_and!; [done| |done|done]. destruct Hi as [H0 Hm Hn Ho Hl]. split; assumption.
Qed.

Lemma pass_run_ok calls p s :
  pass_inv p ->
  post (pass_run calls) p s (fun ok q => ok = true /\ pass_inv q /\ p_plan q = p_plan p).
Proof.
  revert p s. induction calls as [|c calls IH]; intros p s Hi; cbn [pass_run]; [by apply post_ret|].
  apply post_bind. pose proof (pass_step_ok c p s Hi) as Hc. revert Hc. unfold post at 1 2.
  intros (-> & Hi' & Hpl & _) s'. apply post_bind. pose proof (IH _ s' Hi') as Hr. revert Hr. unfold post at 1 2.
  intros (-> & Hi'' & Hpl') s''. apply post_ret. split_and!; [done|done|congruence].
Qed.

(** C21: whatever the store and the relays answer, and in whatever order the calls
    come, results repeated or forged included: every call of a pass returns, a pass
    never issues more requests than its budget, acknowledgements included, and
    between calls it is fresh, over, or waiting for exactly one result, its last
    request's. *)
Theorem pass_stays_within_budget plan id s calls :
  in_u32 (max_requests (pl_budgets plan)) ->
  post (pass_run calls) (new_pass plan id) s (fun returned p =>
    returned = true
    /\ 0 <= p_requests_issued p <= max_requests (pl_budgets plan)
    /\ match p_finished p, p_outstanding p with
       | Some _, o => o = None
       | None, Some o => p_started p = true /\ os_action_id o = p_requests_issued p
       | None, None => p_started p = false /\ p_requests_issued p = 0
       end).
Proof.
  intros Hb. pose proof (pass_run_ok calls _ s (new_pass_inv plan id Hb)) as Hr. revert Hr. unfold post.
  intros (-> & [H0 _ _ Ho Hl] & Hpl). unfold request_budget in H0. rewrite Hpl in H0. split_and!; [done|apply H0..|].
  destruct (p_finished _) as [su|]; [by apply Ho; eauto|]. destruct (Hl eq_refl) as [_ Hl'].
  destruct (p_outstanding _); done.
Qed.

(** What a driver observed, whatever it was. *)
Record reply : Type := mk_reply {
  rl_status : Z;
  rl_headers : list CoreRelayHeader;
  rl_body : bytes;
  rl_error : option CoreRelayTransportError;
  rl_completed_at_ms : Z;
}.

(** The driver's answer to the request the pass waits for. *)
Definition reply_to (r : reply) (p : PassState) : CoreRelayHttpResult :=
  mk_http_result (p_pass_id p) (match p_outstanding p with Some o => os_action_id o | None => 0 end)
    (rl_status r) (rl_headers r) (rl_body r) (rl_error r) (rl_completed_at_ms r).

Definition answer_with (r : reply) : pm S unit :=
  result ← gets (reply_to r);
  resume_http result;; mret tt.

Lemma answer_with_ok r p s k :
  pass_inv p -> (is_Some (p_finished p) \/ (k <= p_requests_issued p /\ is_Some (p_outstanding p))) ->
  post (answer_with r) p s (fun _ q => pass_inv q /\ p_plan q = p_plan p /\
    (is_Some (p_finished q) \/ (k + 1 <= p_requests_issued q /\ is_Some (p_outstanding q)))).
Proof.
  intros Hi Hk. unfold answer_with. apply post_bind, post_gets. intros s1. apply post_bind.
  destruct (p_finished p) as [su|] eqn:Hf.
  - pose proof (pass_step_ok (CallResume (reply_to r p)) p s1 Hi) as Hs. revert Hs. unfold post, pass_step.
    unfold mbind, pm_bind. destruct (resume_http (reply_to r p) p s1) as [a [q s2]]. cbn.
    intros (_ & Hq & Hpl & Hover) s'. split_and!; [done|done|]. left. apply Hover. rewrite Hf. by eauto.
  - destruct Hk as [[? [=]]|[Hk [o Ho]]].
    assert (result_matches p (reply_to r p) = true) as Hm.
    { unfold result_matches, reply_to. rewrite Ho. cbn. rewrite Z.eqb_refl. cbn. by apply bool_decide_eq_true. }
    pose proof (resume_matching (reply_to r p) p s1 Hi Hf Hm) as Hr. revert Hr. unfold post at 1 2.
    intros (_ & Hq & Hpl & Hpr) s'. apply post_ret. split_and!; [done|done|].
    set (q := (resume_http (reply_to r p) p s1).2.1) in *. clearbody q.
    destruct Hpr as [?|Hr]; [by left|]. destruct (p_finished q) as [su|] eqn:Hf'; [left; by eauto|].
    right. split; [lia|]. destruct Hq as [H0 _ _ _ Hl]. destruct (Hl Hf') as [_ Hx].
    destruct (p_outstanding q) as [o'|]; [by eauto|]. destruct Hi as [H0' _ _ _ _]. lia.
Qed.

Lemma answer_all_ok replies p s k :
  pass_inv p -> (is_Some (p_finished p) \/ (k <= p_requests_issued p /\ is_Some (p_outstanding p))) ->
  post (for_each replies answer_with) p s (fun _ q => pass_inv q /\ p_plan q = p_plan p /\
    (is_Some (p_finished q) \/ k + blen replies <= p_requests_issued q)).
Proof.
  revert p s k. induction replies as [|r replies IH]; intros p s k Hi Hk; cbn [for_each].
  - apply post_ret. split_and!; [done|done|]. destruct Hk as [?|[? _]]; [by left|right]. rewrite blen_nil. lia.
  - apply post_bind. pose proof (answer_with_ok r p s k Hi Hk) as Ha. revert Ha. unfold post at 1 2.
    intros (Hi' & Hpl & Hk') s'. pose proof (IH _ s' _ Hi' Hk') as Hr. revert Hr. unfold post.
    intros (Hi'' & Hpl' & Hk''). split_and!; [done|congruence|]. rewrite blen_cons. destruct Hk''; [by left|right; lia].
Qed.

(** C22: a pass ends.  Started and then answered, with anything at all, it is over
    after at most as many answers as its request budget, whatever the store does. *)
Theorem pass_terminates plan id s now replies :
  in_u32 (max_requests (pl_budgets plan)) ->
  max_requests (pl_budgets plan) <= blen replies ->
  post (start now;; for_each replies answer_with) (new_pass plan id) s (fun _ p => is_Some (p_finished p)).
Proof.
  intros Hb Hlen. pose proof (new_pass_inv plan id Hb) as Hi.
  apply post_bind. pose proof (start_fresh now _ s Hi eq_refl eq_refl) as Hs. revert Hs. unfold post at 1 2.
  intros (_ & Hq & Hpl & Hpr) s'. set (q := (start now (new_pass plan id) s).2.1) in *. clearbody q.
  assert (is_Some (p_finished q) \/ (1 <= p_requests_issued q /\ is_Some (p_outstanding q))) as Hk.
  { destruct Hpr as [?|Hr]; [by left|]. destruct (p_finished q) as [su|] eqn:Hf; [by left; eauto|].
    right. cbn in Hr. split; [lia|]. destruct Hq as [_ _ _ _ Hl]. destruct (Hl Hf) as [_ Hx].
    destruct (p_outstanding q); [by eauto|lia]. }
  pose proof (answer_all_ok replies q s' 1 Hq Hk) as Hr. revert Hr. unfold post.
  intros ([H0 _ _ _ _] & Hpl' & [Hf|Hr]); [done|]. unfold request_budget in H0.
  rewrite Hpl', Hpl in H0. cbn in H0. lia.
Qed.

(** A result the pass is not waiting for, a duplicate, an earlier pass's or a
    forged one, changes nothing: the store is untouched, the pass repeats the request
    it is waiting on, and only the count of ignored results moves; and once a pass is
    over, no result, start or cancellation changes the store or anything of the
    summary but that count. *)
Theorem stale_results_change_nothing plan id s calls :
  in_u32 (max_requests (pl_budgets plan)) ->
  post (pass_run calls) (new_pass plan id) s (fun _ p =>
    (forall result s', p_finished p = None -> p_started p = true -> result_matches p result = false ->
       exists a, restate p = Some a /\
         resume_http result p s' = (Some a, (p <| p_stale_results_ignored ::= inc_u32 |>, s')))
    /\ (forall su s', p_finished p = Some su ->
        (forall result, (resume_http result p s').2 =
           (p <| p_stale_results_ignored ::= inc_u32 |>
              <| p_finished := Some (su <| su_stale_results_ignored := inc_u32 (p_stale_results_ignored p) |>) |>, s'))
        /\ (forall now, start now p s' = (Some (finished_action p su), (p, s')))
        /\ (forall now, cancel now p s' = (su, (p, s'))))).
Proof.
  intros Hb. pose proof (pass_run_ok calls _ s (new_pass_inv plan id Hb)) as Hr. revert Hr. unfold post.
  intros (_ & Hi & _). set (p := (pass_run calls (new_pass plan id) s).2.1) in *. clearbody p.
  split; [intros; by apply resume_stale|]. intros su s' Hf. split_and!.
  - intros result. destruct (resume_finished result p s' su Hf) as (su' & -> & ->). done.
  - intros now. rewrite start_again by (rewrite Hf; done). apply restate_or_advance_same.
    unfold restate. rewrite (inv_over _ Hi), Hf by (rewrite Hf; eauto). done.
  - intros now. by apply cancel_again.
Qed.

(** ** A rate limit *)

(** What decides how a refused pass ends. *)
Definition verdict (p : PassState) : pass_frame * (bool * bool * bool) * (Z * Z * CoreRelayStage) :=
  (frame p, (p_store_failed p, p_cancelled p, p_rate_limited p), (p_quiet_until_ms p, p_now_ms p, p_stage p)).

Lemma pres_verdict_config i f : pres verdict (on_config (S := S) i f).
Proof. apply pres_modify. reflexivity. Qed.

Hint Resolve pres_verdict_config : pass.

Lemma pres_verdict_hold i : pres verdict (hold_frontier_if_ack_failed i).
Proof. unfold hold_frontier_if_ack_failed, commit_page, walk_of, on_walk. pres. Qed.

Lemma pres_verdict_fold i f : pres verdict (fold_fault (S := S) i f).
Proof. unfold fold_fault, worsen. pres. Qed.

Lemma pres_verdict_evidence now e : pres verdict (commit_evidence now e).
Proof. unfold commit_evidence. pres. Qed.

Lemma outcome_limited p :
  p_store_failed p = false -> p_rate_limited p = true ->
  pass_outcome p = if p_cancelled p then PassCancelled else PassRateLimited.
Proof. intros H1 H2. unfold pass_outcome. by rewrite H1, H2. Qed.

(** From stage 8 the loop commits the evidence, writes the summary and stops. *)
Lemma commits_and_finishes p s :
  p_finished p = None -> p_started p = true -> p_outstanding p = None -> p_stage p = CommitEvidence ->
  post advance p s (fun answer q => exists su,
    answer = Some (finished_action q su) /\ p_finished q = Some su /\ su_requests_issued su = p_requests_issued p
    /\ su_quiet_until_ms su = p_quiet_until_ms p
    /\ (p_store_failed p = false -> p_rate_limited p = true ->
        su_outcome su = if p_cancelled p then PassCancelled else PassRateLimited)).
Proof.
  intros Hf Hs Ho Hst. unfold advance. do 3 (apply post_bind, post_gets; intros ?). rewrite Hf, Hs, Ho. cbn [negb].
  apply post_bind, post_gets. intros s1. unfold advance_fuel. rewrite Nat.add_comm. cbn [Nat.add advance_loop].
  apply post_bind. unfold advance_step at 1. apply post_bind. unfold cut_if_over_budget.
  apply post_bind, post_gets. intros s2. rewrite Hst. cbn [stage_rank Z.ltb Z.compare andb when].
  apply post_ret. intros s3. apply post_bind, post_gets. intros s4. rewrite Hst. apply post_bind, post_gets. intros s5.
  apply post_bind, (post_pres verdict _ _ _ _ (pres_verdict_evidence _ _)). intros _ q Hq s6.
  unfold verdict, frame in Hq. injection Hq as Hpl Hpid Hstd Hfin Hout Hr Hn Hsf Hca Hrl Hqu Hnow Hstage.
  apply post_bind, post_modify. intros s7. apply post_ret. intros s8. apply post_bind. unfold advance_step at 1.
  apply post_bind. unfold cut_if_over_budget. apply post_bind, post_gets. intros s9.
  cbn [stage_rank Z.ltb Z.compare andb when p_stage]. apply post_ret. intros s10. apply post_bind, post_gets. intros s11.
  cbn [p_stage]. apply post_bind, post_gets. intros s12. apply post_bind, post_gets. intros s13. apply post_bind.
  unfold finish. apply post_bind, post_gets. intros s14. 
  match goal with |- post (match ?x with _ => _ end) _ _ _ => change x with (p_finished q) end. rewrite Hfin, Hf.
  apply post_bind, post_gets. intros s15. apply post_bind, post_modify. intros s16. apply post_ret. intros s17.
  apply post_bind, post_gets. intros s18. apply post_ret. intros s19. apply post_ret. eexists. split_and!; [reflexivity|reflexivity|..].
  - exact Hr.
  - exact Hqu.
  - intros Hsf0 Hrl0. rewrite <- Hca.
    etransitivity; [apply outcome_limited; [exact (eq_trans Hsf Hsf0)|exact (eq_trans Hrl Hrl0)]|reflexivity].
Qed.

(** The error path of a refusal.  A pass that is told it asks too often (a 429, or
    the relay's own code for it) stops there: it forms no further request, it is over
    with that outcome (or as cancelled, if it already was), and the window in which no
    pass may start runs at least as long as the back-off rule says, counted from the
    answer, never shorter than one already set. *)
Theorem rate_limit_ends_pass plan id s calls :
  in_u32 (max_requests (pl_budgets plan)) ->
  post (pass_run calls) (new_pass plan id) s (fun _ p => forall result s',
    p_finished p = None -> result_matches p result = true -> hr_error result = None ->
    ~ 200 <= hr_status result < 300 ->
    relay_classify_http_error (hr_status result) (relay_error_code (hr_body result)) = RateLimited ->
    post (resume_http result) p s' (fun answer q => exists su,
      answer = Some (finished_action q su) /\ p_finished q = Some su
      /\ su_outcome su = (if p_cancelled p then PassCancelled else PassRateLimited)
      /\ su_requests_issued su = p_requests_issued p
      /\ let delay := core_family_relay_backoff_delay_ms
                        (relay_retry_after_ms (header_value (hr_headers result) CRLF_RETRY_AFTER))
                        (u32_saturating_add (pl_consecutive_rate_limits plan) 1)
                        (core_family_relay_jitter_ms (pl_own_user_id plan)) in
         su_quiet_until_ms su
         = Z.max (i64_saturating_add (Z.max (hr_completed_at_ms result) (p_now_ms p)) (Z.min delay I64_MAX))
             (p_quiet_until_ms p))).
Proof.
  intros Hb. pose proof (pass_run_ok calls _ s (new_pass_inv plan id Hb)) as Hr. revert Hr. unfold post at 1 2.
  intros (_ & Hi & Hplan). set (p := (pass_run calls (new_pass plan id) s).2.1) in *. clearbody p.
  intros result s' Hf Hma Herr Hstat Hcl. destruct Hi as [_ _ _ _ Hl]. destruct (Hl Hf) as [Hsf Ho]. clear Hl.
  unfold resume_http. apply post_bind, post_gets. intros s1. rewrite Hf.
  apply post_bind, post_gets. intros s2. rewrite Hma. cbn [negb]. apply post_bind, post_gets. intros s3.
  apply post_bind, post_modify. intros s4. unfold result_matches in Hma.
  destruct (p_outstanding p) as [o|] eqn:Hout; [|done]. destruct Ho as [Hst _]. apply post_bind.
  unfold apply. apply post_bind, post_modify. intros s5. rewrite Herr.
  rewrite (proj2 (andb_false_iff (200 <=? hr_status result) (hr_status result <? 300))) by lia.
  rewrite Hcl. apply post_bind, (post_pres verdict _ _ _ _ (pres_verdict_fold _ _)). intros _ q1 Hq1 s6.
  apply post_bind, (post_pres verdict _ _ _ _ (pres_verdict_hold _)). intros _ q2 Hq2 s7. rewrite <- Hq2 in Hq1. clear q1 Hq2.
  unfold verdict, frame in Hq1. injection Hq1 as Hpl Hpid Hstd Hfin Hout2 Hrq Hn Hsf2 Hca Hrl Hqu Hnow Hstage.
  rewrite decide_True by done. unfold abort_for_rate_limit. apply post_bind, post_modify. intros s8.
  do 2 (apply post_bind, post_gets; intros ?). apply post_bind, post_modify. intros s9. apply post_modify. intros s10.
  match goal with |- post advance ?q _ _ => pose proof (commits_and_finishes q s10) as Hend end.
  specialize (Hend (eq_trans Hfin Hf) (eq_trans Hstd Hst) Hout2 eq_refl). revert Hend. unfold post.
  intros (su & -> & Hsu & Hreq & Hquiet & Hout3). exists su. split_and!; [done|done|..].
  - rewrite (Hout3 (eq_trans Hsf2 Hsf) eq_refl).
    exact (f_equal (fun b : bool => if b then PassCancelled else PassRateLimited) Hca).
  - rewrite Hreq. exact Hrq.
  - cbn zeta. rewrite Hquiet. transitivity (Z.max (i64_saturating_add (p_now_ms q2) (Z.min
      (core_family_relay_backoff_delay_ms (relay_retry_after_ms (header_value (hr_headers result) CRLF_RETRY_AFTER))
         (u32_saturating_add (pl_consecutive_rate_limits (p_plan q2)) 1)
         (core_family_relay_jitter_ms (pl_own_user_id (p_plan q2)))) I64_MAX)) (p_quiet_until_ms q2)); [reflexivity|].
    rewrite Hpl, Hqu, Hnow. change (p_plan (new_pass plan id)) with plan in Hplan. rewrite <- Hplan. reflexivity.
Qed.

End frames.

(** * Witnesses *)

Definition toy_error_json : ErrorJson := {| error_code_of_json _ := None |}.

(** Every fetch answers the same page. *)
Definition toy_json : RelayJson := one_page_json (mk_fetch_response [wire_row 4; wire_row 9] 9).

(** The letters of [toy_outbound] queued, nothing carried, no cursor. *)
Definition toy_relay_store : relay_store :=
  mk_relay_store toy_outbound [] (mk_cursor_db ∅ None) ∅ ∅ ∅.

(** One contact without a relay of its own, so that its mail goes to ours, and five
    requests. *)
Definition toy_plan : CoreRelayPassPlan :=
  {| pl_own := Some (mk_endpoint_config (str "https://relay.example") (str "token"));
     pl_contacts := [mk_contact_config [x05] None None true true];
     pl_own_user_id := [x09]; pl_fetch_hints := [replicate 8 x02];
     pl_presence_announce := []; pl_presence_query := []; pl_own_endpoint_changed := false;
     pl_swept_this_session := true; pl_consecutive_rate_limits := 0; pl_quiet_until_ms := 0;
     pl_budgets := mk_pass_budgets 5 1024 100000 8 8 8 20000 |}.

Definition toy_pass : PassState := new_pass toy_plan (str "pass-1").

Definition toy_result (action_id status : Z) : CoreRelayHttpResult :=
  mk_http_result (str "pass-1") action_id status [] [] None 30.

Definition toy_run (calls : list pass_call) : pm relay_store bool :=
  pass_run (C := toy_crypto) (B := real_b64) (J := toy_json) (EJ := toy_error_json)
    (PS := relay_pass_store (C := toy_crypto) (B := real_b64)) calls.

(** Started, answered, answered again with a stale result and a forged one. *)
Definition toy_calls : list pass_call :=
  [CallStart 20; CallResume (toy_result 1 200); CallResume (toy_result 1 200); CallResume (toy_result 77 200)].

Lemma pass_stays_within_budget_witness :
  (toy_run toy_calls toy_pass toy_relay_store).1 = true /\
  p_requests_issued (toy_run toy_calls toy_pass toy_relay_store).2.1 = 2 /\
  p_stale_results_ignored (toy_run toy_calls toy_pass toy_relay_store).2.1 = 2.
Proof.
  split.
  - destruct (pass_stays_within_budget (C := toy_crypto) (B := real_b64) (J := toy_json) (EJ := toy_error_json)
      (PS := relay_pass_store (C := toy_crypto) (B := real_b64)) toy_plan (str "pass-1") toy_relay_store toy_calls) as [H _];
      [vm_compute; split; discriminate|exact H].
  - vm_compute. split; reflexivity.
Defined.

Definition toy_reply : reply := mk_reply 200 [] [] None 30.

Lemma pass_terminates_witness :
  is_Some (p_finished ((start (C := toy_crypto) (B := real_b64) (J := toy_json)
      (PS := relay_pass_store (C := toy_crypto) (B := real_b64)) 20;;
    for_each (replicate 5 toy_reply) (answer_with (C := toy_crypto) (B := real_b64) (J := toy_json)
      (EJ := toy_error_json) (PS := relay_pass_store (C := toy_crypto) (B := real_b64)))) toy_pass toy_relay_store).2.1).
Proof.
  refine (pass_terminates (C := toy_crypto) (B := real_b64) (J := toy_json) (EJ := toy_error_json)
    (PS := relay_pass_store (C := toy_crypto) (B := real_b64)) toy_plan (str "pass-1") toy_relay_store 20
    (replicate 5 toy_reply) _ _).
  - vm_compute. split; discriminate.
  - vm_compute. discriminate.
Defined.

(** A forged answer to the first request. *)
Lemma stale_results_change_nothing_witness :
  exists a, resume_http (C := toy_crypto) (B := real_b64) (J := toy_json) (EJ := toy_error_json)
      (PS := relay_pass_store (C := toy_crypto) (B := real_b64)) (toy_result 77 200)
      (toy_run [CallStart 20] toy_pass toy_relay_store).2.1 toy_relay_store
    = (Some a, ((toy_run [CallStart 20] toy_pass toy_relay_store).2.1 <| p_stale_results_ignored ::= inc_u32 |>, toy_relay_store)).
Proof.
  destruct (stale_results_change_nothing (C := toy_crypto) (B := real_b64) (J := toy_json) (EJ := toy_error_json)
    (PS := relay_pass_store (C := toy_crypto) (B := real_b64)) toy_plan (str "pass-1") toy_relay_store [CallStart 20]) as [H _].
  { vm_compute. split; discriminate. }
  destruct (H (toy_result 77 200) toy_relay_store) as (a & _ & Ha); [vm_compute; reflexivity..|].
  exists a. exact Ha.
Defined.

(** The first upload is refused with a 429. *)
Lemma rate_limit_ends_pass_witness :
  exists su, p_finished (resume_http (C := toy_crypto) (B := real_b64) (J := toy_json) (EJ := toy_error_json)
      (PS := relay_pass_store (C := toy_crypto) (B := real_b64)) (toy_result 1 429)
      (toy_run [CallStart 20] toy_pass toy_relay_store).2.1 toy_relay_store).2.1 = Some su
    /\ su_outcome su = PassRateLimited /\ su_requests_issued su = 1.
Proof.
  pose proof (rate_limit_ends_pass (C := toy_crypto) (B := real_b64) (J := toy_json) (EJ := toy_error_json)
    (PS := relay_pass_store (C := toy_crypto) (B := real_b64)) toy_plan (str "pass-1") toy_relay_store [CallStart 20]) as H.
  destruct (H ltac:(vm_compute; split; discriminate) (toy_result 1 429) toy_relay_store)
    as (su & _ & Hsu & Ho & Hr & _); [vm_compute; reflexivity..|vm_compute; intros [_ ?]; discriminate|vm_compute; reflexivity|].
  exists su. split_and!; [exact Hsu|exact (eq_trans Ho ltac:(vm_compute; reflexivity))|exact (eq_trans Hr ltac:(vm_compute; reflexivity))].
Defined.
