(* ===== verification/PassMail.v ===== *)
(** What a relay pass does to the store it runs on.

    [touches T R m]: an operation of the pass, run while its clock is at most [T],
    leaves the clock at most [T] and changes the store only within the relation [R].
    A preorder that every operation of [PassStore] stays within ([Respects]) bounds a
    whole pass ([run_touches]).  [pass_keeps_mail] applies this to the store of
    [RelayStore.v]: across a pass, whatever the relays answer, the carry queue stays in
    budget, nothing of the family's carried mail is dropped before it expires, and an
    authored letter leaves the queue only once its delivered receipt covers it. *)
From stdpp Require Import base numbers list gmap strings.
From coqutil Require Import Datatypes.RecordSetters.
From S2P Require Import Prelude StdModel SqlModel Wire Crypto Message Frames Hints Engine RelayPolicy RelayWire RelayCursor.
From S2P Require Import CarryQueue OutboundQueue RelayPass RelayStore RelayPassRun.
Import TriangleBracketNotations.

(** * The frame of a whole pass *)

Definition touches {S A} (T : Z) (R : S -> S -> Prop) (m : pm S A) : Prop :=
  forall p s, p_now_ms p <= T -> p_now_ms (m p s).2.1 <= T /\ R s (m p s).2.2.

Class Respects {S} (PS : PassStore S) (T : Z) (R : S -> S -> Prop) : Prop := {
  rp_pre :: PreOrder R;
  rp_prune_outbound now s : now <= T -> R s (st_prune_expired_outbound_envelopes now s).1;
  rp_prune_receipts now s : now <= T -> R s (st_prune_expired_outgoing_receipt_envelopes now s).1;
  rp_prune_carried now s : now <= T -> R s (st_prune_expired_carried now s).1;
  rp_prune_hidden now s : now <= T -> R s (st_prune_expired_consumed_hidden_msg_ids now s).1;
  rp_prune_fanout s : R s (st_prune_relay_fanout_markers s).1;
  rp_clear_carried s : R s (st_clear_carried_relay_upload_markers s).1;
  rp_clear_fanout s : R s (st_clear_relay_fanout_markers s).1;
  rp_mark_fanout m u url now s : R s (st_mark_relay_fanout_row_posted m u url now s).1;
  rp_mark_outbound m now s : R s (st_mark_outbound_envelope_relay_posted m now s).1;
  rp_mark_receipt m now s : R s (st_mark_outgoing_receipt_envelope_relay_posted m now s).1;
  rp_mark_carried m url s : R s (st_mark_carried_envelope_relay_uploaded m url s).1;
  rp_hints own s : R s (st_note_relay_hint_sources own s).1;
  rp_advance key next full s : R s (st_advance_relay_fetch_cursor key next full s).1;
  rp_advance_sweep key next full now s : R s (st_advance_relay_sweep_cursor key next full now s).1;
  rp_reset_sweep key now s : R s (st_reset_relay_sweep_progress key now s).1;
  rp_swept key now through s : R s (st_note_relay_sweep_completed key now through s).1;
  rp_probed u now s : R s (st_mark_contact_presence_probed u now s).1;
  rp_presence u rec now s : R s (st_record_contact_presence u rec now s).1;
  rp_ingest page now s : now <= T -> Forall wf_fetched page -> R s (st_ingest_relay_page page now s).1;
  rp_rejected u now s : R s (st_note_contact_relay_rejected u now s).1;
  rp_clear_rejection u s : R s (st_clear_contact_relay_rejection u s).1;
  rp_unreachable u key now s : R s (st_note_contact_relay_unreachable u key now s).1;
  rp_clear_unreachable u s : R s (st_clear_contact_relay_unreachable u s).1;
}.

Create HintDb store discriminated.

Section touches.
Context {S : Type} {T : Z} {R : S -> S -> Prop} {HR : PreOrder R}.

Lemma touches_ret {A} (a : A) : touches T R (mret a).
Proof. intros p s Hp. by split. Qed.

Lemma touches_gets {A} (g : PassState -> A) : touches T R (gets g).
Proof. intros p s Hp. by split. Qed.

Lemma touches_asks {A} (g : S -> A) : touches T R (asks g).
Proof. intros p s Hp. by split. Qed.

Lemma touches_call {A} (g : S -> S * A) : (forall s, R s (g s).1) -> touches T R (call g).
Proof. intros Hg p s Hp. unfold call. specialize (Hg s). by destruct (g s). Qed.

Lemma touches_modify (g : PassState -> PassState) :
  (forall p, p_now_ms p <= T -> p_now_ms (g p) <= T) -> touches T R (modify g).
Proof. intros Hg p s Hp. split; [by apply Hg|done]. Qed.

Lemma touches_bind {A D} (m : pm S A) (k : A -> pm S D) :
  touches T R m -> (forall a, touches T R (k a)) -> touches T R (m ≫= k).
Proof.
  intros Hm Hk p s Hp. unfold mbind, pm_bind. specialize (Hm p s Hp). destruct (m p s) as [a [p' s']].
  destruct Hm as [Hp' Hs]. destruct (Hk a p' s' Hp') as [? ?]. split; [done|]. by etrans.
Qed.

(** What is read from the clock is in the clock's range. *)
Lemma touches_now {D} (k : Z -> pm S D) : (forall now, now <= T -> touches T R (k now)) -> touches T R (gets p_now_ms ≫= k).
Proof. intros Hk p s Hp. apply (Hk (p_now_ms p)); done. Qed.

Lemma touches_when b (m : pm S unit) : touches T R m -> touches T R (when b m).
Proof. destruct b; [done|]. intros _. apply touches_ret. Qed.

Lemma touches_ignore {A} (m : pm S A) : touches T R m -> touches T R (ignore m).
Proof. intros Hm. apply touches_bind; [done|]. intros a. apply touches_ret. Qed.

Lemma touches_for_each {A} (l : list A) (k : A -> pm S unit) : (forall a, touches T R (k a)) -> touches T R (for_each l k).
Proof. intros Hk. induction l as [|a l IH]; [apply touches_ret|]. apply touches_bind; [apply Hk|done]. Qed.

End touches.

(** An operation of the store stays within [R]. *)
Ltac respect :=
  first [ apply rp_prune_outbound; assumption | apply rp_prune_receipts; assumption | apply rp_prune_carried; assumption
        | apply rp_prune_hidden; assumption
        | apply rp_prune_fanout | apply rp_clear_carried | apply rp_clear_fanout | apply rp_mark_fanout
        | apply rp_mark_outbound | apply rp_mark_receipt | apply rp_mark_carried | apply rp_hints
        | apply rp_advance | apply rp_advance_sweep | apply rp_reset_sweep | apply rp_swept
        | apply rp_probed | apply rp_presence | apply rp_rejected | apply rp_clear_rejection
        | apply rp_unreachable | apply rp_clear_unreachable ].

Ltac touch_step :=
  lazymatch goal with
  | |- touches _ _ (mret _) => apply touches_ret
  | |- touches _ _ (gets _) => apply touches_gets
  | |- touches _ _ (asks _) => apply touches_asks
  | |- touches _ _ (call _) => solve [apply touches_call; intros ?; respect]
  | |- touches _ _ (modify _) => solve [apply touches_modify; intros ? ?; assumption]
  | |- touches _ _ (mbind _ (gets p_now_ms)) => apply touches_now; intros ? ?
  | |- touches _ _ (mbind _ _) => apply touches_bind; [|intros ?]
  | |- touches _ _ (when _ _) => apply touches_when
  | |- touches _ _ (ignore _) => apply touches_ignore
  | |- touches _ _ (for_each _ _) => apply touches_for_each; intros ?
  | |- touches _ _ (match ?x with _ => _ end) => destruct x
  | |- touches _ _ _ => solve [auto with store]
  end.
Ltac touch := repeat touch_step.

Section pass.
Context `{C : Crypto} `{B : Base64} `{J : RelayJson} `{EJ : ErrorJson} {S : Type} {PS : PassStore S}.
Context {T : Z} {R : S -> S -> Prop} {HR : Respects PS T R}.

Notation tch m := (touches T R m).

Lemma touch_on_config i f : tch (on_config i f).
Proof. apply touches_modify. intros p Hp. exact Hp. Qed.

Lemma touch_on_walk i f : tch (on_walk i f).
Proof. apply touch_on_config. Qed.

Lemma touch_push_upload u : tch (push_upload u).
Proof. unfold push_upload. touch. Qed.

Lemma touch_fail_store : tch fail_store.
Proof. unfold fail_store. touch. Qed.

Lemma touch_finish o now : tch (finish o now).
Proof. unfold finish. touch. Qed.

Lemma touch_emit st rq i : tch (emit st rq i).
Proof. unfold emit. touch. Qed.

Hint Resolve touch_on_config touch_on_walk touch_push_upload touch_fail_store touch_finish touch_emit : store.

Lemma touch_commit_evidence now e : tch (commit_evidence now e).
Proof. unfold commit_evidence. touch. Qed.

Lemma touch_run_prune : tch run_prune.
Proof. unfold run_prune. touch. Qed.

Lemma touch_run_announce : tch run_announce.
Proof. unfold run_announce. touch. Qed.

Lemma touch_load_receipt_uploads : tch load_receipt_uploads.
Proof. unfold load_receipt_uploads. touch. Qed.

Lemma touch_queue_fanout e owed ep ow al room q rows : tch (queue_fanout e owed ep ow al room q rows).
Proof. revert q. induction rows as [|[m r] rows IH]; intros q; cbn [queue_fanout]; touch. Qed.

Hint Resolve touch_commit_evidence touch_run_prune touch_run_announce touch_load_receipt_uploads touch_queue_fanout : store.

Lemma touch_load_group_fanout e g room : tch (load_group_fanout e g room).
Proof. unfold load_group_fanout. touch. Qed.

Hint Resolve touch_load_group_fanout : store.

Lemma touch_load_authored_rows b q rows : tch (load_authored_rows b q rows).
Proof. revert q. induction rows as [|r rows IH]; intros q; cbn [load_authored_rows]; touch. Qed.

Hint Resolve touch_load_authored_rows : store.

Lemma touch_load_authored_uploads : tch load_authored_uploads.
Proof. unfold load_authored_uploads. touch. Qed.

Lemma touch_load_carried_uploads : tch load_carried_uploads.
Proof. unfold load_carried_uploads. touch. Qed.

Lemma touch_emit_next_upload : tch emit_next_upload.
Proof. unfold emit_next_upload. touch. Qed.

Lemma touch_run_rewalk_decision : tch run_rewalk_decision.
Proof. unfold run_rewalk_decision. touch. Qed.

Lemma touch_emit_presence : tch emit_presence.
Proof. unfold emit_presence. touch. Qed.

Lemma touch_probe_loop i l : tch (probe_loop i l).
Proof. revert i. induction l as [|b l IH]; intros i; cbn [probe_loop]; touch. Qed.

Hint Resolve touch_load_authored_uploads touch_load_carried_uploads touch_emit_next_upload touch_run_rewalk_decision
  touch_emit_presence touch_probe_loop : store.

Lemma touch_emit_presence_probe : tch emit_presence_probe.
Proof. unfold emit_presence_probe. touch. Qed.

Lemma touch_observe o : tch (observe_presence o).
Proof. unfold observe_presence. touch. Qed.

Hint Resolve touch_emit_presence_probe touch_observe : store.

Lemma touch_apply_presence_probe i r : tch (apply_presence_probe i r).
Proof. unfold apply_presence_probe. touch. Qed.

Lemma touch_start_walk i c : tch (start_walk i c).
Proof. unfold start_walk. touch. Qed.

Hint Resolve touch_apply_presence_probe touch_start_walk : store.

Lemma touch_emit_walk_step : tch emit_walk_step.
Proof. unfold emit_walk_step, walk_of. touch. Qed.

Lemma touch_commit_page i c b : tch (commit_page i c b).
Proof. unfold commit_page, walk_of. touch. Qed.

Hint Resolve touch_emit_walk_step touch_commit_page : store.

Lemma touch_hold i : tch (hold_frontier_if_ack_failed i).
Proof. unfold hold_frontier_if_ack_failed. touch. Qed.

Lemma touch_worsen f : tch (worsen f).
Proof. unfold worsen. touch. Qed.

Hint Resolve touch_hold touch_worsen : store.

Lemma touch_fold_fault i f : tch (fold_fault i f).
Proof. unfold fold_fault. touch. Qed.

Lemma touch_mark_answered i : tch (mark_answered i).
Proof. unfold mark_answered. touch. Qed.

Lemma touch_apply_ingested i page ig : tch (apply_ingested i page ig).
Proof. unfold apply_ingested. touch. Qed.

Hint Resolve touch_fold_fault touch_mark_answered touch_apply_ingested : store.

(** The one call that stores what a relay sent: only well-formed pages reach it. *)
Lemma touch_apply_fetch i after r : tch (apply_fetch i after r).
Proof.
  unfold apply_fetch. destruct (relay_decode_fetch_page (hr_body r)) as [page|e] eqn:Hd; [|touch].
  pose proof (wf_rows _ (decode_page_wf _ _ Hd)) as Hwf. unfold walk_of.
  apply touches_bind; [touch|intros _]. apply touches_bind; [touch|intros _].
  destruct (as_u32 (blen (fp_envelopes page)) =? 0); [touch|].
  destruct (relay_fetch_walk_continues _ _ _); cbn [negb]; [|touch]. apply touches_now.
  intros now Hnow. apply touches_bind; [|intros ig; touch].
  apply touches_call. intros s. by apply rp_ingest.
Qed.

Lemma touch_mark_fanout_row e f : tch (mark_fanout_row e f).
Proof. unfold mark_fanout_row. touch. Qed.

Hint Resolve touch_apply_fetch touch_mark_fanout_row : store.

Lemma touch_apply_upload_accepted u : tch (apply_upload_accepted u).
Proof. unfold apply_upload_accepted, note_contact_rejection_recovery. touch. Qed.

Hint Resolve touch_apply_upload_accepted : store.

Lemma touch_apply_success i r : tch (apply_success i r).
Proof. unfold apply_success. touch. Qed.

Lemma touch_apply_transport_error i e : tch (apply_transport_error i e).
Proof. unfold apply_transport_error. touch. Qed.

Hint Resolve touch_apply_success touch_apply_transport_error : store.

Lemma touch_apply_oversize i : tch (apply_oversize i).
Proof. unfold apply_oversize. touch. Qed.

Lemma touch_abort r : tch (abort_for_rate_limit r).
Proof. unfold abort_for_rate_limit. touch. Qed.

Lemma touch_apply_rejection i f : tch (apply_rejection i f).
Proof. unfold apply_rejection, note_contact_rejection. touch. Qed.

Hint Resolve touch_apply_oversize touch_abort touch_apply_rejection : store.

Lemma touch_apply i r : tch (apply i r).
Proof. unfold apply. touch. Qed.

Lemma touch_set_stage st : tch (set_stage st).
Proof. unfold set_stage. touch. Qed.

Lemma touch_cut : tch cut_if_over_budget.
Proof. unfold cut_if_over_budget. touch. Qed.

Lemma touch_build_configs : tch build_walk_configs.
Proof. unfold build_walk_configs. touch. Qed.

Lemma touch_build_probes : tch build_presence_probes.
Proof. unfold build_presence_probes. touch. Qed.

Hint Resolve touch_apply touch_set_stage touch_cut touch_build_configs touch_build_probes : store.

Lemma touch_advance_step : tch advance_step.
Proof. unfold advance_step. touch. Qed.

Hint Resolve touch_advance_step : store.

Lemma touch_advance_loop fuel : tch (advance_loop fuel).
Proof. induction fuel as [|fuel IH]; cbn [advance_loop]; touch. Qed.

Hint Resolve touch_advance_loop : store.

Lemma touch_advance : tch advance.
Proof. unfold advance. touch. Qed.

Hint Resolve touch_advance : store.

Lemma touch_restate_or_advance : tch restate_or_advance.
Proof. unfold restate_or_advance. touch. Qed.

Hint Resolve touch_restate_or_advance : store.

(** ** Any sequence of calls *)

(** The time a call tells the pass. *)
Definition call_time (c : pass_call) : Z :=
  match c with
  | CallStart now | CallCancel now => now
  | CallResume result => hr_completed_at_ms result
  | CallTake => T
  end.

Lemma touch_start now : now <= T -> tch (start now).
Proof.
  intros Hn. unfold start. apply touches_bind; [touch|intros again]. destruct again; [touch|].
  apply touches_bind; [|intros _; touch]. apply touches_modify. intros p _. exact Hn.
Qed.

Lemma touch_resume r : hr_completed_at_ms r <= T -> tch (resume_http r).
Proof.
  intros Hn. unfold resume_http. apply touches_bind; [touch|intros finished]. destruct finished; [touch|].
  apply touches_bind; [touch|intros matches]. destruct matches; cbn [negb]; [|touch].
  apply touches_bind; [touch|intros o]. apply touches_bind; [|intros _; touch].
  apply touches_modify. intros p Hp. change (Z.max (hr_completed_at_ms r) (p_now_ms p) <= T). lia.
Qed.

Lemma touch_cancel now : now <= T -> tch (cancel now).
Proof.
  intros Hn. unfold cancel. apply touches_bind; [touch|intros finished]. destruct finished; [touch|].
  apply touches_bind; [|intros _; touch]. apply touches_modify. intros p Hp.
  change (Z.max now (p_now_ms p) <= T). lia.
Qed.

Lemma step_touches c : call_time c <= T -> tch (pass_step c).
Proof.
  destruct c; cbn [call_time pass_step]; intros Hn; (apply touches_bind; [|intros ?; touch]);
    [by apply touch_start|by apply touch_resume|by apply touch_cancel|unfold take_projection; touch].
Qed.

Lemma run_touches calls : Forall (fun c => call_time c <= T) calls -> tch (pass_run calls).
Proof.
  induction 1 as [|c calls Hc _ IH]; cbn [pass_run]; [touch|].
  apply touches_bind; [by apply step_touches|intros ok]. apply touches_bind; [done|intros rest; touch].
Qed.

End pass.

(** * The mail of the store *)

Definition carried_kept (T : Z) (q q' : list carry_row) : Prop :=
  queue_ok q -> queue_ok q' /\ forall r, r ∈ q -> ca_is_family r = true -> T < ca_expiry r -> kept_in q' r.

(** Nothing of what covers a row changes, and no row leaves uncovered before [T]. *)
Record outbound_kept (T : Z) (d d' : outbound_db) : Prop := {
  ok_ok : outbound_ok d -> outbound_ok d';
  ok_receipts : od_receipts d' = od_receipts d;
  ok_routing : e_routing (od_engine d') = e_routing (od_engine d);
  ok_messages : e_messages (od_engine d') = e_messages (od_engine d);
  ok_rows : outbound_ok d -> forall r, r ∈ od_outbound d -> T < oe_expiry (or_envelope r) ->
    (exists r', r' ∈ od_outbound d' /\ same_mail r r') \/ covered d' r;
  ok_receipt_rows : forall r, r ∈ od_receipt_envelopes d -> T < re_expiry (rr_envelope r) ->
    exists r', r' ∈ od_receipt_envelopes d' /\ rr_envelope r' = rr_envelope r;
}.

Definition mail_kept (T : Z) (s s' : relay_store) : Prop :=
  carried_kept T (rs_carried s) (rs_carried s') /\ outbound_kept T (rs_outbound s) (rs_outbound s').

Lemma covered_kept T d d' r : outbound_kept T d d' -> covered d' r <-> covered d r.
Proof.
  intros [_ Hr Hrt Hm _ _]. unfold covered, OutboundQueue.is_contact, is_group, has_message. by rewrite Hr, Hrt, Hm.
Qed.

#[global] Instance carried_kept_pre T : PreOrder (carried_kept T).
Proof.
  split.
  - intros q Hq. split; [done|]. intros r Hr Hf _. by exists r.
  - intros q1 q2 q3 H1 H2 Hq. destruct (H1 Hq) as [Hq2 Hk1]. destruct (H2 Hq2) as [Hq3 Hk2]. split; [done|].
    intros r Hr Hf Hx. destruct (Hk1 r Hr Hf Hx) as (r2 & Hr2 & He2 & Hf2). unfold kept_in.
    destruct (Hk2 r2 Hr2 Hf2) as (r3 & Hr3 & He3 & Hf3); [by rewrite He2|]. exists r3. split_and!; [done|congruence|done].
Qed.

#[global] Instance outbound_kept_pre T : PreOrder (outbound_kept T).
Proof.
  split.
  - intros d. split; try done; [intros Hok r Hr _; left; by exists r|intros r Hr _; by exists r].
  - intros d1 d2 d3 H12 H23. pose proof (fun r => covered_kept T d2 d3 r H23) as Hc.
    destruct H12 as [Hok1 Hr1 Hrt1 Hm1 Hk1 Hrr1], H23 as [Hok2 Hr2 Hrt2 Hm2 Hk2 Hrr2]. split; [auto|congruence..| |].
    + intros Hok r Hr Hx. destruct (Hk1 Hok r Hr Hx) as [(r2 & Hin & Hs)|Hcov]; [|right; by apply Hc].
      destruct (Hk2 (Hok1 Hok) r2 Hin) as [(r3 & Hin3 & Hs3)|Hcov]; [by destruct Hs as (-> & _)| |right].
      * left. exists r3. split; [done|]. destruct Hs as (? & ? & ?), Hs3 as (? & ? & ?). repeat split; congruence.
      * by apply (covered_same_mail d3 r r2).
    + intros r Hr Hx. destruct (Hrr1 r Hr Hx) as (r2 & Hin & He). destruct (Hrr2 r2 Hin) as (r3 & Hin3 & He3); [by rewrite He|].
      exists r3. split; [done|congruence].
Qed.

#[global] Instance mail_kept_pre T : PreOrder (mail_kept T).
Proof.
  split; [intros s; by split|]. intros s1 s2 s3 [H1 H2] [H3 H4]. split; [by etrans|]. exact (transitivity H2 H4).
Qed.

Lemma kept_carried T s q : carried_kept T (rs_carried s) q -> mail_kept T s (s <| rs_carried := q |>).
Proof. intros H. split; [exact H|]. change (outbound_kept T (rs_outbound s) (rs_outbound s)). reflexivity. Qed.

Lemma kept_outbound T s d : outbound_kept T (rs_outbound s) d -> mail_kept T s (s <| rs_outbound := d |>).
Proof. intros H. split; [|exact H]. change (carried_kept T (rs_carried s) (rs_carried s)). reflexivity. Qed.

Lemma carry_step_kept `{C : Crypto} T q op : op_summable op ->
  (forall r, T < ca_expiry r -> ~ op_drops op r) -> carried_kept T q (carry_step q op).
Proof.
  intros Ho Hd Hq. destruct (carry_step_ok q op Hq Ho) as [Hq' Hk]. split; [done|].
  intros r Hr Hf Hx. destruct (Hk r Hr Hf) as [?|?]; [done|]. by destruct (Hd r Hx).
Qed.

(** The rest of the database beside a changed queue. *)
Lemma same_rows_kept T d d' : od_outbound d' = od_outbound d -> od_receipts d' = od_receipts d ->
  e_routing (od_engine d') = e_routing (od_engine d) -> e_messages (od_engine d') = e_messages (od_engine d) ->
  (forall r, r ∈ od_receipt_envelopes d -> T < re_expiry (rr_envelope r) ->
     exists r', r' ∈ od_receipt_envelopes d' /\ rr_envelope r' = rr_envelope r) -> outbound_kept T d d'.
Proof.
  intros Ho Hr Hrt Hm Hrr. split; try done.
  - intros [Hi Hk Hrc]. unfold receipts_ok in *. split; unfold receipts_ok; by rewrite ?Ho, ?Hr.
  - intros _ r Hin _. left. exists r. by rewrite Ho.
Qed.

Lemma with_outbound_kept T d l op : with_outbound d l = outbound_step d op -> op_typed op ->
  (forall r, T < oe_expiry (or_envelope r) -> licensed_exit (outbound_step d op) op r -> covered (outbound_step d op) r) ->
  outbound_kept T d (outbound_step d op).
Proof.
  intros He Ht Hl. pose proof (fun Hok => outbound_step_licensed d op Hok Ht) as Hs.
  rewrite <-He in *. split; try done.
  - intros Hok. by destruct (Hs Hok).
  - intros Hok r Hr Hx. destruct (Hs Hok) as (_ & Hk). destruct (Hk r Hr) as [?|?]; [by left|right]. auto.
  - intros r Hr _. by exists r.
Qed.

Lemma retire_covered_frame d chat sender t : exists l, (retire_receipt_covered d chat sender t).1 = with_outbound d l.
Proof.
  unfold retire_receipt_covered. case_match; [exists (od_outbound d); by destruct d|]. eexists. reflexivity.
Qed.

Lemma mark_posted_frame d id now : exists l, with_outbound d l = outbound_step d (MarkPosted id now).
Proof.
  cbn [outbound_step]. unfold mark_outbound_envelope_relay_posted. set (stamp r := if bool_decide _ then _ else _).
  change (d <| od_outbound ::= fmap stamp |>) with (with_outbound d (stamp <$> od_outbound d)).
  case_match; [|by eexists]. cbn [fst]. unfold retire_covered_after_relay_post.
  destruct (find _ _) as [r0|]; [|by eexists]. destruct (retire_covered_frame (with_outbound d (stamp <$> od_outbound d))
    (or_chat r0) (or_sender r0) (delivered_watermark (with_outbound d (stamp <$> od_outbound d)) (or_chat r0) (or_sender r0)))
    as [l ->]. by exists l.
Qed.

Lemma fmap_receipt_kept T (f : receipt_row -> receipt_row) d :
  (forall r, rr_envelope (f r) = rr_envelope r) ->
  outbound_kept T d (d <| od_receipt_envelopes ::= fmap f |>).
Proof.
  intros Hf. apply same_rows_kept; try done. intros r Hr _. exists (f r). split; [by apply list_elem_of_fmap_2|done].
Qed.

Lemma prune_receipts_kept T d now : now <= T -> outbound_kept T d (prune_expired_outgoing_receipt_envelopes d now).1.
Proof.
  intros Hn. apply same_rows_kept; try done. intros r Hr Hx. exists r. split; [|done].
  change (r ∈ List.filter (fun r => negb (re_expiry (rr_envelope r) <=? now)) (od_receipt_envelopes d)).
  rewrite list_elem_of_In, filter_In, <-list_elem_of_In. split; [done|]. apply negb_true_iff, Z.leb_gt. lia.
Qed.

Lemma wf_fetched_summable e : wf_fetched e -> summable (fe_sealed e).
Proof.
  intros (_ & _ & _ & _ & Hs). unfold summable. etrans; [exact Hs|]. apply Z.leb_le. reflexivity.
Qed.

Section mail.
Context `{C : Crypto} `{B : Base64} `{J : RelayJson} `{EJ : ErrorJson}.

Lemma mark_outbound_kept T d id now : outbound_kept T d (mark_outbound_envelope_relay_posted d id now).1.
Proof.
  destruct (mark_posted_frame d id now) as [l Hl]. apply (with_outbound_kept T d l (MarkPosted id now) Hl I).
  intros r _ [_ Hc]. exact Hc.
Qed.

Lemma prune_outbound_kept T d now : now <= T -> outbound_kept T d (prune_expired_outbound_envelopes d now).1.
Proof.
  intros Hn. eapply (with_outbound_kept T d _ (PruneOutbound now)); [reflexivity|done|].
  intros r Hx Hl. cbn [licensed_exit] in Hl. lia.
Qed.

Lemma ingest_kept T d q page now : now <= T -> Forall wf_fetched page -> carried_kept T q (ingest_relay_page d q page now).1.
Proof.
  intros Hn Hwf. apply (carry_step_kept T q (OpIngest d page now)).
  - cbn. eapply Forall_impl; [exact Hwf|]. apply wf_fetched_summable.
  - cbn. intros r Hx Hd. lia.
Qed.

#[global] Instance mail_respects T : Respects relay_pass_store T (mail_kept T).
Proof.
  split; [apply _|..]; intros.
  - by apply kept_outbound, prune_outbound_kept.
  - by apply kept_outbound, prune_receipts_kept.
  - apply kept_carried, (carry_step_kept T _ (OpPrune now)); [done|]. cbn. intros r Hx Hd. lia.
  - apply kept_outbound, same_rows_kept; try done. intros r Hr _. by exists r.
  - apply kept_outbound, same_rows_kept; try done. intros r Hr _. by exists r.
  - apply kept_carried, (carry_step_kept T _ OpClearMarkers); [done|]. by intros r _ Hd.
  - apply kept_outbound, same_rows_kept; try done. intros r Hr _. by exists r.
  - cbn [st_mark_relay_fanout_row_posted relay_pass_store]. unfold on_outbound, mark_relay_fanout_row_posted.
    destruct (existsb _ _); apply kept_outbound; [reflexivity|]. apply same_rows_kept; try done. intros r Hr _. by exists r.
  - cbn [st_mark_outbound_envelope_relay_posted relay_pass_store]. unfold on_outbound.
    pose proof (mark_outbound_kept T (rs_outbound s) m now) as H.
    destruct (mark_outbound_envelope_relay_posted (rs_outbound s) m now) as [d' b]. by apply kept_outbound.
  - apply kept_outbound, fmap_receipt_kept. intros r. by case_match.
  - apply kept_carried, (carry_step_kept T _ (OpMarkUploaded m url)); [done|]. by intros r _ Hd.
  - cbn [st_note_relay_hint_sources relay_pass_store]. unfold on_cursors. by case_match.
  - cbn [st_advance_relay_fetch_cursor relay_pass_store]. unfold on_cursors. by case_match.
  - cbn [st_advance_relay_sweep_cursor relay_pass_store]. unfold on_cursors. by case_match.
  - done.
  - cbn [st_note_relay_sweep_completed relay_pass_store]. unfold on_cursors. by case_match.
  - done.
  - done.
  - cbn [st_ingest_relay_page relay_pass_store].
    pose proof (ingest_kept T (od_engine (rs_outbound s)) (rs_carried s) page now) as Hi.
    destruct (ingest_relay_page _ _ _ _) as [q r]. by apply kept_carried, Hi.
  - done.
  - done.
  - cbn [st_note_contact_relay_unreachable relay_pass_store]. repeat case_match; done.
  - done.
Qed.

(** C1: no relay can make a pass lose mail.  Whatever the calls, and whatever the relays
    answer, with every time the driver reports at most [T]: the carry queue stays within
    its budget and well formed, and the outbound queue well formed; every family row of
    the carry queue that expires after [T] is still there, with its envelope; every
    receipt to send that expires after [T] is still there; and every authored envelope
    that expires after [T] is still queued, unless a delivered receipt covers it. *)
Theorem pass_keeps_mail plan id s calls T :
  queue_ok (rs_carried s) -> outbound_ok (rs_outbound s) -> 0 <= T -> Forall (fun c => call_time (T := T) c <= T) calls ->
  let s' := (pass_run calls (new_pass plan id) s).2.2 in
  queue_ok (rs_carried s') /\ outbound_ok (rs_outbound s') /\
  (forall r, r ∈ rs_carried s -> ca_is_family r = true -> T < ca_expiry r -> kept_in (rs_carried s') r) /\
  (forall r, r ∈ od_receipt_envelopes (rs_outbound s) -> T < re_expiry (rr_envelope r) ->
     exists r', r' ∈ od_receipt_envelopes (rs_outbound s') /\ rr_envelope r' = rr_envelope r) /\
  (forall r, r ∈ od_outbound (rs_outbound s) -> T < oe_expiry (or_envelope r) ->
     (exists r', r' ∈ od_outbound (rs_outbound s') /\ same_mail r r') \/ covered (rs_outbound s) r).
Proof.
  intros Hq Ho HT Hcalls. cbn zeta.
  destruct (run_touches (T := T) (R := mail_kept T) calls Hcalls (new_pass plan id) s HT) as [_ [Hc Hout]].
  destruct (Hc Hq) as [Hq' Hk]. pose proof (fun r => covered_kept T _ _ r Hout) as Hcov.
  destruct Hout as [Hok _ _ _ Hrows Hrr]. split_and!; auto.
  intros r Hr Hx. destruct (Hrows Ho r Hr Hx) as [?|?]; [by left|right]. by apply Hcov.
Qed.

End mail.

(** ** Witness *)

(** The store of [RelayPassRun.v], with a family row in the carry queue. *)
Definition toy_mail_store : relay_store :=
  toy_relay_store <| rs_carried := [new_carry_row (C := toy_crypto) (toy_mail x02 4 1000) true false 2] |>.

Lemma toy_carried_ok : queue_ok (rs_carried toy_mail_store).
Proof.
  split; [split|].
  - apply (bool_decide_unpack _). vm_compute. exact I.
  - apply (bool_decide_unpack _). vm_compute. exact I.
  - repeat (constructor; [reflexivity|]). constructor.
  - apply Z.leb_le. vm_compute. reflexivity.
Defined.

(** The pass fetches a page; the family's row and the four letters are there after it,
    with the envelope it carried. *)
Lemma pass_keeps_mail_witness :
  let s' := (toy_run toy_calls toy_pass toy_mail_store).2.2 in
  kept_in (rs_carried s') (new_carry_row (C := toy_crypto) (toy_mail x02 4 1000) true false 2) /\
  length (rs_carried s') = 2%nat /\ length (od_outbound (rs_outbound s')) = 4%nat.
Proof.
  destruct (pass_keeps_mail (C := toy_crypto) (B := real_b64) (J := toy_json) (EJ := toy_error_json)
    toy_plan (str "pass-1") toy_mail_store toy_calls 30 toy_carried_ok toy_outbound_ok) as (_ & _ & Hk & _).
  - discriminate.
  - repeat (constructor; [apply Z.leb_le; vm_compute; reflexivity|]). constructor.
  - cbn zeta. split; [apply Hk; [left|reflexivity|reflexivity]|]. split; vm_compute; reflexivity.
Defined.
