(* ===== verification/SprayPolicy.v ===== *)
(** The spray policy ([core/src/spray_policy.rs], with [should_redigest] of
    [core/src/transport_policy.rs]): when a peer may be offered mail, how many bytes a
    link may be given, and which lanes of a built plan go on the radio.

    The policy is two maps, peers by their key and links by theirs; every call first
    drops what was not touched within the retention.  [gate_reopens] shows that no
    refusal is permanent, [link_rate_bounded] that a link is a token bucket whatever the
    calls; [spray_set_digest_perm] that the set digest does not depend on the order of the
    set.  The diagnostics records are reduced to the two crossings the
    state remembers; their journal is not modelled. *)
From stdpp Require Import base numbers list gmap strings sorting.
From coqutil Require Import Datatypes.RecordSetters.
From S2P Require Import Prelude Wire.
Import TriangleBracketNotations.

(** * Constants *)

Definition CARRIED_SPRAY_BUDGET_BYTES : Z := 256 * 1024.
Definition OWN_OUTBOUND_SPRAY_BUDGET_BYTES : Z := 256 * 1024.
Definition OWN_RECEIPT_SPRAY_BUDGET_BYTES : Z := 64 * 1024.
Definition TOTAL_ENCOUNTER_BUDGET_BYTES : Z :=
  CARRIED_SPRAY_BUDGET_BYTES + OWN_OUTBOUND_SPRAY_BUDGET_BYTES + OWN_RECEIPT_SPRAY_BUDGET_BYTES.
Definition LINK_BURST_BYTES : Z := TOTAL_ENCOUNTER_BUDGET_BYTES.
Definition LINK_DRAIN_BYTES_PER_SEC : Z := 24 * 1024.
Definition MIN_USEFUL_BURST_BYTES : Z := 16 * 1024.
Definition RECONNECT_SPRAY_MIN_INTERVAL_MS : Z := 60000.
Definition SPRAY_EXCHANGE_WINDOW_MS : Z := 15000.
Definition FIRST_CONTACT_LAPSE_MS : Z := 30 * 60000.
Definition IDENTICAL_SET_REOFFER_INTERVAL_MS : Z := 30 * 60000.
Definition RECEIPT_QUIET_MAX_SHIFT : Z := 5.
Definition MAX_SPRAY_INTERVAL_MS : Z := 30 * 60000.
Definition SPRAY_RETRY_ARM_MAX_MS : Z := 60000.
Definition SPRAY_STATE_RETENTION_MS : Z := 2 * 60 * 60000.
Definition core_spray_retry_arm_max_ms : Z := SPRAY_RETRY_ARM_MAX_MS.

Definition REDIGEST_MIN_INTERVAL_MS : Z := 3 * 60000.
Definition REDIGEST_MAX_INTERVAL_MS : Z := 5 * 60000.

Definition should_redigest (now_ms last_digest_at_ms jitter_seed : Z) : bool :=
  let span := REDIGEST_MAX_INTERVAL_MS - REDIGEST_MIN_INTERVAL_MS in
  let jitter := jitter_seed mod (span + 1) in
  let interval := REDIGEST_MIN_INTERVAL_MS + jitter in
  interval <=? i64_saturating_sub now_ms last_digest_at_ms.

(** * Questions and answers *)

Inductive CoreSprayTrigger : Type := TriggerFirstContact | TriggerReconnect | TriggerPeerDigest | TriggerMaintenance.

#[global] Instance CoreSprayTrigger_eq_dec : EqDecision CoreSprayTrigger.
Proof. solve_decision. Defined.

Inductive CoreSprayGateReason : Type :=
| GateFirstContact | GateExchangeOpen | GateIntervalElapsed | GateCadenceGated | GateReceiptQuietBackoff
| GateLinkBurstExhausted.

#[global] Instance CoreSprayGateReason_eq_dec : EqDecision CoreSprayGateReason.
Proof. solve_decision. Defined.

Record CoreSprayGate : Type := mk_gate {
  g_allow : bool;
  g_reason : CoreSprayGateReason;
  g_carried_budget_bytes : Z;
  g_own_outbound_budget_bytes : Z;
  g_own_receipt_budget_bytes : Z;
  g_retry_after_ms : Z;
  g_retry_worth_arming : bool;
}.

Inductive CoreSprayAdmissionReason : Type := AdmitEmpty | AdmitSetChanged | AdmitReofferLapsed | AdmitIdenticalSuppressed.

#[global] Instance CoreSprayAdmissionReason_eq_dec : EqDecision CoreSprayAdmissionReason.
Proof. solve_decision. Defined.

Record CoreSprayLanePlan : Type := mk_lane_plan { lp_set_digest : Z; lp_bytes : Z }.

Record CoreSprayPlanShape : Type := mk_shape {
  sh_carried : CoreSprayLanePlan;
  sh_own_outbound : CoreSprayLanePlan;
  sh_own_receipts : CoreSprayLanePlan;
}.

Record CoreSprayAdmission : Type := mk_admission {
  ad_send : bool;
  ad_send_carried : bool;
  ad_send_own_outbound : bool;
  ad_send_own_receipts : bool;
  ad_reason : CoreSprayAdmissionReason;
  ad_charged_bytes : Z;
  ad_reoffer_in_ms : Z;
}.

(** * The set digest *)

Definition fnv1a64 (bs : bytes) : Z :=
  fold_left (fun hash b => as_u64 (Z.lxor hash (Z_of_byte b) * 0x100000001b3)) bs 0xcbf29ce484222325.

(** The loop's three accumulators: wrapping sum, exclusive or, count. *)
Definition digest_step (acc : Z * Z * Z) (id : bytes) : Z * Z * Z :=
  let '(sum, xor, count) := acc in
  let h := fnv1a64 id in (as_u64 (sum + h), Z.lxor xor h, count + 1).

Definition spray_set_digest (msg_ids : list bytes) : Z :=
  let '(sum, xor, count) := fold_left digest_step msg_ids (0, 0, 0) in
  fnv1a64 (le_bytes 8 sum ++ le_bytes 8 xor ++ le_bytes 8 count).

(** * State *)

Record LaneState : Type := mk_lane_state { ls_digest : option Z; ls_sprayed_at_ms : Z }.

Definition default_lane : LaneState := mk_lane_state None I64_MIN.

Record PeerState : Type := mk_peer {
  pr_last_spray_at_ms : Z;
  pr_exchange_open_until_ms : Z;
  pr_quiet_rounds : Z;
  pr_journaled_quiet_rounds : option Z;
  pr_lanes : list LaneState;
  pr_touched_at_ms : Z;
}.

Definition LANE_CARRIED : nat := 0.
Definition LANE_OWN_OUTBOUND : nat := 1.
Definition LANE_OWN_RECEIPTS : nat := 2.

Definition new_peer (now_ms : Z) : PeerState :=
  mk_peer I64_MIN I64_MIN 0 None (replicate 3 default_lane) now_ms.

Definition ever_sprayed (peer : PeerState) : bool := negb (pr_last_spray_at_ms peer =? I64_MIN).

Definition since_last_spray_ms (peer : PeerState) (now_ms : Z) : Z :=
  if negb (ever_sprayed peer) then I64_MAX else i64_saturating_sub now_ms (pr_last_spray_at_ms peer).

Record LinkState : Type := mk_link {
  lk_tokens : Z;
  lk_last_refill_ms : Z;
  lk_touched_at_ms : Z;
  lk_journaled_exhausted : bool;
}.

Definition new_link (now_ms capacity : Z) : LinkState := mk_link capacity now_ms now_ms false.

Record SprayPolicyConfig : Type := mk_spray_config {
  reconnect_min_interval_ms : Z;
  exchange_window_ms : Z;
  first_contact_lapse_ms : Z;
  reoffer_interval_ms : Z;
  max_interval_ms : Z;
  quiet_max_shift : Z;
  link_burst_bytes : Z;
  link_drain_bytes_per_sec : Z;
  carried_budget_bytes : Z;
  own_outbound_budget_bytes : Z;
  own_receipt_budget_bytes : Z;
  retention_ms : Z;
}.

Definition default_spray_config : SprayPolicyConfig :=
  {| reconnect_min_interval_ms := RECONNECT_SPRAY_MIN_INTERVAL_MS;
     exchange_window_ms := SPRAY_EXCHANGE_WINDOW_MS;
     first_contact_lapse_ms := FIRST_CONTACT_LAPSE_MS;
     reoffer_interval_ms := IDENTICAL_SET_REOFFER_INTERVAL_MS;
     max_interval_ms := MAX_SPRAY_INTERVAL_MS;
     quiet_max_shift := RECEIPT_QUIET_MAX_SHIFT;
     link_burst_bytes := LINK_BURST_BYTES;
     link_drain_bytes_per_sec := LINK_DRAIN_BYTES_PER_SEC;
     carried_budget_bytes := CARRIED_SPRAY_BUDGET_BYTES;
     own_outbound_budget_bytes := OWN_OUTBOUND_SPRAY_BUDGET_BYTES;
     own_receipt_budget_bytes := OWN_RECEIPT_SPRAY_BUDGET_BYTES;
     retention_ms := SPRAY_STATE_RETENTION_MS |}.

Record SprayState : Type := mk_spray { sp_peers : gmap bytes PeerState; sp_links : gmap bytes LinkState }.

Definition spray_empty : SprayState := mk_spray ∅ ∅.

(** A decision worth a diagnostics record: entering or deepening the receipt-quiet
    back-off, or running out of burst. *)
Inductive GateRecord : Type := SprayDeferred (quiet_rounds : Z) | SprayBudgetExhausted.

(** * Operations *)

Section policy.
Context (config : SprayPolicyConfig).

Definition prune (state : SprayState) (now_ms : Z) : SprayState :=
  mk_spray (filter (fun kv => i64_saturating_sub now_ms (pr_touched_at_ms kv.2) <= retention_ms config) (sp_peers state))
           (filter (fun kv => i64_saturating_sub now_ms (lk_touched_at_ms kv.2) <= retention_ms config) (sp_links state)).

(** [entry(key).or_insert_with(new)] *)
Definition peer_entry (state : SprayState) (peer_key : bytes) (now_ms : Z) : PeerState :=
  default (new_peer now_ms) (sp_peers state !! peer_key).

Definition link_entry (state : SprayState) (link_key : bytes) (now_ms : Z) : LinkState :=
  default (new_link now_ms (link_burst_bytes config)) (sp_links state !! link_key).

Definition put_peer (peer_key : bytes) (peer : PeerState) (state : SprayState) : SprayState :=
  mk_spray (<[peer_key := peer]> (sp_peers state)) (sp_links state).

Definition put_link (link_key : bytes) (link : LinkState) (state : SprayState) : SprayState :=
  mk_spray (sp_peers state) (<[link_key := link]> (sp_links state)).

Definition refill_of (link : LinkState) (now_ms : Z) : Z :=
  as_u64 (i64_saturating_sub now_ms (lk_last_refill_ms link) * link_drain_bytes_per_sec config / 1000).

Definition refilled (link : LinkState) (now_ms : Z) : Z :=
  Z.min (u64_saturating_add (lk_tokens link) (refill_of link now_ms)) (link_burst_bytes config).

Definition allowance (state : SprayState) (link_key : bytes) (now_ms : Z) : SprayState * Z :=
  let link := link_entry state link_key now_ms in
  let elapsed := i64_saturating_sub now_ms (lk_last_refill_ms link) in
  let link :=
    if 0 <? elapsed then
      if 0 <? refill_of link now_ms
      then mk_link (refilled link now_ms) now_ms (lk_touched_at_ms link) (lk_journaled_exhausted link)
      else link
    else if elapsed <? 0
    then mk_link (lk_tokens link) now_ms (lk_touched_at_ms link) (lk_journaled_exhausted link)
    else link in
  let link := mk_link (lk_tokens link) (lk_last_refill_ms link) now_ms (lk_journaled_exhausted link) in
  (put_link link_key link state, lk_tokens link).

Definition ms_to_accrue (current target : Z) : Z :=
  if target <=? current then 0 else
  let missing := target - current in
  let rate := Z.max (link_drain_bytes_per_sec config) 1 in
  let ms := (missing * 1000 + (rate - 1)) / rate in
  if ms <=? I64_MAX then ms else I64_MAX.

Definition lane_budgets (allowance : Z) : Z * Z * Z :=
  let carried := carried_budget_bytes config in
  let outbound := own_outbound_budget_bytes config in
  let receipts := own_receipt_budget_bytes config in
  let total := Z.max (u64_saturating_add (u64_saturating_add carried outbound) receipts) 1 in
  if total <=? allowance then (carried, outbound, receipts) else
  let scale lane := as_u64 (lane * allowance / total) in
  (scale carried, scale outbound, scale receipts).

Definition interval_for (trigger : CoreSprayTrigger) (peer : PeerState) : Z :=
  let base := match trigger with
              | TriggerFirstContact | TriggerReconnect | TriggerPeerDigest => reconnect_min_interval_ms config
              | TriggerMaintenance => REDIGEST_MAX_INTERVAL_MS
              end in
  if decide (trigger = TriggerPeerDigest) then base else
  let shift := Z.min (pr_quiet_rounds peer) (quiet_max_shift config) in
  let stretched := i64_saturating_mul base (Z.shiftl 1 shift) in
  Z.max (Z.min stretched (max_interval_ms config)) base.

Definition debit (state : SprayState) (link_key : bytes) (bytes now_ms : Z) : SprayState :=
  let link := link_entry state link_key now_ms in
  let elapsed := i64_saturating_sub now_ms (lk_last_refill_ms link) in
  let link :=
    if 0 <? elapsed
    then mk_link (refilled link now_ms) now_ms (lk_touched_at_ms link) (lk_journaled_exhausted link)
    else if elapsed <? 0
    then mk_link (lk_tokens link) now_ms (lk_touched_at_ms link) (lk_journaled_exhausted link)
    else link in
  put_link link_key
    (mk_link (u64_saturating_sub (lk_tokens link) bytes) (lk_last_refill_ms link) now_ms (lk_journaled_exhausted link))
    state.

Definition admit_lane (lane : LaneState) (plan : CoreSprayLanePlan) (now_ms reoffer_interval_ms : Z)
  : LaneState * (bool * CoreSprayAdmissionReason * Z) :=
  if lp_bytes plan =? 0 then (lane, (false, AdmitEmpty, 0)) else
  let identical := bool_decide (ls_digest lane = Some (lp_set_digest plan)) in
  let since := if ls_sprayed_at_ms lane =? I64_MIN then I64_MAX
               else i64_saturating_sub now_ms (ls_sprayed_at_ms lane) in
  if identical && (since <? reoffer_interval_ms)
  then (lane, (false, AdmitIdenticalSuppressed, Z.max (reoffer_interval_ms - since) 1))
  else (mk_lane_state (Some (lp_set_digest plan)) now_ms,
        (true, if identical then AdmitReofferLapsed else AdmitSetChanged, 0)).

Definition gate_denied (reason : CoreSprayGateReason) (retry_after_ms : Z) : CoreSprayGate :=
  mk_gate false reason 0 0 0 retry_after_ms (retry_after_ms <=? SPRAY_RETRY_ARM_MAX_MS).

Definition jitter_seed (link_key : bytes) : Z := fnv1a64 link_key.

Definition note_quiet_backoff (state : SprayState) (peer_key : bytes) : SprayState * option GateRecord :=
  match sp_peers state !! peer_key with
  | None => (state, None)
  | Some peer =>
      if decide (pr_journaled_quiet_rounds peer = Some (pr_quiet_rounds peer)) then (state, None) else
      (put_peer peer_key (mk_peer (pr_last_spray_at_ms peer) (pr_exchange_open_until_ms peer) (pr_quiet_rounds peer)
         (Some (pr_quiet_rounds peer)) (pr_lanes peer) (pr_touched_at_ms peer)) state,
       Some (SprayDeferred (pr_quiet_rounds peer)))
  end.

Definition note_burst_exhausted (state : SprayState) (link_key : bytes) : SprayState * option GateRecord :=
  match sp_links state !! link_key with
  | None => (state, None)
  | Some link =>
      if lk_journaled_exhausted link then (state, None) else
      (put_link link_key (mk_link (lk_tokens link) (lk_last_refill_ms link) (lk_touched_at_ms link) true) state,
       Some SprayBudgetExhausted)
  end.

(** Whether the cadence lets the peer through, and why. *)
Definition cadence (peer : PeerState) (link_key : bytes) (trigger : CoreSprayTrigger) (now_ms : Z)
  : bool * CoreSprayGateReason :=
  let first_contact := bool_decide (trigger = TriggerFirstContact)
                       && (first_contact_lapse_ms config <=? since_last_spray_ms peer now_ms) in
  let exchange_open := bool_decide (trigger = TriggerPeerDigest) && (now_ms <? pr_exchange_open_until_ms peer) in
  if first_contact then (true, GateFirstContact)
  else if exchange_open then (true, GateExchangeOpen)
  else
    let interval := interval_for trigger peer in
    let elapsed := since_last_spray_ms peer now_ms in
    let due := if bool_decide (trigger = TriggerMaintenance) && (pr_quiet_rounds peer =? 0)
               then negb (ever_sprayed peer)
                    || should_redigest now_ms (pr_last_spray_at_ms peer) (jitter_seed link_key)
               else interval <=? elapsed in
    if due then (true, GateIntervalElapsed)
    else if 0 <? pr_quiet_rounds peer then (false, GateReceiptQuietBackoff)
    else (false, GateCadenceGated).

Definition decide_spray (state : SprayState) (peer_key link_key : bytes) (trigger : CoreSprayTrigger) (now_ms : Z)
  : SprayState * (CoreSprayGate * option GateRecord) :=
  let state := prune state now_ms in
  let '(state, allowance) := allowance state link_key now_ms in
  let peer := peer_entry state peer_key now_ms in
  let peer := mk_peer (pr_last_spray_at_ms peer) (pr_exchange_open_until_ms peer) (pr_quiet_rounds peer)
                (pr_journaled_quiet_rounds peer) (pr_lanes peer) now_ms in
  let state := put_peer peer_key peer state in
  let '(cadence_ok, reason) := cadence peer link_key trigger now_ms in
  if negb cadence_ok then
    let retry := Z.max (i64_saturating_sub (interval_for trigger peer) (since_last_spray_ms peer now_ms)) 1 in
    let '(state, record) := if decide (reason = GateReceiptQuietBackoff) then note_quiet_backoff state peer_key
                            else (state, None) in
    (state, (gate_denied reason retry, record))
  else
    let state := match sp_peers state !! peer_key with
                 | Some peer => put_peer peer_key (mk_peer (pr_last_spray_at_ms peer) (pr_exchange_open_until_ms peer)
                                  (pr_quiet_rounds peer) None (pr_lanes peer) (pr_touched_at_ms peer)) state
                 | None => state
                 end in
    let target := Z.min MIN_USEFUL_BURST_BYTES (link_burst_bytes config) in
    if allowance <? target then
      let retry := ms_to_accrue allowance target in
      let '(state, record) := note_burst_exhausted state link_key in
      (state, (gate_denied GateLinkBurstExhausted (Z.max retry 1), record))
    else
      let state := match sp_links state !! link_key with
                   | Some link => put_link link_key (mk_link (lk_tokens link) (lk_last_refill_ms link)
                                    (lk_touched_at_ms link) false) state
                   | None => state
                   end in
      let '(carried, outbound, receipts) := lane_budgets allowance in
      (state, (mk_gate true reason carried outbound receipts 0 false, None)).

Definition may_spray (state : SprayState) (peer_key link_key : bytes) (trigger : CoreSprayTrigger) (now_ms : Z)
  : SprayState * CoreSprayGate :=
  let '(state, (gate, _)) := decide_spray state peer_key link_key trigger now_ms in (state, gate).

Definition note_digest_only_sent (state : SprayState) (peer_key link_key : bytes) (now_ms : Z) : SprayState :=
  let state := prune state now_ms in
  let peer := peer_entry state peer_key now_ms in
  let peer := mk_peer (pr_last_spray_at_ms peer) (i64_saturating_add now_ms (exchange_window_ms config))
                (pr_quiet_rounds peer) (pr_journaled_quiet_rounds peer) (pr_lanes peer) now_ms in
  (allowance (put_peer peer_key peer state) link_key now_ms).1.

Definition note_digest_sent (state : SprayState) (peer_key link_key : bytes) (now_ms : Z) : SprayState :=
  let state := prune state now_ms in
  let peer := peer_entry state peer_key now_ms in
  let peer := mk_peer now_ms (i64_saturating_add now_ms (exchange_window_ms config))
                (pr_quiet_rounds peer) (pr_journaled_quiet_rounds peer) (pr_lanes peer) now_ms in
  (allowance (put_peer peer_key peer state) link_key now_ms).1.

(** The loop of [admit_plan] over the three lanes. *)
Record lane_tally : Type := mk_tally {
  ta_lanes : list LaneState;
  ta_sent : list bool;
  ta_charged_bytes : Z;
  ta_any_changed : bool;
  ta_any_lapsed : bool;
  ta_any_suppressed : bool;
  ta_soonest_reoffer : Z;
}.

Definition tally_lane (now_ms : Z) (t : lane_tally) (entry : nat * CoreSprayLanePlan) : lane_tally :=
  let '(index, plan) := entry in
  let '(lane, (send, reason, reoffer_in)) :=
    admit_lane (default default_lane (ta_lanes t !! index)) plan now_ms (reoffer_interval_ms config) in
  let lapsed := bool_decide (reason = AdmitReofferLapsed) in
  let suppressed := negb send && bool_decide (reason = AdmitIdenticalSuppressed) in
  {| ta_lanes := <[index := lane]> (ta_lanes t);
     ta_sent := <[index := send]> (ta_sent t);
     ta_charged_bytes := if send then u64_saturating_add (ta_charged_bytes t) (lp_bytes plan) else ta_charged_bytes t;
     ta_any_changed := ta_any_changed t || (send && negb lapsed);
     ta_any_lapsed := ta_any_lapsed t || (send && lapsed);
     ta_any_suppressed := ta_any_suppressed t || suppressed;
     ta_soonest_reoffer := if suppressed then Z.min (ta_soonest_reoffer t) reoffer_in else ta_soonest_reoffer t |}.

Definition tally_lanes (lanes : list LaneState) (plans : CoreSprayPlanShape) (now_ms : Z) : lane_tally :=
  fold_left (tally_lane now_ms)
    [(LANE_CARRIED, sh_carried plans); (LANE_OWN_OUTBOUND, sh_own_outbound plans);
     (LANE_OWN_RECEIPTS, sh_own_receipts plans)]
    (mk_tally lanes [false; false; false] 0 false false false I64_MAX).

Definition admit_plan (state : SprayState) (peer_key link_key : bytes) (lanes : CoreSprayPlanShape) (now_ms : Z)
  : SprayState * CoreSprayAdmission :=
  let state := prune state now_ms in
  let peer := peer_entry state peer_key now_ms in
  let t := tally_lanes (pr_lanes peer) lanes now_ms in
  let reason := if ta_any_changed t then AdmitSetChanged
                else if ta_any_lapsed t then AdmitReofferLapsed
                else if ta_any_suppressed t then AdmitIdenticalSuppressed
                else AdmitEmpty in
  let charged := 0 <? ta_charged_bytes t in
  let peer := mk_peer now_ms (pr_exchange_open_until_ms peer)
                (if charged then u32_saturating_add (pr_quiet_rounds peer) 1 else pr_quiet_rounds peer)
                (pr_journaled_quiet_rounds peer) (ta_lanes t) now_ms in
  let state := put_peer peer_key peer state in
  let state := if charged then debit state link_key (ta_charged_bytes t) now_ms else state in
  let sent i := default false (ta_sent t !! i) in
  (state,
   {| ad_send := existsb id (ta_sent t);
      ad_send_carried := sent LANE_CARRIED;
      ad_send_own_outbound := sent LANE_OWN_OUTBOUND;
      ad_send_own_receipts := sent LANE_OWN_RECEIPTS;
      ad_reason := reason;
      ad_charged_bytes := ta_charged_bytes t;
      ad_reoffer_in_ms := if ta_any_suppressed t then ta_soonest_reoffer t else 0 |}).

Definition note_bytes_queued (state : SprayState) (link_key : bytes) (bytes now_ms : Z) : SprayState :=
  if bytes =? 0 then state else debit (prune state now_ms) link_key bytes now_ms.

Definition note_receipt_progress (state : SprayState) (peer_key : bytes) (now_ms : Z) : SprayState :=
  let state := prune state now_ms in
  let peer := peer_entry state peer_key now_ms in
  put_peer peer_key (mk_peer (pr_last_spray_at_ms peer) (pr_exchange_open_until_ms peer) 0 None (pr_lanes peer) now_ms) state.

Definition quiet_rounds (state : SprayState) (peer_key : bytes) : Z :=
  match sp_peers state !! peer_key with Some peer => pr_quiet_rounds peer | None => 0 end.

Definition link_allowance_bytes (state : SprayState) (link_key : bytes) (now_ms : Z) : SprayState * Z :=
  allowance state link_key now_ms.

Definition note_link_closed (state : SprayState) (link_key : bytes) (now_ms : Z) : SprayState :=
  (allowance (prune state now_ms) link_key now_ms).1.

Definition clear_spray (state : SprayState) : SprayState := spray_empty.

End policy.

(** * Histories of calls *)

(** An encounter is what the shells do: ask, and when allowed put a plan that fits the
    answered budgets on the radio. *)
Inductive spray_call : Type :=
| Ask (peer_key link_key : bytes) (trigger : CoreSprayTrigger) (now_ms : Z)
| Encounter (peer_key link_key : bytes) (trigger : CoreSprayTrigger) (lanes : CoreSprayPlanShape) (now_ms : Z)
| AdmitPlan (peer_key link_key : bytes) (lanes : CoreSprayPlanShape) (now_ms : Z)
| DigestSent (peer_key link_key : bytes) (now_ms : Z)
| DigestOnlySent (peer_key link_key : bytes) (now_ms : Z)
| BytesQueued (link_key : bytes) (bytes now_ms : Z)
| ReceiptProgress (peer_key : bytes) (now_ms : Z)
| LinkClosed (link_key : bytes) (now_ms : Z)
| LinkAllowance (link_key : bytes) (now_ms : Z).

Definition spray_time (c : spray_call) : Z :=
  match c with
  | Ask _ _ _ now | Encounter _ _ _ _ now | AdmitPlan _ _ _ now | DigestSent _ _ now | DigestOnlySent _ _ now
  | BytesQueued _ _ now | ReceiptProgress _ now | LinkClosed _ now | LinkAllowance _ now => now
  end.

Definition fits_budgets (gate : CoreSprayGate) (lanes : CoreSprayPlanShape) : bool :=
  (0 <=? lp_bytes (sh_carried lanes)) && (lp_bytes (sh_carried lanes) <=? g_carried_budget_bytes gate)
  && (0 <=? lp_bytes (sh_own_outbound lanes)) && (lp_bytes (sh_own_outbound lanes) <=? g_own_outbound_budget_bytes gate)
  && (0 <=? lp_bytes (sh_own_receipts lanes)) && (lp_bytes (sh_own_receipts lanes) <=? g_own_receipt_budget_bytes gate).

Section runs.
Context (config : SprayPolicyConfig).

(** The state after a call, and the bytes a gated plan put on which link. *)
Definition spray_step (state : SprayState) (c : spray_call) : SprayState * option (bytes * Z) :=
  match c with
  | Ask p l tr now => ((may_spray config state p l tr now).1, None)
  | Encounter p l tr lanes now =>
      let '(state, gate) := may_spray config state p l tr now in
      if g_allow gate && fits_budgets gate lanes then
        let '(state, admission) := admit_plan config state p l lanes now in
        (state, Some (l, ad_charged_bytes admission))
      else (state, None)
  | AdmitPlan p l lanes now => ((admit_plan config state p l lanes now).1, None)
  | DigestSent p l now => (note_digest_sent config state p l now, None)
  | DigestOnlySent p l now => (note_digest_only_sent config state p l now, None)
  | BytesQueued l b now => (note_bytes_queued config state l b now, None)
  | ReceiptProgress p now => (note_receipt_progress config state p now, None)
  | LinkClosed l now => (note_link_closed config state l now, None)
  | LinkAllowance l now => ((link_allowance_bytes config state l now).1, None)
  end.

Fixpoint spray_run (state : SprayState) (h : list spray_call) : SprayState :=
  match h with [] => state | c :: h => spray_run (spray_step state c).1 h end.

(** Bytes the encounters of a history put on a link. *)
Fixpoint sent_on (l : bytes) (state : SprayState) (h : list spray_call) : Z :=
  match h with
  | [] => 0
  | c :: h =>
      let '(state, sent) := spray_step state c in
      match sent with
      | Some (l', b) => if decide (l' = l) then b else 0
      | None => 0
      end + sent_on l state h
  end.

End runs.

(** Byte counts are [u64]s. *)
Definition lanes_typed (lanes : CoreSprayPlanShape) : Prop :=
  in_u64 (lp_bytes (sh_carried lanes)) /\ in_u64 (lp_bytes (sh_own_outbound lanes))
  /\ in_u64 (lp_bytes (sh_own_receipts lanes)).

Definition call_typed (c : spray_call) : Prop :=
  match c with
  | Encounter _ _ _ lanes _ | AdmitPlan _ _ lanes _ => lanes_typed lanes
  | BytesQueued _ b _ => in_u64 b
  | _ => True
  end.

(** The shipped configuration and its like: the bucket refills within the retention and
    every interval fits in it. *)
Record spray_config_ok (c : SprayPolicyConfig) : Prop := {
  cfg_burst : in_u64 (link_burst_bytes c);
  cfg_rate : 1 <= link_drain_bytes_per_sec c <= 1048576;
  cfg_retention : 0 <= retention_ms c <= I64_MAX;
  cfg_refills : 1000 * link_burst_bytes c <= link_drain_bytes_per_sec c * retention_ms c;
  cfg_lanes : 0 <= carried_budget_bytes c /\ 0 <= own_outbound_budget_bytes c /\ 0 <= own_receipt_budget_bytes c
              /\ carried_budget_bytes c + own_outbound_budget_bytes c + own_receipt_budget_bytes c <= U64_MAX;
  cfg_interval : 1 <= reconnect_min_interval_ms c <= retention_ms c;
  cfg_redigest : REDIGEST_MAX_INTERVAL_MS <= retention_ms c;
  cfg_max_interval : 1 <= max_interval_ms c <= retention_ms c;
  cfg_shift : 0 <= quiet_max_shift c <= 62;
  cfg_reoffer : 0 <= reoffer_interval_ms c <= retention_ms c;
}.

Lemma default_config_ok : spray_config_ok default_spray_config.
Proof. split; vm_compute; intuition congruence. Qed.

(** * A link is a token bucket *)

Section bucket.
Context (c : SprayPolicyConfig) (Hc : spray_config_ok c).
Notation cap := (link_burst_bytes c).
Notation rate := (link_drain_bytes_per_sec c).

Record link_ok (now : Z) (link : LinkState) : Prop := {
  lo_tokens : 0 <= lk_tokens link <= cap;
  lo_refill : 0 <= lk_last_refill_ms link <= lk_touched_at_ms link;
  lo_touched : lk_touched_at_ms link <= now;
}.

(** What an entry of the map may hold after [spent] bytes since [t0]. *)
Definition bucket (t0 now spent : Z) (entry : option LinkState) : Prop :=
  match entry with
  | Some link => link_ok now link /\
      (spent = 0 \/ (t0 <= lk_last_refill_ms link
                     /\ 1000 * (spent + lk_tokens link) <= 1000 * cap + rate * (lk_last_refill_ms link - t0)))
  | None => spent = 0 \/ 1000 * spent <= rate * (now - t0)
  end.

Lemma link_ok_later now now' link : now <= now' -> link_ok now link -> link_ok now' link.
Proof. intros ? [? ? ?]. split; lia. Qed.

Lemma bucket_later t0 now now' spent o : now <= now' -> bucket t0 now spent o -> bucket t0 now' spent o.
Proof.
  intros Hn. destruct o as [link|]; cbn.
  - intros [Hl Hs]. split; [by apply (link_ok_later now)|done].
  - intros [?|Hs]; [by left|right]. destruct Hc.
    assert (rate * (now - t0) <= rate * (now' - t0)) by (apply Z.mul_le_mono_nonneg_l; lia). lia.
Qed.

Lemma bucket_prune t0 now now' spent st l :
  0 <= now <= now' -> now' <= I64_MAX -> bucket t0 now spent (sp_links st !! l) ->
  bucket t0 now' spent (sp_links (prune c st now') !! l).
Proof.
  intros Hn Hm Hb. unfold prune. cbn [sp_links]. rewrite map_lookup_filter.
  destruct (sp_links st !! l) as [link|]; cbn.
  - destruct Hb as [Hl Hs]. case_guard as Hkeep; cbn.
    + split; [by apply (link_ok_later now); [lia|]|done].
    + destruct Hs as [?|[Ht Hs]]; [by left|right]. destruct Hl as [? ? ?], Hc. cbn in Hkeep.
      assert (rate * retention_ms c <= rate * (now' - lk_last_refill_ms link)) by
        (apply Z.mul_le_mono_nonneg_l; ints). lia.
  - apply (bucket_later t0 now _ _ None); [lia|done].
Qed.

Lemma refill_bounds link now :
  0 <= now <= I64_MAX -> 0 <= lk_last_refill_ms link <= now ->
  0 <= refill_of c link now /\ 1000 * refill_of c link now <= rate * (now - lk_last_refill_ms link).
Proof.
  intros Hn Hl. unfold refill_of, i64_saturating_sub. rewrite sat_i64_id by ints.
  assert (0 <= (now - lk_last_refill_ms link) * rate) as H0 by (destruct Hc; apply Z.mul_nonneg_nonneg; lia).
  pose proof (Z.mul_div_le ((now - lk_last_refill_ms link) * rate) 1000 ltac:(lia)) as H1.
  assert (0 <= (now - lk_last_refill_ms link) * rate / 1000) as H2 by (apply Z.div_pos; lia).
  pose proof (Z.mod_pos_bound ((now - lk_last_refill_ms link) * rate / 1000) 18446744073709551616 ltac:(lia)).
  pose proof (Z.mod_le _ 18446744073709551616 H2 ltac:(lia)). unfold as_u64. lia.
Qed.

Lemma bucket_entry t0 now spent entry :
  t0 <= now -> 0 <= now -> bucket t0 now spent entry ->
  bucket t0 now spent (Some (default (new_link now cap) entry)).
Proof.
  intros Ht Hn. destruct entry as [link|]; cbn; [done|]. intros Hb. split.
  - split; cbn; destruct Hc as [[] ? ? ? ? ? ? ? ? ?]; lia.
  - destruct Hb as [?|Hb]; [by left|right]. lia.
Qed.

(** Refilling to now. *)
Lemma bucket_refill t0 now spent link touched flag :
  t0 <= now <= I64_MAX -> 0 <= now -> bucket t0 now spent (Some link) -> touched = now ->
  bucket t0 now spent (Some (mk_link (refilled c link now) now touched flag))
  /\ lk_tokens link <= refilled c link now.
Proof.
  intros Ht Hn [Hl Hs] ->. pose proof Hl as [Htk Hlr Hto].
  destruct (refill_bounds link now) as [Hr0 Hr1]; [lia..|].
  assert (refilled c link now <= lk_tokens link + refill_of c link now /\ lk_tokens link <= refilled c link now <= cap) as [H1 H2].
  { unfold refilled. pose proof (cfg_burst _ Hc). ints. }
  split; [|lia]. split; [split; cbn; lia|]. destruct Hs as [?|[Hs1 Hs2]]; [by left|right]. cbn. lia.
Qed.

Lemma bucket_touch t0 now spent link flag :
  bucket t0 now spent (Some link) ->
  bucket t0 now spent (Some (mk_link (lk_tokens link) (lk_last_refill_ms link) now flag)).
Proof. intros [[? ? ?] Hs]. split; [split; cbn; lia|exact Hs]. Qed.

Lemma elapsed_nonneg now link :
  0 <= now <= I64_MAX -> link_ok now link ->
  i64_saturating_sub now (lk_last_refill_ms link) = now - lk_last_refill_ms link
  /\ 0 <= now - lk_last_refill_ms link.
Proof. intros Hn [? ? ?]. ints. Qed.

(** Asking for the allowance keeps the bucket, and answers at least what was there. *)
Lemma bucket_allowance t0 now spent st l :
  t0 <= now <= I64_MAX -> 0 <= now -> bucket t0 now spent (sp_links st !! l) ->
  exists link, sp_links (allowance c st l now).1 !! l = Some link /\ lk_tokens link = (allowance c st l now).2
    /\ bucket t0 now spent (Some link)
    /\ lk_tokens (link_entry c st l now) <= lk_tokens link.
Proof.
  intros Ht Hn Hb. unfold allowance. set (link := link_entry c st l now).
  assert (bucket t0 now spent (Some link)) as He by (apply bucket_entry; [lia|lia|done]).
  cbn [fst snd sp_links put_link]. rewrite lookup_insert_eq. eexists. split; [reflexivity|]. split; [reflexivity|].
  destruct (elapsed_nonneg now link) as [-> Hel]; [lia|apply He|].
  destruct (0 <? now - lk_last_refill_ms link) eqn:Hpos.
  - destruct (0 <? refill_of c link now) eqn:Hr.
    + destruct (bucket_refill t0 now spent link now (lk_journaled_exhausted link)) as [H1 H2]; [lia|lia|done|done|].
      split; [exact H1|exact H2].
    + split; [by apply bucket_touch|cbn; lia].
  - rewrite (proj2 (Z.ltb_ge _ 0)) by lia. split; [by apply bucket_touch|cbn; lia].
Qed.

Lemma allowance_links st l l' now : l <> l' -> sp_links (allowance c st l' now).1 !! l = sp_links st !! l.
Proof. intros Hne. unfold allowance. cbn [fst sp_links put_link]. by rewrite lookup_insert_ne. Qed.

Lemma bucket_allowance_any t0 now spent st l l' :
  t0 <= now <= I64_MAX -> 0 <= now -> bucket t0 now spent (sp_links st !! l) ->
  bucket t0 now spent (sp_links (allowance c st l' now).1 !! l).
Proof.
  intros Ht Hn Hb. destruct (decide (l = l')) as [<-|Hne]; [|by rewrite allowance_links].
  by destruct (bucket_allowance t0 now spent st l Ht Hn Hb) as (link & -> & _ & ? & _).
Qed.

(** Charging bytes keeps the bucket, and bytes it holds may be counted as spent. *)
Lemma bucket_debit t0 now spent st l b b' :
  t0 <= now <= I64_MAX -> 0 <= now -> 0 <= b -> bucket t0 now spent (sp_links st !! l) ->
  b' = 0 \/ (b' = b /\ b <= lk_tokens (link_entry c st l now)) -> 0 <= spent ->
  bucket t0 now (spent + b') (sp_links (debit c st l b now) !! l).
Proof.
  intros Ht Hn Hb0 Hb Hb' Hsp. unfold debit. set (link := link_entry c st l now) in *.
  assert (bucket t0 now spent (Some link)) as He by (apply bucket_entry; [lia|lia|done]).
  cbn [sp_links put_link]. rewrite lookup_insert_eq.
  destruct (elapsed_nonneg now link) as [-> Hel]; [lia|apply He|].
  assert (forall link1, bucket t0 now spent (Some link1) -> lk_last_refill_ms link1 = now -> lk_tokens link <= lk_tokens link1 ->
    bucket t0 now (spent + b') (Some (mk_link (u64_saturating_sub (lk_tokens link1) b) (lk_last_refill_ms link1) now
                                        (lk_journaled_exhausted link1)))) as Hgo.
  { intros link1 [[Htk Hlr Hto] Hs] Hnow Hle. pose proof (cfg_burst _ Hc).
    assert (lk_tokens link1 - b <= u64_saturating_sub (lk_tokens link1) b <= cap /\ 0 <= u64_saturating_sub (lk_tokens link1) b
            /\ (b <= lk_tokens link1 -> u64_saturating_sub (lk_tokens link1) b = lk_tokens link1 - b)
            /\ u64_saturating_sub (lk_tokens link1) b <= lk_tokens link1) as (H1 & H2 & H3 & H4) by ints.
    split; [split; cbn; lia|]. cbn. rewrite Hnow in *.
    assert (0 <= rate * (now - t0)) by (destruct Hc; apply Z.mul_nonneg_nonneg; lia).
    destruct Hb' as [->|[-> Hfit]].
    - destruct Hs as [->|[Hs1 Hs2]]; [by left|right]. lia.
    - right. rewrite H3 by lia. destruct Hs as [->|[Hs1 Hs2]]; lia. }
  destruct (0 <? now - lk_last_refill_ms link) eqn:Hpos.
  - destruct (bucket_refill t0 now spent link now (lk_journaled_exhausted link)) as [H1 H2]; [lia|lia|done|done|].
    specialize (Hgo _ H1 eq_refl H2). exact Hgo.
  - rewrite (proj2 (Z.ltb_ge _ 0)) by lia. apply Hgo; [done|lia|lia].
Qed.

Lemma debit_links st l l' b now : l <> l' -> sp_links (debit c st l' b now) !! l = sp_links st !! l.
Proof. intros Hne. unfold debit. cbn [sp_links put_link]. by rewrite lookup_insert_ne. Qed.

Lemma bucket_debit_any t0 now spent st l l' b :
  t0 <= now <= I64_MAX -> 0 <= now -> 0 <= b -> 0 <= spent -> bucket t0 now spent (sp_links st !! l) ->
  bucket t0 now spent (sp_links (debit c st l' b now) !! l).
Proof.
  intros Ht Hn Hb0 Hsp Hb. destruct (decide (l = l')) as [<-|Hne]; [|by rewrite debit_links].
  replace spent with (spent + 0) by lia. apply bucket_debit; auto.
Qed.

Lemma scaled_share lane a total : 0 <= lane -> 0 <= a -> 1 <= total ->
  0 <= as_u64 (lane * a / total) /\ total * as_u64 (lane * a / total) <= lane * a.
Proof.
  intros Hl Ha Ht. assert (0 <= lane * a) as H0 by lia.
  pose proof (Z.mul_div_le (lane * a) total ltac:(lia)) as H1.
  assert (0 <= lane * a / total) as H2 by (apply Z.div_pos; lia).
  pose proof (Z.mod_pos_bound (lane * a / total) 18446744073709551616 ltac:(lia)) as H3.
  pose proof (Z.mod_le _ 18446744073709551616 H2 ltac:(lia)) as H4. unfold as_u64. split; [lia|].
  etransitivity; [|exact H1]. apply Z.mul_le_mono_nonneg_l; lia.
Qed.

(** The three lanes share what the link has, and no more. *)
Lemma lane_budgets_fit a carried outbound receipts :
  0 <= a -> lane_budgets c a = (carried, outbound, receipts) ->
  0 <= carried /\ 0 <= outbound /\ 0 <= receipts /\ carried + outbound + receipts <= a.
Proof.
  intros Ha. unfold lane_budgets. destruct (cfg_lanes _ Hc) as (H1 & H2 & H3 & H4).
  set (x := carried_budget_bytes c) in *. set (y := own_outbound_budget_bytes c) in *. set (z := own_receipt_budget_bytes c) in *.
  assert (u64_saturating_add (u64_saturating_add x y) z = x + y + z) as -> by ints.
  set (total := Z.max (x + y + z) 1). assert (1 <= total /\ x + y + z <= total) as [Ht1 Ht2] by lia.
  destruct (total <=? a) eqn:Hle; intros [= <- <- <-]; [lia|].
  destruct (scaled_share x a total) as [A1 A2]; [done..|]. destruct (scaled_share y a total) as [B1 B2]; [done..|].
  destruct (scaled_share z a total) as [C1 C2]; [done..|]. split_and!; [done..|].
  apply (Z.mul_le_mono_pos_l _ _ total); [lia|].
  assert ((x + y + z) * a <= total * a) by (apply Z.mul_le_mono_nonneg_r; lia). lia.
Qed.

Lemma tally_charged lanes plans now : lanes_typed plans ->
  0 <= ta_charged_bytes (tally_lanes c lanes plans now)
    <= lp_bytes (sh_carried plans) + lp_bytes (sh_own_outbound plans) + lp_bytes (sh_own_receipts plans).
Proof.
  intros (H1 & H2 & H3).
  assert (forall t e, 0 <= ta_charged_bytes t -> in_u64 (lp_bytes e.2) ->
    0 <= ta_charged_bytes (tally_lane c now t e) <= ta_charged_bytes t + lp_bytes e.2) as Hstep.
  { intros t [i plan] Ht Hp. unfold tally_lane. destruct (admit_lane _ _ _ _) as [lane [[send reason] re]]. cbn in *.
    destruct send; ints. }
  unfold tally_lanes. cbn [fold_left].
  set (t0 := mk_tally _ _ _ _ _ _ _). pose proof (Hstep t0 (LANE_CARRIED, sh_carried plans) ltac:(cbn; lia) H1) as A.
  pose proof (Hstep _ (LANE_OWN_OUTBOUND, sh_own_outbound plans) (proj1 A) H2) as B.
  pose proof (Hstep _ (LANE_OWN_RECEIPTS, sh_own_receipts plans) (proj1 B) H3) as D. cbn in A, B, D |- *. lia.
Qed.

Lemma note_quiet_links st p l : sp_links (note_quiet_backoff st p).1 !! l = sp_links st !! l.
Proof. unfold note_quiet_backoff. by repeat case_match. Qed.

(** Only the diagnostics flag of a link differs. *)
Definition same_bucket (o o' : option LinkState) : Prop :=
  match o, o' with
  | Some a, Some b => lk_tokens a = lk_tokens b /\ lk_last_refill_ms a = lk_last_refill_ms b
                      /\ lk_touched_at_ms a = lk_touched_at_ms b
  | None, None => True
  | _, _ => False
  end.

Lemma same_bucket_refl o : same_bucket o o.
Proof. by destruct o. Qed.

Lemma bucket_same t0 now spent o o' : same_bucket o o' -> bucket t0 now spent o -> bucket t0 now spent o'.
Proof.
  destruct o as [a|], o' as [b|]; cbn; try done. intros (H1 & H2 & H3) [[? ? ?] Hs].
  split; [split; lia|]. by rewrite <- H1, <- H2.
Qed.

Lemma flagged_same f st l l' :
  same_bucket (sp_links st !! l)
    (sp_links (match sp_links st !! l' with
               | Some link => put_link l' (mk_link (lk_tokens link) (lk_last_refill_ms link) (lk_touched_at_ms link) f) st
               | None => st end) !! l).
Proof.
  destruct (sp_links st !! l') as [link|] eqn:Hl; [|apply same_bucket_refl]. cbn [put_link sp_links].
  destruct (decide (l = l')) as [<-|Hne]; [rewrite lookup_insert_eq, Hl; done|].
  rewrite lookup_insert_ne by done. apply same_bucket_refl.
Qed.

Lemma note_burst_same st l l' : same_bucket (sp_links st !! l) (sp_links (note_burst_exhausted st l').1 !! l).
Proof.
  pose proof (flagged_same true st l l') as Hf. unfold note_burst_exhausted.
  destruct (sp_links st !! l') as [link|]; [|apply same_bucket_refl].
  destruct (lk_journaled_exhausted link); [apply same_bucket_refl|exact Hf].
Qed.

(** What a question does to the links: it refills the one asked about. *)
Lemma may_spray_links st p l tr now l' :
  same_bucket (sp_links (allowance c (prune c st now) l now).1 !! l') (sp_links (may_spray c st p l tr now).1 !! l').
Proof.
  unfold may_spray, decide_spray. destruct (allowance c (prune c st now) l now) as [st1 a] eqn:Ha. cbn [fst].
  set (peer := mk_peer _ _ _ _ _ _). set (st2 := put_peer p peer st1).
  assert (forall x, same_bucket (sp_links st1 !! l') x = same_bucket (sp_links st2 !! l') x) as Hst by done.
  destruct (cadence c peer l tr now) as [ok reason]. destruct ok; cbn [negb].
  - set (st3 := match sp_peers st2 !! p with Some _ => _ | None => _ end).
    assert (sp_links st3 = sp_links st2) as H3 by (unfold st3; by destruct (sp_peers st2 !! p)).
    rewrite Hst. rewrite <- H3. destruct (_ <? _).
    + pose proof (note_burst_same st3 l' l) as Hb. destruct (note_burst_exhausted st3 l). exact Hb.
    + pose proof (flagged_same false st3 l' l) as Hf. destruct (lane_budgets c a) as [[? ?] ?]. exact Hf.
  - rewrite Hst. destruct (decide _).
    + pose proof (note_quiet_links st2 p l') as Hq. destruct (note_quiet_backoff st2 p) as [st3 r]. cbn in Hq |- *.
      rewrite Hq. apply same_bucket_refl.
    + apply same_bucket_refl.
Qed.

Lemma may_spray_budgets st p l tr now g st' :
  may_spray c st p l tr now = (st', g) -> g_allow g = true ->
  lane_budgets c (allowance c (prune c st now) l now).2
  = (g_carried_budget_bytes g, g_own_outbound_budget_bytes g, g_own_receipt_budget_bytes g).
Proof.
  unfold may_spray, decide_spray. destruct (allowance c (prune c st now) l now) as [st1 a]. cbn [snd].
  destruct (cadence _ _ _ _ _) as [ok reason]. destruct ok; cbn [negb].
  - destruct (_ <? _).
    + destruct (note_burst_exhausted _ _). intros [= _ <-]. done.
    + destruct (lane_budgets c a) as [[x y] z]. by intros [= _ <-].
  - destruct (decide _); [destruct (note_quiet_backoff _ _)|]; intros [= _ <-]; done.
Qed.

(** The bytes of one call on [l]. *)
Definition bytes_on (l : bytes) (sent : option (bytes * Z)) : Z :=
  match sent with Some (l', b) => if decide (l' = l) then b else 0 | None => 0 end.

Lemma bucket_ask t0 now spent st p l' tr now' l :
  0 <= now <= now' -> t0 <= now' <= I64_MAX -> bucket t0 now spent (sp_links st !! l) ->
  bucket t0 now' spent (sp_links (may_spray c st p l' tr now').1 !! l).
Proof.
  intros Hn Ht Hb. eapply bucket_same; [apply may_spray_links|].
  apply bucket_allowance_any; [lia|lia|]. apply (bucket_prune t0 now); [done|lia|done].
Qed.

Lemma bucket_admit t0 now spent st p l' lanes now' l b' :
  0 <= now <= now' -> t0 <= now' <= I64_MAX -> 0 <= spent -> lanes_typed lanes ->
  bucket t0 now spent (sp_links st !! l) ->
  let b := ad_charged_bytes (admit_plan c st p l' lanes now').2 in
  b' = 0 \/ (b' = b /\ l' = l /\ b <= lk_tokens (link_entry c (prune c st now') l now')) ->
  0 <= b /\ bucket t0 now' (spent + b') (sp_links (admit_plan c st p l' lanes now').1 !! l).
Proof.
  intros Hn Ht Hsp Hty Hb b Hb'. assert (bucket t0 now' spent (sp_links (prune c st now') !! l)) as Hp
    by (apply (bucket_prune t0 now); [done|lia|done]).
  unfold admit_plan in *. set (peer := peer_entry (prune c st now') p now') in *.
  pose proof (tally_charged (pr_lanes peer) lanes now' Hty) as Hch. unfold b in *. clear b. cbn [fst snd ad_charged_bytes] in *.
  set (ch := ta_charged_bytes _) in *. split; [lia|]. destruct (0 <? ch) eqn:Hpos.
  - set (st1 := put_peer _ _ _). assert (sp_links st1 = sp_links (prune c st now')) as Hl by done.
    assert (link_entry c st1 l now' = link_entry c (prune c st now') l now') as He by (unfold link_entry; by rewrite Hl).
    destruct Hb' as [->|(-> & -> & Hfit)].
    + rewrite Z.add_0_r. apply bucket_debit_any; [lia|lia|lia|lia|]. by rewrite Hl.
    + apply bucket_debit; [lia|lia|lia|by rewrite Hl|right; by rewrite He|lia].
  - assert (b' = 0) as -> by lia. rewrite Z.add_0_r. exact Hp.
Qed.

Lemma bucket_peer_only t0 now spent st now' l p peer :
  0 <= now <= now' -> now' <= I64_MAX -> bucket t0 now spent (sp_links st !! l) ->
  bucket t0 now' spent (sp_links (put_peer p peer (prune c st now')) !! l).
Proof. intros Hn Hm Hb. apply (bucket_prune t0 now); [done|lia|done]. Qed.

(** What the link holds after a question covers the answered budgets. *)
Lemma gate_covers t0 now spent st p l tr now' st' g :
  0 <= now <= now' -> t0 <= now' <= I64_MAX -> bucket t0 now spent (sp_links st !! l) ->
  may_spray c st p l tr now' = (st', g) -> g_allow g = true ->
  g_carried_budget_bytes g + g_own_outbound_budget_bytes g + g_own_receipt_budget_bytes g
  <= lk_tokens (link_entry c (prune c st' now') l now').
Proof.
  intros Hn Ht Hb Hm Ha. pose proof (may_spray_budgets _ _ _ _ _ _ _ Hm Ha) as Hbud.
  assert (bucket t0 now' spent (sp_links (prune c st now') !! l)) as Hp by (apply (bucket_prune t0 now); [done|lia|done]).
  destruct (bucket_allowance t0 now' spent _ l ltac:(lia) ltac:(lia) Hp) as (link & Hlk & Htok & [Hok _] & _).
  pose proof (may_spray_links st p l tr now' l) as Hs. rewrite Hm in Hs. cbn [fst] in Hs. rewrite Hlk in Hs.
  destruct (lane_budgets_fit (allowance c (prune c st now') l now').2 _ _ _
    ltac:(rewrite <- Htok; apply Hok) Hbud) as (_ & _ & _ & Hfit).
  rewrite <- Htok in Hfit. etransitivity; [exact Hfit|]. unfold link_entry, prune. cbn [sp_links].
  rewrite map_lookup_filter. destruct (sp_links st' !! l) as [link'|]; [|done]. destruct Hs as (Hs & _ & _). cbn.
  case_guard; cbn; [lia|]. destruct Hok as [? _ _]. lia.
Qed.

Lemma step_bucket t0 now spent st call l :
  0 <= now <= spray_time call -> t0 <= spray_time call <= I64_MAX -> 0 <= spent -> call_typed call ->
  bucket t0 now spent (sp_links st !! l) ->
  0 <= bytes_on l (spray_step c st call).2 /\
  bucket t0 (spray_time call) (spent + bytes_on l (spray_step c st call).2) (sp_links (spray_step c st call).1 !! l).
Proof.
  intros Hn Ht Hsp Hty Hb.
  destruct call as [p l' tr t|p l' tr lanes t|p l' lanes t|p l' t|p l' t|l' b t|p t|l' t|l' t];
    cbn [spray_time spray_step call_typed] in *; cbn [fst snd bytes_on]; rewrite ?Z.add_0_r.
  - split; [lia|]. by apply (bucket_ask t0 now).
  - pose proof (bucket_ask t0 now spent st p l' tr t l Hn Ht Hb) as Hk.
    destruct (may_spray c st p l' tr t) as [st1 g] eqn:Hm. cbn [fst] in Hk.
    destruct (g_allow g && fits_budgets g lanes) eqn:Hgo; cbn [fst snd bytes_on];
      [|rewrite Z.add_0_r; split; [lia|done]].
    apply andb_true_iff in Hgo as [Hal Hfit].
    pose proof (bucket_admit t0 t spent st1 p l' lanes t l
      (if decide (l' = l) then ad_charged_bytes (admit_plan c st1 p l' lanes t).2 else 0)
      ltac:(lia) Ht Hsp Hty Hk) as Had. cbn zeta in Had.
    destruct (admit_plan c st1 p l' lanes t) as [st2 ad] eqn:Hadm. cbn [fst snd bytes_on] in *.
    destruct (decide (l' = l)) as [->|Hne].
    + destruct Had as [H1 H2]; [|split; done]. right. split_and!; [done|done|].
      pose proof (gate_covers t0 now spent st p l tr t st1 g Hn Ht Hb Hm Hal) as Hcov.
      assert (ad_charged_bytes ad <= lp_bytes (sh_carried lanes) + lp_bytes (sh_own_outbound lanes)
                                     + lp_bytes (sh_own_receipts lanes)) as Hch.
      { unfold admit_plan in Hadm. injection Hadm as _ <-. cbn [ad_charged_bytes]. by apply tally_charged. }
      unfold fits_budgets in Hfit. lia.
    + destruct Had as [H1 H2]; [by left|]. split; [lia|done].
  - split; [lia|]. destruct (bucket_admit t0 now spent st p l' lanes t l 0) as [_ H]; auto. by rewrite Z.add_0_r in H.
  - split; [lia|]. apply bucket_allowance_any; [lia|lia|]. by apply (bucket_peer_only t0 now); [|lia|].
  - split; [lia|]. apply bucket_allowance_any; [lia|lia|]. by apply (bucket_peer_only t0 now); [|lia|].
  - split; [lia|]. unfold note_bytes_queued. destruct (b =? 0) eqn:Hz.
    + by apply (bucket_later t0 now); [lia|].
    + apply bucket_debit_any; [lia|lia|ints|lia|]. by apply (bucket_prune t0 now); [|lia|].
  - split; [lia|]. by apply (bucket_peer_only t0 now); [|lia|].
  - split; [lia|]. apply bucket_allowance_any; [lia|lia|]. by apply (bucket_prune t0 now); [|lia|].
  - split; [lia|]. unfold link_allowance_bytes. apply bucket_allowance_any; [lia|lia|].
    by apply (bucket_later t0 now); [lia|].
Qed.

(** Calls in time order from [now], and the time of the last. *)
Fixpoint timely (now : Z) (h : list spray_call) : Prop :=
  match h with [] => True | call :: h => now <= spray_time call <= I64_MAX /\ timely (spray_time call) h end.

Fixpoint end_time (now : Z) (h : list spray_call) : Z :=
  match h with [] => now | call :: h => end_time (spray_time call) h end.

Lemma run_bucket t0 now spent st h l :
  0 <= t0 <= now -> timely now h -> Forall call_typed h -> 0 <= spent -> bucket t0 now spent (sp_links st !! l) ->
  0 <= sent_on c l st h /\
  bucket t0 (end_time now h) (spent + sent_on c l st h) (sp_links (spray_run c st h) !! l) /\ now <= end_time now h.
Proof.
  revert now spent st. induction h as [|call h IH]; intros now spent st Ht Htm Hty Hsp Hb.
  - cbn [sent_on spray_run end_time]. rewrite Z.add_0_r. split; [lia|]. split; [done|lia].
  - destruct Htm as [Hcall Htm]. apply Forall_cons_1 in Hty as [Hc1 Hty].
    destruct (step_bucket t0 now spent st call l) as [H0 H1]; [lia|lia|done|done|done|].
    cbn [sent_on spray_run end_time]. destruct (spray_step c st call) as [st' sent]. cbn [fst snd] in H0, H1.
    change (match sent with Some (l', b) => if decide (l' = l) then b else 0 | None => 0 end) with (bytes_on l sent).
    destruct (IH (spray_time call) (spent + bytes_on l sent) st') as (H2 & H3 & H4); [lia|done|done|lia|done|].
    rewrite Z.add_assoc. split_and!; [lia|done|lia].
Qed.

(** A link is a token bucket.  Whatever the calls and for however many peers, and
    however often the link closes and returns, the plans put on a link under the answered
    budgets in any stretch of time are at most one burst plus the drain rate over that
    stretch (the policy's maps not being cleared within it); bytes the shell reports
    besides only make it less. *)
Theorem link_rate_bounded h1 h2 t0 l :
  timely 0 h1 -> end_time 0 h1 <= t0 -> timely t0 h2 -> Forall call_typed (h1 ++ h2) ->
  1000 * sent_on c l (spray_run c spray_empty h1) h2
  <= 1000 * link_burst_bytes c + link_drain_bytes_per_sec c * (end_time t0 h2 - t0).
Proof.
  intros H1 He H2 [Ht1 Ht2]%Forall_app.
  destruct (run_bucket 0 0 0 spray_empty h1 l) as (_ & Hb1 & Hle); [lia|done|done|lia|by left|].
  assert (bucket t0 t0 0 (sp_links (spray_run c spray_empty h1) !! l)) as Hb.
  { destruct (sp_links (spray_run c spray_empty h1) !! l) as [link|]; [|by left]. destruct Hb1 as [Hl _].
    split; [by apply (link_ok_later (end_time 0 h1))|by left]. }
  destruct (run_bucket t0 t0 0 (spray_run c spray_empty h1) h2 l) as (_ & Hb2 & Hle2); [lia|done|done|lia|exact Hb|].
  assert (0 <= link_drain_bytes_per_sec c * (end_time t0 h2 - t0)) by (destruct Hc; apply Z.mul_nonneg_nonneg; lia).
  destruct (sp_links (spray_run c (spray_run c spray_empty h1) h2) !! l) as [link|]; cbn in Hb2; pose proof (cfg_burst _ Hc) as [? ?].
  - destruct Hb2 as [[Htk Hlr Hto] [Hz|[Hr Hs]]]; [lia|].
    assert (link_drain_bytes_per_sec c * (lk_last_refill_ms link - t0)
            <= link_drain_bytes_per_sec c * (end_time t0 h2 - t0)) by (destruct Hc; apply Z.mul_le_mono_nonneg_l; lia). lia.
  - lia.
Qed.

(** * No refusal is permanent *)

(** What the cadence reads of a peer. *)
Definition core_of (peer : PeerState) : Z * Z * Z :=
  (pr_last_spray_at_ms peer, pr_exchange_open_until_ms peer, pr_quiet_rounds peer).

Lemma cadence_core peer peer' l tr now : core_of peer = core_of peer' ->
  cadence c peer l tr now = cadence c peer' l tr now
  /\ interval_for c tr peer = interval_for c tr peer' /\ since_last_spray_ms peer now = since_last_spray_ms peer' now.
Proof.
  unfold core_of. intros [= H1 H2 H3]. unfold cadence, interval_for, since_last_spray_ms, ever_sprayed. by rewrite H1, H2, H3.
Qed.

Definition burst_target : Z := Z.min MIN_USEFUL_BURST_BYTES cap.

Lemma ask_spec st p l tr now :
  let peer := peer_entry (prune c st now) p now in
  let a := (allowance c (prune c st now) l now).2 in
  let g := (may_spray c st p l tr now).2 in
  let ok := (cadence c peer l tr now).1 in
  g_allow g = ok && (burst_target <=? a)
  /\ (ok = false -> g_retry_after_ms g = Z.max (i64_saturating_sub (interval_for c tr peer) (since_last_spray_ms peer now)) 1)
  /\ (ok = true -> a < burst_target -> g_retry_after_ms g = Z.max (ms_to_accrue c a burst_target) 1)
  /\ exists peer', sp_peers (may_spray c st p l tr now).1 = <[p := peer']> (sp_peers (prune c st now))
                   /\ core_of peer' = core_of peer
                   /\ pr_touched_at_ms peer' = now.
Proof.
  intros peer a g ok. unfold g. clear g. unfold may_spray, decide_spray.
  assert (sp_peers (allowance c (prune c st now) l now).1 = sp_peers (prune c st now)) as Hpe by done.
  unfold a. clear a. destruct (allowance c (prune c st now) l now) as [st1 a]. cbn [fst snd] in *.
  assert (peer_entry st1 p now = peer) as -> by (unfold peer_entry; by rewrite Hpe).
  set (peer1 := mk_peer _ _ _ _ _ now). assert (core_of peer1 = core_of peer) as Hco by done.
  destruct (cadence_core peer1 peer l tr now Hco) as (Hca & Hiv & Hsi). rewrite Hca, Hiv, Hsi. unfold ok. clear ok Hca Hiv Hsi.
  destruct (cadence c peer l tr now) as [[] reason]; cbn [fst negb andb].
  - cbn [put_peer sp_peers]. rewrite lookup_insert_eq. fold burst_target.
    destruct (a <? burst_target) eqn:Hlt.
    + rewrite (proj2 (Z.leb_gt burst_target a)) by lia. unfold note_burst_exhausted. cbn [put_peer sp_links].
      destruct (sp_links st1 !! l) as [link|]; [destruct (lk_journaled_exhausted link)|];
        (split_and!; [done|done|done|]; eexists; split_and!; [cbn [fst put_peer put_link sp_peers]; by rewrite ?insert_insert_eq, Hpe|done|done]).
    + rewrite (proj2 (Z.leb_le burst_target a)) by lia. destruct (lane_budgets c a) as [[x y] z]. cbn [fst snd g_allow g_retry_after_ms].
      split_and!; [done|done|lia|]. cbn [put_peer sp_links].
      destruct (sp_links st1 !! l) as [link|]; (eexists; split_and!; [cbn [fst put_peer put_link sp_peers]; by rewrite ?insert_insert_eq, Hpe|done|done]).
  - destruct (decide (reason = GateReceiptQuietBackoff)).
    + unfold note_quiet_backoff. cbn [put_peer sp_peers]. rewrite lookup_insert_eq.
      destruct (decide (pr_journaled_quiet_rounds peer1 = Some (pr_quiet_rounds peer1)));
        (split_and!; [done|done|done|]; eexists; split_and!; [cbn [fst put_peer put_link sp_peers]; by rewrite ?insert_insert_eq, Hpe|done|done]).
    + split_and!; [done|done|done|]. eexists. split_and!; [cbn [fst put_peer sp_peers]; by rewrite Hpe|done|done].
Qed.

Definition peer_ok (now : Z) (peer : PeerState) : Prop :=
  (pr_last_spray_at_ms peer = I64_MIN \/ 0 <= pr_last_spray_at_ms peer <= now) /\ 0 <= pr_quiet_rounds peer.

Definition peers_ok (now : Z) (st : SprayState) : Prop := map_Forall (fun _ => peer_ok now) (sp_peers st).

Lemma peer_ok_later now now' peer : now <= now' -> peer_ok now peer -> peer_ok now' peer.
Proof. intros Hn [[?|?] ?]; split; auto with lia. Qed.

Lemma peers_later now now' st : now <= now' -> peers_ok now st -> peers_ok now' st.
Proof. intros Hn Hok k x Hx. by apply (peer_ok_later now), (Hok k x Hx). Qed.

Lemma peers_prune now st t : peers_ok now st -> peers_ok now (prune c st t).
Proof. unfold peers_ok, prune. cbn. intros H k x [Hx _]%map_lookup_filter_Some. by apply H in Hx. Qed.

Lemma peers_put now st p peer : peer_ok now peer -> peers_ok now st -> peers_ok now (put_peer p peer st).
Proof. intros H1 H2. by apply map_Forall_insert_2. Qed.

Lemma peer_entry_ok now st p : peers_ok now st -> peer_ok now (peer_entry st p now).
Proof.
  intros H. unfold peer_entry. destruct (sp_peers st !! p) as [peer|] eqn:Hp; [by apply H in Hp|].
  split; [by left|cbn; lia].
Qed.

Lemma peer_ok_core now peer peer' : core_of peer = core_of peer' -> peer_ok now peer -> peer_ok now peer'.
Proof. unfold core_of, peer_ok. by intros [= -> _ ->]. Qed.

(** A peer's record is only ever stamped with the present. *)
Lemma step_peers now st call :
  0 <= now <= spray_time call -> peers_ok now st -> peers_ok (spray_time call) (spray_step c st call).1.
Proof.
  intros Hn Hok. apply (peers_later _ (spray_time call)) in Hok; [|lia].
  assert (forall st p l tr t, peers_ok t st -> peers_ok t (may_spray c st p l tr t).1) as Hask.
  { intros st1 p l tr t H1. destruct (ask_spec st1 p l tr t) as (_ & _ & _ & peer' & Hp & Hco & _).
    unfold peers_ok. rewrite Hp. apply map_Forall_insert_2; [|by apply peers_prune].
    apply (peer_ok_core _ _ _ (eq_sym Hco)). by apply peer_entry_ok, peers_prune. }
  assert (forall st p l lanes t, 0 <= t -> peers_ok t st -> peers_ok t (admit_plan c st p l lanes t).1) as Hadmit.
  { intros st1 p l lanes t H0 H1. unfold admit_plan. cbn [fst].
    assert (peers_ok t (prune c st1 t)) as H2 by by apply peers_prune.
    destruct (peer_entry_ok t _ p H2) as [_ Hq].
    match goal with |- peers_ok _ (if ?b then debit _ ?s _ _ _ else ?s) =>
      assert (peers_ok t s) as H3; [|by destruct b] end.
    apply peers_put; [|done]. split; cbn; [right; lia|]. destruct (0 <? _); ints. }
  assert (forall st p last ex t, (last = t \/ last = pr_last_spray_at_ms (peer_entry (prune c st t) p t)) -> 0 <= t -> peers_ok t st ->
    peers_ok t (put_peer p (mk_peer last ex (pr_quiet_rounds (peer_entry (prune c st t) p t))
      (pr_journaled_quiet_rounds (peer_entry (prune c st t) p t)) (pr_lanes (peer_entry (prune c st t) p t)) t) (prune c st t))) as Hdig.
  { intros st1 p last ex t Hl H0 H1. assert (peers_ok t (prune c st1 t)) as H2 by by apply peers_prune.
    destruct (peer_entry_ok t _ p H2) as [Hls Hq]. apply peers_put; [|done]. split; cbn; [|done].
    destruct Hl as [->| ->]; [right; lia|done]. }
  destruct call as [p l' tr t|p l' tr lanes t|p l' lanes t|p l' t|p l' t|l' b t|p t|l' t|l' t]; cbn [spray_step spray_time fst] in *.
  - by apply Hask.
  - specialize (Hask st p l' tr t Hok). destruct (may_spray c st p l' tr t) as [st1 g]. cbn [fst] in Hask.
    destruct (g_allow g && fits_budgets g lanes); [|done]. specialize (Hadmit st1 p l' lanes t ltac:(lia) Hask).
    by destruct (admit_plan c st1 p l' lanes t).
  - by apply Hadmit; [lia|].
  - apply (Hdig st p t _ t); [by left|lia|done].
  - apply (Hdig st p _ _ t); [by right|lia|done].
  - unfold note_bytes_queued. destruct (b =? 0); [done|]. by apply (peers_prune t).
  - unfold note_receipt_progress. apply peers_put; [|by apply peers_prune].
    destruct (peer_entry_ok t (prune c st t) p (peers_prune t st t Hok)) as [? ?]. split; cbn; [done|lia].
  - by apply (peers_prune t).
  - done.
Qed.

Lemma run_peers now st h : 0 <= now -> timely now h -> peers_ok now st -> peers_ok (end_time now h) (spray_run c st h).
Proof.
  revert now st. induction h as [|call h IH]; intros now st Hn Ht Hok; cbn [spray_run end_time]; [done|].
  destruct Ht as [Hcall Ht]. apply IH; [lia|done|]. by apply (step_peers now); [lia|].
Qed.

(** The interval has elapsed; the other ways through the gate aside. *)
Definition due_at (peer : PeerState) (l : bytes) (tr : CoreSprayTrigger) (now : Z) : bool :=
  if bool_decide (tr = TriggerMaintenance) && (pr_quiet_rounds peer =? 0)
  then negb (ever_sprayed peer) || should_redigest now (pr_last_spray_at_ms peer) (jitter_seed l)
  else interval_for c tr peer <=? since_last_spray_ms peer now.

Lemma due_passes peer l tr now : due_at peer l tr now = true -> (cadence c peer l tr now).1 = true.
Proof. unfold due_at, cadence. intros H. destruct (_ && _) at 1; [done|]. destruct (_ && _) at 1; [done|]. by rewrite H. Qed.

Lemma refused_not_due peer l tr now : (cadence c peer l tr now).1 = false -> due_at peer l tr now = false.
Proof. intros H. destruct (due_at peer l tr now) eqn:Hd; [|done]. apply due_passes in Hd. congruence. Qed.

Lemma interval_bounds tr peer : 0 <= pr_quiet_rounds peer -> 1 <= interval_for c tr peer <= retention_ms c.
Proof.
  intros Hq. destruct (cfg_interval _ Hc), (cfg_max_interval _ Hc), (cfg_shift _ Hc). pose proof (cfg_redigest _ Hc).
  assert (1 <= REDIGEST_MAX_INTERVAL_MS) by done.
  unfold interval_for. destruct tr; destruct (decide _); try discriminate; lia.
Qed.

Lemma elapsed_spec now peer : 0 <= now <= I64_MAX -> peer_ok now peer -> ever_sprayed peer = true ->
  since_last_spray_ms peer now = now - pr_last_spray_at_ms peer
  /\ i64_saturating_sub now (pr_last_spray_at_ms peer) = now - pr_last_spray_at_ms peer
  /\ 0 <= now - pr_last_spray_at_ms peer.
Proof.
  intros Hn [Hl _] He. unfold since_last_spray_ms. rewrite He. cbn [negb]. unfold ever_sprayed in He.
  destruct Hl as [Hl|Hl]; [by rewrite Hl in He|]. ints.
Qed.

Lemma redigest_bounds seed :
  REDIGEST_MIN_INTERVAL_MS <= REDIGEST_MIN_INTERVAL_MS + seed mod (REDIGEST_MAX_INTERVAL_MS - REDIGEST_MIN_INTERVAL_MS + 1)
  <= REDIGEST_MAX_INTERVAL_MS.
Proof.
  pose proof (Z.mod_pos_bound seed (REDIGEST_MAX_INTERVAL_MS - REDIGEST_MIN_INTERVAL_MS + 1) ltac:(done)).
  unfold REDIGEST_MAX_INTERVAL_MS, REDIGEST_MIN_INTERVAL_MS in *. lia.
Qed.

(** Never offered anything, or long enough ago. *)
Lemma due_iff peer l tr now : 0 <= now <= I64_MAX -> peer_ok now peer ->
  exists wait, 0 <= wait <= interval_for c tr peer /\
    forall t, now <= t <= I64_MAX ->
      due_at peer l tr t = negb (ever_sprayed peer) || (wait <=? t - pr_last_spray_at_ms peer).
Proof.
  intros Hn Hok. pose proof (interval_bounds tr peer (proj2 Hok)) as Hi. pose proof (cfg_retention _ Hc).
  assert (forall t, now <= t -> peer_ok t peer) as Hlater by (intros; by apply (peer_ok_later now)).
  unfold due_at. destruct (bool_decide (tr = TriggerMaintenance) && (pr_quiet_rounds peer =? 0)) eqn:Hm.
  - apply andb_true_iff in Hm as [->%bool_decide_eq_true Hz]. pose proof (redigest_bounds (jitter_seed l)) as Hr.
    exists (REDIGEST_MIN_INTERVAL_MS + jitter_seed l mod (REDIGEST_MAX_INTERVAL_MS - REDIGEST_MIN_INTERVAL_MS + 1)).
    assert (0 <= REDIGEST_MIN_INTERVAL_MS) by (vm_compute; discriminate).
    split; [split; [lia|]; unfold interval_for; rewrite decide_False by done; lia|].
    intros t Ht. destruct (ever_sprayed peer) eqn:He; [|done]. cbn [negb orb]. unfold should_redigest.
    destruct (elapsed_spec t peer) as (_ & -> & _); [lia|by apply Hlater; lia|done|]. done.
  - exists (interval_for c tr peer). split; [lia|]. intros t Ht. destruct (ever_sprayed peer) eqn:He; cbn [negb orb].
    + destruct (elapsed_spec t peer) as (-> & _ & _); [lia|by apply Hlater; lia|done|]. done.
    + unfold since_last_spray_ms. rewrite He. cbn [negb]. apply Z.leb_le. ints.
Qed.

Lemma due_stays peer l tr now now' :
  0 <= now <= now' -> now' <= I64_MAX -> peer_ok now peer -> due_at peer l tr now = true -> due_at peer l tr now' = true.
Proof.
  intros Hn Hm Hok. destruct (due_iff peer l tr now ltac:(lia) Hok) as (w & _ & Hd). rewrite !Hd by lia.
  destruct (ever_sprayed peer); [|done]. cbn [negb orb]. lia.
Qed.

(** A refusal by the cadence names a wait after which the interval has elapsed. *)
Lemma due_after_wait peer l tr now :
  0 <= now -> now + retention_ms c <= I64_MAX -> peer_ok now peer -> due_at peer l tr now = false ->
  let r := Z.max (i64_saturating_sub (interval_for c tr peer) (since_last_spray_ms peer now)) 1 in
  1 <= r <= retention_ms c /\ due_at peer l tr (now + r) = true.
Proof.
  intros Hn Hm Hok. pose proof (cfg_retention _ Hc) as Hret. pose proof (interval_bounds tr peer (proj2 Hok)) as Hi.
  destruct (due_iff peer l tr now ltac:(lia) Hok) as (w & Hw & Hd). rewrite Hd by lia.
  destruct (ever_sprayed peer) eqn:He; [|done]. cbn [negb orb]. intros Hnd.
  destruct (elapsed_spec now peer) as (-> & _ & H0); [lia|done|done|].
  assert (i64_saturating_sub (interval_for c tr peer) (now - pr_last_spray_at_ms peer)
          = interval_for c tr peer - (now - pr_last_spray_at_ms peer)) as -> by ints.
  cbn zeta. split; [lia|]. rewrite Hd by lia. cbn [negb orb]. lia.
Qed.

(** A refusal for want of burst names a wait after which the link has enough. *)
Lemma burst_wait tokens : 0 <= tokens < burst_target ->
  1 <= Z.max (ms_to_accrue c tokens burst_target) 1 <= retention_ms c
  /\ 1000 * (burst_target - tokens) <= link_drain_bytes_per_sec c * Z.max (ms_to_accrue c tokens burst_target) 1.
Proof.
  intros Ht. destruct (cfg_rate _ Hc) as [Hr1 Hr2]. pose proof (cfg_refills _ Hc). destruct (cfg_interval _ Hc).
  pose proof (cfg_retention _ Hc). assert (burst_target <= cap) by (unfold burst_target; lia).
  unfold ms_to_accrue. rewrite (proj2 (Z.leb_gt burst_target tokens)) by lia. rewrite (Z.max_l rate 1) by lia.
  set (m := (burst_target - tokens) * 1000) in *. set (ms := (m + (rate - 1)) / rate).
  pose proof (Z.div_mod (m + (rate - 1)) rate ltac:(lia)) as Hdm. fold ms in Hdm.
  pose proof (Z.mod_pos_bound (m + (rate - 1)) rate ltac:(lia)) as Hmod.
  assert (rate * ms < rate * (retention_ms c + 1)) as Hup by lia.
  apply Z.mul_lt_mono_pos_l in Hup; [|lia]. rewrite (proj2 (Z.leb_le ms I64_MAX)) by lia.
  assert (rate * ms <= rate * Z.max ms 1) by (apply Z.mul_le_mono_nonneg_l; lia). split; lia.
Qed.

Lemma refilled_enough link now t :
  link_ok now link -> 0 <= now < t -> t <= 9007199254740992 -> lk_tokens link < burst_target ->
  1000 * (burst_target - lk_tokens link) <= link_drain_bytes_per_sec c * (t - now) ->
  burst_target <= refilled c link t /\ 0 < refill_of c link t.
Proof.
  intros [Htk Hlr Hto] Hn Hm Hlt Hw. destruct (cfg_rate _ Hc) as [Hr1 Hr2].
  assert (burst_target - lk_tokens link <= refill_of c link t) as Hre.
  { unfold refill_of, i64_saturating_sub. rewrite sat_i64_id by ints.
    set (d := t - lk_last_refill_ms link).
    assert (rate * (t - now) <= d * rate) by (rewrite (Z.mul_comm d); apply Z.mul_le_mono_nonneg_l; lia).
    assert (d * rate <= 9007199254740992 * 1048576) by (apply Z.mul_le_mono_nonneg; lia).
    assert (burst_target - lk_tokens link <= d * rate / 1000) by (apply Z.div_le_lower_bound; lia).
    assert (d * rate / 1000 < 18446744073709551616) by (apply Z.div_lt_upper_bound; lia).
    unfold as_u64. rewrite Z.mod_small by lia. done. }
  split; [|lia]. unfold refilled. pose proof (cfg_burst _ Hc).
  assert (burst_target <= cap) by (unfold burst_target; lia). ints.
Qed.

(** The records of the peer and the link right after a question. *)
Definition asked_at (now : Z) (st : SprayState) (p l : bytes) (core : Z * Z * Z) (tokens : Z) : Prop :=
  exists peer link, sp_peers st !! p = Some peer /\ pr_touched_at_ms peer = now /\ peer_ok now peer /\ core_of peer = core
    /\ sp_links st !! l = Some link /\ lk_touched_at_ms link = now /\ link_ok now link /\ lk_tokens link = tokens.

Lemma asked_kept now st p l core tokens t :
  0 <= now <= t -> t <= I64_MAX -> t - now <= retention_ms c -> asked_at now st p l core tokens ->
  exists peer link, peer_entry (prune c st t) p t = peer /\ link_entry c (prune c st t) l t = link
    /\ peer_ok now peer /\ core_of peer = core /\ link_ok now link /\ lk_tokens link = tokens.
Proof.
  intros Hn Hm Hr (peer & link & Hp & Ht & Hpo & Hco & Hl & Htl & Hlo & Htk). exists peer, link.
  unfold peer_entry, link_entry, prune. cbn [sp_peers sp_links]. rewrite !map_lookup_filter, Hp, Hl. cbn.
  rewrite !option_guard_True by (cbn; rewrite ?Ht, ?Htl; ints). done.
Qed.

Lemma ask_asked st p l tr now t peer link :
  0 <= now <= t -> t <= 9007199254740992 -> peer_entry (prune c st t) p t = peer -> link_entry c (prune c st t) l t = link ->
  peer_ok t peer -> link_ok t link ->
  exists tokens, asked_at t (may_spray c st p l tr t).1 p l (core_of peer) tokens
    /\ lk_tokens link <= tokens /\ (lk_last_refill_ms link < t -> refilled c link t <= tokens \/ refill_of c link t <= 0)
    /\ g_allow (may_spray c st p l tr t).2 = (cadence c peer l tr t).1 && (burst_target <=? tokens)
    /\ ((cadence c peer l tr t).1 = false -> g_retry_after_ms (may_spray c st p l tr t).2
          = Z.max (i64_saturating_sub (interval_for c tr peer) (since_last_spray_ms peer t)) 1)
    /\ ((cadence c peer l tr t).1 = true -> tokens < burst_target -> g_retry_after_ms (may_spray c st p l tr t).2
          = Z.max (ms_to_accrue c tokens burst_target) 1).
Proof.
  intros Hn Hm <- <- Hpo Hlo. set (a := (allowance c (prune c st t) l t).2).
  destruct (ask_spec st p l tr t) as (Hal & Hrc & Hrb & peer' & Hp & Hco & Hto). exists a.
  pose proof (may_spray_links st p l tr t l) as Hs.
  assert (exists link', sp_links (allowance c (prune c st t) l t).1 !! l = Some link' /\ lk_tokens link' = a
    /\ lk_touched_at_ms link' = t /\ link_ok t link') as (link' & Hl & Htk & Htl & Hlo').
  { assert (bucket t t 0 (sp_links (prune c st t) !! l)) as Hb.
    { unfold link_entry in Hlo. destruct (sp_links (prune c st t) !! l); [split; [done|by left]|by left]. }
    destruct (bucket_allowance t t 0 _ l ltac:(ints) ltac:(lia) Hb) as (link' & Hl & Htk & [Hlo' _] & _).
    exists link'. split_and!; [done|done| |done]. unfold allowance in Hl. cbn [fst sp_links put_link] in Hl.
    rewrite lookup_insert_eq in Hl. by injection Hl as <-. }
  split_and!.
  - rewrite Hl in Hs. destruct (sp_links (may_spray c st p l tr t).1 !! l) as [link2|] eqn:Hl2; [|done].
    destruct Hs as (S1 & S2 & S3). exists peer', link2. split_and!; [|done| |done|done|lia| |lia].
    + by rewrite Hp, lookup_insert_eq.
    + by apply (peer_ok_core _ _ _ (eq_sym Hco)).
    + destruct Hlo'. split; lia.
  - destruct (elapsed_nonneg t _ ltac:(ints) Hlo) as [He _]. unfold a, allowance. rewrite He.
    destruct (0 <? _) eqn:Hpos; [destruct (0 <? refill_of _ _ _) eqn:Hr|].
    + cbn. destruct (bucket_refill t t 0 (link_entry c (prune c st t) l t) t false) as [_ H]; [ints|lia|split; [done|by left]|done|done].
    + cbn. lia.
    + rewrite (proj2 (Z.ltb_ge _ 0)) by (destruct Hlo; lia). cbn. lia.
  - intros Hlr. destruct (elapsed_nonneg t _ ltac:(ints) Hlo) as [He _]. unfold a, allowance. rewrite He.
    rewrite (proj2 (Z.ltb_lt 0 _)) by lia. destruct (0 <? refill_of _ _ _) eqn:Hr; [left; cbn; lia|right; lia].
  - exact Hal.
  - exact Hrc.
  - exact Hrb.
Qed.

Lemma due_core peer peer' l tr now : core_of peer = core_of peer' -> due_at peer l tr now = due_at peer' l tr now.
Proof. unfold core_of. intros [= H1 H2 H3]. unfold due_at, interval_for, since_last_spray_ms, ever_sprayed. by rewrite H1, H3. Qed.

(** Asking again, with the records of the last question still there. *)
Lemma ask_again now st p l tr core tokens t :
  0 <= now < t -> t <= 9007199254740992 -> t - now <= retention_ms c -> asked_at now st p l core tokens ->
  exists peer tokens', core_of peer = core /\ peer_ok now peer /\ asked_at t (may_spray c st p l tr t).1 p l core tokens'
    /\ tokens <= tokens'
    /\ (tokens < burst_target -> 1000 * (burst_target - tokens) <= link_drain_bytes_per_sec c * (t - now) -> burst_target <= tokens')
    /\ g_allow (may_spray c st p l tr t).2 = (cadence c peer l tr t).1 && (burst_target <=? tokens')
    /\ ((cadence c peer l tr t).1 = false -> g_retry_after_ms (may_spray c st p l tr t).2
          = Z.max (i64_saturating_sub (interval_for c tr peer) (since_last_spray_ms peer t)) 1)
    /\ ((cadence c peer l tr t).1 = true -> tokens' < burst_target -> g_retry_after_ms (may_spray c st p l tr t).2
          = Z.max (ms_to_accrue c tokens' burst_target) 1).
Proof.
  intros Hn Hm Hr Has. destruct (asked_kept now st p l core tokens t ltac:(lia) ltac:(ints) Hr Has)
    as (peer & link & Hp & Hl & Hpo & Hco & Hlo & Htk).
  destruct (ask_asked st p l tr now t peer link ltac:(lia) Hm Hp Hl) as (tokens' & Ha & Hge & Hre & Hal & Hrc & Hrb);
    [by apply (peer_ok_later now); [lia|]|by apply (link_ok_later now); [lia|]|].
  exists peer, tokens'. rewrite Hco in Ha. split_and!; [done|done|done|lia| |done|done|done].
  intros Hlt Hw. rewrite <- Htk in Hlt, Hw. destruct (refilled_enough link now t) as [H1 H2]; [done|lia|done|done|done|].
  destruct Hre as [?|?]; [destruct Hlo; lia|lia|lia].
Qed.

(** The records a question finds after any history. *)
Lemma reached_entries h now p l :
  timely 0 h -> end_time 0 h <= now -> Forall call_typed h -> now <= I64_MAX ->
  0 <= now /\ link_ok now (link_entry c (prune c (spray_run c spray_empty h) now) l now)
  /\ peer_ok now (peer_entry (prune c (spray_run c spray_empty h) now) p now).
Proof.
  intros Hh He Hty Hm. set (st := spray_run c spray_empty h).
  destruct (run_bucket 0 0 0 spray_empty h l) as (_ & Hb & H0); [lia|done|done|lia|by left|]. fold st in Hb.
  pose proof (run_peers 0 spray_empty h ltac:(lia) Hh ltac:(apply map_Forall_empty)) as Hpk. split_and!; [lia| |].
  - destruct (bucket_entry now now 0 (sp_links (prune c st now) !! l)) as [? _]; [lia|lia| |done].
    apply (bucket_prune now (end_time 0 h)); [lia|ints|].
    destruct (sp_links st !! l); [split; [apply Hb|by left]|by left].
  - apply peer_entry_ok, peers_prune. by apply (peers_later (end_time 0 h)).
Qed.

(** No refusal is permanent.  A refused question names a wait, at least a
    millisecond and at most the retention; asked again when it is over, with nothing in
    between, the peer is let through, or refused once more for the other reason (cadence
    or burst), and asked again after that second wait it is let through: the gates do not
    compose into no spray ever. *)
Theorem gate_reopens h now p l tr :
  timely 0 h -> end_time 0 h <= now -> Forall call_typed h -> now + 2 * retention_ms c <= 9007199254740992 ->
  let ask1 := may_spray c (spray_run c spray_empty h) p l tr now in
  let now1 := now + g_retry_after_ms ask1.2 in
  let ask2 := may_spray c ask1.1 p l tr now1 in
  let now2 := now1 + g_retry_after_ms ask2.2 in
  g_allow ask1.2 = false ->
  1 <= g_retry_after_ms ask1.2 <= retention_ms c
  /\ (g_allow ask2.2 = false ->
      1 <= g_retry_after_ms ask2.2 <= retention_ms c /\ g_allow (may_spray c ask2.1 p l tr now2).2 = true).
Proof.
  intros Hh He Hty Hm. pose proof (cfg_retention _ Hc) as Hret. set (st := spray_run c spray_empty h).
  destruct (reached_entries h now p l Hh He Hty ltac:(ints)) as (H0 & Hlo & Hpo). fold st in Hlo, Hpo.
  destruct (ask_asked st p l tr now now _ _ ltac:(lia) ltac:(ints) eq_refl eq_refl Hpo Hlo)
    as (tok1 & Ha1 & _ & _ & Hal1 & Hrc1 & Hrb1).
  intros ask1 now1 ask2 now2 Hd1. unfold ask1 in Hd1. rewrite Hal1 in Hd1.
  assert (0 <= tok1) as Ht1 by (destruct Ha1 as (? & ? & _ & _ & _ & _ & _ & _ & [? _ _] & <-); lia).
  destruct (cadence c _ l tr now).1 eqn:Hc1; cbn [andb] in Hd1.
  - apply Z.leb_gt in Hd1. destruct (burst_wait tok1 ltac:(lia)) as [Hw1 Hw2]. rewrite <- (Hrb1 eq_refl Hd1) in Hw1, Hw2.
    split; [exact Hw1|]. fold ask1 in Hw1, Hw2. intros Hd2.
    destruct (ask_again now ask1.1 p l tr _ tok1 now1 ltac:(lia) ltac:(lia) ltac:(lia) Ha1)
      as (peer2 & tok2 & Hco2 & Hp2 & Ha2 & _ & Hen & Hal2 & Hrc2 & _).
    specialize (Hen Hd1 ltac:(replace (now1 - now) with (g_retry_after_ms ask1.2) by lia; done)).
    fold ask2 in Ha2, Hal2, Hrc2. rewrite Hal2, (proj2 (Z.leb_le _ _) Hen), andb_true_r in Hd2.
    destruct (due_after_wait peer2 l tr now1) as [Hw3 Hdue];
      [lia|ints|by apply (peer_ok_later now); [lia|]|by apply refused_not_due|].
    rewrite <- (Hrc2 Hd2) in Hw3, Hdue. split; [done|].
    destruct (ask_again now1 ask2.1 p l tr _ tok2 now2 ltac:(lia) ltac:(lia) ltac:(lia) Ha2)
      as (peer3 & tok3 & Hco3 & _ & _ & Hge3 & _ & Hal3 & _ & _).
    rewrite Hal3, (proj2 (Z.leb_le burst_target tok3)) by lia. rewrite andb_true_r. apply due_passes.
    rewrite (due_core peer3 peer2) by congruence. exact Hdue.
  - destruct (due_after_wait _ l tr now ltac:(lia) ltac:(ints) Hpo (refused_not_due _ _ _ _ Hc1)) as [Hw1 Hdue].
    rewrite <- (Hrc1 eq_refl) in Hw1, Hdue. split; [exact Hw1|]. fold ask1 in Hw1, Hdue. intros Hd2.
    destruct (ask_again now ask1.1 p l tr _ tok1 now1 ltac:(lia) ltac:(lia) ltac:(lia) Ha1)
      as (peer2 & tok2 & Hco2 & Hp2 & Ha2 & Hge2 & _ & Hal2 & _ & Hrb2). fold ask2 in Ha2, Hal2, Hrb2.
    fold now1 in Hdue. rewrite <- (due_core peer2 _ l tr now1 Hco2) in Hdue.
    rewrite Hal2, (due_passes _ _ _ _ Hdue) in Hd2. cbn [andb] in Hd2. apply Z.leb_gt in Hd2.
    destruct (burst_wait tok2 ltac:(lia)) as [Hw2 Hw3].
    rewrite <- (Hrb2 (due_passes _ _ _ _ Hdue) Hd2) in Hw2, Hw3. split; [done|].
    destruct (ask_again now1 ask2.1 p l tr _ tok2 now2 ltac:(lia) ltac:(lia) ltac:(lia) Ha2)
      as (peer3 & tok3 & Hco3 & _ & _ & _ & Hen & Hal3 & _ & _).
    specialize (Hen Hd2 ltac:(replace (now2 - now1) with (g_retry_after_ms ask2.2) by lia; done)).
    rewrite Hal3, (proj2 (Z.leb_le burst_target tok3) Hen), andb_true_r. apply due_passes.
    rewrite (due_core peer3 peer2) by congruence.
    apply (due_stays peer2 l tr now1); [lia|ints|by apply (peer_ok_later now); [lia|]|done].
Qed.

End bucket.

(** * The set digest *)

Lemma digest_step_comm acc x y : digest_step (digest_step acc x) y = digest_step (digest_step acc y) x.
Proof.
  destruct acc as [[sum xor] count]. unfold digest_step, as_u64. rewrite !Zplus_mod_idemp_l.
  replace (sum + fnv1a64 x + fnv1a64 y) with (sum + fnv1a64 y + fnv1a64 x) by lia.
  by rewrite !Z.lxor_assoc, (Z.lxor_comm (fnv1a64 x)).
Qed.

Lemma spray_set_digest_perm ids ids' : ids ≡ₚ ids' -> spray_set_digest ids = spray_set_digest ids'.
Proof.
  intros Hp. unfold spray_set_digest. cut (forall acc, fold_left digest_step ids acc = fold_left digest_step ids' acc);
    [by intros ->|].
  induction Hp as [|x l l' _ IH|x y l|l1 l2 l3 _ IH1 _ IH2]; intros acc; cbn [fold_left]; [done|apply IH| |by rewrite IH1].
  by rewrite digest_step_comm.
Qed.

(** * Witnesses *)

Definition toy_peer : bytes := [x01].
Definition toy_link : bytes := [x02].

Definition toy_lanes (b : Z) : CoreSprayPlanShape :=
  mk_shape (mk_lane_plan 7 b) (mk_lane_plan 8 b) (mk_lane_plan 9 0).

(** A first encounter takes a burst, and the peer comes back at once, in churn. *)
Definition toy_history : list spray_call :=
  [DigestSent toy_peer toy_link 1000; Encounter toy_peer toy_link TriggerPeerDigest (toy_lanes 200000) 2000;
   LinkClosed toy_link 2500; BytesQueued toy_link 300000 2600].

Lemma toy_history_typed : Forall call_typed toy_history.
Proof. repeat constructor; cbn; vm_compute; intuition congruence. Qed.

Lemma link_rate_bounded_witness :
  sent_on default_spray_config toy_link spray_empty toy_history = 400000
  /\ 1000 * 400000 <= 1000 * 589824 + 24576 * (2600 - 1000).
Proof.
  assert (sent_on default_spray_config toy_link spray_empty toy_history = 400000) as Hs by (vm_compute; reflexivity).
  split; [exact Hs|]. rewrite <- Hs.
  exact (link_rate_bounded default_spray_config default_config_ok [] toy_history 1000 toy_link I
    ltac:(vm_compute; discriminate) ltac:(cbn; vm_compute; intuition congruence) toy_history_typed).
Defined.

(** Refused by the cadence a second later. *)
Lemma gate_reopens_witness :
  let ask1 := may_spray default_spray_config (spray_run default_spray_config spray_empty toy_history)
                toy_peer toy_link TriggerReconnect 3000 in
  g_allow ask1.2 = false /\ 1 <= g_retry_after_ms ask1.2 <= retention_ms default_spray_config.
Proof.
  intros ask1. assert (g_allow ask1.2 = false) as Hd by (vm_compute; reflexivity). split; [exact Hd|].
  exact (proj1 (gate_reopens default_spray_config default_config_ok toy_history 3000 toy_peer toy_link TriggerReconnect
    ltac:(cbn; vm_compute; intuition congruence) ltac:(vm_compute; discriminate) toy_history_typed
    ltac:(vm_compute; discriminate) Hd)).
Defined.
