(* ===== verification/SyncStream.v ===== *)
(** Anti-entropy between a person's own devices, the pure half
    ([core/src/sync_stream.rs], and the kind tables of [core/src/sync_record.rs]): the
    digest of what a device holds and its codec, the gaps two digests show, and the plan
    of one round of backfill.  [SyncStore.v] holds the tables and joins two devices.

    [sync_digest_canonical] shows that a view has one encoding and reads back;
    [backfill_plan_spec] that a plan sends, within its budget, per stream the oldest
    missing records and nothing above one it left out. *)
From Stdlib Require String.
From stdpp Require Import base numbers list strings sorting sets.
From S2P Require Import Prelude StdModel Wire Crypto RosterCodec Message.

(** * Record kinds *)

Inductive SyncRecordKind : Type :=
| SyncHistory | SyncWatermarks | SyncContacts | SyncOwnRoster | SyncGroups | SyncSettings | SyncDigestKind.

#[global] Instance SyncRecordKind_eq_dec : EqDecision SyncRecordKind.
Proof. solve_decision. Defined.

Definition core_sync_record_kind_wire (kind : SyncRecordKind) : Z :=
  match kind with
  | SyncHistory => KIND_SYNC_HISTORY
  | SyncWatermarks => KIND_SYNC_WATERMARK
  | SyncContacts => KIND_SYNC_CONTACTS
  | SyncOwnRoster => KIND_SYNC_OWN_ROSTER
  | SyncGroups => KIND_SYNC_GROUPS
  | SyncSettings => KIND_SYNC_SETTINGS
  | SyncDigestKind => KIND_SYNC_DIGEST
  end.

Definition core_sync_record_kind_of (kind : Z) : option SyncRecordKind :=
  if kind =? KIND_SYNC_HISTORY then Some SyncHistory
  else if kind =? KIND_SYNC_WATERMARK then Some SyncWatermarks
  else if kind =? KIND_SYNC_CONTACTS then Some SyncContacts
  else if kind =? KIND_SYNC_OWN_ROSTER then Some SyncOwnRoster
  else if kind =? KIND_SYNC_GROUPS then Some SyncGroups
  else if kind =? KIND_SYNC_SETTINGS then Some SyncSettings
  else if kind =? KIND_SYNC_DIGEST then Some SyncDigestKind
  else None.

Definition core_sync_kind_is_stream (kind : SyncRecordKind) : bool := negb (bool_decide (kind = SyncDigestKind)).

Definition core_sync_seal_is_current (sealed_for : RosterVersion) (sealed_generation : Z)
  (current : RosterVersion) (current_generation : Z) : bool :=
  bool_decide (sealed_for = current) && (sealed_generation =? current_generation).

Lemma kind_wire_of kind : core_sync_record_kind_of (core_sync_record_kind_wire kind) = Some kind.
Proof. by destruct kind. Qed.

Lemma kind_of_wire k kind : core_sync_record_kind_of k = Some kind -> core_sync_record_kind_wire kind = k.
Proof.
  unfold core_sync_record_kind_of.
  repeat (destruct (k =? _) eqn:E; [apply Z.eqb_eq in E as ->; by intros [= <-]|clear E]). done.
Qed.

(** * The digest *)

Definition SYNC_DIGEST_VERSION : Z := 1.
Definition SYNC_DIGEST_MAX_STREAMS : Z := 512.
Definition SYNC_STREAM_FLAG_CAN_SERVE : Z := 1.

Record SyncStreamDigest : Type := mk_stream {
  sd_author_device_id : bytes;
  sd_kind : Z;
  sd_through_seq : Z;
  sd_can_serve : bool;
}.

Record SyncDigest : Type := mk_digest { dg_person_id : bytes; dg_streams : list SyncStreamDigest }.

#[global] Instance SyncStreamDigest_eq_dec : EqDecision SyncStreamDigest.
Proof. solve_decision. Defined.

(** The order of streams: [a.cmp(&b).then(k.cmp(&l))], as [<=]. *)
Definition stream_le (a b : bytes * Z) : Prop :=
  a.1 <> b.1 /\ bytes_le a.1 b.1 \/ a.1 = b.1 /\ a.2 <= b.2.

#[global] Instance stream_le_dec : RelDecision stream_le.
Proof. intros a b. unfold stream_le. apply _. Defined.

#[global] Instance stream_le_trans : Transitive stream_le.
Proof.
  intros [a k] [b l] [c m]; unfold stream_le; cbn. intros [[Hab H1]|[-> H1]] [[Hbc H2]|[-> H2]]; auto with lia.
  left. split; [|by etransitivity]. intros ->. apply Hab. by apply bytes_le_antisymm.
Qed.

#[global] Instance stream_le_total : Total stream_le.
Proof.
  intros [a k] [b l]. unfold stream_le. cbn. destruct (decide (a = b)) as [->|Hne].
  - destruct (Z.le_ge_cases k l); [left|right]; right; split; lia || done.
  - destruct (bytes_le_total a b); [left|right]; left; split; congruence || done.
Qed.

#[global] Instance stream_le_antisymm : AntiSymm eq stream_le.
Proof.
  intros [a k] [b l]. unfold stream_le. cbn. intros [[Hab H1]|[-> H1]] [[Hba H2]|[Heq H2]]; try congruence.
  - exfalso. apply Hab. by apply bytes_le_antisymm.
  - f_equal. lia.
Qed.

(** [slice::sort_by], which is stable: an element is placed before its later equals. *)
Section sort_by.
Context {A : Type} (R : relation A) `{!RelDecision R}.

Fixpoint insert_by (x : A) (l : list A) : list A :=
  match l with
  | [] => [x]
  | y :: l' => if decide (R x y) then x :: l else y :: insert_by x l'
  end.

Definition sort_by (l : list A) : list A := foldr insert_by [] l.

Lemma insert_by_perm x l : insert_by x l ≡ₚ x :: l.
Proof.
  induction l as [|y l IH]; cbn; [done|]. case_decide; [done|]. rewrite IH. apply perm_swap.
Qed.

Lemma sort_by_perm l : sort_by l ≡ₚ l.
Proof. induction l as [|x l IH]; cbn; [done|]. by rewrite insert_by_perm, IH. Qed.

Lemma sort_by_elem l x : x ∈ sort_by l <-> x ∈ l.
Proof. by rewrite sort_by_perm. Qed.

Context `{!Transitive R, !Total R}.

Lemma insert_by_sorted x l : StronglySorted R l -> StronglySorted R (insert_by x l).
Proof.
  induction 1 as [|y l Hl IH Hy]; cbn; [repeat constructor|]. case_decide as Hxy.
  - constructor; [by constructor|]. constructor; [done|]. eapply Forall_impl; [exact Hy|]. intros z Hz. by etransitivity.
  - constructor; [done|]. apply Forall_forall. intros z. rewrite insert_by_perm, elem_of_cons. intros [->|Hz].
    + by destruct (total R x y).
    + by eapply Forall_forall in Hy.
Qed.

Lemma sort_by_sorted l : StronglySorted R (sort_by l).
Proof. induction l as [|x l IH]; cbn; [constructor|by apply insert_by_sorted]. Qed.

End sort_by.

Definition stream_key (s : SyncStreamDigest) : bytes * Z := (sd_author_device_id s, sd_kind s).

Definition by_key {A} (f : A -> bytes * Z) : relation A := fun a b => stream_le (f a) (f b).

#[global] Instance by_key_dec {A} (f : A -> bytes * Z) : RelDecision (by_key f).
Proof. intros a b. unfold by_key. apply _. Defined.
#[global] Instance by_key_trans {A} (f : A -> bytes * Z) : Transitive (by_key f).
Proof. intros a b d. unfold by_key. apply stream_le_trans. Qed.
#[global] Instance by_key_total {A} (f : A -> bytes * Z) : Total (by_key f).
Proof. intros a b. unfold by_key. apply stream_le_total. Qed.

(** [windows(2).any(..)] on the sorted streams. *)
Fixpoint repeated_stream (streams : list SyncStreamDigest) : bool :=
  match streams with
  | a :: l => match l with b :: _ => bool_decide (stream_key a = stream_key b) | [] => false end || repeated_stream l
  | [] => false
  end.

Definition encode_stream (s : SyncStreamDigest) : bytes :=
  sd_author_device_id s ++ push_u8 (sd_kind s)
  ++ push_u8 (if sd_can_serve s then SYNC_STREAM_FLAG_CAN_SERVE else 0) ++ be_bytes 8 (sd_through_seq s).

Definition core_encode_sync_digest (digest : SyncDigest) : result CoreError bytes :=
  _ ← ensure (blen (dg_person_id digest) <=? U16_MAX) (Malformed "sync digest person id is too long");
  _ ← ensure (blen (dg_streams digest) <=? SYNC_DIGEST_MAX_STREAMS) (Malformed "sync digest names too many streams");
  _ ← ensure (forallb (fun s => blen (sd_author_device_id s) =? DEVICE_ID_LEN) (dg_streams digest))
        (Malformed "sync digest device id must be 16 bytes");
  let streams := sort_by (by_key stream_key) (dg_streams digest) in
  _ ← ensure (negb (repeated_stream streams)) (Malformed "sync digest names one stream twice");
  Ok (push_u8 SYNC_DIGEST_VERSION ++ be_bytes 2 (blen (dg_person_id digest)) ++ dg_person_id digest
      ++ be_bytes 2 (blen streams) ++ concat (encode_stream <$> streams)).

#[local] Instance digest_reader : Reader CoreError :=
  {| truncated := Malformed "sync digest ended mid-field"; trailing := Malformed "sync digest has trailing bytes" |}.

Definition read_stream : reader CoreError SyncStreamDigest :=
  author_device_id ← Cursor.take DEVICE_ID_LEN;
  kind ← Cursor.take_u8;
  flags ← Cursor.take_u8;
  _ ← guard_ (Z.land flags 254 =? 0) (Malformed "sync digest stream carries unknown flag bits");
  through_seq ← Cursor.take_u64;
  mret (mk_stream author_device_id kind through_seq (negb (Z.land flags SYNC_STREAM_FLAG_CAN_SERVE =? 0))).

Definition read_digest : reader CoreError SyncDigest :=
  version ← Cursor.take_u8;
  _ ← guard_ (version =? SYNC_DIGEST_VERSION) (Malformed "unsupported sync digest version");
  person_len ← Cursor.take_u16;
  person_id ← Cursor.take person_len;
  count ← Cursor.take_u16;
  _ ← guard_ (count <=? SYNC_DIGEST_MAX_STREAMS) (Malformed "sync digest names too many streams");
  streams ← Cursor.take_many (Z.to_nat count) read_stream;
  _ ← Cursor.finish;
  mret (mk_digest person_id streams).

Definition core_decode_sync_digest (bs : bytes) : result CoreError SyncDigest := Cursor.run read_digest bs.

(** * Gaps *)

Record SyncGap : Type := mk_gap {
  gp_author_device_id : bytes;
  gp_kind : Z;
  gp_after_seq : Z;
  gp_through_seq : Z;
}.

Definition gap_key (g : SyncGap) : bytes * Z := (gp_author_device_id g, gp_kind g).

(** What a digest says it holds of a stream. *)
Definition held_through (have : SyncDigest) (key : bytes * Z) : Z :=
  match List.find (fun s => bool_decide (stream_key s = key)) (dg_streams have) with
  | Some s => sd_through_seq s
  | None => 0
  end.

(** The body of the loop: the gap this stream of the peer shows, if any. *)
Definition stream_gap (have : SyncDigest) (s : SyncStreamDigest) : option SyncGap :=
  if negb (sd_can_serve s) then None else
  match core_sync_record_kind_of (sd_kind s) with
  | None => None
  | Some kind =>
      if negb (core_sync_kind_is_stream kind) then None else
      let held := held_through have (stream_key s) in
      if held <? sd_through_seq s
      then Some (mk_gap (sd_author_device_id s) (sd_kind s) held (sd_through_seq s)) else None
  end.

Definition core_sync_digest_gaps (have peer : SyncDigest) : result CoreError (list SyncGap) :=
  _ ← ensure (bool_decide (dg_person_id have = dg_person_id peer)) (Malformed "sync digests describe two different people");
  Ok (sort_by (by_key gap_key) (omap (stream_gap have) (dg_streams peer))).

(** * Backfill *)

Record SyncBackfillOffer : Type := mk_offer {
  of_author_device_id : bytes;
  of_kind : Z;
  of_stream_seq : Z;
  of_sealed_for : RosterVersion;
  of_inbox_key_generation : Z;
  of_byte_len : Z;
}.

Inductive SyncBackfillAction : Type := Send | Reseal.

Record SyncBackfillStep : Type := mk_step { bs_offer_index : Z; bs_action : SyncBackfillAction }.

Record SyncBackfillPlan : Type := mk_plan {
  bp_steps : list SyncBackfillStep;
  bp_deferred : list Z;
  bp_planned_bytes : Z;
}.

Definition offer_key (o : SyncBackfillOffer) : bytes * Z := (of_author_device_id o, of_kind o).

Definition answers_gap (gaps : list SyncGap) (o : SyncBackfillOffer) : bool :=
  existsb (fun g => bool_decide (gap_key g = offer_key o)
                    && (gp_after_seq g <? of_stream_seq o) && (of_stream_seq o <=? gp_through_seq g)) gaps.

(** The order of matched offers: stream, then sequence number. *)
Definition offer_le (a b : nat * SyncBackfillOffer) : Prop :=
  offer_key a.2 <> offer_key b.2 /\ stream_le (offer_key a.2) (offer_key b.2)
  \/ offer_key a.2 = offer_key b.2 /\ of_stream_seq a.2 <= of_stream_seq b.2.

#[global] Instance offer_le_dec : RelDecision offer_le.
Proof. intros a b. unfold offer_le. apply _. Defined.

#[global] Instance offer_le_trans : Transitive offer_le.
Proof.
  intros a b d; unfold offer_le. intros [[Hab H1]|[-> H1]] [[Hbc H2]|[<- H2]]; auto with lia.
  left. split; [|by etransitivity]. intros He. apply Hab. rewrite He in *. by apply stream_le_antisymm.
Qed.

#[global] Instance offer_le_total : Total offer_le.
Proof.
  intros a b. unfold offer_le. destruct (decide (offer_key a.2 = offer_key b.2)) as [He|Hne].
  - rewrite He. destruct (Z.le_ge_cases (of_stream_seq a.2) (of_stream_seq b.2)); [left|right]; right; split; lia || done.
  - destruct (stream_le_total (offer_key a.2) (offer_key b.2)); [left|right]; left; split; congruence || done.
Qed.

Definition matched_offers (gaps : list SyncGap) (offers : list SyncBackfillOffer) : list (nat * SyncBackfillOffer) :=
  sort_by offer_le (filter (fun io => answers_gap gaps io.2 = true) (imap pair offers)).

(** The loop's state: the plan so far and the streams already cut. *)
Record backfill_state : Type := mk_bstate {
  bt_steps : list SyncBackfillStep;
  bt_deferred : list Z;
  bt_planned_bytes : Z;
  bt_truncated : list (bytes * Z);
}.

Section planning.
Context (current_roster : RosterVersion) (current_inbox_key_generation budget_bytes : Z).

Definition backfill_step (st : backfill_state) (entry : nat * SyncBackfillOffer) : backfill_state :=
  let '(index, offer) := entry in
  let stream := offer_key offer in
  let already_cut := bool_decide (stream ∈ bt_truncated st) in
  let next_bytes := u64_saturating_add (bt_planned_bytes st) (of_byte_len offer) in
  if already_cut || (budget_bytes <? next_bytes) then
    mk_bstate (bt_steps st) (bt_deferred st ++ [as_u32 (Z.of_nat index)]) (bt_planned_bytes st)
      (if already_cut then bt_truncated st else bt_truncated st ++ [stream])
  else
    mk_bstate
      (bt_steps st ++ [mk_step (as_u32 (Z.of_nat index))
         (if core_sync_seal_is_current (of_sealed_for offer) (of_inbox_key_generation offer)
               current_roster current_inbox_key_generation then Send else Reseal)])
      (bt_deferred st) next_bytes (bt_truncated st).

Definition core_plan_sync_backfill (gaps : list SyncGap) (offers : list SyncBackfillOffer) : SyncBackfillPlan :=
  let st := fold_left backfill_step (matched_offers gaps offers) (mk_bstate [] [] 0 []) in
  mk_plan (bt_steps st) (bt_deferred st) (bt_planned_bytes st).

End planning.

(** * A view has one encoding *)

Definition stream_typed (s : SyncStreamDigest) : Prop := in_u8 (sd_kind s) /\ in_u64 (sd_through_seq s).

Lemma repeated_stream_spec l : StronglySorted (by_key stream_key) l ->
  repeated_stream l = false <-> NoDup (stream_key <$> l).
Proof.
  induction 1 as [|a l Hl IH Ha]; [by split; [constructor|]|]. cbn [repeated_stream fmap list_fmap].
  rewrite NoDup_cons, orb_false_iff, IH. split; intros [H1 H2]; (split; [|done]).
  - intros (b & Hk & Hb)%list_elem_of_fmap. destruct l as [|x l']; [by apply elem_of_nil in Hb|].
    apply bool_decide_eq_false in H1. apply H1, stream_le_antisymm; [apply Forall_cons in Ha; apply Ha|].
    apply StronglySorted_inv in Hl as [_ Hx]. rewrite Hk. apply elem_of_cons in Hb as [->|Hb]; [by destruct (stream_le_total (stream_key x) (stream_key x))|].
    by eapply Forall_forall in Hx.
  - destruct l as [|x l']; [done|]. apply bool_decide_eq_false. intros He. apply H1. rewrite He. by left.
Qed.

Lemma sorted_streams_unique l l' :
  l ≡ₚ l' -> NoDup (stream_key <$> l) -> sort_by (by_key stream_key) l = sort_by (by_key stream_key) l'.
Proof.
  intros Hp Hnd. apply (StronglySorted_unique_strong (by_key stream_key)); try (apply sort_by_sorted; apply _).
  - intros x y. rewrite !sort_by_elem, <- Hp. intros Hx Hy H1 H2.
    eapply (nodup_key stream_key); [exact Hnd|done|done|]. by apply stream_le_antisymm.
  - by rewrite !sort_by_perm.
Qed.

Lemma repeated_perm l l' : l ≡ₚ l' ->
  repeated_stream (sort_by (by_key stream_key) l) = repeated_stream (sort_by (by_key stream_key) l').
Proof.
  intros Hp. apply eq_true_iff_eq. rewrite <- !not_false_iff_true.
  rewrite !repeated_stream_spec by (apply sort_by_sorted; apply _). by rewrite !sort_by_perm, Hp.
Qed.

Lemma encode_perm person l l' : l ≡ₚ l' ->
  core_encode_sync_digest (mk_digest person l) = core_encode_sync_digest (mk_digest person l').
Proof.
  intros Hp. unfold core_encode_sync_digest. cbn [dg_person_id dg_streams].
  assert (blen l = blen l') as -> by (unfold blen; by rewrite Hp).
  assert (forallb (fun s => blen (sd_author_device_id s) =? DEVICE_ID_LEN) l
          = forallb (fun s => blen (sd_author_device_id s) =? DEVICE_ID_LEN) l') as ->.
  { apply eq_true_iff_eq. rewrite !forallb_forall. setoid_rewrite <- list_elem_of_In.
    split; intros H x Hx; apply H; [by rewrite Hp|by rewrite <- Hp]. }
  rewrite (repeated_perm l l' Hp). destruct (repeated_stream (sort_by (by_key stream_key) l')) eqn:Hr; [done|].
  rewrite <- (repeated_perm l l' Hp) in Hr. apply repeated_stream_spec in Hr; [|apply sort_by_sorted; apply _].
  rewrite sort_by_perm in Hr. by rewrite (sorted_streams_unique l l' Hp Hr).
Qed.

Lemma parses_stream s r : stream_typed s -> blen (sd_author_device_id s) = DEVICE_ID_LEN ->
  parses read_stream (encode_stream s ++ r) s r.
Proof.
  intros [Hk Ht] Hl. unfold encode_stream, read_stream. parse_step; [done|]. parse_step; [done|].
  parse_step; [by destruct (sd_can_serve s)|]. parse_step; [by destruct (sd_can_serve s)|].
  parse_step; [done|]. destruct s as [a k t []]; apply parses_ret.
Qed.

Lemma digest_reads_back d bs :
  Forall stream_typed (dg_streams d) -> core_encode_sync_digest d = Ok bs ->
  core_decode_sync_digest bs = Ok (mk_digest (dg_person_id d) (sort_by (by_key stream_key) (dg_streams d))).
Proof.
  intros Hty He. unfold core_encode_sync_digest in He. inv_ok. bools.
  set (streams := sort_by (by_key stream_key) (dg_streams d)) in *.
  assert (blen streams = blen (dg_streams d)) as Hlen by (unfold blen, streams; by rewrite sort_by_perm).
  assert (forall s, s ∈ streams -> stream_typed s /\ blen (sd_author_device_id s) = DEVICE_ID_LEN) as Hs.
  { intros s. unfold streams. rewrite sort_by_elem. intros Hin. split; [by eapply Forall_forall in Hty|].
    match goal with H : forallb _ _ = true |- _ => rewrite forallb_forall in H; specialize (H s) end.
    apply Z.eqb_eq. match goal with H : In _ _ -> _ |- _ => apply H end. by apply list_elem_of_In. }
  pose proof (blen_nonneg (dg_streams d)). pose proof (blen_nonneg (dg_person_id d)).
  unfold SYNC_DIGEST_MAX_STREAMS in *. unfold core_decode_sync_digest. eapply parses_run with (r := []). unfold read_digest.
  parse_step; [done|]. parse_step; [done|]. parse_step; [ints|]. parse_step; [done|]. parse_step; [ints|].
  parse_step; [apply Z.leb_le; unfold SYNC_DIGEST_MAX_STREAMS; lia|].
  rewrite <- (app_nil_r (concat _)). eapply parses_bind.
  { apply parses_counted. intros s r Hin. by apply parses_stream; apply Hs. }
  parse_step. apply parses_ret.
Qed.

(** A device's view of its streams has one encoding.  The streams' order does not
    matter to it, a repeated stream is refused, and what is encoded reads back with the
    streams in order. *)
Theorem sync_digest_canonical person streams streams' bs :
  Forall stream_typed streams -> streams ≡ₚ streams' ->
  core_encode_sync_digest (mk_digest person streams) = Ok bs ->
  core_encode_sync_digest (mk_digest person streams') = Ok bs
  /\ NoDup (stream_key <$> streams)
  /\ exists sorted, sorted ≡ₚ streams /\ StronglySorted (by_key stream_key) sorted
       /\ core_decode_sync_digest bs = Ok (mk_digest person sorted).
Proof.
  intros Hty Hp He. split_and!; [by rewrite <- (encode_perm person streams streams' Hp)| |].
  - unfold core_encode_sync_digest in He. inv_ok. bools.
    match goal with H : repeated_stream _ = false |- _ => apply repeated_stream_spec in H; [|apply sort_by_sorted; apply _] end.
    cbn [dg_streams] in *. by rewrite <- (sort_by_perm (by_key stream_key) streams).
  - exists (sort_by (by_key stream_key) streams). split_and!; [apply sort_by_perm|apply sort_by_sorted; apply _|].
    by apply (digest_reads_back (mk_digest person streams)).
Qed.

(** * What a round of backfill sends *)

Section plan_spec.
Context (roster : RosterVersion) (generation budget : Z).

Definition planned_step (io : nat * SyncBackfillOffer) : SyncBackfillStep :=
  mk_step (as_u32 (Z.of_nat io.1))
    (if core_sync_seal_is_current (of_sealed_for io.2) (of_inbox_key_generation io.2) roster generation
     then Send else Reseal).

Definition bytes_of (l : list (nat * SyncBackfillOffer)) : Z := foldr (fun io n => of_byte_len io.2 + n) 0 l.

Lemma bytes_of_app l l' : bytes_of (l ++ l') = bytes_of l + bytes_of l'.
Proof. unfold bytes_of. induction l as [|io l IH]; cbn [app foldr]; lia. Qed.

(** The loop so far: what it sends of [seen], what it left out, and that nothing is sent
    above a record of its stream that was left out. *)
Record planned (seen sent cut : list (nat * SyncBackfillOffer)) (st : backfill_state) : Prop := {
  pn_split : sent ++ cut ≡ₚ seen;
  pn_order : sent `sublist_of` seen;
  pn_steps : bt_steps st = planned_step <$> sent;
  pn_deferred : bt_deferred st = (fun io => as_u32 (Z.of_nat io.1)) <$> cut;
  pn_bytes : bt_planned_bytes st = bytes_of sent;
  pn_budget : 0 <= bytes_of sent <= budget;
  pn_truncated : forall k, k ∈ bt_truncated st <-> k ∈ (fun io => offer_key io.2) <$> cut;
  pn_prefix : forall a b, a ∈ sent -> b ∈ cut -> offer_key a.2 = offer_key b.2 -> of_stream_seq a.2 <= of_stream_seq b.2;
  pn_first : forall b, b ∈ cut -> exists b', b' ∈ cut /\ offer_key b'.2 = offer_key b.2 /\ of_stream_seq b'.2 <= of_stream_seq b.2
               /\ budget < bytes_of sent + of_byte_len b'.2;
}.

Definition offer_typed (o : SyncBackfillOffer) : Prop := in_u64 (of_byte_len o).

Lemma offer_le_seq a b : offer_le a b -> offer_key a.2 = offer_key b.2 -> of_stream_seq a.2 <= of_stream_seq b.2.
Proof. intros [[? _]|[_ ?]] He; [congruence|done]. Qed.

Lemma planned_next seen sent cut st io :
  0 <= budget < U64_MAX -> offer_typed io.2 -> (forall a, a ∈ seen -> offer_le a io) -> planned seen sent cut st ->
  exists sent' cut', planned (seen ++ [io]) sent' cut' (backfill_step roster generation budget st io).
Proof.
  intros Hb Hty Hle Hp. destruct Hp as [Hsp Hor Hst Hde Hby Hbu Htr Hpr Hfi]. destruct io as [i o].
  assert (forall b, b ∈ cut -> b ∈ seen) as Hcs by (intros b Hin; rewrite <- Hsp; set_solver).
  assert (forall a, a ∈ sent -> a ∈ seen) as Hss by (intros a Hin; rewrite <- Hsp; set_solver).
  unfold backfill_step. rewrite Hby.
  assert (budget < u64_saturating_add (bytes_of sent) (of_byte_len o) -> budget < bytes_of sent + of_byte_len o) as Hover.
  { unfold offer_typed in Hty. cbn in Hty. ints. }
  destruct (bool_decide (offer_key o ∈ bt_truncated st)) eqn:Hcut; cbn [orb].
  - apply bool_decide_eq_true, Htr, list_elem_of_fmap in Hcut as (c & Hck & Hc).
    exists sent, (cut ++ [(i, o)]). split; cbn [bt_steps bt_deferred bt_planned_bytes bt_truncated]; try done.
    + by rewrite app_assoc, Hsp.
    + by apply sublist_inserts_r.
    + by rewrite Hde, fmap_app.
    + intros k. rewrite Htr, fmap_app, elem_of_app. cbn. rewrite Hck. set_solver.
    + intros a b Ha [Hin| ->%list_elem_of_singleton]%elem_of_app; [by apply Hpr|]. apply offer_le_seq. auto.
    + intros b [Hin| ->%list_elem_of_singleton]%elem_of_app.
      * destruct (Hfi b Hin) as (b' & ? & ?). exists b'. rewrite elem_of_app. auto.
      * destruct (Hfi c Hc) as (b' & ? & Hk & Hs & ?). exists b'. rewrite elem_of_app. split_and!; [auto|cbn; congruence| |done].
        etransitivity; [exact Hs|]. apply (offer_le_seq c (i, o)); [auto|done].
  - apply bool_decide_eq_false in Hcut. destruct (budget <? _) eqn:Hov.
    + exists sent, (cut ++ [(i, o)]). split; cbn [bt_steps bt_deferred bt_planned_bytes bt_truncated]; try done.
      * by rewrite app_assoc, Hsp.
      * by apply sublist_inserts_r.
      * by rewrite Hde, fmap_app.
      * intros k. rewrite elem_of_app, Htr, fmap_app, elem_of_app. done.
      * intros a b Ha [Hin| ->%list_elem_of_singleton]%elem_of_app; [by apply Hpr|]. apply offer_le_seq. auto.
      * intros b [Hin| ->%list_elem_of_singleton]%elem_of_app.
        -- destruct (Hfi b Hin) as (b' & ? & ?). exists b'. rewrite elem_of_app. auto.
        -- exists (i, o). rewrite elem_of_app, list_elem_of_singleton. cbn. split_and!; [auto|done|lia|]. apply Hover. lia.
    + assert (u64_saturating_add (bytes_of sent) (of_byte_len o) = bytes_of sent + of_byte_len o
              /\ bytes_of sent + of_byte_len o <= budget /\ 0 <= of_byte_len o) as (Hsat & Hfit & H0)
        by (unfold offer_typed in Hty; cbn in Hty; ints).
      assert (bytes_of (sent ++ [(i, o)]) = bytes_of sent + of_byte_len o) as Hsum by (rewrite bytes_of_app; cbn; lia).
      exists (sent ++ [(i, o)]), cut. split; cbn [bt_steps bt_deferred bt_planned_bytes bt_truncated]; try done.
      * rewrite <- Hsp, <- !app_assoc. apply Permutation_app_head, Permutation_app_comm.
      * by apply sublist_app.
      * by rewrite Hst, fmap_app.
      * by rewrite Hsat, Hsum.
      * lia.
      * intros a b [Hin| ->%list_elem_of_singleton]%elem_of_app Hbc; [by apply Hpr|]. cbn. intros Hk. exfalso.
        apply Hcut, Htr, list_elem_of_fmap. exists b. by rewrite Hk.
      * intros b Hin. destruct (Hfi b Hin) as (b' & ? & ? & ? & ?). exists b'. split_and!; [done..|lia].
Qed.

Lemma planned_all seen sent cut st rest :
  0 <= budget < U64_MAX -> Forall (fun io => offer_typed io.2) rest -> StronglySorted offer_le (seen ++ rest) ->
  planned seen sent cut st ->
  exists sent' cut', planned (seen ++ rest) sent' cut' (fold_left (backfill_step roster generation budget) rest st).
Proof.
  intros Hb Hty. revert seen sent cut st. induction Hty as [|io rest Hio Hty IH]; intros seen sent cut st Hso Hp; cbn [fold_left].
  - rewrite app_nil_r. eauto.
  - destruct (planned_next seen sent cut st io Hb Hio) as (sent' & cut' & Hp'); [|done|].
    { intros a Ha. eapply (StronglySorted_app_1_elem_of _ _ _ _ _ Hso); [done|by left]. }
    rewrite cons_middle, app_assoc in Hso |- *. by eapply IH.
Qed.

Lemma imap_pair_elem {A} (l : list A) i x : (i, x) ∈ imap pair l <-> l !! i = Some x.
Proof.
  rewrite list_elem_of_lookup. setoid_rewrite list_lookup_imap. split.
  - intros (j & Hj). destruct (l !! j) eqn:E; [|done]. by injection Hj as -> ->.
  - intros Hi. exists i. by rewrite Hi.
Qed.

Lemma matched_elem gaps offers i o :
  (i, o) ∈ matched_offers gaps offers <-> offers !! i = Some o /\ answers_gap gaps o = true.
Proof.
  unfold matched_offers. rewrite sort_by_elem, list_elem_of_filter, imap_pair_elem. cbn. tauto.
Qed.

Lemma backfill_planned gaps offers : 0 <= budget < U64_MAX -> Forall offer_typed offers ->
  let st := fold_left (backfill_step roster generation budget) (matched_offers gaps offers) (mk_bstate [] [] 0 []) in
  exists sent cut, planned (matched_offers gaps offers) sent cut st.
Proof.
  intros Hb Hty st. apply (planned_all [] [] []); [done| | |].
  - apply Forall_forall. intros [i o] [Ho _]%matched_elem. cbn. by eapply Forall_lookup_1.
  - apply sort_by_sorted; apply _.
  - split; cbn; try done; [ints|by intros ? ? ?%not_elem_of_nil|by intros ? ?%not_elem_of_nil].
Qed.

(** A round of backfill.  Of the offers that answer a gap it sends some and defers
    the rest, each once; it sends them by stream and in sequence, within its budget; of
    each stream nothing is sent that lies above a record it deferred, and where it
    deferred, the oldest record it deferred did not fit; a record is resealed exactly when
    its seal is not for the current roster and inbox key. *)
Theorem backfill_plan_spec gaps offers :
  0 <= budget < U64_MAX -> Forall offer_typed offers -> blen offers <= U32_MAX ->
  let plan := core_plan_sync_backfill roster generation budget gaps offers in
  exists sent cut : list (nat * SyncBackfillOffer),
    bp_steps plan = planned_step <$> sent /\ bp_deferred plan = (fun io => Z.of_nat io.1) <$> cut
    /\ Forall (fun io => bs_offer_index (planned_step io) = Z.of_nat io.1) sent
    /\ NoDup (sent ++ cut)
    /\ (forall i o, (i, o) ∈ sent ++ cut <-> offers !! i = Some o /\ answers_gap gaps o = true)
    /\ StronglySorted offer_le sent /\ bp_planned_bytes plan = bytes_of sent /\ bytes_of sent <= budget
    /\ (forall a b, a ∈ sent -> b ∈ cut -> offer_key a.2 = offer_key b.2 -> of_stream_seq a.2 <= of_stream_seq b.2)
    /\ (forall b, b ∈ cut -> exists b', b' ∈ cut /\ offer_key b'.2 = offer_key b.2
          /\ of_stream_seq b'.2 <= of_stream_seq b.2 /\ budget < bytes_of sent + of_byte_len b'.2).
Proof.
  intros Hb Hty Hlen plan. destruct (backfill_planned gaps offers Hb Hty) as (sent & cut & [Hsp Hor Hst Hde Hby Hbu _ Hpr Hfi]).
  assert (forall i o, (i, o) ∈ sent ++ cut <-> offers !! i = Some o /\ answers_gap gaps o = true) as Hel.
  { intros i o. by rewrite Hsp, matched_elem. }
  assert (forall io, io ∈ sent ++ cut -> as_u32 (Z.of_nat io.1) = Z.of_nat io.1) as Hidx.
  { intros [i o] [Ho _]%Hel. cbn. apply lookup_lt_Some in Ho. unfold blen in Hlen. unfold as_u32.
    rewrite Z.mod_small by ints. done. }
  exists sent, cut. split_and!; [done| | | |done| |done|lia|done|done].
  - unfold plan, core_plan_sync_backfill. cbn [bp_deferred]. rewrite Hde. apply list_fmap_ext. intros j io Hj. apply Hidx.
    apply elem_of_app. right. by eapply list_elem_of_lookup_2.
  - apply Forall_forall. intros io Hin. cbn. apply Hidx, elem_of_app. by left.
  - rewrite Hsp. unfold matched_offers. rewrite sort_by_perm. apply NoDup_filter.
    apply NoDup_alt. intros a b io. rewrite !list_lookup_imap.
    intros (x & _ & ->)%fmap_Some (y & _ & Hy)%fmap_Some. by injection Hy.
  - eapply sublist_sorted; [exact Hor|]. apply sort_by_sorted; apply _.
Qed.

End plan_spec.

(** * Witnesses *)

Definition toy_streams : list SyncStreamDigest :=
  [mk_stream (replicate 16 x02) 10 7 true; mk_stream (replicate 16 x01) 15 3 false].

Lemma sync_digest_canonical_witness :
  exists bs sorted, core_encode_sync_digest (mk_digest [x09] toy_streams) = Ok bs
    /\ core_encode_sync_digest (mk_digest [x09] (reverse toy_streams)) = Ok bs
    /\ core_decode_sync_digest bs = Ok (mk_digest [x09] sorted).
Proof.
  destruct (core_encode_sync_digest (mk_digest [x09] toy_streams)) as [bs|e] eqn:He; [|vm_compute in He; discriminate].
  destruct (sync_digest_canonical [x09] toy_streams (reverse toy_streams) bs) as (H1 & _ & sorted & _ & _ & H2).
  - repeat constructor; vm_compute; discriminate.
  - symmetry. apply reverse_Permutation.
  - exact He.
  - exists bs, sorted. split; [reflexivity|]. split; [exact H1|exact H2].
Defined.

Definition toy_version : RosterVersion := mk_version 0 4.
Definition toy_offer (seq len : Z) : SyncBackfillOffer := mk_offer (replicate 16 x02) 10 seq toy_version 1 len.

(** Three records are owed, the last two do not fit. *)
Lemma backfill_plan_spec_witness :
  let plan := core_plan_sync_backfill toy_version 1 100 [mk_gap (replicate 16 x02) 10 2 5]
                [toy_offer 5 10; toy_offer 3 60; toy_offer 4 60; toy_offer 2 1] in
  bp_steps plan = [mk_step 1 Send] /\ bp_deferred plan = [2; 0]
  /\ exists sent cut : list (nat * SyncBackfillOffer), bp_planned_bytes plan = bytes_of sent /\ bytes_of sent <= 100
       /\ NoDup (sent ++ cut).
Proof.
  intros plan. split; [vm_compute; reflexivity|]. split; [vm_compute; reflexivity|].
  destruct (backfill_plan_spec toy_version 1 100 [mk_gap (replicate 16 x02) 10 2 5]
    [toy_offer 5 10; toy_offer 3 60; toy_offer 4 60; toy_offer 2 1]) as (sent & cut & _ & _ & _ & H1 & _ & _ & H2 & H3 & _).
  - vm_compute. split; congruence.
  - repeat constructor; vm_compute; discriminate.
  - vm_compute. discriminate.
  - exists sent, cut. split; [exact H2|]. split; [exact H3|exact H1].
Defined.
