(* ===== verification/SyncStore.v ===== *)
(** Anti-entropy between a person's own devices, the durable half
    ([core/src/sync_store.rs]): the slots of each stream, the end of its gap-free prefix,
    what a device can serve, and the shared settings.

    [cursor_gap_free] shows that whatever order records arrive in, a stream's cursor is
    the end of its gap-free prefix.  The lemmas on the settings are used by
    [SettingsSync.v].  The
    merges of the payloads into the other tables ([apply_history] and its like) are a
    parameter here and modelled in [SyncMerge.v]; the harvest of pages is not modelled.
    [SyncRounds.v] joins two devices. *)
From stdpp Require Import base numbers list gmap strings sorting.
From S2P Require Import Prelude StdModel SqlModel Wire Crypto RosterCodec Message SyncStream.

(** * Tables *)

Record SealedSyncRecord : Type := mk_sealed {
  sr_sealed : bytes;
  sr_sealed_for : RosterVersion;
  sr_inbox_key_generation : Z;
}.

(** A row of [sync_stream_records] beside its key: the four columns of the sealed copy
    are all null or all set. *)
Record slot_row : Type := mk_slot {
  sl_person_id : bytes;
  sl_sealed : option SealedSyncRecord;
  sl_created_at_ms : Z;
}.

Record SyncSettingEntry : Type := mk_setting {
  se_key : bytes;
  se_value : bytes;
  se_epoch : Z;
  se_author_device_id : bytes;
}.

#[global] Instance SyncSettingEntry_eq_dec : EqDecision SyncSettingEntry.
Proof. solve_decision. Defined.

(** [sync_stream_records] by author, kind and sequence number; [sync_stream_cursors] by
    author and kind; [sync_settings] by key. *)
Record sync_db : Type := mk_sync {
  sy_slots : gmap (bytes * Z * Z) slot_row;
  sy_cursors : gmap (bytes * Z) Z;
  sy_settings : gmap bytes SyncSettingEntry;
}.

Definition sync_empty : sync_db := mk_sync ∅ ∅ ∅.

Definition with_slots (db : sync_db) (slots : gmap (bytes * Z * Z) slot_row) : sync_db :=
  mk_sync slots (sy_cursors db) (sy_settings db).

(** * Stream positions *)

(** The sequence numbers held of a stream, in ascending order ([ORDER BY stream_seq]). *)
Definition stream_seqs (db : sync_db) (author : bytes) (wire_kind : Z) : list Z :=
  merge_sort Z.le (omap (fun kv => let '((d, k, s), _) := kv in
                          if decide (d = author /\ k = wire_kind) then Some s else None) (map_to_list (sy_slots db))).

Definition next_stream_seq (db : sync_db) (author_device_id : bytes) (kind : SyncRecordKind) : Z :=
  let highest := default 0 (last (stream_seqs db author_device_id (core_sync_record_kind_wire kind))) in
  as_u64 highest + 1.

Definition stream_cursor_by_wire (db : sync_db) (author_device_id : bytes) (wire_kind : Z) : Z :=
  as_u64 (default 0 (sy_cursors db !! (author_device_id, wire_kind))).

Definition stream_cursor (db : sync_db) (author_device_id : bytes) (kind : SyncRecordKind) : Z :=
  stream_cursor_by_wire db author_device_id (core_sync_record_kind_wire kind).

(** The walk over the rows above the cursor. *)
Fixpoint walk_slots (through : Z) (rows : list Z) : Z :=
  match rows with
  | [] => through
  | seq :: rows => if as_u64 seq =? through + 1 then walk_slots (as_u64 seq) rows else through
  end.

Definition advance_cursor (db : sync_db) (author_device_id : bytes) (kind : SyncRecordKind) : sync_db * Z :=
  let wire_kind := core_sync_record_kind_wire kind in
  let through := stream_cursor db author_device_id kind in
  let rows := filter (fun seq => to_i64 through < seq) (stream_seqs db author_device_id wire_kind) in
  let through := walk_slots through rows in
  let stored := match sy_cursors db !! (author_device_id, wire_kind) with
                | Some old => Z.max old (to_i64 through)
                | None => to_i64 through
                end in
  (mk_sync (sy_slots db) (<[(author_device_id, wire_kind) := stored]> (sy_cursors db)) (sy_settings db), through).

Definition hold_slot (db : sync_db) (person_id author_device_id : bytes) (kind : SyncRecordKind) (stream_seq : Z)
  (sealed : option SealedSyncRecord) (now_ms : Z) : sync_db * bool :=
  let key := (author_device_id, core_sync_record_kind_wire kind, to_i64 stream_seq) in
  match sy_slots db !! key with
  | Some _ => (db, false)
  | None =>
      let db := with_slots db (<[key := mk_slot person_id sealed now_ms]> (sy_slots db)) in
      ((advance_cursor db author_device_id kind).1, true)
  end.

(** * The digest *)

(** The rows of a person, as stream and whether the row has its sealed copy. *)
Definition person_rows (db : sync_db) (person_id : bytes) : list ((bytes * Z) * bool) :=
  omap (fun kv => let '((d, k, _), row) := kv in
          if decide (sl_person_id row = person_id) then Some ((d, k), bool_decide (is_Some (sl_sealed row))) else None)
    (map_to_list (sy_slots db)).

Definition digest (db : sync_db) (person_id : bytes) : SyncDigest :=
  let rows := person_rows db person_id in
  mk_digest person_id
    (omap (fun key : bytes * Z =>
             if (0 <=? key.2) && (key.2 <=? U8_MAX)
             then Some (mk_stream key.1 key.2 (stream_cursor_by_wire db key.1 key.2)
                          (existsb (fun r => bool_decide (r.1 = key) && r.2) rows))
             else None)
       (dedup (merge_sort stream_le (fst <$> rows)))).

Definition core_sync_digest (db : sync_db) (person_id : bytes) : SyncDigest := digest db person_id.

(** * What a device can send *)

Record StoredSyncRecord : Type := mk_stored {
  st_author_device_id : bytes;
  st_kind : SyncRecordKind;
  st_stream_seq : Z;
  st_sealed : bytes;
  st_sealed_for : RosterVersion;
  st_inbox_key_generation : Z;
}.

Definition offer (r : StoredSyncRecord) : SyncBackfillOffer :=
  mk_offer (st_author_device_id r) (core_sync_record_kind_wire (st_kind r)) (st_stream_seq r) (st_sealed_for r)
    (st_inbox_key_generation r) (blen (st_sealed r)).

(** The query for one gap: the sealed rows of the run, oldest first. *)
Definition gap_rows (db : sync_db) (gap : SyncGap) (kind : SyncRecordKind) : list StoredSyncRecord :=
  omap (fun seq =>
          row ← sy_slots db !! (gp_author_device_id gap, gp_kind gap, seq);
          sealed ← sl_sealed row;
          Some (mk_stored (gp_author_device_id gap) kind (as_u64 seq) (sr_sealed sealed) (sr_sealed_for sealed)
                  (sr_inbox_key_generation sealed)))
    (filter (fun seq => to_i64 (gp_after_seq gap) < seq <= to_i64 (gp_through_seq gap))
       (stream_seqs db (gp_author_device_id gap) (gp_kind gap))).

Fixpoint backfill_loop (db : sync_db) (gaps : list SyncGap) (limit : nat) (out : list StoredSyncRecord)
  : list StoredSyncRecord :=
  match gaps with
  | [] => out
  | gap :: gaps =>
      if decide (limit <= length out)%nat then out else
      match core_sync_record_kind_of (gp_kind gap) with
      | None => backfill_loop db gaps limit out
      | Some kind => backfill_loop db gaps limit (out ++ take (limit - length out) (gap_rows db gap kind))
      end
  end.

Definition backfill_offers (db : sync_db) (gaps : list SyncGap) (limit : Z) : list StoredSyncRecord :=
  backfill_loop db gaps (Z.to_nat limit) [].

Definition core_sync_backfill_offers (records : list StoredSyncRecord) : list SyncBackfillOffer := offer <$> records.

Definition sealed_record_at_slot (db : sync_db) (author_device_id : bytes) (kind : SyncRecordKind) (stream_seq : Z)
  : option StoredSyncRecord :=
  row ← sy_slots db !! (author_device_id, core_sync_record_kind_wire kind, to_i64 stream_seq);
  sealed ← sl_sealed row;
  Some (mk_stored author_device_id kind stream_seq (sr_sealed sealed) (sr_sealed_for sealed)
          (sr_inbox_key_generation sealed)).

(** * Records *)

Record SyncRecord : Type := mk_record {
  rc_kind : SyncRecordKind;
  rc_person_id : bytes;
  rc_author_device_id : bytes;
  rc_roster_version : RosterVersion;
  rc_inbox_key_generation : Z;
  rc_stream_seq : Z;
  rc_timestamp_ms : Z;
  rc_payload : bytes;
  rc_signature : bytes;
}.

Definition retain (db : sync_db) (record : SyncRecord) (sealed : SealedSyncRecord) (now_ms : Z)
  : sync_db * result CoreError bool :=
  if negb (core_sync_kind_is_stream (rc_kind record))
  then (db, Err (Malformed "a sync digest is not a retained stream record"))
  else
    let '(db, held) := hold_slot db (rc_person_id record) (rc_author_device_id record) (rc_kind record)
                         (rc_stream_seq record) (Some sealed) now_ms in
    (db, Ok held).

Definition reseal (db : sync_db) (record : SyncRecord) (sealed : SealedSyncRecord) : sync_db * bool :=
  let key := (rc_author_device_id record, core_sync_record_kind_wire (rc_kind record), to_i64 (rc_stream_seq record)) in
  match sy_slots db !! key with
  | Some row => (with_slots db (<[key := mk_slot (sl_person_id row) (Some sealed) (sl_created_at_ms row)]> (sy_slots db)), true)
  | None => (db, false)
  end.

Inductive SyncApplyOutcome : Type := Applied | AlreadyHeld | Read.

(** [news] is what a payload hands back besides a count: an own roster or a relay
    credential. *)
Record SyncApplyResult (N : Type) : Type := mk_applied {
  ar_outcome : SyncApplyOutcome;
  ar_applied_entries : Z;
  ar_through_seq : Z;
  ar_news : option N;
  ar_peer_digest : option SyncDigest;
}.
Arguments mk_applied {N}.
Arguments ar_outcome {N}.
Arguments ar_through_seq {N}.

(** [T] is the tables the payloads are merged into, [merge] the merge of one payload by
    its kind. *)
Definition apply_record {T N : Type} (merge : SyncRecord -> T -> T * result CoreError (Z * option N))
  (db : sync_db) (tables : T) (record : SyncRecord) (now_ms : Z) : (sync_db * T) * result CoreError (SyncApplyResult N) :=
  if negb (core_sync_kind_is_stream (rc_kind record)) then
    ((db, tables),
     peer_digest ← core_decode_sync_digest (rc_payload record);
     _ ← ensure (bool_decide (dg_person_id peer_digest = rc_person_id record))
           (Malformed "a sync digest names a different person than the record carrying it");
     Ok (mk_applied Read (as_u32 (blen (dg_streams peer_digest))) 0 None (Some peer_digest)))
  else
    let wire_kind := core_sync_record_kind_wire (rc_kind record) in
    match sy_slots db !! (rc_author_device_id record, wire_kind, to_i64 (rc_stream_seq record)) with
    | Some _ =>
        ((db, tables), Ok (mk_applied AlreadyHeld 0 (stream_cursor db (rc_author_device_id record) (rc_kind record)) None None))
    | None =>
        match merge record tables with
        | (tables, Err e) => ((db, tables), Err e)
        | (tables, Ok (applied_entries, news)) =>
            let '(db, _) := hold_slot db (rc_person_id record) (rc_author_device_id record) (rc_kind record)
                              (rc_stream_seq record) None now_ms in
            ((db, tables), Ok (mk_applied Applied applied_entries
               (stream_cursor db (rc_author_device_id record) (rc_kind record)) news None))
        end
    end.

(** * Settings *)

(** [order_key() > order_key()]: epoch, then author, then value. *)
Definition supersedes (entry stored : SyncSettingEntry) : bool :=
  if se_epoch entry =? se_epoch stored then
    if decide (se_author_device_id entry = se_author_device_id stored)
    then negb (bool_decide (bytes_le (se_value entry) (se_value stored)))
    else negb (bool_decide (bytes_le (se_author_device_id entry) (se_author_device_id stored)))
  else se_epoch stored <? se_epoch entry.

Definition setting (db : sync_db) (key : bytes) : option SyncSettingEntry := sy_settings db !! key.

Definition put_setting (db : sync_db) (entry : SyncSettingEntry) : sync_db * result CoreError bool :=
  if negb (blen (se_author_device_id entry) =? DEVICE_ID_LEN)
  then (db, Err (Malformed "a shared setting must name the device that wrote it"))
  else
    let loses := match setting db (se_key entry) with Some stored => negb (supersedes entry stored) | None => false end in
    if loses then (db, Ok false)
    else (mk_sync (sy_slots db) (sy_cursors db) (<[se_key entry := entry]> (sy_settings db)), Ok true).

Definition RELAY_EPOCH_MAX_SKEW_MS : Z := 3 * 24 * 60 * 60 * 1000.

Definition relay_credential_entry_is_admissible (entry : SyncSettingEntry) (own_roster : option Roster) (now_ms : Z) : bool :=
  if match own_roster with
     | Some roster => existsb (fun t => bool_decide (tomb_device_id t = se_author_device_id entry)) (tombstones roster)
     | None => false
     end
  then false
  else se_epoch entry <=? Z.max (i64_saturating_add now_ms RELAY_EPOCH_MAX_SKEW_MS) 0.

(** * The cursor is the end of the gap-free prefix *)

Lemma stream_seqs_elem db d k s : s ∈ stream_seqs db d k <-> is_Some (sy_slots db !! (d, k, s)).
Proof.
  unfold stream_seqs. rewrite merge_sort_Permutation, list_elem_of_omap. split.
  - intros ([[[d' k'] s'] row] & Hin & Hs). apply elem_of_map_to_list in Hin.
    case_decide as Hd; [|done]. destruct Hd as [-> ->]. injection Hs as ->. eauto.
  - intros [row Hrow]. exists ((d, k, s), row). rewrite elem_of_map_to_list. split; [done|]. by rewrite decide_True.
Qed.

Lemma stream_seqs_sorted db d k : StronglySorted Z.lt (stream_seqs db d k).
Proof.
  assert (NoDup (stream_seqs db d k)) as Hnd.
  { unfold stream_seqs. rewrite merge_sort_Permutation. apply (NoDup_fmap_1 (fun s => (d, k, s))).
    eapply sublist_NoDup; [apply (NoDup_fst_map_to_list (sy_slots db))|].
    induction (map_to_list (sy_slots db)) as [|[[[d' k'] s'] row] l IH]; cbn; [constructor|].
    case_decide as Hd; cbn; [destruct Hd as [-> ->]; by constructor|by constructor]. }
  assert (StronglySorted Z.le (stream_seqs db d k)) as Hso by (apply StronglySorted_merge_sort; apply _).
  revert Hnd Hso. generalize (stream_seqs db d k). intros l Hnd Hso. induction Hso as [|x l Hl IH Hx]; [constructor|].
  apply NoDup_cons in Hnd as [Hx' Hnd]. constructor; [auto|]. apply Forall_forall. intros y Hy.
  eapply Forall_forall in Hx; [|exact Hy]. assert (x <> y) by (by intros ->). lia.
Qed.

Lemma walk_slots_spec through rows :
  0 <= through -> StronglySorted Z.lt rows -> Forall (fun s => through < s <= I64_MAX) rows ->
  let n := walk_slots through rows in
  through <= n /\ (n = through \/ n <= I64_MAX) /\ (forall i, through < i <= n -> i ∈ rows) /\ (n + 1) ∉ rows.
Proof.
  intros H0 Hso. revert through H0. induction Hso as [|s rows Hl IH Hs]; intros through H0 Hr; cbn [walk_slots].
  - cbn zeta. split_and!; [lia|by left|lia|apply not_elem_of_nil].
  - apply Forall_cons in Hr as [Hr Hrs]. assert (as_u64 s = s) as -> by (unfold as_u64; rewrite Z.mod_small; ints).
    destruct (s =? through + 1) eqn:E.
    + apply Z.eqb_eq in E. destruct (IH s) as (H1 & H2 & H3 & H4); [lia| |].
      { apply Forall_forall. intros y Hy. eapply Forall_forall in Hs; [|exact Hy]. eapply Forall_forall in Hrs; [|exact Hy]. lia. }
      split_and!; [lia|lia| |].
      * intros i Hi. apply elem_of_cons. destruct (decide (i = s)); [by left|right]. apply H3. lia.
      * rewrite not_elem_of_cons. split; [lia|done].
    + apply Z.eqb_neq in E. split_and!; [lia|by left|lia|]. rewrite not_elem_of_cons. split; [lia|].
      intros Hin. eapply Forall_forall in Hs; [|exact Hin]. lia.
Qed.

(** The invariant: sequence numbers are the database's integers, and each cursor is the
    end of the gap-free prefix of its stream. *)
Definition cursor_at (db : sync_db) (d : bytes) (k : Z) : Z := default 0 (sy_cursors db !! (d, k)).

Record sync_ok (db : sync_db) : Prop := {
  so_seqs : forall d k s, is_Some (sy_slots db !! (d, k, s)) -> s <= I64_MAX;
  so_range : forall d k, 0 <= cursor_at db d k <= I64_MAX;
  so_prefix : forall d k i, 1 <= i <= cursor_at db d k -> is_Some (sy_slots db !! (d, k, i));
  so_next : forall d k, sy_slots db !! (d, k, cursor_at db d k + 1) = None;
}.

Lemma sync_empty_ok : sync_ok sync_empty.
Proof.
  assert (forall d k, cursor_at sync_empty d k = 0) as H0 by done.
  split; intros d k; rewrite ?H0; [by intros s [? [=]]|vm_compute; split; discriminate|lia|done].
Qed.

Lemma stream_cursor_at db d k : sync_ok db -> stream_cursor_by_wire db d k = cursor_at db d k.
Proof.
  intros Hok. pose proof (so_range _ Hok d k) as Hr. unfold stream_cursor_by_wire. fold (cursor_at db d k). unfold as_u64.
  rewrite Z.mod_small; ints.
Qed.

(** Advancing one stream's cursor takes it to the end of its gap-free prefix. *)
Lemma advance_cursor_spec db d kind :
  (forall d k s, is_Some (sy_slots db !! (d, k, s)) -> s <= I64_MAX) ->
  (forall d k, 0 <= cursor_at db d k <= I64_MAX) ->
  let k := core_sync_record_kind_wire kind in
  let db' := (advance_cursor db d kind).1 in
  let n := cursor_at db d k in let m := cursor_at db' d k in
  sy_slots db' = sy_slots db /\ sy_settings db' = sy_settings db
  /\ (forall d' k', (d', k') <> (d, k) -> cursor_at db' d' k' = cursor_at db d' k')
  /\ n <= m <= I64_MAX /\ (forall i, n < i <= m -> is_Some (sy_slots db !! (d, k, i)))
  /\ sy_slots db !! (d, k, m + 1) = None.
Proof.
  intros Hs Hr k db' n m. specialize (Hr d k). fold n in Hr. unfold m, db'. clear m db'. unfold advance_cursor. fold k.
  assert (stream_cursor db d kind = n) as ->.
  { unfold stream_cursor, stream_cursor_by_wire. fold k. fold (cursor_at db d k). fold n. unfold as_u64.
    rewrite Z.mod_small; ints. }
  rewrite (to_i64_id n) by lia. set (rows := filter (fun s => n < s) (stream_seqs db d k)).
  assert (forall s, s ∈ rows <-> n < s /\ is_Some (sy_slots db !! (d, k, s))) as Hrows.
  { intros s. unfold rows. by rewrite list_elem_of_filter, stream_seqs_elem. }
  destruct (walk_slots_spec n rows) as (W1 & W2 & W3 & W4); [lia| | |].
  { eapply sublist_sorted; [apply sublist_filter|apply stream_seqs_sorted]. }
  { apply Forall_forall. intros s [Hs2 Hs3]%Hrows. split; [done|by eapply Hs]. }
  set (m := walk_slots n rows) in *. rewrite (to_i64_id m) by lia. cbn [fst sy_slots sy_settings].
  assert (match sy_cursors db !! (d, k) with Some old => Z.max old m | None => m end = m) as ->.
  { unfold n, cursor_at in W1. destruct (sy_cursors db !! (d, k)); cbn in *; lia. }
  set (db2 := mk_sync (sy_slots db) _ _).
  assert (cursor_at db2 d k = m) as -> by (unfold cursor_at, db2; cbn [sy_cursors]; by rewrite lookup_insert_eq).
  split_and!; [done|done| |done|lia| |].
  - intros d' k' Hne. unfold cursor_at, db2. cbn [sy_cursors]. by rewrite lookup_insert_ne by done.
  - intros i Hi. by apply Hrows, W3.
  - apply eq_None_not_Some. intros Hx. apply W4, Hrows. split; [lia|done].
Qed.

(** One slot more: nothing held is lost, no cursor goes back. *)
Lemma hold_slot_spec db p d kind seq sealed now :
  sync_ok db -> in_u64 seq ->
  let db' := (hold_slot db p d kind seq sealed now).1 in
  let k := core_sync_record_kind_wire kind in
  sync_ok db'
  /\ is_Some (sy_slots db' !! (d, k, to_i64 seq))
  /\ (forall key row, sy_slots db !! key = Some row -> sy_slots db' !! key = Some row)
  /\ (forall key row, sy_slots db' !! key = Some row -> sy_slots db !! key = Some row \/ row = mk_slot p sealed now)
  /\ (forall d' k', cursor_at db d' k' <= cursor_at db' d' k')
  /\ sy_settings db' = sy_settings db.
Proof.
  intros Hok Hseq. unfold hold_slot. set (k := core_sync_record_kind_wire kind). set (key := (d, k, to_i64 seq)).
  destruct (sy_slots db !! key) as [row|] eqn:Hslot; cbn [fst].
  { split_and!; [done|by rewrite Hslot; eauto|done|by left|lia|done]. }
  set (db1 := with_slots db (<[key := mk_slot p sealed now]> (sy_slots db))). pose proof Hok as [Hs Hr Hp Hn].
  assert (forall x, is_Some (sy_slots db !! x) -> is_Some (sy_slots db1 !! x)) as Hmono.
  { intros x Hx. cbn. destruct (decide (x = key)) as [->|Hne]; [by rewrite lookup_insert_eq; eauto|by rewrite lookup_insert_ne]. }
  assert (forall d' k' s, is_Some (sy_slots db1 !! (d', k', s)) -> s <= I64_MAX) as Hs1.
  { intros d' k' s. cbn. rewrite lookup_insert_is_Some'. intros [[= <- <- <-]|Hk]; [by apply to_i64_le|by eapply Hs]. }
  destruct (advance_cursor_spec db1 d kind Hs1 Hr) as (Esl & Ese & Eo & Em & Ei & En). fold k in Eo, Em, Ei, En.
  set (db2 := (advance_cursor db1 d kind).1) in *. change (cursor_at db1) with (cursor_at db) in *. split_and!.
  - split; rewrite ?Esl.
    + exact Hs1.
    + intros d' k'. destruct (decide ((d', k') = (d, k))) as [[= -> ->]|Hne]; [specialize (Hr d k); lia|].
      rewrite Eo by done. apply Hr.
    + intros d' k' i Hi. destruct (decide ((d', k') = (d, k))) as [[= -> ->]|Hne].
      * destruct (decide (i <= cursor_at db d k)); [apply Hmono, Hp; lia|apply Ei; lia].
      * rewrite Eo in Hi by done. by apply Hmono, Hp.
    + intros d' k'. destruct (decide ((d', k') = (d, k))) as [[= -> ->]|Hne]; [exact En|].
      rewrite Eo by done. cbn. rewrite lookup_insert_ne by (unfold key; congruence). apply Hn.
  - rewrite Esl. cbn. rewrite lookup_insert_eq. eauto.
  - intros x row Hx. rewrite Esl. cbn. rewrite lookup_insert_ne; [done|]. intros <-. congruence.
  - intros x row. rewrite Esl. cbn. intros [[_ <-]|[_ Hx]]%lookup_insert_Some; [by right|by left].
  - intros d' k'. destruct (decide ((d', k') = (d, k))) as [[= -> ->]|Hne]; [lia|by rewrite Eo].
  - by rewrite Ese.
Qed.

(** A slot the stream is waiting for moves its cursor. *)
Lemma hold_slot_advances db p d kind sealed now :
  sync_ok db -> let k := core_sync_record_kind_wire kind in cursor_at db d k < I64_MAX ->
  cursor_at db d k < cursor_at (hold_slot db p d kind (cursor_at db d k + 1) sealed now).1 d k.
Proof.
  intros Hok k Hlt. pose proof (so_range _ Hok d k) as Hr.
  destruct (hold_slot_spec db p d kind (cursor_at db d k + 1) sealed now Hok ltac:(ints)) as (Hok' & Hheld & _ & _ & Hle & _).
  fold k in Hheld. rewrite to_i64_id in Hheld by lia. specialize (Hle d k).
  destruct (decide (cursor_at db d k = cursor_at (hold_slot db p d kind (cursor_at db d k + 1) sealed now).1 d k)) as [He|]; [|lia].
  exfalso. pose proof (so_next _ Hok' d k) as Hx. rewrite <- He in Hx. rewrite Hx in Hheld. by destruct Hheld.
Qed.

(** ** Any history of records *)

Inductive sync_op : Type :=
| OpRetain (record : SyncRecord) (sealed : SealedSyncRecord) (now_ms : Z)
| OpApply (record : SyncRecord) (now_ms : Z)
| OpReseal (record : SyncRecord) (sealed : SealedSyncRecord)
| OpSetting (entry : SyncSettingEntry).

Definition op_record_typed (op : sync_op) : Prop :=
  match op with
  | OpRetain record _ _ | OpApply record _ | OpReseal record _ => in_u64 (rc_stream_seq record)
  | OpSetting _ => True
  end.

Section histories.
Context {T N : Type} (merge : SyncRecord -> T -> T * result CoreError (Z * option N)).

Definition sync_step (st : sync_db * T) (op : sync_op) : sync_db * T :=
  match op with
  | OpRetain record sealed now => ((retain st.1 record sealed now).1, st.2)
  | OpApply record now => (apply_record merge st.1 st.2 record now).1
  | OpReseal record sealed => ((reseal st.1 record sealed).1, st.2)
  | OpSetting entry => ((put_setting st.1 entry).1, st.2)
  end.

Definition sync_run (st : sync_db * T) (ops : list sync_op) : sync_db * T := fold_left sync_step ops st.

(** What an operation may not undo. *)
Definition sync_later (db db' : sync_db) : Prop :=
  (forall key, is_Some (sy_slots db !! key) -> is_Some (sy_slots db' !! key))
  /\ forall d k, cursor_at db d k <= cursor_at db' d k.

Lemma unchanged db : sync_ok db -> sync_ok db /\ sync_later db db.
Proof. intros Hok. split; [done|]. split; [done|]. intros; lia. Qed.

Lemma hold_later db p d kind seq sealed now : sync_ok db -> in_u64 seq ->
  sync_ok (hold_slot db p d kind seq sealed now).1 /\ sync_later db (hold_slot db p d kind seq sealed now).1.
Proof.
  intros Hok Hs. destruct (hold_slot_spec db p d kind seq sealed now Hok Hs) as (H1 & _ & H2 & _ & H3 & _).
  split; [done|]. split; [|done]. intros key [row Hrow]. rewrite (H2 _ _ Hrow). eauto.
Qed.

Lemma reseal_later db record sealed : sync_ok db ->
  sync_ok (reseal db record sealed).1 /\ sync_later db (reseal db record sealed).1.
Proof.
  intros Hok. unfold reseal. set (key := (_, _, _)). destruct (sy_slots db !! key) as [row|] eqn:Hrow; [|by apply unchanged].
  cbn [fst]. set (db' := with_slots _ _).
  assert (forall x, is_Some (sy_slots db' !! x) <-> is_Some (sy_slots db !! x)) as Hsame.
  { intros x. cbn. rewrite lookup_insert_is_Some'. split; [|by right]. intros [<-|Hx]; [by rewrite Hrow; eauto|done]. }
  pose proof Hok as [H1 H2 H3 H4]. split; [split|split; [by intros x Hx%Hsame|done]].
  - intros d k s Hx%Hsame. by eapply H1.
  - exact H2.
  - intros d k i Hi. apply Hsame. by apply H3.
  - intros d k. apply eq_None_not_Some. intros Hx%Hsame. rewrite H4 in Hx. by destruct Hx.
Qed.

Lemma sync_step_ok st op : sync_ok st.1 -> op_record_typed op -> sync_ok (sync_step st op).1 /\ sync_later st.1 (sync_step st op).1.
Proof.
  intros Hok Hty. destruct st as [db t]. destruct op as [r sealed now|r now|r sealed|e]; cbn [sync_step fst snd op_record_typed] in *.
  - unfold retain. destruct (negb _); [by apply unchanged|].
    destruct (hold_slot db (rc_person_id r) (rc_author_device_id r) (rc_kind r) (rc_stream_seq r) (Some sealed) now) as [db' b] eqn:Hh.
    cbn [fst]. pose proof (hold_later db (rc_person_id r) (rc_author_device_id r) (rc_kind r) (rc_stream_seq r) (Some sealed) now Hok Hty) as Hl.
    by rewrite Hh in Hl.
  - unfold apply_record. destruct (negb _); [by apply unchanged|]. destruct (sy_slots db !! _); [by apply unchanged|].
    destruct (merge r t) as [t' [[n news]|e]]; [|by apply unchanged].
    pose proof (hold_later db (rc_person_id r) (rc_author_device_id r) (rc_kind r) (rc_stream_seq r) None now Hok Hty) as Hl.
    by destruct (hold_slot db (rc_person_id r) (rc_author_device_id r) (rc_kind r) (rc_stream_seq r) None now).
  - by apply reseal_later.
  - unfold put_setting. destruct (negb _); [by apply unchanged|]. cbn zeta.
    match goal with |- context [if ?b then (db, Ok false) else _] => destruct b end; [by apply unchanged|].
    cbn [fst]. split; [|apply (unchanged db Hok)]. by destruct Hok.
Qed.

Lemma sync_run_ok st ops : sync_ok st.1 -> Forall op_record_typed ops ->
  sync_ok (sync_run st ops).1 /\ sync_later st.1 (sync_run st ops).1.
Proof.
  intros Hok Hty. revert st Hok. induction Hty as [|op ops Hop _ IH]; intros st Hok; cbn; [by apply unchanged|].
  destruct (sync_step_ok st op Hok Hop) as (H1 & H2 & H3). destruct (IH _ H1) as (H4 & H5 & H6).
  split; [done|]. split; [auto|]. intros d k. specialize (H3 d k). specialize (H6 d k). cbn in H6. unfold sync_run in H6. lia.
Qed.

(** C34: whatever order records arrive in, however often, and whatever their payloads'
    merges answer, the watermark a digest advertises for a stream is the end of its
    gap-free prefix: every record up to it is held and the next one is not; and it never
    goes back. *)
Theorem cursor_gap_free tables ops ops' d k :
  Forall op_record_typed ops -> Forall op_record_typed ops' ->
  let db := (sync_run (sync_empty, tables) ops).1 in
  let n := stream_cursor_by_wire db d k in
  (forall i, 1 <= i <= n -> is_Some (sy_slots db !! (d, k, i)))
  /\ sy_slots db !! (d, k, n + 1) = None
  /\ n <= stream_cursor_by_wire (sync_run (sync_empty, tables) (ops ++ ops')).1 d k.
Proof.
  intros Hty Hty' db n. destruct (sync_run_ok (sync_empty, tables) ops sync_empty_ok Hty) as [Hok _]. fold db in Hok.
  assert (n = cursor_at db d k) as -> by by apply stream_cursor_at.
  unfold sync_run. rewrite fold_left_app. fold (sync_run (sync_empty, tables) ops).
  destruct (sync_run_ok (sync_run (sync_empty, tables) ops) ops' Hok Hty') as [Hok' [_ Hle]].
  split_and!; [by apply so_prefix|by apply so_next|]. fold (sync_run (sync_run (sync_empty, tables) ops) ops').
  rewrite stream_cursor_at by done. apply Hle.
Qed.

End histories.

(** * Shared settings converge *)

(** Byte strings, strictly. *)
Definition bytes_lt (a b : bytes) : Prop := ~ bytes_le b a.

Lemma supersedes_spec a b : supersedes a b = true <->
  se_epoch b < se_epoch a
  \/ se_epoch a = se_epoch b /\ (bytes_lt (se_author_device_id b) (se_author_device_id a)
     \/ se_author_device_id a = se_author_device_id b /\ bytes_lt (se_value b) (se_value a)).
Proof.
  unfold supersedes, bytes_lt. destruct (se_epoch a =? se_epoch b) eqn:E.
  - apply Z.eqb_eq in E. case_decide as Hd; rewrite negb_true_iff, bool_decide_eq_false; [|intuition (lia || tauto)].
    rewrite Hd. pose proof (bytes_le_refl (se_author_device_id b)). intuition (lia || tauto).
  - apply Z.eqb_neq in E. rewrite Z.ltb_lt. intuition lia.
Qed.

Lemma bytes_lt_trans a b d : bytes_lt a b -> bytes_lt b d -> bytes_lt a d.
Proof.
  unfold bytes_lt. intros H1 H2 H3. destruct (bytes_le_total b d) as [H4|H4]; [|done]. apply H1. by transitivity d.
Qed.

Lemma bytes_lt_total a b : ~ bytes_lt a b -> ~ bytes_lt b a -> a = b.
Proof. unfold bytes_lt. intros H1%dec_stable H2%dec_stable. by apply bytes_le_antisymm. Qed.

Lemma supersedes_trans a b d : supersedes a b = true -> supersedes b d = true -> supersedes a d = true.
Proof.
  rewrite !supersedes_spec. intros [?|[He1 [H1|[Ha1 H1]]]] [?|[He2 [H2|[Ha2 H2]]]]; try (left; lia); right; (split; [lia|]);
    [left; by eapply bytes_lt_trans|left; congruence|left; congruence|right; split; [congruence|by eapply bytes_lt_trans]].
Qed.

Lemma supersedes_total a b : se_key a = se_key b -> supersedes a b = false -> supersedes b a = false -> a = b.
Proof.
  intros Hk H1%not_true_iff_false H2%not_true_iff_false. rewrite supersedes_spec in H1, H2.
  assert (se_epoch a = se_epoch b) as He by lia.
  assert (se_author_device_id a = se_author_device_id b) as Ha.
  { apply bytes_lt_total; intros Hx; [apply H2|apply H1]; right; split; auto. }
  assert (se_value a = se_value b) as Hv.
  { apply bytes_lt_total; intros Hx; [apply H2|apply H1]; right; split; auto. }
  destruct a, b; cbn in *; congruence.
Qed.

Definition put_settings (db : sync_db) (entries : list SyncSettingEntry) : sync_db :=
  fold_left (fun db e => (put_setting db e).1) entries db.

(** The greatest of a set of entries of one key, if there is any. *)
Definition greatest (seen : SyncSettingEntry -> Prop) (r : option SyncSettingEntry) : Prop :=
  match r with
  | Some m => seen m /\ forall e, seen e -> supersedes e m = false
  | None => forall e, ~ seen e
  end.

Definition seen_of (key : bytes) (entries : list SyncSettingEntry) (e : SyncSettingEntry) : Prop :=
  e ∈ entries /\ se_key e = key /\ blen (se_author_device_id e) = DEVICE_ID_LEN.

Lemma greatest_unique key entries r r' :
  greatest (seen_of key entries) r -> greatest (seen_of key entries) r' -> r = r'.
Proof.
  destruct r as [m|], r' as [m'|]; cbn; [|by intros [H _] H'; destruct (H' m)|by intros H' [H _]; destruct (H' m')|done].
  intros [H1 H2] [H3 H4]. f_equal. apply supersedes_total; [|by apply H4|by apply H2].
  destruct H1 as (_ & -> & _), H3 as (_ & -> & _). done.
Qed.

Lemma supersedes_irrefl e : supersedes e e = false.
Proof.
  apply not_true_iff_false. rewrite supersedes_spec. unfold bytes_lt.
  pose proof (bytes_le_refl (se_author_device_id e)). pose proof (bytes_le_refl (se_value e)). intuition lia.
Qed.

Lemma put_setting_greatest db entries e key :
  greatest (seen_of key entries) (sy_settings db !! key) ->
  greatest (seen_of key (entries ++ [e])) (sy_settings (put_setting db e).1 !! key).
Proof.
  intros Hg. assert (forall x, seen_of key (entries ++ [e]) x <-> seen_of key entries x \/ (x = e /\ se_key e = key
    /\ blen (se_author_device_id e) = DEVICE_ID_LEN)) as Hseen.
  { intros x. unfold seen_of. rewrite elem_of_app, list_elem_of_singleton. naive_solver. }
  unfold put_setting. destruct (blen (se_author_device_id e) =? DEVICE_ID_LEN) eqn:Hlen; cbn [negb fst].
  2: { apply Z.eqb_neq in Hlen. destruct (sy_settings db !! key) as [m|]; cbn in *.
       - split; [apply Hseen; by left; apply Hg|]. intros x [Hx|(_ & _ & ?)]%Hseen; [by apply Hg|done].
       - intros x [Hx|(_ & _ & ?)]%Hseen; [by eapply Hg|done]. }
  apply Z.eqb_eq in Hlen. unfold setting. destruct (decide (se_key e = key)) as [<-|Hne].
  - destruct (sy_settings db !! se_key e) as [m|] eqn:Hm; cbn in Hg.
    + destruct (supersedes e m) eqn:Hs; cbn [negb fst sy_settings].
      * rewrite lookup_insert_eq. split; [apply Hseen; by right|]. intros x [Hx|(-> & _ & _)]%Hseen; [|apply supersedes_irrefl].
        destruct (supersedes x e) eqn:Hxe; [|done]. rewrite <- (proj2 Hg x Hx). symmetry. by eapply supersedes_trans.
      * rewrite Hm. split; [apply Hseen; by left; apply Hg|]. intros x [Hx|(-> & _ & _)]%Hseen; [by apply Hg|done].
    + cbn [fst sy_settings]. rewrite lookup_insert_eq. split; [apply Hseen; by right|].
      intros x [Hx|(-> & _ & _)]%Hseen; [by destruct (Hg x)|apply supersedes_irrefl].
  - match goal with |- greatest _ ?r => assert (r = sy_settings db !! key) as -> end.
    { match goal with |- context [if ?b then (db, Ok false) else _] => destruct b end; [done|]. cbn. by rewrite lookup_insert_ne. }
    assert (forall x, seen_of key (entries ++ [e]) x <-> seen_of key entries x) as Hs by (intros x; rewrite Hseen; naive_solver).
    unfold greatest in *. destruct (sy_settings db !! key); setoid_rewrite Hs; done.
Qed.

Lemma put_settings_greatest base entries key db :
  greatest (seen_of key base) (sy_settings db !! key) -> greatest (seen_of key (base ++ entries)) (sy_settings (put_settings db entries) !! key).
Proof.
  intros Hb. induction entries as [|e entries IH] using rev_ind; [by rewrite app_nil_r|].
  unfold put_settings. rewrite fold_left_app, app_assoc. cbn [fold_left]. by apply put_setting_greatest.
Qed.

(** * Two devices *)

(** ** What a digest says *)

Lemma person_rows_elem db p d k b : ((d, k), b) ∈ person_rows db p <->
  exists s row, sy_slots db !! (d, k, s) = Some row /\ sl_person_id row = p /\ b = bool_decide (is_Some (sl_sealed row)).
Proof.
  unfold person_rows. rewrite list_elem_of_omap. split.
  - intros ([[[d' k'] s] row] & Hin & Hr). apply elem_of_map_to_list in Hin. case_decide; [|done].
    injection Hr as <- <- <-. eauto.
  - intros (s & row & Hs & Hp & ->). exists ((d, k, s), row). rewrite elem_of_map_to_list. split; [done|]. by rewrite decide_True.
Qed.

Lemma can_serve_spec db p d k :
  existsb (fun r => bool_decide (r.1 = (d, k)) && r.2) (person_rows db p) = true <->
  exists s row, sy_slots db !! (d, k, s) = Some row /\ sl_person_id row = p /\ is_Some (sl_sealed row).
Proof.
  rewrite existsb_exists. setoid_rewrite <- list_elem_of_In. split.
  - intros ([key b] & Hin & [Hk Hb]%andb_true_iff). apply bool_decide_eq_true in Hk. cbn in Hk, Hb. subst key.
    apply person_rows_elem in Hin as (s & row & Hs & Hp & ->). exists s, row. by apply bool_decide_eq_true in Hb.
  - intros (s & row & Hs & Hp & Hse). exists ((d, k), true). split.
    + apply person_rows_elem. exists s, row. split_and!; [done|done|]. symmetry. by apply bool_decide_eq_true.
    + cbn. by rewrite bool_decide_eq_true_2.
Qed.

Lemma digest_elem db p st : st ∈ dg_streams (digest db p) <->
  in_u8 (sd_kind st) /\ sd_through_seq st = stream_cursor_by_wire db (sd_author_device_id st) (sd_kind st)
  /\ (exists s row, sy_slots db !! (sd_author_device_id st, sd_kind st, s) = Some row /\ sl_person_id row = p)
  /\ (sd_can_serve st = true <-> exists s row, sy_slots db !! (sd_author_device_id st, sd_kind st, s) = Some row
        /\ sl_person_id row = p /\ is_Some (sl_sealed row)).
Proof.
  unfold digest. cbn [dg_streams]. rewrite list_elem_of_omap. split.
  - intros ([d k] & Hin & He). rewrite elem_of_dedup, merge_sort_Permutation in Hin.
    apply list_elem_of_fmap in Hin as ([key b] & Hke & Hin). cbn in Hke. subst key.
    apply person_rows_elem in Hin as (s & row & Hs & Hp & _). cbn [fst snd] in *.
    destruct ((0 <=? k) && (k <=? U8_MAX)) eqn:Hk; [|done]. injection He as <-. cbn.
    split_and!; [unfold in_u8; lia|done|by eauto|apply can_serve_spec].
  - intros (Hk & Ht & (s & row & Hs & Hp) & Hcs). exists (sd_author_device_id st, sd_kind st). split.
    + rewrite elem_of_dedup, merge_sort_Permutation. apply list_elem_of_fmap.
      exists ((sd_author_device_id st, sd_kind st), bool_decide (is_Some (sl_sealed row))). split; [done|]. apply person_rows_elem. eauto.
    + cbn [fst snd]. rewrite (proj2 (andb_true_iff _ _)) by (unfold in_u8 in Hk; lia).
      destruct st as [d k t b]. cbn in *. rewrite <- Ht. do 2 f_equal. apply eq_true_iff_eq. by rewrite can_serve_spec, Hcs.
Qed.

Definition single_person (p : bytes) (db : sync_db) : Prop :=
  forall key row, sy_slots db !! key = Some row -> sl_person_id row = p.

Lemma held_through_cursor db p d k : sync_ok db -> single_person p db -> in_u8 k ->
  held_through (digest db p) (d, k) = cursor_at db d k.
Proof.
  intros Hok Hsp Hk. unfold held_through.
  destruct (List.find (fun s => bool_decide (stream_key s = (d, k))) (dg_streams (digest db p))) as [s|] eqn:Hf.
  - apply find_some in Hf as [Hin Hke]. apply list_elem_of_In, digest_elem in Hin as (_ & -> & _).
    apply bool_decide_eq_true in Hke. injection Hke as -> ->. by apply stream_cursor_at.
  - pose proof (so_range _ Hok d k) as Hr. destruct (decide (cursor_at db d k = 0)) as [|Hne]; [done|]. exfalso.
    destruct (so_prefix _ Hok d k 1) as [row Hrow]; [lia|].
    set (st := mk_stream d k (stream_cursor_by_wire db d k)
      (existsb (fun r => bool_decide (r.1 = (d, k)) && r.2) (person_rows db p))).
    assert (st ∈ dg_streams (digest db p)) as Hin%list_elem_of_In.
    { apply digest_elem. split_and!; [exact Hk|done|exists 1, row; split; [done|by eapply Hsp]|apply can_serve_spec]. }
    pose proof (find_none _ _ Hf st Hin) as Hx. by apply bool_decide_eq_false in Hx.
Qed.

(** ** What a device can serve *)

(** The streams with sealed copies are this device's own: of a kind that is a stream, and
    held sealed from the first record to the cursor. *)
Record serves (p : bytes) (a : sync_db) : Prop := {
  sv_ok : sync_ok a;
  sv_runs : forall d k s row, sy_slots a !! (d, k, s) = Some row -> sl_person_id row = p -> is_Some (sl_sealed row) ->
    (exists kind, core_sync_record_kind_of k = Some kind /\ core_sync_kind_is_stream kind = true)
    /\ forall i, 1 <= i <= cursor_at a d k -> exists row, sy_slots a !! (d, k, i) = Some row /\ is_Some (sl_sealed row);
}.

Lemma kind_of_u8 k kind : core_sync_record_kind_of k = Some kind -> in_u8 k.
Proof. intros <-%kind_of_wire. destruct kind; vm_compute; split; discriminate. Qed.

Lemma sorted_least (x : Z) l : StronglySorted Z.lt l -> x ∈ l -> (forall y, y ∈ l -> x <= y) -> exists l', l = x :: l'.
Proof.
  intros Hso Hx Hmin. destruct Hso as [|y l Hl Hy]; [by apply not_elem_of_nil in Hx|]. exists l. f_equal.
  apply elem_of_cons in Hx as [->|Hx]; [done|]. eapply Forall_forall in Hy; [|exact Hx]. specialize (Hmin y ltac:(by left)). lia.
Qed.

(** A gap that a device can serve starts with the record its sibling is waiting for. *)
Lemma gap_rows_head p a g kind s row :
  serves p a -> sy_slots a !! (gp_author_device_id g, gp_kind g, s) = Some row -> sl_person_id row = p -> is_Some (sl_sealed row) ->
  core_sync_record_kind_of (gp_kind g) = Some kind ->
  gp_through_seq g = cursor_at a (gp_author_device_id g) (gp_kind g) -> 0 <= gp_after_seq g < gp_through_seq g ->
  exists r rest, gap_rows a g kind = r :: rest /\ st_author_device_id r = gp_author_device_id g /\ st_kind r = kind
    /\ st_stream_seq r = gp_after_seq g + 1.
Proof.
  intros [Hok Hruns] Hs Hp Hse Hk Hth Haf. pose proof (so_range _ Hok (gp_author_device_id g) (gp_kind g)) as Hr.
  destruct (Hruns _ _ _ _ Hs Hp Hse) as [_ Hrun]. unfold gap_rows.
  rewrite (to_i64_id (gp_after_seq g)), (to_i64_id (gp_through_seq g)) by lia.
  set (l := filter _ (stream_seqs a (gp_author_device_id g) (gp_kind g))).
  assert (forall i, i ∈ l <-> gp_after_seq g < i <= gp_through_seq g /\ is_Some (sy_slots a !! (gp_author_device_id g, gp_kind g, i))) as Hl.
  { intros i. unfold l. by rewrite list_elem_of_filter, stream_seqs_elem. }
  destruct (Hrun (gp_after_seq g + 1)) as (row' & Hrow' & sealed & Hsealed); [lia|].
  destruct (sorted_least (gp_after_seq g + 1) l) as [l' ->].
  - eapply sublist_sorted; [apply sublist_filter|apply stream_seqs_sorted].
  - apply Hl. rewrite Hrow'. split; [lia|eauto].
  - intros y [Hy _]%Hl. lia.
  - cbn. rewrite Hrow'. cbn. rewrite Hsealed. cbn. eexists _, _. split; [reflexivity|]. cbn. split_and!; [done|done|].
    unfold as_u64. rewrite Z.mod_small; ints.
Qed.

Lemma gap_rows_seq a g kind r : 0 <= gp_after_seq g <= I64_MAX -> 0 <= gp_through_seq g <= I64_MAX -> r ∈ gap_rows a g kind ->
  st_author_device_id r = gp_author_device_id g /\ st_kind r = kind
  /\ gp_after_seq g < st_stream_seq r <= gp_through_seq g
  /\ exists row sealed, sy_slots a !! (gp_author_device_id g, gp_kind g, st_stream_seq r) = Some row
       /\ sl_sealed row = Some sealed /\ st_sealed r = sr_sealed sealed.
Proof.
  intros Ha Ht. unfold gap_rows. rewrite (to_i64_id (gp_after_seq g)), (to_i64_id (gp_through_seq g)) by lia.
  intros (s & [Hs _]%list_elem_of_filter & He)%list_elem_of_omap.
  apply bind_Some in He as (row & Hrow & He). apply bind_Some in He as (sealed & Hse & He). injection He as <-. cbn.
  assert (as_u64 s = s) as -> by (unfold as_u64; rewrite Z.mod_small; ints). split_and!; [done|done|lia|lia|eauto].
Qed.

(** ** The page of records *)

Lemma backfill_loop_mono a gaps limit out r : r ∈ out -> r ∈ backfill_loop a gaps limit out.
Proof.
  revert out. induction gaps as [|g gaps IH]; intros out Hr; cbn [backfill_loop]; [done|]. case_decide; [done|].
  destruct (core_sync_record_kind_of (gp_kind g)); apply IH; [apply elem_of_app; by left|done].
Qed.

Lemma backfill_loop_length a gaps limit out : (length out <= limit)%nat -> (length (backfill_loop a gaps limit out) <= limit)%nat.
Proof.
  revert out. induction gaps as [|g gaps IH]; intros out Hr; cbn [backfill_loop]; [done|]. case_decide; [done|].
  destruct (core_sync_record_kind_of (gp_kind g)); apply IH; [|done]. rewrite length_app, length_take. lia.
Qed.

(** Every record of the page is of a gap, whose first record is in the page too. *)
Lemma backfill_loop_elem a gaps limit out r : r ∈ backfill_loop a gaps limit out ->
  r ∈ out \/ exists g kind, g ∈ gaps /\ core_sync_record_kind_of (gp_kind g) = Some kind /\ r ∈ gap_rows a g kind
    /\ forall r0 rest, gap_rows a g kind = r0 :: rest -> r0 ∈ backfill_loop a gaps limit out.
Proof.
  revert out. induction gaps as [|g gaps IH]; intros out; cbn [backfill_loop]; [by left|]. case_decide as Hlim; [by left|].
  destruct (core_sync_record_kind_of (gp_kind g)) as [kind|] eqn:Hk; intros Hr.
  - apply IH in Hr as [[Hr|Hr]%elem_of_app|(g' & kind' & Hg & Hk' & Hr & Hh)]; [by left| |].
    + right. exists g, kind. split_and!; [by left|done| |].
      { rewrite <- (take_drop (limit - length out) (gap_rows a g kind)). apply elem_of_app. by left. }
      intros r0 rest He. apply backfill_loop_mono, elem_of_app. right. rewrite He in Hr |- *.
      destruct (limit - length out)%nat eqn:Hd; [lia|]. by left.
    + right. exists g', kind'. split_and!; [by right|done|done|done].
  - apply IH in Hr as [Hr|(g' & kind' & Hg & Hk' & Hr & Hh)]; [by left|]. right. exists g', kind'. split_and!; [by right|done..].
Qed.
