(* ===== verification/SyncRounds.v ===== *)
(** Two devices of one person: rounds of anti-entropy ([core/src/sync_store.rs] and
    [core/src/sync_stream.rs] together).  In a round one device compares its sibling's
    digest with its own, reads a page of what the sibling lacks, plans what fits the
    budget, and the sibling takes in what arrives.

    How the sibling takes a record in is an interface: [receives] says that a record which
    arrives takes its slot.  [SyncConverge.v] discharges it for the opening and the merge of
    the code.  [rounds_converge] shows that rounds bring the sibling level, in at most as
    many rounds as records are missing, however small the page and whatever the budget as
    long as it takes the largest single record. *)
From stdpp Require Import base numbers list gmap strings sorting.
From S2P Require Import Prelude StdModel SqlModel Wire Crypto RosterCodec Message SyncStream SyncStore.

Section rounds.
Context {St : Type} (db_of : St -> sync_db) (receive : StoredSyncRecord -> St -> St) (p : bytes).
Context (roster : RosterVersion) (generation limit budget now : Z).

(** What arrives of one planned step. *)
Definition deliver (records : list StoredSyncRecord) (st : St) (step : SyncBackfillStep) : St :=
  match records !! Z.to_nat (bs_offer_index step) with
  | Some r => receive r st
  | None => st
  end.

(** [a] serves, [st] is the sibling's store. *)
Definition sync_round (a : sync_db) (st : St) : St :=
  match core_sync_digest_gaps (digest (db_of st) p) (digest a p) with
  | Err _ => st
  | Ok gaps =>
      let records := backfill_offers a gaps limit in
      let plan := core_plan_sync_backfill roster generation budget gaps (core_sync_backfill_offers records) in
      fold_left (deliver records) (bp_steps plan) st
  end.

Definition sync_rounds (n : nat) (a : sync_db) (st : St) : St := Nat.iter n (sync_round a) st.

(** How many records of the streams [a] serves are missing. *)
Definition missing_of (b : sync_db) (s : SyncStreamDigest) : nat :=
  if sd_can_serve s then Z.to_nat (sd_through_seq s - cursor_at b (sd_author_device_id s) (sd_kind s)) else 0.

Definition missing (a b : sync_db) : nat := list_sum (missing_of b <$> dg_streams (digest a p)).

(** ** The gaps *)

Lemma gaps_elem a b g : sync_ok b -> single_person p b -> serves p a ->
  g ∈ omap (stream_gap (digest b p)) (dg_streams (digest a p)) <->
  exists s, s ∈ dg_streams (digest a p) /\ sd_can_serve s = true
    /\ g = mk_gap (sd_author_device_id s) (sd_kind s) (cursor_at b (sd_author_device_id s) (sd_kind s)) (sd_through_seq s)
    /\ gp_after_seq g < gp_through_seq g.
Proof.
  intros Hb Hsp Ha. rewrite list_elem_of_omap.
  assert (forall s, s ∈ dg_streams (digest a p) -> sd_can_serve s = true ->
    (exists kind, core_sync_record_kind_of (sd_kind s) = Some kind /\ core_sync_kind_is_stream kind = true)
    /\ held_through (digest b p) (stream_key s) = cursor_at b (sd_author_device_id s) (sd_kind s)) as Hs.
  { intros s (Hk & _ & _ & Hcs)%digest_elem Hc. apply Hcs in Hc as (i & row & Hrow & Hp & Hse).
    split; [by apply (sv_runs p a Ha _ _ _ _ Hrow)|by apply held_through_cursor]. }
  split.
  - intros (s & Hin & Hg). unfold stream_gap in Hg. destruct (sd_can_serve s) eqn:Hc; cbn [negb] in Hg; [|done].
    destruct (Hs s Hin Hc) as [(kind & Hk & Hst) Hh]. rewrite Hk, Hst, Hh in Hg. cbn [negb] in Hg.
    destruct (_ <? _) eqn:Hlt; [|done]. injection Hg as <-. exists s. cbn. split_and!; [done..|lia].
  - intros (s & Hin & Hc & -> & Hlt). exists s. split; [done|]. unfold stream_gap. rewrite Hc. cbn [negb].
    destruct (Hs s Hin Hc) as [(kind & Hk & Hst) Hh]. rewrite Hk, Hst, Hh. cbn [negb gp_after_seq gp_through_seq] in *.
    by rewrite (proj2 (Z.ltb_lt _ _) Hlt).
Qed.

(** What is known of one gap: both ends, and that the page starts where the sibling waits. *)
Lemma gap_served a b g : sync_ok b -> single_person p b -> serves p a ->
  g ∈ omap (stream_gap (digest b p)) (dg_streams (digest a p)) ->
  0 <= gp_after_seq g < gp_through_seq g /\ gp_through_seq g <= I64_MAX
  /\ gp_after_seq g = cursor_at b (gp_author_device_id g) (gp_kind g)
  /\ exists kind r rest, core_sync_record_kind_of (gp_kind g) = Some kind /\ core_sync_kind_is_stream kind = true
       /\ gap_rows a g kind = r :: rest
       /\ st_author_device_id r = gp_author_device_id g /\ st_kind r = kind /\ st_stream_seq r = gp_after_seq g + 1.
Proof.
  intros Hb Hsp Ha Hg. apply gaps_elem in Hg as (s & Hin & Hc & Hg & Hlt); [|done..].
  apply digest_elem in Hin as (_ & Hth & _ & Hcs). apply Hcs in Hc as (i & row & Hrow & Hp & Hse).
  destruct (sv_runs p a Ha _ _ _ _ Hrow Hp Hse) as [(kind & Hk & Hst) _].
  rewrite stream_cursor_at in Hth by apply Ha.
  pose proof (so_range _ Hb (sd_author_device_id s) (sd_kind s)) as Hrb.
  pose proof (so_range _ (sv_ok p a Ha) (sd_author_device_id s) (sd_kind s)) as Hra.
  assert (gp_author_device_id g = sd_author_device_id s /\ gp_kind g = sd_kind s
    /\ gp_after_seq g = cursor_at b (sd_author_device_id s) (sd_kind s) /\ gp_through_seq g = sd_through_seq s)
    as (E1 & E2 & E3 & E4) by (by subst g).
  rewrite <- E1, <- E2 in *. split_and!; [lia|lia|lia|done|].
  destruct (gap_rows_head p a g kind i row) as (r & rest & H1 & H2 & H3 & H4); [done..|lia|lia|].
  exists kind, r, rest. done.
Qed.

(** ** The page *)

Lemma page_first a gaps g kind r rest :
  1 <= limit -> core_sync_record_kind_of (gp_kind g) = Some kind -> gap_rows a g kind = r :: rest ->
  r ∈ backfill_offers a (g :: gaps) limit.
Proof.
  intros Hl Hk Hg. unfold backfill_offers. cbn [backfill_loop]. rewrite decide_False by (cbn; lia). rewrite Hk, Hg.
  apply backfill_loop_mono. cbn [length app]. rewrite Nat.sub_0_r. destruct (Z.to_nat limit) eqn:E; [lia|]. by left.
Qed.

Lemma page_elem a gaps r : r ∈ backfill_offers a gaps limit ->
  exists g kind, g ∈ gaps /\ core_sync_record_kind_of (gp_kind g) = Some kind /\ r ∈ gap_rows a g kind
    /\ forall r0 rest, gap_rows a g kind = r0 :: rest -> r0 ∈ backfill_offers a gaps limit.
Proof. intros [Hr|Hr]%backfill_loop_elem; [by apply not_elem_of_nil in Hr|done]. Qed.

Lemma page_length a gaps : (length (backfill_offers a gaps limit) <= Z.to_nat limit)%nat.
Proof. apply backfill_loop_length. cbn. lia. Qed.

Lemma answers gaps g o : g ∈ gaps -> gap_key g = offer_key o -> gp_after_seq g < of_stream_seq o <= gp_through_seq g ->
  answers_gap gaps o = true.
Proof.
  intros Hg Hk Hr. unfold answers_gap. apply existsb_exists. exists g. split; [by apply list_elem_of_In|].
  rewrite bool_decide_eq_true_2 by done. cbn [andb]. apply andb_true_iff. lia.
Qed.

(** Steps are only appended: what the first offer yields stays at the head. *)
Lemma steps_prefix entries st : exists rest, bt_steps (fold_left (backfill_step roster generation budget) entries st) = bt_steps st ++ rest.
Proof.
  revert st. induction entries as [|[i o] entries IH]; intros st; cbn [fold_left]; [exists []; by rewrite app_nil_r|].
  destruct (IH (backfill_step roster generation budget st (i, o))) as [rest ->]. unfold backfill_step.
  destruct (_ || _); cbn [bt_steps]; [by exists rest|]. rewrite <- app_assoc. eauto.
Qed.

(** The first offer of a round is the record some stream waits for. *)
Lemma round_head a b gaps :
  sync_ok b -> single_person p b -> serves p a -> 1 <= limit ->
  gaps = sort_by (by_key gap_key) (omap (stream_gap (digest b p)) (dg_streams (digest a p))) -> gaps <> [] ->
  let records := backfill_offers a gaps limit in
  exists i r rest g, matched_offers gaps (core_sync_backfill_offers records) = (i, offer r) :: rest
    /\ records !! i = Some r /\ g ∈ gaps /\ r ∈ records
    /\ st_author_device_id r = gp_author_device_id g /\ core_sync_record_kind_wire (st_kind r) = gp_kind g
    /\ core_sync_kind_is_stream (st_kind r) = true /\ st_stream_seq r = gp_after_seq g + 1.
Proof.
  intros Hb Hsp Ha Hl Hgaps Hne records.
  assert (forall g, g ∈ gaps -> g ∈ omap (stream_gap (digest b p)) (dg_streams (digest a p))) as Hsub
    by (intros g; rewrite Hgaps, sort_by_elem; done).
  assert (forall r g kind, g ∈ gaps -> core_sync_record_kind_of (gp_kind g) = Some kind -> r ∈ gap_rows a g kind -> r ∈ records ->
    st_author_device_id r = gp_author_device_id g /\ st_kind r = kind /\ gp_after_seq g < st_stream_seq r
    /\ exists i, (i, offer r) ∈ matched_offers gaps (core_sync_backfill_offers records)) as Hm.
  { intros r g kind Hg Hk Hr Hin. destruct (gap_served a b g) as (H1 & H2 & _); [auto..|].
    apply gap_rows_seq in Hr as (E1 & E2 & E3 & _); [|lia..]. split_and!; [done|done|lia|].
    apply list_elem_of_lookup in Hin as [i Hi]. exists i. apply matched_elem. unfold core_sync_backfill_offers.
    rewrite list_lookup_fmap, Hi. split; [done|]. apply (answers gaps g); [done| |done].
    unfold gap_key, offer_key. cbn. rewrite E1, E2. by rewrite (kind_of_wire _ _ Hk). }
  destruct gaps as [|g0 gaps']; [done|].
  destruct (gap_served a b g0) as (_ & _ & _ & kind0 & r0 & rest0 & Hk0 & _ & Hr0 & _); [auto|auto|auto|apply Hsub; by left|].
  assert (r0 ∈ records) as Hin0 by (by eapply page_first).
  destruct (Hm r0 g0 kind0) as (_ & _ & _ & i0 & Hi0); [by left|done|rewrite Hr0; by left|done|].
  pose proof (sort_by_sorted offer_le (filter (fun io => answers_gap (g0 :: gaps') io.2 = true)
    (imap pair (core_sync_backfill_offers records)))) as Hso. fold (matched_offers (g0 :: gaps') (core_sync_backfill_offers records)) in Hso.
  destruct (matched_offers (g0 :: gaps') (core_sync_backfill_offers records)) as [|[i o] rest] eqn:Hmo; [by apply not_elem_of_nil in Hi0|].
  assert ((i, o) ∈ matched_offers (g0 :: gaps') (core_sync_backfill_offers records)) as Hio by (rewrite Hmo; by left).
  apply matched_elem in Hio as [Ho _]. unfold core_sync_backfill_offers in Ho. rewrite list_lookup_fmap in Ho.
  apply fmap_Some in Ho as (r & Hi & ->). assert (r ∈ records) as Hr by (by eapply list_elem_of_lookup_2).
  destruct (page_elem a _ r Hr) as (g & kind & Hg & Hk & Hrg & Hfirst).
  destruct (gap_served a b g) as (_ & _ & _ & kind' & r1 & rest1 & Hk' & Hst & Hr1 & A1 & A2 & A3); [auto..|].
  assert (kind' = kind) as -> by congruence. destruct (Hm r g kind) as (B1 & B2 & B3 & _); [done..|].
  destruct (Hm r1 g kind) as (_ & _ & _ & i1 & Hi1); [done|done|rewrite Hr1; by left|by eapply Hfirst|].
  exists i, r, rest, g. split_and!; [done..|by rewrite B2; apply kind_of_wire|by rewrite B2|].
  enough (st_stream_seq r <= st_stream_seq r1) by lia.
  apply StronglySorted_inv in Hso as [_ Hso]. apply elem_of_cons in Hi1 as [He|Hi1]; [injection He; intros; lia|].
  eapply Forall_forall in Hso; [|exact Hi1]. apply (offer_le_seq _ _ Hso). unfold offer_key. cbn. by rewrite B1, B2, A1, A2.
Qed.

(** ** What arrives *)

(** What the sibling owes: a record that [arrives] at a store that is [usable] leaves it
    usable and takes its slot, if the slot is free. *)
Context (usable : St -> Prop) (arrives : StoredSyncRecord -> Prop).

Definition receives : Prop := forall r st, usable st -> arrives r ->
  usable (receive r st)
  /\ db_of (receive r st) = (hold_slot (db_of st) p (st_author_device_id r) (st_kind r) (st_stream_seq r) None now).1.

(** What the serving device owes: each of its sealed rows arrives. *)
Definition rows_arrive (a : sync_db) : Prop := forall d k s row sealed kind,
  sy_slots a !! (d, k, s) = Some row -> sl_sealed row = Some sealed -> core_sync_record_kind_of k = Some kind ->
  arrives (mk_stored d kind (as_u64 s) (sr_sealed sealed) (sr_sealed_for sealed) (sr_inbox_key_generation sealed)).

Context (receives_ok : receives).

Lemma page_arrives a gaps : rows_arrive a -> Forall arrives (backfill_offers a gaps limit).
Proof.
  intros Ha. apply Forall_forall. intros r (g & kind & _ & Hk & Hr & _)%page_elem.
  unfold gap_rows in Hr. apply list_elem_of_omap in Hr as (s & _ & He).
  apply bind_Some in He as (row & Hrow & He). apply bind_Some in He as (sealed & Hse & He). injection He as <-. by eapply Ha.
Qed.

Definition at_work (st : St) : Prop := usable st /\ sync_ok (db_of st) /\ single_person p (db_of st).

(** A record of the page, with what its delivery needs. *)
Definition sound (r : StoredSyncRecord) : Prop := in_u64 (st_stream_seq r) /\ arrives r.

Lemma deliver_ok records st step :
  Forall sound records -> at_work st ->
  at_work (deliver records st step) /\ sync_later (db_of st) (db_of (deliver records st step)).
Proof.
  intros Hty (Hu & Hok & Hsp). unfold deliver. destruct (records !! _) as [r|] eqn:Hr; [|split; [done|by apply unchanged]].
  eapply Forall_lookup_1 in Hty as [Hty Har]; [|exact Hr]. destruct (receives_ok r st Hu Har) as [Hu' Hdb].
  destruct (hold_later (db_of st) p (st_author_device_id r) (st_kind r) (st_stream_seq r) None now Hok Hty) as [H1 H2].
  destruct (hold_slot_spec (db_of st) p (st_author_device_id r) (st_kind r) (st_stream_seq r) None now Hok Hty) as (_ & _ & _ & H3 & _).
  unfold at_work. rewrite Hdb. split_and!; [done|done| |done].
  intros key row [Hx| ->]%H3; [by eapply Hsp|done].
Qed.

Lemma deliver_all records st steps :
  Forall sound records -> at_work st ->
  at_work (fold_left (deliver records) steps st) /\ sync_later (db_of st) (db_of (fold_left (deliver records) steps st)).
Proof.
  intros Hty. revert st. induction steps as [|step steps IH]; intros st Hok; cbn [fold_left].
  - split; [done|]. by apply unchanged; destruct Hok as (_ & ? & _).
  - destruct (deliver_ok records st step Hty Hok) as [H1 [H2 H3]]. destruct (IH _ H1) as [H4 [H5 H6]]. split; [done|].
    split; [auto|]. intros d k. specialize (H3 d k). specialize (H6 d k). lia.
Qed.

(** The record a stream waits for moves its cursor when it arrives. *)
Lemma deliver_advances records st step r :
  at_work st -> records !! Z.to_nat (bs_offer_index step) = Some r -> arrives r ->
  let d := st_author_device_id r in let k := core_sync_record_kind_wire (st_kind r) in
  st_stream_seq r = cursor_at (db_of st) d k + 1 -> st_stream_seq r <= I64_MAX ->
  cursor_at (db_of st) d k < cursor_at (db_of (deliver records st step)) d k.
Proof.
  intros (Hu & Hok & Hsp) Hr Har d k Hseq Hmax. unfold deliver. rewrite Hr. destruct (receives_ok r st Hu Har) as [_ ->].
  rewrite Hseq in *. pose proof (hold_slot_advances (db_of st) p d (st_kind r) None now Hok) as Hadv. cbv zeta in Hadv. fold k in Hadv.
  apply Hadv. lia.
Qed.

(** ** Progress *)

Definition fits (a : sync_db) : Prop := forall key row sealed,
  sy_slots a !! key = Some row -> sl_sealed row = Some sealed -> blen (sr_sealed sealed) <= budget.

Lemma page_sound a b gaps : sync_ok b -> single_person p b -> serves p a -> rows_arrive a ->
  (forall g, g ∈ gaps -> g ∈ omap (stream_gap (digest b p)) (dg_streams (digest a p))) ->
  Forall sound (backfill_offers a gaps limit).
Proof.
  intros Hok Hsp Ha Har Hg. apply Forall_and. split; [|by apply page_arrives].
  apply Forall_forall. intros r (g & kind & Hin & _ & Hr & _)%page_elem.
  destruct (gap_served a b g) as (H1 & H2 & _); [auto..|]. apply gap_rows_seq in Hr as (_ & _ & H3 & _); ints.
Qed.

Lemma page_fits a b gaps r : sync_ok b -> single_person p b -> serves p a -> fits a ->
  (forall g, g ∈ gaps -> g ∈ omap (stream_gap (digest b p)) (dg_streams (digest a p))) ->
  r ∈ backfill_offers a gaps limit -> blen (st_sealed r) <= budget.
Proof.
  intros Hok Hsp Ha Hf Hg (g & kind & Hin & _ & Hr & _)%page_elem.
  destruct (gap_served a b g) as (H1 & H2 & _); [auto..|].
  apply gap_rows_seq in Hr as (_ & _ & _ & row & sealed & Hrow & Hse & ->); [|lia..]. by eapply Hf.
Qed.

Lemma digest_gaps a b :
  core_sync_digest_gaps (digest b p) (digest a p) = Ok (sort_by (by_key gap_key) (omap (stream_gap (digest b p)) (dg_streams (digest a p)))).
Proof. unfold core_sync_digest_gaps. by rewrite bool_decide_eq_true_2. Qed.

Lemma round_ok a st : at_work st -> serves p a -> rows_arrive a ->
  at_work (sync_round a st) /\ sync_later (db_of st) (db_of (sync_round a st)).
Proof.
  intros Hb Ha Har. unfold sync_round. rewrite digest_gaps. cbv zeta. apply deliver_all; [|done]. pose proof Hb as (_ & Hok & Hsp).
  eapply page_sound; [exact Hok|done..|]. intros g. by rewrite sort_by_elem.
Qed.

(** A round that finds a gap moves the cursor of a stream [a] serves. *)
Lemma round_progress a st :
  at_work st -> serves p a -> rows_arrive a -> fits a -> 1 <= limit <= U32_MAX -> budget < U64_MAX ->
  omap (stream_gap (digest (db_of st) p)) (dg_streams (digest a p)) <> [] ->
  exists s, s ∈ dg_streams (digest a p) /\ sd_can_serve s = true
    /\ cursor_at (db_of st) (sd_author_device_id s) (sd_kind s) < sd_through_seq s
    /\ cursor_at (db_of st) (sd_author_device_id s) (sd_kind s) < cursor_at (db_of (sync_round a st)) (sd_author_device_id s) (sd_kind s).
Proof.
  intros Hb Ha Har Hf Hl Hbud Hne. pose proof Hb as (_ & Hok & Hsp). unfold sync_round. rewrite digest_gaps. cbv zeta.
  set (gaps := sort_by (by_key gap_key) _).
  assert (forall g, g ∈ gaps -> g ∈ omap (stream_gap (digest (db_of st) p)) (dg_streams (digest a p))) as Hsub
    by (intros g; unfold gaps; by rewrite sort_by_elem).
  destruct (round_head a (db_of st) gaps) as (i & r & rest & g & Hmo & Hi & Hg & Hr & E1 & E2 & E3 & E4); [done|done|done|lia|done| |].
  { intros He. apply Hne. apply Permutation_nil_r. rewrite <- (sort_by_perm (by_key gap_key)). fold gaps. by rewrite He. }
  set (records := backfill_offers a gaps limit) in *.
  destruct (gap_served a (db_of st) g) as (G1 & G2 & G3 & _); [auto..|].
  pose proof (page_fits a (db_of st) gaps r Hok Hsp Ha Hf Hsub Hr) as Hfit. pose proof (blen_nonneg (st_sealed r)).
  unfold core_plan_sync_backfill. cbn [bp_steps]. rewrite Hmo. cbn [fold_left].
  destruct (steps_prefix rest (backfill_step roster generation budget (mk_bstate [] [] 0 []) (i, offer r))) as [steps ->].
  unfold backfill_step. cbn [bt_truncated bt_planned_bytes]. rewrite bool_decide_eq_false_2 by apply not_elem_of_nil. cbn [orb].
  assert (u64_saturating_add 0 (of_byte_len (offer r)) <= budget) as Hfit2 by (cbn [offer of_byte_len]; ints).
  rewrite (proj2 (Z.ltb_ge _ _) Hfit2). cbn [bt_steps app]. cbn [fold_left].
  match goal with |- context [deliver records st ?x] => set (step := x) end.
  assert (Z.to_nat (bs_offer_index step) = i) as Hidx.
  { cbn. apply lookup_lt_Some in Hi. pose proof (page_length a gaps). fold records in H0. unfold as_u32. rewrite Z.mod_small by ints. lia. }
  apply Hsub, gaps_elem in Hg as (s & Hin & Hc & -> & Hlt); [|done..]. cbn in E1, E2, E4, Hlt, G1, G2.
  exists s. split_and!; [done..|].
  pose proof (page_sound a (db_of st) gaps Hok Hsp Ha Har Hsub) as Hty. fold records in Hty.
  destruct (deliver_ok records st step Hty Hb) as [Hb1 _].
  destruct (deliver_all records (deliver records st step) steps Hty Hb1) as [_ [_ Hle]].
  specialize (Hle (sd_author_device_id s) (sd_kind s)).
  assert (arrives r) as Harr by (by eapply Forall_forall; [apply page_arrives|]).
  pose proof (deliver_advances records st step r Hb ltac:(by rewrite Hidx) Harr) as Hadv. cbv zeta in Hadv. rewrite E1, E2 in Hadv.
  specialize (Hadv ltac:(lia) ltac:(lia)). lia.
Qed.

(** ** The number of missing records falls *)

Lemma list_sum_le {A} (f g : A -> nat) l : (forall x, x ∈ l -> (f x <= g x)%nat) -> (list_sum (f <$> l) <= list_sum (g <$> l))%nat.
Proof.
  induction l as [|x l IH]; intros Hle; cbn; [lia|]. specialize (Hle x ltac:(by left)) as Hx.
  enough (list_sum (f <$> l) <= list_sum (g <$> l))%nat by (unfold list_sum in *; lia). apply IH. intros y Hy. apply Hle. by right.
Qed.

Lemma list_sum_lt {A} (f g : A -> nat) l x :
  (forall x, x ∈ l -> (f x <= g x)%nat) -> x ∈ l -> (f x < g x)%nat -> (list_sum (f <$> l) < list_sum (g <$> l))%nat.
Proof.
  induction l as [|y l IH]; intros Hle Hx Hlt; [by apply not_elem_of_nil in Hx|]. cbn.
  specialize (Hle y ltac:(by left)) as Hy. pose proof (fun z Hz => Hle z ltac:(by right)) as Hl.
  pose proof (list_sum_le f g l Hl). apply elem_of_cons in Hx as [<-|Hx]; [unfold list_sum in *; lia|].
  specialize (IH Hl Hx Hlt). unfold list_sum in *. lia.
Qed.

Lemma list_sum_zero {A} (f : A -> nat) l : list_sum (f <$> l) = 0%nat <-> forall x, x ∈ l -> f x = 0%nat.
Proof.
  induction l as [|y l IH]; cbn; [split; [by intros _ x ?%not_elem_of_nil|done]|].
  unfold list_sum in *. rewrite Nat.eq_add_0, IH. setoid_rewrite elem_of_cons. naive_solver.
Qed.

(** No record is missing exactly when the digests show no gap. *)
Lemma missing_none a b : sync_ok b -> single_person p b -> serves p a ->
  missing a b = 0%nat <-> omap (stream_gap (digest b p)) (dg_streams (digest a p)) = [].
Proof.
  intros Hok Hsp Ha. unfold missing. rewrite list_sum_zero. split.
  - intros Hm. apply elem_of_nil_inv. intros g (s & Hin & Hc & -> & Hlt)%gaps_elem; [|done..].
    specialize (Hm s Hin). unfold missing_of in Hm. rewrite Hc in Hm. cbn in Hlt. lia.
  - intros Hm s Hs. unfold missing_of. destruct (sd_can_serve s) eqn:Hc; [|done].
    destruct (decide (cursor_at b (sd_author_device_id s) (sd_kind s) < sd_through_seq s)) as [Hlt|]; [|lia].
    set (g := mk_gap (sd_author_device_id s) (sd_kind s) (cursor_at b (sd_author_device_id s) (sd_kind s)) (sd_through_seq s)).
    exfalso. apply (not_elem_of_nil g). rewrite <- Hm. apply gaps_elem; [done..|]. by exists s.
Qed.

Lemma round_missing a st :
  at_work st -> serves p a -> rows_arrive a -> fits a -> 1 <= limit <= U32_MAX -> budget < U64_MAX ->
  (missing a (db_of (sync_round a st)) <= missing a (db_of st) - 1)%nat.
Proof.
  intros Hb Ha Har Hf Hl Hbud. pose proof Hb as (_ & Hok & Hsp). destruct (round_ok a st Hb Ha Har) as [Hb' [_ Hle]].
  assert (forall s, (missing_of (db_of (sync_round a st)) s <= missing_of (db_of st) s)%nat) as Hmono.
  { intros s. unfold missing_of. specialize (Hle (sd_author_device_id s) (sd_kind s)). destruct (sd_can_serve s); lia. }
  destruct (decide (missing a (db_of st) = 0%nat)) as [H0|H0].
  - pose proof (list_sum_le (missing_of (db_of (sync_round a st))) (missing_of (db_of st)) (dg_streams (digest a p)) (fun s _ => Hmono s)).
    unfold missing in *. lia.
  - rewrite missing_none in H0 by done. destruct (round_progress a st) as (s & Hin & Hc & H1 & H2); [done..|].
    enough (missing a (db_of (sync_round a st)) < missing a (db_of st))%nat by lia.
    apply (list_sum_lt _ _ _ s); [by intros|done|]. unfold missing_of. rewrite Hc. lia.
Qed.

Lemma rounds_missing n a st :
  at_work st -> serves p a -> rows_arrive a -> fits a -> 1 <= limit <= U32_MAX -> budget < U64_MAX ->
  at_work (sync_rounds n a st) /\ (missing a (db_of (sync_rounds n a st)) <= missing a (db_of st) - n)%nat.
Proof.
  intros Hb Ha Har Hf Hl Hbud. induction n as [|n [IH1 IH2]]; [split; [done|cbn; lia]|].
  change (sync_rounds (S n) a st) with (sync_round a (sync_rounds n a st)).
  destruct (round_ok a _ IH1 Ha Har) as [H1 _]. split; [done|]. pose proof (round_missing a _ IH1 Ha Har Hf Hl Hbud). lia.
Qed.

(** A device that answers its sibling's digests brings it level in at most as many rounds
    as records are missing. *)
Lemma rounds_converge a st n :
  at_work st -> serves p a -> rows_arrive a -> fits a -> 1 <= limit <= U32_MAX -> budget < U64_MAX -> (missing a (db_of st) <= n)%nat ->
  let st' := sync_rounds n a st in
  at_work st' /\ core_sync_digest_gaps (digest (db_of st') p) (digest a p) = Ok []
  /\ forall s, s ∈ dg_streams (digest a p) -> sd_can_serve s = true ->
       sd_through_seq s <= stream_cursor_by_wire (db_of st') (sd_author_device_id s) (sd_kind s).
Proof.
  intros Hb Ha Har Hf Hl Hbud Hn st'. destruct (rounds_missing n a st Hb Ha Har Hf Hl Hbud) as [Hb' Hm]. fold st' in Hb', Hm.
  pose proof Hb' as (_ & Hok & Hsp). assert (missing a (db_of st') = 0%nat) as H0 by lia. split; [done|]. split.
  - rewrite digest_gaps. by rewrite (proj1 (missing_none a (db_of st') Hok Hsp Ha) H0).
  - intros s Hin Hc. rewrite stream_cursor_at by done. unfold missing in H0. rewrite list_sum_zero in H0.
    specialize (H0 s Hin). unfold missing_of in H0. rewrite Hc in H0. lia.
Qed.

End rounds.

(** ** Serving is what authoring and reading leave behind *)

(** A device that retains its own records as it writes them, each at the next number of
    its stream, serves all it wrote. *)
Lemma next_seq_cursor db d kind : sync_ok db -> let k := core_sync_record_kind_wire kind in
  (forall s, is_Some (sy_slots db !! (d, k, s)) -> 1 <= s <= cursor_at db d k) ->
  next_stream_seq db d kind = cursor_at db d k + 1.
Proof.
  intros Hok k Hs. unfold next_stream_seq. fold k. pose proof (so_range _ Hok d k) as Hr.
  enough (default 0 (last (stream_seqs db d k)) = cursor_at db d k) as -> by (unfold as_u64; rewrite Z.mod_small; ints).
  destruct (last (stream_seqs db d k)) as [m|] eqn:Hm; cbn.
  - assert (m ∈ stream_seqs db d k) as Hin by (by apply last_Some_elem_of). apply stream_seqs_elem, Hs in Hin as Hmr.
    assert (cursor_at db d k ∈ stream_seqs db d k) as Hc by (apply stream_seqs_elem, so_prefix; [done|lia]).
    apply last_Some in Hm as [l Hl]. pose proof (stream_seqs_sorted db d k) as Hso. rewrite Hl in Hso, Hc.
    apply elem_of_app in Hc as [Hc|Hc%list_elem_of_singleton]; [|lia].
    pose proof (StronglySorted_app_1_elem_of _ _ _ (cursor_at db d k) m Hso Hc ltac:(by left)). lia.
  - apply last_None in Hm. destruct (decide (cursor_at db d k = 0)) as [|Hne]; [done|]. exfalso.
    eapply (not_elem_of_nil 1). rewrite <- Hm. apply stream_seqs_elem, so_prefix; [done|lia].
Qed.

(** The streams of the device [d]: sealed, of the person, without gaps; what it read of
    others is not sealed. *)
Record authored (p d : bytes) (db : sync_db) : Prop := {
  au_ok : sync_ok db;
  au_own : forall k s row, sy_slots db !! (d, k, s) = Some row ->
    sl_person_id row = p /\ is_Some (sl_sealed row) /\ 1 <= s <= cursor_at db d k
    /\ exists kind, core_sync_record_kind_of k = Some kind /\ core_sync_kind_is_stream kind = true;
  au_other : forall d' k s row, d' <> d -> sy_slots db !! (d', k, s) = Some row -> sl_sealed row = None;
}.

Lemma empty_slot key row : sy_slots sync_empty !! key <> Some row.
Proof. cbn. by rewrite lookup_empty. Qed.

Lemma authored_empty p d : authored p d sync_empty.
Proof. split; [apply sync_empty_ok|by intros k s row ?%empty_slot|by intros d' k s row _ ?%empty_slot]. Qed.

Lemma authored_serves p d db : authored p d db -> serves p db.
Proof.
  intros [Hok Hown Hoth]. split; [done|]. intros d' k s row Hrow Hp Hse. destruct (decide (d' = d)) as [->|Hne].
  - destruct (Hown _ _ _ Hrow) as (_ & _ & _ & Hk). split; [done|]. intros i Hi.
    destruct (so_prefix _ Hok d k i Hi) as [row' Hrow']. exists row'. split; [done|]. by apply (Hown _ _ _ Hrow').
  - rewrite (Hoth _ _ _ _ Hne Hrow) in Hse. by destruct Hse.
Qed.

(** Writing the next record keeps the streams so. *)
Lemma authored_retain p d db record sealed now :
  authored p d db -> rc_author_device_id record = d -> rc_person_id record = p ->
  core_sync_kind_is_stream (rc_kind record) = true -> rc_stream_seq record = next_stream_seq db d (rc_kind record) ->
  rc_stream_seq record <= I64_MAX ->
  authored p d (retain db record sealed now).1 /\ (retain db record sealed now).2 = Ok true.
Proof.
  intros [Hok Hown Hoth] Ha Hp Hst Hseq Hmax. set (k := core_sync_record_kind_wire (rc_kind record)).
  pose proof (so_range _ Hok d k) as Hr.
  rewrite next_seq_cursor in Hseq by (try done; intros s [row Hrow]; by apply (Hown _ _ _ Hrow)). fold k in Hseq.
  unfold retain. rewrite Hst, Ha, Hp. cbn [negb].
  destruct (hold_slot_spec db p d (rc_kind record) (rc_stream_seq record) (Some sealed) now Hok ltac:(ints)) as (H1 & _ & _ & H2 & H3 & _).
  pose proof (hold_slot_advances db p d (rc_kind record) (Some sealed) now Hok ltac:(fold k; lia)) as Hadv. fold k in Hadv.
  rewrite Hseq in *. unfold hold_slot in *. fold k in H1, H2, H3, Hadv |- *. rewrite to_i64_id in * by lia.
  rewrite (so_next _ Hok d k) in *. set (db1 := with_slots db _) in *.
  assert (sy_slots (advance_cursor db1 d (rc_kind record)).1
    = <[(d, k, cursor_at db d k + 1) := mk_slot p (Some sealed) now]> (sy_slots db)) as Esl by done.
  cbn [fst snd] in *. split; [|done]. split; [done| |].
  - intros k' s row. rewrite Esl. intros [[[= <- <-] <-]|[_ Hrow]]%lookup_insert_Some.
    + cbn [sl_person_id sl_sealed]. split_and!; [done|by eauto|lia|lia|]. exists (rc_kind record). split; [apply kind_wire_of|done].
    + destruct (Hown _ _ _ Hrow) as (E1 & E2 & E3 & E4). specialize (H3 d k'). split_and!; [done|done|lia|lia|done].
  - intros d' k' s row Hne. rewrite Esl. intros [[[= <- <- <-] _]|[_ Hrow]]%lookup_insert_Some; [done|by eapply Hoth].
Qed.

Lemma retain_rows db record sealed now key row : sy_slots (retain db record sealed now).1 !! key = Some row ->
  sy_slots db !! key = Some row
  \/ key = (rc_author_device_id record, core_sync_record_kind_wire (rc_kind record), to_i64 (rc_stream_seq record)) /\ sl_sealed row = Some sealed.
Proof.
  unfold retain, hold_slot. destruct (negb _); [by left|]. destruct (sy_slots db !! (_, _, _)); [by left|].
  cbn [fst advance_cursor sy_slots with_slots]. intros [[<- <-]|[_ Hrow]]%lookup_insert_Some; [by right|by left].
Qed.

(** Reading a sibling's record keeps them so, whatever its payload's merge answers. *)
Lemma authored_apply {T N} (merge : SyncRecord -> T -> T * result CoreError (Z * option N)) p d db tables record now :
  authored p d db -> rc_author_device_id record <> d -> in_u64 (rc_stream_seq record) ->
  authored p d (apply_record merge db tables record now).1.1.
Proof.
  intros Hau Hne Hty. unfold apply_record. destruct (negb _); [done|]. destruct (sy_slots db !! _); [done|].
  destruct (merge record tables) as [t' [[n news]|e]]; [|done]. destruct Hau as [Hok Hown Hoth].
  destruct (hold_slot_spec db (rc_person_id record) (rc_author_device_id record) (rc_kind record) (rc_stream_seq record) None now Hok Hty)
    as (H1 & _ & _ & H2 & H3 & _).
  assert (forall k s, sy_slots (hold_slot db (rc_person_id record) (rc_author_device_id record) (rc_kind record)
    (rc_stream_seq record) None now).1 !! (d, k, s) = sy_slots db !! (d, k, s)) as Hsame.
  { intros k s. unfold hold_slot. destruct (sy_slots db !! _); [done|]. cbn [fst advance_cursor sy_slots with_slots].
    rewrite lookup_insert_ne; [done|]. congruence. }
  destruct (hold_slot db _ _ _ _ _ _) as [db' held]. cbn [fst] in *. split; [done| |].
  - intros k s row. rewrite Hsame. intros Hrow. destruct (Hown _ _ _ Hrow) as (E1 & E2 & E3 & E4). specialize (H3 d k).
    split_and!; [done|done|lia|lia|done].
  - intros d' k s row Hd [Hrow| ->]%H2; [by eapply Hoth|done].
Qed.

(** * Witnesses *)

Section witnesses.

Let person : bytes := [x09].
Let dev : bytes := replicate 16 x02.
Let rcd (seq : Z) : SyncRecord := mk_record SyncHistory person dev toy_version 1 seq 1000 [] [].
Let toy_merge (r : SyncRecord) (t : Z) : Z * result CoreError (Z * option unit) := (t + 1, Ok (1, None)).

(** Records out of order: 1, 3, then 2. *)
Lemma cursor_gap_free_witness :
  let ops := [OpApply (rcd 1) 5; OpApply (rcd 3) 6] in
  let db := (sync_run toy_merge (sync_empty, 0) ops).1 in
  stream_cursor_by_wire db dev 10 = 1 /\ sy_slots db !! (dev, 10, 2) = None
  /\ stream_cursor_by_wire db dev 10 <= stream_cursor_by_wire (sync_run toy_merge (sync_empty, 0) (ops ++ [OpApply (rcd 2) 7])).1 dev 10.
Proof.
  intros ops db. split; [vm_compute; reflexivity|].
  destruct (cursor_gap_free toy_merge 0 ops [OpApply (rcd 2) 7] dev 10) as (_ & H1 & H2).
  - repeat constructor; vm_compute; discriminate.
  - repeat constructor; vm_compute; discriminate.
  - split; [exact H1|exact H2].
Defined.

End witnesses.
