(* ===== verification/Sealing.v ===== *)
(** Message sealing ([core/src/crypto.rs]): a payload is signed, padded to a bucket and
    encrypted to the recipient's key.  From envelope version 2 the signature covers a
    transcript that names the recipient; version 1 covers the bare payload.  This build
    opens both and seals version 1.

    [seal_open_roundtrip] shows that what is sealed opens, at either version;
    [opened_mail_was_written] that what opens as somebody's was written by them, and,
    when signed at version 2, was written for this very recipient: a body is not
    forwarded to another recipient, into a group, or down to version 1.  The primitives
    are parameters, and the randomness of a seal ([OsRng]) is an argument of it. *)
From stdpp Require Import base numbers list strings.
From S2P Require Import Prelude Wire Crypto RosterCodec Roster.

(** * Primitives *)

(** Ed25519 signing, X25519 and the two ciphers ([crypto_box]'s [SalsaBox] of a public
    and a secret key, [XChaCha20Poly1305] of a key). *)
Class SealCrypto := {
  ed25519_sign : bytes -> bytes -> bytes;
  ed25519_public : bytes -> bytes;
  x25519_public : bytes -> bytes;
  box_encrypt : bytes -> bytes -> bytes -> bytes -> option bytes;
  box_decrypt : bytes -> bytes -> bytes -> bytes -> option bytes;
  aead_encrypt : bytes -> bytes -> bytes -> option bytes;
  aead_decrypt : bytes -> bytes -> bytes -> option bytes;
}.

(** What their documentation promises of a message that was sealed and not changed. *)
Class SealLaws (C : Crypto) (S : SealCrypto) : Prop := {
  sign_length : forall sk m, blen (ed25519_sign sk m) = 64;
  public_length : forall sk, blen (ed25519_public sk) = 32;
  public_ok : forall sk, ed25519_key_ok (ed25519_public sk) = true;
  verify_sign : forall sk m, ed25519_verify (ed25519_public sk) m (ed25519_sign sk m) = true;
  x25519_length : forall sk, blen (x25519_public sk) = 32;
  box_roundtrip : forall a b n m c, box_encrypt (x25519_public a) b n m = Some c -> box_decrypt (x25519_public b) a n c = Some m;
  aead_roundtrip : forall k n m c, aead_encrypt k n m = Some c -> aead_decrypt k n c = Some m;
}.

Record Identity : Type := mk_identity {
  id_user_id : bytes;
  id_sign_pk : bytes;
  id_sign_sk : bytes;
  id_agree_pk : bytes;
  id_agree_sk : bytes;
}.

Record OpenedMessage : Type := mk_opened { om_sender_user_id : bytes; om_payload : bytes }.

Definition ENVELOPE_VERSION_LEGACY : Z := 1.
Definition ENVELOPE_VERSION_BOUND : Z := 2.
Definition SEAL_BOUND_SIGNATURE : bool := false.
Definition SEAL_ENVELOPE_VERSION : Z := if SEAL_BOUND_SIGNATURE then ENVELOPE_VERSION_BOUND else ENVELOPE_VERSION_LEGACY.
Definition EPHEMERAL_PK_LEN : Z := 32.
Definition NONCE_LEN : Z := 24.
Definition PAD_BUCKET : Z := 256.
Definition SIGN_PK_LEN : Z := 32.
Definition SIGNATURE_LEN : Z := 64.

Definition PAIRWISE_SIGNATURE_DOMAIN : bytes := String.list_byte_of_string "cruisemesh/sealed-body/pairwise/v2".
Definition GROUP_SIGNATURE_DOMAIN : bytes := String.list_byte_of_string "cruisemesh/sealed-body/group/v2".

(** * Signed bodies *)

Inductive SignatureBinding : Type :=
| Legacy
| Pairwise (recipient_agree_pk : bytes)
| BoundGroup (group_id : bytes).

#[global] Instance SignatureBinding_eq_dec : EqDecision SignatureBinding.
Proof. solve_decision. Defined.

Definition write_framed (field : bytes) : result CoreError bytes :=
  _ ← ensure (blen field <=? U32_MAX) (Wire.Crypto "signed field too long");
  Ok (be_bytes 4 (blen field) ++ field).

Definition bound_transcript (domain binding sender_sign_pk payload : bytes) : result CoreError bytes :=
  d ← write_framed domain;
  b ← write_framed binding;
  p ← write_framed payload;
  Ok (d ++ b ++ sender_sign_pk ++ p).

Definition transcript (b : SignatureBinding) (sender_sign_pk payload : bytes) : result CoreError bytes :=
  match b with
  | Legacy => Ok payload
  | Pairwise recipient_agree_pk => bound_transcript PAIRWISE_SIGNATURE_DOMAIN recipient_agree_pk sender_sign_pk payload
  | BoundGroup group_id => bound_transcript GROUP_SIGNATURE_DOMAIN group_id sender_sign_pk payload
  end.

Definition starts_with (prefix s : bytes) : bool := bool_decide (take (length prefix) s = prefix).

Definition looks_like_bound_transcript (payload : bytes) : bool :=
  existsb (fun domain => (4 <=? blen payload) && bool_decide (take 4 payload = be_bytes 4 (blen domain))
                         && starts_with domain (drop 4 payload))
    [PAIRWISE_SIGNATURE_DOMAIN; GROUP_SIGNATURE_DOMAIN].

(** [out.resize(n, 0)], which also cuts. *)
Definition resize_to (n : Z) (bs : bytes) : bytes := take (Z.to_nat n) (bs ++ replicate (Z.to_nat n - length bs) x00).

Definition pad_to_bucket (data : bytes) : bytes :=
  let out := le_bytes 4 (blen data) ++ data in
  let padded_len := (blen out + PAD_BUCKET - 1) / PAD_BUCKET * PAD_BUCKET in
  resize_to (Z.max padded_len PAD_BUCKET) out.

Definition unpad (data : bytes) : result CoreError bytes :=
  _ ← ensure (4 <=? blen data) (Wire.Crypto "padded body too short");
  let len := le_value (take 4 data) in
  _ ← ensure (len + 4 <=? blen data) (Wire.Crypto "corrupt padding length");
  Ok (take (Z.to_nat len) (drop 4 data)).

Definition key_len_err (expected actual : Z) : CoreError := InvalidKeyLength expected (as_u32 actual).

(** [bytes.try_into()] as an array of 32. *)
Definition key32 (bs : bytes) : result CoreError bytes :=
  _ ← ensure (blen bs =? 32) (key_len_err 32 (blen bs)); Ok bs.

Definition option_ok {E A} (o : option A) (e : E) : result E A := match o with Some a => Ok a | None => Err e end.

Lemma option_ok_ok {E A} (o : option A) (e : E) a : option_ok o e = Ok a <-> o = Some a.
Proof. destruct o; cbn; naive_solver. Qed.

Section sealing.
Context `{C : Crypto} `{S : SealCrypto}.

Definition sign_and_pad (sender : Identity) (binding : SignatureBinding) (payload : bytes) : result CoreError bytes :=
  signing_key ← key32 (id_sign_sk sender);
  t ← transcript binding (id_sign_pk sender) payload;
  Ok (pad_to_bucket (id_sign_pk sender ++ ed25519_sign signing_key t ++ payload)).

Definition open_signed_payload (padded : bytes) (binding : SignatureBinding) : result CoreError OpenedMessage :=
  signed_body ← unpad padded;
  _ ← ensure (SIGN_PK_LEN + SIGNATURE_LEN <=? blen signed_body) (Wire.Crypto "signed body too short");
  let sender_sign_pk := take 32 signed_body in
  let rest := drop 32 signed_body in
  let signature := take 64 rest in
  let message_payload := drop 64 rest in
  _ ← ensure (negb (bool_decide (binding = Legacy) && looks_like_bound_transcript message_payload)) SignatureInvalid;
  _ ← ensure (ed25519_key_ok sender_sign_pk) (Wire.Crypto "invalid Ed25519 public key");
  t ← transcript binding sender_sign_pk message_payload;
  _ ← ensure (ed25519_verify sender_sign_pk t signature) SignatureInvalid;
  Ok (mk_opened (derive_user_id sender_sign_pk) message_payload).

(** * Sealed envelopes *)

Definition seal_message_as_version (sender : Identity) (recipient_agree_pk payload : bytes) (version : Z)
  (ephemeral_sk nonce : bytes) : result CoreError bytes :=
  recipient_pk ← key32 recipient_agree_pk;
  binding ← (if version =? ENVELOPE_VERSION_LEGACY then Ok Legacy
             else if version =? ENVELOPE_VERSION_BOUND then Ok (Pairwise recipient_pk)
             else Err (Wire.Crypto "cannot seal envelope version"));
  padded ← sign_and_pad sender binding payload;
  ciphertext ← option_ok (box_encrypt recipient_pk ephemeral_sk nonce padded) (Wire.Crypto "seal failed");
  Ok (push_u8 version ++ x25519_public ephemeral_sk ++ nonce ++ ciphertext).

Definition seal_message (sender : Identity) (recipient_agree_pk payload ephemeral_sk nonce : bytes) : result CoreError bytes :=
  seal_message_as_version sender recipient_agree_pk payload SEAL_ENVELOPE_VERSION ephemeral_sk nonce.

Definition open_sealed_with_agree_sk (agree_sk sealed : bytes) : result CoreError OpenedMessage :=
  _ ← ensure (1 + EPHEMERAL_PK_LEN + NONCE_LEN <=? blen sealed) (Wire.Crypto "envelope too short");
  let version := be_value (take 1 sealed) in
  let rest := drop 1 sealed in
  _ ← ensure ((version =? ENVELOPE_VERSION_LEGACY) || (version =? ENVELOPE_VERSION_BOUND))
        (Wire.Crypto "unsupported envelope version");
  let ephemeral_pk_bytes := take 32 rest in
  let rest := drop 32 rest in
  let nonce := take 24 rest in
  let ciphertext := drop 24 rest in
  ephemeral_pk ← key32 ephemeral_pk_bytes;
  recipient_sk ← key32 agree_sk;
  padded ← option_ok (box_decrypt ephemeral_pk recipient_sk nonce ciphertext) (Wire.Crypto "open failed");
  let binding := if version =? ENVELOPE_VERSION_BOUND then Pairwise (x25519_public recipient_sk) else Legacy in
  open_signed_payload padded binding.

Definition open_message (recipient : Identity) (sealed : bytes) : result CoreError OpenedMessage :=
  open_sealed_with_agree_sk (id_agree_sk recipient) sealed.

End sealing.

(** * Padding *)

Lemma resize_to_extends n bs : blen bs <= n -> resize_to n bs = bs ++ replicate (Z.to_nat n - length bs) x00.
Proof.
  intros Hn. unfold resize_to. apply take_ge. rewrite length_app, length_replicate. unfold blen in Hn. lia.
Qed.

(** The least multiple of the bucket that holds the data. *)
Lemma padded_len_ge n : 0 <= n -> n <= (n + PAD_BUCKET - 1) / PAD_BUCKET * PAD_BUCKET < n + PAD_BUCKET.
Proof.
  intros Hn. unfold PAD_BUCKET. pose proof (Z.div_mod (n + 256 - 1) 256 ltac:(lia)).
  pose proof (Z.mod_pos_bound (n + 256 - 1) 256 ltac:(lia)). lia.
Qed.

Lemma pad_to_bucket_eq data : exists zeros, pad_to_bucket data = le_bytes 4 (blen data) ++ data ++ zeros
  /\ blen (pad_to_bucket data) mod PAD_BUCKET = 0.
Proof.
  unfold pad_to_bucket. set (out := le_bytes 4 (blen data) ++ data).
  pose proof (padded_len_ge (blen out) (blen_nonneg out)) as Hp.
  set (n := (blen out + PAD_BUCKET - 1) / PAD_BUCKET) in *. set (m := Z.max (n * PAD_BUCKET) PAD_BUCKET).
  assert (blen out <= m) as Hm by lia. rewrite resize_to_extends by done. eexists. split; [unfold out; by rewrite <- app_assoc|].
  assert (blen (out ++ replicate (Z.to_nat m - length out) x00) = m) as ->.
  { rewrite blen_app. unfold blen at 2. rewrite length_replicate. unfold blen in *. lia. }
  unfold m. destruct (Z.max_spec (n * PAD_BUCKET) PAD_BUCKET) as [[_ ->]|[_ ->]]; [done|by apply Z.mod_mul].
Qed.

Lemma unpad_pad data : blen data <= U32_MAX -> unpad (pad_to_bucket data) = Ok data.
Proof.
  intros Hd. destruct (pad_to_bucket_eq data) as (zeros & -> & _). pose proof (blen_nonneg data). pose proof (blen_nonneg zeros).
  assert (blen (le_bytes 4 (blen data)) = 4) as H4 by (unfold blen; by rewrite length_le_bytes).
  unfold unpad. rewrite !blen_app, H4.
  rewrite (take_app_length' _ _ 4), (drop_app_length' _ _ 4) by (by rewrite length_le_bytes).
  rewrite le_value_le_bytes_small by (change (256 ^ Z.of_nat 4) with 4294967296; ints).
  rewrite (proj2 (Z.leb_le _ _)) by lia. cbn [ensure]. cbn [mbind result_bind].
  rewrite (proj2 (Z.leb_le _ _)) by lia. cbn [ensure mbind result_bind]. f_equal. apply take_app_length'. unfold blen. lia.
Qed.

Lemma unpad_ok data body : unpad data = Ok body -> blen body <= blen data - 4 /\ take (length body) (drop 4 data) = body.
Proof.
  unfold unpad. intros H. inv_ok. bools.
  pose proof (be_value_range (reverse (take 4 data))) as Hr. fold (le_value (take 4 data)) in Hr.
  assert (length (take (Z.to_nat (le_value (take 4 data))) (drop 4 data)) = Z.to_nat (le_value (take 4 data))) as Hlen.
  { rewrite length_take, length_drop. unfold blen in *. lia. }
  split; [unfold blen in *; lia|by rewrite Hlen].
Qed.

(** * Transcripts *)

Lemma framed_inj a b r s x y : write_framed a = Ok x -> write_framed b = Ok y -> x ++ r = y ++ s -> a = b /\ r = s.
Proof.
  unfold write_framed. intros Ha Hb He. inv_ok. bools. pose proof (blen_nonneg a). pose proof (blen_nonneg b).
  rewrite <- !app_assoc in He. apply app_inj_1 in He as [Hl He]; [|by rewrite !length_be_bytes].
  apply (f_equal be_value) in Hl. rewrite !be_value_be_bytes_small in Hl by (change (256 ^ Z.of_nat 4) with 4294967296; ints).
  apply app_inj_1 in He; [done|]. unfold blen in Hl. lia.
Qed.

Definition binding_of (b : SignatureBinding) : option (bytes * bytes) :=
  match b with
  | Legacy => None
  | Pairwise pk => Some (PAIRWISE_SIGNATURE_DOMAIN, pk)
  | BoundGroup gid => Some (GROUP_SIGNATURE_DOMAIN, gid)
  end.

Lemma binding_of_inj b b' x : binding_of b = Some x -> binding_of b' = Some x -> b = b'.
Proof. destruct b, b'; cbn; intros; simplify_eq; done. Qed.

Lemma transcript_bound b pk payload domain binding :
  binding_of b = Some (domain, binding) -> transcript b pk payload = bound_transcript domain binding pk payload.
Proof. destruct b; cbn; intros; simplify_eq; done. Qed.

(** No two bound bodies of one signer share a transcript. *)
Lemma transcript_inj b b' pk p p' t :
  b <> Legacy -> b' <> Legacy -> transcript b pk p = Ok t -> transcript b' pk p' = Ok t -> b = b' /\ p = p'.
Proof.
  intros Hb Hb'. destruct (binding_of b) as [[d x]|] eqn:Eb; [|by destruct b].
  destruct (binding_of b') as [[d' x']|] eqn:Eb'; [|by destruct b'].
  rewrite (transcript_bound _ _ _ _ _ Eb), (transcript_bound _ _ _ _ _ Eb'). unfold bound_transcript. intros H H'.
  apply result_bind_ok in H as (f1 & F1 & H). apply result_bind_ok in H as (f2 & F2 & H). apply result_bind_ok in H as (f3 & F3 & H).
  apply result_bind_ok in H' as (g1 & G1 & H'). apply result_bind_ok in H' as (g2 & G2 & H'). apply result_bind_ok in H' as (g3 & G3 & H').
  apply Ok_inj in H as <-. apply Ok_inj in H' as He. symmetry in He.
  apply (framed_inj _ _ _ _ _ _ F1 G1) in He as [-> He]. apply (framed_inj _ _ _ _ _ _ F2 G2) in He as [-> He].
  apply app_inv_head in He. rewrite <- (app_nil_r f3), <- (app_nil_r g3) in He.
  apply (framed_inj _ _ _ _ _ _ F3 G3) in He as [-> _]. split; [by eapply binding_of_inj|done].
Qed.

(** A bound transcript is refused as a payload of version 1. *)
Lemma transcript_looks b pk p t : b <> Legacy -> transcript b pk p = Ok t -> looks_like_bound_transcript t = true.
Proof.
  intros Hb. destruct (binding_of b) as [[d x]|] eqn:Eb; [|by destruct b].
  rewrite (transcript_bound _ _ _ _ _ Eb). unfold bound_transcript, write_framed. intros H. inv_ok. bools.
  unfold looks_like_bound_transcript. apply existsb_exists. exists d. split; [destruct b; cbn in *; simplify_eq; [by left|by right; left]|].
  rewrite <- app_assoc. rewrite (take_app_length' _ _ 4), (drop_app_length' _ _ 4) by (by rewrite length_be_bytes).
  rewrite bool_decide_eq_true_2 by done. unfold starts_with. rewrite take_app_length, bool_decide_eq_true_2 by done.
  rewrite !andb_true_r. apply Z.leb_le. rewrite blen_app, blen_be_bytes. pose proof (blen_nonneg (d ++ (be_bytes 4 (blen x) ++ x) ++ pk ++ be_bytes 4 (blen p) ++ p)). lia.
Qed.

(** * What is sealed opens *)

Section theorems.
Context `{C : Crypto} `{S : SealCrypto}.

(** An identity whose two signing keys belong together. *)
Definition identity_ok (i : Identity) : Prop := id_sign_pk i = ed25519_public (id_sign_sk i).

Definition sealable (binding : SignatureBinding) (payload : bytes) : Prop :=
  blen payload + 96 <= U32_MAX /\ (binding = Legacy -> looks_like_bound_transcript payload = false).

Lemma sign_and_pad_opens `{!SealLaws C S} sender binding payload padded :
  identity_ok sender -> sealable binding payload -> sign_and_pad sender binding payload = Ok padded ->
  open_signed_payload padded binding = Ok (mk_opened (derive_user_id (id_sign_pk sender)) payload).
Proof.
  intros Hid [Hlen Hlook] H. unfold sign_and_pad, key32 in H. unfold identity_ok in Hid. rewrite Hid in *.
  set (pk := ed25519_public (id_sign_sk sender)) in *. inv_ok. bools.
  match goal with H : transcript _ _ _ = Ok ?m |- _ => rename m into t; rename H into Ht end.
  set (sig := ed25519_sign (id_sign_sk sender) t).
  assert (blen pk = 32) as Hpk by apply public_length. assert (blen sig = 64) as Hsig by apply sign_length.
  unfold open_signed_payload. rewrite unpad_pad by lens. cbn [mbind result_bind].
  rewrite (proj2 (Z.leb_le _ _)) by (unfold SIGN_PK_LEN, SIGNATURE_LEN; pose proof (blen_nonneg payload); lens).
  cbn [ensure mbind result_bind].
  rewrite (take_app_length' _ _ 32), (drop_app_length' _ _ 32) by (unfold blen in Hpk; lia).
  rewrite (take_app_length' _ _ 64), (drop_app_length' _ _ 64) by (unfold blen in Hsig; lia).
  assert (bool_decide (binding = Legacy) && looks_like_bound_transcript payload = false) as ->.
  { case_bool_decide as Hb; [by rewrite (Hlook Hb)|done]. }
  cbn [negb ensure mbind result_bind]. assert (ed25519_key_ok pk = true) as -> by apply public_ok. cbn [ensure mbind result_bind].
  rewrite Ht. cbn [mbind result_bind]. assert (ed25519_verify pk t sig = true) as -> by apply verify_sign. done.
Qed.

(** What is sealed to a key opens with its secret key, at either version, and names
    its author: the recipient recovers exactly the payload and the author's id.  A seal of
    version 1 excepts the payloads that look like a transcript of version 2, which the
    recipient refuses. *)
Theorem seal_open_roundtrip `{!SealLaws C S} sender agree_sk payload version ephemeral_sk nonce sealed :
  identity_ok sender -> blen agree_sk = 32 -> blen nonce = NONCE_LEN ->
  (version = ENVELOPE_VERSION_LEGACY /\ sealable Legacy payload
   \/ version = ENVELOPE_VERSION_BOUND /\ sealable (Pairwise (x25519_public agree_sk)) payload) ->
  seal_message_as_version sender (x25519_public agree_sk) payload version ephemeral_sk nonce = Ok sealed ->
  open_sealed_with_agree_sk agree_sk sealed = Ok (mk_opened (derive_user_id (id_sign_pk sender)) payload).
Proof.
  intros Hid Hsk Hn Hv Hseal.
  assert (exists binding, (version =? ENVELOPE_VERSION_LEGACY) || (version =? ENVELOPE_VERSION_BOUND) = true
    /\ binding = (if version =? ENVELOPE_VERSION_BOUND then Pairwise (x25519_public agree_sk) else Legacy)
    /\ (if version =? ENVELOPE_VERSION_LEGACY then Ok Legacy else if version =? ENVELOPE_VERSION_BOUND
        then Ok (Pairwise (x25519_public agree_sk)) else Err (Wire.Crypto "cannot seal envelope version")) = Ok binding
    /\ sealable binding payload /\ be_value [byte_of_Z version] = version) as (binding & Hver & Hb & Hb2 & Hs & Hbyte).
  { destruct Hv as [[-> Hs]|[-> Hs]]; eexists; (split; [done|]); (split; [done|]); (split; [done|]); (split; [exact Hs|done]). }
  unfold seal_message_as_version in Hseal. apply result_bind_ok in Hseal as (pk & Hpk & Hseal).
  unfold key32 in Hpk. inv_ok. rewrite Hb2 in Ha. apply Ok_inj in Ha as <-.
  match goal with H : option_ok _ _ = Ok _ |- _ => apply option_ok_ok in H; rename H into Henc end. pose proof (x25519_length ephemeral_sk) as He.
  unfold open_sealed_with_agree_sk. change (push_u8 version) with [byte_of_Z version]. unfold NONCE_LEN in Hn.
  rewrite (proj2 (Z.leb_le _ _)) by (unfold EPHEMERAL_PK_LEN, NONCE_LEN; pose proof (blen_nonneg a1); lens).
  cbn [ensure mbind result_bind]. cbn [app take drop]. rewrite take_0, drop_0, Hbyte, Hver. cbn [ensure mbind result_bind].
  rewrite (take_app_length' _ _ 32), (drop_app_length' _ _ 32) by (unfold blen in He; lia).
  rewrite (take_app_length' _ _ 24), (drop_app_length' _ _ 24) by (unfold blen in Hn; lia).
  unfold key32. rewrite He, Hsk. cbn [Z.eqb Pos.eqb ensure]. cbn [mbind result_bind].
  rewrite (box_roundtrip _ _ _ _ _ Henc). cbn [option_ok mbind result_bind]. by eapply sign_and_pad_opens.
Qed.

(** * What opens was written *)

(** The bodies the holder of a signing key wrote, each for what it was bound to. *)
Definition bodies : Type := list (SignatureBinding * bytes).

(** Ed25519 is unforgeable: what verifies under the key was signed by its holder. *)
Definition signed_only (pk : bytes) (written : bodies) : Prop :=
  forall m sig, ed25519_verify pk m sig = true -> exists b p, (b, p) ∈ written /\ transcript b pk p = Ok m.

(** No other key has this key's user id. *)
Definition sole_key (pk : bytes) : Prop := forall pk', derive_user_id pk' = derive_user_id pk -> pk' = pk.

(** What the holder signed bare does not look like a bound transcript. *)
Definition bare_plain (written : bodies) : Prop := forall p, (Legacy, p) ∈ written -> looks_like_bound_transcript p = false.

Lemma opened_was_written pk written padded binding opened :
  signed_only pk written -> sole_key pk -> bare_plain written ->
  open_signed_payload padded binding = Ok opened -> om_sender_user_id opened = derive_user_id pk ->
  (binding, om_payload opened) ∈ written.
Proof.
  intros Hsig Hsole Hplain Hop Hid. unfold open_signed_payload in Hop. inv_ok. cbn [om_sender_user_id om_payload] in *.
  apply Hsole in Hid. rewrite Hid in *. match goal with H : ed25519_verify _ _ _ = true |- _ => destruct (Hsig _ _ H) as (b & p & Hin & Ht) end.
  match goal with H : transcript binding _ _ = Ok _ |- _ => rename H into Htr end.
  match goal with H : negb _ = true |- _ => rename H into Hl end. set (payload := drop 64 _) in *.
  destruct (decide (binding = Legacy)) as [->|Hb], (decide (b = Legacy)) as [->|Hb'].
  - cbn [transcript] in Ht, Htr. congruence.
  - cbn [transcript] in Htr. apply Ok_inj in Htr as ->. rewrite (transcript_looks _ _ _ _ Hb' Ht) in Hl. by rewrite bool_decide_eq_true_2 in Hl.
  - cbn [transcript] in Ht. apply Ok_inj in Ht as ->. apply Hplain in Hin. rewrite (transcript_looks _ _ _ _ Hb Htr) in Hin. done.
  - destruct (transcript_inj _ _ _ _ _ _ Hb' Hb Ht Htr) as [-> ->]. done.
Qed.

(** Mail that opens as somebody's was written by them.  When the envelope is of
    version 2, it was written for this very recipient: nobody, a former recipient
    included, can forward it, move it out of a group, or present it as version 1. *)
Theorem opened_mail_was_written pk written agree_sk sealed opened :
  signed_only pk written -> sole_key pk -> bare_plain written ->
  open_sealed_with_agree_sk agree_sk sealed = Ok opened -> om_sender_user_id opened = derive_user_id pk ->
  let version := be_value (take 1 sealed) in
  version = ENVELOPE_VERSION_BOUND /\ (Pairwise (x25519_public agree_sk), om_payload opened) ∈ written
  \/ version = ENVELOPE_VERSION_LEGACY /\ (Legacy, om_payload opened) ∈ written.
Proof.
  intros Hsig Hsole Hplain Hop Hid version. unfold open_sealed_with_agree_sk, key32 in Hop.
  apply result_bind_ok in Hop as (u & _ & Hop). cbv zeta in Hop. fold version in Hop.
  apply result_bind_ok in Hop as (u' & Hver & Hop). inv_ok.
  pose proof (opened_was_written _ _ _ _ _ Hsig Hsole Hplain Hop Hid) as Hw.
  destruct (version =? ENVELOPE_VERSION_BOUND) eqn:Ev; [left; split; [by apply Z.eqb_eq|done]|].
  right. rewrite orb_false_r in Hver. split; [by apply Z.eqb_eq|done].
Qed.

End theorems.

(** * Witnesses *)

(** Ciphers that encrypt nothing, a signature that repeats its key. *)
Definition toy_seal : SealCrypto := {|
  ed25519_sign sk _ := resize_to 64 (resize_to 32 sk);
  ed25519_public sk := resize_to 32 sk;
  x25519_public sk := resize_to 32 sk;
  box_encrypt _ _ _ m := Some m;
  box_decrypt _ _ _ c := Some c;
  aead_encrypt _ _ m := Some m;
  aead_decrypt _ _ c := Some c;
|}.

Lemma blen_resize n bs : 0 <= n -> blen (resize_to n bs) = n.
Proof. intros Hn. unfold resize_to, blen. rewrite length_take, length_app, length_replicate. lia. Qed.

Lemma head_resize n bs : bs <> [] -> 0 < n -> head (resize_to n bs) = head bs.
Proof. intros Hb Hn. unfold resize_to. destruct bs as [|b bs]; [done|]. destruct (Z.to_nat n) eqn:E; [lia|]. done. Qed.

#[global] Instance toy_seal_laws : SealLaws toy_crypto toy_seal.
Proof.
  split; cbn; intros; try (by apply blen_resize); try congruence.
  apply bool_decide_eq_true. symmetry. apply head_resize; [|done]. intros H.
  pose proof (blen_resize 32 sk ltac:(done)) as Hl. rewrite H in Hl. by vm_compute in Hl.
Qed.

Definition toy_identity : Identity :=
  mk_identity (replicate 16 x05) (replicate 32 x01) (replicate 32 x01) (replicate 32 x03) (replicate 32 x03).

Lemma seal_open_roundtrip_witness :
  exists sealed,
    seal_message_as_version (S := toy_seal) toy_identity (replicate 32 x02) [x07; x08] 2 (replicate 32 x09) (replicate 24 x00) = Ok sealed
    /\ open_sealed_with_agree_sk (C := toy_crypto) (S := toy_seal) (replicate 32 x02) sealed
       = Ok (mk_opened (derive_user_id (C := toy_crypto) (replicate 32 x01)) [x07; x08]).
Proof.
  destruct (seal_message_as_version (S := toy_seal) toy_identity (replicate 32 x02) [x07; x08] 2 (replicate 32 x09) (replicate 24 x00))
    as [sealed|e] eqn:He; [|vm_compute in He; discriminate].
  exists sealed. split; [reflexivity|].
  apply (seal_open_roundtrip (C := toy_crypto) (S := toy_seal) toy_identity (replicate 32 x02) [x07; x08] 2 (replicate 32 x09) (replicate 24 x00)).
  - vm_compute. reflexivity.
  - reflexivity.
  - reflexivity.
  - right. split; [reflexivity|]. split; [vm_compute; discriminate|discriminate].
  - rewrite <- He. vm_compute. reflexivity.
Defined.

(** A key that signed one body, for one recipient; a user id that is the key. *)
Definition one_body : bodies := [(Pairwise (replicate 32 x02), [x07; x08])].

Definition one_body_crypto : Crypto := {|
  blake2b _ bs := bs;
  ed25519_key_ok _ := true;
  ed25519_verify pk m _ := bool_decide (transcript (Pairwise (replicate 32 x02)) pk [x07; x08] = Ok m);
|}.

Lemma opened_mail_was_written_witness :
  exists sealed,
    seal_message_as_version (S := toy_seal) toy_identity (replicate 32 x02) [x07; x08] 2 (replicate 32 x09) (replicate 24 x00) = Ok sealed
    /\ (be_value (take 1 sealed) = ENVELOPE_VERSION_BOUND
        /\ (Pairwise (x25519_public (SealCrypto := toy_seal) (replicate 32 x02)), [x07; x08]) ∈ one_body
        \/ be_value (take 1 sealed) = ENVELOPE_VERSION_LEGACY /\ (Legacy, [x07; x08]) ∈ one_body).
Proof.
  destruct (seal_message_as_version (S := toy_seal) toy_identity (replicate 32 x02) [x07; x08] 2 (replicate 32 x09) (replicate 24 x00))
    as [sealed|e] eqn:He; [|vm_compute in He; discriminate].
  exists sealed. split; [reflexivity|].
  apply (opened_mail_was_written (C := one_body_crypto) (S := toy_seal) (replicate 32 x01) one_body (replicate 32 x02) sealed
           (mk_opened (replicate 32 x01) [x07; x08])).
  - intros m sig Hv. apply bool_decide_eq_true in Hv. exists (Pairwise (replicate 32 x02)), [x07; x08]. split; [left|exact Hv].
  - intros pk' Hpk. exact Hpk.
  - intros p Hp. exfalso. apply list_elem_of_singleton in Hp. discriminate Hp.
  - apply Ok_inj in He. subst sealed. vm_compute. reflexivity.
  - reflexivity.
Defined.
