(* ===== verification/Groups.v ===== *)
(** Groups ([core/src/groups.rs]): their state, the invite and metadata codecs, the
    add-only metadata updates that members author concurrently, and the group seal.

    [group_updates_converge] shows that members that saw the same updates agree on the
    group, in whatever order and however often they saw them; [group_wire_roundtrip] that
    invites and updates read back; [group_mail_was_written] that a group message that
    opens as somebody's was written by them, and at version 2 for this group.  Two
    updates of one rank and different names do not converge ([equal_rank_diverges]): the
    name that arrived first stays. *)
From stdpp Require Import base numbers list strings sorting.
From S2P Require Import Prelude StdModel Wire Crypto RosterCodec Roster Hints Sealing.

Definition GROUP_ID_LEN : Z := 16.
Definition GROUP_KEY_LEN : Z := 32.
Definition GROUP_ENVELOPE_VERSION_LEGACY : Z := 1.
Definition GROUP_ENVELOPE_VERSION_BOUND : Z := 2.
Definition SEAL_GROUP_ENVELOPE_VERSION : Z :=
  if SEAL_BOUND_SIGNATURE then GROUP_ENVELOPE_VERSION_BOUND else GROUP_ENVELOPE_VERSION_LEGACY.
Definition GROUP_NONCE_LEN : Z := 24.
Definition GROUP_METADATA_VERSION : Z := 1.
Definition USER_ID_LEN : Z := 16.
Definition MAX_GROUP_MEMBERS : Z := 64.
Definition MAX_GROUP_NAME_BYTES : Z := 128.

Record GroupMetadataUpdate : Type := mk_update {
  gu_group_id : bytes;
  gu_name : bytes;
  gu_revision : Z;
  gu_changed_by : bytes;
  gu_member_user_ids : list bytes;
}.

(** * Validation *)

Definition validate_user_id (user_id : bytes) : result CoreError unit :=
  ensure (blen user_id =? USER_ID_LEN) (Malformed "UserID must be 16 bytes").

Definition validate_group_id (group_id : bytes) : result CoreError unit :=
  ensure (blen group_id =? GROUP_ID_LEN) (Malformed "group id must be 16 bytes").

Definition validate_group_name (name : bytes) : result CoreError unit :=
  _ ← ensure (negb (bool_decide (trim name = []))) (Malformed "group name must not be empty");
  ensure (blen name <=? MAX_GROUP_NAME_BYTES) (Malformed "group name exceeds 128 UTF-8 bytes").

Fixpoint validate_each (ids : list bytes) : result CoreError unit :=
  match ids with
  | [] => Ok tt
  | id :: ids => _ ← validate_user_id id; validate_each ids
  end.

Definition validate_member_user_ids (ids : list bytes) : result CoreError unit :=
  _ ← ensure (blen ids <=? MAX_GROUP_MEMBERS) (Malformed "group exceeds 64 members");
  validate_each ids.

Definition validate_group (group : Group) : result CoreError unit :=
  _ ← validate_group_id (group_id group);
  _ ← validate_group_name (group_name group);
  _ ← validate_member_user_ids (member_user_ids group);
  _ ← ensure (blen (group_key group) =? GROUP_KEY_LEN) (key_len_err GROUP_KEY_LEN (blen (group_key group)));
  if decide (group_metadata_changed_by group = []) then Ok tt else validate_user_id (group_metadata_changed_by group).

Definition validate_group_metadata_update (update : GroupMetadataUpdate) : result CoreError unit :=
  _ ← validate_group_id (gu_group_id update);
  _ ← ensure (negb (gu_revision update =? 0)) (Malformed "group metadata revision must be positive");
  _ ← validate_user_id (gu_changed_by update);
  _ ← validate_group_name (gu_name update);
  validate_member_user_ids (gu_member_user_ids update).

Definition canonicalize_members (ids : list bytes) : list bytes := dedup (merge_sort bytes_le ids).

(** * Groups *)

(** [id] and [key] are the bytes [OsRng] filled. *)
Definition create_group (name : bytes) (ids : list bytes) (id key : bytes) : result CoreError Group :=
  _ ← validate_group_name name;
  _ ← validate_member_user_ids ids;
  Ok (mk_group id name (canonicalize_members ids) key 0 []).

Definition rotate_group (group : Group) (ids : list bytes) (key : bytes) : result CoreError Group :=
  _ ← validate_group group;
  _ ← validate_member_user_ids ids;
  Ok (mk_group (group_id group) (group_name group) (canonicalize_members ids) key (group_metadata_revision group)
        (group_metadata_changed_by group)).

(** ** Metadata updates *)

Definition create_group_metadata_update (group : Group) (changed_by name : bytes) (ids : list bytes)
  : result CoreError GroupMetadataUpdate :=
  _ ← validate_group group;
  _ ← ensure (bool_decide (changed_by ∈ member_user_ids group)) (Malformed "group metadata author is not a member");
  let name := trim name in
  _ ← validate_group_name name;
  _ ← validate_member_user_ids ids;
  let ids := canonicalize_members ids in
  _ ← ensure (forallb (fun m => bool_decide (m ∈ ids)) (member_user_ids group))
        (Malformed "group metadata update cannot remove members");
  _ ← ensure (group_metadata_revision group + 1 <=? U64_MAX) (Malformed "group metadata revision overflow");
  Ok (mk_update (group_id group) name (group_metadata_revision group + 1) changed_by ids).

(** [(revision, changed_by) > (revision, changed_by)] *)
Definition rank_gt (a b : Z * bytes) : bool :=
  (b.1 <? a.1) || ((a.1 =? b.1) && negb (bool_decide (bytes_le a.2 b.2))).

Definition group_rank (g : Group) : Z * bytes := (group_metadata_revision g, group_metadata_changed_by g).
Definition update_rank (u : GroupMetadataUpdate) : Z * bytes := (gu_revision u, gu_changed_by u).

Definition apply_group_metadata_update (group : Group) (update : GroupMetadataUpdate) (sender_user_id : bytes)
  : result CoreError (option Group) :=
  _ ← validate_group group;
  _ ← validate_group_metadata_update update;
  _ ← ensure (bool_decide (gu_group_id update = group_id group)) (Malformed "group metadata update id does not match group");
  _ ← ensure (bool_decide (gu_changed_by update = sender_user_id)) (Malformed "group metadata signer does not match changed_by");
  _ ← ensure (bool_decide (sender_user_id ∈ member_user_ids group)) (Malformed "group metadata signer is not a member");
  let merged_members := canonicalize_members (member_user_ids group ++ gu_member_user_ids update) in
  _ ← validate_member_user_ids merged_members;
  let membership_changed := negb (bool_decide (merged_members = member_user_ids group)) in
  let name_wins := rank_gt (update_rank update) (group_rank group) in
  if negb membership_changed && negb name_wins then Ok None
  else Ok (Some (mk_group (group_id group) (if name_wins then gu_name update else group_name group) merged_members
                   (group_key group)
                   (if name_wins then gu_revision update else group_metadata_revision group)
                   (if name_wins then gu_changed_by update else group_metadata_changed_by group))).

(** ** Codecs *)

#[local] Instance group_reader : Reader CoreError :=
  {| truncated := Malformed "truncated"; trailing := Malformed "unexpected trailing byte(s) after decoding" |}.

Definition member_bytes (ids : list bytes) : bytes := be_bytes 2 (blen ids) ++ concat (write_bytes16 <$> ids).

Definition encode_group_invite_content (group : Group) : result CoreError bytes :=
  _ ← validate_group group;
  let ids := canonicalize_members (member_user_ids group) in
  Ok (group_id group ++ group_key group ++ write_bytes16 (group_name group) ++ member_bytes ids).

Definition take_user_id : reader CoreError bytes :=
  user_id ← Cursor.take_bytes16;
  _ ← lift (validate_user_id user_id);
  mret user_id.

Definition take_name : reader CoreError bytes :=
  name ← Cursor.take_bytes16;
  _ ← guard_ (utf8_valid name) (Malformed "group name is not UTF-8");
  _ ← lift (validate_group_name name);
  mret name.

Definition take_members : reader CoreError (list bytes) :=
  member_count ← Cursor.take_u16;
  _ ← guard_ (member_count <=? MAX_GROUP_MEMBERS) (Malformed "group has too many members");
  Cursor.take_many (Z.to_nat member_count) take_user_id.

Definition read_invite : reader CoreError Group :=
  id ← Cursor.take GROUP_ID_LEN;
  key ← Cursor.take GROUP_KEY_LEN;
  name ← take_name;
  ids ← take_members;
  _ ← Cursor.finish;
  let group := mk_group id name (canonicalize_members ids) key 0 [] in
  _ ← lift (validate_group group);
  mret group.

Definition decode_group_invite_content (bs : bytes) : result CoreError Group := Cursor.run read_invite bs.

Definition encode_group_metadata_update (update : GroupMetadataUpdate) : result CoreError bytes :=
  _ ← validate_group_metadata_update update;
  let ids := canonicalize_members (gu_member_user_ids update) in
  Ok (push_u8 GROUP_METADATA_VERSION ++ gu_group_id update ++ be_bytes 8 (gu_revision update)
      ++ write_bytes16 (gu_changed_by update) ++ write_bytes16 (gu_name update) ++ member_bytes ids).

Definition read_update : reader CoreError GroupMetadataUpdate :=
  version ← Cursor.take_u8;
  _ ← guard_ (version =? GROUP_METADATA_VERSION) (Malformed "unsupported group metadata version");
  group_id ← Cursor.take GROUP_ID_LEN;
  revision ← Cursor.take_u64;
  changed_by ← take_user_id;
  name ← take_name;
  ids ← take_members;
  _ ← Cursor.finish;
  let update := mk_update group_id name revision changed_by (canonicalize_members ids) in
  _ ← lift (validate_group_metadata_update update);
  mret update.

Definition decode_group_metadata_update (bs : bytes) : result CoreError GroupMetadataUpdate := Cursor.run read_update bs.

(** ** The group seal *)

Section sealing.
Context `{C : Crypto} `{S : SealCrypto}.

(** [nonce] is the one the seal draws. *)
Definition seal_group_message_as_version (sender : Identity) (group : Group) (payload : bytes) (version : Z) (nonce : bytes)
  : result CoreError bytes :=
  _ ← validate_group group;
  binding ← (if version =? GROUP_ENVELOPE_VERSION_LEGACY then Ok Legacy
             else if version =? GROUP_ENVELOPE_VERSION_BOUND then Ok (BoundGroup (group_id group))
             else Err (Wire.Crypto "cannot seal group envelope version"));
  key ← key32 (group_key group);
  padded ← sign_and_pad sender binding payload;
  ciphertext ← option_ok (aead_encrypt key nonce padded) (Wire.Crypto "group seal failed");
  Ok (push_u8 version ++ nonce ++ ciphertext).

Definition seal_group_message (sender : Identity) (group : Group) (payload nonce : bytes) : result CoreError bytes :=
  seal_group_message_as_version sender group payload SEAL_GROUP_ENVELOPE_VERSION nonce.

Definition open_group_message (group : Group) (sealed : bytes) : result CoreError OpenedMessage :=
  _ ← validate_group group;
  _ ← ensure (1 + GROUP_NONCE_LEN <=? blen sealed) (Wire.Crypto "group envelope too short");
  let version := be_value (take 1 sealed) in
  let rest := drop 1 sealed in
  _ ← ensure ((version =? GROUP_ENVELOPE_VERSION_LEGACY) || (version =? GROUP_ENVELOPE_VERSION_BOUND))
        (Wire.Crypto "unsupported group envelope version");
  let nonce := take 24 rest in
  let ciphertext := drop 24 rest in
  key ← key32 (group_key group);
  padded ← option_ok (aead_decrypt key nonce ciphertext) (Wire.Crypto "group open failed");
  let binding := if version =? GROUP_ENVELOPE_VERSION_BOUND then BoundGroup (group_id group) else Legacy in
  open_signed_payload padded binding.

End sealing.

(** * Updates converge *)

Definition user_ids_ok (ids : list bytes) : Prop := Forall (fun id => blen id = USER_ID_LEN) ids.

Lemma validate_each_ok ids : validate_each ids = Ok tt <-> user_ids_ok ids.
Proof.
  unfold user_ids_ok. induction ids as [|id ids IH]; cbn [validate_each]; [by split; [constructor|]|].
  unfold validate_user_id. rewrite Forall_cons, <- IH, <- Z.eqb_eq. destruct (blen id =? USER_ID_LEN); cbn; naive_solver.
Qed.

Lemma validate_members_ok ids : validate_member_user_ids ids = Ok tt <-> blen ids <= MAX_GROUP_MEMBERS /\ user_ids_ok ids.
Proof.
  unfold validate_member_user_ids. rewrite <- validate_each_ok, <- Z.leb_le. destruct (blen ids <=? MAX_GROUP_MEMBERS); cbn; naive_solver.
Qed.

Lemma canonical_elem ids x : x ∈ canonicalize_members ids <-> x ∈ ids.
Proof. unfold canonicalize_members. by rewrite elem_of_dedup, merge_sort_Permutation. Qed.

Lemma canonical_eq ids ids' : canonicalize_members ids = canonicalize_members ids' <-> forall x, x ∈ ids <-> x ∈ ids'.
Proof. apply sort_dedup_set; apply _. Qed.

Lemma canonical_nodup ids : NoDup (canonicalize_members ids).
Proof.
  assert (StronglySorted (fun x y => bytes_le x y /\ x <> y) (canonicalize_members ids)) as Hs.
  { apply (dedup_sorted bytes_le). apply StronglySorted_merge_sort; apply _. }
  induction Hs as [|x l Hl IH Hx]; constructor; [|done]. intros Hin. rewrite Forall_forall in Hx. by destruct (Hx x Hin).
Qed.

Lemma canonical_length ids ids' : ids ⊆ ids' -> blen (canonicalize_members ids) <= blen (canonicalize_members ids').
Proof.
  intros Hsub. unfold blen. enough (length (canonicalize_members ids) <= length (canonicalize_members ids'))%nat by lia.
  apply submseteq_length, NoDup_submseteq; [apply canonical_nodup|]. intros x. rewrite !canonical_elem. apply Hsub.
Qed.

Lemma canonical_ids_ok ids : user_ids_ok (canonicalize_members ids) <-> user_ids_ok ids.
Proof. unfold user_ids_ok. rewrite !Forall_forall. by setoid_rewrite canonical_elem. Qed.

(** Ranks are ordered. *)
Lemma rank_gt_spec a b : rank_gt a b = true <-> b.1 < a.1 \/ a.1 = b.1 /\ ~ bytes_le a.2 b.2.
Proof. unfold rank_gt. by rewrite orb_true_iff, andb_true_iff, negb_true_iff, bool_decide_eq_false, Z.ltb_lt, Z.eqb_eq. Qed.

Definition rank_ge (a b : Z * bytes) : Prop := rank_gt b a = false.

Lemma rank_ge_spec a b : rank_ge a b <-> b.1 < a.1 \/ a.1 = b.1 /\ bytes_le b.2 a.2.
Proof.
  unfold rank_ge. rewrite <- not_true_iff_false, rank_gt_spec.
  split; [|intros [?|[? ?]] [?|[? ?]]; lia || tauto]. intros H.
  destruct (Z.lt_trichotomy a.1 b.1) as [?|[?|?]]; [tauto| |by left]. right. split; [done|].
  apply dec_stable. intros Hn. apply H. right. by split.
Qed.

Lemma rank_ge_refl a : rank_ge a a.
Proof. apply rank_ge_spec. right. split; [done|apply bytes_le_refl]. Qed.

Lemma rank_ge_trans a b d : rank_ge a b -> rank_ge b d -> rank_ge a d.
Proof.
  rewrite !rank_ge_spec. intros [?|[? H1]] [?|[? H2]]; [left; lia..|]. right. split; [lia|by transitivity b.2].
Qed.

Lemma rank_ge_antisym a b : rank_ge a b -> rank_ge b a -> a = b.
Proof.
  rewrite !rank_ge_spec. destruct a as [r x], b as [s y]; cbn. intros [?|[? H1]] [?|[? H2]]; try lia.
  f_equal; [done|by apply bytes_le_antisymm].
Qed.

Lemma rank_gt_ge a b : rank_gt a b = true -> rank_ge a b.
Proof.
  rewrite rank_gt_spec, rank_ge_spec. intros [?|[? H]]; [by left|right]. split; [done|].
  destruct (bytes_le_total b.2 a.2); done.
Qed.

(** What a member does with an update that arrives from its author: it keeps the group
    when the update is refused or changes nothing. *)
Definition receive_update (g : Group) (u : GroupMetadataUpdate) : Group :=
  match apply_group_metadata_update g u (gu_changed_by u) with Ok (Some g') => g' | _ => g end.

Definition receive_updates (g : Group) (us : list GroupMetadataUpdate) : Group := fold_left receive_update us g.

Definition all_members (g : Group) (us : list GroupMetadataUpdate) : list bytes :=
  member_user_ids g ++ (us ≫= gu_member_user_ids).

(** A group and updates authored by its members, within the size limit. *)
Record updates_ok (g : Group) (us : list GroupMetadataUpdate) : Prop := {
  uo_group : validate_group g = Ok tt;
  uo_canonical : canonicalize_members (member_user_ids g) = member_user_ids g;
  uo_valid : Forall (fun u => validate_group_metadata_update u = Ok tt /\ gu_group_id u = group_id g
                              /\ gu_changed_by u ∈ member_user_ids g) us;
  uo_size : blen (canonicalize_members (all_members g us)) <= MAX_GROUP_MEMBERS;
}.

(** The updates of rank [k] carry one name. *)
Definition rank_names (k : Z * bytes) (us : list GroupMetadataUpdate) : Prop :=
  forall u u', u ∈ us -> u' ∈ us -> update_rank u = k -> update_rank u' = k -> gu_name u = gu_name u'.

(** The merge of a group and a set of updates. *)
Record merged (g : Group) (us : list GroupMetadataUpdate) (r : Group) : Prop := {
  md_id : group_id r = group_id g;
  md_key : group_key r = group_key g;
  md_members : member_user_ids r = canonicalize_members (all_members g us);
  md_above : rank_ge (group_rank r) (group_rank g) /\ forall u, u ∈ us -> rank_ge (group_rank r) (update_rank u);
  md_name : group_rank r = group_rank g /\ group_name r = group_name g
            \/ exists u, u ∈ us /\ group_rank r = update_rank u /\ rank_gt (update_rank u) (group_rank g) = true
                         /\ group_name r = gu_name u;
}.

(** Two merges differ in the name at most. *)
Definition same_but_name (r r' : Group) : Prop :=
  group_id r = group_id r' /\ member_user_ids r = member_user_ids r' /\ group_key r = group_key r' /\ group_rank r = group_rank r'.

Lemma same_but_name_eq r r' : same_but_name r r' -> group_name r = group_name r' -> r = r'.
Proof. intros (H1 & H2 & H3 & H4) H5. destruct r, r'; unfold group_rank in *; cbn in *. injection H4 as -> ->. congruence. Qed.

Lemma merged_same g us r r' : merged g us r -> merged g us r' -> same_but_name r r'.
Proof.
  intros [I K M [A1 A2] N] [I' K' M' [A1' A2'] N']. split_and!; [congruence..|]. apply rank_ge_antisym.
  - destruct N' as [[-> _]|(u & Hu & -> & _)]; auto.
  - destruct N as [[-> _]|(u & Hu & -> & _)]; auto.
Qed.

Lemma merged_name g us r r' : rank_names (group_rank r) us -> merged g us r -> merged g us r' -> group_name r = group_name r'.
Proof.
  intros Hn Hm Hm'. destruct (merged_same g us r r' Hm Hm') as (_ & _ & _ & Hr). destruct Hm as [_ _ _ _ N], Hm' as [_ _ _ _ N'].
  pose proof (rank_ge_refl (group_rank g)) as Hx. unfold rank_ge in Hx.
  destruct N as [[Hg Hna]|(u & Hu & Hru & Hgt & Hna)], N' as [[Hg' Hna']|(u' & Hu' & Hru' & Hgt' & Hna')].
  - congruence.
  - rewrite <- Hru', <- Hr, Hg in Hgt'. congruence.
  - rewrite <- Hru, Hr, Hg' in Hgt. congruence.
  - rewrite Hna, Hna'. apply Hn; [done|done|congruence..].
Qed.

Lemma merged_ext g us us' r : (forall u, u ∈ us <-> u ∈ us') -> merged g us r -> merged g us' r.
Proof.
  intros He [I K M [A1 A2] N]. split; [done|done| |split; [done|]|].
  - rewrite M. apply canonical_eq. intros x. unfold all_members. rewrite !elem_of_app, !list_elem_of_bind. naive_solver.
  - intros u Hu. apply A2, He, Hu.
  - destruct N as [?|(u & Hu & ?)]; [by left|right]. exists u. by rewrite <- He.
Qed.

Lemma validate_group_ok g : validate_group g = Ok tt <->
  validate_group_id (group_id g) = Ok tt /\ validate_group_name (group_name g) = Ok tt
  /\ validate_member_user_ids (member_user_ids g) = Ok tt /\ blen (group_key g) = GROUP_KEY_LEN
  /\ (group_metadata_changed_by g = [] \/ validate_user_id (group_metadata_changed_by g) = Ok tt).
Proof.
  unfold validate_group. split.
  - intros H. inv_ok. destruct a, a0, a1. bools. split_and!; [done..|]. case_decide; auto.
  - intros (-> & -> & -> & Hk & Hc). cbn [mbind result_bind]. rewrite (proj2 (Z.eqb_eq _ _) Hk). cbn [ensure mbind result_bind].
    case_decide; [done|]. by destruct Hc.
Qed.

Lemma validate_update_ok u : validate_group_metadata_update u = Ok tt <->
  validate_group_id (gu_group_id u) = Ok tt /\ gu_revision u <> 0 /\ validate_user_id (gu_changed_by u) = Ok tt
  /\ validate_group_name (gu_name u) = Ok tt /\ validate_member_user_ids (gu_member_user_ids u) = Ok tt.
Proof.
  unfold validate_group_metadata_update. split.
  - intros H. inv_ok. repeat match goal with x : unit |- _ => destruct x end. bools. done.
  - intros (-> & Hr & -> & -> & ->). cbn [mbind result_bind]. by rewrite (proj2 (Z.eqb_neq _ _) Hr).
Qed.

(** The group an update leads to, when nothing refuses it. *)
Definition merge_one (r : Group) (u : GroupMetadataUpdate) : Group :=
  let wins := rank_gt (update_rank u) (group_rank r) in
  mk_group (group_id r) (if wins then gu_name u else group_name r)
    (canonicalize_members (member_user_ids r ++ gu_member_user_ids u)) (group_key r)
    (if wins then gu_revision u else group_metadata_revision r) (if wins then gu_changed_by u else group_metadata_changed_by r).

Lemma receive_update_eq r u :
  validate_group r = Ok tt -> validate_group_metadata_update u = Ok tt -> gu_group_id u = group_id r ->
  gu_changed_by u ∈ member_user_ids r ->
  validate_member_user_ids (canonicalize_members (member_user_ids r ++ gu_member_user_ids u)) = Ok tt ->
  receive_update r u = merge_one r u.
Proof.
  intros Hr Hu Hid Hin Hm. unfold receive_update, apply_group_metadata_update. rewrite Hr, Hu. cbn [mbind result_bind].
  rewrite (bool_decide_eq_true_2 (gu_group_id u = group_id r)) by done. cbn [ensure mbind result_bind].
  rewrite (bool_decide_eq_true_2 (gu_changed_by u = gu_changed_by u)) by done. cbn [ensure mbind result_bind].
  rewrite (bool_decide_eq_true_2 (gu_changed_by u ∈ member_user_ids r)) by done. cbn [ensure mbind result_bind]. rewrite Hm. cbn [mbind result_bind].
  unfold merge_one. destruct (rank_gt (update_rank u) (group_rank r)); cbn [negb]; [by rewrite andb_false_r|].
  rewrite andb_true_r. case_bool_decide as Hsame; cbn [negb]; [|done]. rewrite Hsame. by destruct r.
Qed.

(** One more update. *)
Lemma receive_update_merged g us u r :
  updates_ok g (us ++ [u]) -> merged g us r -> validate_group r = Ok tt ->
  merged g (us ++ [u]) (receive_update r u) /\ validate_group (receive_update r u) = Ok tt.
Proof.
  intros [Hg Hcan Hval Hsize] [I K M [A1 A2] N] Hr. apply Forall_app in Hval as [_ (Hu & Huid & Hby)%Forall_singleton].
  pose proof (proj1 (validate_group_ok r) Hr) as (V1 & V2 & [_ V3]%validate_members_ok & V4 & V5).
  pose proof (proj1 (validate_update_ok u) Hu) as (U1 & _ & U3 & U4 & [_ U5]%validate_members_ok).
  assert (canonicalize_members (member_user_ids r ++ gu_member_user_ids u) = canonicalize_members (all_members g (us ++ [u]))) as Hm.
  { apply canonical_eq. intros x. rewrite elem_of_app, M, canonical_elem. unfold all_members.
    rewrite bind_app, !elem_of_app. cbn. rewrite app_nil_r. tauto. }
  assert (validate_member_user_ids (canonicalize_members (member_user_ids r ++ gu_member_user_ids u)) = Ok tt) as Hmv.
  { apply validate_members_ok. rewrite Hm. split; [done|]. rewrite <- Hm, canonical_ids_ok. by apply Forall_app. }
  rewrite receive_update_eq by (done || congruence || (rewrite M, canonical_elem; apply elem_of_app; by left)).
  pose proof (rank_gt_ge (update_rank u) (group_rank r)) as Hge. unfold merge_one.
  destruct (rank_gt (update_rank u) (group_rank r)) eqn:Hw.
  - split; [split; cbn [group_id group_key member_user_ids group_name]; [done|done|exact Hm| |]|].
    + set (r' := mk_group _ _ _ _ _ _). change (group_rank r') with (update_rank u). split; [by eapply rank_ge_trans; [apply Hge|]|].
      intros v [Hv| ->%list_elem_of_singleton]%elem_of_app; [|apply rank_ge_refl]. by eapply rank_ge_trans; [apply Hge|apply A2].
    + right. exists u. split_and!; [apply elem_of_app; right; by left|done| |done].
      apply not_false_is_true. intros Hf. fold (rank_ge (group_rank g) (update_rank u)) in Hf.
      pose proof (rank_ge_trans _ _ _ A1 Hf) as Hx. unfold rank_ge in Hx. congruence.
    + apply validate_group_ok. cbn. split_and!; [done..|by right].
  - split; [split; cbn [group_id group_key member_user_ids group_name]; [done|done|exact Hm| |]|].
    + set (r' := mk_group _ _ _ _ _ _). change (group_rank r') with (group_rank r). split; [done|].
      intros v [Hv| ->%list_elem_of_singleton]%elem_of_app; [by apply A2|exact Hw].
    + destruct N as [?|(v & Hv & ?)]; [by left|right]. exists v. split; [|done]. apply elem_of_app. by left.
    + apply validate_group_ok. cbn. done.
Qed.

Lemma updates_ok_prefix g us u : updates_ok g (us ++ [u]) -> updates_ok g us.
Proof.
  intros [Hg Hcan Hval Hsize]. split; [done|done|by apply Forall_app in Hval as [? _]|].
  etransitivity; [|exact Hsize]. apply canonical_length. intros x. unfold all_members. rewrite bind_app, !elem_of_app. tauto.
Qed.

Lemma receive_updates_merged g us : updates_ok g us -> merged g us (receive_updates g us) /\ validate_group (receive_updates g us) = Ok tt.
Proof.
  induction us as [|u us IH] using rev_ind; intros Hok.
  - split; [|apply Hok]. split; cbn; try done; [|split; [apply rank_ge_refl|by intros u ?%not_elem_of_nil]|by left].
    unfold all_members. cbn. rewrite app_nil_r. symmetry. apply Hok.
  - destruct (IH (updates_ok_prefix _ _ _ Hok)) as [Hm Hv]. unfold receive_updates. rewrite fold_left_app. cbn [fold_left].
    by apply receive_update_merged.
Qed.

(** C37: a group converges.  Take members that hold one group and see the same valid updates, each authored by a
    member of that group, the members together within the size limit, in whatever order and however often.  They
    agree on the members - all that the group and the updates list, so that none is ever lost - and on the
    rank, which is the greatest seen: who changed the group last, and at which revision.  The name each holds is the group's own
    or one that an update of that very rank carries; so where the updates of that rank carry one name they agree on the name,
    and hold one and the same group.  (Where updates of the winning rank carry different names, the name is the one that arrived first.) *)
Theorem group_updates_converge g us us' :
  updates_ok g us -> (forall u, u ∈ us <-> u ∈ us') ->
  let r := receive_updates g us in
  let r' := receive_updates g us' in
  same_but_name r r'
  /\ member_user_ids r = canonicalize_members (all_members g us)
  /\ (forall u, u ∈ us -> rank_ge (group_rank r) (update_rank u))
  /\ (group_name r = group_name g \/ exists u, u ∈ us /\ update_rank u = group_rank r /\ gu_name u = group_name r)
  /\ (rank_names (group_rank r) us -> r = r').
Proof.
  intros Hok He r r'. destruct (receive_updates_merged g us Hok) as [Hm _].
  assert (updates_ok g us') as Hok'.
  { destruct Hok as [Hg Hcan Hval Hsize]. split; [done|done| |].
    - apply Forall_forall. intros u Hu. apply He in Hu. by eapply Forall_forall in Hval.
    - etransitivity; [|exact Hsize]. apply canonical_length. intros x. unfold all_members. rewrite !elem_of_app, !list_elem_of_bind.
      setoid_rewrite He. tauto. }
  destruct (receive_updates_merged g us' Hok') as [Hm' _]. eapply (merged_ext g us' us) in Hm'; [|intros u; by rewrite He].
  pose proof (merged_same _ _ _ _ Hm Hm') as Hs. split_and!; [done|apply Hm|apply Hm| |].
  - destruct (md_name _ _ _ Hm) as [[_ ?]|(u & Hu & Hk & _ & Hn)]; [by left|right]. by exists u.
  - intros Hn. apply same_but_name_eq; [done|]. by eapply merged_name.
Qed.

(** * The wire *)

Lemma validate_user_id_ok id : validate_user_id id = Ok tt <-> blen id = USER_ID_LEN.
Proof. unfold validate_user_id. by rewrite ensure_ok, Z.eqb_eq. Qed.

Lemma parses_user_id id r : blen id = USER_ID_LEN -> parses take_user_id (write_bytes16 id ++ r) id r.
Proof.
  intros Hl. unfold take_user_id. eapply parses_bind; [apply parses_bytes16; rewrite Hl; done|].
  eapply parses_bind; [apply parses_lift; by apply validate_user_id_ok|]. apply parses_ret.
Qed.

Lemma parses_name name r : utf8_valid name = true -> validate_group_name name = Ok tt -> parses take_name (write_bytes16 name ++ r) name r.
Proof.
  intros Hu Hv. unfold take_name. eapply parses_bind; [apply parses_bytes16|].
  { unfold validate_group_name in Hv. inv_ok. bools. unfold MAX_GROUP_NAME_BYTES in *. ints. }
  eapply parses_bind; [by apply parses_guard|]. eapply parses_bind; [by apply parses_lift|]. apply parses_ret.
Qed.

Lemma parses_members ids r : validate_member_user_ids ids = Ok tt -> parses take_members (member_bytes ids ++ r) ids r.
Proof.
  intros [Hl Hok]%validate_members_ok. unfold take_members, member_bytes. pose proof (blen_nonneg ids). unfold MAX_GROUP_MEMBERS in *.
  rewrite <- app_assoc. eapply parses_bind; [apply parses_u16; ints|].
  eapply parses_bind; [apply parses_guard; apply Z.leb_le; unfold MAX_GROUP_MEMBERS; lia|].
  apply parses_counted. intros id r' Hin. apply parses_user_id. by eapply Forall_forall in Hok.
Qed.

Lemma canonical_idem ids : canonicalize_members (canonicalize_members ids) = canonicalize_members ids.
Proof. apply canonical_eq. apply canonical_elem. Qed.

Lemma canonical_valid ids : validate_member_user_ids ids = Ok tt -> validate_member_user_ids (canonicalize_members ids) = Ok tt.
Proof.
  rewrite !validate_members_ok, canonical_ids_ok. intros [Hl Hok]. split; [|done]. etransitivity; [|exact Hl].
  unfold blen. enough (length (canonicalize_members ids) <= length ids)%nat by lia.
  apply submseteq_length, NoDup_submseteq; [apply canonical_nodup|]. intros x. by rewrite canonical_elem.
Qed.

(** What decodes as an invite is a valid group. *)
Lemma invite_valid bs g : decode_group_invite_content bs = Ok g -> validate_group g = Ok tt.
Proof.
  intros (c & H)%run_inv. unfold read_invite in H. do 5 (apply bind_inv in H as (? & ? & _ & H)).
  apply bind_inv in H as ([] & ? & [Hv _]%lift_inv & H). injection H as <- _. exact Hv.
Qed.

Lemma group_invite_reads_back g bs :
  utf8_valid (group_name g) = true -> encode_group_invite_content g = Ok bs ->
  decode_group_invite_content bs
  = Ok (mk_group (group_id g) (group_name g) (canonicalize_members (member_user_ids g)) (group_key g) 0 []).
Proof.
  intros Hg He. unfold encode_group_invite_content in He. inv_ok. destruct a.
  pose proof (proj1 (validate_group_ok g) Ha) as (V1 & V2 & V3%canonical_valid & V4 & V5).
  unfold validate_group_id in V1. rewrite ensure_ok, Z.eqb_eq in V1.
  eapply parses_run with (r := []). unfold read_invite. parse_step; [done|]. parse_step; [done|].
  eapply parses_bind; [by apply parses_name|]. rewrite <- (app_nil_r (member_bytes _)). eapply parses_bind; [by apply parses_members|].
  parse_step. rewrite canonical_idem. eapply parses_bind; [apply parses_lift|apply parses_ret].
  apply validate_group_ok. cbn. unfold validate_group_id. rewrite ensure_ok, Z.eqb_eq. split_and!; [done..|by left].
Qed.

Lemma group_update_reads_back u bs :
  utf8_valid (gu_name u) = true -> in_u64 (gu_revision u) -> encode_group_metadata_update u = Ok bs ->
  decode_group_metadata_update bs
  = Ok (mk_update (gu_group_id u) (gu_name u) (gu_revision u) (gu_changed_by u) (canonicalize_members (gu_member_user_ids u))).
Proof.
  intros Hu Hr He. unfold encode_group_metadata_update in He. inv_ok. destruct a.
  pose proof (proj1 (validate_update_ok u) Ha) as (V1 & V2 & V3 & V4 & V5%canonical_valid).
  unfold validate_group_id in V1. rewrite ensure_ok, Z.eqb_eq in V1.
  eapply parses_run with (r := []). unfold read_update. parse_step; [done|]. parse_step; [done|]. parse_step; [done|]. parse_step; [done|].
  eapply parses_bind; [apply parses_user_id; by apply validate_user_id_ok|]. eapply parses_bind; [by apply parses_name|].
  rewrite <- (app_nil_r (member_bytes _)). eapply parses_bind; [by apply parses_members|].
  parse_step. rewrite canonical_idem. eapply parses_bind; [apply parses_lift|apply parses_ret].
  apply validate_update_ok. cbn. unfold validate_group_id. rewrite ensure_ok, Z.eqb_eq. done.
Qed.

(** A group invite and a metadata update that encode read back, with the members in
    their canonical order; of an invite the metadata rank starts over. *)
Theorem group_wire_roundtrip g u :
  utf8_valid (group_name g) = true -> utf8_valid (gu_name u) = true -> in_u64 (gu_revision u) ->
  (forall bs, encode_group_invite_content g = Ok bs ->
     decode_group_invite_content bs
     = Ok (mk_group (group_id g) (group_name g) (canonicalize_members (member_user_ids g)) (group_key g) 0 []))
  /\ (forall bs, encode_group_metadata_update u = Ok bs ->
        decode_group_metadata_update bs
        = Ok (mk_update (gu_group_id u) (gu_name u) (gu_revision u) (gu_changed_by u) (canonicalize_members (gu_member_user_ids u)))).
Proof. intros Hg Hu Hr. split; intros bs He; [by apply group_invite_reads_back|by apply group_update_reads_back]. Qed.

(** * Group mail *)

Section mail.
Context `{C : Crypto} `{S : SealCrypto}.

(** A group message that is sealed opens in the group. *)
Lemma group_seal_opens `{!SealLaws C S} sender g payload version nonce sealed :
  identity_ok sender -> blen nonce = GROUP_NONCE_LEN ->
  (version = GROUP_ENVELOPE_VERSION_LEGACY /\ sealable Legacy payload
   \/ version = GROUP_ENVELOPE_VERSION_BOUND /\ sealable (BoundGroup (group_id g)) payload) ->
  seal_group_message_as_version sender g payload version nonce = Ok sealed ->
  open_group_message g sealed = Ok (mk_opened (derive_user_id (id_sign_pk sender)) payload).
Proof.
  intros Hid Hn Hv Hseal. unfold seal_group_message_as_version in Hseal.
  apply result_bind_ok in Hseal as ([] & Hg & Hseal). apply result_bind_ok in Hseal as (b & Hb & Hseal).
  apply result_bind_ok in Hseal as (k & Hk & Hseal). apply result_bind_ok in Hseal as (padded & Hp & Hseal).
  apply result_bind_ok in Hseal as (ct & Hct%option_ok_ok & Hseal). apply Ok_inj in Hseal as <-.
  change (push_u8 version) with [byte_of_Z version]. unfold GROUP_NONCE_LEN in Hn.
  assert (be_value [byte_of_Z version] = version /\ (version =? GROUP_ENVELOPE_VERSION_LEGACY) || (version =? GROUP_ENVELOPE_VERSION_BOUND) = true
    /\ (if version =? GROUP_ENVELOPE_VERSION_BOUND then BoundGroup (group_id g) else Legacy) = b /\ sealable b payload) as (H1 & H2 & H3 & H4)
    by (destruct Hv as [[-> Hs]|[-> Hs]]; apply Ok_inj in Hb as <-; done).
  unfold open_group_message. rewrite Hg. cbn [mbind result_bind].
  rewrite (proj2 (Z.leb_le _ _)) by (unfold GROUP_NONCE_LEN; pose proof (blen_nonneg ct); lens).
  cbn [ensure mbind result_bind]. cbn [app take drop]. rewrite take_0, drop_0, H1, H2. cbn [ensure mbind result_bind].
  rewrite (take_app_length' _ _ 24), (drop_app_length' _ _ 24) by (unfold blen in Hn; lia).
  rewrite Hk. cbn [mbind result_bind]. rewrite (aead_roundtrip _ _ _ _ Hct), H3. cbn [option_ok mbind result_bind].
  by eapply sign_and_pad_opens.
Qed.

(** A group message that opens as somebody's was written by them, and when its
    envelope is of version 2, for this very group; whoever holds the group's key can
    seal one, but not in another's name. *)
Theorem group_mail_was_written pk written g sealed opened :
  signed_only pk written -> sole_key pk -> bare_plain written ->
  open_group_message g sealed = Ok opened -> om_sender_user_id opened = derive_user_id pk ->
  let version := be_value (take 1 sealed) in
  version = GROUP_ENVELOPE_VERSION_BOUND /\ (BoundGroup (group_id g), om_payload opened) ∈ written
  \/ version = GROUP_ENVELOPE_VERSION_LEGACY /\ (Legacy, om_payload opened) ∈ written.
Proof.
  intros Hsig Hsole Hplain Hop Hid version. unfold open_group_message in Hop.
  apply result_bind_ok in Hop as (u & _ & Hop). apply result_bind_ok in Hop as (u1 & _ & Hop). cbv zeta in Hop. fold version in Hop.
  apply result_bind_ok in Hop as (u' & Hver & Hop). inv_ok.
  pose proof (opened_was_written _ _ _ _ _ Hsig Hsole Hplain Hop Hid) as Hw.
  destruct (version =? GROUP_ENVELOPE_VERSION_BOUND) eqn:Ev; [left; split; [by apply Z.eqb_eq|done]|].
  right. rewrite orb_false_r in Hver. split; [by apply Z.eqb_eq|done].
Qed.

End mail.

(** * Witnesses *)

Definition toy_user (b : byte) : bytes := replicate 16 b.
Definition toy_group : Group :=
  mk_group (replicate 16 x11) [x46; x61; x6d] [toy_user x01; toy_user x02] (replicate 32 x22) 0 [].
Definition toy_update (by_ : byte) (revision : Z) (name : byte) (adds : list byte) : GroupMetadataUpdate :=
  mk_update (replicate 16 x11) [name] revision (toy_user by_) (toy_user <$> adds).

(** Two members rename at once and each adds somebody. *)
Lemma group_updates_converge_witness :
  let u := toy_update x01 1 x41 [x01; x02; x03] in
  let v := toy_update x02 1 x42 [x01; x02; x04] in
  receive_updates toy_group [u; v] = receive_updates toy_group [v; u; v]
  /\ group_name (receive_updates toy_group [u; v]) = [x42]
  /\ member_user_ids (receive_updates toy_group [u; v]) = [toy_user x01; toy_user x02; toy_user x03; toy_user x04].
Proof.
  intros u v. split; [|split; vm_compute; reflexivity].
  destruct (group_updates_converge toy_group [u; v] [v; u; v]) as (_ & _ & _ & _ & H); [..|apply H].
  - split; [vm_compute; reflexivity|vm_compute; reflexivity| |vm_compute; discriminate].
    repeat constructor; try (vm_compute; reflexivity); apply bool_decide_eq_true; vm_compute; reflexivity.
  - intros x. rewrite !elem_of_cons. tauto.
  - assert (forall x, x ∈ [u; v] -> update_rank x = group_rank (receive_updates toy_group [u; v]) -> x = v) as Hv.
    { intros x [->|Hx%list_elem_of_singleton]%elem_of_cons He; [vm_compute in He; discriminate He|exact Hx]. }
    intros x y Hx Hy He He'. rewrite (Hv x Hx He), (Hv y Hy He'). reflexivity.
Defined.

(** Two updates of one rank with different names, such as two devices of one member make
    of the same group: the one that arrives first stays. *)
Lemma equal_rank_diverges :
  let u := toy_update x01 1 x41 [x01; x02] in
  let v := toy_update x01 1 x42 [x01; x02] in
  updates_ok toy_group [u; v] /\ update_rank u = update_rank v
  /\ group_name (receive_updates toy_group [u; v]) = [x41] /\ group_name (receive_updates toy_group [v; u]) = [x42].
Proof.
  intros u v. split; [|split_and!; vm_compute; reflexivity].
  split; [vm_compute; reflexivity|vm_compute; reflexivity| |vm_compute; discriminate].
  repeat constructor; try (vm_compute; reflexivity); apply bool_decide_eq_true; vm_compute; reflexivity.
Qed.

Lemma group_wire_roundtrip_witness :
  exists bs, encode_group_invite_content toy_group = Ok bs /\ decode_group_invite_content bs = Ok toy_group.
Proof.
  destruct (group_wire_roundtrip toy_group (toy_update x01 1 x41 [x01])) as [H _];
    [vm_compute; reflexivity|vm_compute; reflexivity|vm_compute; split; discriminate|].
  destruct (encode_group_invite_content toy_group) as [bs|e] eqn:He; [|vm_compute in He; discriminate].
  exists bs. split; [reflexivity|]. rewrite (H bs eq_refl). vm_compute. reflexivity.
Defined.

Definition group_body : bodies := [(BoundGroup (replicate 16 x11), [x07])].

Definition group_body_crypto : Crypto := {|
  blake2b _ bs := bs;
  ed25519_key_ok _ := true;
  ed25519_verify pk m _ := bool_decide (transcript (BoundGroup (replicate 16 x11)) pk [x07] = Ok m);
|}.

Lemma group_mail_was_written_witness :
  exists sealed,
    seal_group_message_as_version (S := toy_seal) toy_identity toy_group [x07] 2 (replicate 24 x00) = Ok sealed
    /\ (be_value (take 1 sealed) = GROUP_ENVELOPE_VERSION_BOUND /\ (BoundGroup (replicate 16 x11), [x07]) ∈ group_body
        \/ be_value (take 1 sealed) = GROUP_ENVELOPE_VERSION_LEGACY /\ (Legacy, [x07]) ∈ group_body).
Proof.
  destruct (seal_group_message_as_version (S := toy_seal) toy_identity toy_group [x07] 2 (replicate 24 x00))
    as [sealed|e] eqn:He; [|vm_compute in He; discriminate].
  exists sealed. split; [reflexivity|].
  apply (group_mail_was_written (C := group_body_crypto) (S := toy_seal) (replicate 32 x01) group_body toy_group sealed
           (mk_opened (replicate 32 x01) [x07])).
  - intros m sig Hv. apply bool_decide_eq_true in Hv. exists (BoundGroup (replicate 16 x11)), [x07]. split; [left|exact Hv].
  - intros pk' Hpk. exact Hpk.
  - intros p Hp. exfalso. apply list_elem_of_singleton in Hp. discriminate Hp.
  - apply Ok_inj in He. subst sealed. vm_compute. reflexivity.
  - reflexivity.
Defined.
