(* ===== verification/Timeline.v ===== *)
(** The order of a conversation on screen ([core/src/causal_order.rs] and
    [core/src/late_arrival.rs]): the display time of what this device writes, and which
    arrivals are marked as late.

    [late_arrival_spec] shows that the one backward pass marks exactly the messages that
    its documentation describes; [causal_display_spec] gives the display time on every
    branch, and that it stays an [i64]. *)
From stdpp Require Import base numbers list.
From S2P Require Import Prelude.

(** * Display times *)

Definition CAUSAL_ORDER_MAX_SKEW_MS : Z := 24 * 60 * 60 * 1000.

Definition causal_display_timestamp (newest_in_chat_ms : option Z) (now_ms : Z) : Z :=
  match newest_in_chat_ms with
  | None => now_ms
  | Some newest =>
      if newest <? now_ms then now_ms
      else if CAUSAL_ORDER_MAX_SKEW_MS <? i64_saturating_sub newest now_ms then now_ms
      else i64_saturating_add newest 1
  end.

(** A new message sorts strictly below the newest one, unless that one is stamped more
    than the tolerated skew ahead or at the end of time; and our own clock is kept
    wherever it does already. *)
Lemma causal_display_spec newest now :
  in_i64 now -> (forall n, newest = Some n -> in_i64 n) ->
  let t := causal_display_timestamp newest now in
  in_i64 t /\ now <= t
  /\ (forall n, newest = Some n -> n <= now + CAUSAL_ORDER_MAX_SKEW_MS -> n < I64_MAX -> n < t)
  /\ ((forall n, newest = Some n -> n < now \/ now + CAUSAL_ORDER_MAX_SKEW_MS < n) -> t = now)
  /\ t <= now + CAUSAL_ORDER_MAX_SKEW_MS + 1.
Proof.
  intros Hnow Hn t. unfold t, causal_display_timestamp, CAUSAL_ORDER_MAX_SKEW_MS. destruct newest as [n|].
  - specialize (Hn n eq_refl).
    destruct (n <? now) eqn:E1; [apply Z.ltb_lt in E1|apply Z.ltb_ge in E1; destruct (_ <? _) eqn:E2;
      [apply Z.ltb_lt in E2|apply Z.ltb_ge in E2]]; split_and!; try (intros ? [= <-]); ints ||
      (intros H; destruct (H n eq_refl); ints).
  - split_and!; try (intros ? [=]); ints || done.
Qed.

(** * Late arrivals *)

Definition LATE_ARRIVAL_MIN_DELAY_MS : Z := 10 * 60 * 1000.

Record LateArrivalInput : Type := mk_late {
  la_display_ts_ms : Z;
  la_arrival_ts_ms : option Z;
  la_is_own : bool;
}.

Definition effective (row : LateArrivalInput) : Z := default (la_display_ts_ms row) (la_arrival_ts_ms row).

(** The body of the backward pass: the flags of the rows below, the least effective
    arrival among them, and this row. *)
Definition late_step (row : LateArrivalInput) (acc : list bool * option Z) : list bool * option Z :=
  let '(flags, min_below) := acc in
  let flag := match la_is_own row, la_arrival_ts_ms row, min_below with
              | false, Some arrival, Some below =>
                  (LATE_ARRIVAL_MIN_DELAY_MS <=? i64_saturating_sub arrival (la_display_ts_ms row)) && (below <? arrival)
              | _, _, _ => false
              end in
  (flag :: flags, Some (match min_below with Some current => Z.min current (effective row) | None => effective row end)).

Definition late_arrival_flags (rows : list LateArrivalInput) : list bool := (foldr late_step ([], None) rows).1.

(** Not our own, with a recorded arrival, at least the delay behind its sending, and
    something shown below it was here first. *)
Definition displaced (rows : list LateArrivalInput) (i : nat) (row : LateArrivalInput) : Prop :=
  la_is_own row = false /\ exists arrival, la_arrival_ts_ms row = Some arrival
    /\ LATE_ARRIVAL_MIN_DELAY_MS <= i64_saturating_sub arrival (la_display_ts_ms row)
    /\ exists j below, (i < j)%nat /\ rows !! j = Some below /\ effective below < arrival.

(** The value the pass carries is the least effective arrival of the rows below. *)
Lemma min_below_spec rows m : (foldr late_step ([], None) rows).2 = m ->
  match m with
  | None => rows = []
  | Some least => (exists row, row ∈ rows /\ effective row = least) /\ Forall (fun row => least <= effective row) rows
  end.
Proof.
  intros <-. induction rows as [|row rows IH]; [done|]. cbn [foldr]. destruct (foldr late_step ([], None) rows) as [flags [least|]].
  - cbn [late_step snd] in *. destruct IH as [(r & Hr & Hl) Hall]. split.
    + destruct (Z.min_spec least (effective row)) as [[_ ->]|[_ ->]]; [exists r; split; [by right|done]|exists row; split; [by left|done]].
    + constructor; [lia|]. eapply Forall_impl; [exact Hall|]. intros x Hx. cbn in Hx. lia.
  - cbn [late_step snd] in *. rewrite IH. split; [exists row; split; [by left|done]|]. repeat constructor. lia.
Qed.

Lemma late_arrival_length rows : length (late_arrival_flags rows) = length rows.
Proof.
  unfold late_arrival_flags. induction rows as [|row rows IH]; [done|]. cbn [foldr].
  destruct (foldr late_step ([], None) rows). cbn in *. by rewrite IH.
Qed.

(** The single backward pass marks exactly the displaced messages: one flag per row,
    set if and only if the row is somebody else's, has a recorded arrival, arrived at
    least ten minutes after it was sent, and a row shown below it was already here. *)
Theorem late_arrival_spec rows i row :
  rows !! i = Some row ->
  exists flag, late_arrival_flags rows !! i = Some flag /\ (flag = true <-> displaced rows i row).
Proof.
  revert i. unfold late_arrival_flags. induction rows as [|r rows IH]; intros i Hi; [by rewrite lookup_nil in Hi|].
  cbn [foldr]. destruct (foldr late_step ([], None) rows) as [flags m] eqn:Hf.
  pose proof (min_below_spec rows m) as Hm. rewrite Hf in Hm. specialize (Hm eq_refl).
  destruct i as [|i]; cbn [lookup list_lookup] in *.
  - injection Hi as ->. eexists. split; [reflexivity|]. unfold displaced.
    destruct (la_is_own row); [naive_solver|]. destruct (la_arrival_ts_ms row) as [arrival|]; [|naive_solver].
    destruct m as [least|].
    + rewrite andb_true_iff, Z.leb_le, Z.ltb_lt. destruct Hm as [(w & Hw & Hl) Hall]. split.
      * intros [Hd Hlt]. split; [done|]. exists arrival. split_and!; [done|done|].
        apply list_elem_of_lookup in Hw as [j Hj]. exists (S j), w. cbn. split_and!; [lia|done|lia].
      * intros (_ & a & [= <-] & Hd & j & w' & Hj & Hjw & Hlt). split; [done|]. destruct j as [|j]; [lia|]. cbn in Hjw.
        eapply Forall_lookup_1 in Hall; [|exact Hjw]. cbn in Hall. lia.
    + subst rows. split; [done|]. intros (_ & a & _ & _ & j & w & Hj & Hjw & _). destruct j as [|j]; [lia|]. by cbn in Hjw.
  - cbn [late_step fst]. destruct (IH i Hi) as (flag & Hfl & Hiff). exists flag. split; [exact Hfl|]. rewrite Hiff. unfold displaced.
    split; intros (Ho & a & Ha & Hd & j & w & Hj & Hw & Hlt); (split; [done|]); exists a; (split; [done|]); (split; [done|]).
    + exists (S j), w. cbn. split_and!; [lia|done|done].
    + destruct j as [|j]; [lia|]. exists j, w. cbn in Hw. split_and!; [lia|done|done].
Qed.

(** The field case: carried for three hours, above two replies of ours. *)
Lemma late_arrival_spec_witness :
  let rows := [mk_late 0 None true; mk_late 60000 (Some 10800000) false; mk_late 1800000 None true; mk_late 2700000 None true] in
  late_arrival_flags rows = [false; true; false; false]
  /\ exists flag, late_arrival_flags rows !! 1%nat = Some flag
       /\ (flag = true <-> displaced rows 1 (mk_late 60000 (Some 10800000) false)).
Proof. intros rows. split; [vm_compute; reflexivity|]. apply late_arrival_spec. reflexivity. Defined.
