(* ===== verification/SyncRecords.v ===== *)
(** The records a person's own devices exchange ([core/src/sync_record.rs], with the
    domain-separated device signatures of [device_roster.rs]): their codec, the six
    payload codecs, signing, sealing to the person's inbox key, the gate an opened record
    passes, and the announcement of a key rotation, which is sealed to one device.

    [sync_payloads_roundtrip] shows that what the encoders write the decoders read back;
    [sealed_record_opens] that a record signed and sealed by a listed device is admitted
    by a sibling; [admitted_record_authentic] that whatever is admitted was signed, field
    for field, by an active device of the person; [handoff_speaker] that only a device
    vouched for by the person root or by the roster already held can announce a rotation,
    and only a rotation. *)
From stdpp Require Import base numbers list strings.
From S2P Require Import Prelude StdModel Wire Framing Crypto RosterCodec Roster Message Hints SyncStream SyncStore Sealing Groups.

Definition SYNC_RECORD_VERSION : Z := 1.
Definition SYNC_RECORD_MAX_PAYLOAD_BYTES : Z := MAX_ENVELOPE_SEALED_BYTES - 1024.
Definition SYNC_RECORD_MAX_ENTRIES : Z := 4096.
Definition SYNC_RECORD_ID_DOMAIN : bytes := domain "CruiseMesh sync record id v1".

Definition MESSAGE_AUTHORING_SIGN_DOMAIN : bytes := domain "CruiseMesh device message authoring v1".
Definition SYNC_RECORD_SIGN_DOMAIN : bytes := domain "CruiseMesh device sync record v1".
Definition DEVICE_LINK_ACTIVATION_SIGN_DOMAIN : bytes := domain "CruiseMesh device link activation v1".
Definition DEVICE_LINK_BOOTSTRAP_SIGN_DOMAIN : bytes := domain "CruiseMesh device link bootstrap v1".
Definition LAN_OWN_DEVICE_PROOF_SIGN_DOMAIN : bytes := domain "CruiseMesh LAN own device proof v1".

(** * Device keys and signatures *)

Inductive DeviceSigningDomain : Type :=
| DomainDeviceCert | DomainRosterUpdate | DomainMessageAuthoring | DomainSyncRecord
| DomainDeviceLinkActivation | DomainDeviceLinkBootstrap | DomainLanOwnDeviceProof.

Definition domain_separator (d : DeviceSigningDomain) : bytes :=
  match d with
  | DomainDeviceCert => DEVICE_CERT_SIGN_DOMAIN
  | DomainRosterUpdate => ROSTER_SIGN_DOMAIN
  | DomainMessageAuthoring => MESSAGE_AUTHORING_SIGN_DOMAIN
  | DomainSyncRecord => SYNC_RECORD_SIGN_DOMAIN
  | DomainDeviceLinkActivation => DEVICE_LINK_ACTIVATION_SIGN_DOMAIN
  | DomainDeviceLinkBootstrap => DEVICE_LINK_BOOTSTRAP_SIGN_DOMAIN
  | DomainLanOwnDeviceProof => LAN_OWN_DEVICE_PROOF_SIGN_DOMAIN
  end.

Definition domain_signed_bytes (d : DeviceSigningDomain) (message : bytes) : bytes :=
  domain_separator d ++ push_len_prefixed message.

Record DeviceKeypair : Type := mk_device {
  dk_device_id : bytes;
  dk_sign_pk : bytes;
  dk_sign_sk : bytes;
  dk_agree_pk : bytes;
  dk_agree_sk : bytes;
}.

(** * Payloads *)

Record InboxKey : Type := mk_inbox { ik_generation : Z; ik_agree_pk : bytes; ik_agree_sk : bytes }.

Inductive SyncHistoryDirection : Type := HistoryAuthored | HistoryReceived.

Definition history_direction_wire (d : SyncHistoryDirection) : Z :=
  match d with HistoryAuthored => 1 | HistoryReceived => 2 end.

Definition history_direction_of (wire : Z) : result CoreError SyncHistoryDirection :=
  if wire =? 1 then Ok HistoryAuthored else if wire =? 2 then Ok HistoryReceived
  else Err (Malformed "unknown sync history direction").

Record SyncHistoryEntry : Type := mk_history {
  he_origin_msg_id : bytes;
  he_direction : SyncHistoryDirection;
  he_sender_person_id : bytes;
  he_sender_device_id : bytes;
  he_body : bytes;
}.

Record SyncWatermarkEntry : Type := mk_watermark {
  we_chat_id : bytes;
  we_subject_person_id : bytes;
  we_delivered_through_lamport : Z;
  we_read_through_lamport : Z;
}.

Record SyncContactEntry : Type := mk_contact_entry {
  cn_person_id : bytes;
  cn_card_json : bytes;
  cn_roster : option Roster;
}.

Record SyncOwnRosterPayload : Type := mk_own_roster { op_roster : Roster; op_inbox_keys : list InboxKey }.

(** ** Writers *)

Definition push_bytes16 (bs : bytes) : result CoreError bytes :=
  _ ← ensure (blen bs <=? U16_MAX) (Malformed "field is too long to encode"); Ok (write_bytes16 bs).

Definition push_bytes32 (bs : bytes) : result CoreError bytes :=
  _ ← ensure (blen bs <=? U32_MAX) (Malformed "field is too long to encode"); Ok (write_bytes32 bs).

Definition push_fixed (bs : bytes) (expected_len : Z) : result CoreError bytes :=
  _ ← ensure (blen bs =? expected_len) (Malformed "field has the wrong width"); Ok bs.

Definition payload_header (count : Z) : result CoreError bytes :=
  _ ← ensure (count <=? SYNC_RECORD_MAX_ENTRIES) (Malformed "sync payload has too many entries");
  Ok (push_u8 SYNC_RECORD_VERSION ++ be_bytes 2 count).

(** The header and the entries, written in turn. *)
Definition encode_entries {A} (encode : A -> result CoreError bytes) (entries : list A) : result CoreError bytes :=
  header ← payload_header (blen entries);
  es ← mapM encode entries;
  Ok (header ++ concat es).

Definition encode_history_entry (e : SyncHistoryEntry) : result CoreError bytes :=
  origin ← push_fixed (he_origin_msg_id e) MSG_ID_LEN;
  person ← push_bytes16 (he_sender_person_id e);
  device ← push_fixed (he_sender_device_id e) DEVICE_ID_LEN;
  body ← push_bytes32 (he_body e);
  Ok (origin ++ push_u8 (history_direction_wire (he_direction e)) ++ person ++ device ++ body).

Definition core_encode_sync_history (entries : list SyncHistoryEntry) : result CoreError bytes :=
  encode_entries encode_history_entry entries.

Definition encode_watermark_entry (e : SyncWatermarkEntry) : result CoreError bytes :=
  chat ← push_bytes16 (we_chat_id e);
  subject ← push_bytes16 (we_subject_person_id e);
  Ok (chat ++ subject ++ be_bytes 8 (we_delivered_through_lamport e) ++ be_bytes 8 (we_read_through_lamport e)).

Definition core_encode_sync_watermarks (entries : list SyncWatermarkEntry) : result CoreError bytes :=
  encode_entries encode_watermark_entry entries.

Definition encode_contact_entry (e : SyncContactEntry) : result CoreError bytes :=
  person ← push_bytes16 (cn_person_id e);
  card ← push_bytes32 (cn_card_json e);
  roster_bytes ← match cn_roster e with Some roster => core_encode_roster roster | None => Ok [] end;
  roster ← push_bytes32 roster_bytes;
  Ok (person ++ card ++ roster).

Definition core_encode_sync_contacts (entries : list SyncContactEntry) : result CoreError bytes :=
  encode_entries encode_contact_entry entries.

Definition encode_inbox_key (k : InboxKey) : result CoreError bytes :=
  pk ← push_fixed (ik_agree_pk k) KEY_LEN;
  sk ← push_fixed (ik_agree_sk k) KEY_LEN;
  Ok (be_bytes 8 (ik_generation k) ++ pk ++ sk).

Definition core_encode_sync_own_roster (p : SyncOwnRosterPayload) : result CoreError bytes :=
  header ← payload_header (blen (op_inbox_keys p));
  document ← core_encode_roster (op_roster p);
  roster ← push_bytes32 document;
  keys ← mapM encode_inbox_key (op_inbox_keys p);
  Ok (header ++ roster ++ concat keys).

Definition encode_synced_group (g : Group) : result CoreError bytes :=
  invite ← encode_group_invite_content g;
  document ← push_bytes32 invite;
  changed_by ← push_bytes16 (group_metadata_changed_by g);
  Ok (document ++ be_bytes 8 (group_metadata_revision g) ++ changed_by).

Definition core_encode_sync_groups (groups : list Group) : result CoreError bytes :=
  encode_entries encode_synced_group groups.

Definition encode_setting (e : SyncSettingEntry) : result CoreError bytes :=
  key ← push_bytes16 (se_key e);
  author ← push_fixed (se_author_device_id e) DEVICE_ID_LEN;
  value ← push_bytes32 (se_value e);
  Ok (key ++ be_bytes 8 (se_epoch e) ++ author ++ value).

Definition core_encode_sync_settings (entries : list SyncSettingEntry) : result CoreError bytes :=
  encode_entries encode_setting entries.

(** ** Readers *)

#[local] Instance payload_reader : Reader CoreError :=
  {| truncated := Malformed "truncated sync payload"; trailing := Malformed "unexpected trailing byte(s) after the sync payload" |}.

Definition take_payload_header : reader CoreError Z :=
  version ← Cursor.take_u8;
  _ ← guard_ (version =? SYNC_RECORD_VERSION) (Malformed "unsupported sync payload version");
  count ← Cursor.take_u16;
  _ ← guard_ (count <=? SYNC_RECORD_MAX_ENTRIES) (Malformed "sync payload claims too many entries");
  mret count.

Definition decode_entries {A} (entry : reader CoreError A) (bs : bytes) : result CoreError (list A) :=
  Cursor.run (count ← take_payload_header;
              entries ← Cursor.take_many (Z.to_nat count) entry;
              _ ← Cursor.finish;
              mret entries) bs.

Definition read_history_entry : reader CoreError SyncHistoryEntry :=
  origin_msg_id ← Cursor.take MSG_ID_LEN;
  wire ← Cursor.take_u8;
  direction ← lift (history_direction_of wire);
  sender_person_id ← Cursor.take_bytes16;
  sender_device_id ← Cursor.take DEVICE_ID_LEN;
  body ← Cursor.take_bytes32;
  mret (mk_history origin_msg_id direction sender_person_id sender_device_id body).

Definition core_decode_sync_history (bs : bytes) : result CoreError (list SyncHistoryEntry) := decode_entries read_history_entry bs.

Definition read_watermark_entry : reader CoreError SyncWatermarkEntry :=
  chat_id ← Cursor.take_bytes16;
  subject_person_id ← Cursor.take_bytes16;
  delivered ← Cursor.take_u64;
  read ← Cursor.take_u64;
  mret (mk_watermark chat_id subject_person_id delivered read).

Definition core_decode_sync_watermarks (bs : bytes) : result CoreError (list SyncWatermarkEntry) := decode_entries read_watermark_entry bs.

Definition read_contact_entry : reader CoreError SyncContactEntry :=
  person_id ← Cursor.take_bytes16;
  card_json ← Cursor.take_bytes32;
  _ ← guard_ (utf8_valid card_json) (Malformed "synced contact card is not UTF-8");
  roster_bytes ← Cursor.take_bytes32;
  roster ← (if bool_decide (roster_bytes = []) then mret None
            else r ← lift (core_decode_roster roster_bytes); mret (Some r));
  mret (mk_contact_entry person_id card_json roster).

Definition core_decode_sync_contacts (bs : bytes) : result CoreError (list SyncContactEntry) := decode_entries read_contact_entry bs.

Definition read_inbox_key : reader CoreError InboxKey :=
  generation ← Cursor.take_u64;
  agree_pk ← Cursor.take KEY_LEN;
  agree_sk ← Cursor.take KEY_LEN;
  mret (mk_inbox generation agree_pk agree_sk).

Definition core_decode_sync_own_roster (bs : bytes) : result CoreError SyncOwnRosterPayload :=
  Cursor.run (count ← take_payload_header;
              document ← Cursor.take_bytes32;
              roster ← lift (core_decode_roster document);
              inbox_keys ← Cursor.take_many (Z.to_nat count) read_inbox_key;
              _ ← Cursor.finish;
              mret (mk_own_roster roster inbox_keys)) bs.

Definition read_synced_group : reader CoreError Group :=
  document ← Cursor.take_bytes32;
  g ← lift (decode_group_invite_content document);
  metadata_revision ← Cursor.take_u64;
  metadata_changed_by ← Cursor.take_bytes16;
  mret (mk_group (group_id g) (group_name g) (member_user_ids g) (group_key g) metadata_revision metadata_changed_by).

Definition core_decode_sync_groups (bs : bytes) : result CoreError (list Group) := decode_entries read_synced_group bs.

Definition read_setting : reader CoreError SyncSettingEntry :=
  key ← Cursor.take_bytes16;
  _ ← guard_ (utf8_valid key) (Malformed "setting key is not UTF-8");
  epoch ← Cursor.take_u64;
  author_device_id ← Cursor.take DEVICE_ID_LEN;
  value ← Cursor.take_bytes32;
  mret (mk_setting key value epoch author_device_id).

Definition core_decode_sync_settings (bs : bytes) : result CoreError (list SyncSettingEntry) := decode_entries read_setting bs.

(** * Records *)

Definition sync_record_signed_bytes (r : SyncRecord) : result CoreError bytes :=
  _ ← ensure (blen (rc_payload r) <=? SYNC_RECORD_MAX_PAYLOAD_BYTES) (Malformed "sync record payload is over the limit");
  person ← push_bytes16 (rc_person_id r);
  author ← push_bytes16 (rc_author_device_id r);
  Ok (push_u8 SYNC_RECORD_VERSION ++ push_u8 (core_sync_record_kind_wire (rc_kind r)) ++ person ++ author
      ++ be_bytes 8 (v_recovery_epoch (rc_roster_version r)) ++ be_bytes 8 (v_seq (rc_roster_version r))
      ++ be_bytes 8 (rc_inbox_key_generation r) ++ be_bytes 8 (rc_stream_seq r) ++ be_bytes 8 (rc_timestamp_ms r)
      ++ write_bytes32 (rc_payload r)).

Definition core_encode_sync_record (r : SyncRecord) : result CoreError bytes :=
  out ← sync_record_signed_bytes r;
  sig ← push_bytes16 (rc_signature r);
  Ok (out ++ sig).

Definition read_sync_record : reader CoreError SyncRecord :=
  version ← Cursor.take_u8;
  _ ← guard_ (version =? SYNC_RECORD_VERSION) (Malformed "unsupported sync record version");
  wire_kind ← Cursor.take_u8;
  kind ← lift (option_ok (core_sync_record_kind_of wire_kind) (Malformed "unknown sync record kind"));
  person_id ← Cursor.take_bytes16;
  author_device_id ← Cursor.take_bytes16;
  recovery_epoch ← Cursor.take_u64;
  seq ← Cursor.take_u64;
  inbox_key_generation ← Cursor.take_u64;
  stream_seq ← Cursor.take_u64;
  timestamp_ms ← Cursor.take_i64;
  payload ← Cursor.take_bytes32;
  _ ← guard_ (blen payload <=? SYNC_RECORD_MAX_PAYLOAD_BYTES) (Malformed "sync record payload is over the limit");
  signature ← Cursor.take_bytes16;
  _ ← Cursor.finish;
  mret (mk_record kind person_id author_device_id (mk_version recovery_epoch seq) inbox_key_generation stream_seq
          timestamp_ms payload signature).

Definition core_decode_sync_record (bs : bytes) : result CoreError SyncRecord := Cursor.run read_sync_record bs.

Inductive SyncRecordRejection : Type :=
| ForeignPerson | StaleInboxKey | LegacyAuthorDevice | RevokedAuthorDevice | UnknownAuthorDevice
| RecordSignatureInvalid | NotARotationHandoff.

Definition sync_rejection_error (rejection : SyncRecordRejection) : CoreError :=
  match rejection with
  | RecordSignatureInvalid => SignatureInvalid
  | ForeignPerson => Wire.Crypto "sync record names another person"
  | StaleInboxKey => Wire.Crypto "sync record is sealed under a superseded inbox key"
  | LegacyAuthorDevice => Wire.Crypto "sync record claims the legacy device stream"
  | RevokedAuthorDevice => Wire.Crypto "sync record is authored by a revoked device"
  | UnknownAuthorDevice => Wire.Crypto "sync record is authored by an unknown device"
  | NotARotationHandoff => Wire.Crypto "only an own-roster record may ride the rotation handoff channel"
  end.

Section records.
Context `{C : Crypto} `{S : SealCrypto}.

Definition core_device_sign (d : DeviceSigningDomain) (device_sign_sk message : bytes) : result CoreError bytes :=
  signing_key ← key32 device_sign_sk;
  Ok (ed25519_sign signing_key (domain_signed_bytes d message)).

Definition core_device_verify (d : DeviceSigningDomain) (device_sign_pk message sig : bytes) : result CoreError unit :=
  verify_raw device_sign_pk (domain_signed_bytes d message) sig.

Definition core_derive_device_id (device_sign_pk : bytes) : result CoreError bytes :=
  _ ← ensure (blen device_sign_pk =? KEY_LEN) (key_len_err KEY_LEN (blen device_sign_pk));
  Ok (derive_user_id device_sign_pk).

(** [agree_sk] is what [OsRng] drew. *)
Definition core_mint_inbox_key (generation : Z) (agree_sk : bytes) : InboxKey :=
  mk_inbox generation (x25519_public agree_sk) agree_sk.

Definition core_rotate_inbox_key (current : InboxKey) (agree_sk : bytes) : InboxKey :=
  core_mint_inbox_key (u64_saturating_add (ik_generation current) 1) agree_sk.

Definition inbox_key_is_consistent (key : InboxKey) : bool :=
  (blen (ik_agree_sk key) =? KEY_LEN) && bool_decide (x25519_public (ik_agree_sk key) = ik_agree_pk key).

Definition with_author (r : SyncRecord) (author sig : bytes) : SyncRecord :=
  mk_record (rc_kind r) (rc_person_id r) author (rc_roster_version r) (rc_inbox_key_generation r) (rc_stream_seq r)
    (rc_timestamp_ms r) (rc_payload r) sig.

Definition core_sign_sync_record (r : SyncRecord) (author_device_sign_sk : bytes) : result CoreError SyncRecord :=
  signing_key ← key32 author_device_sign_sk;
  device_id ← core_derive_device_id (ed25519_public signing_key);
  _ ← ensure (negb (bool_decide (device_id = LEGACY_DEVICE_ID))) (Malformed "a sync record cannot be authored on the legacy device stream");
  let r := with_author r device_id (rc_signature r) in
  signed ← sync_record_signed_bytes r;
  sig ← core_device_sign DomainSyncRecord author_device_sign_sk signed;
  Ok (with_author r device_id sig).

Definition core_verify_sync_record (r : SyncRecord) (author_device_sign_pk : bytes) : result CoreError unit :=
  signed ← sync_record_signed_bytes r;
  core_device_verify DomainSyncRecord author_device_sign_pk signed (rc_signature r).

Definition core_device_sync_identity (device : DeviceKeypair) : Identity :=
  mk_identity (dk_device_id device) (dk_sign_pk device) (dk_sign_sk device) (dk_agree_pk device) (dk_agree_sk device).

Definition core_seal_sync_record (r : SyncRecord) (author : Identity) (inbox_key : InboxKey) (ephemeral_sk nonce : bytes)
  : result CoreError SealedSyncRecord :=
  _ ← ensure (bool_decide (rc_person_id r = id_user_id author) || bool_decide (rc_author_device_id r = id_user_id author))
        (Wire.Crypto "a sync record is sealed either by the person it names or by the device that authored it");
  _ ← ensure (rc_inbox_key_generation r =? ik_generation inbox_key) (Wire.Crypto "sync record is for another inbox key generation");
  _ ← ensure (blen (rc_signature r) =? SIGNATURE_LEN) SignatureInvalid;
  _ ← ensure (inbox_key_is_consistent inbox_key) (Wire.Crypto "inbox key secret does not match its public half");
  body ← core_encode_sync_record r;
  sealed ← seal_message author (ik_agree_pk inbox_key) body ephemeral_sk nonce;
  Ok (mk_sealed sealed (rc_roster_version r) (rc_inbox_key_generation r)).

(** * The gate *)

Definition tombstoned (roster : Roster) (device : bytes) : bool :=
  existsb (fun t => bool_decide (tomb_device_id t = device)) (tombstones roster).

Definition find_cert (roster : Roster) (device : bytes) : option DeviceCert :=
  List.find (fun c => bool_decide (device_id c = device)) (devices roster).

Definition admit_record (r : SyncRecord) (generation : option Z) (own_roster : Roster) : option SyncRecordRejection :=
  if negb (bool_decide (rc_person_id r = person_id own_roster)) then Some ForeignPerson
  else if match generation with Some g => negb (rc_inbox_key_generation r =? g) | None => false end then Some StaleInboxKey
  else if negb (blen (rc_author_device_id r) =? DEVICE_ID_LEN) || bool_decide (rc_author_device_id r = LEGACY_DEVICE_ID)
  then Some LegacyAuthorDevice
  else if tombstoned own_roster (rc_author_device_id r) then Some RevokedAuthorDevice
  else match find_cert own_roster (rc_author_device_id r) with
  | None => Some UnknownAuthorDevice
  | Some author =>
      match core_verify_sync_record r (device_sign_pk author) with
      | Ok _ => None
      | Err _ => Some RecordSignatureInvalid
      end
  end.

Definition core_sync_record_admit (r : SyncRecord) (inbox_key_generation : Z) (own_roster : Roster) : option SyncRecordRejection :=
  admit_record r (Some inbox_key_generation) own_roster.

Definition core_sync_handoff_admit (r : SyncRecord) (own_roster : Roster) : option SyncRecordRejection :=
  if negb (bool_decide (rc_kind r = SyncOwnRoster)) then Some NotARotationHandoff else admit_record r None own_roster.

Definition outer_signer_is_own (signer_id : bytes) (own_roster : Roster) : bool :=
  if tombstoned own_roster signer_id then false
  else if bool_decide (person_id own_roster = signer_id) then true
  else existsb (fun c => bool_decide (device_id c = signer_id)) (devices own_roster).

Definition core_open_sync_record (sealed : bytes) (inbox_key : InboxKey) (own_roster : Roster) : result CoreError SyncRecord :=
  opened ← open_sealed_with_agree_sk (ik_agree_sk inbox_key) sealed;
  _ ← ensure (outer_signer_is_own (om_sender_user_id opened) own_roster)
        (Wire.Crypto "sync record was not sealed by this person's own device set");
  r ← core_decode_sync_record (om_payload opened);
  match core_sync_record_admit r (ik_generation inbox_key) own_roster with
  | None => Ok r
  | Some rejection => Err (sync_rejection_error rejection)
  end.

(** * The rotation handoff *)

Definition core_seal_sync_handoff (r : SyncRecord) (author : Identity) (own_roster : Roster) (recipient_device_id : bytes)
  (ephemeral_sk nonce : bytes) : result CoreError SealedSyncRecord :=
  _ ← ensure (bool_decide (rc_kind r = SyncOwnRoster)) (sync_rejection_error NotARotationHandoff);
  _ ← ensure (bool_decide (rc_person_id r = id_user_id author) || bool_decide (rc_author_device_id r = id_user_id author))
        (Wire.Crypto "a rotation handoff is sealed either by the person it names or by the device that authored it");
  _ ← ensure (blen (rc_signature r) =? SIGNATURE_LEN) SignatureInvalid;
  _ ← ensure (bool_decide (rc_person_id r = person_id own_roster))
        (Wire.Crypto "a rotation handoff is addressed inside one person's device set");
  _ ← ensure (negb (tombstoned own_roster recipient_device_id))
        (Wire.Crypto "a rotation handoff is never addressed to a device this roster has revoked");
  recipient ← option_ok (find_cert own_roster recipient_device_id)
        (Wire.Crypto "a rotation handoff is addressed to a device this roster lists");
  body ← core_encode_sync_record r;
  sealed ← seal_message author (device_agree_pk recipient) body ephemeral_sk nonce;
  Ok (mk_sealed sealed (rc_roster_version r) (rc_inbox_key_generation r)).

Definition handoff_rejection (r : SyncRecord) (own_roster : Roster) : CoreError :=
  match core_sync_handoff_admit r own_roster with
  | Some rejection => sync_rejection_error rejection
  | None => Wire.Crypto "rotation handoff was not sealed by this person's own device set"
  end.

Definition core_open_sync_handoff (sealed own_device_agree_sk : bytes) (own_roster : Roster) (person_root_sign_pk : bytes)
  : result CoreError SyncRecord :=
  opened ← open_sealed_with_agree_sk own_device_agree_sk sealed;
  r ← core_decode_sync_record (om_payload opened);
  if outer_signer_is_own (om_sender_user_id opened) own_roster
     && bool_decide (core_sync_handoff_admit r own_roster = None) then Ok r else
  match core_decode_sync_own_roster (rc_payload r) with
  | Err _ => Err (handoff_rejection r own_roster)
  | Ok payload =>
      let carried := op_roster payload in
      if negb (bool_decide (outcome (core_roster_accept (Some own_roster) false carried person_root_sign_pk) = Accepted))
      then Err (handoff_rejection r own_roster)
      else if negb (outer_signer_is_own (om_sender_user_id opened) carried) then Err (handoff_rejection r own_roster)
      else match core_sync_handoff_admit r carried with
      | None => Ok r
      | Some _ => Err (handoff_rejection r own_roster)
      end
  end.

Definition core_sync_record_id (person author_device_id : bytes) (kind : SyncRecordKind) (stream_seq : Z) : bytes :=
  blake2b 16 (SYNC_RECORD_ID_DOMAIN ++ push_len_prefixed person ++ push_len_prefixed author_device_id
              ++ push_u8 (core_sync_record_kind_wire kind) ++ be_bytes 8 stream_seq).

End records.

(** * The codecs *)

Lemma push_bytes16_ok bs out : push_bytes16 bs = Ok out <-> out = write_bytes16 bs /\ blen bs <= U16_MAX.
Proof. unfold push_bytes16. rewrite ensure_bind_ok, Z.leb_le. split; [intros [? [= <-]]|intros [-> ?]]; done. Qed.

Lemma push_bytes32_ok bs out : push_bytes32 bs = Ok out <-> out = write_bytes32 bs /\ blen bs <= U32_MAX.
Proof. unfold push_bytes32. rewrite ensure_bind_ok, Z.leb_le. split; [intros [? [= <-]]|intros [-> ?]]; done. Qed.

Lemma push_fixed_ok bs n out : push_fixed bs n = Ok out <-> out = bs /\ blen bs = n.
Proof. unfold push_fixed. rewrite ensure_bind_ok, Z.eqb_eq. split; [intros [? [= <-]]|intros [-> ?]]; done. Qed.

Ltac pushes := repeat match goal with
  | H : push_bytes16 _ = Ok _ |- _ => apply push_bytes16_ok in H as [-> ?]
  | H : push_bytes32 _ = Ok _ |- _ => apply push_bytes32_ok in H as [-> ?]
  | H : push_fixed _ _ = Ok _ |- _ => apply push_fixed_ok in H as [-> ?]
  end.

Lemma payload_header_ok n out : payload_header n = Ok out <->
  out = push_u8 SYNC_RECORD_VERSION ++ be_bytes 2 n /\ n <= SYNC_RECORD_MAX_ENTRIES.
Proof. unfold payload_header. rewrite ensure_bind_ok, Z.leb_le. split; [intros [? [= <-]]|intros [-> ?]]; done. Qed.

Lemma parses_header n header r : 0 <= n -> payload_header n = Ok header -> parses take_payload_header (header ++ r) n r.
Proof.
  intros H0 [-> Hn]%payload_header_ok. unfold take_payload_header, SYNC_RECORD_MAX_ENTRIES in *.
  parse_step; [done|]. parse_step; [done|]. parse_step; [ints|]. parse_step; [by apply Z.leb_le|]. apply parses_ret.
Qed.

(** Every list payload: entries that read back make a payload that does. *)
Lemma entries_roundtrip {A} (encode : A -> result CoreError bytes) entry (P : A -> Prop) l bs :
  (forall x e r, P x -> encode x = Ok e -> parses entry (e ++ r) x r) -> Forall P l ->
  encode_entries encode l = Ok bs -> decode_entries entry bs = Ok l.
Proof.
  intros He HP H. unfold encode_entries in H. inv_ok. unfold decode_entries. eapply parses_run with (r := []).
  rewrite <- (app_nil_r (concat _)). eapply parses_bind; [by apply parses_header; [apply (blen_nonneg l)|exact Ha]|].
  eapply parses_bind; [by eapply (parses_encoded _ encode P)|]. parse_step. apply parses_ret.
Qed.

Definition watermark_typed (e : SyncWatermarkEntry) : Prop :=
  in_u64 (we_delivered_through_lamport e) /\ in_u64 (we_read_through_lamport e).

Definition contact_typed (e : SyncContactEntry) : Prop :=
  utf8_valid (cn_card_json e) = true /\ from_option roster_typed True (cn_roster e).

Definition setting_typed (e : SyncSettingEntry) : Prop := utf8_valid (se_key e) = true /\ in_u64 (se_epoch e).

(** A group as a store holds it: its members in canonical order. *)
Definition group_typed (g : Group) : Prop :=
  utf8_valid (group_name g) = true /\ in_u64 (group_metadata_revision g)
  /\ canonicalize_members (member_user_ids g) = member_user_ids g.

Lemma parses_history_entry e bs r : True -> encode_history_entry e = Ok bs -> parses read_history_entry (bs ++ r) e r.
Proof.
  intros _ H. unfold encode_history_entry in H. inv_ok. pushes. unfold read_history_entry.
  parse_step; [done|]. parse_step; [by destruct (he_direction e)|].
  eapply parses_bind; [apply parses_lift with (a := he_direction e); by destruct (he_direction e)|].
  do 3 (parse_step; [done|]). destruct e. apply parses_ret.
Qed.

Lemma parses_watermark_entry e bs r : watermark_typed e -> encode_watermark_entry e = Ok bs ->
  parses read_watermark_entry (bs ++ r) e r.
Proof.
  intros [? ?] He. unfold encode_watermark_entry in He. inv_ok. pushes. unfold read_watermark_entry.
  do 4 (parse_step; [done|]). destruct e. apply parses_ret.
Qed.

Lemma encoded_roster_nonempty r bs : core_encode_roster r = Ok bs -> bs <> [].
Proof.
  intros H. unfold core_encode_roster in H. inv_ok. by rewrite push_u8_eq.
Qed.

Lemma parses_contact_entry e bs r : contact_typed e -> encode_contact_entry e = Ok bs -> parses read_contact_entry (bs ++ r) e r.
Proof.
  intros [Hu Ht] H. unfold encode_contact_entry in H. inv_ok. pushes. unfold read_contact_entry.
  do 4 (parse_step; [done|]). destruct e as [p c [ro|]]; cbn [cn_roster from_option] in *.
  - rewrite (bool_decide_eq_false_2 (_ = [])) by (by eapply encoded_roster_nonempty).
    eapply parses_bind; [|apply parses_ret]. eapply parses_bind; [|apply parses_ret].
    apply parses_lift. by apply roster_reads_back.
  - match goal with H : Ok [] = Ok _ |- _ => injection H as <- end. cbn [bool_decide].
    rewrite (bool_decide_eq_true_2 ([] = [])) by done. eapply parses_bind; apply parses_ret.
Qed.

Lemma parses_inbox_key k bs r : in_u64 (ik_generation k) -> encode_inbox_key k = Ok bs -> parses read_inbox_key (bs ++ r) k r.
Proof.
  intros ? He. unfold encode_inbox_key in He. inv_ok. pushes. unfold read_inbox_key.
  do 3 (parse_step; [done|]). destruct k. apply parses_ret.
Qed.

Lemma own_roster_roundtrip p bs :
  roster_typed (op_roster p) -> Forall (fun k => in_u64 (ik_generation k)) (op_inbox_keys p) ->
  core_encode_sync_own_roster p = Ok bs -> core_decode_sync_own_roster bs = Ok p.
Proof.
  intros Hr Hk H. unfold core_encode_sync_own_roster in H. inv_ok. pushes. unfold core_decode_sync_own_roster.
  eapply parses_run with (r := []). rewrite <- (app_nil_r (concat _)).
  eapply parses_bind; [by apply parses_header; [apply (blen_nonneg (op_inbox_keys p))|]|].
  parse_step; [done|]. parse_step; [by apply roster_reads_back|].
  eapply parses_bind; [by eapply (parses_encoded _ encode_inbox_key); [apply parses_inbox_key|..]|].
  parse_step. destruct p. apply parses_ret.
Qed.

Lemma parses_synced_group g bs r : group_typed g -> encode_synced_group g = Ok bs -> parses read_synced_group (bs ++ r) g r.
Proof.
  intros (Hu & Hrev & Hm) H. unfold encode_synced_group in H. inv_ok. pushes. unfold read_synced_group.
  parse_step; [done|]. parse_step; [by eapply group_invite_reads_back|]. do 2 (parse_step; [done|]).
  cbn. rewrite Hm. destruct g. apply parses_ret.
Qed.

Lemma parses_setting e bs r : setting_typed e -> encode_setting e = Ok bs -> parses read_setting (bs ++ r) e r.
Proof.
  intros [? ?] He. unfold encode_setting in He. inv_ok. pushes. unfold read_setting.
  do 5 (parse_step; [done|]). destruct e. apply parses_ret.
Qed.

(** What a device packs for its siblings they unpack: history, watermarks, contacts
    with their rosters, the own roster with its inbox keys, groups and shared settings. *)
Theorem sync_payloads_roundtrip hs ws cs p gs ss :
  Forall watermark_typed ws -> Forall contact_typed cs -> Forall group_typed gs -> Forall setting_typed ss ->
  roster_typed (op_roster p) -> Forall (fun k => in_u64 (ik_generation k)) (op_inbox_keys p) ->
  (forall bs, core_encode_sync_history hs = Ok bs -> core_decode_sync_history bs = Ok hs)
  /\ (forall bs, core_encode_sync_watermarks ws = Ok bs -> core_decode_sync_watermarks bs = Ok ws)
  /\ (forall bs, core_encode_sync_contacts cs = Ok bs -> core_decode_sync_contacts bs = Ok cs)
  /\ (forall bs, core_encode_sync_own_roster p = Ok bs -> core_decode_sync_own_roster bs = Ok p)
  /\ (forall bs, core_encode_sync_groups gs = Ok bs -> core_decode_sync_groups bs = Ok gs)
  /\ (forall bs, core_encode_sync_settings ss = Ok bs -> core_decode_sync_settings bs = Ok ss).
Proof.
  intros Hw Hc Hg Hs Hr Hk. split_and!; intros bs H.
  - eapply (entries_roundtrip _ _ (fun _ => True)); [apply parses_history_entry| |done]. by apply Forall_true.
  - by eapply entries_roundtrip; [apply parses_watermark_entry|..].
  - by eapply entries_roundtrip; [apply parses_contact_entry|..].
  - by apply own_roster_roundtrip.
  - by eapply entries_roundtrip; [apply parses_synced_group|..].
  - by eapply entries_roundtrip; [apply parses_setting|..].
Qed.

(** * Records on the wire *)

Record record_typed (r : SyncRecord) : Prop := {
  rt_epoch : in_u64 (v_recovery_epoch (rc_roster_version r));
  rt_seq : in_u64 (v_seq (rc_roster_version r));
  rt_generation : in_u64 (rc_inbox_key_generation r);
  rt_stream_seq : in_u64 (rc_stream_seq r);
  rt_timestamp : in_i64 (rc_timestamp_ms r);
}.

Lemma signed_bytes_ok r out : sync_record_signed_bytes r = Ok out <->
  blen (rc_payload r) <= SYNC_RECORD_MAX_PAYLOAD_BYTES /\ blen (rc_person_id r) <= U16_MAX
  /\ blen (rc_author_device_id r) <= U16_MAX
  /\ out = push_u8 SYNC_RECORD_VERSION ++ push_u8 (core_sync_record_kind_wire (rc_kind r))
      ++ write_bytes16 (rc_person_id r) ++ write_bytes16 (rc_author_device_id r)
      ++ be_bytes 8 (v_recovery_epoch (rc_roster_version r)) ++ be_bytes 8 (v_seq (rc_roster_version r))
      ++ be_bytes 8 (rc_inbox_key_generation r) ++ be_bytes 8 (rc_stream_seq r) ++ be_bytes 8 (rc_timestamp_ms r)
      ++ write_bytes32 (rc_payload r).
Proof.
  unfold sync_record_signed_bytes. rewrite ensure_bind_ok, Z.leb_le. split.
  - intros [? H']. inv_ok. pushes. done.
  - intros (? & ? & ? & ->). split; [done|]. unfold push_bytes16.
    by rewrite !(proj2 (Z.leb_le _ _)) by done.
Qed.

Lemma parses_sync_record r bs : record_typed r -> core_encode_sync_record r = Ok bs -> parses read_sync_record bs r [].
Proof.
  intros [] H. unfold core_encode_sync_record in H. inv_ok. pushes. apply signed_bytes_ok in Ha as (Hp & ? & ? & ->).
  unfold read_sync_record, SYNC_RECORD_MAX_PAYLOAD_BYTES, MAX_ENVELOPE_SEALED_BYTES in *. rewrite <- (app_nil_r (write_bytes16 (rc_signature r))).
  parse_step; [done|]. parse_step; [done|]. parse_step; [by destruct (rc_kind r)|].
  eapply parses_bind; [apply parses_lift with (a := rc_kind r); by rewrite kind_wire_of|].
  do 7 (parse_step; [done|]). parse_step; [ints|]. parse_step; [by apply Z.leb_le|].
  parse_step; [done|]. parse_step. destruct r as [? ? ? [] ? ? ? ? ?]. apply parses_ret.
Qed.

Lemma record_reads_back r bs : record_typed r -> core_encode_sync_record r = Ok bs -> core_decode_sync_record bs = Ok r.
Proof. intros Ht He. eapply parses_run. by apply parses_sync_record. Qed.

Lemma record_one_encoding bs r : core_decode_sync_record bs = Ok r -> core_encode_sync_record r = Ok bs /\ record_typed r.
Proof.
  intros (c' & H)%run_inv. pose proof (cursor_at_new bs) as Hc0. unfold read_sync_record in H. read_inv. bools. subst.
  match goal with H : option_ok _ _ = Ok _ |- _ => apply option_ok_ok, kind_of_wire in H as <- end.
  split; [|by split]. unfold core_encode_sync_record, sync_record_signed_bytes, push_bytes16. cbn.
  rewrite !(proj2 (Z.leb_le _ _)) by done. cbn. by rewrite <- !app_assoc, !app_nil_r.
Qed.

(** The signed bytes name every field but the signature. *)
Lemma record_signed_bytes_inj r r' out :
  record_typed r -> record_typed r' -> sync_record_signed_bytes r = Ok out -> sync_record_signed_bytes r' = Ok out ->
  r' = with_author r (rc_author_device_id r) (rc_signature r').
Proof.
  intros Ht Ht' Hr Hr'.
  assert (forall q, record_typed q -> sync_record_signed_bytes q = Ok out ->
          core_decode_sync_record (out ++ write_bytes16 []) = Ok (with_author q (rc_author_device_id q) [])) as Hd.
  { intros q Hq Ho. apply record_reads_back; [by destruct Hq; split|].
    unfold core_encode_sync_record. change (sync_record_signed_bytes _) with (sync_record_signed_bytes q). by rewrite Ho. }
  pose proof (Hd _ Ht Hr) as H1. rewrite (Hd _ Ht' Hr') in H1. injection H1 as ? ? ? ? ? ? ? ?.
  destruct r, r'. cbn in *. by subst.
Qed.

(** * Domains *)

(** No separator starts another, so what is signed in one domain is not a message of
    another. *)
Lemma domains_apart d d' rest rest' : domain_separator d ++ rest = domain_separator d' ++ rest' -> d = d'.
Proof.
  intros H. apply (f_equal (take 24)) in H. rewrite !take_app_le in H by (destruct d, d'; vm_compute; lia).
  destruct d, d'; try done; by vm_compute in H.
Qed.

Lemma domain_signed_inj d d' m m' : blen m < 2 ^ 64 -> blen m' < 2 ^ 64 ->
  domain_signed_bytes d m = domain_signed_bytes d' m' -> d = d' /\ m = m'.
Proof.
  intros Hm Hm' H. unfold domain_signed_bytes in H. pose proof (domains_apart _ _ _ _ H) as ->. split; [done|].
  apply app_inv_head in H. unfold push_len_prefixed in H.
  apply app_inj_1 in H as [_ ?]; [done|]. by rewrite !length_be_bytes.
Qed.

(** * What is admitted *)

Section admission.
Context `{C : Crypto} `{S : SealCrypto}.

(** Ed25519 is unforgeable: what verifies under a device key in the sync-record domain
    was signed by its holder as the record it spells. *)
Definition records_signed_only (pk : bytes) (written : list SyncRecord) : Prop :=
  forall rest sig, ed25519_verify pk (SYNC_RECORD_SIGN_DOMAIN ++ rest) sig = true ->
  exists r out, r ∈ written /\ record_typed r /\ sync_record_signed_bytes r = Ok out /\ rest = push_len_prefixed out.

Lemma tombstoned_true roster d : tombstoned roster d = true <-> d ∈ (tomb_device_id <$> tombstones roster).
Proof.
  unfold tombstoned. rewrite existsb_exists, list_elem_of_fmap. setoid_rewrite bool_decide_eq_true.
  setoid_rewrite <- list_elem_of_In. naive_solver.
Qed.

Lemma find_cert_some roster d c : find_cert roster d = Some c -> c ∈ devices roster /\ device_id c = d.
Proof. unfold find_cert. intros [Hin Hd]%find_some. apply list_elem_of_In in Hin. by apply bool_decide_eq_true in Hd. Qed.

Lemma admit_none r generation roster : admit_record r generation roster = None ->
  rc_person_id r = person_id roster /\ from_option (fun g => rc_inbox_key_generation r = g) True generation
  /\ rc_author_device_id r <> LEGACY_DEVICE_ID /\ tombstoned roster (rc_author_device_id r) = false
  /\ exists c, find_cert roster (rc_author_device_id r) = Some c /\ core_verify_sync_record r (device_sign_pk c) = Ok tt.
Proof.
  unfold admit_record. intros H. case_bool_decide as Hp; [|done]. cbn [negb] in H.
  destruct (match generation with Some g => _ | None => false end) eqn:Hg; [done|].
  destruct (negb (blen _ =? _)); [done|]. cbn [orb] in H. case_bool_decide as Hl; [done|].
  destruct (tombstoned _ _) eqn:Ht; [done|]. destruct (find_cert _ _) as [c|] eqn:Hc; [|done].
  destruct (core_verify_sync_record _ _) as [[]|] eqn:Hv; [|done]. split_and!; [done| |done|done|by exists c].
  destruct generation as [g|]; [|done]. cbn. apply negb_false_iff, Z.eqb_eq in Hg. done.
Qed.

Lemma verified_was_written r pk written : record_typed r -> records_signed_only pk written ->
  core_verify_sync_record r pk = Ok tt ->
  exists r0, r0 ∈ written /\ r = with_author r0 (rc_author_device_id r0) (rc_signature r).
Proof.
  intros Ht Hs H. unfold core_verify_sync_record, core_device_verify, verify_raw in H.
  apply result_bind_ok in H as (out & Ho & H). inv_ok.
  match goal with H : ed25519_verify _ _ _ = true |- _ => rename H into Hv end.
  apply Hs in Hv as (r0 & out0 & Hin & Ht0 & Ho0 & Hrest). exists r0. split; [done|].
  unfold push_len_prefixed in Hrest. apply app_inj_1 in Hrest as [_ <-]; [|by rewrite !length_be_bytes].
  by apply (record_signed_bytes_inj _ _ out).
Qed.

(** C38: a sync record that opens was written by the person's own devices.  It names this
    person and the current key, and every field of it was signed by the device it names
    as its author, which the roster lists and has not buried; nor was it wrapped by a
    device the roster has buried. *)
Theorem admitted_record_authentic written sealed key roster r :
  (forall c, c ∈ devices roster -> records_signed_only (device_sign_pk c) (written (device_sign_pk c))) ->
  core_open_sync_record sealed key roster = Ok r ->
  rc_person_id r = person_id roster /\ rc_inbox_key_generation r = ik_generation key
  /\ (exists opened, open_sealed_with_agree_sk (ik_agree_sk key) sealed = Ok opened
        /\ om_sender_user_id opened ∉ (tomb_device_id <$> tombstones roster)
        /\ (om_sender_user_id opened = person_id roster \/ om_sender_user_id opened ∈ (device_id <$> devices roster)))
  /\ exists c r0, c ∈ devices roster /\ device_id c = rc_author_device_id r
       /\ device_id c ∉ (tomb_device_id <$> tombstones roster)
       /\ r0 ∈ written (device_sign_pk c) /\ r = with_author r0 (device_id c) (rc_signature r).
Proof.
  intros Hw H. unfold core_open_sync_record in H. apply result_bind_ok in H as (opened & Hop & H).
  rewrite ensure_bind_ok in H. destruct H as [Hout H]. apply result_bind_ok in H as (r' & Hr & H).
  destruct (core_sync_record_admit _ _ _) eqn:Ha; [done|]. injection H as ->.
  apply record_one_encoding in Hr as [_ Ht]. apply admit_none in Ha as (Hp & Hg & _ & Htomb & c & Hc & Hv).
  destruct (find_cert_some _ _ _ Hc) as [Hin Hid]. cbn in Hg.
  split_and!; [done|done| |].
  - exists opened. split; [done|]. unfold outer_signer_is_own in Hout.
    destruct (tombstoned roster (om_sender_user_id opened)) eqn:Hb; [done|].
    split; [by rewrite <- tombstoned_true, Hb|]. case_bool_decide as Hroot; [by left|right].
    apply existsb_exists in Hout as (c' & Hin' & Hid'). apply list_elem_of_fmap. exists c'.
    apply bool_decide_eq_true in Hid'. split; [done|]. by apply list_elem_of_In.
  - destruct (verified_was_written _ _ _ Ht (Hw _ Hin) Hv) as (r0 & Hr0 & He). exists c, r0.
    split_and!; [done|done| |done|].
    + by rewrite Hid, <- tombstoned_true, Htomb.
    + rewrite Hid, He at 1. cbn. rewrite He. done.
Qed.

(** What a handoff says, and who says it: the device it names signed it, and the roster
    already held, or a roster the person root or the held roster's signer put above it,
    lists that device. *)
Definition speaks_in (r : SyncRecord) (roster : Roster) : Prop :=
  rc_person_id r = person_id roster /\ exists c, c ∈ devices roster /\ device_id c = rc_author_device_id r
    /\ device_id c ∉ (tomb_device_id <$> tombstones roster) /\ core_verify_sync_record r (device_sign_pk c) = Ok tt.

Lemma handoff_admitted r roster : core_sync_handoff_admit r roster = None -> rc_kind r = SyncOwnRoster /\ speaks_in r roster.
Proof.
  unfold core_sync_handoff_admit. case_bool_decide as Hk; cbn [negb]; [|done].
  intros (Hp & _ & _ & Ht & c & Hc & Hv)%admit_none. split; [done|]. destruct (find_cert_some _ _ _ Hc) as [Hin Hid].
  split; [done|]. exists c. split_and!; [done..|by rewrite Hid, <- tombstoned_true, Ht|done].
Qed.

(** Only a device in good standing announces a key rotation, and it announces
    nothing else.  A record the handoff channel lets through is an own-roster record,
    signed by a device the held roster lists, or by one listed in the roster it carries
    when that roster is valid under the person root and is accepted over the held one.  A
    device the held roster has buried gets nothing through, whatever it carries. *)
Theorem handoff_speaker sealed agree_sk own root r :
  core_open_sync_handoff sealed agree_sk own root = Ok r ->
  rc_kind r = SyncOwnRoster
  /\ rc_author_device_id r ∉ (tomb_device_id <$> tombstones own)
  /\ (speaks_in r own
      \/ exists p, core_decode_sync_own_roster (rc_payload r) = Ok p /\ speaks_in r (op_roster p)
           /\ roster_valid (op_roster p) root /\ version_lt (version own) (version (op_roster p))
           /\ (recovery_epoch own < recovery_epoch (op_roster p) -> signer_sign_pk (op_roster p) = root)).
Proof.
  unfold core_open_sync_handoff. intros H. apply result_bind_ok in H as (opened & Hop & H).
  apply result_bind_ok in H as (r' & Hr & H).
  destruct (outer_signer_is_own _ own && _) eqn:Hd.
  - injection H as ->. apply andb_true_iff in Hd as [_ [Hk Hs]%bool_decide_eq_true%handoff_admitted].
    split_and!; [done| |by left]. destruct Hs as (_ & c & _ & <- & ? & _). done.
  - destruct (core_decode_sync_own_roster _) as [p|] eqn:Hp; [|done]. cbv zeta in H.
    case_bool_decide as Hacc; cbn [negb] in H; [|done]. destruct (outer_signer_is_own _ (op_roster p)); cbn [negb] in H; [|done].
    destruct (core_sync_handoff_admit r' (op_roster p)) eqn:Hadm; [done|]. injection H as ->.
    apply handoff_admitted in Hadm as [Hk Hs].
    apply accept_outcome_spec in Hacc as (_ & Hvalid & Hsup).
    destruct (Hsup own eq_refl) as [_ Hver _ _ Hroot Hkeep _].
    split_and!; [done| |right; by exists p]. destruct Hs as (_ & c & Hin & <- & Hnt & _).
    intros (t & He & Ht)%list_elem_of_fmap. apply Hnt. rewrite He. by eapply Forall_forall in Hkeep as [? _].
Qed.

(** * Between siblings *)

Context `{!CryptoLaws C} `{!SealLaws C S}.

Record device_ok (d : DeviceKeypair) : Prop := {
  dv_pair : dk_sign_pk d = ed25519_public (dk_sign_sk d);
  dv_id : dk_device_id d = derive_user_id (dk_sign_pk d);
}.

(** The roster vouches for a device: its certificate is the one under its id. *)
Definition vouches (roster : Roster) (d : DeviceKeypair) : Prop :=
  tombstoned roster (dk_device_id d) = false
  /\ exists c, find_cert roster (dk_device_id d) = Some c /\ device_sign_pk c = dk_sign_pk d.

Lemma encoded_record_sealable r bs : core_encode_sync_record r = Ok bs -> sealable Legacy bs.
Proof.
  intros H. unfold core_encode_sync_record in H. inv_ok. pushes. apply signed_bytes_ok in Ha as (? & ? & ? & ->).
  unfold SYNC_RECORD_MAX_PAYLOAD_BYTES, MAX_ENVELOPE_SEALED_BYTES in *. split.
  - rewrite !write_bytes16_eq, write_bytes32_eq, !push_u8_eq, !blen_app, !blen_be_bytes. unfold U16_MAX, U32_MAX in *. unfold blen in *. cbn [length]. lia.
  - intros _. unfold looks_like_bound_transcript. cbn [existsb]. rewrite push_u8_eq. cbn [app take].
    rewrite !bool_decide_eq_false_2 by (by vm_compute). by rewrite !andb_false_r.
Qed.

Lemma signed_record_verifies r0 sk r : record_typed r0 -> core_sign_sync_record r0 sk = Ok r ->
  record_typed r /\ rc_person_id r = rc_person_id r0 /\ rc_author_device_id r = derive_user_id (ed25519_public sk)
  /\ rc_author_device_id r <> LEGACY_DEVICE_ID /\ core_verify_sync_record r (ed25519_public sk) = Ok tt.
Proof.
  intros Ht H. unfold core_sign_sync_record, core_device_sign, core_derive_device_id, key32 in H. inv_ok. bools.
  match goal with H : sync_record_signed_bytes _ = Ok ?o |- _ => rename o into out; rename H into Ho end.
  split_and!; [by destruct Ht; split|done|done|done|].
  rename a into sk. unfold core_verify_sync_record. change (sync_record_signed_bytes _ ) with (sync_record_signed_bytes
    (with_author r0 (derive_user_id (ed25519_public sk)) (rc_signature r0))). rewrite Ho. cbn [mbind result_bind rc_signature with_author].
  unfold core_device_verify, verify_raw. rewrite (proj2 (is_len_true _ _) (sign_length _ _)). cbn [ensure mbind result_bind].
  rewrite (proj2 (is_len_true _ _) (public_length _)). cbn [ensure mbind result_bind].
  rewrite public_ok. cbn [ensure mbind result_bind]. by rewrite verify_sign.
Qed.

Lemma vouched_is_own roster d : device_ok d -> vouches roster d -> outer_signer_is_own (derive_user_id (dk_sign_pk d)) roster = true.
Proof.
  intros [_ Hid] (Ht & c & Hc & _). unfold outer_signer_is_own. rewrite <- Hid, Ht. case_bool_decide; [done|].
  apply find_cert_some in Hc as [Hin Hd]. apply existsb_exists. exists c. split; [by apply list_elem_of_In|by apply bool_decide_eq_true_2].
Qed.

(** A signed record passes the gate of a roster that vouches for its author. *)
Lemma vouched_admitted r0 d r roster generation :
  record_typed r0 -> device_ok d -> vouches roster d -> rc_person_id r0 = person_id roster ->
  core_sign_sync_record r0 (dk_sign_sk d) = Ok r -> from_option (fun g => rc_inbox_key_generation r = g) True generation ->
  admit_record r generation roster = None.
Proof.
  intros Ht [Hpair Hid] (Hb & c & Hc & Hpk) Hp Hs Hg.
  destruct (signed_record_verifies _ _ _ Ht Hs) as (_ & Hp' & Ha & Hl & Hv). unfold admit_record.
  rewrite bool_decide_eq_true_2 by congruence. cbn [negb].
  assert (match generation with Some g => negb (rc_inbox_key_generation r =? g) | None => false end = false) as ->.
  { destruct generation; [|done]. cbn in Hg. rewrite Hg. by rewrite Z.eqb_refl. }
  rewrite (bool_decide_eq_false_2 (_ = LEGACY_DEVICE_ID)) by done.
  assert (blen (rc_author_device_id r) = DEVICE_ID_LEN) as ->.
  { rewrite Ha. unfold derive_user_id, blen. by rewrite blake2b_length. }
  rewrite Z.eqb_refl. cbn [negb orb]. assert (rc_author_device_id r = dk_device_id d) as -> by congruence.
  rewrite Hb, Hc, Hpk, Hpair, Hv. done.
Qed.

Lemma sealed_body_opens author agree_sk r body sealed ephemeral_sk nonce :
  identity_ok author -> blen agree_sk = 32 -> blen nonce = NONCE_LEN -> core_encode_sync_record r = Ok body ->
  seal_message author (x25519_public agree_sk) body ephemeral_sk nonce = Ok sealed ->
  open_sealed_with_agree_sk agree_sk sealed = Ok (mk_opened (derive_user_id (id_sign_pk author)) body).
Proof.
  intros Hi Hk Hn He Hs. eapply (seal_open_roundtrip author _ _ SEAL_ENVELOPE_VERSION); try done. left.
  split; [done|]. by eapply encoded_record_sealable.
Qed.

(** Siblings read each other.  A record a device signs and seals to the person's
    inbox key is opened and admitted by every device that holds the key and a roster
    vouching for the author; and the announcement of a rotation, sealed to one sibling,
    by that sibling with its device key. *)
Theorem sealed_record_opens r0 d roster r ephemeral_sk nonce s :
  record_typed r0 -> device_ok d -> vouches roster d -> rc_person_id r0 = person_id roster -> blen nonce = NONCE_LEN ->
  core_sign_sync_record r0 (dk_sign_sk d) = Ok r ->
  (forall key, core_seal_sync_record r (core_device_sync_identity d) key ephemeral_sk nonce = Ok s ->
     core_open_sync_record (sr_sealed s) key roster = Ok r)
  /\ (forall own sibling root agree_sk c, core_seal_sync_handoff r (core_device_sync_identity d) own sibling ephemeral_sk nonce = Ok s ->
     find_cert own sibling = Some c -> device_agree_pk c = x25519_public agree_sk -> blen agree_sk = 32 ->
     core_open_sync_handoff (sr_sealed s) agree_sk roster root = Ok r).
Proof.
  intros Ht Hd Hv Hp Hn Hs. pose proof (vouched_is_own _ _ Hd Hv) as Hown.
  destruct (signed_record_verifies _ _ _ Ht Hs) as (Htr & _).
  assert (identity_ok (core_device_sync_identity d)) as Hi by apply Hd. split.
  - intros key Hseal. unfold core_seal_sync_record, inbox_key_is_consistent in Hseal. inv_ok. bools. cbn [sr_sealed].
    match goal with H : core_encode_sync_record r = Ok _ |- _ => rename H into He end.
    match goal with H : seal_message _ _ _ _ _ = Ok _ |- _ => rename H into Hsm end.
    match goal with H : x25519_public _ = _ |- _ => rewrite <- H in Hsm end.
    unfold core_open_sync_record. rewrite (sealed_body_opens _ _ _ _ _ _ _ Hi ltac:(done) Hn He Hsm). cbn [mbind result_bind om_sender_user_id om_payload id_sign_pk core_device_sync_identity].
    rewrite Hown. cbn [ensure mbind result_bind]. rewrite (record_reads_back _ _ Htr He). cbn [mbind result_bind].
    unfold core_sync_record_admit. by rewrite (vouched_admitted _ _ _ _ _ Ht Hd Hv Hp Hs) by (cbn; lia).
  - intros own sibling root agree_sk c Hseal Hc Hpk Hsk. unfold core_seal_sync_handoff in Hseal. rewrite Hc in Hseal. inv_ok. bools. cbn [sr_sealed].
    match goal with H : core_encode_sync_record r = Ok _ |- _ => rename H into He end.
    match goal with H : option_ok _ _ = Ok _ |- _ => apply option_ok_ok in H; injection H as <- end.
    match goal with H : seal_message _ _ _ _ _ = Ok _ |- _ => rename H into Hsm end. rewrite Hpk in Hsm.
    unfold core_open_sync_handoff. rewrite (sealed_body_opens _ _ _ _ _ _ _ Hi Hsk Hn He Hsm). cbn [mbind result_bind om_sender_user_id om_payload id_sign_pk core_device_sync_identity].
    rewrite (record_reads_back _ _ Htr He). cbn [mbind result_bind]. rewrite Hown.
    rewrite bool_decide_eq_true_2; [done|]. unfold core_sync_handoff_admit. rewrite bool_decide_eq_true_2 by done. cbn [negb].
    by apply (vouched_admitted _ _ _ _ None Ht Hd Hv Hp Hs).
Qed.

End admission.

(** * Witnesses *)

Definition toy_payloads : SyncOwnRosterPayload := mk_own_roster sample_roster [mk_inbox 4 (replicate 32 x01) (replicate 32 x02)].

Lemma sync_payloads_roundtrip_witness :
  (exists bs, core_encode_sync_history [mk_history (replicate 16 x01) HistoryReceived [x02] (replicate 16 x00) [x03]] = Ok bs
     /\ core_decode_sync_history bs = Ok [mk_history (replicate 16 x01) HistoryReceived [x02] (replicate 16 x00) [x03]])
  /\ (exists bs, core_encode_sync_own_roster toy_payloads = Ok bs /\ core_decode_sync_own_roster bs = Ok toy_payloads).
Proof.
  destruct (sync_payloads_roundtrip [mk_history (replicate 16 x01) HistoryReceived [x02] (replicate 16 x00) [x03]]
    [mk_watermark [x01] [x02] 3 4] [mk_contact_entry [x01] [x41] (Some sample_roster)] toy_payloads [toy_group]
    [mk_setting [x41] [x02] 3 (replicate 16 x00)]) as (H1 & _ & _ & H4 & _).
  - apply Forall_singleton. split; split; discriminate.
  - apply Forall_singleton. split; [reflexivity|]. repeat split; repeat constructor; discriminate.
  - apply Forall_singleton. split; [reflexivity|]. split; [split; discriminate|reflexivity].
  - apply Forall_singleton. split; [reflexivity|split; discriminate].
  - repeat split; repeat constructor; discriminate.
  - apply Forall_singleton. split; discriminate.
  - split.
    + destruct (core_encode_sync_history _) as [bs|] eqn:He; [|vm_compute in He; discriminate He]. exists bs. split; [reflexivity|exact (H1 bs eq_refl)].
    + destruct (core_encode_sync_own_roster _) as [bs|] eqn:He; [|vm_compute in He; discriminate He]. exists bs. split; [reflexivity|exact (H4 bs eq_refl)].
Defined.

(** One device, listed by its person's roster, and a record it writes. *)
Definition toy_key (b : byte) : bytes := replicate 32 b.

Definition toy_device_keys `{C : Crypto} : DeviceKeypair :=
  mk_device (derive_user_id (toy_key x09)) (toy_key x09) (toy_key x09) (toy_key x0a) (toy_key x0a).

Definition toy_own_roster : Roster :=
  mk_roster (replicate 16 x05) 0 1 [mk_cert (replicate 16 x05) (toy_key x09) (toy_key x0a) 0 1 (toy_key x09) (replicate 64 x09)]
    [mk_tombstone (replicate 16 x0b) 1] [] 3 [] [].

Definition toy_record (payload : bytes) : SyncRecord :=
  mk_record SyncOwnRoster (replicate 16 x05) [] (mk_version 0 1) 3 7 1700 payload [].

Definition toy_inbox : InboxKey := mk_inbox 3 (toy_key x0c) (toy_key x0c).

Lemma sealed_record_opens_witness :
  exists r s, core_sign_sync_record (C := toy_crypto) (S := toy_seal) (toy_record [x01]) (toy_key x09) = Ok r
    /\ core_seal_sync_record (S := toy_seal) r (core_device_sync_identity (toy_device_keys (C := toy_crypto))) toy_inbox
         (toy_key x0d) (replicate 24 x00) = Ok s
    /\ core_open_sync_record (C := toy_crypto) (S := toy_seal) (sr_sealed s) toy_inbox toy_own_roster = Ok r.
Proof.
  destruct (core_sign_sync_record (C := toy_crypto) (S := toy_seal) (toy_record [x01]) (toy_key x09)) as [r|] eqn:Hr;
    [|vm_compute in Hr; discriminate Hr].
  destruct (core_seal_sync_record (S := toy_seal) r (core_device_sync_identity (toy_device_keys (C := toy_crypto))) toy_inbox
              (toy_key x0d) (replicate 24 x00)) as [s|] eqn:Hs.
  2:{ vm_compute in Hr. injection Hr as <-. vm_compute in Hs. discriminate Hs. }
  exists r, s. split; [reflexivity|]. split; [exact Hs|].
  refine (proj1 (sealed_record_opens (C := toy_crypto) (S := toy_seal) (toy_record [x01]) (toy_device_keys (C := toy_crypto))
    toy_own_roster r (toy_key x0d) (replicate 24 x00) s _ _ _ _ _ Hr) toy_inbox Hs).
  - split; cbn; split; discriminate.
  - split; reflexivity.
  - split; [vm_compute; reflexivity|]. eexists. split; [vm_compute; reflexivity|reflexivity].
  - reflexivity.
  - reflexivity.
Defined.

(** A device that signed one record, and its envelope. *)
Definition one_record_crypto : Crypto := {|
  blake2b n bs := take n bs;
  ed25519_key_ok _ := true;
  ed25519_verify _ m _ :=
    bool_decide (sync_record_signed_bytes (with_author (toy_record [x01]) (replicate 16 x09) [])
                 = Ok (drop 8 (drop (length SYNC_RECORD_SIGN_DOMAIN) m))
                 /\ m = domain_signed_bytes DomainSyncRecord (drop 8 (drop (length SYNC_RECORD_SIGN_DOMAIN) m)))
    || bool_decide (head m = Some x01);
|}.

Lemma one_record_only : records_signed_only (C := one_record_crypto) (toy_key x09) [with_author (toy_record [x01]) (replicate 16 x09) []].
Proof.
  intros rest sig Hv. apply orb_true_iff in Hv as [Hv|Hv]; [|by vm_compute in Hv].
  apply bool_decide_eq_true in Hv as [Ho Hm]. eexists _, _. split; [by left|]. split; [split; cbn; split; discriminate|].
  split; [exact Ho|]. unfold domain_signed_bytes, domain_separator in Hm. by apply app_inv_head in Hm.
Qed.

Lemma admitted_record_authentic_witness :
  exists r s, core_sign_sync_record (C := one_record_crypto) (S := toy_seal) (toy_record [x01]) (toy_key x09) = Ok r
    /\ core_seal_sync_record (S := toy_seal) r (core_device_sync_identity (toy_device_keys (C := one_record_crypto))) toy_inbox
         (toy_key x0d) (replicate 24 x00) = Ok s
    /\ rc_person_id r = replicate 16 x05.
Proof.
  destruct (core_sign_sync_record (C := one_record_crypto) (S := toy_seal) (toy_record [x01]) (toy_key x09)) as [r|] eqn:Hr;
    [|vm_compute in Hr; discriminate Hr].
  destruct (core_seal_sync_record (S := toy_seal) r (core_device_sync_identity (toy_device_keys (C := one_record_crypto))) toy_inbox
              (toy_key x0d) (replicate 24 x00)) as [s|] eqn:Hs.
  2:{ vm_compute in Hr. injection Hr as <-. vm_compute in Hs. discriminate Hs. }
  exists r, s. split; [reflexivity|]. split; [exact Hs|].
  refine (proj1 (admitted_record_authentic (C := one_record_crypto) (S := toy_seal)
    (fun _ => [with_author (toy_record [x01]) (replicate 16 x09) []]) (sr_sealed s) toy_inbox toy_own_roster r _ _)).
  - intros c Hc. apply list_elem_of_singleton in Hc as ->. exact one_record_only.
  - vm_compute in Hr. injection Hr as <-. vm_compute in Hs. injection Hs as <-. vm_compute. reflexivity.
Defined.

Lemma handoff_speaker_witness :
  exists r s, core_sign_sync_record (C := toy_crypto) (S := toy_seal) (toy_record [x01]) (toy_key x09) = Ok r
    /\ core_seal_sync_handoff (C := toy_crypto) (S := toy_seal) r (core_device_sync_identity (toy_device_keys (C := toy_crypto))) toy_own_roster
         (dk_device_id (toy_device_keys (C := toy_crypto))) (toy_key x0d) (replicate 24 x00) = Ok s
    /\ rc_kind r = SyncOwnRoster.
Proof.
  destruct (core_sign_sync_record (C := toy_crypto) (S := toy_seal) (toy_record [x01]) (toy_key x09)) as [r|] eqn:Hr;
    [|vm_compute in Hr; discriminate Hr].
  destruct (core_seal_sync_handoff (C := toy_crypto) (S := toy_seal) r (core_device_sync_identity (toy_device_keys (C := toy_crypto))) toy_own_roster
         (dk_device_id (toy_device_keys (C := toy_crypto))) (toy_key x0d) (replicate 24 x00)) as [s|] eqn:Hs.
  2:{ vm_compute in Hr. injection Hr as <-. vm_compute in Hs. discriminate Hs. }
  exists r, s. split; [reflexivity|]. split; [exact Hs|].
  refine (proj1 (handoff_speaker (C := toy_crypto) (S := toy_seal) (sr_sealed s) (toy_key x0a) toy_own_roster (toy_key x01) r _)).
  vm_compute in Hr. injection Hr as <-. vm_compute in Hs. injection Hs as <-. vm_compute. reflexivity.
Defined.
