(* ===== verification/FriendCards.v ===== *)
(** Friend cards ([core/src/identity.rs]): the card a person hands out, its
    self-signature, the three binary layouts, the link texts that carry them, and the
    cards a friend passes on.

    [friend_link_roundtrip] shows that the card a person makes is the card another phone
    reads from the link; [card_layouts_roundtrip] the same of each layout, with what the
    older ones drop; [friend_card_authentic] that a signed card that is imported was made
    by the holder of its signing key, field for field; [shared_card_authentic] that a
    card passed on was passed on by the friend it names, for this person, and lately.
    JSON ([serde_json]) is a parameter, as base64 is. *)
From stdpp Require Import base numbers list strings sets.
From S2P Require Import Prelude StdModel Wire Crypto RosterCodec Roster Message Frames RelayPolicy RelayWire Sealing.

Definition FRIEND_LINK_PREFIX : bytes := str "CMFRIEND1:".
Definition FRIEND_LINK_PREFIX_V2 : bytes := str "CMFRIEND2:".
Definition SHARED_CARD_PREFIX : bytes := str "CMSHARE1:".
Definition FRIEND_LINK_PREFIX_V3 : bytes := str "CMFRIEND3:".
Definition FRIEND_LINK_PREFIX_V4 : bytes := str "CMFRIEND4:".
Definition DEVICE_LINK_PREFIX : bytes := str "CMLINK1:".
Definition OFFICIAL_RELAY_URL : bytes := str "https://relay.cruisemesh.app".

Definition EMIT_FRIEND_LINK_V3 : bool := true.
Definition EMIT_FRIEND_LINK_V4 : bool := false.

Definition V3_URL_TAG_NONE : Z := 0.
Definition V3_URL_TAG_EXPLICIT : Z := 1.
Definition V3_URL_TAG_OFFICIAL : Z := 2.
Definition V3_TOKEN_TAG_NONE : Z := 0.
Definition V3_TOKEN_TAG_VERBATIM : Z := 1.
Definition V3_TOKEN_TAG_HEX : Z := 2.
Definition V3_SIG_TAG_NONE : Z := 0.
Definition V3_SIG_TAG_PRESENT : Z := 1.
Definition V4_ROSTER_TAG_NONE : Z := 0.
Definition V4_ROSTER_TAG_HASH : Z := 1.
Definition FRIEND_CARD_SIGNATURE_LEN : Z := 64.
Definition FRIEND_CARD_SIGN_DOMAIN : bytes := domain "CruiseMesh friend card self-signature v1".
Definition V3_MAX_PACKED_HEX_CHARS : Z := 2 * 255.

Definition MAX_FRIEND_CARD_JSON_BYTES : Z := 16 * 1024.
Definition MAX_FRIEND_TEXT_BYTES : Z := 24 * 1024.
Definition MAX_DISPLAY_NAME_BYTES : Z := 128.
Definition MAX_RELAY_URL_BYTES : Z := 2 * 1024.
Definition MAX_RELAY_TOKEN_BYTES : Z := 1024.
Definition MAX_PARSED_FRIEND_CARD_VERSION : Z := 4.

Definition SHARED_CARD_LIFETIME_MS : Z := 7 * MS_PER_DAY.
Definition SHARED_CARD_CLOCK_SKEW_MS : Z := 24 * 60 * 60 * 1000.
Definition SHARED_CARD_VERSION : Z := 1.
Definition SHARED_CARD_SIGN_DOMAIN : bytes := domain "CruiseMesh shared contact v1".

Record FriendCard : Type := mk_card {
  fc_name : bytes;
  fc_sign_pk : bytes;
  fc_agree_pk : bytes;
  fc_relay_url : option bytes;
  fc_relay_token : option bytes;
  fc_signature : option bytes;
  fc_roster_head_hash : option bytes;
}.

Record SharedFriendCard : Type := mk_shared {
  sh_version : Z;
  sh_card : FriendCard;
  sh_sharer_user_id : bytes;
  sh_shared_policy_revision : Z;
  sh_issued_at_ms : Z;
  sh_expires_at_ms : Z;
  sh_signature : bytes;
}.

Inductive FriendImport : Type := Direct (card : FriendCard) | Shared (shared : SharedFriendCard).

Record FriendRequestContent : Type := mk_request { fq_card : FriendCard; fq_shared : option SharedFriendCard }.

(** [serde_json]: the derived codec of a card, and the [shared] member of an object. *)
Inductive shared_member : Type := NoMember | StringMember (s : bytes) | OtherMember.

Class CardJson := {
  card_to_json : FriendCard -> option bytes;
  card_of_json : bytes -> option FriendCard;
  shared_member_of_json : bytes -> option shared_member;
  with_shared_member : bytes -> bytes -> option bytes;
}.

(** What is printed reads back. *)
Class CardJsonLaws (J : CardJson) : Prop := {
  card_json_round_trip : forall c json, card_to_json c = Some json -> card_of_json json = Some c;
}.

(** * Validation *)

Definition opt_within (limit : Z) (o : option bytes) : bool :=
  match o with Some v => blen v <=? limit | None => true end.

Definition opt_exactly (n : Z) (o : option bytes) : bool :=
  match o with Some v => blen v =? n | None => true end.

Definition validate_friend_card (card : FriendCard) : result CoreError unit :=
  _ ← ensure (blen (fc_name card) <=? MAX_DISPLAY_NAME_BYTES) (InvalidFriendCard "display name exceeds 128 UTF-8 bytes");
  _ ← ensure (opt_within MAX_RELAY_URL_BYTES (fc_relay_url card)) (InvalidFriendCard "relay URL is too long");
  _ ← ensure (opt_within MAX_RELAY_TOKEN_BYTES (fc_relay_token card)) (InvalidFriendCard "relay token is too long");
  _ ← ensure (blen (fc_sign_pk card) =? 32) (InvalidKeyLength 32 (as_u32 (blen (fc_sign_pk card))));
  _ ← ensure (blen (fc_agree_pk card) =? 32) (InvalidKeyLength 32 (as_u32 (blen (fc_agree_pk card))));
  _ ← ensure (opt_exactly FRIEND_CARD_SIGNATURE_LEN (fc_signature card)) SignatureInvalid;
  ensure (opt_exactly ROSTER_HEAD_HASH_LEN (fc_roster_head_hash card)) (InvalidFriendCard "roster head hash must be 32 bytes").

Definition validate_shared_card_shape (shared : SharedFriendCard) : result CoreError unit :=
  _ ← ensure (sh_version shared =? SHARED_CARD_VERSION) (InvalidFriendCard "unknown shared card version");
  _ ← validate_friend_card (sh_card shared);
  _ ← ensure (blen (sh_sharer_user_id shared) =? 16) (Malformed "invalid sharer UserID");
  _ ← ensure (blen (sh_signature shared) =? 64) (Malformed "invalid shared card signature length");
  ensure (negb ((sh_expires_at_ms shared <=? sh_issued_at_ms shared)
                || (SHARED_CARD_LIFETIME_MS <? i64_saturating_sub (sh_expires_at_ms shared) (sh_issued_at_ms shared))))
    (Malformed "invalid shared card validity window").

(** * The signed bytes *)

Definition push_opt_len_prefixed (value : option bytes) : bytes :=
  match value with None => push_u8 0 | Some bs => push_u8 1 ++ push_len_prefixed bs end.

Definition friend_card_signed_bytes (card : FriendCard) : bytes :=
  FRIEND_CARD_SIGN_DOMAIN ++ push_len_prefixed (fc_sign_pk card) ++ push_len_prefixed (fc_agree_pk card)
  ++ push_opt_len_prefixed (fc_relay_url card) ++ push_opt_len_prefixed (fc_relay_token card)
  ++ push_len_prefixed (fc_name card)
  ++ match fc_roster_head_hash card with Some hash => push_len_prefixed hash | None => [] end.

(** * Binary layouts *)

Definition encode_opt_field (value : option bytes) : bytes :=
  match value with Some v => push_u8 1 ++ write_bytes16 v | None => push_u8 0 end.

Definition encode_friend_card_binary (card : FriendCard) : result CoreError bytes :=
  _ ← validate_friend_card card;
  _ ← ensure (blen (fc_name card) <=? U8_MAX) (InvalidFriendCard "display name too long to encode");
  Ok (fc_sign_pk card ++ fc_agree_pk card ++ push_u8 (blen (fc_name card)) ++ fc_name card
      ++ encode_opt_field (fc_relay_url card) ++ encode_opt_field (fc_relay_token card)).

Definition encode_v3_url_field (value : option bytes) : bytes :=
  match value with
  | None => push_u8 V3_URL_TAG_NONE
  | Some url => if decide (url = OFFICIAL_RELAY_URL) then push_u8 V3_URL_TAG_OFFICIAL
                else push_u8 V3_URL_TAG_EXPLICIT ++ write_bytes16 url
  end.

(** Lower-case hexadecimal digits only. *)
Definition hex_value (b : byte) : option Z :=
  let z := Z_of_byte b in
  if (48 <=? z) && (z <=? 57) then Some (z - 48) else if (97 <=? z) && (z <=? 102) then Some (z - 87) else None.

Fixpoint pack_pairs (s : bytes) : option bytes :=
  match s with
  | [] => Some []
  | a :: b :: s => a ← hex_value a; b ← hex_value b; rest ← pack_pairs s; Some (byte_of_Z (Z.lor (Z.shiftl a 4) b) :: rest)
  | [_] => None
  end.

Definition packable_hex_bytes (token : bytes) : option bytes :=
  if bool_decide (token = []) || Z.odd (blen token) || (V3_MAX_PACKED_HEX_CHARS <? blen token) then None else pack_pairs token.

(** [char::from_digit(n, 16)] *)
Definition hex_char (n : Z) : byte := if n <? 10 then byte_of_Z (48 + n) else byte_of_Z (87 + n).

Definition hex_string (bs : bytes) : bytes :=
  bs ≫= fun b => [hex_char (Z.shiftr (Z_of_byte b) 4); hex_char (Z.land (Z_of_byte b) 15)].

Definition encode_v3_token_field (value : option bytes) : bytes :=
  match value with
  | None => push_u8 V3_TOKEN_TAG_NONE
  | Some token =>
      match packable_hex_bytes token with
      | Some raw => push_u8 V3_TOKEN_TAG_HEX ++ push_u8 (blen raw) ++ raw
      | None => push_u8 V3_TOKEN_TAG_VERBATIM ++ write_bytes16 token
      end
  end.

Definition encode_v3_signature_field (value : option bytes) : result CoreError bytes :=
  match value with
  | None => Ok (push_u8 V3_SIG_TAG_NONE)
  | Some sig => _ ← ensure (blen sig =? FRIEND_CARD_SIGNATURE_LEN) SignatureInvalid; Ok (push_u8 V3_SIG_TAG_PRESENT ++ sig)
  end.

Definition encode_friend_card_binary_v3 (card : FriendCard) : result CoreError bytes :=
  _ ← validate_friend_card card;
  _ ← ensure (blen (fc_name card) <=? U8_MAX) (InvalidFriendCard "display name too long to encode");
  sig ← encode_v3_signature_field (fc_signature card);
  Ok (fc_sign_pk card ++ fc_agree_pk card ++ push_u8 (blen (fc_name card)) ++ fc_name card
      ++ encode_v3_url_field (fc_relay_url card) ++ encode_v3_token_field (fc_relay_token card) ++ sig).

Definition encode_v4_roster_head_field (hash : option bytes) : result CoreError bytes :=
  match hash with
  | None => Ok (push_u8 V4_ROSTER_TAG_NONE)
  | Some hash => _ ← ensure (blen hash =? ROSTER_HEAD_HASH_LEN) (InvalidFriendCard "roster head hash must be 32 bytes");
                 Ok (push_u8 V4_ROSTER_TAG_HASH ++ hash)
  end.

Definition encode_friend_card_binary_v4 (card : FriendCard) : result CoreError bytes :=
  out ← encode_friend_card_binary_v3 card;
  head ← encode_v4_roster_head_field (fc_roster_head_hash card);
  Ok (out ++ head).

#[local] Instance card_reader : Reader CoreError :=
  {| truncated := InvalidFriendCard "truncated friend card"; trailing := InvalidFriendCard "trailing bytes after friend card" |}.

(** [str::from_utf8] of what was read. *)
Definition utf8_or_err (bs : bytes) : reader CoreError bytes :=
  _ ← guard_ (utf8_valid bs) (InvalidFriendCard "invalid utf-8"); mret bs.

Definition read_u16_string : reader CoreError bytes := bs ← Cursor.take_bytes16; utf8_or_err bs.

Definition decode_opt_field : reader CoreError (option bytes) :=
  flag ← Cursor.take_u8;
  if flag =? 0 then mret None
  else if flag =? 1 then v ← read_u16_string; mret (Some v)
  else lift (Err (InvalidFriendCard "invalid optional-field flag")).

Definition decode_v3_url_field : reader CoreError (option bytes) :=
  tag ← Cursor.take_u8;
  if tag =? V3_URL_TAG_NONE then mret None
  else if tag =? V3_URL_TAG_EXPLICIT then v ← read_u16_string; mret (Some v)
  else if tag =? V3_URL_TAG_OFFICIAL then mret (Some OFFICIAL_RELAY_URL)
  else lift (Err (InvalidFriendCard "invalid relay URL tag")).

Definition decode_v3_token_field : reader CoreError (option bytes) :=
  tag ← Cursor.take_u8;
  if tag =? V3_TOKEN_TAG_NONE then mret None
  else if tag =? V3_TOKEN_TAG_VERBATIM then v ← read_u16_string; mret (Some v)
  else if tag =? V3_TOKEN_TAG_HEX then
    len ← Cursor.take_u8;
    _ ← guard_ (negb (len =? 0)) (InvalidFriendCard "empty packed relay token");
    raw ← Cursor.take len;
    mret (Some (hex_string raw))
  else lift (Err (InvalidFriendCard "invalid relay token tag")).

Definition decode_v3_signature_field : reader CoreError (option bytes) :=
  tag ← Cursor.take_u8;
  if tag =? V3_SIG_TAG_NONE then mret None
  else if tag =? V3_SIG_TAG_PRESENT then sig ← Cursor.take FRIEND_CARD_SIGNATURE_LEN; mret (Some sig)
  else lift (Err (InvalidFriendCard "invalid signature tag")).

Definition decode_v4_roster_head_field : reader CoreError (option bytes) :=
  tag ← Cursor.take_u8;
  if tag =? V4_ROSTER_TAG_NONE then mret None
  else if tag =? V4_ROSTER_TAG_HASH then hash ← Cursor.take ROSTER_HEAD_HASH_LEN; mret (Some hash)
  else lift (Err (InvalidFriendCard "invalid roster-head tag")).

(** The two keys and the name, which every layout starts with. *)
Definition read_keys_and_name : reader CoreError (bytes * bytes * bytes) :=
  sign_pk ← Cursor.take 32;
  agree_pk ← Cursor.take 32;
  name_len ← Cursor.take_u8;
  name_bytes ← Cursor.take name_len;
  name ← utf8_or_err name_bytes;
  mret (sign_pk, agree_pk, name).

Definition read_card_v2 : reader CoreError FriendCard :=
  keys ← read_keys_and_name;
  relay_url ← decode_opt_field;
  relay_token ← decode_opt_field;
  _ ← Cursor.finish;
  let card := mk_card keys.2 keys.1.1 keys.1.2 relay_url relay_token None None in
  _ ← lift (validate_friend_card card);
  mret card.

Definition decode_friend_card_binary (bs : bytes) : result CoreError FriendCard := Cursor.run read_card_v2 bs.

(** * Link texts *)

(** [str::find]: what follows the first occurrence of a text. *)
Fixpoint after_first (pat s : bytes) : option bytes :=
  match strip_prefix pat s with
  | Some rest => Some rest
  | None => match s with [] => None | _ :: s' => after_first pat s' end
  end.

Definition link_char (b : byte) : bool := is_ascii_alphanumeric (Z_of_byte b) || bool_decide (b = x5f) || bool_decide (b = x2d).

Fixpoint take_while (f : byte -> bool) (s : bytes) : bytes :=
  match s with b :: s' => if f b then b :: take_while f s' else [] | [] => [] end.

Definition extract_link_body (text prefix : bytes) : option bytes :=
  match strip_prefix prefix text with
  | Some rest => Some rest
  | None => take_while link_char <$> after_first prefix text
  end.

Definition is_ascii_digit (b : byte) : bool := (48 <=? Z_of_byte b) && (Z_of_byte b <=? 57).

(** [digits.parse::<u32>()], saturating where the caller does. *)
Definition parse_u32_or_max (digits : bytes) : Z :=
  match parse_u64 digits with Some v => if v <=? U32_MAX then v else U32_MAX | None => U32_MAX end.

Definition parse_scheme_version_digits (rest : bytes) : option Z :=
  let digits := take_while is_ascii_digit rest in
  match drop (length digits) rest with
  | [] => None
  | b :: _ =>
      if negb (bool_decide (b = x3a)) || bool_decide (digits = []) then None
      else if bool_decide (head digits = Some x30) && (1 <? blen digits) then Some U32_MAX
      else Some (parse_u32_or_max digits)
  end.

(** The loop over the occurrences of the name: each round shortens the text. *)
Fixpoint scheme_versions (fuel : nat) (text name : bytes) : list Z :=
  match fuel with
  | O => []
  | S fuel =>
      match after_first name text with
      | None => []
      | Some rest => option_list (parse_scheme_version_digits rest) ++ scheme_versions fuel rest name
      end
  end.

Definition cruise_scheme_versions (text name : bytes) : list Z := scheme_versions (S (length text)) text name.

Definition cruise_scheme_version (text name : bytes) : option Z := head (cruise_scheme_versions text name).

Definition unsupported_link_error (text : bytes) : option CoreError :=
  let friend_versions := cruise_scheme_versions text (str "CMFRIEND") in
  if negb (bool_decide (friend_versions = []))
     && forallb (fun v => (v =? 0) || (MAX_PARSED_FRIEND_CARD_VERSION <? v)) friend_versions then Some UnsupportedLink
  else if bool_decide (is_Some (after_first DEVICE_LINK_PREFIX text)) then Some DeviceLinkOffer
  else if bool_decide (is_Some (cruise_scheme_version text (str "CMLINK"))) then Some UnsupportedLink
  else if match cruise_scheme_version text (str "CMSHARE") with Some v => negb (v =? 1) | None => false end then Some UnsupportedLink
  else None.

(** [chars().filter(|c| !c.is_whitespace())] *)
Definition without_whitespace (s : bytes) : bytes :=
  match utf8_chars s with
  | Some cs => concat (encode_utf8 <$> filter (fun c => is_whitespace c = false) cs)
  | None => s
  end.

Section cards.
Context `{C : Crypto} `{S : SealCrypto} `{B : Base64} `{J : CardJson}.

(** What [OsRng] drew. *)
Definition generate_identity (sign_sk agree_sk : bytes) : Identity :=
  mk_identity (derive_user_id (ed25519_public sign_sk)) (ed25519_public sign_sk) sign_sk (x25519_public agree_sk) agree_sk.

Definition friend_card_user_id (card : FriendCard) : bytes := derive_user_id (fc_sign_pk card).

Definition sign_friend_card (card : FriendCard) (sign_sk : bytes) : result CoreError bytes :=
  signing_key ← key32 sign_sk; Ok (ed25519_sign signing_key (friend_card_signed_bytes card)).

Definition verify_friend_card_self_signature (card : FriendCard) : result CoreError unit :=
  match fc_signature card with
  | None => Ok tt
  | Some sig => verify_raw (fc_sign_pk card) (friend_card_signed_bytes card) sig
  end.

Definition with_signature (card : FriendCard) (sig : option bytes) : FriendCard :=
  mk_card (fc_name card) (fc_sign_pk card) (fc_agree_pk card) (fc_relay_url card) (fc_relay_token card) sig (fc_roster_head_hash card).

Definition make_friend_card (name : bytes) (identity : Identity) (relay_url relay_token : option bytes) : result CoreError bytes :=
  let relay_token := t ← relay_deposit_token_for <$> relay_token; if decide (t = []) then None else Some t in
  let card := mk_card name (id_sign_pk identity) (id_agree_pk identity) relay_url relay_token None None in
  _ ← validate_friend_card card;
  sig ← sign_friend_card card (id_sign_sk identity);
  json ← option_ok (card_to_json (with_signature card (Some sig))) (InvalidFriendCard "json");
  _ ← ensure (blen json <=? MAX_FRIEND_CARD_JSON_BYTES) (InvalidFriendCard "friend card is too large");
  Ok json.

Definition friend_card_from_json (json : bytes) : result CoreError FriendCard :=
  _ ← ensure (blen json <=? MAX_FRIEND_CARD_JSON_BYTES) (InvalidFriendCard "friend card is too large");
  card ← option_ok (card_of_json json) (InvalidFriendCard "invalid card JSON");
  _ ← validate_friend_card card;
  Ok card.

Definition parse_friend_card (json : bytes) : result CoreError FriendCard :=
  card ← friend_card_from_json json;
  _ ← verify_friend_card_self_signature card;
  Ok card.

Definition make_friend_link (card_json : bytes) : result CoreError bytes :=
  card ← friend_card_from_json card_json;
  _ ← ensure (negb (bool_decide (is_Some (fc_roster_head_hash card)) && bool_decide (is_Some (fc_signature card))
                    && negb EMIT_FRIEND_LINK_V4))
        (InvalidFriendCard "a signed card with a roster head cannot be emitted as CMFRIEND3");
  if EMIT_FRIEND_LINK_V4 then
    binary ← encode_friend_card_binary_v4 card; Ok (FRIEND_LINK_PREFIX_V4 ++ b64_encode binary)
  else if EMIT_FRIEND_LINK_V3 then
    binary ← encode_friend_card_binary_v3 card; Ok (FRIEND_LINK_PREFIX_V3 ++ b64_encode binary)
  else binary ← encode_friend_card_binary card; Ok (FRIEND_LINK_PREFIX_V2 ++ b64_encode binary).

Definition read_card_v3 : reader CoreError FriendCard :=
  keys ← read_keys_and_name;
  relay_url ← decode_v3_url_field;
  relay_token ← decode_v3_token_field;
  sig ← decode_v3_signature_field;
  _ ← Cursor.finish;
  let card := mk_card keys.2 keys.1.1 keys.1.2 relay_url relay_token sig None in
  _ ← lift (validate_friend_card card);
  _ ← lift (verify_friend_card_self_signature card);
  mret card.

Definition decode_friend_card_binary_v3 (bs : bytes) : result CoreError FriendCard := Cursor.run read_card_v3 bs.

Definition read_card_v4 : reader CoreError FriendCard :=
  keys ← read_keys_and_name;
  relay_url ← decode_v3_url_field;
  relay_token ← decode_v3_token_field;
  sig ← decode_v3_signature_field;
  hash ← decode_v4_roster_head_field;
  let card := mk_card keys.2 keys.1.1 keys.1.2 relay_url relay_token sig hash in
  _ ← lift (validate_friend_card card);
  _ ← lift (verify_friend_card_self_signature card);
  mret card.

Definition decode_friend_card_binary_v4 (bs : bytes) : result CoreError FriendCard := Cursor.run read_card_v4 bs.

(** The white space is dropped, the rest is base64. *)
Definition decode_link_body (encoded : bytes) : result CoreError bytes :=
  option_ok (b64_decode_opt (without_whitespace encoded)) (InvalidFriendCard "invalid base64").

Definition parse_friend_text (text : bytes) : result CoreError FriendCard :=
  _ ← ensure (blen text <=? MAX_FRIEND_TEXT_BYTES) (InvalidFriendCard "shared friend text is too large");
  let trimmed := trim text in
  match unsupported_link_error trimmed with
  | Some e => Err e
  | None =>
  match extract_link_body trimmed FRIEND_LINK_PREFIX_V4 with
  | Some encoded => binary ← decode_link_body encoded; decode_friend_card_binary_v4 binary
  | None =>
  match extract_link_body trimmed FRIEND_LINK_PREFIX_V3 with
  | Some encoded => binary ← decode_link_body encoded; decode_friend_card_binary_v3 binary
  | None =>
  match extract_link_body trimmed FRIEND_LINK_PREFIX_V2 with
  | Some encoded => binary ← decode_link_body encoded; decode_friend_card_binary binary
  | None =>
  match extract_link_body trimmed FRIEND_LINK_PREFIX with
  | Some encoded =>
      json ← decode_link_body encoded;
      _ ← ensure (utf8_valid json) (InvalidFriendCard "invalid utf-8");
      parse_friend_card json
  | None => match parse_friend_card trimmed with
            | Ok card => Ok card
            | Err _ => Err (InvalidFriendCard "not a CruiseMesh friend card")
            end
  end end end end end.

(** * Cards passed on *)

Definition shared_card_body_bytes (shared : SharedFriendCard) : result CoreError bytes :=
  _ ← ensure (blen (sh_sharer_user_id shared) =? 16) (Malformed "invalid sharer UserID");
  card_binary ← encode_friend_card_binary (sh_card shared);
  _ ← ensure (blen card_binary <=? U16_MAX) (InvalidFriendCard "shared card is too large");
  Ok (push_u8 (sh_version shared) ++ write_bytes16 card_binary ++ sh_sharer_user_id shared
      ++ be_bytes 8 (sh_shared_policy_revision shared) ++ be_bytes 8 (sh_issued_at_ms shared) ++ be_bytes 8 (sh_expires_at_ms shared)).

Definition shared_card_signed_bytes (shared : SharedFriendCard) : result CoreError bytes :=
  body ← shared_card_body_bytes shared; Ok (SHARED_CARD_SIGN_DOMAIN ++ body).

Definition with_shared_signature (s : SharedFriendCard) (sig : bytes) : SharedFriendCard :=
  mk_shared (sh_version s) (sh_card s) (sh_sharer_user_id s) (sh_shared_policy_revision s) (sh_issued_at_ms s) (sh_expires_at_ms s) sig.

Definition create_shared_friend_card (sharer : Identity) (card : FriendCard) (shared_policy_revision now_ms : Z)
  : result CoreError SharedFriendCard :=
  _ ← validate_friend_card card;
  _ ← ensure (blen (id_user_id sharer) =? 16) (Malformed "invalid sharer UserID");
  let shared := mk_shared SHARED_CARD_VERSION card (id_user_id sharer) shared_policy_revision now_ms
                  (i64_saturating_add now_ms SHARED_CARD_LIFETIME_MS) [] in
  signing_key ← key32 (id_sign_sk sharer);
  signed ← shared_card_signed_bytes shared;
  Ok (with_shared_signature shared (ed25519_sign signing_key signed)).

Definition encode_shared_friend_card (shared : SharedFriendCard) : result CoreError bytes :=
  _ ← validate_shared_card_shape shared;
  out ← shared_card_body_bytes shared;
  Ok (out ++ sh_signature shared).

Definition read_shared_card : reader CoreError SharedFriendCard :=
  version ← Cursor.take_u8;
  _ ← guard_ (version =? SHARED_CARD_VERSION) (InvalidFriendCard "unknown shared card version");
  card_binary ← Cursor.take_bytes16;
  card ← lift (decode_friend_card_binary card_binary);
  sharer_user_id ← Cursor.take 16;
  shared_policy_revision ← Cursor.take_u64;
  issued_at_ms ← Cursor.take_i64;
  expires_at_ms ← Cursor.take_i64;
  sig ← Cursor.take 64;
  _ ← Cursor.finish;
  let shared := mk_shared version card sharer_user_id shared_policy_revision issued_at_ms expires_at_ms sig in
  _ ← lift (validate_shared_card_shape shared);
  mret shared.

Definition decode_shared_friend_card (bs : bytes) : result CoreError SharedFriendCard := Cursor.run read_shared_card bs.

Definition make_shared_contact_code (shared : SharedFriendCard) : result CoreError bytes :=
  binary ← encode_shared_friend_card shared; Ok (SHARED_CARD_PREFIX ++ b64_encode binary).

Definition parse_friend_import (text : bytes) : result CoreError FriendImport :=
  _ ← ensure (blen text <=? MAX_FRIEND_TEXT_BYTES) (InvalidFriendCard "shared friend text is too large");
  let trimmed := trim text in
  match unsupported_link_error trimmed with
  | Some e => Err e
  | None =>
  match extract_link_body trimmed SHARED_CARD_PREFIX with
  | Some encoded => binary ← decode_link_body encoded; shared ← decode_shared_friend_card binary; Ok (Shared shared)
  | None => card ← parse_friend_text text; Ok (Direct card)
  end end.

Definition shared_card_expired (shared : SharedFriendCard) (now_ms : Z) : bool := sh_expires_at_ms shared <? now_ms.

Definition verify_shared_friend_card (shared : SharedFriendCard) (sharer_sign_pk expected_card_user_id : bytes)
  (expected_policy_revision now_ms : Z) : result CoreError bool :=
  match validate_shared_card_shape shared with
  | Err _ => Ok false
  | Ok _ =>
  if negb (bool_decide (derive_user_id (fc_sign_pk (sh_card shared)) = expected_card_user_id))
     || negb (bool_decide (derive_user_id sharer_sign_pk = sh_sharer_user_id shared))
     || negb (sh_shared_policy_revision shared =? expected_policy_revision)
     || (now_ms <? i64_saturating_sub (sh_issued_at_ms shared) SHARED_CARD_CLOCK_SKEW_MS)
     || (i64_saturating_add (sh_expires_at_ms shared) SHARED_CARD_CLOCK_SKEW_MS <? now_ms)
  then Ok false else
  _ ← ensure (blen sharer_sign_pk =? 32) (key_len_err 32 (blen sharer_sign_pk));
  _ ← ensure (ed25519_key_ok sharer_sign_pk) (Wire.Crypto "invalid Ed25519 public key");
  _ ← ensure (blen (sh_signature shared) =? 64) (Malformed "invalid shared card signature length");
  signed ← shared_card_signed_bytes shared;
  Ok (ed25519_verify sharer_sign_pk signed (sh_signature shared))
  end.

Definition make_shared_friend_request_payload (card_json : bytes) (shared : SharedFriendCard) : result CoreError bytes :=
  _ ← parse_friend_card card_json;
  binary ← encode_shared_friend_card shared;
  json ← option_ok (with_shared_member card_json (b64_encode binary)) (InvalidFriendCard "friend card is not an object");
  _ ← ensure (blen json <=? MAX_FRIEND_CARD_JSON_BYTES) (InvalidFriendCard "friend request payload is too large");
  Ok json.

Definition parse_friend_request_content (json : bytes) : result CoreError FriendRequestContent :=
  card ← parse_friend_card json;
  member ← option_ok (shared_member_of_json json) (InvalidFriendCard "invalid friend request JSON");
  shared ← match member with
           | NoMember => Ok None
           | StringMember encoded =>
               binary ← option_ok (b64_decode_opt encoded) (InvalidFriendCard "invalid base64");
               shared ← decode_shared_friend_card binary;
               Ok (Some shared)
           | OtherMember => Err (InvalidFriendCard "invalid shared tail")
           end;
  Ok (mk_request card shared).

End cards.

(** * Facts: packed hexadecimal *)

Lemma hex_value_spec b x : hex_value b = Some x -> hex_char x = b /\ 0 <= x < 16.
Proof.
  unfold hex_value. intros H. pose proof (Z_of_byte_range b).
  case_match eqn:E1; [|case_match eqn:E2; [|done]]; injection H as <-; bools; (split; [|lia]); apply Z_of_byte_inj;
    unfold hex_char; (case_match eqn:E3; bools; rewrite Z_of_byte_of_Z_small; lia).
Qed.

Lemma nibbles_split : forallb (fun x => forallb (fun y =>
    let b := byte_of_Z (Z.lor (Z.shiftl x 4) y) in (Z.shiftr (Z_of_byte b) 4 =? x) && (Z.land (Z_of_byte b) 15 =? y))
  (seqZ 0 16)) (seqZ 0 16) = true.
Proof. vm_compute. reflexivity. Qed.

Lemma nibbles x y : 0 <= x < 16 -> 0 <= y < 16 ->
  let b := byte_of_Z (Z.lor (Z.shiftl x 4) y) in Z.shiftr (Z_of_byte b) 4 = x /\ Z.land (Z_of_byte b) 15 = y.
Proof.
  intros Hx Hy. pose proof nibbles_split as H. rewrite forallb_forall in H.
  specialize (H x ltac:(apply list_elem_of_In, elem_of_seqZ; lia)). cbv beta in H. rewrite forallb_forall in H.
  specialize (H y ltac:(apply list_elem_of_In, elem_of_seqZ; lia)). cbv beta zeta in H. bools. done.
Qed.

(** What packs is the two digits of every byte. *)
Lemma pack_pairs_spec n : forall s raw, (length s <= n)%nat -> pack_pairs s = Some raw ->
  hex_string raw = s /\ blen s = 2 * blen raw.
Proof.
  induction n as [|n IH]; intros [|a [|b s]] raw Hl H; cbn in Hl; try lia; try discriminate;
    try (injection H as <-; done).
  cbn [pack_pairs] in H. apply bind_Some in H as (x & Hx & (y & Hy & (rest & Hr & [= <-])%bind_Some)%bind_Some).
  apply IH in Hr as [Hs Hlen]; [|lia]. apply hex_value_spec in Hx as [<- Hx]. apply hex_value_spec in Hy as [<- Hy].
  destruct (nibbles x y Hx Hy) as [H1 H2]. unfold hex_string in *. cbn [mbind list_bind]. rewrite H1, H2.
  split; [cbn [app]; by rewrite Hs|]. rewrite !blen_cons. lia.
Qed.

Lemma packable_spec token raw : packable_hex_bytes token = Some raw ->
  hex_string raw = token /\ 0 < blen raw <= U8_MAX.
Proof.
  unfold packable_hex_bytes. case_match eqn:E; [done|]. bools. intros Hp.
  destruct (pack_pairs_spec _ token raw (le_n _) Hp) as [Hs Hl]. split; [done|].
  unfold V3_MAX_PACKED_HEX_CHARS in *. destruct raw; [|rewrite blen_cons in *; pose proof (blen_nonneg raw); ints].
  exfalso. by cbn in Hs.
Qed.

(** * Facts: the layouts *)

(** A card's texts are [String]s. *)
Record card_typed (c : FriendCard) : Prop := {
  ct_name : utf8_valid (fc_name c) = true;
  ct_url : from_option (fun u => utf8_valid u = true) True (fc_relay_url c);
  ct_token : from_option (fun t => utf8_valid t = true) True (fc_relay_token c);
}.

Lemma validate_card_spec c : validate_friend_card c = Ok tt <->
  blen (fc_name c) <= MAX_DISPLAY_NAME_BYTES /\ opt_within MAX_RELAY_URL_BYTES (fc_relay_url c) = true
  /\ opt_within MAX_RELAY_TOKEN_BYTES (fc_relay_token c) = true /\ blen (fc_sign_pk c) = 32 /\ blen (fc_agree_pk c) = 32
  /\ opt_exactly FRIEND_CARD_SIGNATURE_LEN (fc_signature c) = true /\ opt_exactly ROSTER_HEAD_HASH_LEN (fc_roster_head_hash c) = true.
Proof.
  unfold validate_friend_card. split; [intros H; inv_ok; bools; done|]. intros (H1 & H2 & H3 & H4 & H5 & H6 & H7).
  repeat (apply result_bind_ok; exists tt; split; [apply ensure_ok; first [done|by apply Z.leb_le|by apply Z.eqb_eq]|]).
  by apply ensure_ok.
Qed.

(** A tag is a byte. *)
Ltac tag := parse_step; [vm_compute; split; discriminate|]; cbn.

Lemma parses_utf8 bs r : utf8_valid bs = true -> parses (utf8_or_err bs) r bs r.
Proof. intros H. unfold utf8_or_err. parse_step; [done|]. apply parses_ret. Qed.

Lemma parses_u16_string s r : utf8_valid s = true -> blen s <= U16_MAX -> parses read_u16_string (write_bytes16 s ++ r) s r.
Proof. intros Hu Hl. unfold read_u16_string. parse_step; [done|]. by apply parses_utf8. Qed.

Lemma parses_keys_and_name c r : validate_friend_card c = Ok tt -> utf8_valid (fc_name c) = true ->
  parses read_keys_and_name (fc_sign_pk c ++ fc_agree_pk c ++ push_u8 (blen (fc_name c)) ++ fc_name c ++ r)
    (fc_sign_pk c, fc_agree_pk c, fc_name c) r.
Proof.
  intros (Hn & _ & _ & Hs & Ha & _)%validate_card_spec Hu. unfold read_keys_and_name, MAX_DISPLAY_NAME_BYTES in *.
  parse_step; [done|]. parse_step; [done|]. parse_step; [pose proof (blen_nonneg (fc_name c)); ints|].
  parse_step; [done|]. eapply parses_bind; [by apply parses_utf8|]. apply parses_ret.
Qed.

Lemma parses_opt_field o limit r : limit <= U16_MAX -> opt_within limit o = true ->
  from_option (fun v => utf8_valid v = true) True o -> parses decode_opt_field (encode_opt_field o ++ r) o r.
Proof.
  intros Hm Hl Hu. unfold decode_opt_field. destruct o as [v|]; cbn in *; tag; [|apply parses_ret].
  eapply parses_bind; [apply parses_u16_string; [done|bools; lia]|apply parses_ret].
Qed.

Lemma parses_v3_url o r : opt_within MAX_RELAY_URL_BYTES o = true -> from_option (fun v => utf8_valid v = true) True o ->
  parses decode_v3_url_field (encode_v3_url_field o ++ r) o r.
Proof.
  intros Hl Hu. unfold decode_v3_url_field, MAX_RELAY_URL_BYTES in *.
  destruct o as [v|]; cbn in *; [case_decide; subst|]; tag; [apply parses_ret| |apply parses_ret].
  eapply parses_bind; [apply parses_u16_string; [done|bools; ints]|apply parses_ret].
Qed.

Lemma parses_v3_token o r : opt_within MAX_RELAY_TOKEN_BYTES o = true -> from_option (fun v => utf8_valid v = true) True o ->
  parses decode_v3_token_field (encode_v3_token_field o ++ r) o r.
Proof.
  intros Hl Hu. unfold decode_v3_token_field, MAX_RELAY_TOKEN_BYTES in *.
  destruct o as [t|]; cbn in *; [destruct (packable_hex_bytes t) as [raw|] eqn:Hp|].
  - apply packable_spec in Hp as [<- Hr]. tag. parse_step; [ints|].
    parse_step; [apply negb_true_iff, Z.eqb_neq; lia|]. parse_step; [done|]. apply parses_ret.
  - tag. eapply parses_bind; [apply parses_u16_string; [done|bools; ints]|apply parses_ret].
  - tag. apply parses_ret.
Qed.

Lemma parses_v3_signature o bs r : encode_v3_signature_field o = Ok bs -> parses decode_v3_signature_field (bs ++ r) o r.
Proof.
  unfold encode_v3_signature_field, decode_v3_signature_field. destruct o as [sig|]; intros H; inv_ok; bools.
  - tag. parse_step; [done|]. apply parses_ret.
  - tag. apply parses_ret.
Qed.

Lemma parses_v4_head o bs r : encode_v4_roster_head_field o = Ok bs -> parses decode_v4_roster_head_field (bs ++ r) o r.
Proof.
  unfold encode_v4_roster_head_field, decode_v4_roster_head_field. destruct o as [h|]; intros H; inv_ok; bools.
  - tag. parse_step; [done|]. apply parses_ret.
  - tag. apply parses_ret.
Qed.

(** The card without what a layout has no room for. *)
Definition bare_card (c : FriendCard) : FriendCard :=
  mk_card (fc_name c) (fc_sign_pk c) (fc_agree_pk c) (fc_relay_url c) (fc_relay_token c) None None.

Definition headless_card (c : FriendCard) : FriendCard :=
  mk_card (fc_name c) (fc_sign_pk c) (fc_agree_pk c) (fc_relay_url c) (fc_relay_token c) (fc_signature c) None.

Lemma validate_bare c : validate_friend_card c = Ok tt -> validate_friend_card (bare_card c) = Ok tt.
Proof. rewrite !validate_card_spec. naive_solver. Qed.

Lemma validate_headless c : validate_friend_card c = Ok tt -> validate_friend_card (headless_card c) = Ok tt.
Proof. rewrite !validate_card_spec. naive_solver. Qed.

Section layouts.
Context `{C : Crypto}.

(** A card's signature stands, over the bytes the card itself spells. *)
Definition self_signed (c : FriendCard) : Prop := verify_friend_card_self_signature c = Ok tt.

Lemma binary_reads_back c bs : card_typed c -> encode_friend_card_binary c = Ok bs ->
  decode_friend_card_binary bs = Ok (bare_card c).
Proof.
  intros T H. unfold encode_friend_card_binary in H. inv_ok. bools. destruct a. rename Ha into V.
  pose proof (proj1 (validate_card_spec c) V) as (_ & Hu & Ht & _). destruct T.
  unfold decode_friend_card_binary. rewrite <-(app_nil_r (encode_opt_field (fc_relay_token c))).
  eapply parses_run with (r := []). unfold read_card_v2. eapply parses_bind; [by apply parses_keys_and_name|].
  eapply parses_bind; [by apply (parses_opt_field _ MAX_RELAY_URL_BYTES)|].
  eapply parses_bind; [by apply (parses_opt_field _ MAX_RELAY_TOKEN_BYTES)|].
  parse_step. eapply parses_bind; [by apply parses_lift, validate_bare|]. apply parses_ret.
Qed.

Lemma binary_v3_reads_back c bs : card_typed c -> self_signed (headless_card c) -> encode_friend_card_binary_v3 c = Ok bs ->
  decode_friend_card_binary_v3 bs = Ok (headless_card c).
Proof.
  intros T S H. unfold encode_friend_card_binary_v3 in H. inv_ok. bools. destruct a. rename Ha into V.
  pose proof (proj1 (validate_card_spec c) V) as (_ & Hu & Ht & _). destruct T. rename a1 into sig.
  unfold decode_friend_card_binary_v3. rewrite <-(app_nil_r sig).
  eapply parses_run with (r := []). unfold read_card_v3. eapply parses_bind; [by apply parses_keys_and_name|].
  eapply parses_bind; [by apply parses_v3_url|]. eapply parses_bind; [by apply parses_v3_token|].
  eapply parses_bind; [by apply parses_v3_signature|]. parse_step.
  eapply parses_bind; [by apply parses_lift, validate_headless|]. eapply parses_bind; [by apply parses_lift|]. apply parses_ret.
Qed.

Lemma binary_v4_reads_back c bs more : card_typed c -> self_signed c -> encode_friend_card_binary_v4 c = Ok bs ->
  decode_friend_card_binary_v4 (bs ++ more) = Ok c.
Proof.
  intros T S H. unfold encode_friend_card_binary_v4, encode_friend_card_binary_v3 in H. inv_ok. bools. destruct a1. rename Ha1 into V.
  pose proof (proj1 (validate_card_spec c) V) as (_ & Hu & Ht & _). destruct T.
  unfold decode_friend_card_binary_v4. rewrite <-!app_assoc.
  eapply parses_run with (r := more). unfold read_card_v4. eapply parses_bind; [by apply parses_keys_and_name|].
  eapply parses_bind; [by apply parses_v3_url|]. eapply parses_bind; [by apply parses_v3_token|].
  eapply parses_bind; [by apply parses_v3_signature|]. eapply parses_bind; [by apply parses_v4_head|]. cbn zeta. cbn [fst snd].
  destruct c. eapply parses_bind; [by apply parses_lift|]. eapply parses_bind; [by apply parses_lift|]. apply parses_ret.
Qed.

(** What each of the three binary layouts of a friend card encodes, it decodes: the second layout to the
    card without its signature and roster head, the third to the card without its roster head (where that
    card's own signature stands), the fourth to the card itself, whatever a later version appends. *)
Theorem card_layouts_roundtrip c : card_typed c ->
  (forall bs, encode_friend_card_binary c = Ok bs -> decode_friend_card_binary bs = Ok (bare_card c))
  /\ (forall bs, self_signed (headless_card c) -> encode_friend_card_binary_v3 c = Ok bs ->
        decode_friend_card_binary_v3 bs = Ok (headless_card c))
  /\ (forall bs more, self_signed c -> encode_friend_card_binary_v4 c = Ok bs -> decode_friend_card_binary_v4 (bs ++ more) = Ok c).
Proof.
  intros T. split_and!; intros; [by apply binary_reads_back|by apply binary_v3_reads_back|by apply binary_v4_reads_back].
Qed.

(** Every reader of a card checks its shape and its own signature. *)
Definition checked (c : FriendCard) : Prop := validate_friend_card c = Ok tt /\ self_signed c.

Ltac checked_card H :=
  apply run_inv in H as (? & H); repeat (let E := fresh "E" in apply bind_inv in H as (? & ? & E & H)); cbn zeta in *;
  repeat match goal with E : lift _ _ = Ok (?u, _) |- _ => apply lift_inv in E as [E ->]; destruct u end;
  injection H as <- <-; split; done.

Lemma decode_v2_checked bs c : decode_friend_card_binary bs = Ok c -> checked c.
Proof. intros H. checked_card H. Qed.

Lemma decode_v3_checked bs c : decode_friend_card_binary_v3 bs = Ok c -> checked c.
Proof. intros H. checked_card H. Qed.

Lemma decode_v4_checked bs c : decode_friend_card_binary_v4 bs = Ok c -> checked c.
Proof. intros H. checked_card H. Qed.

Context `{B : Base64} `{J : CardJson}.

Lemma parse_card_checked json c : parse_friend_card json = Ok c -> checked c.
Proof. unfold parse_friend_card, friend_card_from_json. intros H. inv_ok. by repeat match goal with u : () |- _ => destruct u end. Qed.

Lemma parse_text_checked text c : parse_friend_text text = Ok c -> checked c.
Proof.
  unfold parse_friend_text. intros H. apply result_bind_ok in H as (_ & _ & H). cbn zeta in H.
  repeat case_match; try discriminate; inv_ok; eauto using decode_v2_checked, decode_v3_checked, decode_v4_checked, parse_card_checked.
  all: simplify_eq; eauto using parse_card_checked.
Qed.

(** * Authenticity *)

(** What a card says, apart from its signature. *)
Definition unsigned_card (c : FriendCard) : FriendCard := with_signature c None.

Lemma len_prefixed_app_inj a b x y : blen a <= U64_MAX -> blen b <= U64_MAX ->
  push_len_prefixed a ++ x = push_len_prefixed b ++ y -> a = b /\ x = y.
Proof.
  unfold push_len_prefixed. intros Ha Hb H. rewrite <-!app_assoc in H. apply app_inj_1 in H as [Hl H]; [|by rewrite !length_be_bytes].
  apply (f_equal be_value) in Hl. rewrite !be_value_be_bytes_small in Hl by (pose proof (blen_nonneg a); pose proof (blen_nonneg b); change (256 ^ Z.of_nat 8) with 18446744073709551616; ints).
  apply app_inj_1 in H; [done|]. unfold blen in Hl. lia.
Qed.

Lemma opt_prefixed_app_inj limit a b x y : limit <= U64_MAX -> opt_within limit a = true -> opt_within limit b = true ->
  push_opt_len_prefixed a ++ x = push_opt_len_prefixed b ++ y -> a = b /\ x = y.
Proof.
  intros Hl Ha Hb. unfold push_opt_len_prefixed. rewrite !push_u8_eq.
  change (byte_of_Z 0) with x00. change (byte_of_Z 1) with x01.
  destruct a as [a|], b as [b|]; cbn [opt_within] in *; bools; rewrite <-?app_assoc; intros H; try discriminate.
  - apply app_inv_head in H. apply len_prefixed_app_inj in H as [-> ->]; [done|lia|lia].
  - by apply app_inv_head in H.
Qed.

Lemma card_signed_bytes_inj c d : validate_friend_card c = Ok tt -> validate_friend_card d = Ok tt ->
  friend_card_signed_bytes c = friend_card_signed_bytes d -> unsigned_card c = unsigned_card d.
Proof.
  intros (Hn & Hu & Ht & Hs & Ha & _ & Hh)%validate_card_spec (Hn' & Hu' & Ht' & Hs' & Ha' & _ & Hh')%validate_card_spec H.
  unfold friend_card_signed_bytes, MAX_DISPLAY_NAME_BYTES, MAX_RELAY_URL_BYTES, MAX_RELAY_TOKEN_BYTES, ROSTER_HEAD_HASH_LEN in *.
  apply app_inv_head in H.
  apply len_prefixed_app_inj in H as [E1 H]; [|ints|ints]. apply len_prefixed_app_inj in H as [E2 H]; [|ints|ints].
  apply (opt_prefixed_app_inj (2 * 1024) _ _ _ _ ltac:(done) Hu Hu') in H as [E3 H].
  apply (opt_prefixed_app_inj 1024 _ _ _ _ ltac:(done) Ht Ht') in H as [E4 H].
  apply len_prefixed_app_inj in H as [E5 H]; [|ints|ints].
  assert (fc_roster_head_hash c = fc_roster_head_hash d) as E6.
  { destruct (fc_roster_head_hash c) as [h|], (fc_roster_head_hash d) as [h'|]; cbn in Hh, Hh'; bools.
    - rewrite <-(app_nil_r (push_len_prefixed h)), <-(app_nil_r (push_len_prefixed h')) in H.
      apply len_prefixed_app_inj in H as [-> _]; [done|ints|ints].
    - exfalso. apply (f_equal blen) in H. unfold push_len_prefixed in H. rewrite blen_app, blen_be_bytes, blen_nil in H. lia.
    - exfalso. apply (f_equal blen) in H. unfold push_len_prefixed in H. rewrite blen_app, blen_be_bytes, blen_nil in H. lia.
    - done. }
  unfold unsigned_card, with_signature. congruence.
Qed.

(** A key whose holder signs cards only, and these ones. *)
Definition cards_signed_only (pk : bytes) (written : list FriendCard) : Prop :=
  Forall (fun w => validate_friend_card w = Ok tt) written
  /\ forall m sig, ed25519_verify pk m sig = true -> exists w, w ∈ written /\ m = friend_card_signed_bytes w.

(** A signed card that any text, link or QR reads as, in whatever layout, says field for field (name, both
    keys, mailbox, token, roster head) what the holder of its signing key signed; so nobody who passes a
    signed card on can change where its mail goes. *)
Theorem friend_card_authentic text c sig written :
  parse_friend_text text = Ok c -> fc_signature c = Some sig -> cards_signed_only (fc_sign_pk c) written ->
  exists w, w ∈ written /\ unsigned_card c = unsigned_card w.
Proof.
  intros [Hv Hs]%parse_text_checked Hsig [Hw Hk]. unfold self_signed, verify_friend_card_self_signature in Hs. rewrite Hsig in Hs.
  unfold verify_raw in Hs. inv_ok. apply Hk in Hs as (w & Hin & Hm). exists w. split; [done|].
  apply card_signed_bytes_inj; [done| |done]. by eapply Forall_forall in Hw.
Qed.

(** The fields of a card passed on, at their types. *)
Record shared_typed (s : SharedFriendCard) : Prop := {
  st_card : card_typed (sh_card s);
  st_version : in_u8 (sh_version s);
  st_revision : in_u64 (sh_shared_policy_revision s);
  st_issued : in_i64 (sh_issued_at_ms s);
  st_expires : in_i64 (sh_expires_at_ms s);
}.

(** What was passed on: the card as the second layout carries it, by whom, under which policy, and when. *)
Definition passed_on (s : SharedFriendCard) : SharedFriendCard :=
  mk_shared (sh_version s) (bare_card (sh_card s)) (sh_sharer_user_id s) (sh_shared_policy_revision s) (sh_issued_at_ms s)
    (sh_expires_at_ms s) [].

(** Unchecked reader of the signed body: [read_shared_card] without the signature and the checks. *)
Definition read_body : reader CoreError SharedFriendCard :=
  version ← Cursor.take_u8;
  card_binary ← Cursor.take_bytes16;
  card ← lift (decode_friend_card_binary card_binary);
  sharer_user_id ← Cursor.take 16;
  shared_policy_revision ← Cursor.take_u64;
  issued_at_ms ← Cursor.take_i64;
  expires_at_ms ← Cursor.take_i64;
  mret (mk_shared version card sharer_user_id shared_policy_revision issued_at_ms expires_at_ms []).

Lemma body_reads_back s body r : shared_typed s -> shared_card_body_bytes s = Ok body -> parses read_body (body ++ r) (passed_on s) r.
Proof.
  intros [Tc Tv Tr Ti Te] H. unfold shared_card_body_bytes in H. inv_ok. bools. rename Ha0 into Hb.
  apply (binary_reads_back _ _ Tc) in Hb. unfold read_body.
  parse_step; [done|]. parse_step; [done|]. eapply parses_bind; [by apply parses_lift|].
  do 4 (parse_step; [done|]). apply parses_ret.
Qed.

Lemma shared_bytes_inj s t m : shared_typed s -> shared_typed t ->
  shared_card_signed_bytes s = Ok m -> shared_card_signed_bytes t = Ok m -> passed_on s = passed_on t.
Proof.
  unfold shared_card_signed_bytes. intros Ts Tt Hs Ht. inv_ok. apply app_inv_head in Hs. subst a0.
  eapply body_reads_back with (r := []) in Ha0 as H1; [|done]. eapply body_reads_back with (r := []) in Ha as H2; [|done].
  destruct (H1 (Cursor.new _) (cursor_at_new _)) as (? & E1 & _). destruct (H2 (Cursor.new _) (cursor_at_new _)) as (? & E2 & _).
  congruence.
Qed.

(** A key whose holder passes on these cards only. *)
Definition shares_signed_only (pk : bytes) (written : list SharedFriendCard) : Prop :=
  Forall shared_typed written
  /\ forall m sig, ed25519_verify pk m sig = true -> exists w, w ∈ written /\ shared_card_signed_bytes w = Ok m.

(** A card passed on that verifies was passed on by the holder of the sharer's key, who signed this card's
    name, keys, mailbox and token, under the very policy revision the verifier expects; it is the card of the
    person the verifier expects, the sharer is named by the key, its window is at most a week, and the
    verifier's clock is in it up to a day. *)
Theorem shared_card_authentic s sharer_pk person revision now written :
  shared_typed s -> verify_shared_friend_card s sharer_pk person revision now = Ok true -> shares_signed_only sharer_pk written ->
  (exists w, w ∈ written /\ passed_on s = passed_on w)
  /\ derive_user_id (fc_sign_pk (sh_card s)) = person /\ derive_user_id sharer_pk = sh_sharer_user_id s
  /\ sh_shared_policy_revision s = revision
  /\ sh_issued_at_ms s < sh_expires_at_ms s <= sh_issued_at_ms s + SHARED_CARD_LIFETIME_MS
  /\ i64_saturating_sub (sh_issued_at_ms s) SHARED_CARD_CLOCK_SKEW_MS <= now <= i64_saturating_add (sh_expires_at_ms s) SHARED_CARD_CLOCK_SKEW_MS.
Proof.
  intros T H [Tw Hk]. unfold verify_shared_friend_card in H. destruct (validate_shared_card_shape s) as [u|e] eqn:V; [|done].
  case_match eqn:E; [done|]. inv_ok. bools. apply Hk in H as (w & Hin & Hm).
  unfold validate_shared_card_shape in V. inv_ok. bools.
  split_and!; try done; try lia.
  - exists w. split; [done|]. eapply shared_bytes_inj; try done. by eapply Forall_forall in Tw.
  - unfold SHARED_CARD_LIFETIME_MS in *. destruct T. vm_compute (7 * MS_PER_DAY) in *. ints.
Qed.

(** ** Texts with one colon *)

Lemma strip_prefix_app p s : strip_prefix p (p ++ s) = Some s.
Proof. unfold strip_prefix. by rewrite starts_with_app, drop_app_length. Qed.

Lemma after_first_spec pat s r : after_first pat s = Some r -> exists l, s = l ++ pat ++ r.
Proof.
  assert (forall t, strip_prefix pat t = Some r -> t = pat ++ r) as Hp.
  { intros t. unfold strip_prefix, RelayWire.starts_with. case_match eqn:E; [|done]. bools. intros [= <-]. rewrite <-E at 1. by rewrite take_drop. }
  induction s as [|b s IH]; cbn [after_first]; case_match eqn:E; intros H.
  1,3: injection H as ->; exists []; by apply Hp.
  - done.
  - destruct (IH H) as [l ->]. by exists (b :: l).
Qed.

Lemma one_colon q b q' b' : x3a ∉ q -> x3a ∉ b -> q ++ x3a :: b = q' ++ x3a :: b' -> q = q' /\ b = b'.
Proof.
  revert q'. induction q as [|c q IH]; intros [|c' q'] Hq Hb H; cbn in *.
  - injection H as ->. done.
  - injection H as <- ->. exfalso. set_solver.
  - injection H as -> _. exfalso. set_solver.
  - injection H as -> H. apply IH in H as [-> ->]; [done|set_solver|done].
Qed.

Lemma no_such_prefix name q body : x3a ∉ q -> x3a ∉ body -> bool_decide (name `suffix_of` q) = false ->
  after_first (name ++ [x3a]) (q ++ x3a :: body) = None.
Proof.
  intros Hq Hb Hn. destruct (after_first _ _) as [r|] eqn:E; [|done]. apply after_first_spec in E as [l E]. bools.
  exfalso. apply Hn. rewrite <-!app_assoc in E. cbn in E. rewrite app_assoc in E. apply one_colon in E as [-> _]; [|done|done]. by exists l.
Qed.

(** No position of the text before the colon starts the name and ends in digits. *)
Definition scheme_free (name q : bytes) : bool :=
  forallb (fun k => negb (forallb is_ascii_digit (drop k q) && bool_decide (name `suffix_of` take k q))) (List.seq 0%nat (Datatypes.S (length q))).

Lemma take_while_spec f s : exists r, s = take_while f s ++ r /\ Forall (fun b => f b = true) (take_while f s).
Proof.
  induction s as [|b s (r & IH & IHf)]; cbn; [by exists []|]. case_match eqn:E; [|by exists (b :: s)].
  exists r. split; [cbn; by f_equal|by constructor].
Qed.

Lemma version_digits_spec rest v : parse_scheme_version_digits rest = Some v ->
  exists digits r, rest = digits ++ x3a :: r /\ Forall (fun b => is_ascii_digit b = true) digits.
Proof.
  unfold parse_scheme_version_digits. destruct (take_while_spec is_ascii_digit rest) as (r & Hr & Hd).
  assert (drop (length (take_while is_ascii_digit rest)) rest = r) as -> by (rewrite Hr at 2; by rewrite drop_app_length).
  destruct r as [|b r]; [done|]. case_match eqn:E; [done|]. bools. subst b. intros _. eauto.
Qed.

Lemma scheme_versions_free fuel name q body : x3a ∉ q -> x3a ∉ body -> scheme_free name q = true ->
  forall text, (exists l, q ++ x3a :: body = l ++ text) -> scheme_versions fuel text name = [].
Proof.
  intros Hq Hb Hf. induction fuel as [|fuel IH]; intros text [l Hl]; [done|]. cbn [scheme_versions].
  destruct (after_first name text) as [rest|] eqn:E; [|done]. apply after_first_spec in E as [l' ->].
  rewrite (IH rest) by (exists (l ++ l' ++ name); by rewrite <-!app_assoc). rewrite app_nil_r.
  destruct (parse_scheme_version_digits rest) as [v|] eqn:Ev; [|done]. exfalso.
  apply version_digits_spec in Ev as (digits & r & -> & Hd).
  rewrite !app_assoc in Hl. apply one_colon in Hl as [-> _]; [|done|done].
  unfold scheme_free in Hf. rewrite forallb_forall in Hf.
  specialize (Hf (length ((l ++ l') ++ name)) ltac:(apply in_seq; rewrite (length_app _ digits); lia)). cbv beta in Hf.
  rewrite drop_app_length, take_app_length in Hf. apply negb_true_iff, andb_false_iff in Hf as [Hf|Hf].
  - apply not_true_iff_false in Hf. apply Hf. rewrite forallb_forall. intros b Hin. eapply Forall_forall in Hd; [exact Hd|]. by apply list_elem_of_In.
  - apply bool_decide_eq_false in Hf. apply Hf. by exists (l ++ l').
Qed.

(** ** Links *)

Context {BL : Base64Laws B}.

Lemma b64_no_colon bs : x3a ∉ b64_encode bs.
Proof. intros H. pose proof (b64_alphabet bs) as Ha. eapply Forall_forall in Ha; [|exact H]. by vm_compute in Ha. Qed.

Lemma b64_plain bs : Forall plain_byte (b64_encode bs).
Proof. eapply Forall_impl; [apply b64_alphabet|apply b64_char_plain]. Qed.

Lemma without_whitespace_plain s : Forall plain_byte s -> without_whitespace s = s.
Proof.
  intros Hs. assert (Forall (fun b => Z_of_byte b <= 127) s) as Ha
    by (eapply Forall_impl; [exact Hs|unfold plain_byte; cbn; lia]).
  unfold without_whitespace. rewrite utf8_chars_ascii by done.
  rewrite filter_all; [by apply encode_utf8_ascii_all|].
  apply Forall_fmap. eapply Forall_impl; [exact Hs|apply plain_not_whitespace].
Qed.

Lemma link_body_decodes bs : decode_link_body (b64_encode bs) = Ok bs.
Proof. unfold decode_link_body. by rewrite without_whitespace_plain, b64_round_trip by apply b64_plain. Qed.

(** A link text: a name and version without a colon, a colon, base64. *)
Definition link_text (q bs : bytes) : bytes := q ++ x3a :: b64_encode bs.

Lemma trim_link q bs : Forall plain_byte q -> trim (link_text q bs) = link_text q bs.
Proof. intros Hq. apply trim_plain, Forall_app. split; [done|]. constructor; [by vm_compute|apply b64_plain]. Qed.

Lemma no_such_link name q bs : x3a ∉ q -> bool_decide (name `suffix_of` q) = false -> after_first (name ++ [x3a]) (link_text q bs) = None.
Proof. intros Hq Hn. apply no_such_prefix; [done|apply b64_no_colon|done]. Qed.

Lemma versions_free name q bs : x3a ∉ q -> scheme_free name q = true -> cruise_scheme_versions (link_text q bs) name = [].
Proof. intros Hq Hf. eapply scheme_versions_free; [exact Hq|apply b64_no_colon|exact Hf|by exists []]. Qed.

Lemma versions_first name v q bs rest : q = name ++ rest -> parse_scheme_version_digits (rest ++ x3a :: b64_encode bs) = Some v ->
  exists vs, cruise_scheme_versions (link_text q bs) name = v :: vs.
Proof.
  intros -> Hv. unfold cruise_scheme_versions, link_text. cbn [scheme_versions]. rewrite <-app_assoc.
  assert (forall t, after_first name (name ++ t) = Some t) as ->
    by (intros t; unfold after_first; destruct (name ++ t) eqn:E; rewrite <-E, strip_prefix_app; done).
  rewrite Hv. cbn. eauto.
Qed.

Lemma v3_not_unsupported bs : unsupported_link_error (link_text (str "CMFRIEND3") bs) = None.
Proof.
  unfold unsupported_link_error.
  destruct (versions_first (str "CMFRIEND") 3 (str "CMFRIEND3") bs (str "3") eq_refl eq_refl) as [vs ->].
  rewrite (bool_decide_eq_false_2 (3 :: vs = [])) by done. cbn [negb andb forallb].
  change ((3 =? 0) || (MAX_PARSED_FRIEND_CARD_VERSION <? 3)) with false. cbn [andb].
  change DEVICE_LINK_PREFIX with (str "CMLINK1" ++ [x3a]). unfold cruise_scheme_version.
  rewrite (no_such_link (str "CMLINK1")) by first [by vm_compute|apply (bool_decide_unpack _); by vm_compute].
  rewrite !versions_free by first [by vm_compute|apply (bool_decide_unpack _); by vm_compute].
  rewrite bool_decide_eq_false_2 by (intros [? ?]; done). reflexivity.
Qed.

Lemma shared_not_unsupported bs : unsupported_link_error (link_text (str "CMSHARE1") bs) = None.
Proof.
  unfold unsupported_link_error. unfold cruise_scheme_version.
  destruct (versions_first (str "CMSHARE") 1 (str "CMSHARE1") bs (str "1") eq_refl eq_refl) as [vs ->].
  change DEVICE_LINK_PREFIX with (str "CMLINK1" ++ [x3a]).
  rewrite (no_such_link (str "CMLINK1")) by first [by vm_compute|apply (bool_decide_unpack _); by vm_compute].
  rewrite !versions_free by first [by vm_compute|apply (bool_decide_unpack _); by vm_compute].
  rewrite (bool_decide_eq_false_2 (is_Some (@None bytes))) by (intros [? ?]; done). reflexivity.
Qed.

Lemma v3_link_parses bs c : decode_friend_card_binary_v3 bs = Ok c -> blen bs <= 18000 ->
  parse_friend_text (FRIEND_LINK_PREFIX_V3 ++ b64_encode bs) = Ok c.
Proof.
  intros Hd Hl. change (FRIEND_LINK_PREFIX_V3 ++ b64_encode bs) with (link_text (str "CMFRIEND3") bs).
  unfold parse_friend_text. rewrite (proj2 (Z.leb_le _ _)).
  2: { unfold link_text. rewrite blen_app, blen_cons, b64_length. change (blen (str "CMFRIEND3")) with 9.
       unfold MAX_FRIEND_TEXT_BYTES. pose proof (Z.div_le_mono (blen bs * 4 + 2) 72002 3 ltac:(lia) ltac:(lia)). vm_compute (72002 / 3) in *. lia. }
  cbn [ensure mbind result_bind]. rewrite trim_link by (repeat constructor; vm_compute; discriminate).
  rewrite v3_not_unsupported. unfold extract_link_body at 1.
  replace (strip_prefix FRIEND_LINK_PREFIX_V4 _) with (@None bytes) by reflexivity.
  change FRIEND_LINK_PREFIX_V4 with (str "CMFRIEND4" ++ [x3a]).
  rewrite no_such_link by first [by vm_compute|apply (bool_decide_unpack _); by vm_compute]. cbn [fmap option_fmap option_map].
  unfold extract_link_body at 1.
  change (link_text (str "CMFRIEND3") bs) with (FRIEND_LINK_PREFIX_V3 ++ b64_encode bs) at 1. rewrite strip_prefix_app.
  by rewrite link_body_decodes.
Qed.

Lemma url_field_size o : opt_within MAX_RELAY_URL_BYTES o = true -> blen (encode_v3_url_field o) <= 3 + MAX_RELAY_URL_BYTES.
Proof.
  unfold encode_v3_url_field, MAX_RELAY_URL_BYTES. destruct o as [u|]; [case_decide|]; cbn [opt_within]; intros Hw; bools;
    rewrite ?blen_app, push_u8_eq; [vm_compute; discriminate| |vm_compute; discriminate].
  unfold blen at 2. rewrite length_write_bytes16. unfold blen in *. cbn [length]. lia.
Qed.

Lemma token_field_size o : opt_within MAX_RELAY_TOKEN_BYTES o = true -> blen (encode_v3_token_field o) <= 3 + MAX_RELAY_TOKEN_BYTES.
Proof.
  unfold encode_v3_token_field, MAX_RELAY_TOKEN_BYTES. destruct o as [t|]; cbn [opt_within]; intros H; bools.
  - destruct (packable_hex_bytes t) as [raw|] eqn:Hp; rewrite !blen_app, ?push_u8_eq.
    + apply packable_spec in Hp as [_ Hp]. unfold blen in *. cbn [length]. ints.
    + unfold blen at 2. rewrite length_write_bytes16. unfold blen in *. cbn [length]. lia.
  - rewrite push_u8_eq. vm_compute. discriminate.
Qed.

(** A valid card has a third-layout encoding, short enough for a link. *)
Lemma v3_encodes c : validate_friend_card c = Ok tt -> exists bs, encode_friend_card_binary_v3 c = Ok bs /\ blen bs <= 18000.
Proof.
  intros V. pose proof (proj1 (validate_card_spec c) V) as (Hn & Hu & Ht & Hs & Ha & Hsig & _).
  unfold encode_friend_card_binary_v3. rewrite V. cbn [mbind result_bind].
  unfold MAX_DISPLAY_NAME_BYTES in Hn. rewrite (proj2 (Z.leb_le _ _)) by ints. cbn [ensure mbind result_bind].
  assert (exists sig, encode_v3_signature_field (fc_signature c) = Ok sig /\ blen sig <= 65) as (sig & -> & Hl).
  { unfold encode_v3_signature_field. destruct (fc_signature c) as [sig|]; cbn in Hsig; [rewrite Hsig; bools|]; eexists; (split; [reflexivity|]);
      rewrite ?blen_app, push_u8_eq; [|vm_compute; discriminate]. rewrite Hsig. vm_compute. discriminate. }
  cbn [mbind result_bind]. eexists. split; [reflexivity|]. apply url_field_size in Hu. apply token_field_size in Ht.
  unfold MAX_RELAY_URL_BYTES, MAX_RELAY_TOKEN_BYTES in *. rewrite !blen_app, push_u8_eq, Hs, Ha. rewrite (blen_cons _ []), blen_nil. lia.
Qed.

Context `{S : SealCrypto} {SL : SealLaws C S} {JL : CardJsonLaws J}.

Lemma self_verifies sk m : verify_raw (ed25519_public sk) m (ed25519_sign sk m) = Ok tt.
Proof.
  unfold verify_raw. unfold is_len. rewrite public_ok, verify_sign, sign_length, public_length. done.
Qed.

(** The card [make_friend_card] signs: the token in it can post and no more. *)
Definition card_token (token : option bytes) : option bytes :=
  t ← relay_deposit_token_for <$> token; if decide (t = []) then None else Some t.

(** The card a person makes is the card another phone reads: its JSON makes a link, the link reads back as
    a card whose signature stands, with the name, the keys and the mailbox of its owner, and a post-only
    token in the place of the member token. *)
Theorem friend_link_roundtrip name identity url token json :
  identity_ok identity -> utf8_valid name = true ->
  from_option (fun u => utf8_valid u = true) True url -> from_option (fun t => utf8_valid t = true) True (card_token token) ->
  make_friend_card name identity url token = Ok json ->
  exists link sig, make_friend_link json = Ok link
    /\ parse_friend_text link = Ok (mk_card name (id_sign_pk identity) (id_agree_pk identity) url (card_token token) (Some sig) None)
    /\ parse_friend_card json = Ok (mk_card name (id_sign_pk identity) (id_agree_pk identity) url (card_token token) (Some sig) None).
Proof.
  intros Hid Hn Hu Ht H. unfold make_friend_card in H. fold (card_token token) in H.
  set (c0 := mk_card name _ _ url (card_token token) None None) in H.
  apply result_bind_ok in H as ([] & V & (sig & Hsig & (js & Hjs & ([] & Hlen & H)%result_bind_ok)%result_bind_ok)%result_bind_ok).
  injection H as ->. apply option_ok_ok, card_json_round_trip in Hjs. apply ensure_ok in Hlen.
  apply result_bind_ok in Hsig as (sk & Hsk & [= <-]). unfold key32 in Hsk. inv_ok. bools.
  set (sig := ed25519_sign _ _) in *. change (with_signature c0 (Some sig)) with
    (mk_card name (id_sign_pk identity) (id_agree_pk identity) url (card_token token) (Some sig) None) in Hjs.
  set (c := mk_card name _ _ url _ (Some sig) None) in *.
  assert (validate_friend_card c = Ok tt) as Vc.
  { rewrite validate_card_spec in V |- *. destruct V as (? & ? & ? & ? & ? & _). split_and!; try done. cbn. apply Z.eqb_eq, sign_length. }
  assert (self_signed c) as Sc.
  { unfold self_signed, verify_friend_card_self_signature. cbn [fc_signature fc_sign_pk c]. rewrite Hid. apply self_verifies. }
  assert (friend_card_from_json json = Ok c) as Hj by (unfold friend_card_from_json; rewrite (proj2 (Z.leb_le _ _) Hlen), Hjs; cbn; by rewrite Vc).
  destruct (v3_encodes c Vc) as (bs & Hbs & Hl).
  exists (FRIEND_LINK_PREFIX_V3 ++ b64_encode bs), sig. split_and!.
  - unfold make_friend_link. rewrite Hj. cbn. by rewrite Hbs.
  - apply v3_link_parses; [|done]. by apply (binary_v3_reads_back c).
  - unfold parse_friend_card. rewrite Hj. cbn [mbind result_bind]. unfold self_signed in Sc. by rewrite Sc.
Qed.
End layouts.

(** * Witnesses *)

#[global] Instance FriendCard_eq_dec : EqDecision FriendCard.
Proof. solve_decision. Defined.

Definition toy_token : bytes := str "cmdep1-abcd".

Definition toy_unsigned : FriendCard :=
  mk_card (str "Ada") (replicate 32 x01) (replicate 32 x03) (Some OFFICIAL_RELAY_URL) (Some toy_token) None None.

Definition toy_card : FriendCard :=
  with_signature toy_unsigned (Some (ed25519_sign (SealCrypto := toy_seal) (replicate 32 x01) (friend_card_signed_bytes toy_unsigned))).

(** A JSON library that knows one card. *)
Definition toy_json : CardJson := {|
  card_to_json c := if decide (c = toy_card) then Some (str "{ada}") else None;
  card_of_json _ := Some toy_card;
  shared_member_of_json _ := Some NoMember;
  with_shared_member json _ := Some json;
|}.

#[global] Instance toy_json_laws : CardJsonLaws toy_json.
Proof. split. cbn. intros c json. case_decide; [intros _; by subst|done]. Qed.

Lemma toy_card_typed : card_typed toy_card.
Proof. split; vm_compute; reflexivity. Qed.

Lemma card_layouts_roundtrip_witness :
  exists bs, encode_friend_card_binary_v3 toy_card = Ok bs /\ decode_friend_card_binary_v3 (C := toy_crypto) bs = Ok toy_card.
Proof.
  destruct (encode_friend_card_binary_v3 toy_card) as [bs|e] eqn:He; [|vm_compute in He; discriminate].
  exists bs. split; [reflexivity|].
  apply (proj1 (proj2 (card_layouts_roundtrip (C := toy_crypto) toy_card toy_card_typed))); [vm_compute; reflexivity|exact He].
Defined.

Lemma friend_link_roundtrip_witness :
  exists link sig,
    make_friend_link (B := real_b64) (J := toy_json) (str "{ada}") = Ok link
    /\ parse_friend_text (C := toy_crypto) (B := real_b64) (J := toy_json) link
       = Ok (mk_card (str "Ada") (replicate 32 x01) (replicate 32 x03) (Some OFFICIAL_RELAY_URL) (Some toy_token) (Some sig) None).
Proof.
  destruct (friend_link_roundtrip (C := toy_crypto) (B := real_b64) (J := toy_json) (S := toy_seal)
    (str "Ada") toy_identity (Some OFFICIAL_RELAY_URL) (Some toy_token) (str "{ada}")) as (link & sig & H1 & H2 & _).
  - vm_compute. reflexivity.
  - vm_compute. reflexivity.
  - vm_compute. reflexivity.
  - vm_compute. reflexivity.
  - vm_compute. reflexivity.
  - exists link, sig. split; [exact H1|exact H2].
Defined.

(** A key that signed one card. *)
Definition one_card_crypto : Crypto := {|
  blake2b := toy_hash;
  ed25519_key_ok _ := true;
  ed25519_verify _ m _ := bool_decide (m = friend_card_signed_bytes toy_unsigned);
|}.

Lemma friend_card_authentic_witness :
  exists w, w ∈ [toy_unsigned] /\ unsigned_card toy_card = unsigned_card w.
Proof.
  apply (friend_card_authentic (C := one_card_crypto) (B := real_b64) (J := toy_json) (str "{ada}") toy_card
    (ed25519_sign (SealCrypto := toy_seal) (replicate 32 x01) (friend_card_signed_bytes toy_unsigned)) [toy_unsigned]).
  - vm_compute. reflexivity.
  - reflexivity.
  - split; [repeat constructor|]. intros m sig Hm. exists toy_unsigned. split; [apply list_elem_of_singleton; reflexivity|].
    apply bool_decide_eq_true in Hm. exact Hm.
Defined.

Definition toy_shared : SharedFriendCard :=
  mk_shared 1 toy_unsigned (replicate 16 x20) 4 1000 (1000 + SHARED_CARD_LIFETIME_MS) (replicate 64 x00).

(** A key that passed on one card, and a hash that is constant. *)
Definition one_share_crypto : Crypto := {|
  blake2b n _ := replicate n x20;
  ed25519_key_ok _ := true;
  ed25519_verify _ m _ := bool_decide (shared_card_signed_bytes toy_shared = Ok m);
|}.

Lemma toy_shared_typed : shared_typed toy_shared.
Proof. split; [split; vm_compute; reflexivity|..]; vm_compute; (split; discriminate). Qed.

Lemma shared_card_authentic_witness :
  exists w, w ∈ [toy_shared] /\ passed_on toy_shared = passed_on w.
Proof.
  apply (shared_card_authentic (C := one_share_crypto) toy_shared (replicate 32 x01) (replicate 16 x20) 4 5000 [toy_shared]).
  - exact toy_shared_typed.
  - vm_compute. reflexivity.
  - split; [constructor; [exact toy_shared_typed|constructor]|]. intros m sig Hm. exists toy_shared.
    split; [apply list_elem_of_singleton; reflexivity|]. apply bool_decide_eq_true in Hm. exact Hm.
Defined.
