(* ===== verification/Authoring.v ===== *)
(** Authoring ([core/src/authoring.rs], with [core/src/sync_outbound.rs]'s draft key and
    clearing): how this device assigns a number and a display time to what it writes,
    seals it, stores and queues it in one transaction, and how it authors receipts.

    [authored_lamports_climb] shows that no number is used twice in a chat, whatever is
    deleted in between; [authored_mail_arrives] that the frame of an authored message
    opens at its recipient as exactly that message.  A transaction that fails leaves the
    store as it was.  The protocol journal is not modelled; the answer of the
    linking gate is a field of the state, and the randomness of an operation an argument. *)
From stdpp Require Import base numbers list gmap strings sorting.
From coqutil Require Import Datatypes.RecordSetters.
From S2P Require Import Prelude StdModel SqlModel Wire Crypto RosterCodec Roster Message Frames Hints Engine OutboundQueue.
From S2P Require Import Framing SyncStream SyncStore Sealing Groups Timeline.
Import TriangleBracketNotations.

(** * State *)

Record StoredMessage : Type := mk_stored_message {
  sm_chat_id : bytes;
  sm_sender_user_id : bytes;
  sm_lamport : Z;
  sm_timestamp : Z;
  sm_kind : Z;
  sm_payload : bytes;
  sm_sender_device_id : bytes;
}.

Record Contact : Type := mk_contact {
  ct_user_id : bytes;
  ct_name : bytes;
  ct_sign_pk : bytes;
  ct_agree_pk : bytes;
  ct_relay_url : option bytes;
  ct_relay_token : option bytes;
  ct_nickname : option bytes;
}.

Record AuthoredEnvelope : Type := mk_authored {
  ae_message : StoredMessage;
  ae_envelope : OutboundEnvelope;
  ae_frame : bytes;
  ae_acknowledged_delivered : Z;
}.

Record AuthoredReceipt : Type := mk_authored_receipt { ar_envelope : OutgoingReceiptEnvelope; ar_frame : bytes }.

Record AuthoredGroupMetadataUpdate : Type := mk_authored_update {
  ag_group : Group;
  ag_update : GroupMetadataUpdate;
  ag_authored : AuthoredEnvelope;
}.

(** The outbound tables, the shared settings, [outgoing_receipts], and whether the
    linking gate lets this device author. *)
Record authoring_db : Type := mk_adb {
  ad_out : outbound_db;
  ad_sync : sync_db;
  ad_outgoing : gmap (bytes * bytes * Z) Z;
  ad_may_author : bool;
}.

(** What one operation draws from [OsRng]: a message id, and the seal's randomness. *)
Record draw : Type := mk_draw { dr_msg_id : bytes; dr_ephemeral_sk : bytes; dr_nonce : bytes }.

(** The body of a transaction; an error rolls it back. *)
Definition transaction {A} (d : authoring_db) (r : result CoreError (authoring_db * A)) : authoring_db * result CoreError A :=
  match r with Ok (d', a) => (d', Ok a) | Err e => (d, Err e) end.

Definition guard_link_gate (d : authoring_db) : result CoreError unit :=
  ensure (ad_may_author d) (Store "this device cannot send yet").

Notation messages d := (e_messages (od_engine (ad_out d))).

(** * Numbers and times *)

Definition core_device_stream_id (sender_device_id : option bytes) : bytes :=
  match sender_device_id with
  | Some id => if blen id =? DEVICE_ID_LEN then id else LEGACY_DEVICE_ID
  | None => LEGACY_DEVICE_ID
  end.

Definition own_authoring_device_id (d : authoring_db) : bytes :=
  core_device_stream_id (own_device_id (rt_fleet (e_routing (od_engine (ad_out d))))).

(** [COALESCE(MAX(...), 0)] *)
Definition max_or_zero (l : list Z) : Z := match l with [] => 0 | x :: l => foldl Z.max x l end.

Definition chat_receipt (d : authoring_db) (chat sender : bytes) (receipt_type : Z) : Z :=
  match od_receipts (ad_out d) !! (chat, sender, receipt_type) with Some (through, _) => through | None => 0 end.

Definition authored_high (d : authoring_db) (chat sender : bytes) : Z := default 0 (od_watermarks (ad_out d) !! (chat, sender)).

Definition own_lamports (d : authoring_db) (chat sender : bytes) : list Z :=
  mr_lamport <$> filter (fun m => mr_chat_id m = chat /\ mr_sender m = sender) (messages d).

Definition next_authored_lamport (d : authoring_db) (chat_id sender_user_id : bytes) : Z * Z :=
  let own := max_or_zero (own_lamports d chat_id sender_user_id) in
  let delivered := chat_receipt d chat_id sender_user_id RECEIPT_TYPE_DELIVERED in
  let read := chat_receipt d chat_id sender_user_id RECEIPT_TYPE_READ in
  let high := authored_high d chat_id sender_user_id in
  (as_u64 (i64_saturating_add (Z.max (Z.max (Z.max own delivered) read) high) 1), as_u64 delivered).

Definition chat_times (d : authoring_db) (chat : bytes) : list Z :=
  mr_timestamp <$> filter (fun m => mr_chat_id m = chat) (messages d).

Definition causal_timestamp_for_chat (d : authoring_db) (chat_id : bytes) (now_ms : Z) : Z :=
  let newest := match chat_times d chat_id with [] => None | x :: l => Some (foldl Z.max x l) end in
  causal_display_timestamp newest now_ms.

(** * Rows *)

Definition wire_device_id (sender_device_id : bytes) : option bytes :=
  if decide (sender_device_id = LEGACY_DEVICE_ID) then None else Some sender_device_id.

Definition encoded_body (message : StoredMessage) (wire_chat_id : bytes) (reply : option bytes) : result CoreError bytes :=
  let body := mk_body (sm_kind message) wire_chat_id (sm_lamport message) (sm_timestamp message) (sm_payload message) in
  match reply, wire_device_id (sm_sender_device_id message) with
  | Some id, None => encode_message_body_with_reply body id
  | None, None => encode_message_body body
  | reply, device => encode_message_body_extended body reply device None
  end.

Definition record_authored_watermark (d : authoring_db) (message : StoredMessage) : authoring_db :=
  let key := (sm_chat_id message, sm_sender_user_id message) in
  let new := to_i64 (sm_lamport message) in
  let high := match od_watermarks (ad_out d) !! key with Some old => Z.max old new | None => new end in
  mk_adb ((ad_out d) <| od_watermarks ::= <[key := high]> |>) (ad_sync d) (ad_outgoing d) (ad_may_author d).

(** [INSERT OR IGNORE INTO messages]: unique by chat, sender, device and lamport. *)
Definition insert_message (d : authoring_db) (message : StoredMessage) (msg_id : bytes) : authoring_db :=
  let row := mk_mrow (Some msg_id) (sm_chat_id message) (sm_sender_user_id message) (sm_sender_device_id message)
               (to_i64 (sm_lamport message)) (sm_timestamp message) (sm_kind message) (sm_payload message) in
  if existsb (fun m => bool_decide (mr_chat_id m = mr_chat_id row) && bool_decide (mr_sender m = mr_sender row)
                       && bool_decide (mr_device m = mr_device row) && (mr_lamport m =? mr_lamport row)) (messages d)
  then d
  else mk_adb ((ad_out d) <| od_engine ::= (fun e => with_messages e (e_messages e ++ [row])) |>) (ad_sync d) (ad_outgoing d)
         (ad_may_author d).

Definition with_out (d : authoring_db) (o : outbound_db) : authoring_db := mk_adb o (ad_sync d) (ad_outgoing d) (ad_may_author d).

(** [format!("{byte:02x}")] *)
Definition hex_digit (n : Z) : byte := if n <? 10 then byte_of_Z (48 + n) else byte_of_Z (87 + n).
Definition hex_byte (b : byte) : bytes := [hex_digit (Z_of_byte b / 16); hex_digit (Z_of_byte b mod 16)].

Definition SYNC_DRAFT_KEY_PREFIX : bytes := String.list_byte_of_string "chat.draft.".

Definition core_sync_draft_key (chat_id : bytes) : bytes := SYNC_DRAFT_KEY_PREFIX ++ (chat_id ≫= hex_byte).

Definition clear_chat_draft (d : authoring_db) (chat_id : bytes) (at_ms : Z) : result CoreError (authoring_db * bool) :=
  let key := core_sync_draft_key chat_id in
  match setting (ad_sync d) key with
  | None => Ok (d, false)
  | Some existing =>
      if decide (se_value existing = []) then Ok (d, false)
      else
        let epoch := Z.max (if at_ms <? 0 then 0 else at_ms) (u64_saturating_add (se_epoch existing) 1) in
        let '(sync, r) := put_setting (ad_sync d) (mk_setting key [] epoch (own_authoring_device_id d)) in
        wrote ← r; Ok (mk_adb (ad_out d) sync (ad_outgoing d) (ad_may_author d), wrote)
  end.

Definition insert_authored_rows (d : authoring_db) (message : StoredMessage) (envelope : OutboundEnvelope) (queued_at_ms : Z)
  : result CoreError authoring_db :=
  let d := record_authored_watermark d message in
  let d := insert_message d message (oe_msg_id envelope) in
  let d := with_out d (queue_outbound_row (ad_out d) envelope queued_at_ms) in
  '(d, _) ← (if (sm_kind message =? KIND_TEXT) || (sm_kind message =? KIND_ATTACHMENT_MANIFEST)
             then clear_chat_draft d (sm_chat_id message) queued_at_ms else Ok (d, false));
  let '(out, _) := retire_superseded (ad_out d) (oe_recipient_user_id envelope) (oe_chat_id envelope)
                     (oe_sender_user_id envelope) (oe_kind envelope) (oe_lamport envelope) in
  Ok (with_out d out).

Definition is_pairwise_kind (kind : Z) : bool :=
  existsb (Z.eqb kind)
    [KIND_TEXT; KIND_FRIEND_REQUEST; KIND_GROUP_INVITE; KIND_PROFILE_SYNC; KIND_FRIEND_DIRECTORY;
     KIND_INTRODUCED_FRIEND_REQUEST; KIND_LAN_ENDPOINT_HINT; KIND_RELAY_UPDATE; KIND_ROSTER_GOSSIP;
     KIND_ATTACHMENT_MANIFEST; KIND_REACTION].

Definition authored (message : StoredMessage) (envelope : OutboundEnvelope) (acknowledged_delivered : Z) : AuthoredEnvelope :=
  mk_authored message envelope
    (encode_envelope_frame (oe_msg_id envelope) (oe_hop_ttl envelope) (oe_expiry envelope) (oe_recipient_hint envelope)
       (oe_sealed envelope)) acknowledged_delivered.

Definition authored_receipt (envelope : OutgoingReceiptEnvelope) : AuthoredReceipt :=
  mk_authored_receipt envelope
    (encode_envelope_frame (re_msg_id envelope) (re_hop_ttl envelope) (re_expiry envelope) (re_recipient_hint envelope)
       (re_sealed envelope)).

Definition validate_sqlite_lamport (value : Z) : result CoreError unit :=
  ensure (value <=? I64_MAX) (Malformed "receipt watermark exceeds the supported range").

(** The row [stable_backfill_msg_id] asks for. *)
Definition same_message (message : StoredMessage) (m : message_row) : bool :=
  bool_decide (mr_chat_id m = sm_chat_id message) && bool_decide (mr_sender m = sm_sender_user_id message)
  && (mr_lamport m =? to_i64 (sm_lamport message))
  && bool_decide (mr_device m = core_device_stream_id (Some (sm_sender_device_id message))).

Definition with_msg_id (m : message_row) (msg_id : bytes) : message_row :=
  mk_mrow (Some msg_id) (mr_chat_id m) (mr_sender m) (mr_device m) (mr_lamport m) (mr_timestamp m) (mr_kind m) (mr_payload m).

Definition stable_backfill_msg_id (d : authoring_db) (message : StoredMessage) (fresh : bytes) : authoring_db * bytes :=
  match List.find (same_message message) (messages d) ≫= mr_msg_id with
  | Some ((_ :: _) as id) => (d, id)
  | _ =>
      let rows := (fun m => if same_message message m && bool_decide (mr_msg_id m = None) then with_msg_id m fresh else m)
                    <$> messages d in
      (with_out d ((ad_out d) <| od_engine ::= (fun e => with_messages e rows) |>), fresh)
  end.

(** * Messages *)

Section operations.
Context `{C : Crypto} `{S : SealCrypto}.

Definition build_pairwise_envelope (identity : Identity) (contact : Contact) (message : StoredMessage) (reply : option bytes)
  (routing_timestamp_ms : Z) (msg_id : bytes) (expiry : Z) (rnd : draw) : result CoreError OutboundEnvelope :=
  body ← encoded_body message (id_user_id identity) reply;
  sealed ← seal_message identity (ct_agree_pk contact) body (dr_ephemeral_sk rnd) (dr_nonce rnd);
  Ok (mk_outbound msg_id (ct_user_id contact) (sm_chat_id message) (sm_sender_user_id message) (sm_kind message)
        (sm_lamport message) (sm_timestamp message) DEFAULT_HOP_TTL expiry
        (compute_recipient_hint (ct_user_id contact) routing_timestamp_ms) sealed).

(** The message row an author call writes, with the delivered watermark it reports. *)
Definition next_message (d : authoring_db) (identity : Identity) (chat_id : bytes) (kind : Z) (payload : bytes) (timestamp_ms : Z)
  : StoredMessage * Z :=
  let '(lamport, acknowledged_delivered) := next_authored_lamport d chat_id (id_user_id identity) in
  let display_ts := causal_timestamp_for_chat d chat_id timestamp_ms in
  (mk_stored_message chat_id (id_user_id identity) lamport display_ts kind payload (own_authoring_device_id d),
   acknowledged_delivered).

Definition author_pairwise_message (d : authoring_db) (identity : Identity) (contact : Contact) (kind : Z) (payload : bytes)
  (reply : option bytes) (timestamp_ms : Z) (rnd : draw) : authoring_db * result CoreError AuthoredEnvelope :=
  transaction d (
    _ ← guard_link_gate d;
    _ ← ensure (is_pairwise_kind kind) (Malformed "unsupported pairwise authored kind");
    let '(message, acknowledged_delivered) := next_message d identity (ct_user_id contact) kind payload timestamp_ms in
    envelope ← build_pairwise_envelope identity contact message reply timestamp_ms (dr_msg_id rnd)
                 (authored_expiry kind timestamp_ms) rnd;
    d ← insert_authored_rows d message envelope timestamp_ms;
    Ok (d, authored message envelope acknowledged_delivered)).

Definition author_friend_request (d : authoring_db) (identity : Identity) (contact : Contact) (friend_card_json : bytes)
  (timestamp_ms : Z) (rnd : draw) : authoring_db * result CoreError AuthoredEnvelope :=
  author_pairwise_message d identity contact KIND_FRIEND_REQUEST friend_card_json None timestamp_ms rnd.

Definition backfill_pairwise_envelope (d : authoring_db) (identity : Identity) (contact : Contact) (message : StoredMessage)
  (reply : option bytes) (rnd : draw) : authoring_db * result CoreError AuthoredEnvelope :=
  transaction d (
    _ ← guard_link_gate d;
    _ ← ensure (is_pairwise_kind (sm_kind message) && bool_decide (sm_chat_id message = ct_user_id contact)
                && bool_decide (sm_sender_user_id message = id_user_id identity))
          (Malformed "legacy message does not match pairwise author or contact");
    match List.find (fun r => bool_decide (or_chat r = sm_chat_id message) && bool_decide (or_sender r = sm_sender_user_id message)
                              && (oe_kind (or_envelope r) =? sm_kind message) && (or_lamport r =? to_i64 (sm_lamport message))
                              && bool_decide (or_recipient r = ct_user_id contact)) (od_outbound (ad_out d)) with
    | Some row => Ok (d, authored message (or_envelope row) 0)
    | None =>
        let '(d, msg_id) := stable_backfill_msg_id d message (dr_msg_id rnd) in
        envelope ← build_pairwise_envelope identity contact message reply (sm_timestamp message) msg_id
                     (default_expiry (sm_timestamp message)) rnd;
        let d := record_authored_watermark d message in
        let d := if backfill_rejoins_the_queue (ad_out d) envelope
                 then with_out d (queue_outbound_row (ad_out d) envelope (sm_timestamp message)) else d in
        Ok (d, authored message envelope 0)
    end).

(** The group envelope of a message and its rows; the caller has checked the kind. *)
Definition seal_to_group (d : authoring_db) (identity : Identity) (group : Group) (message : StoredMessage)
  (acknowledged_delivered : Z) (reply : option bytes) (timestamp_ms : Z) (rnd : draw)
  : result CoreError (authoring_db * AuthoredEnvelope) :=
  body ← encoded_body message (group_id group) reply;
  sealed ← seal_group_message identity group body (dr_nonce rnd);
  let envelope := mk_outbound (dr_msg_id rnd) (group_id group) (group_id group) (sm_sender_user_id message) (sm_kind message)
    (sm_lamport message) (sm_timestamp message) DEFAULT_HOP_TTL (default_expiry timestamp_ms)
    (compute_recipient_hint (group_id group) timestamp_ms) sealed in
  d ← insert_authored_rows d message envelope timestamp_ms;
  Ok (d, authored message envelope acknowledged_delivered).

Definition author_group_message (d : authoring_db) (identity : Identity) (group : Group) (kind : Z) (payload : bytes)
  (reply : option bytes) (timestamp_ms : Z) (rnd : draw) : authoring_db * result CoreError AuthoredEnvelope :=
  transaction d (
    _ ← guard_link_gate d;
    _ ← ensure ((kind =? KIND_TEXT) || (kind =? KIND_ATTACHMENT_MANIFEST) || (kind =? KIND_REACTION))
          (Malformed "unsupported group authored kind");
    _ ← ensure (bool_decide (id_user_id identity ∈ member_user_ids group)) (Malformed "group author is not a member");
    let '(message, acknowledged_delivered) := next_message d identity (group_id group) kind payload timestamp_ms in
    seal_to_group d identity group message acknowledged_delivered reply timestamp_ms rnd).

(** [ORDER BY name ASC, group_id ASC] *)
Definition group_le (a b : Group) : Prop :=
  group_name a <> group_name b /\ bytes_le (group_name a) (group_name b)
  \/ group_name a = group_name b /\ bytes_le (group_id a) (group_id b).

#[global] Instance group_le_dec : RelDecision group_le.
Proof. intros a b. unfold group_le. apply _. Defined.

(** The stored group; its members are replaced, unless the stored rank is higher.  (When
    a member was added is not a column of the model.) *)
Definition upsert_group_tx (d : authoring_db) (group : Group) : result CoreError authoring_db :=
  _ ← validate_group group;
  let routing := e_routing (od_engine (ad_out d)) in
  let current := List.find (fun g => bool_decide (group_id g = group_id group)) (rt_groups routing) in
  if match current with Some g => rank_gt (group_rank g) (group_rank group) | None => false end then Ok d
  else
    let stored := mk_group (group_id group) (group_name group) (canonicalize_members (member_user_ids group)) (group_key group)
                    (group_metadata_revision group) (group_metadata_changed_by group) in
    let groups := match current with
                  | Some _ => (fun g => if decide (group_id g = group_id group) then stored else g) <$> rt_groups routing
                  | None => rt_groups routing ++ [stored]
                  end in
    let groups := merge_sort group_le groups in
    Ok (with_out d ((ad_out d) <| od_engine ::= (fun e =>
          mk_edb (mk_routing groups (rt_contacts routing) (rt_fleet routing) (rt_advertise routing) (rt_ack routing))
            (e_rosters e) (e_messages e) (e_conflicts e) (e_hidden e) (e_carried e)) |>)).

Definition author_group_metadata_update (d : authoring_db) (identity : Identity) (group : Group) (name : bytes) (ids : list bytes)
  (timestamp_ms : Z) (rnd : draw) : authoring_db * result CoreError AuthoredGroupMetadataUpdate :=
  transaction d (
    _ ← guard_link_gate d;
    update ← create_group_metadata_update group (id_user_id identity) name ids;
    updated ← apply_group_metadata_update group update (id_user_id identity);
    updated_group ← option_ok updated (Malformed "group metadata update had no effect");
    payload ← encode_group_metadata_update update;
    let '(message, acknowledged_delivered) := next_message d identity (group_id group) KIND_GROUP_METADATA_UPDATE payload timestamp_ms in
    body ← encoded_body message (group_id group) None;
    sealed ← seal_group_message identity group body (dr_nonce rnd);
    let envelope := mk_outbound (dr_msg_id rnd) (group_id group) (group_id group) (sm_sender_user_id message)
      KIND_GROUP_METADATA_UPDATE (sm_lamport message) (sm_timestamp message) DEFAULT_HOP_TTL (default_expiry timestamp_ms)
      (compute_recipient_hint (group_id group) timestamp_ms) sealed in
    d ← upsert_group_tx d updated_group;
    d ← insert_authored_rows d message envelope timestamp_ms;
    Ok (d, mk_authored_update updated_group update (authored message envelope acknowledged_delivered))).

(** The loop over the members; one draw per invite. *)
Fixpoint queue_invites (d : authoring_db) (identity : Identity) (message : StoredMessage) (acknowledged_delivered timestamp_ms : Z)
  (members : list (Contact * draw)) : result CoreError (authoring_db * list AuthoredEnvelope) :=
  match members with
  | [] => Ok (d, [])
  | (member, rnd) :: members =>
      if decide (ct_user_id member = id_user_id identity)
      then queue_invites d identity message acknowledged_delivered timestamp_ms members
      else
        envelope ← build_pairwise_envelope identity member message None timestamp_ms (dr_msg_id rnd)
                     (authored_expiry KIND_GROUP_INVITE timestamp_ms) rnd;
        d ← insert_authored_rows d message envelope timestamp_ms;
        '(d, rest) ← queue_invites d identity message acknowledged_delivered timestamp_ms members;
        Ok (d, authored message envelope acknowledged_delivered :: rest)
  end.

Definition queue_group_invites (d : authoring_db) (identity : Identity) (group : Group) (members : list (Contact * draw))
  (timestamp_ms : Z) : authoring_db * result CoreError (list AuthoredEnvelope) :=
  transaction d (
    _ ← guard_link_gate d;
    invite ← encode_group_invite_content group;
    let '(message, acknowledged_delivered) := next_message d identity (group_id group) KIND_GROUP_INVITE invite timestamp_ms in
    queue_invites d identity message acknowledged_delivered timestamp_ms members).

(** * Receipts *)

(** [INSERT ... ON CONFLICT DO UPDATE] of the sealed receipt, unposted again; a message id
    that another receipt has violates its constraint. *)
Definition put_receipt_envelope (o : outbound_db) (envelope : OutgoingReceiptEnvelope) (queued_at_ms : Z)
  : result CoreError outbound_db :=
  let new := mk_rrow envelope queued_at_ms None in
  let mine r := bool_decide (rr_key r = rr_key new) in
  _ ← ensure (negb (existsb (fun r => negb (mine r) && bool_decide (re_msg_id (rr_envelope r) = re_msg_id envelope))
                      (od_receipt_envelopes o)))
        (Store "UNIQUE constraint failed: outgoing_receipt_envelopes.msg_id");
  Ok (if existsb mine (od_receipt_envelopes o)
      then o <| od_receipt_envelopes ::= fmap (fun r => if mine r then new else r) |>
      else o <| od_receipt_envelopes ::= (fun l => l ++ [new]) |>).

(** The sealed receipt for a watermark: [to] receives it, [chat_id] files it. *)
Definition seal_receipt (identity : Identity) (to : Contact) (chat_id acked_sender_user_id : bytes) (group : option bytes)
  (receipt_type through_lamport timestamp_ms : Z) (rnd : draw) : result CoreError OutgoingReceiptEnvelope :=
  content ← encode_receipt_content (mk_receipt (id_user_id identity) acked_sender_user_id through_lamport receipt_type group);
  body ← encode_message_body (mk_body KIND_RECEIPT (id_user_id identity) 0 timestamp_ms content);
  sealed ← seal_message identity (ct_agree_pk to) body (dr_ephemeral_sk rnd) (dr_nonce rnd);
  Ok (mk_outgoing_receipt (dr_msg_id rnd) (ct_user_id to) chat_id acked_sender_user_id receipt_type through_lamport timestamp_ms
        DEFAULT_HOP_TTL (default_expiry timestamp_ms) (compute_recipient_hint (ct_user_id to) timestamp_ms) sealed).

Definition with_outgoing (d : authoring_db) (m : gmap (bytes * bytes * Z) Z) : authoring_db :=
  mk_adb (ad_out d) (ad_sync d) m (ad_may_author d).

Definition author_receipt (d : authoring_db) (identity : Identity) (contact : Contact) (acked_sender_user_id : bytes)
  (receipt_type through_lamport timestamp_ms : Z) (rnd : draw) : authoring_db * result CoreError (option AuthoredReceipt) :=
  transaction d (
    _ ← guard_link_gate d;
    _ ← ensure ((receipt_type =? RECEIPT_TYPE_DELIVERED) || (receipt_type =? RECEIPT_TYPE_READ)) (Malformed "invalid receipt type");
    _ ← validate_sqlite_lamport through_lamport;
    let key := (ct_user_id contact, acked_sender_user_id, receipt_type) in
    if match ad_outgoing d !! key with Some value => to_i64 through_lamport <=? value | None => false end then Ok (d, None)
    else
      let d := with_outgoing d (<[key := to_i64 through_lamport]> (ad_outgoing d)) in
      envelope ← seal_receipt identity contact (ct_user_id contact) acked_sender_user_id None receipt_type through_lamport timestamp_ms rnd;
      out ← put_receipt_envelope (ad_out d) envelope timestamp_ms;
      Ok (with_out d out, Some (authored_receipt envelope))).

(** The shared tail of the two [ensure] calls. *)
Definition ensure_receipt (d : authoring_db) (identity : Identity) (to : Contact) (chat_id acked_sender_user_id : bytes)
  (group : option bytes) (receipt_type through_lamport timestamp_ms : Z) (rnd : draw)
  : result CoreError (authoring_db * AuthoredReceipt) :=
  let key := (chat_id, acked_sender_user_id, receipt_type) in
  let desired := Z.max through_lamport (as_u64 (default 0 (ad_outgoing d !! key))) in
  match List.find (fun r => bool_decide (rr_key r = key)) (od_receipt_envelopes (ad_out d)) with
  | Some row =>
      if desired <=? re_through_lamport (rr_envelope row) then Ok (d, authored_receipt (rr_envelope row))
      else
        let high := match ad_outgoing d !! key with Some old => Z.max old (to_i64 desired) | None => to_i64 desired end in
        let d := with_outgoing d (<[key := high]> (ad_outgoing d)) in
        envelope ← seal_receipt identity to chat_id acked_sender_user_id group receipt_type desired timestamp_ms rnd;
        out ← put_receipt_envelope (ad_out d) envelope timestamp_ms;
        Ok (with_out d out, authored_receipt envelope)
  | None =>
      let high := match ad_outgoing d !! key with Some old => Z.max old (to_i64 desired) | None => to_i64 desired end in
      let d := with_outgoing d (<[key := high]> (ad_outgoing d)) in
      envelope ← seal_receipt identity to chat_id acked_sender_user_id group receipt_type desired timestamp_ms rnd;
      out ← put_receipt_envelope (ad_out d) envelope timestamp_ms;
      Ok (with_out d out, authored_receipt envelope)
  end.

Definition ensure_authored_receipt (d : authoring_db) (identity : Identity) (contact : Contact) (acked_sender_user_id : bytes)
  (receipt_type through_lamport timestamp_ms : Z) (rnd : draw) : authoring_db * result CoreError AuthoredReceipt :=
  transaction d (
    _ ← guard_link_gate d;
    _ ← ensure ((receipt_type =? RECEIPT_TYPE_DELIVERED) || (receipt_type =? RECEIPT_TYPE_READ)) (Malformed "invalid receipt type");
    _ ← ensure (negb (through_lamport =? 0)) (Malformed "receipt watermark must be positive");
    _ ← validate_sqlite_lamport through_lamport;
    ensure_receipt d identity contact (ct_user_id contact) acked_sender_user_id None receipt_type through_lamport timestamp_ms rnd).

Definition ensure_authored_group_receipt (d : authoring_db) (identity : Identity) (author : Contact) (group_id : bytes)
  (receipt_type through_lamport timestamp_ms : Z) (rnd : draw) : authoring_db * result CoreError AuthoredReceipt :=
  transaction d (
    _ ← ensure ((receipt_type =? RECEIPT_TYPE_DELIVERED) || (receipt_type =? RECEIPT_TYPE_READ)) (Malformed "invalid receipt type");
    _ ← ensure (negb (through_lamport =? 0)) (Malformed "receipt watermark must be positive");
    _ ← guard_link_gate d;
    _ ← ensure (blen group_id =? Groups.GROUP_ID_LEN) (Malformed "group receipt id must be exactly 16 bytes");
    _ ← validate_sqlite_lamport through_lamport;
    ensure_receipt d identity author group_id (ct_user_id author) (Some group_id) receipt_type through_lamport timestamp_ms rnd).

End operations.

(** * Numbers climb *)

Notation watermarks d := (od_watermarks (ad_out d)).

(** No mark is lost or lowered. *)
Definition marks_kept (d d' : authoring_db) : Prop :=
  forall key v, watermarks d !! key = Some v -> exists v', watermarks d' !! key = Some v' /\ v <= v'.

(** The mark of a stream has reached a number. *)
Definition marked (d : authoring_db) (chat sender : bytes) (n : Z) : Prop :=
  exists v, watermarks d !! (chat, sender) = Some v /\ n <= v.

Lemma marks_kept_same d d' : watermarks d' = watermarks d -> marks_kept d d'.
Proof. intros He key v Hv. rewrite He. exists v. split; [done|lia]. Qed.

Lemma marks_kept_trans d1 d2 d3 : marks_kept d1 d2 -> marks_kept d2 d3 -> marks_kept d1 d3.
Proof. intros H1 H2 key v Hv. destruct (H1 _ _ Hv) as (v2 & Hv2 & ?). destruct (H2 _ _ Hv2) as (v3 & Hv3 & ?). exists v3. split; [done|lia]. Qed.

Lemma marked_kept d d' chat sender n : marks_kept d d' -> marked d chat sender n -> marked d' chat sender n.
Proof. intros Hk (v & Hv & ?). destruct (Hk _ _ Hv) as (v' & Hv' & ?). exists v'. split; [done|lia]. Qed.

Lemma record_mark d m : let d' := record_authored_watermark d m in
  marks_kept d d' /\ marked d' (sm_chat_id m) (sm_sender_user_id m) (to_i64 (sm_lamport m)).
Proof.
  intros d'. unfold d', record_authored_watermark. set (key := (sm_chat_id m, sm_sender_user_id m)).
  set (high := match watermarks d !! key with Some old => Z.max old _ | None => _ end).
  change (marks_kept d (with_out d ((ad_out d) <| od_watermarks ::= <[key := high]> |>))
    /\ marked (with_out d ((ad_out d) <| od_watermarks ::= <[key := high]> |>)) (sm_chat_id m) (sm_sender_user_id m) (to_i64 (sm_lamport m))).
  assert (watermarks (with_out d ((ad_out d) <| od_watermarks ::= <[key := high]> |>)) = <[key := high]> (watermarks d)) as Hw by reflexivity.
  split.
  - intros k v Hv. rewrite Hw. destruct (decide (k = key)) as [->|Hne].
    + exists high. rewrite lookup_insert_eq. split; [done|]. unfold high. rewrite Hv. lia.
    + exists v. rewrite lookup_insert_ne by done. split; [done|lia].
  - exists high. rewrite Hw. fold key. rewrite lookup_insert_eq. split; [done|]. unfold high. destruct (watermarks d !! key); lia.
Qed.

Lemma insert_message_marks d m id : watermarks (insert_message d m id) = watermarks d.
Proof. unfold insert_message. by destruct (existsb _ _). Qed.

Lemma queue_marks o e t : od_watermarks (queue_outbound_row o e t) = od_watermarks o.
Proof. unfold queue_outbound_row. by destruct (existsb _ _). Qed.

Lemma retire_marks o r c s k l : od_watermarks (retire_superseded o r c s k l).1 = od_watermarks o.
Proof. unfold retire_superseded. by destruct (_ || _). Qed.

Lemma clear_draft_marks d c t d' b : clear_chat_draft d c t = Ok (d', b) -> watermarks d' = watermarks d.
Proof.
  unfold clear_chat_draft. destruct (setting _ _) as [e|]; [|by intros [= <- _]]. case_decide; [by intros [= <- _]|].
  destruct (put_setting _ _) as [sync r]. intros Hb. inv_ok. by injection Hb as <- _.
Qed.

Lemma insert_rows_marks d m e t d' : insert_authored_rows d m e t = Ok d' ->
  marks_kept d d' /\ marked d' (sm_chat_id m) (sm_sender_user_id m) (to_i64 (sm_lamport m)).
Proof.
  unfold insert_authored_rows. intros H. apply result_bind_ok in H as ([d2 b] & Hd2 & H).
  destruct (record_mark d m) as [Hk Hm]. set (d1 := record_authored_watermark d m) in *.
  assert (watermarks d' = watermarks d1) as Hw.
  { assert (watermarks d2 = watermarks d1) as Hw2.
    { destruct (_ || _); [apply clear_draft_marks in Hd2; rewrite Hd2|injection Hd2 as <- _];
        change (watermarks (with_out ?x ?o)) with (od_watermarks o); rewrite queue_marks; apply insert_message_marks. }
    pose proof (retire_marks (ad_out d2) (oe_recipient_user_id e) (oe_chat_id e) (oe_sender_user_id e) (oe_kind e) (oe_lamport e)) as Hr.
    destruct (retire_superseded _ _ _ _ _ _) as [out n]. inv_ok. cbn in *. congruence. }
  split; [eapply marks_kept_trans; [exact Hk|by apply marks_kept_same]|]. eapply marked_kept; [by apply marks_kept_same|done].
Qed.

(** ** Histories *)

Section histories.
Context `{C : Crypto} `{S : SealCrypto}.

(** What may happen to the store: the calls of this file, and any change by other code
    that leaves the marks alone (deleting a chat, its messages and its receipts among
    them). *)
Inductive author_op : Type :=
| OpPairwise (identity : Identity) (contact : Contact) (kind : Z) (payload : bytes) (reply : option bytes) (ts : Z) (rnd : draw)
| OpBackfill (identity : Identity) (contact : Contact) (message : StoredMessage) (reply : option bytes) (rnd : draw)
| OpGroup (identity : Identity) (group : Group) (kind : Z) (payload : bytes) (reply : option bytes) (ts : Z) (rnd : draw)
| OpGroupUpdate (identity : Identity) (group : Group) (name : bytes) (ids : list bytes) (ts : Z) (rnd : draw)
| OpInvites (identity : Identity) (group : Group) (members : list (Contact * draw)) (ts : Z)
| OpReceipt (identity : Identity) (contact : Contact) (sender : bytes) (type through ts : Z) (rnd : draw)
| OpEnsureReceipt (identity : Identity) (contact : Contact) (sender : bytes) (type through ts : Z) (rnd : draw)
| OpEnsureGroupReceipt (identity : Identity) (author : Contact) (group : bytes) (type through ts : Z) (rnd : draw)
| OpElsewhere (change : authoring_db -> authoring_db).

(** The number a call assigned, with its chat and author. *)
Definition number_of (a : AuthoredEnvelope) : bytes * bytes * Z :=
  (sm_chat_id (ae_message a), sm_sender_user_id (ae_message a), sm_lamport (ae_message a)).

Definition assigned (r : result CoreError AuthoredEnvelope) : list (bytes * bytes * Z) :=
  match r with Ok a => [number_of a] | Err _ => [] end.

Definition author_step (d : authoring_db) (op : author_op) : authoring_db * list (bytes * bytes * Z) :=
  match op with
  | OpPairwise i c k p r t n => let '(d', a) := author_pairwise_message d i c k p r t n in (d', assigned a)
  | OpBackfill i c m r n => ((backfill_pairwise_envelope d i c m r n).1, [])
  | OpGroup i g k p r t n => let '(d', a) := author_group_message d i g k p r t n in (d', assigned a)
  | OpGroupUpdate i g nm ids t n =>
      let '(d', a) := author_group_metadata_update d i g nm ids t n in
      (d', match a with Ok u => [number_of (ag_authored u)] | Err _ => [] end)
  | OpInvites i g ms t =>
      let '(d', a) := queue_group_invites d i g ms t in
      (d', match a with Ok (invite :: _) => [number_of invite] | _ => [] end)
  | OpReceipt i c s ty th t n => ((author_receipt d i c s ty th t n).1, [])
  | OpEnsureReceipt i c s ty th t n => ((ensure_authored_receipt d i c s ty th t n).1, [])
  | OpEnsureGroupReceipt i c g ty th t n => ((ensure_authored_group_receipt d i c g ty th t n).1, [])
  | OpElsewhere change => (change d, [])
  end.

Fixpoint author_run (d : authoring_db) (ops : list author_op) : authoring_db * list (bytes * bytes * Z) :=
  match ops with
  | [] => (d, [])
  | op :: ops => let '(d1, l1) := author_step d op in let '(d2, l2) := author_run d1 ops in (d2, l1 ++ l2)
  end.

Definition keeps_marks (op : author_op) : Prop :=
  match op with OpElsewhere change => forall d, watermarks (change d) = watermarks d | _ => True end.

(** A new number lies above every mark of its stream, up to the end of the range. *)
Lemma next_lamport_above d chat sender v : let n := (next_authored_lamport d chat sender).1 in
  watermarks d !! (chat, sender) = Some v -> n < I64_MAX -> v < n.
Proof.
  cbv zeta. unfold next_authored_lamport, authored_high. cbn [fst]. intros Hv Hn. rewrite Hv in *. cbn [default from_option] in *.
  change (id v) with v in *. set (m := Z.max (Z.max _ _) v) in *. assert (v <= m) by lia. unfold as_u64, i64_saturating_add, sat_i64 in *.
  destruct (Z.le_gt_cases 0 (Z.max I64_MIN (Z.min I64_MAX (m + 1)))) as [H0|H0].
  - rewrite Z.mod_small in Hn |- * by ints. ints.
  - exfalso. rewrite <- (Z.mod_add _ 1) in Hn by done. rewrite Z.mod_small in Hn by ints. ints.
Qed.

Lemma transaction_inv {A} (d : authoring_db) (r : result CoreError (authoring_db * A)) :
  (exists d' a, r = Ok (d', a) /\ transaction d r = (d', Ok a)) \/ (exists e, transaction d r = (d, Err e)).
Proof. destruct r as [[d' a]|e]; [left; by exists d', a|right; by exists e]. Qed.

(** What one call does to the numbers: at most one is assigned; it is the stream's next,
    and is marked afterwards. *)
Definition numbers_ok (d d' : authoring_db) (trace : list (bytes * bytes * Z)) : Prop :=
  marks_kept d d' /\ (trace = [] \/ exists chat sender,
    let n := (next_authored_lamport d chat sender).1 in trace = [(chat, sender, n)] /\ marked d' chat sender (to_i64 n)).

Lemma numbers_none d d' : watermarks d' = watermarks d -> numbers_ok d d' [].
Proof. intros He. split; [by apply marks_kept_same|by left]. Qed.

(** Rows of the message [next_message] made. *)
Lemma numbers_written d d1 d' i chat k p t m ack e q a :
  next_message d i chat k p t = (m, ack) -> watermarks d1 = watermarks d -> insert_authored_rows d1 m e q = Ok d' ->
  ae_message a = m -> numbers_ok d d' [number_of a].
Proof.
  intros Hmsg H1 Hd Ha. destruct (insert_rows_marks _ _ _ _ _ Hd) as [Hk Hm]. split.
  - eapply marks_kept_trans; [by apply marks_kept_same|exact Hk].
  - right. exists chat, (id_user_id i). unfold number_of. rewrite Ha. unfold next_message in Hmsg.
    destruct (next_authored_lamport d chat (id_user_id i)) as [n ack']. injection Hmsg as <- <-. done.
Qed.

Lemma pairwise_numbers d i c k p r t n :
  numbers_ok d (author_step d (OpPairwise i c k p r t n)).1 (author_step d (OpPairwise i c k p r t n)).2.
Proof.
  cbn [author_step]. unfold author_pairwise_message.
  match goal with |- context [transaction d ?b] => destruct (transaction_inv d b) as [(d' & a & Hb & ->)|[e ->]] end; cbn [fst snd assigned];
    [|by apply numbers_none].
  destruct (next_message d i (ct_user_id c) k p t) as [m ack] eqn:Hm. inv_ok. injection Hb as -> <-.
  by eapply numbers_written with (d1 := d).
Qed.

Lemma group_numbers d i g k p r t n :
  numbers_ok d (author_step d (OpGroup i g k p r t n)).1 (author_step d (OpGroup i g k p r t n)).2.
Proof.
  cbn [author_step]. unfold author_group_message.
  match goal with |- context [transaction d ?b] => destruct (transaction_inv d b) as [(d' & a & Hb & ->)|[e ->]] end; cbn [fst snd assigned];
    [|by apply numbers_none].
  destruct (next_message d i (group_id g) k p t) as [m ack] eqn:Hm. unfold seal_to_group in Hb. inv_ok. injection Hb as -> <-.
  by eapply numbers_written with (d1 := d).
Qed.

Lemma upsert_group_marks d g d' : upsert_group_tx d g = Ok d' -> watermarks d' = watermarks d.
Proof. unfold upsert_group_tx. intros H. inv_ok. match goal with H : (if ?b then _ else _) = _ |- _ => destruct b end; by inv_ok. Qed.

Lemma update_numbers d i g nm ids t n :
  numbers_ok d (author_step d (OpGroupUpdate i g nm ids t n)).1 (author_step d (OpGroupUpdate i g nm ids t n)).2.
Proof.
  cbn [author_step]. unfold author_group_metadata_update.
  match goal with |- context [transaction d ?b] => destruct (transaction_inv d b) as [(d' & a & Hb & ->)|[e ->]] end; cbn [fst snd];
    [|by apply numbers_none].
  do 5 (apply result_bind_ok in Hb as (? & ? & Hb)).
  match type of Hb with context [next_message d i (group_id g) ?k ?p t] => destruct (next_message d i (group_id g) k p t) as [m ack] eqn:Hm end.
  inv_ok. injection Hb as -> <-. match goal with H : upsert_group_tx d _ = Ok _ |- _ => apply upsert_group_marks in H; by eapply numbers_written end.
Qed.

Lemma queue_invites_marks d i m ack t ms d' l : queue_invites d i m ack t ms = Ok (d', l) ->
  marks_kept d d' /\ match l with
    | [] => True
    | a :: _ => ae_message a = m /\ marked d' (sm_chat_id m) (sm_sender_user_id m) (to_i64 (sm_lamport m))
    end.
Proof.
  revert d l. induction ms as [|[c rnd] ms IH]; intros d l; cbn [queue_invites].
  - intros [= <- <-]. split; [by apply marks_kept_same|done].
  - case_decide; [apply IH|]. intros Hq. apply result_bind_ok in Hq as (env & _ & Hq). apply result_bind_ok in Hq as (d2 & Hins & Hq).
    apply result_bind_ok in Hq as ([d3 rest] & Hrest & Hq). apply Ok_inj in Hq. injection Hq as -> <-.
    destruct (IH _ _ Hrest) as [Hk _]. destruct (insert_rows_marks _ _ _ _ _ Hins) as [Hk2 Hm2].
    split; [by eapply marks_kept_trans|]. split; [done|]. by eapply marked_kept.
Qed.

Lemma invites_numbers d i g ms t :
  numbers_ok d (author_step d (OpInvites i g ms t)).1 (author_step d (OpInvites i g ms t)).2.
Proof.
  cbn [author_step]. unfold queue_group_invites.
  match goal with |- context [transaction d ?b] => destruct (transaction_inv d b) as [(d' & a & Hb & ->)|[e ->]] end; cbn [fst snd];
    [|by apply numbers_none].
  do 2 (apply result_bind_ok in Hb as (? & ? & Hb)).
  match type of Hb with context [next_message d i (group_id g) ?k ?p t] => destruct (next_message d i (group_id g) k p t) as [m ack] eqn:Hm end.
  apply queue_invites_marks in Hb as [Hk Ha]. split; [done|]. destruct a as [|a0 a]; [by left|]. destruct Ha as [Ha Hmk]. right.
  exists (group_id g), (id_user_id i). unfold number_of. rewrite Ha. unfold next_message in Hm.
  destruct (next_authored_lamport d (group_id g) (id_user_id i)) as [n ack']. injection Hm as <- <-. done.
Qed.

Lemma stable_id_marks d m fresh : watermarks (stable_backfill_msg_id d m fresh).1 = watermarks d.
Proof. unfold stable_backfill_msg_id. by destruct (_ ≫= _) as [[|]|]. Qed.

Lemma backfill_numbers d i c m r n :
  numbers_ok d (author_step d (OpBackfill i c m r n)).1 (author_step d (OpBackfill i c m r n)).2.
Proof.
  cbn [author_step]. unfold backfill_pairwise_envelope.
  match goal with |- context [transaction d ?b] => destruct (transaction_inv d b) as [(d' & a & Hb & ->)|[e ->]] end; cbn [fst snd];
    [|by apply numbers_none].
  do 2 (apply result_bind_ok in Hb as (? & _ & Hb)). destruct (List.find _ _); [apply Ok_inj in Hb; injection Hb as <- <-; by apply numbers_none|].
  pose proof (stable_id_marks d m (dr_msg_id n)) as Hs. destruct (stable_backfill_msg_id d m (dr_msg_id n)) as [d1 id]. cbn [fst] in Hs.
  apply result_bind_ok in Hb as (env & _ & Hb). apply Ok_inj in Hb. injection Hb as <- _. split; [|by left].
  destruct (record_mark d1 m) as [Hk _]. eapply marks_kept_trans; [by apply marks_kept_same|].
  eapply marks_kept_trans; [exact Hk|]. destruct (backfill_rejoins_the_queue _ _); [|by apply marks_kept_same].
  apply marks_kept_same. change (watermarks (with_out ?x ?o)) with (od_watermarks o). apply queue_marks.
Qed.

Lemma put_receipt_marks o e t o' : put_receipt_envelope o e t = Ok o' -> od_watermarks o' = od_watermarks o.
Proof. unfold put_receipt_envelope. intros H. inv_ok. match goal with |- context [if ?b then _ else _] => destruct b end; reflexivity. Qed.

Lemma ensure_receipt_marks d i c chat sender group type through t n d' a :
  ensure_receipt d i c chat sender group type through t n = Ok (d', a) -> watermarks d' = watermarks d.
Proof.
  unfold ensure_receipt. destruct (List.find _ _) as [row|].
  1: destruct (_ <=? _); [by intros [= <- _]|].
  all: intros H; apply result_bind_ok in H as (env & _ & H); apply result_bind_ok in H as (out & Hout & H);
    apply put_receipt_marks in Hout; apply Ok_inj in H; injection H as <- _; exact Hout.
Qed.

Lemma receipt_numbers d op :
  match op with OpReceipt _ _ _ _ _ _ _ | OpEnsureReceipt _ _ _ _ _ _ _ | OpEnsureGroupReceipt _ _ _ _ _ _ _ => True | _ => False end ->
  numbers_ok d (author_step d op).1 (author_step d op).2.
Proof.
  destruct op; try done; intros _; cbn [author_step fst snd]; apply numbers_none;
    unfold author_receipt, ensure_authored_receipt, ensure_authored_group_receipt;
    match goal with |- context [transaction d ?b] => destruct (transaction_inv d b) as [(d' & a & Hb & ->)|[e ->]] end; cbn [fst]; try done.
  - do 3 (apply result_bind_ok in Hb as (? & _ & Hb)). destruct (match _ with Some _ => _ | None => _ end); [by injection Hb as <- _|].
    apply result_bind_ok in Hb as (env & _ & Hb). apply result_bind_ok in Hb as (out & Hout & Hb).
    apply put_receipt_marks in Hout. apply Ok_inj in Hb. injection Hb as <- _. exact Hout.
  - do 4 (apply result_bind_ok in Hb as (? & _ & Hb)). by eapply ensure_receipt_marks.
  - do 5 (apply result_bind_ok in Hb as (? & _ & Hb)). by eapply ensure_receipt_marks.
Qed.

Lemma step_numbers d op : keeps_marks op -> numbers_ok d (author_step d op).1 (author_step d op).2.
Proof.
  intros Hk. destruct op; [apply pairwise_numbers|apply backfill_numbers|apply group_numbers|apply update_numbers|apply invites_numbers
    |by apply receipt_numbers..|]. apply numbers_none. apply Hk.
Qed.

(** Numbers assigned later lie above the marks left before. *)
Lemma run_numbers_above ops d v chat sender n :
  Forall keeps_marks ops -> marked d chat sender v -> (chat, sender, n) ∈ (author_run d ops).2 -> n < I64_MAX -> v < n.
Proof.
  intros Hk. revert d. induction Hk as [|op ops Hop Hk IH]; intros d Hm; cbn [author_run]; [by intros ?%not_elem_of_nil|].
  pose proof (step_numbers d op Hop) as [Hkept Htr]. destruct (author_step d op) as [d1 l1]. cbn [fst snd] in *.
  specialize (IH d1 (marked_kept _ _ _ _ _ Hkept Hm)). destruct (author_run d1 ops) as [d2 l2]. cbn [snd] in *.
  intros [Hin|Hin]%elem_of_app Hn; [|by apply IH]. destruct Htr as [->|(c & s & -> & _)]; [by apply not_elem_of_nil in Hin|].
  apply list_elem_of_singleton in Hin. injection Hin as -> -> ->. destruct Hm as (w & Hw & Hvw).
  exact (Z.le_lt_trans _ _ _ Hvw (next_lamport_above d c s w Hw Hn)).
Qed.

(** No number is used twice.  Over any history of authoring calls, successful or
    not, and of changes by other code that leave the marks alone (deleting a contact with
    its messages and receipts among them), the numbers an author is assigned in a chat
    strictly climb, as long as the range of the counter lasts. *)
Theorem authored_lamports_climb d ops i j chat sender m n :
  Forall keeps_marks ops -> let trace := (author_run d ops).2 in
  (i < j)%nat -> trace !! i = Some (chat, sender, m) -> trace !! j = Some (chat, sender, n) ->
  0 <= m < I64_MAX -> n < I64_MAX -> m < n.
Proof.
  intros Hk. revert d i j. induction Hk as [|op ops Hop Hk IH]; intros d i j; cbv zeta; cbn [author_run snd]; [by intros _ Hi; rewrite lookup_nil in Hi|].
  pose proof (step_numbers d op Hop) as [_ Htr]. destruct (author_step d op) as [d1 l1]. cbn [fst snd] in *.
  pose proof (run_numbers_above ops d1) as Habove. specialize (IH d1). destruct (author_run d1 ops) as [d2 l2]. cbn [snd] in *.
  intros Hij Hi Hj Hm Hn. destruct Htr as [->|(c & s & -> & Hmk)]; [by eapply (IH i j)|].
  destruct i as [|i], j as [|j]; [lia| |lia|]; cbn in Hi, Hj; [|by eapply (IH i j); [lia|..]].
  injection Hi as -> -> Hm0. change ((next_authored_lamport d chat sender).1 = m) in Hm0. cbv zeta in Hmk. rewrite Hm0, to_i64_id in Hmk by lia.
  eapply Habove; [done|exact Hmk|by eapply list_elem_of_lookup_2|done].
Qed.

End histories.

(** * Authored mail arrives *)

Lemma encoded_body_extended m chat reply : encoded_body m chat reply
  = encode_message_body_extended (mk_body (sm_kind m) chat (sm_lamport m) (sm_timestamp m) (sm_payload m)) reply
      (wire_device_id (sm_sender_device_id m)) None.
Proof.
  unfold encoded_body. destruct reply, (wire_device_id (sm_sender_device_id m)); try done.
  unfold encode_message_body_extended. by destruct (encode_message_body _).
Qed.

Lemma pairwise_kind_range kind : is_pairwise_kind kind = true -> 1 <= kind <= 255.
Proof. unfold is_pairwise_kind. intros (k & Hk & ->%Z.eqb_eq)%existsb_exists. repeat (destruct Hk as [<-|Hk]; [done|]). done. Qed.

(** A body starts with its kind, a bound transcript with a zero byte. *)
Lemma body_not_transcript kind rest : 1 <= kind <= 255 -> looks_like_bound_transcript (push_u8 kind ++ rest) = false.
Proof.
  intros Hk. apply not_true_iff_false. unfold looks_like_bound_transcript. intros (d & Hd & H)%existsb_exists. bools.
  match goal with H : take 4 _ = _ |- _ => rename H into Ht end. rewrite push_u8_eq in Ht. cbn [app take] in Ht.
  assert (exists r, be_bytes 4 (blen d) = x00 :: r) as (r & Hr) by (destruct Hd as [<-|[<-|[]]]; eexists; vm_compute; reflexivity).
  rewrite Hr in Ht. injection Ht as Ht _. apply (f_equal Z_of_byte) in Ht. rewrite Z_of_byte_of_Z_small in Ht by lia.
  change (Z_of_byte x00) with 0 in Ht. lia.
Qed.

Lemma foldl_max_in x l : foldl Z.max x l ∈ x :: l.
Proof.
  revert x. induction l as [|y l IH]; intros x; cbn [foldl]; [by left|]. specialize (IH (Z.max x y)).
  apply elem_of_cons in IH as [Heq|Hin]; [|by right; right].
  destruct (Z.max_spec x y) as [[_ Hm]|[_ Hm]]; rewrite Heq, Hm; [right; by left|by left].
Qed.

Lemma foldl_max_init x l : x <= foldl Z.max x l.
Proof. revert x. induction l as [|y l IH]; intros x; cbn [foldl]; [lia|]. specialize (IH (Z.max x y)). lia. Qed.

Lemma foldl_max_ge x l y : y ∈ x :: l -> y <= foldl Z.max x l.
Proof.
  revert x. induction l as [|z l IH]; intros x; cbn [foldl]; [intros ->%list_elem_of_singleton; lia|].
  pose proof (foldl_max_init (Z.max x z) l).
  intros [->|[->|Hy]%elem_of_cons]%elem_of_cons; [lia|lia|]. apply IH. by right.
Qed.

(** The times of a chat are the database's integers. *)
Definition times_ok (d : authoring_db) : Prop := Forall (fun m => in_i64 (mr_timestamp m)) (messages d).

Lemma chat_times_ok d chat : times_ok d -> Forall in_i64 (chat_times d chat).
Proof.
  intros Ht. unfold chat_times. apply Forall_fmap. eapply sublist_forall; [apply sublist_filter|]. exact Ht.
Qed.

(** What this device writes sorts after everything in the chat, and stays in range. *)
Lemma display_time_spec d chat now : times_ok d -> in_i64 now -> let t := causal_timestamp_for_chat d chat now in
  in_i64 t /\ now <= t <= now + CAUSAL_ORDER_MAX_SKEW_MS + 1
  /\ (Forall (fun x => x <= now + CAUSAL_ORDER_MAX_SKEW_MS /\ x < I64_MAX) (chat_times d chat) -> Forall (fun x => x < t) (chat_times d chat)).
Proof.
  intros Hok%(chat_times_ok d chat) Hnow t. unfold t, causal_timestamp_for_chat. destruct (chat_times d chat) as [|x l].
  { split_and!; [done|cbn; lia|unfold CAUSAL_ORDER_MAX_SKEW_MS; cbn; lia|constructor]. }
  pose proof (foldl_max_in x l) as Hin. pose proof (foldl_max_ge x l) as Hge. set (n := foldl Z.max x l) in *.
  destruct (causal_display_spec (Some n) now Hnow) as (H1 & H2 & H3 & _ & H5).
  { intros ? [= <-]. by eapply Forall_forall in Hok. }
  split_and!; [done|done|done|]. intros Hall. apply Forall_forall. intros y Hy.
  eapply Forall_forall in Hall; [|exact Hin]. specialize (H3 n eq_refl ltac:(lia) ltac:(lia)). specialize (Hge y Hy). lia.
Qed.

Section arrival.
Context `{C : Crypto} `{S : SealCrypto} `{!CryptoLaws C} `{!SealLaws C S}.

Lemma blen_message_bytes b : blen (message_bytes b) = 23 + blen (chat_id b) + blen (content b).
Proof.
  unfold message_bytes. rewrite !blen_app, !blen_be_bytes, write_bytes16_eq, write_bytes32_eq, push_u8_eq, !blen_app, !blen_be_bytes.
  change (blen [_]) with 1. lia.
Qed.

Lemma blen_extensions reply device : opt_len reply MSG_ID_LEN -> opt_len device DEVICE_ID_LEN ->
  blen (tlv_bytes (extensions reply device None)) <= 38.
Proof.
  unfold extensions, tlv_bytes, blen. destruct reply as [r|], device as [v|]; cbn [opt_len ext app fmap list_fmap concat fst snd];
    intros Hr Hd; rewrite ?length_app, ?length_tlv; unfold blen, MSG_ID_LEN, DEVICE_ID_LEN in *; cbn [length]; lia.
Qed.

(** The message is well typed and the seal's inputs have their lengths. *)
Record sealing_ok (identity : Identity) (contact : Contact) (agree_sk : bytes) (m : StoredMessage) (rnd : draw) : Prop := {
  sk_identity : identity_ok identity;
  sk_key : ct_agree_pk contact = x25519_public agree_sk;
  sk_key_len : blen agree_sk = 32;
  sk_nonce : blen (dr_nonce rnd) = NONCE_LEN;
  sk_kind : 1 <= sm_kind m <= 255;
  sk_lamport : in_u64 (sm_lamport m);
  sk_time : in_i64 (sm_timestamp m);
  sk_size : blen (sm_payload m) <= MAX_ENVELOPE_SEALED_BYTES;
}.

(** The sealed body opens at the contact and decodes to the message. *)
Lemma envelope_opens identity contact agree_sk m reply now msg_id expiry rnd env :
  sealing_ok identity contact agree_sk m rnd ->
  build_pairwise_envelope identity contact m reply now msg_id expiry rnd = Ok env ->
  exists body,
    open_sealed_with_agree_sk agree_sk (oe_sealed env) = Ok (mk_opened (derive_user_id (id_sign_pk identity)) body)
    /\ decode_extended_message_body body
       = Ok (mk_extended (mk_body (sm_kind m) (id_user_id identity) (sm_lamport m) (sm_timestamp m) (sm_payload m)) reply
               (wire_device_id (sm_sender_device_id m)) None)
    /\ oe_sealed env <> [] /\ opt_len reply MSG_ID_LEN /\ sm_lamport m <= I64_MAX.
Proof.
  intros [Hid Hpk Hsk Hnonce Hk Hl Ht Hsize] Henv. unfold build_pairwise_envelope in Henv.
  apply result_bind_ok in Henv as (body & Hbody & Henv). apply result_bind_ok in Henv as (sealed & Hseal & Henv).
  apply Ok_inj in Henv as <-. cbn [oe_sealed]. exists body. rewrite encoded_body_extended in Hbody.
  pose proof (extended_encoded _ _ _ _ _ Hbody) as (Hbytes & Hv & Hcl & _ & Hrl & Hdl & _).
  unfold seal_message in Hseal. change SEAL_ENVELOPE_VERSION with ENVELOPE_VERSION_LEGACY in Hseal. rewrite Hpk in Hseal. split_and!.
  - eapply seal_open_roundtrip; [done|done|done| |exact Hseal]. left. split; [done|]. split.
    + rewrite Hbytes, blen_app, blen_message_bytes. cbn [chat_id content] in *. pose proof (blen_extensions _ _ Hrl Hdl).
      unfold MAX_ENVELOPE_SEALED_BYTES in *. ints.
    + intros _. rewrite Hbytes. unfold message_bytes. rewrite <- app_assoc. cbn [Message.kind]. by apply body_not_transcript.
  - rewrite <- (app_nil_r body). apply (message_body_roundtrip _ _ _ _ _ []); [|exact Hbody|constructor|constructor].
    split_and!; cbn; ints || done.
  - unfold seal_message_as_version in Hseal. inv_ok. by rewrite push_u8_eq.
  - done.
  - unfold validate_message_body_fields in Hv. apply result_bind_ok in Hv as (? & Hv & _). apply ensure_ok in Hv. bools. exact Hv.
Qed.

Lemma authored_expiry_range kind now : in_i64 (authored_expiry kind now).
Proof. unfold authored_expiry, i64_saturating_add. apply sat_i64_range. Qed.

(** The frame parses as the envelope. *)
Lemma envelope_parses identity contact m reply now msg_id expiry rnd env :
  build_pairwise_envelope identity contact m reply now msg_id expiry rnd = Ok env -> blen msg_id = MSG_ID_LEN -> in_i64 expiry ->
  oe_sealed env <> [] -> blen (oe_sealed env) <= MAX_ENVELOPE_SEALED_BYTES ->
  parse_frame (ae_frame (authored m env 0))
  = Ok (Envelope msg_id DEFAULT_HOP_TTL expiry (compute_recipient_hint (ct_user_id contact) now) (oe_sealed env)).
Proof.
  intros Henv Hmid Hexp Hnil Hlen. unfold build_pairwise_envelope in Henv. inv_ok. cbn [oe_sealed] in *.
  assert (blen (compute_recipient_hint (ct_user_id contact) now) = RECIPIENT_HINT_LEN) as Hhint.
  { unfold compute_recipient_hint, blen. by rewrite blake2b_length. }
  eapply frame_roundtrip; [|reflexivity|].
  - cbn [frame_wf]. split_and!; done.
  - cbn [authored ae_frame oe_msg_id oe_hop_ttl oe_expiry oe_recipient_hint oe_sealed]. unfold encode_envelope_frame. rewrite !blen_app, blen_be_bytes, Hmid, Hhint, !push_u8_eq. change (blen [_]) with 1.
    unfold MAX_P2P_FRAME_BYTES, ENVELOPE_FRAME_OVERHEAD, MSG_ID_LEN, RECIPIENT_HINT_LEN in *. lia.
Qed.

Lemma authored_kind d d' identity contact kind payload reply now rnd a :
  author_pairwise_message d identity contact kind payload reply now rnd = (d', Ok a) -> is_pairwise_kind kind = true.
Proof.
  unfold author_pairwise_message. intros Hau.
  match type of Hau with transaction d ?b = _ => destruct (transaction_inv d b) as [(d1 & a1 & Hb & Ht)|[e Ht]] end;
    rewrite Ht in Hau; [|discriminate Hau]. apply result_bind_ok in Hb as (? & _ & Hb). by apply result_bind_ok in Hb as (? & Hkind%ensure_ok & _).
Qed.

(** What is authored arrives.  The frame that authoring a message returns parses as
    an envelope; with the contact's secret key it opens, as the author's; and it decodes
    to exactly the message that was stored, with its reply and its device, numbered and
    timed as stored. *)
Lemma authored_mail_arrives d d' identity contact kind payload reply now rnd agree_sk a :
  author_pairwise_message d identity contact kind payload reply now rnd = (d', Ok a) ->
  identity_ok identity -> ct_agree_pk contact = x25519_public agree_sk -> blen agree_sk = 32 ->
  blen (dr_msg_id rnd) = MSG_ID_LEN -> blen (dr_nonce rnd) = NONCE_LEN -> in_i64 now -> times_ok d ->
  blen payload <= MAX_ENVELOPE_SEALED_BYTES -> blen (oe_sealed (ae_envelope a)) <= MAX_ENVELOPE_SEALED_BYTES ->
  exists body,
    parse_frame (ae_frame a) = Ok (Envelope (dr_msg_id rnd) DEFAULT_HOP_TTL (authored_expiry kind now)
                                     (compute_recipient_hint (ct_user_id contact) now) (oe_sealed (ae_envelope a)))
    /\ open_sealed_with_agree_sk agree_sk (oe_sealed (ae_envelope a)) = Ok (mk_opened (derive_user_id (id_sign_pk identity)) body)
    /\ decode_extended_message_body body
       = Ok (mk_extended (mk_body kind (id_user_id identity) (sm_lamport (ae_message a)) (sm_timestamp (ae_message a)) payload)
               reply (wire_device_id (own_authoring_device_id d)) None)
    /\ now <= sm_timestamp (ae_message a) /\ opt_len reply MSG_ID_LEN /\ sm_lamport (ae_message a) <= I64_MAX.
Proof.
  intros Hau Hid Hpk Hsk Hmid Hnonce Hnow Htimes Hpay Hsealed. unfold author_pairwise_message in Hau.
  match type of Hau with transaction d ?b = _ => destruct (transaction_inv d b) as [(d1 & a1 & Hb & Ht)|[e Ht]] end;
    rewrite Ht in Hau; injection Hau; clear Hau; [|intros; discriminate]. intros -> ->.
  apply result_bind_ok in Hb as (? & _ & Hb). apply result_bind_ok in Hb as (? & Hkind%ensure_ok & Hb).
  destruct (next_message d identity (ct_user_id contact) kind payload now) as [m ack] eqn:Hm.
  apply result_bind_ok in Hb as (env & Henv & Hb). apply result_bind_ok in Hb as (d2 & _ & Hb). apply Ok_inj in Hb.
  injection Hb as -> <-. cbn [ae_envelope oe_sealed authored ae_message] in *.
  destruct (display_time_spec d (ct_user_id contact) now Htimes Hnow) as (Ht1 & Ht2 & _).
  assert (m = mk_stored_message (ct_user_id contact) (id_user_id identity)
    (next_authored_lamport d (ct_user_id contact) (id_user_id identity)).1
    (causal_timestamp_for_chat d (ct_user_id contact) now) kind payload (own_authoring_device_id d)) as Em.
  { unfold next_message in Hm. destruct (next_authored_lamport d _ _). by injection Hm as <- _. }
  assert (sealing_ok identity contact agree_sk m rnd) as Hok.
  { subst m. split; cbn [sm_kind sm_lamport sm_timestamp sm_payload]; try done; [by apply pairwise_kind_range|].
    unfold next_authored_lamport. cbn [fst]. apply as_u64_range. }
  destruct (envelope_opens _ _ _ _ _ _ _ _ _ _ Hok Henv) as (body & Hop & Hdec & Hnil & Hrl & Hll). exists body.
  pose proof (envelope_parses _ _ _ _ _ _ _ _ _ Henv Hmid (authored_expiry_range kind now) Hnil Hsealed) as Hparse.
  rewrite Em in Hdec |- *. cbn [sm_kind sm_lamport sm_timestamp sm_payload sm_sender_device_id] in *.
  split_and!; [exact Hparse|exact Hop|exact Hdec|lia|done|by rewrite Em in Hll].
Qed.

End arrival.

(** * Witnesses *)

Definition toy_adb : authoring_db :=
  mk_adb (mk_odb (mk_edb (mk_routing [] [[x05]] (mk_fleet None []) true true) (RosterStore.mk_db ∅ ∅ [] [] 0) [] [] ∅ []) [] ∅ [] [] ∅)
    sync_empty ∅ true.

Definition toy_contact : Contact := mk_contact [x05] [x42] (replicate 32 x04) (replicate 32 x02) None None None.
Definition toy_draw (b : byte) : draw := mk_draw (replicate 16 b) (replicate 32 x09) (replicate 24 x00).

(** Deleting the chat: its messages, receipts and queue go, the marks stay. *)
Definition wipe (d : authoring_db) : authoring_db :=
  with_out d (mk_odb (with_messages (od_engine (ad_out d)) []) [] ∅ [] [] (od_watermarks (ad_out d))).

Lemma authored_lamports_climb_witness :
  let ops := [OpPairwise toy_identity toy_contact KIND_TEXT [x68] None 1000 (toy_draw x01); OpElsewhere wipe;
              OpPairwise toy_identity toy_contact KIND_TEXT [x69] None 2000 (toy_draw x02)] in
  (author_run (C := toy_crypto) (S := toy_seal) toy_adb ops).2 = [([x05], replicate 16 x05, 1); ([x05], replicate 16 x05, 2)]
  /\ 1 < 2.
Proof.
  intros ops. split; [vm_compute; reflexivity|].
  apply (authored_lamports_climb (C := toy_crypto) (S := toy_seal) toy_adb ops 0 1 [x05] (replicate 16 x05) 1 2).
  - repeat constructor.
  - lia.
  - vm_compute. reflexivity.
  - vm_compute. reflexivity.
  - vm_compute. split; [discriminate|reflexivity].
  - vm_compute. reflexivity.
Defined.
