(* ===== verification/InboundStore.v ===== *)
(** The message store as the inbound path sees it ([core/src/store.rs]): the tables a
    received body may change, and the operations on them - the insert of a received
    message with the quarantine of forks, contacts and imported cards, block list, avatars
    and discovery policies, shared requests, relay-change notices, receipts.

    The columns of [contacts] are kept where the other files read them: the card in
    [ms_contacts], the relay health in [ms_health], the identity key and the notice epoch
    in the roster tables, the user ids in the routing tables; [put_contact] writes the row
    through to all of them.  Columns only screens read (reply targets, arrivals, delivery
    metrics) are left out.  SQLite's own failures are outside. *)
From stdpp Require Import base numbers list gmap strings sorting.
From coqutil Require Import Datatypes.RecordSetters.
From S2P Require Import Prelude StdModel SqlModel Wire Crypto RosterCodec Roster RosterStore Message Frames Hints Engine.
From S2P Require Import OutboundQueue RelayPolicy RelayWire CarryQueue SyncStream SyncStore Sealing Groups SyncRecords FriendCards Authoring.
Import TriangleBracketNotations.

(** * Tables *)

Record ContactDiscoveryPolicy : Type := mk_policy {
  dp_user_id : bytes;
  dp_protocol_version : Z;
  dp_enabled : bool;
  dp_revision : Z;
}.

Record PendingSharedRequest : Type := mk_pending {
  ps_requester_user_id : bytes;
  ps_name : bytes;
  ps_sign_pk : bytes;
  ps_agree_pk : bytes;
  ps_relay_url : option bytes;
  ps_relay_token : option bytes;
  ps_sharer_user_id : bytes;
  ps_expires_at_ms : Z;
  ps_first_seen_ms : Z;
  ps_last_prompted_ms : Z;
}.

Record OwnSyncContext : Type := mk_own_context { oc_roster : Roster; oc_inbox_key_generation : Z }.

Record MessageArrival : Type := mk_arrival { ma_transport : Z; ma_hops_taken : Z; ma_received_at : Z }.

Record mesh_store : Type := mk_mesh {
  ms_author : authoring_db;
  ms_carried : list carry_row;
  ms_contacts : gmap bytes Contact;
  ms_avatars : gmap bytes (option bytes * Z);
  ms_health : contact_table;
  ms_policies : gmap bytes ContactDiscoveryPolicy;
  ms_blocked : gmap bytes Z;
  ms_pending : gmap bytes PendingSharedRequest;
  ms_dismissals : gmap bytes (Z * bool);
  ms_group_receipts : gmap (bytes * bytes * bytes * Z) (Z * option Z);
  ms_own_context : option OwnSyncContext;
  ms_own_roster : option Roster;
}.

Notation ms_out s := (ad_out (ms_author s)).
Notation ms_engine s := (od_engine (ms_out s)).
Notation ms_routing s := (e_routing (ms_engine s)).
Notation ms_messages s := (e_messages (ms_engine s)).

(** * Actions

    A call that reads and writes the store and may fail; what it wrote before it failed
    stays written. *)

Definition action (E A : Type) : Type := mesh_store -> mesh_store * result E A.

#[global] Instance action_ret {E} : MRet (action E) := fun A a s => (s, Ok a).
#[global] Instance action_bind {E} : MBind (action E) := fun A B f m s =>
  match m s with (s, Ok a) => f a s | (s, Err e) => (s, Err e) end.

Definition reads {E A} (f : mesh_store -> A) : action E A := fun s => (s, Ok (f s)).
Definition writes {E} (f : mesh_store -> mesh_store) : action E unit := fun s => (f s, Ok tt).
Definition checks {E A} (r : result E A) : action E A := fun s => (s, r).
Definition fails {E A} (e : E) : action E A := checks (Err e).

(** A call of the authoring tables; a call of the outbound tables. *)
Definition on_author {A} (f : authoring_db -> authoring_db * result CoreError A) : action CoreError A := fun s =>
  let '(d, r) := f (ms_author s) in (s <| ms_author := d |>, r).

Definition on_out {A} (f : outbound_db -> outbound_db * result CoreError A) : action CoreError A :=
  on_author (fun a => let '(o, r) := f (ad_out a) in (with_out a o, r)).

(** An update of the tables of [Engine.v]. *)
Definition with_engine (f : engine_db -> engine_db) (s : mesh_store) : mesh_store :=
  s <| ms_author ::= (fun a => with_out a ((ad_out a) <| od_engine ::= f |>)) |>.

Definition on_engine {A} (f : engine_db -> engine_db * result CoreError A) : action CoreError A := fun s =>
  let '(e, r) := f (ms_engine s) in (with_engine (fun _ => e) s, r).

(** [let _ = self.call()]: the outcome is dropped, what it wrote is not. *)
Definition best_effort {E F A} (a : action E A) : action F unit := fun s => ((a s).1, Ok tt).

(** Inversion of actions that succeed. *)
Lemma action_bind_ok {E A B} (m : action E A) (f : A -> action E B) s s' b :
  (m ≫= f) s = (s', Ok b) <-> exists s1 a, m s = (s1, Ok a) /\ f a s1 = (s', Ok b).
Proof.
  unfold mbind, action_bind. destruct (m s) as [s1 [a|e]]; [naive_solver|]. split; [done|]. intros (? & ? & [=] & _).
Qed.

Lemma checks_ok {E A} (r : result E A) s s' a : checks r s = (s', Ok a) <-> s' = s /\ r = Ok a.
Proof. unfold checks. naive_solver. Qed.

Lemma mret_action_ok {E A} (a : A) s s' b : (mret a : action E A) s = (s', Ok b) <-> s' = s /\ b = a.
Proof. unfold mret, action_ret. naive_solver. Qed.

Lemma reads_ok {E A} (f : mesh_store -> A) s s' b : (reads f : action E A) s = (s', Ok b) <-> s' = s /\ b = f s.
Proof. unfold reads. naive_solver. Qed.

Lemma writes_ok {E} (f : mesh_store -> mesh_store) s s' b : (writes f : action E unit) s = (s', Ok b) <-> s' = f s.
Proof. unfold writes. destruct b. naive_solver. Qed.

Ltac act_inv :=
  repeat match goal with
  | H : (_ ≫= _) _ = (_, Ok _) |- _ =>
      apply action_bind_ok in H; let s := fresh "s" in let a := fresh "a" in let Ha := fresh "Ha" in destruct H as (s & a & Ha & H)
  | H : mret _ _ = (_, Ok _) |- _ => apply mret_action_ok in H as [-> H]; simplify_eq
  | H : reads _ _ = (_, Ok _) |- _ => apply reads_ok in H as [-> H]; try subst
  | H : writes _ _ = (_, Ok _) |- _ => apply writes_ok in H as ->
  | H : checks _ _ = (_, Ok _) |- _ => apply checks_ok in H as [-> H]
  | H : fails _ _ = (_, Ok _) |- _ => discriminate H
  end.

(** * Received messages *)

Inductive IncomingMessageInsertOutcome : Type := Inserted | Duplicate | QuarantinedConflict.

Definition MESSAGE_CONFLICT_QUARANTINE_LIMIT : Z := 64.
Definition MESSAGE_CONFLICT_FINGERPRINT_LEN : nat := 16.
Definition MESSAGE_ID_LEN : Z := 16.

Definition validate_message_arrival (arrival : MessageArrival) : result CoreError unit :=
  ensure (ma_transport arrival <=? 4) (Malformed "invalid message arrival transport").

Definition validate_msg_id (field : string) (msg_id : bytes) : result CoreError unit :=
  ensure (blen msg_id =? MESSAGE_ID_LEN) (Malformed (field +:+ " must be exactly 16 bytes")).

Definition validate_stored_message (message : StoredMessage) : result CoreError unit :=
  validate_sqlite_u64 "message lamport" (sm_lamport message).

(** The stream position, which is unique. *)
Definition at_position (row : message_row) (m : message_row) : bool :=
  bool_decide (mr_chat_id m = mr_chat_id row) && bool_decide (mr_sender m = mr_sender row)
  && bool_decide (mr_device m = mr_device row) && (mr_lamport m =? mr_lamport row).

(** The body a position holds. *)
Definition same_body (row m : message_row) : bool :=
  (mr_timestamp m =? mr_timestamp row) && (mr_kind m =? mr_kind row) && bool_decide (mr_payload m = mr_payload row).

(** [COALESCE(old, new)] *)
Definition coalesce {A} (old new : option A) : option A := match old with Some _ => old | None => new end.

(** [SET msg_id = COALESCE(msg_id, ?4)] at the position. *)
Definition fill_msg_id (row : message_row) (m : message_row) : message_row :=
  if at_position row m
  then mk_mrow (coalesce (mr_msg_id m) (mr_msg_id row)) (mr_chat_id m) (mr_sender m) (mr_device m) (mr_lamport m) (mr_timestamp m)
         (mr_kind m) (mr_payload m)
  else m.

(** [ORDER BY (incoming_msg_id IS NOT NULL) DESC, last_seen_at DESC, id DESC]: the rows
    come in order of id, so the later of two equal rows goes first. *)
Definition conflict_le (a b : nat * conflict_row) : Prop :=
  let has x := bool_decide (is_Some (mr_msg_id (cf_row x.2))) in
  (has a = true /\ has b = false)
  \/ (has a = has b /\ (cf_last_seen_at b.2 < cf_last_seen_at a.2
                        \/ (cf_last_seen_at a.2 = cf_last_seen_at b.2 /\ (b.1 <= a.1)%nat))).

#[global] Instance conflict_le_dec : RelDecision conflict_le.
Proof. intros a b. unfold conflict_le. apply _. Defined.

(** [DELETE ... LIMIT -1 OFFSET ?1]: the rows past the first 64 of that order go. *)
Definition trim_conflicts (rows : list conflict_row) : list conflict_row :=
  let dropped := drop (Z.to_nat MESSAGE_CONFLICT_QUARANTINE_LIMIT) (merge_sort conflict_le (imap pair rows)) in
  omap (fun ir => if decide (ir.1 ∈ (fst <$> dropped)) then None else Some ir.2) (imap pair rows).

Section inserts.
Context `{C : Crypto}.

Definition message_conflict_fingerprint (row : message_row) : bytes :=
  blake2b MESSAGE_CONFLICT_FINGERPRINT_LEN
    (be_bytes 8 (blen (mr_chat_id row)) ++ mr_chat_id row ++ be_bytes 8 (blen (mr_sender row)) ++ mr_sender row
     ++ be_bytes 8 (mr_timestamp row) ++ push_u8 (mr_kind row) ++ mr_payload row).

(** [UNIQUE(chat_id, sender_user_id, sender_device_id, lamport, incoming_fingerprint)] *)
Definition same_conflict (new old : conflict_row) : bool :=
  at_position (cf_row new) (cf_row old) && bool_decide (cf_incoming_fingerprint old = cf_incoming_fingerprint new).

Definition merge_conflict (new old : conflict_row) : conflict_row :=
  let r := cf_row old in
  mk_conflict
    (mk_mrow (coalesce (mr_msg_id r) (mr_msg_id (cf_row new))) (mr_chat_id r) (mr_sender r) (mr_device r) (mr_lamport r) (mr_timestamp r)
       (mr_kind r) (mr_payload r))
    (cf_existing_fingerprint new) (cf_incoming_fingerprint old) (cf_first_seen_at old) (Z.max (cf_last_seen_at old) (cf_last_seen_at new))
    (cf_seen_count old + 1).

Definition quarantine_message_conflict (conflicts : list conflict_row) (existing incoming : message_row) (observed_at : Z)
  : list conflict_row :=
  let new := mk_conflict incoming (message_conflict_fingerprint existing) (message_conflict_fingerprint incoming) observed_at observed_at 1 in
  trim_conflicts
    (if existsb (same_conflict new) conflicts
     then (fun old => if same_conflict new old then merge_conflict new old else old) <$> conflicts
     else conflicts ++ [new]).

(** One transaction.  [now_ms] is the clock, read for a conflict that has no arrival. *)
Definition insert_incoming (e : engine_db) (message : StoredMessage) (sender_device_id : bytes) (msg_id : option bytes) (arrival : option MessageArrival)
  (now_ms : Z) : engine_db * result CoreError IncomingMessageInsertOutcome :=
  match (_ ← validate_stored_message message; match arrival with Some a => validate_message_arrival a | None => Ok tt end) with
  | Err err => (e, Err err)
  | Ok _ =>
      let row := mk_mrow msg_id (sm_chat_id message) (sm_sender_user_id message) sender_device_id (to_i64 (sm_lamport message))
                   (sm_timestamp message) (sm_kind message) (sm_payload message) in
      match List.find (at_position row) (e_messages e) with
      | None => (with_messages e (e_messages e ++ [row]), Ok Inserted)
      | Some existing =>
          if same_body row existing then
            (if bool_decide (is_Some msg_id) then with_messages e (fill_msg_id row <$> e_messages e) else e, Ok Duplicate)
          else
            let observed_at := match arrival with Some a => ma_received_at a | None => now_ms end in
            (mk_edb (e_routing e) (e_rosters e) (e_messages e) (quarantine_message_conflict (e_conflicts e) existing row observed_at)
               (e_hidden e) (e_carried e), Ok QuarantinedConflict)
      end
  end.

Definition insert_incoming_message_from_device (message : StoredMessage) (sender_device_id : option bytes) (msg_id : bytes)
  (reply_to_msg_id : option bytes) (arrival : option MessageArrival) (now_ms : Z) : action CoreError IncomingMessageInsertOutcome :=
  _ ← checks (validate_msg_id "msg_id" msg_id);
  _ ← checks (match reply_to_msg_id with Some id => validate_msg_id "reply_to_msg_id" id | None => Ok tt end);
  _ ← checks (match arrival with Some a => validate_message_arrival a | None => Ok tt end);
  on_engine (fun e => insert_incoming e message (core_device_stream_id sender_device_id) (Some msg_id) arrival now_ms).

End inserts.

(** [SELECT DISTINCT sender_device_id ... ORDER BY sender_device_id ASC] *)
Definition message_stream_device_ids (s : mesh_store) (chat_id sender_user_id : bytes) : list bytes :=
  dedup (merge_sort bytes_le (mr_device <$> filter (fun m => mr_chat_id m = chat_id /\ mr_sender m = sender_user_id) (ms_messages s))).

(** [SELECT COALESCE(MAX(lamport), 0)] *)
Definition highest_lamport (s : mesh_store) (chat_id sender_user_id : bytes) : Z :=
  as_u64 (max_or_zero (mr_lamport <$> filter (fun m => mr_chat_id m = chat_id /\ mr_sender m = sender_user_id) (ms_messages s))).

(** * Contacts *)

Definition get_contact (s : mesh_store) (user_id : bytes) : option Contact := ms_contacts s !! user_id.

(** [list_contacts]: by name (and by id where names are equal). *)
Definition contact_le (a b : Contact) : Prop :=
  ct_name a <> ct_name b /\ bytes_le (ct_name a) (ct_name b) \/ ct_name a = ct_name b /\ bytes_le (ct_user_id a) (ct_user_id b).

#[global] Instance contact_le_dec : RelDecision contact_le.
Proof. intros a b. unfold contact_le. apply _. Defined.

Definition list_contacts (s : mesh_store) : list Contact := merge_sort contact_le (map_to_list (ms_contacts s)).*2.

(** The columns of an upsert: a new row starts healthy; an old one keeps its nickname, its
    avatar and its notice epoch, and its relay health unless the endpoint moved. *)
Definition contact_health (old : option Contact) (contact : Contact) (health : option contact_health_row) : contact_health_row :=
  match old with
  | None => healthy_row
  | Some c => if decide (ct_relay_url contact = ct_relay_url c /\ ct_relay_token contact = ct_relay_token c)
              then default healthy_row health else healthy_row
  end.

Definition put_contact (s : mesh_store) (contact : Contact) : mesh_store :=
  let id := ct_user_id contact in
  let old := get_contact s id in
  let row := mk_contact id (ct_name contact) (ct_sign_pk contact) (ct_agree_pk contact) (ct_relay_url contact) (ct_relay_token contact)
               (old ≫= ct_nickname) in
  let s := s <| ms_contacts ::= <[id := row]> |> <| ms_health ::= <[id := contact_health old contact (ms_health s !! id)]> |> in
  let ids := ct_user_id <$> list_contacts s in
  with_engine (fun e =>
    let r := e_routing e in
    let epoch := default 0 (contact_relay_epoch <$> contacts (e_rosters e) !! id) in
    mk_edb (mk_routing (rt_groups r) ids (rt_fleet r) (rt_advertise r) (rt_ack r))
      (RosterStore.with_contacts (e_rosters e) (<[id := RosterStore.mk_contact (ct_sign_pk contact) epoch]> (contacts (e_rosters e))))
      (e_messages e) (e_conflicts e) (e_hidden e) (e_carried e)) s.

Definition upsert_contact (contact : Contact) : action CoreError unit := writes (fun s => put_contact s contact).

(** [value.trim()] is not empty. *)
Definition has_text (value : option bytes) : bool := match value with Some v => negb (bool_decide (trim v = [])) | None => false end.

Definition block_user (user_id : bytes) (now_ms : Z) : action CoreError unit :=
  writes (fun s => match ms_blocked s !! user_id with Some _ => s | None => s <| ms_blocked ::= <[user_id := now_ms]> |> end).

Definition unblock_user (user_id : bytes) : action CoreError bool := fun s =>
  (s <| ms_blocked ::= delete user_id |>, Ok (bool_decide (is_Some (ms_blocked s !! user_id)))).

Definition is_user_blocked (s : mesh_store) (user_id : bytes) : bool := bool_decide (is_Some (ms_blocked s !! user_id)).

(** An import keeps a complete endpoint an incomplete card would erase, and clears the
    block. *)
Definition imported_contact (old : option Contact) (contact : Contact) : Contact :=
  if has_text (ct_relay_url contact) && has_text (ct_relay_token contact) then contact
  else match old with
       | Some c => if has_text (ct_relay_url c) && has_text (ct_relay_token c)
                   then mk_contact (ct_user_id contact) (ct_name contact) (ct_sign_pk contact) (ct_agree_pk contact) (ct_relay_url c)
                          (ct_relay_token c) (ct_nickname contact)
                   else contact
       | None => contact
       end.

Definition upsert_imported_contact (contact : Contact) : action CoreError Contact := fun s =>
  let contact := imported_contact (get_contact s (ct_user_id contact)) contact in
  ((put_contact s contact) <| ms_blocked ::= delete (ct_user_id contact) |>, Ok contact).

Definition upsert_contact_discovery_policy (policy : ContactDiscoveryPolicy) : action CoreError bool := fun s =>
  if match ms_policies s !! dp_user_id policy with Some old => to_i64 (dp_revision old) <? to_i64 (dp_revision policy) | None => true end
  then (s <| ms_policies ::= <[dp_user_id policy := policy]> |>, Ok true) else (s, Ok false).

Definition set_contact_avatar (user_id : bytes) (avatar : option bytes) (epoch : Z) : action CoreError bool := fun s =>
  let avatar := match avatar with Some [] => None | a => a end in
  let old := default (None, 0) (ms_avatars s !! user_id) in
  if bool_decide (is_Some (get_contact s user_id)) && (old.2 <? epoch)
  then (s <| ms_avatars ::= <[user_id := (avatar, epoch)]> |>, Ok true) else (s, Ok false).

(** * Shared requests *)

Definition upsert_pending_shared_request (request : PendingSharedRequest) : action CoreError unit := writes (fun s =>
  let row first last := mk_pending (ps_requester_user_id request) (ps_name request) (ps_sign_pk request) (ps_agree_pk request)
    (ps_relay_url request) (ps_relay_token request) (ps_sharer_user_id request) (ps_expires_at_ms request) first last in
  let new := match ms_pending s !! ps_requester_user_id request with
             | Some old => row (ps_first_seen_ms old) (ps_last_prompted_ms old)
             | None => row (ps_first_seen_ms request) 0
             end in
  s <| ms_pending ::= <[ps_requester_user_id request := new]> |>).

Definition get_shared_request_dismissal (s : mesh_store) (requester_user_id : bytes) : option (Z * bool) :=
  ms_dismissals s !! requester_user_id.

Definition note_shared_request_prompt (requester_user_id : bytes) (now_ms : Z) : action CoreError bool := fun s =>
  if from_option snd false (ms_dismissals s !! requester_user_id) then (s, Ok false)
  else match ms_pending s !! requester_user_id with
       | Some r =>
           if ps_last_prompted_ms r <=? now_ms - MS_PER_DAY
           then (s <| ms_pending ::= <[requester_user_id := mk_pending (ps_requester_user_id r) (ps_name r) (ps_sign_pk r) (ps_agree_pk r)
                    (ps_relay_url r) (ps_relay_token r) (ps_sharer_user_id r) (ps_expires_at_ms r) (ps_first_seen_ms r) now_ms]> |>, Ok true)
           else (s, Ok false)
       | None => (s, Ok false)
       end.

(** * Relay-change notices *)

Record RelayUpdateContent : Type := mk_relay_update {
  ru_subject_user_id : bytes;
  ru_relay_epoch : Z;
  ru_relay_url : bytes;
  ru_relay_token : bytes;
}.

Definition RELAY_UPDATE_VERSION : Z := 1.
Definition RELAY_UPDATE_MAX_URL_BYTES : Z := 512.
Definition RELAY_UPDATE_MAX_TOKEN_BYTES : Z := 256.
Definition RELAY_UPDATE_MAX_SUBJECT_BYTES : Z := 64.

Definition is_empty_text (t : bytes) : bool := bool_decide (t = []).

Definition validate_relay_update_credential (relay_url relay_token : bytes) : result CoreError unit :=
  _ ← ensure (Bool.eqb (is_empty_text relay_url) (is_empty_text relay_token))
        (Malformed "relay update must carry both a url and a token, or neither");
  ensure (is_empty_text relay_token || relay_token_is_deposit relay_token) (Malformed "relay update credential must be deposit-class").

Definition subject_in_range (subject : bytes) : bool :=
  negb (is_empty_text subject || (RELAY_UPDATE_MAX_SUBJECT_BYTES <? blen subject)).

Definition encode_relay_update_content `{C : Crypto} `{B : Base64} (content : RelayUpdateContent) : result CoreError bytes :=
  _ ← ensure (subject_in_range (ru_subject_user_id content)) (Malformed "relay update subject user id is out of range");
  let url := normalize_relay_url (ru_relay_url content) in
  let token := relay_deposit_token_for (ru_relay_token content) in
  let '(url, token) := if is_empty_text url || is_empty_text token then ([], []) else (url, token) in
  _ ← ensure (blen url <=? RELAY_UPDATE_MAX_URL_BYTES) (Malformed "relay update url exceeds 512 bytes");
  _ ← ensure (blen token <=? RELAY_UPDATE_MAX_TOKEN_BYTES) (Malformed "relay update token exceeds 256 bytes");
  Ok (push_u8 RELAY_UPDATE_VERSION ++ write_bytes16 (ru_subject_user_id content) ++ be_bytes 8 (ru_relay_epoch content)
      ++ write_bytes16 url ++ write_bytes16 token).

Definition read_relay_update : reader CoreError RelayUpdateContent :=
  version ← Cursor.take_u8;
  _ ← guard_ (version =? RELAY_UPDATE_VERSION) (Malformed "unknown relay-update version");
  subject_user_id ← Cursor.take_bytes16;
  _ ← guard_ (subject_in_range subject_user_id) (Malformed "relay update subject user id is out of range");
  relay_epoch ← Cursor.take_i64;
  url_bytes ← Cursor.take_bytes16;
  _ ← guard_ (blen url_bytes <=? RELAY_UPDATE_MAX_URL_BYTES) (Malformed "relay update url exceeds 512 bytes");
  token_bytes ← Cursor.take_bytes16;
  _ ← guard_ (blen token_bytes <=? RELAY_UPDATE_MAX_TOKEN_BYTES) (Malformed "relay update token exceeds 256 bytes");
  _ ← Cursor.finish;
  _ ← guard_ (utf8_valid url_bytes) (Malformed "invalid utf-8");
  _ ← guard_ (utf8_valid token_bytes) (Malformed "invalid utf-8");
  _ ← lift (validate_relay_update_credential url_bytes token_bytes);
  mret (mk_relay_update subject_user_id relay_epoch url_bytes token_bytes).

Definition decode_relay_update_content (bs : bytes) : result CoreError RelayUpdateContent := Cursor.run read_relay_update bs.

Definition opt_text (t : bytes) : option bytes := if is_empty_text t then None else Some t.

(** [UPDATE contacts SET relay_url, relay_token, relay_epoch, ...] and the marks the move
    invalidates, in one transaction. *)
Definition move_endpoint (s : mesh_store) (user_id : bytes) (url token : option bytes) (epoch : Z) : mesh_store :=
  let s := s <| ms_contacts ::= alter (fun c => mk_contact (ct_user_id c) (ct_name c) (ct_sign_pk c) (ct_agree_pk c) url token (ct_nickname c)) user_id |>
             <| ms_health ::= alter (fun _ => healthy_row) user_id |>
             <| ms_carried ::= (fun q => (clear_carried_relay_upload_markers q).1) |>
             <| ms_author ::= (fun a => with_out a (clear_posted_to user_id (ad_out a))) |> in
  with_engine (fun e =>
    mk_edb (e_routing e)
      (RosterStore.with_contacts (e_rosters e)
         (alter (fun c => RosterStore.mk_contact (contact_sign_pk c) epoch) user_id (contacts (e_rosters e))))
      (e_messages e) (e_conflicts e) (e_hidden e) (e_carried e)) s.

Definition apply_contact_relay_update (sender_user_id : bytes) (content : RelayUpdateContent) (now_ms : Z) : action CoreError bool := fun s =>
  if negb (bool_decide (ru_subject_user_id content = sender_user_id))
  then (s, Err (Malformed "relay update may only change the sending contact's own endpoint"))
  else if i64_saturating_add now_ms RELAY_EPOCH_MAX_SKEW_MS <? ru_relay_epoch content then (s, Ok false)
  else match validate_relay_update_credential (ru_relay_url content) (ru_relay_token content) with
       | Err e => (s, Err e)
       | Ok _ =>
           match contact_relay_epoch <$> contacts (e_rosters (ms_engine s)) !! sender_user_id with
           | Some old =>
               if old <? ru_relay_epoch content
               then (move_endpoint s sender_user_id (opt_text (ru_relay_url content)) (opt_text (ru_relay_token content)) (ru_relay_epoch content),
                     Ok true)
               else (s, Ok false)
           | None => (s, Ok false)
           end
       end.

(** * Receipts *)

Definition record_group_receipt (group author_user_id member_user_id : bytes) (receipt_type through_lamport : Z) (via_transport : option Z)
  : action CoreError unit :=
  _ ← checks (validate_receipt_watermark receipt_type through_lamport);
  _ ← checks (ensure (blen group =? GROUP_ID_LEN) (Malformed "group receipt id must be exactly 16 bytes"));
  writes (fun s =>
    let key := (group, author_user_id, member_user_id, receipt_type) in
    s <| ms_group_receipts ::= <[key := upsert_receipt (ms_group_receipts s !! key) (to_i64 through_lamport) via_transport]> |>).

Definition record_outgoing_receipt (chat_id sender_user_id : bytes) (receipt_type through_lamport : Z) : action CoreError unit :=
  _ ← checks (validate_receipt_watermark receipt_type through_lamport);
  writes (fun s =>
    let key := (chat_id, sender_user_id, receipt_type) in
    let new := to_i64 through_lamport in
    let row := match ad_outgoing (ms_author s) !! key with Some old => Z.max old new | None => new end in
    s <| ms_author ::= (fun a => with_outgoing a (<[key := row]> (ad_outgoing a))) |>).

(** * Rosters and groups *)

Definition apply_roster `{C : Crypto} (incoming : Roster) : action CoreError RosterUpdateDecision :=
  on_engine (fun e => match apply_contact_roster (e_rosters e) incoming with
                      | Ok (decision, rosters) =>
                          (mk_edb (e_routing e) rosters (e_messages e) (e_conflicts e) (e_hidden e) (e_carried e), Ok decision)
                      | Err err => (e, Err err)
                      end).

Definition upsert_group (group : Group) : action CoreError unit := fun s =>
  match upsert_group_tx (ms_author s) group with
  | Ok a => (s <| ms_author := a |>, Ok tt)
  | Err e => (s, Err e)
  end.

Definition contact_device_state (s : mesh_store) (person device : bytes) : ContactDeviceState :=
  device_state (e_rosters (ms_engine s)) person device.
