(* ===== verification/SyncMerge.v ===== *)
(** Applying a sibling's sync record to the store ([core/src/sync_store.rs], [apply] and
    the merges of its payloads): history, watermarks, contacts, groups, settings, the own
    roster, and the reading of a digest.

    A merge writes through the calls of [InboundStore.v]; what it wrote before an error
    stays, and the stream slot is recorded last, so that a record that failed half way is
    applied again.  [clock] is what [current_unix_time_ms] reads. *)
From stdpp Require Import base numbers list gmap strings sorting.
From coqutil Require Import Datatypes.RecordSetters.
From S2P Require Import Prelude StdModel SqlModel Wire Crypto RosterCodec Roster RosterStore Message Frames Hints Engine.
From S2P Require Import OutboundQueue RelayPolicy RelayWire CarryQueue SyncStream SyncStore Sealing Groups SyncRecords FriendCards Authoring InboundStore.
Import TriangleBracketNotations.

Definition SYNC_BLOCKED_SETTING_KEY : bytes := str "privacy.blocked".
Definition SYNC_RELAY_CREDENTIAL_SETTING_KEY : bytes := str "relay.credential".

(** What a payload hands back besides a count. *)
Inductive sync_news : Type := OwnRosterNews (payload : SyncOwnRosterPayload) | RelayCredentialNews (endpoint : RelayEndpoint).

(** [for entry in entries { ...?; }] *)
Fixpoint for_each {E A} (f : A -> action E unit) (entries : list A) : action E unit :=
  match entries with
  | [] => mret tt
  | e :: entries => _ ← f e; for_each f entries
  end.

(** The loops that read [len(u16) ‖ bytes] fields: up to [n] of them, while they are whole. *)
Fixpoint framed_fields (n : nat) (bs : bytes) : list bytes :=
  match n with
  | O => []
  | S n =>
      if blen bs <? 2 then []
      else
        let len := be_value (take 2 bs) in
        let rest := drop 2 bs in
        if blen rest <? len then [] else take (Z.to_nat len) rest :: framed_fields n (drop (Z.to_nat len) rest)
  end.

Definition encode_block_list (ids : list bytes) : bytes :=
  let ids := dedup (merge_sort bytes_le ids) in
  be_bytes 2 (Z.min (blen ids) U16_MAX) ++ concat ((fun id => be_bytes 2 (blen id) ++ id) <$> take (Z.to_nat U16_MAX) ids).

Definition decode_block_list (bs : bytes) : list bytes :=
  if blen bs <? 2 then [] else framed_fields (Z.to_nat (be_value (take 2 bs))) (drop 2 bs).

Definition encode_relay_credential (url token : bytes) : bytes :=
  let field f := be_bytes 2 (Z.min (blen f) U16_MAX) ++ take (Z.to_nat (Z.min (blen f) U16_MAX)) f in field url ++ field token.

Definition decode_relay_credential (bs : bytes) : option RelayEndpoint :=
  match framed_fields 2 bs with
  | [url; token] =>
      if utf8_valid url && utf8_valid token && negb (bool_decide (url = [])) && negb (bool_decide (token = []))
      then Some (mk_endpoint url token) else None
  | _ => None
  end.

(** The card's fields in a fixed order, each behind its length. *)
Definition contact_card_bytes (c : Contact) : bytes :=
  let push f := be_bytes 4 (blen f) ++ f in
  push (ct_name c) ++ push (ct_sign_pk c) ++ push (ct_agree_pk c) ++ push (default [] (ct_relay_url c)) ++ push (default [] (ct_relay_token c)).

Section merges.
Context `{C : Crypto} `{B : Base64} `{J : CardJson}.
Context (clock : Z).

Definition apply_history_entry (entry : SyncHistoryEntry) : action CoreError unit :=
  body ← checks (decode_extended_message_body (he_body entry));
  let b := Message.body body in
  let message := mk_stored_message (chat_id b) (he_sender_person_id entry) (lamport b) (timestamp b) (kind b) (content b) (he_sender_device_id entry) in
  _ ← insert_incoming_message_from_device message (Some (he_sender_device_id entry)) (he_origin_msg_id entry) (reply_to_msg_id body) None clock;
  mret tt.

Definition apply_history (record : SyncRecord) : action CoreError Z :=
  entries ← checks (core_decode_sync_history (rc_payload record));
  _ ← for_each apply_history_entry entries;
  mret (blen entries).

Definition record_watermark (chat_id subject : bytes) (receipt_type through : Z) : action CoreError unit :=
  if 0 <? through then record_outgoing_receipt chat_id subject receipt_type through else mret tt.

Definition apply_watermark_entry (entry : SyncWatermarkEntry) : action CoreError unit :=
  _ ← record_watermark (we_chat_id entry) (we_subject_person_id entry) RECEIPT_TYPE_DELIVERED (we_delivered_through_lamport entry);
  record_watermark (we_chat_id entry) (we_subject_person_id entry) RECEIPT_TYPE_READ (we_read_through_lamport entry).

Definition apply_watermarks (record : SyncRecord) : action CoreError Z :=
  entries ← checks (core_decode_sync_watermarks (rc_payload record));
  _ ← for_each apply_watermark_entry entries;
  mret (blen entries).

Definition contact_of_card (user_id : bytes) (card : FriendCard) : Contact :=
  mk_contact user_id (fc_name card) (fc_sign_pk card) (fc_agree_pk card) (fc_relay_url card) (fc_relay_token card) None.

Definition apply_contact_entry (entry : SyncContactEntry) : action CoreError unit :=
  card ← checks (parse_friend_card (cn_card_json entry));
  _ ← checks (ensure (bool_decide (derive_user_id (fc_sign_pk card) = cn_person_id entry))
                (Malformed "synced contact card does not belong to the person it is filed under"));
  let incoming := contact_of_card (cn_person_id entry) card in
  existing ← reads (fun s => get_contact s (cn_person_id entry));
  _ ← match existing with
      | None => upsert_contact incoming
      | Some existing =>
          if bool_decide (bytes_le (contact_card_bytes incoming) (contact_card_bytes existing)) then mret tt else upsert_contact incoming
      end;
  match cn_roster entry with
  | Some roster => _ ← apply_roster roster; mret tt
  | None => mret tt
  end.

Definition apply_contacts (record : SyncRecord) : action CoreError Z :=
  entries ← checks (core_decode_sync_contacts (rc_payload record));
  _ ← for_each apply_contact_entry entries;
  mret (blen entries).

Definition apply_groups (record : SyncRecord) : action CoreError Z :=
  groups ← checks (core_decode_sync_groups (rc_payload record));
  _ ← for_each upsert_group groups;
  mret (blen groups).

(** [put_setting] on the store's settings. *)
Definition put_store_setting (entry : SyncSettingEntry) : action CoreError bool :=
  on_author (fun a => let '(sync, r) := put_setting (ad_sync a) entry in (mk_adb (ad_out a) sync (ad_outgoing a) (ad_may_author a), r)).

(** The loop over the entries, with the ids newly blocked and the credential so far. *)
Fixpoint settings_loop (own_roster : option Roster) (now_ms : Z) (entries : list SyncSettingEntry) (blocked : list bytes)
  (credential : option RelayEndpoint) : action CoreError (list bytes * option RelayEndpoint) :=
  match entries with
  | [] => mret (blocked, credential)
  | entry :: entries =>
      if bool_decide (se_key entry = SYNC_RELAY_CREDENTIAL_SETTING_KEY)
         && negb (relay_credential_entry_is_admissible entry own_roster now_ms)
      then settings_loop own_roster now_ms entries blocked credential
      else
        took ← put_store_setting entry;
        let blocked := if took && bool_decide (se_key entry = SYNC_BLOCKED_SETTING_KEY) then decode_block_list (se_value entry) else blocked in
        let credential := if took && bool_decide (se_key entry = SYNC_RELAY_CREDENTIAL_SETTING_KEY)
                          then decode_relay_credential (se_value entry) else credential in
        settings_loop own_roster now_ms entries blocked credential
  end.

Definition apply_settings (record : SyncRecord) (now_ms : Z) : action CoreError (Z * option RelayEndpoint) :=
  entries ← checks (core_decode_sync_settings (rc_payload record));
  own_roster ← reads ms_own_roster;
  '(newly_blocked, credential) ← settings_loop own_roster now_ms entries [] None;
  _ ← for_each (fun user_id => block_user user_id now_ms) newly_blocked;
  mret (blen entries, credential).

(** The merge of one payload, by its kind ([unreachable!] for a digest, which is read
    before). *)
Definition merge_payload (record : SyncRecord) (now_ms : Z) : action CoreError (Z * option sync_news) :=
  match rc_kind record with
  | SyncHistory => n ← apply_history record; mret (n, None)
  | SyncWatermarks => n ← apply_watermarks record; mret (n, None)
  | SyncContacts => n ← apply_contacts record; mret (n, None)
  | SyncGroups => n ← apply_groups record; mret (n, None)
  | SyncSettings => '(n, credential) ← apply_settings record now_ms; mret (n, RelayCredentialNews <$> credential)
  | SyncOwnRoster =>
      payload ← checks (core_decode_sync_own_roster (rc_payload record));
      mret (as_u32 (blen (op_inbox_keys payload)), Some (OwnRosterNews payload))
  | SyncDigestKind => fails (Malformed "unreachable")
  end.

Definition ms_sync (s : mesh_store) : sync_db := ad_sync (ms_author s).

Definition with_sync (f : sync_db -> sync_db) (s : mesh_store) : mesh_store :=
  s <| ms_author ::= (fun a => mk_adb (ad_out a) (f (ad_sync a)) (ad_outgoing a) (ad_may_author a)) |>.

Definition read_sync_digest (record : SyncRecord) : result CoreError (SyncApplyResult sync_news) :=
  peer_digest ← core_decode_sync_digest (rc_payload record);
  _ ← ensure (bool_decide (dg_person_id peer_digest = rc_person_id record))
        (Malformed "a sync digest names a different person than the record carrying it");
  Ok (mk_applied Read (as_u32 (blen (dg_streams peer_digest))) 0 None (Some peer_digest)).

Definition core_apply_sync_record (record : SyncRecord) (now_ms : Z) : action CoreError (SyncApplyResult sync_news) :=
  if negb (core_sync_kind_is_stream (rc_kind record)) then checks (read_sync_digest record)
  else
    held ← reads (fun s => bool_decide (is_Some
              (sy_slots (ms_sync s) !! (rc_author_device_id record, core_sync_record_kind_wire (rc_kind record), to_i64 (rc_stream_seq record)))));
    if held : bool then reads (fun s => mk_applied AlreadyHeld 0 (stream_cursor (ms_sync s) (rc_author_device_id record) (rc_kind record)) None None)
    else
      '(applied_entries, news) ← merge_payload record now_ms;
      _ ← writes (with_sync (fun db => (hold_slot db (rc_person_id record) (rc_author_device_id record) (rc_kind record) (rc_stream_seq record)
                                          None now_ms).1));
      reads (fun s => mk_applied Applied applied_entries (stream_cursor (ms_sync s) (rc_author_device_id record) (rc_kind record)) news None).

(** * The loops *)

Lemma settings_loop_app roster now pre post : forall blocked cred s,
  settings_loop roster now (pre ++ post) blocked cred s
  = match settings_loop roster now pre blocked cred s with
    | (s, Ok (blocked, cred)) => settings_loop roster now post blocked cred s
    | (s, Err e) => (s, Err e)
    end.
Proof.
  induction pre as [|e pre IH]; intros blocked cred s; [done|]. cbn [app settings_loop]. destruct (_ && _); [by apply IH|].
  unfold mbind, action_bind. destruct (put_store_setting e s) as [s1 [took|err]]; [apply IH|done].
Qed.

Lemma blocking_passes ids now : forall s, exists s', for_each (fun id => block_user id now) ids s = (s', Ok tt) /\ ms_sync s' = ms_sync s.
Proof.
  induction ids as [|id ids IH]; intros s; [by exists s|]. cbn [for_each]. unfold mbind, action_bind. unfold block_user at 1, writes.
  destruct (IH (match ms_blocked s !! id with Some _ => s | None => s <| ms_blocked ::= <[id := now]> |> end)) as (s' & H & Hs).
  exists s'. split; [exact H|]. rewrite Hs. by destruct (ms_blocked s !! id).
Qed.

End merges.
