(* ===== verification/MeshReceive.v ===== *)
(** The inbound transaction ([core/src/session/mesh_receive.rs]), first half: what one
    envelope frame is - seen, expired, refused, a sibling's sync record, a message for this
    device or a group of its, or traffic for somebody else - and the work that follows.

    The flood-dedupe set is passed along beside the store.  A frame is handled by one call
    of [process_inbound_frame]; the bookkeeping of a payload handed back to be delivered
    waits for [core_commit_inbound_delivery]. *)
From stdpp Require Import base numbers list gmap strings sorting.
From coqutil Require Import Datatypes.RecordSetters.
From S2P Require Import Prelude StdModel SqlModel Wire Crypto RosterCodec Roster RosterStore Message Framing Frames Gossip Hints Engine.
From S2P Require Import OutboundQueue RelayPolicy RelayWire CarryQueue SyncStream SyncStore Sealing Groups SyncRecords FriendCards Authoring.
From S2P Require Import InboundStore SyncMerge.
Import TriangleBracketNotations.

Definition FOREIGN_CARRY_BUDGET_BYTES : Z := 5 * 1024 * 1024.

Inductive CoreInboundSource : Type := FromMesh | FromRelay.

#[global] Instance CoreInboundSource_eq_dec : EqDecision CoreInboundSource.
Proof. solve_decision. Defined.

Record CoreInboundWork : Type := mk_work {
  wk_delivered : Z;
  wk_carried : Z;
  wk_reflooded : Z;
  wk_dropped : Z;
  wk_deduped : Z;
  wk_expired : Z;
  wk_rejected : Z;
}.

Definition no_work : CoreInboundWork := mk_work 0 0 0 0 0 0 0.

Record CoreInboundCommit : Type := mk_commit {
  cm_msg_id : bytes;
  cm_group_id : option bytes;
  cm_hidden_kind : option Z;
  cm_recipient_hint : bytes;
  cm_expiry : Z;
  cm_own_user_id : bytes;
  cm_now_ms : Z;
}.

Record CoreInboundOutcome : Type := mk_outcome {
  io_disposition : CoreInboundDisposition;
  io_delivered_payloads : list bytes;
  io_delivered_sender : option bytes;
  io_delivered_group_id : option bytes;
  io_relay_frame : option bytes;
  io_carried : bool;
  io_carried_family : bool;
  io_dropped_blocked : bool;
  io_sync_peer_digest : option SyncDigest;
  io_commit : option CoreInboundCommit;
  io_work : CoreInboundWork;
}.

(** [CoreInboundOutcome::terminal] *)
Definition terminal (disposition : CoreInboundDisposition) (work : CoreInboundWork) : CoreInboundOutcome :=
  mk_outcome disposition [] None None None false false false None None work.

Inductive SyncConsumption : Type :=
| NotASyncRecord
| Refused
| SyncApplied (kind : Z) (peer_digest : option SyncDigest).

Record CarryOutcome : Type := mk_carry_outcome { cy_stored : bool; cy_family : bool }.

Definition reflood_frame (msg_id : bytes) (hop_ttl expiry : Z) (recipient_hint sealed : bytes) : option bytes :=
  if 1 <? hop_ttl then Some (encode_envelope_frame msg_id (hop_ttl - 1) expiry recipient_hint sealed) else None.

(** [u32::from(flag)], the counts that are 0 or 1. *)
Definition one_if (b : bool) : Z := if b then 1 else 0.

Section receive.
Context `{C : Crypto} `{S : SealCrypto} `{B : Base64} `{J : CardJson}.
Context (clock : Z).

(** A call on the carry queue. *)
Definition on_queue {A} (f : list carry_row -> list carry_row * result CoreError A) : action CoreError A := fun s =>
  let '(q, r) := f (ms_carried s) in (s <| ms_carried := q |>, r).

Definition carry (source : CoreInboundSource) (msg_id : bytes) (hop_ttl expiry : Z) (recipient_hint sealed : bytes) (now_ms : Z)
  : action CoreError CarryOutcome :=
  let carried := mk_carried msg_id (Z.max (hop_ttl - 1) 0) expiry recipient_hint sealed in
  match source with
  | FromRelay =>
      stored ← on_queue (fun q => enqueue_relay_carried_envelope q carried now_ms);
      mret (mk_carry_outcome stored false)
  | FromMesh =>
      is_family ← reads (fun s => hint_matches_known_target (ms_routing s) recipient_hint now_ms);
      stored ← on_queue (fun q => enqueue_carried_envelope q carried is_family now_ms FOREIGN_CARRY_BUDGET_BYTES);
      mret (mk_carry_outcome stored (stored && is_family))
  end.

Definition consume_sync_record (outer_signer payload : bytes) (now_ms : Z) : action CoreError SyncConsumption :=
  context ← reads ms_own_context;
  match context with
  | None => mret NotASyncRecord
  | Some context =>
      match core_decode_sync_record payload with
      | Err _ => mret NotASyncRecord
      | Ok record =>
          if negb (outer_signer_is_own outer_signer (oc_roster context)) then mret Refused
          else match core_sync_record_admit record (oc_inbox_key_generation context) (oc_roster context) with
               | Some _ => mret Refused
               | None =>
                   applied ← core_apply_sync_record clock record now_ms;
                   mret (SyncApplied (core_sync_record_kind_wire (rc_kind record)) (ar_peer_digest _ applied))
               end
      end
  end.

Definition record_hidden (msg_id : bytes) (kind : Z) (recipient_hint : bytes) (expiry : Z) (own_user_id : bytes) (now_ms : Z)
  : action CoreError unit :=
  writes (with_engine (fun e => (core_record_consumed_hidden_msg_id e msg_id kind recipient_hint expiry own_user_id now_ms).1)).

(** The tail of the group path and of the foreign path. *)
Definition flood_and_carry (source : CoreInboundSource) (msg_id : bytes) (hop_ttl expiry : Z) (recipient_hint sealed : bytes) (now_ms : Z)
  : action CoreError (option bytes * CarryOutcome) :=
  carried ← carry source msg_id hop_ttl expiry recipient_hint sealed now_ms;
  mret (reflood_frame msg_id hop_ttl expiry recipient_hint sealed, carried).

(** The first candidate whose key opens the envelope. *)
Fixpoint first_opening (candidates : list Group) (sealed : bytes) : option (Group * OpenedMessage) :=
  match candidates with
  | [] => None
  | group :: candidates =>
      match open_group_message group sealed with
      | Ok opened => Some (group, opened)
      | Err _ => first_opening candidates sealed
      end
  end.

(** An envelope that opened with this device's own key.  The flag beside an outcome says
    whether the message id is recorded as seen. *)
Definition receive_pairwise (identity : Identity) (msg_id : bytes) (expiry : Z) (recipient_hint : bytes) (opened : OpenedMessage) (now_ms : Z)
  : action CoreError (bool * CoreInboundOutcome) :=
  blocked ← reads (fun s => is_user_blocked s (om_sender_user_id opened));
  if blocked : bool then
    mret ((true, mk_outcome Consumed [] None None None false false true None None (mk_work 0 0 0 1 0 0 0)))
  else
    consumption ← consume_sync_record (om_sender_user_id opened) (om_payload opened) now_ms;
    match consumption with
    | Refused => mret ((true, mk_outcome Consumed [] None None None false false false None None (mk_work 0 0 0 1 0 0 0)))
    | SyncApplied kind peer_digest =>
        _ ← record_hidden msg_id kind recipient_hint expiry (id_user_id identity) now_ms;
        mret ((true, mk_outcome Consumed [] None None None false false false peer_digest None (mk_work 1 0 0 0 0 0 0)))
    | NotASyncRecord =>
        let hidden_kind := match decode_extended_message_body (om_payload opened) with Ok b => Some (kind (body b)) | Err _ => None end in
        mret ((false, mk_outcome Consumed [om_payload opened] (Some (om_sender_user_id opened)) None None false false false None
          (Some (mk_commit msg_id None hidden_kind recipient_hint expiry (id_user_id identity) now_ms)) (mk_work 1 0 0 0 0 0 0)))
    end.

(** An envelope that opened with a group's key. *)
Definition receive_group (identity : Identity) (source : CoreInboundSource) (msg_id : bytes) (hop_ttl expiry : Z) (recipient_hint sealed : bytes)
  (group : Group) (opened : OpenedMessage) (now_ms : Z) : action CoreError (bool * CoreInboundOutcome) :=
  let signer_is_member := bool_decide (om_sender_user_id opened ∈ member_user_ids group) in
  let we_are_member := bool_decide (id_user_id identity ∈ member_user_ids group) in
  let own_fanout := bool_decide (source = FromRelay) && core_is_own_fanout_hint recipient_hint (id_user_id identity) now_ms in
  '(relay_frame, carried) ← (if own_fanout then mret (None, mk_carry_outcome false false)
                             else flood_and_carry source msg_id hop_ttl expiry recipient_hint sealed now_ms);
  let c := one_if (cy_stored carried) in
  let f := one_if (bool_decide (is_Some relay_frame)) in
  if signer_is_member && we_are_member then
    mret ((false, mk_outcome Consumed [om_payload opened] (Some (om_sender_user_id opened)) (Some (group_id group)) relay_frame
      (cy_stored carried) (cy_family carried) false None
      (Some (mk_commit msg_id (Some (group_id group)) None recipient_hint expiry (id_user_id identity) now_ms)) (mk_work 1 c f 0 0 0 0)))
  else
    mret ((true, mk_outcome Consumed [] None None relay_frame (cy_stored carried) (cy_family carried) false None None
      (mk_work 0 c f 1 0 0 0))).

(** An envelope for somebody else. *)
Definition receive_foreign (source : CoreInboundSource) (msg_id : bytes) (hop_ttl expiry : Z) (recipient_hint sealed : bytes) (now_ms : Z)
  : action CoreError (bool * CoreInboundOutcome) :=
  '(relay_frame, carried) ← flood_and_carry source msg_id hop_ttl expiry recipient_hint sealed now_ms;
  mret ((true, mk_outcome Carried [] None None relay_frame (cy_stored carried) (cy_family carried) false None None
    (mk_work 0 (one_if (cy_stored carried)) (one_if (bool_decide (is_Some relay_frame))) 0 0 0 0))).

Definition dispatch (identity : Identity) (source : CoreInboundSource) (msg_id : bytes) (hop_ttl expiry : Z) (recipient_hint sealed : bytes)
  (now_ms : Z) : action CoreError (bool * CoreInboundOutcome) :=
  match open_message identity sealed with
  | Ok opened => receive_pairwise identity msg_id expiry recipient_hint opened now_ms
  | Err _ =>
      candidates ← reads (fun s => group_open_candidates (ms_routing s) recipient_hint (id_user_id identity) now_ms);
      match first_opening candidates sealed with
      | Some (group, opened) => receive_group identity source msg_id hop_ttl expiry recipient_hint sealed group opened now_ms
      | None => receive_foreign source msg_id hop_ttl expiry recipient_hint sealed now_ms
      end
  end.

(** The whole call: the dedupe set and the store, before and after. *)
Definition process_inbound_frame (identity : Identity) (source : CoreInboundSource) (frame : bytes) (now_ms : Z) (seen : Inner) (s : mesh_store)
  : Inner * mesh_store * result CoreError CoreInboundOutcome :=
  match parse_frame frame with
  | Ok (Envelope msg_id hop_ttl expiry recipient_hint sealed) =>
      match core_inbound_gate (negb (contains seen msg_id)) hop_ttl expiry now_ms with
      | GateSeen => (seen, s, Ok (terminal Seen (mk_work 0 0 0 0 1 0 0)))
      | GateExpired => (record seen msg_id, s, Ok (terminal Expired (mk_work 0 0 0 0 0 1 0)))
      | GateRejected => (record seen msg_id, s, Ok (terminal Rejected (mk_work 0 0 0 0 0 0 1)))
      | GateDispatch =>
          match dispatch identity source msg_id hop_ttl expiry recipient_hint sealed now_ms s with
          | (s, Ok (recorded, outcome)) => (if recorded : bool then record seen msg_id else seen, s, Ok outcome)
          | (s, Err e) => (seen, s, Err e)
          end
      end
  | _ => (seen, s, Ok (terminal Rejected (mk_work 0 0 0 0 0 0 1)))
  end.

Definition core_commit_inbound_delivery (commit : CoreInboundCommit) (seen : Inner) (s : mesh_store) : Inner * mesh_store :=
  let s := match cm_hidden_kind commit with
           | Some kind => (record_hidden (cm_msg_id commit) kind (cm_recipient_hint commit) (cm_expiry commit) (cm_own_user_id commit)
                             (cm_now_ms commit) s).1
           | None => s
           end in
  (record seen (cm_msg_id commit), s).

End receive.

(** * Facts *)

Lemma candidates_known `{C : Crypto} st hint own now g : g ∈ group_open_candidates st hint own now -> g ∈ rt_groups st.
Proof.
  assert (forall g, g ∈ groups_matching_hint st hint now -> g ∈ rt_groups st) as Hm.
  { intros g' H. unfold groups_matching_hint in H. apply list_elem_of_In, filter_In in H as [H _]. by apply list_elem_of_In. }
  unfold group_open_candidates. destruct (core_is_own_fanout_hint hint own now); [|apply Hm].
  assert (forall all cs, (forall g, g ∈ cs -> g ∈ rt_groups st) -> (forall g, g ∈ all -> g ∈ rt_groups st) ->
    forall g, g ∈ foldl (fun cs g => if existsb (fun c => bool_decide (group_id c = group_id g)) cs then cs else cs ++ [g]) cs all ->
      g ∈ rt_groups st) as Hf.
  { induction all as [|x all IH]; intros cs Hc Ha g' Hg; cbn [foldl] in Hg; [auto|]. eapply IH; [| |exact Hg].
    - intros y Hy. case_match; [auto|]. apply elem_of_app in Hy as [Hy|Hy%list_elem_of_singleton]; [auto|]. subst. apply Ha. left.
    - intros y Hy. apply Ha. by right. }
  intros Hg. eapply Hf; [exact Hm|intros y Hy; exact Hy|exact Hg].
Qed.

Lemma first_opening_some `{C : Crypto} `{S : SealCrypto} cs sealed g o :
  first_opening cs sealed = Some (g, o) -> g ∈ cs /\ open_group_message g sealed = Ok o.
Proof.
  induction cs as [|x cs IH]; cbn; [done|]. destruct (open_group_message x sealed) eqn:E.
  - intros [= -> ->]. split; [left|done].
  - intros H. destruct (IH H). split; [by right|done].
Qed.

Lemma carry_store `{C : Crypto} source m h e r sealed now s s' x :
  carry source m h e r sealed now s = (s', Ok x) -> exists q, s' = s <| ms_carried := q |>.
Proof.
  unfold carry, on_queue. destruct source; intros H; act_inv;
    match goal with H : (let '(_, _) := ?e in _) = _ |- _ => destruct e as [q r0]; injection H as <- -> end; by exists q.
Qed.

Section sound.
Context `{C : Crypto} `{S : SealCrypto} `{B : Base64} `{J : CardJson}.
Context (clock : Z).

(** The lane a payload was delivered in. *)
Definition own_lane (identity : Identity) (s s' : mesh_store) (sealed sender payload : bytes) (o : CoreInboundOutcome) : Prop :=
  io_delivered_group_id o = None /\ open_message identity sealed = Ok (mk_opened sender payload) /\ is_user_blocked s sender = false
  /\ s' = s /\ io_relay_frame o = None.

Definition group_lane (identity : Identity) (s s' : mesh_store) (sealed sender payload : bytes) (o : CoreInboundOutcome) : Prop :=
  exists g, io_delivered_group_id o = Some (group_id g) /\ g ∈ rt_groups (ms_routing s)
    /\ open_group_message g sealed = Ok (mk_opened sender payload)
    /\ sender ∈ member_user_ids g /\ id_user_id identity ∈ member_user_ids g /\ exists q, s' = s <| ms_carried := q |>.

(** What comes back is a delivery, with its commit token and unrecorded, or handled. *)
Definition lane_outcome (identity : Identity) (msg_id hint sealed : bytes) (expiry now : Z) (s s' : mesh_store) (recorded : bool)
  (o : CoreInboundOutcome) : Prop :=
  (recorded = false /\ io_disposition o = Consumed /\ exists sender payload kind,
     io_delivered_payloads o = [payload] /\ io_delivered_sender o = Some sender
     /\ io_commit o = Some (mk_commit msg_id (io_delivered_group_id o) kind hint expiry (id_user_id identity) now)
     /\ (own_lane identity s s' sealed sender payload o \/ group_lane identity s s' sealed sender payload o))
  \/ (recorded = true /\ io_delivered_payloads o = [] /\ io_commit o = None
      /\ (io_disposition o = Consumed \/ (io_disposition o = Carried /\ (forall opened, open_message identity sealed <> Ok opened)))).

Lemma consume_sync_not signer payload now s s' : consume_sync_record clock signer payload now s = (s', Ok NotASyncRecord) -> s' = s.
Proof.
  unfold consume_sync_record. intros H. act_inv. destruct (ms_own_context s); [|by act_inv].
  destruct (core_decode_sync_record payload); [|by act_inv].
  destruct (negb _); [by act_inv|]. destruct (core_sync_record_admit _ _ _); act_inv.
Qed.

Lemma pairwise_outcome identity m e h sealed opened now s s' recorded o :
  open_message identity sealed = Ok opened -> receive_pairwise clock identity m e h opened now s = (s', Ok (recorded, o)) ->
  lane_outcome identity m h sealed e now s s' recorded o.
Proof.
  unfold receive_pairwise. intros Ho H. act_inv. destruct (is_user_blocked s (om_sender_user_id opened)) eqn:Hb.
  { act_inv. right. cbn. auto. }
  act_inv. destruct a as [| |k d]; act_inv.
  - apply consume_sync_not in Ha as ->. left. split_and!; [done|done|].
    exists (om_sender_user_id opened), (om_payload opened). eexists. split_and!; [done|done|done|].
    left. unfold own_lane. destruct opened. done.
  - right. cbn. auto.
  - right. cbn. auto.
Qed.

Lemma flood_store source m h e r sealed now s s' x :
  flood_and_carry source m h e r sealed now s = (s', Ok x) -> exists q, s' = s <| ms_carried := q |>.
Proof. unfold flood_and_carry. intros H. act_inv. by eapply carry_store. Qed.

Lemma group_outcome identity source m hop e h sealed g opened now s s' recorded o :
  g ∈ rt_groups (ms_routing s) -> open_group_message g sealed = Ok opened ->
  receive_group identity source m hop e h sealed g opened now s = (s', Ok (recorded, o)) ->
  lane_outcome identity m h sealed e now s s' recorded o.
Proof.
  unfold receive_group. intros Hg Ho H. apply action_bind_ok in H as (s1 & [frame carried] & Hc & H). cbv beta iota in H.
  assert (exists q, s1 = s <| ms_carried := q |>) as Hq.
  { destruct (bool_decide _ && _); [act_inv; exists (ms_carried s); by destruct s|by eapply flood_store]. }
  destruct (_ && _) eqn:Hm in H; act_inv; [|right; cbn; auto].
  apply andb_true_iff in Hm as [Hm1 Hm2]. left. split_and!; [done|done|].
  exists (om_sender_user_id opened), (om_payload opened). eexists. split_and!; [done|done|done|].
  right. exists g. split_and!; [done|done|by destruct opened|by apply bool_decide_eq_true in Hm1|by apply bool_decide_eq_true in Hm2|done].
Qed.

Lemma dispatch_outcome identity source m hop e h sealed now s s' recorded o :
  dispatch clock identity source m hop e h sealed now s = (s', Ok (recorded, o)) -> lane_outcome identity m h sealed e now s s' recorded o.
Proof.
  unfold dispatch. destruct (open_message identity sealed) as [opened|err] eqn:Ho; [by apply pairwise_outcome|].
  intros H. act_inv. destruct (first_opening _ sealed) as [[g opened]|] eqn:Hf.
  - apply first_opening_some in Hf as [Hg Hop]. apply candidates_known in Hg. by eapply group_outcome.
  - unfold receive_foreign in H. apply action_bind_ok in H as (s1 & [frame carried] & Hc & H). cbv beta iota in H. act_inv.
    right. cbn. split_and!; [done|done|done|]. right. split; [done|congruence].
Qed.

(** The call on an envelope that is new, live and within limits. *)
Lemma process_ok identity source frame now seen s seen' s' o :
  process_inbound_frame clock identity source frame now seen s = (seen', s', Ok o) ->
  (io_delivered_payloads o = [] /\ io_commit o = None /\ io_disposition o <> Consumed /\ io_disposition o <> Carried /\ s' = s
   /\ forall m hop e h sealed, parse_frame frame = Ok (Envelope m hop e h sealed) ->
        seen' = record seen m \/ (contains seen m = true /\ seen' = seen))
  \/ exists m hop e h sealed recorded, parse_frame frame = Ok (Envelope m hop e h sealed)
       /\ contains seen m = false /\ now < e <= i64_saturating_add now MAX_CARRY_FUTURE_MS /\ hop <= DEFAULT_HOP_TTL
       /\ dispatch clock identity source m hop e h sealed now s = (s', Ok (recorded, o))
       /\ seen' = if recorded : bool then record seen m else seen.
Proof.
  unfold process_inbound_frame. intros H.
  destruct (parse_frame frame) as [f|e0] eqn:Hp; [destruct f as [| | |m hop e h sealed| | |]|];
    try (injection H as <- <- <-; left; cbn; split_and!; done).
  destruct (core_inbound_gate _ _ _ _) eqn:Hg.
  - right. unfold core_inbound_gate in Hg. destruct (contains seen m) eqn:Hc; [done|]. cbn [negb] in Hg.
    destruct (e <=? now) eqn:He; [done|]. destruct (_ || _) eqn:Hl in Hg; [done|]. bools.
    destruct (dispatch _ _ _ _ _ _ _ _ _ _) as [s1 [[recorded o1]|err]] eqn:Hd; [|done]. injection H as <- <- <-.
    exists m, hop, e, h, sealed, recorded. split_and!; try done; lia.
  - injection H as <- <- <-. left. cbn. split_and!; try done. intros m' hop' e' h' sealed' [= -> -> -> -> ->]. right.
    unfold core_inbound_gate in Hg. destruct (contains seen m'); [done|]. cbn [negb] in Hg. by repeat case_match.
  - injection H as <- <- <-. left. cbn. split_and!; try done. intros m' hop' e' h' sealed' [= -> -> -> -> ->]. by left.
  - injection H as <- <- <-. left. cbn. split_and!; try done. intros m' hop' e' h' sealed' [= -> -> -> -> ->]. by left.
Qed.


Lemma contains_record st id : inner_wf st -> contains (record st id) id = true.
Proof. intros Hw. by destruct (seen_ids_check_then_record st id Hw) as (_ & _ & H & _). Qed.

Lemma seen_frame_dropped identity source frame now seen s m hop e h sealed :
  parse_frame frame = Ok (Envelope m hop e h sealed) -> contains seen m = true ->
  process_inbound_frame clock identity source frame now seen s = (seen, s, Ok (terminal Seen (mk_work 0 0 0 0 1 0 0))).
Proof. intros Hp Hc. unfold process_inbound_frame. by rewrite Hp, Hc. Qed.

(** Deliver, then commit.  While a payload handed over is not committed its envelope is not recorded (and, of
    a one-to-one message, nothing at all has changed), so a copy that arrives later is handled afresh;
    once it is committed every later copy, over whatever transport, is dropped as seen and changes
    nothing.  An envelope that was handled in any other way is recorded at once; a call that fails
    records nothing. *)
Theorem delivery_commit_order identity source frame now seen s m hop e h sealed :
  inner_wf seen -> parse_frame frame = Ok (Envelope m hop e h sealed) ->
  match process_inbound_frame clock identity source frame now seen s with
  | (seen', s', Ok o) =>
      match io_commit o with
      | Some c =>
          seen' = seen /\ cm_msg_id c = m /\ contains seen m = false /\ (cm_group_id c = None -> s' = s)
          /\ forall s1 source2 now2 s2,
               let '(seen2, _) := core_commit_inbound_delivery c seen' s1 in
               process_inbound_frame clock identity source2 frame now2 seen2 s2
               = (seen2, s2, Ok (terminal Seen (mk_work 0 0 0 0 1 0 0)))
      | None => contains seen' m = true
      end
  | (seen', s', Err _) => seen' = seen
  end.
Proof.
  intros Hw Hp. destruct (process_inbound_frame clock identity source frame now seen s) as [[seen' s'] [o|err]] eqn:H.
  - apply process_ok in H as [(_ & -> & _ & _ & _ & Hseen)|(m' & hop' & e' & h' & sl' & recorded & Hp' & Hnew & _ & _ & Hd & Hseen)].
    + destruct (Hseen _ _ _ _ _ Hp) as [->|[? ->]]; [by apply contains_record|done].
    + rewrite Hp in Hp'. injection Hp' as <- <- <- <- <-.
      apply dispatch_outcome in Hd as [(-> & _ & sender & p & k & _ & _ & -> & Hlane)|(-> & _ & -> & _)].
      * cbn [cm_msg_id cm_group_id]. split_and!; [done|done|done| |].
        { intros Hg. destruct Hlane as [(_ & _ & _ & -> & _)|(g & Hg' & _)]; [done|congruence]. }
        intros s1 source2 now2 s2. unfold core_commit_inbound_delivery. cbn [cm_msg_id]. subst seen'.
        eapply seen_frame_dropped; [exact Hp|]. by apply contains_record.
      * subst seen'. by apply contains_record.
  - unfold process_inbound_frame in H. rewrite Hp in H. destruct (core_inbound_gate _ _ _ _); try discriminate.
    destruct (dispatch _ _ _ _ _ _ _ _ _ _) as [s1 [[recorded o1]|err']]; [done|]. by injection H as <- _ _.
Qed.

(** * Flooding *)

Lemma flood_frame source m h e r sealed now s s' f c :
  flood_and_carry source m h e r sealed now s = (s', Ok (f, c)) -> f = reflood_frame m h e r sealed.
Proof. unfold flood_and_carry. intros H. by act_inv. Qed.

Lemma dispatch_reflood identity source m hop e h sealed now s s' recorded o f :
  dispatch clock identity source m hop e h sealed now s = (s', Ok (recorded, o)) -> io_relay_frame o = Some f ->
  reflood_frame m hop e h sealed = Some f.
Proof.
  unfold dispatch. destruct (open_message identity sealed) as [opened|err].
  - unfold receive_pairwise. intros H Hf. act_inv. destruct (is_user_blocked _ _); [by act_inv|]. act_inv. destruct a; by act_inv.
  - intros H Hf. act_inv. destruct (first_opening _ sealed) as [[g opened]|].
    + unfold receive_group in H. apply action_bind_ok in H as (s1 & [frame carried] & Hc & H). cbv beta iota in H.
      assert (io_relay_frame o = frame) as Ho by (destruct (_ && _) in H; by act_inv).
      destruct (bool_decide _ && _); [act_inv; congruence|]. apply flood_frame in Hc. congruence.
    + unfold receive_foreign in H. apply action_bind_ok in H as (s1 & [frame carried] & Hc & H). cbv beta iota in H.
      apply flood_frame in Hc. act_inv. cbn in Hf. congruence.
Qed.
End sound.

Lemma parse_frame_len bs f : parse_frame bs = Ok f -> blen bs <= MAX_P2P_FRAME_BYTES.
Proof. unfold parse_frame. intros H. apply result_bind_ok in H as (u & Hl & _). apply ensure_ok in Hl. bools. lia. Qed.

(** A frame with one hop less is as long, and parses. *)
Lemma reflood_parses frame m hop e h sealed f :
  parse_frame frame = Ok (Envelope m hop e h sealed) -> reflood_frame m hop e h sealed = Some f ->
  1 < hop /\ parse_frame f = Ok (Envelope m (hop - 1) e h sealed).
Proof.
  intros Hp. unfold reflood_frame. case_match eqn:E; [|done]. bools. intros [= <-]. split; [done|].
  pose proof (parse_frame_len _ _ Hp) as Hlen. apply parse_frame_inv in Hp as [Hwf (enc & extra & He & -> & ->)].
  rewrite app_nil_r in Hlen. cbn [encode_frame] in He. injection He as <-. cbn [frame_wf] in Hwf. destruct Hwf as (Hm & Hh & Hwf).
  eapply frame_roundtrip; [|reflexivity|].
  - cbn [frame_wf]. split_and!; try done; try apply Hwf; ints.
  - unfold encode_envelope_frame, blen in *. rewrite !length_app, !length_push_u8 in *. exact Hlen.
Qed.

Section flood.
Context `{C : Crypto} `{S : SealCrypto} `{B : Base64} `{J : CardJson}.

(** A device a frame reaches, at the moment it does. *)
Record station : Type := mk_station {
  sn_identity : Identity;
  sn_source : CoreInboundSource;
  sn_now : Z;
  sn_clock : Z;
  sn_seen : Inner;
  sn_store : mesh_store;
}.

Definition floods_on (st : station) (frame : bytes) : option bytes :=
  match process_inbound_frame (sn_clock st) (sn_identity st) (sn_source st) frame (sn_now st) (sn_seen st) (sn_store st) with
  | (_, _, Ok o) => io_relay_frame o
  | (_, _, Err _) => None
  end.

(** The frames sent along a path of devices, each sending on what it received. *)
Fixpoint flood_chain (path : list station) (frame : bytes) : list bytes :=
  match path with
  | [] => []
  | st :: path => match floods_on st frame with Some f => f :: flood_chain path f | None => [] end
  end.

Lemma floods_on_spec st frame m hop e h sealed f :
  parse_frame frame = Ok (Envelope m hop e h sealed) -> floods_on st frame = Some f ->
  1 < hop <= DEFAULT_HOP_TTL /\ parse_frame f = Ok (Envelope m (hop - 1) e h sealed).
Proof.
  intros Hp. unfold floods_on. destruct (process_inbound_frame _ _ _ _ _ _ _) as [[seen' s'] [o|err]] eqn:H; [|done]. intros Hf.
  unfold process_inbound_frame in H. rewrite Hp in H.
  destruct (core_inbound_gate _ _ _ _) eqn:Hg; [|injection H as _ _ <-; done|injection H as _ _ <-; done|injection H as _ _ <-; done].
  destruct (dispatch _ _ _ _ _ _ _ _ _ _) as [s1 [[recorded o1]|err']] eqn:Hd; [|done]. injection H as _ _ <-.
  eapply dispatch_reflood in Hd; [|exact Hf]. destruct (reflood_parses _ _ _ _ _ _ _ Hp Hd) as [H1 H2]. split; [|done].
  unfold core_inbound_gate in Hg. repeat case_match; try discriminate. bools. lia.
Qed.

(** A flood dies out.  Whatever devices a frame meets, in whatever state and at whatever time, it is sent on
    at most as often as it has hops left beyond the first, so never more than six times; and every frame
    sent on is the same envelope, to the byte, with one hop less each time. *)
Theorem flood_dies_out path frame m hop e h sealed :
  parse_frame frame = Ok (Envelope m hop e h sealed) ->
  blen (flood_chain path frame) <= Z.max (Z.min hop DEFAULT_HOP_TTL - 1) 0
  /\ forall k f, flood_chain path frame !! k = Some f -> parse_frame f = Ok (Envelope m (hop - 1 - Z.of_nat k) e h sealed).
Proof.
  revert frame hop. induction path as [|st path IH]; intros frame hop Hp; cbn [flood_chain].
  { rewrite blen_nil. split; [lia|]. intros k f. by rewrite lookup_nil. }
  destruct (floods_on st frame) as [f|] eqn:Hf; [|rewrite blen_nil; split; [lia|]; intros k f'; by rewrite lookup_nil].
  destruct (floods_on_spec _ _ _ _ _ _ _ _ Hp Hf) as [Hh Hp']. destruct (IH _ _ Hp') as [IHl IHf].
  split; [rewrite blen_cons; lia|]. intros [|k] f'; cbn [lookup list_lookup].
  - intros [= <-]. rewrite Hp'. do 2 f_equal. lia.
  - intros Hk. rewrite (IHf _ _ Hk). do 2 f_equal. lia.
Qed.
End flood.

(** * Witnesses *)

Definition empty_store : mesh_store :=
  mk_mesh (mk_adb (mk_odb (mk_edb (mk_routing [] [] (mk_fleet None []) true true) (RosterStore.mk_db ∅ ∅ [] [] 0) [] [] ∅ []) [] ∅ [] [] ∅)
             sync_empty ∅ true) [] ∅ ∅ ∅ ∅ ∅ ∅ ∅ ∅ None None.

(** The phone whose key is 02.. *)
Definition toy_reader : Identity :=
  mk_identity (replicate 16 x06) (replicate 32 x02) (replicate 32 x02) (replicate 32 x02) (replicate 32 x02).

Definition toy_sealed : bytes :=
  match seal_message_as_version (S := toy_seal) toy_identity (replicate 32 x02) [x07; x08] 2 (replicate 32 x09) (replicate 24 x00) with
  | Ok sealed => sealed
  | Err _ => []
  end.

Definition toy_frame : bytes := encode_envelope_frame (replicate 16 x0a) 7 2000 (replicate 8 x0b) toy_sealed.

Definition toy_processed : Inner * mesh_store * result CoreError CoreInboundOutcome :=
  process_inbound_frame (C := one_body_crypto) (S := toy_seal) (J := toy_json) 0 toy_reader FromMesh toy_frame 1000 (inner_new 3) empty_store.

Definition toy_outcome : CoreInboundOutcome :=
  match toy_processed.2 with Ok o => o | Err _ => terminal Failed no_work end.


Lemma delivery_commit_order_witness :
  toy_processed.1.1 = inner_new 3 /\ toy_processed.1.2 = empty_store
  /\ process_inbound_frame (C := one_body_crypto) (S := toy_seal) (J := toy_json) 0 toy_reader FromRelay toy_frame 1500
       (record (inner_new 3) (replicate 16 x0a)) empty_store
     = (record (inner_new 3) (replicate 16 x0a), empty_store, Ok (terminal Seen (mk_work 0 0 0 0 1 0 0))).
Proof.
  pose proof (delivery_commit_order (C := one_body_crypto) (S := toy_seal) (J := toy_json) 0 toy_reader FromMesh toy_frame 1000 (inner_new 3)
    empty_store (replicate 16 x0a) 7 2000 (replicate 8 x0b) toy_sealed (inner_new_wf 3) ltac:(vm_compute; reflexivity)) as H.
  fold toy_processed in H.
  assert (toy_processed = (toy_processed.1.1, toy_processed.1.2, Ok toy_outcome)) as He by (vm_compute; reflexivity).
  rewrite He in H. assert (io_commit toy_outcome = Some (mk_commit (replicate 16 x0a) None None (replicate 8 x0b) 2000 (replicate 16 x06) 1000))
    as Hc by (vm_compute; reflexivity).
  rewrite Hc in H. destruct H as (H1 & _ & _ & H2 & H3). split; [exact H1|]. split; [exact (H2 eq_refl)|].
  specialize (H3 empty_store FromRelay 1500 empty_store). rewrite H1 in H3. exact H3.
Defined.

(** Two phones that cannot read a frame with three hops left. *)
Definition toy_stranger : Identity := mk_identity (replicate 16 x07) (replicate 32 x05) (replicate 32 x05) (replicate 32 x05) (replicate 32 x05).

Definition toy_station : station := mk_station toy_stranger FromMesh 1000 0 (inner_new 3) empty_store.

Definition plain_frame : bytes := encode_envelope_frame (replicate 16 x0a) 3 2000 (replicate 8 x0b) [x01; x02].

Lemma flood_dies_out_witness :
  blen (flood_chain (C := toy_crypto) (S := toy_seal) (J := toy_json) [toy_station; toy_station; toy_station] plain_frame) = 2
  /\ blen (flood_chain (C := toy_crypto) (S := toy_seal) (J := toy_json) [toy_station; toy_station; toy_station] plain_frame) <= 2.
Proof.
  split; [vm_compute; reflexivity|].
  apply (proj1 (flood_dies_out (C := toy_crypto) (S := toy_seal) (J := toy_json) [toy_station; toy_station; toy_station] plain_frame
    (replicate 16 x0a) 3 2000 (replicate 8 x0b) [x01; x02] ltac:(vm_compute; reflexivity))).
Defined.
