(* ===== verification/SettingsSync.v ===== *)
(** Shared settings across a person's devices ([core/src/sync_store.rs]): the settings table
    over any sequence of settings records merged, settings written here, and other calls.

    A settings record is merged by [SyncMerge.apply_settings], entry by entry; an entry for
    the relay credential is taken only where [relay_credential_entry_is_admissible] says so
    at that moment.  [settings_converge] shows what two devices agree on in the end. *)
From stdpp Require Import base numbers list gmap strings sorting.
From coqutil Require Import Datatypes.RecordSetters.
From S2P Require Import Prelude StdModel SqlModel Wire Crypto RosterCodec Roster RosterStore Message Frames Hints Engine.
From S2P Require Import OutboundQueue RelayPolicy RelayWire CarryQueue SyncStream SyncStore Sealing Groups SyncRecords FriendCards Authoring InboundStore SyncMerge MeshReceive.
Import TriangleBracketNotations.

(** * What a settings record is *)

Definition setting_bytes (e : SyncSettingEntry) : bytes :=
  write_bytes16 (se_key e) ++ be_bytes 8 (se_epoch e) ++ se_author_device_id e ++ write_bytes32 (se_value e).

Definition setting_named (e : SyncSettingEntry) : Prop := blen (se_author_device_id e) = DEVICE_ID_LEN.

Lemma read_setting_inv c e c' r : Wire.cursor_at c r -> read_setting c = Ok (e, c') ->
  exists r', r = setting_bytes e ++ r' /\ setting_named e /\ Wire.cursor_at c' r'.
Proof.
  intros Hc H. unfold read_setting in H. read_inv. unfold setting_bytes, setting_named. cbn. exists r. split_and!; [by rewrite <- !app_assoc|done|done].
Qed.

(** Every entry of a payload that decodes names the device that wrote it. *)
Lemma decoded_settings_named bs es : core_decode_sync_settings bs = Ok es -> Forall setting_named es.
Proof.
  intros (c' & H)%run_inv. pose proof (cursor_at_new bs) as Hc. unfold take_payload_header in H. read_inv.
  match goal with Hx : Cursor.take_many _ _ ?c = Ok _, Hy : Wire.cursor_at ?c _ |- _ =>
    apply (many_inv _ setting_bytes _ _ _ _ _ _ read_setting_inv Hy) in Hx as (? & _ & _ & Hes & _) end.
  exact Hes.
Qed.

(** * Histories *)

Section settings.
Context `{C : Crypto} `{B : Base64} `{J : CardJson}.

(** What happens to a device's settings: a sibling's settings record is merged, the device
    writes one itself, or a call runs that leaves the table alone - and may change the
    roster that admits credentials. *)
Inductive settings_event : Type :=
| Merged (record : SyncRecord) (now_ms : Z)
| Written (entry : SyncSettingEntry)
| Meanwhile (f : mesh_store -> mesh_store).

Definition settings_step (s : mesh_store) (ev : settings_event) : mesh_store :=
  match ev with
  | Merged record now => (apply_settings record now s).1
  | Written entry => (put_store_setting entry s).1
  | Meanwhile f => f s
  end.

Definition settings_run (s : mesh_store) (evs : list settings_event) : mesh_store := foldl settings_step s evs.

Notation settings s := (sy_settings (ms_sync s)).

Definition leaves_settings (ev : settings_event) : Prop :=
  match ev with Meanwhile f => forall s, settings (f s) = settings s | _ => True end.

(** The entry passes the gate of the credential. *)
Definition admitted (own_roster : option Roster) (now_ms : Z) (entry : SyncSettingEntry) : bool :=
  negb (bool_decide (se_key entry = SYNC_RELAY_CREDENTIAL_SETTING_KEY)) || relay_credential_entry_is_admissible entry own_roster now_ms.

(** The entries a device was shown, and those it let in. *)
Definition shown (ev : settings_event) : list SyncSettingEntry :=
  match ev with
  | Merged record _ => match core_decode_sync_settings (rc_payload record) with Ok entries => entries | Err _ => [] end
  | Written entry => [entry]
  | Meanwhile _ => []
  end.

Definition let_in (s : mesh_store) (ev : settings_event) : list SyncSettingEntry :=
  match ev with Merged _ now => List.filter (admitted (ms_own_roster s) now) (shown ev) | _ => shown ev end.

Fixpoint taken (s : mesh_store) (evs : list settings_event) : list SyncSettingEntry :=
  match evs with [] => [] | ev :: evs => let_in s ev ++ taken (settings_step s ev) evs end.

(** The table is keyed by its entries, and each names its device. *)
Definition settings_keyed (m : gmap bytes SyncSettingEntry) : Prop := forall k e, m !! k = Some e -> se_key e = k /\ setting_named e.

(** ** One step *)

Lemma put_store_eq entry s : ms_sync (put_store_setting entry s).1 = (put_setting (ms_sync s) entry).1
  /\ (setting_named entry -> exists took, (put_store_setting entry s).2 = Ok took).
Proof.
  unfold put_store_setting, on_author, ms_sync. split.
  - by destruct (put_setting _ _).
  - intros H. unfold put_setting. rewrite H, Z.eqb_refl. cbn [negb].
    destruct (match setting _ _ with Some _ => _ | None => _ end); cbn; eauto.
Qed.

(** The loop puts the admitted entries one after the other. *)
Lemma settings_loop_puts roster now entries : Forall setting_named entries -> forall blocked cred s, exists blocked' cred',
  (settings_loop roster now entries blocked cred s).2 = Ok (blocked', cred')
  /\ ms_sync (settings_loop roster now entries blocked cred s).1 = put_settings (ms_sync s) (List.filter (admitted roster now) entries).
Proof.
  induction 1 as [|e entries He _ IH]; intros blocked cred s; [by exists blocked, cred|]. cbn [settings_loop List.filter].
  unfold admitted at 1. destruct (bool_decide (se_key e = SYNC_RELAY_CREDENTIAL_SETTING_KEY)) eqn:Hk; cbn [andb negb orb].
  - destruct (relay_credential_entry_is_admissible e roster now); cbn [negb]; [|apply IH].
    destruct (put_store_eq e s) as [Hs [took Ho]]; [done|]. unfold mbind, action_bind. destruct (put_store_setting e s) as [s1 r]. cbn in Hs, Ho. subst r.
    cbn [put_settings fold_left]. rewrite <- Hs. apply IH.
  - destruct (put_store_eq e s) as [Hs [took Ho]]; [done|]. unfold mbind, action_bind. destruct (put_store_setting e s) as [s1 r]. cbn in Hs, Ho. subst r.
    cbn [put_settings fold_left]. rewrite <- Hs. apply IH.
Qed.

Lemma settings_step_puts s ev : leaves_settings ev -> settings (settings_step s ev) = sy_settings (put_settings (ms_sync s) (let_in s ev)).
Proof.
  intros Hev. destruct ev as [record now|entry|f]; cbn [settings_step let_in shown]; [|by rewrite (proj1 (put_store_eq entry s))|by apply Hev].
  unfold apply_settings, checks, reads, mbind, action_bind. destruct (core_decode_sync_settings (rc_payload record)) as [entries|] eqn:Hd; [|done].
  destruct (settings_loop_puts (ms_own_roster s) now entries (decoded_settings_named _ _ Hd) [] None s) as (bl & cred & Ho & Hs).
  destruct (settings_loop _ _ _ _ _ _) as [s1 r]. cbn in Ho, Hs. subst r. destruct (blocking_passes bl now s1) as (s2 & H2 & E2). rewrite H2. cbn.
  by rewrite E2, Hs.
Qed.

(** ** A whole history *)

Lemma settings_run_greatest evs key : Forall leaves_settings evs -> forall base s,
  greatest (seen_of key base) (settings s !! key) -> greatest (seen_of key (base ++ taken s evs)) (settings (settings_run s evs) !! key).
Proof.
  induction 1 as [|ev evs Hev _ IH]; intros base s Hs; cbn [taken settings_run foldl]; [by rewrite app_nil_r|].
  rewrite app_assoc. apply IH. rewrite settings_step_puts by done. by apply put_settings_greatest.
Qed.

(** The entries of a keyed table. *)
Lemma keyed_greatest m key : settings_keyed m -> greatest (seen_of key (snd <$> map_to_list m)) (m !! key).
Proof.
  intros Hm. assert (forall e, seen_of key (snd <$> map_to_list m) e <-> m !! key = Some e) as Hs.
  { intros e. unfold seen_of. rewrite list_elem_of_fmap. split.
    - intros (([k e'] & E & Hin) & Hk & _). cbn in E. subst e'. apply elem_of_map_to_list in Hin. by destruct (Hm _ _ Hin) as [<- _]; subst key.
    - intros Hl. destruct (Hm _ _ Hl) as [Hk Hn]. split_and!; [|done|done]. exists (key, e). split; [done|]. by apply elem_of_map_to_list. }
  unfold greatest. destruct (m !! key) as [x|] eqn:E; setoid_rewrite Hs; [|done]. split; [done|]. intros e [= <-]. apply supersedes_irrefl.
Qed.

Lemma let_in_shown s ev e : se_key e <> SYNC_RELAY_CREDENTIAL_SETTING_KEY -> e ∈ let_in s ev <-> e ∈ shown ev.
Proof.
  intros Hk. destruct ev as [record now|entry|f]; cbn [let_in]; try done. rewrite list_elem_of_In, filter_In, <- list_elem_of_In.
  unfold admitted. rewrite bool_decide_eq_false_2 by done. cbn. tauto.
Qed.

Lemma taken_shown evs e : se_key e <> SYNC_RELAY_CREDENTIAL_SETTING_KEY -> forall s, e ∈ taken s evs <-> e ∈ (evs ≫= shown).
Proof.
  intros Hk. induction evs as [|ev evs IH]; intros s; [done|]. cbn [taken mbind list_bind]. by rewrite !elem_of_app, IH, let_in_shown.
Qed.

(** C36: a person's devices agree on the shared settings.  Take two devices whose tables agree, and let each merge
    settings records, write settings of its own and run other calls, in any order and any number of times.  On every
    key but the relay credential's they hold the same value in the end if they were shown the same entries of that key,
    in whatever records, order and multiplicity.  On the relay credential's they do if the same entries passed the gate
    on both - an entry whose author is buried in the own roster, or whose epoch lies too far ahead of the clock, is left out, so two
    devices that were shown the same credentials may differ until the roster and the clock agree.  And what a device holds
    is an entry it held or took, and no entry it took beats it. *)
Theorem settings_converge s s' evs evs' :
  settings s = settings s' -> settings_keyed (settings s) -> Forall leaves_settings evs -> Forall leaves_settings evs' ->
  (forall key, key <> SYNC_RELAY_CREDENTIAL_SETTING_KEY ->
     (forall e, se_key e = key -> e ∈ (evs ≫= shown) <-> e ∈ (evs' ≫= shown)) ->
     settings (settings_run s evs) !! key = settings (settings_run s' evs') !! key)
  /\ ((forall e, se_key e = SYNC_RELAY_CREDENTIAL_SETTING_KEY -> e ∈ taken s evs <-> e ∈ taken s' evs') ->
     settings (settings_run s evs) !! SYNC_RELAY_CREDENTIAL_SETTING_KEY = settings (settings_run s' evs') !! SYNC_RELAY_CREDENTIAL_SETTING_KEY)
  /\ (forall key e, settings (settings_run s evs) !! key = Some e ->
       (settings s !! key = Some e \/ e ∈ taken s evs) /\ forall x, x ∈ taken s evs -> se_key x = key -> setting_named x -> supersedes x e = false).
Proof.
  intros He Hm Hl Hl'. set (base := snd <$> map_to_list (settings s)).
  assert (forall key, greatest (seen_of key (base ++ taken s evs)) (settings (settings_run s evs) !! key)) as Hg
    by (intros key; by apply settings_run_greatest, keyed_greatest).
  assert (forall key, (forall e, se_key e = key -> e ∈ taken s evs <-> e ∈ taken s' evs') ->
    settings (settings_run s evs) !! key = settings (settings_run s' evs') !! key) as Hsame.
  { intros key Hk. apply (greatest_unique key (base ++ taken s evs)); [apply Hg|].
    assert (forall x, seen_of key (base ++ taken s evs) x <-> seen_of key (base ++ taken s' evs') x) as Hs
      by (intros x; unfold seen_of; rewrite !elem_of_app; specialize (Hk x); naive_solver).
    assert (greatest (seen_of key (base ++ taken s' evs')) (settings (settings_run s' evs') !! key)) as Hg'
      by (apply settings_run_greatest; [done|]; rewrite <- He; by apply keyed_greatest).
    unfold greatest in *. destruct (settings (settings_run s' evs') !! key); setoid_rewrite Hs; done. }
  split_and!.
  - intros key Hne Hk. apply Hsame. intros e Ek. rewrite !taken_shown by congruence. by apply Hk.
  - apply Hsame.
  - intros key e Hh. specialize (Hg key). rewrite Hh in Hg. destruct Hg as [(Hin & Hk & Hn) Hmax]. split.
    + apply elem_of_app in Hin as [Hin|Hin]; [left|by right]. apply list_elem_of_fmap in Hin as ([k e'] & E & Hin). cbn in E. subst e'.
      apply elem_of_map_to_list in Hin. by destruct (Hm _ _ Hin) as [<- _]; subst key.
    + intros x Hx Hk' Hn'. apply Hmax. split_and!; [apply elem_of_app; by right|done|done].
Qed.
End settings.

(** * Two devices *)

Definition toy_device (b : byte) : bytes := replicate 16 b.

Definition toy_settings_record (entries : list SyncSettingEntry) : SyncRecord :=
  mk_record SyncSettings (replicate 16 x01) (toy_device x02) (mk_version 0 1) 0 1 0
    (match core_encode_sync_settings entries with Ok bs => bs | Err _ => [] end) [].

(** One key written twice, seen in opposite orders; a block list; and a credential from far
    in the future, which neither takes. *)
Definition toy_entries : list SyncSettingEntry :=
  [mk_setting (str "theme") [x0a] 5 (toy_device x02); mk_setting (str "theme") [x0b] 5 (toy_device x02);
   mk_setting SYNC_BLOCKED_SETTING_KEY (encode_block_list [[x07]]) 3 (toy_device x02);
   mk_setting SYNC_RELAY_CREDENTIAL_SETTING_KEY (encode_relay_credential (str "u") (str "t")) (10 ^ 15) (toy_device x02)].

Lemma settings_converge_witness :
  let evs := [Merged (toy_settings_record toy_entries) 100] in
  let evs' := [Written (mk_setting (str "theme") [x0b] 5 (toy_device x02)); Merged (toy_settings_record toy_entries) 100;
               Merged (toy_settings_record (reverse toy_entries)) 200] in
  sy_settings (ms_sync (settings_run empty_store evs)) !! str "theme" = sy_settings (ms_sync (settings_run empty_store evs')) !! str "theme"
  /\ sy_settings (ms_sync (settings_run empty_store evs)) !! str "theme" = Some (mk_setting (str "theme") [x0b] 5 (toy_device x02)).
Proof.
  intros evs evs'. split; [|vm_compute; reflexivity].
  destruct (settings_converge empty_store empty_store evs evs') as [H _].
  - reflexivity.
  - intros k e Hk. exfalso. change (sy_settings (ms_sync empty_store)) with (∅ : gmap bytes SyncSettingEntry) in Hk. rewrite lookup_empty in Hk. discriminate.
  - repeat constructor.
  - repeat constructor.
  - apply H; [vm_compute; discriminate|]. intros e He.
    assert ((evs ≫= shown) = toy_entries) as -> by (vm_compute; reflexivity).
    assert ((evs' ≫= shown) = mk_setting (str "theme") [x0b] 5 (toy_device x02) :: toy_entries ++ reverse toy_entries) as -> by (vm_compute; reflexivity).
    rewrite elem_of_cons, elem_of_app, elem_of_reverse. split; [by right; left|]. intros [->|[Hx|Hx]]; [right; left|exact Hx|exact Hx].
Defined.
