(* ===== verification/SyncConverge.v ===== *)
(** Anti-entropy on the store of the code: the rounds of [SyncRounds.v] with a sibling that
    opens each sealed record ([core/src/sync_record.rs], [core_open_sync_record]) and merges
    it ([core/src/sync_store.rs], [core_apply_sync_record]).

    A merge can fail, and a record whose merge fails takes no slot and is offered again.
    [mergeable] says, kind by kind, which payloads merge on every store whose roster tables
    are readable ([smooth_merge]); it looks at the payload alone.  [sync_rounds_converge] is
    the convergence of two devices on such records: [receives_copies] discharges the
    interface of [SyncRounds.v] for the code's own opening and merge. *)
From stdpp Require Import base numbers list gmap strings sorting.
From coqutil Require Import Datatypes.RecordSetters.
From S2P Require Import Prelude StdModel SqlModel Wire Crypto RosterCodec Roster RosterStore Message Frames Hints Engine.
From S2P Require Import OutboundQueue RelayPolicy RelayWire CarryQueue SyncStream SyncStore SyncRounds Sealing Groups SyncRecords FriendCards Authoring.
From S2P Require Import InboundStore SyncMerge MeshReceive SettingsSync.
Import TriangleBracketNotations.

Section merges.
Context `{C : Crypto} `{L : !CryptoLaws C} `{J : CardJson}.
Context (clock : Z).

(** The streams of a sync database, without the settings. *)
Definition streams (db : sync_db) : sync_db := mk_sync (sy_slots db) (sy_cursors db) ∅.

(** The roster tables hold what [RosterStore.v] wrote. *)
Definition readable (s : mesh_store) : Prop := exists st, rep (e_rosters (ms_engine s)) st.

(** A call that succeeds on every readable store and touches no stream. *)
Definition smooth {A} (m : action CoreError A) : Prop := forall s, readable s ->
  exists s' a, m s = (s', Ok a) /\ readable s' /\ streams (ms_sync s') = streams (ms_sync s).

(** * Payloads that merge *)

Definition history_mergeable (e : SyncHistoryEntry) : Prop := exists body,
  decode_extended_message_body (he_body e) = Ok body /\ lamport (Message.body body) <= I64_MAX
  /\ blen (he_origin_msg_id e) = MESSAGE_ID_LEN /\ from_option (fun id => blen id = MESSAGE_ID_LEN) True (reply_to_msg_id body).

Definition watermark_mergeable (e : SyncWatermarkEntry) : Prop :=
  we_delivered_through_lamport e <= I64_MAX /\ we_read_through_lamport e <= I64_MAX.

Definition contact_mergeable (e : SyncContactEntry) : Prop :=
  (exists card, parse_friend_card (cn_card_json e) = Ok card /\ derive_user_id (fc_sign_pk card) = cn_person_id e)
  /\ from_option roster_typed True (cn_roster e).

Definition entries_are {A} (P : A -> Prop) (entries : result CoreError (list A)) : Prop :=
  exists es, entries = Ok es /\ Forall P es.

Definition mergeable (r : SyncRecord) : Prop :=
  match rc_kind r with
  | SyncHistory => entries_are history_mergeable (core_decode_sync_history (rc_payload r))
  | SyncWatermarks => entries_are watermark_mergeable (core_decode_sync_watermarks (rc_payload r))
  | SyncContacts => entries_are contact_mergeable (core_decode_sync_contacts (rc_payload r))
  | SyncGroups => entries_are (fun g => validate_group g = Ok tt) (core_decode_sync_groups (rc_payload r))
  | SyncSettings => entries_are (fun _ => True) (core_decode_sync_settings (rc_payload r))
  | SyncOwnRoster => exists payload, core_decode_sync_own_roster (rc_payload r) = Ok payload
  | SyncDigestKind => False
  end.

(** * Calls that succeed *)

Lemma smooth_ret {A} (a : A) : smooth (mret a).
Proof. intros s Hs. by exists s, a. Qed.

Lemma smooth_reads {A} (f : mesh_store -> A) : smooth (reads f).
Proof. intros s Hs. by exists s, (f s). Qed.

Lemma smooth_checks {A} (r : result CoreError A) a : r = Ok a -> smooth (checks r).
Proof. intros -> s Hs. by exists s, a. Qed.

Lemma smooth_bind {A D} (m : action CoreError A) (f : A -> action CoreError D) :
  smooth m -> (forall a, smooth (f a)) -> smooth (m ≫= f).
Proof.
  intros Hm Hf s Hs. destruct (Hm s Hs) as (s1 & a & E & H1 & S1). destruct (Hf a s1 H1) as (s2 & d & E2 & H2 & S2).
  exists s2, d. unfold mbind, action_bind. rewrite E. split_and!; [done|done|congruence].
Qed.

(** A check whose value is known. *)
Lemma smooth_after {A D} (r : result CoreError A) a (f : A -> action CoreError D) : r = Ok a -> smooth (f a) -> smooth (checks r ≫= f).
Proof. intros -> Hf s Hs. exact (Hf s Hs). Qed.

Lemma smooth_each {A} (f : A -> action CoreError unit) es : Forall (fun e => smooth (f e)) es -> smooth (for_each f es).
Proof. induction 1 as [|e es He _ IH]; [apply smooth_ret|]. cbn [for_each]. apply smooth_bind; [done|by intros _]. Qed.

Lemma smooth_writes (f : mesh_store -> mesh_store) :
  (forall s, readable s -> readable (f s) /\ streams (ms_sync (f s)) = streams (ms_sync s)) -> smooth (writes f).
Proof. intros Hf s Hs. exists (f s), tt. destruct (Hf s Hs). done. Qed.

Lemma readable_tables s s' : readable s ->
  contact_rosters (e_rosters (ms_engine s')) = contact_rosters (e_rosters (ms_engine s)) ->
  contact_devices (e_rosters (ms_engine s')) = contact_devices (e_rosters (ms_engine s)) -> readable s'.
Proof. intros [st Hst] Hr Hd. exists st. by eapply rep_tables. Qed.

(** The call left the roster tables and the streams alone. *)
Ltac untouched s Hs := eexists _, _; split_and!; [reflexivity|by apply (readable_tables s _ Hs)|reflexivity].

(** ** The calls of the store *)

Lemma smooth_insert message device msg_id reply :
  sm_lamport message <= I64_MAX -> blen msg_id = MESSAGE_ID_LEN -> from_option (fun id => blen id = MESSAGE_ID_LEN) True reply ->
  smooth (insert_incoming_message_from_device message device msg_id reply None clock).
Proof.
  intros Hl Hid Hr. unfold insert_incoming_message_from_device, validate_msg_id.
  apply (smooth_after _ tt); [by rewrite Hid, Z.eqb_refl|].
  apply (smooth_after _ tt); [destruct reply as [id|]; [cbn in Hr; by rewrite Hr, Z.eqb_refl|done]|].
  apply (smooth_after _ tt); [done|]. intros s Hs. unfold on_engine, insert_incoming, validate_stored_message, validate_sqlite_u64.
  rewrite (proj2 (Z.ltb_ge _ _) Hl). cbn [mbind result_bind].
  destruct (List.find _ _) as [old|]; [|untouched s Hs]. destruct (same_body _ _); [|untouched s Hs].
  rewrite bool_decide_eq_true_2 by eauto. untouched s Hs.
Qed.

Lemma smooth_receipt chat subject type through : type = RECEIPT_TYPE_DELIVERED \/ type = RECEIPT_TYPE_READ -> through <= I64_MAX ->
  smooth (record_outgoing_receipt chat subject type through).
Proof.
  intros Ht Hth. unfold record_outgoing_receipt. apply (smooth_after _ tt).
  - unfold validate_receipt_watermark, validate_sqlite_u64. rewrite (proj2 (Z.ltb_ge _ _) Hth). by destruct Ht as [-> | ->].
  - apply smooth_writes. intros s Hs. split; [by apply (readable_tables s _ Hs)|done].
Qed.

Lemma smooth_contact c : smooth (upsert_contact c).
Proof. apply smooth_writes. intros s Hs. split; [by apply (readable_tables s _ Hs)|done]. Qed.

Lemma smooth_roster r : roster_typed r -> smooth (apply_roster r).
Proof.
  intros Ht s [st Hst]. unfold apply_roster, on_engine. destruct (apply_refines _ st r Hst Ht) as (d & -> & Hd & _).
  eexists _, _. split_and!; [done|by exists (abs_apply (roots (e_rosters (ms_engine s))) st r).2|done].
Qed.

Lemma smooth_group g : validate_group g = Ok tt -> smooth (upsert_group g).
Proof.
  intros Hg s Hs. unfold upsert_group, upsert_group_tx. rewrite Hg. cbn [mbind result_bind].
  match goal with |- context [if ?b then _ else _] => destruct b end; untouched s Hs.
Qed.

Lemma smooth_setting e : setting_named e -> smooth (put_store_setting e).
Proof.
  intros He s Hs. unfold put_store_setting, on_author, put_setting. rewrite He, Z.eqb_refl. cbn [negb].
  destruct (match setting _ _ with Some _ => _ | None => _ end); untouched s Hs.
Qed.

Lemma smooth_block id now : smooth (block_user id now).
Proof. apply smooth_writes. intros s Hs. destruct (ms_blocked s !! id); (split; [by apply (readable_tables s _ Hs)|done]). Qed.

(** ** The merges *)

Lemma smooth_settings_loop roster now es : Forall setting_named es -> forall blocked cred, smooth (settings_loop roster now es blocked cred).
Proof.
  induction 1 as [|e es He _ IH]; intros blocked cred; [apply smooth_ret|]. cbn [settings_loop].
  destruct (_ && _); [done|]. apply smooth_bind; [by apply smooth_setting|]. intros took. apply IH.
Qed.

Lemma smooth_history r : rc_kind r = SyncHistory -> mergeable r -> smooth (apply_history clock r).
Proof.
  intros Hk Hm. unfold mergeable in Hm. rewrite Hk in Hm. destruct Hm as (es & Hd & Hes). unfold apply_history.
  apply (smooth_after _ es); [done|]. apply smooth_bind; [|intros; apply smooth_ret]. apply smooth_each. eapply Forall_impl; [exact Hes|].
  intros e (body & Hb & Hl & Hid & Hr). unfold apply_history_entry. apply (smooth_after _ body); [done|].
  apply smooth_bind; [by apply smooth_insert|intros; apply smooth_ret].
Qed.

Lemma smooth_contacts r : rc_kind r = SyncContacts -> mergeable r -> smooth (apply_contacts r).
Proof.
  intros Hk Hm. unfold mergeable in Hm. rewrite Hk in Hm. destruct Hm as (es & Hd & Hes). unfold apply_contacts.
  apply (smooth_after _ es); [done|]. apply smooth_bind; [|intros; apply smooth_ret]. apply smooth_each. eapply Forall_impl; [exact Hes|].
  intros e [(card & Hc & Hid) Hr]. unfold apply_contact_entry. apply (smooth_after _ card); [done|].
  apply (smooth_after _ tt); [by rewrite bool_decide_eq_true_2|]. apply smooth_bind; [apply smooth_reads|]. intros existing. apply smooth_bind.
  - destruct existing; [case_bool_decide; [apply smooth_ret|apply smooth_contact]|apply smooth_contact].
  - intros _. destruct (cn_roster e); [|apply smooth_ret]. apply smooth_bind; [by apply smooth_roster|intros; apply smooth_ret].
Qed.

Lemma smooth_settings r now : rc_kind r = SyncSettings -> mergeable r -> smooth (apply_settings r now).
Proof.
  intros Hk Hm. unfold mergeable in Hm. rewrite Hk in Hm. destruct Hm as (es & Hd & _). unfold apply_settings.
  apply (smooth_after _ es); [done|]. apply smooth_bind; [apply smooth_reads|]. intros roster.
  apply smooth_bind; [by apply smooth_settings_loop; eapply decoded_settings_named|]. intros [blocked cred].
  apply smooth_bind; [|intros; apply smooth_ret]. apply smooth_each, Forall_true. intros id. apply smooth_block.
Qed.

Lemma smooth_merge r now : mergeable r -> smooth (merge_payload clock r now).
Proof.
  intros Hm. unfold merge_payload. destruct (rc_kind r) eqn:Hk; try (apply smooth_bind; [|by intros a; apply smooth_ret]).
  - by apply smooth_history.
  - unfold mergeable in Hm. rewrite Hk in Hm. destruct Hm as (es & Hd & Hes). unfold apply_watermarks.
    apply (smooth_after _ es); [done|]. apply smooth_bind; [|intros; apply smooth_ret]. apply smooth_each. eapply Forall_impl; [exact Hes|].
    intros e [H1 H2]. unfold apply_watermark_entry, record_watermark.
    apply smooth_bind; [|intros _]; destruct (0 <? _); try apply smooth_ret; apply smooth_receipt; auto.
  - by apply smooth_contacts.
  - unfold mergeable in Hm. rewrite Hk in Hm. destruct Hm as [payload Hd]. by eapply smooth_checks.
  - unfold mergeable in Hm. rewrite Hk in Hm. destruct Hm as (es & Hd & Hes). unfold apply_groups.
    apply (smooth_after _ es); [done|]. apply smooth_bind; [|intros; apply smooth_ret]. apply smooth_each. eapply Forall_impl; [exact Hes|].
    intros g Hg. by apply smooth_group.
  - apply smooth_bind; [by apply smooth_settings|]. intros [n cred]. apply smooth_ret.
  - unfold mergeable in Hm. by rewrite Hk in Hm.
Qed.

(** ** The slot *)

Lemma streams_hold db p d kind seq sealed now :
  streams (hold_slot db p d kind seq sealed now).1 = (hold_slot (streams db) p d kind seq sealed now).1.
Proof. unfold hold_slot. cbn [sy_slots streams]. by destruct (sy_slots db !! _). Qed.

(** Applying a record that merges takes its slot, if it is free, and nothing else of the
    streams. *)
Lemma apply_takes_slot r now s : core_sync_kind_is_stream (rc_kind r) = true -> mergeable r -> readable s ->
  let s' := (core_apply_sync_record clock r now s).1 in
  readable s' /\ streams (ms_sync s')
    = (hold_slot (streams (ms_sync s)) (rc_person_id r) (rc_author_device_id r) (rc_kind r) (rc_stream_seq r) None now).1.
Proof.
  intros Hst Hm Hs. unfold core_apply_sync_record. rewrite Hst. cbn [negb]. unfold mbind, action_bind, reads, writes.
  case_bool_decide as Hh.
  - destruct Hh as [row Hrow]. cbn [fst]. split; [done|]. unfold hold_slot. cbn [sy_slots streams]. by rewrite Hrow.
  - destruct (smooth_merge r now Hm s Hs) as (s1 & [n news] & -> & H1 & S1). cbn [fst].
    split; [by apply (readable_tables s1 _ H1)|]. rewrite <- S1. by rewrite <- streams_hold.
Qed.

End merges.

(** * Two devices *)

Section devices.
Context `{C : Crypto} `{L : !CryptoLaws C} `{S : SealCrypto} `{SL : !SealLaws C S} `{J : CardJson}.
Context (clock : Z) (key : InboxKey) (roster : Roster) (now : Z).

(** The sibling takes a sealed copy in: it opens it under the inbox key and the own roster
    it holds, and merges what it read. *)
Definition receive_copy (r : StoredSyncRecord) (s : mesh_store) : mesh_store :=
  match core_open_sync_record (st_sealed r) key roster with
  | Ok record => (core_apply_sync_record clock record now s).1
  | Err _ => s
  end.

(** A sealed copy is one a device of the person signed and sealed under that key, for the
    record of its slot, whose payload merges. *)
Definition honest_copy (author : bytes) (kind : SyncRecordKind) (seq : Z) (sealed : SealedSyncRecord) : Prop :=
  exists r0 d r ephemeral_sk nonce, record_typed r0 /\ device_ok d /\ vouches roster d /\ rc_person_id r0 = person_id roster
    /\ blen nonce = NONCE_LEN /\ core_sign_sync_record r0 (dk_sign_sk d) = Ok r
    /\ core_seal_sync_record r (core_device_sync_identity d) key ephemeral_sk nonce = Ok sealed
    /\ rc_author_device_id r = author /\ rc_kind r = kind /\ rc_stream_seq r = seq
    /\ core_sync_kind_is_stream kind = true /\ mergeable r.

Definition honest_rows (a : sync_db) : Prop := forall d k s row sealed kind,
  sy_slots a !! (d, k, s) = Some row -> sl_sealed row = Some sealed -> core_sync_record_kind_of k = Some kind ->
  honest_copy d kind (as_u64 s) sealed.

Definition arriving (r : StoredSyncRecord) : Prop :=
  exists sealed, st_sealed r = sr_sealed sealed /\ honest_copy (st_author_device_id r) (st_kind r) (st_stream_seq r) sealed.

Lemma receives_copies : receives (fun s => streams (ms_sync s)) receive_copy (person_id roster) now readable arriving.
Proof.
  intros r s Hs (sealed & Hse & r0 & d & r' & sk & nonce & Ht & Hd & Hv & Hp & Hn & Hsign & Hseal & Ha & Hk & Hq & Hst & Hm).
  destruct (signed_record_verifies _ _ _ Ht Hsign) as (_ & Hp' & _).
  unfold receive_copy. rewrite Hse. rewrite (proj1 (sealed_record_opens _ _ _ _ sk nonce _ Ht Hd Hv Hp Hn Hsign) key Hseal).
  rewrite <- Hp, <- Hp', <- Ha, <- Hk, <- Hq. apply apply_takes_slot; [by rewrite Hk|done|done].
Qed.

(** C11: anti-entropy ends.  The serving device answers its sibling's digest with a page of
    what the sibling lacks, and the sibling opens each sealed copy it is sent under the inbox
    key and the own roster it holds, and merges it into its store.  As long as the serving
    device retains its streams without gaps, and each of its sealed copies was signed and
    sealed by a device that roster vouches for and carries a payload that merges ([mergeable]:
    it decodes, and its entries pass the checks of the merge of their kind), then in at most as many rounds
    as records are missing no gap is left between the digests of the two stores, and the
    sibling's cursor has reached the serving device's in every stream that device serves.  A
    page of one record and a budget that takes the largest record suffice.  A record whose
    payload does not merge takes no slot, and its stream stops before it: such records are
    outside the statement, and so is a sibling whose key or roster changes meanwhile. *)
Theorem sync_rounds_converge version generation limit budget a s n :
  let p := person_id roster in
  readable s -> sync_ok (ms_sync s) -> single_person p (ms_sync s) ->
  serves p a -> honest_rows a -> fits budget a -> 1 <= limit <= U32_MAX -> budget < U64_MAX -> (missing p a (ms_sync s) <= n)%nat ->
  let s' := sync_rounds (fun s => streams (ms_sync s)) receive_copy p version generation limit budget n a s in
  core_sync_digest_gaps (core_sync_digest (ms_sync s') p) (core_sync_digest a p) = Ok []
  /\ (forall d, d ∈ dg_streams (core_sync_digest a p) -> sd_can_serve d = true ->
        sd_through_seq d <= stream_cursor_by_wire (ms_sync s') (sd_author_device_id d) (sd_kind d))
  /\ sync_ok (ms_sync s').
Proof.
  intros p Hr [H1 H2 H3 H4] Hsp Ha Hh Hf Hl Hb Hn s'.
  destruct (rounds_converge (fun s => streams (ms_sync s)) receive_copy p version generation limit budget now readable arriving
    receives_copies a s n) as ((_ & [K1 K2 K3 K4] & _) & Hg & Hc); [|done| |done..|].
  - split; [done|]. split; [by split|done].
  - intros d k q row sealed kind Hrow Hse Hk. exists sealed. split; [done|]. by eapply Hh.
  - split_and!; [exact Hg|exact Hc|by split].
Qed.

End devices.

(** * Two records of one device, and a sibling that holds none *)

Definition toy_marks (seq : Z) : SyncRecord :=
  mk_record SyncWatermarks (replicate 16 x05) [] (mk_version 0 1) 3 seq 1700
    (match core_encode_sync_watermarks [mk_watermark [x01] [x02] (3 + seq) 2] with Ok bs => bs | Err _ => [] end) [].

Definition toy_signed (seq : Z) : SyncRecord :=
  match core_sign_sync_record (C := toy_crypto) (S := toy_seal) (toy_marks seq) (toy_key x09) with Ok r => r | Err _ => toy_marks seq end.

Definition toy_copy (seq : Z) : SealedSyncRecord :=
  match core_seal_sync_record (S := toy_seal) (toy_signed seq) (core_device_sync_identity (toy_device_keys (C := toy_crypto))) toy_inbox
          (toy_key x0d) (replicate 24 x00) with
  | Ok s => s
  | Err _ => mk_sealed [] (mk_version 0 1) 0
  end.

Definition toy_author_id : bytes := dk_device_id (toy_device_keys (C := toy_crypto)).

Definition toy_two : sync_db := (retain (retain sync_empty (toy_signed 1) (toy_copy 1) 0).1 (toy_signed 2) (toy_copy 2) 0).1.

Lemma toy_two_authored : SyncRounds.authored (replicate 16 x05) toy_author_id toy_two.
Proof.
  unfold toy_two. do 2 (apply authored_retain; [|vm_compute; reflexivity|vm_compute; reflexivity|vm_compute; reflexivity|vm_compute; reflexivity|vm_compute; discriminate]).
  apply authored_empty.
Qed.

Lemma toy_two_rows k row : sy_slots toy_two !! k = Some row -> exists q, (q = 1 \/ q = 2) /\ k = (toy_author_id, 11, q) /\ sl_sealed row = Some (toy_copy q).
Proof.
  unfold toy_two. intros [Hrow|[-> Hs]]%retain_rows.
  - apply retain_rows in Hrow as [Hrow|[-> Hs]]; [exact (False_ind _ (empty_slot _ _ Hrow))|].
    exists 1. split; [by left|]. split; [vm_compute; reflexivity|exact Hs].
  - exists 2. split; [by right|]. split; [vm_compute; reflexivity|exact Hs].
Qed.

Lemma toy_copy_honest q : q = 1 \/ q = 2 ->
  honest_copy (C := toy_crypto) (S := toy_seal) (J := toy_json) toy_inbox toy_own_roster toy_author_id SyncWatermarks q (toy_copy q).
Proof.
  intros Hq. exists (toy_marks q), (toy_device_keys (C := toy_crypto)), (toy_signed q), (toy_key x0d), (replicate 24 x00).
  assert (forall P : Z -> Prop, P 1 -> P 2 -> P q) as Hcase by (intros P H1 H2; by destruct Hq as [-> | ->]).
  split; [apply (Hcase (fun q => record_typed (toy_marks q))); split; cbn; split; discriminate|].
  split; [split; reflexivity|].
  split; [split; [vm_compute; reflexivity|]; eexists; split; [vm_compute; reflexivity|reflexivity]|].
  split; [reflexivity|]. split; [reflexivity|].
  split; [apply (Hcase (fun q => core_sign_sync_record (toy_marks q) _ = Ok (toy_signed q))); vm_compute; reflexivity|].
  split; [apply (Hcase (fun q => core_seal_sync_record (toy_signed q) _ _ _ _ = Ok (toy_copy q))); vm_compute; reflexivity|].
  split; [apply (Hcase (fun q => rc_author_device_id (toy_signed q) = _)); vm_compute; reflexivity|].
  split; [apply (Hcase (fun q => rc_kind (toy_signed q) = _)); vm_compute; reflexivity|].
  split; [apply (Hcase (fun q => rc_stream_seq (toy_signed q) = q)); vm_compute; reflexivity|]. split; [reflexivity|].
  assert (rc_kind (toy_signed q) = SyncWatermarks) as Hk by (apply (Hcase (fun q => rc_kind (toy_signed q) = _)); vm_compute; reflexivity).
  unfold mergeable. rewrite Hk. exists [mk_watermark [x01] [x02] (3 + q) 2]. split.
  - apply (Hcase (fun q => core_decode_sync_watermarks (rc_payload (toy_signed q)) = Ok [mk_watermark [x01] [x02] (3 + q) 2])); vm_compute; reflexivity.
  - apply Forall_singleton. split; [apply (Hcase (fun q => 3 + q <= _))|]; vm_compute; discriminate.
Qed.

(** Pages of one record, a budget of one record: two rounds bring the sibling level, and
    the watermarks of both records are in its tables. *)
Lemma sync_rounds_converge_witness :
  missing (replicate 16 x05) toy_two (ms_sync empty_store) = 2%nat
  /\ let s' := sync_rounds (fun s => streams (ms_sync s)) (receive_copy (C := toy_crypto) (S := toy_seal) (J := toy_json) 0 toy_inbox toy_own_roster 50)
                 (replicate 16 x05) (mk_version 0 1) 3 1 1000 2 toy_two empty_store in
     core_sync_digest_gaps (core_sync_digest (ms_sync s') (replicate 16 x05)) (core_sync_digest toy_two (replicate 16 x05)) = Ok []
     /\ ad_outgoing (ms_author s') !! ([x01], [x02], RECEIPT_TYPE_DELIVERED) = Some 5.
Proof.
  split; [vm_compute; reflexivity|]. intros s'. split; [|vm_compute; reflexivity].
  apply (sync_rounds_converge (C := toy_crypto) (S := toy_seal) (J := toy_json) 0 toy_inbox toy_own_roster 50 (mk_version 0 1) 3 1 1000 toy_two empty_store 2).
  - exists ∅. intros q. rewrite lookup_empty. split; [apply lookup_empty|reflexivity].
  - exact sync_empty_ok.
  - intros k row H. exact (False_ind _ (empty_slot _ _ H)).
  - eapply authored_serves. exact toy_two_authored.
  - intros d k s row sealed kind Hrow Hse Hk. apply toy_two_rows in Hrow as (q & Hq & E & Hs). injection E as -> -> ->.
    rewrite Hse in Hs. injection Hs as ->. injection Hk as <-. destruct Hq as [-> | ->]; apply toy_copy_honest; auto.
  - intros k row sealed Hrow Hse. apply toy_two_rows in Hrow as (q & Hq & _ & Hs). rewrite Hse in Hs. injection Hs as ->.
    destruct Hq as [-> | ->]; vm_compute; discriminate.
  - vm_compute. split; discriminate.
  - vm_compute. reflexivity.
  - vm_compute. auto.
Defined.
