(* ===== verification/Delivery.v ===== *)
(** The inbound transaction ([core/src/session/mesh_receive.rs]), second half: what an
    opened body means - the gates every body passes (a revoked signer, the thread it may
    write to, the sender's standing), the handler of each kind, and the receipt that
    follows.

    A failure that is a property of the signed bytes is a verdict; a failure of this device
    is an error, and the caller does not commit.  The randomness of the receipt's seal is
    an argument. *)
From stdpp Require Import base numbers list gmap strings sorting.
From coqutil Require Import Datatypes.RecordSetters.
From S2P Require Import Prelude StdModel SqlModel Wire Crypto RosterCodec Roster RosterStore Message Framing Frames Gossip Hints Engine.
From S2P Require Import OutboundQueue RelayPolicy RelayWire CarryQueue SyncStream SyncStore Sealing Groups SyncRecords FriendCards Authoring.
From S2P Require Import InboundStore SyncMerge MeshReceive.
Import TriangleBracketNotations.

Record CoreDiscoveryPolicyState : Type := mk_discovery { ds_enabled : bool; ds_revision : Z }.

Inductive CoreDeliveryVerdict : Type :=
| DeliveryApplied
| DroppedForeignChat
| DroppedUnauthorizedSender
| DroppedRevokedDevice
| DroppedMalformed.

#[global] Instance CoreDeliveryVerdict_eq_dec : EqDecision CoreDeliveryVerdict.
Proof. solve_decision. Defined.

Inductive DeliveryFailure : Type := BodyMalformed (kind : option Z) | Durability (err : CoreError).

(** Everything that describes the bytes is terminal; a store failure is worth a retry. *)
Definition classify_body_error (kind : Z) (err : CoreError) : DeliveryFailure :=
  match err with Store _ => Durability err | _ => BodyMalformed (Some kind) end.

Record CoreLanEndpointIntent : Type := mk_intent { le_peer_user_id : bytes; le_endpoint : LanEndpointContent; le_observed_at_ms : Z }.

Record CoreInboundDelivery : Type := mk_delivery {
  dl_verdict : CoreDeliveryVerdict;
  dl_kind : Z;
  dl_persisted : bool;
  dl_endpoint_hint : option CoreLanEndpointIntent;
}.

(** [CoreInboundDelivery::dropped] *)
Definition dropped (verdict : CoreDeliveryVerdict) (kind : Z) : CoreInboundDelivery := mk_delivery verdict kind false None.

(** [map_err] *)
Definition map_err {E F A} (f : E -> F) (a : action E A) : action F A := fun s =>
  let '(s, r) := a s in (s, match r with Ok a => Ok a | Err e => Err (f e) end).

(** [?] into [DeliveryFailure]: a durability failure. *)
Definition durably {A} (a : action CoreError A) : action DeliveryFailure A := map_err Durability a.

(** [decode(...).map_err(|_| Malformed(Some(kind)))?] *)
Definition decodes {A} (kind : Z) (r : result CoreError A) : action DeliveryFailure A :=
  checks (match r with Ok a => Ok a | Err _ => Err (BodyMalformed (Some kind)) end).

#[global] Instance ContactDeviceState_eq_dec : EqDecision ContactDeviceState.
Proof. solve_decision. Defined.

Definition signer_device_revoked (s : mesh_store) (sender_user_id own_user_id : bytes) (sender_device_id : option bytes) : bool :=
  match sender_device_id with
  | None => false
  | Some device =>
      if decide (device = LEGACY_DEVICE_ID) then false
      else if decide (sender_user_id = own_user_id) then
        match ms_own_roster s with
        | Some roster => existsb (fun t => bool_decide (tomb_device_id t = device)) (tombstones roster)
        | None => false
        end
      else bool_decide (contact_device_state s sender_user_id device = Revoked)
  end.

Definition bounded_device_stream (s : mesh_store) (chat_id sender_user_id : bytes) (sender_device_id : option bytes) : bytes :=
  let stream := core_device_stream_id sender_device_id in
  if decide (stream = LEGACY_DEVICE_ID) then stream
  else
    let held := message_stream_device_ids s chat_id sender_user_id in
    if decide (stream ∈ held) then stream
    else if DEVICE_HARD_CAP <=? blen (filter (fun id => id <> LEGACY_DEVICE_ID) held) then LEGACY_DEVICE_ID else stream.

Section deliver.
Context `{C : Crypto} `{S : SealCrypto} `{B : Base64} `{J : CardJson}.

Definition persist_inbound (sender_user_id : bytes) (chat : bytes) (b : ExtendedMessageBody) (commit : CoreInboundCommit) (arrival : MessageArrival)
  : action CoreError unit :=
  stream ← reads (fun s => bounded_device_stream s chat sender_user_id (sender_device_id b));
  let m := body b in
  outcome ← insert_incoming_message_from_device
              (mk_stored_message chat sender_user_id (lamport m) (timestamp m) (kind m) (content m) stream)
              (Some stream) (cm_msg_id commit) (reply_to_msg_id b) (Some arrival) (ma_received_at arrival);
  match outcome with
  | Inserted | Duplicate => mret tt
  | QuarantinedConflict => fails (Store "message stream conflict was quarantined")
  end.

Definition hold_shared_friend_request (identity : Identity) (sender_user_id : bytes) (card : FriendCard) (shared : SharedFriendCard)
  (discovery : CoreDiscoveryPolicyState) (now_ms : Z) : action CoreError unit :=
  sharer ← reads (fun s => get_contact s (sh_sharer_user_id shared));
  match sharer with
  | None => mret tt
  | Some sharer =>
      blocked ← reads (fun s => is_user_blocked s (sh_sharer_user_id shared));
      if (blocked : bool) || negb (bool_decide (friend_card_user_id (sh_card shared) = id_user_id identity)) || negb (ds_enabled discovery)
      then mret tt
      else
        valid ← checks (verify_shared_friend_card shared (ct_sign_pk sharer) (id_user_id identity) (ds_revision discovery) now_ms);
        suppressed ← reads (fun s => from_option snd false (get_shared_request_dismissal s sender_user_id));
        if negb (valid : bool) || (suppressed : bool) then mret tt
        else
          _ ← upsert_pending_shared_request
                (mk_pending sender_user_id (fc_name card) (fc_sign_pk card) (fc_agree_pk card) (fc_relay_url card) (fc_relay_token card)
                   (sh_sharer_user_id shared) (sh_expires_at_ms shared) now_ms 0);
          best_effort (note_shared_request_prompt sender_user_id now_ms)
  end.

Definition apply_friend_request (identity : Identity) (sender_user_id : bytes) (content : bytes) (discovery : CoreDiscoveryPolicyState) (now_ms : Z)
  : action CoreError unit :=
  _ ← checks (ensure (utf8_valid content) (Malformed "friend request is not UTF-8"));
  request ← checks (parse_friend_request_content content);
  _ ← checks (ensure (bool_decide (friend_card_user_id (fq_card request) = sender_user_id))
                (InvalidFriendCard "friend request card does not match its verified sender"));
  match fq_shared request with
  | Some shared => hold_shared_friend_request identity sender_user_id (fq_card request) shared discovery now_ms
  | None => _ ← upsert_imported_contact (contact_of_card sender_user_id (fq_card request)); mret tt
  end.

(** What a handler leaves: whether a row was written, an endpoint for the shell, and the
    floor of the receipt. *)
Record handled : Type := mk_handled { hd_persisted : bool; hd_endpoint : option CoreLanEndpointIntent; hd_floor : Z }.

Definition row_written : handled := mk_handled true None 0.

Section handlers.
Context (identity : Identity) (sender_user_id : bytes) (b : ExtendedMessageBody) (commit : CoreInboundCommit) (arrival : MessageArrival)
  (discovery : CoreDiscoveryPolicyState).

Notation now_ms := (ma_received_at arrival).
Notation m := (body b).
Notation persist := (durably (persist_inbound sender_user_id (chat_id m) b commit arrival)).

Definition handle_friend_request : action DeliveryFailure handled :=
  _ ← map_err (classify_body_error (kind m)) (apply_friend_request identity sender_user_id (content m) discovery now_ms);
  _ ← persist;
  mret row_written.

Definition handle_receipt : action DeliveryFailure handled :=
  receipt ← decodes (kind m) (decode_receipt_content (content m));
  _ ← checks (ensure (bool_decide (rc_sender_user_id receipt = id_user_id identity)) (BodyMalformed (Some (kind m))));
  _ ← durably (match rc_group_id receipt with
               | Some group =>
                   record_group_receipt group (id_user_id identity) sender_user_id (receipt_type receipt) (rc_lamport receipt)
                     (Some (ma_transport arrival))
               | None =>
                   on_out (fun d => record_receipt d sender_user_id (id_user_id identity) (receipt_type receipt) (rc_lamport receipt)
                                      (Some (ma_transport arrival)))
               end);
  mret (mk_handled false None 0).

Definition handle_lan_hint : action DeliveryFailure handled :=
  endpoint ← decodes (kind m) (decode_lan_endpoint_content (content m));
  _ ← persist;
  mret (mk_handled true (Some (mk_intent sender_user_id endpoint now_ms)) 0).

Definition handle_relay_update : action DeliveryFailure handled :=
  update ← decodes (kind m) (decode_relay_update_content (content m));
  _ ← persist;
  _ ← best_effort (apply_contact_relay_update sender_user_id update now_ms);
  mret row_written.

Definition handle_roster_gossip : action DeliveryFailure handled :=
  roster ← decodes (kind m) (core_decode_roster (content m));
  _ ← checks (ensure (bool_decide (person_id roster = sender_user_id)) (BodyMalformed (Some (kind m))));
  _ ← persist;
  _ ← best_effort (apply_roster roster);
  mret row_written.

Definition with_name (c : Contact) (new : bytes) : Contact :=
  mk_contact (ct_user_id c) new (ct_sign_pk c) (ct_agree_pk c) (ct_relay_url c) (ct_relay_token c) (ct_nickname c).

Definition handle_profile_sync : action DeliveryFailure handled :=
  profile ← decodes (kind m) (decode_profile_sync_content (content m));
  _ ← persist;
  contact ← reads (fun s => get_contact s sender_user_id);
  match contact with
  | None => mret row_written
  | Some contact =>
      _ ← durably (upsert_contact_discovery_policy
                     (mk_policy sender_user_id (friends_of_friends_version profile) (friends_of_friends_enabled profile)
                        (friends_of_friends_revision profile)));
      _ ← durably (set_contact_avatar sender_user_id (opt_text (avatar profile)) (avatar_epoch profile));
      _ ← (if decide (ct_name contact = name profile) then mret tt else durably (upsert_contact (with_name contact (name profile))));
      mret row_written
  end.

Definition handle_group_invite : action DeliveryFailure handled :=
  group ← decodes (kind m) (decode_group_invite_content (content m));
  _ ← checks (ensure (bool_decide (sender_user_id ∈ member_user_ids group) && bool_decide (id_user_id identity ∈ member_user_ids group))
                (BodyMalformed (Some (kind m))));
  _ ← durably (upsert_group group);
  _ ← durably (persist_inbound sender_user_id (group_id group) b commit arrival);
  mret (mk_handled true None (lamport m)).

(** The [match] on the kind; every special kind is pairwise. *)
Definition handle_kind (pairwise : bool) : action DeliveryFailure handled :=
  let arm k := (kind m =? k) && pairwise in
  if arm KIND_FRIEND_REQUEST then handle_friend_request
  else if arm KIND_RECEIPT then handle_receipt
  else if arm KIND_LAN_ENDPOINT_HINT then handle_lan_hint
  else if arm KIND_RELAY_UPDATE then handle_relay_update
  else if arm KIND_ROSTER_GOSSIP then handle_roster_gossip
  else if arm KIND_PROFILE_SYNC then handle_profile_sync
  else if arm KIND_GROUP_INVITE then handle_group_invite
  else _ ← persist; mret row_written.

(** The receipt that follows: this device holds the sender's stream so far. *)
Definition acknowledge (floor : Z) (rnd : draw) : action DeliveryFailure unit :=
  contact ← reads (fun s => get_contact s sender_user_id);
  match contact with
  | None => mret tt
  | Some contact =>
      through ← reads (fun s => Z.max (highest_lamport s sender_user_id sender_user_id) floor);
      _ ← durably (on_author (fun a => author_receipt a identity contact sender_user_id RECEIPT_TYPE_DELIVERED through now_ms rnd));
      mret tt
  end.

(** The two gates on where and who. *)
Definition gate (s : mesh_store) : option CoreDeliveryVerdict :=
  if signer_device_revoked s sender_user_id (id_user_id identity) (sender_device_id b) then Some DroppedRevokedDevice
  else match cm_group_id commit with
       | Some group => if decide (chat_id m = group) then None else Some DroppedForeignChat
       | None =>
           if decide (chat_id m = sender_user_id) then
             if core_pairwise_sender_authorized (kind m) (bool_decide (is_Some (get_contact s sender_user_id)))
                  (bool_decide (sender_user_id = id_user_id identity))
             then None else Some DroppedUnauthorizedSender
           else Some DroppedForeignChat
       end.

Definition deliver_body (rnd : draw) : action DeliveryFailure CoreInboundDelivery :=
  let pairwise := bool_decide (cm_group_id commit = None) in
  refused ← reads gate;
  match refused with
  | Some verdict => mret (dropped verdict (kind m))
  | None =>
      h ← handle_kind pairwise;
      _ ← (if pairwise && negb (kind m =? KIND_RECEIPT) then acknowledge (hd_floor h) rnd else mret tt);
      mret (mk_delivery DeliveryApplied (kind m) (hd_persisted h) (hd_endpoint h))
  end.

End handlers.

Definition deliver_inbound_body (identity : Identity) (sender_user_id payload : bytes) (commit : CoreInboundCommit) (arrival : MessageArrival)
  (discovery : CoreDiscoveryPolicyState) (rnd : draw) : action DeliveryFailure CoreInboundDelivery :=
  match decode_extended_message_body payload with
  | Err _ => fails (BodyMalformed None)
  | Ok b => deliver_body identity sender_user_id b commit arrival discovery rnd
  end.

Definition core_deliver_inbound (identity : Identity) (sender_user_id payload : bytes) (commit : CoreInboundCommit) (arrival : MessageArrival)
  (discovery : CoreDiscoveryPolicyState) (rnd : draw) : action CoreError CoreInboundDelivery := fun s =>
  match deliver_inbound_body identity sender_user_id payload commit arrival discovery rnd s with
  | (s, Ok delivery) => (s, Ok delivery)
  | (s, Err (BodyMalformed kind)) => (s, Ok (dropped DroppedMalformed (default 0 kind)))
  | (s, Err (Durability err)) => (s, Err err)
  end.

End deliver.

(** * What delivering leaves of the message table *)

Definition same_rows (s s' : mesh_store) : Prop :=
  ms_messages s' = ms_messages s /\ e_conflicts (ms_engine s') = e_conflicts (ms_engine s).

#[global] Instance same_rows_preorder : PreOrder same_rows.
Proof. split; unfold same_rows; [intros s|intros s1 s2 s3 [] []]; split; congruence. Qed.

(** A relation between stores that only looks at those two tables. *)
Class RowRelation (R : relation mesh_store) : Prop := {
  rows_same s s' : same_rows s s' -> R s s';
  rows_left s1 s2 s3 : same_rows s1 s2 -> R s2 s3 -> R s1 s3;
  rows_right s1 s2 s3 : R s1 s2 -> same_rows s2 s3 -> R s1 s3;
}.

#[global] Instance same_rows_relation : RowRelation same_rows.
Proof. split; [done|by intros ?????; etrans..]. Qed.

Definition via {E A} (R : relation mesh_store) (a : action E A) : Prop := forall s, R s (a s).1.

Section via.
Context {E : Type} (R : relation mesh_store) `{HR : RowRelation R}.

Lemma via_still {A} (a : action E A) : via same_rows a -> via R a.
Proof. intros H s. apply rows_same, H. Qed.

Lemma via_left {A B} (a : action E A) (f : A -> action E B) : via same_rows a -> (forall x, via R (f x)) -> via R (a ≫= f).
Proof.
  intros Ha Hf s. unfold mbind, action_bind. specialize (Ha s). destruct (a s) as [s1 [x|e]]; cbn [fst] in *.
  - eapply rows_left; [exact Ha|apply Hf].
  - by apply rows_same.
Qed.

Lemma via_right {A B} (a : action E A) (f : A -> action E B) : via R a -> (forall x, via same_rows (f x)) -> via R (a ≫= f).
Proof.
  intros Ha Hf s. unfold mbind, action_bind. specialize (Ha s). destruct (a s) as [s1 [x|e]]; cbn [fst] in *; [|done].
  eapply rows_right; [exact Ha|apply Hf].
Qed.

Lemma via_checks {A B} (r : result E A) (f : A -> action E B) : (forall x, r = Ok x -> via R (f x)) -> via R (checks r ≫= f).
Proof. intros Hf s. unfold mbind, action_bind, checks. destruct r; [by apply Hf|]. apply rows_same. reflexivity. Qed.
End via.

Lemma via_map_err {E F A} R (g : E -> F) (a : action E A) : via R a -> via R (map_err g a).
Proof. intros H s. unfold map_err. specialize (H s). by destruct (a s) as [s1 [x|e]]. Qed.

Lemma still_best_effort {E F A} (a : action E A) : via same_rows a -> via same_rows (best_effort a : action F unit).
Proof. intros H s. apply H. Qed.

Lemma still_bind {E A B} (a : action E A) (f : A -> action E B) :
  via same_rows a -> (forall x, via same_rows (f x)) -> via same_rows (a ≫= f).
Proof. apply via_left, _. Qed.

Lemma via_durably {A} R (a : action CoreError A) : via R a -> via R (durably a).
Proof. apply via_map_err. Qed.

Create HintDb rows discriminated.
#[export] Hint Resolve still_bind via_map_err via_durably still_best_effort : rows.
#[export] Hint Extern 1 (via same_rows (mret _)) => by intros ? : rows.
#[export] Hint Extern 1 (via same_rows (reads _)) => by intros ? : rows.
#[export] Hint Extern 1 (via same_rows (checks _)) => by intros ? : rows.
#[export] Hint Extern 1 (via same_rows (writes _)) => by intros ? : rows.

Lemma still_put s c : same_rows s (put_contact s c).
Proof. done. Qed.

Lemma still_upsert_contact c : via same_rows (upsert_contact c).
Proof. done. Qed.

Lemma still_imported c : via same_rows (upsert_imported_contact c).
Proof. done. Qed.

Lemma still_policy p : via same_rows (upsert_contact_discovery_policy p).
Proof. intros s. unfold upsert_contact_discovery_policy. by case_match. Qed.

Lemma still_avatar u a e : via same_rows (set_contact_avatar u a e).
Proof. intros s. unfold set_contact_avatar. by case_match. Qed.

Lemma still_pending r : via same_rows (upsert_pending_shared_request r).
Proof. done. Qed.

Lemma still_prompt u t : via same_rows (note_shared_request_prompt u t).
Proof. intros s. unfold note_shared_request_prompt. by repeat case_match. Qed.

Lemma still_group_receipt g a m k l t : via same_rows (record_group_receipt g a m k l t).
Proof. unfold record_group_receipt. auto with rows. Qed.

Lemma still_receipt c i k l t : via same_rows (on_out (fun d => record_receipt d c i k l t)).
Proof. intros s. unfold on_out, on_author, record_receipt, retire_receipt_covered. by repeat case_match; simplify_eq/=. Qed.

Lemma still_relay_update u c t : via same_rows (apply_contact_relay_update u c t).
Proof. intros s. unfold apply_contact_relay_update. by repeat case_match. Qed.

Lemma still_upsert_group g : via same_rows (upsert_group g).
Proof.
  intros s. unfold upsert_group. destruct (upsert_group_tx (ms_author s) g) as [a|e] eqn:H; [|done]. unfold upsert_group_tx in H.
  apply result_bind_ok in H as (? & _ & H). case_match; apply Ok_inj in H; by subst a.
Qed.

#[export] Hint Resolve still_upsert_contact still_imported still_policy still_avatar still_pending still_prompt still_group_receipt : rows.
#[export] Hint Resolve still_receipt still_relay_update still_upsert_group : rows.

Section still.
Context `{C : Crypto} `{S : SealCrypto} `{B : Base64} `{J : CardJson}.

Lemma still_roster r : via same_rows (apply_roster r).
Proof. intros s. unfold apply_roster, on_engine. by repeat case_match; simplify_eq/=. Qed.

Lemma still_author_receipt i c u k l t n : via same_rows (on_author (fun a => author_receipt a i c u k l t n)).
Proof.
  intros s. unfold on_author, author_receipt.
  match goal with |- context [transaction ?d ?r] => destruct (transaction_inv d r) as [(d1 & x & Hr & Ht)|[e Ht]] end; rewrite Ht; [|done].
  repeat (apply result_bind_ok in Hr as (? & _ & Hr)). cbv zeta in Hr. case_match; [by apply Ok_inj in Hr; simplify_eq|].
  apply result_bind_ok in Hr as (env & _ & Hr). apply result_bind_ok in Hr as (out & Ho & Hr). apply Ok_inj in Hr. injection Hr as <- _.
  unfold put_receipt_envelope in Ho. repeat (apply result_bind_ok in Ho as (? & _ & Ho)). apply Ok_inj in Ho. subst out. by case_match.
Qed.

Lemma still_hold i u c sh d t : via same_rows (hold_shared_friend_request i u c sh d t).
Proof. unfold hold_shared_friend_request. repeat (apply still_bind; [by auto with rows|intros ?] || case_match); auto with rows. Qed.

Lemma still_friend_request i u c d t : via same_rows (apply_friend_request i u c d t).
Proof.
  unfold apply_friend_request. repeat (apply still_bind; [by auto with rows|intros ?]). case_match; [apply still_hold|auto with rows].
Qed.
End still.

#[export] Hint Resolve still_roster still_author_receipt still_hold still_friend_request : rows.

Section rows.
Context `{C : Crypto} `{S : SealCrypto} `{B : Base64} `{J : CardJson}.
Context (identity : Identity) (sender_user_id : bytes) (b : ExtendedMessageBody) (commit : CoreInboundCommit) (arrival : MessageArrival)
  (discovery : CoreDiscoveryPolicyState).

(** The invite a one-to-one body carries, when both sides are among its members. *)
Definition invites_to (g : Group) : Prop :=
  kind (body b) = KIND_GROUP_INVITE /\ decode_group_invite_content (content (body b)) = Ok g
  /\ sender_user_id ∈ member_user_ids g /\ id_user_id identity ∈ member_user_ids g.

(** The threads the body may write to. *)
Definition writable (chat : bytes) : Prop :=
  match cm_group_id commit with
  | Some group => chat = group
  | None => chat = sender_user_id \/ exists g, invites_to g /\ chat = group_id g
  end.

Section traverse.
Context (R : relation mesh_store) `{HR : RowRelation R}.
Context (persists : forall chat, writable chat -> via R (persist_inbound sender_user_id chat b commit arrival)).

Ltac quiet := repeat ((apply via_checks; [exact HR|intros ? ?]) || (apply via_left; [exact HR|by auto with rows|intros ?])).

Lemma via_persist_tail {A} chat (k : unit -> action DeliveryFailure A) :
  writable chat -> (forall x, via same_rows (k x)) -> via R (durably (persist_inbound sender_user_id chat b commit arrival) ≫= k).
Proof. intros Hw Hk. apply via_right; [exact HR| |exact Hk]. apply via_map_err. by apply persists. Qed.

Lemma decodes_ok {A} k (r : result CoreError A) x : match r with Ok a => Ok a | Err _ => Err (BodyMalformed k) end = Ok x -> r = Ok x.
Proof. destruct r; [|done]. by intros [= ->]. Qed.

Lemma handle_kind_via pairwise :
  pairwise = bool_decide (cm_group_id commit = None) -> writable (chat_id (body b)) ->
  via R (handle_kind identity sender_user_id b commit arrival discovery pairwise).
Proof.
  intros Hpw Hw. unfold handle_kind.
  repeat match goal with |- via R (if ?c then _ else _) => destruct c eqn:? end;
    unfold handle_friend_request, handle_receipt, handle_lan_hint, handle_relay_update, handle_roster_gossip, handle_profile_sync, handle_group_invite,
      decodes;
    quiet; try (apply via_persist_tail; [exact Hw|intros ?; by eauto with rows]).
  - apply via_left; [exact HR|destruct (rc_group_id _); auto with rows|]. intros ?. apply via_still; [exact HR|auto with rows].
  - apply via_persist_tail; [exact Hw|]. intros ?. apply still_bind; [auto with rows|]. intros [c|]; [|by auto with rows].
    repeat (apply still_bind; [try case_decide; by auto with rows|intros ?]). auto with rows.
  - apply via_persist_tail; [|intros ?; by auto with rows]. unfold writable. subst pairwise. bools.
    match goal with H : cm_group_id commit = None |- _ => rewrite H end. right. eexists. split; [|reflexivity].
    match goal with H : match decode_group_invite_content _ with _ => _ end = Ok _ |- _ => apply decodes_ok in H end.
    match goal with H : ensure _ _ = Ok _ |- _ => apply ensure_ok in H end. bools. done.
Qed.

Lemma deliver_body_via rnd : via R (deliver_body identity sender_user_id b commit arrival discovery rnd).
Proof.
  intros s. unfold deliver_body. change ((reads ?f ≫= ?k) s) with (k (f s) s). cbv beta.
  destruct (gate _ _ _ _ s) as [v|] eqn:Hg; [by apply rows_same|].
  assert (writable (chat_id (body b))) as Hw.
  { unfold gate in Hg. unfold writable. destruct (signer_device_revoked _ _ _ _); [done|].
    destruct (cm_group_id commit); [by case_decide|]. destruct (decide (chat_id (body b) = sender_user_id)); [by left|done]. }
  eapply via_right; [exact HR|by apply handle_kind_via|]. intros h. apply still_bind; [|intros ?; by auto with rows].
  case_match; [|by auto with rows]. unfold acknowledge. apply still_bind; [auto with rows|]. intros [c|]; auto with rows.
Qed.
End traverse.
End rows.

(** A row kept, with its message id filled in where it had none. *)
Definition filled (m m' : message_row) : Prop := m' = m \/ (mr_msg_id m = None /\ exists id, m' = with_msg_id m id).

(** Every row is kept in its place; at most one is added behind them, and it satisfies [P]. *)
Definition grown (P : message_row -> Prop) (s s' : mesh_store) : Prop :=
  exists old new, ms_messages s' = old ++ new /\ Forall2 filled (ms_messages s) old /\ (new = [] \/ exists m, new = [m] /\ P m).

Lemma filled_refl l : Forall2 filled l l.
Proof. apply Forall2_same_length_lookup_2; [done|]. intros i x y Hx Hy. left. congruence. Qed.

#[global] Instance grown_rows P : RowRelation (grown P).
Proof.
  split; unfold grown.
  - intros s s' [-> _]. exists (ms_messages s), []. rewrite app_nil_r. split_and!; [done|apply filled_refl|by left].
  - intros s1 s2 s3 [-> _]. done.
  - intros s1 s2 s3 H [-> _]. done.
Qed.

(** No sender has more than the cap of device streams in a chat, and the quarantine is
    bounded. *)
Definition streams_ok (s : mesh_store) : Prop := forall chat sender,
  blen (filter (fun id => id <> LEGACY_DEVICE_ID) (message_stream_device_ids s chat sender)) <= DEVICE_HARD_CAP.

Definition quarantine_ok (s : mesh_store) : Prop := blen (e_conflicts (ms_engine s)) <= MESSAGE_CONFLICT_QUARANTINE_LIMIT.

Definition stays_bounded (s s' : mesh_store) : Prop := streams_ok s /\ quarantine_ok s -> streams_ok s' /\ quarantine_ok s'.

Lemma bounded_same s s' : same_rows s s' -> stays_bounded s s'.
Proof. intros [Hm Hc]. unfold stays_bounded, streams_ok, quarantine_ok, message_stream_device_ids. by rewrite Hm, Hc. Qed.

#[global] Instance stays_bounded_rows : RowRelation stays_bounded.
Proof. split; [apply bounded_same|..]; intros s1 s2 s3 H1 H2 H; [apply H2, (bounded_same _ _ H1), H|apply (bounded_same _ _ H2), H1, H]. Qed.

(** ** The quarantine *)

Lemma omap_perm {A B} (f : A -> option B) l l' : l ≡ₚ l' -> omap f l ≡ₚ omap f l'.
Proof.
  induction 1; cbn.
  - done.
  - destruct (f x); [by constructor|done].
  - destruct (f x), (f y); try done. apply Permutation_swap.
  - by etrans.
Qed.

Lemma omap_shorter {A B} (f : A -> option B) l : (length (omap f l) <= length l)%nat.
Proof. induction l as [|x l IH]; cbn; [done|]. destruct (f x); cbn; lia. Qed.

Lemma trim_conflicts_bound rows : blen (trim_conflicts rows) <= MESSAGE_CONFLICT_QUARANTINE_LIMIT.
Proof.
  unfold trim_conflicts. set (L := imap pair rows). set (n := Z.to_nat MESSAGE_CONFLICT_QUARANTINE_LIMIT). set (M := merge_sort conflict_le L).
  set (f := fun ir : nat * conflict_row => if decide (ir.1 ∈ (drop n M).*1) then None else Some ir.2).
  unfold blen. rewrite (omap_perm f L M) by (symmetry; apply merge_sort_Permutation).
  rewrite <- (take_drop n M) at 1. rewrite omap_app, (omap_none f (drop n M)), app_nil_r.
  - pose proof (omap_shorter f (take n M)) as H. rewrite length_take in H. unfold n, MESSAGE_CONFLICT_QUARANTINE_LIMIT in *. lia.
  - intros [i r] Hx. unfold f. cbn [fst]. rewrite decide_True; [done|]. apply list_elem_of_fmap. by exists (i, r).
Qed.

Section persist.
Context `{C : Crypto} `{S : SealCrypto} `{B : Base64} `{J : CardJson}.

(** The row a body is filed as. *)
Definition row_of (chat sender device id : bytes) (b : ExtendedMessageBody) : message_row :=
  let m := body b in mk_mrow (Some id) chat sender device (to_i64 (lamport m)) (timestamp m) (kind m) (content m).

(** A row that is a body's, on one of its sender's streams in a chat. *)
Definition files (chat sender : bytes) (b : ExtendedMessageBody) (m : message_row) : Prop :=
  exists device id, m = row_of chat sender device id b.

(** The fields the insert checks. *)
Definition insertable (b : ExtendedMessageBody) (commit : CoreInboundCommit) (arrival : MessageArrival) : bool :=
  (blen (cm_msg_id commit) =? MESSAGE_ID_LEN) && from_option (fun id => blen id =? MESSAGE_ID_LEN) true (reply_to_msg_id b)
  && (ma_transport arrival <=? 4) && (lamport (body b) <=? I64_MAX).

Lemma stream_id_idem s chat sender d : core_device_stream_id (Some (bounded_device_stream s chat sender d)) = bounded_device_stream s chat sender d.
Proof.
  assert (blen LEGACY_DEVICE_ID =? DEVICE_ID_LEN = true) as Hl by reflexivity.
  assert (blen (core_device_stream_id d) =? DEVICE_ID_LEN = true) as Hc.
  { unfold core_device_stream_id. destruct d as [i|]; [|done]. by destruct (blen i =? DEVICE_ID_LEN) eqn:E. }
  assert (forall i, blen i =? DEVICE_ID_LEN = true -> core_device_stream_id (Some i) = i) as H by (intros i Hi; cbn; by rewrite Hi).
  apply H. unfold bounded_device_stream. by repeat (case_decide || case_match).
Qed.

(** Filing a body: one insert at its position. *)
Lemma persist_spec sender chat b commit arrival s :
  let device := bounded_device_stream s chat sender (sender_device_id b) in
  let row := row_of chat sender device (cm_msg_id commit) b in
  let '(s', r) := persist_inbound sender chat b commit arrival s in
  if insertable b commit arrival then
    match List.find (at_position row) (ms_messages s) with
    | None => ms_messages s' = ms_messages s ++ [row] /\ e_conflicts (ms_engine s') = e_conflicts (ms_engine s) /\ r = Ok tt
    | Some old =>
        if same_body row old
        then ms_messages s' = fill_msg_id row <$> ms_messages s /\ e_conflicts (ms_engine s') = e_conflicts (ms_engine s) /\ r = Ok tt
        else ms_messages s' = ms_messages s /\ quarantine_ok s' /\ r = Err (Store "message stream conflict was quarantined")
    end
  else same_rows s s' /\ exists err, r = Err err.
Proof.
  cbv zeta. unfold persist_inbound, insert_incoming_message_from_device. change ((reads ?f ≫= ?k) s) with (k (f s) s). cbv beta zeta.
  rewrite stream_id_idem. set (device := bounded_device_stream _ _ _ _).
  unfold insertable, mbind, action_bind, checks, validate_msg_id, validate_message_arrival, ensure, on_engine, insert_incoming, row_of.
  unfold validate_stored_message, validate_sqlite_u64, validate_message_arrival, ensure.
  cbn [sm_chat_id sm_sender_user_id sm_lamport sm_timestamp sm_kind sm_payload].
  destruct (blen (cm_msg_id commit) =? MESSAGE_ID_LEN); cbn [andb]; [|by split; [|eauto]].
  destruct (reply_to_msg_id b) as [id|]; cbn [from_option andb]; [destruct (blen id =? MESSAGE_ID_LEN); cbn [andb]; [|by split; [|eauto]]|].
  all: destruct (ma_transport arrival <=? 4); cbn [andb]; [|by split; [|eauto]].
  all: rewrite Z.leb_antisym; destruct (I64_MAX <? lamport (body b)); cbn [negb mbind result_bind]; [by split; [|eauto]|].
  all: destruct (List.find _ _) as [old|]; [|done]; destruct (same_body _ old); [done|].
  all: split_and!; [done|apply trim_conflicts_bound|done].
Qed.

Lemma fill_filled row m id : mr_msg_id row = Some id -> filled m (fill_msg_id row m).
Proof.
  intros Hid. unfold filled, fill_msg_id. case_match; [|by left]. rewrite Hid.
  destruct m as [[i|] c se d l t k p]; cbn; [by left|right; split; [done|]]. by exists id.
Qed.

Lemma fill_all_filled row id l : mr_msg_id row = Some id -> Forall2 filled l (fill_msg_id row <$> l).
Proof.
  intros Hid. apply Forall2_fmap_r, Forall2_same_length_lookup_2; [done|]. intros i x y Hx Hy. replace y with x by congruence.
  by eapply fill_filled.
Qed.

Lemma persist_grows sender chat b commit arrival : via (grown (files chat sender b)) (persist_inbound sender chat b commit arrival).
Proof.
  intros s. pose proof (persist_spec sender chat b commit arrival s) as H. cbv zeta in H.
  destruct (persist_inbound _ _ _ _ _ s) as [s' r]. cbn [fst]. destruct (insertable b commit arrival); [|by apply rows_same, H].
  destruct (List.find _ _) as [old|]; [destruct (same_body _ old)|]; destruct H as (Hm & _); unfold grown; rewrite Hm.
  - eexists _, []. rewrite app_nil_r. split_and!; [reflexivity|by eapply fill_all_filled|by left].
  - eexists _, []. rewrite app_nil_r. split_and!; [reflexivity|apply filled_refl|by left].
  - eexists _, [_]. split_and!; [reflexivity|apply filled_refl|]. right. eexists. split; [reflexivity|]. by eexists _, _.
Qed.

(** ** Redelivery *)

Lemma find_filled (P : message_row -> bool) l l' x :
  (forall m m', filled m m' -> P m' = P m) -> Forall2 filled l l' -> List.find P l = Some x ->
  exists x', List.find P l' = Some x' /\ filled x x'.
Proof.
  intros HP Hf. induction Hf as [|m m' l l' Hm Hf IH]; cbn [List.find]; [done|]. rewrite (HP m m' Hm).
  destruct (P m); [intros [= <-]; by exists m'|done].
Qed.

Lemma filled_position row m m' : filled m m' -> at_position row m' = at_position row m.
Proof. by intros [->|[_ [id ->]]]. Qed.

Lemma filled_body row m m' : filled m m' -> same_body row m' = same_body row m.
Proof. by intros [->|[_ [id ->]]]. Qed.

Lemma find_app_some {A} (P : A -> bool) l1 l2 x : List.find P l1 = Some x -> List.find P (l1 ++ l2) = Some x.
Proof. induction l1 as [|y l1 IH]; cbn; [done|]. by destruct (P y). Qed.

Lemma find_snoc {A} (P : A -> bool) l x : List.find P l = None -> P x = true -> List.find P (l ++ [x]) = Some x.
Proof. induction l as [|y l IH]; cbn; [by intros _ ->|]. by destruct (P y). Qed.

Lemma at_position_self row : at_position row row = true.
Proof. unfold at_position. by rewrite !bool_decide_eq_true_2, Z.eqb_refl by done. Qed.

Lemma same_body_self row : same_body row row = true.
Proof. unfold same_body. by rewrite !Z.eqb_refl, bool_decide_eq_true_2 by done. Qed.

(** The row a body was filed as is found at its position. *)
Lemma persisted_at sender chat b commit arrival s s' :
  persist_inbound sender chat b commit arrival s = (s', Ok tt) ->
  let row id := row_of chat sender (bounded_device_stream s chat sender (sender_device_id b)) id b in
  exists m, List.find (at_position (row (cm_msg_id commit))) (ms_messages s') = Some m /\ same_body (row (cm_msg_id commit)) m = true
    /\ at_position (row (cm_msg_id commit)) m = true.
Proof.
  intros H row. pose proof (persist_spec sender chat b commit arrival s) as Hs. cbv zeta in Hs. rewrite H in Hs.
  destruct (insertable b commit arrival); [|by destruct Hs as (_ & ? & [=])]. fold (row (cm_msg_id commit)) in Hs.
  set (r := row (cm_msg_id commit)) in *. destruct (List.find (at_position r) (ms_messages s)) as [old|] eqn:Hf.
  - pose proof (List.find_some _ _ Hf) as [_ Hp]. destruct (same_body r old) eqn:Hb; destruct Hs as (Hm & _ & [=]). rewrite Hm.
    assert (Forall2 filled (ms_messages s) (fill_msg_id r <$> ms_messages s)) as Hfl by (by eapply fill_all_filled).
    destruct (find_filled (at_position r) _ _ _ (filled_position r) Hfl Hf) as (x' & Hx & Hxx). exists x'. split_and!; [done| |].
    + by rewrite (filled_body _ _ _ Hxx).
    + by rewrite (filled_position _ _ _ Hxx).
  - destruct Hs as (Hm & _). rewrite Hm. exists r. split_and!; [|apply same_body_self|apply at_position_self].
    apply find_snoc; [done|apply at_position_self].
Qed.

(** ** Device streams *)

Lemma stream_ids_elem s chat sender x :
  x ∈ message_stream_device_ids s chat sender <-> exists m, m ∈ ms_messages s /\ mr_chat_id m = chat /\ mr_sender m = sender /\ mr_device m = x.
Proof.
  unfold message_stream_device_ids. rewrite elem_of_dedup, merge_sort_Permutation, list_elem_of_fmap. split.
  - intros (m & -> & [[Hc Hs] Hm]%list_elem_of_filter). by exists m.
  - intros (m & Hm & Hc & Hs & <-). exists m. split; [done|]. by apply list_elem_of_filter.
Qed.

Lemma stream_ids_nodup s chat sender : NoDup (message_stream_device_ids s chat sender).
Proof.
  unfold message_stream_device_ids.
  match goal with |- NoDup (dedup ?l) => assert (StronglySorted (fun x y => bytes_le x y /\ x <> y) (dedup l)) as H end.
  { apply dedup_sorted, StronglySorted_merge_sort; apply _. }
  induction H as [|x l Hl IH Hx]; constructor; [|done]. intros Hin. rewrite Forall_forall in Hx. by destruct (Hx x Hin).
Qed.

Lemma stream_count_le s s' chat sender extra :
  (forall x, x <> LEGACY_DEVICE_ID -> x ∈ message_stream_device_ids s' chat sender -> x ∈ extra ++ message_stream_device_ids s chat sender) ->
  blen (filter (fun id => id <> LEGACY_DEVICE_ID) (message_stream_device_ids s' chat sender))
  <= blen extra + blen (filter (fun id => id <> LEGACY_DEVICE_ID) (message_stream_device_ids s chat sender)).
Proof.
  intros H. unfold blen. rewrite <- Nat2Z.inj_add, <- length_app. apply inj_le, submseteq_length, NoDup_submseteq.
  - apply NoDup_filter, stream_ids_nodup.
  - intros x [Hx Hin]%list_elem_of_filter. specialize (H x Hx Hin). rewrite elem_of_app in *. destruct H; [by left|right].
    by apply list_elem_of_filter.
Qed.

Lemma persist_bounds sender chat b commit arrival : via stays_bounded (persist_inbound sender chat b commit arrival).
Proof.
  intros s. pose proof (persist_spec sender chat b commit arrival s) as H. cbv zeta in H.
  destruct (persist_inbound _ _ _ _ _ s) as [s' r]. cbn [fst]. destruct (insertable b commit arrival); [|by apply rows_same, H].
  intros [Hs Hq]. destruct (List.find _ _) as [old|]; [destruct (same_body _ old)|]; destruct H as (Hm & Hc & _).
  - split; [|unfold quarantine_ok; by rewrite Hc]. intros c u. etrans; [|apply (Hs c u)]. apply (stream_count_le s s' c u []).
    intros x _ (m' & Hin & <- & <- & <-)%stream_ids_elem. rewrite Hm in Hin. apply list_elem_of_fmap in Hin as (m & -> & Hin).
    apply stream_ids_elem. exists m. unfold fill_msg_id. by case_match.
  - split; [|done]. intros c u. unfold message_stream_device_ids. rewrite Hm. apply Hs.
  - split; [|unfold quarantine_ok; by rewrite Hc]. intros c u. set (device := bounded_device_stream _ _ _ _) in *.
    destruct (decide (device <> LEGACY_DEVICE_ID /\ device ∉ message_stream_device_ids s chat sender /\ c = chat /\ u = sender))
      as [(Hl & Hnew & -> & ->)|Hold].
    + etrans; [apply (stream_count_le s s' chat sender [device])|].
      * intros x _ (m & Hin & Hmc & Hms & <-)%stream_ids_elem. rewrite Hm in Hin. apply elem_of_app in Hin as [Hin|Hin%list_elem_of_singleton].
        -- apply elem_of_app. right. apply stream_ids_elem. by exists m.
        -- subst m. apply elem_of_app. left. by apply list_elem_of_singleton.
      * unfold device, bounded_device_stream in *. repeat case_decide; try done. case_match; [done|]. bools. rewrite blen_cons, blen_nil. lia.
    + etrans; [|apply (Hs c u)]. apply (stream_count_le s s' c u []).
      intros x Hx (m & Hin & Hmc & Hms & <-)%stream_ids_elem. rewrite Hm in Hin. apply elem_of_app in Hin as [Hin|Hin%list_elem_of_singleton].
      * apply stream_ids_elem. by exists m.
      * subst m. cbn in Hmc, Hms, Hx |- *. subst c u. destruct (decide (device ∈ message_stream_device_ids s chat sender)); [done|].
        by destruct Hold.
Qed.

(** A body filed once is filed.  After a body was filed, a copy of it - under whatever message id, over
    whatever transport, after whatever else was filed meanwhile - adds no row and quarantines nothing,
    and is reported as filed; so a delivery that was not committed can be repeated.  (The sender is
    within its device streams, so that the body names its own.) *)
Theorem redelivered_body_is_duplicate sender chat b commit arrival s s' commit2 arrival2 s1 old more :
  persist_inbound sender chat b commit arrival s = (s', Ok tt) ->
  bounded_device_stream s chat sender (sender_device_id b) = core_device_stream_id (sender_device_id b) ->
  ms_messages s1 = old ++ more -> Forall2 filled (ms_messages s') old -> insertable b commit2 arrival2 = true ->
  let '(s2, r) := persist_inbound sender chat b commit2 arrival2 s1 in
  r = Ok tt /\ Forall2 filled (ms_messages s1) (ms_messages s2) /\ e_conflicts (ms_engine s2) = e_conflicts (ms_engine s1).
Proof.
  intros H Hdev Hm1 Hold Hi. destruct (persisted_at _ _ _ _ _ _ _ H) as (m & Hfind & Hbody & Hpos). rewrite Hdev in Hfind, Hbody, Hpos.
  set (stream := core_device_stream_id (sender_device_id b)) in *.
  destruct (find_filled _ _ _ _ (filled_position _) Hold Hfind) as (m' & Hfind' & Hmm).
  assert (bounded_device_stream s1 chat sender (sender_device_id b) = stream) as Hstream.
  { unfold bounded_device_stream. fold stream. case_decide as Hl; [done|]. rewrite decide_True; [done|]. apply stream_ids_elem. exists m'.
    pose proof (List.find_some _ _ Hfind') as [Hin Hp]. unfold at_position in Hp. bools. split_and!; [|done..].
    rewrite Hm1. apply elem_of_app. left. by apply list_elem_of_In. }
  pose proof (persist_spec sender chat b commit2 arrival2 s1) as Hs. cbv zeta in Hs. rewrite Hstream, Hi, Hm1 in Hs.
  destruct (persist_inbound sender chat b commit2 arrival2 s1) as [s2 r].
  change (at_position (row_of chat sender stream (cm_msg_id commit2) b)) with (at_position (row_of chat sender stream (cm_msg_id commit) b)) in Hs.
  rewrite (find_app_some _ _ _ _ Hfind') in Hs.
  change (same_body (row_of chat sender stream (cm_msg_id commit2) b)) with (same_body (row_of chat sender stream (cm_msg_id commit) b)) in Hs.
  rewrite (filled_body _ _ _ Hmm), Hbody in Hs. destruct Hs as (Hm2 & Hc & ->). split_and!; [done| |done]. rewrite Hm2, Hm1.
  by eapply fill_all_filled.
Qed.
End persist.

(** * Delivering *)

Section deliveries.
Context `{C : Crypto} `{S : SealCrypto} `{B : Base64} `{J : CardJson}.

(** One call of [core_deliver_inbound]. *)
Record delivery_call : Type := mk_call {
  dc_identity : Identity;
  dc_sender : bytes;
  dc_payload : bytes;
  dc_commit : CoreInboundCommit;
  dc_arrival : MessageArrival;
  dc_discovery : CoreDiscoveryPolicyState;
  dc_rnd : draw;
}.

Definition deliver (c : delivery_call) : action CoreError CoreInboundDelivery :=
  core_deliver_inbound (dc_identity c) (dc_sender c) (dc_payload c) (dc_commit c) (dc_arrival c) (dc_discovery c) (dc_rnd c).

Lemma deliver_via R c `{HR : RowRelation R} :
  (forall b chat, decode_extended_message_body (dc_payload c) = Ok b -> writable (dc_identity c) (dc_sender c) b (dc_commit c) chat ->
     via R (persist_inbound (dc_sender c) chat b (dc_commit c) (dc_arrival c))) ->
  via R (deliver c).
Proof.
  intros H s. unfold deliver, core_deliver_inbound, deliver_inbound_body.
  destruct (decode_extended_message_body (dc_payload c)) as [b|e] eqn:Hd; [|apply rows_same; done].
  pose proof (deliver_body_via (dc_identity c) (dc_sender c) b (dc_commit c) (dc_arrival c) (dc_discovery c) R
    (fun chat Hw => H b chat eq_refl Hw) (dc_rnd c) s) as Hv.
  destruct (deliver_body _ _ _ _ _ _ _ s) as [s' [x|[k|e]]]; exact Hv.
Qed.

(** C31: a body writes where its sender may write, and history is never rewritten.  Whatever is delivered, and
    whatever comes of it, every row of the message table stays in its place with its author, number,
    time, kind and content (a missing message id may be filled in), and at most one row is added: the
    delivered body, under the sender whose signature was verified - in the sender's own thread, in the
    group whose key opened it, or in a group the body invites to and lists both sides as members of. *)
Theorem delivery_writes_own_thread c s :
  exists old new, ms_messages (deliver c s).1 = old ++ new /\ Forall2 filled (ms_messages s) old
    /\ (new = [] \/ exists m, new = [m] /\ exists b chat, decode_extended_message_body (dc_payload c) = Ok b /\ files chat (dc_sender c) b m
          /\ writable (dc_identity c) (dc_sender c) b (dc_commit c) chat).
Proof.
  revert s. apply (deliver_via (grown (fun m => exists b chat, decode_extended_message_body (dc_payload c) = Ok b
    /\ files chat (dc_sender c) b m /\ writable (dc_identity c) (dc_sender c) b (dc_commit c) chat)) c).
  intros b chat Hd Hw s1. destruct (persist_grows (dc_sender c) chat b (dc_commit c) (dc_arrival c) s1) as (old & new & Hm & Hf & Hn).
    exists old, new. split_and!; [done|done|]. destruct Hn as [->|(m & -> & Hm')]; [by left|right]. exists m. split; [done|]. by exists b, chat.
Qed.

(** What senders can pile up is bounded.  After any deliveries, whatever their senders wrote in them, no
    sender has more than sixteen device streams in any chat (beside the legacy one) and at most
    sixty-four conflicting rows are quarantined, if that held before. *)
Theorem inbound_growth_bounded calls s :
  streams_ok s -> quarantine_ok s ->
  let s' := foldl (fun s c => (deliver c s).1) s calls in streams_ok s' /\ quarantine_ok s'.
Proof.
  revert s. induction calls as [|c calls IH]; intros s Hs Hq; [done|]. cbn [foldl].
  destruct (deliver_via stays_bounded c (fun b chat _ _ => persist_bounds (dc_sender c) chat b (dc_commit c) (dc_arrival c)) s) as [Hs' Hq'];
    [done|]. by apply IH.
Qed.

(** ** Refusals *)

(** An error that describes the bytes comes before anything is written. *)
Definition clean {A} (a : action DeliveryFailure A) : Prop := forall s k, (a s).2 = Err (BodyMalformed k) -> (a s).1 = s.
Definition sure {A} (a : action DeliveryFailure A) : Prop := forall s k, (a s).2 <> Err (BodyMalformed k).

Lemma sure_bind {A D} (a : action DeliveryFailure A) (f : A -> action DeliveryFailure D) : sure a -> (forall x, sure (f x)) -> sure (a ≫= f).
Proof.
  intros Ha Hf s k. unfold mbind, action_bind. specialize (Ha s). destruct (a s) as [s1 [x|e]]; [apply Hf|]. cbn in *. naive_solver.
Qed.

Lemma clean_bind {A D} (a : action DeliveryFailure A) (f : A -> action DeliveryFailure D) :
  clean a -> (forall x, sure (f x)) -> clean (a ≫= f).
Proof.
  intros Ha Hf s k. unfold mbind, action_bind. specialize (Ha s). destruct (a s) as [s1 [x|e]]; [|cbn in *; naive_solver].
  intros H. by destruct (Hf x s1 k).
Qed.

Lemma clean_checks {A D} (r : result DeliveryFailure A) (f : A -> action DeliveryFailure D) :
  (forall x, clean (f x)) -> clean (checks r ≫= f).
Proof. intros Hf s k. unfold mbind, action_bind, checks. destruct r; [apply Hf|done]. Qed.

Lemma clean_sure {A} (a : action DeliveryFailure A) : sure a -> clean a.
Proof. intros H s k Hk. by destruct (H s k). Qed.

Lemma sure_durably {A} (a : action CoreError A) : sure (durably a).
Proof. intros s k. unfold durably, map_err. by destruct (a s) as [s1 [x|e]]. Qed.

Lemma sure_mret {A} (x : A) : sure (mret x).
Proof. by intros s k. Qed.

Lemma sure_reads {A} (f : mesh_store -> A) : sure (reads f).
Proof. by intros s k. Qed.

Lemma sure_best_effort {E A} (a : action E A) : sure (best_effort a).
Proof. by intros s k. Qed.

Lemma friend_request_atomic i u content d t s e : (apply_friend_request i u content d t s).2 = Err e -> (apply_friend_request i u content d t s).1 = s.
Proof.
  unfold apply_friend_request, hold_shared_friend_request, best_effort, mbind, action_bind, checks, reads, upsert_imported_contact,
    upsert_pending_shared_request, writes, mret, action_ret. by repeat case_match; simplify_eq/=.
Qed.

Create HintDb verdicts discriminated.
#[local] Hint Resolve sure_bind sure_durably sure_mret sure_reads sure_best_effort clean_sure : verdicts.

Lemma handle_kind_clean i u b cm ar di pw : clean (handle_kind i u b cm ar di pw).
Proof.
  unfold handle_kind. repeat match goal with |- clean (if ?c then _ else _) => destruct c eqn:? end;
    unfold handle_friend_request, handle_receipt, handle_lan_hint, handle_relay_update, handle_roster_gossip, handle_profile_sync, handle_group_invite,
      decodes; repeat (apply clean_checks; intros ?); try (apply clean_sure; eauto 10 with verdicts; fail).
  - apply clean_bind; [|eauto with verdicts]. intros s k. unfold map_err.
    pose proof (friend_request_atomic i u (content (body b)) di (ma_received_at ar) s) as H.
    destruct (apply_friend_request _ _ _ _ _ s) as [s' [x|e]]; [done|]. intros _. by apply (H e).
  - apply clean_sure. apply sure_bind; [eauto with verdicts|]. intros ?. apply sure_bind; [eauto with verdicts|]. intros [c|]; [|eauto with verdicts].
    repeat (apply sure_bind; [try case_decide; by eauto with verdicts|intros ?]). eauto with verdicts.
Qed.

Lemma gate_some i u b cm s v : gate i u b cm s = Some v -> v <> DeliveryApplied.
Proof. unfold gate. repeat case_match; by intros [= <-]. Qed.

Lemma gate_none i u b cm s : gate i u b cm s = None ->
  signer_device_revoked s u (id_user_id i) (sender_device_id b) = false
  /\ match cm_group_id cm with
     | Some group => chat_id (body b) = group
     | None => chat_id (body b) = u /\ (is_Some (get_contact s u) \/ u = id_user_id i
                 \/ kind (body b) = KIND_FRIEND_REQUEST \/ kind (body b) = KIND_INTRODUCED_FRIEND_REQUEST)
     end.
Proof.
  unfold gate. destruct (signer_device_revoked _ _ _ _); [done|]. destruct (cm_group_id cm); [by case_decide|].
  destruct (decide (chat_id (body b) = u)) as [Hc|]; [|done]. destruct (core_pairwise_sender_authorized _ _ _) eqn:Ha; [|done].
  intros _. split_and!; [done|done|]. unfold core_pairwise_sender_authorized in Ha.
  destruct (core_is_sync_record_kind _); [apply bool_decide_eq_true in Ha; auto|]. apply andb_true_iff in Ha as [_ Ha].
  cbn [existsb] in Ha. rewrite orb_false_r, !orb_true_iff, !bool_decide_eq_true, !Z.eqb_eq in Ha. naive_solver.
Qed.

Lemma deliver_body_result i u b cm ar di rnd s :
  match deliver_body i u b cm ar di rnd s with
  | (s', Ok d) => (dl_verdict d = DeliveryApplied /\ gate i u b cm s = None) \/ (dl_verdict d <> DeliveryApplied /\ s' = s /\ dl_persisted d = false)
  | (s', Err (BodyMalformed _)) => s' = s
  | (_, Err (Durability _)) => True
  end.
Proof.
  unfold deliver_body. change ((reads ?f ≫= ?k) s) with (k (f s) s). cbv beta.
  destruct (gate i u b cm s) as [v|] eqn:Hg; [right; by split_and!; [eapply gate_some|..]|].
  match goal with |- match ?a s with _ => _ end => assert (clean a) as Hc; [|set (act := a) in *] end.
  { apply clean_bind; [apply handle_kind_clean|]. intros h. apply sure_bind; [|eauto with verdicts]. case_match; [|eauto with verdicts].
    unfold acknowledge. apply sure_bind; [eauto with verdicts|]. intros [?|]; eauto with verdicts. }
  destruct (act s) as [s' [d|[k|e]]] eqn:Ha; [|by specialize (Hc s k); rewrite Ha in Hc; apply Hc|done].
  left. subst act. act_inv. done.
Qed.

(** C33: a verdict is the whole story.  A body that is refused - its device revoked, its thread not its
    sender's, its sender a stranger, its content malformed - leaves the store exactly as it was.  A body
    that is applied passed every gate: its signer's device is not buried in the roster this device holds,
    a group body names the group whose key opened it, and a one-to-one body is in its sender's own thread
    and comes from a contact, from this person, or asks for friendship. *)
Theorem delivery_verdicts c s d :
  (deliver c s).2 = Ok d ->
  if decide (dl_verdict d = DeliveryApplied) then
    exists b, decode_extended_message_body (dc_payload c) = Ok b
      /\ signer_device_revoked s (dc_sender c) (id_user_id (dc_identity c)) (sender_device_id b) = false
      /\ match cm_group_id (dc_commit c) with
         | Some group => chat_id (body b) = group
         | None =>
             chat_id (body b) = dc_sender c
             /\ (is_Some (get_contact s (dc_sender c)) \/ dc_sender c = id_user_id (dc_identity c)
                 \/ kind (body b) = KIND_FRIEND_REQUEST \/ kind (body b) = KIND_INTRODUCED_FRIEND_REQUEST)
         end
  else (deliver c s).1 = s /\ dl_persisted d = false.
Proof.
  unfold deliver, core_deliver_inbound, deliver_inbound_body.
  destruct (decode_extended_message_body (dc_payload c)) as [b|e]; [|by intros [= <-]].
  pose proof (deliver_body_result (dc_identity c) (dc_sender c) b (dc_commit c) (dc_arrival c) (dc_discovery c) (dc_rnd c) s) as H.
  destruct (deliver_body _ _ _ _ _ _ _ s) as [s' [x|[k|e]]]; cbn [fst snd]; [| |done].
  - intros [= ->]. destruct H as [[Ha Hg]|[Ha Hs]]; case_decide; try done. exists b. split; [done|]. by apply gate_none.
  - intros [= <-]. by subst s'.
Qed.

(** * From the author to the reader's thread *)

(** The thread a one-to-one body is filed in: its author's - an invite's is the group's. *)
Definition thread_of (sender : bytes) (kind : Z) (payload : bytes) : bytes :=
  if kind =? KIND_GROUP_INVITE
  then match decode_group_invite_content payload with Ok g => group_id g | Err _ => sender end else sender.

(** The content makes sense to the reader's handler of its kind.  A text, a directory, an introduced request, a manifest
    and a reaction are filed unread. *)
Definition understood (s : mesh_store) (reader : Identity) (sender : bytes) (kind : Z) (payload : bytes) (discovery : CoreDiscoveryPolicyState)
  (now : Z) : Prop :=
  if kind =? KIND_FRIEND_REQUEST then
    utf8_valid payload = true /\ exists q, parse_friend_request_content payload = Ok q /\ friend_card_user_id (fq_card q) = sender
      /\ forall shared sharer, fq_shared q = Some shared -> get_contact s (sh_sharer_user_id shared) = Some sharer -> exists valid,
           verify_shared_friend_card shared (ct_sign_pk sharer) (id_user_id reader) (ds_revision discovery) now = Ok valid
  else if kind =? KIND_LAN_ENDPOINT_HINT then exists endpoint, decode_lan_endpoint_content payload = Ok endpoint
  else if kind =? KIND_RELAY_UPDATE then exists update, decode_relay_update_content payload = Ok update
  else if kind =? KIND_ROSTER_GOSSIP then exists roster, core_decode_roster payload = Ok roster /\ person_id roster = sender
  else if kind =? KIND_PROFILE_SYNC then exists profile, decode_profile_sync_content payload = Ok profile
  else if kind =? KIND_GROUP_INVITE then
    exists g, decode_group_invite_content payload = Ok g /\ sender ∈ member_user_ids g /\ id_user_id reader ∈ member_user_ids g
  else True.

(** The author's side: a message that was authored, its seal's inputs of their lengths. *)
Record authored_ok (d d' : authoring_db) (author : Identity) (contact : Contact) (agree_sk : bytes) (kind : Z) (payload : bytes)
  (reply : option bytes) (now : Z) (rnd : draw) (a : AuthoredEnvelope) : Prop := {
  au_authored : author_pairwise_message d author contact kind payload reply now rnd = (d', Ok a);
  au_identity : identity_ok author;
  au_id : id_user_id author = derive_user_id (id_sign_pk author);
  au_key : ct_agree_pk contact = x25519_public agree_sk;
  au_key_len : blen agree_sk = 32;
  au_msg_id : blen (dr_msg_id rnd) = MSG_ID_LEN;
  au_nonce : blen (dr_nonce rnd) = NONCE_LEN;
  au_now : in_i64 now;
  au_times : times_ok d;
  au_payload : blen payload <= MAX_ENVELOPE_SEALED_BYTES;
  au_sealed : blen (oe_sealed (ae_envelope a)) <= MAX_ENVELOPE_SEALED_BYTES;
}.

(** The reader's side: the envelope is new and live, its author a contact or this person - a
    friend request comes from anybody - and neither blocked nor writing from a buried device. *)
Record reads_mail_of (s : mesh_store) (seen : Inner) (reader : Identity) (device : option bytes) (msg_id sender : bytes) (kind expiry now : Z) : Prop := {
  rm_new : contains seen msg_id = false;
  rm_live : now < expiry;
  rm_window : expiry <= i64_saturating_add now MAX_CARRY_FUTURE_MS;
  rm_known : is_Some (get_contact s sender) \/ sender = id_user_id reader \/ kind = KIND_FRIEND_REQUEST \/ kind = KIND_INTRODUCED_FRIEND_REQUEST;
  rm_unblocked : is_user_blocked s sender = false;
  rm_device : signer_device_revoked s sender (id_user_id reader) device = false;
}.

Lemma gate_open i u b cm s :
  signer_device_revoked s u (id_user_id i) (sender_device_id b) = false -> cm_group_id cm = None -> chat_id (body b) = u ->
  (is_Some (get_contact s u) \/ u = id_user_id i \/ kind (body b) = KIND_FRIEND_REQUEST \/ kind (body b) = KIND_INTRODUCED_FRIEND_REQUEST) ->
  is_pairwise_kind (kind (body b)) = true -> gate i u b cm s = None.
Proof.
  intros Hd Hg Hc Hu Hk. unfold gate. rewrite Hd, Hg, decide_True by done.
  assert (core_pairwise_sender_authorized (kind (body b)) (bool_decide (is_Some (get_contact s u))) (bool_decide (u = id_user_id i)) = true) as ->; [|done].
  destruct Hu as [Hu|[Hu|Hu]]; [rewrite (bool_decide_eq_true_2 _ Hu)|rewrite (bool_decide_eq_true_2 _ Hu)|
    by destruct Hu as [Hu|Hu]; rewrite Hu; unfold core_pairwise_sender_authorized; cbn; rewrite !orb_true_r].
  all: unfold is_pairwise_kind in Hk; apply existsb_exists in Hk as (k & Hk & Ek%Z.eqb_eq); rewrite Ek.
  all: repeat (destruct Hk as [<-|Hk]; [by destruct (bool_decide _)|]); done.
Qed.

(** ** Filing *)

(** What comes after the row is written leaves it there. *)
Lemma rows_tail {A D} (h : action DeliveryFailure A) (k : A -> action DeliveryFailure D) s :
  (forall x, via same_rows (k x)) -> ms_messages ((h ≫= k) s).1 = ms_messages (h s).1.
Proof. intros Hk. unfold mbind, action_bind. destruct (h s) as [s1 [x|e]]; [|done]. apply (Hk x s1). Qed.

(** The call adds [row]. *)
Definition adds {A} (row : message_row) (a : action DeliveryFailure A) (s : mesh_store) : Prop := ms_messages (a s).1 = ms_messages s ++ [row].

(** What comes before it, too, when it succeeds. *)
Lemma adds_after {E A D} row (m : action E A) (g : E -> DeliveryFailure) (f : A -> action DeliveryFailure D) s s1 x :
  m s = (s1, Ok x) -> same_rows s s1 -> adds row (f x) s1 -> adds row (map_err g m ≫= f) s.
Proof. intros Hm [Hr _]. unfold adds, mbind, action_bind, map_err. rewrite Hm. by rewrite Hr. Qed.

Section filing.
Context (i : Identity) (u : bytes) (b : ExtendedMessageBody) (cm : CoreInboundCommit) (ar : MessageArrival) (di : CoreDiscoveryPolicyState).

Definition filed_row (s : mesh_store) (chat : bytes) : message_row :=
  row_of chat u (bounded_device_stream s chat u (sender_device_id b)) (cm_msg_id cm) b.

Lemma filed_row_same s s1 chat : same_rows s s1 -> filed_row s1 chat = filed_row s chat.
Proof. intros [Hm _]. unfold filed_row, bounded_device_stream, message_stream_device_ids. by rewrite Hm. Qed.

Lemma adds_persist {D} chat (k : unit -> action DeliveryFailure D) s :
  insertable b cm ar = true -> List.find (at_position (filed_row s chat)) (ms_messages s) = None -> (forall x, via same_rows (k x)) ->
  adds (filed_row s chat) (durably (persist_inbound u chat b cm ar) ≫= k) s.
Proof.
  intros Hi Hf Hk. unfold adds. rewrite rows_tail by done. unfold durably, map_err.
  pose proof (persist_spec u chat b cm ar s) as Hs. cbv zeta in Hs. fold (filed_row s chat) in Hs. rewrite Hi, Hf in Hs.
  destruct (persist_inbound _ _ _ _ _ s) as [s1 r]. apply Hs.
Qed.

(** The same, after a call that left the rows alone. *)
Lemma adds_persist_after {D} chat (k : unit -> action DeliveryFailure D) s s1 :
  same_rows s s1 -> insertable b cm ar = true -> List.find (at_position (filed_row s chat)) (ms_messages s) = None -> (forall x, via same_rows (k x)) ->
  adds (filed_row s chat) (durably (persist_inbound u chat b cm ar) ≫= k) s1.
Proof.
  intros Hs Hi Hf Hk. rewrite <- (filed_row_same s s1 chat Hs) in *. apply adds_persist; [done| |done]. by destruct Hs as [-> _].
Qed.

Lemma friend_request_succeeds s :
  utf8_valid (content (body b)) = true -> (exists q, parse_friend_request_content (content (body b)) = Ok q /\ friend_card_user_id (fq_card q) = u
      /\ forall shared sharer, fq_shared q = Some shared -> get_contact s (sh_sharer_user_id shared) = Some sharer -> exists valid,
           verify_shared_friend_card shared (ct_sign_pk sharer) (id_user_id i) (ds_revision di) (ma_received_at ar) = Ok valid) ->
  (apply_friend_request i u (content (body b)) di (ma_received_at ar) s).2 = Ok tt.
Proof.
  intros Hu (q & Hq & Hc & Hsh). unfold apply_friend_request, mbind, action_bind, checks. rewrite Hu, Hq. cbn [ensure].
  rewrite bool_decide_eq_true_2 by done. cbn [ensure]. destruct (fq_shared q) as [shared|] eqn:Es; [|done].
  unfold hold_shared_friend_request, mbind, action_bind, reads, checks.
  destruct (get_contact s (sh_sharer_user_id shared)) as [sharer|] eqn:Ec; [|done]. destruct (Hsh shared sharer) as [valid Hv]; [done..|].
  match goal with |- context [if ?c then _ else _] => destruct c end; [done|]. rewrite Hv. by repeat case_match.
Qed.

(** Every kind a device may write to one person files its row. *)
Lemma understood_is_filed s :
  is_pairwise_kind (kind (body b)) = true -> understood s i u (kind (body b)) (content (body b)) di (ma_received_at ar) -> chat_id (body b) = u ->
  insertable b cm ar = true ->
  let row := filed_row s (thread_of u (kind (body b)) (content (body b))) in
  List.find (at_position row) (ms_messages s) = None -> adds row (handle_kind i u b cm ar di true) s.
Proof.
  intros Hk Hun Hch Hi. unfold handle_kind, understood, thread_of in *. rewrite !andb_true_r.
  destruct (Z.eqb_spec (kind (body b)) KIND_FRIEND_REQUEST) as [->|_].
  { cbn zeta. intros Hf. destruct Hun as [Hu Hq]. pose proof (friend_request_succeeds s Hu Hq) as Ha.
    pose proof (still_friend_request i u (content (body b)) di (ma_received_at ar) s) as Hst.
    destruct (apply_friend_request i u (content (body b)) di (ma_received_at ar) s) as [s1 r] eqn:E. cbn in Ha, Hst. subst r.
    unfold handle_friend_request. eapply adds_after; [exact E|exact Hst|]. rewrite Hch. by apply adds_persist_after. }
  destruct (Z.eqb_spec (kind (body b)) KIND_RECEIPT) as [He|_]; [by rewrite He in Hk|].
  destruct (Z.eqb_spec (kind (body b)) KIND_LAN_ENDPOINT_HINT) as [->|_].
  { cbn zeta. intros Hf. destruct Hun as [e He]. unfold handle_lan_hint, decodes. rewrite He, Hch. by apply adds_persist. }
  destruct (Z.eqb_spec (kind (body b)) KIND_RELAY_UPDATE) as [->|_].
  { cbn zeta. intros Hf. destruct Hun as [e He]. unfold handle_relay_update, decodes. rewrite He, Hch. apply adds_persist; [done..|].
    intros x. apply still_bind; [auto with rows|]. intros ?. auto with rows. }
  destruct (Z.eqb_spec (kind (body b)) KIND_ROSTER_GOSSIP) as [->|_].
  { cbn zeta. intros Hf. destruct Hun as (r & Hr & Hp). unfold handle_roster_gossip, decodes. rewrite Hr, Hch.
    change ((checks (Ok ?r) ≫= ?f)) with (f r). cbv beta. rewrite bool_decide_eq_true_2 by done. apply adds_persist; [done..|].
    intros x. apply still_bind; [auto with rows|]. intros ?. auto with rows. }
  destruct (Z.eqb_spec (kind (body b)) KIND_PROFILE_SYNC) as [->|_].
  { cbn zeta. intros Hf. destruct Hun as [e He]. unfold handle_profile_sync, decodes. rewrite He, Hch. apply adds_persist; [done..|].
    intros x. apply still_bind; [auto with rows|]. intros [c|]; [|by auto with rows].
    repeat (apply still_bind; [try case_decide; by auto with rows|intros ?]). auto with rows. }
  destruct (Z.eqb_spec (kind (body b)) KIND_GROUP_INVITE) as [_|_].
  { cbn zeta. destruct Hun as (g & Hg & Hm1 & Hm2). rewrite Hg. intros Hf. unfold handle_group_invite, decodes. rewrite Hg.
    change ((checks (Ok ?r) ≫= ?f)) with (f r). cbv beta. rewrite !bool_decide_eq_true_2 by done. cbn [andb ensure].
    assert (exists s1, upsert_group g s = (s1, Ok tt)) as [s1 E].
    { unfold upsert_group, upsert_group_tx. rewrite (invite_valid _ _ Hg). cbn [mbind result_bind].
      match goal with |- context [if ?c then _ else _] => destruct c end; by eexists. }
    pose proof (still_upsert_group g s) as Hst. rewrite E in Hst.
    eapply (adds_after _ (upsert_group g)); [exact E|exact Hst|]. by apply adds_persist_after. }
  intros Hf. rewrite Hch. by apply adds_persist.
Qed.

(** An applied body is the row it files, whatever becomes of the receipt. *)
Lemma body_filed rnd s :
  gate i u b cm s = None -> cm_group_id cm = None -> is_pairwise_kind (kind (body b)) = true ->
  understood s i u (kind (body b)) (content (body b)) di (ma_received_at ar) -> chat_id (body b) = u -> insertable b cm ar = true ->
  let row := filed_row s (thread_of u (kind (body b)) (content (body b))) in
  List.find (at_position row) (ms_messages s) = None -> adds row (deliver_body i u b cm ar di rnd) s.
Proof.
  intros Hg Hp Hk Hun Hch Hi row Hf. unfold adds, deliver_body. change ((reads ?f ≫= ?k) s) with (k (f s) s). cbv beta. rewrite Hg, Hp.
  rewrite bool_decide_eq_true_2 by done. rewrite rows_tail; [by apply understood_is_filed|]. intros h.
  apply still_bind; [|intros ?; by auto with rows]. case_match; [|by auto with rows].
  unfold acknowledge. apply still_bind; [by auto with rows|]. intros [c|]; auto with rows.
Qed.
End filing.

(** A body is not a sync record: behind its kind stands the length of its thread's id, and
    a sync record has its own kind there. *)
Lemma body_is_no_record p b : decode_extended_message_body p = Ok b -> blen (chat_id (body b)) < 256 ->
  exists e, core_decode_sync_record p = Err e.
Proof.
  intros (c & Hd)%run_inv Hlt. destruct (core_decode_sync_record p) as [r|e] eqn:Hr; [|by exists e]. exfalso.
  apply run_inv in Hr as (c' & Hr). pose proof (cursor_at_new p) as Hc.
  unfold read_message in Hd. apply bind_inv in Hd as (k & c1 & (r1 & E1 & _ & Hc1)%(u8_inv _ _ _ _ Hc) & Hd).
  apply bind_inv in Hd as (chat & c2 & (r2 & E2 & _ & _)%(bytes16_inv _ _ _ _ Hc1) & Hd).
  assert (chat_id (body b) = chat) as Ech by (repeat (apply bind_inv in Hd as (? & ? & _ & Hd)); by injection Hd as <- _). rewrite Ech in Hlt.
  unfold read_sync_record in Hr. apply bind_inv in Hr as (v & c3 & (r3 & E3 & _ & Hc3)%(u8_inv _ _ _ _ Hc) & Hr).
  apply bind_inv in Hr as ([] & c4 & [_ ->]%guard_inv & Hr).
  apply bind_inv in Hr as (w & c5 & (r5 & E5 & _ & _)%(u8_inv _ _ _ _ Hc3) & Hr).
  apply bind_inv in Hr as (sk & c6 & [Hk _]%lift_inv & _). apply option_ok_ok in Hk. apply kind_of_wire in Hk as <-.
  subst p r1 r3. rewrite write_bytes16_eq, !push_u8_eq in E3. cbn [app be_bytes] in E3. injection E3 as _ E3.
  rewrite Z.div_small in E3 by (pose proof (blen_nonneg chat); cbn; lia). destruct sk; vm_compute in E3; discriminate E3.
Qed.

Lemma own_mail_processed clock reader source frame now seen s m hop e h sealed u p b device :
  parse_frame frame = Ok (Envelope m hop e h sealed) -> hop <= DEFAULT_HOP_TTL -> open_message reader sealed = Ok (mk_opened u p) ->
  decode_extended_message_body p = Ok b -> blen (chat_id (body b)) < 256 ->
  reads_mail_of s seen reader device m u (kind (body b)) e now ->
  exists o k, process_inbound_frame clock reader source frame now seen s = (seen, s, Ok o) /\ io_delivered_payloads o = [p]
    /\ io_delivered_sender o = Some u /\ io_commit o = Some (mk_commit m None k h e (id_user_id reader) now).
Proof.
  intros Hp Hhop Hop Hdec Hlt [Hnew Hlive Hwin Hc Hb Hd]. destruct (body_is_no_record p b Hdec Hlt) as [err Hno].
  unfold process_inbound_frame. rewrite Hp, Hnew. unfold core_inbound_gate. cbn [negb].
  rewrite (proj2 (Z.leb_gt e now)) by lia. rewrite (proj2 (Z.ltb_ge DEFAULT_HOP_TTL hop)) by lia.
  rewrite (proj2 (Z.ltb_ge _ e)) by lia. cbn [orb]. unfold dispatch. rewrite Hop. unfold receive_pairwise.
  cbn [om_sender_user_id om_payload]. change ((reads ?f ≫= ?k) s) with (k (f s) s). cbv beta. rewrite Hb.
  unfold consume_sync_record, mbind, action_bind, reads.
  destruct (ms_own_context s); [rewrite Hno|]; cbn [mret action_ret fst snd]; eexists _, _; (split; [reflexivity|]; by split_and!).
Qed.

(** C2: what is authored is read.  Whatever kind a device writes to one person - a text, a friend request, a
    group invite, a profile, a directory, an introduced request, an endpoint hint, a relay update, a roster,
    a manifest, a reaction - its frame, when it reaches that person's phone, linked or not - new, live, the author known
    there (anybody, for a friend request) and neither blocked nor writing from a buried device - is handed over
    as the author's; and delivering what was handed over files exactly the message that was authored: its number,
    time, kind and content, under the envelope's message id - whatever becomes of the receipt that follows.
    It is filed in the author's thread, an invite in its group's ([thread_of]).  The content has to make sense to the
    reader's handler of its kind ([understood]), and the position the message is numbered at has to be free in that
    thread: at a position that is held the same body is a repeat, and another one is quarantined. *)
Theorem authored_mail_is_filed `{!CryptoLaws C} `{!SealLaws C S} d d' author contact agree_sk kind payload reply now rnd a reader clock source now2 seen s arrival
    discovery rnd2 :
  authored_ok d d' author contact agree_sk kind payload reply now rnd a ->
  id_agree_sk reader = agree_sk -> ma_transport arrival <= 4 ->
  let sender := id_user_id author in
  let device := wire_device_id (own_authoring_device_id d) in
  let m := ae_message a in
  let chat := thread_of sender kind payload in
  let row := mk_mrow (Some (dr_msg_id rnd)) chat sender (bounded_device_stream s chat sender device) (to_i64 (sm_lamport m)) (sm_timestamp m) kind
               payload in
  reads_mail_of s seen reader device (dr_msg_id rnd) sender kind (authored_expiry kind now) now2 ->
  understood s reader sender kind payload discovery (ma_received_at arrival) ->
  List.find (at_position row) (ms_messages s) = None ->
  exists o p c, process_inbound_frame clock reader source (ae_frame a) now2 seen s = (seen, s, Ok o)
    /\ io_delivered_payloads o = [p] /\ io_delivered_sender o = Some sender /\ io_commit o = Some c
    /\ ms_messages (deliver (mk_call reader sender p c arrival discovery rnd2) s).1 = ms_messages s ++ [row].
Proof.
  intros [Hau Hid Hu Hpk Hsk Hmid Hn Hnow Hti Hpay Hse] Hag Htr sender device m chat row Hr Hun Hf.
  pose proof (authored_kind _ _ _ _ _ _ _ _ _ _ Hau) as Hk.
  destruct (authored_mail_arrives _ _ _ _ _ _ _ _ _ _ _ Hau Hid Hpk Hsk Hmid Hn Hnow Hti Hpay Hse) as (p & Hparse & Hop & Hdec & _ & Hrl & Hll).
  rewrite <- Hu in Hop. assert (open_message reader (oe_sealed (ae_envelope a)) = Ok (mk_opened sender p)) as Hop'.
  { unfold open_message. by rewrite Hag. }
  fold sender device m in Hdec. match type of Hdec with _ = Ok ?e => set (b := e) in * end.
  assert (blen (chat_id (body b)) < 256) as Hlt.
  { change (chat_id (body b)) with (id_user_id author). rewrite Hu. unfold derive_user_id, blen. by rewrite blake2b_length. }
  destruct (own_mail_processed clock reader source _ now2 _ _ _ _ _ _ _ _ _ b _ Hparse (Z.le_refl _) Hop' Hdec Hlt Hr) as (o & k & Hpr & Hps & Hsd & Hc).
  exists o, p. eexists. split_and!; [exact Hpr|exact Hps|exact Hsd|exact Hc|].
  unfold deliver, core_deliver_inbound, deliver_inbound_body. cbn [dc_identity dc_sender dc_payload dc_commit dc_arrival dc_discovery dc_rnd].
  rewrite Hdec. match goal with |- context [deliver_body ?i ?u b ?cm ?ar ?di ?r s] =>
    assert (adds row (deliver_body i u b cm ar di r) s) as H; [|unfold adds in H; by destruct (deliver_body i u b cm ar di r s) as [? [|[]]]] end.
  apply body_filed; try done.
  - apply gate_open; try done; apply Hr.
  - unfold insertable. cbn [cm_msg_id reply_to_msg_id b lamport body]. rewrite Hmid.
    rewrite (proj2 (Z.leb_le (ma_transport arrival) 4)) by done. rewrite (proj2 (Z.leb_le (sm_lamport m) I64_MAX)) by done.
    destruct reply as [id|]; cbn [from_option]; [|done]. cbn in Hrl. by rewrite Hrl.
Qed.
End deliveries.

(** * Witnesses *)

Definition toy_author : Identity :=
  mk_identity (derive_user_id (C := toy_crypto) (id_sign_pk toy_identity)) (id_sign_pk toy_identity) (id_sign_sk toy_identity)
    (id_agree_pk toy_identity) (id_agree_sk toy_identity).

Definition toy_authored (kind : Z) (payload : bytes) : authoring_db * result CoreError AuthoredEnvelope :=
  author_pairwise_message (C := toy_crypto) (S := toy_seal) toy_adb toy_author toy_contact kind payload None 1000 (toy_draw x01).

Definition toy_ae (kind : Z) (payload : bytes) : AuthoredEnvelope :=
  match (toy_authored kind payload).2 with
  | Ok a => a
  | Err _ => mk_authored (mk_stored_message [] [] 0 0 0 [] []) (mk_outbound [] [] [] [] 0 0 0 0 0 [] []) [] 0
  end.

(** The reader, who has the author as a contact; and linked devices of that person. *)
Definition toy_inbox : mesh_store :=
  put_contact empty_store (mk_contact (id_user_id toy_author) [x41] (id_sign_pk toy_author) (id_agree_pk toy_author) None None None).

Definition toy_linked : mesh_store := toy_inbox <| ms_own_context := Some (mk_own_context toy_own_roster 3) |>.

(** A group of the two. *)
Definition toy_invite : bytes :=
  match encode_group_invite_content (mk_group (replicate 16 x11) [x46] [id_user_id toy_author; id_user_id toy_reader] (replicate 32 x22) 0 []) with
  | Ok bs => bs
  | Err _ => []
  end.

Lemma toy_authored_ok kind payload : (kind = KIND_TEXT /\ payload = [x68]) \/ (kind = KIND_GROUP_INVITE /\ payload = toy_invite) ->
  authored_ok (C := toy_crypto) (S := toy_seal) toy_adb (toy_authored kind payload).1 toy_author toy_contact (replicate 32 x02) kind payload None 1000
    (toy_draw x01) (toy_ae kind payload).
Proof.
  intros [[-> ->]|[-> ->]];
    (split; [vm_compute; reflexivity|reflexivity|reflexivity|reflexivity|reflexivity|reflexivity|reflexivity|vm_compute; split; discriminate|constructor
            |vm_compute; discriminate|vm_compute; discriminate]).
Qed.

(** A text to a phone that never linked, and an invite to a linked one. *)
Lemma authored_mail_is_filed_witness :
  let received s kind payload chat := exists o p c,
    process_inbound_frame (C := toy_crypto) (S := toy_seal) (J := toy_json) 0 toy_reader FromMesh (ae_frame (toy_ae kind payload)) 2000 (inner_new 3) s
    = (inner_new 3, s, Ok o)
    /\ io_delivered_payloads o = [p] /\ io_commit o = Some c
    /\ ms_messages (deliver (C := toy_crypto) (S := toy_seal) (B := real_b64) (J := toy_json)
         (mk_call toy_reader (id_user_id toy_author) p c (mk_arrival 1 1 2000) (mk_discovery false 0) (toy_draw x02)) s).1
       = [mk_mrow (Some (replicate 16 x01)) chat (id_user_id toy_author) LEGACY_DEVICE_ID 1 1000 kind payload] in
  received toy_inbox KIND_TEXT [x68] (id_user_id toy_author) /\ received toy_linked KIND_GROUP_INVITE toy_invite (replicate 16 x11).
Proof.
  intros received. split.
  - destruct (authored_mail_is_filed (C := toy_crypto) (S := toy_seal) (B := real_b64) (J := toy_json) toy_adb (toy_authored KIND_TEXT [x68]).1 toy_author
      toy_contact (replicate 32 x02) KIND_TEXT [x68] None 1000 (toy_draw x01) (toy_ae KIND_TEXT [x68]) toy_reader 0 FromMesh 2000 (inner_new 3) toy_inbox
      (mk_arrival 1 1 2000) (mk_discovery false 0) (toy_draw x02)) as (o & p & c & H1 & H2 & _ & H4 & H5).
    + apply toy_authored_ok. left. split; reflexivity.
    + reflexivity.
    + cbn. lia.
    + split; [vm_compute; reflexivity|vm_compute; reflexivity|vm_compute; discriminate|left; exists (mk_contact (id_user_id toy_author) [x41] (id_sign_pk toy_author) (id_agree_pk toy_author) None None None); vm_compute; reflexivity|vm_compute; reflexivity|vm_compute; reflexivity].
    + exact I.
    + reflexivity.
    + exists o, p, c. split; [exact H1|]. split; [exact H2|]. split; [exact H4|]. etrans; [exact H5|]. vm_compute. reflexivity.
  - destruct (authored_mail_is_filed (C := toy_crypto) (S := toy_seal) (B := real_b64) (J := toy_json) toy_adb (toy_authored KIND_GROUP_INVITE toy_invite).1
      toy_author toy_contact (replicate 32 x02) KIND_GROUP_INVITE toy_invite None 1000 (toy_draw x01) (toy_ae KIND_GROUP_INVITE toy_invite) toy_reader 0
      FromMesh 2000 (inner_new 3) toy_linked (mk_arrival 1 1 2000) (mk_discovery false 0) (toy_draw x02)) as (o & p & c & H1 & H2 & _ & H4 & H5).
    + apply toy_authored_ok. right. split; reflexivity.
    + reflexivity.
    + cbn. lia.
    + split; [vm_compute; reflexivity|vm_compute; reflexivity|vm_compute; discriminate|left; exists (mk_contact (id_user_id toy_author) [x41] (id_sign_pk toy_author) (id_agree_pk toy_author) None None None); vm_compute; reflexivity|vm_compute; reflexivity|vm_compute; reflexivity].
    + unfold understood. rewrite !(proj2 (Z.eqb_neq _ _)) by discriminate. rewrite Z.eqb_refl.
      exists (mk_group (replicate 16 x11) [x46] (canonicalize_members [id_user_id toy_author; id_user_id toy_reader]) (replicate 32 x22) 0 []).
      split; [vm_compute; reflexivity|]. split; apply canonical_elem; [left|right; left].
    + vm_compute. reflexivity.
    + exists o, p, c. split; [exact H1|]. split; [exact H2|]. split; [exact H4|]. etrans; [exact H5|]. vm_compute. reflexivity.
Defined.

(** The text from that author, as it is handed over. *)
Definition toy_call : delivery_call :=
  mk_call toy_reader (id_user_id toy_author) (match encode_message_body (mk_body KIND_TEXT (id_user_id toy_author) 1 1000 [x68]) with Ok p => p | Err _ => [] end)
    (mk_commit (replicate 16 x01) None None (replicate 8 x0b) 5000 (id_user_id toy_reader) 2000) (mk_arrival 1 1 2000) (mk_discovery false 0)
    (toy_draw x02).

Lemma inbound_growth_bounded_witness :
  let s' := foldl (fun s c => (deliver (C := toy_crypto) (S := toy_seal) (B := real_b64) (J := toy_json) c s).1) toy_inbox [toy_call; toy_call] in
  blen (ms_messages s') = 1 /\ streams_ok s' /\ quarantine_ok s'.
Proof.
  split; [vm_compute; reflexivity|].
  apply (inbound_growth_bounded (C := toy_crypto) (S := toy_seal) (B := real_b64) (J := toy_json) [toy_call; toy_call] toy_inbox).
  - intros chat sender. vm_compute. discriminate.
  - vm_compute. discriminate.
Defined.

(** A stranger's text is refused and leaves no trace. *)
Lemma delivery_verdicts_witness :
  (deliver (C := toy_crypto) (S := toy_seal) (B := real_b64) (J := toy_json) toy_call empty_store).2 = Ok (dropped DroppedUnauthorizedSender KIND_TEXT)
  /\ (deliver (C := toy_crypto) (S := toy_seal) (B := real_b64) (J := toy_json) toy_call empty_store).1 = empty_store.
Proof.
  assert ((deliver (C := toy_crypto) (S := toy_seal) (B := real_b64) (J := toy_json) toy_call empty_store).2 = Ok (dropped DroppedUnauthorizedSender KIND_TEXT)) as H
    by (vm_compute; reflexivity).
  split; [exact H|]. exact (proj1 (delivery_verdicts (C := toy_crypto) (S := toy_seal) (B := real_b64) (J := toy_json) toy_call empty_store _ H)).
Defined.

Definition toy_body : ExtendedMessageBody := mk_extended (mk_body KIND_TEXT (id_user_id toy_author) 1 1000 [x68]) None None None.

Definition toy_commit (id : byte) : CoreInboundCommit :=
  mk_commit (replicate 16 id) None None (replicate 8 x0b) 5000 (id_user_id toy_reader) 2000.

Definition toy_file (id : byte) (s : mesh_store) : mesh_store * result CoreError unit :=
  persist_inbound (C := toy_crypto) (id_user_id toy_author) (id_user_id toy_author) toy_body (toy_commit id) (mk_arrival 1 1 2000) s.

(** The text, filed into an empty store and then again under another message id. *)
Lemma redelivered_body_is_duplicate_witness :
  let s' := (toy_file x01 empty_store).1 in
  blen (ms_messages s') = 1 /\ Forall2 filled (ms_messages s') (ms_messages (toy_file x02 s').1).
Proof.
  split; [vm_compute; reflexivity|]. set (s' := (toy_file x01 empty_store).1).
  pose proof (redelivered_body_is_duplicate (C := toy_crypto) (id_user_id toy_author) (id_user_id toy_author) toy_body (toy_commit x01)
    (mk_arrival 1 1 2000) empty_store s' (toy_commit x02) (mk_arrival 1 1 2000) s' _ [] ltac:(vm_compute; reflexivity) ltac:(vm_compute; reflexivity)
    (eq_sym (app_nil_r _)) (filled_refl _) ltac:(vm_compute; reflexivity)) as H.
  fold (toy_file x02 s') in H. destruct (toy_file x02 s') as [s2 r]. exact (proj1 (proj2 H)).
Defined.
