(* ===== verification/RelayMailbox.v ===== *)
(** The relay daemon's database ([relayd/src/lib.rs], [RelayStore]): the mailboxes of the
    families it serves, with their quotas, the presence and push tables, and the table of
    provisioned families with the rotation of their tokens.

    Every call takes the store's lock and runs one transaction, so calls do not interleave.
    [rd_envelopes] is in the order of insertion; [rd_sequence] is SQLite's AUTOINCREMENT
    counter.  Failures of SQLite itself are outside; a [Err] here is one the code returns. *)
From stdpp Require Import base numbers list gmap strings sorting.
From coqutil Require Import Datatypes.RecordSetters.
From S2P Require Import Prelude StdModel SqlModel Wire Crypto RelayPolicy RelayWire.
Import TriangleBracketNotations.

(** * Constants *)

Definition RECIPIENT_HINT_LEN : Z := 8.
Definition MSG_ID_LEN : Z := 16.
Definition DEFAULT_FETCH_LIMIT : Z := 100.
Definition MAX_FETCH_LIMIT : Z := 500.
Definition MAX_FETCH_PAGE_SEALED_BYTES : Z := 8 * 1024 * 1024.
Definition MAX_FETCH_HINTS : Z := 256.
Definition MAX_ACK_IDS : Z := 512.
Definition MAX_PUSH_HINTS : Z := 256.
Definition PUSH_REGISTRATION_RETENTION_MS : Z := 45 * 24 * 60 * 60 * 1000.
Definition PRESENCE_RETENTION_MS : Z := 48 * 60 * 60 * 1000.
Definition MAX_RETENTION_MS : Z := 30 * 24 * 60 * 60 * 1000.
Definition MAX_DEPOSIT_RETENTION_MS : Z := 8 * 24 * 60 * 60 * 1000.
Definition MAX_ENVELOPE_SEALED_BYTES : Z := 512 * 1024.
Definition DEPOSIT_QUOTA_TOTAL_PERCENT : Z := 50.
Definition DEPOSIT_QUOTA_PER_DEPOSITOR_PERCENT : Z := 25.
Definition DEPOSIT_TOKEN_PREFIX : bytes := str "cmdep1-".
Definition DEPOSIT_TOKEN_CONTEXT : bytes := str "cruisemesh relay deposit token v1".
Definition ROTATION_SIGNING_DOMAIN : bytes := str "CruiseMesh family token rotation v1" ++ [x00].
Definition FAMILY_ID_PREFIX : bytes := str "cmfid1-".

(** The [depositor] of a row the family itself posted. *)
Definition MEMBER_DEPOSITOR : bytes := [].

Definition percent_of (value percent : Z) : Z := value * percent / 100.
Definition deposit_total_share_bytes (family_quota_bytes : Z) : Z := percent_of family_quota_bytes DEPOSIT_QUOTA_TOTAL_PERCENT.
Definition deposit_per_depositor_share_bytes (family_quota_bytes : Z) : Z :=
  percent_of family_quota_bytes DEPOSIT_QUOTA_PER_DEPOSITOR_PERCENT.

(** * Tables *)

(** [envelopes] *)
Record mail_row : Type := mk_mail {
  ml_id : Z;
  ml_family_token : bytes;
  ml_msg_id : bytes;
  ml_hop_ttl : Z;
  ml_recipient_hint : bytes;
  ml_sealed : bytes;
  ml_expiry_ms : Z;
  ml_created_at_ms : Z;
  ml_depositor : bytes;
}.

Record StoredEnvelope : Type := mk_stored_envelope {
  se_id : Z;
  se_msg_id : bytes;
  se_hop_ttl : Z;
  se_recipient_hint : bytes;
  se_sealed : bytes;
  se_expiry_ms : Z;
  se_created_at_ms : Z;
}.

Record StoredPresence : Type := mk_stored_presence { sp_hint : bytes; sp_last_seen_ms : Z }.

Record FamilyRow : Type := mk_family {
  fm_token : bytes;
  fm_family_id : bytes;
  fm_status : bytes;
  fm_plan : option bytes;
  fm_quota_bytes : option Z;
  fm_created_ms : Z;
  fm_expires_ms : option Z;
  fm_note : option bytes;
  fm_deposit_token : bytes;
  fm_rotation_pk : option bytes;
}.

Record relay_db : Type := mk_relay_db {
  rd_envelopes : list mail_row;
  rd_sequence : Z;
  rd_presence : gmap (bytes * bytes) Z;
  rd_push : gmap (bytes * bytes) Z;
  rd_push_hints : gset (bytes * bytes * bytes);
  rd_families : list FamilyRow;
}.

Definition with_mail (f : list mail_row -> list mail_row) (d : relay_db) : relay_db :=
  mk_relay_db (f (rd_envelopes d)) (rd_sequence d) (rd_presence d) (rd_push d) (rd_push_hints d) (rd_families d).

Definition with_families (f : list FamilyRow -> list FamilyRow) (d : relay_db) : relay_db :=
  mk_relay_db (rd_envelopes d) (rd_sequence d) (rd_presence d) (rd_push d) (rd_push_hints d) (f (rd_families d)).

(** * Results *)

Inductive DepositShareScope : Type := Depositor | AllDepositors.

Inductive QuotaInsertResult : Type :=
| QuotaStored (id : Z)
| QuotaExceeded (usage_bytes : Z)
| DepositShareExceeded (scope : DepositShareScope) (usage_bytes share_bytes : Z)
| QuotaMsgIdConflict.

Inductive InsertOutcome : Type := InsertStored (id : Z) | MsgIdConflict.

Inductive TokenClass : Type := Member | Deposit.

#[global] Instance TokenClass_eq_dec : EqDecision TokenClass.
Proof. solve_decision. Defined.

(** * Mail *)

Definition effective_expiry (created_at_ms expiry_ms : Z) : Z := Z.min expiry_ms (i64_saturating_add created_at_ms MAX_RETENTION_MS).

(** [UNIQUE(family_token, msg_id)] *)
Definition same_mail (family_token msg_id : bytes) (r : mail_row) : bool :=
  bool_decide (ml_family_token r = family_token) && bool_decide (ml_msg_id r = msg_id).

(** [SELECT id, sealed ... LIMIT 1] *)
Definition existing_mail (d : relay_db) (family_token msg_id : bytes) : option mail_row :=
  List.find (same_mail family_token msg_id) (rd_envelopes d).

(** [UPDATE envelopes SET hop_ttl = MAX(hop_ttl, ?3), expiry_ms = MAX(expiry_ms, ?4)] *)
Definition bump_row (family_token msg_id : bytes) (hop_ttl expiry_ms : Z) (r : mail_row) : mail_row :=
  if same_mail family_token msg_id r
  then mk_mail (ml_id r) (ml_family_token r) (ml_msg_id r) (Z.max (ml_hop_ttl r) hop_ttl) (ml_recipient_hint r) (ml_sealed r)
         (Z.max (ml_expiry_ms r) expiry_ms) (ml_created_at_ms r) (ml_depositor r)
  else r.

Definition bump_mail (d : relay_db) (family_token msg_id : bytes) (hop_ttl expiry_ms : Z) : relay_db :=
  with_mail (fmap (bump_row family_token msg_id hop_ttl expiry_ms)) d.

(** [INSERT INTO envelopes ... RETURNING id] *)
Definition append_mail (d : relay_db) (family_token msg_id : bytes) (hop_ttl : Z) (recipient_hint sealed : bytes) (expiry_ms created_at_ms : Z)
  (depositor : bytes) : relay_db * Z :=
  let id := rd_sequence d + 1 in
  (mk_relay_db (rd_envelopes d ++ [mk_mail id family_token msg_id hop_ttl recipient_hint sealed expiry_ms created_at_ms depositor]) id
     (rd_presence d) (rd_push d) (rd_push_hints d) (rd_families d), id).

Definition insert_envelope (d : relay_db) (family_token msg_id : bytes) (hop_ttl : Z) (recipient_hint sealed : bytes) (expiry_ms created_at_ms : Z)
  : relay_db * InsertOutcome :=
  let expiry_ms := effective_expiry created_at_ms expiry_ms in
  match existing_mail d family_token msg_id with
  | Some r =>
      if decide (ml_sealed r = sealed) then (bump_mail d family_token msg_id hop_ttl expiry_ms, InsertStored (ml_id r)) else (d, MsgIdConflict)
  | None =>
      let '(d, id) := append_mail d family_token msg_id hop_ttl recipient_hint sealed expiry_ms created_at_ms MEMBER_DEPOSITOR in
      (d, InsertStored id)
  end.

(** ** Quotas *)

Record QuotaUsage : Type := mk_usage { us_family_bytes : Z; us_deposit_bytes : Z; us_depositor_bytes : Z }.

(** [SUM(LENGTH(sealed))] *)
Fixpoint sealed_sum (rows : list mail_row) : Z :=
  match rows with [] => 0 | r :: rows => blen (ml_sealed r) + sealed_sum rows end.

Definition sealed_bytes_sum_on (d : relay_db) (P : mail_row -> bool) : Z := sealed_sum (List.filter P (rd_envelopes d)).

Definition of_family (family_token : bytes) (r : mail_row) : bool := bool_decide (ml_family_token r = family_token).

Definition family_sealed_bytes_on (d : relay_db) (family_token : bytes) : Z := sealed_bytes_sum_on d (of_family family_token).

Definition deposited (family_token : bytes) (r : mail_row) : bool :=
  of_family family_token r && negb (bool_decide (ml_depositor r = MEMBER_DEPOSITOR)).

Definition deposited_by (family_token depositor : bytes) (r : mail_row) : bool :=
  of_family family_token r && bool_decide (ml_depositor r = depositor).

Definition quota_usage_on (d : relay_db) (family_token : bytes) (depositor : option bytes) : QuotaUsage :=
  let family_bytes := family_sealed_bytes_on d family_token in
  match depositor with
  | None => mk_usage family_bytes 0 0
  | Some depositor =>
      mk_usage family_bytes (sealed_bytes_sum_on d (deposited family_token)) (sealed_bytes_sum_on d (deposited_by family_token depositor))
  end.

Definition quota_rejection (usage : QuotaUsage) (candidate_bytes family_quota_bytes : Z) (depositor : option bytes) : option QuotaInsertResult :=
  if family_quota_bytes <? u64_saturating_add (us_family_bytes usage) candidate_bytes then Some (QuotaExceeded (us_family_bytes usage))
  else match depositor with
       | None => None
       | Some _ =>
           let per_depositor := deposit_per_depositor_share_bytes family_quota_bytes in
           let total_share := deposit_total_share_bytes family_quota_bytes in
           if per_depositor <? u64_saturating_add (us_depositor_bytes usage) candidate_bytes
           then Some (DepositShareExceeded Depositor (us_depositor_bytes usage) per_depositor)
           else if total_share <? u64_saturating_add (us_deposit_bytes usage) candidate_bytes
           then Some (DepositShareExceeded AllDepositors (us_deposit_bytes usage) total_share)
           else None
       end.

(** ** Expiry *)

Definition mail_expired (now_ms : Z) (r : mail_row) : bool :=
  (ml_expiry_ms r <=? now_ms) || (ml_created_at_ms r <=? i64_saturating_sub now_ms MAX_RETENTION_MS).

(** The four deletes; the count is the sum of theirs. *)
Definition prune_expired_on (d : relay_db) (now_ms : Z) : relay_db * Z :=
  let mail := List.filter (fun r => negb (mail_expired now_ms r)) (rd_envelopes d) in
  let presence_floor := i64_saturating_sub now_ms PRESENCE_RETENTION_MS in
  let presence := filter (fun kv => presence_floor < kv.2) (rd_presence d) in
  let push_floor := i64_saturating_sub now_ms PUSH_REGISTRATION_RETENTION_MS in
  let hints := filter (fun k => push_floor <= default push_floor (rd_push d !! k.1)) (rd_push_hints d) in
  let push := filter (fun kv => push_floor <= kv.2) (rd_push d) in
  (mk_relay_db mail (rd_sequence d) presence push hints (rd_families d),
   Z.of_nat (length (rd_envelopes d)) - Z.of_nat (length mail) + (Z.of_nat (size (rd_presence d)) - Z.of_nat (size presence))
   + (Z.of_nat (size (rd_push_hints d)) - Z.of_nat (size hints)) + (Z.of_nat (size (rd_push d)) - Z.of_nat (size push))).

Definition insert_envelope_with_quota (d : relay_db) (family_token msg_id : bytes) (hop_ttl : Z) (recipient_hint sealed : bytes)
  (expiry_ms created_at_ms family_quota_bytes : Z) (depositor : option bytes) : relay_db * result string QuotaInsertResult :=
  if MAX_ENVELOPE_SEALED_BYTES <? blen sealed then (d, Err "sealed envelope exceeds the cap"%string)
  else
    let expiry_ms := effective_expiry created_at_ms expiry_ms in
    match existing_mail d family_token msg_id with
    | Some r =>
        if decide (ml_sealed r = sealed) then (bump_mail d family_token msg_id hop_ttl expiry_ms, Ok (QuotaStored (ml_id r)))
        else (d, Ok QuotaMsgIdConflict)
    | None =>
        let rejection d := quota_rejection (quota_usage_on d family_token depositor) (blen sealed) family_quota_bytes depositor in
        let d := match rejection d with None => d | Some _ => (prune_expired_on d created_at_ms).1 end in
        match rejection d with
        | Some rejection => (d, Ok rejection)
        | None =>
            let '(d, id) := append_mail d family_token msg_id hop_ttl recipient_hint sealed expiry_ms created_at_ms
                              (default MEMBER_DEPOSITOR depositor) in
            (d, Ok (QuotaStored id))
        end
    end.

(** [insert_envelopes_batch]: every row is checked first, then each is stored, refreshed
    or, where its id holds other content, left out. *)
Definition EnvelopeBatchRow : Type := bytes * bytes * Z * bytes * bytes * Z * Z.

Definition insert_batch_row (d : relay_db) (row : EnvelopeBatchRow) : relay_db :=
  let '(family, msg_id, hop_ttl, hint, sealed, expiry_ms, created_at_ms) := row in
  let expiry_ms := effective_expiry created_at_ms expiry_ms in
  match existing_mail d family msg_id with
  | Some r => if decide (ml_sealed r = sealed) then bump_mail d family msg_id hop_ttl expiry_ms else d
  | None => (append_mail d family msg_id hop_ttl hint sealed expiry_ms created_at_ms MEMBER_DEPOSITOR).1
  end.

Definition insert_envelopes_batch (d : relay_db) (rows : list EnvelopeBatchRow) : relay_db * result string unit :=
  if existsb (fun row => let '(_, _, _, _, sealed, _, _) := row in MAX_ENVELOPE_SEALED_BYTES <? blen sealed) rows
  then (d, Err "sealed envelope exceeds the cap"%string)
  else (foldl insert_batch_row d rows, Ok tt).

(** ** Fetching and acknowledging *)

(** [as u8] *)
Definition as_u8 (z : Z) : Z := z mod 2 ^ 8.

Definition stored_envelope (r : mail_row) : StoredEnvelope :=
  mk_stored_envelope (ml_id r) (ml_msg_id r) (as_u8 (ml_hop_ttl r)) (ml_recipient_hint r) (ml_sealed r) (ml_expiry_ms r) (ml_created_at_ms r).

(** [WHERE family_token = ?1 AND id > ?2 AND recipient_hint IN (...) AND expiry_ms > ?] *)
Definition fetchable (family_token : bytes) (hints : list bytes) (after_id now_ms : Z) (r : mail_row) : bool :=
  of_family family_token r && (after_id <? ml_id r) && bool_decide (ml_recipient_hint r ∈ hints) && (now_ms <? ml_expiry_ms r).

(** [ORDER BY id ASC] *)
Definition mail_le (a b : mail_row) : Prop := ml_id a <= ml_id b.

#[global] Instance mail_le_dec : RelDecision mail_le.
Proof. intros a b. unfold mail_le. apply _. Defined.

(** The page is filled until one more row would push it past its bytes; the first row is
    always taken. *)
Fixpoint fill_page (rows : list mail_row) (empty : bool) (sealed_bytes : Z) : list mail_row :=
  match rows with
  | [] => []
  | r :: rows =>
      let next := u64_saturating_add sealed_bytes (blen (ml_sealed r)) in
      if negb empty && (MAX_FETCH_PAGE_SEALED_BYTES <? next) then [] else r :: fill_page rows false next
  end.

Definition fetch_rows (d : relay_db) (family_token : bytes) (hints : list bytes) (after_id limit now_ms : Z) : list mail_row :=
  let rows := merge_sort mail_le (List.filter (fetchable family_token hints after_id now_ms) (rd_envelopes d)) in
  fill_page (take (Z.to_nat (Z.min limit MAX_FETCH_LIMIT)) rows) true 0.

Definition fetch_envelopes (d : relay_db) (family_token : bytes) (hints : list bytes) (after_id limit now_ms : Z)
  : result string (list StoredEnvelope) :=
  if decide (hints = []) then Ok []
  else if MAX_FETCH_HINTS <? blen hints then Err "too many hints"%string
  else Ok (stored_envelope <$> fetch_rows d family_token hints after_id limit now_ms).

Definition acked (family_token : bytes) (ids : list Z) (r : mail_row) : bool := of_family family_token r && bool_decide (ml_id r ∈ ids).

Definition ack_envelopes (d : relay_db) (family_token : bytes) (ids : list Z) : relay_db * result string Z :=
  if decide (ids = []) then (d, Ok 0)
  else if MAX_ACK_IDS <? blen ids then (d, Err "too many ack ids"%string)
  else (with_mail (List.filter (fun r => negb (acked family_token ids r))) d, Ok (blen (List.filter (acked family_token ids) (rd_envelopes d)))).

Definition count_for_family (d : relay_db) (family_token : bytes) : Z := blen (List.filter (of_family family_token) (rd_envelopes d)).

Definition envelope_exists (d : relay_db) (family_token msg_id : bytes) : bool := bool_decide (is_Some (existing_mail d family_token msg_id)).

(** * Push registrations *)

(** A hint of the wrong length fails, and the transaction with it. *)
Definition replace_push_registration (d : relay_db) (family_token device_token : bytes) (hints : list bytes) (updated_ms : Z)
  : relay_db * result string unit :=
  if bool_decide (hints = []) || (MAX_PUSH_HINTS <? blen hints) then (d, Err "push registration hint count"%string)
  else if existsb (fun h => negb (blen h =? RECIPIENT_HINT_LEN)) hints then (d, Err "push hint must be 8 bytes"%string)
  else
    (mk_relay_db (rd_envelopes d) (rd_sequence d) (rd_presence d) (<[(family_token, device_token) := updated_ms]> (rd_push d))
       (filter (fun k => k.1 <> (family_token, device_token)) (rd_push_hints d) ∪ list_to_set ((fun h => (family_token, device_token, h)) <$> hints))
       (rd_families d), Ok tt).

(** [SELECT DISTINCT r.device_token ... ORDER BY r.device_token] *)
Definition push_device_tokens_for_hint (d : relay_db) (family_token hint : bytes) (now_ms : Z) : list bytes :=
  let fresh_after := i64_saturating_sub now_ms PUSH_REGISTRATION_RETENTION_MS in
  merge_sort bytes_le
    (omap (fun kv => if decide (kv.1.1 = family_token /\ (kv.1, hint) ∈ rd_push_hints d /\ fresh_after <= kv.2) then Some kv.1.2 else None)
       (map_to_list (rd_push d))).

Definition remove_push_device_token (d : relay_db) (device_token : bytes) : relay_db * Z :=
  let push := filter (fun kv => kv.1.2 <> device_token) (rd_push d) in
  (mk_relay_db (rd_envelopes d) (rd_sequence d) (rd_presence d) push (filter (fun k => k.1.2 <> device_token) (rd_push_hints d)) (rd_families d),
   Z.of_nat (size (rd_push d)) - Z.of_nat (size push)).

(** * Presence *)

(** [ORDER BY last_seen_ms DESC] (and by hint where equal). *)
Definition presence_le (a b : StoredPresence) : Prop :=
  sp_last_seen_ms b < sp_last_seen_ms a \/ (sp_last_seen_ms a = sp_last_seen_ms b /\ bytes_le (sp_hint a) (sp_hint b)).

#[global] Instance presence_le_dec : RelDecision presence_le.
Proof. intros a b. unfold presence_le. apply _. Defined.

Definition announce_presence (d : relay_db) (family_token : bytes) (announce : list bytes) (now_ms : Z) : relay_db :=
  mk_relay_db (rd_envelopes d) (rd_sequence d) (foldl (fun m h => <[(family_token, h) := now_ms]> m) (rd_presence d) announce) (rd_push d)
    (rd_push_hints d) (rd_families d).

Definition sync_presence (d : relay_db) (family_token : bytes) (announce query : list bytes) (now_ms : Z) : relay_db * list StoredPresence :=
  let d := announce_presence (prune_expired_on d now_ms).1 family_token announce now_ms in
  (d, merge_sort presence_le
        (omap (fun kv => if decide (kv.1.1 = family_token /\ kv.1.2 ∈ query) then Some (mk_stored_presence kv.1.2 kv.2) else None)
           (map_to_list (rd_presence d)))).

(** * Families *)

Record RotationAuthority : Type := mk_authority { au_public_key : bytes; au_signature : bytes }.

Inductive RotationAuthorityCheck : Type := AuthorityAccepted | AuthorityRegister | AuthorityRefused.

Inductive FamilyRotation : Type :=
| Rotated (family : FamilyRow) (envelopes_moved : Z)
| AlreadyRotated (family : FamilyRow)
| UnknownFamily
| TokenTaken
| RotationUnauthorized.

Record FamilyUsage : Type := mk_family_usage { fu_family : FamilyRow; fu_usage_bytes : Z; fu_envelope_count : Z }.
Record FamilyPage : Type := mk_family_page { fp_families : list FamilyUsage; fp_total : Z }.

Definition ACTIVE : bytes := str "active".

Definition is_deposit_token (token : bytes) : bool := starts_with DEPOSIT_TOKEN_PREFIX (trim token).
Definition is_family_id (value : bytes) : bool := starts_with FAMILY_ID_PREFIX (trim value).

(** [(token.len() as u16).to_be_bytes()] and the token. *)
Definition rotation_field (token : bytes) : bytes := be_bytes 2 (blen token mod 2 ^ 16) ++ token.

Definition rotation_signed_bytes (current_token new_token : bytes) : bytes :=
  ROTATION_SIGNING_DOMAIN ++ rotation_field current_token ++ rotation_field new_token.

Definition has_token (token : bytes) (f : FamilyRow) : bool := bool_decide (fm_token f = token).

Definition get_family_on (d : relay_db) (token : bytes) : option FamilyRow := List.find (has_token token) (rd_families d).

Definition resolve_family_on (d : relay_db) (id_or_token : bytes) : option FamilyRow :=
  match List.find (fun f => bool_decide (fm_family_id f = id_or_token)) (rd_families d) with
  | Some f => Some f
  | None => get_family_on d id_or_token
  end.

(** [WHERE token = ?1 OR deposit_token = ?1 ORDER BY (token = ?1) DESC LIMIT 1] *)
Definition get_family_by_credential_on (d : relay_db) (credential : bytes) : option (FamilyRow * TokenClass) :=
  match get_family_on d credential with
  | Some f => Some (f, Member)
  | None => (fun f => (f, Deposit)) <$> List.find (fun f => bool_decide (fm_deposit_token f = credential)) (rd_families d)
  end.

(** Updates the families that [P] selects. *)
Definition update_families (P : FamilyRow -> bool) (f : FamilyRow -> FamilyRow) (d : relay_db) : relay_db :=
  with_families (fmap (fun x => if P x then f x else x)) d.

Section families.
Context `{C : Crypto} `{B : Base64}.

Definition deposit_token_for (member_token : bytes) : bytes :=
  let member := trim member_token in
  if bool_decide (member = []) || starts_with DEPOSIT_TOKEN_PREFIX member then member
  else DEPOSIT_TOKEN_PREFIX ++ b64_encode (blake2b 32 (DEPOSIT_TOKEN_CONTEXT ++ member)).

(** [minted] is the random part of a fresh family id. *)
Definition mint_family_id (minted : bytes) : bytes := FAMILY_ID_PREFIX ++ b64_encode minted.

Definition upsert_family (d : relay_db) (token : bytes) (plan : option bytes) (quota_bytes expires_ms : option Z) (note : option bytes) (now_ms : Z)
  (minted : bytes) : relay_db :=
  match get_family_on d token with
  | Some _ =>
      update_families (has_token token)
        (fun f => mk_family (fm_token f) (fm_family_id f) ACTIVE plan quota_bytes (fm_created_ms f) expires_ms note (deposit_token_for token)
                    (fm_rotation_pk f)) d
  | None =>
      with_families (fun l => l ++ [mk_family token (mint_family_id minted) ACTIVE plan quota_bytes now_ms expires_ms note
                                      (deposit_token_for token) None]) d
  end.

Definition patch_family (d : relay_db) (token : bytes) (status plan : option bytes) (quota_bytes expires_ms : option Z) (note : option bytes)
  : relay_db :=
  let keep {A} (new old : option A) := match new with Some _ => new | None => old end in
  update_families (has_token token)
    (fun f => mk_family (fm_token f) (fm_family_id f) (default (fm_status f) status) (keep plan (fm_plan f)) (keep quota_bytes (fm_quota_bytes f))
                (fm_created_ms f) (keep expires_ms (fm_expires_ms f)) (keep note (fm_note f)) (fm_deposit_token f) (fm_rotation_pk f)) d.

(** Rows of every table that is scoped by the family go with it. *)
Definition delete_family (d : relay_db) (token : bytes) : relay_db * bool :=
  (mk_relay_db (List.filter (fun r => negb (of_family token r)) (rd_envelopes d)) (rd_sequence d)
     (filter (fun kv => kv.1.1 <> token) (rd_presence d)) (filter (fun kv => kv.1.1 <> token) (rd_push d))
     (filter (fun k => k.1.1 <> token) (rd_push_hints d)) (List.filter (fun f => negb (has_token token f)) (rd_families d)),
   existsb (has_token token) (rd_families d)).

(** ** Rotation *)

(** [VerifyingKey::from_bytes] and [verify_strict]. *)
Definition verify_rotation_signature (public_key message signature : bytes) : bool :=
  ed25519_key_ok public_key && ed25519_verify public_key message signature.

Definition check_rotation_authority (stored_pk : option bytes) (message : bytes) (authority : RotationAuthority) : RotationAuthorityCheck :=
  let verified := verify_rotation_signature (au_public_key authority) message (au_signature authority) in
  match stored_pk with
  | Some stored =>
      if negb (bool_decide (stored = au_public_key authority)) then AuthorityRefused
      else if verified then AuthorityAccepted else AuthorityRefused
  | None => if verified then AuthorityRegister else AuthorityRefused
  end.

Definition set_rotation_pk (token pk : bytes) (d : relay_db) : relay_db :=
  update_families (has_token token)
    (fun f => mk_family (fm_token f) (fm_family_id f) (fm_status f) (fm_plan f) (fm_quota_bytes f) (fm_created_ms f) (fm_expires_ms f) (fm_note f)
                (fm_deposit_token f) (Some pk)) d.

(** [UPDATE envelopes SET family_token = ?2 WHERE family_token = ?1] *)
Definition rekey_row (current new : bytes) (r : mail_row) : mail_row :=
  if of_family current r
  then mk_mail (ml_id r) new (ml_msg_id r) (ml_hop_ttl r) (ml_recipient_hint r) (ml_sealed r) (ml_expiry_ms r) (ml_created_at_ms r) (ml_depositor r)
  else r.

(** The mail and the presence move, the push registrations are purged, and the row of the
    family answers to the new pair of tokens. *)
Definition move_family (current new : bytes) (d : relay_db) : relay_db :=
  mk_relay_db (rekey_row current new <$> rd_envelopes d) (rd_sequence d)
    (kmap (fun k => if decide (k.1 = current) then (new, k.2) else k) (rd_presence d))
    (filter (fun kv => kv.1.1 <> current) (rd_push d)) (filter (fun k => k.1.1 <> current) (rd_push_hints d))
    ((fun f => if has_token current f
               then mk_family new (fm_family_id f) (fm_status f) (fm_plan f) (fm_quota_bytes f) (fm_created_ms f) (fm_expires_ms f) (fm_note f)
                      (deposit_token_for new) (fm_rotation_pk f)
               else f) <$> rd_families d).

(** The move would break [UNIQUE(family_token, msg_id)] or the key of the presence. *)
Definition move_collides (current new : bytes) (d : relay_db) : bool :=
  existsb (fun r => of_family current r && bool_decide (is_Some (existing_mail d new (ml_msg_id r)))) (rd_envelopes d)
  || existsb (fun kv => bool_decide (kv.1.1 = current) && bool_decide (is_Some (rd_presence d !! (new, kv.1.2)))) (map_to_list (rd_presence d)).

(** What follows the authorization, on the tables [d'] it may have registered a key in; a
    call that fails rolls back to [d]. *)
Definition finish_rotation (d d' : relay_db) (row : FamilyRow) (already_rotated : bool) (current_token new_token : bytes)
  : relay_db * result string FamilyRotation :=
  if already_rotated then
    match get_family_on d' (fm_token row) with
    | Some family => (d', Ok (AlreadyRotated family))
    | None => (d, Err "family vanished during rotation"%string)
    end
  else if bool_decide (is_Some (get_family_by_credential_on d' new_token))
          || bool_decide (is_Some (get_family_by_credential_on d' (deposit_token_for new_token))) then (d, Ok TokenTaken)
  else if move_collides current_token new_token d' then (d, Err "UNIQUE constraint failed"%string)
  else
    let moved := move_family current_token new_token d' in
    match get_family_on moved new_token with
    | Some family => (moved, Ok (Rotated family (blen (List.filter (of_family current_token) (rd_envelopes d')))))
    | None => (d, Err "family vanished during rotation"%string)
    end.

(** The row the call is about, and whether it already answers to the new token. *)
Definition rotation_row (d : relay_db) (current_token new_token : bytes) : option (FamilyRow * bool) :=
  match get_family_on d current_token with
  | Some row => Some (row, bool_decide (current_token = new_token))
  | None => (fun row => (row, true)) <$> get_family_on d new_token
  end.

Definition rotate_family_token (d : relay_db) (current_token new_token : bytes) (authority : RotationAuthority)
  : relay_db * result string FamilyRotation :=
  match rotation_row d current_token new_token with
  | None => (d, Ok UnknownFamily)
  | Some (row, already_rotated) =>
      match check_rotation_authority (fm_rotation_pk row) (rotation_signed_bytes current_token new_token) authority with
      | AuthorityRefused => (d, Ok RotationUnauthorized)
      | AuthorityAccepted => finish_rotation d d row already_rotated current_token new_token
      | AuthorityRegister =>
          if already_rotated then (d, Ok RotationUnauthorized)
          else finish_rotation d (set_rotation_pk (fm_token row) (au_public_key authority) d) row already_rotated current_token new_token
      end
  end.

(** [ORDER BY f.created_ms ASC, f.token ASC] *)
Definition family_le (a b : FamilyRow) : Prop :=
  fm_created_ms a < fm_created_ms b \/ (fm_created_ms a = fm_created_ms b /\ bytes_le (fm_token a) (fm_token b)).

#[global] Instance family_le_dec : RelDecision family_le.
Proof. intros a b. unfold family_le. apply _. Defined.

Definition list_families (d : relay_db) (status_filter : option bytes) (limit offset : Z) : FamilyPage :=
  let matching := List.filter (fun f => match status_filter with Some s => bool_decide (fm_status f = s) | None => true end) (rd_families d) in
  let usage f := mk_family_usage f (family_sealed_bytes_on d (fm_token f)) (count_for_family d (fm_token f)) in
  mk_family_page (usage <$> take (Z.to_nat limit) (drop (Z.to_nat offset) (merge_sort family_le matching))) (blen matching).

End families.

(** * Histories *)

Inductive relay_op : Type :=
| OpInsert (family_token msg_id : bytes) (hop_ttl : Z) (hint sealed : bytes) (expiry_ms created_at_ms : Z)
| OpPost (family_token msg_id : bytes) (hop_ttl : Z) (hint sealed : bytes) (expiry_ms created_at_ms quota : Z) (depositor : option bytes)
| OpBatch (rows : list EnvelopeBatchRow)
| OpAck (family_token : bytes) (ids : list Z)
| OpPrune (now_ms : Z)
| OpPresence (family_token : bytes) (announce query : list bytes) (now_ms : Z)
| OpPush (family_token device_token : bytes) (hints : list bytes) (updated_ms : Z)
| OpRemovePush (device_token : bytes)
| OpProvision (token : bytes) (plan : option bytes) (quota expires : option Z) (note : option bytes) (now_ms : Z) (minted : bytes)
| OpPatch (token : bytes) (status plan : option bytes) (quota expires : option Z) (note : option bytes)
| OpDelete (token : bytes)
| OpRotate (current_token new_token : bytes) (authority : RotationAuthority).

Section histories.
Context `{C : Crypto} `{B : Base64}.

Definition relay_step (d : relay_db) (op : relay_op) : relay_db :=
  match op with
  | OpInsert f m h hint s e c => (insert_envelope d f m h hint s e c).1
  | OpPost f m h hint s e c q dep => (insert_envelope_with_quota d f m h hint s e c q dep).1
  | OpBatch rows => (insert_envelopes_batch d rows).1
  | OpAck f ids => (ack_envelopes d f ids).1
  | OpPrune now => (prune_expired_on d now).1
  | OpPresence f a q now => (sync_presence d f a q now).1
  | OpPush f dev hints t => (replace_push_registration d f dev hints t).1
  | OpRemovePush dev => (remove_push_device_token d dev).1
  | OpProvision t p q e n now minted => upsert_family d t p q e n now minted
  | OpPatch t s p q e n => patch_family d t s p q e n
  | OpDelete t => (delete_family d t).1
  | OpRotate cur new auth => (rotate_family_token d cur new auth).1
  end.

Definition relay_run (d : relay_db) (ops : list relay_op) : relay_db := foldl relay_step d ops.

(** The same envelope, later: its family may have changed its token, a re-post may have
    lengthened its life. *)
Definition kept (r r' : mail_row) : Prop :=
  ml_id r' = ml_id r /\ ml_msg_id r' = ml_msg_id r /\ ml_recipient_hint r' = ml_recipient_hint r /\ ml_sealed r' = ml_sealed r
  /\ ml_created_at_ms r' = ml_created_at_ms r /\ ml_depositor r' = ml_depositor r
  /\ ml_hop_ttl r <= ml_hop_ttl r' /\ ml_expiry_ms r <= ml_expiry_ms r'.

#[global] Instance kept_preorder : PreOrder kept.
Proof. split; unfold kept; [intros r; split_and!; lia || done|intros r1 r2 r3 H1 H2; destruct_and!; split_and!; lia || congruence]. Qed.

(** The one reason a call may have to delete a row. *)
Definition may_delete (op : relay_op) (r : mail_row) : Prop :=
  match op with
  | OpAck f ids => ml_family_token r = f /\ ml_id r ∈ ids
  | OpPrune now | OpPresence _ _ _ now => mail_expired now r = true
  | OpPost _ _ _ _ _ _ created _ _ => mail_expired created r = true
  | OpDelete t => ml_family_token r = t
  | _ => False
  end.

(** The rows are the old ones, changed or deleted one by one, and new ones behind them
    under fresh ids. *)
Definition evolves (lic : mail_row -> Prop) (d d' : relay_db) : Prop :=
  exists g new,
    rd_envelopes d' = omap g (rd_envelopes d) ++ new
    /\ (forall r, match g r with Some r' => kept r r' | None => lic r end)
    /\ StronglySorted Z.lt (ml_id <$> new) /\ Forall (fun r => rd_sequence d < ml_id r <= rd_sequence d') new /\ rd_sequence d <= rd_sequence d'.

Lemma omap_Some {A} (l : list A) : omap Some l = l.
Proof. induction l as [|x l IH]; cbn; [done|]. by rewrite IH. Qed.

Lemma evolves_same lic d d' : rd_envelopes d' = rd_envelopes d -> rd_sequence d' = rd_sequence d -> evolves lic d d'.
Proof.
  intros Hm Hs. exists Some, []. rewrite Hm, Hs, app_nil_r, omap_Some.
  by split_and!; [|..|constructor|constructor|].
Qed.

Lemma evolves_map lic d d' f : (forall r, kept r (f r)) -> rd_envelopes d' = f <$> rd_envelopes d -> rd_sequence d' = rd_sequence d -> evolves lic d d'.
Proof.
  intros Hf Hm Hs. exists (fun r => Some (f r)), []. rewrite Hm, Hs, app_nil_r.
  split_and!; [|done|constructor|constructor|lia]. clear. induction (rd_envelopes d) as [|r l IH]; cbn; [done|by rewrite <- IH].
Qed.

Lemma omap_filter {A} (P : A -> bool) (l : list A) : omap (fun x => if P x then Some x else None) l = List.filter P l.
Proof. induction l as [|x l IH]; cbn; [done|]. destruct (P x); by rewrite IH. Qed.

Lemma evolves_filter lic d d' P : (forall r, P r = false -> lic r) -> rd_envelopes d' = List.filter P (rd_envelopes d) ->
  rd_sequence d' = rd_sequence d -> evolves lic d d'.
Proof.
  intros Hp Hm Hs. exists (fun r => if P r then Some r else None), []. rewrite Hm, Hs, app_nil_r, omap_filter.
  split_and!; [done| |constructor|constructor|lia]. intros r. destruct (P r) eqn:E; [done|auto].
Qed.

Lemma evolves_append lic d f m h hint s e c dep : evolves lic d (append_mail d f m h hint s e c dep).1.
Proof.
  exists Some, [mk_mail (rd_sequence d + 1) f m h hint s e c dep]. cbn. split_and!.
  - by rewrite omap_Some.
  - done.
  - repeat constructor.
  - constructor; [cbn; lia|constructor].
  - lia.
Qed.

Lemma omap_omap {A D E} (g1 : A -> option D) (g2 : D -> option E) (l : list A) : omap g2 (omap g1 l) = omap (fun x => g1 x ≫= g2) l.
Proof. induction l as [|x l IH]; cbn; [done|]. destruct (g1 x) as [y|]; cbn; [destruct (g2 y)|]; by rewrite IH. Qed.

(** What a row becomes keeps its id. *)
Lemma omap_kept_ids (g : mail_row -> option mail_row) l :
  (forall r r', g r = Some r' -> ml_id r' = ml_id r) -> (ml_id <$> omap g l) `sublist_of` (ml_id <$> l).
Proof.
  intros Hg. induction l as [|r l IH]; cbn; [done|]. destruct (g r) as [r'|] eqn:E; cbn; [|by apply sublist_cons].
  rewrite (Hg _ _ E). by apply sublist_skip.
Qed.


Lemma evolves_trans lic1 lic2 (lic : mail_row -> Prop) d1 d2 d3 :
  (forall r, lic1 r -> lic r) -> (forall r r', kept r r' -> lic2 r' -> lic r) -> evolves lic1 d1 d2 -> evolves lic2 d2 d3 -> evolves lic d1 d3.
Proof.
  intros Hl1 Hl2 (g1 & n1 & Hm1 & Hg1 & Hs1 & Hb1 & Hq1) (g2 & n2 & Hm2 & Hg2 & Hs2 & Hb2 & Hq2).
  assert (forall r r', g2 r = Some r' -> ml_id r' = ml_id r) as Hid.
  { intros r r' E. specialize (Hg2 r). rewrite E in Hg2. apply Hg2. }
  pose proof (omap_kept_ids g2 n1 Hid) as Hsub.
  exists (fun r => g1 r ≫= g2), (omap g2 n1 ++ n2). rewrite Hm2, Hm1, omap_app, omap_omap, app_assoc. split_and!; [done| | | |lia].
  - intros r. specialize (Hg1 r). destruct (g1 r) as [r1|]; cbn; [|auto]. specialize (Hg2 r1). destruct (g2 r1) as [r2|]; [by etrans|eauto].
  - rewrite fmap_app. apply StronglySorted_app_2; [|by eapply sublist_sorted|done]. intros x y Hx Hy.
    apply (elem_of_sublist _ _ _ Hx) in Hsub. apply list_elem_of_fmap in Hsub as (r1 & -> & H1). apply list_elem_of_fmap in Hy as (r2 & -> & H2).
    rewrite Forall_forall in Hb1, Hb2. specialize (Hb1 _ H1). specialize (Hb2 _ H2). lia.
  - apply Forall_app. split.
    + apply Forall_forall. intros r Hr. apply list_elem_of_omap in Hr as (r1 & Hr1 & Hg). rewrite (Hid _ _ Hg).
      rewrite Forall_forall in Hb1. specialize (Hb1 _ Hr1). lia.
    + eapply Forall_impl; [exact Hb2|]. cbn. lia.
Qed.

Lemma bump_kept f m h e r : kept r (bump_row f m h e r).
Proof. unfold bump_row. case_match; [|done]. unfold kept; cbn. split_and!; lia || done. Qed.

Lemma rekey_kept cur new r : kept r (rekey_row cur new r).
Proof. unfold rekey_row. case_match; [|done]. unfold kept; cbn. split_and!; lia || done. Qed.

Lemma prune_evolves lic d now : (forall r, mail_expired now r = true -> lic r) -> evolves lic d (prune_expired_on d now).1.
Proof. intros H. eapply evolves_filter; [|reflexivity|reflexivity]. intros r Hr. apply H. by apply negb_false_iff. Qed.

Lemma evolves_mono (lic lic' : mail_row -> Prop) d d' : (forall r, lic r -> lic' r) -> evolves lic d d' -> evolves lic' d d'.
Proof. intros H (g & new & Hm & Hg & Hr). exists g, new. split_and!; try apply Hr; [done|]. intros r. specialize (Hg r). destruct (g r); auto. Qed.

(** No row is deleted. *)
Notation grows := (evolves (fun _ => False)).

Lemma grows_trans d1 d2 d3 : grows d1 d2 -> grows d2 d3 -> grows d1 d3.
Proof. by apply evolves_trans. Qed.

Lemma batch_grows rows d : grows d (foldl insert_batch_row d rows).
Proof.
  revert d. induction rows as [|row rows IH]; intros d; cbn [foldl]; [by apply evolves_same|]. eapply grows_trans; [|apply IH].
  destruct row as [[[[[[f m] h] hint] sealed] e] c]. cbn. case_match; [case_decide|]; [..|apply evolves_append].
  - eapply evolves_map; [|reflexivity|reflexivity]. intros r. apply bump_kept.
  - by apply evolves_same.
Qed.

(** A same-id re-post: a refreshed row, or nothing. *)
Lemma repost_grows d f m h e r s {A} (ok no : A) :
  existing_mail d f m = Some r -> grows d (if decide (ml_sealed r = s) then (bump_mail d f m h e, ok) else (d, no)).1.
Proof.
  intros _. case_decide; [|by apply evolves_same]. eapply evolves_map; [|reflexivity|reflexivity]. intros r'. apply bump_kept.
Qed.

Lemma post_evolves lic d f m h hint s e c q dep :
  (forall r, mail_expired c r = true -> lic r) -> evolves lic d (insert_envelope_with_quota d f m h hint s e c q dep).1.
Proof.
  intros Hl. unfold insert_envelope_with_quota. case_match; [by apply evolves_same|]. cbv zeta.
  destruct (existing_mail d f m) as [r|] eqn:Hx; [eapply evolves_mono, repost_grows; done|].
  set (d1 := match quota_rejection _ _ _ _ with None => d | Some _ => _ end).
  assert (evolves lic d d1) as H1 by (unfold d1; case_match; [by apply prune_evolves|by apply evolves_same]). clearbody d1.
  destruct (quota_rejection _ _ _ _) as [rej|]; [exact H1|]. eapply (evolves_trans lic (fun _ => False)); [done|done|exact H1|].
  apply evolves_append.
Qed.

Lemma finish_rotation_grows d d' row already cur new :
  rd_envelopes d' = rd_envelopes d -> rd_sequence d' = rd_sequence d -> grows d (finish_rotation d d' row already cur new).1.
Proof.
  intros Hm Hs. unfold finish_rotation. destruct already; [case_match; by apply evolves_same|].
  case_match; [by apply evolves_same|]. case_match; [by apply evolves_same|]. cbv zeta. case_match; [|by apply evolves_same].
  eapply evolves_map; [intros r; apply rekey_kept|cbn; by rewrite Hm|exact Hs].
Qed.

Lemma rotate_grows d cur new auth : grows d (rotate_family_token d cur new auth).1.
Proof.
  unfold rotate_family_token. destruct (rotation_row d cur new) as [[row already]|]; [|by apply evolves_same].
  case_match; [by apply finish_rotation_grows|destruct already; [by apply evolves_same|by apply finish_rotation_grows]|by apply evolves_same].
Qed.

Lemma step_evolves d op : evolves (may_delete op) d (relay_step d op).
Proof.
  destruct op; cbn [relay_step may_delete].
  - unfold insert_envelope. destruct (existing_mail d family_token msg_id) as [r|] eqn:Hx; [by eapply repost_grows|apply evolves_append].
  - by apply post_evolves.
  - unfold insert_envelopes_batch. case_match; [by apply evolves_same|apply batch_grows].
  - unfold ack_envelopes. case_decide; [by apply evolves_same|]. case_match; [by apply evolves_same|].
    eapply evolves_filter; [|reflexivity|reflexivity]. intros r Hr%negb_false_iff. unfold acked, of_family in Hr. bools. done.
  - by apply prune_evolves.
  - eapply (evolves_trans _ (fun _ => False)); [..|apply (prune_evolves (fun r => mail_expired now_ms r = true))|by apply evolves_same]; done.
  - unfold replace_push_registration. repeat case_match; by apply evolves_same.
  - by apply evolves_same.
  - unfold upsert_family. case_match; by apply evolves_same.
  - by apply evolves_same.
  - eapply evolves_filter; [|reflexivity|reflexivity]. intros r Hr%negb_false_iff. unfold of_family in Hr. by bools.
  - apply rotate_grows.
Qed.

(** The ids climb in the order of insertion and never exceed the counter. *)
Definition ids_ok (d : relay_db) : Prop :=
  StronglySorted Z.lt (ml_id <$> rd_envelopes d) /\ Forall (fun r => 0 < ml_id r <= rd_sequence d) (rd_envelopes d) /\ 0 <= rd_sequence d.

Lemma kept_id (g : mail_row -> option mail_row) (lic : mail_row -> Prop) :
  (forall r, match g r with Some r' => kept r r' | None => lic r end) -> forall r r', g r = Some r' -> ml_id r' = ml_id r.
Proof. intros Hg r r' E. specialize (Hg r). rewrite E in Hg. apply Hg. Qed.

Lemma evolves_ids lic d d' : evolves lic d d' -> ids_ok d -> ids_ok d'.
Proof.
  intros (g & new & Hm & Hg & Hs & Hb & Hq) (Hi & Hr & H0). pose proof (kept_id g lic Hg) as Hid.
  pose proof (omap_kept_ids g (rd_envelopes d) Hid) as Hsub. unfold ids_ok. rewrite Hm. split_and!; [| |lia].
  - rewrite fmap_app. apply StronglySorted_app_2; [|by eapply sublist_sorted|done]. intros x y Hx Hy.
    apply (elem_of_sublist _ _ _ Hx) in Hsub. apply list_elem_of_fmap in Hsub as (r1 & -> & H1). apply list_elem_of_fmap in Hy as (r2 & -> & H2).
    rewrite Forall_forall in Hr, Hb. specialize (Hr _ H1). specialize (Hb _ H2). lia.
  - apply Forall_app. split; [|eapply Forall_impl; [exact Hb|]; cbn; lia]. apply Forall_forall. intros r Hin.
    apply list_elem_of_omap in Hin as (r1 & Hr1 & E). rewrite (Hid _ _ E). rewrite Forall_forall in Hr. specialize (Hr _ Hr1). lia.
Qed.

Lemma ids_unique d r r' : ids_ok d -> r ∈ rd_envelopes d -> r' ∈ rd_envelopes d -> ml_id r = ml_id r' -> r = r'.
Proof.
  intros (Hi & _ & _). revert Hi. induction (rd_envelopes d) as [|x l IH]; intros Hi Hr Hr' He; [by apply not_elem_of_nil in Hr|].
  cbn in Hi. apply StronglySorted_inv in Hi as [Hi Hx]. rewrite Forall_forall in Hx.
  apply elem_of_cons in Hr as [->|Hr]; apply elem_of_cons in Hr' as [->|Hr']; [done| | |by apply IH].
  - specialize (Hx (ml_id r') (list_elem_of_fmap_2 _ _ _ Hr')). lia.
  - specialize (Hx (ml_id r) (list_elem_of_fmap_2 _ _ _ Hr)). lia.
Qed.

Lemma run_ids ops d : ids_ok d -> ids_ok (relay_run d ops) /\ rd_sequence d <= rd_sequence (relay_run d ops).
Proof.
  revert d. induction ops as [|op ops IH]; intros d Hd; [done|]. cbn [relay_run foldl].
  pose proof (step_evolves d op) as He. destruct (IH _ (evolves_ids _ _ _ He Hd)) as [H1 H2]. split; [exact H1|].
  destruct He as (_ & _ & _ & _ & _ & _ & Hq). unfold relay_run in *. lia.
Qed.

(** A row there is now was there, or is newer than all there was. *)
Lemma run_origin ops d r' : ids_ok d -> r' ∈ rd_envelopes (relay_run d ops) ->
  (exists r, r ∈ rd_envelopes d /\ kept r r') \/ rd_sequence d < ml_id r'.
Proof.
  revert d. induction ops as [|op ops IH]; intros d Hd Hr; [left; by exists r'|]. cbn [relay_run foldl] in Hr.
  pose proof (step_evolves d op) as He. destruct (IH _ (evolves_ids _ _ _ He Hd) Hr) as [(r1 & Hr1 & Hk)|Hlt];
    destruct He as (g & new & Hm & Hg & _ & Hb & Hq); [|right; lia].
  rewrite Hm in Hr1. apply elem_of_app in Hr1 as [Hr1|Hr1].
  - apply list_elem_of_omap in Hr1 as (r & Hr0 & E). left. exists r. split; [done|]. specialize (Hg r). rewrite E in Hg. by etrans.
  - right. rewrite Forall_forall in Hb. specialize (Hb _ Hr1). destruct Hk as (-> & _). lia.
Qed.

Lemma row_fate ops d r : r ∈ rd_envelopes d ->
  (exists r', r' ∈ rd_envelopes (relay_run d ops) /\ kept r r')
  \/ exists i op r', ops !! i = Some op /\ r' ∈ rd_envelopes (relay_run d (take i ops)) /\ kept r r' /\ may_delete op r'.
Proof.
  revert d r. induction ops as [|op ops IH]; intros d r Hr; [left; by exists r|]. cbn [relay_run foldl].
  destruct (step_evolves d op) as (g & new & Hm & Hg & _). specialize (Hg r). destruct (g r) as [r1|] eqn:E; [|right; by exists 0%nat, op, r].
  assert (r1 ∈ rd_envelopes (relay_step d op)) as Hr1. { rewrite Hm. apply elem_of_app. left. apply list_elem_of_omap. by exists r. }
  destruct (IH _ _ Hr1) as [(r' & Hr' & Hk)|(i & op' & r' & Hop & Hr' & Hk & Hl)].
  - left. exists r'. split; [done|by etrans].
  - right. exists (Datatypes.S i), op', r'. split_and!; [done|done|by etrans|done].
Qed.

(** C9: the relay keeps mail.  Whatever calls follow, an envelope the relay stores stays - under the same id,
    with the same message id, hint and sealed bytes, living at least as long - until a reader of its
    family acknowledges that id, it is past its expiry (or thirty days old) at a prune, or its family is
    deleted; a rotation of the family's token moves it.  And an id names one envelope for ever: no later
    envelope gets it, and its bytes are never replaced. *)
Theorem relay_keeps_mail ops d r :
  ids_ok d -> r ∈ rd_envelopes d ->
  ((exists r', r' ∈ rd_envelopes (relay_run d ops) /\ kept r r')
   \/ exists i op r', ops !! i = Some op /\ r' ∈ rd_envelopes (relay_run d (take i ops)) /\ kept r r' /\ may_delete op r')
  /\ forall r', r' ∈ rd_envelopes (relay_run d ops) -> ml_id r' = ml_id r -> kept r r'.
Proof.
  intros Hd Hr. split; [by apply row_fate|]. intros r' Hr' Hid. destruct (run_origin ops d r' Hd Hr') as [(r0 & Hr0 & Hk)|Hlt].
  - assert (r0 = r) as -> by (apply (ids_unique d); try done; destruct Hk; congruence). done.
  - destruct Hd as (_ & Hb & _). rewrite Forall_forall in Hb. specialize (Hb _ Hr). lia.
Qed.
End histories.

(** * Walks *)

Section walks.
Context `{C : Crypto} `{B : Base64}.
Context (family_token : bytes) (hints : list bytes).

Notation candidates d after now := (List.filter (fetchable family_token hints after now) (rd_envelopes d)).

Lemma filter_sorted_ids (P : mail_row -> bool) l :
  StronglySorted Z.lt (ml_id <$> l) -> StronglySorted Z.lt (ml_id <$> List.filter P l).
Proof.
  induction l as [|r l IH]; cbn; [done|]. intros [Hl Hr]%StronglySorted_inv. destruct (P r); cbn; [|by apply IH].
  constructor; [by apply IH|]. apply Forall_forall. intros x Hx. apply list_elem_of_fmap in Hx as (y & -> & Hy).
  rewrite Forall_forall in Hr. apply Hr, list_elem_of_fmap_2. apply list_elem_of_In, filter_In in Hy as [Hy _]. by apply list_elem_of_In.
Qed.

Lemma sorted_rows l : StronglySorted Z.lt (ml_id <$> l) -> StronglySorted mail_le l.
Proof.
  induction l as [|r l IH]; cbn; [constructor|]. intros [Hl Hr]%StronglySorted_inv. constructor; [by apply IH|].
  apply Forall_forall. intros x Hx. rewrite Forall_forall in Hr. specialize (Hr _ (list_elem_of_fmap_2 ml_id _ _ Hx)). unfold mail_le. lia.
Qed.

(** Rows that are in order are sorted. *)
Lemma sort_sorted l : StronglySorted Z.lt (ml_id <$> l) -> merge_sort mail_le l = l.
Proof.
  intros Hl. assert (StronglySorted Z.lt (ml_id <$> merge_sort mail_le l)) as Hm.
  { assert (Total mail_le) by (intros x y; unfold mail_le; lia). assert (Transitive mail_le) by (intros x y z; unfold mail_le; lia).
    pose proof (StronglySorted_merge_sort mail_le l) as Hs. pose proof (merge_sort_Permutation mail_le l) as Hp.
    assert (NoDup (ml_id <$> merge_sort mail_le l)) as Hnd.
    { rewrite Hp. clear -Hl. induction (ml_id <$> l) as [|x k IH]; [constructor|]. apply StronglySorted_inv in Hl as [H1 H2].
      constructor; [|by apply IH]. intros Hin. rewrite Forall_forall in H2. specialize (H2 _ Hin). lia. }
    clear Hp Hl. induction Hs as [|x k Hk IH Hx]; cbn in *; [constructor|]. apply NoDup_cons in Hnd as [Hn Hnd]. constructor; [by apply IH|].
    apply Forall_forall. intros y Hy. apply list_elem_of_fmap in Hy as (z & -> & Hz). rewrite Forall_forall in Hx. specialize (Hx _ Hz).
    unfold mail_le in Hx. assert (ml_id x <> ml_id z); [|lia]. intros E. apply Hn. rewrite E. by apply list_elem_of_fmap_2. }
  revert Hm. pose proof (merge_sort_Permutation mail_le l) as Hp. revert Hl Hp. generalize (merge_sort mail_le l) as k. induction l as [|x l IH].
  - intros k _ Hp _. by apply Permutation_nil_r in Hp.
  - intros [|y k] Hl Hp Hm; [by apply Permutation_nil_l in Hp|]. cbn in Hl, Hm.
    apply StronglySorted_inv in Hl as [Hl Hx]. apply StronglySorted_inv in Hm as [Hm Hy]. rewrite Forall_forall in Hx, Hy.
    assert (x = y) as <-.
    { assert (x ∈ y :: k) as H1 by (rewrite Hp; left). assert (y ∈ x :: l) as H2 by (rewrite <- Hp; left).
      apply elem_of_cons in H1 as [->|H1]; [done|]. apply elem_of_cons in H2 as [->|H2]; [done|].
      specialize (Hx _ (list_elem_of_fmap_2 ml_id _ _ H2)). specialize (Hy _ (list_elem_of_fmap_2 ml_id _ _ H1)). lia. }
    f_equal. apply IH; [done| |done]. by apply Permutation_cons_inv in Hp.
Qed.

Lemma fill_page_prefix rows e b : fill_page rows e b `prefix_of` rows.
Proof.
  revert e b. induction rows as [|r rows IH]; intros e b; cbn [fill_page]; [done|]. cbv zeta. case_match; [apply prefix_nil|].
  apply prefix_cons, IH.
Qed.

Lemma fetch_rows_prefix d after limit now : ids_ok d -> fetch_rows d family_token hints after limit now `prefix_of` candidates d after now.
Proof.
  intros (Hi & _). unfold fetch_rows. rewrite sort_sorted by (by apply filter_sorted_ids). etrans; [apply fill_page_prefix|apply prefix_take].
Qed.

Lemma fetch_rows_empty d after limit now : ids_ok d -> 1 <= limit -> fetch_rows d family_token hints after limit now = [] -> candidates d after now = [].
Proof.
  intros (Hi & _) Hl. unfold fetch_rows. rewrite sort_sorted by (by apply filter_sorted_ids). unfold MAX_FETCH_LIMIT.
  destruct (Z.to_nat (Z.min limit 500)) eqn:E; [lia|]. destruct (candidates d after now) as [|r l]; [done|]. by cbn.
Qed.

(** The cursor behind a page. *)
Definition next_cursor (after : Z) (page : list mail_row) : Z := default after (ml_id <$> last page).

Lemma filter_filter {A} (P Q : A -> bool) l : List.filter Q (List.filter P l) = List.filter (fun x => P x && Q x) l.
Proof. induction l as [|x l IH]; cbn; [done|]. destruct (P x); cbn; [destruct (Q x)|]; by rewrite IH. Qed.

Lemma bfilter_all {A} (P : A -> bool) l : (forall x, x ∈ l -> P x = true) -> List.filter P l = l.
Proof. induction l as [|x l IH]; cbn; intros H; [done|]. rewrite (H x), IH; [done| |left]. intros y Hy. apply H. by right. Qed.

Lemma bfilter_none {A} (P : A -> bool) l : (forall x, x ∈ l -> P x = false) -> List.filter P l = [].
Proof. induction l as [|x l IH]; cbn; intros H; [done|]. rewrite (H x), IH; [done| |left]. intros y Hy. apply H. by right. Qed.

Lemma candidates_after d after c now : after <= c -> candidates d c now = List.filter (fun r => c <? ml_id r) (candidates d after now).
Proof.
  intros Hc. rewrite filter_filter. apply filter_ext. intros r. unfold fetchable.
  destruct (of_family family_token r), (bool_decide (ml_recipient_hint r ∈ hints)), (now <? ml_expiry_ms r); cbn; rewrite ?andb_false_r; try done.
  rewrite !andb_true_r. destruct (c <? ml_id r) eqn:E; [|by rewrite andb_false_r]. rewrite (proj2 (Z.ltb_lt after (ml_id r))); [done|].
  apply Z.ltb_lt in E. lia.
Qed.

(** The cursor is the id of a row of the page that is at or behind every row of it. *)
Lemma next_cursor_bounds after page :
  StronglySorted Z.lt (ml_id <$> page) -> Forall (fun r => after < ml_id r) page ->
  after <= next_cursor after page /\ Forall (fun r => ml_id r <= next_cursor after page) page
  /\ (page = [] \/ exists r, r ∈ page /\ next_cursor after page = ml_id r).
Proof.
  intros Hs Ha. unfold next_cursor. destruct (last page) as [x|] eqn:Hx; [|apply last_None in Hx as ->; cbn; split_and!; [lia|done|by left]].
  apply last_Some in Hx as [l ->]. cbn. assert (x ∈ l ++ [x]) as Hin by (apply elem_of_app; right; left). split_and!.
  - rewrite Forall_forall in Ha. specialize (Ha _ Hin). lia.
  - rewrite fmap_app in Hs. apply Forall_forall. intros r [Hr|Hr%list_elem_of_singleton]%elem_of_app; [|by subst].
    pose proof (StronglySorted_app_1_elem_of _ _ _ _ _ Hs (list_elem_of_fmap_2 ml_id _ _ Hr) (list_elem_of_here _ _)). lia.
  - right. by exists x.
Qed.

Lemma candidate_fields d after now r : r ∈ candidates d after now <-> r ∈ rd_envelopes d /\ fetchable family_token hints after now r = true.
Proof. rewrite list_elem_of_In, filter_In, <- list_elem_of_In. done. Qed.

Lemma candidate_after d after now : Forall (fun r => after < ml_id r) (candidates d after now).
Proof. apply Forall_forall. intros r [_ Hr]%candidate_fields. unfold fetchable in Hr. bools. lia. Qed.

(** A page leaves exactly the rows behind its cursor. *)
Lemma page_split d after limit now : ids_ok d ->
  let page := fetch_rows d family_token hints after limit now in
  candidates d after now = page ++ candidates d (next_cursor after page) now
  /\ after <= next_cursor after page /\ Forall (fun r => ml_id r <= next_cursor after page) page
  /\ (page = [] \/ exists r, r ∈ page /\ next_cursor after page = ml_id r).
Proof.
  intros Hd page. destruct (fetch_rows_prefix d after limit now Hd) as [rest H]. fold page in H.
  pose proof (filter_sorted_ids (fetchable family_token hints after now) _ (proj1 Hd)) as Hs. rewrite H, fmap_app in Hs.
  pose proof (candidate_after d after now) as Ha. rewrite H in Ha. apply Forall_app in Ha as [Ha Har].
  destruct (next_cursor_bounds after page (StronglySorted_app_1_l _ _ _ Hs) Ha) as (Hn & Hle & Hx). split_and!; try done.
  rewrite (candidates_after d after (next_cursor after page)) by done. rewrite H, List.filter_app. rewrite (bfilter_none _ page), (bfilter_all _ rest); [done| |].
  - intros r Hr. apply Z.ltb_lt. destruct Hx as [He|(x & Hx & ->)].
    + unfold next_cursor. rewrite He. rewrite Forall_forall in Har. by apply Har.
    + apply (StronglySorted_app_1_elem_of _ _ _ _ _ Hs); by apply list_elem_of_fmap_2.
  - intros r Hr. apply Z.ltb_ge. rewrite Forall_forall in Hle. by apply Hle.
Qed.

(** One turn of a reader's walk: what happened at the relay since, the page it asks for. *)
Record walk_turn : Type := mk_turn { wt_ops : list relay_op; wt_limit : Z; wt_now : Z }.

Fixpoint walk (d : relay_db) (cursor : Z) (turns : list walk_turn) : list mail_row * relay_db * Z :=
  match turns with
  | [] => ([], d, cursor)
  | t :: turns =>
      let d := relay_run d (wt_ops t) in
      let page := fetch_rows d family_token hints cursor (wt_limit t) (wt_now t) in
      let '(rows, d', c) := walk d (next_cursor cursor page) turns in (page ++ rows, d', c)
  end.

Lemma walk_run turns d cursor : exists ops, (walk d cursor turns).1.2 = relay_run d ops.
Proof.
  revert d cursor. induction turns as [|t turns IH]; intros d cursor; [by exists []|]. cbn [walk]. cbv zeta.
  match goal with |- context [walk ?d1 ?c1 turns] => destruct (IH d1 c1) as [ops Ho]; destruct (walk d1 c1 turns) as [[rows d'] c] end.
  exists (wt_ops t ++ ops). cbn in Ho |- *. rewrite Ho. unfold relay_run. by rewrite foldl_app.
Qed.

(** The walk passed over the row: at one of its turns the row was in the database, the
    cursor went past its id, and a fetch leaves it out - its mailbox was another's, or it
    had expired. *)
Fixpoint passed_over (d : relay_db) (cursor : Z) (turns : list walk_turn) (r : mail_row) : Prop :=
  match turns with
  | [] => False
  | t :: turns =>
      let d := relay_run d (wt_ops t) in
      let next := next_cursor cursor (fetch_rows d family_token hints cursor (wt_limit t) (wt_now t)) in
      (r ∈ rd_envelopes d /\ cursor < ml_id r <= next /\ (ml_family_token r <> family_token \/ ml_expiry_ms r <= wt_now t))
      \/ passed_over d next turns r
  end.

Lemma walk_covers turns d cursor r :
  ids_ok d -> let '(rows, d', c) := walk d cursor turns in
  r ∈ rd_envelopes d' -> ml_recipient_hint r ∈ hints -> cursor < ml_id r <= c ->
  exists r0, kept r0 r /\ (r0 ∈ rows \/ passed_over d cursor turns r0).
Proof.
  revert d cursor. induction turns as [|t turns IH]; intros d cursor Hd; cbn [walk passed_over]; [intros; lia|]. cbv zeta.
  set (d1 := relay_run d (wt_ops t)). assert (ids_ok d1) as Hd1 by (by apply run_ids).
  destruct (page_split d1 cursor (wt_limit t) (wt_now t) Hd1) as (Hsplit & Hc & Hle & Hx). set (page := fetch_rows _ _ _ _ _ _) in *.
  specialize (IH d1 (next_cursor cursor page) Hd1). destruct (walk_run turns d1 (next_cursor cursor page)) as [ops Ho].
  destruct (walk d1 (next_cursor cursor page) turns) as [[rows d'] c]. cbn in Ho. subst d'. intros Hr Hh Hid.
  destruct (decide (next_cursor cursor page < ml_id r)) as [Hlt|Hge].
  { destruct (IH Hr Hh) as (r0 & Hk & Hin); [lia|]. exists r0. split; [done|]. destruct Hin as [Hin|Hp]; [|by right; right].
    left. apply elem_of_app. by right. }
  destruct (run_origin ops d1 r Hd1 Hr) as [(r1 & Hr1 & Hk)|Hgt].
  2: { destruct Hx as [He|(x & Hx & E)]; [unfold next_cursor in Hge; rewrite He in Hge; cbn in Hge; lia|].
       assert (x ∈ candidates d1 cursor (wt_now t)) as Hc1 by (rewrite Hsplit; apply elem_of_app; by left).
       apply candidate_fields in Hc1 as [Hc1 _]. destruct Hd1 as (_ & Hb & _). rewrite Forall_forall in Hb. specialize (Hb _ Hc1). lia. }
  exists r1. split; [done|]. destruct Hk as (Hi & _ & Hhint & _).
  destruct (fetchable family_token hints cursor (wt_now t) r1) eqn:Hf.
  - left. assert (r1 ∈ candidates d1 cursor (wt_now t)) as Hin by (by apply candidate_fields). rewrite Hsplit in Hin.
    apply elem_of_app in Hin as [Hin|Hin]; [apply elem_of_app; by left|].
    pose proof (candidate_after d1 (next_cursor cursor page) (wt_now t)) as Ha. rewrite Forall_forall in Ha. specialize (Ha _ Hin). lia.
  - right. left. split; [done|]. split; [lia|]. unfold fetchable, of_family in Hf.
    rewrite (proj2 (Z.ltb_lt cursor (ml_id r1))), (bool_decide_eq_true_2 (ml_recipient_hint r1 ∈ hints)), !andb_true_r in Hf by (lia || congruence).
    apply andb_false_iff in Hf as [Hf|Hf]; [left; by bools|right; by apply Z.ltb_ge].
Qed.

(** C10: a reader's walk skips nothing.  However many other calls come between its pages - posts, acknowledgements,
    prunes, registrations, rotations - when the walk finds nothing more, every live envelope of the mailbox under
    its hints behind the cursor it started from has been on one of its pages, with these very bytes.
    The one exception is an envelope that was in the database, unfetchable, at the turn whose page took the cursor
    past its id - it was another mailbox's then, or had expired - and has become live since, by a rotation onto
    this token or by being posted again. *)
Theorem walk_skips_nothing turns d cursor limit now r :
  ids_ok d -> 1 <= limit ->
  let '(rows, d', c) := walk d cursor turns in
  fetch_rows d' family_token hints c limit now = [] ->
  r ∈ rd_envelopes d' -> ml_family_token r = family_token -> ml_recipient_hint r ∈ hints -> now < ml_expiry_ms r -> cursor < ml_id r ->
  exists r0, kept r0 r /\ (r0 ∈ rows \/ passed_over d cursor turns r0).
Proof.
  intros Hd Hl. pose proof (walk_covers turns d cursor r Hd) as Hw. destruct (walk_run turns d cursor) as [ops Ho].
  destruct (walk d cursor turns) as [[rows d'] c]. cbn in Ho. subst d'. intros He Hr Hf Hh Hlive Hgt. apply Hw; [done|done|]. split; [done|].
  destruct (run_ids ops d Hd) as [Hd' _]. apply (fetch_rows_empty _ _ _ _ Hd' Hl) in He.
  destruct (decide (c < ml_id r)) as [Hlt|]; [|lia]. assert (r ∈ candidates (relay_run d ops) c now) as Hin.
  { apply candidate_fields. split; [done|]. unfold fetchable, of_family.
    rewrite !bool_decide_eq_true_2, (proj2 (Z.ltb_lt c (ml_id r))), (proj2 (Z.ltb_lt now (ml_expiry_ms r))) by done. done. }
  rewrite He in Hin. by apply not_elem_of_nil in Hin.
Qed.

(** A quiet mailbox is drained.  While nothing else happens, a walk with any page limits reaches an empty page
    within as many turns as there are envelopes, and its pages together are exactly the live envelopes
    under its hints behind its cursor: each once, in the order they were stored. *)
Theorem walk_drains_mailbox turns d cursor now :
  ids_ok d -> Forall (fun t => wt_ops t = [] /\ 1 <= wt_limit t /\ wt_now t = now) turns ->
  (length (List.filter (fetchable family_token hints cursor now) (rd_envelopes d)) <= length turns)%nat ->
  let '(rows, d', c) := walk d cursor turns in
  d' = d /\ rows = List.filter (fetchable family_token hints cursor now) (rd_envelopes d)
  /\ forall limit, fetch_rows d family_token hints c limit now = [].
Proof.
  revert cursor. induction turns as [|t turns IH]; intros cursor Hd Ht Hlen; cbn [walk length] in *.
  { destruct (candidates d cursor now) as [|x l] eqn:E; [|cbn in Hlen; lia]. split_and!; [done|done|].
    intros limit. destruct (fetch_rows_prefix d cursor limit now Hd) as [rest H]. rewrite E in H. by destruct (fetch_rows _ _ _ _ _ _). }
  apply Forall_cons in Ht as [(Hops & Hlim & Hnow) Ht]. rewrite Hops, Hnow. cbn [relay_run foldl]. cbv zeta.
  destruct (page_split d cursor (wt_limit t) now Hd) as (Hsplit & _ & _ & Hx).
  pose proof (fetch_rows_empty d cursor (wt_limit t) now Hd Hlim) as Hemp. set (page := fetch_rows _ _ _ _ _ _) in *.
  specialize (IH (next_cursor cursor page) Hd Ht). destruct (walk d (next_cursor cursor page) turns) as [[rows d'] c].
  destruct IH as (-> & -> & Hdone); [|split_and!; [done|by rewrite Hsplit|done]].
  destruct page as [|x l] eqn:Hp.
  - unfold next_cursor. cbn. rewrite Hemp by done. cbn. lia.
  - rewrite Hsplit, length_app in Hlen. cbn in Hlen. lia.
Qed.
End walks.

(** * Quotas over histories *)

Section quotas.
Context `{C : Crypto} `{B : Base64}.
Context (f : bytes).

(** The bytes of the rows of [f] whose depositor is among [q]. *)
Definition usage (q : bytes -> bool) (rows : list mail_row) : Z :=
  sealed_sum (List.filter (fun r => of_family f r && q (ml_depositor r)) rows).

Definition anyone (dep : bytes) : bool := true.
Definition outsiders (dep : bytes) : bool := negb (bool_decide (dep = MEMBER_DEPOSITOR)).
Definition only (who dep : bytes) : bool := bool_decide (dep = who).

(** The family is within its quota, its depositors within their shares. *)
Definition within_quota (quota : Z) (d : relay_db) : Prop :=
  usage anyone (rd_envelopes d) <= quota
  /\ usage outsiders (rd_envelopes d) <= deposit_total_share_bytes quota
  /\ forall who, who <> MEMBER_DEPOSITOR -> usage (only who) (rd_envelopes d) <= deposit_per_depositor_share_bytes quota.

Lemma sealed_sum_nonneg l : 0 <= sealed_sum l.
Proof. induction l as [|r l IH]; cbn; [done|]. pose proof (blen_nonneg (ml_sealed r)). lia. Qed.

Lemma usage_cons q r rows : usage q (r :: rows) = (if of_family f r && q (ml_depositor r) then blen (ml_sealed r) else 0) + usage q rows.
Proof. unfold usage. cbn. by destruct (of_family f r && q (ml_depositor r)). Qed.

Lemma usage_other q r : q (ml_depositor r) = false -> usage q [r] = 0.
Proof. intros H. rewrite usage_cons, H, andb_false_r. done. Qed.

Lemma usage_app q l1 l2 : usage q (l1 ++ l2) = usage q l1 + usage q l2.
Proof. induction l1 as [|r l1 IH]; [done|]. cbn [app]. rewrite !usage_cons, IH. lia. Qed.

Lemma usage_filter q P rows : usage q (List.filter P rows) <= usage q rows.
Proof.
  induction rows as [|r rows IH]; cbn [List.filter]; [done|]. destruct (P r); rewrite !usage_cons; [lia|].
  pose proof (blen_nonneg (ml_sealed r)). destruct (_ && _); lia.
Qed.

Lemma usage_map q h rows :
  (forall r, ml_sealed (h r) = ml_sealed r /\ ml_depositor (h r) = ml_depositor r /\ (ml_family_token (h r) = f -> ml_family_token r = f)) ->
  usage q (h <$> rows) <= usage q rows.
Proof.
  intros Hh. induction rows as [|r rows IH]; [done|]. cbn [fmap list_fmap]. rewrite !usage_cons. destruct (Hh r) as (-> & -> & Hf).
  pose proof (blen_nonneg (ml_sealed r)). unfold of_family. destruct (bool_decide (ml_family_token (h r) = f)) eqn:E; cbn [andb].
  - apply bool_decide_eq_true in E. rewrite (bool_decide_eq_true_2 (ml_family_token r = f)) by auto. cbn. lia.
  - destruct (_ && _); lia.
Qed.

Lemma within_le quota d d' : (forall q, usage q (rd_envelopes d') <= usage q (rd_envelopes d)) -> within_quota quota d -> within_quota quota d'.
Proof. intros H (H1 & H2 & H3). split_and!; [etrans; eauto..|]. intros who Hw. etrans; eauto. Qed.

Lemma usage_of_family d : family_sealed_bytes_on d f = usage anyone (rd_envelopes d).
Proof. unfold family_sealed_bytes_on, sealed_bytes_sum_on, usage. f_equal. apply filter_ext. intros r. by rewrite andb_true_r. Qed.

(** A greater quota has greater shares. *)
Lemma shares_grow q quota : q <= quota ->
  deposit_total_share_bytes q <= deposit_total_share_bytes quota
  /\ deposit_per_depositor_share_bytes q <= deposit_per_depositor_share_bytes quota.
Proof.
  intros H. unfold deposit_total_share_bytes, deposit_per_depositor_share_bytes, percent_of, DEPOSIT_QUOTA_TOTAL_PERCENT,
    DEPOSIT_QUOTA_PER_DEPOSITOR_PERCENT. split; apply Z.div_le_mono; lia.
Qed.

Lemma within_greater q quota d : q <= quota -> within_quota q d -> within_quota quota d.
Proof.
  intros Hq (H1 & H2 & H3). destruct (shares_grow q quota Hq) as [Ht Hp]. split_and!; [lia..|].
  intros who Hw. specialize (H3 who Hw). lia.
Qed.

(** A row admitted under a quota no greater than [quota] keeps every ceiling. *)
Lemma admitted_within q0 quota d depositor r :
  0 <= q0 <= quota -> quota < U64_MAX -> depositor <> Some MEMBER_DEPOSITOR -> within_quota quota d -> ml_depositor r = default MEMBER_DEPOSITOR depositor ->
  quota_rejection (quota_usage_on d f depositor) (blen (ml_sealed r)) q0 depositor = None ->
  forall d', rd_envelopes d' = rd_envelopes d ++ [r] -> within_quota quota d'.
Proof.
  intros Hq0 HQ Hdep (H1 & H2 & H3) Hr Hnone d' Hd'. destruct (shares_grow q0 quota (proj2 Hq0)) as [Hst Hsp].
  assert (0 <= q0 < U64_MAX) as Hq by lia. unfold quota_rejection in Hnone. destruct (q0 <? _) eqn:E1 in Hnone; [done|].
  assert (forall q, usage q [r] <= blen (ml_sealed r)) as Hone.
  { intros q. rewrite usage_cons. pose proof (blen_nonneg (ml_sealed r)). change (usage q []) with 0. destruct (_ && _); lia. }
  assert (forall a b c, 0 <= c < U64_MAX -> (c <? u64_saturating_add a b) = false -> a + b <= c) as Hsat by (intros a b c ? ?%Z.ltb_ge; ints).
  assert (us_family_bytes (quota_usage_on d f depositor) = usage anyone (rd_envelopes d)) as Hf.
  { destruct depositor; apply usage_of_family. }
  rewrite Hf in E1. apply Hsat in E1; [|done]. unfold within_quota. rewrite Hd', !usage_app. pose proof (Hone anyone). split; [lia|].
  destruct depositor as [dep|]; cbn [default from_option id] in Hr.
  - cbn [quota_usage_on us_depositor_bytes us_deposit_bytes] in Hnone. destruct (_ <? u64_saturating_add _ _) eqn:E2 in Hnone; [done|].
    destruct (_ <? u64_saturating_add _ _) eqn:E3 in Hnone; [done|].
    assert (0 <= deposit_per_depositor_share_bytes q0 < U64_MAX /\ 0 <= deposit_total_share_bytes q0 < U64_MAX) as [Hp Ht].
    { unfold deposit_per_depositor_share_bytes, deposit_total_share_bytes, percent_of, DEPOSIT_QUOTA_PER_DEPOSITOR_PERCENT, DEPOSIT_QUOTA_TOTAL_PERCENT.
      split; (split; [apply Z.div_pos; lia|apply Z.div_lt_upper_bound; lia]). }
    apply Hsat in E2; [|done]. apply Hsat in E3; [|done]. pose proof (Hone outsiders). split.
    + change (sealed_bytes_sum_on d (deposited f)) with (usage outsiders (rd_envelopes d)) in E3. lia.
    + intros who Hw. rewrite usage_app. destruct (decide (who = dep)) as [->|Hne].
      * change (sealed_bytes_sum_on d (deposited_by f dep)) with (usage (only dep) (rd_envelopes d)) in E2. pose proof (Hone (only dep)). lia.
      * specialize (H3 who Hw). rewrite (usage_other (only who)); [lia|]. unfold only. rewrite Hr. apply bool_decide_eq_false_2. congruence.
  - split.
    + rewrite (usage_other outsiders); [lia|]. unfold outsiders. by rewrite Hr, bool_decide_eq_true_2.
    + intros who Hw. specialize (H3 who Hw). rewrite usage_app, (usage_other (only who)); [lia|]. unfold only. rewrite Hr.
      by apply bool_decide_eq_false_2.
Qed.

Lemma bump_within quota d g m h e : within_quota quota d -> within_quota quota (bump_mail d g m h e).
Proof. apply within_le. intros q. apply usage_map. intros r. unfold bump_row. by case_match. Qed.

Lemma append_other_within quota d g m h hint s e c dep :
  g <> f -> within_quota quota d -> within_quota quota (append_mail d g m h hint s e c dep).1.
Proof.
  intros Hg. apply within_le. intros q. unfold append_mail. cbn [fst rd_envelopes]. rewrite usage_app, usage_cons. unfold of_family at 1.
  cbn [ml_family_token]. rewrite bool_decide_eq_false_2 by done. cbn [andb]. change (usage q []) with 0. lia.
Qed.

Lemma prune_within quota d now : within_quota quota d -> within_quota quota (prune_expired_on d now).1.
Proof. apply within_le. intros q. apply usage_filter. Qed.

Lemma post_within quota d g m h hint s e c q dep :
  quota < U64_MAX -> (g = f -> 0 <= q <= quota /\ dep <> Some MEMBER_DEPOSITOR) -> within_quota quota d ->
  within_quota quota (insert_envelope_with_quota d g m h hint s e c q dep).1.
Proof.
  intros Hq Hop Hd. unfold insert_envelope_with_quota. case_match; [done|]. cbv zeta. destruct (existing_mail d g m) as [r|].
  { case_decide; [by apply bump_within|done]. }
  set (d1 := match quota_rejection _ _ _ _ with None => d | Some _ => _ end).
  assert (within_quota quota d1) as H1 by (unfold d1; case_match; [by apply prune_within|done]). clearbody d1.
  destruct (quota_rejection _ _ _ _) as [rej|] eqn:Hnone; [done|]. destruct (decide (g = f)) as [->|Hne]; [|by apply append_other_within].
  destruct (Hop eq_refl) as [Hle Hdep]. eapply (admitted_within q quota d1 dep (mk_mail (rd_sequence d1 + 1) f m h hint s _ c (default MEMBER_DEPOSITOR dep))); done.
Qed.

End quotas.

(** * Rotation *)

Section rotation.
Context `{C : Crypto} `{B : Base64}.

(** The credentials the families answer to; no two are the same. *)
Definition credentials (d : relay_db) : list bytes := rd_families d ≫= (fun f => [fm_token f; fm_deposit_token f]).

Lemma credentials_elem d c : c ∈ credentials d <-> exists f, f ∈ rd_families d /\ (fm_token f = c \/ fm_deposit_token f = c).
Proof.
  unfold credentials. rewrite list_elem_of_bind. setoid_rewrite elem_of_cons. setoid_rewrite list_elem_of_singleton. naive_solver.
Qed.

Lemma find_none {A} (P : A -> bool) l : List.find P l = None <-> forall x, x ∈ l -> P x = false.
Proof.
  split; [intros H x Hx; eapply List.find_none in H; [exact H|by apply list_elem_of_In]|].
  induction l as [|x l IH]; cbn; intros H; [done|]. rewrite (H x) by left. apply IH. intros y Hy. apply H. by right.
Qed.

Lemma credential_unknown d c : get_family_by_credential_on d c = None <-> c ∉ credentials d.
Proof.
  unfold get_family_by_credential_on, get_family_on. rewrite credentials_elem. split.
  - intros H (f & Hf & Hc). destruct (List.find (has_token c) _) eqn:E1; [done|]. destruct (List.find _ _) eqn:E2 in H; [done|].
    rewrite find_none in E1, E2. specialize (E1 f Hf). specialize (E2 f Hf). unfold has_token in E1. bools. naive_solver.
  - intros H. rewrite (proj2 (find_none (has_token c) _)).
    + rewrite (proj2 (find_none _ _)); [done|]. intros f Hf. apply bool_decide_eq_false_2. naive_solver.
    + intros f Hf. apply bool_decide_eq_false_2. naive_solver.
Qed.

Lemma get_family_some d t f : get_family_on d t = Some f -> f ∈ rd_families d /\ fm_token f = t.
Proof. unfold get_family_on. intros [H1 H2]%List.find_some. unfold has_token in H2. bools. split; [by apply list_elem_of_In|done]. Qed.

(** Each credential names one family. *)
Lemma credential_family d f g : NoDup (credentials d) -> f ∈ rd_families d -> g ∈ rd_families d ->
  (fm_token f = fm_token g \/ fm_token f = fm_deposit_token g \/ fm_deposit_token f = fm_token g \/ fm_deposit_token f = fm_deposit_token g) -> f = g.
Proof.
  unfold credentials. induction (rd_families d) as [|x l IH]; intros Hn Hf Hg He; [by apply not_elem_of_nil in Hf|].
  cbn in Hn. apply NoDup_cons in Hn as [H1 Hn]. apply NoDup_cons in Hn as [H2 Hn].
  assert (forall y, y ∈ l -> fm_token y ∈ (l ≫= (fun f => [fm_token f; fm_deposit_token f])) /\ fm_deposit_token y ∈ (l ≫= (fun f => [fm_token f; fm_deposit_token f]))) as Hin.
  { intros y Hy. split; apply list_elem_of_bind; exists y; split; try done; [left|right; left]. }
  apply elem_of_cons in Hf as [->|Hf]; apply elem_of_cons in Hg as [->|Hg]; [done| | |by apply IH].
  - destruct (Hin _ Hg) as [Ha Hb]. rewrite not_elem_of_cons in H1. destruct H1 as [H1 H1']. destruct He as [E|[E|[E|E]]]; rewrite ?E in *; done.
  - destruct (Hin _ Hf) as [Ha Hb]. rewrite not_elem_of_cons in H1. destruct H1 as [H1 H1']. destruct He as [E|[E|[E|E]]]; rewrite ?E in *; done.
Qed.

(** ** What a rotation that succeeds did *)

Lemma rotated_inv d cur new auth d' fam moved :
  rotate_family_token d cur new auth = (d', Ok (Rotated fam moved)) ->
  exists row d1, get_family_on d cur = Some row /\ cur <> new
    /\ verify_rotation_signature (au_public_key auth) (rotation_signed_bytes cur new) (au_signature auth) = true
    /\ ((fm_rotation_pk row = Some (au_public_key auth) /\ d1 = d)
        \/ (fm_rotation_pk row = None /\ d1 = set_rotation_pk cur (au_public_key auth) d))
    /\ get_family_by_credential_on d1 new = None /\ get_family_by_credential_on d1 (deposit_token_for new) = None
    /\ move_collides cur new d1 = false /\ d' = move_family cur new d1 /\ get_family_on d' new = Some fam /\ moved = count_for_family d1 cur.
Proof.
  unfold rotate_family_token, rotation_row. intros H. destruct (get_family_on d cur) as [row|] eqn:Hrow.
  - destruct (decide (cur = new)) as [->|Hne].
    { rewrite bool_decide_eq_true_2 in H by done. destruct (check_rotation_authority _ _ _); [|done|done].
      unfold finish_rotation in H. by destruct (get_family_on d (fm_token row)). }
    rewrite bool_decide_eq_false_2 in H by done.
    assert (forall d1, finish_rotation d d1 row false cur new = (d', Ok (Rotated fam moved)) ->
      get_family_by_credential_on d1 new = None /\ get_family_by_credential_on d1 (deposit_token_for new) = None
      /\ move_collides cur new d1 = false /\ d' = move_family cur new d1 /\ get_family_on d' new = Some fam /\ moved = count_for_family d1 cur) as Hfin.
    { intros d1 Hf. unfold finish_rotation in Hf. destruct (_ || _) eqn:Hx in Hf; [done|]. apply orb_false_iff in Hx as [Hx1 Hx2].
      apply bool_decide_eq_false, eq_None_not_Some in Hx1, Hx2. destruct (move_collides cur new d1) eqn:Hm; [done|]. cbv zeta in Hf.
      destruct (get_family_on (move_family cur new d1) new) as [fam'|] eqn:Hg; [|done]. injection Hf as <- <- <-. done. }
    destruct (get_family_some _ _ _ Hrow) as [_ Htok].
    unfold check_rotation_authority in H. destruct (fm_rotation_pk row) as [pk|] eqn:Hpk.
    + destruct (bool_decide (pk = au_public_key auth)) eqn:Hk; [|done]. apply bool_decide_eq_true in Hk. subst pk. cbn [negb] in H.
      destruct (verify_rotation_signature _ _ _) eqn:Hv; [|done]. exists row, d. specialize (Hfin _ H). split_and!; try done; try apply Hfin. by left.
    + destruct (verify_rotation_signature _ _ _) eqn:Hv; [|done]. rewrite Htok in H. exists row, (set_rotation_pk cur (au_public_key auth) d).
      specialize (Hfin _ H). split_and!; try done; try apply Hfin. by right.
  - destruct (get_family_on d new) as [row|]; [|done]. cbn in H. destruct (check_rotation_authority _ _ _); [|done|done].
    unfold finish_rotation in H. by destruct (get_family_on d (fm_token row)).
Qed.

Lemma set_pk_credentials t pk d : credentials (set_rotation_pk t pk d) = credentials d.
Proof.
  unfold credentials, set_rotation_pk, update_families, with_families. cbn [rd_families].
  induction (rd_families d) as [|f l IH]; [done|]. cbn. rewrite IH. by destruct (has_token t f).
Qed.

Lemma fill_page_map h rows e b : (forall r, ml_sealed (h r) = ml_sealed r) -> fill_page (h <$> rows) e b = h <$> fill_page rows e b.
Proof.
  intros Hh. revert e b. induction rows as [|r rows IH]; intros e b; [done|]. cbn [fmap list_fmap fill_page]. cbv zeta. rewrite Hh.
  case_match; [done|]. cbn [fmap list_fmap]. by rewrite IH.
Qed.

(** The moved mail is fetched as it was. *)
Lemma moved_mail_fetched d cur new hints after limit now :
  ids_ok d -> (forall r, r ∈ rd_envelopes d -> ml_family_token r <> new) ->
  fetch_envelopes (move_family cur new d) new hints after limit now = fetch_envelopes d cur hints after limit now.
Proof.
  intros (Hi & _) Hnew. unfold fetch_envelopes. case_decide; [done|]. case_match; [done|]. f_equal. unfold fetch_rows. cbn [move_family rd_envelopes].
  assert (List.filter (fetchable new hints after now) (rekey_row cur new <$> rd_envelopes d)
          = rekey_row cur new <$> List.filter (fetchable cur hints after now) (rd_envelopes d)) as Hf.
  { clear Hi. induction (rd_envelopes d) as [|r l IH]; [done|]. cbn [fmap list_fmap List.filter].
    rewrite IH by (intros x Hx; apply Hnew; by right). specialize (Hnew r (list_elem_of_here _ _)).
    assert (fetchable new hints after now (rekey_row cur new r) = fetchable cur hints after now r) as ->; [|by case_match].
    unfold fetchable, rekey_row, of_family. destruct (bool_decide (ml_family_token r = cur)); cbn.
    - by rewrite bool_decide_eq_true_2.
    - by rewrite bool_decide_eq_false_2. }
  rewrite Hf, sort_sorted, sort_sorted by (by apply filter_sorted_ids || (rewrite <- list_fmap_compose; rewrite (list_fmap_ext _ ml_id);
    [by apply filter_sorted_ids|]; intros i r _; cbn; unfold rekey_row; by case_match)).
  rewrite <- fmap_take, fill_page_map by (intros r; unfold rekey_row; by case_match). rewrite <- list_fmap_compose. apply list_fmap_ext.
  intros i r _. cbn. unfold rekey_row. by case_match.
Qed.

(** The old pair of credentials names nobody any more. *)
Lemma moved_credentials d cur new row :
  NoDup (credentials d) -> get_family_on d cur = Some row -> new ∉ credentials d -> deposit_token_for new ∉ credentials d ->
  cur ∉ credentials (move_family cur new d) /\ fm_deposit_token row ∉ credentials (move_family cur new d).
Proof.
  intros Hn [Hrow Htok]%get_family_some Hnew Hdep.
  assert (forall c, c = fm_token row \/ c = fm_deposit_token row -> c ∉ credentials (move_family cur new d)) as H;
    [|split; apply H; [left; done|by right]].
  intros c Hc Hin. assert (c ∈ credentials d) as Hold by (apply credentials_elem; exists row; naive_solver).
  apply credentials_elem in Hin as (g' & Hg' & Hc'). cbn [move_family rd_families] in Hg'. apply list_elem_of_fmap in Hg' as (g & -> & Hg).
  unfold has_token in Hc'. destruct (bool_decide (fm_token g = cur)) eqn:E; cbn in Hc'.
  - destruct Hc' as [<-|<-]; done.
  - assert (g = row) as -> by (apply (credential_family d); try done; naive_solver). by bools.
Qed.

(** C17: a rotation cuts off the old credentials and loses no mail.  When a token is rotated, the request was signed -
    for this very pair of tokens - by the family's registered rotation key, or by the key that this first
    rotation registers.  From then on neither the old member token nor the old deposit token names a
    family; under the new token every query answers, envelope for envelope, what it answered under the old
    one, so a device that slept through continues from its cursor; and no device registered under the old
    token is woken any more. *)
Theorem rotation_moves_mail d cur new auth d' fam moved :
  rotate_family_token d cur new auth = (d', Ok (Rotated fam moved)) ->
  ids_ok d -> NoDup (credentials d) -> (forall r, r ∈ rd_envelopes d -> ml_family_token r <> new) ->
  exists row, get_family_on d cur = Some row
    /\ verify_rotation_signature (au_public_key auth) (rotation_signed_bytes cur new) (au_signature auth) = true
    /\ (fm_rotation_pk row = None \/ fm_rotation_pk row = Some (au_public_key auth))
    /\ get_family_by_credential_on d' cur = None /\ get_family_by_credential_on d' (fm_deposit_token row) = None
    /\ (forall hints after limit now, fetch_envelopes d' new hints after limit now = fetch_envelopes d cur hints after limit now)
    /\ moved = count_for_family d cur
    /\ forall hint now, push_device_tokens_for_hint d' cur hint now = [].
Proof.
  intros (row & d1 & Hrow & Hne & Hv & Hd1 & Hc1 & Hc2 & _ & -> & _ & ->)%rotated_inv Hi Hn Hmail.
  assert (rd_envelopes d1 = rd_envelopes d /\ rd_sequence d1 = rd_sequence d /\ credentials d1 = credentials d) as (Hm & Hs & Hcr).
  { destruct Hd1 as [[_ ->]|[_ ->]]; [done|]. split_and!; [done|done|apply set_pk_credentials]. }
  assert (ids_ok d1) as Hi1 by (unfold ids_ok; by rewrite Hm, Hs).
  assert (exists row1, get_family_on d1 cur = Some row1 /\ fm_deposit_token row1 = fm_deposit_token row) as (row1 & Hrow1 & Hdep).
  { destruct Hd1 as [[_ ->]|[_ ->]]; [by exists row|]. unfold get_family_on, set_rotation_pk, update_families, with_families in *. cbn [rd_families].
    clear -Hrow. induction (rd_families d) as [|f l IH]; [done|]. cbn in *. unfold has_token in *.
    destruct (bool_decide (fm_token f = cur)) eqn:E; cbn; rewrite E; [injection Hrow as ->; by eexists|auto]. }
  rewrite credential_unknown, Hcr in Hc1, Hc2. rewrite <- Hcr in Hn.
  destruct (moved_credentials d1 cur new row1 Hn Hrow1) as [Ha Hb]; [by rewrite Hcr..|].
  exists row. split_and!; [done|done|naive_solver|by apply credential_unknown|rewrite <- Hdep; by apply credential_unknown| | |].
  - intros hints after limit now. rewrite moved_mail_fetched; [|done|by rewrite Hm]. unfold fetch_envelopes, fetch_rows. by rewrite Hm.
  - unfold count_for_family. by rewrite Hm.
  - intros hint now. unfold push_device_tokens_for_hint. rewrite omap_none; [done|]. intros [[t dev] u] Hin.
    apply elem_of_map_to_list in Hin. cbn [move_family rd_push] in Hin. apply map_lookup_filter_Some in Hin as [_ Hx]. cbn in Hx |- *.
    rewrite decide_False; [done|]. by intros (-> & _).
Qed.
End rotation.

(** * A mailbox at work *)

Definition empty_db : relay_db := mk_relay_db [] 0 ∅ ∅ ∅ [].

Lemma empty_ids : ids_ok empty_db.
Proof. split_and!; [constructor|constructor|done]. Qed.

Definition toy_family : bytes := str "member-token-of-the-adams-family".
Definition toy_hint : bytes := replicate 8 x02.

(** A family, a letter from one of its own devices and one from a friend. *)
Definition toy_ops : list relay_op :=
  [OpProvision toy_family None (Some 1000) None None 5 [x07];
   OpPost toy_family (replicate 16 x01) 3 toy_hint [x0a; x0b] 900 10 1000 None;
   OpPost toy_family (replicate 16 x02) 3 toy_hint [x0c] 900 11 1000 (Some (str "friend"))].

Definition toy_mailbox : relay_db := relay_run (C := toy_crypto) (B := real_b64) empty_db toy_ops.

Definition toy_row : mail_row := mk_mail 1 toy_family (replicate 16 x01) 3 toy_hint [x0a; x0b] 900 10 MEMBER_DEPOSITOR.

Lemma toy_ids : ids_ok toy_mailbox.
Proof. apply run_ids, empty_ids. Qed.

Lemma relay_keeps_mail_witness :
  exists r', r' ∈ rd_envelopes (relay_run (C := toy_crypto) (B := real_b64) toy_mailbox [OpAck toy_family [2]; OpPrune 100]) /\ kept toy_row r'.
Proof.
  destruct (relay_keeps_mail (C := toy_crypto) (B := real_b64) [OpAck toy_family [2]; OpPrune 100] toy_mailbox toy_row toy_ids) as [[H|H] _].
  - vm_compute. left.
  - exact H.
  - exfalso. destruct H as (i & op & r' & Hi & Hr & (Hid & _) & Hm). destruct i as [|[|i]]; cbn in Hi; [| |done]; injection Hi as <-; cbn [may_delete] in Hm.
    + destruct Hm as [_ Hm]. apply list_elem_of_singleton in Hm. rewrite Hm in Hid. discriminate.
    + revert Hr Hm. generalize dependent r'. assert (rd_envelopes (relay_run (C := toy_crypto) (B := real_b64) toy_mailbox (take 1 [OpAck toy_family [2]; OpPrune 100])) = [toy_row])
        as -> by (vm_compute; reflexivity). intros r' _ Hr Hm. apply list_elem_of_singleton in Hr. subst r'. vm_compute in Hm. discriminate.
Defined.

Lemma walk_skips_nothing_witness :
  let turns := [mk_turn [] 1 20; mk_turn [OpAck toy_family [1]] 5 21] in
  exists r0, kept r0 (mk_mail 2 toy_family (replicate 16 x02) 3 toy_hint [x0c] 900 11 (str "friend"))
    /\ (r0 ∈ (walk (C := toy_crypto) (B := real_b64) toy_family [toy_hint] toy_mailbox 0 turns).1.1
        \/ passed_over (C := toy_crypto) (B := real_b64) toy_family [toy_hint] toy_mailbox 0 turns r0).
Proof.
  intros turns. pose proof (walk_skips_nothing (C := toy_crypto) (B := real_b64) toy_family [toy_hint] turns toy_mailbox 0 5 22
    (mk_mail 2 toy_family (replicate 16 x02) 3 toy_hint [x0c] 900 11 (str "friend")) toy_ids ltac:(lia)) as H.
  destruct (walk toy_family [toy_hint] toy_mailbox 0 turns) as [[rows d'] c] eqn:E. vm_compute in E. injection E as <- <- <-.
  apply H; [vm_compute; reflexivity|vm_compute; left|reflexivity|left|cbn; lia|cbn; lia].
Defined.

Definition toy_new_token : bytes := str "another-token-for-the-adams".

Definition toy_authority : RotationAuthority := mk_authority (replicate 32 x09) (replicate 64 x09).

Lemma rotation_moves_mail_witness :
  exists row, get_family_on toy_mailbox toy_family = Some row
    /\ get_family_by_credential_on (rotate_family_token (C := toy_crypto) (B := real_b64) toy_mailbox toy_family toy_new_token toy_authority).1
         (fm_deposit_token row) = None
    /\ forall hints after limit now,
         fetch_envelopes (rotate_family_token (C := toy_crypto) (B := real_b64) toy_mailbox toy_family toy_new_token toy_authority).1
           toy_new_token hints after limit now
         = fetch_envelopes toy_mailbox toy_family hints after limit now.
Proof.
  destruct (rotate_family_token (C := toy_crypto) (B := real_b64) toy_mailbox toy_family toy_new_token toy_authority) as [d' o] eqn:Hr.
  destruct o as [[fam moved| | | |]|]; try (vm_compute in Hr; discriminate).
  destruct (rotation_moves_mail (C := toy_crypto) (B := real_b64) toy_mailbox toy_family toy_new_token toy_authority d' fam moved Hr toy_ids)
    as (row & H1 & _ & _ & _ & H5 & H6 & _).
  - apply (bool_decide_eq_true_1 (NoDup (credentials toy_mailbox))). vm_compute. reflexivity.
  - apply Forall_forall. apply (bool_decide_eq_true_1 (Forall (fun r => ml_family_token r <> toy_new_token) (rd_envelopes toy_mailbox))).
    vm_compute. reflexivity.
  - exists row. split; [exact H1|]. split; [exact H5|exact H6].
Defined.
