(* ===== verification/RelayDaemon.v ===== *)
(** The relay daemon's requests ([relayd/src/lib.rs]): which family and which class a
    credential names and what it may do, and the handler of every route that reads or
    changes a mailbox, on the database of [RelayMailbox.v].

    A handler is a function of the configuration, the database, the bearer header, the
    parsed body and the clock (read once for the authorization and once for the work).
    The rate limiter is floating-point arithmetic over monotonic time and is not modelled:
    its answer to a request is an argument.  The gate before authentication with its
    cache of hosted credentials, sockets, push delivery and logging are left out;
    [post_envelope] returns what it broadcasts. *)
From stdpp Require Import base numbers list gmap strings sorting.
From coqutil Require Import Datatypes.RecordSetters.
From S2P Require Import Prelude StdModel SqlModel Wire Crypto RelayPolicy RelayWire RelayMailbox.
Import TriangleBracketNotations.

Definition FAMILY_EXPIRY_GRACE_MS : Z := 7 * 24 * 60 * 60 * 1000.
Definition MAX_FAMILY_TOKEN_LEN : Z := 1024.
Definition MIN_ROTATION_TOKEN_LEN : Z := 24.
Definition ROTATION_PK_LEN : Z := 32.
Definition ROTATION_SIG_LEN : Z := 64.
Definition DEFAULT_FAMILY_LIST_LIMIT : Z := 100.
Definition MAX_FAMILY_LIST_LIMIT : Z := 500.
Definition MAX_PRESENCE_ANNOUNCE : Z := 4.
Definition MAX_PRESENCE_QUERY : Z := 512.
Definition MAX_DEPOSIT_PRESENCE_QUERY : Z := 8.
Definition PRESENCE_BUCKET_ACTIVE_MS : Z := 150000.
Definition PRESENCE_BUCKET_RECENT_MS : Z := 15 * 60 * 1000.
Definition PRESENCE_BUCKET_DAY_MS : Z := 24 * 60 * 60 * 1000.

(** The server's configuration: the static families and the default quota. *)
Record AppState : Type := mk_app {
  as_auth_tokens : list bytes;
  as_family_quota_bytes : Z;
  as_admin_token : option bytes;
}.

Inductive ApiError : Type :=
| BadRequest (message : string)
| Unauthorized (message : string)
| NotFound
| RateLimited (retry_after_secs : Z)
| DepositOnly
| PresenceQueryOnly
| FamilySuspended
| FamilyExpired (read_only_grace : bool)
| EnvelopeTooLarge (sealed_len : Z)
| FamilyQuotaExceeded (usage_bytes quota_bytes : Z)
| DepositShareFull (scope : DepositShareScope) (usage_bytes share_bytes quota_bytes : Z)
| MsgIdConflictError
| RotationUnsupported
| RotationTokenTaken
| RotationRefused
| Internal (detail : string).

(** [map_err(ApiError::internal)] *)
Definition internal {A} (r : result string A) : result ApiError A := match r with Ok a => Ok a | Err e => Err (Internal e) end.

(** * Authorization *)

Inductive FamilyOp : Type := PostOp | ReadOp | PresenceOp | RotateOp | StatusOp.

#[global] Instance FamilyOp_eq_dec : EqDecision FamilyOp.
Proof. solve_decision. Defined.

Definition allowed_for_deposit (op : FamilyOp) : bool := match op with PostOp | PresenceOp => true | _ => false end.

Record FamilyAccess : Type := mk_access {
  fa_token : bytes;
  fa_class : TokenClass;
  fa_rate_key : bytes;
  fa_family_key : bytes;
  fa_quota_bytes : Z;
  fa_depositor : option bytes;
}.

Definition family_limit_key (family_id token : bytes) : bytes := if decide (family_id = []) then token else family_id.

Definition family_rate_key (class : TokenClass) (family_key : bytes) : bytes :=
  match class with Member => str "member" | Deposit => str "deposit" end ++ str ":" ++ family_key.

Definition raw_bearer_token (authorization : option bytes) : result ApiError bytes :=
  match authorization with
  | None => Err (Unauthorized "missing Authorization header")
  | Some auth =>
      match strip_prefix (str "Bearer ") auth with
      | Some token => Ok token
      | None => Err (Unauthorized "Authorization must be Bearer <token>")
      end
  end.

(** The suspension and the expiry of a provisioned family. *)
Definition check_billing (family : FamilyRow) (op : FamilyOp) (now_ms : Z) : result ApiError unit :=
  if decide (op = StatusOp) then Ok tt
  else
    _ ← ensure (bool_decide (fm_status family = ACTIVE)) FamilySuspended;
    match fm_expires_ms family with
    | None => Ok tt
    | Some expires_ms =>
        _ ← ensure (now_ms <=? i64_saturating_add expires_ms FAMILY_EXPIRY_GRACE_MS) (FamilyExpired false);
        ensure (negb ((expires_ms <? now_ms) && bool_decide (op = PostOp))) (FamilyExpired true)
    end.

Section daemon.
Context `{C : Crypto} `{B : Base64}.

(** [static_deposit_tokens]: the post-only counterparts of the static tokens. *)
Definition static_deposit_tokens (st : AppState) : gmap bytes bytes :=
  list_to_map ((fun t => (deposit_token_for t, t)) <$> as_auth_tokens st).

Definition authorize_family (st : AppState) (d : relay_db) (token : bytes) (op : FamilyOp) (now_ms : Z) : result ApiError FamilyAccess :=
  if decide (token ∈ as_auth_tokens st) then
    Ok (mk_access token Member (family_rate_key Member token) token (as_family_quota_bytes st) None)
  else
    match static_deposit_tokens st !! token with
    | Some member =>
        if negb (allowed_for_deposit op) then Err DepositOnly
        else Ok (mk_access member Deposit (family_rate_key Deposit member) member (as_family_quota_bytes st) (Some token))
    | None =>
        match get_family_by_credential_on d token with
        | None => Err (Unauthorized "unknown family token")
        | Some (family, class) =>
            if bool_decide (class = Deposit) && negb (allowed_for_deposit op) then Err DepositOnly
            else
              _ ← check_billing family op now_ms;
              let family_key := family_limit_key (fm_family_id family) (fm_token family) in
              Ok (mk_access (fm_token family) class (family_rate_key class family_key) family_key
                    (default (as_family_quota_bytes st) (fm_quota_bytes family))
                    (match class with Member => None | Deposit => Some token end))
        end
    end.

Definition authorize_bearer (st : AppState) (d : relay_db) (authorization : option bytes) (op : FamilyOp) (now_ms : Z) : result ApiError FamilyAccess :=
  token ← raw_bearer_token authorization; authorize_family st d token op now_ms.

Definition authorize_admin (st : AppState) (authorization : option bytes) : result ApiError unit :=
  match as_admin_token st with
  | None => Err NotFound
  | Some expected =>
      provided ← raw_bearer_token authorization;
      ensure (bool_decide (provided = expected)) (Unauthorized "unknown admin token")
  end.

(** * Fields *)

Definition decode_base64_field (value : bytes) (field : string) : result ApiError bytes :=
  match b64_decode_opt value with Some b => Ok b | None => Err (BadRequest (field +:+ " must be base64url without padding")) end.

Definition encode_base64_field (b : bytes) : bytes := b64_encode b.

Definition decode_fixed_base64_field (n : Z) (value : option bytes) (field : string) : result ApiError bytes :=
  match value with
  | None => Err (BadRequest (field +:+ " is required"))
  | Some value =>
      b ← decode_base64_field value field;
      _ ← ensure (blen b =? n) (BadRequest (field +:+ " has the wrong length"));
      Ok b
  end.

(** [value.split(',')] *)
Fixpoint split_commas (s : bytes) : list bytes :=
  match s with
  | [] => [[]]
  | b :: s' =>
      if decide (b = x2c) then [] :: split_commas s'
      else match split_commas s' with w :: ws => (b :: w) :: ws | [] => [[b]] end
  end.

(** [if seen.insert(hint) { out.push(hint) }] *)
Definition push_distinct (out : list bytes) (hint : bytes) : list bytes := if decide (hint ∈ out) then out else out ++ [hint].

(** The loop over the submitted hints. *)
Fixpoint fetch_hints_loop (values : list bytes) (submitted : Z) (hints : list bytes) : result ApiError (list bytes) :=
  match values with
  | [] => Ok hints
  | value :: values =>
      let submitted := submitted + 1 in
      _ ← ensure (submitted <=? MAX_FETCH_HINTS) (BadRequest "too many hints");
      hint ← decode_base64_field value "hints";
      _ ← ensure (blen hint =? RECIPIENT_HINT_LEN) (BadRequest "each hint must be 8 bytes");
      fetch_hints_loop values submitted (push_distinct hints hint)
  end.

Definition decode_fetch_hints (value : bytes) : result ApiError (list bytes) :=
  hints ← fetch_hints_loop (List.filter (fun h => negb (bool_decide (h = []))) (split_commas value)) 0 [];
  _ ← ensure (negb (bool_decide (hints = []))) (BadRequest "at least one hint is required");
  Ok hints.

(** [decode_presence_hints], and the loop of [put_push_registration]. *)
Fixpoint decode_hints (values : list bytes) (field : string) (out : list bytes) : result ApiError (list bytes) :=
  match values with
  | [] => Ok out
  | value :: values =>
      hint ← decode_base64_field value field;
      _ ← ensure (blen hint =? RECIPIENT_HINT_LEN) (BadRequest (field +:+ " entries must be 8 bytes"));
      decode_hints values field (push_distinct out hint)
  end.

(** * Mail *)

Record EnvelopeResponse : Type := mk_envelope_response {
  er_id : Z;
  er_msg_id : bytes;
  er_hop_ttl : Z;
  er_recipient_hint : bytes;
  er_sealed : bytes;
  er_expiry_ms : Z;
  er_created_at_ms : Z;
}.

Record BroadcastEnvelope : Type := mk_broadcast { bc_family_token : bytes; bc_recipient_hint : bytes; bc_envelope : EnvelopeResponse }.

(** The limiter's answers for one request: to the request, and to its bytes. *)
Record limiter : Type := mk_limiter { lm_request : result ApiError unit; lm_bytes : result ApiError unit }.

(** The checks before the store: what is posted, decoded. *)
Definition check_post (lim : limiter) (request : PostEnvelopeWire) : result ApiError (bytes * bytes * bytes) :=
  _ ← lm_request lim;
  msg_id ← decode_base64_field (pw_msg_id request) "msg_id";
  _ ← ensure (blen msg_id =? MSG_ID_LEN) (BadRequest "msg_id must be 16 bytes");
  recipient_hint ← decode_base64_field (pw_recipient_hint request) "recipient_hint";
  _ ← ensure (blen recipient_hint =? RECIPIENT_HINT_LEN) (BadRequest "recipient_hint must be 8 bytes");
  sealed ← decode_base64_field (pw_sealed request) "sealed";
  _ ← ensure (negb (bool_decide (sealed = []))) (BadRequest "sealed must not be empty");
  _ ← ensure (blen sealed <=? MAX_ENVELOPE_SEALED_BYTES) (EnvelopeTooLarge (blen sealed));
  _ ← lm_bytes lim;
  Ok (msg_id, recipient_hint, sealed).

Definition post_envelope (st : AppState) (d : relay_db) (authorization : option bytes) (lim : limiter) (request : PostEnvelopeWire) (auth_now now : Z)
  : relay_db * result ApiError (Z * BroadcastEnvelope) :=
  match (access ← authorize_bearer st d authorization PostOp auth_now; fields ← check_post lim request; Ok (access, fields)) with
  | Err e => (d, Err e)
  | Ok (access, (msg_id, recipient_hint, sealed)) =>
      let expiry_ms_req := match fa_class access with
                           | Deposit => Z.min (pw_expiry_ms request) (i64_saturating_add now MAX_DEPOSIT_RETENTION_MS)
                           | Member => pw_expiry_ms request
                           end in
      let '(d, r) := insert_envelope_with_quota d (fa_token access) msg_id (pw_hop_ttl request) recipient_hint sealed expiry_ms_req now
                       (fa_quota_bytes access) (fa_depositor access) in
      (d, match r with
          | Err e => Err (Internal e)
          | Ok (QuotaExceeded usage) => Err (FamilyQuotaExceeded usage (fa_quota_bytes access))
          | Ok (DepositShareExceeded scope usage share) => Err (DepositShareFull scope usage share (fa_quota_bytes access))
          | Ok QuotaMsgIdConflict => Err MsgIdConflictError
          | Ok (QuotaStored id) =>
              Ok (id, mk_broadcast (fa_token access) (encode_base64_field recipient_hint)
                        (mk_envelope_response id (encode_base64_field msg_id) (pw_hop_ttl request) (encode_base64_field recipient_hint)
                           (encode_base64_field sealed) (effective_expiry now expiry_ms_req) now))
          end)
  end.

Record GetEnvelopesQuery : Type := mk_get_query { gq_hints : bytes; gq_after : option Z; gq_limit : option Z }.

Record GetEnvelopesResponse : Type := mk_get_response { gr_envelopes : list EnvelopeResponse; gr_next_cursor : Z }.

Definition envelope_response (row : StoredEnvelope) : EnvelopeResponse :=
  mk_envelope_response (se_id row) (encode_base64_field (se_msg_id row)) (se_hop_ttl row) (encode_base64_field (se_recipient_hint row))
    (encode_base64_field (se_sealed row)) (se_expiry_ms row) (se_created_at_ms row).

Definition get_envelopes (st : AppState) (d : relay_db) (authorization : option bytes) (lim : limiter) (query : GetEnvelopesQuery) (auth_now now : Z)
  : result ApiError GetEnvelopesResponse :=
  access ← authorize_bearer st d authorization ReadOp auth_now;
  _ ← lm_request lim;
  hints ← decode_fetch_hints (gq_hints query);
  let after := default 0 (gq_after query) in
  _ ← ensure (0 <=? after) (BadRequest "after must be non-negative");
  let limit := Z.min (default DEFAULT_FETCH_LIMIT (gq_limit query)) MAX_FETCH_LIMIT in
  rows ← internal (fetch_envelopes d (fa_token access) hints after limit now);
  Ok (mk_get_response (envelope_response <$> rows) (default after (se_id <$> last rows))).

Definition ack_handler (st : AppState) (d : relay_db) (authorization : option bytes) (lim : limiter) (ids : list Z) (auth_now : Z)
  : relay_db * result ApiError Z :=
  match (access ← authorize_bearer st d authorization ReadOp auth_now;
         _ ← lm_request lim;
         _ ← ensure (blen ids <=? MAX_ACK_IDS) (BadRequest "too many ids");
         _ ← ensure (forallb (fun id => 0 <? id) ids) (BadRequest "ids must contain only positive relay ids");
         Ok access) with
  | Err e => (d, Err e)
  | Ok access => let '(d, r) := ack_envelopes d (fa_token access) (dedup (merge_sort Z.le ids)) in (d, internal r)
  end.

(** * Push and presence *)

Record PutPushRegistrationRequest : Type := mk_push_request { pp_device_token : bytes; pp_hints : list bytes }.

Definition is_ascii_hexdigit (b : byte) : bool :=
  let z := Z_of_byte b in ((48 <=? z) && (z <=? 57)) || ((65 <=? z) && (z <=? 70)) || ((97 <=? z) && (z <=? 102)).

Definition put_push_registration (st : AppState) (d : relay_db) (authorization : option bytes) (lim : limiter) (request : PutPushRegistrationRequest)
  (auth_now now : Z) : relay_db * result ApiError Z :=
  let device_token := to_ascii_lowercase (trim (pp_device_token request)) in
  match (access ← authorize_bearer st d authorization ReadOp auth_now;
         _ ← lm_request lim;
         _ ← ensure ((32 <=? blen device_token) && (blen device_token <=? 200) && (blen device_token mod 2 =? 0) && forallb is_ascii_hexdigit device_token)
               (BadRequest "device_token must be an even-length hexadecimal APNs token");
         _ ← ensure (negb (bool_decide (pp_hints request = [])) && (blen (pp_hints request) <=? MAX_PUSH_HINTS)) (BadRequest "hints count");
         hints ← decode_hints (pp_hints request) "hint" [];
         Ok (access, hints)) with
  | Err e => (d, Err e)
  | Ok (access, hints) =>
      let '(d, r) := replace_push_registration d (fa_token access) device_token hints now in
      (d, match r with Ok _ => Ok (blen hints) | Err e => Err (Internal e) end)
  end.

Record PresenceItem : Type := mk_presence_item { pi_hint : bytes; pi_last_seen_ms : Z; pi_recency : option bytes }.
Record PresenceAnswer : Type := mk_presence_answer { pa_now_ms : Z; pa_presence : list PresenceItem }.

Definition coarse_presence (age_ms now_ms : Z) : bytes * Z :=
  let '(bucket, ceiling) :=
    if age_ms <=? PRESENCE_BUCKET_ACTIVE_MS then (str "active", PRESENCE_BUCKET_ACTIVE_MS)
    else if age_ms <=? PRESENCE_BUCKET_RECENT_MS then (str "recent", PRESENCE_BUCKET_RECENT_MS)
    else if age_ms <=? PRESENCE_BUCKET_DAY_MS then (str "day", PRESENCE_BUCKET_DAY_MS)
    else (str "older", PRESENCE_RETENTION_MS) in
  (bucket, i64_saturating_sub now_ms (i64_saturating_sub ceiling 1)).

Definition presence_item (cross_family : bool) (now : Z) (row : StoredPresence) : PresenceItem :=
  if cross_family then
    let age := Z.max (i64_saturating_sub now (sp_last_seen_ms row)) 0 in
    let '(recency, last_seen_ms) := coarse_presence age now in
    mk_presence_item (encode_base64_field (sp_hint row)) last_seen_ms (Some recency)
  else mk_presence_item (encode_base64_field (sp_hint row)) (sp_last_seen_ms row) None.

(** The route of the same name; [lm_request] is the answer of the presence bucket for a
    deposit credential and of the family's bucket for a member. *)
Definition presence_handler (st : AppState) (d : relay_db) (authorization : option bytes) (lim : limiter) (request : PresenceRequest) (auth_now now : Z)
  : relay_db * result ApiError PresenceAnswer :=
  match (access ← authorize_bearer st d authorization PresenceOp auth_now;
         let cross_family := bool_decide (fa_class access = Deposit) in
         _ ← lm_request lim;
         _ ← ensure (negb (cross_family && negb (bool_decide (pq_announce request = [])))) PresenceQueryOnly;
         let query_cap := if cross_family then MAX_DEPOSIT_PRESENCE_QUERY else MAX_PRESENCE_QUERY in
         _ ← ensure (blen (pq_announce request) <=? MAX_PRESENCE_ANNOUNCE) (BadRequest "too many announced hints");
         _ ← ensure (blen (pq_query request) <=? query_cap) (BadRequest "too many queried hints");
         announce ← decode_hints (pq_announce request) "announce" [];
         query ← decode_hints (pq_query request) "query" [];
         Ok (access, cross_family, announce, query)) with
  | Err e => (d, Err e)
  | Ok (access, cross_family, announce, query) =>
      let '(d, rows) := sync_presence d (fa_token access) announce query now in
      (d, Ok (mk_presence_answer now (presence_item cross_family now <$> rows)))
  end.

(** * A family's own routes *)

(** [char::is_control]: the general category Cc. *)
Definition is_control (c : Z) : bool := ((0 <=? c) && (c <=? 31)) || ((127 <=? c) && (c <=? 159)).

(** [token.chars().any(|c| c.is_whitespace() || c.is_control())] *)
Definition has_blank (token : bytes) : bool :=
  match utf8_chars token with Some cs => existsb (fun c => is_whitespace c || is_control c) cs | None => true end.

Record RotateBody : Type := mk_rotate_body { rb_new_token : bytes; rb_rotation_pk : option bytes; rb_rotation_sig : option bytes }.

(** The checks before the store: the replacement token and the authority. *)
Definition check_rotate (st : AppState) (request : RotateBody) : result ApiError (bytes * RotationAuthority) :=
  let new_token := trim (rb_new_token request) in
  _ ← ensure ((MIN_ROTATION_TOKEN_LEN <=? blen new_token) && (blen new_token <=? MAX_FAMILY_TOKEN_LEN)) (BadRequest "new_token length");
  _ ← ensure (negb (has_blank new_token)) (BadRequest "new_token must not contain whitespace or control characters");
  _ ← ensure (negb (is_deposit_token new_token)) (BadRequest "new_token must not start with the deposit-token prefix");
  _ ← ensure (negb (is_family_id new_token)) (BadRequest "new_token must not start with the family-id prefix");
  _ ← ensure (negb (bool_decide (as_admin_token st = Some new_token) || bool_decide (new_token ∈ as_auth_tokens st)
                    || bool_decide (is_Some (static_deposit_tokens st !! new_token)))) RotationTokenTaken;
  public_key ← decode_fixed_base64_field ROTATION_PK_LEN (rb_rotation_pk request) "rotation_pk";
  signature ← decode_fixed_base64_field ROTATION_SIG_LEN (rb_rotation_sig request) "rotation_sig";
  Ok (new_token, mk_authority public_key signature).

Definition rotate_family (st : AppState) (d : relay_db) (authorization : option bytes) (lim : limiter) (request : RotateBody) (auth_now : Z)
  : relay_db * result ApiError RotateFamilyResponse :=
  match (access ← authorize_bearer st d authorization RotateOp auth_now; _ ← lm_request lim; fields ← check_rotate st request; Ok (access, fields)) with
  | Err e => (d, Err e)
  | Ok (access, (new_token, authority)) =>
      let '(d, r) := rotate_family_token d (fa_token access) new_token authority in
      (d, match r with
          | Err e => Err (Internal e)
          | Ok (Rotated family moved) => Ok (mk_rotate_response (fm_token family) (fm_deposit_token family) moved true)
          | Ok (AlreadyRotated family) => Ok (mk_rotate_response (fm_token family) (fm_deposit_token family) 0 false)
          | Ok UnknownFamily => Err RotationUnsupported
          | Ok TokenTaken => Err RotationTokenTaken
          | Ok RotationUnauthorized => Err RotationRefused
          end)
  end.

Definition family_pass_state (row : FamilyRow) (now_ms : Z) : bytes :=
  if negb (bool_decide (fm_status row = ACTIVE)) then str "suspended"
  else match fm_expires_ms row with
       | Some expires_ms =>
           if i64_saturating_add expires_ms FAMILY_EXPIRY_GRACE_MS <? now_ms then str "suspended"
           else if expires_ms <? now_ms then str "grace"
           else str "active"
       | None => str "active"
       end.

Definition family_status (st : AppState) (d : relay_db) (authorization : option bytes) (lim : limiter) (auth_now now : Z)
  : result ApiError FamilyStatusResponse :=
  access ← authorize_bearer st d authorization StatusOp auth_now;
  _ ← lm_request lim;
  match get_family_on d (fa_token access) with
  | None => Ok (mk_family_status_response None None (str "active"))
  | Some family => Ok (mk_family_status_response (fm_plan family) (fm_expires_ms family) (family_pass_state family now))
  end.

(** * The operator's routes *)

Record ProvisionFamilyRequest : Type := mk_provision {
  pv_token : bytes; pv_plan : option bytes; pv_quota_bytes : option Z; pv_expires_ms : option Z; pv_note : option bytes }.

Record PatchFamilyRequest : Type := mk_patch {
  pt_status : option bytes; pt_plan : option bytes; pt_quota_bytes : option Z; pt_expires_ms : option Z; pt_note : option bytes }.

(** The row, with its effective quota and its usage. *)
Record FamilyResponse : Type := mk_family_response { fy_row : FamilyRow; fy_effective_quota_bytes : Z; fy_usage_bytes : Z; fy_envelope_count : Z }.

Definition family_response_with_usage (st : AppState) (row : FamilyRow) (usage_bytes envelope_count : Z) : FamilyResponse :=
  mk_family_response row (default (as_family_quota_bytes st) (fm_quota_bytes row)) usage_bytes envelope_count.

Definition family_response (st : AppState) (d : relay_db) (row : FamilyRow) : FamilyResponse :=
  family_response_with_usage st row (family_sealed_bytes_on d (fm_token row)) (count_for_family d (fm_token row)).

Definition validate_quota_bytes (quota_bytes : option Z) : result ApiError unit :=
  ensure (negb (bool_decide (quota_bytes = Some 0))) (BadRequest "quota_bytes must be greater than 0").

Definition SUSPENDED : bytes := str "suspended".

Definition validate_status (status : option bytes) : result ApiError unit :=
  match status with
  | Some status => ensure (bool_decide (status = ACTIVE) || bool_decide (status = SUSPENDED)) (BadRequest "status must be active or suspended")
  | None => Ok tt
  end.

Definition check_provision (st : AppState) (request : ProvisionFamilyRequest) : result ApiError bytes :=
  let token := trim (pv_token request) in
  _ ← ensure (negb (bool_decide (token = [])) && (blen token <=? MAX_FAMILY_TOKEN_LEN)) (BadRequest "token length");
  _ ← ensure (negb (has_blank token)) (BadRequest "token must not contain whitespace or control characters");
  _ ← ensure (negb (bool_decide (as_admin_token st = Some token) || bool_decide (token ∈ as_auth_tokens st)))
        (BadRequest "token collides with a server-configured token");
  _ ← ensure (negb (is_deposit_token token)) (BadRequest "token must not start with the deposit-token prefix");
  _ ← ensure (negb (is_family_id token)) (BadRequest "token must not start with the family-id prefix");
  _ ← validate_quota_bytes (pv_quota_bytes request);
  Ok token.

Definition admin_provision_family (st : AppState) (d : relay_db) (authorization : option bytes) (request : ProvisionFamilyRequest) (now : Z) (minted : bytes)
  : relay_db * result ApiError FamilyResponse :=
  match (_ ← authorize_admin st authorization; check_provision st request) with
  | Err e => (d, Err e)
  | Ok token =>
      let d := upsert_family d token (pv_plan request) (pv_quota_bytes request) (pv_expires_ms request) (pv_note request) now minted in
      (d, match get_family_on d token with
          | Some row => Ok (family_response st d row)
          | None => Err (Internal "family vanished after upsert")
          end)
  end.

Definition admin_get_family (st : AppState) (d : relay_db) (authorization : option bytes) (id_or_token : bytes) : result ApiError FamilyResponse :=
  _ ← authorize_admin st authorization;
  match resolve_family_on d id_or_token with Some row => Ok (family_response st d row) | None => Err NotFound end.

Definition admin_patch_family (st : AppState) (d : relay_db) (authorization : option bytes) (id_or_token : bytes) (request : PatchFamilyRequest)
  : relay_db * result ApiError FamilyResponse :=
  match (_ ← authorize_admin st authorization;
         _ ← validate_status (pt_status request);
         _ ← validate_quota_bytes (pt_quota_bytes request);
         match resolve_family_on d id_or_token with Some row => Ok (fm_token row) | None => Err NotFound end) with
  | Err e => (d, Err e)
  | Ok token =>
      let d := patch_family d token (pt_status request) (pt_plan request) (pt_quota_bytes request) (pt_expires_ms request) (pt_note request) in
      (d, match get_family_on d token with Some row => Ok (family_response st d row) | None => Err NotFound end)
  end.

Definition admin_delete_family (st : AppState) (d : relay_db) (authorization : option bytes) (id_or_token : bytes) : relay_db * result ApiError unit :=
  match (_ ← authorize_admin st authorization;
         match resolve_family_on d id_or_token with Some row => Ok (fm_token row) | None => Err NotFound end) with
  | Err e => (d, Err e)
  | Ok token => let '(d, deleted) := delete_family d token in (d, if deleted then Ok tt else Err NotFound)
  end.

(** The bounds of the page are parsed by the caller of this definition. *)
Record ListFamiliesQuery : Type := mk_list_query { lq_status : option bytes; lq_limit : option Z; lq_offset : option Z }.

Definition admin_list_families (st : AppState) (d : relay_db) (authorization : option bytes) (query : ListFamiliesQuery)
  : result ApiError (list FamilyResponse * Z) :=
  _ ← authorize_admin st authorization;
  _ ← validate_status (lq_status query);
  let limit := Z.min (Z.max (default DEFAULT_FAMILY_LIST_LIMIT (lq_limit query)) 1) MAX_FAMILY_LIST_LIMIT in
  let page := list_families d (lq_status query) limit (default 0 (lq_offset query)) in
  Ok ((fun e => family_response_with_usage st (fu_family e) (fu_usage_bytes e) (fu_envelope_count e)) <$> fp_families page, fp_total page).
End daemon.

(** * Who may do what *)

(** A request to a route of a family. *)
Inductive relay_request : Type :=
| ReqPost (request : PostEnvelopeWire)
| ReqGet (query : GetEnvelopesQuery)
| ReqAck (ids : list Z)
| ReqPush (request : PutPushRegistrationRequest)
| ReqPresence (request : PresenceRequest)
| ReqRotate (request : RotateBody)
| ReqStatus.

Section access.
Context `{C : Crypto} `{B : Base64}.

Definition bearer (token : bytes) : option bytes := Some (str "Bearer " ++ token).

(** The database after the request. *)
Definition serve (st : AppState) (d : relay_db) (token : bytes) (lim : limiter) (req : relay_request) (auth_now now : Z) : relay_db :=
  match req with
  | ReqPost request => (post_envelope st d (bearer token) lim request auth_now now).1
  | ReqAck ids => (ack_handler st d (bearer token) lim ids auth_now).1
  | ReqPush request => (put_push_registration st d (bearer token) lim request auth_now now).1
  | ReqPresence request => (presence_handler st d (bearer token) lim request auth_now now).1
  | ReqRotate request => (rotate_family st d (bearer token) lim request auth_now).1
  | ReqGet _ | ReqStatus => d
  end.

(** The family a credential belongs to, and its class. *)
Definition credential_of (st : AppState) (d : relay_db) (token : bytes) : option (bytes * TokenClass) :=
  if decide (token ∈ as_auth_tokens st) then Some (token, Member)
  else match static_deposit_tokens st !! token with
       | Some member => Some (member, Deposit)
       | None => (fun fc => (fm_token fc.1, fc.2)) <$> get_family_by_credential_on d token
       end.

Lemma bearer_token token : raw_bearer_token (bearer token) = Ok token.
Proof. done. Qed.

Lemma authorize_credential st d token op now a : authorize_bearer st d (bearer token) op now = Ok a ->
  credential_of st d token = Some (fa_token a, fa_class a) /\ (fa_class a = Deposit -> allowed_for_deposit op = true)
  /\ fa_depositor a = match fa_class a with Member => None | Deposit => Some token end.
Proof.
  unfold authorize_bearer. rewrite bearer_token. cbn [result_bind mbind]. unfold authorize_family, credential_of. intros H.
  destruct (decide (token ∈ as_auth_tokens st)); [by injection H as <-|].
  destruct (static_deposit_tokens st !! token) as [member|].
  { destruct (allowed_for_deposit op); cbn in H; [|done]. by injection H as <-. }
  destruct (get_family_by_credential_on d token) as [[family class]|]; [|done].
  destruct (bool_decide (class = Deposit) && negb (allowed_for_deposit op)) eqn:Hc; [done|].
  destruct (check_billing family op now); cbn in H; [|done]. injection H as <-. cbn. split_and!; [done| |by destruct class].
  intros ->. by destruct (allowed_for_deposit op).
Qed.

(** A family the relay serves. *)
Definition served (st : AppState) (d : relay_db) (g : bytes) : Prop := g ∈ as_auth_tokens st \/ is_Some (get_family_on d g).

(** [g]'s mailbox is as it was, but for what has expired. *)
Definition untouched (g : bytes) (now : Z) (d d' : relay_db) : Prop :=
  forall r, ml_family_token r = g ->
    (r ∈ rd_envelopes d' -> r ∈ rd_envelopes d) /\ (r ∈ rd_envelopes d -> mail_expired now r = false -> r ∈ rd_envelopes d').

Lemma untouched_refl g now d : untouched g now d d.
Proof. by intros r _. Qed.

Lemma untouched_mail g now d d1 d2 : rd_envelopes d2 = rd_envelopes d1 -> untouched g now d d1 -> untouched g now d d2.
Proof. intros E H r Hr. rewrite E. by apply H. Qed.

Lemma untouched_prune g now d : untouched g now d (prune_expired_on d now).1.
Proof.
  intros r _. cbn [prune_expired_on fst rd_envelopes]. rewrite !list_elem_of_In, filter_In. split; [tauto|]. intros H He. by rewrite He.
Qed.

Lemma untouched_bump g now d f m h e : f <> g -> untouched g now d (bump_mail d f m h e).
Proof.
  intros Hne r Hr. cbn [bump_mail with_mail rd_envelopes]. rewrite list_elem_of_fmap. split.
  - intros (x & Hx & Hin). unfold bump_row, same_mail in Hx. destruct (bool_decide (ml_family_token x = f)) eqn:E; cbn in Hx; [|by subst].
    apply bool_decide_eq_true in E. destruct (bool_decide (ml_msg_id x = m)); [|by subst]. subst r. cbn in Hr. congruence.
  - intros Hin _. exists r. split; [|done]. unfold bump_row, same_mail. by rewrite bool_decide_eq_false_2 by congruence.
Qed.

Lemma untouched_append g now d d1 f m h hint s e c dep :
  f <> g -> untouched g now d d1 -> untouched g now d (append_mail d1 f m h hint s e c dep).1.
Proof.
  intros Hne H r Hr. cbn [append_mail fst rd_envelopes]. rewrite elem_of_app, list_elem_of_singleton. destruct (H r Hr) as [H1 H2]. split.
  - intros [Hin|Hx]; [auto|]. subst r. by cbn in Hr.
  - auto.
Qed.

Lemma untouched_post g now d f m h hint s e q dep : f <> g -> untouched g now d (insert_envelope_with_quota d f m h hint s e now q dep).1.
Proof.
  intros Hne. unfold insert_envelope_with_quota. case_match; [apply untouched_refl|]. cbv zeta.
  destruct (existing_mail d f m) as [r|]; [case_decide; [by apply untouched_bump|apply untouched_refl]|].
  set (d1 := match quota_rejection _ _ _ _ with None => d | Some _ => _ end).
  assert (untouched g now d d1) as H1 by (subst d1; case_match; [apply untouched_prune|apply untouched_refl]).
  clearbody d1. destruct (quota_rejection _ _ _ _); [exact H1|]. by apply untouched_append.
Qed.

Lemma untouched_ack g now d f ids : f <> g -> untouched g now d (ack_envelopes d f ids).1.
Proof.
  intros Hne. unfold ack_envelopes. case_decide; [apply untouched_refl|]. case_match; [apply untouched_refl|].
  intros r Hr. cbn [with_mail fst rd_envelopes]. rewrite !list_elem_of_In, filter_In. split; [tauto|]. intros Hin _. split; [done|].
  unfold acked, of_family. by rewrite bool_decide_eq_false_2 by congruence.
Qed.

Lemma rotate_outcomes d cur new auth : let r := rotate_family_token d cur new auth in
  rd_envelopes r.1 = rd_envelopes d \/ exists fam moved, r.2 = Ok (Rotated fam moved).
Proof.
  unfold rotate_family_token. destruct (rotation_row d cur new) as [[row already]|]; [|by left].
  assert (forall d', rd_envelopes d' = rd_envelopes d -> rd_envelopes (finish_rotation d d' row already cur new).1 = rd_envelopes d
            \/ exists fam moved, (finish_rotation d d' row already cur new).2 = Ok (Rotated fam moved)) as H.
  { intros d' Hm. unfold finish_rotation. destruct already; [case_match; by left|]. case_match; [by left|]. case_match; [by left|].
    cbv zeta. case_match; [|by left]. right. by eexists _, _. }
  destruct (check_rotation_authority _ _ _); [by apply H|destruct already; [by left|by apply H]|by left].
Qed.

Lemma untouched_rotate st g now d cur new auth : served st d g -> cur <> g -> new ∉ as_auth_tokens st ->
  untouched g now d (rotate_family_token d cur new auth).1.
Proof.
  intros Hg Hne Hnew. destruct (rotate_outcomes d cur new auth) as [E|(fam & moved & E)]; [eapply untouched_mail; [exact E|apply untouched_refl]|].
  destruct (rotate_family_token d cur new auth) as [d' o] eqn:Hr. cbn in E |- *. subst o.
  apply rotated_inv in Hr as (row & d1 & _ & _ & _ & Hd1 & Hc & _ & _ & -> & _ & _).
  assert (rd_envelopes d1 = rd_envelopes d /\ credentials d1 = credentials d) as [Hm Hcr]
    by (destruct Hd1 as [[_ ->]|[_ ->]]; [done|split; [done|apply set_pk_credentials]]).
  assert (new <> g) as Hng.
  { intros ->. destruct Hg as [Hg|[f [Hf Ht]%get_family_some]]; [done|]. apply credential_unknown in Hc. apply Hc.
    rewrite Hcr. apply credentials_elem. exists f. auto. }
  intros r Hg'. cbn [move_family rd_envelopes]. rewrite Hm, list_elem_of_fmap. unfold rekey_row, of_family. split.
  - intros (x & -> & Hx). destruct (bool_decide (ml_family_token x = cur)); [by cbn in Hg'|done].
  - intros Hin _. exists r. split; [|done]. by rewrite bool_decide_eq_false_2 by congruence.
Qed.

(** What a handler's checks establish before it touches the store. *)
Lemma rotate_checked st request new auth : check_rotate st request = Ok (new, auth) -> new ∉ as_auth_tokens st.
Proof.
  unfold check_rotate. cbv zeta. intros H. repeat (apply result_bind_ok in H as (? & ? & H)). injection H as <- _.
  repeat match goal with E : ensure _ _ = Ok _ |- _ => apply ensure_ok in E end. intros Hin.
  match goal with E : negb (_ || _ || _) = true |- _ => rewrite (bool_decide_eq_true_2 (_ ∈ _)) in E by exact Hin; rewrite orb_true_r in E; done end.
Qed.

(** Every handler acts on the family its credential names, or on nothing. *)
Lemma serve_acts st d token lim req auth_now now g : served st d g -> (forall class, credential_of st d token <> Some (g, class)) ->
  untouched g now d (serve st d token lim req auth_now now).
Proof.
  intros Hg Hcr. pose proof (untouched_refl g now d) as Hrefl.
  assert (forall op a, authorize_bearer st d (bearer token) op auth_now = Ok a -> fa_token a <> g) as Ha.
  { intros op a (E & _)%authorize_credential Hf. rewrite Hf in E. by apply (Hcr (fa_class a)). }
  destruct req as [request|query|ids|request|request|request|]; cbn [serve]; try exact Hrefl.
  - unfold post_envelope. destruct (_ ≫= _) as [[a [[m hint] s]]|] eqn:E; [|exact Hrefl].
    apply result_bind_ok in E as (a' & Hau & E). apply result_bind_ok in E as (x & _ & E). injection E as -> ->. cbv zeta.
    pose proof (untouched_post g now d (fa_token a) m (pw_hop_ttl request) hint s (match fa_class a with
      | Member => pw_expiry_ms request | Deposit => Z.min (pw_expiry_ms request) (i64_saturating_add now MAX_DEPOSIT_RETENTION_MS) end)
      (fa_quota_bytes a) (fa_depositor a) (Ha _ _ Hau)) as H.
    destruct (insert_envelope_with_quota _ _ _ _ _ _ _ _ _ _). exact H.
  - unfold ack_handler. destruct (_ ≫= _) as [a|] eqn:E; [|exact Hrefl]. apply result_bind_ok in E as (a' & Hau & E).
    repeat (apply result_bind_ok in E as (? & ? & E)). injection E as ->.
    pose proof (untouched_ack g now d (fa_token a) (dedup (merge_sort Z.le ids)) (Ha _ _ Hau)) as Hua. by destruct (ack_envelopes _ _ _).
  - unfold put_push_registration. cbv zeta. destruct (_ ≫= _) as [[a hints]|] eqn:E; [|exact Hrefl].
    destruct (replace_push_registration _ _ _ _ _) as [d' r] eqn:Hp. eapply untouched_mail; [|exact Hrefl]. cbn.
    unfold replace_push_registration in Hp. by repeat case_match; simplify_eq.
  - unfold presence_handler. destruct (_ ≫= _) as [[[[a cross] announce] query]|] eqn:E; [|exact Hrefl]. apply (untouched_prune g now d).
  - unfold rotate_family. destruct (_ ≫= _) as [[a [new auth]]|] eqn:E; [|exact Hrefl]. apply result_bind_ok in E as (a' & Hau & E).
    apply result_bind_ok in E as (u & _ & E). apply result_bind_ok in E as (y & Hx & E). injection E as -> ->.
    pose proof (untouched_rotate st g now d (fa_token a) new auth Hg (Ha _ _ Hau) (rotate_checked _ _ _ _ Hx)) as H.
    by destruct (rotate_family_token _ _ _ _).
Qed.

Lemma fetch_rows_own d f hints after limit now r : r ∈ fetch_rows d f hints after limit now -> r ∈ rd_envelopes d /\ ml_family_token r = f.
Proof.
  unfold fetch_rows. intros Hr. eapply elem_of_prefix in Hr; [|apply fill_page_prefix]. eapply elem_of_prefix in Hr; [|apply prefix_take]. rename Hr into Hi.
  rewrite merge_sort_Permutation in Hi. apply list_elem_of_In, filter_In in Hi as [Hin Hf]. split; [by apply list_elem_of_In|].
  unfold fetchable, of_family in Hf. by bools.
Qed.

(** C18: families are isolated.  A request touches only the mailbox of the family its credential belongs
    to: whatever the route and the body - a rotation onto another family's token included - the mail of
    every other family the relay serves is afterwards what it was, but for what has expired, and nothing is
    added to it.  What a fetch returns are envelopes of the caller's own family, and only to a member. *)
Theorem family_isolation st d token lim req auth_now now g :
  served st d g -> (forall class, credential_of st d token <> Some (g, class)) ->
  untouched g now d (serve st d token lim req auth_now now)
  /\ forall query page e, get_envelopes st d (bearer token) lim query auth_now now = Ok page -> e ∈ gr_envelopes page ->
       exists r f, credential_of st d token = Some (f, Member) /\ f <> g /\ r ∈ rd_envelopes d /\ ml_family_token r = f
         /\ e = envelope_response (stored_envelope r).
Proof.
  intros Hg Hcr. split; [by apply serve_acts|]. intros query page e H He. unfold get_envelopes in H.
  apply result_bind_ok in H as (a & Hau & H). repeat (apply result_bind_ok in H as (? & ? & H)). injection H as <-. cbn [gr_envelopes] in He.
  apply list_elem_of_fmap in He as (se & -> & Hse). apply authorize_credential in Hau as (Hc & Hdep & _).
  match goal with E : internal ?q = Ok _ |- _ => destruct q as [rows|] eqn:Hq; cbn in E; [injection E as ->|done] end.
  unfold fetch_envelopes in Hq. case_decide; [injection Hq as <-; by apply not_elem_of_nil in Hse|]. case_match; [done|]. injection Hq as <-.
  apply list_elem_of_fmap in Hse as (r & -> & Hr). apply fetch_rows_own in Hr as [Hin Hf]. exists r, (fa_token a). split_and!; try done.
  - rewrite Hc. destruct (fa_class a); [done|by specialize (Hdep eq_refl)].
  - intros Hfg. rewrite Hfg in Hc. by apply (Hcr (fa_class a)).
Qed.

(** What a post may do to a row there is: nothing, or - where the family's row of the
    posted id is posted again - raise its hop count and its expiry, the expiry to no more
    than [limit] where it was no more before. *)
Definition refreshed (f m : bytes) (limit : Z) (r r' : mail_row) : Prop :=
  r' = r \/ (kept r r' /\ ml_family_token r = f /\ ml_family_token r' = f /\ ml_msg_id r = m /\ ml_expiry_ms r' <= Z.max (ml_expiry_ms r) limit).

Lemma refreshed_kept f m limit r r' : refreshed f m limit r r' -> kept r r'.
Proof. by intros [->|[H _]]. Qed.

Lemma bump_refreshed f m h e limit r : e <= limit -> refreshed f m limit r (bump_row f m h e r).
Proof.
  intros He. unfold bump_row, same_mail. destruct (bool_decide (ml_family_token r = f)) eqn:Ef; cbn [andb]; [|by left].
  destruct (bool_decide (ml_msg_id r = m)) eqn:Em; [|by left]. bools. right. unfold kept. cbn. split_and!; lia || done.
Qed.

(** What one admission does to the rows: they are kept or have expired, and one that is
    new is the posted one. *)
Lemma post_rows d f m h hint s e now q dep : let d' := (insert_envelope_with_quota d f m h hint s e now q dep).1 in
  (forall r', r' ∈ rd_envelopes d' -> (exists r, r ∈ rd_envelopes d /\ refreshed f m e r r')
     \/ (ml_family_token r' = f /\ ml_depositor r' = default MEMBER_DEPOSITOR dep
         /\ ml_msg_id r' = m /\ ml_recipient_hint r' = hint /\ ml_sealed r' = s /\ ml_expiry_ms r' <= e))
  /\ (forall r, r ∈ rd_envelopes d -> mail_expired now r = true \/ exists r', r' ∈ rd_envelopes d' /\ refreshed f m e r r').
Proof.
  assert (forall r, refreshed f m e r r) as Hrefl by (by left).
  unfold insert_envelope_with_quota. case_match; cbn zeta; [split; [intros r' Hr; left; by exists r'|intros r Hr; right; by exists r]|].
  destruct (existing_mail d f m) as [x|].
  { case_decide; cbn [fst]; [|split; [intros r' Hr; left; by exists r'|intros r Hr; right; by exists r]]. set (b := bump_row f m h (effective_expiry now e)).
    assert (forall r, refreshed f m e r (b r)) as Hb by (intros r; apply bump_refreshed; unfold effective_expiry; lia).
    cbn [bump_mail with_mail rd_envelopes]. fold b. split.
    - intros r' (r & -> & Hr)%list_elem_of_fmap. left. eauto.
    - intros r Hr. right. exists (b r). split; [apply list_elem_of_fmap; eauto|done]. }
  set (d1 := match quota_rejection _ _ _ _ with None => d | Some _ => _ end).
  assert ((forall r, r ∈ rd_envelopes d1 -> r ∈ rd_envelopes d)
          /\ (forall r, r ∈ rd_envelopes d -> mail_expired now r = true \/ r ∈ rd_envelopes d1)) as [H1 H2].
  { subst d1. case_match; [|split; auto]. cbn [prune_expired_on fst rd_envelopes]. split; intros r; rewrite !list_elem_of_In, filter_In; [tauto|].
    destruct (mail_expired now r); auto. }
  clearbody d1. destruct (quota_rejection _ _ _ _); cbn [fst append_mail rd_envelopes].
  - split; [intros r' Hr; left; exists r'; split; [auto|done]|]. intros r [Hr|Hr]%H2; [by left|right; by exists r].
  - split.
    + intros r' [Hr|Hr]%elem_of_app; [left; exists r'; split; [auto|done]|]. apply list_elem_of_singleton in Hr as ->. right. cbn. split_and!; try done. unfold effective_expiry. lia.
    + intros r [Hr|Hr]%H2; [by left|]. right. exists r. split; [|done]. apply elem_of_app. by left.
Qed.

Lemma deposit_refused st d token op f now : credential_of st d token = Some (f, Deposit) -> allowed_for_deposit op = false ->
  exists e, authorize_bearer st d (bearer token) op now = Err e.
Proof.
  intros Hc Hop. destruct (authorize_bearer st d (bearer token) op now) as [a|e] eqn:E; [|by exists e].
  apply authorize_credential in E as (Hc' & Hd & _). rewrite Hc in Hc'. injection Hc' as -> Hcl. rewrite Hd in Hop; done.
Qed.

Definition bucket_stamp (now : Z) (bucket : bytes) : option Z :=
  (fun p => i64_saturating_sub now (p.2 - 1))
    <$> List.find (fun p => bool_decide (p.1 = bucket))
          [(str "active", PRESENCE_BUCKET_ACTIVE_MS); (str "recent", PRESENCE_BUCKET_RECENT_MS); (str "day", PRESENCE_BUCKET_DAY_MS);
           (str "older", PRESENCE_RETENTION_MS)].

Lemma coarse_item now row : exists b, pi_recency (presence_item true now row) = Some b
  /\ Some (pi_last_seen_ms (presence_item true now row)) = bucket_stamp now b.
Proof. unfold presence_item, coarse_presence. repeat case_match; simplify_eq; eexists; (split; [reflexivity|]); reflexivity. Qed.

(** A request that is refused: an error, and no change. *)
Definition refused {A} (d : relay_db) (answer : relay_db * result ApiError A) : Prop := exists e, answer = (d, Err e).

Lemma presence_deposit st d token f lim request auth_now now : credential_of st d token = Some (f, Deposit) ->
  (pq_announce request <> [] -> refused d (presence_handler st d (bearer token) lim request auth_now now))
  /\ forall d' answer item, presence_handler st d (bearer token) lim request auth_now now = (d', Ok answer) -> item ∈ pa_presence answer ->
       exists b, pi_recency item = Some b /\ Some (pi_last_seen_ms item) = bucket_stamp now b.
Proof.
  intros Hc. unfold presence_handler. destruct (_ ≫= _) as [[[[a cross] announce] query]|e] eqn:E; [|split; [by exists e|done]].
  apply result_bind_ok in E as (a' & Hau & E). apply authorize_credential in Hau as (Hc' & _). rewrite Hc in Hc'. injection Hc' as -> Hcl.
  rewrite <- Hcl, bool_decide_eq_true_2 in E by done. cbn [andb] in E. apply result_bind_ok in E as (? & _ & E). apply result_bind_ok in E as (? & Hann & E).
  repeat (apply result_bind_ok in E as (? & _ & E)). injection E as -> <- -> ->. apply ensure_ok in Hann. split.
  - intros Hne. by rewrite bool_decide_eq_false_2 in Hann.
  - intros d' answer item H Hin. destruct (sync_presence _ _ _ _ _) as [d2 rows]. injection H as <- <-. cbn [pa_presence] in Hin.
    apply list_elem_of_fmap in Hin as (row & -> & _). apply coarse_item.
Qed.

(** C7: what a friend's credential can do.  A deposit token is handed out on friend cards.  Its holder can
    read no envelope, acknowledge none, bind no device to the family's mail, rotate no token and see no
    billing state: each of these is refused with nothing changed.  A post of its adds at most rows that are
    charged to it and expire within eight days.  A row that was there and has not expired stays, whatever is
    posted: unchanged, or - a row of the family that is posted again under its id - with its content, its
    owner and its age unchanged and its hop count and its expiry raised, the expiry to at most eight days from
    the post, so that posting again can prolong a letter beyond its first eight days.  Asked
    for presence it answers with one of four buckets, never with the time a device was seen, and it
    announces nothing. *)
Theorem deposit_holder_confined st d token f lim auth_now now :
  credential_of st d token = Some (f, Deposit) ->
  (forall query, exists e, get_envelopes st d (bearer token) lim query auth_now now = Err e)
  /\ (exists e, family_status st d (bearer token) lim auth_now now = Err e)
  /\ (forall ids, refused d (ack_handler st d (bearer token) lim ids auth_now))
  /\ (forall request, refused d (put_push_registration st d (bearer token) lim request auth_now now))
  /\ (forall request, refused d (rotate_family st d (bearer token) lim request auth_now))
  /\ (forall request, exists msg_id, let d' := (post_envelope st d (bearer token) lim request auth_now now).1 in
       let eight_days := i64_saturating_add now MAX_DEPOSIT_RETENTION_MS in
       (forall r', r' ∈ rd_envelopes d' -> (exists r, r ∈ rd_envelopes d /\ refreshed f msg_id eight_days r r')
          \/ (ml_family_token r' = f /\ ml_msg_id r' = msg_id /\ ml_depositor r' = token /\ ml_expiry_ms r' <= eight_days))
       /\ (forall r, r ∈ rd_envelopes d -> mail_expired now r = true \/ exists r', r' ∈ rd_envelopes d' /\ refreshed f msg_id eight_days r r'))
  /\ (forall request, pq_announce request <> [] -> refused d (presence_handler st d (bearer token) lim request auth_now now))
  /\ (forall request d' answer item, presence_handler st d (bearer token) lim request auth_now now = (d', Ok answer) -> item ∈ pa_presence answer ->
       exists b, pi_recency item = Some b /\ Some (pi_last_seen_ms item) = bucket_stamp now b).
Proof.
  intros Hc. destruct (deposit_refused st d token ReadOp f auth_now Hc eq_refl) as [e He].
  destruct (deposit_refused st d token StatusOp f auth_now Hc eq_refl) as [e2 He2].
  destruct (deposit_refused st d token RotateOp f auth_now Hc eq_refl) as [e3 He3]. split_and!.
  - intros query. unfold get_envelopes. rewrite He. by exists e.
  - unfold family_status. rewrite He2. by exists e2.
  - intros ids. unfold ack_handler. rewrite He. by exists e.
  - intros request. unfold put_push_registration. rewrite He. by exists e.
  - intros request. unfold rotate_family. rewrite He3. by exists e3.
  - intros request. unfold post_envelope. destruct (_ ≫= _) as [[a [[m hint] s]]|] eqn:E.
    2: { exists []. cbn. split; [intros r' Hr; left; exists r'; split; [done|by left]|intros r Hr; right; exists r; split; [done|by left]]. }
    exists m. apply result_bind_ok in E as (a' & Hau & E). apply result_bind_ok in E as (x & _ & E). injection E as -> ->.
    apply authorize_credential in Hau as (Hc' & _ & Hdep). rewrite Hc in Hc'. injection Hc' as -> Hcl. rewrite <- Hcl in Hdep |- *. cbv zeta.
    set (e8 := i64_saturating_add now MAX_DEPOSIT_RETENTION_MS).
    pose proof (post_rows d (fa_token a) m (pw_hop_ttl request) hint s (Z.min (pw_expiry_ms request) e8) now
      (fa_quota_bytes a) (fa_depositor a)) as [H1 H2]. destruct (insert_envelope_with_quota _ _ _ _ _ _ _ _ _ _) as [d' r]. cbn [fst] in *.
    assert (forall r r', refreshed (fa_token a) m (Z.min (pw_expiry_ms request) e8) r r' -> refreshed (fa_token a) m e8 r r') as Hmono
      by (intros r0 r' [?|H]; [by left|right; destruct_and!; split_and!; lia || done]).
    split.
    + intros r' Hr. destruct (H1 r' Hr) as [(r0 & Hr0 & Hk)|(Hf & Hd & Hm & _ & _ & Hx)]; [left; eauto|]. right. rewrite Hdep in Hd. cbn in Hd. split_and!; [done..|lia].
    + intros r0 Hr. destruct (H2 r0 Hr) as [Hexp|(r' & Hr' & Hk)]; [by left|right; eauto].
  - intros request. by apply (presence_deposit st d token f).
  - intros request. by apply (presence_deposit st d token f).
Qed.
End access.

(** * The state of a pass *)

(** What the pass screen says is what the relay does.  The state reported for a family is "active"
    exactly when its posts are admitted, "grace" exactly when its mail can still be read but nothing posted,
    and "suspended" exactly when reading is refused too; and the state can be asked for in each of them. *)
Theorem pass_state_mirrors_billing row now :
  now <= I64_MAX ->
  (family_pass_state row now = str "active" <-> check_billing row PostOp now = Ok tt)
  /\ (family_pass_state row now = str "grace" <-> check_billing row ReadOp now = Ok tt /\ exists e, check_billing row PostOp now = Err e)
  /\ (family_pass_state row now = str "suspended" <-> exists e, check_billing row ReadOp now = Err e)
  /\ check_billing row StatusOp now = Ok tt.
Proof.
  intros Hn. unfold family_pass_state, check_billing. repeat rewrite decide_False by done. rewrite decide_True by done.
  rewrite (bool_decide_eq_true_2 (PostOp = PostOp)), (bool_decide_eq_false_2 (ReadOp = PostOp)) by done.
  destruct (bool_decide (fm_status row = ACTIVE)); cbn [negb ensure mbind result_bind]; [|naive_solver].
  destruct (fm_expires_ms row) as [e|]; [|naive_solver]. rewrite andb_true_r, andb_false_r.
  destruct (i64_saturating_add e FAMILY_EXPIRY_GRACE_MS <? now) eqn:E1.
  - rewrite (proj2 (Z.leb_gt now _)) by lia. cbn. naive_solver.
  - rewrite (proj2 (Z.leb_le now _)) by lia. destruct (e <? now) eqn:E2; cbn; naive_solver.
Qed.

(** * A relay at work *)

(** The toy family beside a family the server is configured with. *)
Definition toy_app : AppState := mk_app [str "static-token"] 5000 None.
Definition toy_limiter : limiter := mk_limiter (Ok tt) (Ok tt).
Definition toy_friend_token : bytes := deposit_token_for (C := toy_crypto) (B := real_b64) toy_family.

Lemma family_isolation_witness :
  untouched toy_family 50 toy_mailbox
    (serve (C := toy_crypto) (B := real_b64) toy_app toy_mailbox (str "static-token") toy_limiter (ReqAck [1; 2]) 40 50).
Proof.
  apply (family_isolation (C := toy_crypto) (B := real_b64) toy_app toy_mailbox (str "static-token") toy_limiter (ReqAck [1; 2]) 40 50 toy_family).
  - right. vm_compute. by eexists.
  - intros class. vm_compute. discriminate.
Defined.

Lemma deposit_holder_confined_witness :
  exists e, ack_handler (C := toy_crypto) (B := real_b64) toy_app toy_mailbox (bearer toy_friend_token) toy_limiter [1] 40 = (toy_mailbox, Err e).
Proof.
  destruct (deposit_holder_confined (C := toy_crypto) (B := real_b64) toy_app toy_mailbox toy_friend_token toy_family toy_limiter 40 50)
    as (_ & _ & H & _); [vm_compute; reflexivity|apply H].
Defined.

Lemma pass_state_mirrors_billing_witness :
  family_pass_state (mk_family [] [] ACTIVE None None 0 (Some 1000) None [] None) 2000 = str "grace"
  /\ check_billing (mk_family [] [] ACTIVE None None 0 (Some 1000) None [] None) ReadOp 2000 = Ok tt.
Proof.
  destruct (pass_state_mirrors_billing (mk_family [] [] ACTIVE None None 0 (Some 1000) None [] None) 2000) as (_ & [H _] & _);
    [unfold I64_MAX; lia|]. split; [vm_compute; reflexivity|]. apply H. vm_compute. reflexivity.
Defined.
