(* ===== verification/RelayQuota.v ===== *)
(** Quotas across the daemon's whole surface ([relayd/src/lib.rs]): every call that can
    reach the store - any request under any credential, the operator's routes, the prune
    task, a push token that Apple disowned - taken one after the other, and what a family's
    mailbox holds after any sequence of them, followed through the rotations of its token. *)
From stdpp Require Import base numbers list gmap strings sorting.
From S2P Require Import Prelude StdModel SqlModel Wire Crypto RelayPolicy RelayWire RelayMailbox RelayDaemon.

(** * The calls *)

Inductive relay_call : Type :=
| CallRequest (token : bytes) (lim : limiter) (request : relay_request) (auth_now now : Z)
| CallProvision (authorization : option bytes) (request : ProvisionFamilyRequest) (now : Z) (minted : bytes)
| CallPatch (authorization : option bytes) (id_or_token : bytes) (request : PatchFamilyRequest)
| CallDelete (authorization : option bytes) (id_or_token : bytes)
| CallPrune (now : Z)
| CallForget (device_token : bytes).

Section quota.
Context `{C : Crypto} `{B : Base64}.
Context (st : AppState) (family_id : bytes).

Definition call_step (d : relay_db) (c : relay_call) : relay_db :=
  match c with
  | CallRequest token lim request auth_now now => serve st d token lim request auth_now now
  | CallProvision authorization request now minted => (admin_provision_family st d authorization request now minted).1
  | CallPatch authorization id_or_token request => (admin_patch_family st d authorization id_or_token request).1
  | CallDelete authorization id_or_token => (admin_delete_family st d authorization id_or_token).1
  | CallPrune now => (prune_expired_on d now).1
  | CallForget device_token => (remove_push_device_token d device_token).1
  end.

Definition relay_calls (d : relay_db) (calls : list relay_call) : relay_db := foldl call_step d calls.

(** The quota a family's posts are admitted under. *)
Definition family_quota (row : FamilyRow) : Z := default (as_family_quota_bytes st) (fm_quota_bytes row).

(** * What the checks of the routes let through to the store *)

Definition granted (d : relay_db) (op : relay_op) : Prop :=
  match op with
  | OpPost f _ _ _ _ _ _ q dep =>
      dep <> Some MEMBER_DEPOSITOR
      /\ ((f ∈ as_auth_tokens st /\ q = as_family_quota_bytes st)
          \/ exists row, row ∈ rd_families d /\ fm_token row = f /\ q = family_quota row)
  | OpRotate _ new _ => new ∉ as_auth_tokens st /\ deposit_token_for new <> []
  | OpProvision t _ _ _ _ _ minted => t ∉ as_auth_tokens st /\ deposit_token_for t <> [] /\ mint_family_id minted <> family_id
  | OpInsert _ _ _ _ _ _ _ | OpBatch _ => False
  | _ => True
  end.

(** The database is in order: a token names one family and none that the server is
    configured with, every family has a deposit token, and every row lies in the mailbox of
    a family the relay serves. *)
Record housed (d : relay_db) : Prop := mk_housed {
  ho_tokens : NoDup (fm_token <$> rd_families d);
  ho_families : forall row, row ∈ rd_families d -> fm_token row ∉ as_auth_tokens st /\ fm_deposit_token row <> [];
  ho_static : forall t, t ∈ as_auth_tokens st -> deposit_token_for t <> [];
  ho_rows : forall r, r ∈ rd_envelopes d ->
    ml_family_token r ∈ as_auth_tokens st \/ exists row, row ∈ rd_families d /\ fm_token row = ml_family_token r;
}.

Lemma utf8_chars_nil s : utf8_chars s = Some [] -> s = [].
Proof. destruct s as [|b s]; [done|]. cbn. repeat case_match; try done; intros (? & ? & [=])%fmap_Some. Qed.

Lemma solid_deposit_token t : t <> [] -> has_blank t = false -> deposit_token_for t <> [].
Proof.
  intros Hne Hb. unfold has_blank in Hb. destruct (utf8_chars t) as [cs|] eqn:E; [|done].
  assert (trim t <> []) as Ht.
  { unfold trim. rewrite E. destruct cs as [|c cs]; [by apply utf8_chars_nil in E|].
    assert (forall l, existsb (fun c => is_whitespace c || is_control c) l = false -> drop_while is_whitespace l = l) as Hd.
    { intros [|x l] Hl; [done|]. cbn [existsb drop_while] in *. apply orb_false_iff in Hl as [Hl _]. apply orb_false_iff in Hl as [-> _]. done. }
    rewrite Hd by done. unfold drop_while_end. rewrite Hd, reverse_involutive.
    - cbn [fmap list_fmap concat]. intros [He _]%app_eq_nil. unfold encode_utf8 in He. by repeat case_match.
    - destruct (existsb _ (reverse (c :: cs))) eqn:Hx; [|done]. rewrite <- Hb. symmetry. apply existsb_exists in Hx as (x & Hx & Hp).
      apply existsb_exists. exists x. split; [|done]. by apply list_elem_of_In, elem_of_reverse, list_elem_of_In. }
  unfold deposit_token_for. cbv zeta. case_match; [done|]. done.
Qed.

Lemma granted_provision request t : check_provision st request = Ok t -> t ∉ as_auth_tokens st /\ deposit_token_for t <> [].
Proof.
  unfold check_provision. cbv zeta. intros H. repeat (apply result_bind_ok in H as (? & ? & H)). injection H as <-.
  repeat match goal with E : ensure _ _ = Ok _ |- _ => apply ensure_ok in E end. bools. split; [done|]. by apply solid_deposit_token.
Qed.

Lemma granted_rotate request new auth : check_rotate st request = Ok (new, auth) -> new ∉ as_auth_tokens st /\ deposit_token_for new <> [].
Proof.
  intros H. split; [by eapply rotate_checked|]. revert H. unfold check_rotate. cbv zeta. intros H.
  repeat (apply result_bind_ok in H as (? & ? & H)). injection H as <- _.
  repeat match goal with E : ensure _ _ = Ok _ |- _ => apply ensure_ok in E end. unfold MIN_ROTATION_TOKEN_LEN in *. bools.
  apply solid_deposit_token; [|done]. intros E.
  enough (blen (trim (rb_new_token request)) = 0) by lia. by rewrite E.
Qed.

(** A credential that may post names a family the relay serves, under that family's
    quota. *)
Lemma authorized_quota d token op now a : housed d -> authorize_bearer st d (bearer token) op now = Ok a ->
  fa_depositor a <> Some MEMBER_DEPOSITOR
  /\ ((fa_token a ∈ as_auth_tokens st /\ fa_quota_bytes a = as_family_quota_bytes st)
      \/ exists row, row ∈ rd_families d /\ fm_token row = fa_token a /\ fa_quota_bytes a = family_quota row).
Proof.
  intros Hh. unfold authorize_bearer. rewrite bearer_token. cbn [result_bind mbind]. unfold authorize_family. intros H.
  destruct (decide (token ∈ as_auth_tokens st)) as [Hin|_]; [injection H as <-; cbn; split; [done|by left]|].
  destruct (static_deposit_tokens st !! token) as [member|] eqn:Hs.
  { destruct (allowed_for_deposit op); cbn in H; [|done]. injection H as <-. cbn.
    apply elem_of_list_to_map_2, list_elem_of_fmap in Hs as (t & E & Ht). injection E as -> ->. split; [|by left].
    intros E. injection E as E. by apply (ho_static _ Hh t Ht). }
  destruct (get_family_by_credential_on d token) as [[family class]|] eqn:Hg; [|done].
  destruct (_ && _) in H; [done|]. destruct (check_billing family op now); cbn in H; [|done]. injection H as <-. cbn.
  unfold get_family_by_credential_on in Hg. destruct (get_family_on d token) as [x|] eqn:Hm.
  - injection Hg as -> <-. apply get_family_some in Hm as [Hm _]. split; [done|]. right. by exists family.
  - destruct (List.find _ _) as [x|] eqn:Hf; [|done]. injection Hg as -> <-. apply List.find_some in Hf as [Hf Ht]. bools.
    apply list_elem_of_In in Hf. split; [|right; by exists family]. intros E. injection E as E. destruct (ho_families _ Hh _ Hf) as [_ Hne]. apply Hne. unfold MEMBER_DEPOSITOR in E. congruence.
Qed.

Lemma serve_granted d token lim req auth_now now : housed d ->
  serve st d token lim req auth_now now = d \/ exists op, granted d op /\ serve st d token lim req auth_now now = relay_step d op.
Proof.
  intros Hh. destruct req as [request|query|ids|request|request|request|]; cbn [serve]; try by left.
  - unfold post_envelope. destruct (_ ≫= _) as [[a [[m hint] s]]|] eqn:E; [|by left]. right. cbv zeta.
    apply result_bind_ok in E as (a' & Ha & E). apply result_bind_ok in E as (x & _ & E). injection E as -> ->.
    destruct (insert_envelope_with_quota _ _ _ _ _ _ _ _ _ _) as [d' r] eqn:Hins. eexists (OpPost _ _ _ _ _ _ _ _ _).
    split; [|cbn [relay_step fst]; by rewrite Hins]. by apply (authorized_quota d token PostOp auth_now).
  - unfold ack_handler. destruct (_ ≫= _) as [a|]; [|by left]. right. exists (OpAck (fa_token a) (dedup (merge_sort Z.le ids))).
    split; [done|]. cbn [relay_step]. by destruct (ack_envelopes _ _ _).
  - unfold put_push_registration. cbv zeta. destruct (_ ≫= _) as [[a hints]|]; [|by left]. right.
    destruct (replace_push_registration _ _ _ _ _) as [d' r] eqn:Hp. eexists (OpPush _ _ _ _). split; [done|]. cbn [relay_step fst]. by rewrite Hp.
  - unfold presence_handler. destruct (_ ≫= _) as [[[[a cross] announce] query]|]; [|by left]. right.
    exists (OpPresence (fa_token a) announce query now). split; [done|]. cbn [relay_step]. by destruct (sync_presence _ _ _ _ _).
  - unfold rotate_family. destruct (_ ≫= _) as [[a [new auth]]|] eqn:E; [|by left]. right. exists (OpRotate (fa_token a) new auth).
    apply result_bind_ok in E as (? & _ & E). apply result_bind_ok in E as (? & _ & E). apply result_bind_ok in E as (y & Hy & E).
    injection E as -> ->. split; [by eapply granted_rotate|]. cbn [relay_step]. by destruct (rotate_family_token _ _ _ _).
Qed.

(** A new family gets an id of its own. *)
Definition mints_other (c : relay_call) : Prop :=
  match c with CallProvision _ _ _ minted => mint_family_id minted <> family_id | _ => True end.

Lemma call_granted d c : housed d -> mints_other c -> call_step d c = d \/ exists op, granted d op /\ call_step d c = relay_step d op.
Proof.
  intros Hh Hm. destruct c as [token lim request auth_now now|authorization request now minted|authorization id request|authorization id|now|dev]; cbn [call_step].
  - by apply serve_granted.
  - unfold admin_provision_family. destruct (_ ≫= _) as [token|] eqn:E; [right|by left]. apply result_bind_ok in E as (? & _ & E).
    destruct (granted_provision _ _ E) as [Ht Hd]. by eexists (OpProvision _ _ _ _ _ _ _).
  - unfold admin_patch_family. destruct (_ ≫= _) as [token|]; [right|by left]. by eexists (OpPatch _ _ _ _ _ _).
  - unfold admin_delete_family. destruct (_ ≫= _) as [token|]; [right|by left]. exists (OpDelete token). split; [done|].
    cbn [relay_step]. by destruct (delete_family d token).
  - right. by exists (OpPrune now).
  - right. by exists (OpRemovePush dev).
Qed.

(** * Rotations *)

Lemma set_pk_in cur pk d row : row ∈ rd_families (set_rotation_pk cur pk d) ->
  exists row0, row0 ∈ rd_families d /\ fm_token row = fm_token row0 /\ fm_family_id row = fm_family_id row0
    /\ fm_deposit_token row = fm_deposit_token row0 /\ fm_quota_bytes row = fm_quota_bytes row0.
Proof.
  unfold set_rotation_pk, update_families, with_families. cbn [rd_families]. intros (x & -> & Hx)%list_elem_of_fmap. exists x.
  split; [done|]. by destruct (has_token cur x).
Qed.

(** A rotation changes nothing, or moves a mailbox to a token no family has. *)
Lemma rotate_cases d cur new auth :
  (rotate_family_token d cur new auth).1 = d
  \/ exists d1, (rotate_family_token d cur new auth).1 = move_family cur new d1 /\ rd_envelopes d1 = rd_envelopes d
       /\ (d1 = d \/ exists pk, d1 = set_rotation_pk cur pk d) /\ new ∉ credentials d /\ cur ∈ fm_token <$> rd_families d.
Proof.
  destruct (rotate_family_token d cur new auth) as [d' o] eqn:Hr. cbn [fst].
  assert ((exists fam moved, o = Ok (Rotated fam moved)) \/ d' = d) as [(fam & moved & ->)|]; [|right|by left].
  - revert Hr. unfold rotate_family_token. destruct (rotation_row d cur new) as [[row already]|]; [|intros H; injection H as <- <-; by right].
    assert (forall d1, (already = true -> d1 = d) -> finish_rotation d d1 row already cur new = (d', o) -> (exists fam moved, o = Ok (Rotated fam moved)) \/ d' = d) as Hf.
    { intros d1 Ha Hfin. unfold finish_rotation in Hfin. destruct already; [rewrite Ha in Hfin by done; case_match; injection Hfin as <- <-; by right|].
      case_match; [injection Hfin as <- <-; by right|]. case_match; [injection Hfin as <- <-; by right|]. cbv zeta in Hfin.
      case_match; injection Hfin as <- <-; [left; by eexists _, _|by right]. }
    destruct (check_rotation_authority _ _ _); [by apply Hf|destruct already; [intros H; injection H as <- <-; by right|by apply Hf]|intros H; injection H as <- <-; by right].
  - apply rotated_inv in Hr as (row & d1 & Hrow & _ & _ & Hd1 & Hc & _ & _ & -> & _ & _). exists d1.
    assert (rd_envelopes d1 = rd_envelopes d /\ credentials d1 = credentials d) as [Hm Hcr]
      by (destruct Hd1 as [[_ ->]|[_ ->]]; [done|split; [done|apply set_pk_credentials]]).
    split_and!; [done|done| |by rewrite <- Hcr; apply credential_unknown|].
    + destruct Hd1 as [[_ ->]|[_ ->]]; [by left|right; eauto].
    + apply get_family_some in Hrow as [Hrow <-]. by apply list_elem_of_fmap_2.
Qed.

Lemma moved_in cur new d row : row ∈ rd_families (move_family cur new d) ->
  exists row0, row0 ∈ rd_families d /\ fm_family_id row = fm_family_id row0 /\ fm_quota_bytes row = fm_quota_bytes row0
    /\ ((fm_token row0 <> cur /\ row = row0) \/ (fm_token row0 = cur /\ fm_token row = new /\ fm_deposit_token row = deposit_token_for new)).
Proof.
  cbn [move_family rd_families]. intros (x & -> & Hx)%list_elem_of_fmap. exists x. unfold has_token.
  destruct (bool_decide (fm_token x = cur)) eqn:E; bools; naive_solver.
Qed.

Lemma moved_tokens cur new d : fm_token <$> rd_families (move_family cur new d) = (fun t => if decide (t = cur) then new else t) <$> (fm_token <$> rd_families d).
Proof.
  cbn [move_family rd_families]. rewrite <- !list_fmap_compose. apply list_fmap_ext. intros i x _. cbn. unfold has_token.
  destruct (decide (fm_token x = cur)); [by rewrite bool_decide_eq_true_2|by rewrite bool_decide_eq_false_2].
Qed.

Lemma set_pk_tokens cur pk d : fm_token <$> rd_families (set_rotation_pk cur pk d) = fm_token <$> rd_families d.
Proof.
  unfold set_rotation_pk, update_families, with_families. cbn [rd_families]. rewrite <- list_fmap_compose. apply list_fmap_ext.
  intros i x _. cbn. by destruct (has_token cur x).
Qed.

Lemma NoDup_rename (cur new : bytes) l : NoDup l -> new ∉ l -> NoDup ((fun t => if decide (t = cur) then new else t) <$> l).
Proof.
  induction 1 as [|x l Hx Hl IH]; cbn; [constructor|]. intros [Hn Hnl]%not_elem_of_cons. constructor; [|by apply IH].
  intros (y & E & Hy)%list_elem_of_fmap. case_decide; case_decide; subst; done.
Qed.

(** ** Order is kept *)

Lemma families_update_in P f d row : row ∈ rd_families (update_families P f d) -> exists row0, row0 ∈ rd_families d /\ (row = row0 \/ (P row0 = true /\ row = f row0)).
Proof.
  unfold update_families, with_families. cbn [rd_families]. intros (x & -> & Hx)%list_elem_of_fmap. exists x. destruct (P x) eqn:E; auto.
Qed.

Lemma update_tokens P f d : (forall row, fm_token (f row) = fm_token row) -> fm_token <$> rd_families (update_families P f d) = fm_token <$> rd_families d.
Proof.
  intros Hf. unfold update_families, with_families. cbn [rd_families]. rewrite <- list_fmap_compose. apply list_fmap_ext.
  intros i x _. cbn. by destruct (P x).
Qed.

(** The same families answer to the same tokens. *)
Lemma housed_same d d' :
  fm_token <$> rd_families d' = fm_token <$> rd_families d ->
  (forall row, row ∈ rd_families d' -> fm_deposit_token row <> []) ->
  (forall r, r ∈ rd_envelopes d' -> (exists r0, r0 ∈ rd_envelopes d /\ ml_family_token r0 = ml_family_token r)
     \/ ml_family_token r ∈ as_auth_tokens st \/ ml_family_token r ∈ fm_token <$> rd_families d) ->
  housed d -> housed d'.
Proof.
  intros Ht Hd Hr [H1 H2 H3 H4]. split; [by rewrite Ht| |done|].
  - intros row Hrow. split; [|by apply Hd]. assert (fm_token row ∈ fm_token <$> rd_families d) as Hin by (rewrite <- Ht; by apply list_elem_of_fmap_2).
    apply list_elem_of_fmap in Hin as (x & -> & Hx). by apply H2.
  - intros r Hin. assert (forall t, t ∈ fm_token <$> rd_families d -> exists row, row ∈ rd_families d' /\ fm_token row = t) as Hown.
    { intros t Hx. rewrite <- Ht in Hx. apply list_elem_of_fmap in Hx as (x & -> & Hx). by exists x. }
    destruct (Hr r Hin) as [(r0 & Hr0 & E)|[?|?]]; [|by left|right; by apply Hown].
    rewrite <- E. destruct (H4 _ Hr0) as [?|(row & Hrow & E2)]; [by left|right]. rewrite <- E2. by apply Hown, list_elem_of_fmap_2.
Qed.

Lemma housed_rows d d' : rd_families d' = rd_families d ->
  (forall r, r ∈ rd_envelopes d' -> (exists r0, r0 ∈ rd_envelopes d /\ ml_family_token r0 = ml_family_token r)
     \/ ml_family_token r ∈ as_auth_tokens st \/ ml_family_token r ∈ fm_token <$> rd_families d) ->
  housed d -> housed d'.
Proof.
  intros E Hr Hd. apply (housed_same d d'); [by rewrite E| |done|done]. intros row. rewrite E. intros Hrow. by apply (ho_families d Hd).
Qed.

Lemma housed_fewer d d' P : rd_families d' = rd_families d -> rd_envelopes d' = List.filter P (rd_envelopes d) -> housed d -> housed d'.
Proof.
  intros E Em. apply housed_rows; [done|]. intros r. rewrite Em, list_elem_of_In, filter_In. intros [Hr _]. left. exists r.
  split; [by apply list_elem_of_In|done].
Qed.

Lemma post_families d f m h hint s e now q dep : rd_families (insert_envelope_with_quota d f m h hint s e now q dep).1 = rd_families d.
Proof.
  unfold insert_envelope_with_quota. case_match; [done|]. cbv zeta. destruct (existing_mail d f m); [by case_decide|].
  set (d1 := match quota_rejection _ _ _ _ with None => d | Some _ => _ end).
  assert (rd_families d1 = rd_families d) as <- by (subst d1; by case_match). by case_match.
Qed.

Lemma refreshed_token f m e r r' : refreshed f m e r r' -> ml_family_token r = ml_family_token r'.
Proof. intros [->|(_ & -> & -> & _)]; done. Qed.

Lemma housed_provision d t p q e n now minted :
  t ∉ as_auth_tokens st -> deposit_token_for t <> [] -> housed d -> housed (upsert_family d t p q e n now minted).
Proof.
  intros Ht Hdep Hd. unfold upsert_family. destruct (get_family_on d t) as [x|] eqn:Hg.
  - apply (housed_same d); [by apply update_tokens| |intros r Hr; left; by exists r|done].
    intros row (x0 & Hx & [->|[_ ->]])%families_update_in; [by apply (ho_families d Hd)|done].
  - destruct Hd as [H1 H2 H3 H4]. split; cbn [with_families rd_families rd_envelopes]; [| |done|].
    + rewrite fmap_app. cbn. apply NoDup_app. split_and!; [done| |apply NoDup_singleton]. intros y Hy Hy2%list_elem_of_singleton. subst y.
      apply list_elem_of_fmap in Hy as (x & E & Hx). unfold get_family_on in Hg. rewrite find_none in Hg. specialize (Hg x Hx).
      unfold has_token in Hg. bools. done.
    + intros row [Hrow|Hrow%list_elem_of_singleton]%elem_of_app; [by apply H2|]. by subst row.
    + intros r Hr. destruct (H4 r Hr) as [?|(row & Hrow & E)]; [by left|right]. exists row. split; [|done]. apply elem_of_app. by left.
Qed.

Lemma housed_delete d t : housed d -> housed (delete_family d t).1.
Proof.
  intros [H1 H2 H3 H4]. assert (forall row, row ∈ rd_families (delete_family d t).1 <-> row ∈ rd_families d /\ fm_token row <> t) as Hin.
  { intros row. cbn [delete_family fst rd_families]. rewrite list_elem_of_In, filter_In, <- list_elem_of_In. unfold has_token.
    rewrite negb_true_iff. by rewrite bool_decide_eq_false. }
  split; [| |done|].
  - cbn [delete_family fst rd_families]. clear -H1. induction (rd_families d) as [|x l IH]; [constructor|]. cbn in *.
    apply NoDup_cons in H1 as [Hx Hl]. destruct (has_token t x); cbn; [by apply IH|]. constructor; [|by apply IH].
    intros (y & E & Hy)%list_elem_of_fmap. apply Hx. rewrite E. apply list_elem_of_fmap_2. apply list_elem_of_In, filter_In in Hy as [Hy _].
    by apply list_elem_of_In.
  - intros row [Hrow _]%Hin. by apply H2.
  - intros r Hr. cbn [delete_family fst rd_envelopes] in Hr. apply list_elem_of_In, filter_In in Hr as [Hr Hf]. unfold of_family in Hf.
    rewrite negb_true_iff, bool_decide_eq_false in Hf. apply list_elem_of_In in Hr. destruct (H4 r Hr) as [?|(row & Hrow & E)]; [by left|right].
    exists row. split; [apply Hin; split; [done|congruence]|done].
Qed.

Lemma housed_rotate d cur new auth :
  new ∉ as_auth_tokens st -> deposit_token_for new <> [] -> housed d -> housed (rotate_family_token d cur new auth).1.
Proof.
  intros Hns Hdep Hd. destruct (rotate_cases d cur new auth) as [->|(d1 & -> & Hm & Hd1 & Hnew & Hcur)]; [done|].
  assert (housed d1) as H1.
  { destruct Hd1 as [->|[pk ->]]; [done|]. apply (housed_same d); [apply set_pk_tokens| |intros r Hr; left; by exists r|done].
    intros row (row0 & Hrow0 & _ & _ & -> & _)%set_pk_in. by apply (ho_families d Hd). }
  assert (fm_token <$> rd_families d1 = fm_token <$> rd_families d) as Ht by (destruct Hd1 as [->|[pk ->]]; [done|apply set_pk_tokens]).
  assert (new ∉ fm_token <$> rd_families d1) as Hfree.
  { rewrite Ht. intros (x & E & Hx)%list_elem_of_fmap. apply Hnew, credentials_elem. exists x. split; [done|by left]. }
  split; [|intros row (row0 & Hrow0 & _ & _ & [[_ ->]|(_ & -> & ->)])%moved_in; [by apply (ho_families d1 H1)|done]|apply (ho_static d Hd)|].
  - rewrite moved_tokens. apply NoDup_rename; [apply (ho_tokens d1 H1)|done].
  - intros r (r0 & -> & Hr0)%list_elem_of_fmap. assert (forall t, t ∈ fm_token <$> rd_families d1 ->
      exists row, row ∈ rd_families (move_family cur new d1) /\ fm_token row = if decide (t = cur) then new else t) as Hown.
    { intros t Hin. apply (list_elem_of_fmap_2 (fun t => if decide (t = cur) then new else t)) in Hin. rewrite <- moved_tokens in Hin.
      apply list_elem_of_fmap in Hin as (row & -> & Hrow). eauto. }
    destruct (ho_rows d1 H1 r0 Hr0) as [Hs|(row & Hrow & E)].
    + left. unfold rekey_row, of_family. rewrite bool_decide_eq_false_2; [done|]. intros E. apply list_elem_of_fmap in Hcur as (x & Ex & Hx).
      destruct (ho_families d Hd x Hx) as [Hxs _]. congruence.
    + right. destruct (Hown (ml_family_token r0)) as (row' & Hrow' & E'); [rewrite <- E; by apply list_elem_of_fmap_2|].
      exists row'. split; [done|]. rewrite E'. unfold rekey_row, of_family. destruct (decide (ml_family_token r0 = cur)); [by rewrite bool_decide_eq_true_2|by rewrite bool_decide_eq_false_2].
Qed.

Lemma step_housed d op : granted d op -> housed d -> housed (relay_step d op).
Proof.
  intros Hg Hd. destruct op; cbn [relay_step granted] in *; try done.
  - apply (housed_rows d); [apply post_families| |done]. intros r Hr.
    destruct (post_rows d family_token msg_id hop_ttl hint sealed expiry_ms created_at_ms quota depositor) as [H _].
    destruct (H r Hr) as [(r0 & Hr0 & Hk)|(E & _)]; [left; exists r0; split; [done|by eapply refreshed_token]|right].
    rewrite E. destruct Hg as [_ [[Hs _]|(row & Hrow & <- & _)]]; [by left|right; by apply list_elem_of_fmap_2].
  - unfold ack_envelopes. case_decide; [done|]. case_match; [done|]. by eapply (housed_fewer d); [reflexivity|reflexivity|].
  - by eapply (housed_fewer d); [reflexivity|reflexivity|].
  - by eapply (housed_fewer d); [reflexivity|reflexivity|].
  - unfold replace_push_registration. case_match; [done|]. case_match; [done|]. apply (housed_rows d); [done| |done]. intros r Hr. left. by exists r.
  - apply (housed_rows d); [done| |done]. intros r Hr. left. by exists r.
  - apply housed_provision; [apply Hg|apply Hg|done].
  - apply (housed_same d); [by apply update_tokens| |intros r Hr; left; by exists r|done].
    intros row (x0 & Hx & Hrow)%families_update_in. destruct (ho_families d Hd x0 Hx) as [_ Hne]. by destruct Hrow as [->|[_ ->]].
  - by apply housed_delete.
  - apply housed_rotate; [apply Hg|apply Hg|done].
Qed.

(** * The mailbox of one family *)

(** What the store holds for the family, under whichever token it has now, is within the
    quota and within the shares of its depositors. *)
Definition mailbox_within (quota : Z) (d : relay_db) : Prop :=
  forall row, row ∈ rd_families d -> fm_family_id row = family_id -> within_quota (fm_token row) quota d.

(** The family's quota now. *)
Definition quota_at_most (quota : Z) (d : relay_db) : Prop :=
  forall row, row ∈ rd_families d -> fm_family_id row = family_id -> 0 <= family_quota row <= quota.

(** [P] holds before each of the calls and after the last. *)
Fixpoint throughout (P : relay_db -> Prop) (d : relay_db) (calls : list relay_call) : Prop :=
  P d /\ match calls with [] => True | c :: calls => throughout P (call_step d c) calls end.

Lemma usage_none f q rows : (forall r, r ∈ rows -> ml_family_token r <> f) -> usage f q rows = 0.
Proof.
  intros H. induction rows as [|r rows IH]; [done|]. rewrite usage_cons, IH by (intros x Hx; apply H; by right).
  unfold of_family. rewrite bool_decide_eq_false_2; [done|]. apply H. left.
Qed.

Lemma usage_anyone f q rows : usage f q rows <= usage f anyone rows.
Proof.
  induction rows as [|r rows IH]; [done|]. rewrite !usage_cons. pose proof (blen_nonneg (ml_sealed r)). unfold anyone at 1.
  destruct (of_family f r), (q (ml_depositor r)); cbn; lia.
Qed.

Lemma usage_rekeyed cur new q rows : cur <> new ->
  usage new q (rekey_row cur new <$> rows) = usage cur q rows + usage new q rows.
Proof.
  intros Hne. induction rows as [|r rows IH]; [done|]. cbn [fmap list_fmap]. rewrite !usage_cons, IH. unfold rekey_row, of_family.
  destruct (bool_decide (ml_family_token r = cur)) eqn:E; cbn [ml_family_token ml_depositor ml_sealed].
  - bools. rewrite bool_decide_eq_true_2 by done. rewrite (bool_decide_eq_false_2 (ml_family_token r = new)) by congruence. cbn. lia.
  - cbn. lia.
Qed.

(** Every call but a rotation keeps a mailbox within the quota its posts are admitted
    under. *)
Lemma step_within t quota d op :
  quota < U64_MAX ->
  match op with
  | OpInsert _ _ _ _ _ _ _ | OpBatch _ | OpRotate _ _ _ => False
  | OpPost g _ _ _ _ _ _ q dep => g = t -> 0 <= q <= quota /\ dep <> Some MEMBER_DEPOSITOR
  | _ => True
  end ->
  within_quota t quota d -> within_quota t quota (relay_step d op).
Proof.
  intros Hq Hop Hd. destruct op; cbn [relay_step] in *; try (eapply within_le; [|exact Hd]; done); try done.
  - by apply post_within.
  - unfold ack_envelopes. case_decide; [done|]. case_match; [done|]. eapply within_le; [|exact Hd]. intros q. apply usage_filter.
  - by apply prune_within.
  - by apply prune_within.
  - unfold replace_push_registration. by repeat case_match.
  - unfold upsert_family. by case_match.
  - eapply within_le; [|exact Hd]. intros q. apply usage_filter.
Qed.

(** Only a rotation renames a family. *)
Lemma step_family d op row : granted d op -> (forall cur new auth, op <> OpRotate cur new auth) ->
  row ∈ rd_families (relay_step d op) -> fm_family_id row = family_id ->
  exists row0, row0 ∈ rd_families d /\ fm_token row0 = fm_token row /\ fm_family_id row0 = family_id.
Proof.
  intros Hg Hr Hrow Hid. assert (row ∈ rd_families d -> exists row0, row0 ∈ rd_families d /\ fm_token row0 = fm_token row /\ fm_family_id row0 = family_id)
    as Hsame by eauto. destruct op; cbn [relay_step granted] in *; try (by apply Hsame); try done.
  - apply Hsame. by rewrite post_families in Hrow.
  - apply Hsame. revert Hrow. unfold ack_envelopes. by repeat case_match.
  - apply Hsame. revert Hrow. unfold replace_push_registration. by repeat case_match.
  - unfold upsert_family in Hrow. destruct (get_family_on d token).
    + apply families_update_in in Hrow as (x & Hx & [->|[_ ->]]); eauto.
    + cbn [with_families rd_families] in Hrow. apply elem_of_app in Hrow as [Hrow|Hrow%list_elem_of_singleton]; [by apply Hsame|]. subst row.
      by destruct Hg as (_ & _ & Hx).
  - apply families_update_in in Hrow as (x & Hx & [->|[_ ->]]); eauto.
  - cbn [delete_family fst rd_families] in Hrow. apply Hsame. apply list_elem_of_In, filter_In in Hrow as [Hrow _]. by apply list_elem_of_In.
  - by edestruct Hr.
Qed.

Lemma same_token d x y : NoDup (fm_token <$> rd_families d) -> x ∈ rd_families d -> y ∈ rd_families d -> fm_token x = fm_token y -> x = y.
Proof.
  induction (rd_families d) as [|z l IH]; cbn; [by intros _ ?%not_elem_of_nil|]. intros [Hz Hl]%NoDup_cons Hx Hy E.
  apply elem_of_cons in Hx as [->|Hx]; apply elem_of_cons in Hy as [->|Hy]; [done| | |by apply IH].
  - destruct Hz. rewrite E. by apply list_elem_of_fmap_2.
  - destruct Hz. rewrite <- E. by apply list_elem_of_fmap_2.
Qed.

(** A mailbox that is moved takes along what it holds, and finds nothing under its new
    token. *)
Lemma rotate_mailbox quota d cur new auth :
  new ∉ as_auth_tokens st -> housed d -> mailbox_within quota d -> mailbox_within quota (rotate_family_token d cur new auth).1.
Proof.
  intros Hns Hd Hw. destruct (rotate_cases d cur new auth) as [->|(d1 & -> & Hm & Hd1 & Hnew & Hcur)]; [done|].
  assert (forall x, x ∈ rd_families d -> fm_token x <> new) as Hfree.
  { intros x Hx E. apply Hnew, credentials_elem. exists x. split; [done|by left]. }
  assert (forall x, x ∈ rd_families d1 -> exists x0, x0 ∈ rd_families d /\ fm_token x0 = fm_token x /\ fm_family_id x0 = fm_family_id x) as Hback.
  { intros x Hx. destruct Hd1 as [->|[pk ->]]; [by exists x|]. apply set_pk_in in Hx as (x0 & H0 & E1 & E2 & _). by exists x0. }
  intros row (row1 & Hrow1 & Eid & _ & Hcase)%moved_in Hid. destruct (Hback row1 Hrow1) as (row0 & Hrow0 & Et & Ei).
  specialize (Hw row0 Hrow0 ltac:(congruence)). rewrite Et in Hw. unfold within_quota in *. cbn [move_family rd_envelopes]. rewrite Hm.
  assert (cur <> new) as Hne by (apply list_elem_of_fmap in Hcur as (x & -> & Hx); by apply Hfree).
  destruct Hcase as [[Hc ->]|(Hc & -> & _)].
  - eapply (within_le _ quota d (move_family cur new d)); [|exact Hw]. intros q. cbn [move_family rd_envelopes]. apply usage_map.
    intros r. unfold rekey_row, of_family. case_match; [|done]. cbn. split_and!; [done..|]. intros E. destruct (Hfree row0 Hrow0). congruence.
  - rewrite Hc in Hw. assert (forall q, usage new q (rekey_row cur new <$> rd_envelopes d) = usage cur q (rd_envelopes d)) as Hu.
    { intros q. rewrite usage_rekeyed by done. rewrite (usage_none new); [lia|]. intros r Hr E.
      destruct (ho_rows d Hd r Hr) as [Hs|(x & Hx & Ex)]; [congruence|]. apply (Hfree x Hx). congruence. }
    destruct Hw as (H1 & H2 & H3). rewrite !Hu. split_and!; [done..|]. intros who Hwho. rewrite Hu. by apply H3.
Qed.

Lemma step_mailbox quota d op :
  quota < U64_MAX -> granted d op -> housed d -> quota_at_most quota d -> mailbox_within quota d -> mailbox_within quota (relay_step d op).
Proof.
  intros Hq Hg Hd Hat Hw. assert ((exists cur new auth, op = OpRotate cur new auth) \/ forall cur new auth, op <> OpRotate cur new auth) as [(cur & new & auth & ->)|Hnr]
    by (destruct op; [by right..|left; eauto]).
  { cbn [relay_step granted] in *. by apply rotate_mailbox; [apply Hg|..]. }
  intros row Hrow Hid. destruct (step_family d op row Hg Hnr Hrow Hid) as (row0 & Hrow0 & Et & Hid0). rewrite <- Et.
  apply step_within; [done| |by apply Hw]. destruct op; try done; cbn [granted] in Hg; [|by edestruct Hnr].
  intros ->. destruct Hg as [Hdep [[Hs _]|(x & Hx & Ex & ->)]]; [by destruct (ho_families d Hd row0 Hrow0)|]. split; [|done].
  rewrite (same_token d x row0) by (done || apply (ho_tokens d Hd)). by apply Hat.
Qed.

(** C32: a family's mailbox stays within its quota.  Take any sequence of calls on the daemon - requests under any
    credentials, provisioning, patching and deleting families, pruning - and any family.  If [quota] bounds the quota the
    family has at each moment (a patch may raise and lower it), the sealed bytes stored for the family never
    exceed it, those its friends deposited never exceed half of it, and those of one deposit credential never
    a quarter: friends cannot fill the family's mailbox, nor one of them the friends' half.  The mailbox is followed
    through the rotations of its token, which move nothing else into it.  The database starts in order, a new family
    gets an id of its own, and each call runs by itself, its authorization included. *)
Theorem relay_quota_holds quota calls d :
  quota < U64_MAX -> housed d -> mailbox_within quota d -> Forall mints_other calls -> throughout (quota_at_most quota) d calls ->
  mailbox_within quota (relay_calls d calls) /\ housed (relay_calls d calls).
Proof.
  intros Hq Hd Hw Hm Hat. revert d Hd Hw Hat. induction Hm as [|c calls Hc _ IH]; intros d Hd Hw [Hat Hrest]; [done|].
  cbn [relay_calls foldl]. assert (mailbox_within quota (call_step d c) /\ housed (call_step d c)) as [Hw' Hd'].
  { destruct (call_granted d c Hd Hc) as [->|(op & Hg & ->)]; [done|]. split; [by apply step_mailbox|by apply step_housed]. }
  by apply IH.
Qed.
End quota.

(** * A family that rotates *)

(** A server that provisions a family, takes a letter from it and one from a friend, and
    moves it to another token. *)
Definition quota_calls : list relay_call :=
  [CallRequest toy_friend_token toy_limiter (ReqPost (mk_post_wire (b64_encode (Base64 := real_b64) (replicate 16 x05)) 3
     (b64_encode (Base64 := real_b64) toy_hint) (b64_encode (Base64 := real_b64) [x0d; x0e]) 900)) 40 50;
   CallRequest toy_family toy_limiter (ReqRotate (mk_rotate_body toy_new_token (Some (b64_encode (Base64 := real_b64) (replicate 32 x09)))
     (Some (b64_encode (Base64 := real_b64) (replicate 64 x09))))) 60 61;
   CallPrune 70].

Definition toy_family_id : bytes := mint_family_id (B := real_b64) [x07].

Lemma toy_housed : housed (C := toy_crypto) (B := real_b64) toy_app toy_mailbox.
Proof.
  split.
  - apply (bool_decide_eq_true_1 (NoDup (fm_token <$> rd_families toy_mailbox))). vm_compute. reflexivity.
  - apply Forall_forall. apply (bool_decide_eq_true_1 (Forall (fun row => fm_token row ∉ as_auth_tokens toy_app /\ fm_deposit_token row <> [])
      (rd_families toy_mailbox))). vm_compute. reflexivity.
  - intros t Ht. apply list_elem_of_singleton in Ht. subst t. vm_compute. discriminate.
  - assert (Forall (fun r => Exists (fun row => fm_token row = ml_family_token r) (rd_families toy_mailbox)) (rd_envelopes toy_mailbox)) as H
      by (apply (bool_decide_eq_true_1 _); vm_compute; reflexivity).
    intros r Hr. right. rewrite Forall_forall in H. specialize (H r Hr). by apply Exists_exists in H.
Qed.

Lemma quota_checked quota d :
  bool_decide (Forall (fun row => 0 <= family_quota toy_app row <= quota) (rd_families d)) = true -> quota_at_most toy_app toy_family_id quota d.
Proof. intros H%bool_decide_eq_true row Hrow _. rewrite Forall_forall in H. by apply H. Qed.

Lemma relay_quota_holds_witness :
  mailbox_within toy_family_id 1000 (relay_calls (C := toy_crypto) (B := real_b64) toy_app toy_mailbox quota_calls)
  /\ (fm_token <$> rd_families (relay_calls (C := toy_crypto) (B := real_b64) toy_app toy_mailbox quota_calls)) = [toy_new_token].
Proof.
  split; [|vm_compute; reflexivity].
  apply (relay_quota_holds (C := toy_crypto) (B := real_b64) toy_app toy_family_id 1000 quota_calls toy_mailbox); [reflexivity|apply toy_housed| | |].
  - intros row Hrow _. assert (fm_token row = toy_family) as ->.
    { revert row Hrow. apply Forall_forall. apply (bool_decide_eq_true_1 (Forall (fun row => fm_token row = toy_family) (rd_families toy_mailbox))).
      vm_compute. reflexivity. }
    split_and!; [vm_compute; discriminate|vm_compute; discriminate|]. intros who _. etrans; [apply usage_anyone|]. vm_compute. discriminate.
  - repeat constructor.
  - cbn [throughout quota_calls]. repeat apply conj; [apply quota_checked; vm_compute; reflexivity..|exact I].
Defined.
