(* ===== verification/RelayExchange.v ===== *)
(** A phone and its relay: the client of [relay_wire.rs] against the daemon of
    [relayd/src/lib.rs].

    The two sides are separate programs that agree on bytes.  Here what one writes is given
    to the other: the request a phone posts, the page the daemon serves, the rotation a
    phone signs.  JSON is a parameter on both sides; what a theorem needs of it is that the
    one body at hand reads back as what was written. *)
From stdpp Require Import base numbers list gmap strings sorting.
From S2P Require Import Prelude StdModel SqlModel Wire Crypto RelayPolicy RelayWire RelayMailbox RelayDaemon.

(** * Mailboxes whose rows the phones can read *)

Definition row_wf (r : mail_row) : Prop :=
  blen (ml_msg_id r) = 16 /\ blen (ml_recipient_hint r) = 8 /\ 1 <= blen (ml_sealed r) <= MAX_ENVELOPE_SEALED_BYTES.

Definition mail_wf (d : relay_db) : Prop := ids_ok d /\ Forall row_wf (rd_envelopes d).

(** The operations a request can be. *)
Definition op_wf (op : relay_op) : Prop :=
  match op with
  | OpPost _ m _ hint s _ _ _ _ => blen m = 16 /\ blen hint = 8 /\ 1 <= blen s <= MAX_ENVELOPE_SEALED_BYTES
  | OpAck _ _ | OpPresence _ _ _ _ | OpPush _ _ _ _ | OpRotate _ _ _ => True
  | _ => False
  end.

Section wellformed.
Context `{C : Crypto} `{B : Base64}.

Lemma serve_step st d token lim req auth_now now :
  serve st d token lim req auth_now now = d \/ exists op, op_wf op /\ serve st d token lim req auth_now now = relay_step d op.
Proof.
  destruct req as [request|query|ids|request|request|request|]; cbn [serve]; try by left.
  - unfold post_envelope. destruct (_ ≫= _) as [[a [[m hint] s]]|] eqn:E; [|by left]. right. cbv zeta.
    apply result_bind_ok in E as (a' & _ & E). apply result_bind_ok in E as (x & Hx & E). injection E as -> ->.
    destruct (insert_envelope_with_quota _ _ _ _ _ _ _ _ _ _) as [d' r] eqn:Hins. eexists (OpPost _ _ _ _ _ _ _ _ _).
    split; [|cbn [relay_step fst]; by rewrite Hins]. cbn [op_wf]. unfold check_post in Hx. repeat (apply result_bind_ok in Hx as (? & ? & Hx)). injection Hx as <- <- <-.
    repeat match goal with H : ensure _ _ = Ok _ |- _ => apply ensure_ok in H end. bools. unfold MSG_ID_LEN, RECIPIENT_HINT_LEN in *.
    split_and!; try done; try lia.
    match goal with H : ?l <> [] |- 1 <= blen ?l => destruct l as [|b l]; [done|]; rewrite blen_cons; pose proof (blen_nonneg l); lia end.
  - unfold ack_handler. destruct (_ ≫= _) as [a|]; [|by left]. right. exists (OpAck (fa_token a) (dedup (merge_sort Z.le ids))).
    split; [done|]. cbn [relay_step]. by destruct (ack_envelopes _ _ _).
  - unfold put_push_registration. cbv zeta. destruct (_ ≫= _) as [[a hints]|]; [|by left]. right.
    destruct (replace_push_registration _ _ _ _ _) as [d' r] eqn:Hp. eexists (OpPush _ _ _ _). split; [done|]. cbn [relay_step fst]. by rewrite Hp.
  - unfold presence_handler. destruct (_ ≫= _) as [[[[a cross] announce] query]|]; [|by left]. right.
    exists (OpPresence (fa_token a) announce query now). split; [done|]. cbn [relay_step]. by destruct (sync_presence _ _ _ _ _).
  - unfold rotate_family. destruct (_ ≫= _) as [[a [new auth]]|]; [|by left]. right. exists (OpRotate (fa_token a) new auth).
    split; [done|]. cbn [relay_step]. by destruct (rotate_family_token _ _ _ _).
Qed.

Lemma filter_wf P l : Forall row_wf l -> Forall row_wf (List.filter P l).
Proof. rewrite !Forall_forall. intros H r. rewrite list_elem_of_In, filter_In, <- list_elem_of_In. intros [Hr _]. by apply H. Qed.

Lemma kept_wf r r' : kept r r' -> row_wf r -> row_wf r'.
Proof. intros (_ & E1 & E2 & E3 & _). unfold row_wf. by rewrite E1, E2, E3. Qed.

Lemma step_wf d op : op_wf op -> mail_wf d -> mail_wf (relay_step d op).
Proof.
  intros Hop [Hi Hw]. split; [eapply evolves_ids; [apply step_evolves|done]|]. destruct op; try done; cbn [relay_step op_wf] in *.
  - apply Forall_forall. intros r' Hr. rewrite Forall_forall in Hw.
    destruct (post_rows d family_token msg_id hop_ttl hint sealed expiry_ms created_at_ms quota depositor) as [H _].
    destruct (H r' Hr) as [(r & Hin & Hk)|(_ & _ & E1 & E2 & E3 & _)]; [eapply kept_wf; [by eapply refreshed_kept|auto]|]. unfold row_wf. by rewrite E1, E2, E3.
  - unfold ack_envelopes. case_decide; [done|]. case_match; [done|]. by apply filter_wf.
  - by apply filter_wf.
  - unfold replace_push_registration. by repeat case_match.
  - destruct (rotate_outcomes d current_token new_token authority) as [->|(fam & moved & E)]; [done|].
    destruct (rotate_family_token d current_token new_token authority) as [d' o] eqn:Hr. cbn in E |- *. subst o.
    apply rotated_inv in Hr as (row & d1 & _ & _ & _ & Hd1 & _ & _ & _ & -> & _ & _). cbn [move_family rd_envelopes].
    assert (rd_envelopes d1 = rd_envelopes d) as -> by (by destruct Hd1 as [[_ ->]|[_ ->]]).
    apply Forall_fmap. eapply Forall_impl; [exact Hw|]. intros r Hr. cbn. unfold rekey_row. by case_match.
Qed.

Lemma serve_wf st d token lim req auth_now now : mail_wf d -> mail_wf (serve st d token lim req auth_now now).
Proof. intros Hd. destruct (serve_step st d token lim req auth_now now) as [->|(op & Hop & ->)]; [done|by apply step_wf]. Qed.
End wellformed.

(** * Pages *)

(** The row as the daemon's JSON carries it, and the page. *)
Definition wire_of (e : EnvelopeResponse) : EnvelopeWire :=
  mk_envelope_wire (er_id e) (er_msg_id e) (er_hop_ttl e) (er_recipient_hint e) (er_sealed e) (er_expiry_ms e).

Definition page_wire (answer : GetEnvelopesResponse) : FetchResponse :=
  mk_fetch_response (wire_of <$> gr_envelopes answer) (gr_next_cursor answer).

(** The strings of a page, with room for the numbers, the field names and the punctuation. *)
Definition body_bound (answer : GetEnvelopesResponse) : Z :=
  64 + foldr Z.add 0 ((fun e => 256 + blen (er_msg_id e) + blen (er_recipient_hint e) + blen (er_sealed e)) <$> gr_envelopes answer).

(** The envelope a phone reads off a row. *)
Definition fetched_of (r : mail_row) : CoreRelayFetchedEnvelope :=
  mk_fetched (ml_id r) (ml_msg_id r) (as_u8 (ml_hop_ttl r)) (ml_recipient_hint r) (ml_sealed r) (ml_expiry_ms r).

Section pages.
Context `{C : Crypto} `{B : Base64} {BL : Base64Laws B} `{J : RelayJson}.

Definition row_wire (r : mail_row) : EnvelopeWire := wire_of (envelope_response (stored_envelope r)).

(** A served page holds at most its 8 MiB. *)
Lemma fill_page_bytes rows e b : Forall row_wf rows -> 0 <= b <= MAX_FETCH_PAGE_SEALED_BYTES -> (e = true -> b = 0) ->
  b + sealed_sum (fill_page rows e b) <= MAX_FETCH_PAGE_SEALED_BYTES.
Proof.
  intros Hw. revert e b. induction Hw as [|r rows (_ & _ & Hr) _ IH]; intros e b Hb He; cbn [fill_page]; [cbn; lia|]. cbv zeta.
  unfold MAX_ENVELOPE_SEALED_BYTES, MAX_FETCH_PAGE_SEALED_BYTES in *.
  assert (u64_saturating_add b (blen (ml_sealed r)) = b + blen (ml_sealed r)) as -> by (unfold u64_saturating_add, sat_u64, U64_MAX; lia).
  destruct (negb e && _) eqn:E; [cbn; lia|]. cbn [sealed_sum].
  assert (b + blen (ml_sealed r) <= 8 * 1024 * 1024) as Hle by (destruct e; [rewrite (He eq_refl); lia|cbn in E; lia]).
  specialize (IH false (b + blen (ml_sealed r))). lia.
Qed.

Lemma row_decodes r db prev : row_wf r -> 0 < ml_id r -> (forall p, prev = Some p -> p < ml_id r) -> 0 <= db ->
  db + blen (ml_sealed r) <= RELAY_FETCH_MAX_DECODED_BYTES ->
  decode_fetched (row_wire r) db prev = Ok (fetched_of r, db + blen (ml_sealed r)).
Proof.
  intros (Hm & Hh & Hs) Hid Hp Hdb Hsum. unfold decode_fetched, row_wire, wire_of, envelope_response, stored_envelope, encode_base64_field.
  cbn [ew_id ew_msg_id ew_hop_ttl ew_recipient_hint ew_sealed ew_expiry_ms er_id er_msg_id er_hop_ttl er_recipient_hint er_sealed er_expiry_ms
       se_id se_msg_id se_hop_ttl se_recipient_hint se_sealed se_expiry_ms].
  unfold validate_b64_len, b64_decode. rewrite !b64_round_trip, !b64_length, Hm, Hh.
  assert ((ml_id r <? 0) || match prev with Some p => ml_id r <=? p | None => false end = false) as ->.
  { destruct prev as [p|]; [specialize (Hp p eq_refl)|]; lia. }
  assert (bool_decide (b64_encode (ml_sealed r) = []) = false) as ->.
  { apply bool_decide_eq_false. intros E. pose proof (b64_length (ml_sealed r)) as HL. rewrite E in HL. change (blen []) with 0 in HL.
    assert (1 <= (blen (ml_sealed r) * 4 + 2) / 3) by (apply Z.div_le_lower_bound; lia). lia. }
  assert ((max_b64_len RELAY_MAX_SEALED_BYTES <? (blen (ml_sealed r) * 4 + 2) / 3) = false) as ->.
  { change (max_b64_len RELAY_MAX_SEALED_BYTES) with ((512 * 1024 * 4 + 2) / 3). apply Z.ltb_ge, Z.div_le_mono; [lia|].
    unfold MAX_ENVELOPE_SEALED_BYTES in Hs. lia. }
  cbn. unfold validate_envelope, relay_validate_envelope_sizes. rewrite Hm, Hh. unfold RELAY_FETCH_MAX_DECODED_BYTES, RELAY_MAX_RESPONSE_BODY_BYTES in *.
  unfold MAX_ENVELOPE_SEALED_BYTES in Hs.
  rewrite (proj2 (Z.eqb_neq (blen (ml_sealed r)) 0)) by lia. rewrite (proj2 (Z.leb_le _ RELAY_MAX_SEALED_BYTES)) by (unfold RELAY_MAX_SEALED_BYTES; lia).
  rewrite (proj2 (Z.leb_le _ U64_MAX)) by (unfold U64_MAX; lia). cbn. rewrite (proj2 (Z.leb_le _ _)) by lia. done.
Qed.

Lemma rows_decode rows db prev : Forall row_wf rows -> Forall (fun r => 0 < ml_id r) rows -> StronglySorted Z.lt (ml_id <$> rows) ->
  (forall p, prev = Some p -> Forall (fun r => p < ml_id r) rows) -> 0 <= db -> db + sealed_sum rows <= RELAY_FETCH_MAX_DECODED_BYTES ->
  decode_fetched_all (row_wire <$> rows) db prev = Ok (fetched_of <$> rows, match last rows with Some r => Some (ml_id r) | None => prev end).
Proof.
  intros Hw. revert db prev. induction Hw as [|r rows Hr Hw IH]; intros db prev Hpos Hs Hp Hdb Hsum; [done|].
  cbn [fmap list_fmap] in *. apply Forall_cons in Hpos as [Hid Hpos]. apply StronglySorted_inv in Hs as [Hs Hlt]. rewrite Forall_fmap in Hlt.
  cbn [sealed_sum] in Hsum. pose proof (sealed_sum_nonneg rows). pose proof (blen_nonneg (ml_sealed r)). cbn [decode_fetched_all].
  rewrite row_decodes; [|done|done| |lia|lia]; [|intros p Hpp; specialize (Hp p Hpp); by inversion Hp]. cbn [mbind result_bind]. change (ew_id (row_wire r)) with (ml_id r).
  rewrite (IH (db + blen (ml_sealed r)) (Some (ml_id r))); [|done|done| |lia|lia]; [|intros p [= <-]; exact Hlt]. cbn.
  destruct rows as [|x rows]; [done|]. rewrite last_cons_cons. destruct (last (x :: rows)) eqn:El; [done|]. by apply last_None in El.
Qed.

(** Bounding the body by what the page holds. *)
Lemma bound_rows rows next : Forall row_wf rows ->
  body_bound (mk_get_response (envelope_response <$> (stored_envelope <$> rows)) next) <= 64 + 291 * blen rows + (sealed_sum rows * 4) / 3.
Proof.
  intros Hw. unfold body_bound. cbn [gr_envelopes]. enough (foldr Z.add 0 ((fun e => 256 + blen (er_msg_id e) + blen (er_recipient_hint e) + blen (er_sealed e))
    <$> (envelope_response <$> (stored_envelope <$> rows))) * 3 <= 873 * blen rows + sealed_sum rows * 4) as H.
  { assert (0 <= sealed_sum rows * 4 / 3) by (apply Z.div_pos; [pose proof (sealed_sum_nonneg rows)|]; lia).
    assert (sealed_sum rows * 4 < 3 * (sealed_sum rows * 4 / 3) + 3) by (pose proof (Z.mul_succ_div_gt (sealed_sum rows * 4) 3); lia). lia. }
  induction Hw as [|r rows (Hm & Hh & _) _ IH]; [done|]. cbn [fmap list_fmap foldr sealed_sum]. rewrite blen_cons.
  cbn [envelope_response stored_envelope er_msg_id er_recipient_hint er_sealed se_msg_id se_recipient_hint se_sealed].
  unfold encode_base64_field. rewrite !b64_length, Hm, Hh. pose proof (Z.mul_div_le (blen (ml_sealed r) * 4 + 2) 3).
  change ((16 * 4 + 2) / 3) with 22. change ((8 * 4 + 2) / 3) with 11. lia.
Qed.

Lemma hints_nonempty value hints : decode_fetch_hints value = Ok hints -> hints <> [].
Proof.
  unfold decode_fetch_hints. intros H. apply result_bind_ok in H as (hs & _ & H). apply result_bind_ok in H as (u & Hu & H). injection H as ->.
  apply ensure_ok in Hu. by bools.
Qed.

Lemma page_rows_wf d f hints after limit now : mail_wf d -> let rows := fetch_rows d f hints after limit now in
  Forall row_wf rows /\ Forall (fun r => 0 < ml_id r) rows /\ StronglySorted Z.lt (ml_id <$> rows) /\ blen rows <= Z.max 0 limit
  /\ sealed_sum rows <= MAX_FETCH_PAGE_SEALED_BYTES.
Proof.
  intros [Hi Hw] rows. pose proof (fetch_rows_prefix f hints d after limit now Hi) as [rest Hpre]. fold rows in Hpre. destruct Hi as (Hs & Hpos & _).
  assert (Forall row_wf rows) as Hrw.
  { apply Forall_forall. intros r [Hr _]%fetch_rows_own. rewrite Forall_forall in Hw. auto. }
  split_and!; [done| | | |].
  - apply Forall_forall. intros r [Hr _]%fetch_rows_own. rewrite Forall_forall in Hpos. specialize (Hpos r Hr). lia.
  - pose proof (filter_sorted_ids (fetchable f hints after now) _ Hs) as Hc. rewrite Hpre, fmap_app in Hc.
    by eapply StronglySorted_app_1_l.
  - subst rows. unfold fetch_rows. pose proof (prefix_length _ _ (fill_page_prefix (take (Z.to_nat (Z.min limit MAX_FETCH_LIMIT))
      (merge_sort mail_le (List.filter (fetchable f hints after now) (rd_envelopes d)))) true 0)) as Hl. rewrite length_take in Hl. unfold blen. lia.
  - subst rows. unfold fetch_rows. etrans; [|eapply (fill_page_bytes (take (Z.to_nat (Z.min limit MAX_FETCH_LIMIT))
      (merge_sort mail_le (List.filter (fetchable f hints after now) (rd_envelopes d)))) true 0); [|unfold MAX_FETCH_PAGE_SEALED_BYTES; lia|done]]; [lia|].
    apply Forall_take, Forall_forall. intros r Hr. rewrite merge_sort_Permutation in Hr. apply list_elem_of_In, filter_In in Hr as [Hr _].
    rewrite Forall_forall in Hw. apply Hw. by apply list_elem_of_In.
Qed.

Lemma page_decodes rows after body : let answer := mk_get_response (envelope_response <$> (stored_envelope <$> rows)) (default after (se_id <$> last (stored_envelope <$> rows))) in
  Forall row_wf rows -> Forall (fun r => 0 < ml_id r) rows -> StronglySorted Z.lt (ml_id <$> rows) -> blen rows <= 256 ->
  sealed_sum rows <= 8 * 1024 * 1024 -> 0 <= after -> blen body <= RELAY_MAX_RESPONSE_BODY_BYTES -> fetch_of_json body = Ok (page_wire answer) ->
  relay_decode_fetch_page body = Ok (mk_fetch_page (fetched_of <$> rows) (gr_next_cursor answer)).
Proof.
  intros answer Hw Hpos Hs Hlen Hsum Haf Hb Hjson. unfold relay_decode_fetch_page, validate_response_body.
  rewrite (proj2 (Z.leb_le _ _) Hb), Hjson. cbn [mbind result_bind relay_json ensure page_wire fr_envelopes fr_next_cursor].
  assert (wire_of <$> gr_envelopes answer = row_wire <$> rows) as -> by (subst answer; cbn [gr_envelopes]; by rewrite <- !list_fmap_compose).
  assert (gr_next_cursor answer = default after (ml_id <$> last rows)) as ->.
  { subst answer. cbn [gr_next_cursor]. rewrite fmap_last. by destruct (last rows). }
  assert (0 <= default after (ml_id <$> last rows)) as Hc.
  { destruct (last rows) as [r|] eqn:El; [|done]. cbn. rewrite Forall_forall in Hpos. apply last_Some_elem_of in El. specialize (Hpos r El). lia. }
  assert (blen (row_wire <$> rows) = blen rows) as -> by (unfold blen; by rewrite length_fmap).
  rewrite (proj2 (Z.leb_le (blen rows) RELAY_FETCH_MAX_ROWS)) by (unfold RELAY_FETCH_MAX_ROWS; lia).
  rewrite (proj2 (Z.ltb_ge (default after (ml_id <$> last rows)) 0)) by lia. cbn [mbind result_bind ensure negb].
  rewrite rows_decode by (done || lia || (unfold RELAY_FETCH_MAX_DECODED_BYTES, RELAY_MAX_RESPONSE_BODY_BYTES; lia)). cbn [mbind result_bind].
  destruct (last rows) as [r|]; cbn; [by rewrite Z.eqb_refl|done].
Qed.

(** A phone accepts every page its relay serves.  The daemon caps a page by the bytes sealed in it, the
    client by the body it downloads, the rows it decodes and the bytes they decode to, and the two were
    chosen in different programs.  Every request keeps the mailbox well formed; and when a member asks for
    at most 256 rows, a body that carries the answer - in no more bytes than its strings and 256 more per
    row - passes each of the client's checks and decodes to exactly the stored rows and the cursor behind
    them: 8 MiB of sealed bytes never outgrow the client's 12 MiB. *)
Theorem served_page_accepted st d token lim query limit auth_now now answer body :
  mail_wf d ->
  (forall token lim req auth_now now, mail_wf (serve st d token lim req auth_now now))
  /\ (get_envelopes st d (bearer token) lim query auth_now now = Ok answer -> gq_limit query = Some limit -> limit <= RELAY_FETCH_MAX_ROWS ->
      fetch_of_json body = Ok (page_wire answer) -> blen body <= body_bound answer ->
      exists f hints, credential_of st d token = Some (f, Member) /\ decode_fetch_hints (gq_hints query) = Ok hints
        /\ relay_decode_fetch_page body
           = Ok (mk_fetch_page (fetched_of <$> fetch_rows d f hints (default 0 (gq_after query)) limit now) (gr_next_cursor answer))).
Proof.
  intros Hd. split; [intros; by apply serve_wf|]. intros H Hlim Hmax Hjson Hbody. unfold get_envelopes in H.
  apply result_bind_ok in H as (a & Hau & H). apply result_bind_ok in H as (u & _ & H). apply result_bind_ok in H as (hints & Hh & H).
  apply result_bind_ok in H as (u2 & Haf & H). apply result_bind_ok in H as (stored & Hst & H). injection H as <-. apply ensure_ok in Haf.
  apply authorize_credential in Hau as (Hc & Hdep & _). exists (fa_token a), hints.
  split; [rewrite Hc; destruct (fa_class a); [done|by specialize (Hdep eq_refl)]|]. split; [done|]. rewrite Hlim in Hst. cbn [default] in Hst.
  set (after := default 0 (gq_after query)) in *. set (rows := fetch_rows d (fa_token a) hints after limit now).
  assert (stored = stored_envelope <$> rows) as ->.
  { unfold internal in Hst. destruct (fetch_envelopes _ _ _ _ _ _) as [x|] eqn:Hf; [injection Hst as ->|done]. unfold fetch_envelopes in Hf.
    destruct (decide (hints = [])) as [E|_]; [by apply hints_nonempty in Hh|]. case_match; [done|]. injection Hf as <-. subst rows.
    unfold fetch_rows. rewrite <- Z.min_assoc, Z.min_id. done. }
  destruct (page_rows_wf d (fa_token a) hints after limit now Hd) as (Hw & Hpos & Hs & Hlen & Hsum). fold rows in Hw, Hpos, Hs, Hlen, Hsum.
  unfold RELAY_FETCH_MAX_ROWS, MAX_FETCH_PAGE_SEALED_BYTES in *.
  assert (blen body <= RELAY_MAX_RESPONSE_BODY_BYTES) as Hb.
  { etrans; [exact Hbody|]. etrans; [by apply bound_rows|]. assert (sealed_sum rows * 4 / 3 <= 8 * 1024 * 1024 * 4 / 3) by (apply Z.div_le_mono; lia).
    change (8 * 1024 * 1024 * 4 / 3) with 11184810 in *. unfold RELAY_MAX_RESPONSE_BODY_BYTES. lia. }
  apply Z.leb_le in Haf. apply page_decodes; try done; lia.
Qed.

(** ** A letter through the relay *)

Lemma decode_field_round_trip (v : bytes) field : decode_base64_field (b64_encode v) field = Ok v.
Proof. unfold decode_base64_field. by rewrite b64_round_trip. Qed.

(** What the client lets out, the daemon lets in. *)
Lemma check_post_accepts lim m hop hint s expiry u : lm_request lim = Ok tt -> lm_bytes lim = Ok tt -> validate_envelope m hint s = Ok u ->
  check_post lim (mk_post_wire (b64_encode m) hop (b64_encode hint) (b64_encode s) expiry) = Ok (m, hint, s).
Proof.
  intros H1 H2 (Hm & Hh & Hs)%validate_envelope_ok. unfold check_post. cbn [pw_msg_id pw_recipient_hint pw_sealed]. rewrite H1, H2, !decode_field_round_trip.
  cbn [mbind result_bind]. rewrite Hm, Hh. cbn. rewrite (bool_decide_eq_false_2 (s = [])) by (intros ->; change (@blen byte []) with 0 in Hs; lia).
  rewrite (proj2 (Z.leb_le _ MAX_ENVELOPE_SEALED_BYTES)); [done|]. unfold RELAY_MAX_SEALED_BYTES, MAX_ENVELOPE_SEALED_BYTES in *. lia.
Qed.

(** C3: a letter crosses the relay.  When a phone encodes a post, its credential is admitted, and the
    mailbox has room, the daemon accepts the request and stores the letter under a fresh id.  From then
    until it expires or is acknowledged, a member that asks with the letter's hint from any cursor behind
    it gets the letter, bit for bit, or a page of older mail that moves its cursor forward and still stops
    short of the letter: repeating the fetch cannot pass it by. *)
Theorem mail_crosses_relay st d sender lim m hop hint sealed expiry body auth_now now a :
  mail_wf d -> 0 <= hop < 256 -> relay_encode_post_envelope m hop hint sealed expiry = Ok body ->
  authorize_bearer st d (bearer sender) PostOp auth_now = Ok a -> lm_request lim = Ok tt -> lm_bytes lim = Ok tt ->
  existing_mail d (fa_token a) m = None ->
  quota_rejection (quota_usage_on d (fa_token a) (fa_depositor a)) (blen sealed) (fa_quota_bytes a) (fa_depositor a) = None ->
  exists request d' id stored, post_envelope_to_json request = Ok body
    /\ post_envelope st d (bearer sender) lim request auth_now now = (d', Ok (id, stored)) /\ rd_sequence d < id
    /\ forall hints after limit now', hint ∈ hints -> after < id -> 1 <= limit -> now' < er_expiry_ms (bc_envelope stored) ->
         let page := fetch_rows d' (fa_token a) hints after limit now' in
         mk_fetched id m hop hint sealed (er_expiry_ms (bc_envelope stored)) ∈ (fetched_of <$> page)
         \/ (page <> [] /\ after < next_cursor after page < id).
Proof.
  intros Hd Hhop Henc Hau Hl1 Hl2 Hnew Hroom. unfold relay_encode_post_envelope in Henc. apply result_bind_ok in Henc as (u & Hv & Henc).
  set (request := mk_post_wire _ _ _ _ _) in Henc. exists request. pose proof (check_post_accepts lim m hop hint sealed expiry u Hl1 Hl2 Hv) as Hck.
  fold request in Hck. unfold post_envelope. rewrite Hau. cbn [mbind result_bind]. rewrite Hck. cbn [mbind result_bind]. cbv zeta.
  unfold insert_envelope_with_quota.
  apply validate_envelope_ok in Hv as (Hm & Hh & Hs). rewrite (proj2 (Z.ltb_ge _ (blen sealed)))
    by (unfold MAX_ENVELOPE_SEALED_BYTES, RELAY_MAX_SEALED_BYTES in *; lia). cbv zeta. rewrite Hnew, Hroom, Hroom. cbn [append_mail fst snd].
  set (r := mk_mail _ _ _ _ _ _ _ _ _). set (d' := mk_relay_db _ _ _ _ _ _). eexists d', (rd_sequence d + 1), _. split_and!; [|done|lia|].
  { unfold relay_json in Henc. destruct (post_envelope_to_json request); [by injection Henc as ->|done]. }
  intros hints after limit now' Hhint Hafter Hlimit Hexp. set (page := fetch_rows _ _ _ _ _ _). cbn [bc_envelope er_expiry_ms] in *.
  assert (ids_ok d') as Hi by (eapply (evolves_ids (fun _ => False)); [apply (evolves_append _ d)|apply Hd]).
  assert (r ∈ List.filter (fetchable (fa_token a) hints after now') (rd_envelopes d')) as Hr.
  { apply list_elem_of_In, filter_In. split; [apply list_elem_of_In; subst d'; cbn; apply elem_of_app; right; by left|].
    unfold fetchable, of_family. subst r. cbn [ml_family_token ml_id ml_recipient_hint ml_expiry_ms].
    rewrite !bool_decide_eq_true_2 by done. rewrite (proj2 (Z.ltb_lt after _)) by lia. rewrite (proj2 (Z.ltb_lt now' _)) by lia. done. }
  destruct (page_split (fa_token a) hints d' after limit now' Hi) as (Hsplit & Hge & _ & Hcur). fold page in Hsplit, Hge, Hcur. rewrite Hsplit in Hr.
  apply elem_of_app in Hr as [Hr|Hr].
  - left. apply list_elem_of_fmap. exists r. split; [|done]. unfold fetched_of, as_u8. subst r. cbn. rewrite Z.mod_small by lia. done.
  - right. assert (page <> []) as Hne.
    { intros E. apply (fetch_rows_empty _ _ _ _ _ _ Hi Hlimit) in E. rewrite E in Hsplit. symmetry in Hsplit. apply app_nil in Hsplit as [_ E2].
      rewrite E2 in Hr. by apply not_elem_of_nil in Hr. }
    split; [done|]. apply list_elem_of_In, filter_In in Hr as [_ Hf]. unfold fetchable in Hf. bools. subst r. cbn [ml_id] in *. split; [|lia].
    destruct Hcur as [E|(x & Hx & ->)]; [done|]. assert (x ∈ List.filter (fetchable (fa_token a) hints after now') (rd_envelopes d')) as Hxc
      by (rewrite Hsplit; apply elem_of_app; by left). apply list_elem_of_In, filter_In in Hxc as [_ Hxf]. unfold fetchable in Hxf. bools. lia.
Qed.
End pages.

(** * Rotating a family's token *)

Section ceremony.
Context `{C : Crypto} `{B : Base64} {BL : Base64Laws B} `{J : RelayJson}.

(** Ed25519 keys and signatures of the phone, which the relay's verification accepts. *)
Variable ed25519_sign : bytes -> bytes -> bytes.
Variable ed25519_public : bytes -> bytes.
Hypothesis signs : forall sk m, blen sk = 32 ->
  blen (ed25519_public sk) = 32 /\ blen (ed25519_sign sk m) = 64 /\ ed25519_key_ok (ed25519_public sk) = true
  /\ ed25519_verify (ed25519_public sk) m (ed25519_sign sk m) = true.

(** The two programs derive the same deposit token and sign the same bytes. *)
Lemma deposit_tokens_agree t : deposit_token_for t = relay_deposit_token_for t.
Proof. done. Qed.

Lemma signed_bytes_agree cur new : blen cur < 65536 -> blen new < 65536 ->
  rotation_signed_bytes cur new = family_rotation_signing_bytes cur new.
Proof.
  intros Hc Hn. pose proof (blen_nonneg cur). pose proof (blen_nonneg new). unfold rotation_signed_bytes, family_rotation_signing_bytes, rotation_field, family_rotation_field.
  rewrite !Z.mod_small, !Z.min_l by (unfold U16_MAX; lia). done.
Qed.

(** The request as the daemon's JSON reader hands it to the handler. *)
Definition rotate_body (w : RotateFamilyRequest) : RotateBody := mk_rotate_body (rq_new_token w) (Some (rq_rotation_pk w)) (Some (rq_rotation_sig w)).

(** A token the daemon may give to a family. *)
Record fresh_token (st : AppState) (new : bytes) : Prop := {
  ft_trim : trim new = new;
  ft_len : MIN_ROTATION_TOKEN_LEN <= blen new <= MAX_FAMILY_TOKEN_LEN;
  ft_blank : has_blank new = false;
  ft_deposit : is_deposit_token new = false;
  ft_id : is_family_id new = false;
  ft_admin : as_admin_token st <> Some new;
  ft_static : new ∉ as_auth_tokens st;
  ft_static_deposit : static_deposit_tokens st !! new = None;
}.

Lemma fixed_field n v field : blen v = n -> decode_fixed_base64_field n (Some (b64_encode v)) field = Ok v.
Proof. intros <-. unfold decode_fixed_base64_field. rewrite decode_field_round_trip. cbn [mbind result_bind]. by rewrite Z.eqb_refl. Qed.

(** What the phone signs passes the daemon's checks. *)
Lemma rotate_request_checked st cur new sk body : fresh_token st new -> blen cur < 65536 ->
  relay_encode_rotate_request ed25519_sign ed25519_public cur new sk = Ok body ->
  exists w auth, rotate_to_json w = Ok body /\ check_rotate st (rotate_body w) = Ok (new, auth) /\ au_public_key auth = ed25519_public sk
    /\ verify_rotation_signature (au_public_key auth) (rotation_signed_bytes cur new) (au_signature auth) = true.
Proof.
  intros [Ht Hl Hb Hd Hid Ha Hs Hsd] Hc H. unfold relay_encode_rotate_request in H. rewrite Ht in H. apply result_bind_ok in H as (u1 & _ & H).
  apply result_bind_ok in H as (u2 & _ & H). apply result_bind_ok in H as (u3 & Hk & H). apply ensure_ok in Hk. bools.
  destruct (signs sk (family_rotation_signing_bytes cur new) Hk) as (Hp & Hg & Hkey & Hver). set (w := mk_rotate_request _ _ _) in H.
  exists w. eexists (mk_authority _ _). split; [unfold relay_json in H; destruct (rotate_to_json w); [by injection H as ->|done]|]. split.
  - unfold check_rotate, rotate_body. cbn [rb_new_token rb_rotation_pk rb_rotation_sig rq_new_token rq_rotation_pk rq_rotation_sig w]. rewrite Ht.
    rewrite (proj2 (Z.leb_le _ _) (proj1 Hl)), (proj2 (Z.leb_le _ _) (proj2 Hl)), Hb, Hd, Hid, Hsd. rewrite !bool_decide_eq_false_2 by (done || by intros []).
    cbn [mbind result_bind ensure negb orb andb]. rewrite (fixed_field _ _ _ Hp), (fixed_field _ _ _ Hg). reflexivity.
  - split; [done|]. cbn [au_public_key au_signature]. unfold verify_rotation_signature. unfold MAX_FAMILY_TOKEN_LEN in Hl.
    rewrite signed_bytes_agree by lia. by rewrite Hkey, Hver.
Qed.

(** ** The family's row across a rotation *)

Definition with_key (pk : bytes) (f : FamilyRow) : FamilyRow :=
  mk_family (fm_token f) (fm_family_id f) (fm_status f) (fm_plan f) (fm_quota_bytes f) (fm_created_ms f) (fm_expires_ms f) (fm_note f)
    (fm_deposit_token f) (Some pk).

Definition with_token (new : bytes) (f : FamilyRow) : FamilyRow :=
  mk_family new (fm_family_id f) (fm_status f) (fm_plan f) (fm_quota_bytes f) (fm_created_ms f) (fm_expires_ms f) (fm_note f)
    (deposit_token_for new) (fm_rotation_pk f).

Lemma find_fmap {A} (P Q : A -> bool) (g : A -> A) l : (forall x, x ∈ l -> P (g x) = Q x) -> List.find P (g <$> l) = g <$> List.find Q l.
Proof.
  induction l as [|x l IH]; intros H; [done|]. cbn [fmap list_fmap List.find]. rewrite (H x) by left. destruct (Q x); [done|].
  apply IH. intros y Hy. apply H. by right.
Qed.

Lemma keyed_lookup d cur pk row : get_family_on d cur = Some row -> get_family_on (set_rotation_pk cur pk d) cur = Some (with_key pk row).
Proof.
  intros H. pose proof (get_family_some _ _ _ H) as [_ Ht]. unfold get_family_on, set_rotation_pk, update_families, with_families in *. cbn [rd_families].
  rewrite (find_fmap _ (has_token cur)), H.
  - cbn. unfold has_token. by rewrite bool_decide_eq_true_2.
  - intros f _. unfold has_token. by destruct (bool_decide (fm_token f = cur)) eqn:E; cbn; rewrite ?E.
Qed.

Lemma moved_lookup d cur new row : get_family_on d cur = Some row -> new ∉ credentials d -> get_family_on (move_family cur new d) new = Some (with_token new row).
Proof.
  intros H Hn. pose proof (get_family_some _ _ _ H) as [_ Ht]. unfold get_family_on in *. cbn [move_family rd_families].
  rewrite (find_fmap _ (has_token cur)), H.
  - cbn. unfold has_token. by rewrite bool_decide_eq_true_2.
  - intros f Hf. unfold has_token. destruct (bool_decide (fm_token f = cur)) eqn:E; cbn; [by apply bool_decide_eq_true|].
    apply bool_decide_eq_false. intros E2. apply Hn, credentials_elem. exists f. auto.
Qed.

(** Nothing is stored under the new token yet, so the move cannot collide. *)
Definition unused (new : bytes) (d : relay_db) : Prop :=
  (forall r, r ∈ rd_envelopes d -> ml_family_token r <> new) /\ (forall h, rd_presence d !! (new, h) = None).

Lemma existsb_none {A} (P : A -> bool) l : (forall x, x ∈ l -> P x = false) -> existsb P l = false.
Proof. induction l as [|x l IH]; intros H; [done|]. cbn. rewrite (H x) by left. apply IH. intros y Hy. apply H. by right. Qed.

Lemma unused_moves cur new d : unused new d -> move_collides cur new d = false.
Proof.
  intros [Hm Hp]. unfold move_collides. apply orb_false_iff. split.
  - apply existsb_none. intros r _. apply andb_false_iff. right. apply bool_decide_eq_false, eq_None_not_Some, find_none.
    intros x Hx. unfold same_mail. by rewrite (bool_decide_eq_false_2 (ml_family_token x = new)) by auto.
  - apply existsb_none. intros kv _. apply andb_false_iff. right. rewrite Hp. by apply bool_decide_eq_false, is_Some_None.
Qed.

Lemma authorize_member st d t row op now : t ∉ as_auth_tokens st -> static_deposit_tokens st !! t = None -> get_family_on d t = Some row ->
  check_billing row op now = Ok tt -> exists a, authorize_bearer st d (bearer t) op now = Ok a /\ fa_token a = t.
Proof.
  intros Hs Hsd Hr Hb. pose proof (get_family_some _ _ _ Hr) as [_ Ht]. unfold authorize_bearer. rewrite bearer_token. cbn [mbind result_bind].
  unfold authorize_family. rewrite decide_False, Hsd by done. unfold get_family_by_credential_on. rewrite Hr. cbn [bool_decide]. 
  rewrite bool_decide_eq_false_2 by done. cbn [andb]. rewrite Hb. cbn [mbind result_bind]. eexists. split; [reflexivity|]. done.
Qed.

(** A rotation the key may make, onto an unused token, is made. *)
Lemma rotate_succeeds d cur new auth row :
  get_family_on d cur = Some row -> cur <> new ->
  verify_rotation_signature (au_public_key auth) (rotation_signed_bytes cur new) (au_signature auth) = true ->
  (fm_rotation_pk row = None \/ fm_rotation_pk row = Some (au_public_key auth)) ->
  NoDup (credentials d) -> new ∉ credentials d -> deposit_token_for new ∉ credentials d -> unused new d ->
  let fam := with_token new (with_key (au_public_key auth) row) in
  exists d', rotate_family_token d cur new auth = (d', Ok (Rotated fam (count_for_family d cur)))
    /\ get_family_on d' new = Some fam /\ get_family_by_credential_on d' cur = None.
Proof.
  intros Hrow Hne Hv Hpk Hnd Hn Hdn Hun fam. pose proof (get_family_some _ _ _ Hrow) as [_ Ht].
  set (d1 := if fm_rotation_pk row then d else set_rotation_pk cur (au_public_key auth) d).
  assert (get_family_on d1 cur = Some (with_key (au_public_key auth) row)) as Hrow1.
  { subst d1. destruct Hpk as [->|Hpk]; [by apply keyed_lookup|]. rewrite Hpk, Hrow. f_equal. destruct row. cbn in Hpk |- *. unfold with_key. cbn. by rewrite Hpk. }
  assert (credentials d1 = credentials d /\ rd_envelopes d1 = rd_envelopes d /\ rd_presence d1 = rd_presence d) as (Hcr & Hm & Hp)
    by (subst d1; destruct (fm_rotation_pk row); split_and!; try done; apply set_pk_credentials).
  assert (rotate_family_token d cur new auth = finish_rotation d d1 row false cur new) as ->.
  { unfold rotate_family_token, rotation_row. rewrite Hrow, bool_decide_eq_false_2 by done. unfold check_rotation_authority. rewrite Hv. subst d1.
    destruct Hpk as [E|E]; rewrite E; [by rewrite Ht|]. by rewrite bool_decide_eq_true_2. }
  exists (move_family cur new d1). split_and!.
  - unfold finish_rotation. rewrite (proj2 (credential_unknown d1 new)), (proj2 (credential_unknown d1 (deposit_token_for new))) by (by rewrite Hcr).
    rewrite bool_decide_eq_false_2 by (by intros []). cbn [orb]. rewrite unused_moves by (unfold unused; by rewrite Hm, Hp). cbv zeta.
    rewrite (moved_lookup d1 cur new _ Hrow1) by (by rewrite Hcr). unfold count_for_family. by rewrite Hm.
  - apply moved_lookup; [done|by rewrite Hcr].
  - apply credential_unknown. rewrite <- Hcr in Hnd, Hn, Hdn. by destruct (moved_credentials d1 cur new _ Hnd Hrow1 Hn Hdn).
Qed.

(** Asked again under the new token, the daemon repeats its answer. *)
Lemma rotate_repeats d new auth fam : get_family_on d new = Some fam -> fm_rotation_pk fam = Some (au_public_key auth) ->
  verify_rotation_signature (au_public_key auth) (rotation_signed_bytes new new) (au_signature auth) = true ->
  rotate_family_token d new new auth = (d, Ok (AlreadyRotated fam)).
Proof.
  intros Hg Hpk Hv. pose proof (get_family_some _ _ _ Hg) as [_ Ht]. unfold rotate_family_token, rotation_row. rewrite Hg, bool_decide_eq_true_2 by done.
  unfold check_rotation_authority. rewrite Hpk, Hv, bool_decide_eq_true_2 by done. cbn [negb]. unfold finish_rotation. by rewrite Ht, Hg.
Qed.

(** The rotation ceremony completes, and can be repeated.  A member whose phone signs with the key
    the family rotates by - or with the first key it ever uses - and picks an unused token of the form the
    relay allows gets it: the request the phone encodes is accepted, the answer passes the phone's own
    checks (the token it asked for, and the deposit token it derives itself), and the old token no longer
    opens anything.  Should the answer be lost, the same request made under the new token changes nothing
    and returns the same pair. *)
Theorem rotation_ceremony st d cur new sk body body2 lim auth_now row :
  fresh_token st new -> blen cur < 65536 -> cur <> new -> cur ∉ as_auth_tokens st -> static_deposit_tokens st !! cur = None ->
  get_family_on d cur = Some row -> check_billing row RotateOp auth_now = Ok tt -> lm_request lim = Ok tt ->
  (fm_rotation_pk row = None \/ fm_rotation_pk row = Some (ed25519_public sk)) ->
  NoDup (credentials d) -> new ∉ credentials d -> deposit_token_for new ∉ credentials d -> unused new d ->
  relay_encode_rotate_request ed25519_sign ed25519_public cur new sk = Ok body ->
  relay_encode_rotate_request ed25519_sign ed25519_public new new sk = Ok body2 ->
  exists w w2 d' answer, rotate_to_json w = Ok body /\ rotate_to_json w2 = Ok body2
    /\ rotate_family st d (bearer cur) lim (rotate_body w) auth_now = (d', Ok answer)
    /\ (forall reply, rotate_of_json reply = Ok answer -> blen reply <= RELAY_MAX_RESPONSE_BODY_BYTES ->
          relay_decode_rotate_response reply new = Ok (mk_rotation new (relay_deposit_token_for new) (count_for_family d cur) true))
    /\ (forall op now, exists message, authorize_bearer st d' (bearer cur) op now = Err (Unauthorized message))
    /\ rotate_family st d' (bearer new) lim (rotate_body w2) auth_now
       = (d', Ok (mk_rotate_response new (relay_deposit_token_for new) 0 false)).
Proof.
  intros Hfr Hlc Hne Hs Hsd Hrow Hbill Hlim Hpk Hnd Hn Hdn Hun He1 He2.
  destruct (rotate_request_checked st cur new sk body Hfr Hlc He1) as (w & auth & Hw & Hck & Hap & Hv).
  assert (blen new < 65536) as Hln by (destruct Hfr as [_ Hl _ _ _ _ _ _]; unfold MAX_FAMILY_TOKEN_LEN in Hl; lia).
  destruct (rotate_request_checked st new new sk body2 Hfr Hln He2) as (w2 & auth2 & Hw2 & Hck2 & Hap2 & Hv2). rewrite <- Hap in Hpk.
  destruct (rotate_succeeds d cur new auth row Hrow Hne Hv Hpk Hnd Hn Hdn Hun) as (d' & Hrot & Hfam & Hold). set (fam := with_token _ _) in *.
  destruct (authorize_member st d cur row RotateOp auth_now Hs Hsd Hrow Hbill) as (a & Hau & Hat).
  destruct (authorize_member st d' new fam RotateOp auth_now (ft_static _ _ Hfr) (ft_static_deposit _ _ Hfr) Hfam) as (a2 & Hau2 & Hat2);
    [exact Hbill|].
  exists w, w2, d', (mk_rotate_response new (relay_deposit_token_for new) (count_for_family d cur) true). split_and!; [done|done| | | |].
  - unfold rotate_family. rewrite Hau, Hlim. cbn [mbind result_bind]. rewrite Hck. cbn [mbind result_bind]. by rewrite Hat, Hrot.
  - intros reply Hr Hb. unfold relay_decode_rotate_response, validate_response_body. rewrite (proj2 (Z.leb_le _ _) Hb), Hr.
    cbn [mbind result_bind ensure relay_json rr_family_token rr_deposit_token rr_envelopes_moved rr_rotated]. by rewrite !bool_decide_eq_true_2.
  - intros op now. unfold authorize_bearer. rewrite bearer_token. cbn [mbind result_bind]. unfold authorize_family.
    rewrite decide_False, Hsd, Hold by done. by eexists.
  - unfold rotate_family. rewrite Hau2, Hlim. cbn [mbind result_bind]. rewrite Hck2. cbn [mbind result_bind]. rewrite Hat2.
    rewrite (rotate_repeats d' new auth2 fam Hfam); [done| |done]. rewrite Hap2, <- Hap. done.
Qed.
End ceremony.

(** * A letter and a rotation *)

Section examples.
Local Existing Instances toy_crypto real_b64.

Definition toy_answer : GetEnvelopesResponse :=
  mk_get_response [envelope_response (stored_envelope toy_row)] 1.

Definition toy_query : GetEnvelopesQuery := mk_get_query (b64_encode toy_hint) None (Some 1).

#[local] Instance row_wf_dec r : Decision (row_wf r).
Proof. unfold row_wf. apply _. Defined.

Lemma toy_mail_wf : mail_wf toy_mailbox.
Proof.
  split; [exact toy_ids|]. apply (bool_decide_eq_true_1 (Forall row_wf (rd_envelopes toy_mailbox))). vm_compute. reflexivity.
Qed.

Lemma served_page_accepted_witness :
  exists page, relay_decode_fetch_page (J := one_page_json (page_wire toy_answer)) [] = Ok page /\ fp_next_cursor page = 1.
Proof.
  destruct (proj2 (served_page_accepted (J := one_page_json (page_wire toy_answer)) toy_app toy_mailbox toy_family toy_limiter toy_query 1 40 50
    toy_answer [] toy_mail_wf)) as (f & hints & Hc & Hh & H); [vm_compute; reflexivity|reflexivity|vm_compute; discriminate|reflexivity|vm_compute; discriminate|].
  eexists. split; [exact H|reflexivity].
Defined.

Lemma mail_crosses_relay_witness :
  exists request d' id stored,
    post_envelope toy_app toy_mailbox (bearer toy_friend_token) toy_limiter request 40 50 = (d', Ok (id, stored)) /\ 2 < id.
Proof.
  destruct (mail_crosses_relay (J := one_page_json (page_wire toy_answer)) toy_app toy_mailbox toy_friend_token toy_limiter (replicate 16 x05) 3 toy_hint
    [x0d] 800 [] 40 50 (mk_access toy_family Deposit (family_rate_key Deposit (mint_family_id [x07])) (mint_family_id [x07]) 1000 (Some toy_friend_token))
    toy_mail_wf) as (request & d' & id & stored & _ & H & Hid & _).
  - lia.
  - vm_compute. reflexivity.
  - vm_compute. reflexivity.
  - reflexivity.
  - reflexivity.
  - vm_compute. reflexivity.
  - vm_compute. reflexivity.
  - exists request, d', id, stored. split; [exact H|exact Hid].
Defined.

Definition toy_sign (sk m : bytes) : bytes := replicate 64 (default x00 (head sk)).
Definition toy_public (sk : bytes) : bytes := sk.
Definition toy_root : bytes := replicate 32 x09.

Lemma toy_signs sk m : blen sk = 32 ->
  blen (toy_public sk) = 32 /\ blen (toy_sign sk m) = 64 /\ ed25519_key_ok (toy_public sk) = true /\ ed25519_verify (toy_public sk) m (toy_sign sk m) = true.
Proof. intros H. split_and!; try done. destruct sk; [discriminate|]. by apply bool_decide_eq_true_2. Qed.

Lemma toy_fresh : fresh_token toy_app toy_new_token.
Proof.
  split; [vm_compute; reflexivity|vm_compute; split; discriminate|vm_compute; reflexivity..|discriminate| |vm_compute; reflexivity].
  apply (bool_decide_eq_false_1 (toy_new_token ∈ as_auth_tokens toy_app)). vm_compute. reflexivity.
Qed.

Lemma toy_unused : unused toy_new_token toy_mailbox.
Proof.
  split; [|intros h; vm_compute; reflexivity]. apply Forall_forall.
  apply (bool_decide_eq_true_1 (Forall (fun r => ml_family_token r <> toy_new_token) (rd_envelopes toy_mailbox))). vm_compute. reflexivity.
Qed.

Lemma rotation_ceremony_witness :
  exists w d' answer, rotate_family toy_app toy_mailbox (bearer toy_family) toy_limiter (rotate_body w) 40 = (d', Ok answer)
    /\ forall op now, exists message, authorize_bearer toy_app d' (bearer toy_family) op now = Err (Unauthorized message).
Proof.
  destruct (get_family_on toy_mailbox toy_family) as [row|] eqn:Hrow; [|vm_compute in Hrow; discriminate].
  destruct (rotation_ceremony (J := one_page_json (page_wire toy_answer)) toy_sign toy_public toy_signs toy_app toy_mailbox toy_family toy_new_token toy_root
    [] [] toy_limiter 40 row toy_fresh) as (w & w2 & d' & answer & _ & _ & H1 & _ & H2 & _).
  - vm_compute. reflexivity.
  - vm_compute. discriminate.
  - apply (bool_decide_eq_false_1 (toy_family ∈ as_auth_tokens toy_app)). vm_compute. reflexivity.
  - vm_compute. reflexivity.
  - exact Hrow.
  - vm_compute in Hrow. apply (f_equal (fun o => match o with Some f => check_billing f RotateOp 40 | None => Ok tt end)) in Hrow. symmetry. exact Hrow.
  - reflexivity.
  - left. apply (f_equal (fun o => o ≫= fm_rotation_pk)) in Hrow. cbn in Hrow. rewrite <- Hrow. vm_compute. reflexivity.
  - apply (bool_decide_eq_true_1 (NoDup (credentials toy_mailbox))). vm_compute. reflexivity.
  - apply (bool_decide_eq_false_1 (toy_new_token ∈ credentials toy_mailbox)). vm_compute. reflexivity.
  - apply (bool_decide_eq_false_1 (deposit_token_for toy_new_token ∈ credentials toy_mailbox)). vm_compute. reflexivity.
  - exact toy_unused.
  - vm_compute. reflexivity.
  - vm_compute. reflexivity.
  - exists w, d', answer. split; [exact H1|exact H2].
Defined.
End examples.
