(* ===== verification/LinkQr.v ===== *)
(** The offer a new device shows ([core/src/device_link/qr.rs]): the [CMLINK1:] text with
    an ephemeral key, an expiry and the hints where to knock, its codec, and the mailboxes
    derived from it; with [core_parse_lan_endpoint] of [lan_util.rs], which its hints must
    pass. *)
From stdpp Require Import base numbers list strings pretty.
From S2P Require Import Prelude StdModel Wire Crypto RelayPolicy RelayWire FriendCards.

(** * LAN endpoints ([lan_util.rs]) *)

Definition LAN_DEFAULT_TCP_PORT : Z := 45892.

Record CoreLanEndpoint : Type := mk_lan_endpoint { le_host : bytes; le_port : Z }.

Definition count_byte (c : byte) (s : bytes) : nat := length (List.filter (fun b => bool_decide (b = c)) s).

Definition core_format_lan_endpoint (endpoint : CoreLanEndpoint) : bytes :=
  if bool_decide (x3a ∈ le_host endpoint) then str "[" ++ le_host endpoint ++ str "]:" ++ str (pretty (le_port endpoint))
  else le_host endpoint ++ str ":" ++ str (pretty (le_port endpoint)).

(** [value.parse::<u16>()] *)
Definition parse_u16 (s : bytes) : option Z := v ← parse_u64 s; if v <=? U16_MAX then Some v else None.

(** The host, and the text of the port where one is written. *)
Definition split_endpoint (value : bytes) : option (bytes * option bytes) :=
  match strip_prefix (str "[") value with
  | Some after_open =>
      '(host, suffix) ← split_once x5d after_open;
      if decide (host = []) then None
      else match suffix with
           | [] => Some (host, None)
           | _ => port ← strip_prefix (str ":") suffix; if decide (port = []) then None else Some (host, Some port)
           end
  | None =>
      if (count_byte x3a value =? 1)%nat then '(host, port) ← split_once x3a value; Some (host, Some port)
      else Some (value, None)
  end.

Definition core_parse_lan_endpoint (text : bytes) (default_port : Z) : option CoreLanEndpoint :=
  let value := trim text in
  if decide (value = []) then None
  else
    '(host, port_text) ← split_endpoint value;
    if bool_decide (host = []) || any_whitespace host then None
    else
      port ← match port_text with
             | Some value => port ← parse_u16 value; if 0 <? port then Some port else None
             | None => if 0 <? default_port then Some default_port else None
             end;
      Some (mk_lan_endpoint host port).

(** * The offer *)

Definition DEVICE_LINK_URL_BASE : bytes := str "https://cruisemesh.app/link#".
Definition LINK_QR_VERSION : Z := 1.
Definition LINK_PK_LEN : Z := 32.
Definition LINK_QR_MAX_BYTES : Z := 512.
Definition LINK_QR_MAX_HINTS : Z := 8.
Definition LINK_QR_MAX_HINT_BYTES : Z := 128.
Definition LINK_QR_DEFAULT_LIFETIME_MS : Z := 5 * 60 * 1000.
Definition HINT_TAG_LAN : Z := 1.
Definition HINT_TAG_RELAY : Z := 2.
Definition LINK_RENDEZVOUS_ID_LEN : Z := 16.
Definition LINK_RENDEZVOUS_DOMAIN : bytes := str "CruiseMesh device link rendezvous v1" ++ [x00].
Definition LINK_RENDEZVOUS_LANE_DOMAIN : bytes := str "CruiseMesh device link lane v1" ++ [x00].

Record LinkRendezvous : Type := mk_rendezvous {
  lr_link_pk : bytes;
  lr_expires_at_ms : Z;
  lr_lan_endpoints : list bytes;
  lr_relay_base_urls : list bytes;
}.

Inductive CoreLinkLane : Type := ToApprovingDevice | ToNewDevice.

(** The private cursor reports one error. *)
#[local] Instance qr_reader : Reader CoreError :=
  {| truncated := Malformed "device-link offer is truncated"; trailing := Malformed "device-link offer is truncated" |}.

Definition push_hint (tag : Z) (value : bytes) : result CoreError bytes :=
  _ ← ensure (negb (bool_decide (value = []) || (LINK_QR_MAX_HINT_BYTES <? blen value))) (Malformed "device-link hint has an unusable length");
  Ok (push_u8 tag ++ push_u8 (blen value) ++ value).

Definition encode_lan_hint (endpoint : bytes) : result CoreError bytes :=
  let endpoint := trim endpoint in
  match core_parse_lan_endpoint endpoint LAN_DEFAULT_TCP_PORT with
  | None => Err (Malformed "device-link LAN hint is not an endpoint")
  | Some _ => push_hint HINT_TAG_LAN endpoint
  end.

Definition encode_relay_hint (url : bytes) : result CoreError bytes :=
  let normalized := normalize_relay_url url in
  if decide (normalized = []) then Err (Malformed "device-link relay hint is not a usable https URL") else push_hint HINT_TAG_RELAY normalized.

Definition encode_link_payload (r : LinkRendezvous) : result CoreError bytes :=
  _ ← ensure (blen (lr_link_pk r) =? LINK_PK_LEN) (InvalidKeyLength LINK_PK_LEN (blen (lr_link_pk r)));
  _ ← ensure (0 <? lr_expires_at_ms r) (Malformed "device-link offer has no expiry");
  let hints := blen (lr_lan_endpoints r) + blen (lr_relay_base_urls r) in
  _ ← ensure (hints <=? LINK_QR_MAX_HINTS) (Malformed "device-link offer carries too many hints");
  lan ← mapM encode_lan_hint (lr_lan_endpoints r);
  relay ← mapM encode_relay_hint (lr_relay_base_urls r);
  let out := push_u8 LINK_QR_VERSION ++ lr_link_pk r ++ be_bytes 8 (as_u64 (lr_expires_at_ms r)) ++ push_u8 hints ++ concat lan ++ concat relay in
  _ ← ensure (blen out <=? LINK_QR_MAX_BYTES) (Malformed "device-link offer is too large for a QR");
  Ok out.

(** One hint: a LAN endpoint, a relay URL, or one that is skipped. *)
Definition read_hint : reader CoreError (list bytes * list bytes) :=
  tag ← Cursor.take_u8;
  len ← Cursor.take_u8;
  value ← Cursor.take len;
  mret (if tag =? HINT_TAG_LAN then
          (if utf8_valid value && bool_decide (is_Some (core_parse_lan_endpoint value LAN_DEFAULT_TCP_PORT)) then [value] else [], [])
        else if tag =? HINT_TAG_RELAY then
          let normalized := normalize_relay_url value in
          ([], if utf8_valid value && negb (bool_decide (normalized = [])) then [normalized] else [])
        else ([], [])).

Definition read_offer : reader CoreError LinkRendezvous :=
  version ← Cursor.take_u8;
  _ ← guard_ (version <=? LINK_QR_VERSION) UnsupportedLink;
  _ ← guard_ (LINK_QR_VERSION <=? version) (Malformed "device-link offer has an unknown version");
  link_pk ← Cursor.take LINK_PK_LEN;
  expires_at_ms ← Cursor.take_i64;
  _ ← guard_ (0 <? expires_at_ms) (Malformed "device-link offer has no expiry");
  hint_count ← Cursor.take_u8;
  _ ← guard_ (hint_count <=? LINK_QR_MAX_HINTS) (Malformed "device-link offer carries too many hints");
  hints ← Cursor.take_many (Z.to_nat hint_count) read_hint;
  mret (mk_rendezvous link_pk expires_at_ms (hints ≫= fst) (hints ≫= snd)).

Definition decode_link_payload (bs : bytes) : result CoreError LinkRendezvous :=
  _ ← ensure (blen bs <=? LINK_QR_MAX_BYTES) (Malformed "device-link offer is too large");
  Cursor.run read_offer bs.

Section offers.
Context `{C : Crypto} `{B : Base64}.

Definition core_build_link_qr (r : LinkRendezvous) : result CoreError bytes :=
  payload ← encode_link_payload r; Ok (DEVICE_LINK_PREFIX ++ b64_encode payload).

Definition core_parse_link_qr (text : bytes) : result CoreError LinkRendezvous :=
  let trimmed := trim text in
  _ ← ensure (blen trimmed <=? LINK_QR_MAX_BYTES * 4) (Malformed "link code is too large");
  match extract_link_body trimmed DEVICE_LINK_PREFIX with
  | None => Err (Malformed "not a CruiseMesh device-link code")
  | Some encoded =>
      match b64_decode_opt (without_whitespace encoded) with
      | None => Err (Malformed "invalid device-link base64url")
      | Some payload => decode_link_payload payload
      end
  end.

Definition core_link_qr_url (qr_text : bytes) : bytes :=
  let trimmed := trim qr_text in
  if starts_with DEVICE_LINK_PREFIX trimmed then DEVICE_LINK_URL_BASE ++ trimmed else [].

Definition core_link_rendezvous_id (link_pk : bytes) : result CoreError bytes :=
  _ ← ensure (blen link_pk =? LINK_PK_LEN) (InvalidKeyLength LINK_PK_LEN (blen link_pk));
  Ok (blake2b (Z.to_nat LINK_RENDEZVOUS_ID_LEN) (LINK_RENDEZVOUS_DOMAIN ++ link_pk)).

Definition core_link_rendezvous_lane (rendezvous_id : bytes) (lane : CoreLinkLane) : result CoreError bytes :=
  _ ← ensure (blen rendezvous_id =? LINK_RENDEZVOUS_ID_LEN) (Malformed "device-link rendezvous id must be 16 bytes");
  let lane_byte := match lane with ToApprovingDevice => 1 | ToNewDevice => 2 end in
  Ok (blake2b (Z.to_nat LINK_RENDEZVOUS_ID_LEN) (LINK_RENDEZVOUS_LANE_DOMAIN ++ push_u8 lane_byte ++ rendezvous_id)).
End offers.

(** * An offer reads back *)

(** An offer as a shell makes one: every hint a text already in the form the code keeps. *)
Definition tidy_offer (r : LinkRendezvous) : Prop :=
  in_i64 (lr_expires_at_ms r)
  /\ Forall (fun e => utf8_valid e = true /\ trim e = e) (lr_lan_endpoints r)
  /\ Forall (fun u => utf8_valid u = true /\ normalize_relay_url u = u) (lr_relay_base_urls r).

(** Every hint of an offer can be dialled. *)
Definition usable_offer (r : LinkRendezvous) : Prop :=
  blen (lr_link_pk r) = LINK_PK_LEN /\ 0 < lr_expires_at_ms r
  /\ Forall (fun e => is_Some (core_parse_lan_endpoint e LAN_DEFAULT_TCP_PORT)) (lr_lan_endpoints r)
  /\ Forall secure_url (lr_relay_base_urls r).

Lemma push_hint_ok tag v out : push_hint tag v = Ok out ->
  out = push_u8 tag ++ push_u8 (blen v) ++ v /\ v <> [] /\ blen v <= LINK_QR_MAX_HINT_BYTES.
Proof. unfold push_hint. intros (_ & H%ensure_ok & [= <-])%result_bind_ok. bools. split_and!; [done|done|lia]. Qed.

Lemma parses_as {A} (p : reader CoreError A) s a b r : parses p s a r -> a = b -> parses p s b r.
Proof. by intros H <-. Qed.

Lemma Forall2_refine {A B} (P : A -> Prop) (R S : A -> B -> Prop) l k :
  Forall P l -> Forall2 R l k -> (forall x y, P x -> R x y -> S x y) -> Forall2 S l k.
Proof. intros HP HR Hi. induction HR; inversion HP; subst; constructor; eauto. Qed.

Lemma parses_hint_frame {A} tag v (f : Z -> bytes -> A) r : in_u8 tag -> blen v <= LINK_QR_MAX_HINT_BYTES ->
  parses (tag ← Cursor.take_u8; len ← Cursor.take_u8; value ← Cursor.take len; mret (f tag value))
    ((push_u8 tag ++ push_u8 (blen v) ++ v) ++ r) (f tag v) r.
Proof.
  intros Ht Hv. pose proof (blen_nonneg v). unfold LINK_QR_MAX_HINT_BYTES in Hv. rewrite <-!app_assoc.
  eapply parses_bind; [by apply parses_u8|]. eapply parses_bind; [apply parses_u8; ints|].
  eapply parses_bind; [by apply parses_take|]. apply parses_ret.
Qed.

Lemma parses_lan_hint e out r : utf8_valid e = true -> trim e = e -> encode_lan_hint e = Ok out ->
  parses read_hint (out ++ r) ([e], []) r.
Proof.
  intros Hu Ht. unfold encode_lan_hint. rewrite Ht.
  destruct (core_parse_lan_endpoint e LAN_DEFAULT_TCP_PORT) as [x|] eqn:E; [|done]. intros (-> & _ & Hl)%push_hint_ok.
  eapply parses_as; [apply (parses_hint_frame HINT_TAG_LAN e); [unfold HINT_TAG_LAN; ints|done]|].
  cbn beta. change (HINT_TAG_LAN =? HINT_TAG_LAN) with true. cbv iota. rewrite Hu, E, bool_decide_eq_true_2 by done. done.
Qed.

Lemma parses_relay_hint u out r : utf8_valid u = true -> normalize_relay_url u = u -> encode_relay_hint u = Ok out ->
  parses read_hint (out ++ r) ([], [u]) r.
Proof.
  intros Hu Hn. unfold encode_relay_hint. rewrite Hn. case_decide as Hd; [done|]. intros (-> & _ & Hl)%push_hint_ok.
  eapply parses_as; [apply (parses_hint_frame HINT_TAG_RELAY u); [unfold HINT_TAG_RELAY; ints|done]|].
  cbn beta. change (HINT_TAG_RELAY =? HINT_TAG_LAN) with false. change (HINT_TAG_RELAY =? HINT_TAG_RELAY) with true. cbv iota zeta.
  rewrite Hu, Hn, bool_decide_eq_false_2 by done. done.
Qed.

Lemma singles_fst {A B} (xs : list A) (ys : list B) :
  (((fun x => ([x], [])) <$> xs) ++ ((fun y => ([], [y])) <$> ys)) ≫= fst = xs.
Proof. induction xs as [|x xs IH]; cbn; [by induction ys|by f_equal]. Qed.

Lemma singles_snd {A B} (xs : list A) (ys : list B) :
  (((fun x => ([x], [])) <$> xs) ++ ((fun y => ([], [y])) <$> ys)) ≫= snd = ys.
Proof. induction xs as [|x xs IH]; cbn; [induction ys; cbn; [done|by f_equal]|done]. Qed.

Lemma encode_link_ok r out : encode_link_payload r = Ok out ->
  exists lan relay, out = push_u8 LINK_QR_VERSION ++ lr_link_pk r ++ be_bytes 8 (as_u64 (lr_expires_at_ms r))
                          ++ push_u8 (blen (lr_lan_endpoints r) + blen (lr_relay_base_urls r)) ++ concat lan ++ concat relay
    /\ blen (lr_link_pk r) = LINK_PK_LEN /\ 0 < lr_expires_at_ms r
    /\ blen (lr_lan_endpoints r) + blen (lr_relay_base_urls r) <= LINK_QR_MAX_HINTS
    /\ mapM encode_lan_hint (lr_lan_endpoints r) = Ok lan /\ mapM encode_relay_hint (lr_relay_base_urls r) = Ok relay
    /\ blen out <= LINK_QR_MAX_BYTES.
Proof.
  unfold encode_link_payload.
  intros (_ & H1%ensure_ok & (_ & H2%ensure_ok & (_ & H3%ensure_ok & (lan & H4 & (relay & H5 & (_ & H6%ensure_ok & [= <-])%result_bind_ok)%result_bind_ok)%result_bind_ok)%result_bind_ok)%result_bind_ok)%result_bind_ok.
  bools. exists lan, relay. done.
Qed.

Lemma hints_parse r lan relay extra : tidy_offer r ->
  mapM encode_lan_hint (lr_lan_endpoints r) = Ok lan -> mapM encode_relay_hint (lr_relay_base_urls r) = Ok relay ->
  parses (Cursor.take_many (Z.to_nat (blen (lr_lan_endpoints r) + blen (lr_relay_base_urls r))) read_hint)
    (concat lan ++ concat relay ++ extra)
    (((fun e => ([e], [])) <$> lr_lan_endpoints r) ++ ((fun u => ([], [u])) <$> lr_relay_base_urls r)) extra.
Proof.
  intros (_ & Hlan & Hrelay) Hl%result_mapM_ok Hr%result_mapM_ok. rewrite app_assoc, <-concat_app.
  eapply (eq_rect _ (fun n => parses (Cursor.take_many n read_hint) _ _ _)); [apply parses_many2|
    rewrite length_app, !length_fmap; unfold blen; lia].
  apply Forall2_app; apply Forall2_fmap_l.
  - eapply Forall2_refine; [exact Hlan|exact Hl|]. intros e o [Hu Ht] He rest. by apply parses_lan_hint.
  - eapply Forall2_refine; [exact Hrelay|exact Hr|]. intros u o [Hu Ht] He rest. by apply parses_relay_hint.
Qed.

(** Bytes after the declared hints belong to a later version and change nothing. *)
Lemma link_payload_round_trip r out extra : tidy_offer r -> encode_link_payload r = Ok out ->
  blen (out ++ extra) <= LINK_QR_MAX_BYTES -> decode_link_payload (out ++ extra) = Ok r.
Proof.
  intros Ht (lan & relay & -> & Hk & He & Hn & Hl & Hr & _)%encode_link_ok Hb.
  unfold decode_link_payload. rewrite (proj2 (Z.leb_le _ _)) by done. cbn [ensure mbind result_bind].
  eapply parses_run. pose proof Ht as (Hi & _ & _).
  pose proof (blen_nonneg (lr_lan_endpoints r)). pose proof (blen_nonneg (lr_relay_base_urls r)).
  unfold LINK_QR_MAX_HINTS in Hn. rewrite <-!app_assoc.
  eapply parses_bind; [apply parses_u8; unfold LINK_QR_VERSION; ints|].
  eapply parses_bind; [by apply parses_guard|]. eapply parses_bind; [by apply parses_guard|].
  eapply parses_bind; [by apply parses_take|].
  replace (as_u64 (lr_expires_at_ms r)) with (lr_expires_at_ms r) by (symmetry; apply Z.mod_small; unfold_ints; lia).
  eapply parses_bind; [by apply parses_i64|]. eapply parses_bind; [apply parses_guard; lia|].
  eapply parses_bind; [apply parses_u8; ints|]. eapply parses_bind; [apply parses_guard; unfold LINK_QR_MAX_HINTS; lia|].
  eapply parses_bind; [by apply hints_parse|].
  eapply parses_as; [apply parses_ret|]. rewrite singles_fst, singles_snd. by destruct r.
Qed.

Lemma read_hint_usable c h c' : read_hint c = Ok (h, c') ->
  Forall (fun e => is_Some (core_parse_lan_endpoint e LAN_DEFAULT_TCP_PORT)) h.1 /\ Forall secure_url h.2.
Proof.
  unfold read_hint. intros (tag & c1 & _ & (len & c2 & _ & (v & c3 & _ & H)%bind_inv)%bind_inv)%bind_inv.
  injection H as <- <-. case_match; [|case_match]; cbn [fst snd]; [case_match eqn:E|case_match eqn:E|]; bools;
    split; first [apply Forall_nil_2|apply Forall_singleton; first [done|by apply normalize_secure]].
Qed.

Lemma take_many_all {A} (P : A -> Prop) (p : reader CoreError A) n c xs c' :
  (forall c x c', p c = Ok (x, c') -> P x) -> Cursor.take_many n p c = Ok (xs, c') -> Forall P xs /\ length xs = n.
Proof.
  intros Hp. revert c xs c'. induction n as [|n IH]; intros c xs c'; cbn [Cursor.take_many]; [by intros [= <- _]|].
  intros (x & c1 & E1 & (ys & c2 & E2 & E3)%bind_inv)%bind_inv. injection E3 as <- _.
  apply IH in E2 as [HF HL]. split; [constructor; [by eapply Hp|done]|cbn; by f_equal].
Qed.

Lemma bind_all {A B} (P : B -> Prop) (xs : list A) (f : A -> list B) : Forall (fun x => Forall P (f x)) xs -> Forall P (xs ≫= f).
Proof. induction 1; cbn; [constructor|by apply Forall_app]. Qed.

Lemma decoded_offer_usable bs r : decode_link_payload bs = Ok r -> usable_offer r.
Proof.
  unfold decode_link_payload. intros (_ & _ & (c' & H)%run_inv)%result_bind_ok.
  pose proof (cursor_at_new bs) as Hc. unfold read_offer in H. unfold LINK_PK_LEN in H. read_inv.
  match goal with H : Cursor.take_many _ _ _ = _ |- _ =>
    apply (take_many_all (fun h => Forall (fun e => is_Some (core_parse_lan_endpoint e LAN_DEFAULT_TCP_PORT)) h.1 /\ Forall secure_url h.2))
      in H as [HF _]; [|intros ???; apply read_hint_usable] end.
  split_and!; cbn [lr_link_pk lr_expires_at_ms lr_lan_endpoints lr_relay_base_urls]; [done|lia|..];
    apply bind_all; eapply Forall_impl; [exact HF|by intros ? []|exact HF|by intros ? []].
Qed.

Section links.
Context {C : Crypto} {B : Base64} {BL : Base64Laws B}.

Lemma take_while_all f (s : bytes) : Forall (fun b => f b = true) s -> take_while f s = s.
Proof. induction 1 as [|b s Hb _ IH]; cbn; [done|]. rewrite Hb. by f_equal. Qed.

Lemma b64_link_chars bs : Forall (fun b => link_char b = true) (b64_encode bs).
Proof.
  eapply Forall_impl; [apply b64_alphabet|]. intros b. unfold b64_char, link_char. cbv beta.
  intros H. rewrite <-orb_assoc, (orb_comm (bool_decide (b = x5f))), orb_assoc. exact H.
Qed.

Lemma link_text_size (q bs : bytes) : blen (link_text q bs) = blen q + 1 + (blen bs * 4 + 2) / 3.
Proof. unfold link_text. rewrite blen_app, blen_cons, b64_length. lia. Qed.

Lemma link_size_bound (bs : bytes) n : blen bs <= LINK_QR_MAX_BYTES -> n <= 100 -> n + 1 + (blen bs * 4 + 2) / 3 <= LINK_QR_MAX_BYTES * 4.
Proof. unfold LINK_QR_MAX_BYTES. intros. assert ((blen bs * 4 + 2) / 3 <= 684) by (Z.to_euclidean_division_equations; lia). lia. Qed.

(** The code a new device shows is the offer the scanner reads, bare or inside the tappable link; and
    a person who scans it as a friend card is told it is a device-link code, never given a card. *)
Theorem link_qr_round_trip r text : tidy_offer r -> core_build_link_qr r = Ok text ->
  core_parse_link_qr text = Ok r /\ core_parse_link_qr (core_link_qr_url text) = Ok r
  /\ usable_offer r /\ unsupported_link_error text = Some DeviceLinkOffer.
Proof.
  unfold core_build_link_qr. intros Ht (bs & He & Htext)%result_bind_ok.
  pose proof (encode_link_ok _ _ He) as (_ & _ & _ & _ & _ & _ & _ & _ & Hb).
  pose proof (link_payload_round_trip r bs [] Ht He ltac:(by rewrite app_nil_r)) as Hd. rewrite app_nil_r in Hd.
  assert (text = link_text (str "CMLINK1") bs) as -> by (by injection Htext as <-).
  assert (core_parse_link_qr (link_text (str "CMLINK1") bs) = Ok r) as Hp.
  { unfold core_parse_link_qr. rewrite trim_link by (repeat constructor; vm_compute; discriminate).
    rewrite (proj2 (Z.leb_le _ _)) by (rewrite link_text_size; by apply link_size_bound). cbn [ensure mbind result_bind].
    change (link_text (str "CMLINK1") bs) with (DEVICE_LINK_PREFIX ++ b64_encode bs). unfold extract_link_body.
    rewrite strip_prefix_app, without_whitespace_plain, b64_round_trip by apply b64_plain. exact Hd. }
  refine (conj Hp (conj _ (conj (decoded_offer_usable _ _ Hd) _))).
  - unfold core_link_qr_url. rewrite trim_link by (repeat constructor; vm_compute; discriminate).
    change (link_text (str "CMLINK1") bs) with (DEVICE_LINK_PREFIX ++ b64_encode bs). rewrite starts_with_app.
    change (DEVICE_LINK_URL_BASE ++ DEVICE_LINK_PREFIX ++ b64_encode bs) with (link_text (DEVICE_LINK_URL_BASE ++ str "CMLINK1") bs).
    unfold core_parse_link_qr. rewrite trim_link by (repeat constructor; vm_compute; discriminate).
    rewrite (proj2 (Z.leb_le _ _)) by (rewrite link_text_size; by apply link_size_bound). cbn [ensure mbind result_bind].
    change (extract_link_body (link_text (DEVICE_LINK_URL_BASE ++ str "CMLINK1") bs) DEVICE_LINK_PREFIX)
      with (Some (take_while link_char (b64_encode bs))).
    rewrite take_while_all, without_whitespace_plain, b64_round_trip by first [apply b64_plain|apply b64_link_chars]. exact Hd.
  - unfold unsupported_link_error.
    rewrite !versions_free by first [by vm_compute|apply (bool_decide_unpack _); by vm_compute].
    change (link_text (str "CMLINK1") bs) with (DEVICE_LINK_PREFIX ++ b64_encode bs).
    reflexivity.
Qed.
End links.

Definition sample_offer : LinkRendezvous :=
  mk_rendezvous (repeat x9a 32) 1755000000000 [str "192.168.1.24:45892"] [str "https://relay.example"].

Lemma link_qr_round_trip_witness :
  tidy_offer sample_offer
  /\ exists text, core_build_link_qr (B := real_b64) sample_offer = Ok text
     /\ core_parse_link_qr (B := real_b64) (core_link_qr_url text) = Ok sample_offer.
Proof.
  assert (tidy_offer sample_offer) as Ht by (split; [split; vm_compute; discriminate|split; repeat constructor; vm_compute; reflexivity]).
  split; [exact Ht|]. eexists. assert (core_build_link_qr (B := real_b64) sample_offer = Ok _) as E by (vm_compute; reflexivity).
  split; [exact E|]. exact (proj1 (proj2 (link_qr_round_trip (BL := real_b64_laws) _ _ Ht E))).
Defined.
