(* ===== verification/LinkCeremony.v ===== *)
(** The device-link ceremony ([core/src/device_link/ceremony.rs]): the two state machines
    that take a scanned offer to a confirmed Noise channel.

    A call returns the next state and the action for the shell, as in [MediaPull.v].  Noise
    is the third-party crate [snow]: the class [Noise] names the calls the code makes;
    nothing is assumed here of what they do, or of what a peer can send.  [LinkVerdicts.v]
    proves what holds of every sequence of calls; [LinkExchange.v] states what the crate
    promises of an honest exchange and proves that two honest devices finish. *)
From stdpp Require Import base numbers list strings pretty.
From coqutil Require Import Datatypes.RecordSetters.
From S2P Require Import Prelude StdModel Wire Crypto Roster RelayPolicy RelayWire FriendCards LinkQr.
Import TriangleBracketNotations.

(** * Noise *)

Class Noise : Type := {
  hs : Type;
  tr : Type;
  noise_public : bytes -> bytes;
  (** Initiator?, prologue, static key, and the randomness the state will draw. *)
  build : bool -> bytes -> bytes -> bytes -> option hs;
  hs_write : hs -> option bytes * hs;
  hs_read : hs -> bytes -> bool * hs;
  hs_finished : hs -> bool;
  hs_hash : hs -> bytes;
  hs_remote : hs -> option bytes;
  into_transport : hs -> option tr;
  tr_write : tr -> bytes -> option bytes * tr;
  tr_read : tr -> bytes -> option bytes * tr;
}.

Definition LINK_NOISE_PROLOGUE_DOMAIN : bytes := str "CruiseMesh device link ceremony v1" ++ [x00].
Definition LINK_SAS_DOMAIN : bytes := str "CruiseMesh device link SAS v1" ++ [x00].
Definition NOISE_TAG_SIZE : Z := 16.
Definition LINK_MAX_CEREMONY_MESSAGE_BYTES : Z := 4 * 1024.
Definition LINK_CHANNEL_MAX_PLAINTEXT_BYTES : Z := 60 * 1024.
Definition CTRL_CONFIRM : Z := 1.
Definition CTRL_DECLINE : Z := 2.
Definition CHANNEL_BINDING_LEN : Z := 32.

Record LinkBudgets : Type := mk_link_budgets {
  deadline_ms : Z;
  poll_interval_ms : Z;
  qr_lifetime_ms : Z;
}.

Definition core_link_default_budgets : LinkBudgets := mk_link_budgets 180000 1000 LINK_QR_DEFAULT_LIFETIME_MS.

Inductive CoreLinkRole : Type := NewDevice | ApprovingDevice.
Inductive CoreLinkPhase : Type := NotStarted | ShowingQr | Handshaking | AwaitingConfirm | ChannelReadyPhase | FinishedPhase.
Inductive CoreLinkOutcome : Type :=
| ChannelReady | Declined | Cancelled | TimedOut | QrExpired | DeviceCapReached | HandshakeFailed | ProtocolError.

#[global] Instance CoreLinkRole_eq_dec : EqDecision CoreLinkRole.
Proof. solve_decision. Defined.
#[global] Instance CoreLinkPhase_eq_dec : EqDecision CoreLinkPhase.
Proof. solve_decision. Defined.
#[global] Instance CoreLinkOutcome_eq_dec : EqDecision CoreLinkOutcome.
Proof. solve_decision. Defined.

Record CoreLinkSummary : Type := mk_link_summary {
  su_role : CoreLinkRole;
  su_outcome : CoreLinkOutcome;
  su_sas : option bytes;
  su_channel_binding : option bytes;
  su_peer_static_pk : option bytes;
  su_soft_cap_warning : bool;
  su_started_at_ms : Z;
  su_finished_at_ms : Z;
  su_messages_sent : Z;
  su_messages_received : Z;
  su_stale_resumes_ignored : Z;
}.

Inductive CoreLinkActionKind : Type :=
| ShowQr (qr_text : bytes)
| SendBytes (bs : bytes)
| AwaitPeer (wait_ms : Z)
| ShowSas (sas : bytes) (confirm_here warn_soft_cap : bool)
| LinkFinished (summary : CoreLinkSummary).

Record CoreLinkAction : Type := mk_link_action {
  la_role : CoreLinkRole;
  la_action_id : Z;
  la_phase : CoreLinkPhase;
  la_kind : CoreLinkActionKind;
}.

Definition is_send (k : CoreLinkActionKind) : bool := match k with SendBytes _ => true | _ => false end.
Definition is_show_qr (k : CoreLinkActionKind) : bool := match k with ShowQr _ => true | _ => false end.
Definition is_show_sas (k : CoreLinkActionKind) : bool := match k with ShowSas _ _ _ => true | _ => false end.

Definition pad_digits (n : nat) (digits : bytes) : bytes := replicate (n - length digits) x30 ++ digits.

Section sas.
Context `{C : Crypto}.

Definition link_sas (channel_binding : bytes) : result CoreError bytes :=
  _ ← ensure (blen channel_binding =? CHANNEL_BINDING_LEN) (InvalidKeyLength CHANNEL_BINDING_LEN (blen channel_binding));
  let value := be_value (blake2b 8 (LINK_SAS_DOMAIN ++ channel_binding)) mod 1000000 in
  let digits := pad_digits 6 (str (pretty value)) in
  Ok (take 3 digits ++ str " " ++ drop 3 digits).

Definition core_link_sas (channel_binding : bytes) : result CoreError bytes := link_sas channel_binding.
End sas.

(** [saturating_add(1)] on a counter of each width. *)
Definition bump32 (n : Z) : Z := Z.min (n + 1) U32_MAX.
Definition bump64 (n : Z) : Z := Z.min (n + 1) U64_MAX.

Inductive Channel (H T : Type) : Type := Handshake (handshake : H) | Transport (transport : T) | Spent.
Arguments Handshake {_ _} _.
Arguments Transport {_ _} _.
Arguments Spent {_ _}.

Record Ceremony {H T : Type} : Type := mk_ceremony {
  ce_role : CoreLinkRole;
  ce_budgets : LinkBudgets;
  ce_rendezvous : LinkRendezvous;
  ce_qr_text : bytes;
  ce_channel : Channel H T;
  ce_channel_binding : option bytes;
  ce_sas : option bytes;
  ce_peer_static_pk : option bytes;
  ce_soft_cap_warning : bool;
  ce_cap_refused : bool;
  ce_pending_terminal : option CoreLinkOutcome;
  ce_started : bool;
  ce_started_at_ms : Z;
  ce_deadline_from_ms : option Z;
  ce_now_ms : Z;
  ce_next_action_id : Z;
  ce_outstanding : option CoreLinkAction;
  ce_finished : option CoreLinkSummary;
  ce_messages_sent : Z;
  ce_messages_received : Z;
  ce_stale_resumes_ignored : Z;
}.
Arguments Ceremony : clear implicits.

(** What the outstanding action asks for. *)
Definition outstanding_kind {H T} (s : Ceremony H T) : option CoreLinkActionKind := la_kind <$> ce_outstanding s.
Definition outstanding_is {H T} (f : CoreLinkActionKind -> bool) (s : Ceremony H T) : bool := from_option f false (outstanding_kind s).

(** * Shared machinery *)

Section ceremony.
Context `{C : Crypto} {N : Noise}.

Notation state := (Ceremony hs tr).

Definition ceremony_new (role : CoreLinkRole) (budgets : LinkBudgets) (rendezvous : LinkRendezvous) (qr_text : bytes) (handshake : hs) : state :=
  mk_ceremony _ _ role budgets rendezvous qr_text (Handshake handshake) None None None false false None false 0 None 0 1 None None 0 0 0.

Definition emit (phase : CoreLinkPhase) (kind : CoreLinkActionKind) (s : state) : state * CoreLinkAction :=
  let s := if is_send kind then s <| ce_messages_sent ::= bump32 |> else s in
  let action := mk_link_action (ce_role s) (ce_next_action_id s) phase kind in
  (s <| ce_next_action_id ::= bump64 |> <| ce_outstanding := Some action |>, action).

Definition snapshot (outcome : CoreLinkOutcome) (now_ms : Z) (s : state) : CoreLinkSummary :=
  mk_link_summary (ce_role s) outcome (ce_sas s) (ce_channel_binding s) (ce_peer_static_pk s) (ce_soft_cap_warning s)
    (ce_started_at_ms s) now_ms (ce_messages_sent s) (ce_messages_received s) (ce_stale_resumes_ignored s).

Definition finished_action (s : state) (summary : CoreLinkSummary) : CoreLinkAction :=
  mk_link_action (ce_role s) 0 FinishedPhase (LinkFinished summary).

Definition finish (outcome : CoreLinkOutcome) (now_ms : Z) (s : state) : state * CoreLinkAction :=
  match ce_finished s with
  | Some summary => (s <| ce_outstanding := None |>, finished_action s summary)
  | None =>
      let summary := snapshot outcome now_ms s in
      let s := s <| ce_finished := Some summary |> in
      let s := if decide (outcome = ChannelReady) then s else s <| ce_channel := Spent |> in
      (s <| ce_outstanding := None |>, finished_action s summary)
  end.

Definition restate (s : state) : CoreLinkAction :=
  match ce_finished s with
  | Some summary => finished_action s summary
  | None =>
      match ce_outstanding s with
      | Some action => action
      | None => mk_link_action (ce_role s) 0 NotStarted (AwaitPeer (poll_interval_ms (ce_budgets s)))
      end
  end.

Definition with_stale (n : Z) (m : CoreLinkSummary) : CoreLinkSummary :=
  mk_link_summary (su_role m) (su_outcome m) (su_sas m) (su_channel_binding m) (su_peer_static_pk m) (su_soft_cap_warning m)
    (su_started_at_ms m) (su_finished_at_ms m) (su_messages_sent m) (su_messages_received m) n.

Definition stale (s : state) : state * CoreLinkAction :=
  let s := s <| ce_stale_resumes_ignored ::= bump32 |> in
  let s := s <| ce_finished ::= fmap (with_stale (ce_stale_resumes_ignored s)) |> in
  (s, restate s).

(** The clock, clamped non-decreasing. *)
Definition clock (now_ms : Z) (s : state) : state := s <| ce_now_ms ::= fun n => Z.max n now_ms |>.

Definition past_deadline (s : state) : bool :=
  match ce_deadline_from_ms s with
  | Some from_ms => deadline_ms (ce_budgets s) <? i64_saturating_sub (ce_now_ms s) from_ms
  | None => false
  end.

Definition offer_lapsed (s : state) : bool := outstanding_is is_show_qr s && (lr_expires_at_ms (ce_rendezvous s) <? ce_now_ms s).

(** The state with its clock set, and the action that ends the call early. *)
Definition guard (now_ms : Z) (s : state) : state * option CoreLinkAction :=
  match ce_finished s with
  | Some summary => (s, Some (finished_action s summary))
  | None =>
      let s := clock now_ms s in
      if past_deadline s then let '(s, a) := finish TimedOut (ce_now_ms s) s in (s, Some a)
      else if offer_lapsed s then let '(s, a) := finish QrExpired (ce_now_ms s) s in (s, Some a)
      else (s, None)
  end.

(** [if let Some(action) = self.guard(now_ms) { return action; }] *)
Definition guarded (now_ms : Z) (k : state -> state * CoreLinkAction) (s : state) : state * CoreLinkAction :=
  match guard now_ms s with
  | (s, Some action) => (s, action)
  | (s, None) => k s
  end.

(** ** Noise *)

Definition write_handshake_message (s : state) : state * option bytes :=
  match ce_channel s with
  | Handshake h => let '(m, h) := hs_write h in (s <| ce_channel := Handshake h |>, m)
  | _ => (s, None)
  end.

Definition read_handshake_message (message : bytes) (s : state) : state * bool :=
  match ce_channel s with
  | Handshake h => let '(ok, h) := hs_read h message in (s <| ce_channel := Handshake h |>, ok)
  | _ => (s, false)
  end.

Definition handshake_finished (s : state) : bool :=
  match ce_channel s with Handshake h => hs_finished h | Transport _ => true | Spent => false end.

Definition remote_static (s : state) : option bytes :=
  match ce_channel s with Handshake h => hs_remote h | _ => None end.

Definition finalize_channel (s : state) : state * bool :=
  match ce_channel s with
  | Handshake h =>
      let binding := hs_hash h in
      match link_sas binding, into_transport h with
      | Ok sas, Some transport =>
          (s <| ce_channel := Transport transport |> <| ce_channel_binding := Some binding |>
             <| ce_sas := Some sas |> <| ce_peer_static_pk := hs_remote h |>, true)
      | _, _ => (s <| ce_channel := Spent |>, false)
      end
  | Transport _ => (s, true)
  | Spent => (s, false)
  end.

Definition seal (plaintext : bytes) (s : state) : state * option bytes :=
  if LINK_CHANNEL_MAX_PLAINTEXT_BYTES <? blen plaintext then (s, None)
  else match ce_channel s with
       | Transport t => let '(frame, t) := tr_write t plaintext in (s <| ce_channel := Transport t |>, frame)
       | _ => (s, None)
       end.

Definition open (frame : bytes) (s : state) : state * option bytes :=
  if LINK_CHANNEL_MAX_PLAINTEXT_BYTES + NOISE_TAG_SIZE <? blen frame then (s, None)
  else match ce_channel s with
       | Transport t => let '(plaintext, t) := tr_read t frame in (s <| ce_channel := Transport t |>, plaintext)
       | _ => (s, None)
       end.

Definition control_frame (tag : Z) (s : state) : state * option bytes :=
  if tag =? CTRL_CONFIRM then
    match ce_channel_binding s with
    | Some binding => seal (push_u8 tag ++ binding) s
    | None => (s, None)
    end
  else seal (push_u8 tag) s.

(** ** Shared steps *)

Definition await_peer (s : state) : CoreLinkActionKind := AwaitPeer (poll_interval_ms (ce_budgets s)).

Definition expecting (s : state) : state * option CoreLinkActionKind :=
  match outstanding_kind s with
  | None => (s, None)
  | Some kind =>
      if is_send kind then
        if bool_decide (is_Some (ce_pending_terminal s)) then (s, Some kind)
        else (s <| ce_outstanding := None |>, Some (await_peer s))
      else (s, Some kind)
  end.

Definition show_sas (s : state) : state * CoreLinkAction :=
  emit AwaitingConfirm (ShowSas (default [] (ce_sas s)) (bool_decide (ce_role s = ApprovingDevice)) (ce_soft_cap_warning s)) s.

(** What follows a handshake message that was read and whose sender was checked. *)
Definition answer_handshake (now_ms : Z) (s : state) : state * CoreLinkAction :=
  if handshake_finished s then
    match finalize_channel s with
    | (s, true) => show_sas s
    | (s, false) => finish HandshakeFailed now_ms s
    end
  else
    match write_handshake_message s with
    | (s, None) => finish HandshakeFailed now_ms s
    | (s, Some reply) =>
        if handshake_finished s then
          match finalize_channel s with
          | (s, true) => emit Handshaking (SendBytes reply) s
          | (s, false) => finish HandshakeFailed now_ms s
          end
        else emit Handshaking (SendBytes reply) s
    end.

Definition stranger (s : state) : bool :=
  bool_decide (ce_role s = ApprovingDevice) && bool_decide (remote_static s <> Some (lr_link_pk (ce_rendezvous s))).

Definition advance_handshake (message : bytes) (now_ms : Z) (s : state) : state * CoreLinkAction :=
  if bool_decide (message = []) || (LINK_MAX_CEREMONY_MESSAGE_BYTES <? blen message) then finish HandshakeFailed now_ms s
  else
    let s := s <| ce_messages_received ::= bump32 |> in
    match read_handshake_message message s with
    | (s, false) => finish HandshakeFailed now_ms s
    | (s, true) => if stranger s then finish HandshakeFailed now_ms s else answer_handshake now_ms s
    end.

Definition resume_sent (now_ms : Z) : state -> state * CoreLinkAction := guarded now_ms (fun s =>
  if negb (outstanding_is is_send s) then stale s
  else
    let s := s <| ce_outstanding := None |> in
    match ce_pending_terminal s with
    | Some outcome => finish outcome (ce_now_ms s) (s <| ce_pending_terminal := None |>)
    | None => if handshake_finished s then show_sas s else emit Handshaking (await_peer s) s
    end).

Definition tick (now_ms : Z) : state -> state * CoreLinkAction := guarded now_ms (fun s => (s, restate s)).

Definition cancel (now_ms : Z) (s : state) : state :=
  match ce_finished s with
  | Some _ => s
  | None => let s := clock now_ms s in (finish Cancelled (ce_now_ms s) s).1
  end.

Definition channel_ready (s : state) : bool :=
  match ce_finished s with Some m => bool_decide (su_outcome m = ChannelReady) | None => false end.

Definition phase_of (s : state) : CoreLinkPhase :=
  match ce_finished s, ce_outstanding s with
  | Some _, _ => FinishedPhase
  | None, Some action => la_phase action
  | None, None => if ce_started s then Handshaking else NotStarted
  end.

Definition seal_on (plaintext : bytes) (s : state) : state * result CoreError bytes :=
  if channel_ready s then
    let '(s, frame) := seal plaintext s in
    (s, match frame with Some f => Ok f | None => Err (Wire.Crypto "device link frame could not be sealed") end)
  else (s, Err (Wire.Crypto "device link channel is not confirmed")).

Definition open_on (frame : bytes) (s : state) : state * result CoreError bytes :=
  if channel_ready s then
    let '(s, plaintext) := open frame s in
    (s, match plaintext with Some p => Ok p | None => Err (Wire.Crypto "device link frame could not be opened") end)
  else (s, Err (Wire.Crypto "device link channel is not confirmed")).

Definition link_prologue (r : LinkRendezvous) : bytes :=
  LINK_NOISE_PROLOGUE_DOMAIN ++ lr_link_pk r ++ be_bytes 8 (as_u64 (lr_expires_at_ms r)).

Definition build_handshake (initiator : bool) (r : LinkRendezvous) (sk entropy : bytes) : result CoreError hs :=
  match build initiator (link_prologue r) sk entropy with
  | Some h => Ok h
  | None => Err (Wire.Crypto "device link handshake")
  end.

(** ** The new device *)

Context `{B : Base64}.

(** [link_sk] is the fresh secret, [entropy] the randomness of the handshake. *)
Definition new_device (lan_endpoints relay_base_urls : list bytes) (now_ms : Z) (budgets : option LinkBudgets) (link_sk entropy : bytes)
    : result CoreError state :=
  let budgets := default core_link_default_budgets budgets in
  let r := mk_rendezvous (noise_public link_sk) (i64_saturating_add now_ms (qr_lifetime_ms budgets)) lan_endpoints relay_base_urls in
  qr_text ← core_build_link_qr r;
  handshake ← build_handshake false r link_sk entropy;
  Ok (ceremony_new NewDevice budgets r qr_text handshake).

Definition new_start (now_ms : Z) (s : state) : state * CoreLinkAction :=
  if bool_decide (is_Some (ce_finished s)) || ce_started s then (s, restate s)
  else
    let s := clock now_ms s in
    let s := s <| ce_started := true |> <| ce_started_at_ms := ce_now_ms s |> in
    if lr_expires_at_ms (ce_rendezvous s) <? ce_now_ms s then finish QrExpired (ce_now_ms s) s
    else emit ShowingQr (ShowQr (ce_qr_text s)) s.

Definition is_confirm (s : state) (plaintext : bytes) : bool :=
  match plaintext with
  | tag :: rest =>
      (Z_of_byte tag =? CTRL_CONFIRM) && (blen plaintext =? 1 + CHANNEL_BINDING_LEN) && bool_decide (ce_channel_binding s = Some rest)
  | [] => false
  end.

Definition is_decline (plaintext : bytes) : bool :=
  match plaintext with [tag] => Z_of_byte tag =? CTRL_DECLINE | _ => false end.

Definition read_verdict (bs : bytes) (s : state) : state * CoreLinkAction :=
  let s := s <| ce_messages_received ::= bump32 |> in
  match open bs s with
  | (s, None) => finish HandshakeFailed (ce_now_ms s) s
  | (s, Some plaintext) =>
      if is_confirm s plaintext then finish ChannelReady (ce_now_ms s) (s <| ce_outstanding := None |>)
      else if is_decline plaintext then finish Declined (ce_now_ms s) s
      else finish ProtocolError (ce_now_ms s) s
  end.

Definition new_peer_bytes (now_ms : Z) (bs : bytes) : state -> state * CoreLinkAction := guarded now_ms (fun s =>
  match expecting s with
  | (s, Some (ShowQr _ | AwaitPeer _)) =>
      advance_handshake bs (ce_now_ms s) (s <| ce_deadline_from_ms ::= fun o => Some (default (ce_now_ms s) o) |>)
  | (s, Some (ShowSas _ _ _)) => read_verdict bs s
  | (s, _) => stale s
  end).

(** ** The approving device *)

Definition scan (qr_text : bytes) (active_device_count : Z) (budgets : option LinkBudgets) (ephemeral_sk entropy : bytes)
    : result CoreError state :=
  let budgets := default core_link_default_budgets budgets in
  r ← core_parse_link_qr qr_text;
  handshake ← build_handshake true r ephemeral_sk entropy;
  let s := ceremony_new ApprovingDevice budgets r [] handshake in
  Ok match core_device_add_outcome (bump32 active_device_count) with
     | Added => s
     | AddedWithWarning => s <| ce_soft_cap_warning := true |>
     | Roster.Refused => s <| ce_cap_refused := true |>
     end.

Definition add_outcome (s : state) : DeviceAddOutcome :=
  if ce_cap_refused s then Roster.Refused else if ce_soft_cap_warning s then AddedWithWarning else Added.

Definition approving_start (now_ms : Z) (s : state) : state * CoreLinkAction :=
  if bool_decide (is_Some (ce_finished s)) || ce_started s then (s, restate s)
  else
    let s := clock now_ms s in
    let s := s <| ce_started := true |> <| ce_started_at_ms := ce_now_ms s |> <| ce_deadline_from_ms := Some (ce_now_ms s) |> in
    if ce_cap_refused s then finish DeviceCapReached (ce_now_ms s) s
    else if lr_expires_at_ms (ce_rendezvous s) <? ce_now_ms s then finish QrExpired (ce_now_ms s) s
    else match write_handshake_message s with
         | (s, None) => finish HandshakeFailed (ce_now_ms s) s
         | (s, Some message) => emit Handshaking (SendBytes message) s
         end.

Definition approving_peer_bytes (now_ms : Z) (bs : bytes) : state -> state * CoreLinkAction := guarded now_ms (fun s =>
  match expecting s with
  | (s, Some (AwaitPeer _)) => advance_handshake bs (ce_now_ms s) s
  | (s, _) => stale s
  end).

Definition link_decide (now_ms tag : Z) (outcome : CoreLinkOutcome) : state -> state * CoreLinkAction := guarded now_ms (fun s =>
  if negb (outstanding_is is_show_sas s) then stale s
  else match control_frame tag s with
       | (s, None) => finish HandshakeFailed (ce_now_ms s) s
       | (s, Some frame) => emit ChannelReadyPhase (SendBytes frame) (s <| ce_pending_terminal := Some outcome |>)
       end).

Definition confirm (now_ms : Z) : state -> state * CoreLinkAction := link_decide now_ms CTRL_CONFIRM ChannelReady.
Definition decline (now_ms : Z) : state -> state * CoreLinkAction := link_decide now_ms CTRL_DECLINE Declined.
End ceremony.

(** * Any driver *)

(** The calls both objects offer. *)
Inductive LinkCall : Type :=
| CallStart (now_ms : Z)
| CallSent (now_ms : Z)
| CallBytes (now_ms : Z) (bs : bytes)
| CallTick (now_ms : Z)
| CallCancel (now_ms : Z)
| CallSeal (plaintext : bytes)
| CallOpen (frame : bytes).

(** The approving device also holds the two buttons. *)
Inductive ApprovingCall : Type := Call (c : LinkCall) | Confirm (now_ms : Z) | Decline (now_ms : Z).

Section runs.
Context `{C : Crypto} {N : Noise}.
Notation state := (Ceremony hs tr).

Definition new_call (c : LinkCall) (s : state) : state :=
  match c with
  | CallStart now => (new_start now s).1
  | CallSent now => (resume_sent now s).1
  | CallBytes now bs => (new_peer_bytes now bs s).1
  | CallTick now => (tick now s).1
  | CallCancel now => cancel now s
  | CallSeal p => (seal_on p s).1
  | CallOpen f => (open_on f s).1
  end.

Definition approving_call (c : ApprovingCall) (s : state) : state :=
  match c with
  | Call (CallStart now) => (approving_start now s).1
  | Call (CallSent now) => (resume_sent now s).1
  | Call (CallBytes now bs) => (approving_peer_bytes now bs s).1
  | Call (CallTick now) => (tick now s).1
  | Call (CallCancel now) => cancel now s
  | Call (CallSeal p) => (seal_on p s).1
  | Call (CallOpen f) => (open_on f s).1
  | Confirm now => (confirm now s).1
  | Decline now => (decline now s).1
  end.

Definition new_run (s : state) (cs : list LinkCall) : state := foldl (fun s c => new_call c s) s cs.
Definition approving_run (s : state) (cs : list ApprovingCall) : state := foldl (fun s c => approving_call c s) s cs.
End runs.
