(* ===== verification/LinkVerdicts.v ===== *)
(** What holds of a device-link ceremony whatever is called and whatever arrives: a channel
    becomes ready on the approving device only after its own [confirm] on the digits of that
    channel, on the new device only after opening a confirm frame that names its own handshake
    hash; an ending is final, and a ceremony that ended otherwise keeps no channel; and a
    ceremony is over once any call has read a time past its deadline. *)
From stdpp Require Import base numbers list strings pretty.
From coqutil Require Import Datatypes.RecordSetters.
From S2P Require Import Prelude StdModel Wire Crypto Roster RelayPolicy RelayWire FriendCards LinkQr LinkCeremony.
Import TriangleBracketNotations.

(** * The invariant *)

(** What the code relies on of [snow]: the peer's static key is learnt by reading a message, so writing one
    does not change it. *)
Class NoiseStatic (N : Noise) : Prop := { remote_of_write : forall h, hs_remote (hs_write h).2 = hs_remote h }.

Section invariant.
Context `{C : Crypto} {N : Noise} {NS : NoiseStatic N}.
Notation state := (Ceremony hs tr).
Context (role : CoreLinkRole) (offer : LinkRendezvous).

(** A binding [b] with the digits [sas] that stand for it and, on the approving device, the scanned key. *)
Definition bound_to (b : bytes) (sas peer : option bytes) : Prop :=
  (exists digits, sas = Some digits /\ link_sas b = Ok digits)
  /\ (role = ApprovingDevice -> peer = Some (lr_link_pk offer)).

Definition bound (s : state) (b : bytes) : Prop :=
  ce_channel_binding s = Some b /\ bound_to b (ce_sas s) (ce_peer_static_pk s).

(** [L b]: the channel with handshake hash [b] has been approved. *)
Record link_inv (L : bytes -> Prop) (s : state) : Prop := {
  li_role : ce_role s = role;
  li_rendezvous : ce_rendezvous s = offer;
  li_transport : forall t, ce_channel s = Transport t -> exists b, bound s b;
  li_shown : forall sas c w, outstanding_kind s = Some (ShowSas sas c w) -> sas = default [] (ce_sas s) /\ c = bool_decide (role = ApprovingDevice);
  li_pending : ce_finished s = None -> ce_pending_terminal s = Some ChannelReady ->
    exists t b, ce_channel s = Transport t /\ bound s b /\ L b;
  li_ready : forall m, ce_finished s = Some m -> su_outcome m = ChannelReady ->
    exists b, su_channel_binding m = Some b /\ bound_to b (su_sas m) (su_peer_static_pk m) /\ L b;
  li_spent : forall m, ce_finished s = Some m -> su_outcome m <> ChannelReady -> ce_channel s = Spent;
}.

Definition live (s : state) : Prop := ce_finished s = None.

Lemma inv_mono (L L' : bytes -> Prop) s : (forall b, L b -> L' b) -> link_inv L s -> link_inv L' s.
Proof. intros HL [H1 H2 H3 H4 H5 H6 H7]. constructor; eauto; [naive_solver|].
  intros m Hm Ho. destruct (H6 m Hm Ho) as (b & ? & ? & ?). eauto. Qed.

(** Updates of fields the invariant does not read. *)
Ltac fields s := destruct s; cbn in *; unfold constant in *; cbn in *.
Ltac keep := intros [H1 H2 H3 H4 H5 H6 H7]; constructor; [exact H1|exact H2|exact H3|exact H4|exact H5|exact H6|exact H7].

Context (L : bytes -> Prop).
Notation inv := (link_inv L).

Lemma inv_received (s : state) : inv s -> inv (s <| ce_messages_received ::= bump32 |>).
Proof. keep. Qed.

Lemma inv_clock now (s : state) : inv s -> inv (clock now s).
Proof. keep. Qed.

Lemma inv_deadline f (s : state) : inv s -> inv (s <| ce_deadline_from_ms ::= f |>).
Proof. keep. Qed.

Lemma inv_begin now d (s : state) : inv s -> inv (s <| ce_started := true |> <| ce_started_at_ms := now |> <| ce_deadline_from_ms ::= d |>).
Proof. keep. Qed.

Lemma inv_idle (s : state) : inv s -> inv (s <| ce_outstanding := None |>).
Proof. intros [H1 H2 H3 H4 H5 H6 H7]. constructor; [exact H1|exact H2|exact H3| |exact H5|exact H6|exact H7]. done. Qed.

Lemma inv_settle (s : state) : inv s -> inv (s <| ce_pending_terminal := None |>).
Proof. intros [H1 H2 H3 H4 H5 H6 H7]. constructor; [exact H1|exact H2|exact H3|exact H4| |exact H6|exact H7]. done. Qed.

Lemma inv_emit phase kind (s : state) : inv s ->
  (forall sas c w, kind = ShowSas sas c w -> sas = default [] (ce_sas s) /\ c = bool_decide (role = ApprovingDevice)) ->
  inv (emit phase kind s).1.
Proof.
  intros [H1 H2 H3 H4 H5 H6 H7] Hk. unfold emit. destruct (is_send kind); constructor; try assumption.
  all: intros sas c w; cbn; intros [= ->]; by apply (Hk _ _ w).
Qed.

Lemma inv_finish outcome now (s : state) : inv s -> (outcome = ChannelReady -> exists b, bound s b /\ L b) -> inv (finish outcome now s).1.
Proof.
  intros [H1 H2 H3 H4 H5 H6 H7] Ho. unfold finish. destruct (ce_finished s) as [m|] eqn:Hf.
  - constructor; [exact H1|exact H2|exact H3|done|intros Hl; change (ce_finished s = None) in Hl; congruence|..]; intros m' Hm'; [apply (H6 m')|apply (H7 m')]; rewrite <-Hf; exact Hm'.
  - cbv zeta. destruct (decide (outcome = ChannelReady)) as [Hd|Hd]; (constructor; [exact H1|exact H2|try exact H3|done|done|intros m Hm..]); try (injection Hm as <-).
    + intros _. destruct (Ho Hd) as (b & [Hb Hs] & HL). eauto.
    + done.
    + done.
    + done.
    + done.
Qed.

Lemma finished_stale (s : state) : ce_finished (stale s).1 = with_stale (bump32 (ce_stale_resumes_ignored s)) <$> ce_finished s.
Proof. reflexivity. Qed.

Lemma inv_stale (s : state) : inv s -> inv (stale s).1.
Proof.
  intros [H1 H2 H3 H4 H5 H6 H7].
  constructor; [exact H1|exact H2|exact H3|exact H4|rewrite finished_stale; intros Hl%fmap_None; by apply H5|..];
    intros m'; rewrite finished_stale; intros (m & Hm & ->)%fmap_Some; [exact (H6 m Hm)|exact (H7 m Hm)].
Qed.

Lemma live_guard now s s' : guard now s = (s', None) -> live s /\ s' = clock now s.
Proof.
  unfold guard, live. destruct (ce_finished s); [done|]. case_match; [by destruct (finish _ _ _)|].
  case_match; [by destruct (finish _ _ _)|]. by intros [= <-].
Qed.

Lemma inv_guard now (s : state) : inv s -> inv (guard now s).1.
Proof.
  intros Hi. unfold guard. destruct (ce_finished s); [done|].
  pose proof (inv_clock now s Hi) as Hc.
  case_match; [|case_match; [|done]];
    match goal with |- context [finish ?o ?n ?x] => pose proof (inv_finish o n x Hc ltac:(done)) as Hx; destruct (finish o n x); exact Hx end.
Qed.

Lemma inv_guarded now k (s : state) : inv s -> (live s -> inv (clock now s) -> inv (k (clock now s)).1) -> inv (guarded now k s).1.
Proof.
  intros Hi Hk. unfold guarded. pose proof (inv_guard now s Hi) as Hg. destruct (guard now s) as [s' [a|]] eqn:E; [exact Hg|].
  apply live_guard in E as [Hl ->]. by apply Hk.
Qed.

(** Replacing one handshake state by another, of the same remote key or not. *)
Lemma inv_handshake h h' (s : state) : ce_channel s = Handshake h -> inv s -> live s -> inv (s <| ce_channel := Handshake h' |>).
Proof.
  intros Hh [H1 H2 H3 H4 H5 H6 H7] Hl. unfold live in Hl. constructor; [exact H1|exact H2|done|exact H4| |exact H6|].
  { intros _ Hp. destruct (H5 Hl Hp) as (t & b & Ht & _). congruence. }
  intros m Hm. change (ce_finished s = Some m) in Hm. congruence.
Qed.

Lemma inv_write (s : state) : inv s -> live s -> inv (write_handshake_message s).1.
Proof. intros Hi Hl. unfold write_handshake_message. destruct (ce_channel s) eqn:E; [|done..]. destruct (hs_write _). by eapply inv_handshake. Qed.

Lemma inv_read m (s : state) : inv s -> live s -> inv (read_handshake_message m s).1.
Proof. intros Hi Hl. unfold read_handshake_message. destruct (ce_channel s) eqn:E; [|done..]. destruct (hs_read _ _). by eapply inv_handshake. Qed.

Lemma inv_transport t t' (s : state) : ce_channel s = Transport t -> inv s -> inv (s <| ce_channel := Transport t' |>).
Proof.
  intros Ht [H1 H2 H3 H4 H5 H6 H7]. constructor; [exact H1|exact H2|by intros _ _; apply (H3 t)|exact H4| |exact H6|].
  { intros Hl Hp. destruct (H5 Hl Hp) as (t0 & b & _ & H). by exists t', b. }
  intros m Hm Ho. exfalso. pose proof (H7 m Hm Ho). congruence.
Qed.

Lemma inv_seal p (s : state) : inv s -> inv (seal p s).1.
Proof. intros Hi. unfold seal. case_match; [done|]. destruct (ce_channel s) eqn:E; [done| |done]. destruct (tr_write _ _). by eapply inv_transport. Qed.

Lemma inv_open f (s : state) : inv s -> inv (open f s).1.
Proof. intros Hi. unfold open. case_match; [done|]. destruct (ce_channel s) eqn:E; [done| |done]. destruct (tr_read _ _). by eapply inv_transport. Qed.

(** The remote key of an approving device whose channel is about to be closed on it. *)
Definition checked (s : state) : Prop :=
  outstanding_is is_show_sas s = false
  /\ exists h, ce_channel s = Handshake h /\ (role = ApprovingDevice -> hs_remote h = Some (lr_link_pk offer)).

Lemma inv_finalize (s : state) : inv s -> live s -> checked s -> inv (finalize_channel s).1.
Proof.
  intros Hi Hl (Ho & h & Hh & Hk). unfold live in Hl. unfold finalize_channel. rewrite Hh.
  assert (ce_pending_terminal s <> Some ChannelReady) as Hp.
  { intros Hp. destruct (li_pending _ _ Hi Hl Hp) as (t & b & Ht & _). congruence. }
  destruct Hi as [H1 H2 H3 H4 H5 H6 H7].
  assert (inv (s <| ce_channel := Spent |>)) as Hs by (constructor; [exact H1|exact H2|done|exact H4|done|exact H6|done]).
  destruct (link_sas (hs_hash h)) as [sas|] eqn:E; [|exact Hs]. destruct (into_transport h) as [t|]; [|exact Hs].
  constructor; [exact H1|exact H2| | |done|intros m Hm..].
  - intros _ _. exists (hs_hash h). split; [done|]. split; [by exists sas|exact Hk].
  - intros sas' c w Hs'. change (outstanding_kind s = Some (ShowSas sas' c w)) in Hs'. unfold outstanding_is in Ho. by rewrite Hs' in Ho.
  - change (ce_finished s = Some m) in Hm. congruence.
  - change (ce_finished s = Some m) in Hm. congruence.
Qed.

Lemma inv_show_sas (s : state) : inv s -> inv (show_sas s).1.
Proof. intros Hi. apply inv_emit; [done|]. intros sas c w [= <- <- _]. by rewrite (li_role _ _ Hi). Qed.

Lemma inv_fail o now (s : state) : inv s -> o <> ChannelReady -> inv (finish o now s).1.
Proof. intros Hi Ho. by apply inv_finish. Qed.

Lemma inv_send phase bs (s : state) : inv s -> inv (emit phase (SendBytes bs) s).1.
Proof. intros Hi. by apply inv_emit. Qed.

Lemma inv_answer now (s : state) : inv s -> live s -> checked s -> inv (answer_handshake now s).1.
Proof.
  intros Hi Hl Hk. unfold answer_handshake. destruct (handshake_finished s).
  - pose proof (inv_finalize s Hi Hl Hk) as Hf. destruct (finalize_channel s) as [s' []]; [by apply inv_show_sas|by apply inv_fail].
  - pose proof (inv_write s Hi Hl) as Hw. destruct Hk as (Ho & h & Hh & Hkey). unfold write_handshake_message in *. rewrite Hh in *.
    pose proof (remote_of_write h) as Hr. destruct (hs_write h) as [[reply|] h']; cbn [fst snd] in *; [|by apply inv_fail].
    case_match; [|by apply inv_send].
    match goal with |- context [finalize_channel ?x] => pose proof (inv_finalize x Hw Hl) as Hf; destruct (finalize_channel x) as [s' []] end;
      [apply inv_send|apply inv_fail; [|done]]; (apply Hf; split; [exact Ho|exists h'; split; [done|intros Hd; rewrite Hr; by apply Hkey]]).
Qed.

Lemma inv_advance m now (s : state) : inv s -> live s -> outstanding_is is_show_sas s = false -> inv (advance_handshake m now s).1.
Proof.
  intros Hi Hl Ho. unfold advance_handshake. case_match; [by apply inv_fail|]. cbv zeta.
  apply inv_received in Hi. set (s0 := s <| ce_messages_received ::= bump32 |>) in *.
  assert (outstanding_is is_show_sas s0 = false) as Ho0 by exact Ho. assert (live s0) as Hl0 by exact Hl. clearbody s0.
  pose proof (inv_read m s0 Hi Hl0) as Hr. unfold read_handshake_message in *. destruct (ce_channel s0) as [h| |]; [|by apply inv_fail..].
  destruct (hs_read h m) as [[] h']; cbn [fst snd] in *; [|by apply inv_fail].
  case_match eqn:Hs; [by apply inv_fail|]. apply inv_answer; [done..|]. split; [exact Ho0|]. exists h'. split; [done|].
  intros Hrole. unfold stranger in Hs. pose proof (li_role _ _ Hr) as H1. pose proof (li_rendezvous _ _ Hr) as H2.
  rewrite H1, H2, Hrole in Hs. rewrite bool_decide_eq_true_2 in Hs by done. cbn [andb] in Hs. apply bool_decide_eq_false, dec_stable in Hs. exact Hs.
Qed.

Lemma inv_resume_sent now (s : state) : inv s -> inv (resume_sent now s).1.
Proof.
  intros Hi. apply inv_guarded; [done|]. intros Hl Hc. cbv beta. set (s0 := clock now s) in *. assert (live s0) as Hl0 by exact Hl. clearbody s0.
  case_match; [by apply inv_stale|]. cbv zeta. destruct (ce_pending_terminal _) as [o|] eqn:Hp.
  - apply inv_finish; [by apply inv_settle, inv_idle|]. intros ->. change (ce_pending_terminal s0 = Some ChannelReady) in Hp.
    destruct (li_pending _ _ Hc Hl0 Hp) as (_ & b & _ & Hb & HL). by exists b.
  - case_match; [by apply inv_show_sas, inv_idle|]. apply inv_emit; [by apply inv_idle|done].
Qed.

Lemma inv_tick now (s : state) : inv s -> inv (tick now s).1.
Proof. intros Hi. by apply inv_guarded. Qed.

Lemma inv_cancel now (s : state) : inv s -> inv (cancel now s).
Proof. intros Hi. unfold cancel. case_match; [done|]. apply inv_fail; [by apply inv_clock|done]. Qed.

Lemma inv_seal_on p (s : state) : inv s -> inv (seal_on p s).1.
Proof. intros Hi. unfold seal_on. case_match; [|done]. pose proof (inv_seal p s Hi). by destruct (seal p s). Qed.

Lemma inv_open_on f (s : state) : inv s -> inv (open_on f s).1.
Proof. intros Hi. unfold open_on. case_match; [|done]. pose proof (inv_open f s Hi). by destruct (open f s). Qed.

(** What a peer's bytes are read as. *)
Lemma expecting_spec (s : state) : inv s ->
  inv (expecting s).1 /\ ce_finished (expecting s).1 = ce_finished s /\ ce_channel (expecting s).1 = ce_channel s
  /\ ce_channel_binding (expecting s).1 = ce_channel_binding s
  /\ match (expecting s).2 with
     | Some (ShowSas sas c w) => (expecting s).1 = s /\ outstanding_kind s = Some (ShowSas sas c w)
     | Some (ShowQr _ | AwaitPeer _) => outstanding_is is_show_sas (expecting s).1 = false
     | _ => True
     end.
Proof.
  intros Hi. unfold expecting. destruct (outstanding_kind s) as [k|] eqn:Hk; [|done].
  destruct (is_send k) eqn:Hs.
  - case_match; cbn [fst snd]; [by destruct k|]. split_and!; try done. by apply inv_idle.
  - cbn [fst snd]. split_and!; try done. unfold outstanding_is. rewrite Hk. by destruct k.
Qed.
End invariant.

(** * Who made the channel ready *)

Section verdicts.
Context `{C : Crypto} {B : Base64} {N : Noise} {NS : NoiseStatic N}.
Notation state := (Ceremony hs tr).

(** ** The approving device *)

(** The person was shown the digits of the channel with hash [b] and tapped. *)
Definition confirmed (s0 : state) (cs : list ApprovingCall) (b : bytes) : Prop :=
  exists cs1 now cs2 sas w, cs = cs1 ++ Confirm now :: cs2
    /\ outstanding_kind (approving_run s0 cs1) = Some (ShowSas sas true w)
    /\ link_sas b = Ok sas /\ ce_channel_binding (approving_run s0 cs1) = Some b.

Lemma sealed_transport p (s s' : state) f : seal p s = (s', Some f) ->
  exists t t', ce_channel s = Transport t /\ s' = s <| ce_channel := Transport t' |>.
Proof.
  unfold seal. case_match; [done|]. destruct (ce_channel s) as [|t|]; [done| |done].
  destruct (tr_write t p) as [o t']. intros [= <- ->]. by exists t, t'.
Qed.

Lemma control_transport tag (s s' : state) f : control_frame tag s = (s', Some f) ->
  exists t t', ce_channel s = Transport t /\ s' = s <| ce_channel := Transport t' |>.
Proof. unfold control_frame. repeat case_match; try done; apply sealed_transport. Qed.

Lemma control_fails tag (s s' : state) : control_frame tag s = (s', None) ->
  s' = s \/ exists t t', ce_channel s = Transport t /\ s' = s <| ce_channel := Transport t' |>.
Proof.
  assert (forall p, seal p s = (s', None) -> s' = s \/ exists t t', ce_channel s = Transport t /\ s' = s <| ce_channel := Transport t' |>) as Hs.
  { intros p. unfold seal. case_match; [by intros [= <-]; left|]. destruct (ce_channel s) as [|t|]; [by intros [= <-]; left| |by intros [= <-]; left].
    destruct (tr_write t p) as [o t']. intros [= <- ->]. right. by exists t, t'. }
  unfold control_frame. case_match; [|apply Hs]. case_match; [apply Hs|by intros [= <-]; left].
Qed.

Section approving.
Context (offer : LinkRendezvous).
Notation inv := (link_inv ApprovingDevice offer).

Lemma inv_decide L tag o now (s : state) : inv L s ->
  (o = ChannelReady -> live s -> forall b sas w, outstanding_kind s = Some (ShowSas sas true w) -> link_sas b = Ok sas -> ce_channel_binding s = Some b -> L b) ->
  inv L (link_decide now tag o s).1.
Proof.
  intros Hi HL. apply inv_guarded; [done|]. intros Hl Hc. cbv beta.
  destruct (outstanding_is is_show_sas _) eqn:Ho; cbn [negb]; [|by apply inv_stale].
  destruct (control_frame tag (clock now s)) as [s' [f|]] eqn:Ef.
  - apply control_transport in Ef as (t & t' & Ht & ->). pose proof (inv_transport _ _ _ _ t' _ Ht Hc) as Hx.
    apply inv_send. destruct Hx as [H1 H2 H3 H4 H5 H6 H7]. constructor; [exact H1|exact H2|exact H3|exact H4| |exact H6|exact H7].
    intros _ [= ->]. destruct (H3 t' eq_refl) as (b & Hb). exists t', b. split_and!; [done|exact Hb|].
    destruct Hb as [Hb [(sas & Hsas & Hd) _]]. unfold outstanding_is in Ho. destruct (outstanding_kind (clock now s)) as [k|] eqn:Hk; [|done].
    destruct k as [| | |sas' c w|]; try done. destruct (H4 _ _ _ Hk) as [-> ->]. eapply (HL eq_refl Hl b); [exact Hk|rewrite Hsas; exact Hd|exact Hb].
  - apply inv_fail; [|done]. apply control_fails in Ef as [->|(t & t' & Ht & ->)]; [done|by eapply inv_transport].
Qed.

Lemma inv_approving_start L now (s : state) : inv L s -> inv L (approving_start now s).1.
Proof.
  intros Hi. unfold approving_start. destruct (bool_decide (is_Some (ce_finished s))) eqn:Hf; [done|]. apply bool_decide_eq_false in Hf.
  assert (live s) as Hl by (unfold live; destruct (ce_finished s); [by destruct Hf|done]).
  case_match; [done|]. cbv zeta.
  match goal with |- context [ce_cap_refused ?x] => assert (inv L x) as Hx by
    exact (inv_begin _ _ _ (ce_now_ms (clock now s)) (fun _ => Some (ce_now_ms (clock now s))) _ (inv_clock _ _ _ now s Hi)); assert (live x) as Hlx by exact Hl; set (s1 := x) in * end.
  clearbody s1.
  case_match; [by apply inv_fail|]. case_match; [by apply inv_fail|].
  pose proof (inv_write _ _ _ s1 Hx Hlx) as Hw. destruct (write_handshake_message s1) as [s' [m|]]; [by apply inv_send|by apply inv_fail].
Qed.

Lemma inv_approving_bytes L now bs (s : state) : inv L s -> inv L (approving_peer_bytes now bs s).1.
Proof.
  intros Hi. apply inv_guarded; [done|]. intros Hl Hc. cbv beta. destruct (expecting_spec _ _ _ _ Hc) as (He & Hf & _ & _ & Hk).
  destruct (expecting (clock now s)) as [s' k]. cbn [fst snd] in *. assert (live s') as Hl' by (unfold live; rewrite Hf; exact Hl).
  destruct k as [[]|]; try by apply inv_stale. by apply inv_advance.
Qed.

Lemma inv_approving_call L c (s : state) : inv L s ->
  (forall now, c = Confirm now -> live s -> forall b sas w, outstanding_kind s = Some (ShowSas sas true w) -> link_sas b = Ok sas -> ce_channel_binding s = Some b -> L b) ->
  inv L (approving_call c s).
Proof.
  intros Hi Hc. destruct c as [[now|now|now bs|now|now|p|f]|now|now]; cbn [approving_call].
  - by apply inv_approving_start.
  - by apply inv_resume_sent.
  - by apply inv_approving_bytes.
  - by apply inv_tick.
  - by apply inv_cancel.
  - by apply inv_seal_on.
  - by apply inv_open_on.
  - apply inv_decide; [done|]. intros _. by eapply Hc.
  - by apply inv_decide.
Qed.

Lemma inv_approving_run (s0 : state) cs : inv (fun _ => False) s0 -> inv (confirmed s0 cs) (approving_run s0 cs).
Proof.
  intros H0. induction cs as [|c cs IH] using rev_ind; [eapply inv_mono; [|exact H0]; done|].
  unfold approving_run. rewrite foldl_app. cbn [foldl]. fold (approving_run s0 cs).
  apply inv_approving_call.
  - eapply inv_mono; [|exact IH]. intros b (cs1 & now & cs2 & sas & w & -> & H). exists cs1, now, (cs2 ++ [c]), sas, w. by rewrite <-app_assoc.
  - intros now -> Hl b sas w Hk Hs Hb. exists cs, now, [], sas, w. done.
Qed.
End approving.

Lemma scan_inv text n bud sk ent s0 : scan text n bud sk ent = Ok s0 ->
  exists offer, core_parse_link_qr text = Ok offer /\ link_inv ApprovingDevice offer (fun _ => False) s0.
Proof.
  unfold scan. intros (offer & Ho & (h & _ & [= <-])%result_bind_ok)%result_bind_ok. exists offer. split; [done|].
  destruct (core_device_add_outcome _); constructor; done.
Qed.

(** C6: An approving device reaches a ready channel only with the device whose key it scanned, and only after
    the person tapped confirm while the screen showed the digits of that very channel. *)
Theorem ready_means_confirmed text n bud sk ent s0 cs m :
  scan text n bud sk ent = Ok s0 ->
  ce_finished (approving_run s0 cs) = Some m -> su_outcome m = ChannelReady ->
  exists offer b digits, core_parse_link_qr text = Ok offer
    /\ su_peer_static_pk m = Some (lr_link_pk offer)
    /\ su_channel_binding m = Some b /\ su_sas m = Some digits /\ link_sas b = Ok digits
    /\ confirmed s0 cs b.
Proof.
  intros (offer & Ho & H0)%scan_inv Hf Hm. pose proof (inv_approving_run offer s0 cs H0) as Hi.
  destruct (li_ready _ _ _ _ Hi m Hf Hm) as (b & Hb & [(digits & Hs & Hd) Hp] & Hc).
  exists offer, b, digits. split_and!; try done. by apply Hp.
Qed.

(** ** The new device *)

(** The digits of the channel with hash [b] were on screen when a frame opened to a confirm that names [b]. *)
Definition approved (s0 : state) (cs : list LinkCall) (b : bytes) : Prop :=
  exists cs1 now frame cs2 sas w t, cs = cs1 ++ CallBytes now frame :: cs2
    /\ outstanding_kind (new_run s0 cs1) = Some (ShowSas sas false w) /\ link_sas b = Ok sas
    /\ ce_channel (new_run s0 cs1) = Transport t /\ (tr_read t frame).1 = Some (push_u8 CTRL_CONFIRM ++ b).

Section new_device.
Context (offer : LinkRendezvous).
Notation inv := (link_inv NewDevice offer).

Lemma confirm_plaintext (s : state) p : is_confirm s p = true -> exists b, ce_channel_binding s = Some b /\ p = push_u8 CTRL_CONFIRM ++ b.
Proof.
  unfold is_confirm. destruct p as [|tag b]; [done|]. intros H. bools. exists b. split; [done|].
  rewrite push_u8_eq. cbn [app]. f_equal. rewrite <-(byte_of_Z_of_byte tag). by f_equal.
Qed.

Lemma inv_read_verdict L bs (s : state) : inv L s -> live s ->
  (forall b t, ce_channel s = Transport t -> (tr_read t bs).1 = Some (push_u8 CTRL_CONFIRM ++ b) -> bound NewDevice offer s b -> L b) ->
  inv L (read_verdict bs s).1.
Proof.
  intros Hi Hl HL. unfold read_verdict. cbv zeta. apply inv_received in Hi.
  set (s0 := s <| ce_messages_received ::= bump32 |>) in *.
  change (forall b t, ce_channel s0 = Transport t -> (tr_read t bs).1 = Some (push_u8 CTRL_CONFIRM ++ b) -> bound NewDevice offer s0 b -> L b) in HL.
  clearbody s0. clear Hl s. pose proof (inv_open _ _ _ bs s0 Hi) as Ho. unfold open in *. case_match; [by apply inv_fail|].
  destruct (ce_channel s0) as [|t|] eqn:Ht; [by apply inv_fail| |by apply inv_fail].
  destruct (tr_read t bs) as [[p|] t'] eqn:Er; cbn [fst] in Ho; [|by apply inv_fail].
  case_match eqn:Hc.
  - apply inv_finish; [by apply inv_idle|]. intros _. apply confirm_plaintext in Hc as (b & Hb & ->).
    destruct (li_transport _ _ _ _ Ho t' eq_refl) as (b' & Hx & Hy).
    change (ce_channel_binding s0 = Some b) in Hb. change (ce_channel_binding s0 = Some b') in Hx. simplify_eq.
    exists b. split; [by split|]. apply (HL b t); [done|by rewrite Er|by split].
  - case_match; by apply inv_fail.
Qed.

Lemma inv_new_start L now (s : state) : inv L s -> inv L (new_start now s).1.
Proof.
  intros Hi. unfold new_start. case_match; [done|]. cbv zeta.
  match goal with |- context [ce_qr_text ?x] => assert (inv L x) as Hx by
    exact (inv_begin _ _ _ (ce_now_ms (clock now s)) (fun o => o) _ (inv_clock _ _ _ now s Hi)); set (s1 := x) in * end.
  clearbody s1. case_match; [by apply inv_fail|by apply inv_emit].
Qed.

Lemma inv_new_bytes L now bs (s : state) : inv L s ->
  (live s -> forall b t sas w, outstanding_kind s = Some (ShowSas sas false w) -> link_sas b = Ok sas -> ce_channel s = Transport t ->
     (tr_read t bs).1 = Some (push_u8 CTRL_CONFIRM ++ b) -> L b) ->
  inv L (new_peer_bytes now bs s).1.
Proof.
  intros Hi HL. apply inv_guarded; [done|]. intros Hl Hc. cbv beta. specialize (HL Hl).
  change (outstanding_kind s) with (outstanding_kind (clock now s)) in HL. change (ce_channel s) with (ce_channel (clock now s)) in HL.
  assert (live (clock now s)) as Hl0 by exact Hl. set (s0 := clock now s) in *. clearbody s0. clear Hi Hl s.
  destruct (expecting_spec _ _ _ _ Hc) as (He & Hf & _ & _ & Hk).
  destruct (expecting s0) as [s' k]. cbn [fst snd] in *. assert (live s') as Hl' by (unfold live; rewrite Hf; exact Hl0).
  destruct k as [[]|]; try by apply inv_stale.
  - apply inv_advance; [by apply inv_deadline|exact Hl'|exact Hk].
  - apply inv_advance; [by apply inv_deadline|exact Hl'|exact Hk].
  - destruct Hk as [-> Hk]. apply inv_read_verdict; [done..|]. intros b t Ht Hr (_ & (digits & Hs & Hd) & _).
    destruct (li_shown _ _ _ _ Hc _ _ _ Hk) as [-> ->]. rewrite Hs in Hk. eapply HL; [exact Hk|exact Hd|exact Ht|exact Hr].
Qed.

Lemma inv_new_call L c (s : state) : inv L s ->
  (forall now bs, c = CallBytes now bs -> forall b t sas w, outstanding_kind s = Some (ShowSas sas false w) -> link_sas b = Ok sas ->
     ce_channel s = Transport t -> (tr_read t bs).1 = Some (push_u8 CTRL_CONFIRM ++ b) -> L b) ->
  inv L (new_call c s).
Proof.
  intros Hi Hc. destruct c as [now|now|now bs|now|now|p|f]; cbn [new_call].
  - by apply inv_new_start.
  - by apply inv_resume_sent.
  - apply inv_new_bytes; [done|]. intros _. by eapply Hc.
  - by apply inv_tick.
  - by apply inv_cancel.
  - by apply inv_seal_on.
  - by apply inv_open_on.
Qed.

Lemma inv_new_run (s0 : state) cs : inv (fun _ => False) s0 -> inv (approved s0 cs) (new_run s0 cs).
Proof.
  intros H0. induction cs as [|c cs IH] using rev_ind; [eapply inv_mono; [|exact H0]; done|].
  unfold new_run. rewrite foldl_app. cbn [foldl]. fold (new_run s0 cs).
  apply inv_new_call.
  - eapply inv_mono; [|exact IH]. intros b (cs1 & now & f & cs2 & sas & w & t & -> & H). exists cs1, now, f, (cs2 ++ [c]), sas, w, t. by rewrite <-app_assoc.
  - intros now bs -> b t sas w Hk Hs Ht Hr. exists cs, now, bs, [], sas, w, t. done.
Qed.
End new_device.

(** C19: A new device reaches a ready channel only by opening, while its own screen showed the digits of its own
    channel, a frame sealed on that channel that says confirm and names that channel's handshake hash. *)
Theorem ready_means_approved lan relay now bud sk ent s0 cs m :
  new_device lan relay now bud sk ent = Ok s0 ->
  ce_finished (new_run s0 cs) = Some m -> su_outcome m = ChannelReady ->
  exists b digits, su_channel_binding m = Some b /\ su_sas m = Some digits /\ link_sas b = Ok digits
    /\ approved s0 cs b.
Proof.
  unfold new_device. cbv zeta. intros (q & _ & (h & _ & [= <-])%result_bind_ok)%result_bind_ok Hf Hm.
  match goal with H : ce_finished (new_run ?s _) = _ |- _ =>
    assert (link_inv NewDevice (ce_rendezvous s) (fun _ => False) s) as H0 by (by constructor);
    pose proof (inv_new_run _ s cs H0) as Hi end.
  destruct (li_ready _ _ _ _ Hi m Hf Hm) as (b & Hb & [(digits & Hs & Hd) _] & Hc). exists b, digits. done.
Qed.
End verdicts.

(** * Endings are final *)

Section endings.
Context `{C : Crypto} {N : Noise}.
Notation state := (Ceremony hs tr).

Lemma guarded_over now k (s : state) m : ce_finished s = Some m -> guarded now k s = (s, finished_action s m).
Proof. intros Hm. unfold guarded, guard. by rewrite Hm. Qed.

Lemma seal_channel p (s : state) : exists c, (seal p s).1 = s <| ce_channel := c |>.
Proof.
  assert (s <| ce_channel := ce_channel s |> = s) as Hs by by destruct s.
  unfold seal. case_match; [by eexists|]. destruct (ce_channel s) as [|t|]; [by eexists| |by eexists]. destruct (tr_write t p). by eexists.
Qed.

Lemma open_channel f (s : state) : exists c, (open f s).1 = s <| ce_channel := c |>.
Proof.
  assert (s <| ce_channel := ce_channel s |> = s) as Hs by by destruct s.
  unfold open. case_match; [by eexists|]. destruct (ce_channel s) as [|t|]; [by eexists| |by eexists]. destruct (tr_read t f). by eexists.
Qed.

Lemma seal_on_over p (s : state) m : ce_finished s = Some m ->
  (exists c, (seal_on p s).1 = s <| ce_channel := c |>) /\ (su_outcome m <> ChannelReady -> exists e, seal_on p s = (s, Err e)).
Proof.
  intros Hm. unfold seal_on, channel_ready. rewrite Hm. case_bool_decide as Ho.
  - split; [|done]. destruct (seal_channel p s) as [c Hc]. destruct (seal p s) as [s' f]. by exists c.
  - split; [exists (ce_channel s); by destruct s|]. intros _. by eexists.
Qed.

Lemma open_on_over f (s : state) m : ce_finished s = Some m ->
  (exists c, (open_on f s).1 = s <| ce_channel := c |>) /\ (su_outcome m <> ChannelReady -> exists e, open_on f s = (s, Err e)).
Proof.
  intros Hm. unfold open_on, channel_ready. rewrite Hm. case_bool_decide as Ho.
  - split; [|done]. destruct (open_channel f s) as [c Hc]. destruct (open f s) as [s' p]. by exists c.
  - split; [exists (ce_channel s); by destruct s|]. intros _. by eexists.
Qed.

Lemma same_channel (s : state) : exists c, s = s <| ce_channel := c |>.
Proof. exists (ce_channel s). by destruct s. Qed.

Lemma new_call_over c (s : state) m : ce_finished s = Some m ->
  (exists ch, new_call c s = s <| ce_channel := ch |>) /\ (su_outcome m <> ChannelReady -> new_call c s = s).
Proof.
  intros Hm. pose proof (same_channel s). destruct c as [now|now|now bs|now|now|p|f]; cbn [new_call].
  - unfold new_start. rewrite Hm. done.
  - unfold resume_sent. by rewrite (guarded_over _ _ _ _ Hm).
  - unfold new_peer_bytes. by rewrite (guarded_over _ _ _ _ Hm).
  - unfold tick. by rewrite (guarded_over _ _ _ _ Hm).
  - unfold cancel. by rewrite Hm.
  - destruct (seal_on_over p s m Hm) as [H1 H2]. split; [done|]. intros Ho. by destruct (H2 Ho) as [e ->].
  - destruct (open_on_over f s m Hm) as [H1 H2]. split; [done|]. intros Ho. by destruct (H2 Ho) as [e ->].
Qed.

Lemma approving_call_over c (s : state) m : ce_finished s = Some m ->
  (exists ch, approving_call c s = s <| ce_channel := ch |>) /\ (su_outcome m <> ChannelReady -> approving_call c s = s).
Proof.
  intros Hm. pose proof (same_channel s). destruct c as [[now|now|now bs|now|now|p|f]|now|now]; cbn [approving_call].
  - unfold approving_start. rewrite Hm. done.
  - unfold resume_sent. by rewrite (guarded_over _ _ _ _ Hm).
  - unfold approving_peer_bytes. by rewrite (guarded_over _ _ _ _ Hm).
  - unfold tick. by rewrite (guarded_over _ _ _ _ Hm).
  - unfold cancel. by rewrite Hm.
  - destruct (seal_on_over p s m Hm) as [H1 H2]. split; [done|]. intros Ho. by destruct (H2 Ho) as [e ->].
  - destruct (open_on_over f s m Hm) as [H1 H2]. split; [done|]. intros Ho. by destruct (H2 Ho) as [e ->].
  - unfold confirm, link_decide. by rewrite (guarded_over _ _ _ _ Hm).
  - unfold decline, link_decide. by rewrite (guarded_over _ _ _ _ Hm).
Qed.

Lemma run_over {X} (step : X -> state -> state) cs (s : state) m :
  (forall c (s : state), ce_finished s = Some m -> (exists ch, step c s = s <| ce_channel := ch |>) /\ (su_outcome m <> ChannelReady -> step c s = s)) ->
  ce_finished s = Some m ->
  let s' := foldl (fun s c => step c s) s cs in
  (exists ch, s' = s <| ce_channel := ch |>) /\ (su_outcome m <> ChannelReady -> s' = s).
Proof.
  intros Hstep. revert s. induction cs as [|c cs IH]; intros s Hm; [split; [apply same_channel|done]|].
  cbn [foldl]. destruct (Hstep c s Hm) as [[ch Hc] Ho]. assert (ce_finished (step c s) = Some m) as Hm' by by rewrite Hc.
  destruct (IH _ Hm') as [[ch' Hc'] Ho']. split.
  - exists ch'. cbv zeta in Hc'. rewrite Hc', Hc. done.
  - intros Hr. cbv zeta in Ho'. by rewrite Ho', Ho.
Qed.

(** An ending is final on both devices: whatever is called afterwards, the summary, the digits and the
    counters stay as they were, and a ceremony that did not end in a ready channel does not change at all and
    refuses to seal or open a frame. *)
Theorem ending_is_final (s : state) m : ce_finished s = Some m ->
  (forall cs, exists ch, new_run s cs = s <| ce_channel := ch |>)
  /\ (forall cs, exists ch, approving_run s cs = s <| ce_channel := ch |>)
  /\ (su_outcome m <> ChannelReady ->
        (forall cs, new_run s cs = s) /\ (forall cs, approving_run s cs = s)
        /\ (forall p, exists e, seal_on p s = (s, Err e)) /\ (forall f, exists e, open_on f s = (s, Err e))).
Proof.
  intros Hm. split_and!; [intros cs|intros cs|intros Ho; split_and!; intros x].
  - by apply (run_over new_call cs s m (fun c s => new_call_over c s m)).
  - by apply (run_over approving_call cs s m (fun c s => approving_call_over c s m)).
  - by apply (run_over new_call x s m (fun c s => new_call_over c s m)).
  - by apply (run_over approving_call x s m (fun c s => approving_call_over c s m)).
  - by apply (seal_on_over x s m).
  - by apply (open_on_over x s m).
Qed.

(** * The deadline *)

(** What decides when a ceremony must end. *)
Definition deadline_set (f d : Z) (s : state) : Prop :=
  ce_started s = true /\ ce_deadline_from_ms s = Some f /\ deadline_ms (ce_budgets s) = d.

(** [s'] is as far under way as [s]. *)
Definition clock_kept (s s' : state) : Prop :=
  ce_started s' = ce_started s /\ ce_deadline_from_ms s' = ce_deadline_from_ms s /\ ce_budgets s' = ce_budgets s.

Lemma kept_refl (s : state) : clock_kept s s.
Proof. done. Qed.

Lemma kept_trans (s1 s2 s3 : state) : clock_kept s1 s2 -> clock_kept s2 s3 -> clock_kept s1 s3.
Proof. intros (A1 & A2 & A3) (B1 & B2 & B3). split_and!; congruence. Qed.

Lemma kept_set f d (s s' : state) : clock_kept s s' -> deadline_set f d s -> deadline_set f d s'.
Proof. intros (A1 & A2 & A3) (B1 & B2 & B3). split_and!; congruence. Qed.

Lemma kept_emit ph k (s : state) : clock_kept s (emit ph k s).1.
Proof. unfold emit. by destruct (is_send k). Qed.

Lemma kept_finish o now (s : state) : clock_kept s (finish o now s).1.
Proof. unfold finish. destruct (ce_finished s); [done|]. cbv zeta. by destruct (decide _). Qed.

Lemma kept_stale (s : state) : clock_kept s (stale s).1.
Proof. done. Qed.

Lemma kept_write (s : state) : clock_kept s (write_handshake_message s).1.
Proof. unfold write_handshake_message. destruct (ce_channel s); [|done..]. by destruct (hs_write _). Qed.

Lemma kept_read m (s : state) : clock_kept s (read_handshake_message m s).1.
Proof. unfold read_handshake_message. destruct (ce_channel s); [|done..]. by destruct (hs_read _ _). Qed.

Lemma kept_finalize (s : state) : clock_kept s (finalize_channel s).1.
Proof. unfold finalize_channel. destruct (ce_channel s); [|done..]. by repeat case_match. Qed.

Lemma kept_channel c (s s' : state) : s' = s <| ce_channel := c |> -> clock_kept s s'.
Proof. by intros ->. Qed.

Lemma kept_expecting (s : state) : clock_kept s (expecting s).1.
Proof. unfold expecting. repeat case_match; done. Qed.

Ltac kept := first [apply kept_emit|apply kept_finish|apply kept_stale|apply kept_refl|done].
Lemma kept_answer now (s : state) : clock_kept s (answer_handshake now s).1.
Proof.
  unfold answer_handshake. destruct (handshake_finished s).
  - pose proof (kept_finalize s) as K. destruct (finalize_channel s) as [s' []]; (eapply kept_trans; [exact K|kept]).
  - pose proof (kept_write s) as K. destruct (write_handshake_message s) as [s' [m|]]; (eapply kept_trans; [exact K|]); [|kept].
    destruct (handshake_finished s'); [|kept]. pose proof (kept_finalize s') as K'.
    destruct (finalize_channel s') as [s2 []]; (eapply kept_trans; [exact K'|kept]).
Qed.

Lemma kept_advance m now (s : state) : clock_kept s (advance_handshake m now s).1.
Proof.
  unfold advance_handshake. case_match; [kept|]. cbv zeta.
  match goal with |- context [read_handshake_message m ?x] => pose proof (kept_read m x) as K; destruct (read_handshake_message m x) as [s' []] end;
    (eapply (kept_trans s _); [exact K|]); [|kept].
  case_match; [kept|apply kept_answer].
Qed.

Lemma kept_guarded now k (s : state) : (forall s0, clock_kept s0 (k s0).1) -> clock_kept s (guarded now k s).1.
Proof.
  intros Hk. unfold guarded, guard. destruct (ce_finished s); [kept|].
  destruct (past_deadline (clock now s)).
  - pose proof (kept_finish TimedOut (ce_now_ms (clock now s)) (clock now s)) as K. destruct (finish _ _ _). exact K.
  - destruct (offer_lapsed (clock now s)); [|exact (Hk (clock now s))].
    pose proof (kept_finish QrExpired (ce_now_ms (clock now s)) (clock now s)) as K. destruct (finish _ _ _). exact K.
Qed.

Lemma kept_resume_sent now (s : state) : clock_kept s (resume_sent now s).1.
Proof.
  apply kept_guarded. intros s0. case_match; [kept|]. cbv zeta.
  case_match; [|case_match]; (eapply (kept_trans s0); [|kept]); done.
Qed.

Lemma kept_tick now (s : state) : clock_kept s (tick now s).1.
Proof. by apply kept_guarded. Qed.

Lemma kept_cancel now (s : state) : clock_kept s (cancel now s).
Proof. unfold cancel. case_match; [kept|]. exact (kept_finish Cancelled _ (clock now s)). Qed.

Lemma kept_seal_on p (s : state) : clock_kept s (seal_on p s).1.
Proof. unfold seal_on. case_match; [|kept]. destruct (seal_channel p s) as [c Hc]. destruct (seal p s) as [s' o]. by eapply kept_channel. Qed.

Lemma kept_open_on f (s : state) : clock_kept s (open_on f s).1.
Proof. unfold open_on. case_match; [|kept]. destruct (open_channel f s) as [c Hc]. destruct (open f s) as [s' o]. by eapply kept_channel. Qed.

Lemma kept_approving_bytes now bs (s : state) : clock_kept s (approving_peer_bytes now bs s).1.
Proof.
  apply kept_guarded. intros s0. pose proof (kept_expecting s0) as K. destruct (expecting s0) as [s' k].
  eapply kept_trans; [exact K|]. destruct k as [[]|]; try kept. apply kept_advance.
Qed.

Lemma kept_decide now tag o (s : state) : clock_kept s (link_decide now tag o s).1.
Proof.
  apply kept_guarded. intros s0. case_match; [kept|].
  assert (clock_kept s0 (control_frame tag s0).1) as K.
  { unfold control_frame. repeat case_match; try kept;
      match goal with |- clock_kept _ (seal ?p _).1 => destruct (seal_channel p s0) as [c Hc]; by eapply kept_channel end. }
  destruct (control_frame tag s0) as [s' [f|]]; (eapply (kept_trans s0); [exact K|]); [|kept].
  eapply (kept_trans s'); [|kept]. done.
Qed.

Lemma approving_keeps_deadline f d c (s : state) : deadline_set f d s -> deadline_set f d (approving_call c s).
Proof.
  intros Hs. destruct c as [[now|now|now bs|now|now|p|fr]|now|now]; cbn [approving_call].
  - unfold approving_start. rewrite (proj1 Hs), orb_true_r. exact Hs.
  - eapply kept_set; [apply kept_resume_sent|exact Hs].
  - eapply kept_set; [apply kept_approving_bytes|exact Hs].
  - eapply kept_set; [apply kept_tick|exact Hs].
  - eapply kept_set; [apply kept_cancel|exact Hs].
  - eapply kept_set; [apply kept_seal_on|exact Hs].
  - eapply kept_set; [apply kept_open_on|exact Hs].
  - eapply kept_set; [apply kept_decide|exact Hs].
  - eapply kept_set; [apply kept_decide|exact Hs].
Qed.

Lemma new_bytes_keep_deadline f d now bs (s : state) : deadline_set f d s -> deadline_set f d (new_peer_bytes now bs s).1.
Proof.
  intros Hs.
  unfold new_peer_bytes, guarded. destruct (ce_finished s) as [m|] eqn:Hm; [unfold guard; by rewrite Hm|].
  assert (clock_kept s (guard now s).1) as Kg.
  { pose proof (kept_guarded now (fun s => (s, restate s)) s ltac:(intros; kept)) as K. unfold guarded in K. by destruct (guard now s) as [s' [a|]]. }
  destruct (guard now s) as [s1 [a|]]; [exact (kept_set f d _ _ Kg Hs)|]. apply (kept_set f d _ _ Kg) in Hs. clear Kg Hm s.
  pose proof (kept_set f d _ _ (kept_expecting s1) Hs) as He. destruct (expecting s1) as [s2 k]. cbn [fst] in He. clear Hs s1.
  assert (deadline_set f d (s2 <| ce_deadline_from_ms ::= fun o => Some (default (ce_now_ms s2) o) |>)) as Hd.
  { destruct He as (H1 & H2 & H3). split_and!; [exact H1| |exact H3]. cbn. change (Some (default (ce_now_ms s2) (ce_deadline_from_ms s2)) = Some f). by rewrite H2. }
  destruct k as [[]|]; try exact (kept_set f d _ _ (kept_stale s2) He); try exact (kept_set f d _ _ (kept_advance _ _ _) Hd).
  unfold read_verdict. cbv zeta. match goal with |- context [open bs ?x] => assert (deadline_set f d x) as Hx by exact He; destruct (open_channel bs x) as [c Hc]; destruct (open bs x) as [s' p] end.
  apply (kept_set f d _ _ (kept_channel c _ _ Hc)) in Hx. cbn [fst] in Hx.
  destruct p as [p|]; [|exact (kept_set f d _ _ (kept_finish _ _ _) Hx)].
  repeat case_match; exact (kept_set f d _ _ (kept_finish _ _ _) Hx).
Qed.

Lemma new_keeps_deadline f d c (s : state) : deadline_set f d s -> deadline_set f d (new_call c s).
Proof.
  intros Hs. destruct c as [now|now|now bs|now|now|p|fr]; cbn [new_call].
  - unfold new_start. rewrite (proj1 Hs), orb_true_r. exact Hs.
  - eapply kept_set; [apply kept_resume_sent|exact Hs].
  - by apply new_bytes_keep_deadline.
  - eapply kept_set; [apply kept_tick|exact Hs].
  - eapply kept_set; [apply kept_cancel|exact Hs].
  - eapply kept_set; [apply kept_seal_on|exact Hs].
  - eapply kept_set; [apply kept_open_on|exact Hs].
Qed.

(** The clock reading of a call that looks at it. *)
Definition reading (c : LinkCall) : option Z :=
  match c with CallSent t | CallBytes t _ | CallTick t => Some t | _ => None end.
Definition approving_reading (c : ApprovingCall) : option Z :=
  match c with Call c => reading c | Confirm t | Decline t => Some t end.

Lemma guarded_timeout f d t k (s : state) : deadline_set f d s -> d < I64_MAX -> d < t - f -> is_Some (ce_finished (guarded t k s).1).
Proof.
  intros (_ & Hf & Hd) HM Ht. unfold guarded, guard. destruct (ce_finished s) as [m|] eqn:Hm; [cbn; by rewrite Hm|].
  assert (past_deadline (clock t s) = true) as ->.
  { unfold past_deadline. change (ce_deadline_from_ms (clock t s)) with (ce_deadline_from_ms s). rewrite Hf.
    change (deadline_ms (ce_budgets (clock t s))) with (deadline_ms (ce_budgets s)). rewrite Hd. apply Z.ltb_lt.
    change (ce_now_ms (clock t s)) with (Z.max (ce_now_ms s) t). unfold i64_saturating_sub, sat_i64. repeat case_match; bools; unfold I64_MIN, I64_MAX in *; lia. }
  unfold finish. change (ce_finished (clock t s)) with (ce_finished s). rewrite Hm. done.
Qed.

Lemma timed_run {X} (step : X -> state -> state) (read : X -> option Z) f d t cs (s : state) :
  (forall c s m, ce_finished s = Some m -> (exists ch, step c s = s <| ce_channel := ch |>) /\ (su_outcome m <> ChannelReady -> step c s = s)) ->
  (forall c s, deadline_set f d s -> deadline_set f d (step c s)) ->
  (forall c s, read c = Some t -> deadline_set f d s -> is_Some (ce_finished (step c s))) ->
  deadline_set f d s -> (exists c, c ∈ cs /\ read c = Some t) -> is_Some (ce_finished (foldl (fun s c => step c s) s cs)).
Proof.
  intros Hover Hkeep Htime Hs (c & Hc & Hr). apply list_elem_of_split in Hc as (cs1 & cs2 & ->).
  rewrite foldl_app. cbn [foldl]. revert s Hs. induction cs1 as [|c1 cs1 IH]; intros s Hs; cbn [foldl]; [|by apply IH, Hkeep].
  destruct (Htime c s Hr Hs) as [m Hm]. destruct (run_over step cs2 _ m (fun c s => Hover c s m) Hm) as [[ch Hch] _].
  cbv zeta in Hch. rewrite Hch. by exists m.
Qed.

(** C25: On both devices a ceremony whose deadline runs from [f] is over once any call has read a time more than [d]
    past it, even if the calls before and after read earlier times; and an approving device's deadline runs from
    its start. *)
Theorem deadline_holds f d t : d < I64_MAX -> d < t - f ->
  (forall cs (s : state), deadline_set f d s -> (exists c, c ∈ cs /\ reading c = Some t) -> is_Some (ce_finished (new_run s cs)))
  /\ (forall cs (s : state), deadline_set f d s -> (exists c, c ∈ cs /\ approving_reading c = Some t) -> is_Some (ce_finished (approving_run s cs)))
  /\ (forall s : state, ce_finished s = None -> ce_started s = false -> ce_now_ms s <= f -> deadline_ms (ce_budgets s) = d ->
        deadline_set f d (approving_start f s).1).
Proof.
  intros HM Ht. split_and!.
  - intros cs s Hs Hc. eapply (timed_run new_call reading); [intros; by apply new_call_over|apply new_keeps_deadline| |exact Hs|exact Hc].
    intros c s0 Hr H0. destruct c; simplify_eq/=; unfold resume_sent, new_peer_bytes, tick; by eapply guarded_timeout.
  - intros cs s Hs Hc. eapply (timed_run approving_call approving_reading); [intros; by apply approving_call_over|apply approving_keeps_deadline| |exact Hs|exact Hc].
    intros c s0 Hr H0. destruct c as [[]| |]; simplify_eq/=; unfold resume_sent, approving_peer_bytes, tick, confirm, decline, link_decide; by eapply guarded_timeout.
  - intros s Hf Hs Hn Hd. unfold approving_start. rewrite Hf, Hs, bool_decide_eq_false_2 by (intros [? ?]; done). cbn [orb]. cbv zeta.
    match goal with |- context [ce_cap_refused ?x] => assert (deadline_set f d x) as Hx by
      (split_and!; [done| |exact Hd]; change (Some (Z.max (ce_now_ms s) f) = Some f); f_equal; lia); set (s1 := x) in * end. clearbody s1.
    case_match; [exact (kept_set f d _ _ (kept_finish _ _ _) Hx)|]. case_match; [exact (kept_set f d _ _ (kept_finish _ _ _) Hx)|].
    pose proof (kept_set f d _ _ (kept_write s1) Hx) as Hw. destruct (write_handshake_message s1) as [s2 [m|]];
      [exact (kept_set f d _ _ (kept_emit _ _ _) Hw)|exact (kept_set f d _ _ (kept_finish _ _ _) Hw)].
Qed.

(** The clamp does not shorten what a rewound clock adds: a ceremony within its deadline lives through any
    number of calls as long as the wall clock reads no later than [f + d], however long that takes. *)
Lemma rewound_clock_lives f d ts (s : state) : I64_MIN <= d -> deadline_set f d s -> ce_finished s = None ->
  outstanding_is is_show_qr s = false -> ce_now_ms s <= f + d -> Forall (fun t => t <= f + d) ts ->
  ce_finished (approving_run s ((fun t => Call (CallTick t)) <$> ts)) = None.
Proof.
  intros HM Hs Hf Ho Hn Hts. revert s Hs Hf Ho Hn. induction Hts as [|t ts Ht _ IH]; intros s Hs Hf Ho Hn; [done|].
  cbn [fmap list_fmap approving_run foldl approving_call]. fold (approving_run (tick t s).1 ((fun t => Call (CallTick t)) <$> ts)).
  assert (tick t s = (clock t s, restate (clock t s))) as ->.
  { unfold tick, guarded, guard. rewrite Hf. assert (past_deadline (clock t s) = false) as ->.
    { destruct Hs as (_ & Hd & Hb). unfold past_deadline. change (ce_deadline_from_ms (clock t s)) with (ce_deadline_from_ms s). rewrite Hd.
      change (deadline_ms (ce_budgets (clock t s))) with (deadline_ms (ce_budgets s)). rewrite Hb. apply Z.ltb_ge.
      change (ce_now_ms (clock t s)) with (Z.max (ce_now_ms s) t). unfold i64_saturating_sub, sat_i64. repeat case_match; bools; lia. }
    unfold offer_lapsed. change (outstanding_is is_show_qr (clock t s)) with (outstanding_is is_show_qr s). by rewrite Ho. }
  apply IH; [exact Hs|exact Hf|exact Ho|]. change (Z.max (ce_now_ms s) t <= f + d). lia.
Qed.
End endings.
