(* ===== verification/LinkExchange.v ===== *)
(** Two honest devices link: what [snow] promises of an undisturbed Noise XX exchange
    ([NoiseLaws]), and the proof that a new device and the device that scanned its code then
    both reach a ready channel, with the same handshake hash and the same digits, over which
    each opens what the other seals.  A computable stand-in for Noise runs the ceremony. *)
From stdpp Require Import base numbers list strings pretty.
From coqutil Require Import Datatypes.RecordSetters.
From S2P Require Import Prelude StdModel Wire Crypto Roster RelayPolicy RelayWire FriendCards LinkQr LinkCeremony LinkVerdicts.
Import TriangleBracketNotations.

(** * What Noise promises *)

(** The messages and states of an undisturbed exchange, initiator [i] and responder [r]. *)
Record xx_exchange `{N : Noise} (responder_pk : bytes) (i0 r0 : hs) : Type := mk_exchange {
  m1 : bytes; m2 : bytes; m3 : bytes;
  i1 : hs; i2 : hs; i3 : hs; r1 : hs; r2 : hs; r3 : hs;
  ti : tr; t_r : tr;
  x_write1 : hs_write i0 = (Some m1, i1);
  x_open1 : hs_finished i1 = false;
  x_read1 : hs_read r0 m1 = (true, r1);
  x_open2 : hs_finished r1 = false;
  x_write2 : hs_write r1 = (Some m2, r2);
  x_open3 : hs_finished r2 = false;
  x_read2 : hs_read i1 m2 = (true, i2);
  x_open4 : hs_finished i2 = false;
  x_remote : hs_remote i2 = Some responder_pk;
  x_write3 : hs_write i2 = (Some m3, i3);
  x_done1 : hs_finished i3 = true;
  x_read3 : hs_read r2 m3 = (true, r3);
  x_done2 : hs_finished r3 = true;
  x_hash : hs_hash i3 = hs_hash r3;
  x_hash_length : blen (hs_hash i3) = CHANNEL_BINDING_LEN;
  x_split1 : into_transport i3 = Some ti;
  x_split2 : into_transport r3 = Some t_r;
  x_sizes : Forall (fun m => m <> [] /\ blen m <= LINK_MAX_CEREMONY_MESSAGE_BYTES) [m1; m2; m3];
}.

(** How many frames a Noise nonce allows in one direction. *)
Definition NOISE_FRAMES : Z := 2 ^ 64 - 1.

Class NoiseLaws (N : Noise) : Type := {
  noise_static : NoiseStatic N;
  noise_public_length : forall sk, blen sk = LINK_PK_LEN -> blen (noise_public sk) = LINK_PK_LEN;
  build_ok : forall initiator prologue sk entropy, blen sk = LINK_PK_LEN -> is_Some (build initiator prologue sk entropy);
  (** Two transports that open each other's next [k] frames. *)
  paired : Z -> tr -> tr -> Prop;
  paired_sym : forall k t u, paired k t u -> paired k u t;
  paired_frame : forall k t u p, paired k t u -> 0 < k -> blen p <= 65535 - NOISE_TAG_SIZE ->
    exists f t' u', tr_write t p = (Some f, t') /\ tr_read u f = (Some p, u') /\ blen f = blen p + NOISE_TAG_SIZE /\ paired (k - 1) t' u';
  exchange : forall prologue sk_i e_i sk_r e_r i0 r0,
    build true prologue sk_i e_i = Some i0 -> build false prologue sk_r e_r = Some r0 ->
    { x : xx_exchange (noise_public sk_r) i0 r0 | paired NOISE_FRAMES (ti _ _ _ x) (t_r _ _ _ x) };
}.

(** * An undisturbed ceremony *)

Section honest.
Context `{C : Crypto} {B : Base64} {N : Noise}.
Notation state := (Ceremony hs tr).

(** The bytes an action asks to send. *)
Definition sent_bytes (a : CoreLinkAction) : option bytes := match la_kind a with SendBytes bs => Some bs | _ => None end.

(** The two shells carry every message across and the person taps confirm; [clk] reads the time of each call. *)
Definition link_devices (clk : nat -> Z) (n a : state) : option (state * state) :=
  let '(n, _) := new_start (clk 0%nat) n in
  let '(a, act) := approving_start (clk 1%nat) a in
  msg1 ← sent_bytes act;
  let '(a, _) := resume_sent (clk 2%nat) a in
  let '(n, act) := new_peer_bytes (clk 3%nat) msg1 n in
  msg2 ← sent_bytes act;
  let '(n, _) := resume_sent (clk 4%nat) n in
  let '(a, act) := approving_peer_bytes (clk 5%nat) msg2 a in
  msg3 ← sent_bytes act;
  let '(a, _) := resume_sent (clk 6%nat) a in
  let '(n, _) := new_peer_bytes (clk 7%nat) msg3 n in
  let '(a, act) := confirm (clk 8%nat) a in
  verdict ← sent_bytes act;
  let '(a, _) := resume_sent (clk 9%nat) a in
  let '(n, _) := new_peer_bytes (clk 10%nat) verdict n in
  Some (n, a).

Context (start T : Z).

(** A live ceremony that no clock reading up to [T] can end. *)
Record on_time (pending : option CoreLinkOutcome) (role : CoreLinkRole) (offer : LinkRendezvous) (ch : Channel hs tr) (out : option CoreLinkActionKind)
    (binding sas peer : option bytes) (s : state) : Prop := {
  ot_live : ce_finished s = None;
  ot_role : ce_role s = role;
  ot_offer : ce_rendezvous s = offer;
  ot_channel : ce_channel s = ch;
  ot_out : outstanding_kind s = out;
  ot_pending : ce_pending_terminal s = pending;
  ot_binding : ce_channel_binding s = binding;
  ot_sas : ce_sas s = sas;
  ot_peer : ce_peer_static_pk s = peer;
  ot_now : ce_now_ms s <= T;
  ot_expiry : T <= lr_expires_at_ms offer;
  ot_budget : I64_MIN <= deadline_ms (ce_budgets s);
  ot_deadline : forall f, ce_deadline_from_ms s = Some f -> T - f <= deadline_ms (ce_budgets s);
  ot_window : T - start <= deadline_ms (ce_budgets s);
}.

Lemma on_time_clock P role offer ch out b sas p now s : now <= T -> on_time P role offer ch out b sas p s -> on_time P role offer ch out b sas p (clock now s).
Proof.
  intros Hn [H1 H2 H3 H4 H5 H6 H7 H8 H9 Ha Hb Hc Hd]. constructor; try assumption.
  change (Z.max (ce_now_ms s) now <= T). lia.
Qed.

Lemma on_time_guard P role offer ch out b sas p now k s : now <= T -> on_time P role offer ch out b sas p s -> guarded now k s = k (clock now s).
Proof.
  intros Hn Hs. pose proof (on_time_clock _ _ _ _ _ _ _ _ now s Hn Hs) as [_ _ H3 _ _ _ _ _ _ Ha Hb Hc Hd].
  unfold guarded, guard. rewrite (ot_live _ _ _ _ _ _ _ _ _ Hs).
  assert (past_deadline (clock now s) = false) as ->.
  { unfold past_deadline. destruct (ce_deadline_from_ms (clock now s)) as [f|] eqn:E; [|done]. specialize (Hd f eq_refl).
    apply Z.ltb_ge. unfold i64_saturating_sub, sat_i64. repeat case_match; bools; lia. }
  assert (offer_lapsed (clock now s) = false) as ->; [|done].
  unfold offer_lapsed. rewrite H3. rewrite (proj2 (Z.ltb_ge _ _)) by lia. by rewrite andb_false_r.
Qed.

(** Every action of a live ceremony leaves a state of the same kind behind. *)
Lemma on_time_emit P role offer ch out b sas p ph k s : on_time P role offer ch out b sas p s ->
  on_time P role offer ch (Some k) b sas p (emit ph k s).1 /\ la_kind (emit ph k s).2 = k.
Proof. intros [H1 H2 H3 H4 H5 H6 H7 H8 H9 Ha Hb Hc Hd]. unfold emit. destruct (is_send k); (split; [constructor; done|done]). Qed.

Lemma on_time_idle P role offer ch out b sas p s : on_time P role offer ch out b sas p s -> on_time P role offer ch None b sas p (s <| ce_outstanding := None |>).
Proof. intros [H1 H2 H3 H4 H5 H6 H7 H8 H9 Ha Hb Hc Hd]. by constructor. Qed.

Lemma on_time_channel P role offer ch ch' out b sas p s : on_time P role offer ch out b sas p s -> on_time P role offer ch' out b sas p (s <| ce_channel := ch' |>).
Proof. intros [H1 H2 H3 H4 H5 H6 H7 H8 H9 Ha Hb Hc Hd]. by constructor. Qed.

Lemma on_time_received P role offer ch out b sas p s : on_time P role offer ch out b sas p s -> on_time P role offer ch out b sas p (s <| ce_messages_received ::= bump32 |>).
Proof. intros [H1 H2 H3 H4 H5 H6 H7 H8 H9 Ha Hb Hc Hd]. by constructor. Qed.

Lemma on_time_show role offer ch out b digits p s : on_time None role offer ch out b (Some digits) p s ->
  exists w, on_time None role offer ch (Some (ShowSas digits (bool_decide (role = ApprovingDevice)) w)) b (Some digits) p (show_sas s).1.
Proof.
  intros Hs. exists (ce_soft_cap_warning s). unfold show_sas. rewrite (ot_sas _ _ _ _ _ _ _ _ _ Hs), (ot_role _ _ _ _ _ _ _ _ _ Hs).
  by eapply on_time_emit.
Qed.

(** ** The steps *)

Lemma sent_waits role offer h bs s now : now <= T -> hs_finished h = false ->
  on_time None role offer (Handshake h) (Some (SendBytes bs)) None None None s ->
  exists w, on_time None role offer (Handshake h) (Some (AwaitPeer w)) None None None (resume_sent now s).1.
Proof.
  intros Hn Hh Hs. unfold resume_sent. rewrite (on_time_guard _ _ _ _ _ _ _ _ _ _ _ Hn Hs).
  apply (on_time_clock _ _ _ _ _ _ _ _ now) in Hs; [|done]. set (s0 := clock now s) in *. clearbody s0. clear s. rename s0 into s.
  unfold outstanding_is. rewrite (ot_out _ _ _ _ _ _ _ _ _ Hs). cbn [from_option is_send negb].
  pose proof (on_time_idle _ _ _ _ _ _ _ _ _ Hs) as Hi. cbv zeta. set (s1 := s <| ce_outstanding := None |>) in *. clearbody s1.
  rewrite (ot_pending _ _ _ _ _ _ _ _ _ Hi). unfold handshake_finished. rewrite (ot_channel _ _ _ _ _ _ _ _ _ Hi), Hh.
  eexists. by eapply on_time_emit.
Qed.

Lemma sent_shows role offer t bs b digits p s now : now <= T ->
  on_time None role offer (Transport t) (Some (SendBytes bs)) b (Some digits) p s ->
  exists w, on_time None role offer (Transport t) (Some (ShowSas digits (bool_decide (role = ApprovingDevice)) w)) b (Some digits) p (resume_sent now s).1.
Proof.
  intros Hn Hs. unfold resume_sent. rewrite (on_time_guard _ _ _ _ _ _ _ _ _ _ _ Hn Hs).
  apply (on_time_clock _ _ _ _ _ _ _ _ now) in Hs; [|done]. set (s0 := clock now s) in *. clearbody s0. clear s. rename s0 into s.
  unfold outstanding_is. rewrite (ot_out _ _ _ _ _ _ _ _ _ Hs). cbn [from_option is_send negb].
  pose proof (on_time_idle _ _ _ _ _ _ _ _ _ Hs) as Hi. cbv zeta. set (s1 := s <| ce_outstanding := None |>) in *. clearbody s1.
  rewrite (ot_pending _ _ _ _ _ _ _ _ _ Hi). unfold handshake_finished. rewrite (ot_channel _ _ _ _ _ _ _ _ _ Hi). by eapply on_time_show.
Qed.

(** A message that is read: what [advance_handshake] goes on with. *)
Lemma advance_reads role offer h h' m out s now : m <> [] -> blen m <= LINK_MAX_CEREMONY_MESSAGE_BYTES -> hs_read h m = (true, h') ->
  (role = ApprovingDevice -> hs_remote h' = Some (lr_link_pk offer)) ->
  on_time None role offer (Handshake h) out None None None s ->
  exists s', advance_handshake m now s = answer_handshake now s' /\ on_time None role offer (Handshake h') out None None None s'.
Proof.
  intros Hm Hl Hr Hk Hs. unfold advance_handshake. rewrite bool_decide_eq_false_2, (proj2 (Z.ltb_ge _ _)) by done. cbn [orb]. cbv zeta.
  apply on_time_received in Hs. set (s0 := s <| ce_messages_received ::= bump32 |>) in *. clearbody s0.
  unfold read_handshake_message. rewrite (ot_channel _ _ _ _ _ _ _ _ _ Hs), Hr.
  apply (on_time_channel _ _ _ _ (Handshake h')) in Hs. set (s1 := s0 <| ce_channel := Handshake h' |>) in *. clearbody s1.
  exists s1. split; [|exact Hs]. unfold stranger, remote_static.
  rewrite (ot_role _ _ _ _ _ _ _ _ _ Hs), (ot_offer _ _ _ _ _ _ _ _ _ Hs), (ot_channel _ _ _ _ _ _ _ _ _ Hs).
  destruct (decide (role = ApprovingDevice)) as [Hd|Hd]; [rewrite Hk, (bool_decide_eq_false_2 (Some _ <> Some _)) by (done || (intros H; by apply H)); by rewrite andb_false_r|].
  by rewrite (bool_decide_eq_false_2 (role = ApprovingDevice)).
Qed.

Lemma answer_replies role offer h h' m out s now : hs_finished h = false -> hs_write h = (Some m, h') -> hs_finished h' = false ->
  on_time None role offer (Handshake h) out None None None s ->
  on_time None role offer (Handshake h') (Some (SendBytes m)) None None None (answer_handshake now s).1
  /\ la_kind (answer_handshake now s).2 = SendBytes m.
Proof.
  intros Hf Hw Hf' Hs. unfold answer_handshake, handshake_finished, write_handshake_message. rewrite (ot_channel _ _ _ _ _ _ _ _ _ Hs), Hf, Hw.
  cbv iota beta zeta. apply (on_time_channel _ _ _ _ (Handshake h')) in Hs.
  rewrite (ot_channel _ _ _ _ _ _ _ _ _ Hs), Hf'. by eapply on_time_emit.
Qed.

Lemma finalizes role offer h out d t s : link_sas (hs_hash h) = Ok d -> into_transport h = Some t ->
  on_time None role offer (Handshake h) out None None None s ->
  exists s', finalize_channel s = (s', true) /\ on_time None role offer (Transport t) out (Some (hs_hash h)) (Some d) (hs_remote h) s'.
Proof.
  intros Hd Ht Hs. unfold finalize_channel. rewrite (ot_channel _ _ _ _ _ _ _ _ _ Hs), Hd, Ht. eexists. split; [reflexivity|].
  destruct Hs as [H1 H2 H3 H4 H5 H6 H7 H8 H9 Ha Hb Hc He]. by constructor.
Qed.

Lemma answer_completes role offer h h' m out d t s now : hs_finished h = false -> hs_write h = (Some m, h') -> hs_finished h' = true ->
  link_sas (hs_hash h') = Ok d -> into_transport h' = Some t ->
  on_time None role offer (Handshake h) out None None None s ->
  on_time None role offer (Transport t) (Some (SendBytes m)) (Some (hs_hash h')) (Some d) (hs_remote h') (answer_handshake now s).1
  /\ la_kind (answer_handshake now s).2 = SendBytes m.
Proof.
  intros Hf Hw Hf' Hd Ht Hs. unfold answer_handshake, handshake_finished, write_handshake_message. rewrite (ot_channel _ _ _ _ _ _ _ _ _ Hs), Hf, Hw.
  cbv iota beta zeta. apply (on_time_channel _ _ _ _ (Handshake h')) in Hs.
  destruct (finalizes _ _ _ _ _ _ _ Hd Ht Hs) as (s' & Hfin & Hs'). rewrite (ot_channel _ _ _ _ _ _ _ _ _ Hs), Hf', Hfin. by eapply on_time_emit.
Qed.

Lemma answer_shows role offer h out d t s now : hs_finished h = true ->
  link_sas (hs_hash h) = Ok d -> into_transport h = Some t ->
  on_time None role offer (Handshake h) out None None None s ->
  exists w, on_time None role offer (Transport t) (Some (ShowSas d (bool_decide (role = ApprovingDevice)) w)) (Some (hs_hash h)) (Some d) (hs_remote h)
    (answer_handshake now s).1.
Proof.
  intros Hf Hd Ht Hs. unfold answer_handshake, handshake_finished. destruct (finalizes _ _ _ _ _ _ _ Hd Ht Hs) as (s' & Hfin & Hs').
  rewrite (ot_channel _ _ _ _ _ _ _ _ _ Hs), Hf, Hfin. by eapply on_time_show.
Qed.

(** Bytes for the approving device while it waits, for the new device while it waits or shows its code. *)
Lemma approving_listens offer ch w b sas p bs s now : now <= T ->
  on_time None ApprovingDevice offer ch (Some (AwaitPeer w)) b sas p s ->
  exists s', approving_peer_bytes now bs s = advance_handshake bs (ce_now_ms s') s' /\ on_time None ApprovingDevice offer ch (Some (AwaitPeer w)) b sas p s'.
Proof.
  intros Hn Hs. unfold approving_peer_bytes. rewrite (on_time_guard _ _ _ _ _ _ _ _ _ _ _ Hn Hs).
  apply (on_time_clock _ _ _ _ _ _ _ _ now) in Hs; [|done]. exists (clock now s). unfold expecting. rewrite (ot_out _ _ _ _ _ _ _ _ _ Hs). done.
Qed.

Lemma new_listens offer ch k b sas p bs s now : start <= now <= T ->
  (exists q, k = ShowQr q) \/ (exists w, k = AwaitPeer w) ->
  on_time None NewDevice offer ch (Some k) b sas p s ->
  exists s' now', new_peer_bytes now bs s = advance_handshake bs now' s' /\ on_time None NewDevice offer ch (Some k) b sas p s'.
Proof.
  intros [Hlo Hn] Hk Hs. unfold new_peer_bytes. rewrite (on_time_guard _ _ _ _ _ _ _ _ _ _ _ Hn Hs).
  apply (on_time_clock _ _ _ _ _ _ _ _ now) in Hs; [|done]. unfold expecting. rewrite (ot_out _ _ _ _ _ _ _ _ _ Hs).
  exists (clock now s <| ce_deadline_from_ms ::= fun o => Some (default (ce_now_ms (clock now s)) o) |>), (ce_now_ms (clock now s)).
  split; [by destruct Hk as [[? ->]|[? ->]]|]. destruct Hs as [H1 H2 H3 H4 H5 H6 H7 H8 H9 Ha Hb Hc He Hw]. constructor; try assumption.
  intros f. change (Some (default (ce_now_ms (clock now s)) (ce_deadline_from_ms s)) = Some f -> T - f <= deadline_ms (ce_budgets s)).
  intros [= <-]. destruct (ce_deadline_from_ms s) as [f|] eqn:E; cbn [default]; [by apply He|].
  change (T - Z.max (ce_now_ms s) now <= deadline_ms (ce_budgets s)). change (T - start <= deadline_ms (ce_budgets s)) in Hw. lia.
Qed.

(** ** The verdict *)

Lemma confirm_sends offer t t' f b sas p d c w s now : now <= T -> blen b = CHANNEL_BINDING_LEN ->
  tr_write t (push_u8 CTRL_CONFIRM ++ b) = (Some f, t') ->
  on_time None ApprovingDevice offer (Transport t) (Some (ShowSas d c w)) (Some b) sas p s ->
  on_time (Some ChannelReady) ApprovingDevice offer (Transport t') (Some (SendBytes f)) (Some b) sas p (confirm now s).1
  /\ la_kind (confirm now s).2 = SendBytes f.
Proof.
  intros Hn Hb Hw Hs. unfold confirm, link_decide. rewrite (on_time_guard _ _ _ _ _ _ _ _ _ _ _ Hn Hs).
  apply (on_time_clock _ _ _ _ _ _ _ _ now) in Hs; [|done]. set (s0 := clock now s) in *. clearbody s0. clear s. rename s0 into s.
  unfold outstanding_is. rewrite (ot_out _ _ _ _ _ _ _ _ _ Hs). cbn [from_option is_show_sas negb].
  unfold control_frame. rewrite Z.eqb_refl, (ot_binding _ _ _ _ _ _ _ _ _ Hs). unfold seal.
  assert ((LINK_CHANNEL_MAX_PLAINTEXT_BYTES <? blen (push_u8 CTRL_CONFIRM ++ b)) = false) as ->
    by (rewrite blen_app, push_u8_eq, Hb; reflexivity).
  rewrite (ot_channel _ _ _ _ _ _ _ _ _ Hs), Hw. apply (on_time_channel _ _ _ _ (Transport t')) in Hs.
  set (s1 := s <| ce_channel := Transport t' |>) in *. clearbody s1. eapply on_time_emit.
  destruct Hs as [H1 H2 H3 H4 H5 H6 H7 H8 H9 Ha Hc Hd He]. by constructor.
Qed.

(** The ending both devices should reach. *)
Definition ready_with (b digits : bytes) (t : tr) (peer : option bytes) (s : state) : Prop :=
  exists m, ce_finished s = Some m /\ su_outcome m = ChannelReady /\ su_channel_binding m = Some b /\ su_sas m = Some digits
    /\ su_peer_static_pk m = peer /\ ce_channel s = Transport t.

Lemma finish_ready P role offer t out b d p now s : on_time P role offer (Transport t) out (Some b) (Some d) p s ->
  ready_with b d t p (finish ChannelReady now s).1.
Proof.
  intros [H1 H2 H3 H4 H5 H6 H7 H8 H9 Ha Hb Hc Hd]. unfold finish. rewrite H1. cbv zeta.
  exists (snapshot ChannelReady now s). split_and!; try done. 
Qed.

Lemma sent_settles role offer t bs b d p s now : now <= T ->
  on_time (Some ChannelReady) role offer (Transport t) (Some (SendBytes bs)) (Some b) (Some d) p s ->
  ready_with b d t p (resume_sent now s).1.
Proof.
  intros Hn Hs. unfold resume_sent. rewrite (on_time_guard _ _ _ _ _ _ _ _ _ _ _ Hn Hs).
  apply (on_time_clock _ _ _ _ _ _ _ _ now) in Hs; [|done]. set (s0 := clock now s) in *. clearbody s0. clear s. rename s0 into s.
  unfold outstanding_is. rewrite (ot_out _ _ _ _ _ _ _ _ _ Hs). cbn [from_option is_send negb].
  pose proof (on_time_idle _ _ _ _ _ _ _ _ _ Hs) as Hi. cbv zeta. set (s1 := s <| ce_outstanding := None |>) in *. clearbody s1.
  rewrite (ot_pending _ _ _ _ _ _ _ _ _ Hi). eapply (finish_ready None).
  destruct Hi as [H1 H2 H3 H4 H5 H6 H7 H8 H9 Ha Hc Hd He]. by constructor.
Qed.

Lemma verdict_settles offer t t' f b d p sas c w s now : now <= T -> blen b = CHANNEL_BINDING_LEN ->
  blen f <= LINK_CHANNEL_MAX_PLAINTEXT_BYTES + NOISE_TAG_SIZE ->
  tr_read t f = (Some (push_u8 CTRL_CONFIRM ++ b), t') ->
  on_time None NewDevice offer (Transport t) (Some (ShowSas sas c w)) (Some b) (Some d) p s ->
  ready_with b d t' p (new_peer_bytes now f s).1.
Proof.
  intros Hn Hb Hl Hr Hs. unfold new_peer_bytes. rewrite (on_time_guard _ _ _ _ _ _ _ _ _ _ _ Hn Hs).
  apply (on_time_clock _ _ _ _ _ _ _ _ now) in Hs; [|done]. set (s0 := clock now s) in *. clearbody s0. clear s. rename s0 into s.
  unfold expecting. rewrite (ot_out _ _ _ _ _ _ _ _ _ Hs). cbn [is_send]. unfold read_verdict. cbv zeta.
  apply on_time_received in Hs. set (s0 := s <| ce_messages_received ::= bump32 |>) in *. clearbody s0. clear s. rename s0 into s.
  unfold open. rewrite (proj2 (Z.ltb_ge _ _)) by done. rewrite (ot_channel _ _ _ _ _ _ _ _ _ Hs), Hr.
  apply (on_time_channel _ _ _ _ (Transport t')) in Hs. set (s1 := s <| ce_channel := Transport t' |>) in *. clearbody s1.
  assert (is_confirm s1 (push_u8 CTRL_CONFIRM ++ b) = true) as ->.
  { unfold is_confirm. rewrite push_u8_eq. cbn [app]. rewrite blen_cons, Hb, (ot_binding _ _ _ _ _ _ _ _ _ Hs), bool_decide_eq_true_2 by done. done. }
  eapply (finish_ready None). apply (on_time_idle _ _ _ _ _ _ _ _ _ Hs).
Qed.

(** Ready devices whose transports are paired open each other's frames. *)
Lemma frames_cross (NL : NoiseLaws N) b d t u p1 p2 (s1 s2 : state) plaintext k : 0 < k -> paired k t u -> blen plaintext <= LINK_CHANNEL_MAX_PLAINTEXT_BYTES ->
  ready_with b d t p1 s1 -> ready_with b d u p2 s2 ->
  exists f, (seal_on plaintext s1).2 = Ok f /\ (open_on f s2).2 = Ok plaintext.
Proof.
  intros Hk Hp Hl (x & Hx & Ox & _ & _ & _ & Cx) (y & Hy & Oy & _ & _ & _ & Cy).
  destruct (paired_frame k t u plaintext Hp Hk) as (f & t' & u' & Hw & Hr & Hf & _); [unfold LINK_CHANNEL_MAX_PLAINTEXT_BYTES, NOISE_TAG_SIZE in *; lia|].
  exists f. unfold seal_on, open_on, channel_ready, seal, open. rewrite Hx, Hy, Ox, Oy, Cx, Cy, !bool_decide_eq_true_2 by done.
  rewrite !(proj2 (Z.ltb_ge _ _)) by lia. by rewrite Hw, Hr.
Qed.

(** ** The starts *)

Lemma new_starts offer ch s now : now <= T -> ce_started s = false ->
  on_time None NewDevice offer ch None None None None s ->
  exists q, on_time None NewDevice offer ch (Some (ShowQr q)) None None None (new_start now s).1.
Proof.
  intros Hn Hst Hs. unfold new_start. rewrite (ot_live _ _ _ _ _ _ _ _ _ Hs), Hst, bool_decide_eq_false_2 by (intros [? ?]; done). cbn [orb]. cbv zeta.
  apply (on_time_clock _ _ _ _ _ _ _ _ now) in Hs; [|done].
  match goal with |- context [ce_qr_text ?x] => assert (on_time None NewDevice offer ch None None None None x) as Hx
    by (destruct Hs as [H1 H2 H3 H4 H5 H6 H7 H8 H9 Ha Hc Hd He]; by constructor); set (s1 := x) in * end. clearbody s1.
  rewrite (ot_offer _ _ _ _ _ _ _ _ _ Hx), (proj2 (Z.ltb_ge _ _)) by (pose proof (ot_now _ _ _ _ _ _ _ _ _ Hx); pose proof (ot_expiry _ _ _ _ _ _ _ _ _ Hx); lia).
  eexists. by eapply on_time_emit.
Qed.

Lemma approving_starts offer h h' m s now : start <= now <= T -> ce_started s = false -> ce_cap_refused s = false -> hs_write h = (Some m, h') ->
  on_time None ApprovingDevice offer (Handshake h) None None None None s ->
  on_time None ApprovingDevice offer (Handshake h') (Some (SendBytes m)) None None None (approving_start now s).1
  /\ la_kind (approving_start now s).2 = SendBytes m.
Proof.
  intros [Hlo Hn] Hst Hcap Hw Hs. unfold approving_start. rewrite (ot_live _ _ _ _ _ _ _ _ _ Hs), Hst, bool_decide_eq_false_2 by (intros [? ?]; done). cbn [orb]. cbv zeta.
  apply (on_time_clock _ _ _ _ _ _ _ _ now) in Hs; [|done].
  match goal with |- context [ce_cap_refused ?x] => assert (on_time None ApprovingDevice offer (Handshake h) None None None None x) as Hx;
    [|assert (ce_cap_refused x = false) as Hc by exact Hcap; set (s1 := x) in *] end.
  { destruct Hs as [H1 H2 H3 H4 H5 H6 H7 H8 H9 Ha Hc Hd He Hwin]. constructor; try done.
    intros f. change (Some (Z.max (ce_now_ms s) now) = Some f -> T - f <= deadline_ms (ce_budgets s)). intros [= <-].
    change (T - start <= deadline_ms (ce_budgets s)) in Hwin. lia. }
  clearbody s1. rewrite Hc.
  rewrite (ot_offer _ _ _ _ _ _ _ _ _ Hx), (proj2 (Z.ltb_ge _ _)) by (pose proof (ot_now _ _ _ _ _ _ _ _ _ Hx); pose proof (ot_expiry _ _ _ _ _ _ _ _ _ Hx); lia).
  unfold write_handshake_message. rewrite (ot_channel _ _ _ _ _ _ _ _ _ Hx), Hw. by eapply on_time_emit, on_time_channel.
Qed.

(** ** Each device's turn *)

Definition fits (m : bytes) : Prop := m <> [] /\ blen m <= LINK_MAX_CEREMONY_MESSAGE_BYTES.

Lemma new_replies offer r0 r1 r2 m m' k s now : start <= now <= T -> (exists q, k = ShowQr q) \/ (exists w, k = AwaitPeer w) ->
  fits m -> hs_read r0 m = (true, r1) -> hs_finished r1 = false -> hs_write r1 = (Some m', r2) -> hs_finished r2 = false ->
  on_time None NewDevice offer (Handshake r0) (Some k) None None None s ->
  on_time None NewDevice offer (Handshake r2) (Some (SendBytes m')) None None None (new_peer_bytes now m s).1
  /\ sent_bytes (new_peer_bytes now m s).2 = Some m'.
Proof.
  intros Hn Hk [Hm Hl] Hr Ho Hw Ho' Hs. destruct (new_listens _ _ _ _ _ _ m _ _ Hn Hk Hs) as (s1 & t & -> & H1).
  destruct (advance_reads _ _ _ _ _ _ _ t Hm Hl Hr (fun H : NewDevice = ApprovingDevice => ltac:(discriminate H)) H1) as (s2 & -> & H2).
  unfold sent_bytes. destruct (answer_replies _ _ _ _ _ _ _ t Ho Hw Ho' H2) as [H3 ->]. done.
Qed.

Lemma approving_completes offer i1 i2 i3 m m' d t w s now : now <= T ->
  fits m -> hs_read i1 m = (true, i2) -> hs_remote i2 = Some (lr_link_pk offer) -> hs_finished i2 = false ->
  hs_write i2 = (Some m', i3) -> hs_finished i3 = true -> link_sas (hs_hash i3) = Ok d -> into_transport i3 = Some t ->
  on_time None ApprovingDevice offer (Handshake i1) (Some (AwaitPeer w)) None None None s ->
  on_time None ApprovingDevice offer (Transport t) (Some (SendBytes m')) (Some (hs_hash i3)) (Some d) (hs_remote i3) (approving_peer_bytes now m s).1
  /\ sent_bytes (approving_peer_bytes now m s).2 = Some m'.
Proof.
  intros Hn [Hm Hl] Hr Hk Ho Hw Ho' Hd Ht Hs. destruct (approving_listens _ _ _ _ _ _ m _ _ Hn Hs) as (s1 & -> & H1).
  destruct (advance_reads _ _ _ _ _ _ _ (ce_now_ms s1) Hm Hl Hr (fun _ => Hk) H1) as (s2 & -> & H2).
  unfold sent_bytes. destruct (answer_completes _ _ _ _ _ _ _ _ _ (ce_now_ms s1) Ho Hw Ho' Hd Ht H2) as [H3 ->]. done.
Qed.

Lemma new_shows offer r2 r3 m d t w s now : start <= now <= T ->
  fits m -> hs_read r2 m = (true, r3) -> hs_finished r3 = true -> link_sas (hs_hash r3) = Ok d -> into_transport r3 = Some t ->
  on_time None NewDevice offer (Handshake r2) (Some (AwaitPeer w)) None None None s ->
  exists c w', on_time None NewDevice offer (Transport t) (Some (ShowSas d c w')) (Some (hs_hash r3)) (Some d) (hs_remote r3) (new_peer_bytes now m s).1.
Proof.
  intros Hn [Hm Hl] Hr Ho Hd Ht Hs. destruct (new_listens _ _ (AwaitPeer w) _ _ _ m _ _ Hn ltac:(right; by eexists) Hs) as (s1 & t1 & -> & H1).
  destruct (advance_reads _ _ _ _ _ _ _ t1 Hm Hl Hr (fun H : NewDevice = ApprovingDevice => ltac:(discriminate H)) H1) as (s2 & -> & H2).
  destruct (answer_shows _ _ _ _ _ _ _ t1 Ho Hd Ht H2) as [w' H3]. by eexists _, w'.
Qed.

(** ** The whole ceremony *)

Lemma sent_is act bs : la_kind act = SendBytes bs -> sent_bytes act = Some bs.
Proof. unfold sent_bytes. by intros ->. Qed.

Lemma exchange_completes (NL : NoiseLaws N) {CL : CryptoLaws C} clk offer i0 r0 (n0 a0 : state) (x : xx_exchange (lr_link_pk offer) i0 r0) :
  (forall i, start <= clk i <= T) ->
  ce_started n0 = false -> ce_started a0 = false -> ce_cap_refused a0 = false ->
  on_time None NewDevice offer (Handshake r0) None None None None n0 ->
  on_time None ApprovingDevice offer (Handshake i0) None None None None a0 ->
  paired NOISE_FRAMES (ti _ _ _ x) (t_r _ _ _ x) ->
  exists n a b digits tn ta peer, link_devices clk n0 a0 = Some (n, a)
    /\ link_sas b = Ok digits /\ paired (NOISE_FRAMES - 1) ta tn
    /\ ready_with b digits tn peer n /\ ready_with b digits ta (Some (lr_link_pk offer)) a.
Proof.
  intros Hclk Hsn Hsa Hcap Hn Ha Hp. destruct x as [m1 m2 m3 i1 i2 i3 r1 r2 r3 ti tn W1 O1 R1 O2 W2 O3 R2 O4 RM W3 D1 R3 D2 HH HL S1 S2 SZ]. cbn in Hp.
  rewrite !Forall_cons in SZ. destruct SZ as (F1 & F2 & F3 & _).
  assert (exists d, link_sas (hs_hash i3) = Ok d) as [d Hd] by (unfold link_sas; rewrite HL, Z.eqb_refl; by eexists).
  assert (link_sas (hs_hash r3) = Ok d) as Hd' by by rewrite <-HH.
  assert (hs_remote i3 = Some (lr_link_pk offer)) as RM' by (rewrite <-RM; pose proof (remote_of_write (NoiseStatic := noise_static) i2) as H; by rewrite W3 in H).
  assert (forall i, clk i <= T) as HT by apply Hclk.
  assert (blen (push_u8 CTRL_CONFIRM ++ hs_hash i3) = 33) as L33 by (rewrite blen_app, push_u8_eq, HL; reflexivity).
  destruct (paired_frame NOISE_FRAMES ti tn (push_u8 CTRL_CONFIRM ++ hs_hash i3) Hp eq_refl) as (f & ta' & tn' & Wf & Rf & Lf & Hp'); [rewrite L33; vm_compute; discriminate|].
  assert (blen f <= LINK_CHANNEL_MAX_PLAINTEXT_BYTES + NOISE_TAG_SIZE) as Lf' by (rewrite Lf, L33; vm_compute; discriminate).
  destruct (new_starts _ _ _ _ (HT 0%nat) Hsn Hn) as [q Hn1].
  destruct (approving_starts _ _ _ _ _ _ (Hclk 1%nat) Hsa Hcap W1 Ha) as [Ha1 K1%sent_is].
  destruct (sent_waits _ _ _ _ _ _ (HT 2%nat) O1 Ha1) as [w2 Ha2].
  destruct (new_replies _ _ _ _ _ _ _ _ _ (Hclk 3%nat) ltac:(left; by eexists) F1 R1 O2 W2 O3 Hn1) as [Hn2 K2].
  destruct (sent_waits _ _ _ _ _ _ (HT 4%nat) O3 Hn2) as [w4 Hn3].
  destruct (approving_completes _ _ _ _ _ _ _ _ _ _ _ (HT 5%nat) F2 R2 RM O4 W3 D1 Hd S1 Ha2) as [Ha3 K3].
  destruct (sent_shows _ _ _ _ _ _ _ _ _ (HT 6%nat) Ha3) as [w6 Ha4].
  destruct (new_shows _ _ _ _ _ _ _ _ _ (Hclk 7%nat) F3 R3 D2 Hd' S2 Hn3) as (c7 & w7 & Hn4).
  destruct (confirm_sends _ _ _ _ _ _ _ _ _ _ _ _ (HT 8%nat) HL Wf Ha4) as [Ha5 K8%sent_is].
  pose proof (sent_settles _ _ _ _ _ _ _ _ _ (HT 9%nat) Ha5) as Ra.
  rewrite HH in HL, Rf. pose proof (verdict_settles _ _ _ _ _ _ _ _ _ _ _ _ (HT 10%nat) HL Lf' Rf Hn4) as Rn.
  rewrite RM', HH in Ra. do 2 eexists. exists (hs_hash r3), d, tn', ta', (hs_remote r3).
  split; [|split_and!; [exact Hd'|exact Hp'|exact Rn|exact Ra]].
  unfold link_devices.
  destruct (new_start _ n0) as [n1 ?]. destruct (approving_start _ a0) as [a1 act1]. cbn [fst snd] in *. rewrite K1. cbn [mbind option_bind].
  destruct (resume_sent _ a1) as [a2 ?]. cbn [fst snd] in *. destruct (new_peer_bytes _ m1 n1) as [n2 act2]. cbn [fst snd] in *. rewrite K2. cbn [mbind option_bind].
  destruct (resume_sent _ n2) as [n3 ?]. cbn [fst snd] in *. destruct (approving_peer_bytes _ m2 a2) as [a3 act3]. cbn [fst snd] in *. rewrite K3. cbn [mbind option_bind].
  destruct (resume_sent _ a3) as [a4 ?]. cbn [fst snd] in *. destruct (new_peer_bytes _ m3 n3) as [n4 ?]. cbn [fst snd] in *.
  destruct (confirm _ a4) as [a5 act8]. cbn [fst snd] in *. rewrite K8. cbn [mbind option_bind].
  destruct (resume_sent _ a5) as [a6 ?]. destruct (new_peer_bytes _ f n4) as [n5 ?]. reflexivity.
Qed.
End honest.

Section completion.
Context `{C : Crypto} {CL : CryptoLaws C} `{B : Base64} {BL : Base64Laws B} {N : Noise} (NL : NoiseLaws N).
Notation state := (Ceremony hs tr).

Lemma saturated_i64 z : in_i64 (sat_i64 z).
Proof. unfold sat_i64. unfold_ints. repeat case_match; bools; lia. Qed.

Lemma fresh_on_time start T role bud offer q h : 0 <= T -> T <= lr_expires_at_ms offer -> 0 <= T - start <= deadline_ms bud ->
  on_time start T None role offer (Handshake h) None None None None (ceremony_new role bud offer q h).
Proof. intros. constructor; cbn; try done; unfold I64_MIN; lia. Qed.

Lemma scanned_on_time start T bud offer h (o : DeviceAddOutcome) : 0 <= T -> T <= lr_expires_at_ms offer -> 0 <= T - start <= deadline_ms bud -> o <> Roster.Refused ->
  let s0 := ceremony_new ApprovingDevice bud offer [] h in
  let s := match o with Added => s0 | AddedWithWarning => s0 <| ce_soft_cap_warning := true |> | Roster.Refused => s0 <| ce_cap_refused := true |> end in
  on_time start T None ApprovingDevice offer (Handshake h) None None None None s /\ ce_started s = false /\ ce_cap_refused s = false.
Proof. intros H1 H2 H3 Ho. destruct o; [..|done]; (split; [constructor; cbn; try done; unfold I64_MIN; lia|done]). Qed.

Context (lan relay : list bytes) (t0 : Z) (bud bud' : option LinkBudgets) (sk ent esk eent : bytes) (n0 : state) (count start T : Z) (clk : nat -> Z).

(** C12: Two honest devices link. The new device shows its code, the other scans it within the device cap, every
    message is carried across before the deadline and the offer's expiry, and the person confirms: then both
    ceremonies end with a ready channel, under the same handshake hash and the same digits, the approving device
    knows its peer by the key of the code, and each opens every frame the other seals. *)
Theorem honest_devices_link :
  new_device lan relay t0 bud sk ent = Ok n0 ->
  blen sk = LINK_PK_LEN -> blen esk = LINK_PK_LEN ->
  Forall (fun e => utf8_valid e = true /\ trim e = e) lan ->
  Forall (fun u => utf8_valid u = true /\ normalize_relay_url u = u) relay ->
  core_device_add_outcome (bump32 count) <> Roster.Refused ->
  0 <= start -> (forall i, start <= clk i <= T) -> T <= lr_expires_at_ms (ce_rendezvous n0) ->
  T - start <= deadline_ms (ce_budgets n0) -> T - start <= deadline_ms (default core_link_default_budgets bud') ->
  exists a0 n a b digits tn ta peer,
    scan (ce_qr_text n0) count bud' esk eent = Ok a0 /\ link_devices clk n0 a0 = Some (n, a)
    /\ link_sas b = Ok digits
    /\ ready_with b digits tn peer n /\ ready_with b digits ta (Some (noise_public sk)) a
    /\ (forall p, blen p <= LINK_CHANNEL_MAX_PLAINTEXT_BYTES -> exists f, (seal_on p a).2 = Ok f /\ (open_on f n).2 = Ok p)
    /\ (forall p, blen p <= LINK_CHANNEL_MAX_PLAINTEXT_BYTES -> exists f, (seal_on p n).2 = Ok f /\ (open_on f a).2 = Ok p).
Proof.
  unfold new_device. cbv zeta. set (nb := default core_link_default_budgets bud). set (ab := default core_link_default_budgets bud').
  intros (q & Hq & (r0 & Hr & [= <-])%result_bind_ok)%result_bind_ok Hsk Hesk Hlan Hrel Hcap Hst Hclk Hexp Hd Hd'. cbn in Hexp, Hd. cbn [ce_qr_text ceremony_new].
  set (offer := mk_rendezvous (noise_public sk) (i64_saturating_add t0 (qr_lifetime_ms nb)) lan relay) in *.
  pose proof (Hclk 0%nat) as H0.
  assert (tidy_offer offer) as Htidy by (split_and!; [apply saturated_i64|exact Hlan|exact Hrel]).
  destruct (link_qr_round_trip offer q Htidy Hq) as (Hscan & _).
  destruct (build_ok true (link_prologue offer) esk eent Hesk) as [i0 Hi].
  unfold build_handshake in Hr. destruct (build false (link_prologue offer) sk ent) as [r0'|] eqn:Er; [|done]. injection Hr as ->.
  destruct (exchange _ _ _ _ _ _ _ Hi Er) as [x Hx]. change (noise_public sk) with (lr_link_pk offer) in x, Hx |- *.
  unfold scan. cbv zeta. rewrite Hscan. cbn [mbind result_bind]. unfold build_handshake. rewrite Hi. cbn [mbind result_bind].
  destruct (scanned_on_time start T ab offer i0 _ ltac:(lia) Hexp ltac:(lia) Hcap) as (Ha & Hsa & Hca).
  fold ab. match type of Ha with on_time _ _ _ _ _ _ _ _ _ _ ?s => set (a0 := s) in * end.
  pose proof (fresh_on_time start T NewDevice nb offer q r0 ltac:(lia) Hexp ltac:(lia)) as Hn.
  destruct (exchange_completes start T NL clk offer i0 r0 (ceremony_new NewDevice nb offer q r0) a0 x Hclk eq_refl Hsa Hca Hn Ha Hx) as (n & a & b & d & tn & ta & peer & E & Hb & Hp & Rn & Ra).
  exists a0, n, a, b, d, tn, ta, peer. split_and!; [done|exact E|exact Hb|exact Rn|exact Ra|..]; intros p Hl.
  - exact (frames_cross NL _ _ _ _ _ _ _ _ _ (NOISE_FRAMES - 1) eq_refl Hp Hl Ra Rn).
  - exact (frames_cross NL _ _ _ _ _ _ _ _ _ (NOISE_FRAMES - 1) eq_refl (paired_sym _ _ _ Hp) Hl Rn Ra).
Qed.
End completion.

(** * A stand-in that runs *)

(** The static keys travel in the clear, the "hash" pads the prologue, and a frame is the plaintext with a
    numbered tag: enough to run a ceremony, of no cryptographic worth. *)
Record toy_hs : Type := mk_toy { th_initiator : bool; th_step : nat; th_prologue : bytes; th_key : bytes; th_remote : option bytes }.
Definition toy_tr : Type := (nat * nat)%type.

Definition toy_tag (n : nat) : bytes := replicate 15 x00 ++ [byte_of_Z (Z.of_nat n)].
Definition toy_hash32 (p : bytes) : bytes := take 32 (p ++ replicate 32 x00).

Definition toy_write (h : toy_hs) : option bytes * toy_hs :=
  (Some (x01 :: th_key h), mk_toy (th_initiator h) (S (th_step h)) (th_prologue h) (th_key h) (th_remote h)).

Definition toy_read (h : toy_hs) (m : bytes) : bool * toy_hs :=
  (true, mk_toy (th_initiator h) (S (th_step h)) (th_prologue h) (th_key h) (Some (drop 1 m))).

Definition toy_seal (t : toy_tr) (p : bytes) : option bytes * toy_tr := (Some (p ++ toy_tag t.1), (S t.1, t.2)).

Definition toy_open (t : toy_tr) (f : bytes) : option bytes * toy_tr :=
  let n := (length f - 16)%nat in
  if decide (drop n f = toy_tag t.2) then (Some (take n f), (t.1, S t.2)) else (None, t).

Definition toy_noise : Noise := {|
  hs := toy_hs; tr := toy_tr;
  noise_public sk := sk;
  build initiator p sk _ := if blen sk =? LINK_PK_LEN then Some (mk_toy initiator 0 p sk None) else None;
  hs_write := toy_write;
  hs_read := toy_read;
  hs_finished h := bool_decide (3 <= th_step h)%nat;
  hs_hash h := toy_hash32 (th_prologue h);
  hs_remote := th_remote;
  into_transport h := Some (0%nat, 0%nat);
  tr_write := toy_seal;
  tr_read := toy_open;
|}.

Lemma toy_build_inv i p sk h : (if blen sk =? LINK_PK_LEN then Some (mk_toy i 0 p sk None) else None) = Some h ->
  blen sk = LINK_PK_LEN /\ h = mk_toy i 0 p sk None.
Proof. case_match; [|done]. bools. by intros [= <-]. Qed.

Lemma toy_message_fits key : blen key = LINK_PK_LEN -> x01 :: key <> [] /\ blen (x01 :: key) <= LINK_MAX_CEREMONY_MESSAGE_BYTES.
Proof. intros Hk. split; [done|]. rewrite blen_cons, Hk. vm_compute. discriminate. Qed.

Lemma toy_exchange p sk_i e_i sk_r e_r (i0 r0 : hs (Noise := toy_noise)) :
  build (Noise := toy_noise) true p sk_i e_i = Some i0 -> build (Noise := toy_noise) false p sk_r e_r = Some r0 ->
  { x : xx_exchange (noise_public (Noise := toy_noise) sk_r) i0 r0 | (ti _ _ _ x).1 = (t_r _ _ _ x).2 /\ (ti _ _ _ x).2 = (t_r _ _ _ x).1 }.
Proof.
  intros [Hi ->]%toy_build_inv [Hr ->]%toy_build_inv.
  pose proof (toy_message_fits sk_i Hi) as Fi. pose proof (toy_message_fits sk_r Hr) as Fr.
  assert (blen (toy_hash32 p) = CHANNEL_BINDING_LEN) as Hh
    by (unfold blen, toy_hash32; rewrite length_take, length_app, length_replicate; unfold CHANNEL_BINDING_LEN; lia).
  unshelve eexists.
  - eapply mk_exchange; [reflexivity..|exact Hh|reflexivity|reflexivity|].
    exact (Forall_cons_2 _ _ _ Fi (Forall_cons_2 _ _ _ Fr (Forall_cons_2 _ _ _ Fi (Forall_nil_2 _)))).
  - done.
Defined.

#[local] Instance toy_noise_laws : NoiseLaws toy_noise.
Proof.
  refine (Build_NoiseLaws toy_noise _ _ _ (fun _ (t u : toy_tr) => t.1 = u.2 /\ t.2 = u.1) _ _ toy_exchange).
  - split. by intros h.
  - done.
  - intros i p sk e Hk. cbn. rewrite Hk. by eexists.
  - by intros k t u [? ?].
  - intros k t u p [H1 H2] _ _. exists (p ++ toy_tag t.1), (S t.1, t.2), (u.1, S u.2). split_and!; [done| |by rewrite blen_app|by cbn; lia..].
    cbn [tr_read toy_noise]. unfold toy_open. assert ((length (p ++ toy_tag t.1) - 16)%nat = length p) as -> by (rewrite length_app; cbn; lia).
    rewrite drop_app_length, take_app_length, H1, decide_True by done. done.
Defined.

Definition toy_new : result CoreError (Ceremony (hs (Noise := toy_noise)) (tr (Noise := toy_noise))) :=
  new_device (B := real_b64) (N := toy_noise) [str "192.168.1.24:45892"] [str "https://relay.example"] 1000 None (repeat x9a 32) [].

Definition toy_state : Ceremony (hs (Noise := toy_noise)) (tr (Noise := toy_noise)) :=
  match toy_new with Ok s => s | Err _ => ceremony_new (N := toy_noise) NewDevice core_link_default_budgets sample_offer [] (mk_toy false 0 [] [] None) end.

Lemma honest_devices_link_witness :
  toy_new = Ok toy_state
  /\ exists (a0 n a : Ceremony (hs (Noise := toy_noise)) (tr (Noise := toy_noise))),
       scan (B := real_b64) (ce_qr_text toy_state) 1 None (repeat x42 32) [] = Ok a0
       /\ link_devices (C := toy_crypto) (fun _ => 2000) toy_state a0 = Some (n, a)
       /\ exists b digits tn peer, ready_with b digits tn peer n.
Proof.
  assert (toy_new = Ok toy_state) as E by (vm_compute; reflexivity). split; [exact E|].
  destruct (honest_devices_link (C := toy_crypto) (BL := real_b64_laws) toy_noise_laws _ _ _ _ None _ _ (repeat x42 32) [] toy_state 1 2000 2000 (fun _ => 2000) E)
    as (a0 & n & a & b & digits & tn & ta & peer & H1 & H2 & _ & H3 & _).
  - vm_compute; reflexivity.
  - vm_compute; reflexivity.
  - repeat constructor; vm_compute; reflexivity.
  - repeat constructor; vm_compute; reflexivity.
  - vm_compute; discriminate.
  - lia.
  - intros _. lia.
  - vm_compute; discriminate.
  - vm_compute; discriminate.
  - vm_compute; discriminate.
  - exists a0, n, a. split; [exact H1|]. split; [exact H2|]. by exists b, digits, tn, peer.
Defined.

(** ** Runs of each device *)

Definition toy_scanned : Ceremony (hs (Noise := toy_noise)) (tr (Noise := toy_noise)) :=
  match scan (B := real_b64) (N := toy_noise) (ce_qr_text toy_state) 1 None (repeat x42 32) [] with Ok s => s | Err _ => toy_state end.

Definition toy_approving_calls : list ApprovingCall :=
  [Call (CallStart 2000); Call (CallSent 2001); Call (CallBytes 2002 (x01 :: repeat x9a 32)); Call (CallSent 2003); Confirm 2004; Call (CallSent 2005)].

Definition toy_new_calls : list LinkCall :=
  [CallStart 2000; CallBytes 2001 (x01 :: repeat x42 32); CallSent 2002; CallBytes 2003 (x01 :: repeat x42 32);
   CallBytes 2005 (push_u8 CTRL_CONFIRM ++ toy_hash32 LINK_NOISE_PROLOGUE_DOMAIN ++ toy_tag 0)].

Lemma ready_means_confirmed_witness :
  exists m, ce_finished (approving_run (C := toy_crypto) toy_scanned toy_approving_calls) = Some m /\ su_outcome m = ChannelReady
    /\ exists b, confirmed (C := toy_crypto) toy_scanned toy_approving_calls b.
Proof.
  assert (scan (B := real_b64) (N := toy_noise) (ce_qr_text toy_state) 1 None (repeat x42 32) [] = Ok toy_scanned) as E by (vm_compute; reflexivity).
  eexists. match goal with |- ?f = Some ?m /\ _ => assert (f = Some m) as Hf by (vm_compute; reflexivity) end.
  split; [exact Hf|]. split; [reflexivity|].
  destruct (ready_means_confirmed (NS := noise_static) _ _ _ _ _ _ _ _ E Hf eq_refl) as (_ & b & _ & _ & _ & _ & _ & _ & H). by exists b.
Defined.

Lemma ready_means_approved_witness :
  exists m, ce_finished (new_run (C := toy_crypto) toy_state toy_new_calls) = Some m /\ su_outcome m = ChannelReady
    /\ exists b, approved (C := toy_crypto) toy_state toy_new_calls b.
Proof.
  assert (toy_new = Ok toy_state) as E by (vm_compute; reflexivity).
  eexists. match goal with |- ?f = Some ?m /\ _ => assert (f = Some m) as Hf by (vm_compute; reflexivity) end.
  split; [exact Hf|]. split; [reflexivity|].
  destruct (ready_means_approved (NS := noise_static) _ _ _ _ _ _ _ _ _ E Hf eq_refl) as (b & _ & _ & _ & _ & H). by exists b.
Defined.

(** A declined ceremony stays declined. *)
Lemma ending_is_final_witness :
  let s := approving_run (C := toy_crypto) toy_scanned [Call (CallStart 2000); Call (CallCancel 2001)] in
  exists m, ce_finished s = Some m /\ approving_run (C := toy_crypto) s toy_approving_calls = s.
Proof.
  cbv zeta. eexists. match goal with |- ?f = Some ?m /\ _ => assert (f = Some m) as Hf by (vm_compute; reflexivity) end.
  split; [exact Hf|]. apply (proj2 (proj2 (ending_is_final _ _ Hf))). vm_compute. discriminate.
Defined.

Lemma deadline_holds_witness :
  is_Some (ce_finished (approving_run (C := toy_crypto) (approving_start 2000 toy_scanned).1 [Call (CallTick 500); Call (CallTick 182001); Call (CallTick 0)])).
Proof.
  destruct (deadline_holds (C := toy_crypto) (N := toy_noise) 2000 180000 182001 ltac:(reflexivity) ltac:(reflexivity)) as (_ & H & Hs).
  apply H; [apply Hs; vm_compute; first [reflexivity|discriminate]|]. exists (Call (CallTick 182001)).
  split; [right; left|reflexivity].
Defined.
