(* ===== verification/LinkBootstrap.v ===== *)
(** The export a linked device starts from ([core/src/device_link/bootstrap.rs]): its codec,
    the signature that ties it to one channel and one signer, the cutting into frames for the
    channel, how the approving device builds it, and what it leaves to catch-up.

    [bootstrap_round_trip] shows the codec exact on what the code builds and
    [chunk_stream_exact] that a stream of chunks is joined only whole and in order;
    [bootstrap_crosses_channel] puts them together, from the store of the approving device
    to the export the new device accepts; [verified_bootstrap_authentic] shows that an
    export that verifies was made by the approving device for this very channel.  The
    sections of a later build are skipped; the loop over them gets one more than the number
    of bytes as fuel, as each takes five at least.  [pieces] gets the length of the payload,
    as every piece takes a byte. *)
From stdpp Require Import base numbers list gmap sorting strings.
From S2P Require Import Prelude StdModel SqlModel Wire Framing Content Message Crypto Hints RosterCodec Roster RosterStore Engine Sealing Authoring SyncRecords InboundStore MeshReceive LinkCeremony.

Definition LINK_BOOTSTRAP_MAGIC : bytes := String.list_byte_of_string "CMBOOT1" ++ [x00].
Definition LINK_BOOTSTRAP_VERSION : Z := 3.
Definition LINK_BOOTSTRAP_DEFAULT_LIFETIME_MS : Z := 10 * 60 * 1000.
Definition LINK_BOOTSTRAP_MAX_BYTES : Z := 8 * 1024 * 1024.
Definition LINK_BOOTSTRAP_MAX_FIELD_BYTES : Z := 1024 * 1024.
Definition LINK_BOOTSTRAP_HISTORY_HEAD_PER_CHAT : Z := 20.
Definition LINK_BOOTSTRAP_MAX_MESSAGE_BYTES : Z := 4 * 1024.
Definition SECTION_PERSON : Z := 1.
Definition SECTION_ROSTER : Z := 2.
Definition SECTION_CONTACTS : Z := 3.
Definition SECTION_GROUPS : Z := 4.
Definition SECTION_HISTORY_HEAD : Z := 5.
Definition SECTION_PROFILE : Z := 7.
Definition SECTION_AUTH : Z := 6.

Record LinkBootstrapPerson : Type := mk_link_person {
  lp_person_id : bytes;
  lp_person_sign_pk : bytes;
  lp_inbox_key_generation : Z;
  lp_inbox_agree_pk : bytes;
  lp_inbox_agree_sk : bytes;
}.

Record LinkBootstrapProfile : Type := mk_link_profile {
  lf_display_name : option bytes;
  lf_avatar : bytes;
  lf_avatar_epoch : Z;
}.

Record LinkBootstrapContact : Type := mk_link_contact { lc_contact : Contact; lc_roster : option Roster }.

Record LinkBootstrap : Type := mk_bootstrap {
  lb_version : Z;
  lb_created_at_ms : Z;
  lb_person : LinkBootstrapPerson;
  lb_roster : Roster;
  lb_contacts : list LinkBootstrapContact;
  lb_groups : list Group;
  lb_history_head : list StoredMessage;
  lb_profile : LinkBootstrapProfile;
  lb_channel_binding : bytes;
  lb_expires_at_ms : Z;
  lb_signer_sign_pk : bytes;
  lb_signature : bytes;
}.

Record CoreLinkCatchUp : Type := mk_catch_up { cu_chat_id : bytes; cu_head_from_lamport : Z; cu_head_through_lamport : Z }.

(** * Writing *)

Definition push_bytes (value : bytes) : bytes := be_bytes 4 (as_u32 (blen value)) ++ value.
Definition push_section (tag : Z) (body : bytes) : bytes := push_u8 tag ++ push_bytes body.
Definition push_optional_text (value : option bytes) : bytes :=
  match value with Some text => push_u8 1 ++ push_bytes text | None => push_u8 0 end.
Definition push_count {A} (l : list A) : bytes := be_bytes 4 (as_u32 (blen l)).

Definition push_cert (c : DeviceCert) : bytes :=
  push_bytes (cert_person_id c) ++ push_bytes (device_sign_pk c) ++ push_bytes (device_agree_pk c)
  ++ be_bytes 8 (added_epoch c) ++ be_bytes 4 (flags c) ++ push_bytes (cert_signer_sign_pk c) ++ push_bytes (cert_signature c).

Definition push_tombstone (t : DeviceTombstone) : bytes := push_bytes (tomb_device_id t) ++ be_bytes 8 (revoked_at_seq t).

Definition push_roster (r : Roster) : bytes :=
  push_bytes (person_id r) ++ be_bytes 8 (recovery_epoch r) ++ be_bytes 8 (seq r)
  ++ push_count (devices r) ++ concat (push_cert <$> devices r)
  ++ push_count (tombstones r) ++ concat (push_tombstone <$> tombstones r)
  ++ push_bytes (approving_device_id r) ++ be_bytes 8 (inbox_key_generation r)
  ++ push_bytes (signer_sign_pk r) ++ push_bytes (signature r).

Definition push_contact (c : Contact) : bytes :=
  push_bytes (ct_user_id c) ++ push_bytes (ct_name c) ++ push_bytes (ct_sign_pk c) ++ push_bytes (ct_agree_pk c)
  ++ push_optional_text (ct_relay_url c) ++ push_optional_text (ct_relay_token c) ++ push_optional_text (ct_nickname c).

Definition push_contact_entry (e : LinkBootstrapContact) : bytes :=
  push_contact (lc_contact e) ++ match lc_roster e with Some r => push_u8 1 ++ push_roster r | None => push_u8 0 end.

Definition push_group (g : Group) : bytes :=
  push_bytes (group_id g) ++ push_bytes (group_name g) ++ push_count (member_user_ids g) ++ concat (push_bytes <$> member_user_ids g)
  ++ push_bytes (group_key g) ++ be_bytes 8 (group_metadata_revision g) ++ push_bytes (group_metadata_changed_by g).

Definition push_message (m : StoredMessage) : bytes :=
  push_bytes (sm_chat_id m) ++ push_bytes (sm_sender_user_id m) ++ be_bytes 8 (sm_lamport m) ++ be_bytes 8 (as_u64 (sm_timestamp m))
  ++ push_u8 (sm_kind m) ++ push_bytes (sm_payload m) ++ push_bytes (sm_sender_device_id m).

Definition person_body (p : LinkBootstrapPerson) : bytes :=
  push_bytes (lp_person_id p) ++ push_bytes (lp_person_sign_pk p) ++ be_bytes 8 (lp_inbox_key_generation p)
  ++ push_bytes (lp_inbox_agree_pk p) ++ push_bytes (lp_inbox_agree_sk p).

Definition profile_body (p : LinkBootstrapProfile) : bytes :=
  push_optional_text (lf_display_name p) ++ push_bytes (lf_avatar p) ++ be_bytes 8 (as_u64 (lf_avatar_epoch p)).

Definition listed {A} (push : A -> bytes) (l : list A) : bytes := push_count l ++ concat (push <$> l).

Definition bootstrap_prefix (b : LinkBootstrap) : bytes :=
  LINK_BOOTSTRAP_MAGIC ++ be_bytes 2 LINK_BOOTSTRAP_VERSION ++ be_bytes 8 (as_u64 (lb_created_at_ms b))
  ++ push_section SECTION_PERSON (person_body (lb_person b))
  ++ push_section SECTION_ROSTER (push_roster (lb_roster b))
  ++ push_section SECTION_CONTACTS (listed push_contact_entry (lb_contacts b))
  ++ push_section SECTION_GROUPS (listed push_group (lb_groups b))
  ++ push_section SECTION_HISTORY_HEAD (listed push_message (lb_history_head b))
  ++ push_section SECTION_PROFILE (profile_body (lb_profile b)).

Definition bootstrap_signed_message (prefix channel_binding : bytes) (expires_at_ms : Z) : bytes :=
  prefix ++ channel_binding ++ be_bytes 8 (as_u64 expires_at_ms).

Definition check_len (bs : bytes) (len : Z) (what : string) : result CoreError unit :=
  ensure (blen bs =? len) (Malformed ("device-link bootstrap " +:+ what +:+ " is bytes, not")).

Definition auth_body (b : LinkBootstrap) : bytes :=
  lb_channel_binding b ++ be_bytes 8 (as_u64 (lb_expires_at_ms b)) ++ lb_signer_sign_pk b ++ lb_signature b.

Definition encode_bootstrap (b : LinkBootstrap) : result CoreError bytes :=
  _ ← check_len (lb_channel_binding b) CHANNEL_BINDING_LEN "channel binding";
  _ ← check_len (lb_signer_sign_pk b) KEY_LEN "signing key";
  _ ← check_len (lb_signature b) SIGNATURE_LEN "signature";
  let out := bootstrap_prefix b ++ push_section SECTION_AUTH (auth_body b) in
  _ ← ensure (blen out <=? LINK_BOOTSTRAP_MAX_BYTES) (Malformed "device-link bootstrap is too large to send");
  Ok out.

(** * Reading *)

#[local] Instance bootstrap_reader : Reader CoreError :=
  {| truncated := Malformed "device-link bootstrap is truncated"; trailing := Malformed "device-link bootstrap is truncated" |}.

Definition remaining : reader CoreError Z := fun c => Ok (blen (c_data c) - Z.of_nat (c_pos c), c).

Definition bytes_field : reader CoreError bytes :=
  len ← Cursor.take_u32;
  _ ← guard_ (len <=? LINK_BOOTSTRAP_MAX_FIELD_BYTES) (Malformed "device-link bootstrap field is too large");
  Cursor.take len.

Definition text_field : reader CoreError bytes :=
  text ← bytes_field;
  _ ← guard_ (utf8_valid text) (Malformed "device-link bootstrap text is not utf-8");
  mret text.

Definition optional_text : reader CoreError (option bytes) :=
  flag ← Cursor.take_u8;
  if flag =? 0 then mret None
  else if flag =? 1 then text ← text_field; mret (Some text)
  else fail_ (Malformed "device-link bootstrap optional field flag").

Definition read_count : reader CoreError Z :=
  count ← Cursor.take_u32;
  left ← remaining;
  _ ← guard_ (count <=? left) (Malformed "device-link bootstrap declares impossible count");
  mret count.

Definition read_listed {A} (p : reader CoreError A) : reader CoreError (list A) :=
  count ← read_count; Cursor.take_many (Z.to_nat count) p.

Definition read_link_cert : reader CoreError DeviceCert :=
  person_id ← bytes_field;
  device_sign_pk ← bytes_field;
  device_agree_pk ← bytes_field;
  added_epoch ← Cursor.take_u64;
  flags ← Cursor.take_u32;
  signer_sign_pk ← bytes_field;
  signature ← bytes_field;
  mret (mk_cert person_id device_sign_pk device_agree_pk added_epoch flags signer_sign_pk signature).

Definition read_link_tombstone : reader CoreError DeviceTombstone :=
  device_id ← bytes_field;
  revoked_at_seq ← Cursor.take_u64;
  mret (mk_tombstone device_id revoked_at_seq).

Definition read_link_roster : reader CoreError Roster :=
  person_id ← bytes_field;
  recovery_epoch ← Cursor.take_u64;
  seq ← Cursor.take_u64;
  devices ← read_listed read_link_cert;
  tombstones ← read_listed read_link_tombstone;
  approving_device_id ← bytes_field;
  inbox_key_generation ← Cursor.take_u64;
  signer_sign_pk ← bytes_field;
  signature ← bytes_field;
  mret (mk_roster person_id recovery_epoch seq devices tombstones approving_device_id inbox_key_generation signer_sign_pk signature).

Definition read_contact : reader CoreError Contact :=
  user_id ← bytes_field;
  name ← text_field;
  sign_pk ← bytes_field;
  agree_pk ← bytes_field;
  relay_url ← optional_text;
  relay_token ← optional_text;
  nickname ← optional_text;
  mret (mk_contact user_id name sign_pk agree_pk relay_url relay_token nickname).

Definition read_bootstrap_contact : reader CoreError LinkBootstrapContact :=
  contact ← read_contact;
  flag ← Cursor.take_u8;
  if flag =? 0 then mret (mk_link_contact contact None)
  else if flag =? 1 then roster ← read_link_roster; mret (mk_link_contact contact (Some roster))
  else fail_ (Malformed "device-link bootstrap contact roster flag").

Definition read_group : reader CoreError Group :=
  id ← bytes_field;
  name ← text_field;
  members ← read_listed bytes_field;
  key ← bytes_field;
  metadata_revision ← Cursor.take_u64;
  metadata_changed_by ← bytes_field;
  mret (mk_group id name members key metadata_revision metadata_changed_by).

Definition read_stored_message : reader CoreError StoredMessage :=
  chat_id ← bytes_field;
  sender_user_id ← bytes_field;
  lamport ← Cursor.take_u64;
  timestamp ← Cursor.take_i64;
  kind ← Cursor.take_u8;
  payload ← bytes_field;
  sender_device_id ← bytes_field;
  mret (mk_stored_message chat_id sender_user_id lamport timestamp kind payload sender_device_id).

Definition read_person : reader CoreError LinkBootstrapPerson :=
  person_id ← bytes_field;
  person_sign_pk ← bytes_field;
  inbox_key_generation ← Cursor.take_u64;
  inbox_agree_pk ← bytes_field;
  inbox_agree_sk ← bytes_field;
  mret (mk_link_person person_id person_sign_pk inbox_key_generation inbox_agree_pk inbox_agree_sk).

Definition read_link_profile : reader CoreError LinkBootstrapProfile :=
  display_name ← optional_text;
  avatar ← bytes_field;
  avatar_epoch ← Cursor.take_i64;
  mret (mk_link_profile display_name avatar avatar_epoch).

Record LinkAuth : Type := mk_link_auth { la_binding : bytes; la_expires_at_ms : Z; la_signer : bytes; la_signature : bytes }.

Definition read_auth : reader CoreError LinkAuth :=
  channel_binding ← Cursor.take CHANNEL_BINDING_LEN;
  expires_at_ms ← Cursor.take_i64;
  signer_sign_pk ← Cursor.take KEY_LEN;
  signature ← Cursor.take SIGNATURE_LEN;
  mret (mk_link_auth channel_binding expires_at_ms signer_sign_pk signature).

(** What the sections read so far said. *)
Record partial : Type := mk_partial {
  pt_person : option LinkBootstrapPerson;
  pt_roster : option Roster;
  pt_contacts : list LinkBootstrapContact;
  pt_groups : list Group;
  pt_history : list StoredMessage;
  pt_profile : LinkBootstrapProfile;
  pt_auth : option LinkAuth;
}.

Definition no_sections : partial := mk_partial None None [] [] [] (mk_link_profile None [] 0) None.

Definition read_section (tag : Z) (body : bytes) (p : partial) : result CoreError partial :=
  let '(mk_partial person roster contacts groups history profile auth) := p in
  if tag =? SECTION_PERSON then
    x ← Cursor.run read_person body; Ok (mk_partial (Some x) roster contacts groups history profile auth)
  else if tag =? SECTION_ROSTER then
    x ← Cursor.run read_link_roster body; Ok (mk_partial person (Some x) contacts groups history profile auth)
  else if tag =? SECTION_CONTACTS then
    x ← Cursor.run (read_listed read_bootstrap_contact) body; Ok (mk_partial person roster (contacts ++ x) groups history profile auth)
  else if tag =? SECTION_GROUPS then
    x ← Cursor.run (read_listed read_group) body; Ok (mk_partial person roster contacts (groups ++ x) history profile auth)
  else if tag =? SECTION_HISTORY_HEAD then
    x ← Cursor.run (read_listed read_stored_message) body; Ok (mk_partial person roster contacts groups (history ++ x) profile auth)
  else if tag =? SECTION_PROFILE then
    x ← Cursor.run read_link_profile body; Ok (mk_partial person roster contacts groups history x auth)
  else if tag =? SECTION_AUTH then
    x ← Cursor.run read_auth body; Ok (mk_partial person roster contacts groups history profile (Some x))
  else Ok p.

(** [while !reader.done()] *)
Fixpoint read_sections (fuel : nat) (p : partial) : reader CoreError partial :=
  match fuel with
  | O => mret p
  | S fuel =>
      done ← Cursor.is_finished;
      if done : bool then mret p
      else
        tag ← Cursor.take_u8;
        len ← Cursor.take_u32;
        body ← Cursor.take len;
        p ← lift (read_section tag body p);
        read_sections fuel p
  end.

Definition finish_bootstrap (version created_at_ms : Z) (p : partial) : result CoreError LinkBootstrap :=
  auth ← option_ok (pt_auth p) (Malformed "device-link bootstrap is not signed");
  person ← option_ok (pt_person p) (Malformed "device-link bootstrap has no identity");
  roster ← option_ok (pt_roster p) (Malformed "device-link bootstrap has no roster");
  Ok (mk_bootstrap version created_at_ms person roster (pt_contacts p) (pt_groups p) (pt_history p) (pt_profile p)
        (la_binding auth) (la_expires_at_ms auth) (la_signer auth) (la_signature auth)).

Definition read_bootstrap (fuel : nat) : reader CoreError LinkBootstrap :=
  magic ← Cursor.take (blen LINK_BOOTSTRAP_MAGIC);
  _ ← guard_ (bool_decide (magic = LINK_BOOTSTRAP_MAGIC)) (Malformed "not a device-link bootstrap");
  version ← Cursor.take_u16;
  _ ← guard_ (version <=? LINK_BOOTSTRAP_VERSION) UnsupportedLink;
  _ ← guard_ (LINK_BOOTSTRAP_VERSION <=? version) (Malformed "device-link bootstrap has an unknown version");
  created_at_ms ← Cursor.take_i64;
  p ← read_sections fuel no_sections;
  lift (finish_bootstrap version created_at_ms p).

Definition decode_bootstrap (bs : bytes) : result CoreError LinkBootstrap :=
  _ ← ensure (blen bs <=? LINK_BOOTSTRAP_MAX_BYTES) (Malformed "device-link bootstrap is too large");
  Cursor.run (read_bootstrap (S (length bs))) bs.

Definition encode_roster_document (r : Roster) : bytes := push_roster r.
Definition decode_roster_document (bs : bytes) : result CoreError Roster := Cursor.run read_link_roster bs.

(** * The ceremony it was made for *)

Definition core_link_bootstrap_verify `{C : Crypto} (b : LinkBootstrap) (channel_binding : bytes) (now_ms : Z) : result CoreError unit :=
  _ ← check_len channel_binding CHANNEL_BINDING_LEN "channel binding";
  _ ← ensure (bool_decide (lb_channel_binding b = channel_binding)) (Malformed "this bootstrap was made for a different link ceremony");
  _ ← ensure (now_ms <=? lb_expires_at_ms b) (Malformed "this bootstrap has expired");
  _ ← ensure (bool_decide (derive_user_id (lb_signer_sign_pk b) = approving_device_id (lb_roster b)))
        (Malformed "this bootstrap was not signed by the device that signs this person's rosters");
  _ ← ensure (existsb (fun c => bool_decide (device_sign_pk c = lb_signer_sign_pk b)) (devices (lb_roster b)))
        (Malformed "this bootstrap's signer is not a device its own roster lists");
  core_device_verify DomainDeviceLinkBootstrap (lb_signer_sign_pk b)
    (bootstrap_signed_message (bootstrap_prefix b) (lb_channel_binding b) (lb_expires_at_ms b)) (lb_signature b).

(** * Frames for the channel *)

Definition CHUNK_HEADER_LEN : Z := 8.
Definition chunk_body_len : nat := Z.to_nat (LINK_CHANNEL_MAX_PLAINTEXT_BYTES - CHUNK_HEADER_LEN).

(** [payload.chunks(n)]; every piece but the last is full, so the bytes bound the pieces. *)
Fixpoint pieces (fuel n : nat) (bs : bytes) : list bytes :=
  match fuel, bs with
  | O, _ | _, [] => []
  | S fuel, _ => take n bs :: pieces fuel n (drop n bs)
  end.

Definition bootstrap_chunk (total index : Z) (piece : bytes) : bytes :=
  be_bytes 4 (as_u32 index) ++ be_bytes 4 (as_u32 total) ++ piece.

Definition core_link_bootstrap_chunks (payload : bytes) : result CoreError (list bytes) :=
  _ ← ensure (negb (bool_decide (payload = []))) (Malformed "device-link bootstrap is empty");
  _ ← ensure (blen payload <=? LINK_BOOTSTRAP_MAX_BYTES) (Malformed "device-link bootstrap is too large to send");
  let total := div_ceil (blen payload) (Z.of_nat chunk_body_len) in
  Ok (imap (fun i piece => bootstrap_chunk total (Z.of_nat i) piece) (pieces (length payload) chunk_body_len payload)).

(** One pass of the loop over the chunks: the payload and the declared total so far. *)
Definition join_chunk (index : nat) (chunk : bytes) (st : bytes * option Z) : result CoreError (bytes * option Z) :=
  let '(payload, declared_total) := st in
  _ ← ensure (CHUNK_HEADER_LEN <=? blen chunk) (Malformed "device-link bootstrap chunk is truncated");
  let sequence := be_value (take 4 chunk) in
  let total := be_value (take 4 (drop 4 chunk)) in
  _ ← ensure (sequence =? Z.of_nat index) (Malformed "device-link bootstrap chunk is out of order");
  _ ← ensure (match declared_total with None => true | Some declared => declared =? total end)
        (Malformed "device-link bootstrap chunk count disagrees");
  let payload := payload ++ drop 8 chunk in
  _ ← ensure (blen payload <=? LINK_BOOTSTRAP_MAX_BYTES) (Malformed "device-link bootstrap is too large");
  Ok (payload, Some total).

Fixpoint join_loop (index : nat) (chunks : list bytes) (st : bytes * option Z) : result CoreError (bytes * option Z) :=
  match chunks with
  | [] => Ok st
  | chunk :: chunks => st ← join_chunk index chunk st; join_loop (S index) chunks st
  end.

Definition core_link_bootstrap_join (chunks : list bytes) : result CoreError bytes :=
  _ ← ensure (negb (bool_decide (chunks = []))) (Malformed "device-link bootstrap arrived empty");
  st ← join_loop 0 chunks ([], None);
  _ ← ensure (bool_decide (st.2 = Some (blen chunks))) (Malformed "device-link bootstrap is missing chunks");
  Ok st.1.

(** * Building one *)

Definition core_is_visible_chat_kind (kind : Z) : bool :=
  (kind =? KIND_TEXT) || (kind =? KIND_ATTACHMENT_MANIFEST) || (kind =? KIND_GROUP_INVITE).

(** A row of [messages] with its [id], which is its place in the table. *)
Definition row_to_message (r : message_row) : StoredMessage :=
  mk_stored_message (mr_chat_id r) (mr_sender r) (mr_lamport r) (mr_timestamp r) (mr_kind r) (mr_payload r) (mr_device r).

Definition oldest_first (a b : nat * message_row) : Prop :=
  mr_timestamp a.2 < mr_timestamp b.2 \/ mr_timestamp a.2 = mr_timestamp b.2 /\ (a.1 <= b.1)%nat.

#[global] Instance oldest_first_dec : RelDecision oldest_first.
Proof. intros a b. unfold oldest_first. apply _. Defined.

(** [ORDER BY timestamp DESC, id DESC LIMIT ?], a subquery. *)
Definition recent_rows (limit : Z) (rows : list (nat * message_row)) : list (nat * message_row) :=
  sql_limit (Z.min limit I64_MAX) (reverse (merge_sort oldest_first rows)).

Definition recent_presentation_messages_for_chat (s : mesh_store) (chat : bytes) (visible_limit reaction_limit : Z) : list StoredMessage :=
  let rows := filter (fun r => mr_chat_id r.2 = chat) (imap pair (ms_messages s)) in
  let visible := recent_rows visible_limit (filter (fun r => core_is_visible_chat_kind (mr_kind r.2) = true) rows) in
  let reactions := recent_rows reaction_limit (filter (fun r => mr_kind r.2 = KIND_REACTION) rows) in
  row_to_message ∘ snd <$> merge_sort oldest_first (visible ++ reactions).

Definition list_groups (s : mesh_store) : list Group := merge_sort group_le (rt_groups (ms_routing s)).

Definition history_head_of (s : mesh_store) (per_chat : Z) (chat : bytes) : list StoredMessage :=
  filter (fun m => blen (sm_payload m) <= LINK_BOOTSTRAP_MAX_MESSAGE_BYTES) (recent_presentation_messages_for_chat s chat per_chat per_chat).

Section build.
Context `{C : Crypto} `{S : SealCrypto}.

(** [contact_roster_state], which clears a roster that reads back damaged. *)
Definition contact_roster_state (person : bytes) : action CoreError ContactRosterState :=
  on_engine (fun e => match load_state (e_rosters e) person with
                      | Ok (st, rosters) =>
                          (mk_edb (e_routing e) rosters (e_messages e) (e_conflicts e) (e_hidden e) (e_carried e), Ok st)
                      | Err err => (e, Err err)
                      end).

Fixpoint export_contacts (per_chat : Z) (contacts : list Contact) : action CoreError (list LinkBootstrapContact * list StoredMessage) :=
  match contacts with
  | [] => mret ([], [])
  | contact :: contacts =>
      st ← contact_roster_state (ct_user_id contact);
      head ← reads (fun s => history_head_of s per_chat (ct_user_id contact));
      rest ← export_contacts per_chat contacts;
      mret (mk_link_contact contact (held st) :: rest.1, head ++ rest.2)
  end.

Definition build_link_bootstrap (identity : Identity) (profile : LinkBootstrapProfile) (roster : Roster) (approving_device_sign_sk channel_binding : bytes)
    (history_head_per_chat lifetime_ms now_ms : Z) : action CoreError LinkBootstrap :=
  _ ← checks (ensure (bool_decide (person_id roster = id_user_id identity)) (Malformed "the roster to export is for a different person"));
  _ ← checks (check_len channel_binding CHANNEL_BINDING_LEN "channel binding");
  sk ← checks (key32 approving_device_sign_sk);
  let signer_sign_pk := ed25519_public sk in
  _ ← checks (ensure (bool_decide (derive_user_id signer_sign_pk = approving_device_id roster))
                (Malformed "this device does not hold the roster-signing role"));
  let per_chat := if history_head_per_chat =? 0 then LINK_BOOTSTRAP_HISTORY_HEAD_PER_CHAT else history_head_per_chat in
  contacts ← reads list_contacts;
  exported ← export_contacts per_chat contacts;
  groups ← reads list_groups;
  group_heads ← reads (fun s => groups ≫= fun g => history_head_of s per_chat (group_id g));
  let expires_at_ms := i64_saturating_add now_ms (if lifetime_ms =? 0 then LINK_BOOTSTRAP_DEFAULT_LIFETIME_MS else lifetime_ms) in
  let unsigned := mk_bootstrap LINK_BOOTSTRAP_VERSION now_ms
      (mk_link_person (id_user_id identity) (id_sign_pk identity) (inbox_key_generation roster) (id_agree_pk identity) (id_agree_sk identity))
      roster exported.1 groups (exported.2 ++ group_heads) profile channel_binding expires_at_ms signer_sign_pk [] in
  sig ← checks (core_device_sign DomainDeviceLinkBootstrap approving_device_sign_sk
                  (bootstrap_signed_message (bootstrap_prefix unsigned) channel_binding expires_at_ms));
  mret (mk_bootstrap LINK_BOOTSTRAP_VERSION now_ms (lb_person unsigned) roster exported.1 groups (exported.2 ++ group_heads) profile
          channel_binding expires_at_ms signer_sign_pk sig).
End build.

(** * What catch-up owes *)

Definition plan_message (plan : list CoreLinkCatchUp) (m : StoredMessage) : list CoreLinkCatchUp :=
  match list_find (fun e => cu_chat_id e = sm_chat_id m) plan with
  | Some (i, e) => <[i := mk_catch_up (cu_chat_id e) (Z.min (cu_head_from_lamport e) (sm_lamport m))
                            (Z.max (cu_head_through_lamport e) (sm_lamport m))]> plan
  | None => plan ++ [mk_catch_up (sm_chat_id m) (sm_lamport m) (sm_lamport m)]
  end.

Definition core_link_catch_up_plan (b : LinkBootstrap) : list CoreLinkCatchUp := foldl plan_message [] (lb_history_head b).

(** * What the codec carries *)

Definition field_ok (bs : bytes) : Prop := blen bs <= LINK_BOOTSTRAP_MAX_FIELD_BYTES.
Definition text_ok (t : bytes) : Prop := field_ok t /\ utf8_valid t = true.
Definition opt_text_ok (t : option bytes) : Prop := from_option text_ok True t.

Definition cert_ok (c : DeviceCert) : Prop :=
  field_ok (cert_person_id c) /\ field_ok (device_sign_pk c) /\ field_ok (device_agree_pk c) /\ in_u64 (added_epoch c)
  /\ in_u32 (flags c) /\ field_ok (cert_signer_sign_pk c) /\ field_ok (cert_signature c).

Definition tombstone_ok (t : DeviceTombstone) : Prop := field_ok (tomb_device_id t) /\ in_u64 (revoked_at_seq t).

Definition roster_ok (r : Roster) : Prop :=
  field_ok (person_id r) /\ in_u64 (recovery_epoch r) /\ in_u64 (seq r) /\ Forall cert_ok (devices r) /\ Forall tombstone_ok (tombstones r)
  /\ field_ok (approving_device_id r) /\ in_u64 (inbox_key_generation r) /\ field_ok (signer_sign_pk r) /\ field_ok (signature r).

Definition contact_ok (c : Contact) : Prop :=
  field_ok (ct_user_id c) /\ text_ok (ct_name c) /\ field_ok (ct_sign_pk c) /\ field_ok (ct_agree_pk c)
  /\ opt_text_ok (ct_relay_url c) /\ opt_text_ok (ct_relay_token c) /\ opt_text_ok (ct_nickname c).

Definition entry_ok (e : LinkBootstrapContact) : Prop := contact_ok (lc_contact e) /\ from_option roster_ok True (lc_roster e).

Definition group_ok (g : Group) : Prop :=
  field_ok (group_id g) /\ text_ok (group_name g) /\ Forall field_ok (member_user_ids g) /\ field_ok (group_key g)
  /\ in_u64 (group_metadata_revision g) /\ field_ok (group_metadata_changed_by g).

Definition message_ok (m : StoredMessage) : Prop :=
  field_ok (sm_chat_id m) /\ field_ok (sm_sender_user_id m) /\ in_u64 (sm_lamport m) /\ in_i64 (sm_timestamp m)
  /\ in_u8 (sm_kind m) /\ field_ok (sm_payload m) /\ field_ok (sm_sender_device_id m).

Definition person_ok (p : LinkBootstrapPerson) : Prop :=
  field_ok (lp_person_id p) /\ field_ok (lp_person_sign_pk p) /\ in_u64 (lp_inbox_key_generation p) /\ field_ok (lp_inbox_agree_pk p)
  /\ field_ok (lp_inbox_agree_sk p).

Definition profile_ok (p : LinkBootstrapProfile) : Prop :=
  opt_text_ok (lf_display_name p) /\ field_ok (lf_avatar p) /\ in_i64 (lf_avatar_epoch p).

(** An export of Rust values whose fields keep to a mebibyte each. *)
Definition bootstrap_ok (b : LinkBootstrap) : Prop :=
  lb_version b = LINK_BOOTSTRAP_VERSION /\ in_i64 (lb_created_at_ms b) /\ in_i64 (lb_expires_at_ms b) /\ person_ok (lb_person b)
  /\ roster_ok (lb_roster b) /\ Forall entry_ok (lb_contacts b) /\ Forall group_ok (lb_groups b) /\ Forall message_ok (lb_history_head b)
  /\ profile_ok (lb_profile b).

(** ** What is written is read back *)

Lemma be_bytes_as_u64 z : be_bytes 8 (as_u64 z) = be_bytes 8 z.
Proof.
  unfold as_u64. rewrite (Z.div_mod z 18446744073709551616) at 2 by done.
  rewrite Z.add_comm, Z.mul_comm. change 18446744073709551616 with (256 ^ Z.of_nat 8) at 3. by rewrite be_bytes_shift.
Qed.

Lemma parses_i64_cast z r : in_i64 z -> parses (E := CoreError) Cursor.take_i64 (be_bytes 8 (as_u64 z) ++ r) z r.
Proof. rewrite be_bytes_as_u64. apply parses_i64. Qed.

Lemma parses_field bs r : field_ok bs -> parses bytes_field (push_bytes bs ++ r) bs r.
Proof.
  intros Hb. unfold field_ok, LINK_BOOTSTRAP_MAX_FIELD_BYTES in Hb. pose proof (blen_nonneg bs).
  unfold push_bytes, bytes_field. rewrite as_u32_id by ints.
  parse_step; [ints|]. parse_step; [by apply Z.leb_le|]. by apply parses_take.
Qed.

Lemma parses_text t r : text_ok t -> parses text_field (push_bytes t ++ r) t r.
Proof.
  intros [Hb Hu]. eapply parses_bind; [by apply parses_field|]. parse_step; [done|]. apply parses_ret.
Qed.

Lemma parses_optional_text t r : opt_text_ok t -> parses optional_text (push_optional_text t ++ r) t r.
Proof.
  intros Ht. unfold optional_text. destruct t as [t|]; cbn [push_optional_text]; (parse_step; [ints|]); cbn [Z.eqb Pos.eqb].
  - eapply parses_bind; [by apply parses_text|]. apply parses_ret.
  - apply parses_ret.
Qed.

(** A list whose elements take a byte each at least. *)
Lemma blen_concat {A} (enc : A -> bytes) l : (forall x, enc x <> []) -> blen l <= blen (concat (enc <$> l)).
Proof.
  intros He. induction l as [|x l IH]; [done|]. rewrite fmap_cons. cbn [concat]. rewrite blen_cons, blen_app.
  pose proof (blen_nonneg (enc x)). destruct (decide (blen (enc x) = 0)) as [Hz|]; [by destruct (He x); apply blen_zero|lia].
Qed.

Lemma blen_concat_elem {A} (enc : A -> bytes) l x : x ∈ l -> blen (enc x) <= blen (concat (enc <$> l)).
Proof.
  induction 1 as [y l|x y l _ IH]; rewrite fmap_cons; cbn [concat]; rewrite blen_app;
    [pose proof (blen_nonneg (concat (enc <$> l)))|pose proof (blen_nonneg (enc y))]; lia.
Qed.

Lemma parses_listed {A} (p : reader CoreError A) (enc : A -> bytes) (P : A -> Prop) l r :
  (forall x, enc x <> []) -> blen (listed enc l) <= U32_MAX -> Forall P l ->
  (forall x r, P x -> blen (enc x) <= U32_MAX -> parses p (enc x ++ r) x r) -> parses (read_listed p) (listed enc l ++ r) l r.
Proof.
  intros He Hl HP Hp. pose proof (blen_concat enc l He) as Hc. pose proof (blen_nonneg l).
  unfold listed, push_count in *. rewrite blen_app, blen_be_bytes in Hl. rewrite <- app_assoc.
  unfold read_listed. rewrite as_u32_id by ints. eapply parses_bind.
  - eapply parses_bind; [apply parses_u32; ints|].
    eapply parses_bind.
    { intros c Hcur. exists c. split; [|exact Hcur]. unfold remaining. pose proof (cursor_at_pos _ _ Hcur) as Hlen. do 2 f_equal.
      instantiate (1 := blen (concat (enc <$> l) ++ r)). unfold blen. lia. }
    parse_step; [|apply parses_ret]. apply Z.leb_le. rewrite blen_app. pose proof (blen_nonneg r). lia.
  - apply parses_counted. intros x r' Hx. apply Hp; [by eapply Forall_forall|]. pose proof (blen_concat_elem enc l x Hx). ints.
Qed.

Lemma push_bytes_not_nil bs rest : push_bytes bs ++ rest <> [].
Proof. done. Qed.

Lemma parses_link_cert c r : cert_ok c -> parses read_link_cert (push_cert c ++ r) c r.
Proof.
  intros (H1 & H2 & H3 & H4 & H5 & H6 & H7). unfold push_cert, read_link_cert. rewrite <- ?app_assoc.
  do 3 (eapply parses_bind; [by apply parses_field|]). do 2 (parse_step; [done|]).
  do 2 (eapply parses_bind; [by apply parses_field|]). destruct c. apply parses_ret.
Qed.

Lemma parses_link_tombstone t r : tombstone_ok t -> parses read_link_tombstone (push_tombstone t ++ r) t r.
Proof.
  intros (H1 & H2). unfold push_tombstone, read_link_tombstone. rewrite <- ?app_assoc.
  eapply parses_bind; [by apply parses_field|]. parse_step; [done|]. destruct t. apply parses_ret.
Qed.

Lemma push_roster_listed r : push_roster r =
  push_bytes (person_id r) ++ be_bytes 8 (recovery_epoch r) ++ be_bytes 8 (seq r) ++ listed push_cert (devices r)
  ++ listed push_tombstone (tombstones r) ++ push_bytes (approving_device_id r) ++ be_bytes 8 (inbox_key_generation r)
  ++ push_bytes (signer_sign_pk r) ++ push_bytes (signature r).
Proof. unfold push_roster, listed. by rewrite <- !app_assoc. Qed.

Lemma parses_link_roster x r : roster_ok x -> blen (push_roster x) <= U32_MAX -> parses read_link_roster (push_roster x ++ r) x r.
Proof.
  rewrite push_roster_listed. intros (H1 & H2 & H3 & H4 & H5 & H6 & H7 & H8 & H9) Hl. rewrite !blen_app in Hl.
  repeat match type of Hl with context [blen (push_bytes ?b)] =>
    let n := fresh "n" in pose proof (blen_nonneg (push_bytes b)); set (n := blen (push_bytes b)) in * end.
  rewrite !blen_be_bytes in Hl. pose proof (blen_nonneg (listed push_cert (devices x))). pose proof (blen_nonneg (listed push_tombstone (tombstones x))).
  unfold read_link_roster. rewrite <- ?app_assoc. eapply parses_bind; [by apply parses_field|]. do 2 (parse_step; [done|]).
  rewrite <- ?app_assoc.
  eapply parses_bind; [apply (parses_listed _ _ cert_ok); [done|lia|done|intros; by apply parses_link_cert]|].
  eapply parses_bind; [apply (parses_listed _ _ tombstone_ok); [done|lia|done|intros; by apply parses_link_tombstone]|].
  eapply parses_bind; [by apply parses_field|]. parse_step; [done|].
  do 2 (eapply parses_bind; [by apply parses_field|]). destruct x. apply parses_ret.
Qed.

Lemma parses_contact c r : contact_ok c -> parses read_contact (push_contact c ++ r) c r.
Proof.
  intros (H1 & H2 & H3 & H4 & H5 & H6 & H7). unfold push_contact, read_contact. rewrite <- ?app_assoc.
  eapply parses_bind; [by apply parses_field|]. eapply parses_bind; [by apply parses_text|].
  do 2 (eapply parses_bind; [by apply parses_field|]). do 3 (eapply parses_bind; [by apply parses_optional_text|]).
  destruct c. apply parses_ret.
Qed.

Lemma parses_entry e r : entry_ok e -> blen (push_contact_entry e) <= U32_MAX -> parses read_bootstrap_contact (push_contact_entry e ++ r) e r.
Proof.
  intros [Hc Hr] Hl. unfold push_contact_entry, read_bootstrap_contact in *. destruct e as [c [x|]]; cbn [lc_contact lc_roster] in *;
    rewrite <- ?app_assoc; (eapply parses_bind; [by apply parses_contact|]); (parse_step; [ints|]); cbn [Z.eqb Pos.eqb].
  - rewrite !blen_app in Hl. eapply parses_bind; [apply parses_link_roster; [done|]|apply parses_ret].
    pose proof (blen_nonneg (push_contact c)). pose proof (blen_nonneg (push_u8 1)). lia.
  - apply parses_ret.
Qed.

Lemma push_group_listed g : push_group g =
  push_bytes (group_id g) ++ push_bytes (group_name g) ++ listed push_bytes (member_user_ids g) ++ push_bytes (group_key g)
  ++ be_bytes 8 (group_metadata_revision g) ++ push_bytes (group_metadata_changed_by g).
Proof. unfold push_group, listed. by rewrite <- !app_assoc. Qed.

Lemma parses_group g r : group_ok g -> blen (push_group g) <= U32_MAX -> parses read_group (push_group g ++ r) g r.
Proof.
  rewrite push_group_listed. intros (H1 & H2 & H3 & H4 & H5 & H6) Hl. rewrite !blen_app in Hl.
  assert (forall b, 0 <= blen (push_bytes b)) as Hn by (intros; apply blen_nonneg).
  pose proof (Hn (group_id g)). pose proof (Hn (group_name g)). pose proof (Hn (group_key g)). pose proof (Hn (group_metadata_changed_by g)).
  pose proof (blen_nonneg (be_bytes 8 (group_metadata_revision g))).
  unfold read_group. rewrite <- ?app_assoc. eapply parses_bind; [by apply parses_field|]. eapply parses_bind; [by apply parses_text|].
  eapply parses_bind; [apply (parses_listed _ _ field_ok); [done|lia|done|intros; by apply parses_field]|].
  eapply parses_bind; [by apply parses_field|]. parse_step; [done|]. eapply parses_bind; [by apply parses_field|].
  destruct g. apply parses_ret.
Qed.

Lemma parses_message m r : message_ok m -> parses read_stored_message (push_message m ++ r) m r.
Proof.
  intros (H1 & H2 & H3 & H4 & H5 & H6 & H7). unfold push_message, read_stored_message. rewrite <- ?app_assoc.
  do 2 (eapply parses_bind; [by apply parses_field|]). parse_step; [done|].
  eapply parses_bind; [by apply parses_i64_cast|]. parse_step; [done|].
  do 2 (eapply parses_bind; [by apply parses_field|]). destruct m. apply parses_ret.
Qed.

Lemma parses_person p : person_ok p -> Cursor.run read_person (person_body p) = Ok p.
Proof.
  intros (H1 & H2 & H3 & H4 & H5). eapply (parses_run _ _ _ []). unfold person_body, read_person. rewrite <- (app_nil_r (push_bytes (lp_inbox_agree_sk p))).
  do 2 (eapply parses_bind; [by apply parses_field|]). parse_step; [done|]. do 2 (eapply parses_bind; [by apply parses_field|]).
  destruct p. apply parses_ret.
Qed.

Lemma parses_profile p : profile_ok p -> Cursor.run read_link_profile (profile_body p) = Ok p.
Proof.
  intros (H1 & H2 & H3). eapply (parses_run _ _ _ []). unfold profile_body, read_link_profile.
  rewrite <- (app_nil_r (be_bytes 8 (as_u64 _))). eapply parses_bind; [by apply parses_optional_text|].
  eapply parses_bind; [by apply parses_field|]. eapply parses_bind; [by apply parses_i64_cast|]. destruct p. apply parses_ret.
Qed.

Lemma parses_auth binding expires signer sig : blen binding = CHANNEL_BINDING_LEN -> in_i64 expires -> blen signer = KEY_LEN -> blen sig = SIGNATURE_LEN ->
  Cursor.run read_auth (binding ++ be_bytes 8 (as_u64 expires) ++ signer ++ sig) = Ok (mk_link_auth binding expires signer sig).
Proof.
  intros H1 H2 H3 H4. eapply (parses_run _ _ _ []). unfold read_auth. rewrite <- (app_nil_r sig) at 1.
  eapply parses_bind; [by apply parses_take|]. eapply parses_bind; [by apply parses_i64_cast|].
  do 2 (eapply parses_bind; [by apply parses_take|]). apply parses_ret.
Qed.

Lemma run_listed {A} (p : reader CoreError A) (enc : A -> bytes) (P : A -> Prop) l :
  (forall x, enc x <> []) -> blen (listed enc l) <= U32_MAX -> Forall P l ->
  (forall x r, P x -> blen (enc x) <= U32_MAX -> parses p (enc x ++ r) x r) -> Cursor.run (read_listed p) (listed enc l) = Ok l.
Proof.
  intros He Hl HP Hp. eapply (parses_run _ _ _ []). rewrite <- (app_nil_r (listed enc l)). by apply (parses_listed p enc P).
Qed.

(** ** The sections *)

Definition content_of (b : LinkBootstrap) : partial :=
  mk_partial (Some (lb_person b)) (Some (lb_roster b)) (lb_contacts b) (lb_groups b) (lb_history_head b) (lb_profile b) None.

Definition content_sections (b : LinkBootstrap) : bytes :=
  push_section SECTION_PERSON (person_body (lb_person b)) ++ push_section SECTION_ROSTER (push_roster (lb_roster b))
  ++ push_section SECTION_CONTACTS (listed push_contact_entry (lb_contacts b)) ++ push_section SECTION_GROUPS (listed push_group (lb_groups b))
  ++ push_section SECTION_HISTORY_HEAD (listed push_message (lb_history_head b)) ++ push_section SECTION_PROFILE (profile_body (lb_profile b)).

Lemma prefix_sections b : bootstrap_prefix b =
  LINK_BOOTSTRAP_MAGIC ++ be_bytes 2 LINK_BOOTSTRAP_VERSION ++ be_bytes 8 (as_u64 (lb_created_at_ms b)) ++ content_sections b.
Proof. done. Qed.

Lemma section_length tag body : blen (push_section tag body) = 5 + blen body.
Proof. unfold push_section, push_bytes. rewrite !blen_app, blen_be_bytes. change (blen (push_u8 tag)) with 1. lia. Qed.

Lemma parses_section fuel p tag body p' q rest :
  in_u8 tag -> blen body <= U32_MAX -> read_section tag body p = Ok p' -> parses (read_sections fuel p') rest q [] ->
  parses (read_sections (S fuel) p) (push_section tag body ++ rest) q [].
Proof.
  intros Ht Hl Hs Hr. cbn [read_sections]. pose proof (blen_nonneg body).
  eapply parses_bind; [apply parses_is_finished|]. rewrite bool_decide_eq_false_2 by done.
  unfold push_section, push_bytes. rewrite as_u32_id by ints.
  parse_step; [done|]. parse_step; [ints|]. parse_step; [done|]. parse_step; [exact Hs|]. exact Hr.
Qed.

Lemma parses_done fuel p : parses (read_sections fuel p) [] p [].
Proof. destruct fuel; [apply parses_ret|]. eapply parses_bind; [apply parses_is_finished|]. apply parses_ret. Qed.

Lemma parses_content fuel b q rest : bootstrap_ok b -> blen (content_sections b) <= U32_MAX ->
  parses (read_sections fuel (content_of b)) rest q [] -> parses (read_sections (6 + fuel) no_sections) (content_sections b ++ rest) q [].
Proof.
  intros (_ & _ & _ & Hp & Hr & Hc & Hg & Hm & Hf) Hl Hq. unfold content_sections in *. rewrite !blen_app, !section_length in Hl.
  pose proof (blen_nonneg (person_body (lb_person b))). pose proof (blen_nonneg (push_roster (lb_roster b))).
  pose proof (blen_nonneg (listed push_contact_entry (lb_contacts b))). pose proof (blen_nonneg (listed push_group (lb_groups b))).
  pose proof (blen_nonneg (listed push_message (lb_history_head b))). pose proof (blen_nonneg (profile_body (lb_profile b))).
  rewrite <- !app_assoc. change (6 + fuel)%nat with (S (S (S (S (S (S fuel)))))).
  eapply parses_section; [split; by vm_compute|lia| |].
  { cbn [read_section no_sections Z.eqb Pos.eqb SECTION_PERSON]. rewrite parses_person by done. reflexivity. }
  eapply parses_section; [split; by vm_compute|lia| |].
  { cbn. rewrite (parses_run _ _ (lb_roster b) []); [reflexivity|]. rewrite <- (app_nil_r (push_roster _)). apply parses_link_roster; [done|lia]. }
  eapply parses_section; [split; by vm_compute|lia| |].
  { cbn. rewrite (run_listed _ _ entry_ok); [reflexivity|done|lia|done|apply parses_entry]. }
  eapply parses_section; [split; by vm_compute|lia| |].
  { cbn. rewrite (run_listed _ _ group_ok); [reflexivity|done|lia|done|apply parses_group]. }
  eapply parses_section; [split; by vm_compute|lia| |].
  { cbn. rewrite (run_listed _ _ message_ok); [reflexivity|done|lia|done|intros; by apply parses_message]. }
  eapply parses_section; [split; by vm_compute|lia| |exact Hq].
  cbn. rewrite parses_profile by done. reflexivity.
Qed.

Lemma parses_det {A} (p : reader CoreError A) bs a r a' r' : parses p bs a r -> parses p bs a' r' -> a = a'.
Proof. intros H H'. apply parses_run in H, H'. congruence. Qed.

(** The signed bytes determine what was exported, the channel and the expiry. *)
Lemma bootstrap_signed_inj b b' binding binding' expires expires' :
  bootstrap_ok b -> bootstrap_ok b' -> in_i64 expires -> in_i64 expires' -> blen (bootstrap_prefix b') <= LINK_BOOTSTRAP_MAX_BYTES ->
  blen binding = CHANNEL_BINDING_LEN -> blen binding' = CHANNEL_BINDING_LEN ->
  bootstrap_signed_message (bootstrap_prefix b) binding expires = bootstrap_signed_message (bootstrap_prefix b') binding' expires' ->
  lb_created_at_ms b = lb_created_at_ms b' /\ content_of b = content_of b' /\ binding = binding' /\ expires = expires'.
Proof.
  intros Hb Hb' He He' Hl Hc Hc' H. unfold bootstrap_signed_message in H. rewrite !be_bytes_as_u64, !app_assoc in H.
  apply app_inj_2 in H as [H Hx]; [|by rewrite !length_be_bytes]. apply app_inj_2 in H as [H Hbind]; [|unfold blen in *; lia].
  assert (expires = expires') as -> by (rewrite <- (to_i64_be_bytes expires), <- (to_i64_be_bytes expires'), Hx by done; done).
  assert (blen (bootstrap_prefix b) <= LINK_BOOTSTRAP_MAX_BYTES) as Hl' by (by rewrite H).
  rewrite !prefix_sections in H, Hl, Hl'. apply app_inv_head, app_inv_head in H. rewrite !be_bytes_as_u64 in H.
  apply app_inj_1 in H as [Hm H]; [|by rewrite !length_be_bytes]. change (content_sections b = content_sections b') in H.
  assert (blen (content_sections b) <= U32_MAX /\ blen (content_sections b') <= U32_MAX) as [L L'].
  { rewrite !blen_app in Hl, Hl'. change (blen LINK_BOOTSTRAP_MAGIC) with 8 in *. rewrite !blen_be_bytes in *.
    unfold LINK_BOOTSTRAP_MAX_BYTES in *. unfold_ints. lia. }
  split_and!; [|eapply (parses_det (read_sections 6 no_sections) (content_sections b))|done|done].
  - destruct Hb as (_ & Hb & _), Hb' as (_ & Hb' & _). rewrite <- (to_i64_be_bytes (lb_created_at_ms b)), Hm by done. by rewrite to_i64_be_bytes.
  - rewrite <- (app_nil_r (content_sections b)). apply (parses_content 0); [done|done|apply parses_done].
  - rewrite H, <- (app_nil_r (content_sections b')). apply (parses_content 0); [done|done|apply parses_done].
Qed.

Lemma encode_bootstrap_ok b bs : encode_bootstrap b = Ok bs <->
  blen (lb_channel_binding b) = CHANNEL_BINDING_LEN /\ blen (lb_signer_sign_pk b) = KEY_LEN /\ blen (lb_signature b) = SIGNATURE_LEN
  /\ bs = bootstrap_prefix b ++ push_section SECTION_AUTH (auth_body b) /\ blen bs <= LINK_BOOTSTRAP_MAX_BYTES.
Proof.
  unfold encode_bootstrap, check_len. rewrite !ensure_bind_ok, !Z.eqb_eq, Z.leb_le.
  split; [intros (? & ? & ? & ? & [= <-]); done|intros (? & ? & ? & -> & ?); done].
Qed.

(** What the code encodes it reads back. *)
Lemma bootstrap_round_trip b bs : bootstrap_ok b -> encode_bootstrap b = Ok bs -> decode_bootstrap bs = Ok b.
Proof.
  intros Hb (Hc & Hk & Hs & -> & Hl)%encode_bootstrap_ok. unfold decode_bootstrap. rewrite (proj2 (Z.leb_le _ _) Hl). cbn [ensure mbind result_bind].
  rewrite prefix_sections in Hl |- *. rewrite <- !app_assoc in *. rewrite !blen_app in Hl. change (blen LINK_BOOTSTRAP_MAGIC) with 8 in Hl.
  rewrite !blen_be_bytes, section_length in Hl. pose proof (blen_nonneg (content_sections b)). pose proof (blen_nonneg (auth_body b)).
  unfold LINK_BOOTSTRAP_MAX_BYTES in Hl. pose proof Hb as (Hv & Hcr & Hx & _).
  eapply (parses_run _ _ _ []). unfold read_bootstrap.
  eapply parses_bind; [by apply parses_take|]. rewrite bool_decide_eq_true_2 by done. parse_step; [done|].
  parse_step; [split; by vm_compute|]. parse_step; [done|]. parse_step; [done|]. eapply parses_bind; [by apply parses_i64_cast|].
  eapply parses_bind.
  - set (f := length _). assert (exists k, S f = (6 + S k)%nat) as [k ->].
    { subst f. exists (length (LINK_BOOTSTRAP_MAGIC ++ be_bytes 2 LINK_BOOTSTRAP_VERSION ++ be_bytes 8 (as_u64 (lb_created_at_ms b))
        ++ content_sections b ++ push_section SECTION_AUTH (auth_body b)) - 6)%nat. rewrite !length_app, !length_be_bytes. cbn [length LINK_BOOTSTRAP_MAGIC app]. cbn. lia. }
    apply parses_content; [done|ints|]. rewrite <- (app_nil_r (push_section _ _)). eapply parses_section; [split; by vm_compute|ints| |apply parses_done].
    unfold read_section, content_of, auth_body. rewrite parses_auth by done. reflexivity.
  - apply parses_lift. destruct b. cbn in Hv. subst. reflexivity.
Qed.

(** ** What is read keeps to the bounds *)

Definition yields {A} (p : reader CoreError A) (P : A -> Prop) : Prop := forall c a c', p c = Ok (a, c') -> P a.

Lemma yields_bind {A B} (p : reader CoreError A) (k : A -> reader CoreError B) P Q :
  yields p P -> (forall a, P a -> yields (k a) Q) -> yields (p ≫= k) Q.
Proof. intros Hp Hk c b c' (a & c1 & H1 & H2)%bind_inv. by eapply Hk, H2; eapply Hp. Qed.

Lemma yields_ret {A} (a : A) (P : A -> Prop) : P a -> yields (mret a) P.
Proof. by intros H c ? ? [= <- <-]. Qed.

Lemma yields_guard b e : yields (guard_ b e) (fun _ => b = true).
Proof. unfold guard_, lift, ensure. intros c a c' H. by destruct b. Qed.

Lemma yields_fail {A} e (P : A -> Prop) : yields (fail_ e) P.
Proof. done. Qed.

Lemma yields_lift {A} (r : result CoreError A) (P : A -> Prop) : (forall a, r = Ok a -> P a) -> yields (lift r) P.
Proof. intros H c a c'. unfold lift. destruct r; [|done]. intros [= <- <-]. by apply H. Qed.

Lemma yields_take n : 0 <= n -> yields (Cursor.take n) (fun bs => blen bs = n).
Proof.
  intros Hn c bs c'. unfold Cursor.take. case_match eqn:E; [|done]. bools. intros [= <- _]. unfold blen in *.
  rewrite length_take, length_drop. lia.
Qed.

Lemma yields_uint n : yields (bs ← Cursor.take (Z.of_nat n); mret (be_value bs)) (fun z => 0 <= z < 256 ^ Z.of_nat n).
Proof.
  eapply yields_bind; [apply yields_take; lia|]. intros bs Hl. apply yields_ret. assert (length bs = n) as <- by (unfold blen in Hl; lia).
  apply be_value_range.
Qed.

Lemma yields_weaken {A} (p : reader CoreError A) (P Q : A -> Prop) : yields p P -> (forall a, P a -> Q a) -> yields p Q.
Proof. intros Hp H c a c' E. by eapply H, Hp. Qed.

Lemma yields_u8 : yields Cursor.take_u8 in_u8.
Proof. eapply yields_weaken; [apply (yields_uint 1)|]. intros z. change (256 ^ Z.of_nat 1) with 256. ints. Qed.

Lemma yields_u32 : yields Cursor.take_u32 in_u32.
Proof. eapply yields_weaken; [apply (yields_uint 4)|]. intros z. change (256 ^ Z.of_nat 4) with 4294967296. ints. Qed.

Lemma yields_u64 : yields Cursor.take_u64 in_u64.
Proof. eapply yields_weaken; [apply (yields_uint 8)|]. intros z. change (256 ^ Z.of_nat 8) with 18446744073709551616. ints. Qed.

Lemma yields_i64 : yields Cursor.take_i64 in_i64.
Proof.
  intros c z c' (bs & c1 & H1 & H2)%bind_inv. assert (blen bs = 8) as Hl by (eapply (yields_take 8); [lia|done]).
  injection H2 as <- _. pose proof (be_value_range bs) as Hr. unfold blen in Hl. rewrite Hl in Hr.
  change (256 ^ 8) with 18446744073709551616 in Hr. unfold_ints. case_match eqn:E; bools; lia.
Qed.

Lemma yields_many {A} n (p : reader CoreError A) P : yields p P -> yields (Cursor.take_many n p) (Forall P).
Proof.
  intros Hp. induction n as [|n IH]; cbn [Cursor.take_many]; [apply yields_ret; constructor|].
  eapply yields_bind; [exact Hp|]. intros a Ha. eapply yields_bind; [exact IH|]. intros l Hl. apply yields_ret. by constructor.
Qed.

Lemma yields_any {A} (p : reader CoreError A) : yields p (fun _ => True).
Proof. done. Qed.

Lemma yields_listed {A} (p : reader CoreError A) P : yields p P -> yields (read_listed p) (Forall P).
Proof. intros Hp. eapply yields_bind; [apply yields_any|]. intros n _. by apply yields_many. Qed.

Lemma yields_field : yields bytes_field field_ok.
Proof.
  eapply yields_bind; [apply yields_u32|]. intros n Hn. eapply yields_bind; [apply yields_guard|]. intros [] Hg%Z.leb_le.
  eapply yields_weaken; [apply yields_take; ints|]. unfold field_ok. intros bs ->. lia.
Qed.

Lemma yields_text : yields text_field text_ok.
Proof.
  eapply yields_bind; [apply yields_field|]. intros t Ht. eapply yields_bind; [apply yields_guard|]. intros [] Hu. by apply yields_ret.
Qed.

Lemma yields_optional_text : yields optional_text opt_text_ok.
Proof.
  eapply yields_bind; [apply yields_any|]. intros f _. destruct (f =? 0); [by apply yields_ret|]. destruct (f =? 1); [|apply yields_fail].
  eapply yields_bind; [apply yields_text|]. intros t Ht. by apply yields_ret.
Qed.

(** One field of a record after another. *)
Ltac yields_fields :=
  repeat (eapply yields_bind;
    [first [apply yields_field | apply yields_text | apply yields_optional_text | apply yields_u64 | apply yields_i64 | apply yields_u32
           | apply yields_u8 | eassumption | (apply yields_listed; eassumption)]
    | let a := fresh "a" in let H := fresh "Ha" in intros a H]);
  apply yields_ret; repeat first [eassumption | refine (conj _ _)].

Lemma yields_cert : yields read_link_cert cert_ok.
Proof. yields_fields. Qed.

Lemma yields_tombstone : yields read_link_tombstone tombstone_ok.
Proof. yields_fields. Qed.

Lemma yields_roster : yields read_link_roster roster_ok.
Proof. pose proof yields_cert. pose proof yields_tombstone. yields_fields. Qed.

Lemma yields_contact : yields read_contact contact_ok.
Proof. yields_fields. Qed.

Lemma yields_entry : yields read_bootstrap_contact entry_ok.
Proof.
  eapply yields_bind; [apply yields_contact|]. intros ct Hc. eapply yields_bind; [apply yields_u8|]. intros f _.
  destruct (f =? 0); [by apply yields_ret|]. destruct (f =? 1); [|apply yields_fail].
  eapply yields_bind; [apply yields_roster|]. intros x Hx. by apply yields_ret.
Qed.

Lemma yields_group : yields read_group group_ok.
Proof. pose proof yields_field. yields_fields. Qed.

Lemma yields_message : yields read_stored_message message_ok.
Proof. yields_fields. Qed.

Lemma yields_person : yields read_person person_ok.
Proof. yields_fields. Qed.

Lemma yields_profile : yields read_link_profile profile_ok.
Proof. yields_fields. Qed.

Definition auth_ok (a : LinkAuth) : Prop :=
  blen (la_binding a) = CHANNEL_BINDING_LEN /\ in_i64 (la_expires_at_ms a) /\ blen (la_signer a) = KEY_LEN /\ blen (la_signature a) = SIGNATURE_LEN.

Lemma yields_auth : yields read_auth auth_ok.
Proof.
  eapply yields_bind; [by apply yields_take|]. intros b Hb. eapply yields_bind; [apply yields_i64|]. intros e He.
  eapply yields_bind; [by apply yields_take|]. intros k Hk. eapply yields_bind; [by apply yields_take|]. intros s Hs. by apply yields_ret.
Qed.

Definition partial_ok (p : partial) : Prop :=
  from_option person_ok True (pt_person p) /\ from_option roster_ok True (pt_roster p) /\ Forall entry_ok (pt_contacts p)
  /\ Forall group_ok (pt_groups p) /\ Forall message_ok (pt_history p) /\ profile_ok (pt_profile p) /\ from_option auth_ok True (pt_auth p).

Lemma yields_run {A} (p : reader CoreError A) P bs a : yields p P -> Cursor.run p bs = Ok a -> P a.
Proof. intros Hp. unfold Cursor.run. destruct (p _) as [[x c]|e] eqn:E; [|done]. intros [= <-]. by eapply Hp. Qed.

Lemma read_section_ok tag body p p' : partial_ok p -> read_section tag body p = Ok p' -> partial_ok p'.
Proof.
  destruct p as [person roster contacts groups history profile auth]. intros (H1 & H2 & H3 & H4 & H5 & H6 & H7). cbn in H1, H2, H3, H4, H5, H6, H7.
  intros H. unfold read_section in H. repeat (destruct (_ =? _) in H); inv_ok; subst; try (by split_and!);
    match goal with H : Cursor.run _ _ = Ok _ |- _ => rename H into Hx end; refine (conj _ (conj _ (conj _ (conj _ (conj _ (conj _ _))))));
    cbn; try assumption.
  - apply (yields_run _ _ _ _ yields_person Hx).
  - apply (yields_run _ _ _ _ yields_roster Hx).
  - apply Forall_app. split; [done|]. apply (yields_run _ _ _ _ (yields_listed _ _ yields_entry) Hx).
  - apply Forall_app. split; [done|]. apply (yields_run _ _ _ _ (yields_listed _ _ yields_group) Hx).
  - apply Forall_app. split; [done|]. apply (yields_run _ _ _ _ (yields_listed _ _ yields_message) Hx).
  - apply (yields_run _ _ _ _ yields_profile Hx).
  - apply (yields_run _ _ _ _ yields_auth Hx).
Qed.

Lemma yields_sections fuel p : partial_ok p -> yields (read_sections fuel p) partial_ok.
Proof.
  revert p. induction fuel as [|fuel IH]; intros p Hp; cbn [read_sections]; [by apply yields_ret|].
  eapply yields_bind; [apply yields_any|]. intros [] _; [by apply yields_ret|].
  do 3 (eapply yields_bind; [apply yields_any|]; intros ? _). eapply yields_bind; [apply yields_lift; intros p'; by apply read_section_ok|].
  intros p' Hp'. by apply IH.
Qed.

(** What is decoded keeps to the bounds, and its signature has the widths of one. *)
Definition signed_widths (b : LinkBootstrap) : Prop :=
  blen (lb_channel_binding b) = CHANNEL_BINDING_LEN /\ blen (lb_signer_sign_pk b) = KEY_LEN /\ blen (lb_signature b) = SIGNATURE_LEN.

Lemma decoded_bootstrap_ok bs b : decode_bootstrap bs = Ok b -> bootstrap_ok b /\ signed_widths b.
Proof.
  unfold decode_bootstrap. intros H. inv_ok. revert H. apply (yields_run _ (fun b => bootstrap_ok b /\ signed_widths b)).
  eapply yields_bind; [apply yields_any|]. intros m _. eapply yields_bind; [apply yields_any|]. intros _ _.
  eapply yields_bind; [apply yields_any|]. intros v _. eapply yields_bind; [apply yields_guard|]. intros [] Hv1%Z.leb_le.
  eapply yields_bind; [apply yields_guard|]. intros [] Hv2%Z.leb_le. eapply yields_bind; [apply yields_i64|]. intros t Ht.
  eapply yields_bind; [apply yields_sections; repeat split; by try constructor|]. intros p (H1 & H2 & H3 & H4 & H5 & H6 & H7).
  apply yields_lift. intros x Hx. unfold finish_bootstrap in Hx. inv_ok.
  rewrite !option_ok_ok in *. subst.
  rewrite Ha0 in H7. rewrite Ha1 in H1. rewrite Ha2 in H2. destruct H7 as (A1 & A2 & A3 & A4).
  exact (conj (conj (Z.le_antisymm _ _ Hv1 Hv2) (conj Ht (conj A2 (conj H1 (conj H2 (conj H3 (conj H4 (conj H5 H6)))))))) (conj A1 (conj A3 A4))).
Qed.

(** * The stream of chunks *)

Lemma pieces_concat fuel n bs : (0 < n)%nat -> (length bs <= fuel)%nat -> concat (pieces fuel n bs) = bs.
Proof.
  intros Hn. revert bs. induction fuel as [|fuel IH]; intros [|b bs] Hl; cbn [pieces]; [done|cbn in Hl; lia|done|].
  cbn [concat]. rewrite IH; [apply take_drop|]. rewrite length_drop. cbn [length] in *. lia.
Qed.

Lemma pieces_bounded fuel n bs : Forall (fun p => (length p <= n)%nat) (pieces fuel n bs).
Proof.
  revert bs. induction fuel as [|fuel IH]; intros [|b bs]; cbn [pieces]; constructor; [|by apply IH].
  rewrite length_take. lia.
Qed.

Lemma pieces_count fuel n bs : (0 < n)%nat -> (length bs <= fuel)%nat -> blen (pieces fuel n bs) = div_ceil (blen bs) (Z.of_nat n).
Proof.
  intros Hn. revert bs. induction fuel as [|fuel IH]; intros [|b bs] Hl; cbn [pieces]; [|cbn in Hl; lia| |].
  1,2: unfold div_ceil; rewrite blen_nil, Z.add_0_l, Z.div_small; [done|lia].
  rewrite blen_cons, IH; [|rewrite length_drop; cbn [length] in *; lia]. unfold div_ceil, blen. rewrite length_drop.
  destruct (decide (n <= length (b :: bs))%nat).
  - rewrite Nat2Z.inj_sub by lia. rewrite <- (Z.div_add_l 1) by lia. f_equal. lia.
  - rewrite (Z.div_small (Z.of_nat (length (b :: bs) - n) + _ - _)) by lia. cbn [length] in *.
    apply Z.div_unique with (Z.of_nat (S (length bs)) - 1); lia.
Qed.

Lemma chunk_fields total i piece : in_u32 total -> in_u32 i ->
  be_value (take 4 (bootstrap_chunk total i piece)) = i /\ be_value (take 4 (drop 4 (bootstrap_chunk total i piece))) = total
  /\ drop 8 (bootstrap_chunk total i piece) = piece /\ blen (bootstrap_chunk total i piece) = CHUNK_HEADER_LEN + blen piece.
Proof.
  intros Ht Hi. unfold bootstrap_chunk. rewrite !as_u32_id by done.
  pose proof (length_be_bytes 4 i). pose proof (length_be_bytes 4 total). split_and!.
  - rewrite take_app_length' by done. apply be_value_be_bytes_small. change (256 ^ Z.of_nat 4) with 4294967296. ints.
  - rewrite drop_app_length' by done. rewrite take_app_length' by done. apply be_value_be_bytes_small. change (256 ^ Z.of_nat 4) with 4294967296. ints.
  - rewrite app_assoc. apply drop_app_length'. rewrite length_app. lia.
  - rewrite !blen_app, !blen_be_bytes. unfold CHUNK_HEADER_LEN. lia.
Qed.

(** Chunks that carry their places are joined to what they carry. *)
Lemma join_loop_in_order total ps : in_u32 total -> forall i payload d, (match d with Some t => t = total | None => True end) ->
  Z.of_nat (i + length ps) <= U32_MAX -> blen payload + blen (concat ps) <= LINK_BOOTSTRAP_MAX_BYTES ->
  join_loop i (imap (fun k p => bootstrap_chunk total (Z.of_nat (i + k)) p) ps) (payload, d)
  = Ok (payload ++ concat ps, match ps with [] => d | _ => Some total end).
Proof.
  intros Ht. induction ps as [|p ps IH]; intros i payload d Hd Hi Hl; [cbn; by rewrite app_nil_r|].
  rewrite imap_cons. cbn [join_loop length concat] in *. rewrite blen_app in Hl. rewrite Nat.add_0_r.
  destruct (chunk_fields total (Z.of_nat i) p Ht ltac:(ints)) as (F1 & F2 & F3 & F4). unfold join_chunk.
  rewrite F1, F2, F3, F4. pose proof (blen_nonneg p). pose proof (blen_nonneg (concat ps)).
  rewrite (proj2 (Z.leb_le CHUNK_HEADER_LEN _)) by lia. rewrite Z.eqb_refl, blen_app. rewrite (proj2 (Z.leb_le (blen payload + blen p) _)) by lia.
  assert ((match d with Some declared => declared =? total | None => true end) = true) as -> by (destruct d; [subst; apply Z.eqb_refl|done]).
  cbn [ensure mbind result_bind].
  erewrite imap_ext; [rewrite (IH (S i) (payload ++ p) (Some total)); [|done|lia|rewrite blen_app; lia]|].
  - rewrite <- app_assoc. by destruct ps.
  - intros k x _. cbn. f_equal. lia.
Qed.

(** What was joined had every chunk at its place, and one count in all of them. *)
Lemma join_loop_inv cs : forall i st out, join_loop i cs st = Ok out ->
  (forall k c, cs !! k = Some c -> be_value (take 4 c) = Z.of_nat (i + k) /\ out.2 = Some (be_value (take 4 (drop 4 c))))
  /\ (forall t, st.2 = Some t -> out.2 = Some t).
Proof.
  induction cs as [|c cs IH]; intros i st out H; cbn [join_loop] in H; [injection H as <-; by split|].
  apply result_bind_ok in H as (st' & Hj & H). apply IH in H as [Hk Ht]. unfold join_chunk in Hj. destruct st as [payload d].
  inv_ok.
  cbn [snd fst] in *. split.
  - intros [|k] c' Hc; cbn in Hc.
    + injection Hc as <-. split; [|by apply Ht]. bools. lia.
    + destruct (Hk k c' Hc) as [-> ->]. split; [lia|done].
  - intros t ->. bools. subst. by apply Ht.
Qed.

Lemma chunks_ok p cs : core_link_bootstrap_chunks p = Ok cs <-> p <> [] /\ blen p <= LINK_BOOTSTRAP_MAX_BYTES
  /\ cs = imap (fun i piece => bootstrap_chunk (div_ceil (blen p) (Z.of_nat chunk_body_len)) (Z.of_nat i) piece) (pieces (length p) chunk_body_len p).
Proof.
  unfold core_link_bootstrap_chunks. rewrite !ensure_bind_ok, negb_true_iff, bool_decide_eq_false, Z.leb_le. naive_solver.
Qed.

Lemma chunk_body_Z : Z.of_nat chunk_body_len = LINK_CHANNEL_MAX_PLAINTEXT_BYTES - CHUNK_HEADER_LEN.
Proof. unfold chunk_body_len. rewrite Z2Nat.id; [reflexivity|]. unfold LINK_CHANNEL_MAX_PLAINTEXT_BYTES, CHUNK_HEADER_LEN. lia. Qed.

Lemma chunk_body_pos : (0 < chunk_body_len)%nat.
Proof. apply Nat2Z.inj_lt. rewrite chunk_body_Z. unfold LINK_CHANNEL_MAX_PLAINTEXT_BYTES, CHUNK_HEADER_LEN. lia. Qed.

#[local] Opaque chunk_body_len.

(** The pieces of an export, and how many. *)
Lemma pieces_of p : p <> [] -> blen p <= LINK_BOOTSTRAP_MAX_BYTES ->
  let ps := pieces (length p) chunk_body_len p in
  concat ps = p /\ ps <> [] /\ blen ps = div_ceil (blen p) (Z.of_nat chunk_body_len) /\ blen ps <= blen p
  /\ Forall (fun c => (length c <= chunk_body_len)%nat) ps.
Proof.
  intros Hp Hl ps. pose proof chunk_body_pos as Hn.
  assert (concat ps = p) as Hc by (apply pieces_concat; [exact Hn|lia]). split_and!; [done|by intros H; rewrite H in Hc| | |apply pieces_bounded].
  - apply pieces_count; [exact Hn|lia].
  - assert (blen ps = div_ceil (blen p) (Z.of_nat chunk_body_len)) as -> by (apply pieces_count; [exact Hn|lia]). unfold div_ceil. pose proof (blen_nonneg p).
    assert (blen p <> 0) by (intros H0; by apply Hp, blen_zero). apply Z.div_le_upper_bound; nia.
Qed.

(** A stream is joined to what was sent, and no other selection of its chunks is joined. *)
Lemma chunk_stream_exact p cs : core_link_bootstrap_chunks p = Ok cs ->
  core_link_bootstrap_join cs = Ok p /\ Forall (fun c => blen c <= LINK_CHANNEL_MAX_PLAINTEXT_BYTES) cs
  /\ forall cs' p', Forall (fun c => c ∈ cs) cs' -> core_link_bootstrap_join cs' = Ok p' -> cs' = cs.
Proof.
  rewrite chunks_ok. intros (Hp & Hl & Hcs). destruct (pieces_of p Hp Hl) as (Hc & Hne & Hn & Hb & Hs).
  set (total := div_ceil _ _) in *. set (ps := pieces _ _ _) in *. unfold LINK_BOOTSTRAP_MAX_BYTES in Hl. pose proof (blen_nonneg ps).
  assert (in_u32 total) as Ht by (rewrite <- Hn; ints). assert (blen cs = total) as Hlen by (rewrite Hcs, <- Hn; unfold blen; by rewrite length_imap).
  assert (forall i c, cs !! i = Some c -> exists q, c = bootstrap_chunk total (Z.of_nat i) q /\ q ∈ ps /\ in_u32 (Z.of_nat i)) as Hget.
  { intros i c Hi. rewrite Hcs, list_lookup_imap in Hi. apply fmap_Some in Hi as (q & Hq & ->). exists q. split; [done|].
    split; [by eapply list_elem_of_lookup_2|]. apply lookup_lt_Some in Hq. unfold blen in *. ints. }
  split_and!.
  - unfold core_link_bootstrap_join. rewrite bool_decide_eq_false_2; [|intros ->; apply Hne, length_zero_iff_nil; unfold blen in *; cbn in *; lia].
    rewrite Hcs. pose proof (join_loop_in_order total ps Ht 0 [] None I) as Hj. cbn [Nat.add app] in Hj. cbn [negb ensure mbind result_bind].
    rewrite Hj; [|unfold blen in *; ints|rewrite Hc; rewrite blen_nil; unfold LINK_BOOTSTRAP_MAX_BYTES; lia]. rewrite <- Hcs, Hlen, Hc. destruct ps; [done|]. cbn [mbind result_bind snd fst].
    by rewrite bool_decide_eq_true_2.
  - apply Forall_lookup. intros i c Hi. destruct (Hget i c Hi) as (q & -> & Hq & Hi32). destruct (chunk_fields total _ q Ht Hi32) as (_ & _ & _ & ->).
    rewrite Forall_forall in Hs. specialize (Hs q Hq). pose proof chunk_body_Z. unfold blen in *. lia.
  - intros cs' p' Hin Hj. unfold core_link_bootstrap_join in Hj. inv_ok. bools.
    match goal with H : join_loop _ _ _ = Ok _ |- _ => apply join_loop_inv in H as [Hat _] end. rewrite Forall_lookup in Hin.
    assert (forall k c, cs' !! k = Some c -> cs !! k = Some c /\ total = blen cs') as Hsame.
    { intros k c Hk. destruct (Hat k c Hk) as [Hseq Htot]. pose proof (Hin k c Hk) as Hc'. apply list_elem_of_lookup in Hc' as [j Hjj].
      destruct (Hget j c Hjj) as (q & -> & _ & Hj32). destruct (chunk_fields total _ q Ht Hj32) as (F1 & F2 & _). rewrite F1 in Hseq. rewrite F2 in Htot.
      assert (j = k) as -> by lia. split; [done|]. congruence. }
    destruct cs' as [|c cs']; [done|]. destruct (Hsame 0%nat c eq_refl) as [_ Htot]. apply list_eq. intros k.
    destruct ((c :: cs') !! k) as [x|] eqn:Hk; [by destruct (Hsame k x Hk)|]. apply lookup_ge_None in Hk. symmetry. apply lookup_ge_None.
    unfold blen in *. lia.
Qed.

(** * Verified exports *)

Section verified.
Context `{C : Crypto} `{S : SealCrypto}.

Lemma bootstrap_verify_ok b binding now : core_link_bootstrap_verify b binding now = Ok tt <->
  blen binding = CHANNEL_BINDING_LEN /\ lb_channel_binding b = binding /\ now <= lb_expires_at_ms b
  /\ derive_user_id (lb_signer_sign_pk b) = approving_device_id (lb_roster b)
  /\ lb_signer_sign_pk b ∈ (device_sign_pk <$> devices (lb_roster b))
  /\ core_device_verify DomainDeviceLinkBootstrap (lb_signer_sign_pk b)
       (bootstrap_signed_message (bootstrap_prefix b) (lb_channel_binding b) (lb_expires_at_ms b)) (lb_signature b) = Ok tt.
Proof.
  unfold core_link_bootstrap_verify, check_len. rewrite !ensure_bind_ok, Z.eqb_eq, Z.leb_le, !bool_decide_eq_true.
  assert (existsb (fun c => bool_decide (device_sign_pk c = lb_signer_sign_pk b)) (devices (lb_roster b)) = true
          <-> lb_signer_sign_pk b ∈ (device_sign_pk <$> devices (lb_roster b))) as ->; [|done].
  rewrite existsb_exists, list_elem_of_fmap. setoid_rewrite bool_decide_eq_true. setoid_rewrite <- list_elem_of_In. naive_solver.
Qed.

(** Ed25519 is unforgeable: what verifies under this key in the bootstrap domain its
    holder signed as one of these exports. *)
Definition bootstraps_signed_only (pk : bytes) (made : list LinkBootstrap) : Prop :=
  forall rest sig, ed25519_verify pk (DEVICE_LINK_BOOTSTRAP_SIGN_DOMAIN ++ rest) sig = true ->
  exists b, b ∈ made /\ bootstrap_ok b /\ blen (lb_channel_binding b) = CHANNEL_BINDING_LEN
    /\ blen (bootstrap_prefix b) <= LINK_BOOTSTRAP_MAX_BYTES
    /\ rest = push_len_prefixed (bootstrap_signed_message (bootstrap_prefix b) (lb_channel_binding b) (lb_expires_at_ms b)).

Definition with_signature (b : LinkBootstrap) (signer sig : bytes) : LinkBootstrap :=
  mk_bootstrap (lb_version b) (lb_created_at_ms b) (lb_person b) (lb_roster b) (lb_contacts b) (lb_groups b) (lb_history_head b) (lb_profile b)
    (lb_channel_binding b) (lb_expires_at_ms b) signer sig.

(** C39: a bootstrap that verifies is, field for field, one the person's approving device
    made for this very ceremony.  Whatever bytes arrive, if they decode and the export
    verifies against the channel binding this device recorded, then its signer is listed
    in the export's own roster, which names it as the approving device; that device signed
    exactly this content, for this channel; and the export has not expired. *)
Theorem verified_bootstrap_authentic made bs b binding now :
  (forall c, c ∈ devices (lb_roster b) -> bootstraps_signed_only (device_sign_pk c) (made (device_sign_pk c))) ->
  decode_bootstrap bs = Ok b -> core_link_bootstrap_verify b binding now = Ok tt ->
  now <= lb_expires_at_ms b /\ lb_channel_binding b = binding
  /\ exists c b0, c ∈ devices (lb_roster b) /\ device_sign_pk c = lb_signer_sign_pk b
       /\ derive_user_id (device_sign_pk c) = approving_device_id (lb_roster b)
       /\ b0 ∈ made (device_sign_pk c) /\ b = with_signature b0 (device_sign_pk c) (lb_signature b).
Proof.
  intros Hm (Hok & Hwidth & _)%decoded_bootstrap_ok (_ & Hb & Hnow & Hid & Hin & Hv)%bootstrap_verify_ok.
  split; [done|]. split; [done|]. apply list_elem_of_fmap in Hin as (c & Hc & Hin). unfold core_device_verify, verify_raw in Hv. inv_ok.
  match goal with H : ed25519_verify _ _ _ = true |- _ => rename H into Hsig end. rewrite Hc in Hsig. unfold domain_signed_bytes in Hsig.
  destruct (Hm c Hin _ _ Hsig) as (b0 & Hb0 & Hok0 & Hw0 & Hl0 & Hrest). apply app_inj_1 in Hrest as [_ Hrest]; [|by rewrite !length_be_bytes].
  pose proof Hok as (Hv1 & _ & He & _). pose proof Hok0 as (Hv2 & _ & He0 & _).
  destruct (bootstrap_signed_inj _ _ _ _ _ _ Hok Hok0 He He0 Hl0 Hwidth Hw0 Hrest) as (Ht & Hcontent & Hbind & Hexp).
  exists c, b0. split_and!; [done|done|by rewrite <- Hc|done|]. unfold content_of in Hcontent. injection Hcontent as ? ? ? ? ? ?.
  rewrite <- Hc. destruct b, b0. unfold with_signature. cbn in *. congruence.
Qed.

(** ** What the approving device builds *)

(** What building reads stays as it was. *)
Definition same_sources (s s' : mesh_store) : Prop :=
  ms_contacts s' = ms_contacts s /\ ms_messages s' = ms_messages s /\ ms_routing s' = ms_routing s.

Lemma roster_state_sources p s s' st : contact_roster_state p s = (s', Ok st) -> same_sources s s'.
Proof.
  unfold contact_roster_state, on_engine. destruct (load_state _ _) as [[? ?]|]; [|done]. by intros [= <- _].
Qed.

Definition head_message (s : mesh_store) (m : StoredMessage) : Prop :=
  blen (sm_payload m) <= LINK_BOOTSTRAP_MAX_MESSAGE_BYTES
  /\ exists row, row ∈ ms_messages s /\ m = row_to_message row
       /\ (core_is_visible_chat_kind (mr_kind row) = true \/ mr_kind row = KIND_REACTION).

Lemma recent_rows_in limit rows r : r ∈ recent_rows limit rows -> r ∈ rows.
Proof.
  unfold recent_rows. destruct (sql_limit_prefix (Z.min limit I64_MAX) (reverse (merge_sort oldest_first rows))) as [l Hl].
  intros Hr. assert (r ∈ reverse (merge_sort oldest_first rows)) as Hin by (rewrite Hl; set_solver).
  rewrite reverse_Permutation in Hin. by rewrite merge_sort_Permutation in Hin.
Qed.

Lemma history_head_small s n chat : Forall (head_message s) (history_head_of s n chat).
Proof.
  apply Forall_forall. intros m. unfold history_head_of, recent_presentation_messages_for_chat. intros [Hl Hm]%list_elem_of_filter.
  split; [done|]. apply list_elem_of_fmap in Hm as (r & -> & Hr). rewrite merge_sort_Permutation in Hr. exists r.2.
  assert (forall P `{!forall x, Decision (P x)}, r ∈ filter P (filter (fun r => mr_chat_id r.2 = chat) (imap pair (ms_messages s))) -> P r /\ r.2 ∈ ms_messages s) as Hf.
  { intros P HP [Hp [_ Hi]%list_elem_of_filter]%list_elem_of_filter. split; [done|]. apply elem_of_lookup_imap in Hi as (i & x & -> & Hx).
    by eapply list_elem_of_lookup_2. }
  apply elem_of_app in Hr as [Hr|Hr]; apply recent_rows_in, Hf in Hr as [Hk Hr]; split_and!; by auto.
Qed.

Lemma export_contacts_ok n : forall cs s s' out, export_contacts n cs s = (s', Ok out) ->
  same_sources s s' /\ lc_contact <$> out.1 = cs /\ Forall (head_message s) out.2.
Proof.
  induction cs as [|c cs IH]; intros s s' out H; cbn [export_contacts] in H; act_inv; [by repeat split; constructor|].
  match goal with H : contact_roster_state _ _ = _ |- _ => apply roster_state_sources in H as (E1 & E2 & E3) end.
  match goal with H : export_contacts _ _ _ = _ |- _ => apply IH in H as ((F1 & F2 & F3) & Hc & Hm) end.
  split; [split_and!; congruence|]. cbn. split; [by rewrite Hc|]. apply Forall_app. unfold head_message in *. rewrite E2 in Hm.
  split; [|exact Hm]. pose proof (history_head_small s0 n (ct_user_id c)) as Hh. unfold head_message in Hh. by rewrite E2 in Hh.
Qed.

Lemma build_link_bootstrap_ok s s' identity profile roster sk binding per_chat lifetime now b :
  build_link_bootstrap identity profile roster sk binding per_chat lifetime now s = (s', Ok b) ->
  blen sk = 32 /\ person_id roster = id_user_id identity /\ derive_user_id (ed25519_public sk) = approving_device_id roster
  /\ same_sources s s' /\ lb_roster b = roster /\ lb_channel_binding b = binding /\ blen binding = CHANNEL_BINDING_LEN
  /\ lb_signer_sign_pk b = ed25519_public sk /\ lb_version b = LINK_BOOTSTRAP_VERSION
  /\ lb_expires_at_ms b = i64_saturating_add now (if lifetime =? 0 then LINK_BOOTSTRAP_DEFAULT_LIFETIME_MS else lifetime)
  /\ lb_person b = mk_link_person (id_user_id identity) (id_sign_pk identity) (inbox_key_generation roster) (id_agree_pk identity) (id_agree_sk identity)
  /\ lb_profile b = profile /\ lc_contact <$> lb_contacts b = list_contacts s /\ lb_groups b = list_groups s
  /\ Forall (head_message s) (lb_history_head b)
  /\ lb_signature b = ed25519_sign sk (domain_signed_bytes DomainDeviceLinkBootstrap
       (bootstrap_signed_message (bootstrap_prefix b) (lb_channel_binding b) (lb_expires_at_ms b))).
Proof.
  unfold build_link_bootstrap, key32, check_len, core_device_sign. intros H. act_inv. inv_ok. bools.
  match goal with H : export_contacts _ _ _ = _ |- _ => apply export_contacts_ok in H as (Hsame & Hc & Hh) end.
  pose proof Hsame as (_ & Hm & Hr). match type of Hm with ms_messages ?x = _ => rename x into s1 end.
  match goal with H : key32 _ = Ok ?k |- _ => unfold key32 in H; inv_ok; subst end.
  assert (list_groups s1 = list_groups s) as Hg by (unfold list_groups; by rewrite Hr).
  repeat first [done | apply conj]. apply Forall_app. split; [done|]. apply Forall_forall. intros m (g & Hin & _)%list_elem_of_bind.
  pose proof (history_head_small s1 (if per_chat =? 0 then LINK_BOOTSTRAP_HISTORY_HEAD_PER_CHAT else per_chat) (group_id g)) as Hs.
  rewrite Forall_forall in Hs. specialize (Hs m Hin). unfold head_message in *. by rewrite Hm in Hs.
Qed.

(** C26: what the approving device exports reaches the new device whole and is accepted
    there, and nowhere else.  An export that was built and encoded is cut into frames that
    each fit the channel; they join to the same bytes, which decode to the same export;
    no dropped, repeated or reordered selection of those frames joins at all.  The export
    carries every contact and group of the store, and of its messages only small visible
    ones and reactions.  It verifies exactly for the binding it was built with, until it
    expires, provided the roster lists the device that signed it. *)
Theorem bootstrap_crosses_channel `{!SealLaws C S} s s' identity profile roster sk binding per_chat lifetime now b bs :
  build_link_bootstrap identity profile roster sk binding per_chat lifetime now s = (s', Ok b) ->
  bootstrap_ok b -> encode_bootstrap b = Ok bs ->
  (exists cs, core_link_bootstrap_chunks bs = Ok cs /\ Forall (fun c => blen c <= LINK_CHANNEL_MAX_PLAINTEXT_BYTES) cs
     /\ core_link_bootstrap_join cs = Ok bs
     /\ forall cs' p', Forall (fun c => c ∈ cs) cs' -> core_link_bootstrap_join cs' = Ok p' -> cs' = cs)
  /\ decode_bootstrap bs = Ok b
  /\ lc_contact <$> lb_contacts b = list_contacts s /\ lb_groups b = list_groups s /\ Forall (head_message s) (lb_history_head b)
  /\ forall binding' t, core_link_bootstrap_verify b binding' t = Ok tt <->
       binding' = binding /\ t <= lb_expires_at_ms b /\ ed25519_public sk ∈ (device_sign_pk <$> devices roster).
Proof.
  intros (_ & _ & Hid & _ & Hr & Hb & Hbl & Hpk & _ & _ & _ & _ & Hc & Hg & Hm & Hsig)%build_link_bootstrap_ok Hok He.
  pose proof (bootstrap_round_trip _ _ Hok He) as Hd. apply encode_bootstrap_ok in He as (_ & _ & _ & Hbs & Hl).
  split_and!; try done.
  - destruct (core_link_bootstrap_chunks bs) as [cs|e] eqn:Hcs.
    + exists cs. destruct (chunk_stream_exact _ _ Hcs) as (H1 & H2 & H3). by split_and!.
    + unfold core_link_bootstrap_chunks in Hcs. rewrite bool_decide_eq_false_2 in Hcs by (by rewrite Hbs).
      rewrite (proj2 (Z.leb_le _ _) Hl) in Hcs. discriminate Hcs.
  - intros binding' t. rewrite bootstrap_verify_ok, Hr, Hb, Hpk. split; [naive_solver|].
    intros (-> & Ht & Hin). split_and!; try done. rewrite Hb in Hsig. rewrite Hsig. unfold core_device_verify, verify_raw, is_len.
    rewrite sign_length, public_length, public_ok, verify_sign. done.
Qed.
End verified.

(** ** Witnesses *)

Definition toy_roster `{C : Crypto} : Roster :=
  mk_roster (replicate 16 x05) 0 2 [mk_cert (replicate 16 x05) (replicate 32 x01) (replicate 32 x03) 0 1 (replicate 32 x01) (replicate 64 x01)]
    [] (derive_user_id (replicate 32 x01)) 0 (replicate 32 x01) (replicate 64 x01).

Definition toy_profile : LinkBootstrapProfile := mk_link_profile (Some [x41]) [] 5.

Definition toy_store : mesh_store :=
  let s := put_contact empty_store (mk_contact (replicate 16 x07) [x41] (replicate 32 x07) (replicate 32 x08) None None None) in
  with_engine (fun e => mk_edb (e_routing e) (e_rosters e)
    [mk_mrow None (replicate 16 x07) (replicate 16 x07) LEGACY_DEVICE_ID 1 1000 KIND_TEXT [x68; x69]] (e_conflicts e) (e_hidden e) (e_carried e)) s.

Definition toy_build `{C : Crypto} : mesh_store * result CoreError LinkBootstrap :=
  build_link_bootstrap (S := toy_seal) toy_identity toy_profile toy_roster (replicate 32 x01) (replicate 32 x0c) 0 0 2000 toy_store.

Definition toy_bootstrap `{C : Crypto} : LinkBootstrap :=
  match toy_build.2 with
  | Ok b => b
  | Err _ => mk_bootstrap 0 0 (mk_link_person [] [] 0 [] []) toy_roster [] [] [] (mk_link_profile None [] 0) [] 0 [] []
  end.

Lemma opt_dec {A} (P : A -> Prop) (o : option A) : (forall x, Decision (P x)) -> Decision (from_option P True o).
Proof. intros H. destruct o; cbn; apply _. Defined.

Ltac decides := repeat first [apply Forall_dec; intros | apply and_dec | apply opt_dec; intros | apply Z.le_dec | apply Z.eq_dec | apply bool_eq_dec].

#[local] Instance bootstrap_ok_dec b : Decision (bootstrap_ok b).
Proof.
  unfold bootstrap_ok, person_ok, roster_ok, cert_ok, tombstone_ok, entry_ok, contact_ok, group_ok, message_ok, profile_ok, opt_text_ok, text_ok,
    field_ok, in_u8, in_u32, in_u64, in_i64. decides.
Defined.

Lemma toy_bootstrap_ok : bootstrap_ok (toy_bootstrap (C := toy_crypto)).
Proof. apply (bool_decide_unpack _). vm_compute. exact I. Qed.

Lemma bootstrap_crosses_channel_witness :
  exists bs cs, encode_bootstrap (toy_bootstrap (C := toy_crypto)) = Ok bs /\ core_link_bootstrap_chunks bs = Ok cs
    /\ core_link_bootstrap_join cs = Ok bs /\ decode_bootstrap bs = Ok (toy_bootstrap (C := toy_crypto))
    /\ core_link_bootstrap_verify (C := toy_crypto) (toy_bootstrap (C := toy_crypto)) (replicate 32 x0c) 2000 = Ok tt.
Proof.
  assert (build_link_bootstrap (C := toy_crypto) (S := toy_seal) toy_identity toy_profile (toy_roster (C := toy_crypto)) (replicate 32 x01)
            (replicate 32 x0c) 0 0 2000 toy_store = ((toy_build (C := toy_crypto)).1, Ok (toy_bootstrap (C := toy_crypto)))) as Hb by (vm_compute; reflexivity).
  eexists. match goal with |- exists cs, ?e = Ok ?bs /\ _ => assert (e = Ok bs) as He by (vm_compute; reflexivity) end.
  destruct (bootstrap_crosses_channel (C := toy_crypto) (S := toy_seal) _ _ _ _ _ _ _ _ _ _ _ _ Hb toy_bootstrap_ok He)
    as ((cs & H1 & _ & H2 & _) & H3 & _ & _ & _ & H4).
  exists cs. split; [exact He|]. split; [exact H1|]. split; [exact H2|]. split; [exact H3|]. apply H4.
  split; [reflexivity|]. split; [vm_compute; discriminate|]. by left.
Defined.

(** A device that signed one export. *)
Definition one_bootstrap_crypto (message : bytes) : Crypto := {|
  blake2b n bs := resize_to (Z.of_nat n) bs;
  ed25519_key_ok _ := true;
  ed25519_verify _ m _ := bool_decide (m = domain_signed_bytes DomainDeviceLinkBootstrap message);
|}.

Definition made_export : LinkBootstrap := toy_bootstrap (C := one_bootstrap_crypto []).

Definition made_message : bytes :=
  bootstrap_signed_message (bootstrap_prefix made_export) (lb_channel_binding made_export) (lb_expires_at_ms made_export).

Lemma made_export_ok : bootstrap_ok made_export.
Proof. apply (bool_decide_unpack _). vm_compute. exact I. Qed.

Lemma verified_bootstrap_authentic_witness :
  exists bs, encode_bootstrap made_export = Ok bs
    /\ core_link_bootstrap_verify (C := one_bootstrap_crypto made_message) made_export (replicate 32 x0c) 2000 = Ok tt
    /\ 2000 <= lb_expires_at_ms made_export.
Proof.
  destruct (encode_bootstrap made_export) as [bs|] eqn:He; [|vm_compute in He; discriminate He]. exists bs.
  assert (core_link_bootstrap_verify (C := one_bootstrap_crypto made_message) made_export (replicate 32 x0c) 2000 = Ok tt) as Hv by (vm_compute; reflexivity).
  split; [reflexivity|]. split; [exact Hv|].
  refine (proj1 (verified_bootstrap_authentic (C := one_bootstrap_crypto made_message) (fun _ => [made_export]) bs made_export (replicate 32 x0c) 2000 _
    (bootstrap_round_trip _ _ made_export_ok He) Hv)).
  intros c _ rest sig Hs. exists made_export. split; [by left|]. apply bool_decide_eq_true in Hs. split; [exact made_export_ok|].
  split; [vm_compute; reflexivity|]. split; [vm_compute; discriminate|]. unfold domain_signed_bytes in Hs. by apply app_inv_head in Hs.
Defined.
