(* ===== verification/LinkRoster.v ===== *)
(** The rosters a person's own devices mint, and the two signed frames of a link
    ([core/src/device_link/activation.rs] and [core/src/revocation.rs], with the signing of
    certificates and rosters in [core/src/device_roster.rs]): genesis, recovery, adding a
    device, removing devices with the approving device's key or with the person root's; the
    new device's offer of its keys and its acknowledgement of one exact roster head.

    [minted_rosters_supersede] shows that whatever a device mints from the roster it holds
    is accepted by everyone who holds that roster, and what it changes; [link_frames_bind]
    that an offer or an acknowledgement opens only on the channel it was made for, only as
    what it is, and only for the roster it names. *)
From stdpp Require Import base numbers list sets strings.
From S2P Require Import Prelude StdModel Wire Crypto RosterCodec Roster RosterStore Sealing SyncRecords LinkCeremony.

Definition FRAME_DEVICE_OFFER : Z := 17.
Definition FRAME_ACTIVATION_ACK : Z := 18.

Record LinkRosterUpdate : Type := mk_link_update {
  lu_roster : Roster;
  lu_new_device_id : bytes;
  lu_roster_head : bytes;
  lu_add_outcome : DeviceAddOutcome;
}.

Inductive RevocationPath : Type := ApprovingDevice | RecoveryEpoch.

Record RevocationUpdate : Type := mk_revocation {
  ru_roster : Roster;
  ru_roster_head : bytes;
  ru_revoked_device_ids : list bytes;
  ru_inbox_key : InboxKey;
  ru_path : RevocationPath;
}.

Record LinkDeviceOffer : Type := mk_link_offer { do_device_sign_pk : bytes; do_device_agree_pk : bytes; do_device_id : bytes }.
Record LinkActivationAck : Type := mk_link_ack { aa_device_id : bytes; aa_roster_head : bytes }.

Definition link_check_len (bs : bytes) (len : Z) (what : string) : result CoreError unit :=
  ensure (blen bs =? len) (Malformed ("device link " +:+ what +:+ " is bytes, not")).

Section mint.
Context `{C : Crypto} `{S : SealCrypto}.

(** [signing_key_from_bytes(sk)?.verifying_key()] *)
Definition public_of (sign_sk : bytes) : result CoreError bytes := k ← key32 sign_sk; Ok (ed25519_public k).

Definition core_sign_device_cert (cert : DeviceCert) (signer_sign_sk : bytes) : result CoreError DeviceCert :=
  k ← key32 signer_sign_sk;
  let signed sig := mk_cert (cert_person_id cert) (device_sign_pk cert) (device_agree_pk cert) (added_epoch cert) (flags cert)
                      (ed25519_public k) sig in
  Ok (signed (ed25519_sign k (device_cert_signed_bytes (signed (cert_signature cert))))).

Definition core_sign_roster (r : Roster) (signer_sign_sk : bytes) : result CoreError Roster :=
  k ← key32 signer_sign_sk;
  let signed sig := mk_roster (person_id r) (recovery_epoch r) (seq r) (devices r) (tombstones r) (approving_device_id r)
                      (inbox_key_generation r) (ed25519_public k) sig in
  Ok (signed (ed25519_sign k (roster_signed_bytes (signed (signature r))))).

Definition sign_cert (person device_sign_pk device_agree_pk : bytes) (added_epoch flags : Z) (signer_sign_sk : bytes) : result CoreError DeviceCert :=
  _ ← link_check_len device_sign_pk KEY_LEN "device signing key";
  _ ← link_check_len device_agree_pk KEY_LEN "device agreement key";
  _ ← link_check_len person DEVICE_ID_LEN "person id";
  core_sign_device_cert (mk_cert person device_sign_pk device_agree_pk added_epoch flags [] []) signer_sign_sk.

Definition validated (r : Roster) (person_root_sign_pk : bytes) : result CoreError Roster :=
  match core_roster_validate r person_root_sign_pk with
  | None => Ok r
  | Some _ => Err (Malformed "the roster this device just signed is not acceptable")
  end.

(** * At link time *)

Definition core_link_genesis_roster (person_root_sign_sk device_sign_pk device_agree_pk : bytes) : result CoreError Roster :=
  root ← public_of person_root_sign_sk;
  let person := derive_user_id root in
  cert ← sign_cert person device_sign_pk device_agree_pk 0 DEVICE_CERT_FLAG_ROSTER_SIGNING person_root_sign_sk;
  r ← core_sign_roster (mk_roster person 0 0 [cert] [] (device_id cert) 0 [] []) person_root_sign_sk;
  validated r root.

Definition is_tombstoned (r : Roster) (id : bytes) : bool := existsb (fun t => bool_decide (tomb_device_id t = id)) (tombstones r).

Definition core_link_recovery_roster (stored : option Roster) (person_root_sign_sk device_sign_pk device_agree_pk : bytes) : result CoreError Roster :=
  root ← public_of person_root_sign_sk;
  let person := derive_user_id root in
  match stored with
  | None => core_link_genesis_roster person_root_sign_sk device_sign_pk device_agree_pk
  | Some stored =>
      _ ← ensure (bool_decide (person_id stored = person)) (Malformed "recovery roster is for a different person than the backup");
      let epoch := u64_saturating_add (recovery_epoch stored) 1 in
      cert ← sign_cert person device_sign_pk device_agree_pk epoch DEVICE_CERT_FLAG_ROSTER_SIGNING person_root_sign_sk;
      _ ← ensure (negb (is_tombstoned stored (device_id cert))) (Malformed "this device id was revoked and can never return");
      r ← core_sign_roster (mk_roster person epoch 0 [cert] (tombstones stored) (device_id cert)
                              (u64_saturating_add (inbox_key_generation stored) 1) [] []) person_root_sign_sk;
      validated r root
  end.

Definition core_link_sign_new_device_roster (current : Roster) (person_root_sign_pk approving_device_sign_sk new_device_sign_pk new_device_agree_pk : bytes)
    : result CoreError LinkRosterUpdate :=
  _ ← ensure (bool_decide (core_roster_validate current person_root_sign_pk = None)) (Malformed "the roster to extend is not acceptable");
  approving_pk ← public_of approving_device_sign_sk;
  _ ← ensure (bool_decide (derive_user_id approving_pk = approving_device_id current))
        (Malformed "this device does not hold the roster-signing role");
  cert ← sign_cert (person_id current) new_device_sign_pk new_device_agree_pk (recovery_epoch current) 0 approving_device_sign_sk;
  let new_device_id := device_id cert in
  _ ← ensure (negb (existsb (fun c => bool_decide (device_id c = new_device_id)) (devices current)))
        (Malformed "this device is already in the roster");
  _ ← ensure (negb (is_tombstoned current new_device_id)) (Malformed "this device id was revoked and can never return");
  let add_outcome := core_device_add_outcome (as_u32 (blen (devices current)) + 1) in
  _ ← ensure (negb (bool_decide (add_outcome = Refused))) (Malformed "this person already holds the maximum number of devices");
  signed ← core_sign_roster (mk_roster (person_id current) (recovery_epoch current) (u64_saturating_add (seq current) 1)
                               (devices current ++ [cert]) (tombstones current) (approving_device_id current)
                               (inbox_key_generation current) [] []) approving_device_sign_sk;
  r ← validated signed person_root_sign_pk;
  Ok (mk_link_update r new_device_id (roster_head_hash r) add_outcome).

(** * Removing devices *)

(** Each id once, in the order given. *)
Fixpoint normalize_ids (active : list bytes) (out revoked : list bytes) : result CoreError (list bytes) :=
  match revoked with
  | [] => Ok out
  | id :: revoked =>
      _ ← ensure (blen id =? DEVICE_ID_LEN) (Malformed "a device id is bytes, not");
      _ ← ensure (bool_decide (id ∈ active)) (Malformed "this roster does not list the device being revoked");
      normalize_ids active (if decide (id ∈ out) then out else out ++ [id]) revoked
  end.

Definition normalize_revoked (r : Roster) (revoked : list bytes) : result CoreError (list bytes) :=
  _ ← ensure (negb (bool_decide (revoked = []))) (Malformed "a revocation must name at least one device");
  normalize_ids (device_id <$> devices r) [] revoked.

(** [checked_add(1)] on a [u64] *)
Definition next_version_component (current : Z) (field : string) : result CoreError Z :=
  _ ← ensure (current <? U64_MAX)
        (Malformed ("this roster's " +:+ field +:+ " is at the maximum a u64 holds and cannot be raised; a document that arrived there was crafted, not counted"));
  Ok (current + 1).

(** [agree_sk] is what minting the new key draws. *)
Definition rotated_key (current : Roster) (key : InboxKey) (agree_sk : bytes) : result CoreError InboxKey :=
  _ ← ensure (ik_generation key =? inbox_key_generation current) (Malformed "this roster is at inbox key generation but the key offered is generation");
  Ok (core_rotate_inbox_key key agree_sk).

Definition with_flags (c : DeviceCert) (f : Z) : DeviceCert :=
  mk_cert (cert_person_id c) (device_sign_pk c) (device_agree_pk c) (added_epoch c) f [] [].

Definition core_revoke_devices_roster (current : Roster) (person_root_sign_pk approving_device_sign_sk : bytes) (revoked_device_ids : list bytes)
    (current_inbox_key : InboxKey) (agree_sk : bytes) : result CoreError RevocationUpdate :=
  _ ← ensure (bool_decide (core_roster_validate current person_root_sign_pk = None)) (Malformed "the roster to revoke from is not acceptable");
  approving_pk ← public_of approving_device_sign_sk;
  let approving := derive_user_id approving_pk in
  _ ← ensure (bool_decide (approving = approving_device_id current)) (Malformed "this device does not hold the roster-signing role");
  revoked ← normalize_revoked current revoked_device_ids;
  _ ← ensure (negb (bool_decide (approving ∈ revoked)))
        (Malformed "the approving device cannot revoke itself; that takes the recovery material");
  let survivors := filter (fun c => device_id c ∉ revoked) (devices current) in
  _ ← ensure (negb (bool_decide (survivors = []))) (Malformed "a person must keep at least one device");
  next ← next_version_component (seq current) "seq";
  let revoked_signer_keys := device_sign_pk <$> filter (fun c => device_id c ∈ revoked) (devices current) in
  certs ← mapM (fun c => if decide (cert_signer_sign_pk c ∈ revoked_signer_keys)
                         then core_sign_device_cert (with_flags c (flags c)) approving_device_sign_sk else Ok c) survivors;
  let tombs := tombstones current ++ ((fun id => mk_tombstone id next) <$> revoked) in
  key ← rotated_key current current_inbox_key agree_sk;
  signed ← core_sign_roster (mk_roster (person_id current) (recovery_epoch current) next certs tombs (approving_device_id current)
                               (ik_generation key) [] []) approving_device_sign_sk;
  r ← validated signed person_root_sign_pk;
  Ok (mk_revocation r (roster_head_hash r) revoked key ApprovingDevice).

(** The certificate of a survivor, with the signing role moved to the recovering device. *)
Definition recertified (recovering : bytes) (c : DeviceCert) : DeviceCert :=
  with_flags c (if decide (device_id c = recovering) then Z.lor (flags c) DEVICE_CERT_FLAG_ROSTER_SIGNING
                else Z.land (flags c) (U32_MAX - DEVICE_CERT_FLAG_ROSTER_SIGNING)).

Definition core_recovery_revoke_roster (stored : Roster) (person_root_sign_sk recovering_device_sign_pk recovering_device_agree_pk : bytes)
    (revoked_device_ids : list bytes) (current_inbox_key : option InboxKey) (agree_sk : bytes) : result CoreError RevocationUpdate :=
  root ← public_of person_root_sign_sk;
  let person := derive_user_id root in
  _ ← ensure (bool_decide (person_id stored = person)) (Malformed "the roster to recover from is for a different person than the backup");
  _ ← ensure (bool_decide (core_roster_validate stored root = None)) (Malformed "the roster to recover from is not acceptable");
  revoked ← normalize_revoked stored revoked_device_ids;
  let recovering := derive_user_id recovering_device_sign_pk in
  _ ← ensure (negb (is_tombstoned stored recovering || bool_decide (recovering ∈ revoked)))
        (Malformed "this device id was revoked and can never return");
  epoch ← next_version_component (recovery_epoch stored) "recovery_epoch";
  certs ← mapM (fun c => core_sign_device_cert (recertified recovering c) person_root_sign_sk)
            (filter (fun c => device_id c ∉ revoked) (devices stored));
  certs ← if existsb (fun c => bool_decide (device_id c = recovering)) certs then Ok certs
          else cert ← core_sign_device_cert (mk_cert person recovering_device_sign_pk recovering_device_agree_pk epoch
                                               DEVICE_CERT_FLAG_ROSTER_SIGNING [] []) person_root_sign_sk;
               Ok (certs ++ [cert]);
  let tombs := tombstones stored ++ ((fun id => mk_tombstone id 0) <$> revoked) in
  key ← match current_inbox_key with
        | Some key => rotated_key stored key agree_sk
        | None => Ok (core_mint_inbox_key (u64_saturating_add (inbox_key_generation stored) 1) agree_sk)
        end;
  signed ← core_sign_roster (mk_roster person epoch 0 certs tombs recovering (ik_generation key) [] []) person_root_sign_sk;
  r ← validated signed root;
  Ok (mk_revocation r (roster_head_hash r) revoked key RecoveryEpoch).

(** The person root a roster names, if any of its signers is. *)
Definition core_roster_person_root_sign_pk (r : Roster) : option bytes :=
  let derives key := (blen key =? KEY_LEN) && bool_decide (derive_user_id key = person_id r) in
  if derives (signer_sign_pk r) then Some (signer_sign_pk r)
  else List.find derives (cert_signer_sign_pk <$> devices r).

(** * The two frames *)

Definition signed_message (tag : Z) (field channel_binding : bytes) : bytes := push_u8 tag ++ field ++ channel_binding.

Record LinkFrameParts : Type := mk_parts { fp_device_sign_pk : bytes; fp_field : bytes; fp_channel_binding : bytes; fp_signature : bytes }.

Definition split_frame (frame : bytes) (tag : Z) : result CoreError LinkFrameParts :=
  _ ← ensure ((blen frame =? 1 + KEY_LEN + 32 + CHANNEL_BINDING_LEN + SIGNATURE_LEN) && bool_decide (take 1 frame = push_u8 tag))
        (Malformed "device link frame is not the frame it should be");
  Ok (mk_parts (take 32 (drop 1 frame)) (take 32 (drop 33 frame)) (take 32 (drop 65 frame)) (drop 97 frame)).

Definition link_frame (tag : Z) (device_sign_sk field channel_binding : bytes) (what : string) : result CoreError bytes :=
  device_sign_pk ← public_of device_sign_sk;
  _ ← link_check_len field 32 what;
  _ ← link_check_len channel_binding CHANNEL_BINDING_LEN "channel binding";
  sig ← core_device_sign DomainDeviceLinkActivation device_sign_sk (signed_message tag field channel_binding);
  Ok (push_u8 tag ++ device_sign_pk ++ field ++ channel_binding ++ sig).

Definition core_link_device_offer (device_sign_sk device_agree_pk channel_binding : bytes) : result CoreError bytes :=
  link_frame FRAME_DEVICE_OFFER device_sign_sk device_agree_pk channel_binding "device agreement key".

Definition core_link_open_device_offer (frame channel_binding : bytes) : result CoreError LinkDeviceOffer :=
  _ ← link_check_len channel_binding CHANNEL_BINDING_LEN "channel binding";
  parts ← split_frame frame FRAME_DEVICE_OFFER;
  _ ← ensure (bool_decide (fp_channel_binding parts = channel_binding)) (Malformed "device link offer is bound to a different channel");
  _ ← core_device_verify DomainDeviceLinkActivation (fp_device_sign_pk parts)
        (signed_message FRAME_DEVICE_OFFER (fp_field parts) (fp_channel_binding parts)) (fp_signature parts);
  Ok (mk_link_offer (fp_device_sign_pk parts) (fp_field parts) (derive_user_id (fp_device_sign_pk parts))).

Definition core_link_activation_ack (device_sign_sk roster_head channel_binding : bytes) : result CoreError bytes :=
  link_frame FRAME_ACTIVATION_ACK device_sign_sk roster_head channel_binding "roster head".

Definition core_link_open_activation_ack (frame : bytes) (r : Roster) (offered_device_sign_pk channel_binding : bytes) : result CoreError LinkActivationAck :=
  _ ← link_check_len channel_binding CHANNEL_BINDING_LEN "channel binding";
  _ ← link_check_len offered_device_sign_pk KEY_LEN "offered device key";
  parts ← split_frame frame FRAME_ACTIVATION_ACK;
  _ ← ensure (bool_decide (fp_channel_binding parts = channel_binding)) (Malformed "activation acknowledgement is bound to a different channel");
  _ ← ensure (bool_decide (fp_field parts = roster_head_hash r)) (Malformed "activation acknowledgement names a different roster");
  _ ← ensure (bool_decide (fp_device_sign_pk parts = offered_device_sign_pk))
        (Malformed "activation acknowledgement is from a device other than the one this ceremony offered");
  _ ← ensure (existsb (fun c => bool_decide (device_sign_pk c = fp_device_sign_pk parts)) (devices r))
        (Malformed "activation acknowledgement is from a device this roster does not list");
  _ ← core_device_verify DomainDeviceLinkActivation (fp_device_sign_pk parts)
        (signed_message FRAME_ACTIVATION_ACK (fp_field parts) (fp_channel_binding parts)) (fp_signature parts);
  Ok (mk_link_ack (derive_user_id (fp_device_sign_pk parts)) (fp_field parts)).
End mint.

(** * What minting yields *)

Section minted.
Context `{C : Crypto} `{S : SealCrypto}.

Definition accepted_over (q : bool) (current new : Roster) (root : bytes) : Prop :=
  outcome (core_roster_accept (Some current) q new root) = Accepted.

Lemma key32_ok sk k : key32 sk = Ok k <-> k = sk /\ blen sk = 32.
Proof. unfold key32. rewrite ensure_bind_ok, Z.eqb_eq. naive_solver. Qed.

Lemma public_of_ok sk pk : public_of sk = Ok pk <-> pk = ed25519_public sk /\ blen sk = 32.
Proof. unfold public_of. rewrite result_bind_ok. setoid_rewrite key32_ok. naive_solver. Qed.

Lemma validated_ok r root r' : validated r root = Ok r' <-> r' = r /\ roster_valid r root.
Proof. unfold validated. rewrite <- roster_validate_spec. destruct (core_roster_validate r root); naive_solver. Qed.

Lemma sign_roster_ok r sk r' : core_sign_roster r sk = Ok r' ->
  r' = mk_roster (person_id r) (recovery_epoch r) (seq r) (devices r) (tombstones r) (approving_device_id r) (inbox_key_generation r)
         (ed25519_public sk) (signature r').
Proof. unfold core_sign_roster. intros (k & [-> _]%key32_ok & H)%result_bind_ok. cbv zeta in H. apply Ok_inj in H. by subst. Qed.

Lemma sign_device_cert_id c sk c' : core_sign_device_cert c sk = Ok c' -> device_sign_pk c' = device_sign_pk c /\ flags c' = flags c.
Proof. unfold core_sign_device_cert. intros (k & _ & H)%result_bind_ok. cbv zeta in H. apply Ok_inj in H. by subst. Qed.

Lemma sign_cert_id person pk ak epoch f sk c : sign_cert person pk ak epoch f sk = Ok c -> device_sign_pk c = pk.
Proof.
  unfold sign_cert, link_check_len. intros H. repeat (apply ensure_bind_ok in H as [_ H]). by apply sign_device_cert_id in H as [-> _].
Qed.

(** Certificates signed anew keep their devices. *)
Lemma certs_signed_ids (f : DeviceCert -> result CoreError DeviceCert) l l' :
  (forall c c', f c = Ok c' -> device_sign_pk c' = device_sign_pk c) -> mapM f l = Ok l' -> device_id <$> l' = device_id <$> l.
Proof.
  intros Hf H%result_mapM_ok. induction H as [|c c' l l' Hc _ IH]; [done|]. cbn. rewrite IH. unfold device_id at 1 3. by rewrite (Hf _ _ Hc).
Qed.

(** One version on, with every burial kept. *)
Lemma next_accepted q current new root : roster_valid new root -> person_id new = person_id current ->
  (recovery_epoch new = recovery_epoch current /\ seq new = seq current + 1 /\ inbox_key_generation current <= inbox_key_generation new /\ q = false)
  \/ (recovery_epoch new = recovery_epoch current + 1 /\ signer_sign_pk new = root) ->
  tombstones current ⊆ tombstones new -> accepted_over q current new root.
Proof.
  intros V Hp Hv Ht. apply accept_outcome_spec. split; [|split; [done|]].
  - intros ->. exists current. destruct Hv as [(_ & _ & _ & [=])|[He Hs]]. split_and!; [done|done|lia|done].
  - intros s [= <-]. split; [done| | | | | |].
    + unfold version_lt, version. cbn. destruct Hv as [(He & Hq & _)|[He _]]; [right|left]; lia.
    + unfold ROSTER_MAX_VERSION_JUMP. destruct Hv as [(He & _)|[He _]]; lia.
    + unfold ROSTER_MAX_VERSION_JUMP. destruct Hv as [(_ & Hq & _)|[He _]]; lia.
    + destruct Hv as [(He & _)|[_ Hs]]; [lia|done].
    + apply Forall_forall. intros t Hin. specialize (Ht t Hin). split; [by apply list_elem_of_fmap_2|].
      pose proof (rv_tombstones _ _ V) as Hb. rewrite Forall_forall in Hb. by apply Hb.
    + destruct Hv as [(_ & _ & Hg & _)|[He _]]; [done|lia].
Qed.

Lemma normalize_ids_ok active : forall revoked out ids, normalize_ids active out revoked = Ok ids ->
  (forall id, id ∈ ids <-> id ∈ out \/ id ∈ revoked) /\ (NoDup out -> NoDup ids).
Proof.
  induction revoked as [|x revoked IH]; intros out ids H; cbn [normalize_ids] in H; [injection H as <-; set_solver|].
  rewrite !ensure_bind_ok in H. destruct H as (_ & _ & [Hin Hn]%IH). split; [intros id; rewrite Hin; case_decide; set_solver|].
  intros Ho. apply Hn. case_decide; [done|]. apply NoDup_app. split_and!; [done|set_solver|apply NoDup_singleton].
Qed.

Lemma normalize_revoked_ok r revoked ids : normalize_revoked r revoked = Ok ids -> (forall id, id ∈ ids <-> id ∈ revoked) /\ NoDup ids.
Proof.
  unfold normalize_revoked. rewrite ensure_bind_ok. intros [_ [H Hn]%normalize_ids_ok]. split; [set_solver|]. apply Hn, NoDup_nil_2.
Qed.

(** The devices a revocation leaves. *)
Lemma survivors_ids (ids : list bytes) (certs : list DeviceCert) id :
  id ∈ (device_id <$> filter (fun c => device_id c ∉ ids) certs) <-> id ∈ (device_id <$> certs) /\ id ∉ ids.
Proof. rewrite !list_elem_of_fmap. setoid_rewrite list_elem_of_filter. naive_solver. Qed.

Lemma buried_ids (ids : list bytes) t : tomb_device_id <$> ((fun id => mk_tombstone id t) <$> ids) = ids.
Proof. rewrite <- list_fmap_compose. apply list_fmap_id. Qed.

Lemma new_device_minted current root sk pk ak u : seq current < U64_MAX ->
  core_link_sign_new_device_roster current root sk pk ak = Ok u -> in_u64 (seq current) ->
  accepted_over false current (lu_roster u) root /\ lu_new_device_id u = derive_user_id pk
  /\ device_id <$> devices (lu_roster u) = (device_id <$> devices current) ++ [derive_user_id pk]
  /\ tombstones (lu_roster u) = tombstones current /\ lu_roster_head u = roster_head_hash (lu_roster u).
Proof.
  intros Hs H Hu. unfold core_link_sign_new_device_roster in H. inv_ok. subst.
  match goal with H : validated _ _ = Ok _ |- _ => apply validated_ok in H as [-> V] end.
  match goal with H : core_sign_roster _ _ = Ok _ |- _ => apply sign_roster_ok in H; cbn in H; rewrite H in *; clear H end.
  match goal with H : sign_cert _ _ _ _ _ _ = Ok _ |- _ => apply sign_cert_id in H end.
  cbn [lu_roster lu_new_device_id lu_roster_head devices tombstones]. split_and!; [|unfold device_id; congruence| |done|done].
  - apply next_accepted; [done|done| |done]. left. cbn. split_and!; [done| |done|done]. ints.
  - rewrite fmap_app. f_equal. cbn. unfold device_id. congruence.
Qed.

Lemma revocation_minted current root sk revoked key agree u : in_u64 (inbox_key_generation current) ->
  core_revoke_devices_roster current root sk revoked key agree = Ok u ->
  accepted_over false current (ru_roster u) root
  /\ (forall id, id ∈ (device_id <$> devices (ru_roster u)) <-> id ∈ (device_id <$> devices current) /\ id ∉ revoked)
  /\ tomb_device_id <$> tombstones (ru_roster u) = (tomb_device_id <$> tombstones current) ++ ru_revoked_device_ids u
  /\ (forall id, id ∈ ru_revoked_device_ids u <-> id ∈ revoked)
  /\ inbox_key_generation (ru_roster u) = ik_generation (ru_inbox_key u)
  /\ ik_generation (ru_inbox_key u) = u64_saturating_add (inbox_key_generation current) 1
  /\ ru_roster_head u = roster_head_hash (ru_roster u).
Proof.
  intros Hu H. unfold core_revoke_devices_roster, rotated_key, next_version_component in H. inv_ok. subst. bools.
  match goal with H : validated _ _ = Ok _ |- _ => apply validated_ok in H as [-> V] end.
  match goal with H : core_sign_roster _ _ = Ok _ |- _ => apply sign_roster_ok in H; cbn in H; rewrite H in *; clear H end.
  match goal with H : normalize_revoked _ _ = Ok ?l |- _ => rename l into ids; apply normalize_revoked_ok in H as [Hids _] end.
  match goal with H : mapM _ _ = Ok _ |- _ => apply certs_signed_ids in H; [rename H into Hc|] end.
  2:{ intros c c'. case_decide; [by intros [-> _]%sign_device_cert_id|by intros [= <-]]. }
  cbn [ru_roster ru_revoked_device_ids ru_inbox_key ru_roster_head devices tombstones inbox_key_generation].
  assert (forall k a, ik_generation (core_rotate_inbox_key k a) = u64_saturating_add (ik_generation k) 1) as Hg by done.
  match goal with H : ik_generation key = _ |- _ => rename H into Hk end.
  split_and!; try done; [| | |by rewrite Hg, Hk].
  - apply next_accepted; [done|done| |]; [left|]; cbn.
    + split_and!; [done|done| |done]. rewrite Hk. ints.
    + set_solver.
  - intros id. rewrite Hc, survivors_ids. set_solver.
  - by rewrite fmap_app, buried_ids.
Qed.

Lemma recovery_minted q stored sk pk ak revoked key agree u :
  core_recovery_revoke_roster stored sk pk ak revoked key agree = Ok u ->
  accepted_over q stored (ru_roster u) (ed25519_public sk)
  /\ (forall id, id ∈ (device_id <$> devices (ru_roster u)) <-> (id ∈ (device_id <$> devices stored) /\ id ∉ revoked) \/ id = derive_user_id pk)
  /\ tomb_device_id <$> tombstones (ru_roster u) = (tomb_device_id <$> tombstones stored) ++ ru_revoked_device_ids u
  /\ (forall id, id ∈ ru_revoked_device_ids u <-> id ∈ revoked)
  /\ approving_device_id (ru_roster u) = derive_user_id pk
  /\ inbox_key_generation (ru_roster u) = ik_generation (ru_inbox_key u).
Proof.
  intros H. unfold core_recovery_revoke_roster, next_version_component in H. inv_ok. subst. bools.
  match goal with H : validated _ _ = Ok _ |- _ => apply validated_ok in H as [-> V] end.
  match goal with H : core_sign_roster _ _ = Ok _ |- _ => apply sign_roster_ok in H; cbn in H; rewrite H in *; clear H end.
  match goal with H : normalize_revoked _ _ = Ok ?l |- _ => rename l into ids; apply normalize_revoked_ok in H as [Hids _] end.
  match goal with H : mapM _ _ = Ok _ |- _ => apply certs_signed_ids in H; [rename H into Hc|by intros c c' [-> _]%sign_device_cert_id] end.
  match goal with H : public_of _ = Ok _ |- _ => apply public_of_ok in H as [-> _] end.
  match goal with H : (if existsb _ _ then _ else _) = Ok ?l |- _ => rename l into certs; rename H into Hif end.
  cbn [ru_roster ru_revoked_device_ids ru_inbox_key devices tombstones inbox_key_generation approving_device_id]. split_and!; try done.
  - apply next_accepted; [done|done|by right|]. cbn. set_solver.
  - intros id. destruct (existsb _ _) eqn:He.
    + injection Hif as <-. rewrite Hc, survivors_ids. apply existsb_exists in He as (c & Hin & Hd). bools. apply list_elem_of_In in Hin.
      assert (device_id c ∈ (device_id <$> filter (fun c => device_id c ∉ ids) (devices stored))) as Hs.
      { rewrite <- Hc. by apply list_elem_of_fmap_2. }
      apply survivors_ids in Hs as [Hs1 Hs2]. rewrite Hids. split; [by left|]. intros [?| ->]; [done|]. rewrite <- Hd, <- Hids. done.
    + inv_ok. match goal with H : core_sign_device_cert _ _ = Ok _ |- _ => apply sign_device_cert_id in H as [Hpk _] end.
      rewrite fmap_app, elem_of_app, Hc, survivors_ids. cbn [fmap list_fmap]. rewrite list_elem_of_singleton, Hids.
      unfold device_id at 2. by rewrite Hpk.
  - by rewrite fmap_app, buried_ids.
Qed.

(** * What a frame says *)

Lemma link_frame_ok tag sk field binding what f : link_frame tag sk field binding what = Ok f <->
  blen sk = 32 /\ blen field = 32 /\ blen binding = CHANNEL_BINDING_LEN
  /\ f = push_u8 tag ++ ed25519_public sk ++ field ++ binding
          ++ ed25519_sign sk (domain_signed_bytes DomainDeviceLinkActivation (signed_message tag field binding)).
Proof.
  unfold link_frame, link_check_len, core_device_sign. rewrite result_bind_ok. setoid_rewrite public_of_ok.
  setoid_rewrite ensure_bind_ok. setoid_rewrite ensure_bind_ok. setoid_rewrite Z.eqb_eq. setoid_rewrite result_bind_ok. setoid_rewrite result_bind_ok.
  setoid_rewrite key32_ok. naive_solver.
Qed.

Lemma split_frame_parts `{!SealLaws C S} tag sk field binding sig : blen field = 32 -> blen binding = CHANNEL_BINDING_LEN -> blen sig = SIGNATURE_LEN ->
  split_frame (push_u8 tag ++ ed25519_public sk ++ field ++ binding ++ sig) tag = Ok (mk_parts (ed25519_public sk) field binding sig).
Proof.
  intros Hf Hb Hs. pose proof (public_length sk) as Hp. set (pk := ed25519_public sk) in *.
  assert (blen (push_u8 tag) = 1) as H1 by done. unfold blen in *.
  unfold split_frame. rewrite ensure_bind_ok. split.
  - apply andb_true_iff. split; [|apply bool_decide_eq_true; by apply take_app_length'; lia].
    apply Z.eqb_eq. unfold blen. rewrite !length_app. unfold CHANNEL_BINDING_LEN, SIGNATURE_LEN, KEY_LEN in *. lia.
  - unfold CHANNEL_BINDING_LEN in *. f_equal. rewrite !app_assoc. f_equal.
    + rewrite <- !app_assoc, drop_app_length', take_app_length' by lia. done.
    + rewrite <- !app_assoc, (app_assoc (push_u8 tag)), drop_app_length', take_app_length' by (rewrite ?length_app; lia). done.
    + rewrite <- (app_assoc _ binding sig), drop_app_length', take_app_length' by (rewrite ?length_app; lia). done.
    + rewrite drop_app_length' by (rewrite ?length_app; lia). done.
Qed.

Lemma open_offer_ok f binding o : core_link_open_device_offer f binding = Ok o <->
  blen binding = CHANNEL_BINDING_LEN /\ exists parts, split_frame f FRAME_DEVICE_OFFER = Ok parts /\ fp_channel_binding parts = binding
    /\ core_device_verify DomainDeviceLinkActivation (fp_device_sign_pk parts)
         (signed_message FRAME_DEVICE_OFFER (fp_field parts) (fp_channel_binding parts)) (fp_signature parts) = Ok tt
    /\ o = mk_link_offer (fp_device_sign_pk parts) (fp_field parts) (derive_user_id (fp_device_sign_pk parts)).
Proof.
  unfold core_link_open_device_offer, link_check_len. rewrite ensure_bind_ok, Z.eqb_eq, result_bind_ok. split.
  - intros (? & p & Hs & H). rewrite ensure_bind_ok, bool_decide_eq_true, result_bind_ok in H. destruct H as (? & [] & ? & [= <-]).
    split; [done|]. by exists p.
  - intros (? & p & ? & ? & ? & ->). split; [done|]. exists p. split; [done|]. rewrite ensure_bind_ok, bool_decide_eq_true, result_bind_ok.
    split; [done|]. by exists tt.
Qed.

Lemma listed_key pk (certs : list DeviceCert) :
  existsb (fun c => bool_decide (device_sign_pk c = pk)) certs = true <-> pk ∈ (device_sign_pk <$> certs).
Proof.
  rewrite existsb_exists, list_elem_of_fmap. setoid_rewrite bool_decide_eq_true. setoid_rewrite <- list_elem_of_In. naive_solver.
Qed.

Lemma open_ack_ok f r offered binding a : core_link_open_activation_ack f r offered binding = Ok a <->
  blen binding = CHANNEL_BINDING_LEN /\ blen offered = KEY_LEN /\ exists parts, split_frame f FRAME_ACTIVATION_ACK = Ok parts
    /\ fp_channel_binding parts = binding /\ fp_field parts = roster_head_hash r /\ fp_device_sign_pk parts = offered
    /\ offered ∈ (device_sign_pk <$> devices r)
    /\ core_device_verify DomainDeviceLinkActivation (fp_device_sign_pk parts)
         (signed_message FRAME_ACTIVATION_ACK (fp_field parts) (fp_channel_binding parts)) (fp_signature parts) = Ok tt
    /\ a = mk_link_ack (derive_user_id offered) (roster_head_hash r).
Proof.
  unfold core_link_open_activation_ack, link_check_len. rewrite !ensure_bind_ok, !Z.eqb_eq, result_bind_ok.
  split.
  - intros (? & ? & p & Hs & H). rewrite !ensure_bind_ok, !bool_decide_eq_true, listed_key, result_bind_ok in H.
    destruct H as (? & Hf & Hk & Hl & [] & ? & [= <-]). split_and!; [done..|]. exists p. rewrite <- Hk, <- Hf. by split_and!.
  - intros (? & ? & p & ? & ? & Hf & Hk & ? & ? & ->). split_and!; [done..|]. exists p. split; [done|].
    rewrite !ensure_bind_ok, !bool_decide_eq_true, listed_key, result_bind_ok. rewrite Hk, Hf in *. split_and!; [done..|]. by exists tt.
Qed.

(** The tag of a frame is its first byte. *)
Lemma split_frame_tag f tag parts : split_frame f tag = Ok parts -> take 1 f = push_u8 tag.
Proof. unfold split_frame. rewrite ensure_bind_ok, andb_true_iff, bool_decide_eq_true. by intros [[_ ?] _]. Qed.

Lemma link_frame_verifies `{!SealLaws C S} sk m : blen sk = 32 ->
  core_device_verify DomainDeviceLinkActivation (ed25519_public sk) m (ed25519_sign sk (domain_signed_bytes DomainDeviceLinkActivation m)) = Ok tt.
Proof.
  intros _. unfold core_device_verify, verify_raw, is_len. by rewrite sign_length, public_length, public_ok, verify_sign.
Qed.

(** Ed25519 is unforgeable: what verifies under this key in the link domain its holder
    signed as one of these frames. *)
Definition link_signed_only (pk : bytes) (written : list (Z * bytes * bytes)) : Prop :=
  forall rest sig, ed25519_verify pk (DEVICE_LINK_ACTIVATION_SIGN_DOMAIN ++ rest) sig = true ->
  exists tag field binding, (tag, field, binding) ∈ written /\ in_u8 tag /\ blen field = 32 /\ rest = push_len_prefixed (signed_message tag field binding).
End minted.

(** C30: whatever a device mints from the roster it holds is accepted by everyone who holds
    that roster, and changes exactly what it says.  Adding a device to a roster whose sequence number is not the
    greatest there is (at [u64::MAX] the number would saturate and the new roster fork) lists it after the
    others and buries nobody; a removal leaves exactly the devices not named, buries
    exactly those named on top of every earlier burial, and raises the inbox key's
    generation; and a removal signed with the person root does so even for those who have
    the person quarantined, and hands the signing role to the recovering device. *)
Theorem minted_rosters_supersede `{C : Crypto} `{S : SealCrypto} current root sk pk ak revoked :
  in_u64 (seq current) -> in_u64 (inbox_key_generation current) ->
  (forall u, seq current < U64_MAX -> core_link_sign_new_device_roster current root sk pk ak = Ok u ->
     accepted_over false current (lu_roster u) root /\ lu_new_device_id u = derive_user_id pk
     /\ device_id <$> devices (lu_roster u) = (device_id <$> devices current) ++ [derive_user_id pk]
     /\ tombstones (lu_roster u) = tombstones current /\ lu_roster_head u = roster_head_hash (lu_roster u))
  /\ (forall key agree u, core_revoke_devices_roster current root sk revoked key agree = Ok u ->
     accepted_over false current (ru_roster u) root
     /\ (forall id, id ∈ (device_id <$> devices (ru_roster u)) <-> id ∈ (device_id <$> devices current) /\ id ∉ revoked)
     /\ tomb_device_id <$> tombstones (ru_roster u) = (tomb_device_id <$> tombstones current) ++ ru_revoked_device_ids u
     /\ (forall id, id ∈ ru_revoked_device_ids u <-> id ∈ revoked)
     /\ inbox_key_generation (ru_roster u) = ik_generation (ru_inbox_key u)
     /\ ik_generation (ru_inbox_key u) = u64_saturating_add (inbox_key_generation current) 1
     /\ ru_roster_head u = roster_head_hash (ru_roster u))
  /\ (forall q key agree u, core_recovery_revoke_roster current sk pk ak revoked key agree = Ok u ->
     accepted_over q current (ru_roster u) (ed25519_public sk)
     /\ (forall id, id ∈ (device_id <$> devices (ru_roster u)) <-> (id ∈ (device_id <$> devices current) /\ id ∉ revoked) \/ id = derive_user_id pk)
     /\ tomb_device_id <$> tombstones (ru_roster u) = (tomb_device_id <$> tombstones current) ++ ru_revoked_device_ids u
     /\ (forall id, id ∈ ru_revoked_device_ids u <-> id ∈ revoked)
     /\ approving_device_id (ru_roster u) = derive_user_id pk
     /\ inbox_key_generation (ru_roster u) = ik_generation (ru_inbox_key u)).
Proof.
  intros Hs Hg. split_and!.
  - intros u Hm H. by eapply new_device_minted.
  - intros key agree u H. by eapply revocation_minted.
  - intros q key agree u H. by apply (recovery_minted q) in H.
Qed.

#[local] Transparent push_u8.

Lemma push_u8_byte_inj a b : push_u8 a = push_u8 b -> byte_of_Z a = byte_of_Z b.
Proof. unfold push_u8. congruence. Qed.

#[local] Opaque push_u8.

(** A link's two signed frames say one thing to one channel.  The offer a device
    builds opens on the channel it was built for, to the keys it named, and on no other;
    the acknowledgement it builds opens exactly on its channel, for a roster with that
    very head that lists the device, on behalf of the device that made the offer; neither
    opens as the other; and whatever bytes open as an acknowledgement were signed, head and
    channel included, by the device that was offered. *)
Theorem link_frames_bind `{C : Crypto} `{S : SealCrypto} `{!SealLaws C S} sk field binding :
  (forall f, core_link_device_offer sk field binding = Ok f ->
     (forall binding' o, core_link_open_device_offer f binding' = Ok o <->
        binding' = binding /\ o = mk_link_offer (ed25519_public sk) field (derive_user_id (ed25519_public sk)))
     /\ (forall r offered binding', is_ok (core_link_open_activation_ack f r offered binding') = false))
  /\ (forall f, core_link_activation_ack sk field binding = Ok f ->
     (forall r offered binding' a, core_link_open_activation_ack f r offered binding' = Ok a <->
        binding' = binding /\ field = roster_head_hash r /\ offered = ed25519_public sk /\ offered ∈ (device_sign_pk <$> devices r)
        /\ a = mk_link_ack (derive_user_id offered) field)
     /\ (forall binding', is_ok (core_link_open_device_offer f binding') = false))
  /\ (forall f r offered written a, link_signed_only offered written -> core_link_open_activation_ack f r offered binding = Ok a ->
        (FRAME_ACTIVATION_ACK, roster_head_hash r, binding) ∈ written).
Proof.
  assert (forall tag f what, link_frame tag sk field binding what = Ok f ->
    split_frame f tag = Ok (mk_parts (ed25519_public sk) field binding
      (ed25519_sign sk (domain_signed_bytes DomainDeviceLinkActivation (signed_message tag field binding))))
    /\ take 1 f = push_u8 tag /\ blen sk = 32 /\ blen field = 32 /\ blen binding = CHANNEL_BINDING_LEN) as Hf.
  { intros tag f what (Hsk & Hfl & Hb & ->)%link_frame_ok. assert (split_frame (push_u8 tag ++ ed25519_public sk ++ field ++ binding
      ++ ed25519_sign sk (domain_signed_bytes DomainDeviceLinkActivation (signed_message tag field binding))) tag = Ok (mk_parts (ed25519_public sk) field binding
      (ed25519_sign sk (domain_signed_bytes DomainDeviceLinkActivation (signed_message tag field binding))))) as Hsp
      by (apply split_frame_parts; [done|done|apply sign_length]).
    split; [exact Hsp|]. by apply split_frame_tag in Hsp. }
  assert (push_u8 FRAME_DEVICE_OFFER <> push_u8 FRAME_ACTIVATION_ACK) as Htags by by vm_compute.
  split_and!.
  - intros f (Hsp & Ht & Hsk & _ & Hb)%Hf. split.
    + intros binding' o. rewrite open_offer_ok. split.
      * intros (_ & p & Hp & <- & _ & ->). rewrite Hsp in Hp. by injection Hp as <-.
      * intros [-> ->]. split; [done|]. eexists. split; [exact Hsp|]. cbn. split_and!; [done|by apply link_frame_verifies|done].
    + intros r offered binding'. destruct (core_link_open_activation_ack f r offered binding') eqn:Ho; [|done].
      apply open_ack_ok in Ho as (_ & _ & p & Hp & _). apply split_frame_tag in Hp. congruence.
  - intros f (Hsp & Ht & Hsk & _ & Hb)%Hf. split.
    + intros r offered binding' a. rewrite open_ack_ok. split.
      * intros (_ & _ & p & Hp & <- & Hh & <- & Hl & _ & ->). rewrite Hsp in Hp. injection Hp as <-. cbn in *. by rewrite Hh.
      * intros (-> & Hh & -> & Hl & ->). split; [done|]. split; [apply public_length|]. eexists. split; [exact Hsp|]. cbn.
        split_and!; [done|done|done|done|by apply link_frame_verifies|by rewrite Hh].
    + intros binding'. destruct (core_link_open_device_offer f binding') eqn:Ho; [|done].
      apply open_offer_ok in Ho as (_ & p & Hp & _). apply split_frame_tag in Hp. congruence.
  - intros f r offered written a Hw (Hb & _ & p & Hp & Hbind & Hh & Hk & _ & Hv & _)%open_ack_ok.
    unfold core_device_verify, verify_raw in Hv. inv_ok. match goal with H : ed25519_verify _ _ _ = true |- _ => rename H into Hsig end.
    rewrite Hk, Hbind, Hh in Hsig. unfold domain_signed_bytes in Hsig. destruct (Hw _ _ Hsig) as (tag & fl & b & Hin & Ht8 & Hl & Hm).
    apply app_inj_1 in Hm as [_ Hm]; [|by rewrite !length_be_bytes]. unfold signed_message in Hm.
    apply app_inj_1 in Hm as [Htag Hm]; [|done]. apply push_u8_byte_inj in Htag.
    assert (tag = FRAME_ACTIVATION_ACK) as ->.
    { rewrite <- (Z_of_byte_of_Z_small tag), <- Htag by ints. apply Z_of_byte_of_Z_small. vm_compute. split; [discriminate|done]. }
    apply app_inj_1 in Hm as [<- <-]; [done|]. unfold split_frame in Hp. rewrite ensure_bind_ok, andb_true_iff, Z.eqb_eq in Hp.
    destruct Hp as [[Hlen _] Hp]. injection Hp as <-. cbn in Hh. rewrite <- Hh, length_take, length_drop. unfold blen in *.
    unfold KEY_LEN, CHANNEL_BINDING_LEN, SIGNATURE_LEN in *. lia.
Qed.

(** ** Witnesses *)

Lemma minted_rosters_supersede_witness :
  (exists u, core_link_sign_new_device_roster (C := toy_crypto) (S := toy_seal) toy_roster1 toy_root (key 1) (key 3) (key 13) = Ok u
     /\ accepted_over (C := toy_crypto) false toy_roster1 (lu_roster u) toy_root)
  /\ (exists u, core_revoke_devices_roster (C := toy_crypto) (S := toy_seal) toy_roster1 toy_root (key 1) [toy_device 2]
                  (mk_inbox 1 (key 20) (key 20)) (key 21) = Ok u
     /\ accepted_over (C := toy_crypto) false toy_roster1 (ru_roster u) toy_root /\ ik_generation (ru_inbox_key u) = 2).
Proof.
  destruct (minted_rosters_supersede (C := toy_crypto) (S := toy_seal) toy_roster1 toy_root (key 1) (key 3) (key 13) [toy_device 2]) as (H1 & H2 & _);
    [split; by vm_compute|split; by vm_compute|]. split.
  - destruct (core_link_sign_new_device_roster (C := toy_crypto) (S := toy_seal) toy_roster1 toy_root (key 1) (key 3) (key 13)) as [u|] eqn:E;
      [|vm_compute in E; discriminate E].
    exists u. split; [reflexivity|]. exact (proj1 (H1 u eq_refl eq_refl)).
  - destruct (core_revoke_devices_roster (C := toy_crypto) (S := toy_seal) toy_roster1 toy_root (key 1) [toy_device 2]
                  (mk_inbox 1 (key 20) (key 20)) (key 21)) as [u|] eqn:E; [|vm_compute in E; discriminate E].
    exists u. split; [reflexivity|]. destruct (H2 _ _ u E) as (Ha & _ & _ & _ & _ & Hg & _). split; [exact Ha|]. rewrite Hg. reflexivity.
Defined.

Lemma link_frames_bind_witness :
  exists f, core_link_activation_ack (S := toy_seal) (key 2) (roster_head_hash (C := toy_crypto) toy_roster1) (key 30) = Ok f
    /\ core_link_open_activation_ack (C := toy_crypto) f toy_roster1 (key 2) (key 30)
       = Ok (mk_link_ack (toy_device 2) (roster_head_hash (C := toy_crypto) toy_roster1)).
Proof.
  destruct (core_link_activation_ack (S := toy_seal) (key 2) (roster_head_hash (C := toy_crypto) toy_roster1) (key 30)) as [f|] eqn:E;
    [|vm_compute in E; discriminate E].
  exists f. split; [reflexivity|].
  destruct (link_frames_bind (C := toy_crypto) (S := toy_seal) (key 2) (roster_head_hash (C := toy_crypto) toy_roster1) (key 30)) as (_ & H & _).
  apply (proj1 (H f E)). split; [reflexivity|]. split; [reflexivity|]. split; [vm_compute; reflexivity|]. split; [right; left|reflexivity].
Defined.
