(* ===== verification/LinkActivation.v ===== *)
(** Two-phase activation and the gate before it ([core/src/device_link/activation.rs],
    [set_own_device_fleet] of [core/src/store.rs]): the window a new device opens when its
    channel is confirmed, the import of a bootstrap, the acknowledged roster head that closes
    the window, giving up, the person's own roster and the fleet projected from it, and the
    notice that tells a removed device it was removed.

    The state is the message store with three more tables: the activation row, the own
    roster's document and the version the fleet was projected from ([link_db]).  The gate's
    three answers are derived from the row, and [gated] is the message store that the other
    components see through it.

    [silent_until_acknowledged] shows, over every sequence of calls, that a device whose
    window is open authors, fetches and acknowledges nothing until the head of the imported
    roster is acknowledged or the ceremony is abandoned; [revoked_is_final] that a removed device stays silent;
    [fleet_never_falls_back] that no call replaces the fleet by an older one;
    [notice_needs_supersession] that a notice changes nothing unless its document supersedes
    the roster held, and removes only a device it buries. *)
From stdpp Require Import base numbers list gmap sets strings.
From coqutil Require Import Datatypes.RecordSetters.
From S2P Require Import Prelude StdModel Wire Framing Crypto RosterCodec MeshReceive Roster RosterStore Frames Hints Engine OutboundQueue Sealing SyncStore Authoring SyncRecords InboundStore LinkCeremony LinkBootstrap LinkRoster.
Import TriangleBracketNotations.

(** * State *)

Inductive CoreLinkActivationStage : Type := NotLinking | AwaitingBootstrap | AwaitingRosterAck | Activated | Revoked.

#[global] Instance CoreLinkActivationStage_eq_dec : EqDecision CoreLinkActivationStage.
Proof. solve_decision. Defined.

Inductive CoreLinkGatedAction : Type := Advertise | Author | Ack.

Inductive CoreLinkGateReason : Type := NeverLinked | ReasonActivated | BootstrapPending | RosterAckPending | DeviceRevoked.

Record CoreLinkGateVerdict : Type := mk_gate_verdict {
  gv_allowed : bool;
  gv_stage : CoreLinkActivationStage;
  gv_action : CoreLinkGatedAction;
  gv_reason : CoreLinkGateReason;
}.

Record CoreLinkActivation : Type := mk_activation {
  ac_stage : CoreLinkActivationStage;
  ac_expected_roster_head : option bytes;
  ac_own_device_id : option bytes;
  ac_channel_binding : option bytes;
  ac_started_at_ms : Z;
  ac_bootstrap_imported_at_ms : Z;
  ac_activated_at_ms : Z;
}.

Inductive CoreLinkImportReadiness : Type := Ready | StoreHoldsSomeone | StoreHoldsAnotherPerson.

Record CoreLinkBootstrapImport : Type := mk_import {
  im_person : LinkBootstrapPerson;
  im_profile : LinkBootstrapProfile;
  im_own_device_id : bytes;
  im_roster_head : bytes;
  im_contacts_imported : Z;
  im_contact_rosters_imported : Z;
  im_groups_imported : Z;
  im_messages_imported : Z;
  im_catch_up : list CoreLinkCatchUp;
}.

Inductive RevocationAdoptionOutcome : Type :=
| Adopted | NotSuperseding | RevokedSelf | AwaitingRotationKey | AdoptionRefused | AdoptionForkQuarantined.

Record RevocationAdoption : Type := mk_adoption {
  ra_outcome : RevocationAdoptionOutcome;
  ra_reason : RosterUpdateReason;
  ra_revoked_device_ids : list bytes;
  ra_inbox_key : option InboxKey;
  ra_resealed_records : Z;
  ra_unresealable_records : Z;
}.

(** The row of [device_link_activation]. *)
Record activation_row : Type := mk_arow {
  aw_stage : string;
  aw_expected_roster_head : option bytes;
  aw_own_device_id : option bytes;
  aw_channel_binding : option bytes;
  aw_started_at_ms : Z;
  aw_bootstrap_imported_at_ms : Z;
  aw_activated_at_ms : Z;
}.

(** The row of [own_revocation], the journal of [revocation.rs]. *)
Record revocation_row : Type := mk_rrow {
  rr_roster_head : bytes;
  rr_inbox_key_generation : Z;
  rr_revoked_device_ids : bytes;
  rr_stream_seq : option Z;
  rr_started_at_ms : Z;
  rr_committed_at_ms : option Z;
}.

(** [own_device_fleet] is the fleet of the routing state; [own_device_fleet_version] holds
    the version as two signed columns. *)
Record link_db : Type := mk_link_db {
  ld_mesh : mesh_store;
  ld_activation : option activation_row;
  ld_own_document : option bytes;
  ld_fleet_version : option (Z * Z);
  ld_revocation : option revocation_row;
}.

Definition laction (A : Type) : Type := link_db -> link_db * result CoreError A.

#[global] Instance laction_ret : MRet laction := fun A a d => (d, Ok a).
#[global] Instance laction_bind : MBind laction := fun A B f m d =>
  match m d with (d, Ok a) => f a d | (d, Err e) => (d, Err e) end.

Definition on_mesh {A} (m : action CoreError A) : laction A := fun d =>
  let '(s, r) := m (ld_mesh d) in (d <| ld_mesh := s |>, r).
Definition lreads {A} (f : link_db -> A) : laction A := fun d => (d, Ok (f d)).
Definition lwrites (f : link_db -> link_db) : laction unit := fun d => (f d, Ok tt).
Definition lchecks {A} (r : result CoreError A) : laction A := fun d => (d, r).
Definition lfails {A} (e : CoreError) : laction A := lchecks (Err e).
(** A fallible read of the state. *)
Definition lasks {A} (f : link_db -> result CoreError A) : laction A := fun d => (d, f d).

(** Inversion of calls that succeed. *)
Lemma laction_bind_step {A B} (m : laction A) (f : A -> laction B) d :
  (m ≫= f) d = match m d with (d, Ok a) => f a d | (d, Err e) => (d, Err e) end.
Proof. done. Qed.

Lemma lbind_ok {A B} (m : laction A) (f : A -> laction B) d d' b :
  (m ≫= f) d = (d', Ok b) <-> exists d1 a, m d = (d1, Ok a) /\ f a d1 = (d', Ok b).
Proof.
  rewrite laction_bind_step. destruct (m d) as [d1 [a|e]]; [naive_solver|]. split; [done|]. intros (? & ? & [=] & _).
Qed.

Lemma lchecks_ok {A} (r : result CoreError A) d d' a : lchecks r d = (d', Ok a) <-> d' = d /\ r = Ok a.
Proof. unfold lchecks. naive_solver. Qed.

Lemma lreads_ok {A} (f : link_db -> A) d d' a : lreads f d = (d', Ok a) <-> d' = d /\ a = f d.
Proof. unfold lreads. naive_solver. Qed.

Lemma lasks_ok {A} (f : link_db -> result CoreError A) d d' a : lasks f d = (d', Ok a) <-> d' = d /\ f d = Ok a.
Proof. unfold lasks. split; [by intros [= <- ->]|by intros [-> ->]]. Qed.

Lemma lwrites_ok f d d' u : lwrites f d = (d', Ok u) <-> d' = f d.
Proof. unfold lwrites. destruct u. naive_solver. Qed.

Lemma lret_ok {A} (a b : A) d d' : (mret a : laction A) d = (d', Ok b) <-> d' = d /\ b = a.
Proof. unfold mret, laction_ret. naive_solver. Qed.

Ltac link_inv :=
  repeat match goal with
  | H : (_ ≫= _) _ = (_, Ok _) |- _ =>
      apply lbind_ok in H; let d := fresh "d" in let a := fresh "a" in let Ha := fresh "Ha" in destruct H as (d & a & Ha & H)
  | H : mret _ _ = (_, Ok _) |- _ => apply lret_ok in H as [-> H]; simplify_eq
  | H : lreads _ _ = (_, Ok _) |- _ => apply lreads_ok in H as [-> H]; try subst
  | H : lasks _ _ = (_, Ok _) |- _ => apply lasks_ok in H as [-> H]
  | H : lwrites _ _ = (_, Ok _) |- _ => apply lwrites_ok in H as ->
  | H : lchecks _ _ = (_, Ok _) |- _ => apply lchecks_ok in H as [-> H]
  | H : lfails _ _ = (_, Ok _) |- _ => discriminate H
  end; inv_ok.

(** * The gate *)

Definition stage_text (stage : CoreLinkActivationStage) : string :=
  match stage with
  | NotLinking => "not_linking"
  | AwaitingBootstrap => "awaiting_bootstrap"
  | AwaitingRosterAck => "awaiting_roster_ack"
  | Activated => "activated"
  | Revoked => "revoked"
  end.

(** A stage this build cannot read is a silent one. *)
Definition stage_from_text (text : string) : CoreLinkActivationStage :=
  if decide (text = "not_linking"%string) then NotLinking
  else if decide (text = "awaiting_roster_ack"%string) then AwaitingRosterAck
  else if decide (text = "activated"%string) then Activated
  else if decide (text = "revoked"%string) then Revoked
  else AwaitingBootstrap.

Definition link_activation (d : link_db) : CoreLinkActivation :=
  match ld_activation d with
  | None => mk_activation NotLinking None None None 0 0 0
  | Some r => mk_activation (stage_from_text (aw_stage r)) (aw_expected_roster_head r) (aw_own_device_id r) (aw_channel_binding r)
                (aw_started_at_ms r) (aw_bootstrap_imported_at_ms r) (aw_activated_at_ms r)
  end.

Notation stage d := (ac_stage (link_activation d)).

Definition core_link_activation_gate (activation : CoreLinkActivation) (act : CoreLinkGatedAction) : CoreLinkGateVerdict :=
  let '(allowed, reason) :=
    match ac_stage activation with
    | NotLinking => (true, NeverLinked)
    | Activated => (true, ReasonActivated)
    | AwaitingBootstrap => (false, BootstrapPending)
    | AwaitingRosterAck => (false, RosterAckPending)
    | Revoked => (false, DeviceRevoked)
    end in
  mk_gate_verdict allowed (ac_stage activation) act reason.

Definition link_gate (d : link_db) (act : CoreLinkGatedAction) : CoreLinkGateVerdict := core_link_activation_gate (link_activation d) act.

Definition link_gate_allows (d : link_db) (act : CoreLinkGatedAction) : bool := gv_allowed (link_gate d act).

Definition refusal (v : CoreLinkGateVerdict) : CoreError :=
  let act := match gv_action v with Advertise => "appear on the mesh" | Author => "send" | Ack => "acknowledge mail" end in
  if decide (gv_stage v = Revoked)
  then Store ("this device was removed from its person's devices and cannot " +:+ act)
  else Store ("this device is still being set up and cannot " +:+ act +:+ " yet").

Definition guard_link_gate (act : CoreLinkGatedAction) : laction unit :=
  lasks (fun d => ensure (link_gate_allows d act) (refusal (link_gate d act))).

(** * The own roster and its fleet *)

Definition own_roster (d : link_db) : result CoreError (option Roster) :=
  match ld_own_document d with
  | None => Ok None
  | Some document => r ← decode_roster_document document; Ok (Some r)
  end.

(** The message store as the other components see it: through the gate. *)
Definition gated (d : link_db) : mesh_store :=
  let s := with_engine (fun e =>
    let r := e_routing e in
    mk_edb (mk_routing (rt_groups r) (rt_contacts r) (rt_fleet r) (link_gate_allows d Advertise) (link_gate_allows d Ack))
      (e_rosters e) (e_messages e) (e_conflicts e) (e_hidden e) (e_carried e)) (ld_mesh d) in
  let s := s <| ms_author ::= (fun a => mk_adb (ad_out a) (ad_sync a) (ad_outgoing a) (link_gate_allows d Author)) |> in
  s <| ms_own_roster := match own_roster d with Ok r => r | Err _ => None end |>.

Definition store_own_roster (r : Roster) : laction unit := lwrites (fun d => d <| ld_own_document := Some (encode_roster_document r) |>).

Section activation.
Context `{C : Crypto} `{S : SealCrypto}.

Definition validate_own_device_fleet (own : option bytes) (ids : list bytes) : result CoreError unit :=
  _ ← ensure (forallb (fun id => (blen id =? DEVICE_ID_LEN) && negb (bool_decide (id = LEGACY_DEVICE_ID))) ids)
        (Store "own device fleet lists a device id that is not a real device id");
  _ ← ensure (bool_decide (NoDup ids)) (Store "own device fleet lists the same device twice");
  _ ← ensure (negb (bool_decide (core_device_add_outcome (as_u32 (blen ids)) = Refused)))
        (Store "own device fleet holds more devices than the hard cap");
  match own with
  | Some id => ensure (bool_decide (id ∈ ids)) (Store "own device fleet does not list this device among its own devices")
  | None => ensure (bool_decide (ids = [])) (Store "own device fleet names siblings without naming which device is this one")
  end.

Definition stored_version (v : Z * Z) : RosterVersion := mk_version (as_u64 v.1) (as_u64 v.2).

Definition set_fleet (fleet : OwnDeviceFleet) (d : link_db) : link_db :=
  d <| ld_mesh ::= with_engine (fun e =>
    let r := e_routing e in
    mk_edb (mk_routing (rt_groups r) (rt_contacts r) fleet (rt_advertise r) (rt_ack r))
      (e_rosters e) (e_messages e) (e_conflicts e) (e_hidden e) (e_carried e)) |>.

Definition set_own_device_fleet (fleet : OwnDeviceFleet) (projected_from : RosterVersion) : laction unit :=
  _ ← lchecks (validate_own_device_fleet (own_device_id fleet) (device_ids fleet));
  stored ← lreads ld_fleet_version;
  _ ← lchecks (match stored with
               | None => Ok tt
               | Some v =>
                   match version_compare projected_from (stored_version v) with
                   | Gt => Ok tt
                   | Eq => Err (Store "own device fleet idempotent repeat: a projection does not supersede the stored")
                   | Lt => Err (Store "own device fleet rollback: a projection does not supersede the stored")
                   end
               end);
  lwrites (fun d => set_fleet fleet d <| ld_fleet_version := Some (to_i64 (v_recovery_epoch projected_from), to_i64 (v_seq projected_from)) |>).

Definition project_own_fleet (r : Roster) (own_device_id : bytes) : laction unit :=
  set_own_device_fleet (mk_fleet (Some own_device_id) (device_id <$> devices r)) (version r).

Definition adopt_own_roster (r : Roster) (person_root_sign_pk own_device_id : bytes) : laction unit :=
  _ ← lchecks (ensure (bool_decide (core_roster_validate r person_root_sign_pk = None)) (Malformed "own roster is not acceptable"));
  _ ← lchecks (ensure (existsb (fun c => bool_decide (device_id c = own_device_id)) (devices r)) (Store "own roster does not list this device"));
  _ ← store_own_roster r;
  project_own_fleet r own_device_id.

(** * Before the ceremony *)

Definition store_is_factory_fresh (d : link_db) : bool :=
  let s := ld_mesh d in
  bool_decide (ms_contacts s = ∅) && bool_decide (rt_groups (ms_routing s) = []) && bool_decide (ms_messages s = []).

Definition link_import_readiness (expected_person_id : option bytes) (d : link_db) : result CoreError CoreLinkImportReadiness :=
  existing ← own_roster d;
  match existing with
  | Some existing =>
      Ok (match expected_person_id with
          | Some expected => if decide (expected = person_id existing) then Ready else StoreHoldsAnotherPerson
          | None => StoreHoldsAnotherPerson
          end)
  | None =>
      if store_is_factory_fresh d then Ok Ready
      else Ok (match expected_person_id with Some _ => Ready | None => StoreHoldsSomeone end)
  end.

(** * The window *)

Definition set_row (r : activation_row) : laction unit := lwrites (fun d => d <| ld_activation := Some r |>).

Definition begin_link_activation (channel_binding : bytes) (now_ms : Z) : laction CoreLinkActivation :=
  _ ← lchecks (link_check_len channel_binding CHANNEL_BINDING_LEN "channel binding");
  current ← lreads link_activation;
  _ ← lchecks (ensure (negb (bool_decide (ac_stage current = Activated)))
                 (Store "this device is already linked; linking it again starts from a fresh install"));
  _ ← lchecks (ensure (negb (bool_decide (ac_stage current = Revoked)))
                 (Store "this device was removed; setting it up again starts from a fresh install"));
  _ ← set_row (mk_arow (stage_text AwaitingBootstrap) None None (Some channel_binding) now_ms 0 0);
  lreads link_activation.

(** [UPDATE ... WHERE id = 0]: without a row it does nothing. *)
Definition update_row (f : activation_row -> activation_row) : laction unit := lwrites (fun d => d <| ld_activation ::= fmap f |>).

Definition abandon_link_activation (now_ms : Z) : laction CoreLinkActivation :=
  current ← lreads link_activation;
  match ac_stage current with
  | Activated => lfails (Store "this device is linked; removing it is a roster change, not a local reset")
  | Revoked => lfails (Store "this device was removed from its person's devices; that is not a local state to reset")
  | NotLinking => mret current
  | AwaitingBootstrap | AwaitingRosterAck =>
      _ ← update_row (fun _ => mk_arow (stage_text NotLinking) None None None now_ms 0 0);
      lreads link_activation
  end.

(** * The import *)

(** A card's contact keeps the nickname it has; the person's own name for one is applied. *)
Definition set_contact_nickname (user_id : bytes) (nickname : option bytes) : action CoreError bool := fun s =>
  let nickname := nickname ≫= fun v => if decide (trim v = []) then None else Some (trim v) in
  (s <| ms_contacts ::= alter (fun c => mk_contact (ct_user_id c) (ct_name c) (ct_sign_pk c) (ct_agree_pk c) (ct_relay_url c) (ct_relay_token c) nickname) user_id |>,
   Ok (bool_decide (is_Some (ms_contacts s !! user_id)))).

Definition import_contact (entry : LinkBootstrapContact) : action CoreError unit :=
  _ ← upsert_contact (lc_contact entry);
  match ct_nickname (lc_contact entry) with
  | None => mret tt
  | Some _ => _ ← set_contact_nickname (ct_user_id (lc_contact entry)) (ct_nickname (lc_contact entry)); mret tt
  end.

(** One counted call per item, in order. *)
Fixpoint each {A} (call : A -> action CoreError bool) (items : list A) : action CoreError Z :=
  match items with
  | [] => mret 0
  | x :: items => hit ← call x; n ← each call items; mret ((if hit : bool then 1 else 0) + n)
  end.

Definition import_roster (r : Roster) : action CoreError bool :=
  decision ← apply_roster r;
  mret (bool_decide (outcome decision = Accepted)).

Definition insert_message_from_device (message : StoredMessage) (sender_device_id : option bytes) (now_ms : Z) : action CoreError bool :=
  outcome ← on_engine (fun e => insert_incoming e message (core_device_stream_id sender_device_id) None None now_ms);
  mret (match outcome with Inserted => true | _ => false end).

Definition import_link_bootstrap (b : LinkBootstrap) (own_device_sign_pk : bytes) (expected_person_id : option bytes) (now_ms : Z)
    : laction CoreLinkBootstrapImport :=
  activation ← lreads link_activation;
  _ ← lchecks (ensure (bool_decide (ac_stage activation = AwaitingBootstrap)) (Store "a bootstrap can only be imported while awaiting one, not in"));
  binding ← lchecks (option_ok (ac_channel_binding activation)
                       (Store "no link ceremony was recorded for this window, so no bootstrap belongs to it"));
  _ ← lchecks (core_link_bootstrap_verify b binding now_ms);
  let person := lb_person b in
  _ ← lchecks (ensure (match expected_person_id with Some expected => bool_decide (expected = lp_person_id person) | None => true end)
                 (Malformed "this bootstrap is for a different person than the one being restored"));
  readiness ← lasks (link_import_readiness expected_person_id);
  _ ← lchecks (match readiness with
               | Ready => Ok tt
               | StoreHoldsSomeone => Err (Store "this phone already holds someone's contacts and messages, so it cannot be adopted as a new device")
               | StoreHoldsAnotherPerson => Err (Store "this phone already belongs to a different person")
               end);
  existing ← lasks own_roster;
  _ ← lchecks (ensure (match existing with Some r => bool_decide (person_id r = lp_person_id person) | None => true end)
                 (Store "this phone already belongs to a different person"));
  _ ← lchecks (link_check_len (lp_person_sign_pk person) KEY_LEN "person root key");
  _ ← lchecks (link_check_len (lp_inbox_agree_pk person) KEY_LEN "inbox key");
  _ ← lchecks (link_check_len (lp_inbox_agree_sk person) KEY_LEN "inbox key");
  _ ← lchecks (ensure (bool_decide (derive_user_id (lp_person_sign_pk person) = lp_person_id person))
                 (Malformed "bootstrap identity does not match its own person id"));
  _ ← lchecks (ensure (bool_decide (person_id (lb_roster b) = lp_person_id person)) (Malformed "bootstrap roster is for a different person"));
  _ ← lchecks (ensure (bool_decide (core_roster_validate (lb_roster b) (lp_person_sign_pk person) = None))
                 (Malformed "bootstrap roster is not acceptable"));
  own_cert ← lchecks (option_ok (List.find (fun c => bool_decide (device_sign_pk c = own_device_sign_pk)) (devices (lb_roster b)))
                        (Malformed "bootstrap roster does not carry a certificate for this device"));
  let own_device_id := device_id own_cert in
  let roster_head := roster_head_hash (lb_roster b) in
  _ ← on_mesh (each (fun entry => _ ← import_contact entry; mret true) (lb_contacts b));
  rosters ← on_mesh (each import_roster (omap lc_roster (lb_contacts b)));
  _ ← on_mesh (each (fun group => _ ← upsert_group group; mret true) (lb_groups b));
  messages ← on_mesh (each (fun m => insert_message_from_device m (Some (sm_sender_device_id m)) now_ms) (lb_history_head b));
  _ ← store_own_roster (lb_roster b);
  _ ← update_row (fun r => mk_arow (stage_text AwaitingRosterAck) (Some roster_head) (Some own_device_id) (aw_channel_binding r)
                             (aw_started_at_ms r) now_ms (aw_activated_at_ms r));
  mret (mk_import person (lb_profile b) own_device_id roster_head (blen (lb_contacts b)) rosters (blen (lb_groups b)) messages
          (core_link_catch_up_plan b)).

(** * The acknowledgement that closes it *)

Definition complete_link_activation (acked_roster_head : bytes) (now_ms : Z) : laction CoreLinkActivation :=
  activation ← lreads link_activation;
  _ ← lchecks (ensure (bool_decide (ac_stage activation = AwaitingRosterAck)) (Store "activation closes only after a bootstrap import, not in"));
  expected ← lchecks (option_ok (ac_expected_roster_head activation) (Store "no roster head is awaiting acknowledgement"));
  _ ← lchecks (ensure (bool_decide (acked_roster_head = expected)) (Malformed "the acknowledged roster is not the roster that was imported"));
  own_device_id ← lchecks (option_ok (ac_own_device_id activation) (Store "no device id was imported"));
  existing ← lasks own_roster;
  r ← lchecks (option_ok existing (Store "no own roster was imported"));
  _ ← lchecks (ensure (bool_decide (roster_head_hash r = expected)) (Store "the stored own roster is not the one that was acknowledged"));
  _ ← project_own_fleet r own_device_id;
  _ ← update_row (fun row => mk_arow (stage_text Activated) (aw_expected_roster_head row) (aw_own_device_id row) (aw_channel_binding row)
                               (aw_started_at_ms row) (aw_bootstrap_imported_at_ms row) now_ms);
  lreads link_activation.

(** * The notice *)

Definition OWN_ROSTER_NOTICE_REOFFER_INTERVAL_MS : Z := 60000.

Definition core_own_roster_notice_reoffer_due (last_offered_at_ms : option Z) (now_ms : Z) : bool :=
  match last_offered_at_ms with
  | None => true
  | Some last => (now_ms <? last) || (OWN_ROSTER_NOTICE_REOFFER_INTERVAL_MS <=? i64_saturating_sub now_ms last)
  end.

Definition own_roster_notice_frame (d : link_db) : result CoreError (option bytes) :=
  if negb (link_gate_allows d Advertise) then Ok None
  else r ← own_roster d;
       match r with
       | None => Ok None
       | Some r => document ← core_encode_roster r; frame ← encode_own_roster document; Ok (Some frame)
       end.

(** One transaction: the burying roster, no fleet, and the shut gate. *)
Definition eject_self_from_fleet (r : Roster) (own_device_id : bytes) (now_ms : Z) : laction unit := lwrites (fun d =>
  let supersedes := match ld_fleet_version d with
                    | None => true
                    | Some v => match version_compare (version r) (stored_version v) with Gt => true | _ => false end
                    end in
  let d := d <| ld_own_document := Some (encode_roster_document r) |> in
  let d := if supersedes : bool then d <| ld_fleet_version := Some (to_i64 (recovery_epoch r), to_i64 (seq r)) |> else d in
  let d := set_fleet (mk_fleet None []) d in
  d <| ld_activation ::= (fun row => Some
    match row with
    | None => mk_arow (stage_text Revoked) None (Some own_device_id) None now_ms 0 0
    | Some row => mk_arow (stage_text Revoked) None (Some own_device_id) None (aw_started_at_ms row) (aw_bootstrap_imported_at_ms row)
                    (aw_activated_at_ms row)
    end) |>).

Definition mark_own_quarantined (person : bytes) : action CoreError unit := on_engine (fun e =>
  (mk_edb (e_routing e) (mark_quarantined (e_rosters e) person) (e_messages e) (e_conflicts e) (e_hidden e) (e_carried e), Ok tt)).

Definition apply_own_roster_notice (document person_root_sign_pk own_device_id : bytes) (now_ms : Z) : laction RevocationAdoption :=
  existing ← lasks own_roster;
  held_roster ← lchecks (option_ok existing (Store "this device has no roster of its own, so it has no fleet to be removed from"));
  incoming ← lchecks (core_decode_roster document);
  _ ← lchecks (ensure (bool_decide (person_id incoming = person_id held_roster)) (Malformed "an own-roster notice names a different person"));
  st ← on_mesh (contact_roster_state (person_id held_roster));
  anchor ← lchecks (if decide (derive_user_id person_root_sign_pk = person_id held_roster) then Ok person_root_sign_pk
                    else option_ok (core_roster_person_root_sign_pk held_roster)
                           (Store "this device's roster names no person root to check a notice against"));
  let decision := core_roster_accept (Some held_roster) (is_quarantined st) incoming anchor in
  let revoked := core_roster_newly_revoked (Some held_roster) incoming in
  let answer o why ids := mk_adoption o why ids None 0 0 in
  match outcome decision with
  | ForkQuarantined =>
      _ ← on_mesh (mark_own_quarantined (person_id held_roster));
      mret (answer AdoptionForkQuarantined (reason decision) [])
  | Ignored =>
      mret (answer (match reason decision with Rollback | IdempotentRepeat => NotSuperseding | _ => AdoptionRefused end) (reason decision) [])
  | Accepted =>
      if is_tombstoned incoming own_device_id then
        _ ← eject_self_from_fleet incoming own_device_id now_ms;
        mret (answer RevokedSelf (reason decision) revoked)
      else if negb (existsb (fun c => bool_decide (device_id c = own_device_id)) (devices incoming)) then
        mret (answer AdoptionRefused Invalid [])
      else if negb (inbox_key_generation incoming =? inbox_key_generation held_roster) then
        mret (answer AwaitingRotationKey (reason decision) revoked)
      else
        _ ← store_own_roster incoming;
        _ ← project_own_fleet incoming own_device_id;
        mret (answer Adopted (reason decision) revoked)
  end.
End activation.

(** * Runs *)

(** What is called on a device, in any order; [Elsewhere] is any other component at work on
    the message store, and [Ejected] the removal a sealed handoff brings. *)
Inductive link_call : Type :=
| Begin (channel_binding : bytes) (now_ms : Z)
| Abandon (now_ms : Z)
| Import (b : LinkBootstrap) (own_device_sign_pk : bytes) (expected_person_id : option bytes) (now_ms : Z)
| Complete (acked_roster_head : bytes) (now_ms : Z)
| Adopt (r : Roster) (person_root_sign_pk own_device_id : bytes)
| SetFleet (fleet : OwnDeviceFleet) (projected_from : RosterVersion)
| Notice (document person_root_sign_pk own_device_id : bytes) (now_ms : Z)
| Ejected (r : Roster) (own_device_id : bytes) (now_ms : Z)
| Elsewhere (f : mesh_store -> mesh_store).

Section runs.
Context `{C : Crypto} `{S : SealCrypto}.

Definition link_step (d : link_db) (c : link_call) : link_db :=
  match c with
  | Begin binding now => (begin_link_activation binding now d).1
  | Abandon now => (abandon_link_activation now d).1
  | Import b pk expected now => (import_link_bootstrap b pk expected now d).1
  | Complete head now => (complete_link_activation head now d).1
  | Adopt r root id => (adopt_own_roster r root id d).1
  | SetFleet fleet v => (set_own_device_fleet fleet v d).1
  | Notice document root id now => (apply_own_roster_notice document root id now d).1
  | Ejected r id now => (eject_self_from_fleet r id now d).1
  | Elsewhere f => d <| ld_mesh ::= f |>
  end.

Definition link_run (d : link_db) (calls : list link_call) : link_db := foldl link_step d calls.

Definition is_open (d : link_db) : bool := link_gate_allows d Advertise.

(** A call that ends the same way on every path but one. *)
Definition keeps {A} (P : link_db -> Prop) (m : laction A) : Prop := forall d, P d -> P (m d).1.

Lemma keeps_bind {A B} P (m : laction A) (f : A -> laction B) : keeps P m -> (forall a, keeps P (f a)) -> keeps P (m ≫= f).
Proof.
  intros Hm Hf d Hd. rewrite laction_bind_step. specialize (Hm d Hd). destruct (m d) as [d' [a|e]]; [by apply Hf|done].
Qed.

Lemma keeps_ret {A} P (a : A) : keeps P (mret a).
Proof. by intros d Hd. Qed.

Lemma keeps_checks {A} P (r : result CoreError A) : keeps P (lchecks r).
Proof. by intros d Hd. Qed.

Lemma keeps_reads {A} P (f : link_db -> A) : keeps P (lreads f).
Proof. by intros d Hd. Qed.

Lemma keeps_asks {A} P (f : link_db -> result CoreError A) : keeps P (lasks f).
Proof. by intros d Hd. Qed.

Lemma keeps_writes P f : (forall d, P d -> P (f d)) -> keeps P (lwrites f).
Proof. intros H d Hd. by apply H. Qed.

Lemma keeps_mesh {A} P (m : action CoreError A) : (forall d s, P d -> P (d <| ld_mesh := s |>)) -> keeps P (on_mesh m).
Proof. intros H d Hd. unfold on_mesh. destruct (m (ld_mesh d)) as [s r]. by apply H. Qed.

(** Everything but the row stays out of its way. *)
Ltac keeping :=
  repeat first
    [ apply keeps_ret | apply keeps_checks | apply keeps_reads | apply keeps_asks
    | (apply keeps_mesh; intros; assumption)
    | (apply keeps_writes; intros; assumption)
    | (apply keeps_bind; [|intros ?])
    | (match goal with |- keeps _ (match ?x with _ => _ end) => destruct x end) ].

(** A call that fails before it writes. *)
Definition errs_keep {A} (P : link_db -> Prop) (m : laction A) : Prop := forall d d' e, P d -> m d = (d', Err e) -> P d'.

Lemma errs_keep_at {A} P (m : laction A) d d' e : errs_keep P m -> P d -> m d = (d', Err e) -> P d'.
Proof. intros H. apply H. Qed.

Definition never_errs {A} (m : laction A) : Prop := forall d d' e, m d <> (d', Err e).

Lemma errs_never {A} P (m : laction A) : never_errs m -> errs_keep P m.
Proof. intros H d d' e _ Hd. destruct (H d d' e Hd). Qed.

Lemma errs_kept {A} P (m : laction A) : keeps P m -> errs_keep P m.
Proof. intros H d d' e Hd Hm. specialize (H d Hd). by rewrite Hm in H. Qed.

Lemma errs_bind {A B} P (m : laction A) (f : A -> laction B) : keeps P m -> (forall a, errs_keep P (f a)) -> errs_keep P (m ≫= f).
Proof.
  intros Hm Hf d d' e Hd H. rewrite laction_bind_step in H. specialize (Hm d Hd). destruct (m d) as [d1 [a|e1]]; [exact (Hf a d1 d' e Hm H)|].
  by injection H as <- _.
Qed.

Lemma errs_last {A B} P (m : laction A) (f : A -> laction B) : errs_keep P m -> (forall a, never_errs (f a)) -> errs_keep P (m ≫= f).
Proof.
  intros Hm Hf d d' e Hd H. rewrite laction_bind_step in H. destruct (m d) as [d1 [a|e1]] eqn:E; [destruct (Hf _ _ _ _ H)|].
  injection H as <- <-. by eapply Hm.
Qed.

Lemma never_bind {A B} (m : laction A) (f : A -> laction B) : never_errs m -> (forall a, never_errs (f a)) -> never_errs (m ≫= f).
Proof.
  intros Hm Hf d d' e H. rewrite laction_bind_step in H. destruct (m d) as [d1 [a|e1]] eqn:E; [exact (Hf _ _ _ _ H)|exact (Hm _ _ _ E)].
Qed.

Lemma never_writes f : never_errs (lwrites f).
Proof. done. Qed.

Lemma never_reads {A} (f : link_db -> A) : never_errs (lreads f).
Proof. done. Qed.

Lemma never_ret {A} (a : A) : never_errs (mret a : laction A).
Proof. done. Qed.

Ltac never := repeat first [apply never_writes | apply never_reads | apply never_ret | (apply never_bind; [|intros ?])].

(** Nothing is written before the last step that can fail. *)
Ltac erring :=
  repeat first
    [ (apply errs_never; solve [never])
    | (apply errs_bind; [solve [keeping]|intros ?])
    | (apply errs_kept; solve [keeping])
    | (match goal with |- errs_keep _ (match ?x with _ => _ end) => destruct x end) ].

Definition row_is (r : option activation_row) (d : link_db) : Prop := ld_activation d = r.

Lemma set_fleet_row fleet d : ld_activation (set_fleet fleet d) = ld_activation d.
Proof. done. Qed.

Lemma keeps_set_fleet_row r fleet v : keeps (row_is r) (set_own_device_fleet fleet v).
Proof. unfold set_own_device_fleet. keeping. Qed.

Lemma keeps_project_row r ros id : keeps (row_is r) (project_own_fleet ros id).
Proof. unfold project_own_fleet, set_own_device_fleet. keeping. Qed.

Lemma keeps_adopt_row r ros root id : keeps (row_is r) (adopt_own_roster ros root id).
Proof. unfold adopt_own_roster, store_own_roster. keeping; apply keeps_project_row. Qed.

(** ** What each call does to the row *)

Lemma begin_row binding now d : let d' := (begin_link_activation binding now d).1 in
  ld_activation d' = ld_activation d \/ (stage d <> Activated /\ stage d <> Revoked /\ stage d' = AwaitingBootstrap).
Proof.
  cbv zeta. destruct (begin_link_activation binding now d) as [d' [a|e]] eqn:H.
  - right. unfold begin_link_activation, set_row in H. link_inv. subst. bools. by repeat split.
  - left. revert H. apply (errs_keep_at (row_is (ld_activation d))); [|done]. unfold begin_link_activation, set_row. erring.
Qed.

Lemma on_mesh_row {A} (m : action CoreError A) d d' r : on_mesh m d = (d', r) -> ld_activation d' = ld_activation d.
Proof. unfold on_mesh. destruct (m (ld_mesh d)) as [s x]. by intros [= <- _]. Qed.

Ltac on_mesh_rows := repeat match goal with H : on_mesh _ _ = _ |- _ => apply on_mesh_row in H end.

Lemma abandon_row now d : let d' := (abandon_link_activation now d).1 in
  ld_activation d' = ld_activation d \/ ((stage d = AwaitingBootstrap \/ stage d = AwaitingRosterAck) /\ stage d' = NotLinking).
Proof.
  cbv zeta. destruct (stage d) eqn:E.
  - left. unfold abandon_link_activation. rewrite laction_bind_step. cbv [lreads]. by rewrite E.
  - right. split; [tauto|]. unfold abandon_link_activation. rewrite laction_bind_step. cbv [lreads]. rewrite E.
    destruct d as [m [row|] doc v j]; first [reflexivity|discriminate E].
  - right. split; [tauto|]. unfold abandon_link_activation. rewrite laction_bind_step. cbv [lreads]. rewrite E.
    destruct d as [m [row|] doc v j]; first [reflexivity|discriminate E].
  - left. unfold abandon_link_activation. rewrite laction_bind_step. cbv [lreads]. by rewrite E.
  - left. unfold abandon_link_activation. rewrite laction_bind_step. cbv [lreads]. by rewrite E.
Qed.

(** The bootstrap was this ceremony's, and its head is the one awaited. *)
Definition imported (d : link_db) (b : LinkBootstrap) (pk : bytes) (expected : option bytes) (now : Z) : Prop :=
  stage d = AwaitingBootstrap
  /\ (exists binding, ac_channel_binding (link_activation d) = Some binding /\ core_link_bootstrap_verify b binding now = Ok tt)
  /\ exists im, (import_link_bootstrap b pk expected now d).2 = Ok im.

Lemma import_row b pk expected now d : let d' := (import_link_bootstrap b pk expected now d).1 in
  ld_activation d' = ld_activation d
  \/ (imported d b pk expected now /\ stage d' = AwaitingRosterAck
      /\ ac_expected_roster_head (link_activation d') = Some (roster_head_hash (lb_roster b))).
Proof.
  cbv zeta. destruct (import_link_bootstrap b pk expected now d) as [d' [im|e]] eqn:H.
  - right. assert (imported d b pk expected now /\ is_Some (ld_activation d)) as [Hi [row Hrow]].
    { unfold imported. rewrite H. unfold import_link_bootstrap in H. link_inv. bools. rewrite !option_ok_ok in *. split.
      - split; [done|]. split; [|by eexists]. match goal with H : core_link_bootstrap_verify _ ?x _ = Ok ?u |- _ => exists x; destruct u; by split end.
      - unfold link_activation in *. by destruct (ld_activation d). }
    split; [done|]. unfold import_link_bootstrap, store_own_roster, update_row in H. link_inv. subst. on_mesh_rows.
    match goal with |- context [?x <| ld_own_document := _ |>] => assert (ld_activation x = Some row) as Hx by congruence; clear -Hx; destruct x end.
    cbn in Hx. subst. by split.
  - left. revert H. apply (errs_keep_at (row_is (ld_activation d))); [|done]. unfold import_link_bootstrap, store_own_roster, update_row. erring.
Qed.

(** The fleet is projected, and the row is marked. *)
Lemma complete_row head now d : let d' := (complete_link_activation head now d).1 in
  ld_activation d' = ld_activation d
  \/ (stage d = AwaitingRosterAck /\ ac_expected_roster_head (link_activation d) = Some head /\ stage d' = Activated
      /\ exists a, (complete_link_activation head now d).2 = Ok a).
Proof.
  cbv zeta. destruct (complete_link_activation head now d) as [d' [a|e]] eqn:H.
  - right. unfold complete_link_activation, update_row in H. link_inv. bools. rewrite !option_ok_ok in *. subst.
    match goal with H : project_own_fleet ?r ?i ?d0 = (?d1, _) |- _ => pose proof (keeps_project_row (ld_activation d0) r i d0 eq_refl) as Hrow; rewrite H in Hrow end.
    split_and!; [done|done| |by eexists]. cbn [fst] in Hrow. unfold row_is in Hrow.
    unfold link_activation in *. destruct d as [m [row|] doc v j]; [|done].
    match goal with |- context [?x <| ld_activation ::= _ |>] => destruct x end. cbn in Hrow. subst. reflexivity.
  - left. revert H. apply (errs_keep_at (row_is (ld_activation d))); [|done]. unfold complete_link_activation, update_row. erring; apply keeps_project_row.
Qed.

Lemma eject_stage r id now d : stage (eject_self_from_fleet r id now d).1 = Revoked.
Proof.
  unfold eject_self_from_fleet, lwrites, link_activation. cbn [fst].
  match goal with |- context [if ?b then _ <| ld_fleet_version := _ |> else _] => destruct b end; by destruct d as [m [row|] doc v j].
Qed.

Lemma notice_row document root id now d : let d' := (apply_own_roster_notice document root id now d).1 in
  ld_activation d' = ld_activation d \/ stage d' = Revoked.
Proof.
  cbv zeta. set (P := fun x => ld_activation x = ld_activation d \/ stage x = Revoked).
  assert (keeps P (apply_own_roster_notice document root id now)) as H; [|apply H; by left].
  unfold apply_own_roster_notice, store_own_roster, project_own_fleet, set_own_device_fleet. keeping.
  intros d0 _. right. apply eject_stage.
Qed.

Lemma is_open_stage d : is_open d = true <-> stage d = NotLinking \/ stage d = Activated.
Proof. unfold is_open, link_gate_allows, link_gate, core_link_activation_gate. destruct (stage d); cbn; naive_solver. Qed.

Lemma gate_any act d : link_gate_allows d act = is_open d.
Proof. unfold is_open, link_gate_allows, link_gate, core_link_activation_gate. by destruct (stage d). Qed.

Lemma link_run_snoc d calls c : link_run d (calls ++ [c]) = link_step (link_run d calls) c.
Proof. unfold link_run. apply foldl_snoc. Qed.

(** ** The two ways out of the window *)










Lemma revoked_stays d c : stage d = Revoked -> stage (link_step d c) = Revoked.
Proof.
  intros H. assert (forall d', ld_activation d' = ld_activation d -> stage d' = Revoked) as Hsame
    by (intros d' He; unfold link_activation in *; by rewrite He).
  destruct c as [binding now|now|b pk e now|head now|r root id|fleet v|document root id now|r id now|f]; cbn [link_step].
  - destruct (begin_row binding now d) as [?|(_ & ? & _)]; [by apply Hsame|done].
  - destruct (abandon_row now d) as [?|([?|?] & _)]; [by apply Hsame|congruence..].
  - destruct (import_row b pk e now d) as [?|((Hs & _) & _)]; [by apply Hsame|congruence].
  - destruct (complete_row head now d) as [?|(? & _)]; [by apply Hsame|congruence].
  - apply Hsame. by apply keeps_adopt_row.
  - apply Hsame. by apply (keeps_set_fleet_row (ld_activation d)).
  - destruct (notice_row document root id now d) as [?|?]; [by apply Hsame|done].
  - apply eject_stage.
  - by apply Hsame.
Qed.

(** ** Silence *)

(** A call that is refused and leaves the store alone. *)
Definition unsaid {A} (d : authoring_db) (answer : authoring_db * result CoreError A) : Prop := exists e, answer = (d, Err e).

(** No new mail: every call that authors some is refused - to a contact, to a group, a
    change of a group, its invites, a backfill, a receipt of either kind. *)
Record authors_nothing (d : authoring_db) : Prop := {
  no_pairwise : forall identity contact kind payload reply t rnd, unsaid d (author_pairwise_message d identity contact kind payload reply t rnd);
  no_request : forall identity contact card t rnd, unsaid d (author_friend_request d identity contact card t rnd);
  no_backfill : forall identity contact message reply rnd, unsaid d (backfill_pairwise_envelope d identity contact message reply rnd);
  no_group_message : forall identity g kind payload reply t rnd, unsaid d (author_group_message d identity g kind payload reply t rnd);
  no_group_update : forall identity g name ids t rnd, unsaid d (author_group_metadata_update d identity g name ids t rnd);
  no_invites : forall identity g members t, unsaid d (queue_group_invites d identity g members t);
  no_receipt : forall identity contact sender type through t rnd, unsaid d (author_receipt d identity contact sender type through t rnd);
  no_ensured_receipt : forall identity contact sender type through t rnd,
    unsaid d (ensure_authored_receipt d identity contact sender type through t rnd);
  no_group_receipt : forall identity contact gid type through t rnd,
    unsaid d (ensure_authored_group_receipt d identity contact gid type through t rnd);
}.

(** The gated calls give nothing out: no hints to fetch or to subscribe by, for itself, for
    those it polls for or for a peer; no queued envelope to the relay uploader, and no rows
    to upload for one; nothing acknowledged at a relay or retired for a peer; nothing
    authored. *)
Record silent (s : mesh_store) : Prop := {
  quiet_hints : forall own now, relay_fetch_hints (ms_routing s) own now = [] /\ relay_fetch_push_hints (ms_routing s) own now = []
    /\ relay_self_hints (ms_routing s) own now = [] /\ relay_self_push_hints (ms_routing s) own now = []
    /\ relay_proxy_hints (ms_routing s) own now = [] /\ delivery_hints_for_peer (ms_routing s) own now = [];
  quiet_queue : forall limit now skip, pending_relay_outbound_envelopes (ms_out s) limit now skip = [];
  quiet_rows : forall e own sealed, core_outbound_relay_rows (ms_engine s) e own sealed = Ok [];
  quiet_acks : forall items own now, core_relay_ack_ids_with_consumed (ms_engine s) items own now = [];
  quiet_digest : forall peer ids auth now, core_confirm_carried_deliveries (ms_engine s) peer ids auth now = (ms_engine s, 0);
  quiet_author : authors_nothing (ms_author s);
}.

Lemma shut_authors_nothing d : ad_may_author d = false -> authors_nothing d.
Proof.
  intros Eu. assert (Authoring.guard_link_gate d = Err (Store "this device cannot send yet")) as Hg by (unfold Authoring.guard_link_gate; by rewrite Eu).
  split; intros; try (eexists; unfold author_friend_request, author_pairwise_message, backfill_pairwise_envelope, author_group_message,
    author_group_metadata_update, queue_group_invites, author_receipt, ensure_authored_receipt; by rewrite Hg).
  unfold ensure_authored_group_receipt. destruct (_ || _); [|by eexists]. destruct (negb (through =? 0)); [|by eexists]. cbn [ensure mbind result_bind].
  rewrite Hg. by eexists.
Qed.

Lemma closed_silent d : is_open d = false -> silent (gated d) /\ own_roster_notice_frame d = Ok None.
Proof.
  intros H. pose proof (gate_any Advertise d) as Ha. pose proof (gate_any Ack d) as Hk. pose proof (gate_any Author d) as Hu. rewrite H in *.
  assert (rt_advertise (ms_routing (gated d)) = false) as Ea by exact Ha. assert (rt_ack (ms_routing (gated d)) = false) as Ek by exact Hk.
  split; [|unfold own_roster_notice_frame; by rewrite Ha]. split.
  - intros own now. unfold relay_fetch_hints, relay_fetch_push_hints, relay_self_hints, relay_self_push_hints, relay_proxy_hints,
      delivery_hints_for_peer, relay_hint_groups. by rewrite Ea.
  - intros limit now skip. unfold pending_relay_outbound_envelopes. by rewrite Ea.
  - intros e own sealed. unfold core_outbound_relay_rows. by rewrite Ea.
  - intros items own now. unfold core_relay_ack_ids_with_consumed. by rewrite Ek.
  - intros peer ids auth now. unfold core_confirm_carried_deliveries. rewrite Ek. by destruct auth.
  - apply shut_authors_nothing. exact Hu.
Qed.

(** ** The fleet *)

Definition fleet_of (d : link_db) : OwnDeviceFleet := rt_fleet (ms_routing (ld_mesh d)).
Definition fleet_version (d : link_db) : option RosterVersion := stored_version <$> ld_fleet_version d.

(** The fleet is the one there was, or one of a strictly later version, or none, the
    version not lowered. *)
Definition fleet_moved (d d' : link_db) : Prop :=
  (fleet_of d' = fleet_of d /\ fleet_version d' = fleet_version d)
  \/ (exists v', fleet_version d' = Some v' /\ forall v, fleet_version d = Some v -> version_lt v v')
  \/ (fleet_of d' = mk_fleet None [] /\ forall v, fleet_version d = Some v -> exists v', fleet_version d' = Some v' /\ (v' = v \/ version_lt v v')).

Lemma version_lt_trans a b c : version_lt a b -> version_lt b c -> version_lt a c.
Proof. unfold version_lt. lia. Qed.

Lemma fleet_moved_trans a b c : fleet_moved a b -> fleet_moved b c -> fleet_moved a c.
Proof.
  intros Hab [[Hf Hv]|[(v & Hv & Hlt)|(Hf & Hlt)]].
  - unfold fleet_moved in *. by rewrite Hf, Hv.
  - right. left. exists v. split; [done|]. intros v0 H0. destruct Hab as [[_ Hs]|[(v1 & Hv1 & H1)|(_ & H1)]].
    + apply Hlt. by rewrite Hs.
    + apply (version_lt_trans _ v1); [by apply H1|by apply Hlt].
    + destruct (H1 v0 H0) as (v1 & Hv1 & [->|H2]); [by apply Hlt|]. apply (version_lt_trans _ v1); [done|by apply Hlt].
  - right. right. split; [done|]. intros v0 H0. destruct Hab as [[_ Hs]|[(v1 & Hv1 & H1)|(_ & H1)]].
    + apply Hlt. by rewrite Hs.
    + destruct (Hlt v1 Hv1) as (v2 & H2 & H3). exists v2. split; [done|]. right. destruct H3 as [->|?]; [by apply H1|].
      by apply (version_lt_trans _ v1); [apply H1|].
    + destruct (H1 v0 H0) as (v1 & Hv1 & H2). destruct (Hlt v1 Hv1) as (v2 & H3 & H4). exists v2. split; [done|].
      destruct H2 as [->|H2], H4 as [->|H4]; [by left|by right|by right|right; by apply (version_lt_trans _ v1)].
Qed.

Lemma fleet_moved_refl d : fleet_moved d d.
Proof. by left. Qed.

Definition moves (d : link_db) : link_db -> Prop := fleet_moved d.

(** Components that leave the fleet alone. *)
Definition leaves_fleet {A} (m : action CoreError A) : Prop := forall s, rt_fleet (ms_routing (m s).1) = rt_fleet (ms_routing s).

Lemma leaves_bind {A B} (m : action CoreError A) (f : A -> action CoreError B) : leaves_fleet m -> (forall a, leaves_fleet (f a)) -> leaves_fleet (m ≫= f).
Proof.
  intros Hm Hf s. specialize (Hm s). unfold mbind, action_bind. destruct (m s) as [s1 [a|e]]; [|done]. rewrite Hf. exact Hm.
Qed.

Lemma leaves_ret {A} (a : A) : leaves_fleet (mret a : action CoreError A).
Proof. done. Qed.

Lemma leaves_each {A} (call : A -> action CoreError bool) l : (forall x, leaves_fleet (call x)) -> leaves_fleet (each call l).
Proof.
  intros Hc. induction l as [|x l IH]; cbn [each]; [apply leaves_ret|].
  apply leaves_bind; [apply Hc|]. intros hit. apply leaves_bind; [exact IH|]. intros n. apply leaves_ret.
Qed.

Lemma leaves_engine {A} (f : engine_db -> engine_db * result CoreError A) :
  (forall e, rt_fleet (e_routing (f e).1) = rt_fleet (e_routing e)) -> leaves_fleet (on_engine f).
Proof. intros H s. unfold on_engine. specialize (H (ms_engine s)). by destruct (f (ms_engine s)). Qed.

Lemma leaves_import_contact e : leaves_fleet (import_contact e).
Proof. apply leaves_bind; [by intros s|]. intros _. destruct (ct_nickname _); [|apply leaves_ret]. apply leaves_bind; [by intros s|]. intros _. apply leaves_ret. Qed.

Lemma leaves_import_roster r : leaves_fleet (import_roster r).
Proof.
  apply leaves_bind; [|intros ?; apply leaves_ret]. apply leaves_engine. intros e. by destruct (apply_contact_roster _ _) as [[? ?]|].
Qed.

Lemma leaves_upsert_group g : leaves_fleet (upsert_group g).
Proof.
  intros s. unfold upsert_group. destruct (upsert_group_tx _ _) as [a|e] eqn:H; [|done]. unfold upsert_group_tx in H. inv_ok.
  destruct (match _ with Some _ => _ | None => false end) in H; injection H as <-; done.
Qed.

Lemma leaves_insert m dev now : leaves_fleet (insert_message_from_device m dev now).
Proof.
  apply leaves_bind; [|intros ?; apply leaves_ret]. apply leaves_engine. intros e. unfold insert_incoming. by repeat case_match.
Qed.

Lemma keeps_leaving {A} d (m : action CoreError A) : leaves_fleet m -> keeps (moves d) (on_mesh m).
Proof.
  intros Hm d0 H0. unfold on_mesh. specialize (Hm (ld_mesh d0)). destruct (m (ld_mesh d0)) as [s r]. apply (fleet_moved_trans _ d0); [done|].
  left. split; [exact Hm|done].
Qed.

Definition version_typed (v : RosterVersion) : Prop := in_u64 (v_recovery_epoch v) /\ in_u64 (v_seq v).

Lemma stored_version_back v : version_typed v -> stored_version (to_i64 (v_recovery_epoch v), to_i64 (v_seq v)) = v.
Proof. intros [He Hs]. unfold stored_version. cbn. rewrite !as_u64_to_i64 by done. by destruct v. Qed.

Lemma keeps_moves_fleet d fleet v : version_typed v -> keeps (moves d) (set_own_device_fleet fleet v).
Proof.
  intros Hv d0 H0. unfold set_own_device_fleet. rewrite laction_bind_step. unfold lchecks at 1. destruct (validate_own_device_fleet _ _); [|exact H0].
  rewrite laction_bind_step. unfold lreads at 1. rewrite laction_bind_step. unfold lchecks at 1.
  destruct (match ld_fleet_version d0 with None => _ | Some _ => _ end) eqn:Hc; [|exact H0].
  apply (fleet_moved_trans _ d0); [done|]. right. left. exists v. split; [unfold fleet_version; cbn; by rewrite stored_version_back|].
  intros v0 Hv0. unfold fleet_version in Hv0. destruct (ld_fleet_version d0) as [w|]; [|done]. injection Hv0 as <-.
  apply version_compare_lt. by destruct (version_compare v (stored_version w)).
Qed.

Lemma eject_moves d r id now : version_typed (version r) -> keeps (moves d) (eject_self_from_fleet r id now).
Proof.
  intros Hv d0 H0. apply (fleet_moved_trans _ d0); [done|]. right. right. unfold eject_self_from_fleet, lwrites. cbn [fst].
  destruct d0 as [m row doc [w|] j]; cbn -[version_compare].
  - destruct (version_compare _ _) eqn:Hc; (split; [done|]); intros v [= <-]; cbn; eexists; (split; [reflexivity|]); try by left.
    right. pose proof (stored_version_back _ Hv) as Hb. cbn in Hb. rewrite Hb. by apply version_compare_lt.
  - by split.
Qed.

Lemma decoded_document_version document r : decode_roster_document document = Ok r -> version_typed (version r).
Proof. intros H. pose proof (yields_run _ _ _ _ yields_roster H) as (_ & He & Hs & _). by split. Qed.

Lemma decoded_notice_version document r : core_decode_roster document = Ok r -> version_typed (version r).
Proof.
  intros (c' & H)%run_inv. pose proof (cursor_at_new document) as Hc0. unfold read_roster in H. read_inv. by split.
Qed.

(** The arguments are values of their types, and the other components leave the fleet to
    these calls. *)
Definition call_ok (c : link_call) : Prop :=
  match c with
  | Adopt r _ _ | Ejected r _ _ => version_typed (version r)
  | SetFleet _ v => version_typed v
  | Elsewhere f => forall s, rt_fleet (ms_routing (f s)) = rt_fleet (ms_routing s)
  | _ => True
  end.

Lemma keeps_asks_bind {A B} P (f : link_db -> result CoreError A) (k : A -> laction B) :
  (forall d a, f d = Ok a -> keeps P (k a)) -> keeps P (lasks f ≫= k).
Proof. intros H d Hd. rewrite laction_bind_step. unfold lasks. destruct (f d) eqn:E; [by eapply H|done]. Qed.

Lemma keeps_checks_bind {A B} P (r : result CoreError A) (k : A -> laction B) : (forall a, r = Ok a -> keeps P (k a)) -> keeps P (lchecks r ≫= k).
Proof. intros H d Hd. rewrite laction_bind_step. unfold lchecks. destruct r eqn:E; [by eapply H|done]. Qed.

(** [keeping], with what the checks and the reads found. *)
Ltac moving :=
  repeat lazymatch goal with
    | |- keeps _ (mret _) => apply keeps_ret
    | |- keeps _ (lreads _) => apply keeps_reads
    | |- keeps _ (lchecks _) => apply keeps_checks
    | |- keeps _ (lwrites _) => apply keeps_writes; intros; assumption
    | |- keeps _ (lasks _ ≫= _) => apply keeps_asks_bind; intros ? ? ?
    | |- keeps _ (lchecks _ ≫= _) => apply keeps_checks_bind; intros ? ?
    | |- keeps _ (_ ≫= _) => apply keeps_bind; [|intros ?]
    | |- keeps _ (match ?x with _ => _ end) => destruct x
    end.

Lemma own_roster_version d r : own_roster d = Ok (Some r) -> version_typed (version r).
Proof.
  unfold own_roster. destruct (ld_own_document d) as [document|]; [|discriminate]. intros (r' & H & [= ->])%result_bind_ok.
  by apply decoded_document_version in H.
Qed.

Lemma leaves_group_each l : leaves_fleet (each (fun g => _ ← upsert_group g; mret true) l).
Proof. apply leaves_each. intros g. apply leaves_bind; [apply leaves_upsert_group|]. intros _. apply leaves_ret. Qed.

Lemma leaves_contact_each l : leaves_fleet (each (fun e => _ ← import_contact e; mret true) l).
Proof. apply leaves_each. intros e. apply leaves_bind; [apply leaves_import_contact|]. intros _. apply leaves_ret. Qed.

Lemma leaves_roster_state person : leaves_fleet (contact_roster_state person).
Proof. apply leaves_engine. intros e. by destruct (load_state _ _) as [[? ?]|]. Qed.

Lemma leaves_quarantine person : leaves_fleet (mark_own_quarantined person).
Proof. by apply leaves_engine. Qed.

Lemma moves_project d r id : version_typed (version r) -> keeps (moves d) (project_own_fleet r id).
Proof. intros Hv. by apply keeps_moves_fleet. Qed.

Lemma kept_moves {A} d (m : laction A) : keeps (moves d) m -> fleet_moved d (m d).1.
Proof. intros H. apply H, fleet_moved_refl. Qed.

Lemma fleet_step d c : call_ok c -> fleet_moved d (link_step d c).
Proof.
  intros Hok. destruct c as [binding now|now|b pk e now|head now|r root id|fleet v|document root id now|r id now|f]; cbn [link_step].
  - apply kept_moves.
    unfold begin_link_activation, set_row. moving.
  - apply kept_moves.
    unfold abandon_link_activation, update_row, lfails. moving.
  - apply kept_moves.
    unfold import_link_bootstrap, store_own_roster, update_row. moving; apply keeps_leaving.
    + apply leaves_contact_each.
    + apply leaves_each, leaves_import_roster.
    + apply leaves_group_each.
    + apply leaves_each. intros m. apply leaves_insert.
  - apply kept_moves.
    unfold complete_link_activation, update_row. moving. apply moves_project. rewrite option_ok_ok in *. subst. by eapply own_roster_version.
  - apply kept_moves.
    unfold adopt_own_roster, store_own_roster. moving. by apply moves_project.
  - by apply kept_moves, keeps_moves_fleet.
  - apply kept_moves.
    unfold apply_own_roster_notice, store_own_roster. moving; try (apply keeps_leaving; first [apply leaves_roster_state|apply leaves_quarantine]).
    + apply eject_moves. by eapply decoded_notice_version.
    + apply moves_project. by eapply decoded_notice_version.
  - by apply kept_moves, eject_moves.
  - left. split; [apply Hok|done].
Qed.

(** ** The notice *)

(** The row, the document, the fleet and its version are what they were. *)
Definition same_standing (d d' : link_db) : Prop :=
  ld_activation d' = ld_activation d /\ ld_own_document d' = ld_own_document d /\ ld_fleet_version d' = ld_fleet_version d /\ fleet_of d' = fleet_of d.

Lemma standing_trans a b c : same_standing a b -> same_standing b c -> same_standing a c.
Proof. unfold same_standing. intuition congruence. Qed.

Lemma mesh_standing {A} (m : action CoreError A) d d' r : leaves_fleet m -> on_mesh m d = (d', r) -> same_standing d d'.
Proof.
  intros Hm H. unfold on_mesh in H. specialize (Hm (ld_mesh d)). destruct (m (ld_mesh d)) as [s x]. injection H as <- _. by split_and!.
Qed.

Lemma root_key_derives r key : core_roster_person_root_sign_pk r = Some key -> derive_user_id key = person_id r.
Proof.
  unfold core_roster_person_root_sign_pk. destruct (_ && _) eqn:E.
  - intros [= <-]. apply andb_true_iff in E as [_ E]. by apply bool_decide_eq_true in E.
  - intros [_ Hd]%find_some. apply andb_true_iff in Hd as [_ Hd]. by apply bool_decide_eq_true in Hd.
Qed.

Lemma notice_anchor root held anchor : (if decide (derive_user_id root = person_id held) then Ok root
    else option_ok (core_roster_person_root_sign_pk held) (Store "this device's roster names no person root to check a notice against")) = Ok anchor ->
  derive_user_id anchor = person_id held.
Proof. case_decide; [by intros [= <-]|]. intros Hk%option_ok_ok. by apply root_key_derives. Qed.

Lemma eject_left r id now d : let d' := (eject_self_from_fleet r id now d).1 in
  ld_own_document d' = Some (encode_roster_document r) /\ fleet_of d' = mk_fleet None [].
Proof.
  unfold eject_self_from_fleet, lwrites. cbn [fst].
  match goal with |- context [if ?b then _ <| ld_fleet_version := _ |> else _] => destruct b end; by destruct d as [m [row|] doc v j].
Qed.

Lemma projected r id d d' u : project_own_fleet r id d = (d', Ok u) ->
  fleet_of d' = mk_fleet (Some id) (device_id <$> devices r) /\ ld_own_document d' = ld_own_document d /\ ld_activation d' = ld_activation d.
Proof. unfold project_own_fleet, set_own_device_fleet. intros H. link_inv. by subst. Qed.

Lemma lists_device id r : existsb (fun c => bool_decide (device_id c = id)) (devices r) = true <-> id ∈ (device_id <$> devices r).
Proof. rewrite existsb_exists, list_elem_of_fmap. setoid_rewrite bool_decide_eq_true. setoid_rewrite <- list_elem_of_In. naive_solver. Qed.

(** What an answer says of the document it is about. *)
Definition answered (held incoming : Roster) (anchor id : bytes) (d d' : link_db) (o : RevocationAdoptionOutcome) : Prop :=
  match o with
  | RevokedSelf => roster_valid incoming anchor /\ Roster.supersedes held incoming anchor /\ is_tombstoned incoming id = true
      /\ stage d' = Revoked /\ ld_own_document d' = Some (encode_roster_document incoming) /\ fleet_of d' = mk_fleet None []
  | Adopted => roster_valid incoming anchor /\ Roster.supersedes held incoming anchor /\ is_tombstoned incoming id = false
      /\ id ∈ (device_id <$> devices incoming) /\ inbox_key_generation incoming = inbox_key_generation held
      /\ ld_activation d' = ld_activation d /\ ld_own_document d' = Some (encode_roster_document incoming)
      /\ fleet_of d' = mk_fleet (Some id) (device_id <$> devices incoming)
  | _ => same_standing d d'
  end.

(** C40: a notice brought by anyone moves this device only by a document of its own person,
    valid under a key that derives to that person's id, that supersedes the roster held.
    It removes the device exactly when that document is acceptable and buries it, which
    shuts the gate, keeps the burying roster and empties the fleet; it changes the fleet
    only to the listed devices of a roster that lists this one and keeps the inbox key's
    generation; and with any other answer the row, the roster held, the fleet and its
    version stay what they were. *)
Theorem notice_needs_supersession document root id now d d' a :
  apply_own_roster_notice document root id now d = (d', Ok a) ->
  exists held incoming anchor d1 st, own_roster d = Ok (Some held) /\ core_decode_roster document = Ok incoming
    /\ person_id incoming = person_id held /\ derive_user_id anchor = person_id held
    /\ on_mesh (contact_roster_state (person_id held)) d = (d1, Ok st)
    /\ answered held incoming anchor id d d' (ra_outcome a)
    /\ (ra_outcome a = RevokedSelf <-> accepted_over (is_quarantined st) held incoming anchor /\ is_tombstoned incoming id = true).
Proof.
  unfold apply_own_roster_notice. intros H. link_inv. rewrite option_ok_ok in *. subst. bools.
  match goal with
  | Hd : core_decode_roster _ = Ok ?i, Hm : on_mesh (contact_roster_state (person_id ?h)) d = (?x, Ok ?q), Hk : _ = Ok ?k |- _ =>
      exists h, i, k, x, q; apply notice_anchor in Hk; pose proof (mesh_standing _ _ _ _ (leaves_roster_state _) Hm) as Hsame
  end.
  refine (conj Ha (conj Ha1 (conj Ha2 (conj Ha4 (conj Ha3 _))))). unfold accepted_over. destruct (outcome _) eqn:E.
  - apply accept_outcome_spec in E as (_ & V & Hsup). specialize (Hsup _ eq_refl). destruct (is_tombstoned _ _) eqn:Ht.
    + rewrite laction_bind_step in H. destruct (eject_left a2 id now d4) as [Hdoc Hfl]. pose proof (eject_stage a2 id now d4) as Hst.
      injection H as <- <-. by split_and!.
    + destruct (existsb _ _) eqn:Hl; cbn [negb] in H; [|link_inv; subst; split; [done|by split; [|intros [_ ?]]]].
      apply lists_device in Hl. destruct (inbox_key_generation a2 =? inbox_key_generation a1) eqn:Hg; cbn [negb] in H;
        [|link_inv; subst; split; [done|by split; [|intros [_ ?]]]].
      apply Z.eqb_eq in Hg. unfold store_own_roster in H. link_inv. subst.
      match goal with H : project_own_fleet _ _ _ = _ |- _ => apply projected in H as (Hfl & Hdoc & Hrow) end.
      destruct Hsame as (Hr & _). split; [|by split; [|intros [_ ?]]]. split_and!; try done. by rewrite Hrow.
  - link_inv. subst. split; [|split; [by destruct (reason _)|by intros [? _]]]. by destruct (reason _).
  - link_inv. subst. split; [|by split; [|intros [? _]]].
    match goal with H : on_mesh (mark_own_quarantined _) _ = _ |- _ => apply mesh_standing in H; [|apply leaves_quarantine] end.
    by eapply standing_trans.
Qed.


(** A removed device stays removed: no sequence of calls takes it out of the revoked
    stage, so by the gated calls it never again fetches, posts, acknowledges, authors or offers its
    roster. *)
Theorem revoked_is_final d calls : stage d = Revoked ->
  stage (link_run d calls) = Revoked /\ silent (gated (link_run d calls)) /\ own_roster_notice_frame (link_run d calls) = Ok None.
Proof.
  intros H0. assert (stage (link_run d calls) = Revoked) as Hr.
  { induction calls as [|c calls IH] using rev_ind; [done|]. rewrite link_run_snoc. by apply revoked_stays. }
  split; [done|]. apply closed_silent. destruct (is_open _) eqn:Ho; [|done]. apply is_open_stage in Ho as [?|?]; congruence.
Qed.

(** C29: the fleet never falls back.  Over every sequence of calls the fleet is the one
    there was, or one projected from a strictly later roster version, or none; and the
    version it stands at never decreases. *)
Theorem fleet_never_falls_back d calls : Forall call_ok calls -> fleet_moved d (link_run d calls).
Proof.
  induction calls as [|c calls IH] using rev_ind; intros H; [apply fleet_moved_refl|]. apply Forall_app in H as [H [Hc _]%Forall_cons].
  rewrite link_run_snoc. apply (fleet_moved_trans _ (link_run d calls)); [by apply IH|by apply fleet_step].
Qed.

(** The projection is stored before the stage: a device that stopped between the two can
    never close its window. *)
Theorem interrupted_completion_sticks d d1 r id head now : own_roster d = Ok (Some r) -> version_typed (version r) ->
  project_own_fleet r id d = (d1, Ok tt) ->
  exists e, complete_link_activation head now d1 = (d1, Err e).
Proof.
  intros Hr Hv Hp. pose proof (projected _ _ _ _ _ Hp) as (_ & Hdoc & Hrow).
  assert (own_roster d1 = Ok (Some r)) as Hr1 by (unfold own_roster in *; by rewrite Hdoc).
  assert (link_activation d1 = link_activation d) as Ha by (unfold link_activation; by rewrite Hrow).
  assert (ld_fleet_version d1 = Some (to_i64 (v_recovery_epoch (version r)), to_i64 (v_seq (version r)))) as Hver
    by (unfold project_own_fleet, set_own_device_fleet in Hp; by link_inv; subst).
  destruct (complete_link_activation head now d1) as [d2 [a|e]] eqn:H.
  - exfalso. unfold complete_link_activation in H. link_inv. rewrite option_ok_ok in *. subst. rewrite Ha, Hr1 in *. simplify_eq.
    match goal with H : project_own_fleet _ _ d1 = _ |- _ => unfold project_own_fleet, set_own_device_fleet in H end. link_inv.
    rewrite Hver, (stored_version_back _ Hv), (proj2 (version_compare_eq _ _) eq_refl) in *. discriminate.
  - exists e. f_equal. apply (errs_keep_at (fun x => x = d1)) in H; [done| |done].
    unfold complete_link_activation, update_row. erring. apply errs_last; [|intros ?; never]. unfold project_own_fleet, set_own_device_fleet. erring.
Qed.

(** Adopting replaces the document before the fleet refuses it: a valid roster the fleet's
    version does not precede is refused, and is the roster held all the same. *)
Theorem refused_adoption_replaces d d1 r root id v e : adopt_own_roster r root id d = (d1, Err e) ->
  core_roster_validate r root = None -> id ∈ (device_id <$> devices r) -> ld_fleet_version d = Some v ->
  ~ version_lt (stored_version v) (version r) ->
  ld_own_document d1 = Some (encode_roster_document r) /\ ld_fleet_version d1 = Some v /\ fleet_of d1 = fleet_of d.
Proof.
  unfold adopt_own_roster, project_own_fleet, set_own_device_fleet, store_own_roster. intros H V Hl%lists_device Hv Hn. rewrite V, Hl in H.
  assert (version_compare (version r) (stored_version v) <> Gt) as Hc by (by rewrite version_compare_lt).
  rewrite !laction_bind_step in H. unfold lchecks, lwrites, lreads in H. cbn -[validate_own_device_fleet version_compare] in H.
  rewrite !laction_bind_step in H. destruct (validate_own_device_fleet _ _); [|by injection H as <- _].
  destruct d as [m row doc fv j]. cbn in Hv. subst fv. cbn -[version_compare] in H.
  destruct (version_compare _ _); [by injection H as <- _..|done].
Qed.
End runs.

(** ** Witnesses *)

(** A new phone, the second of the person's devices. *)
Definition new_phone : link_db := mk_link_db MeshReceive.empty_store None None None None.

Definition sent_bootstrap : LinkBootstrap :=
  match (build_link_bootstrap (C := toy_crypto) (S := toy_seal) (mk_identity Roster.toy_person Roster.toy_root Roster.toy_root (key 13) (key 13)) toy_profile toy_roster1
           (key 1) (key 30) 0 0 2000 toy_store).2 with
  | Ok b => b
  | Err _ => toy_bootstrap (C := toy_crypto)
  end.

Definition linking_calls : list link_call :=
  [Import sent_bootstrap (key 2) None 2500; Complete (roster_head_hash (C := toy_crypto) toy_roster1) 2600].

Definition opened_phone : link_db := link_step (C := toy_crypto) new_phone (Begin (key 30) 1000).

Definition linked_phone : link_db := link_run (C := toy_crypto) opened_phone linking_calls.


Definition removed_phone : link_db :=
  link_step (C := toy_crypto) linked_phone (Ejected toy_roster2 (toy_device 2) 3000).

Lemma revoked_is_final_witness : stage removed_phone = Revoked
  /\ silent (C := toy_crypto) (S := toy_seal) (gated (link_run (C := toy_crypto) removed_phone [Begin (key 30) 4000; Abandon 5000])).
Proof.
  assert (stage removed_phone = Revoked) as H0 by (vm_compute; reflexivity). split; [exact H0|].
  exact (proj1 (proj2 (revoked_is_final (C := toy_crypto) (S := toy_seal) removed_phone [Begin (key 30) 4000; Abandon 5000] H0))).
Defined.

Lemma fleet_never_falls_back_witness :
  fleet_moved linked_phone (link_run (C := toy_crypto) linked_phone
    [SetFleet (mk_fleet (Some (toy_device 2)) [toy_device 2]) (mk_version 0 9); Ejected toy_roster2 (toy_device 2) 3000; Elsewhere (fun s => s)]).
Proof.
  apply (fleet_never_falls_back (C := toy_crypto)). repeat constructor; by vm_compute.
Defined.

Lemma notice_needs_supersession_witness :
  exists document d' a, core_encode_roster toy_roster2 = Ok document
    /\ apply_own_roster_notice (C := toy_crypto) document Roster.toy_root (toy_device 2) 3000 linked_phone = (d', Ok a)
    /\ ra_outcome a = RevokedSelf /\ stage d' = Revoked.
Proof.
  destruct (core_encode_roster toy_roster2) as [document|] eqn:E; [|vm_compute in E; discriminate E].
  destruct (apply_own_roster_notice (C := toy_crypto) document Roster.toy_root (toy_device 2) 3000 linked_phone) as [d' [a|e]] eqn:H.
  - exists document, d', a. split; [reflexivity|]. split; [exact H|].
    assert (ra_outcome a = RevokedSelf) as Ho.
    { vm_compute in E. injection E as <-. apply (f_equal snd) in H. vm_compute in H. injection H as <-. reflexivity. }
    split; [exact Ho|].
    destruct (notice_needs_supersession (C := toy_crypto) document Roster.toy_root (toy_device 2) 3000 linked_phone d' a H)
      as (held & incoming & anchor & d1 & st & _ & _ & _ & _ & _ & Ha & _).
    rewrite Ho in Ha. exact (proj1 (proj2 (proj2 (proj2 Ha)))).
  - exfalso. vm_compute in E. injection E as <-. apply (f_equal snd) in H. vm_compute in H. discriminate H.
Defined.
