(* ===== verification/Revocation.v ===== *)
(** Removing a device, the store's half ([core/src/revocation.rs], with the sealed-row
    queries and the own sync context of [core/src/sync_store.rs]): the journal that is
    written before the new inbox key is stored, the re-sealing of the retained records, the
    commit on the device that signed the removal, the announcement to the siblings and its
    adoption by one of them.

    [rotation_keeps_backlog] shows that the re-sealing loses no record: every stream slot
    stays, every record the old key opened the new key opens, stamped for the new roster,
    and what could not be opened stays as it was.  [rotation_reaches_siblings] runs the
    commit of one device and the adoption by another that still held the old roster: the
    sibling ends with the very roster and key.  [interrupted_commit_sticks] and
    [interrupted_handoff_sticks] show what a crash half way leaves, against the comments. *)
From stdpp Require Import base numbers list gmap sorting strings.
From coqutil Require Import Datatypes.RecordSetters.
From S2P Require Import Prelude StdModel Wire Framing Crypto RosterCodec MeshReceive Roster RosterStore Frames Hints Engine OutboundQueue Sealing SyncStream SyncStore Authoring SyncRecords InboundStore SyncMerge LinkBootstrap LinkRoster LinkActivation.
Import TriangleBracketNotations.

(** * The journal *)

Record PendingRevocation : Type := mk_pending_rev {
  pr_roster_head : bytes;
  pr_inbox_key_generation : Z;
  pr_revoked_device_ids : list bytes;
}.

Record RevocationHandoff : Type := mk_handoff { ho_device_id : bytes; ho_sealed : SealedSyncRecord }.

Record RevocationCommit : Type := mk_commit {
  cm_roster : Roster;
  cm_roster_head : bytes;
  cm_inbox_key_generation : Z;
  cm_revoked_device_ids : list bytes;
  cm_stream_seq : Z;
  cm_handoffs : list RevocationHandoff;
  cm_contact_user_ids : list bytes;
  cm_roster_document : bytes;
  cm_resealed_records : Z;
  cm_unresealable_records : Z;
}.

(** Ids of another length are left out. *)
Definition pack_device_ids (ids : list bytes) : bytes := concat (filter (fun id => blen id = DEVICE_ID_LEN) ids).

(** [as_chunks]: whole pieces only; every piece takes bytes, so their number is enough fuel. *)
Fixpoint unpack_loop (fuel : nat) (bs : bytes) : list bytes :=
  match fuel with
  | O => []
  | S fuel => if blen bs <? DEVICE_ID_LEN then [] else take 16 bs :: unpack_loop fuel (drop 16 bs)
  end.

Definition unpack_device_ids (bs : bytes) : list bytes := unpack_loop (length bs) bs.

Definition pending_own_revocation (d : link_db) : option PendingRevocation :=
  row ← ld_revocation d;
  match rr_committed_at_ms row with
  | Some _ => None
  | None => Some (mk_pending_rev (rr_roster_head row) (as_u64 (rr_inbox_key_generation row)) (unpack_device_ids (rr_revoked_device_ids row)))
  end.

Definition set_journal (row : option revocation_row) : laction unit := lwrites (fun d => d <| ld_revocation := row |>).

(** [DELETE ... WHERE committed_at_ms IS NULL] and whether it deleted. *)
Definition abandon_own_revocation : laction bool :=
  pending ← lreads pending_own_revocation;
  match pending with
  | Some _ => _ ← set_journal None; mret true
  | None => mret false
  end.

(** * The retained records *)

Definition on_sync {A} (f : sync_db -> sync_db * result CoreError A) : laction A := fun d =>
  let '(db, r) := f (ms_sync (ld_mesh d)) in (d <| ld_mesh ::= with_sync (fun _ => db) |>, r).

Definition slot_key_le (a b : (bytes * Z * Z) * SealedSyncRecord) : Prop :=
  let '((_, k1, s1), _) := a in let '((_, k2, s2), _) := b in k1 < k2 \/ k1 = k2 /\ s1 <= s2.

#[global] Instance slot_key_le_dec : RelDecision slot_key_le.
Proof. intros [[[? k1] s1] ?] [[[? k2] s2] ?]. unfold slot_key_le. apply _. Defined.

(** The sealed rows of an author under a generation, by kind and slot; a kind this build
    cannot name is left out. *)
Definition sealed_at (db : sync_db) (author : bytes) (generation : Z) : list ((bytes * Z * Z) * SealedSyncRecord) :=
  merge_sort slot_key_le (omap (fun kv : (bytes * Z * Z) * slot_row =>
    let '((a, k, s), row) := kv in
    sealed ← sl_sealed row;
    if decide (a = author /\ sr_inbox_key_generation sealed = generation) then Some ((a, k, s), sealed) else None) (map_to_list (sy_slots db))).

Definition sealed_records_at_generation (db : sync_db) (author : bytes) (generation : Z) : list StoredSyncRecord :=
  omap (fun kv : (bytes * Z * Z) * SealedSyncRecord =>
    let '((a, k, s), sealed) := kv in
    kind ← core_sync_record_kind_of (k mod 256);
    Some (mk_stored a kind (as_u64 s) (sr_sealed sealed) (sr_sealed_for sealed) generation)) (sealed_at db author generation).

Definition core_own_sync_context (d : link_db) : option OwnSyncContext := ms_own_context (ld_mesh d).

(** The row keeps the encoded roster beside its version; it reads back as the roster. *)
Definition core_set_own_sync_context (r : Roster) (inbox_key_generation : Z) : laction bool :=
  current ← lreads core_own_sync_context;
  if match current with
     | Some c => match version_compare (version r) (version (oc_roster c)) with Gt => false | _ => true end
     | None => false
     end then mret false
  else
    _ ← lchecks (core_encode_roster r);
    _ ← lwrites (fun d => d <| ld_mesh ::= (fun s => s <| ms_own_context := Some (mk_own_context r inbox_key_generation) |>) |>);
    mret true.

(** What [OsRng] gives each seal: an ephemeral secret and a nonce. *)
Definition seal_draw : Type := bytes * bytes.

Section revocation.
Context `{C : Crypto} `{S : SealCrypto}.

Definition check_revocation_update (update : RevocationUpdate) (person_root_sign_pk : bytes) (own_device : DeviceKeypair) : result CoreError unit :=
  _ ← ensure (bool_decide (core_roster_validate (ru_roster update) person_root_sign_pk = None))
        (Malformed "this revocation's roster is not acceptable");
  _ ← ensure (ik_generation (ru_inbox_key update) =? inbox_key_generation (ru_roster update))
        (Malformed "the rotated inbox key is not the generation this roster announces");
  ensure (existsb (fun c => bool_decide (device_id c = dk_device_id own_device)) (devices (ru_roster update)))
        (Store "this revocation's roster does not list this device").

Definition begin_own_revocation (update : RevocationUpdate) (person_root_sign_pk : bytes) (own_device : DeviceKeypair) (now_ms : Z) : laction InboxKey :=
  _ ← lchecks (check_revocation_update update person_root_sign_pk own_device);
  _ ← set_journal (Some (mk_rrow (ru_roster_head update) (to_i64 (ik_generation (ru_inbox_key update)))
                                 (pack_device_ids (ru_revoked_device_ids update)) None now_ms None));
  mret (ru_inbox_key update).

(** A record stamped for the new roster and key, not yet signed. *)
Definition restamped (r : SyncRecord) (roster : Roster) (key : InboxKey) : SyncRecord :=
  mk_record (rc_kind r) (rc_person_id r) (rc_author_device_id r) (version roster) (ik_generation key) (rc_stream_seq r)
    (rc_timestamp_ms r) (rc_payload r) [].

(** A retained record under the old key, or nothing when it does not open. *)
Definition reopened (superseded : InboxKey) (sealed : bytes) : option SyncRecord :=
  match open_sealed_with_agree_sk (ik_agree_sk superseded) sealed with
  | Err _ => None
  | Ok opened => match core_decode_sync_record (om_payload opened) with Err _ => None | Ok r => Some r end
  end.

(** The loop over the stale rows with its two counters. *)
Fixpoint reseal_rows (own_device : DeviceKeypair) (superseded : InboxKey) (roster : Roster) (rotated : InboxKey) (rnd : nat -> seal_draw)
    (stale : list StoredSyncRecord) (resealed unresealable : Z) : laction (Z * Z) :=
  match stale with
  | [] => mret (resealed, unresealable)
  | stored :: stale =>
      match reopened superseded (st_sealed stored) with
      | None => reseal_rows own_device superseded roster rotated rnd stale resealed (as_u32 (unresealable + 1))
      | Some r =>
          r ← lchecks (core_sign_sync_record (restamped r roster rotated) (dk_sign_sk own_device));
          sealed ← lchecks (core_seal_sync_record r (core_device_sync_identity own_device) rotated (rnd 0%nat).1 (rnd 0%nat).2);
          hit ← on_sync (fun db => let '(db, hit) := reseal db r sealed in (db, Ok hit));
          reseal_rows own_device superseded roster rotated (fun k => rnd (Datatypes.S k)) stale
            (if hit : bool then as_u32 (resealed + 1) else resealed) unresealable
      end
  end.

Definition reseal_own_backlog (own_device : DeviceKeypair) (superseded_inbox_key : option InboxKey) (roster : Roster) (rotated : InboxKey)
    (rnd : nat -> seal_draw) : laction (Z * Z) :=
  match superseded_inbox_key with
  | None => mret (0, 0)
  | Some superseded =>
      _ ← lchecks (ensure (ik_generation superseded <? ik_generation rotated)
                     (Malformed "the superseded inbox key is not older than the rotated one"));
      stale ← lreads (fun d => sealed_records_at_generation (ms_sync (ld_mesh d)) (dk_device_id own_device) (ik_generation superseded));
      reseal_rows own_device superseded roster rotated rnd stale 0 0
  end.

(** * The commit *)

(** The copies for the siblings, in the roster's order. *)
Fixpoint seal_handoffs (r : SyncRecord) (author : Identity) (roster : Roster) (own : bytes) (rnd : nat -> seal_draw) (certs : list DeviceCert)
    : result CoreError (list RevocationHandoff) :=
  match certs with
  | [] => Ok []
  | c :: certs =>
      if decide (device_id c = own) then seal_handoffs r author roster own rnd certs
      else
        sealed ← core_seal_sync_handoff r author roster (device_id c) (rnd 0%nat).1 (rnd 0%nat).2;
        rest ← seal_handoffs r author roster own (fun k => rnd (Datatypes.S k)) certs;
        Ok (mk_handoff (device_id c) sealed :: rest)
  end.

Definition announcement (update : RevocationUpdate) (own_device_id : bytes) (stream_seq now_ms : Z) (payload : bytes) : SyncRecord :=
  mk_record SyncOwnRoster (person_id (ru_roster update)) own_device_id (version (ru_roster update)) (ik_generation (ru_inbox_key update))
    stream_seq now_ms payload [].

(** [reseal_rnd], [seal_rnd] and [handoff_rnd] are what the three kinds of seals draw. *)
Definition commit_own_revocation (update : RevocationUpdate) (person_root_sign_pk : bytes) (own_device : DeviceKeypair)
    (superseded_inbox_key : option InboxKey) (now_ms : Z) (reseal_rnd : nat -> seal_draw) (seal_rnd : seal_draw) (handoff_rnd : nat -> seal_draw)
    : laction RevocationCommit :=
  let roster := ru_roster update in
  let own := dk_device_id own_device in
  _ ← lchecks (check_revocation_update update person_root_sign_pk own_device);
  pending ← lasks (fun d => option_ok (pending_own_revocation d) (Store "no revocation is pending: begin_own_revocation must write the rotation down and its key must reach platform storage before the backlog is re-sealed to it"));
  _ ← lchecks (ensure (bool_decide (pr_roster_head pending = ru_roster_head update)
                       && (pr_inbox_key_generation pending =? ik_generation (ru_inbox_key update)))
                 (Store "the pending revocation is a different one than this update; the key that was stored is not the key this would re-seal to"));
  '(resealed, unresealable) ← reseal_own_backlog own_device superseded_inbox_key roster (ru_inbox_key update) reseal_rnd;
  _ ← adopt_own_roster roster person_root_sign_pk own;
  _ ← core_set_own_sync_context roster (ik_generation (ru_inbox_key update));
  stream_seq ← lreads (fun d => next_stream_seq (ms_sync (ld_mesh d)) own SyncOwnRoster);
  payload ← lchecks (core_encode_sync_own_roster (mk_own_roster roster [ru_inbox_key update]));
  record ← lchecks (core_sign_sync_record (announcement update own stream_seq now_ms payload) (dk_sign_sk own_device));
  let author := core_device_sync_identity own_device in
  retained ← lchecks (core_seal_sync_record record author (ru_inbox_key update) seal_rnd.1 seal_rnd.2);
  _ ← on_sync (fun db => retain db record retained now_ms);
  handoffs ← lchecks (seal_handoffs record author roster own handoff_rnd (devices roster));
  _ ← lwrites (fun d => d <| ld_revocation ::= fmap (fun row =>
        if decide (rr_roster_head row = ru_roster_head update)
        then mk_rrow (rr_roster_head row) (rr_inbox_key_generation row) (rr_revoked_device_ids row) (Some (to_i64 stream_seq)) (rr_started_at_ms row) (Some now_ms)
        else row) |>);
  contacts ← lreads (fun d => ct_user_id <$> list_contacts (ld_mesh d));
  document ← lchecks (core_encode_roster roster);
  mret (mk_commit roster (ru_roster_head update) (ik_generation (ru_inbox_key update)) (ru_revoked_device_ids update) stream_seq handoffs
          contacts document resealed unresealable).

(** The announcement again, for a sibling that was away. *)
Definition revocation_handoffs_for (sibling_device_id : bytes) (own_device : DeviceKeypair) (inbox_key : InboxKey) (rnd : seal_draw) (d : link_db)
    : result CoreError (list RevocationHandoff) :=
  roster ← own_roster d;
  match roster with
  | None => Ok []
  | Some roster =>
      match (row ← ld_revocation d; match rr_committed_at_ms row with Some _ => rr_stream_seq row | None => None end) with
      | None => Ok []
      | Some stream_seq =>
          match sealed_record_at_slot (ms_sync (ld_mesh d)) (dk_device_id own_device) SyncOwnRoster (as_u64 stream_seq) with
          | None => Ok []
          | Some stored =>
              if negb (existsb (fun c => bool_decide (device_id c = sibling_device_id)) (devices roster)) then Ok []
              else
                record ← core_open_sync_record (st_sealed stored) inbox_key roster;
                sealed ← core_seal_sync_handoff record (core_device_sync_identity own_device) roster sibling_device_id rnd.1 rnd.2;
                Ok [mk_handoff sibling_device_id sealed]
          end
      end
  end.

(** * The sibling *)

Definition adopt_revocation_handoff (sealed person_root_sign_pk : bytes) (own_device : DeviceKeypair) (superseded_inbox_key : option InboxKey)
    (now_ms : Z) (rnd : nat -> seal_draw) : laction RevocationAdoption :=
  existing ← lasks own_roster;
  held_roster ← lchecks (option_ok existing (Store "this device has no roster of its own, so it has no fleet to be revoked from"));
  record ← lchecks (core_open_sync_handoff sealed (dk_agree_sk own_device) held_roster person_root_sign_pk);
  payload ← lchecks (core_decode_sync_own_roster (rc_payload record));
  let incoming := op_roster payload in
  _ ← lchecks (ensure (bool_decide (person_id incoming = person_id held_roster)) (Malformed "a rotation handoff names a different person"));
  st ← on_mesh (contact_roster_state (person_id held_roster));
  let decision := core_roster_accept (Some held_roster) (is_quarantined st) incoming person_root_sign_pk in
  let revoked := core_roster_newly_revoked (Some held_roster) incoming in
  let refused o := mk_adoption o (reason decision) [] None 0 0 in
  match outcome decision with
  | ForkQuarantined =>
      _ ← on_mesh (mark_own_quarantined (person_id held_roster));
      mret (refused AdoptionForkQuarantined)
  | Ignored => mret (refused (match reason decision with Rollback | IdempotentRepeat => NotSuperseding | _ => AdoptionRefused end))
  | Accepted =>
      if is_tombstoned incoming (dk_device_id own_device) then
        _ ← eject_self_from_fleet incoming (dk_device_id own_device) now_ms;
        mret (mk_adoption RevokedSelf (reason decision) revoked None 0 0)
      else
        inbox_key ← lchecks (option_ok (List.find (fun k => ik_generation k =? inbox_key_generation incoming) (op_inbox_keys payload))
                               (Malformed "a rotation handoff announced a generation it did not carry the key for"));
        '(resealed, unresealable) ← reseal_own_backlog own_device superseded_inbox_key incoming inbox_key rnd;
        _ ← adopt_own_roster incoming person_root_sign_pk (dk_device_id own_device);
        _ ← core_set_own_sync_context incoming (ik_generation inbox_key);
        mret (mk_adoption Adopted (reason decision) revoked (Some inbox_key) resealed unresealable)
  end.
End revocation.

(** * The re-sealing *)

Definition sync_of (d : link_db) : sync_db := ms_sync (ld_mesh d).
Definition with_db (d : link_db) (db : sync_db) : link_db := d <| ld_mesh ::= with_sync (fun _ => db) |>.

Lemma sync_of_with d db : sync_of (with_db d db) = db.
Proof. done. Qed.

Lemma with_db_twice d a b : with_db (with_db d a) b = with_db d b.
Proof. done. Qed.

Lemma with_db_same d : with_db d (sync_of d) = d.
Proof. by destruct d as [[[? ? ? ?] ? ? ? ? ? ? ? ? ? ? ?] ? ? ? ?]. Qed.

Lemma on_sync_ok {A} (f : sync_db -> sync_db * result CoreError A) d d' a :
  on_sync f d = (d', Ok a) <-> exists db, f (sync_of d) = (db, Ok a) /\ d' = with_db d db.
Proof.
  unfold on_sync. change (ms_sync (ld_mesh d)) with (sync_of d). destruct (f (sync_of d)) as [db r]. split.
  - intros [= <- ->]. by exists db.
  - by intros (? & [= -> ->] & ->).
Qed.

Section resealing.
Context `{C : Crypto} `{S : SealCrypto} `{!CryptoLaws C} `{!SealLaws C S}.
Context (own : DeviceKeypair) (superseded rotated : InboxKey) (roster : Roster).
Context (Hdev : device_ok own) (Hvouched : vouches roster own) (Hversion : version_typed (version roster)) (Hgen : in_u64 (ik_generation rotated)).

(** Every sealed row is a sealing of the record its slot names: what [retain] writes. *)
Definition faithful (db : sync_db) : Prop := forall k s row sealed r,
  sy_slots db !! (dk_device_id own, k, s) = Some row -> sl_sealed row = Some sealed -> sr_inbox_key_generation sealed = ik_generation superseded ->
  reopened superseded (sr_sealed sealed) = Some r ->
  rc_author_device_id r = dk_device_id own /\ core_sync_record_kind_wire (rc_kind r) = k /\ to_i64 (rc_stream_seq r) = s
  /\ rc_person_id r = person_id roster.

(** The new seal opens under the new key to the record, stamped for the new roster. *)
Definition carries_on (r : SyncRecord) (sealed : SealedSyncRecord) : Prop :=
  sr_sealed_for sealed = version roster /\ sr_inbox_key_generation sealed = ik_generation rotated
  /\ exists sig, core_open_sync_record (sr_sealed sealed) rotated roster = Ok (with_author (restamped r roster rotated) (rc_author_device_id r) sig).

Lemma reopened_typed sealed r : reopened superseded sealed = Some r -> record_typed r.
Proof.
  unfold reopened. destruct (open_sealed_with_agree_sk _ _); [|done]. destruct (core_decode_sync_record _) eqn:H; [|done].
  intros [= <-]. by apply record_one_encoding in H as [_ ?].
Qed.

Lemma signed_author r0 sk r : core_sign_sync_record r0 sk = Ok r ->
  exists sig, r = with_author r0 (derive_user_id (ed25519_public sk)) sig.
Proof.
  unfold core_sign_sync_record, key32, core_derive_device_id. intros H. inv_ok. by eexists.
Qed.

Lemma resealed_carries r r1 rnd sealed : record_typed r -> rc_author_device_id r = dk_device_id own -> rc_person_id r = person_id roster ->
  blen rnd.2 = NONCE_LEN -> core_sign_sync_record (restamped r roster rotated) (dk_sign_sk own) = Ok r1 ->
  core_seal_sync_record r1 (core_device_sync_identity own) rotated rnd.1 rnd.2 = Ok sealed -> carries_on r sealed.
Proof.
  intros Ht Ha Hp Hn Hs Hseal. assert (record_typed (restamped r roster rotated)) as Ht1.
  { destruct Hversion, Ht. by split. }
  destruct (sealed_record_opens _ own roster r1 rnd.1 rnd.2 sealed Ht1 Hdev Hvouched ltac:(exact Hp) Hn Hs) as [Ho _].
  specialize (Ho _ Hseal). destruct (signed_author _ _ _ Hs) as [sig ->].
  assert (derive_user_id (ed25519_public (dk_sign_sk own)) = rc_author_device_id r) as He.
  { rewrite Ha. destruct Hdev as [Hpk Hid]. by rewrite Hid, Hpk. }
  rewrite He in *. unfold core_seal_sync_record in Hseal. inv_ok. subst. split_and!; [done|done|]. by exists sig.
Qed.

Definition slot_of (stored : StoredSyncRecord) : bytes * Z * Z :=
  (st_author_device_id stored, core_sync_record_kind_wire (st_kind stored), to_i64 (st_stream_seq stored)).

(** A row that was read says which slot it came from. *)
Definition names_its_slot (stored : StoredSyncRecord) : Prop := forall r, reopened superseded (st_sealed stored) = Some r ->
  rc_author_device_id r = dk_device_id own /\ rc_person_id r = person_id roster
  /\ slot_of stored = (rc_author_device_id r, core_sync_record_kind_wire (rc_kind r), to_i64 (rc_stream_seq r)).

Definition row_resealed (stale : list StoredSyncRecord) (key : bytes * Z * Z) (row row' : slot_row) : Prop :=
  (row' = row /\ forall stored, stored ∈ stale -> slot_of stored = key -> reopened superseded (st_sealed stored) = None)
  \/ exists stored r sealed, stored ∈ stale /\ slot_of stored = key /\ reopened superseded (st_sealed stored) = Some r /\ carries_on r sealed
       /\ row' = mk_slot (sl_person_id row) (Some sealed) (sl_created_at_ms row).

(** The same slots, rows and cursors, the resealed rows aside. *)
Definition resealed_slots (stale : list StoredSyncRecord) (db db' : sync_db) : Prop :=
  sy_cursors db' = sy_cursors db /\ sy_settings db' = sy_settings db
  /\ forall key, match sy_slots db !! key with
                 | None => sy_slots db' !! key = None
                 | Some row => exists row', sy_slots db' !! key = Some row' /\ row_resealed stale key row row'
                 end.

Lemma resealed_nothing db : resealed_slots [] db db.
Proof.
  split_and!; [done|done|]. intros key. destruct (sy_slots db !! key) as [row|] eqn:E; [|done]. exists row. split; [done|]. left.
  split; [done|]. by intros ? ?%elem_of_nil.
Qed.

Lemma resealed_skip stored stale db db' : reopened superseded (st_sealed stored) = None ->
  resealed_slots stale db db' -> resealed_slots (stored :: stale) db db'.
Proof.
  intros Hn (Hc & Hs & Hk). split_and!; [done|done|]. intros key. specialize (Hk key). destruct (sy_slots db !! key) as [row|]; [|done].
  destruct Hk as (row' & Hrow & [[-> Hall]|(st & r & sealed & Hin & Hst)]); eexists; (split; [exact Hrow|]).
  - left. split; [done|]. by intros st [->|?]%elem_of_cons ?; [|apply Hall].
  - right. exists st, r, sealed. split; [by right|done].
Qed.

Lemma resealed_hit stored r r1 sealed stale db db' : reopened superseded (st_sealed stored) = Some r -> carries_on r sealed ->
  slot_of stored = (rc_author_device_id r1, core_sync_record_kind_wire (rc_kind r1), to_i64 (rc_stream_seq r1)) ->
  resealed_slots stale (reseal db r1 sealed).1 db' -> resealed_slots (stored :: stale) db db'.
Proof.
  intros Hr Hgood Hslot H. unfold reseal in H. rewrite <- Hslot in H. set (key1 := slot_of stored) in *.
  destruct (sy_slots db !! key1) as [row1|] eqn:E1; cbn [fst] in H; destruct H as (Hc & Hs & Hk); (split_and!; [done|done|]);
    intros key; specialize (Hk key).
  - cbn [with_slots sy_slots] in Hk. destruct (decide (key = key1)) as [->|Hne].
    + rewrite lookup_insert_eq in Hk. rewrite E1. destruct Hk as (row' & Hrow & [[-> _]|(st & r' & sealed' & Hin & ? & ? & ? & ->)]); eexists; (split; [done|]); right.
      * exists stored, r, sealed. split; [by left|done].
      * exists st, r', sealed'. split; [by right|]. by split_and!.
    + rewrite lookup_insert_ne in Hk by done. destruct (sy_slots db !! key) as [row|]; [|done].
      destruct Hk as (row' & Hrow & [[-> Hall]|(st & r' & sealed' & Hin & Hst)]); eexists; (split; [exact Hrow|]).
      * left. split; [done|]. intros st [->|?]%elem_of_cons ?; [by destruct Hne|by apply Hall].
      * right. exists st, r', sealed'. split; [by right|done].
  - destruct (sy_slots db !! key) as [row|] eqn:E; [|done].
    destruct Hk as (row' & Hrow & [[-> Hall]|(st & r' & sealed' & Hin & Hst)]); eexists; (split; [exact Hrow|]).
    + left. split; [done|]. intros st [->|?]%elem_of_cons Hst; [|by apply Hall]. unfold key1 in E1. congruence.
    + right. exists st, r', sealed'. split; [by right|done].
Qed.

Lemma reseal_rows_slots stale : forall rnd n u d d' out, (forall k, blen (rnd k).2 = NONCE_LEN) -> Forall names_its_slot stale ->
  reseal_rows own superseded roster rotated rnd stale n u d = (d', Ok out) ->
  exists db', d' = with_db d db' /\ resealed_slots stale (sync_of d) db'.
Proof.
  induction stale as [|stored stale IH]; intros rnd n u d d' out Hn Hst H; cbn [reseal_rows] in H.
  - link_inv. exists (sync_of d). split; [by rewrite with_db_same|]. apply resealed_nothing.
  - apply Forall_cons in Hst as [Hs Hst]. destruct (reopened superseded (st_sealed stored)) as [r|] eqn:Hr.
    + link_inv. destruct (Hs r Hr) as (Hau & Hp & Hslot).
      match goal with H : on_sync _ _ = _ |- _ => apply on_sync_ok in H as (db & Hdb & ->) end.
      match goal with H : core_sign_sync_record _ _ = Ok ?x |- _ => rename H into Hsign; rename x into r1 end.
      match goal with H : core_seal_sync_record _ _ _ _ _ = Ok ?x |- _ => rename H into Hseal; rename x into sealed end.
      destruct (reseal (sync_of d) r1 sealed) as [db1 hit] eqn:Hre. injection Hdb as -> ->.
      apply IH in H as (db' & -> & H'); [|intros k; apply Hn|done]. rewrite sync_of_with, with_db_twice in *. exists db'. split; [done|].
      apply (resealed_hit stored r r1 sealed); [done| | |by rewrite Hre].
      * apply (resealed_carries r r1 (rnd 0%nat)); [by eapply reopened_typed|done|done|apply Hn|done|done].
      * destruct (signed_author _ _ _ Hsign) as [sig ->]. rewrite Hslot. cbn.
        destruct Hdev as [Hpk Hid]. rewrite Hau, Hid, Hpk. done.
    + apply IH in H as (db' & -> & H'); [|done|done]. exists db'. split; [done|]. by apply resealed_skip.
Qed.

(** What the columns hold: a kind byte and an SQLite integer. *)
Definition slots_typed (db : sync_db) : Prop := forall a k s, is_Some (sy_slots db !! (a, k, s)) -> in_u8 k /\ in_i64 s.

(** The record of a row the re-sealing is about: this device's, under the old key, of a
    kind this build can name, and still opening. *)
Definition stale_record (key : bytes * Z * Z) (row : slot_row) : option SyncRecord :=
  let '(a, k, _) := key in
  sealed ← sl_sealed row;
  if decide (a = dk_device_id own /\ sr_inbox_key_generation sealed = ik_generation superseded)
  then _ ← core_sync_record_kind_of k; reopened superseded (sr_sealed sealed) else None.

Lemma to_i64_as_u64 z : in_i64 z -> to_i64 (as_u64 z) = z.
Proof.
  intros [Hl Hu]. unfold to_i64, as_u64, I64_MIN, I64_MAX in *. destruct (Z_lt_le_dec z 0).
  - replace (z mod _) with (z + 18446744073709551616) by (rewrite <- (Z_mod_plus_full z 1); symmetry; apply Z.mod_small; lia).
    rewrite (proj2 (Z.leb_gt _ _)) by lia. lia.
  - rewrite Z.mod_small by lia. by rewrite (proj2 (Z.leb_le _ _)) by lia.
Qed.

Lemma sealed_at_in db author g key sealed : (key, sealed) ∈ sealed_at db author g <->
  exists row, sy_slots db !! key = Some row /\ sl_sealed row = Some sealed /\ key.1.1 = author /\ sr_inbox_key_generation sealed = g.
Proof.
  unfold sealed_at. rewrite merge_sort_Permutation, list_elem_of_omap. split.
  - intros ([[[a k] s] row] & Hin%elem_of_map_to_list & H). destruct (sl_sealed row) as [x|] eqn:Hx; [|done]. cbn in H.
    case_decide as Hc; [|done]. injection H as <- <-. destruct Hc. by exists row.
  - intros (row & Hrow & Hs & Ha & Hg). destruct key as [[a k] s]. exists ((a, k, s), row).
    split; [by apply elem_of_map_to_list|]. rewrite Hs. cbn in *. by rewrite decide_True.
Qed.

Lemma stale_read db stored : slots_typed db -> stored ∈ sealed_records_at_generation db (dk_device_id own) (ik_generation superseded) ->
  exists row, sy_slots db !! slot_of stored = Some row /\ stale_record (slot_of stored) row = reopened superseded (st_sealed stored).
Proof.
  intros Ht ([[[a k] s] sealed] & (row & Hrow & Hs & Ha & Hg)%sealed_at_in & H)%list_elem_of_omap.
  destruct (Ht a k s ltac:(by exists row)) as [Hk Hi]. rewrite Z.mod_small in H by (unfold in_u8 in Hk; ints).
  destruct (core_sync_record_kind_of k) as [kind|] eqn:Hkind; [|done]. injection H as <-.
  assert (slot_of (mk_stored a kind (as_u64 s) (sr_sealed sealed) (sr_sealed_for sealed) (ik_generation superseded)) = (a, k, s)) as ->.
  { unfold slot_of. cbn. rewrite (kind_of_wire _ _ Hkind). by rewrite to_i64_as_u64. }
  exists row. split; [done|]. cbn in Ha. unfold stale_record. rewrite Hs. cbn. rewrite decide_True by done. by rewrite Hkind.
Qed.

Lemma stale_listed db key row r : slots_typed db -> sy_slots db !! key = Some row -> stale_record key row = Some r ->
  exists stored, stored ∈ sealed_records_at_generation db (dk_device_id own) (ik_generation superseded)
    /\ slot_of stored = key /\ reopened superseded (st_sealed stored) = Some r.
Proof.
  intros Ht Hrow H. destruct key as [[a k] s]. destruct (Ht a k s ltac:(by exists row)) as [Hk Hi]. unfold stale_record in H.
  destruct (sl_sealed row) as [sealed|] eqn:Hs; [|done]. cbn in H. case_decide as Hc; [|done]. destruct Hc as [Ha Hg].
  destruct (core_sync_record_kind_of k) as [kind|] eqn:Hkind; [|done]. cbn in H.
  exists (mk_stored a kind (as_u64 s) (sr_sealed sealed) (sr_sealed_for sealed) (ik_generation superseded)). split_and!.
  - apply list_elem_of_omap. exists ((a, k, s), sealed). split; [apply sealed_at_in; by exists row|].
    rewrite Z.mod_small by (unfold in_u8 in Hk; ints). by rewrite Hkind.
  - unfold slot_of. cbn. rewrite (kind_of_wire _ _ Hkind). by rewrite to_i64_as_u64.
  - done.
Qed.

(** C24: rotating the inbox key loses no record.  When a device re-seals what it retained
    under the key being retired, every stream slot is still there with its person and its
    age and no other slot appears; every record of its own that the old key opened is now
    sealed so that the new key opens it, at a sibling that holds the new roster, with the
    same content in the same place; every other row, opened or not, is byte for byte what
    it was; and nothing else of the store is touched. *)
Theorem rotation_keeps_backlog rnd d d' out : slots_typed (sync_of d) -> faithful (sync_of d) -> (forall k, blen (rnd k).2 = NONCE_LEN) ->
  reseal_own_backlog own (Some superseded) roster rotated rnd d = (d', Ok out) ->
  exists db', d' = with_db d db' /\ sy_cursors db' = sy_cursors (sync_of d) /\ sy_settings db' = sy_settings (sync_of d)
    /\ forall key, match sy_slots (sync_of d) !! key with
                   | None => sy_slots db' !! key = None
                   | Some row => exists row', sy_slots db' !! key = Some row' /\ sl_person_id row' = sl_person_id row
                       /\ sl_created_at_ms row' = sl_created_at_ms row
                       /\ match stale_record key row with
                          | Some r => exists sealed, sl_sealed row' = Some sealed /\ carries_on r sealed
                          | None => row' = row
                          end
                   end.
Proof.
  intros Ht Hf Hn H. unfold reseal_own_backlog in H. link_inv. apply reseal_rows_slots in H as (db' & -> & Hc & Hs & Hk); [|done|].
  - exists db'. split_and!; [done..|]. intros key. specialize (Hk key). destruct (sy_slots (sync_of d) !! key) as [row|] eqn:Hrow; [|done].
    destruct Hk as (row' & Hrow' & [[-> Hall]|(stored & r & sealed & Hin & <- & Hr & Hgood & ->)]).
    + exists row. split_and!; [done..|]. destruct (stale_record key row) as [r|] eqn:Hst; [|done].
      destruct (stale_listed _ _ _ _ Ht Hrow Hst) as (stored & Hin & Hslot & Hr). by rewrite (Hall stored Hin Hslot) in Hr.
    + eexists. split; [done|]. split_and!; [done..|]. destruct (stale_read _ _ Ht Hin) as (row1 & Hrow1 & Hst).
      rewrite Hrow in Hrow1. injection Hrow1 as <-. rewrite Hst, Hr. by exists sealed.
  - apply Forall_forall. intros stored Hin r Hr. destruct (stale_read _ _ Ht Hin) as (row & Hrow & Hst). rewrite Hr in Hst.
    unfold stale_record in Hst. destruct (slot_of stored) as [[au k] s] eqn:Hslot. destruct (sl_sealed row) as [sealed|] eqn:Hs; [|done].
    cbn in Hst. case_decide as Hc; [|done]. destruct Hc as [-> Hg]. destruct (core_sync_record_kind_of k); [|done]. cbn in Hst.
    destruct (Hf _ _ _ _ _ Hrow Hs Hg Hst) as (Hau & <- & <- & Hp). split_and!; [done|done|by rewrite Hau].
Qed.
End resealing.

(** * One removal, two devices *)

Section siblings.
Context `{C : Crypto} `{S : SealCrypto} `{!CryptoLaws C} `{!SealLaws C S}.

(** A device on a roster: the document, the fleet projected from it and the context of its
    inbound gate. *)
Record stands_on (r : Roster) (generation : Z) (id : bytes) (d : link_db) : Prop := {
  so_document : ld_own_document d = Some (encode_roster_document r);
  so_fleet : fleet_of d = mk_fleet (Some id) (device_id <$> devices r);
  so_context : core_own_sync_context d = Some (mk_own_context r generation);
}.

(** What it holds is older than a roster. *)
Definition behind (r : Roster) (d : link_db) : Prop :=
  (forall v, fleet_version d = Some v -> version_lt v (version r))
  /\ forall c, core_own_sync_context d = Some c -> version_lt (version (oc_roster c)) (version r).

Lemma listed_fleet_valid r root id : roster_valid r root -> id ∈ (device_id <$> devices r) ->
  validate_own_device_fleet (Some id) (device_id <$> devices r) = Ok tt.
Proof.
  intros V Hl. unfold validate_own_device_fleet. rewrite !ensure_bind_ok. split_and!.
  - apply forallb_forall. intros x Hx%list_elem_of_In. apply list_elem_of_fmap in Hx as (c & -> & Hc).
    pose proof (rv_certs _ _ V) as Hcs. rewrite Forall_forall in Hcs. destruct (Hcs c Hc) as (_ & _ & Hne).
    rewrite (bool_decide_eq_false_2 _ Hne). apply andb_true_iff. split; [|done]. apply Z.eqb_eq.
    unfold device_id, derive_user_id, blen. by rewrite blake2b_length.
  - apply bool_decide_eq_true, V.
  - apply negb_true_iff, bool_decide_eq_false. unfold core_device_add_outcome. pose proof (rv_cap _ _ V) as Hcap.
    unfold blen in *. rewrite length_fmap. destruct (DEVICE_HARD_CAP <? _) eqn:E; [apply Z.ltb_lt in E; lia|by destruct (DEVICE_SOFT_CAP <? _)].
  - by rewrite bool_decide_eq_true_2.
Qed.

Lemma adoption_succeeds r root id d : roster_valid r root -> id ∈ (device_id <$> devices r) -> 
  (forall v, fleet_version d = Some v -> version_lt v (version r)) ->
  exists d', adopt_own_roster r root id d = (d', Ok tt) /\ ld_own_document d' = Some (encode_roster_document r)
    /\ fleet_of d' = mk_fleet (Some id) (device_id <$> devices r) /\ core_own_sync_context d' = core_own_sync_context d.
Proof.
  intros V Hl Hv. pose proof (listed_fleet_valid _ _ _ V Hl) as Hval. apply lists_device in Hl.
  assert (core_roster_validate r root = None) as Hok by (unfold core_roster_validate; by rewrite validate_complete).
  destruct d as [m row doc fv j]. eexists. split.
  - unfold adopt_own_roster. rewrite laction_bind_step. unfold lchecks. rewrite Hok. rewrite bool_decide_eq_true_2 by done. cbn [ensure].
    rewrite laction_bind_step, Hl. cbn [ensure]. unfold store_own_roster. rewrite laction_bind_step. unfold lwrites.
    unfold project_own_fleet, set_own_device_fleet. rewrite laction_bind_step. unfold lchecks. cbn [own_device_id device_ids]. rewrite Hval.
    rewrite laction_bind_step. unfold lreads. cbn [ld_fleet_version]. rewrite laction_bind_step. cbv beta.
    match goal with |- context [match ?x with Ok a => _ | Err e => _ end] => assert (x = Ok tt) as -> end; [|reflexivity].
    destruct fv as [w|]; [|done]. specialize (Hv _ eq_refl). cbn. by rewrite (proj2 (version_compare_lt _ _) Hv).
  - done.
Qed.

(** The roster, the fleet and its version are left alone. *)
Definition same_roster (d d' : link_db) : Prop :=
  ld_own_document d' = ld_own_document d /\ fleet_of d' = fleet_of d /\ ld_fleet_version d' = ld_fleet_version d.

Lemma with_db_same_roster d db : same_roster d (with_db d db) /\ core_own_sync_context (with_db d db) = core_own_sync_context d.
Proof. done. Qed.

Lemma context_same_roster r g d d' b : core_set_own_sync_context r g d = (d', Ok b) -> same_roster d d'.
Proof.
  unfold core_set_own_sync_context. intros H. rewrite laction_bind_step in H. unfold lreads in H.
  destruct (match core_own_sync_context d with Some _ => _ | None => _ end); link_inv; subst; done.
Qed.

Lemma stand_up r root id g d doc : roster_valid r root -> id ∈ (device_id <$> devices r) -> behind r d -> core_encode_roster r = Ok doc ->
  exists d1 d' b, adopt_own_roster r root id d = (d1, Ok tt) /\ core_set_own_sync_context r g d1 = (d', Ok b) /\ stands_on r g id d'.
Proof.
  intros V Hl [Hv Hc] He. destruct (adoption_succeeds r root id d V Hl Hv) as (d1 & Ha & Hd & Hf & Hx). exists d1.
  exists (d1 <| ld_mesh ::= (fun s => s <| ms_own_context := Some (mk_own_context r g) |>) |>), true. split; [done|]. split; [|by split].
  unfold core_set_own_sync_context. rewrite laction_bind_step. unfold lreads. rewrite Hx.
  assert (match core_own_sync_context d with Some c => match version_compare (version r) (version (oc_roster c)) with Gt => false | _ => true end
          | None => false end = false) as ->.
  { destruct (core_own_sync_context d) as [c|]; [|done]. by rewrite (proj2 (version_compare_lt _ _) (Hc c eq_refl)). }
  rewrite laction_bind_step. unfold lchecks. by rewrite He.
Qed.

Lemma reseal_rows_frame own old roster key stale : forall rnd n u d d' out,
  reseal_rows own old roster key rnd stale n u d = (d', Ok out) -> exists db, d' = with_db d db.
Proof.
  induction stale as [|stored stale IH]; intros rnd n u d d' out H; cbn [reseal_rows] in H.
  - link_inv. exists (sync_of d). by rewrite with_db_same.
  - destruct (reopened old _); [|by eapply IH]. link_inv. match goal with H : on_sync _ _ = _ |- _ => apply on_sync_ok in H as (db & _ & ->) end.
    apply IH in H as (db' & ->). exists db'. by rewrite with_db_twice.
Qed.

Lemma backlog_frame own old roster key rnd d d' out : reseal_own_backlog own old roster key rnd d = (d', Ok out) -> exists db, d' = with_db d db.
Proof.
  unfold reseal_own_backlog. destruct old as [old|]; intros H; link_inv; [by eapply reseal_rows_frame|].
  exists (sync_of d). by rewrite with_db_same.
Qed.

Lemma handoffs_sealed r author roster own certs : forall rnd hs, seal_handoffs r author roster own rnd certs = Ok hs ->
  ho_device_id <$> hs = filter (fun id => id <> own) (device_id <$> certs)
  /\ Forall (fun h => exists k, core_seal_sync_handoff r author roster (ho_device_id h) (rnd k).1 (rnd k).2 = Ok (ho_sealed h)) hs.
Proof.
  induction certs as [|c certs IH]; intros rnd hs H; cbn [seal_handoffs] in H; [injection H as <-; by split|].
  rewrite fmap_cons. case_decide as Hc.
  - rewrite filter_cons_False by tauto. by apply IH.
  - rewrite filter_cons_True by done. inv_ok. apply IH in Ha0 as [He Hall]. rewrite fmap_cons, He. split; [done|]. constructor; [by exists 0%nat|].
    eapply Forall_impl; [exact Hall|]. intros h (k & Hk). by exists (Datatypes.S k).
Qed.

Record committed (update : RevocationUpdate) (root : bytes) (own : DeviceKeypair) (now_ms : Z) (handoff_rnd : nat -> seal_draw)
    (c : RevocationCommit) (d' : link_db) : Prop := {
  cd_valid : roster_valid (ru_roster update) root;
  cd_listed : dk_device_id own ∈ (device_id <$> devices (ru_roster update));
  cd_document : exists doc, core_encode_roster (ru_roster update) = Ok doc;
  cd_record : exists payload record, core_encode_sync_own_roster (mk_own_roster (ru_roster update) [ru_inbox_key update]) = Ok payload
    /\ core_sign_sync_record (announcement update (dk_device_id own) (cm_stream_seq c) now_ms payload) (dk_sign_sk own) = Ok record
    /\ seal_handoffs record (core_device_sync_identity own) (ru_roster update) (dk_device_id own) handoff_rnd (devices (ru_roster update)) = Ok (cm_handoffs c);
  cd_held : ld_own_document d' = Some (encode_roster_document (ru_roster update));
  cd_fleet : fleet_of d' = mk_fleet (Some (dk_device_id own)) (device_id <$> devices (ru_roster update));
}.

Lemma adopted_ok r root id d d' u : adopt_own_roster r root id d = (d', Ok u) ->
  ld_own_document d' = Some (encode_roster_document r) /\ fleet_of d' = mk_fleet (Some id) (device_id <$> devices r).
Proof.
  unfold adopt_own_roster, store_own_roster. intros H. link_inv. subst. by apply projected in H as (-> & -> & _).
Qed.

Lemma update_checked update root own u : check_revocation_update update root own = Ok u ->
  roster_valid (ru_roster update) root /\ ik_generation (ru_inbox_key update) = inbox_key_generation (ru_roster update)
  /\ dk_device_id own ∈ (device_id <$> devices (ru_roster update)).
Proof.
  unfold check_revocation_update. rewrite !ensure_bind_ok, bool_decide_eq_true, Z.eqb_eq. intros (V & Hg & Hl).
  assert (validate (ru_roster update) root = Ok tt) as V'.
  { unfold core_roster_validate in V. by destruct (validate _ _) as [[]|]. }
  split_and!; [by apply validate_sound|done|]. apply lists_device. by destruct (existsb _ _).
Qed.

Lemma commit_ok update root own old now rr rs rh d d' c : commit_own_revocation update root own old now rr rs rh d = (d', Ok c) ->
  committed update root own now rh c d'.
Proof.
  intros H. unfold commit_own_revocation in H. link_inv. subst.
  match goal with H : (let '(_, _) := ?x in _) _ = _ |- _ => destruct x as [n u] end. link_inv. subst.
  apply update_checked in Ha as (V & _ & Hl). apply adopted_ok in Ha3 as [Hdoc Hfleet]. apply context_same_roster in Ha4 as (Hd & Hf & _).
  apply on_sync_ok in Ha9 as (db & _ & ->). split; cbn [cm_stream_seq cm_handoffs].
  - done.
  - done.
  - by eexists.
  - by eexists _, _.
  - change (ld_own_document d1 = Some (encode_roster_document (ru_roster update))). by rewrite Hd.
  - change (fleet_of d1 = mk_fleet (Some (dk_device_id own)) (device_id <$> devices (ru_roster update))). by rewrite Hf.
Qed.

Lemma behind_same r d d' : same_roster d d' -> core_own_sync_context d' = core_own_sync_context d -> behind r d -> behind r d'.
Proof. unfold behind, fleet_version. by intros (_ & _ & ->) ->. Qed.

Lemma state_read_same person d d' st : on_mesh (contact_roster_state person) d = (d', Ok st) ->
  same_roster d d' /\ core_own_sync_context d' = core_own_sync_context d.
Proof.
  intros H. pose proof (mesh_standing _ _ _ _ (leaves_roster_state person) H) as (_ & Hd & Hv & Hf). split; [done|].
  unfold on_mesh, contact_roster_state, on_engine in H. destruct (load_state _ _) as [[? ?]|]; by injection H as <- _.
Qed.

Lemma unburied r root id : roster_valid r root -> id ∈ (device_id <$> devices r) -> is_tombstoned r id = false.
Proof.
  intros V Hl. destruct (is_tombstoned r id) eqn:E; [|done]. apply existsb_exists in E as (t & Hin%list_elem_of_In & Ht%bool_decide_eq_true).
  pose proof (rv_tombstones _ _ V) as Hts. rewrite Forall_forall in Hts. destruct (Hts t Hin) as [_ Hn]. by rewrite Ht in Hn.
Qed.

(** The sibling's side, given what arrives. *)
Lemma handoff_adopted r root own old now rnd sealed record key d d1 st held : own_roster d = Ok (Some held) ->
  core_open_sync_handoff sealed (dk_agree_sk own) held root = Ok record -> core_decode_sync_own_roster (rc_payload record) = Ok (mk_own_roster r [key]) ->
  person_id r = person_id held -> ik_generation key = inbox_key_generation r ->
  on_mesh (contact_roster_state (person_id held)) d = (d1, Ok st) -> accepted_over (is_quarantined st) held r root ->
  dk_device_id own ∈ (device_id <$> devices r) -> behind r d -> (exists doc, core_encode_roster r = Ok doc) ->
  (exists d2 out, reseal_own_backlog own old r key rnd d1 = (d2, Ok out)) ->
  exists d' a, adopt_revocation_handoff sealed root own old now rnd d = (d', Ok a) /\ ra_outcome a = Adopted /\ ra_inbox_key a = Some key
    /\ stands_on r (ik_generation key) (dk_device_id own) d'.
Proof.
  intros Hown Hopen Hdec Hp Hg Hst Hacc Hl Hb [doc Henc] (d2 & [n u] & Hre).
  pose proof (proj1 (accept_outcome_spec _ _ _ _) Hacc) as (_ & V & _). pose proof (state_read_same _ _ _ _ Hst) as [Hsame Hctx].
  destruct (backlog_frame _ _ _ _ _ _ _ _ Hre) as [db ->].
  assert (behind r (with_db d1 db)) as Hb2.
  { apply (behind_same r d1); [by apply with_db_same_roster|done|]. by apply (behind_same r d). }
  destruct (stand_up r root (dk_device_id own) (ik_generation key) _ doc V Hl Hb2 Henc) as (d3 & d' & b & Had & Hctx' & Hon).
  eexists d', (mk_adoption Adopted _ _ (Some key) _ _). split; [|split; [reflexivity|split; [reflexivity|exact Hon]]].
  unfold adopt_revocation_handoff. rewrite laction_bind_step. unfold lasks at 1. rewrite Hown. rewrite laction_bind_step. unfold lchecks at 1. cbn [option_ok].
  rewrite laction_bind_step. unfold lchecks at 1. rewrite Hopen. rewrite laction_bind_step. unfold lchecks at 1. rewrite Hdec. cbn [op_roster op_inbox_keys].
  rewrite laction_bind_step. unfold lchecks at 1. rewrite bool_decide_eq_true_2 by done. cbn [ensure].
  rewrite laction_bind_step, Hst. cbv zeta. unfold accepted_over in Hacc. rewrite Hacc, (unburied _ _ _ V Hl).
  rewrite laction_bind_step. unfold lchecks at 1. cbn [List.find]. rewrite (proj2 (Z.eqb_eq _ _) Hg). cbn [option_ok].
  rewrite laction_bind_step, Hre. rewrite laction_bind_step, Had. rewrite laction_bind_step, Hctx'. reflexivity.
Qed.

(** A handoff opens, with its sibling's device key, to the announcement. *)
Lemma handoff_opens update own own_id now c payload record (rnd : nat -> seal_draw) held roster h root agree_sk cert :
  roster_typed (ru_roster update) -> in_u64 (ik_generation (ru_inbox_key update)) -> in_u64 (cm_stream_seq c) -> in_i64 now ->
  device_ok own -> vouches held own -> person_id (ru_roster update) = person_id held -> (forall k, blen (rnd k).2 = NONCE_LEN) ->
  core_encode_sync_own_roster (mk_own_roster (ru_roster update) [ru_inbox_key update]) = Ok payload ->
  core_sign_sync_record (announcement update own_id (cm_stream_seq c) now payload) (dk_sign_sk own) = Ok record ->
  (exists k, core_seal_sync_handoff record (core_device_sync_identity own) roster (ho_device_id h) (rnd k).1 (rnd k).2 = Ok (ho_sealed h)) ->
  find_cert roster (ho_device_id h) = Some cert -> device_agree_pk cert = x25519_public agree_sk -> blen agree_sk = 32 ->
  core_open_sync_handoff (sr_sealed (ho_sealed h)) agree_sk held root = Ok record
  /\ core_decode_sync_own_roster (rc_payload record) = Ok (mk_own_roster (ru_roster update) [ru_inbox_key update]).
Proof.
  intros Hty Hg Hseq Hnow Hd Hv Hp Hn Hpay Hsign [k Hseal] Hc Hpk Hsk.
  assert (record_typed (announcement update own_id (cm_stream_seq c) now payload)) as Ht by (destruct Hty as (? & ? & _); by split).
  split.
  - destruct (sealed_record_opens _ own held record (rnd k).1 (rnd k).2 (ho_sealed h) Ht Hd Hv Hp (Hn k) Hsign) as [_ Ho].
    by eapply Ho.
  - destruct (signed_author _ _ _ Hsign) as [sig ->]. cbn [rc_payload with_author announcement]. apply own_roster_roundtrip; [done| |done].
    by constructor.
Qed.

(** C15: a removal reaches the siblings whole.  When the device that minted a removal
    commits it, it stands on the new roster itself, and it has sealed one announcement for
    every other device that survived and none for a device it removed.  Any of those
    siblings that still held the old roster, with nothing newer and no fork on record,
    adopts its announcement whenever it arrives: it ends with the same roster document as
    the committing device, with the fleet of the survivors, with its inbound gate at the
    new roster and generation, and with the new inbox key in hand. *)
Theorem rotation_reaches_siblings held root revoked key fresh update a_dev a_old now rr rs rh a a' c b_dev b_old now' rb b b1 st cert :
  in_u64 (inbox_key_generation held) -> roster_typed (ru_roster update) -> in_u64 (cm_stream_seq c) -> in_i64 now ->
  device_ok a_dev -> vouches held a_dev -> (forall k, blen (rh k).2 = NONCE_LEN) ->
  core_revoke_devices_roster held root (dk_sign_sk a_dev) revoked key fresh = Ok update ->
  commit_own_revocation update root a_dev a_old now rr rs rh a = (a', Ok c) ->
  own_roster b = Ok (Some held) -> on_mesh (contact_roster_state (person_id held)) b = (b1, Ok st) -> is_quarantined st = false ->
  behind (ru_roster update) b -> dk_device_id b_dev <> dk_device_id a_dev ->
  find_cert (ru_roster update) (dk_device_id b_dev) = Some cert -> device_agree_pk cert = x25519_public (dk_agree_sk b_dev) -> blen (dk_agree_sk b_dev) = 32 ->
  (exists b2 out, reseal_own_backlog b_dev b_old (ru_roster update) (ru_inbox_key update) rb b1 = (b2, Ok out)) ->
  (ld_own_document a' = Some (encode_roster_document (ru_roster update))
   /\ fleet_of a' = mk_fleet (Some (dk_device_id a_dev)) (device_id <$> devices (ru_roster update)))
  /\ ho_device_id <$> cm_handoffs c = filter (fun id => id <> dk_device_id a_dev) (device_id <$> devices (ru_roster update))
  /\ (forall h, h ∈ cm_handoffs c -> ho_device_id h ∉ revoked)
  /\ exists h, h ∈ cm_handoffs c /\ ho_device_id h = dk_device_id b_dev
       /\ exists b' ad, adopt_revocation_handoff (sr_sealed (ho_sealed h)) root b_dev b_old now' rb b = (b', Ok ad)
            /\ ra_outcome ad = Adopted /\ ra_inbox_key ad = Some (ru_inbox_key update)
            /\ stands_on (ru_roster update) (ik_generation (ru_inbox_key update)) (dk_device_id b_dev) b'
            /\ ld_own_document b' = ld_own_document a'.
Proof.
  intros Hgen Hty Hseq Hnow Hd Hv Hn Hmint Hcommit Hown Hst Hq Hb Hne Hc Hpk Hsk Hre.
  apply revocation_minted in Hmint as (Hacc & Hkept & _ & _ & Hg & _); [|done]. apply commit_ok in Hcommit as [V Hl Hdoc Hrec Hheld Hfleet].
  destruct Hrec as (payload & record & Hpay & Hsign & Hhs). apply handoffs_sealed in Hhs as [Hids Hall]. rewrite Forall_forall in Hall.
  pose proof (proj1 (accept_outcome_spec _ _ _ _) Hacc) as (_ & _ & Hsup). specialize (Hsup _ eq_refl). destruct (find_cert_some _ _ _ Hc) as [Hin Hid].
  assert (dk_device_id b_dev ∈ (device_id <$> devices (ru_roster update))) as Hlb by (apply list_elem_of_fmap; by exists cert).
  split_and!; [done|done|done| |].
  - intros h Hh Hr. assert (ho_device_id h ∈ (ho_device_id <$> cm_handoffs c)) as Hm by by apply list_elem_of_fmap_2.
    rewrite Hids in Hm. apply list_elem_of_filter in Hm as [_ Hm]. by apply Hkept in Hm as [_ Hm].
  - assert (dk_device_id b_dev ∈ (ho_device_id <$> cm_handoffs c)) as Hm by (rewrite Hids; by apply list_elem_of_filter).
    apply list_elem_of_fmap in Hm as (h & Hh & Hm). exists h. split; [done|]. split; [done|].
    assert (person_id (ru_roster update) = person_id held) as Hp by (symmetry; apply Hsup). rewrite Hh in Hc.
    assert (in_u64 (ik_generation (ru_inbox_key update))) as Hgu by (rewrite <- Hg; apply Hty).
    destruct (handoff_opens update a_dev _ now c payload record rh held (ru_roster update) h root (dk_agree_sk b_dev) cert Hty Hgu Hseq Hnow Hd Hv Hp Hn
                Hpay Hsign (Hall h Hm) Hc Hpk Hsk) as [Hopen Hdec].
    rewrite <- Hq in Hacc.
    destruct (handoff_adopted (ru_roster update) root b_dev b_old now' rb _ record (ru_inbox_key update) b b1 st held Hown Hopen Hdec Hp (eq_sym Hg) Hst Hacc Hlb Hb Hdoc Hre)
      as (b' & ad & Had & Ho & Hk & Hon).
    exists b', ad. split_and!; [done..|]. rewrite Hheld. apply Hon.
Qed.

(** The fleet is projected before the journal is closed: once a commit has got that far,
    the same update fails for good at the projection, however often it is run again. *)
Theorem interrupted_commit_sticks update root own old now rr rs rh d d1 d2 : version_typed (version (ru_roster update)) ->
  adopt_own_roster (ru_roster update) root (dk_device_id own) d = (d1, Ok tt) -> ld_fleet_version d2 = ld_fleet_version d1 ->
  is_ok (commit_own_revocation update root own old now rr rs rh d2).2 = false.
Proof.
  intros Hv Had Hsame. destruct (commit_own_revocation update root own old now rr rs rh d2) as [d3 [c|e]] eqn:H; [|done]. exfalso.
  unfold commit_own_revocation in H. link_inv. subst. match goal with H : (let '(_, _) := ?x in _) _ = _ |- _ => destruct x as [n u] end. link_inv. subst.
  match goal with H : reseal_own_backlog _ _ _ _ _ _ = _ |- _ => apply backlog_frame in H as [db ->] end.
  match goal with H : adopt_own_roster _ _ _ (with_db d2 db) = _ |- _ => rename H into Hagain end.
  assert (ld_fleet_version d1 = Some (to_i64 (v_recovery_epoch (version (ru_roster update))), to_i64 (v_seq (version (ru_roster update))))) as Hver.
  { unfold adopt_own_roster, store_own_roster, project_own_fleet, set_own_device_fleet in Had. link_inv. by subst. }
  unfold adopt_own_roster, store_own_roster, project_own_fleet, set_own_device_fleet in Hagain. link_inv. subst.
  match goal with H : match ld_fleet_version ?x with _ => _ end = Ok _ |- _ => change (ld_fleet_version x) with (ld_fleet_version d2) in H; rename H into Hlast end.
  rewrite Hsame, Hver, (stored_version_back _ Hv), (proj2 (version_compare_eq _ _) eq_refl) in Hlast. discriminate.
Qed.

(** A sibling that stopped between the roster and the context is told, when the same
    announcement comes again, that it has it; its inbound gate stays at the old roster. *)
Theorem interrupted_handoff_sticks sealed root own old now rnd d d' a r record keys :
  own_roster d = Ok (Some r) -> core_open_sync_handoff sealed (dk_agree_sk own) r root = Ok record ->
  core_decode_sync_own_roster (rc_payload record) = Ok (mk_own_roster r keys) ->
  adopt_revocation_handoff sealed root own old now rnd d = (d', Ok a) ->
  ra_outcome a <> Adopted /\ ra_inbox_key a = None /\ core_own_sync_context d' = core_own_sync_context d.
Proof.
  intros Hown Hopen Hdec H. unfold adopt_revocation_handoff in H. link_inv. rewrite option_ok_ok in *. subst. rewrite Hown in *. simplify_eq.
  repeat match goal with H1 : ?x = Ok ?a, H2 : ?x = Ok ?b |- _ => rewrite H1 in H2; simplify_eq end. cbn [op_roster] in *. match goal with H : on_mesh (contact_roster_state _) _ = _ |- _ => apply state_read_same in H as [_ Hctx] end.
  destruct (outcome _) eqn:E.
  - exfalso. apply accept_outcome_spec in E as (_ & _ & Hsup). destruct (Hsup _ eq_refl) as [_ Hlt _ _ _ _ _]. unfold version_lt in Hlt. lia.
  - link_inv. subst. by destruct (reason _).
  - link_inv. subst. split_and!; [done|done|]. rewrite <- Hctx.
    match goal with H : on_mesh (mark_own_quarantined _) _ = _ |- _ => unfold on_mesh, mark_own_quarantined, on_engine in H; by injection H as <- end.
Qed.
End siblings.

(** ** Witnesses *)

(** A person with three devices; the first one removes the third. *)
Definition three_roster : Roster :=
  toy_roster_at 0 1 [toy_cert1; toy_cert2; mk_cert Roster.toy_person (key 3) (key 13) 0 0 (key 1) (sig 1)] [].

Definition nth_device (n : Z) : DeviceKeypair := mk_device (toy_device n) (key n) (key n) (key (10 + n)) (key (10 + n)).

Definition old_key : InboxKey := mk_inbox 1 (key 20) (key 20).

Definition toy_update : result CoreError RevocationUpdate :=
  core_revoke_devices_roster (C := toy_crypto) (S := toy_seal) three_roster Roster.toy_root (key 1) [toy_device 3] old_key (key 21).

Definition three_phone : link_db := mk_link_db MeshReceive.empty_store None (Some (encode_roster_document three_roster)) None None.

Definition toy_rnd : nat -> seal_draw := fun _ => (key 5, replicate 24 x00).

(** The rotation announced: the first phone begins the removal and commits it. *)
Definition toy_commit (u : RevocationUpdate) : link_db * result CoreError RevocationCommit :=
  let begun := (begin_own_revocation (C := toy_crypto) u Roster.toy_root (nth_device 1) 1000 three_phone).1 in
  commit_own_revocation (C := toy_crypto) (S := toy_seal) u Roster.toy_root (nth_device 1) None 2000 toy_rnd (toy_rnd 0%nat) toy_rnd begun.

Lemma toy_device_ok n : 0 <= n < 256 -> device_ok (C := toy_crypto) (S := toy_seal) (nth_device n).
Proof. intros _. split; reflexivity. Qed.

Lemma rotation_reaches_siblings_witness :
  exists u a' c h b' ad, toy_update = Ok u /\ toy_commit u = (a', Ok c) /\ h ∈ cm_handoffs c
    /\ adopt_revocation_handoff (C := toy_crypto) (S := toy_seal) (sr_sealed (ho_sealed h)) Roster.toy_root (nth_device 2) None 3000 toy_rnd three_phone = (b', Ok ad)
    /\ ra_inbox_key ad = Some (ru_inbox_key u) /\ ld_own_document b' = ld_own_document a'.
Proof.
  destruct toy_update as [u|] eqn:Hu; [|vm_compute in Hu; discriminate Hu].
  destruct (toy_commit u) as [a' [c|]] eqn:Hc; [|exfalso; vm_compute in Hu; injection Hu as <-; apply (f_equal snd) in Hc; vm_compute in Hc; discriminate Hc].
  destruct (on_mesh (contact_roster_state (C := toy_crypto) (person_id three_roster)) three_phone) as [b1 [st|]] eqn:Hst;
    [|apply (f_equal snd) in Hst; vm_compute in Hst; discriminate Hst].
  assert (is_quarantined st = false) as Hq.
  { apply (f_equal snd) in Hst. vm_compute in Hst. injection Hst as <-. reflexivity. }
  assert (in_u64 (cm_stream_seq c)) as Hseq.
  { vm_compute in Hu. injection Hu as <-. apply (f_equal snd) in Hc. vm_compute in Hc. injection Hc as <-. split; [vm_compute; discriminate|vm_compute; discriminate]. }
  assert (roster_typed (ru_roster u)) as Hty.
  { vm_compute in Hu. injection Hu as <-. repeat split; try (repeat constructor; vm_compute; discriminate); vm_compute; discriminate. }
  assert (behind (ru_roster u) three_phone) as Hb by (split; intros ? [=]).
  assert (find_cert (C := toy_crypto) (ru_roster u) (dk_device_id (nth_device 2)) = Some toy_cert2) as Hcert.
  { vm_compute in Hu. injection Hu as <-. vm_compute. reflexivity. }
  destruct (rotation_reaches_siblings (C := toy_crypto) (S := toy_seal) three_roster Roster.toy_root [toy_device 3] old_key (key 21) u (nth_device 1) None 2000
    toy_rnd (toy_rnd 0%nat) toy_rnd (begin_own_revocation (C := toy_crypto) u Roster.toy_root (nth_device 1) 1000 three_phone).1 a' c
    (nth_device 2) None 3000 toy_rnd three_phone b1 st toy_cert2) as (_ & _ & _ & h & Hh & _ & b' & ad & Had & _ & Hk & _ & Hdoc);
    [vm_compute; split; discriminate|exact Hty|exact Hseq|vm_compute; split; discriminate
    |apply toy_device_ok; lia|split; [vm_compute; reflexivity|exists toy_cert1; split; vm_compute; reflexivity]|intros k; reflexivity|exact Hu|exact Hc
    |vm_compute; reflexivity|exact Hst|exact Hq|exact Hb|vm_compute; discriminate|exact Hcert|vm_compute; reflexivity|vm_compute; reflexivity
    |exists b1, (0, 0); reflexivity|].
  exists u, a', c, h, b', ad. split; [reflexivity|]. split; [exact Hc|]. split; [exact Hh|]. split; [exact Had|]. split; [exact Hk|exact Hdoc].
Defined.

(** One retained record under the old key. *)
Definition kept_record : SyncRecord :=
  match core_sign_sync_record (C := toy_crypto) (S := toy_seal)
          (mk_record SyncHistory Roster.toy_person [] (mk_version 0 1) 1 1 500 [x41] []) (key 1) with
  | Ok r => r
  | Err _ => mk_record SyncHistory [] [] (mk_version 0 1) 1 1 500 [] []
  end.

Definition kept_sealed : SealedSyncRecord :=
  match core_seal_sync_record (S := toy_seal) kept_record (core_device_sync_identity (nth_device 1)) old_key (key 5) (replicate 24 x00) with
  | Ok s => s
  | Err _ => mk_sealed [] (mk_version 0 1) 0
  end.

Definition kept_key : bytes * Z * Z := (toy_device 1, core_sync_record_kind_wire SyncHistory, 1).

Definition keeping_phone : link_db := with_db three_phone (mk_sync {[kept_key := mk_slot Roster.toy_person (Some kept_sealed) 600]} ∅ ∅).

Definition new_key : InboxKey := mk_inbox 2 (key 21) (key 21).

Lemma kept_slot key row : sy_slots (sync_of keeping_phone) !! key = Some row -> key = kept_key /\ row = mk_slot Roster.toy_person (Some kept_sealed) 600.
Proof.
  change (sy_slots (sync_of keeping_phone)) with ({[kept_key := mk_slot Roster.toy_person (Some kept_sealed) 600]} : gmap (bytes * Z * Z) slot_row).
  intros [<- <-]%lookup_singleton_Some. split; reflexivity.
Qed.

Lemma rotation_keeps_backlog_witness :
  exists d' out db, reseal_own_backlog (C := toy_crypto) (S := toy_seal) (nth_device 1) (Some old_key) toy_roster2 new_key toy_rnd keeping_phone = (d', Ok out)
    /\ d' = with_db keeping_phone db /\ exists row sealed, sy_slots db !! kept_key = Some row /\ sl_sealed row = Some sealed
    /\ carries_on (C := toy_crypto) (S := toy_seal) new_key toy_roster2 kept_record sealed.
Proof.
  destruct (reseal_own_backlog (C := toy_crypto) (S := toy_seal) (nth_device 1) (Some old_key) toy_roster2 new_key toy_rnd keeping_phone) as [d' [out|e]] eqn:H;
    [|apply (f_equal snd) in H; vm_compute in H; discriminate H].
  destruct (rotation_keeps_backlog (C := toy_crypto) (S := toy_seal) (nth_device 1) old_key new_key toy_roster2) with (rnd := toy_rnd) (d := keeping_phone) (d' := d') (out := out)
    as (db & Hd & _ & _ & Hk).
  - apply toy_device_ok. lia.
  - split; [vm_compute; reflexivity|]. exists toy_cert1. split; vm_compute; reflexivity.
  - split; split; vm_compute; discriminate.
  - split; vm_compute; discriminate.
  - intros a k s [row Hrow]. apply kept_slot in Hrow as [He _]. injection He as _ -> ->. split; split; vm_compute; discriminate.
  - intros k s row sealed r Hrow Hs _ Hr. apply kept_slot in Hrow as [He ->]. injection He as -> ->. injection Hs as <-.
    vm_compute in Hr. injection Hr as <-. vm_compute. repeat split; reflexivity.
  - reflexivity.
  - exact H.
  - exists d', out, db. split; [reflexivity|]. split; [exact Hd|]. specialize (Hk kept_key).
    replace (sy_slots (sync_of keeping_phone) !! kept_key) with (Some (mk_slot Roster.toy_person (Some kept_sealed) 600)) in Hk by (vm_compute; reflexivity).
    destruct Hk as (row & Hrow & _ & _ & Hst).
    replace (stale_record (S := toy_seal) (nth_device 1) old_key kept_key (mk_slot Roster.toy_person (Some kept_sealed) 600)) with (Some kept_record) in Hst by (vm_compute; reflexivity).
    destruct Hst as (sealed & Hs & Hgood). exists row, sealed. split; [exact Hrow|]. split; [exact Hs|exact Hgood].
Defined.
