(* ===== verification/RelayRotation.v ===== *)
(** Rotating the relay's member token after a removal ([core/src/relay_rotation.rs], with
    the settings calls of [core/src/sync_store.rs] and the error answers of
    [relayd/src/lib.rs]): the plan, the journal that is written before the call, the commit
    that publishes the new token to the person's other devices, and what a phone does with an
    answer that was not a rotation.

    [lost_answer_recovered] runs the phone against the relay of [RelayDaemon.v]: when the
    answer to a rotation is lost, the journal still names the token, the relay's refusal
    sends the phone to confirm, the confirmation is answered, and the commit that follows
    closes the journal.  [rotated_credential_wins] shows that a committed token reaches a
    sibling through the settings stream whatever it held before under an older epoch.
    [retry_paced] bounds the waits between calls. *)
From stdpp Require Import base numbers list gmap strings.
From coqutil Require Import Datatypes.RecordSetters.
From S2P Require Import Prelude StdModel Wire Crypto RosterCodec Roster RosterStore Frames Hints Engine RelayPolicy RelayWire OutboundQueue SyncStream SyncStore FriendCards Authoring SyncRecords InboundStore SyncMerge MeshReceive LinkActivation Revocation RelayMailbox RelayDaemon RelayExchange.
Import TriangleBracketNotations.

Definition RELAY_MEMBER_TOKEN_PREFIX : bytes := str "cmfam1-".
Definition RELAY_ROTATION_ANSWERED_RETRY_MS : Z := 15 * 60 * 1000.
Definition RELAY_ROTATION_UNREACHED_RETRY_MS : Z := 30 * 1000.
Definition RELAY_ROTATION_RETRY_CEILING_MS : Z := 60 * 60 * 1000.

Record RelayRotationPlan : Type := mk_plan {
  pl_relay_url : bytes;
  pl_superseded_token : bytes;
  pl_new_token : bytes;
  pl_new_deposit_token : bytes;
  pl_relay_epoch : Z;
  pl_inbox_key_generation : Z;
  pl_revoked_device_ids : list bytes;
}.

Record RelayRotationCommit : Type := mk_rotation_commit {
  rc_endpoint : RelayEndpoint;
  rc_deposit_token : bytes;
  rc_relay_epoch : Z;
  rc_superseded_token : bytes;
  rc_contact_user_ids : list bytes;
  rc_published_epoch : Z;
}.

(** The row of [relay_rotation]. *)
Record rotation_journal : Type := mk_journal {
  jr_relay_url : bytes;
  jr_superseded_token : bytes;
  jr_new_token : bytes;
  jr_relay_epoch : Z;
  jr_inbox_key_generation : Z;
  jr_revoked_device_ids : bytes;
  jr_started_at_ms : Z;
  jr_committed_at_ms : option Z;
}.

(** The store of [LinkActivation.v] with one more table. *)
Record rotation_db : Type := mk_rotation_db { rt_link : link_db; rt_journal : option rotation_journal }.

Definition raction (A : Type) : Type := rotation_db -> rotation_db * result CoreError A.

#[global] Instance raction_ret : MRet raction := fun A a d => (d, Ok a).
#[global] Instance raction_bind : MBind raction := fun A B f m d =>
  match m d with (d, Ok a) => f a d | (d, Err e) => (d, Err e) end.

Definition rreads {A} (f : rotation_db -> A) : raction A := fun d => (d, Ok (f d)).
Definition rchecks {A} (r : result CoreError A) : raction A := fun d => (d, r).
Definition set_rotation (row : option rotation_journal) : raction unit := fun d => (mk_rotation_db (rt_link d) row, Ok tt).

Definition on_store {A} (f : action CoreError A) : raction A := fun d =>
  let '(l, r) := on_mesh f (rt_link d) in (mk_rotation_db l (rt_journal d), r).

(** * The settings stream *)

Definition core_sync_put_setting (entry : SyncSettingEntry) : action CoreError bool := fun s =>
  put_store_setting (mk_setting (se_key entry) (se_value entry) (se_epoch entry) (own_authoring_device_id (ms_author s))) s.

Definition core_sync_get_setting (key : bytes) (s : mesh_store) : option SyncSettingEntry := setting (ms_sync s) key.

Definition relay_credential_setting (s : mesh_store) : option RelayEndpoint :=
  entry ← core_sync_get_setting SYNC_RELAY_CREDENTIAL_SETTING_KEY s; decode_relay_credential (se_value entry).

(** * Planning *)

Section rotation.
Context `{C : Crypto} `{B : Base64}.

(** [random] is what [OsRng] gives, 32 bytes. *)
Definition core_mint_relay_member_token (random : bytes) : bytes := RELAY_MEMBER_TOKEN_PREFIX ++ b64_encode random.

Definition plan_relay_rotation_for_generation (inbox_key_generation : Z) (revoked_device_ids : list bytes)
    (relay_url current_token : bytes) (previous_relay_epoch now_ms : Z) (random : bytes) : result CoreError (option RelayRotationPlan) :=
  let relay_url := trim relay_url in
  let current_token := trim current_token in
  if bool_decide (relay_url = []) || bool_decide (current_token = []) then Ok None
  else if relay_token_is_deposit current_token
  then Err (Malformed "this device holds a deposit-class relay credential, which cannot be rotated")
  else
    let new_token := core_mint_relay_member_token random in
    Ok (Some (mk_plan relay_url current_token new_token (relay_deposit_token_for new_token)
                (Z.max now_ms (i64_saturating_add previous_relay_epoch 1)) inbox_key_generation revoked_device_ids)).

Definition core_plan_relay_rotation (revocation : RevocationCommit) : bytes -> bytes -> Z -> Z -> bytes -> result CoreError (option RelayRotationPlan) :=
  plan_relay_rotation_for_generation (cm_inbox_key_generation revocation) (cm_revoked_device_ids revocation).

(** The generation of the inbound gate, 0 before there is one. *)
Definition own_generation (d : rotation_db) : Z :=
  match core_own_sync_context (rt_link d) with Some context => oc_inbox_key_generation context | None => 0 end.

Definition plan_relay_credential_refresh (d : rotation_db) : bytes -> bytes -> Z -> Z -> bytes -> result CoreError (option RelayRotationPlan) :=
  plan_relay_rotation_for_generation (own_generation d) [].

(** * The journal *)

Definition begin_relay_rotation (plan : RelayRotationPlan) (now_ms : Z) : raction unit :=
  _ ← rchecks (ensure (negb (bool_decide (trim (pl_new_token plan) = []) || relay_token_is_deposit (pl_new_token plan)))
                 (Malformed "a rotation must name a member-class replacement credential"));
  _ ← rchecks (ensure (negb (bool_decide (pl_new_token plan = pl_superseded_token plan)))
                 (Malformed "a rotation must move to a different credential"));
  set_rotation (Some (mk_journal (pl_relay_url plan) (pl_superseded_token plan) (pl_new_token plan) (pl_relay_epoch plan)
                        (to_i64 (pl_inbox_key_generation plan)) (pack_device_ids (pl_revoked_device_ids plan)) now_ms None)).

Definition pending_relay_rotation (d : rotation_db) : option RelayRotationPlan :=
  row ← rt_journal d;
  match jr_committed_at_ms row with
  | Some _ => None
  | None => Some (mk_plan (jr_relay_url row) (jr_superseded_token row) (jr_new_token row) (relay_deposit_token_for (jr_new_token row))
                    (jr_relay_epoch row) (as_u64 (jr_inbox_key_generation row)) (unpack_device_ids (jr_revoked_device_ids row)))
  end.

Definition abandon_relay_rotation : raction bool :=
  pending ← rreads pending_relay_rotation;
  match pending with
  | Some _ => _ ← set_rotation None; mret true
  | None => mret false
  end.

Definition commit_relay_rotation (plan : RelayRotationPlan) (now_ms : Z) : raction RelayRotationCommit :=
  generation ← rreads own_generation;
  _ ← rchecks (ensure (negb (generation <? pl_inbox_key_generation plan))
                 (Store "this device is still at an older inbox key generation, so it cannot announce a relay credential"));
  stored ← rreads (fun d => core_sync_get_setting SYNC_RELAY_CREDENTIAL_SETTING_KEY (ld_mesh (rt_link d)));
  let stored_epoch := match stored with Some entry => se_epoch entry | None => 0 end in
  let published_epoch := Z.max (Z.max (pl_relay_epoch plan) 0) (u64_saturating_add stored_epoch 1) in
  published ← on_store (core_sync_put_setting (mk_setting SYNC_RELAY_CREDENTIAL_SETTING_KEY
                          (encode_relay_credential (pl_relay_url plan) (pl_new_token plan)) published_epoch []));
  _ ← rchecks (ensure published (Store "the rotated relay credential could not be published to this person's other devices"));
  contacts ← rreads (fun d => ct_user_id <$> list_contacts (ld_mesh (rt_link d)));
  journal ← rreads rt_journal;
  _ ← set_rotation ((fun row =>
        if decide (jr_new_token row = pl_new_token plan)
        then mk_journal (jr_relay_url row) (jr_superseded_token row) (jr_new_token row) (jr_relay_epoch row) (jr_inbox_key_generation row)
               (jr_revoked_device_ids row) (jr_started_at_ms row) (Some now_ms)
        else row) <$> journal);
  mret (mk_rotation_commit (mk_endpoint (pl_relay_url plan) (pl_new_token plan)) (pl_new_deposit_token plan) (pl_relay_epoch plan)
          (pl_superseded_token plan) contacts published_epoch).
End rotation.

(** * Driving the call *)

Inductive RelayRotationNextStep : Type :=
| Confirm
| Retry (delay_ms : Z)
| Remint
| ServerManagedToken
| NotTheAuthority.

Definition core_relay_rotation_next_step (http_status : Z) (relay_code : option bytes) (retry_after_ms : Z) (confirming : bool)
    (consecutive_failures : Z) : RelayRotationNextStep :=
  if bool_decide (relay_code = Some (str "rotation_unsupported")) then ServerManagedToken
  else if bool_decide (relay_code = Some (str "rotation_token_taken")) then Remint
  else if bool_decide (relay_code = Some (str "rotation_unauthorized")) then NotTheAuthority
  else if negb confirming && ((http_status =? 401) || (http_status =? 403)) then Confirm
  else
    let base := if http_status =? 0 then RELAY_ROTATION_UNREACHED_RETRY_MS else RELAY_ROTATION_ANSWERED_RETRY_MS in
    let widened := i64_saturating_mul base (Z.shiftl 1 (Z.min consecutive_failures 8)) in
    Retry (Z.max (Z.max (Z.min widened RELAY_ROTATION_RETRY_CEILING_MS) retry_after_ms) 0).

(** The status and the machine-readable code of a refusal. *)
Definition error_answer (e : ApiError) : Z * option bytes :=
  match e with
  | BadRequest _ => (400, None)
  | Unauthorized _ => (401, None)
  | NotFound => (404, None)
  | RateLimited _ => (429, Some (str "rate_limited"))
  | DepositOnly => (403, Some (str "deposit_only"))
  | PresenceQueryOnly => (403, Some (str "presence_query_only"))
  | FamilySuspended => (403, Some (str "family_suspended"))
  | FamilyExpired _ => (403, Some (str "family_expired"))
  | EnvelopeTooLarge _ => (413, Some (str "envelope_too_large"))
  | FamilyQuotaExceeded _ _ => (507, Some (str "family_quota_exceeded"))
  | DepositShareFull Depositor _ _ _ => (507, Some (str "depositor_share_exceeded"))
  | DepositShareFull AllDepositors _ _ _ => (507, Some (str "deposit_share_exceeded"))
  | MsgIdConflictError => (409, Some (str "msg_id_conflict"))
  | RotationUnsupported => (409, Some (str "rotation_unsupported"))
  | RotationTokenTaken => (409, Some (str "rotation_token_taken"))
  | RotationRefused => (403, Some (str "rotation_unauthorized"))
  | Internal _ => (500, None)
  end.

(** * The waits *)

(** A wait is never shorter than the relay asked for, nor than half a minute, or a quarter of
    an hour after an answer; it is never longer than an hour unless the relay asked; and it
    grows with the failures. *)
Lemma retry_paced status code after confirming n delay : 0 <= n -> core_relay_rotation_next_step status code after confirming n = Retry delay ->
  after <= delay /\ RELAY_ROTATION_UNREACHED_RETRY_MS <= delay /\ (status <> 0 -> RELAY_ROTATION_ANSWERED_RETRY_MS <= delay)
  /\ delay <= Z.max after RELAY_ROTATION_RETRY_CEILING_MS
  /\ forall m delay', n <= m -> core_relay_rotation_next_step status code after confirming m = Retry delay' -> delay <= delay'.
Proof.
  unfold core_relay_rotation_next_step, RELAY_ROTATION_UNREACHED_RETRY_MS, RELAY_ROTATION_ANSWERED_RETRY_MS, RELAY_ROTATION_RETRY_CEILING_MS.
  intros Hn. repeat (case_bool_decide; [done|]). destruct (negb confirming && _); [done|]. rewrite !Z.shiftl_1_l.
  assert (forall k, 0 <= k -> 1 <= 2 ^ Z.min k 8 <= 256) as Hpow.
  { intros k Hk. split; [pose proof (Z.pow_le_mono_r 2 0 (Z.min k 8) ltac:(lia) ltac:(lia)); lia|].
    change 256 with (2 ^ 8). apply Z.pow_le_mono_r; lia. }
  pose proof (Hpow n Hn) as Hb. intros [= <-]. unfold i64_saturating_mul, sat_i64. unfold I64_MIN, I64_MAX. split_and!.
  - lia.
  - destruct (status =? 0); lia.
  - intros Hs. rewrite (proj2 (Z.eqb_neq _ _) Hs). lia.
  - destruct (status =? 0); lia.
  - intros m delay' Hm. rewrite Z.shiftl_1_l. intros [= <-]. pose proof (Hpow m ltac:(lia)) as Hb'.
    assert (2 ^ Z.min n 8 <= 2 ^ Z.min m 8) by (apply Z.pow_le_mono_r; lia). destruct (status =? 0); lia.
Qed.

(** * The journal *)

Lemma unpack_loop_packed ids : forall fuel, Forall (fun id => blen id = DEVICE_ID_LEN) ids -> (length (concat ids) <= fuel)%nat -> unpack_loop fuel (concat ids) = ids.
Proof.
  induction ids as [|id ids IH]; intros fuel Hl Hf; [by destruct fuel|]. apply Forall_cons in Hl as [Hid Hl]. cbn [concat] in *.
  rewrite length_app in Hf. assert (length id = 16%nat) as Hlen by (unfold blen, DEVICE_ID_LEN in Hid; lia).
  destruct fuel as [|fuel]; [lia|]. cbn [unpack_loop]. rewrite (proj2 (Z.ltb_ge _ _)).
  - rewrite take_app_length' by done. rewrite drop_app_length' by done. f_equal. apply IH; [done|lia].
  - unfold blen in *. rewrite length_app. unfold DEVICE_ID_LEN in *. lia.
Qed.

Lemma packed_ids ids : Forall (fun id => blen id = DEVICE_ID_LEN) ids -> unpack_device_ids (pack_device_ids ids) = ids.
Proof.
  intros Hl. unfold unpack_device_ids, pack_device_ids. replace (filter _ ids) with ids; [by apply unpack_loop_packed|].
  induction Hl as [|id ids Hid Hl IH]; [done|]. by rewrite filter_cons_True, <- IH.
Qed.

Section journal.
Context `{C : Crypto} `{B : Base64}.

(** What a plan of this module looks like. *)
Record plan_ok (plan : RelayRotationPlan) : Prop := {
  po_member : relay_token_is_deposit (pl_new_token plan) = false;
  po_named : trim (pl_new_token plan) <> [];
  po_moves : pl_new_token plan <> pl_superseded_token plan;
  po_deposit : pl_new_deposit_token plan = relay_deposit_token_for (pl_new_token plan);
  po_generation : in_u64 (pl_inbox_key_generation plan);
  po_devices : Forall (fun id => blen id = DEVICE_ID_LEN) (pl_revoked_device_ids plan);
}.

Lemma journal_remembers plan now d : plan_ok plan -> exists d', begin_relay_rotation plan now d = (d', Ok tt)
  /\ pending_relay_rotation d' = Some plan /\ rt_link d' = rt_link d.
Proof.
  intros [Hm Hn Hne Hd Hg Hids]. eexists. split.
  - unfold begin_relay_rotation. unfold mbind, raction_bind, rchecks. rewrite Hm, !bool_decide_eq_false_2 by done. reflexivity.
  - split; [|done]. unfold pending_relay_rotation.
    cbn [rt_journal mbind option_bind jr_committed_at_ms jr_relay_url jr_superseded_token jr_new_token jr_relay_epoch jr_inbox_key_generation jr_revoked_device_ids].
    rewrite packed_ids, <- Hd by done. rewrite as_u64_to_i64 by done. by destruct plan.
Qed.
End journal.

(** * The commit *)

(** The settings entry of a rotated token, as it is stored. *)
Definition credential_entry (plan : RelayRotationPlan) (epoch : Z) (device : bytes) : SyncSettingEntry :=
  mk_setting SYNC_RELAY_CREDENTIAL_SETTING_KEY (encode_relay_credential (pl_relay_url plan) (pl_new_token plan)) epoch device.

Definition stored_epoch (s : mesh_store) : Z :=
  match core_sync_get_setting SYNC_RELAY_CREDENTIAL_SETTING_KEY s with Some entry => se_epoch entry | None => 0 end.

(** Text that a field of two length bytes can carry. *)
Definition carried (text : bytes) : Prop := utf8_valid text = true /\ text <> [] /\ blen text <= U16_MAX.

Lemma framed_field n text rest : blen text <= U16_MAX ->
  framed_fields (S n) (be_bytes 2 (Z.min (blen text) U16_MAX) ++ take (Z.to_nat (Z.min (blen text) U16_MAX)) text ++ rest) = text :: framed_fields n rest.
Proof.
  intros Hl. rewrite Z.min_l by done. pose proof (blen_nonneg text). rewrite take_ge by (unfold blen; lia). cbn [framed_fields].
  assert (length (be_bytes 2 (blen text)) = 2%nat) as H2 by apply length_be_bytes.
  rewrite take_app_length' by done. rewrite drop_app_length' by done.
  rewrite be_value_be_bytes_small by (change (256 ^ Z.of_nat 2) with 65536; unfold U16_MAX in Hl; lia).
  rewrite (proj2 (Z.ltb_ge (blen (_ ++ text ++ rest)) 2)) by (rewrite blen_app; unfold blen at 1; rewrite H2; pose proof (blen_nonneg (text ++ rest)); lia).
  rewrite (proj2 (Z.ltb_ge (blen (text ++ rest)) _)) by (rewrite blen_app; pose proof (blen_nonneg rest); lia).
  rewrite take_app_length' by (unfold blen; lia). by rewrite drop_app_length' by (unfold blen; lia).
Qed.

Lemma credential_reads_back plan epoch device : carried (pl_relay_url plan) -> carried (pl_new_token plan) ->
  decode_relay_credential (se_value (credential_entry plan epoch device)) = Some (mk_endpoint (pl_relay_url plan) (pl_new_token plan)).
Proof.
  intros (Hu & Hun & Hul) (Ht & Htn & Htl). cbn [credential_entry se_value]. unfold decode_relay_credential, encode_relay_credential. rewrite <- app_assoc.
  rewrite (framed_field 1) by done. rewrite <- (app_nil_r (take _ (pl_new_token plan))). rewrite (framed_field 0) by done. cbn [framed_fields].
  by rewrite Hu, Ht, !bool_decide_eq_false_2.
Qed.

Lemma own_device_named d : blen (own_authoring_device_id d) = DEVICE_ID_LEN.
Proof.
  unfold own_authoring_device_id, core_device_stream_id. destruct (own_device_id _) as [id|]; [|done].
  destruct (blen id =? DEVICE_ID_LEN) eqn:E; [by apply Z.eqb_eq|done].
Qed.

Lemma put_newer db e : blen (se_author_device_id e) = DEVICE_ID_LEN ->
  (forall old, setting db (se_key e) = Some old -> se_epoch old < se_epoch e) ->
  put_setting db e = (mk_sync (sy_slots db) (sy_cursors db) (<[se_key e := e]> (sy_settings db)), Ok true).
Proof.
  intros Ha Hold. unfold put_setting. rewrite Ha. cbn [Z.eqb negb]. destruct (setting db (se_key e)) as [old|]; [|done].
  specialize (Hold old eq_refl). unfold supersedes. rewrite (proj2 (Z.eqb_neq (se_epoch e) (se_epoch old))) by lia.
  by rewrite (proj2 (Z.ltb_lt (se_epoch old) (se_epoch e)) Hold).
Qed.

Section commit.
Context `{C : Crypto} `{B : Base64}.

(** A commit succeeds once the gate is at the plan's generation, if the stored epoch can
    still be passed. *)
Lemma commit_publishes plan now d : pl_inbox_key_generation plan <= own_generation d -> 0 <= stored_epoch (ld_mesh (rt_link d)) < U64_MAX ->
  exists d' c, commit_relay_rotation plan now d = (d', Ok c)
    /\ rc_endpoint c = mk_endpoint (pl_relay_url plan) (pl_new_token plan) /\ rc_deposit_token c = pl_new_deposit_token plan
    /\ rc_relay_epoch c = pl_relay_epoch plan /\ rc_contact_user_ids c = ct_user_id <$> list_contacts (ld_mesh (rt_link d))
    /\ rc_published_epoch c = Z.max (Z.max (pl_relay_epoch plan) 0) (stored_epoch (ld_mesh (rt_link d)) + 1)
    /\ core_sync_get_setting SYNC_RELAY_CREDENTIAL_SETTING_KEY (ld_mesh (rt_link d'))
       = Some (credential_entry plan (rc_published_epoch c) (own_authoring_device_id (ms_author (ld_mesh (rt_link d)))))
    /\ (pending_relay_rotation d = Some plan -> pending_relay_rotation d' = None).
Proof.
  destruct d as [l j]. intros Hg He. cbn [rt_link] in *. set (n := Z.max (Z.max (pl_relay_epoch plan) 0) (stored_epoch (ld_mesh l) + 1)).
  set (e := credential_entry plan n (own_authoring_device_id (ms_author (ld_mesh l)))).
  assert (put_setting (ad_sync (ms_author (ld_mesh l))) e
          = (mk_sync (sy_slots (ms_sync (ld_mesh l))) (sy_cursors (ms_sync (ld_mesh l))) (<[se_key e := e]> (sy_settings (ms_sync (ld_mesh l)))), Ok true)) as Hput.
  { apply put_newer; [apply own_device_named|]. intros old Hold. change (core_sync_get_setting SYNC_RELAY_CREDENTIAL_SETTING_KEY (ld_mesh l) = Some old) in Hold.
    change (se_epoch old < n). subst n. unfold stored_epoch. rewrite Hold. lia. }
  eexists. eexists. split.
  - unfold commit_relay_rotation, mbind, raction_bind, rreads, rchecks. cbn [rt_link]. rewrite (proj2 (Z.ltb_ge _ _)) by done. cbn [ensure negb].
    fold (stored_epoch (ld_mesh l)). unfold u64_saturating_add, sat_u64. rewrite (Z.min_r _ (stored_epoch _ + 1)), (Z.max_r 0) by (unfold U64_MAX in *; lia).
    fold n. unfold on_store, on_mesh, core_sync_put_setting, put_store_setting, on_author. cbn [se_key se_value se_epoch rt_link]. 
    change (mk_setting _ _ n _) with e. rewrite Hput. cbn. reflexivity.
  - cbn. split_and!; try done. 
    + unfold core_sync_get_setting, setting. cbn. by rewrite lookup_insert_eq.
    + unfold pending_relay_rotation. destruct j as [row|]; [|done]. cbn. destruct (jr_committed_at_ms row) eqn:Hc; [done|]. intros [= <-]. cbn. by rewrite decide_True.
Qed.
End commit.

(** * The sibling *)

Section sibling.
Context `{C : Crypto} `{B : Base64} `{J : CardJson}.
Context (clock : Z).

(** The other entries of a settings record. *)
Definition other_setting (e : SyncSettingEntry) : Prop := se_key e <> SYNC_RELAY_CREDENTIAL_SETTING_KEY /\ blen (se_author_device_id e) = DEVICE_ID_LEN.

Lemma other_put e s : other_setting e -> exists took s', put_store_setting e s = (s', Ok took)
  /\ core_sync_get_setting SYNC_RELAY_CREDENTIAL_SETTING_KEY s' = core_sync_get_setting SYNC_RELAY_CREDENTIAL_SETTING_KEY s.
Proof.
  intros [Hk Ha]. unfold put_store_setting, on_author, put_setting, core_sync_get_setting, ms_sync. rewrite Ha. cbn [Z.eqb negb].
  destruct (match setting _ _ with Some _ => _ | None => _ end); do 2 eexists; (split; [reflexivity|]); [done|].
  unfold setting. cbn. by rewrite lookup_insert_ne.
Qed.

Lemma others_pass roster now entries : Forall other_setting entries -> forall blocked cred s, exists blocked' s',
  settings_loop roster now entries blocked cred s = (s', Ok (blocked', cred))
  /\ core_sync_get_setting SYNC_RELAY_CREDENTIAL_SETTING_KEY s' = core_sync_get_setting SYNC_RELAY_CREDENTIAL_SETTING_KEY s.
Proof.
  induction 1 as [|e entries He Hes IH]; intros blocked cred s; [by exists blocked, s|]. destruct (other_put e s He) as (took & s1 & Hput & Hs1).
  cbn [settings_loop]. rewrite (bool_decide_eq_false_2 (se_key e = _)) by apply He. cbn [andb]. unfold mbind, action_bind. rewrite Hput. rewrite andb_false_r.
  destruct (IH (if took && bool_decide (se_key e = SYNC_BLOCKED_SETTING_KEY) then decode_block_list (se_value e) else blocked) cred s1) as (bl & s2 & H & Hs2).
  exists bl, s2. split; [exact H|]. by rewrite Hs2.
Qed.

Lemma held_settings db person device kind seq sealed now : sy_settings (hold_slot db person device kind seq sealed now).1 = sy_settings db.
Proof. unfold hold_slot. by destruct (sy_slots db !! _). Qed.

Lemma same_credential s s' : sy_settings (ms_sync s') = sy_settings (ms_sync s) -> relay_credential_setting s' = relay_credential_setting s.
Proof. intros H. unfold relay_credential_setting, core_sync_get_setting, setting. by rewrite H. Qed.

Lemma credential_applied record plan epoch device pre post now s :
  rc_kind record = SyncSettings -> core_decode_sync_settings (rc_payload record) = Ok (pre ++ credential_entry plan epoch device :: post) ->
  Forall other_setting (pre ++ post) -> blen device = DEVICE_ID_LEN -> carried (pl_relay_url plan) -> carried (pl_new_token plan) ->
  sy_slots (ms_sync s) !! (rc_author_device_id record, core_sync_record_kind_wire SyncSettings, to_i64 (rc_stream_seq record)) = None ->
  relay_credential_entry_is_admissible (credential_entry plan epoch device) (ms_own_roster s) now = true ->
  (forall old, core_sync_get_setting SYNC_RELAY_CREDENTIAL_SETTING_KEY s = Some old -> se_epoch old < epoch) ->
  exists s' r, core_apply_sync_record clock record now s = (s', Ok r)
    /\ ar_news _ r = Some (RelayCredentialNews (mk_endpoint (pl_relay_url plan) (pl_new_token plan)))
    /\ relay_credential_setting s' = Some (mk_endpoint (pl_relay_url plan) (pl_new_token plan)).
Proof.
  intros Hk Hdec [Hpre Hpost]%Forall_app Hd Hu Ht Hslot Hadm Hold. set (e := credential_entry plan epoch device) in *.
  destruct (others_pass (ms_own_roster s) now pre Hpre [] None s) as (bl1 & s1 & H1 & Hs1).
  assert (exists s2, put_store_setting e s1 = (s2, Ok true) /\ core_sync_get_setting SYNC_RELAY_CREDENTIAL_SETTING_KEY s2 = Some e) as (s2 & H2 & Hs2).
  { eexists. unfold put_store_setting, on_author. rewrite put_newer; [|exact Hd|].
    - split; [reflexivity|]. unfold core_sync_get_setting, setting, ms_sync. cbn. by rewrite lookup_insert_eq.
    - intros old Ho. apply Hold. rewrite <- Hs1. exact Ho. }
  destruct (others_pass (ms_own_roster s) now post Hpost bl1 (Some (mk_endpoint (pl_relay_url plan) (pl_new_token plan))) s2) as (bl3 & s3 & H3 & Hs3).
  destruct (blocking_passes bl3 now s3) as (s4 & H4 & Hs4).
  assert (settings_loop (ms_own_roster s) now (pre ++ e :: post) [] None s = (s3, Ok (bl3, Some (mk_endpoint (pl_relay_url plan) (pl_new_token plan))))) as Hloop.
  { rewrite settings_loop_app, H1. cbn [settings_loop]. rewrite Hadm, andb_false_r. unfold mbind at 1, action_bind at 1. rewrite H2.
    change (se_key e) with SYNC_RELAY_CREDENTIAL_SETTING_KEY. cbn [andb].
    rewrite (bool_decide_eq_false_2 (SYNC_RELAY_CREDENTIAL_SETTING_KEY = SYNC_BLOCKED_SETTING_KEY)) by done.
    rewrite (bool_decide_eq_true_2 (SYNC_RELAY_CREDENTIAL_SETTING_KEY = SYNC_RELAY_CREDENTIAL_SETTING_KEY)) by done.
    unfold e. rewrite (credential_reads_back plan epoch device Hu Ht). exact H3. }
  eexists. eexists. split.
  - unfold core_apply_sync_record. rewrite Hk. change (negb (core_sync_kind_is_stream SyncSettings)) with false. unfold mbind, action_bind, reads at 1. cbv beta iota.
    rewrite Hslot. rewrite bool_decide_eq_false_2 by (by intros []). unfold merge_payload. rewrite Hk. unfold apply_settings, mbind, action_bind, checks, reads, writes.
    rewrite Hdec, Hloop, H4. cbn. reflexivity.
  - split; [reflexivity|]. transitivity (relay_credential_setting s4).
    + apply same_credential. clear H4 Hs4. destruct s4 as [au]. cbn. apply held_settings.
    + rewrite (same_credential s3 s4) by (by rewrite Hs4). unfold relay_credential_setting. rewrite Hs3, Hs2. apply (credential_reads_back plan epoch device Hu Ht).
Qed.
End sibling.

Section wins.
Context `{C : Crypto} `{B : Base64} `{J : CardJson}.

(** C35: a rotated token wins.  Once the device is at the generation the plan was made for,
    the commit succeeds, whatever entry was in the settings before (short of the very last
    epoch), hands back the new endpoint, and publishes it strictly above that entry and no
    lower than the plan's epoch.  Any sibling whose own entry is of an older epoch, whose
    roster has not buried the device, and whose clock does not take the epoch for more than
    three days ahead, ends with the new endpoint as soon as it applies a settings record that
    carries the entry, wherever the entry stands in the record; and it is told. *)
Theorem rotated_credential_wins plan now d : carried (pl_relay_url plan) -> carried (pl_new_token plan) ->
  pl_inbox_key_generation plan <= own_generation d -> 0 <= stored_epoch (ld_mesh (rt_link d)) < U64_MAX ->
  let endpoint := mk_endpoint (pl_relay_url plan) (pl_new_token plan) in
  exists d' c entry, commit_relay_rotation plan now d = (d', Ok c) /\ rc_endpoint c = endpoint
    /\ core_sync_get_setting SYNC_RELAY_CREDENTIAL_SETTING_KEY (ld_mesh (rt_link d')) = Some entry
    /\ relay_credential_setting (ld_mesh (rt_link d')) = Some endpoint
    /\ se_epoch entry = rc_published_epoch c
    /\ stored_epoch (ld_mesh (rt_link d)) < rc_published_epoch c /\ pl_relay_epoch plan <= rc_published_epoch c
    /\ forall clock record pre post now_b b,
         rc_kind record = SyncSettings -> core_decode_sync_settings (rc_payload record) = Ok (pre ++ entry :: post) ->
         Forall other_setting (pre ++ post) ->
         sy_slots (ms_sync b) !! (rc_author_device_id record, core_sync_record_kind_wire SyncSettings, to_i64 (rc_stream_seq record)) = None ->
         (forall roster, ms_own_roster b = Some roster -> se_author_device_id entry ∉ (tomb_device_id <$> tombstones roster)) ->
         rc_published_epoch c <= Z.max (i64_saturating_add now_b RELAY_EPOCH_MAX_SKEW_MS) 0 ->
         stored_epoch b < rc_published_epoch c ->
         exists b' r, core_apply_sync_record clock record now_b b = (b', Ok r) /\ ar_news _ r = Some (RelayCredentialNews endpoint)
           /\ relay_credential_setting b' = Some endpoint.
Proof.
  intros Hu Ht Hg He endpoint. destruct (commit_publishes plan now d Hg He) as (d' & c & Hc & Hend & _ & _ & _ & Hpub & Hset & _).
  exists d', c. eexists. split; [exact Hc|]. split; [exact Hend|]. split; [exact Hset|]. split; [|split; [reflexivity|split; [lia|split; [lia|]]]].
  - unfold relay_credential_setting. rewrite Hset. exact (credential_reads_back plan (rc_published_epoch c) (own_authoring_device_id (ms_author (ld_mesh (rt_link d)))) Hu Ht).
  - intros clock record pre post now_b b Hk Hdec Hother Hslot Hburied Hclock Hold. eapply credential_applied; try done; [apply own_device_named| |].
    + unfold relay_credential_entry_is_admissible. cbn [credential_entry se_epoch se_author_device_id] in *. rewrite (proj2 (Z.leb_le _ _) Hclock).
      destruct (ms_own_roster b) as [roster|]; [|done]. rewrite existsb_none; [done|]. intros t Htomb. apply bool_decide_eq_false. intros Heq.
      apply (Hburied roster eq_refl). apply list_elem_of_fmap. by exists t.
    + intros old Ho. unfold stored_epoch in Hold. by rewrite Ho in Hold.
Qed.
End wins.

(** * The phone and its relay *)

Section recovery.
Context `{C : Crypto} `{B : Base64} {BL : Base64Laws B} `{J : RelayJson}.
Variable ed25519_sign : bytes -> bytes -> bytes.
Variable ed25519_public : bytes -> bytes.
Hypothesis signs : forall sk m, blen sk = 32 ->
  blen (ed25519_public sk) = 32 /\ blen (ed25519_sign sk m) = 64 /\ ed25519_key_ok (ed25519_public sk) = true
  /\ ed25519_verify (ed25519_public sk) m (ed25519_sign sk m) = true.

(** C16: a rotation whose answer is lost is not lost.  The phone writes its plan down and asks
    the relay, with the key the family rotates by or the first it ever uses; the relay
    rotates; the answer does not arrive, and the phone may even have restarted.  The journal
    then names the very same plan.  The same call again is refused, changes nothing, and
    sends the phone to confirm, however often it failed; asked under the new token, the relay
    answers the pair the plan named; and once the phone is at the plan's generation the
    commit of what the journal names succeeds, with the new token as the phone's endpoint,
    and closes the journal. *)
Theorem lost_answer_recovered st relay plan sk body body2 lim auth_now row phone now now' :
  plan_ok plan -> fresh_token st (pl_new_token plan) -> blen (pl_superseded_token plan) < 65536 ->
  pl_superseded_token plan ∉ as_auth_tokens st -> static_deposit_tokens st !! pl_superseded_token plan = None ->
  get_family_on relay (pl_superseded_token plan) = Some row -> check_billing row RotateOp auth_now = Ok tt -> lm_request lim = Ok tt ->
  (fm_rotation_pk row = None \/ fm_rotation_pk row = Some (ed25519_public sk)) ->
  NoDup (credentials relay) -> pl_new_token plan ∉ credentials relay -> deposit_token_for (pl_new_token plan) ∉ credentials relay -> unused (pl_new_token plan) relay ->
  relay_encode_rotate_request ed25519_sign ed25519_public (pl_superseded_token plan) (pl_new_token plan) sk = Ok body ->
  relay_encode_rotate_request ed25519_sign ed25519_public (pl_new_token plan) (pl_new_token plan) sk = Ok body2 ->
  pl_inbox_key_generation plan <= own_generation phone -> 0 <= stored_epoch (ld_mesh (rt_link phone)) < U64_MAX ->
  exists phone1 w w2 relay' answer, begin_relay_rotation plan now phone = (phone1, Ok tt)
    /\ rotate_to_json w = Ok body /\ rotate_to_json w2 = Ok body2
    /\ rotate_family st relay (bearer (pl_superseded_token plan)) lim (rotate_body w) auth_now = (relay', Ok answer)
    /\ pending_relay_rotation phone1 = Some plan
    /\ (exists e, rotate_family st relay' (bearer (pl_superseded_token plan)) lim (rotate_body w) auth_now = (relay', Err e)
          /\ forall after n, core_relay_rotation_next_step (error_answer e).1 (error_answer e).2 after false n = Confirm)
    /\ (exists again, rotate_family st relay' (bearer (pl_new_token plan)) lim (rotate_body w2) auth_now = (relay', Ok again)
          /\ forall reply, rotate_of_json reply = Ok again -> blen reply <= RELAY_MAX_RESPONSE_BODY_BYTES ->
               relay_decode_rotate_response reply (pl_new_token plan) = Ok (mk_rotation (pl_new_token plan) (pl_new_deposit_token plan) 0 false))
    /\ exists phone2 c, commit_relay_rotation plan now' phone1 = (phone2, Ok c)
         /\ rc_endpoint c = mk_endpoint (pl_relay_url plan) (pl_new_token plan) /\ pending_relay_rotation phone2 = None.
Proof.
  intros Hplan Hfr Hlc Hs Hsd Hrow Hbill Hlim Hpk Hnd Hn Hdn Hun He1 He2 Hgen Hepoch. pose proof Hplan as [_ _ Hne Hdep _ _].
  destruct (rotate_request_checked ed25519_sign ed25519_public signs st _ _ sk body Hfr Hlc He1) as (w & auth & Hw & Hck & Hap & Hv).
  assert (blen (pl_new_token plan) < 65536) as Hln by (destruct Hfr as [_ Hl _ _ _ _ _ _]; unfold MAX_FAMILY_TOKEN_LEN in Hl; lia).
  destruct (rotate_request_checked ed25519_sign ed25519_public signs st _ _ sk body2 Hfr Hln He2) as (w2 & auth2 & Hw2 & Hck2 & Hap2 & Hv2). rewrite <- Hap in Hpk.
  destruct (rotate_succeeds relay _ _ auth row Hrow (not_eq_sym Hne) Hv Hpk Hnd Hn Hdn Hun) as (relay' & Hrot & Hfam & Hold). set (fam := with_token _ _) in *.
  destruct (authorize_member st relay _ row RotateOp auth_now Hs Hsd Hrow Hbill) as (a & Hau & Hat).
  destruct (authorize_member st relay' _ fam RotateOp auth_now (ft_static _ _ Hfr) (ft_static_deposit _ _ Hfr) Hfam Hbill) as (a2 & Hau2 & Hat2).
  destruct (journal_remembers plan now phone Hplan) as (phone1 & Hbegin & Hpend & Hlink).
  destruct (commit_publishes plan now' phone1) as (phone2 & c & Hcommit & Hend & _ & _ & _ & _ & _ & Hclosed);
    [unfold own_generation in *; by rewrite Hlink|by rewrite Hlink|].
  exists phone1, w, w2, relay'. eexists. split_and!; [exact Hbegin|exact Hw|exact Hw2| |exact Hpend| | |].
  - unfold rotate_family. rewrite Hau, Hlim. cbn [mbind result_bind]. rewrite Hck. cbn [mbind result_bind]. rewrite Hat, Hrot. reflexivity.
  - exists (Unauthorized "unknown family token"). split; [|done]. unfold rotate_family, authorize_bearer. rewrite bearer_token. cbn [mbind result_bind].
    unfold authorize_family. by rewrite decide_False, Hsd, Hold.
  - eexists. split.
    + unfold rotate_family. rewrite Hau2, Hlim. cbn [mbind result_bind]. rewrite Hck2. cbn [mbind result_bind]. rewrite Hat2.
      rewrite (rotate_repeats relay' _ auth2 fam Hfam); [reflexivity| |done]. rewrite Hap2, <- Hap. done.
    + intros reply Hr Hb. unfold relay_decode_rotate_response, validate_response_body. rewrite (proj2 (Z.leb_le _ _) Hb), Hr.
      cbn [mbind result_bind ensure relay_json rr_family_token rr_deposit_token rr_envelopes_moved rr_rotated]. rewrite Hdep. by rewrite !bool_decide_eq_true_2.
  - exists phone2, c. split; [exact Hcommit|]. split; [exact Hend|]. by apply Hclosed.
Qed.
End recovery.

(** ** Witnesses *)

Section examples.
Local Existing Instances toy_crypto real_b64.

(** The plan moves the toy family to its new token; the phone has no gate yet. *)
Definition toy_plan : RelayRotationPlan :=
  mk_plan (str "https://relay.example") toy_family toy_new_token (relay_deposit_token_for toy_new_token) 100 0 [replicate 16 x07].

Definition toy_phone : rotation_db := mk_rotation_db three_phone None.

Lemma toy_plan_ok : plan_ok toy_plan.
Proof.
  split; [vm_compute; reflexivity|vm_compute; discriminate|vm_compute; discriminate|reflexivity|split; vm_compute; discriminate|repeat constructor].
Qed.

Lemma lost_answer_recovered_witness :
  exists phone1 phone2 c, begin_relay_rotation toy_plan 1000 toy_phone = (phone1, Ok tt) /\ pending_relay_rotation phone1 = Some toy_plan
    /\ commit_relay_rotation toy_plan 2000 phone1 = (phone2, Ok c) /\ pending_relay_rotation phone2 = None.
Proof.
  destruct (get_family_on toy_mailbox toy_family) as [row|] eqn:Hrow; [|vm_compute in Hrow; discriminate].
  destruct (lost_answer_recovered (J := one_page_json (page_wire toy_answer)) toy_sign toy_public toy_signs toy_app toy_mailbox toy_plan toy_root
    [] [] toy_limiter 40 row toy_phone 1000 2000 toy_plan_ok toy_fresh) as (phone1 & w & w2 & relay' & answer & H1 & _ & _ & _ & H2 & _ & _ & phone2 & c & H3 & _ & H4).
  - vm_compute. reflexivity.
  - apply (bool_decide_eq_false_1 (toy_family ∈ as_auth_tokens toy_app)). vm_compute. reflexivity.
  - vm_compute. reflexivity.
  - exact Hrow.
  - vm_compute in Hrow. apply (f_equal (fun o => match o with Some f => check_billing f RotateOp 40 | None => Ok tt end)) in Hrow. symmetry. exact Hrow.
  - reflexivity.
  - left. apply (f_equal (fun o => o ≫= fm_rotation_pk)) in Hrow. cbn in Hrow. rewrite <- Hrow. vm_compute. reflexivity.
  - apply (bool_decide_eq_true_1 (NoDup (credentials toy_mailbox))). vm_compute. reflexivity.
  - apply (bool_decide_eq_false_1 (toy_new_token ∈ credentials toy_mailbox)). vm_compute. reflexivity.
  - apply (bool_decide_eq_false_1 (deposit_token_for toy_new_token ∈ credentials toy_mailbox)). vm_compute. reflexivity.
  - exact toy_unused.
  - vm_compute. reflexivity.
  - vm_compute. reflexivity.
  - vm_compute. discriminate.
  - split; [vm_compute; discriminate|vm_compute; reflexivity].
  - exists phone1, phone2, c. split; [exact H1|]. split; [exact H2|]. split; [exact H3|exact H4].
Defined.

Definition toy_entry : SyncSettingEntry := credential_entry toy_plan 100 LEGACY_DEVICE_ID.

Definition toy_settings_record : SyncRecord :=
  mk_record SyncSettings Roster.toy_person (toy_device 1) (mk_version 0 1) 1 1 500
    (match core_encode_sync_settings [toy_entry] with Ok bs => bs | Err _ => [] end) [].

Lemma toy_carried : carried (pl_relay_url toy_plan) /\ carried (pl_new_token toy_plan).
Proof. split; (split; [vm_compute; reflexivity|]; split; vm_compute; discriminate). Qed.

Lemma rotated_credential_wins_witness :
  exists d' c b' r, commit_relay_rotation toy_plan 2000 toy_phone = (d', Ok c) /\ rc_published_epoch c = 100
    /\ core_apply_sync_record (J := FriendCards.toy_json) 700 toy_settings_record 600 MeshReceive.empty_store = (b', Ok r)
    /\ relay_credential_setting b' = Some (mk_endpoint (str "https://relay.example") toy_new_token).
Proof.
  destruct (rotated_credential_wins (J := FriendCards.toy_json) toy_plan 2000 toy_phone (proj1 toy_carried) (proj2 toy_carried)) as (d' & c & entry & Hc & _ & Hset & _ & He & _ & _ & Hsib).
  - vm_compute. discriminate.
  - split; [vm_compute; discriminate|vm_compute; reflexivity].
  - assert (entry = toy_entry) as ->.
    { pose proof (f_equal (fun o => core_sync_get_setting SYNC_RELAY_CREDENTIAL_SETTING_KEY (ld_mesh (rt_link o.1))) Hc) as H.
      change (core_sync_get_setting SYNC_RELAY_CREDENTIAL_SETTING_KEY (ld_mesh (rt_link (commit_relay_rotation toy_plan 2000 toy_phone).1))
              = core_sync_get_setting SYNC_RELAY_CREDENTIAL_SETTING_KEY (ld_mesh (rt_link d'))) in H.
      rewrite Hset in H. vm_compute in H. injection H as <-. vm_compute. reflexivity. }
    assert (rc_published_epoch c = 100) as Hn by (rewrite <- He; reflexivity).
    destruct (Hsib 700 toy_settings_record [] [] 600 MeshReceive.empty_store) as (b' & r & Hb & _ & Hr).
    + reflexivity.
    + vm_compute. reflexivity.
    + constructor.
    + reflexivity.
    + intros roster H. discriminate H.
    + rewrite Hn. vm_compute. discriminate.
    + rewrite Hn. vm_compute. reflexivity.
    + exists d', c, b', r. split; [exact Hc|]. split; [exact Hn|]. split; [exact Hb|exact Hr].
Defined.
End examples.
